(* ===== verification/_CoqProject ===== *)
-Q . S2P
Prelude.v
Ascii.v
Encoding.v
Huffman.v
Hpack.v
HpackTheory.v
HpackSafety.v
Io.v
ReaderGrammar.v
Frame.v
FrameTheory.v
HeaderRules.v
Effects.v
Http2Heap.v
Http2Connection.v
Http2Turns.v
Http2Send.v
Http2Receive.v
Http2Blocks.v
Http2Traverse.v
Http2Slots.v
Utf8.v
Utf8Theory.v
TextDecoder.v
TextDecoderTheory.v
Utf16Theory.v
Base64.v
WebIdl.v
TextEncoder.v
UrlEncoded.v
FetchHeaders.v
Fields.v
UsvText.v
SearchParams.v
Mime.v
Kmp.v
FormData.v
Multipart.v
MultipartTheory.v
MultipartSafety.v
Http1.v
WebSocketCodec.v
WebSocketAccept.v
PerMessageDeflate.v
WebSocketHandshake.v
Numbers.v
IdlNumbers.v
CookieDate.v
Cookies.v
CookiesTheory.v
CookieJar.v
JarEviction.v
CookieJarTheory.v
JarPolicy.v
JarRestart.v
JarLock.v
CacheControl.v
CacheControlTheory.v
HttpDate.v
Doubles.v
Freshness.v
CacheStore.v
HttpCachePolicy.v
HttpCache.v
HttpCacheTheory.v
HttpCachePool.v
VaryTheory.v
WriteThrough.v
CacheStoreContract.v
Der.v
DerValues.v
DerAttributes.v
DerEnvelope.v
DerRsa.v
DerEc.v
DerOkp.v
