(* ===== verification/Prelude.v ===== *)
(** * Verification of the nts web-platform runtime

    nts compiles TypeScript to native programs; its web platform, under
    [src/runtime/web-platform/src/], implements the Web APIs over native byte
    transports.  The development is about the part of it where bytes from the
    network become values and back: text and binary codecs, header lists, HTTP/1
    messages, HTTP/2 with HPACK, WebSocket, cookies, forms, the HTTP cache and keys.
    File names below are relative to that directory.

    ** The parts, and how they fit

    - Foundations.  [Prelude] has the errors, the [result] monad, JavaScript's
      integers and typed arrays, and the lemmas and tactics all files share.
      [Ascii] (core/ascii.ts) and [Encoding] (core/encoding.ts) have white space and
      byte strings.
    - Text.  [Utf8], [Utf8Theory] (core/utf8.ts), [TextDecoder],
      [TextDecoderTheory], [Utf16Theory], [TextEncoder] (core/encoding.ts),
      [WebIdl] (core/webidl.ts), [Base64] (core/base64.ts), [UrlEncoded]
      (core/percent.ts, forms/urlencoded-decode.ts).
    - Forms.  [UsvText] has the strings without unpaired surrogates, which forms
      keep; [SearchParams] is forms/search-params.ts, [Mime] forms/mime.ts,
      [FormData] forms/form-data.ts with the files of file/blob.ts, [Kmp] the search
      of forms/multipart-decode.ts and [Multipart] the rest of it with
      forms/multipart.ts.  [MultipartTheory] and [MultipartSafety] are about both
      ends.
    - Numbers.  [Numbers] has the part of the number type that the code uses, a
      double as an integer times a power of two, and decimal texts; [IdlNumbers]
      (core/webidl.ts) the integer conversions of Web IDL.
    - Reading and writing a transport.  [Io] (http1/io.ts) has [BufferedReader] and
      [writeAll] over a [Transport], a class that states what the provider of byte
      connections documents; its theorems say that results do not depend on the
      chunks.  [ReaderGrammar] turns them into grammars: what a parser over a reader
      accepts is a relation on the bytes pending in it.
    - HTTP/1.  [Http1] (http1/parser.ts) on [Io], with [FetchHeaders]
      (fetch/headers.ts) for what it reads and [Fields] (http/fields.ts) for the
      list-valued fields that decide a message's framing.
    - HTTP/2.  [Huffman] and [Hpack] (http2/hpack-huffman.ts, http2/hpack.ts)
      compress headers, with [HpackTheory] and [HpackSafety]; [Frame] and
      [FrameTheory] (http2/frame.ts) read and write frames and join header blocks;
      [HeaderRules] (http2/headers.ts) says which header lists are messages.  The
      connection (http2/connection.ts) composes them: [Http2Heap] is its state,
      [Http2Connection] its methods.
    - WebSocket.  [WebSocketCodec] (websocket/codec.ts) on [Io], [WebSocketAccept]
      (the digest of websocket/handshake.ts), [PerMessageDeflate]
      (websocket/permessage-deflate.ts) and [WebSocketHandshake]
      (websocket/handshake.ts, websocket/server-handshake.ts,
      websocket/semantics.ts), on [FetchHeaders].
    - Cookies.  [CookieDate] (the dates of cookies/cookies.ts), [Cookies] and
      [CookiesTheory] (the rest of it, on [FetchHeaders]); the jar
      (cookies/jar.ts) in [CookieJar], over a store that is the class
      [CookieStore], with its order of eviction in [JarEviction].
    - HTTP cache.  [CacheControl] and [CacheControlTheory] (cache/cache-control.ts),
      [HttpDate] and [Freshness] (cache/freshness.ts) over the numbers of [Doubles],
      [CacheStore] (cache/store.ts); cache/http-cache.ts is in [HttpCachePolicy] (its
      functions, with the key of [Vary] in [VaryTheory]), [HttpCache] (its methods)
      and [WriteThrough] (the streams that fill the store).  [HttpCacheTheory] has
      the rules and the specification of its programs, [HttpCachePool] runs them
      beside each other, over any store that keeps the contract which
      [CacheStoreContract] proves of the one in memory.

    - Keys (crypto/der.ts).  [Der] has the reader of DER elements, [DerValues] and
      [DerAttributes] the values of open types, checked with a stack,
      [DerEnvelope] what the parsers share and a calculus of parsers, and [DerRsa],
      [DerEc] and [DerOkp] the keys.

    ** How the code is modelled

    A function that may throw returns a [result]; a class is a record, a method a
    function from the record to the record and a result, so that what was changed
    before a throw stays changed.  A byte, a code unit or a number is a [Z]; an
    operation of 32-bit integers wraps as JavaScript's does.  A loop whose length
    the types do not bound has fuel, computed from the input by its caller, and
    either a theorem states that the result is never [OutOfFuel] or the theorems
    about the result say when it is [Ok], which excludes it.

    The connection is asynchronous.  [Effects] has the monad of one turn, the code
    between two suspensions; in [Http2Connection] every [async] method is cut at its
    [await]s and what it keeps across one is in the heap, so that a run is a list of
    [event]s in any order whatever: frames, ends of writes, starts and aborts of
    requests, chunks of uploads, reads and cancellations of bodies, continuations.
    A theorem about [run] holds for every scheduling of the microtasks.

    The cache is asynchronous too, but its methods read more than they write: in
    [HttpCache] they are trees of calls, each followed by what the code does with any
    answer, and [runs] is their logic: a program makes only the calls that it may
    and ends with its postcondition in every history of calls and answers that the
    others, the store and the network can make.

    ** What is shown

    - The codecs are inverse to one another and equal to the algorithms of their
      standards: HPACK sessions, Huffman, frames, SETTINGS, WebSocket frames and
      close payloads, base64, UTF-8 and UTF-16, form data, SHA-1.
    - Form data that are written are read back: as multipart bodies under the
      content type that is sent with them ([MultipartTheory]), and as query strings,
      which [URLSearchParams] and the decoder of bodies read alike
      ([SearchParams]); MIME types are read back from their text ([Mime]).
    - What the parsers accept is stated as a grammar, in both directions: request
      and response heads, chunk sizes, WebSocket frames, header lists of HTTP/2.
    - No input makes the decoders loop or exceed their limits ([HpackSafety],
      [MultipartSafety]; the search of [Kmp] finds first occurrences), and
      no chunking of a stream changes a result ([Io], [TextDecoderTheory],
      [Utf16Theory]).
    - Two ends agree: HPACK encoder and decoder, the WebSocket handshake, the
      negotiation of compression, the header blocks that a connection sends and the
      assembler of its peer ([Http2Blocks]).
    - Every run of an HTTP/2 connection obeys the peer's flow control ([Http2Send]),
      bounds what it buffers and pays back what was consumed ([Http2Receive]), lets
      no request wait for a free slot, opens streams in ascending order, and shuts
      down ([Http2Slots]).  [Http2Turns] and [Http2Traverse] carry these invariants
      through the methods that do not touch them.
    - A cookie that is written on a header is read back ([CookiesTheory],
      [CookieDate]).  Every run of a cookie jar keeps its cookies well formed,
      distinct, within the limits and in step with the store
      ([CookieJarTheory]); a request gets exactly the cookies of RFC 6265bis, and
      may set no others than it permits ([JarPolicy]); a jar that is opened on the
      store of another continues it ([JarRestart]); calls that overlap run one
      after the other and all end ([JarLock]).
    - Cache-Control and the dates are read as their grammars say, and no text after
      a directive weakens it ([CacheControlTheory], [HttpDate]).  Requests that run
      beside each other get a response from the network, a stored one that they may
      reuse or one validated, and no-store is respected ([HttpCachePool]); only whole
      bodies are committed ([WriteThrough]); the store in memory keeps the most
      recent responses that fit ([CacheStore]).
    - The parsers of keys accept exactly the DER encodings of what they return
      ([DerRsa], [DerEc], [DerOkp]), nested attributes included ([DerAttributes]).

    ** What is not modelled

    - Conversions of arbitrary JavaScript values: the functions take strings, bytes
      and integers.
    - Above the connection: the pools and transports of both HTTP versions, fetch
      and dispatch.  They are promise scheduling around native sockets and timers.
      Within the connection, the stream of a response's body is reduced to its state
      and the chunks it was given, the callbacks of the application (informational
      responses) answer at once without calling back, and the byte connection is
      what reports the end of a write and the next frame.
    - The compression contexts of permessage-deflate, the digests and ciphers of
      the crypto provider, the URL parser and the public suffix list: native code.
      Where a modelled function calls one, it is an argument; so are the random
      bytes of a multipart boundary.
    - The segments, streams and external sources of a Blob: a file is its bytes, its
      name and its type.
    - The rest of the repository: the compiler, the native runtimes, the port of
      React, the Node modules, tooling and tests.
    - Stores of cookies and responses in native files, and the Cache API over
      Request and Response objects. *)

From stdpp Require Export base list numbers strings option sets.
From Stdlib Require Export ZArith Lia.

#[export] Set Default Goal Selector "!".
Global Open Scope Z_scope.

(** ** Errors and results *)

(** The exceptions the modelled code throws.  [OutOfFuel] is no JavaScript
    value: a loop modelled with a bound returns it when the bound is reached. *)
Inductive js_error :=
| ProtocolError (msg : string)
| LimitError (msg : string)
| RangeError (msg : string)
| TypeError (msg : string)
| DOMException (msg name : string)
| Http2WireError (msg : string) (errorCode : Z) (streamId : option Z)
| OutOfFuel.

(** A call either returns or throws. *)
Inductive result (A : Type) :=
| Ok (a : A)
| Err (e : js_error).
Arguments Ok {A} a.
Arguments Err {A} e.

#[export] Instance js_error_eq_dec : EqDecision js_error.
Proof. solve_decision. Defined.
#[export] Instance result_eq_dec {A} `{EqDecision A} : EqDecision (result A).
Proof. solve_decision. Defined.

#[export] Instance result_ret : MRet result := fun A a => Ok a.
#[export] Instance result_bind : MBind result := fun A B k m =>
  match m with Ok a => k a | Err e => Err e end.
#[export] Instance result_fmap : FMap result := fun A B f m =>
  match m with Ok a => Ok (f a) | Err e => Err e end.

(** [if (c) throw e;] *)
Definition throw_if (c : bool) (e : js_error) : result unit :=
  if c then Err e else Ok tt.

Definition is_ok {A} (r : result A) : bool :=
  match r with Ok _ => true | Err _ => false end.

(** A model that stops for a reason the code has, never for lack of fuel. *)
Definition finishes {A} (r : result A) : Prop := r <> Err OutOfFuel.

(** A computation over a local mutable cursor: the state is lost on a throw. *)
Definition ST (S A : Type) : Type := S -> result (A * S).

#[export] Instance ST_ret {S} : MRet (ST S) := fun A a s => Ok (a, s).
#[export] Instance ST_bind {S} : MBind (ST S) := fun A B k m s =>
  match m s with Ok (a, s') => k a s' | Err e => Err e end.

Definition st_lift {S A} (r : result A) : ST S A := fun s =>
  match r with Ok a => Ok (a, s) | Err e => Err e end.
Definition st_get {S} : ST S S := fun s => Ok (s, s).
Definition st_put {S} (s : S) : ST S unit := fun _ => Ok (tt, s).

(** ** JavaScript numbers

    Every number of the modelled code is an integer of magnitude at most
    [2^53 - 1], where binary64 arithmetic is exact, so a number is a [Z].  The
    bit operators convert to 32 bits first, as ECMA-262 says. *)

Definition MAX_SAFE_INTEGER : Z := 9007199254740991.
Definition isSafeInteger (z : Z) : bool := Z.abs z <=? MAX_SAFE_INTEGER.

Definition to_uint32 (z : Z) : Z := z mod 4294967296.
Definition to_int32 (z : Z) : Z := (z + 2147483648) mod 4294967296 - 2147483648.
Definition to_uint8 (z : Z) : Z := z mod 256.

Definition js_and (a b : Z) : Z := Z.land (to_int32 a) (to_int32 b).
Definition js_or (a b : Z) : Z := Z.lor (to_int32 a) (to_int32 b).
Definition js_xor (a b : Z) : Z := Z.lxor (to_int32 a) (to_int32 b).
Definition js_shl (a n : Z) : Z := to_int32 (Z.shiftl (to_int32 a) (to_uint32 n mod 32)).
Definition js_shr (a n : Z) : Z := Z.shiftr (to_int32 a) (to_uint32 n mod 32).
Definition js_ushr (a n : Z) : Z := Z.shiftr (to_uint32 a) (to_uint32 n mod 32).

Declare Scope js_scope.
Delimit Scope js_scope with js.
Infix ".&" := js_and (at level 40, left associativity) : js_scope.
Infix ".|" := js_or (at level 50, left associativity) : js_scope.
Infix ".^" := js_xor (at level 45, left associativity) : js_scope.
Infix ".<<" := js_shl (at level 38, left associativity) : js_scope.
Infix ".>>" := js_shr (at level 38, left associativity) : js_scope.
Infix ".>>>" := js_ushr (at level 38, left associativity) : js_scope.
Global Open Scope js_scope.

(** ** Arrays, byte arrays and strings *)

(** [a.length] *)
Definition len {A} (l : list A) : Z := Z.of_nat (length l).

(** [a[i]]: [undefined] outside the array. *)
Definition at_ {A} (l : list A) (i : Z) : option A :=
  if i <? 0 then None else l !! Z.to_nat i.

(** [a[i] ?? d] *)
Definition at_or {A} (d : A) (l : list A) (i : Z) : A := default d (at_ l i).

(** [a.subarray(s, e)] and [a.slice(s, e)] for [0 <= s] and [0 <= e]. *)
Definition subarray {A} (l : list A) (s e : Z) : list A :=
  take (Z.to_nat (e - s)) (drop (Z.to_nat s) l).

(** [a[i] = v] on a [Uint8Array]: the value is taken modulo 256 and a write
    outside the array does nothing. *)
Definition set_u8 (l : list Z) (i v : Z) : list Z :=
  if i <? 0 then l else <[Z.to_nat i := to_uint8 v]> l.

(** [new Uint8Array(n)] *)
Definition zeros (n : Z) : list Z := replicate (Z.to_nat n) 0.

(** [a.set(b, o)] for [o + b.length <= a.length]. *)
Definition set_range (l : list Z) (o : Z) (b : list Z) : list Z :=
  take (Z.to_nat o) l ++ b ++ drop (Z.to_nat o + length b) l.

Definition is_byte (b : Z) : Prop := 0 <= b < 256.
Abbreviation is_bytes := (Forall is_byte).

(** A string is its list of UTF-16 code units. *)
Abbreviation jsstr := (list Z) (only parsing).
Definition is_unit (c : Z) : Prop := 0 <= c < 65536.
#[export] Instance is_byte_dec b : Decision (is_byte b).
Proof. unfold is_byte. apply _. Defined.
#[export] Instance is_unit_dec c : Decision (is_unit c).
Proof. unfold is_unit. apply _. Defined.
Abbreviation is_jsstr := (Forall is_unit).

(** The code units of an ASCII literal. *)
Fixpoint u (s : string) : jsstr :=
  match s with
  | EmptyString => []
  | String c s => Z.of_N (Ascii.N_of_ascii c) :: u s
  end.

(** [a.indexOf(x, position)] for one element: [-1] when there is none. *)
Fixpoint index_of_from (x : Z) (l : list Z) (i : Z) : Z :=
  match l with
  | [] => -1
  | y :: l => if y =? x then i else index_of_from x l (i + 1)
  end.

Definition js_indexOf (l : list Z) (x position : Z) : Z :=
  index_of_from x (drop (Z.to_nat position) l) position.

(** [a.split(x)] for a one-unit separator. *)
Fixpoint js_split (x : Z) (l : jsstr) : list jsstr :=
  match l with
  | [] => [[]]
  | y :: l =>
      if y =? x then [] :: js_split x l
      else match js_split x l with
           | part :: parts => (y :: part) :: parts
           | [] => [[y]]
           end
  end.

(** [a.startsWith(x)] and [a.endsWith(x)] for one code unit. *)
Definition starts_with (x : Z) (l : jsstr) : bool := bool_decide (head l = Some x).
Definition ends_with (x : Z) (l : jsstr) : bool := bool_decide (last l = Some x).

(** A range of code units. *)
Definition in_range (lo hi c : Z) : bool := (lo <=? c) && (c <=? hi).

(** The value of a string of decimal digits. *)
Definition decimal (l : jsstr) : Z := foldl (fun v c => 10 * v + (c - 48)) 0 l.

(** [a.toLowerCase()], for units of one byte. *)
Definition lower_latin (c : Z) : Z := if in_range 65 90 c || (in_range 192 222 c && negb (c =? 215)) then c + 32 else c.
Definition to_lower (l : jsstr) : jsstr := lower_latin <$> l.

(** [a < b] on strings: by code units. *)
Fixpoint str_ltb (a b : jsstr) : bool :=
  match a, b with
  | _, [] => false
  | [], _ :: _ => true
  | x :: a, y :: b => (x <? y) || ((x =? y) && str_ltb a b)
  end.

(** [parts.join(separator)] *)
Fixpoint js_join (separator : jsstr) (parts : list jsstr) : jsstr :=
  match parts with
  | [] => []
  | [part] => part
  | part :: parts => part ++ separator ++ js_join separator parts
  end.

(** [a === b] on strings. *)
Definition str_eqb (a b : jsstr) : bool := bool_decide (a = b).

(** ** Loops *)

(** The indices of [for (let i = n - 1; i >= 0; i--)]. *)
Definition downto (n : Z) : list Z := reverse (seqZ 0 n).

(** A [for ... of] loop whose body may throw. *)
Fixpoint foldM {A B} (f : A -> B -> result A) (a : A) (l : list B) : result A :=
  match l with
  | [] => Ok a
  | b :: l => a ← f a b; foldM f a l
  end.

(** ** Lemmas on numbers *)

(** A decidable claim about concrete values is computed. *)
Ltac by_computing := apply (bool_decide_unpack _); vm_compute; exact I.

Ltac div_lia := Z.div_mod_to_equations; lia.

Lemma to_int32_small z : -2147483648 <= z < 2147483648 -> to_int32 z = z.
Proof. intros H. unfold to_int32. rewrite Z.mod_small by lia. lia. Qed.

Lemma to_uint32_small z : 0 <= z < 4294967296 -> to_uint32 z = z.
Proof. intros H. unfold to_uint32. by rewrite Z.mod_small. Qed.

Lemma to_int32_range z : -2147483648 <= to_int32 z < 2147483648.
Proof. unfold to_int32. div_lia. Qed.

Lemma to_uint8_byte z : is_byte (to_uint8 z).
Proof. unfold is_byte, to_uint8. div_lia. Qed.

Lemma to_uint8_small z : is_byte z -> to_uint8 z = z.
Proof. unfold is_byte, to_uint8. intros. by rewrite Z.mod_small. Qed.

Lemma pow2_pos k : 0 <= k -> 0 < 2 ^ k.
Proof. intros. apply Z.pow_pos_nonneg; lia. Qed.

Lemma pow2_le k n : 0 <= k <= n -> 2 ^ k <= 2 ^ n.
Proof. intros. apply Z.pow_le_mono_r; lia. Qed.


(** [ToInt32] changes a number by a multiple of [2^32]. *)
Lemma to_int32_mod a : exists q, to_int32 a = a + q * 4294967296.
Proof.
  unfold to_int32. exists (- ((a + 2147483648) / 4294967296)).
  pose proof (Z.div_mod (a + 2147483648) 4294967296). lia.
Qed.

(** Masking with [2^k - 1] keeps the low [k] bits. *)
Lemma js_and_ones a k : 0 <= k <= 31 -> a .& (2 ^ k - 1) = a mod 2 ^ k.
Proof.
  intros Hk. unfold js_and.
  pose proof (pow2_pos k ltac:(lia)). pose proof (pow2_le k 31 ltac:(lia)).
  rewrite (to_int32_small (2 ^ k - 1)) by lia.
  replace (2 ^ k - 1) with (Z.ones k) by (rewrite Z.ones_equiv; lia).
  rewrite Z.land_ones by lia.
  destruct (to_int32_mod a) as [q ->].
  replace 4294967296 with (2 ^ (32 - k) * 2 ^ k)
    by (rewrite <- Z.pow_add_r by lia; by replace (32 - k + k) with 32 by lia).
  rewrite Z.mul_assoc. apply Z.mod_add. lia.
Qed.

(** A disjoint [|] is an addition. *)
Lemma lor_add_low a b k : 0 <= k -> a mod 2 ^ k = 0 -> 0 <= b < 2 ^ k -> Z.lor a b = a + b.
Proof.
  intros Hk Ha Hb. symmetry. rewrite <- Z.lxor_lor; [apply Z.add_nocarry_lxor|].
  all: apply Z.bits_inj'; intros n Hn; rewrite Z.land_spec, Z.bits_0;
    apply andb_false_iff; destruct (decide (n < k)).
  1,3: left; rewrite <- (Z.mod_pow2_bits_low a k n) by lia; rewrite Ha; apply Z.bits_0.
  all: right; rewrite <- (Z.mod_small b (2 ^ k)) by lia; apply Z.mod_pow2_bits_high; lia.
Qed.

Lemma js_or_add a b k :
  0 <= k -> 0 <= a -> a mod 2 ^ k = 0 -> 0 <= b < 2 ^ k -> a + b < 2147483648 -> a .| b = a + b.
Proof.
  intros. unfold js_or. rewrite !to_int32_small by lia. by apply (lor_add_low a b k).
Qed.

Lemma js_shl_mul a k : 0 <= k < 32 -> 0 <= a -> a * 2 ^ k < 2147483648 -> a .<< k = a * 2 ^ k.
Proof.
  intros Hk Ha H. pose proof (pow2_pos k ltac:(lia)).
  unfold js_shl. rewrite (to_uint32_small k), (Z.mod_small k) by lia.
  rewrite (to_int32_small a) by nia. rewrite Z.shiftl_mul_pow2 by lia.
  apply to_int32_small. nia.
Qed.

Lemma js_shr_div a k : 0 <= k < 32 -> 0 <= a < 2147483648 -> a .>> k = a / 2 ^ k.
Proof.
  intros Hk Ha. unfold js_shr. rewrite (to_uint32_small k), (Z.mod_small k) by lia.
  rewrite (to_int32_small a) by lia. by rewrite Z.shiftr_div_pow2 by lia.
Qed.

Lemma js_ushr_div a k : 0 <= k < 32 -> 0 <= a < 4294967296 -> a .>>> k = a / 2 ^ k.
Proof.
  intros Hk Ha. unfold js_ushr. rewrite (to_uint32_small k), (Z.mod_small k) by lia.
  rewrite (to_uint32_small a) by lia. by rewrite Z.shiftr_div_pow2 by lia.
Qed.

(** A boolean fact about every byte is checked by computation. *)
Lemma byte_check (P : Z -> bool) :
  forallb P (seqZ 0 256) = true -> forall b, is_byte b -> P b = true.
Proof.
  intros H b Hb. apply forallb_forall with (x := b) in H; [done|].
  apply list_elem_of_In, elem_of_seqZ. unfold is_byte in Hb. lia.
Qed.

(** ** Lemmas on lists and loops *)

Lemma len_nonneg {A} (l : list A) : 0 <= len l.
Proof. unfold len. lia. Qed.

Lemma len_app {A} (l k : list A) : len (l ++ k) = len l + len k.
Proof. unfold len. rewrite length_app. lia. Qed.

Lemma len_nil {A} : len (@nil A) = 0.
Proof. done. Qed.

Lemma len_cons {A} (x : A) l : len (x :: l) = len l + 1.
Proof. unfold len. cbn [length]. lia. Qed.

Lemma at_or_Forall {A} (P : A -> Prop) d l i : P d -> Forall P l -> P (at_or d l i).
Proof.
  intros Hd Hl. unfold at_or, at_. destruct (i <? 0); [done|].
  destruct (l !! Z.to_nat i) as [x|] eqn:E; [|done].
  by apply (Forall_lookup_1 P l (Z.to_nat i) x).
Qed.

Lemma elem_of_downto n i : i ∈ downto n <-> 0 <= i < n.
Proof. unfold downto. rewrite elem_of_reverse, elem_of_seqZ. lia. Qed.

Lemma foldl_fmap_in {A B C} (f : A -> B -> A) (h : A -> C -> A) (g : B -> C) l : forall a,
  (forall a x, x ∈ l -> f a x = h a (g x)) -> foldl f a l = foldl h a (g <$> l).
Proof.
  induction l as [|x l IH]; intros a H; [done|]. cbn.
  rewrite H by set_solver. apply IH. set_solver.
Qed.

Lemma foldl_bind {A B C} (f : A -> C -> A) (g : B -> list C) (l : list B) : forall a,
  foldl (fun a x => foldl f a (g x)) a l = foldl f a (l ≫= g).
Proof. induction l as [|x l IH]; intros a; [done|]. cbn. by rewrite foldl_app, IH. Qed.

Lemma filter_none {A} (P : A -> Prop) `{forall x, Decision (P x)} l : (forall x, x ∈ l -> ~ P x) -> filter P l = [].
Proof.
  induction l as [|x l IH]; intros Hl; [done|]. rewrite filter_cons_False by (apply Hl; by constructor).
  apply IH. intros y Hy. apply Hl. by constructor.
Qed.

Section FoldM.
Context {A B : Type}.

Lemma foldM_app (f : A -> B -> result A) l k a :
  foldM f a (l ++ k) = a ← foldM f a l; foldM f a k.
Proof.
  revert a. induction l as [|x l IH]; intros a; [done|].
  cbn. destruct (f a x); cbn; [apply IH|done].
Qed.

Lemma foldM_fmap_in {C} (f : A -> C -> result A) (h : A -> B -> result A) (g : C -> B) l : forall a,
  (forall a x, x ∈ l -> f a x = h a (g x)) -> foldM f a l = foldM h a (g <$> l).
Proof.
  induction l as [|x l IH]; intros a H; [done|]. cbn. rewrite H by set_solver.
  destruct (h a (g x)); cbn; [|done]. apply IH. set_solver.
Qed.

Lemma foldM_bind {C} (f : A -> B -> result A) (g : C -> list B) (l : list C) : forall a,
  foldM (fun a x => foldM f a (g x)) a l = foldM f a (l ≫= g).
Proof.
  induction l as [|x l IH]; intros a; [done|]. cbn. rewrite foldM_app.
  destruct (foldM f a (g x)); cbn; [apply IH|done].
Qed.

(** An invariant of the body is an invariant of the loop. *)
Lemma foldM_inv (P : A -> Prop) (f : A -> B -> result A) l : forall a a',
  (forall a x a', x ∈ l -> P a -> f a x = Ok a' -> P a') ->
  P a -> foldM f a l = Ok a' -> P a'.
Proof.
  induction l as [|x l IH]; intros a a' Hf Ha Hrun; cbn in Hrun; [by injection Hrun as <-|].
  destruct (f a x) as [b|] eqn:E; cbn in Hrun; [|done].
  eapply IH; [| |done]; [set_solver|]. eapply Hf; [|done|done]. set_solver.
Qed.
End FoldM.

Lemma foldM_cons {A B} (f : A -> B -> result A) a x l :
  foldM f a (x :: l) = match f a x with Ok a => foldM f a l | Err e => Err e end.
Proof. done. Qed.

Lemma at_app_mid {A} (pre : list A) b rest : at_ (pre ++ b :: rest) (len pre) = Some b.
Proof.
  unfold at_, len. destruct (Z.ltb_spec (Z.of_nat (length pre)) 0); [lia|].
  rewrite Nat2Z.id, lookup_app_r, Nat.sub_diag by lia. done.
Qed.

Lemma at_app_r {A} (pre l : list A) i : 0 <= i -> at_ (pre ++ l) (len pre + i) = at_ l i.
Proof.
  intros Hi. unfold at_, len. destruct (Z.ltb_spec (Z.of_nat (length pre) + i) 0), (Z.ltb_spec i 0); try lia.
  rewrite lookup_app_r by lia. f_equal. lia.
Qed.

Lemma subarray_app_mid {A} (pre mid rest : list A) :
  subarray (pre ++ mid ++ rest) (len pre) (len pre + len mid) = mid.
Proof.
  unfold subarray, len. rewrite Nat2Z.id, drop_app_length.
  replace (Z.to_nat _) with (length mid) by lia. apply take_app_length.
Qed.

Lemma at_Some {A} (l : list A) i x : at_ l i = Some x -> 0 <= i < len l.
Proof.
  unfold at_, len. destruct (Z.ltb_spec i 0); [done|]. intros Hl%lookup_lt_Some. lia.
Qed.

Lemma at_Forall {A} (P : A -> Prop) l i x : Forall P l -> at_ l i = Some x -> P x.
Proof.
  unfold at_. destruct (i <? 0); [done|]. intros Hl Hx. by eapply Forall_lookup_1.
Qed.

Lemma at_total {A} (l : list A) i : 0 <= i < len l -> exists x, at_ l i = Some x.
Proof.
  unfold at_, len. intros Hi. destruct (Z.ltb_spec i 0); [lia|].
  destruct (l !! Z.to_nat i) as [x|] eqn:E; [by exists x|]. apply lookup_ge_None in E. lia.
Qed.

Lemma subarray_bytes l s e : is_bytes l -> is_bytes (subarray l s e).
Proof. intros H. unfold subarray. by apply Forall_take, Forall_drop. Qed.

(** The first part of a split string, and the parts after it. *)
Lemma split_first x l : exists piece tail, l = piece ++ tail /\ x ∉ piece /\
  (tail = [] /\ js_split x l = [piece] \/ exists t, tail = x :: t /\ js_split x l = piece :: js_split x t).
Proof.
  induction l as [|y l IH]; [exists [], []; split_and!; [done|set_solver|by left]|]. cbn [js_split].
  destruct (Z.eqb_spec y x) as [->|Hy].
  - exists [], (x :: l). split_and!; [done|set_solver|]. right. by exists l.
  - destruct IH as (piece & tail & -> & Hn & [[-> ->]|(t & -> & ->)]); exists (y :: piece).
    + exists []. split_and!; [done|set_solver|by left].
    + exists (x :: t). split_and!; [done|set_solver|]. right. by exists t.
Qed.

Lemma js_split_one x l : x ∉ l -> js_split x l = [l].
Proof.
  induction l as [|y l IH]; intros Hl; [done|]. cbn [js_split]. rewrite IH by set_solver.
  destruct (Z.eqb_spec y x); [set_solver|done].
Qed.

Lemma js_split_app x a b : x ∉ a -> js_split x (a ++ x :: b) = a :: js_split x b.
Proof.
  induction a as [|y a IH]; intros Ha; cbn [app js_split]; [by rewrite Z.eqb_refl|]. rewrite IH by set_solver.
  destruct (Z.eqb_spec y x); [set_solver|done].
Qed.

(** A longest run of elements that satisfy [p] is unique. *)
Lemma span_unique {A} (p : A -> Prop) a a' x x' : a ++ x = a' ++ x' -> Forall p a -> Forall p a' ->
  (forall c, head x = Some c -> ~ p c) -> (forall c, head x' = Some c -> ~ p c) -> a = a' /\ x = x'.
Proof.
  revert a'. induction a as [|c a IH]; intros [|c' a'] E Ha Ha' Hx Hx'; cbn in E; try done.
  - subst x. apply Forall_cons in Ha' as [Hc _]. by destruct (Hx c').
  - subst x'. apply Forall_cons in Ha as [Hc _]. by destruct (Hx' c).
  - injection E as <- E. apply Forall_cons in Ha as [_ Ha]. apply Forall_cons in Ha' as [_ Ha'].
    by destruct (IH a' E Ha Ha' Hx Hx') as [-> ->].
Qed.

Lemma index_of_from_spec x l : forall i, 0 <= i ->
  (index_of_from x l i = -1 /\ x ∉ l) \/
  exists a b, l = a ++ x :: b /\ x ∉ a /\ index_of_from x l i = i + len a.
Proof.
  induction l as [|y l IH]; intros i Hi; cbn [index_of_from]; [left; set_solver|].
  destruct (Z.eqb_spec y x) as [->|Hne].
  - right. exists [], l. rewrite (@len_nil Z). split_and!; [done|set_solver|lia].
  - destruct (IH (i + 1)) as [[-> Hn]|(a & b & -> & Ha & ->)]; [lia|left; set_solver|right].
    exists (y :: a), b. rewrite len_cons. split_and!; [done|set_solver|lia].
Qed.

Lemma index_of_from_app x a b i : 0 <= i -> x ∉ a -> index_of_from x (a ++ x :: b) i = i + len a.
Proof.
  revert i. induction a as [|y a IH]; intros i Hi Ha; cbn [index_of_from app].
  - rewrite Z.eqb_refl, (@len_nil Z). lia.
  - destruct (Z.eqb_spec y x) as [->|]; [set_solver|]. rewrite IH, len_cons by (set_solver || lia). lia.
Qed.

Lemma index_of_from_none x l i : x ∉ l -> index_of_from x l i = -1.
Proof.
  revert i. induction l as [|y l IH]; intros i Hl; cbn [index_of_from]; [done|].
  destruct (Z.eqb_spec y x) as [->|]; [set_solver|]. apply IH. set_solver.
Qed.

Lemma len_take {A} (l : list A) n : 0 <= n <= len l -> len (take (Z.to_nat n) l) = n.
Proof. unfold len. intros Hn. rewrite length_take. lia. Qed.

Lemma len_drop {A} (l : list A) n : 0 <= n <= len l -> len (drop (Z.to_nat n) l) = len l - n.
Proof. unfold len. intros Hn. rewrite length_drop. lia. Qed.

Lemma take_drop_add {A} (l : list A) a b : 0 <= a -> 0 <= b ->
  take (Z.to_nat b) (drop (Z.to_nat a) l) ++ drop (Z.to_nat (a + b)) l = drop (Z.to_nat a) l.
Proof.
  intros Ha Hb. rewrite Z2Nat.inj_add by done. rewrite <- drop_drop. apply take_drop.
Qed.

Lemma zeros_cons k : 1 <= k -> zeros k = 0 :: zeros (k - 1).
Proof. intros Hk. unfold zeros. by replace (Z.to_nat k) with (S (Z.to_nat (k - 1))) by lia. Qed.

(** The next byte of an array that is filled from the start. *)
Lemma set_u8_zeros done_ k v : 1 <= k -> is_byte v ->
  set_u8 (done_ ++ zeros k) (len done_) v = (done_ ++ [v]) ++ zeros (k - 1).
Proof.
  intros Hk Hv. unfold set_u8, len. destruct (Z.ltb_spec (Z.of_nat (length done_)) 0); [lia|].
  rewrite Nat2Z.id, zeros_cons, insert_app_r_alt, Nat.sub_diag by lia. cbn.
  by rewrite to_uint8_small, <- app_assoc.
Qed.

Lemma str_eqb_true a b : str_eqb a b = true -> a = b.
Proof. apply bool_decide_eq_true. Qed.

Lemma str_eqb_false a b : str_eqb a b = false -> a <> b.
Proof. apply bool_decide_eq_false. Qed.

(** ** Results *)

Create HintDb finishes.

Lemma finishes_ok {A} (a : A) : finishes (Ok a).
Proof. done. Qed.

Lemma finishes_throw_if c e : e <> OutOfFuel -> finishes (throw_if c e).
Proof. intros He. unfold throw_if. destruct c; [|done]. intros [= ->]. done. Qed.

Lemma finishes_bind {A B} (m : result A) (k : A -> result B) :
  finishes m -> (forall a, m = Ok a -> finishes (k a)) -> finishes (m ≫= k).
Proof. unfold finishes. destruct m as [a|e]; cbn; [auto|]. intros He _ [= ->]. done. Qed.

Lemma finishes_seq {A B} (m : result A) (k : result B) :
  finishes m -> finishes k -> finishes (m ;; k).
Proof. intros Hm Hk. by apply finishes_bind. Qed.

Lemma finishes_fmap {A B} (f : A -> B) (m : result A) : finishes m -> finishes (f <$> m).
Proof. unfold finishes. destruct m as [a|e]; cbn; [done|]. intros He [= ->]. done. Qed.

Lemma finishes_foldM {A B} (f : A -> B -> result A) l a :
  (forall a b, finishes (f a b)) -> finishes (foldM f a l).
Proof.
  intros Hf. revert a. induction l as [|b l IH]; intros a; [done|].
  cbn [foldM]. apply finishes_bind; [done|]. intros; apply IH.
Qed.

Lemma throw_if_Ok c e x : throw_if c e = Ok x -> c = false.
Proof. by destruct c. Qed.

Lemma bind_Ok {A B} (m : result A) (k : A -> result B) b :
  (m ≫= k) = Ok b -> exists a, m = Ok a /\ k a = Ok b.
Proof. destruct m as [a|]; [by exists a|done]. Qed.

#[export] Hint Resolve finishes_ok finishes_bind finishes_seq finishes_fmap finishes_foldM : finishes.
#[export] Hint Extern 1 (finishes (throw_if _ _)) => by apply finishes_throw_if : finishes.
#[export] Hint Extern 2 (finishes (Err _)) => done : finishes.

(** Take a run [H : m ≫= ... = Ok b] of a chain of checks and calls apart. *)
Ltac ok_inv_as H x Hx :=
  lazymatch type of H with
  | (throw_if _ _ ≫= _) = Ok _ =>
      apply bind_Ok in H as (x & Hx & H); apply throw_if_Ok in Hx; clear x
  | (_ ≫= _) = Ok _ => apply bind_Ok in H as (x & Hx & H)
  end.
Ltac ok_inv Hrun :=
  let x := fresh "x" in
  lazymatch type of Hrun with
  | (throw_if _ _ ≫= _) = Ok _ => let Hx := fresh "Hc" in ok_inv_as Hrun x Hx
  | (_ ≫= _) = Ok _ => let Hx := fresh "Hx" in ok_inv_as Hrun x Hx
  end.

(** The guards at the head of a chain of checks are false by arithmetic. *)
Ltac guards_pass :=
  repeat lazymatch goal with
  | |- context [throw_if false _ ≫= _] => progress cbn [throw_if mbind result_bind]
  | |- context [throw_if ?c _ ≫= _] => replace c with false by lia
  end.
