(* ===== verification/Ascii.v ===== *)
(** * ASCII white space ([core/ascii.ts])

    The three classes of white space and the functions that trim them. *)

From S2P Require Import Prelude.

Definition isHTTPTabOrSpace (code : Z) : bool := (code =? 9) || (code =? 32).

Definition isHTTPWhitespace (code : Z) : bool :=
  (code =? 9) || (code =? 10) || (code =? 13) || (code =? 32).

Definition isASCIIWhitespace (code : Z) : bool :=
  (code =? 9) || (code =? 10) || (code =? 12) || (code =? 13) || (code =? 32).

(** [while (start < end && p(value.charCodeAt(start))) start++]: the string
    that is left when the loop has moved its start. *)
Fixpoint trim_start (p : Z -> bool) (value : jsstr) : jsstr :=
  match value with
  | [] => []
  | c :: rest => if p c then trim_start p rest else value
  end.

(** [while (end > start && p(value.charCodeAt(end - 1))) end--]. *)
Definition trim_end (p : Z -> bool) (value : jsstr) : jsstr :=
  reverse (trim_start p (reverse value)).

Definition trim (p : Z -> bool) (value : jsstr) : jsstr := trim_end p (trim_start p value).

Definition trimHTTPTabOrSpace (value : jsstr) : jsstr := trim isHTTPTabOrSpace value.
Definition trimHTTPWhitespace (value : jsstr) : jsstr := trim isHTTPWhitespace value.
Definition trimTrailingHTTPWhitespace (value : jsstr) : jsstr := trim_end isHTTPWhitespace value.
Definition trimASCIIWhitespace (value : jsstr) : jsstr := trim isASCIIWhitespace value.

(** ** What trimming does *)

(** [inner] is [value] without the white space at its ends. *)
Definition is_trimmed (p : Z -> bool) (value inner : jsstr) : Prop :=
  exists before after, value = before ++ inner ++ after /\
    Forall (fun c => p c = true) before /\ Forall (fun c => p c = true) after /\
    (forall c, head inner = Some c -> p c = false) /\ (forall c, last inner = Some c -> p c = false).

Lemma trim_start_split p value : exists before, value = before ++ trim_start p value /\
  Forall (fun c => p c = true) before /\ forall c, head (trim_start p value) = Some c -> p c = false.
Proof.
  induction value as [|c value (before & Heq & Hb & Hh)]; [by exists []|]. cbn [trim_start].
  destruct (p c) eqn:E.
  - exists (c :: before). cbn. rewrite <- Heq. split; [done|]. by split; [constructor|].
  - exists []. split; [done|]. split; [constructor|]. by intros d [= <-].
Qed.

Lemma trim_end_split p value : exists after, value = trim_end p value ++ after /\
  Forall (fun c => p c = true) after /\ forall c, last (trim_end p value) = Some c -> p c = false.
Proof.
  destruct (trim_start_split p (reverse value)) as (before & Heq & Hb & Hh).
  exists (reverse before). unfold trim_end. split_and!.
  - by rewrite <- reverse_app, <- Heq, reverse_involutive.
  - by apply Forall_reverse.
  - intros c. rewrite last_reverse. apply Hh.
Qed.

Lemma trim_is_trimmed p value : is_trimmed p value (trim p value).
Proof.
  destruct (trim_start_split p value) as (before & Hv & Hb & Hh).
  destruct (trim_end_split p (trim_start p value)) as (after & Hs & Ha & Hl).
  exists before, after. unfold trim. rewrite <- Hs. split_and!; try done.
  intros c Hc. apply Hh. rewrite Hs. rewrite head_app. destruct (trim_end p _); [done|]. exact Hc.
Qed.

(** The trimmed string is determined by the white space around it. *)
Lemma is_trimmed_unique p value a b : is_trimmed p value a -> is_trimmed p value b -> a = b.
Proof.
  intros (b1 & e1 & H1 & Hb1 & He1 & Hh1 & Hl1) (b2 & e2 & H2 & Hb2 & He2 & Hh2 & Hl2).
  assert (Hstart : forall b1 b2 r1 r2, b1 ++ r1 = b2 ++ r2 ->
    Forall (fun c => p c = true) b1 -> Forall (fun c => p c = true) b2 ->
    (forall c, head r1 = Some c -> p c = false) -> (forall c, head r2 = Some c -> p c = false) ->
    r1 = r2).
  { clear. induction b1 as [|x b1 IH]; intros [|y b2] r1 r2 H Hb1 Hb2 H1 H2; cbn in H.
    - done.
    - subst r1. inversion Hb2; subst. specialize (H1 y eq_refl). congruence.
    - subst r2. inversion Hb1; subst. specialize (H2 x eq_refl). congruence.
    - injection H as -> H. inversion Hb1; inversion Hb2; subst. by eapply IH. }
  assert (Hend : forall q r e f : jsstr, q ++ e = r ++ f ->
    Forall (fun c => p c = true) e -> Forall (fun c => p c = true) f ->
    (forall c, last q = Some c -> p c = false) -> (forall c, last r = Some c -> p c = false) -> q = r).
  { intros q r e f H He Hf Hq Hr. apply (inj reverse). eapply (Hstart (reverse e) (reverse f)).
    - by rewrite <- !reverse_app, H.
    - by apply Forall_reverse.
    - by apply Forall_reverse.
    - intros c. rewrite head_reverse. apply Hq.
    - intros c. rewrite head_reverse. apply Hr. }
  destruct a as [|x a], b as [|y b]; [done| | |].
  - exfalso. subst value. assert (Hin : y ∈ b2 ++ (y :: b) ++ e2) by set_solver.
    rewrite <- H2 in Hin. cbn [app] in Hin. specialize (Hh2 y eq_refl).
    rewrite Forall_forall in Hb1, He1. apply elem_of_app in Hin as [Hin|Hin];
      [specialize (Hb1 y Hin)|specialize (He1 y Hin)]; congruence.
  - exfalso. subst value. assert (Hin : x ∈ b1 ++ (x :: a) ++ e1) by set_solver.
    rewrite H2 in Hin. cbn [app] in Hin. specialize (Hh1 x eq_refl).
    rewrite Forall_forall in Hb2, He2. apply elem_of_app in Hin as [Hin|Hin];
      [specialize (Hb2 x Hin)|specialize (He2 x Hin)]; congruence.
  - apply (Hend _ _ e1 e2); try done. eapply (Hstart b1 b2); try done. by rewrite <- H1, <- H2.
Qed.

(** ** Properties *)

(** Trimming returns the one string that the value is, without the white
    space around it: what is cut off at either end is white space of the class,
    and what is left neither starts nor ends with it. *)
Theorem trim_spec p value inner : trim p value = inner <-> is_trimmed p value inner.
Proof.
  split; [intros <-; apply trim_is_trimmed|]. apply is_trimmed_unique, trim_is_trimmed.
Qed.
