(* ===== verification/Encoding.v ===== *)
(** * Byte strings ([core/encoding.ts], the conversions HTTP uses)

    [latin1], [encodeByteString] and [concatBytes]: a byte sequence as the
    string of the same code units and back, and the concatenation of chunks. *)

From S2P Require Import Prelude.

(** [String.fromCharCode(byte)] of every byte. *)
Definition latin1 (bytes : list Z) : jsstr :=
  foldl (fun result byte => result ++ [byte mod 65536]) [] bytes.

Definition encodeByteString (text : jsstr) : result (list Z) :=
  foldM (fun result value =>
    if 255 <? value then Err (TypeError "Expected an HTTP ByteString")
    else Ok (result ++ [to_uint8 value])) [] text.

(** [result.set(chunk, offset); offset += chunk.length]: [set] throws when the
    chunk does not fit. *)
Definition concat_step (st : list Z * Z) (chunk : list Z) : result (list Z * Z) :=
  let '(result, offset) := st in
  if len result <? offset + len chunk then Err (RangeError "offset is out of bounds")
  else Ok (set_range result offset chunk, offset + len chunk).

Definition concatBytes (chunks : list (list Z)) (length : option Z) : result (list Z) :=
  let total := match length with
    | Some n => n
    | None => foldl (fun total chunk => total + len chunk) 0 chunks
    end in
  st ← foldM concat_step (zeros total, 0) chunks;
  Ok st.1.

(** A string of code units below 256. *)
Definition is_bytestring (s : jsstr) : Prop := is_bytes s.
#[export] Instance is_bytestring_dec s : Decision (is_bytestring s).
Proof. unfold is_bytestring. apply _. Defined.

Lemma latin1_bytes bytes : is_bytes bytes -> latin1 bytes = bytes.
Proof.
  unfold latin1. assert (H : forall acc, is_bytes bytes ->
    foldl (fun result byte => result ++ [byte mod 65536]) acc bytes = acc ++ bytes).
  { induction bytes as [|b l IH]; intros acc Hb; cbn; [by rewrite app_nil_r|].
    apply Forall_cons in Hb as [Hb Hl]. unfold is_byte in Hb.
    rewrite IH, <- app_assoc, Z.mod_small by (done || lia). done. }
  intros Hb. by rewrite H.
Qed.

Lemma encodeByteString_bytes s : is_bytestring s -> encodeByteString s = Ok s.
Proof.
  unfold encodeByteString, is_bytestring. set (f := fun _ _ => _).
  assert (H : forall acc, is_bytes s -> foldM f acc s = Ok (acc ++ s)).
  { induction s as [|c s IH]; intros acc Hs; cbn; [by rewrite app_nil_r|].
    apply Forall_cons in Hs as [Hc Hs]. pose proof Hc as [Hc0 Hc1].
    subst f. cbn. destruct (Z.ltb_spec 255 c) as [|_]; [lia|].
    cbn. rewrite IH, <- app_assoc, to_uint8_small by done. done. }
  intros Hs. by rewrite H.
Qed.

(** Writing the next chunk over the zeros that follow the chunks already written. *)
Lemma set_range_next done_ chunk n :
  len chunk <= n -> set_range (done_ ++ zeros n) (len done_) chunk
  = (done_ ++ chunk) ++ zeros (n - len chunk).
Proof.
  intros Hn. unfold set_range, zeros, len. rewrite Nat2Z.id.
  rewrite take_app_length, <- app_assoc. f_equal. f_equal.
  rewrite drop_app_add', drop_replicate by done. f_equal. unfold len in Hn. lia.
Qed.

Lemma concatBytes_chunks chunks n :
  n = len (concat chunks) -> concatBytes chunks (Some n) = Ok (concat chunks).
Proof.
  intros ->. unfold concatBytes.
  assert (H : forall acc, foldM concat_step (acc ++ zeros (len (concat chunks)), len acc) chunks
    = Ok (acc ++ concat chunks, len acc + len (concat chunks))).
  { induction chunks as [|c chunks IH]; intros acc.
    - cbn. unfold zeros. cbn. by rewrite !app_nil_r, Z.add_0_r.
    - cbn [concat]. rewrite foldM_cons. unfold concat_step at 1.
      pose proof (len_nonneg (concat chunks)). rewrite !len_app. unfold len at 2, zeros.
      rewrite length_replicate, Z2Nat.id by (pose proof (len_nonneg c); lia).
      destruct (Z.ltb_spec (len acc + (len c + len (concat chunks))) (len acc + len c)) as [|_]; [lia|].
      fold (zeros (len c + len (concat chunks))). rewrite set_range_next by lia.
      replace (len c + len (concat chunks) - len c) with (len (concat chunks)) by lia.
      rewrite <- len_app, IH, <- app_assoc, !len_app. f_equal. f_equal. lia. }
  specialize (H []). cbn [app] in H. rewrite len_nil in H. by rewrite H.
Qed.

Lemma concatBytes_total chunks : concatBytes chunks None = Ok (concat chunks).
Proof.
  rewrite <- (concatBytes_chunks chunks (len (concat chunks))) by done.
  assert (H : forall a, foldl (fun total chunk => total + len chunk) a chunks = a + len (concat chunks)).
  { induction chunks as [|c l IH]; intros a; cbn [foldl concat]; [rewrite (@len_nil Z); lia|].
    rewrite IH, len_app. lia. }
  unfold concatBytes. by rewrite H.
Qed.
