(* ===== verification/Huffman.v ===== *)
(** * HPACK Huffman coding ([http2/hpack-huffman.ts])

    The code tables of RFC 7541 Appendix B, the decoding tree built from them
    when the module loads, the encoder and the decoder.  The theorems: the
    encoder's output is the concatenation of the codes padded with ones, decoding
    inverts encoding, and the decoder accepts nothing but encoder output. *)

From S2P Require Import Prelude.

(** ** The code tables *)

Definition HUFFMAN_CODES : list Z := [
  0x1ff8; 0x7fffd8; 0xfffffe2; 0xfffffe3; 0xfffffe4; 0xfffffe5; 0xfffffe6; 0xfffffe7; 0xfffffe8;
  0xffffea; 0x3ffffffc; 0xfffffe9; 0xfffffea; 0x3ffffffd; 0xfffffeb; 0xfffffec; 0xfffffed;
  0xfffffee; 0xfffffef; 0xffffff0; 0xffffff1; 0xffffff2; 0x3ffffffe; 0xffffff3; 0xffffff4;
  0xffffff5; 0xffffff6; 0xffffff7; 0xffffff8; 0xffffff9; 0xffffffa; 0xffffffb; 0x14; 0x3f8;
  0x3f9; 0xffa; 0x1ff9; 0x15; 0xf8; 0x7fa; 0x3fa; 0x3fb; 0xf9; 0x7fb; 0xfa; 0x16; 0x17; 0x18; 0;
  1; 2; 0x19; 0x1a; 0x1b; 0x1c; 0x1d; 0x1e; 0x1f; 0x5c; 0xfb; 0x7ffc; 0x20; 0xffb; 0x3fc;
  0x1ffa; 0x21; 0x5d; 0x5e; 0x5f; 0x60; 0x61; 0x62; 0x63; 0x64; 0x65; 0x66; 0x67; 0x68; 0x69;
  0x6a; 0x6b; 0x6c; 0x6d; 0x6e; 0x6f; 0x70; 0x71; 0x72; 0xfc; 0x73; 0xfd; 0x1ffb; 0x7fff0;
  0x1ffc; 0x3ffc; 0x22; 0x7ffd; 3; 0x23; 4; 0x24; 5; 0x25; 0x26; 0x27; 6; 0x74; 0x75; 0x28;
  0x29; 0x2a; 7; 0x2b; 0x76; 0x2c; 8; 9; 0x2d; 0x77; 0x78; 0x79; 0x7a; 0x7b; 0x7ffe; 0x7fc;
  0x3ffd; 0x1ffd; 0xffffffc; 0xfffe6; 0x3fffd2; 0xfffe7; 0xfffe8; 0x3fffd3; 0x3fffd4; 0x3fffd5;
  0x7fffd9; 0x3fffd6; 0x7fffda; 0x7fffdb; 0x7fffdc; 0x7fffdd; 0x7fffde; 0xffffeb; 0x7fffdf;
  0xffffec; 0xffffed; 0x3fffd7; 0x7fffe0; 0xffffee; 0x7fffe1; 0x7fffe2; 0x7fffe3; 0x7fffe4;
  0x1fffdc; 0x3fffd8; 0x7fffe5; 0x3fffd9; 0x7fffe6; 0x7fffe7; 0xffffef; 0x3fffda; 0x1fffdd;
  0xfffe9; 0x3fffdb; 0x3fffdc; 0x7fffe8; 0x7fffe9; 0x1fffde; 0x7fffea; 0x3fffdd; 0x3fffde;
  0xfffff0; 0x1fffdf; 0x3fffdf; 0x7fffeb; 0x7fffec; 0x1fffe0; 0x1fffe1; 0x3fffe0; 0x1fffe2;
  0x7fffed; 0x3fffe1; 0x7fffee; 0x7fffef; 0xfffea; 0x3fffe2; 0x3fffe3; 0x3fffe4; 0x7ffff0;
  0x3fffe5; 0x3fffe6; 0x7ffff1; 0x3ffffe0; 0x3ffffe1; 0xfffeb; 0x7fff1; 0x3fffe7; 0x7ffff2;
  0x3fffe8; 0x1ffffec; 0x3ffffe2; 0x3ffffe3; 0x3ffffe4; 0x7ffffde; 0x7ffffdf; 0x3ffffe5;
  0xfffff1; 0x1ffffed; 0x7fff2; 0x1fffe3; 0x3ffffe6; 0x7ffffe0; 0x7ffffe1; 0x3ffffe7; 0x7ffffe2;
  0xfffff2; 0x1fffe4; 0x1fffe5; 0x3ffffe8; 0x3ffffe9; 0xffffffd; 0x7ffffe3; 0x7ffffe4;
  0x7ffffe5; 0xfffec; 0xfffff3; 0xfffed; 0x1fffe6; 0x3fffe9; 0x1fffe7; 0x1fffe8; 0x7ffff3;
  0x3fffea; 0x3fffeb; 0x1ffffee; 0x1ffffef; 0xfffff4; 0xfffff5; 0x3ffffea; 0x7ffff4; 0x3ffffeb;
  0x7ffffe6; 0x3ffffec; 0x3ffffed; 0x7ffffe7; 0x7ffffe8; 0x7ffffe9; 0x7ffffea; 0x7ffffeb;
  0xffffffe; 0x7ffffec; 0x7ffffed; 0x7ffffee; 0x7ffffef; 0x7fffff0; 0x3ffffee; 0x3fffffff].

Definition HUFFMAN_LENGTHS : list Z := [
  13; 23; 28; 28; 28; 28; 28; 28; 28; 24; 30; 28; 28; 30; 28; 28; 28; 28; 28; 28; 28; 28; 30;
  28; 28; 28; 28; 28; 28; 28; 28; 28; 6; 10; 10; 12; 13; 6; 8; 11; 10; 10; 8; 11; 8; 6; 6; 6; 5;
  5; 5; 6; 6; 6; 6; 6; 6; 6; 7; 8; 15; 6; 12; 10; 13; 6; 7; 7; 7; 7; 7; 7; 7; 7; 7; 7; 7; 7; 7;
  7; 7; 7; 7; 7; 7; 7; 7; 7; 8; 7; 8; 13; 19; 13; 14; 6; 15; 5; 6; 5; 6; 5; 6; 6; 6; 5; 7; 7; 6;
  6; 6; 5; 6; 7; 6; 5; 5; 6; 7; 7; 7; 7; 7; 15; 11; 14; 13; 28; 20; 22; 20; 20; 22; 22; 22; 23;
  22; 23; 23; 23; 23; 23; 24; 23; 24; 24; 22; 23; 24; 23; 23; 23; 23; 21; 22; 23; 22; 23; 23;
  24; 22; 21; 20; 22; 22; 23; 23; 21; 23; 22; 22; 24; 21; 22; 23; 23; 21; 21; 22; 21; 23; 22;
  23; 23; 20; 22; 22; 22; 23; 22; 22; 23; 26; 26; 20; 19; 22; 23; 22; 25; 26; 26; 26; 27; 27;
  26; 24; 25; 19; 21; 26; 27; 27; 26; 27; 24; 21; 21; 26; 26; 28; 27; 27; 27; 20; 24; 20; 21;
  22; 21; 21; 23; 22; 22; 25; 25; 24; 24; 26; 23; 26; 27; 26; 26; 27; 27; 27; 27; 27; 28; 27;
  27; 27; 27; 27; 26; 30].

(** ** The decoding tree

    Three parallel arrays indexed by node; [-1] is "no child" or "no symbol". *)

Record tree := mk_tree {
  zeroChildren : list Z;
  oneChildren : list Z;
  symbols : list Z;
}.

Definition empty_tree : tree := mk_tree [-1] [-1] [-1].

Definition appendNode (t : tree) : tree * Z :=
  let t' := mk_tree (zeroChildren t ++ [-1]) (oneChildren t ++ [-1]) (symbols t ++ [-1]) in
  (t', len (symbols t') - 1).

(** [a[i] = v] on the plain arrays of the tree, where [i] is a node. *)
Definition set_node (l : list Z) (i v : Z) : list Z := <[Z.to_nat i := v]> l.

(** One bit of a code: follow the child, or append it. *)
Definition buildTree_bit (code : Z) (st : tree * Z) (bitIndex : Z) : tree * Z :=
  let '(t, node) := st in
  let bit := (code .>>> bitIndex) .& 1 in
  let child := at_or (-1) (if bit =? 0 then zeroChildren t else oneChildren t) node in
  if child <? 0 then
    let '(t, child) := appendNode t in
    if bit =? 0
    then (mk_tree (set_node (zeroChildren t) node child) (oneChildren t) (symbols t), child)
    else (mk_tree (zeroChildren t) (set_node (oneChildren t) node child) (symbols t), child)
  else (t, child).

Definition buildTree_symbol (t : tree) (symbol : Z) : tree :=
  let code := at_or 0 HUFFMAN_CODES symbol in
  let length := at_or 0 HUFFMAN_LENGTHS symbol in
  let '(t, node) := foldl (buildTree_bit code) (t, 0) (downto length) in
  mk_tree (zeroChildren t) (oneChildren t) (set_node (symbols t) node symbol).

Definition buildTree : tree :=
  foldl buildTree_symbol empty_tree (seqZ 0 (len HUFFMAN_CODES)).

(** The module state after [buildTree()]. *)
Definition the_tree : tree := Eval vm_compute in buildTree.

(** ** Encoding *)

Definition hpackHuffmanEncodedLength (input : list Z) : result Z :=
  bits ← foldM (fun bits byte =>
    let bits := bits + at_or 0 HUFFMAN_LENGTHS byte in
    if negb (isSafeInteger bits) then Err (LimitError "HPACK Huffman string is too large")
    else Ok bits) 0 input;
  Ok ((bits + 7) / 8).

(** The encoder's variables: [output], [current], [currentBits], [outputIndex]. *)
Record huff_enc := mk_enc {
  enc_output : list Z;
  enc_current : Z;
  enc_bits : Z;
  enc_index : Z;
}.

Definition encode_bit (code : Z) (e : huff_enc) (bitIndex : Z) : huff_enc :=
  let current := (enc_current e .<< 1) .| ((code .>>> bitIndex) .& 1) in
  let currentBits := enc_bits e + 1 in
  if currentBits =? 8
  then mk_enc (set_u8 (enc_output e) (enc_index e) current) 0 0 (enc_index e + 1)
  else mk_enc (enc_output e) current currentBits (enc_index e).

Definition encode_byte (e : huff_enc) (byte : Z) : huff_enc :=
  let code := at_or 0 HUFFMAN_CODES byte in
  let length := at_or 0 HUFFMAN_LENGTHS byte in
  foldl (encode_bit code) e (downto length).

Definition encodeHpackHuffman (input : list Z) : result (list Z) :=
  n ← hpackHuffmanEncodedLength input;
  let e := foldl encode_byte (mk_enc (zeros n) 0 0 0) input in
  Ok (if enc_bits e =? 0 then enc_output e
      else set_u8 (enc_output e) (enc_index e)
             ((enc_current e .<< (8 - enc_bits e)) .| (255 .>>> enc_bits e))).

(** ** Decoding *)

Record huff_dec := mk_dec {
  d_output : list Z;
  d_node : Z;
  d_trailing : Z;
  d_trailingBits : Z;
}.

Definition decode_bit (maxOutputBytes : Z) (byte : Z) (d : huff_dec) (bitIndex : Z) : result huff_dec :=
  let bit := (byte .>>> bitIndex) .& 1 in
  let trailing := (d_trailing d .<< 1) .| bit in
  let trailingBits := d_trailingBits d + 1 in
  let node :=
    at_or (-1) (if bit =? 0 then zeroChildren the_tree else oneChildren the_tree) (d_node d) in
  if node <? 0 then Err (ProtocolError "Invalid HPACK Huffman code") else
  let symbol := at_or (-1) (symbols the_tree) node in
  if symbol <? 0 then Ok (mk_dec (d_output d) node trailing trailingBits) else
  if symbol =? 256 then Err (ProtocolError "HPACK Huffman EOS appeared in a string") else
  if maxOutputBytes <=? len (d_output d)
  then Err (LimitError "HPACK Huffman string exceeds configured limit")
  else Ok (mk_dec (d_output d ++ [symbol]) 0 0 0).

Definition decode_byte (maxOutputBytes : Z) (d : huff_dec) (byte : Z) : result huff_dec :=
  foldM (decode_bit maxOutputBytes byte) d (downto 8).

Definition decodeHpackHuffman (input : list Z) (maxOutputBytes : Z) : result (list Z) :=
  d ← foldM (decode_byte maxOutputBytes) (mk_dec [] 0 0 0) input;
  if negb (d_node d =? 0) &&
     ((7 <? d_trailingBits d) || negb (d_trailing d =? (1 .<< d_trailingBits d) - 1))
  then Err (ProtocolError "Invalid HPACK Huffman padding")
  else Ok (d_output d).

(** ** The bit-level specification *)

(** The [n] low bits of a number, most significant first, and back. *)
Definition bits_of (n code : Z) : list bool := Z.testbit code <$> downto n.
Definition bits_val (l : list bool) : Z := foldl (fun v (b : bool) => 2 * v + Z.b2z b) 0 l.

Definition bits_of_byte (b : Z) : list bool := bits_of 8 b.
Definition flat_bits (bytes : list Z) : list bool := bytes ≫= bits_of_byte.

(** The code of a symbol and of a string, as bits. *)
Definition code_bits (s : Z) : list bool :=
  bits_of (at_or 0 HUFFMAN_LENGTHS s) (at_or 0 HUFFMAN_CODES s).
Definition huff_bits (input : list Z) : list bool := input ≫= code_bits.

(** RFC 7541 section 5.2: the codes, then fewer than eight ones up to a byte boundary. *)
Definition is_encoding (input out : list Z) : Prop :=
  is_bytes out /\ exists k, (k < 8)%nat /\ flat_bits out = huff_bits input ++ replicate k true.

(** The encoder's inner loop, one bit at a time. *)
Definition push_bit (e : huff_enc) (b : bool) : huff_enc :=
  let current := (enc_current e .<< 1) .| Z.b2z b in
  let currentBits := enc_bits e + 1 in
  if currentBits =? 8
  then mk_enc (set_u8 (enc_output e) (enc_index e) current) 0 0 (enc_index e + 1)
  else mk_enc (enc_output e) current currentBits (enc_index e).

(** The decoder's inner loop, one bit at a time. *)
Definition take_bit (maxOutputBytes : Z) (d : huff_dec) (b : bool) : result huff_dec :=
  let trailing := (d_trailing d .<< 1) .| Z.b2z b in
  let trailingBits := d_trailingBits d + 1 in
  let node := at_or (-1) (if b then oneChildren the_tree else zeroChildren the_tree) (d_node d) in
  if node <? 0 then Err (ProtocolError "Invalid HPACK Huffman code") else
  let symbol := at_or (-1) (symbols the_tree) node in
  if symbol <? 0 then Ok (mk_dec (d_output d) node trailing trailingBits) else
  if symbol =? 256 then Err (ProtocolError "HPACK Huffman EOS appeared in a string") else
  if maxOutputBytes <=? len (d_output d)
  then Err (LimitError "HPACK Huffman string exceeds configured limit")
  else Ok (mk_dec (d_output d ++ [symbol]) 0 0 0).

(** The path from the root to every node of the tree. *)
Fixpoint paths_from (fuel : nat) (node : Z) (node_path : list bool) : list (Z * list bool) :=
  match fuel with
  | O => []
  | S fuel =>
      (node, node_path) ::
      let z := at_or (-1) (zeroChildren the_tree) node in
      let o := at_or (-1) (oneChildren the_tree) node in
      (if z <? 0 then [] else paths_from fuel z (node_path ++ [false])) ++
      (if o <? 0 then [] else paths_from fuel o (node_path ++ [true]))
  end.

Definition all_paths : list (list bool) := Eval vm_compute in
  let paths := paths_from 31 0 [] in
  (fun node => default [] (snd <$> List.find (fun p => p.1 =? node) paths))
    <$> seqZ 0 (len (symbols the_tree)).

Definition node_path (node : Z) : list bool := at_or [] all_paths node.

(** An edge extends the path; a leaf's path is its symbol's code. *)
Definition edge_ok (n : Z) (b : bool) (c : Z) : bool :=
  (0 <=? c) && (c <? 513) && bool_decide (node_path c = node_path n ++ [b]) &&
  let s := at_or (-1) (symbols the_tree) c in
  if s <? 0 then len (node_path c) <? 30
  else (s <=? 256) && bool_decide (node_path c = code_bits s).

Definition node_ok (n : Z) : bool :=
  let z := at_or (-1) (zeroChildren the_tree) n in
  let o := at_or (-1) (oneChildren the_tree) n in
  ((z <? 0) || edge_ok n false z) && ((o <? 0) || edge_ok n true o).

(** After the bits [bs], [n] bytes of room: full bytes, then a residue in [current]. *)
Definition huff_packed (n : Z) (bs : list bool) (e : huff_enc) : Prop :=
  exists bytes res, bs = flat_bits bytes ++ res /\ is_bytes bytes /\ (length res < 8)%nat /\
    enc_output e = bytes ++ zeros (n - len bytes) /\ enc_current e = bits_val res /\
    enc_bits e = len res /\ enc_index e = len bytes.

(** A walk that reaches no symbol before its last bit and [s] with it. *)
Fixpoint walk_reaches (node s : Z) (bits : list bool) : bool :=
  match bits with
  | [] => false
  | b :: bits =>
      let node := at_or (-1) (if b then oneChildren the_tree else zeroChildren the_tree) node in
      (0 <=? node) &&
      match bits with
      | [] => at_or (-1) (symbols the_tree) node =? s
      | _ => (at_or (-1) (symbols the_tree) node <? 0) && walk_reaches node s bits
      end
  end.

(** The bits read so far are the output's codes and the path to the current node. *)
Definition huff_decoded (m : Z) (bs : list bool) (d : huff_dec) : Prop :=
  bs = huff_bits (d_output d) ++ node_path (d_node d) /\ 0 <= d_node d < 513 /\
  is_bytes (d_output d) /\ len (d_output d) <= m /\ len (node_path (d_node d)) < 30 /\
  d_trailing d = bits_val (node_path (d_node d)) /\ d_trailingBits d = len (node_path (d_node d)).

(** ** Lemmas on bits *)

Lemma bit_of_number c i :
  0 <= c < 4294967296 -> 0 <= i < 32 -> (c .>>> i) .& 1 = Z.b2z (Z.testbit c i).
Proof.
  intros Hc Hi. rewrite js_ushr_div by lia. change 1 with (2 ^ 1 - 1).
  rewrite js_and_ones by lia. rewrite Z.testbit_spec' by lia. done.
Qed.

Lemma b2z_eq0 b : (Z.b2z b =? 0) = negb b.
Proof. by destruct b. Qed.

Lemma length_bits_of n c : length (bits_of n c) = Z.to_nat n.
Proof. unfold bits_of, downto. rewrite length_fmap, length_reverse, length_seqZ. done. Qed.

Lemma bits_val_app l b : bits_val (l ++ [b]) = 2 * bits_val l + Z.b2z b.
Proof. unfold bits_val. by rewrite foldl_app. Qed.

Lemma bits_val_range l : 0 <= bits_val l < 2 ^ len l.
Proof.
  induction l as [|b l IH] using rev_ind; [done|].
  rewrite bits_val_app, len_app. replace (len [b]) with 1 by done.
  rewrite Z.pow_add_r by (pose proof (len_nonneg l); lia). destruct b; cbn [Z.b2z]; lia.
Qed.

(** Eight bits and their byte determine each other. *)
Lemma bits_of_byte_val l : length l = 8%nat -> bits_of_byte (bits_val l) = l.
Proof.
  intros H. do 8 (destruct l as [|? l]; [done|]). destruct l; [|done].
  repeat match goal with b : bool |- _ => destruct b end; reflexivity.
Qed.

Lemma bits_val_of_byte b : is_byte b -> bits_val (bits_of_byte b) = b.
Proof.
  intros Hb. apply Z.eqb_eq.
  by apply (byte_check (fun b => bits_val (bits_of_byte b) =? b)); [vm_compute|].
Qed.

Lemma code_range s : 0 <= at_or 0 HUFFMAN_CODES s < 2 ^ 30.
Proof.
  apply (at_or_Forall (fun c => 0 <= c < 2 ^ 30)); [done|].
  apply Forall_forall. intros c Hc. apply list_elem_of_In in Hc.
  assert (H : forallb (fun c => (0 <=? c) && (c <? 2 ^ 30)) HUFFMAN_CODES = true) by done.
  rewrite forallb_forall in H. specialize (H c Hc). lia.
Qed.

Lemma length_range s : 0 <= at_or 0 HUFFMAN_LENGTHS s <= 30.
Proof.
  apply (at_or_Forall (fun c => 0 <= c <= 30)); [done|].
  apply Forall_forall. intros c Hc. apply list_elem_of_In in Hc.
  assert (H : forallb (fun c => (0 <=? c) && (c <=? 30)) HUFFMAN_LENGTHS = true) by done.
  rewrite forallb_forall in H. specialize (H c Hc). lia.
Qed.

Lemma len_code_bits s : len (code_bits s) = at_or 0 HUFFMAN_LENGTHS s.
Proof. unfold len, code_bits. rewrite length_bits_of. pose proof (length_range s). lia. Qed.

Lemma encode_byte_bits e byte : encode_byte e byte = foldl push_bit e (code_bits byte).
Proof.
  unfold encode_byte, code_bits, bits_of. apply foldl_fmap_in. intros a i Hi.
  apply elem_of_downto in Hi. pose proof (length_range byte). pose proof (code_range byte).
  unfold encode_bit, push_bit. by rewrite bit_of_number by lia.
Qed.

Lemma encode_bytes_bits input e : foldl encode_byte e input = foldl push_bit e (huff_bits input).
Proof.
  unfold huff_bits. rewrite <- foldl_bind. revert e.
  induction input as [|x l IH]; intros e; [done|]. cbn. by rewrite encode_byte_bits, IH.
Qed.

(** ** The encoder packs bits into bytes *)

Lemma flat_bits_app a b : flat_bits (a ++ b) = flat_bits a ++ flat_bits b.
Proof. apply bind_app. Qed.

Lemma len_flat_bits bytes : len (flat_bits bytes) = 8 * len bytes.
Proof.
  induction bytes as [|b l IH]; [done|].
  change (flat_bits (b :: l)) with (bits_of_byte b ++ flat_bits l).
  rewrite len_app, len_cons, IH. unfold len at 1, bits_of_byte. rewrite length_bits_of. lia.
Qed.

Lemma shift_in v b : 0 <= v < 2 ^ 30 -> (v .<< 1) .| Z.b2z b = 2 * v + Z.b2z b.
Proof.
  intros Hv. rewrite js_shl_mul by lia. rewrite (js_or_add _ _ 1).
  - lia.
  - lia.
  - lia.
  - by rewrite Z.mod_mul.
  - by destruct b.
  - destruct b; cbn [Z.b2z]; lia.
Qed.

Lemma set_u8_next bytes n v :
  len bytes < n -> is_byte v ->
  set_u8 (bytes ++ zeros (n - len bytes)) (len bytes) v
  = (bytes ++ [v]) ++ zeros (n - len (bytes ++ [v])).
Proof.
  intros Hn Hv. unfold set_u8. rewrite to_uint8_small by done.
  pose proof (len_nonneg bytes). destruct (Z.ltb_spec (len bytes) 0) as [|_]; [lia|].
  unfold zeros. replace (Z.to_nat (n - len bytes)) with (S (Z.to_nat (n - len (bytes ++ [v]))))
    by (rewrite len_app; change (len [v]) with 1; lia).
  cbn [replicate]. unfold len. rewrite Nat2Z.id.
  rewrite <- (Nat.add_0_r (length bytes)) at 1. rewrite insert_app_r. cbn.
  by rewrite <- app_assoc.
Qed.

Lemma push_bit_packed n bs e b :
  len (bs ++ [b]) <= 8 * n -> huff_packed n bs e -> huff_packed n (bs ++ [b]) (push_bit e b).
Proof.
  intros Hn (bytes & res & -> & Hb & Hr & Ho & Hc & Hcb & Hi).
  pose proof (bits_val_range res) as Hv.
  assert (2 ^ len res <= 2 ^ 7) by (apply pow2_le; unfold len; lia).
  assert (Hcur : (enc_current e .<< 1) .| Z.b2z b = bits_val (res ++ [b]))
    by (rewrite Hc, shift_in, bits_val_app by lia; done).
  unfold push_bit. rewrite Hcur, Hcb, Hi, Ho.
  destruct (Z.eqb_spec (len res + 1) 8) as [H8|H8].
  - assert (Hl : length (res ++ [b]) = 8%nat) by (rewrite length_app; unfold len in H8; cbn; lia).
    assert (Hbyte : is_byte (bits_val (res ++ [b]))).
    { pose proof (bits_val_range (res ++ [b])) as Hr8. unfold len in Hr8. by rewrite Hl in Hr8. }
    exists (bytes ++ [bits_val (res ++ [b])]), []. cbn [enc_output enc_current enc_bits enc_index].
    rewrite !len_app, len_flat_bits in Hn. change (len [b]) with 1 in Hn.
    rewrite set_u8_next by (done || lia).
    split_and!; try done.
    + rewrite flat_bits_app, app_nil_r, <- app_assoc. f_equal.
      cbn. by rewrite app_nil_r, bits_of_byte_val.
    + by apply Forall_app_2; [|apply Forall_singleton].
    + cbn; lia.
    + by rewrite len_app.
  - exists bytes, (res ++ [b]). cbn [enc_output enc_current enc_bits enc_index].
    split_and!; try done.
    + by rewrite <- app_assoc.
    + rewrite length_app. unfold len in H8. cbn. lia.
    + by rewrite len_app.
Qed.

Lemma push_bits_packed n bs2 : forall bs1 e,
  len (bs1 ++ bs2) <= 8 * n -> huff_packed n bs1 e -> huff_packed n (bs1 ++ bs2) (foldl push_bit e bs2).
Proof.
  induction bs2 as [|b bs2 IH]; intros bs1 e Hn He; cbn; [by rewrite app_nil_r|].
  replace (bs1 ++ b :: bs2) with ((bs1 ++ [b]) ++ bs2) in * by (by rewrite <- app_assoc).
  apply IH; [done|]. apply push_bit_packed; [|done].
  rewrite len_app in Hn. pose proof (len_nonneg bs2). lia.
Qed.

Lemma packed_init n : huff_packed n [] (mk_enc (zeros n) 0 0 0).
Proof.
  exists [], []. cbn [enc_output enc_current enc_bits enc_index]. rewrite len_nil, Z.sub_0_r.
  split_and!; try done. cbn. lia.
Qed.

(** The final partial byte: the residue, then ones. *)
Lemma pad_byte res : (0 < length res < 8)%nat ->
  (bits_val res .<< (8 - len res)) .| (255 .>>> len res)
  = bits_val (res ++ replicate (8 - length res) true).
Proof.
  intros H. do 8 (destruct res as [|? res]; [cbn in *; try lia;
    repeat match goal with b : bool |- _ => destruct b end; reflexivity|]).
  cbn in H. lia.
Qed.

(** [hpackHuffmanEncodedLength] is the bit length rounded up to bytes. *)
Lemma encodedLength_eq input n :
  hpackHuffmanEncodedLength input = Ok n -> n = (len (huff_bits input) + 7) / 8.
Proof.
  unfold hpackHuffmanEncodedLength. set (f := fun bits byte => _).
  assert (H : forall l a b, foldM f a l = Ok b -> b = a + len (huff_bits l)).
  { induction l as [|x l IH]; intros a b Hf; cbn in Hf; [injection Hf as <-; change (huff_bits []) with (@nil bool); rewrite len_nil; lia|].
    subst f. cbn in Hf. destruct (negb (isSafeInteger _)); cbn in Hf; [done|].
    apply IH in Hf. change (huff_bits (x :: l)) with (code_bits x ++ huff_bits l).
    rewrite len_app, len_code_bits. lia. }
  destruct (foldM f 0 input) as [b|] eqn:E; cbn; [|done].
  apply H in E. intros [= <-]. by rewrite E.
Qed.

Lemma encodedLength_total input :
  30 * len input <= MAX_SAFE_INTEGER ->
  hpackHuffmanEncodedLength input = Ok ((len (huff_bits input) + 7) / 8).
Proof.
  intros Hs. destruct (hpackHuffmanEncodedLength input) as [n|] eqn:E;
    [by rewrite (encodedLength_eq _ _ E)|exfalso; revert E].
  unfold hpackHuffmanEncodedLength. set (f := fun bits byte => _).
  assert (H : forall l a, 0 <= a -> a + 30 * len l <= MAX_SAFE_INTEGER -> is_ok (foldM f a l) = true).
  { induction l as [|x l IH]; intros a Ha Hl; [done|]. cbn. subst f. cbn.
    pose proof (length_range x). rewrite len_cons in Hl. pose proof (len_nonneg l).
    unfold isSafeInteger. destruct (Z.leb_spec (Z.abs (a + at_or 0 HUFFMAN_LENGTHS x)) MAX_SAFE_INTEGER) as [_|];
      [|lia]. cbn. apply IH; lia. }
  specialize (H input 0 ltac:(lia) ltac:(lia)). destruct (foldM f 0 input); done.
Qed.

(** ** The encoder meets the bit-level specification *)

Lemma encode_is_encoding input out :
  encodeHpackHuffman input = Ok out -> is_encoding input out.
Proof.
  unfold encodeHpackHuffman. destruct (hpackHuffmanEncodedLength input) as [n|] eqn:En; cbn; [|done].
  apply encodedLength_eq in En. intros [= <-]. rewrite encode_bytes_bits.
  pose proof (len_nonneg (huff_bits input)) as Hlen.
  assert (Hp : huff_packed n (huff_bits input) (foldl push_bit (mk_enc (zeros n) 0 0 0) (huff_bits input))).
  { apply (push_bits_packed n (huff_bits input) []); [|apply packed_init]. cbn. div_lia. }
  destruct Hp as (bytes & res & Hbs & Hb & Hr & -> & -> & -> & ->).
  rewrite Hbs, len_app, len_flat_bits in En.
  destruct (Z.eqb_spec (len res) 0) as [H0|H0].
  - assert (res = []) as -> by (destruct res; [done|]; rewrite len_cons in H0; pose proof (len_nonneg res); lia).
    rewrite len_nil in En. replace (n - len bytes) with 0 by div_lia.
    unfold zeros. cbn [Z.to_nat replicate]. rewrite app_nil_r. split; [done|].
    exists 0%nat. split; [lia|]. cbn [replicate]. by rewrite Hbs, !app_nil_r.
  - pose proof (len_nonneg res) as Hr0.
    assert (Hn : n = len bytes + 1) by (unfold len in *; div_lia).
    assert (Hl : (0 < length res < 8)%nat) by (unfold len in *; lia).
    rewrite pad_byte by done.
    assert (H8 : length (res ++ replicate (8 - length res) true) = 8%nat)
      by (rewrite length_app, length_replicate; lia).
    assert (Hv : is_byte (bits_val (res ++ replicate (8 - length res) true))).
    { pose proof (bits_val_range (res ++ replicate (8 - length res) true)) as Hv.
      unfold len in Hv. by rewrite H8 in Hv. }
    rewrite set_u8_next by (done || lia). rewrite len_app.
    change (len [_]) with 1. replace (n - (len bytes + 1)) with 0 by lia.
    unfold zeros. cbn [Z.to_nat replicate]. rewrite app_nil_r. split.
    + by apply Forall_app_2; [|apply Forall_singleton].
    + exists (8 - length res)%nat. split; [lia|]. rewrite flat_bits_app, Hbs, <- app_assoc. f_equal.
      cbn. by rewrite app_nil_r, bits_of_byte_val.
Qed.

(** Bytes are determined by their bits. *)
Lemma flat_bits_inj a b : is_bytes a -> is_bytes b -> flat_bits a = flat_bits b -> a = b.
Proof.
  intros Ha. revert b. induction Ha as [|x a Hx Ha IH]; intros b Hb Heq.
  - destruct Hb as [|y b Hy Hb]; [done|]. apply (f_equal len) in Heq.
    rewrite !len_flat_bits, len_cons in Heq. pose proof (len_nonneg b). rewrite (@len_nil Z) in Heq. lia.
  - destruct Hb as [|y b Hy Hb].
    { apply (f_equal len) in Heq. rewrite !len_flat_bits, len_cons, (@len_nil Z) in Heq.
      pose proof (len_nonneg a). lia. }
    change (flat_bits (x :: a)) with (bits_of_byte x ++ flat_bits a) in Heq.
    change (flat_bits (y :: b)) with (bits_of_byte y ++ flat_bits b) in Heq.
    apply app_inj_1 in Heq as [H1 H2]; [|unfold bits_of_byte; by rewrite !length_bits_of].
    f_equal; [|by apply IH]. rewrite <- (bits_val_of_byte x), <- (bits_val_of_byte y) by done.
    by rewrite H1.
Qed.

(** Two encodings of one string are the same bytes. *)
Lemma is_encoding_unique input a b : is_encoding input a -> is_encoding input b -> a = b.
Proof.
  intros (Ha & k & Hk & Ea) (Hb & j & Hj & Eb).
  apply flat_bits_inj; [done..|]. rewrite Ea, Eb. f_equal.
  apply (f_equal len) in Ea, Eb. rewrite len_app, len_flat_bits in Ea, Eb.
  unfold len in *. rewrite length_replicate in *. replace k with j by lia. done.
Qed.

(** ** The decoder walks the tree *)

Lemma the_tree_built : buildTree = the_tree.
Proof. vm_compute. reflexivity. Qed.

Lemma decode_byte_bits m d byte :
  is_byte byte -> decode_byte m d byte = foldM (take_bit m) d (bits_of_byte byte).
Proof.
  intros Hb. unfold decode_byte, bits_of_byte, bits_of. apply foldM_fmap_in. intros a i Hi.
  apply elem_of_downto in Hi. unfold is_byte in Hb. unfold decode_bit, take_bit.
  rewrite bit_of_number, b2z_eq0 by lia. by destruct (Z.testbit byte i).
Qed.

Lemma decode_bytes_bits m bytes d :
  is_bytes bytes -> foldM (decode_byte m) d bytes = foldM (take_bit m) d (flat_bits bytes).
Proof.
  intros Hb. unfold flat_bits. rewrite <- foldM_bind. revert d.
  induction Hb as [|x l Hx Hl IH]; intros d; [done|]. cbn. rewrite decode_byte_bits by done.
  destruct (foldM _ d _); cbn; [apply IH|done].
Qed.

Lemma codes_reach s : is_byte s -> walk_reaches 0 s (code_bits s) = true.
Proof. apply (byte_check (fun s => walk_reaches 0 s (code_bits s))). vm_compute. reflexivity. Qed.

Lemma reaches_take m s : 0 <= s < 256 -> forall bits d,
  walk_reaches (d_node d) s bits = true ->
  foldM (take_bit m) d bits =
    if m <=? len (d_output d)
    then Err (LimitError "HPACK Huffman string exceeds configured limit")
    else Ok (mk_dec (d_output d ++ [s]) 0 0 0).
Proof.
  intros Hs. induction bits as [|b bits IH]; intros d Hr; [done|].
  cbn [walk_reaches] in Hr. rewrite foldM_cons.
  destruct (take_bit m d b) as [d'|e] eqn:E; unfold take_bit in E;
    set (node := at_or _ _ (d_node d)) in *; apply andb_true_iff in Hr as [Hn Hr];
    (destruct (Z.ltb_spec node 0) as [|_]; [lia|]); destruct bits as [|b' bits].
  1,3: apply Z.eqb_eq in Hr; rewrite Hr in E;
    (destruct (Z.ltb_spec s 0) as [|_]; [lia|]); (destruct (Z.eqb_spec s 256) as [|_]; [lia|]);
    destruct (m <=? len (d_output d)); cbn [foldM]; congruence.
  all: apply andb_true_iff in Hr as [Hsym Hr]; rewrite Hsym in E;
    first [discriminate E | injection E as <-; by rewrite IH].
Qed.

Lemma take_symbols m : forall input out,
  is_bytes input -> len out + len input <= m ->
  foldM (take_bit m) (mk_dec out 0 0 0) (huff_bits input) = Ok (mk_dec (out ++ input) 0 0 0).
Proof.
  induction input as [|s input IH]; intros out Hb Hm; cbn; [by rewrite app_nil_r|].
  apply Forall_cons in Hb as [Hs Hb]. rewrite len_cons in Hm. pose proof (len_nonneg input).
  change (foldr _ [] input) with (huff_bits input).
  rewrite foldM_app, (reaches_take m s) by (done || by apply codes_reach). cbn [d_output].
  destruct (Z.leb_spec m (len out)) as [|_]; [lia|]. cbn.
  rewrite IH; [by rewrite <- app_assoc|done|]. rewrite len_app. change (len [s]) with 1. lia.
Qed.

(** Fewer than eight ones end inside the tree with acceptable padding. *)
Lemma take_padding m out k : (k < 8)%nat ->
  exists node, foldM (take_bit m) (mk_dec out 0 0 0) (replicate k true)
    = Ok (mk_dec out node (2 ^ Z.of_nat k - 1) (Z.of_nat k)) /\ (k = 0%nat -> node = 0).
Proof.
  intros Hk. do 8 (destruct k as [|k]; [eexists; split; [vm_compute; reflexivity|done]|]). lia.
Qed.

Lemma padding_mask k : 0 <= k < 8 -> 2 ^ k - 1 = (1 .<< k) - 1.
Proof. intros. rewrite js_shl_mul; [lia..|]. pose proof (pow2_le k 8). lia. Qed.

Lemma decode_encoding m input out :
  is_bytes input -> len input <= m -> is_encoding input out ->
  decodeHpackHuffman out m = Ok input.
Proof.
  intros Hi Hm (Hb & k & Hk & Hbits). unfold decodeHpackHuffman.
  rewrite decode_bytes_bits, Hbits, foldM_app by done.
  rewrite (take_symbols m input []) by (done || (rewrite len_nil; lia)). cbn [app].
  destruct (take_padding m input k Hk) as (node & Hp & _).
  change (mbind ?f (Ok ?x)) with (f x). cbn beta. rewrite Hp.
  change (mbind ?f (Ok ?x)) with (f x). cbn [d_node d_trailing d_trailingBits d_output].
  rewrite (padding_mask (Z.of_nat k)), Z.eqb_refl by lia.
  destruct (Z.ltb_spec 7 (Z.of_nat k)) as [|_]; [lia|]. by rewrite andb_false_r.
Qed.

Lemma encode_total input :
  30 * len input <= MAX_SAFE_INTEGER -> exists out, encodeHpackHuffman input = Ok out.
Proof.
  intros H. unfold encodeHpackHuffman. rewrite encodedLength_total by done. by eexists.
Qed.

(** ** The decoder accepts only encodings *)

Lemma all_paths_ok : forallb node_ok (seqZ 0 513) = true.
Proof. vm_compute. reflexivity. Qed.

Lemma step_paths n b c :
  0 <= n < 513 -> c = at_or (-1) (if b : bool then oneChildren the_tree else zeroChildren the_tree) n ->
  0 <= c -> edge_ok n b c = true.
Proof.
  intros Hn -> Hc. pose proof all_paths_ok as H. rewrite forallb_forall in H.
  specialize (H n). rewrite <- list_elem_of_In, elem_of_seqZ in H. specialize (H ltac:(lia)).
  unfold node_ok in H. apply andb_true_iff in H as [Hz Ho].
  destruct b.
  - apply orb_true_iff in Ho as [Ho|Ho]; [|exact Ho]. apply Z.ltb_lt in Ho. lia.
  - apply orb_true_iff in Hz as [Hz|Hz]; [|exact Hz]. apply Z.ltb_lt in Hz. lia.
Qed.

Lemma huff_bits_app a b : huff_bits (a ++ b) = huff_bits a ++ huff_bits b.
Proof. apply bind_app. Qed.

Lemma take_bit_decoded m bs d b d' :
  huff_decoded m bs d -> take_bit m d b = Ok d' -> huff_decoded m (bs ++ [b]) d'.
Proof.
  intros (Hbs & Hn & Hb & Hm & Hp & Ht & Htb) Hd. unfold take_bit in Hd.
  pose proof (step_paths _ b _ Hn eq_refl) as Hstep.
  set (node := at_or _ _ (d_node d)) in *. destruct (Z.ltb_spec node 0) as [|Hpos]; [done|].
  specialize (Hstep Hpos). unfold edge_ok in Hstep.
  cbv zeta in Hstep. apply andb_true_iff in Hstep as [Hstep Hsym]. apply andb_true_iff in Hstep as [Hrange Hpath].
  apply bool_decide_eq_true in Hpath. apply andb_true_iff in Hrange as [_ Hrange].
  apply Z.ltb_lt in Hrange.
  set (sym := at_or (-1) (symbols the_tree) node) in *.
  destruct (Z.ltb_spec sym 0) as [Hs|Hs].
  - injection Hd as <-. unfold huff_decoded. cbn [d_output d_node d_trailing d_trailingBits].
    apply Z.ltb_lt in Hsym. rewrite Hpath, bits_val_app, len_app in *.
    pose proof (bits_val_range (node_path (d_node d))). pose proof (pow2_le (len (node_path (d_node d))) 30).
    pose proof (len_nonneg (node_path (d_node d))).
    split_and!; try done.
    + by rewrite Hbs, <- app_assoc.
    + rewrite Ht. apply shift_in. lia.
    + by rewrite Htb.
  - apply andb_true_iff in Hsym as [Hle Hcode]. apply Z.leb_le in Hle.
    apply bool_decide_eq_true in Hcode.
    destruct (Z.eqb_spec sym 256) as [|Hne]; [done|].
    destruct (Z.leb_spec m (len (d_output d))) as [|Hlt]; [done|].
    injection Hd as <-. unfold huff_decoded. cbn [d_output d_node d_trailing d_trailingBits].
    change (node_path 0) with (@nil bool). split_and!; try done.
    + rewrite Hbs, app_nil_r, huff_bits_app, <- app_assoc, <- Hpath, Hcode. cbn. by rewrite app_nil_r.
    + apply Forall_app_2; [done|]. apply Forall_singleton. split; lia.
    + rewrite len_app. change (len [_]) with 1. lia.
Qed.

Lemma take_bits_decoded m bs2 : forall bs1 d d',
  huff_decoded m bs1 d -> foldM (take_bit m) d bs2 = Ok d' -> huff_decoded m (bs1 ++ bs2) d'.
Proof.
  induction bs2 as [|b bs2 IH]; intros bs1 d d' Hd Hrun.
  - injection Hrun as <-. by rewrite app_nil_r.
  - rewrite foldM_cons in Hrun. destruct (take_bit m d b) as [d1|] eqn:E; [|done].
    replace (bs1 ++ b :: bs2) with ((bs1 ++ [b]) ++ bs2) by (by rewrite <- app_assoc).
    apply (IH _ d1); [|done]. by eapply take_bit_decoded.
Qed.

Lemma bits_val_ones l : bits_val l = 2 ^ len l - 1 -> l = replicate (length l) true.
Proof.
  induction l as [|b l IH] using rev_ind; [done|]. intros H.
  rewrite bits_val_app, len_app in H. change (len [b]) with 1 in H.
  rewrite Z.pow_add_r in H by (pose proof (len_nonneg l); lia).
  pose proof (bits_val_range l). destruct b; cbn [Z.b2z] in H; [|lia].
  rewrite length_app. cbn. rewrite Nat.add_comm. cbn. rewrite replicate_cons_app.
  f_equal. apply IH. lia.
Qed.

Lemma decode_is_encoding x m out :
  is_bytes x -> 0 <= m -> decodeHpackHuffman x m = Ok out ->
  is_encoding out x /\ is_bytes out /\ len out <= m.
Proof.
  intros Hx Hm. unfold decodeHpackHuffman. rewrite decode_bytes_bits by done.
  destruct (foldM _ _ _) as [d|] eqn:E; cbn; [|done].
  apply (take_bits_decoded m (flat_bits x) []) in E as (Hbs & Hn & Hb & Hlen & Hp & Ht & Htb).
  2: { unfold huff_decoded. cbn. split_and!; done || lia. }
  destruct (_ && _) eqn:Hpad; [done|]. intros [= <-].
  split; [|done]. split; [done|]. exists (length (node_path (d_node d))).
  cbn [app] in Hbs.
  destruct (Z.eqb_spec (d_node d) 0) as [Hz|Hz].
  - rewrite Hbs, Hz. change (node_path 0) with (@nil bool). cbn. split; [lia|done].
  - cbn [negb andb] in Hpad. apply orb_false_iff in Hpad as [Hk Hv].
    apply Z.ltb_ge in Hk. apply negb_false_iff, Z.eqb_eq in Hv.
    pose proof (len_nonneg (node_path (d_node d))).
    rewrite Htb in Hv, Hk. rewrite <- padding_mask, Ht in Hv by lia. apply bits_val_ones in Hv.
    split; [unfold len in Hk; lia|]. rewrite Hbs. f_equal. exact Hv.
Qed.

(** ** Properties *)

(** C39: the Huffman coder is a bijection between strings and its accepted inputs.
    For every byte sequence [x] and limit [m], [decodeHpackHuffman x m] returns
    [out] exactly when [out] is a byte sequence of at most [m] bytes that
    [encodeHpackHuffman] encodes as [x]: decoding inverts encoding, and no
    other input (wrong padding, an EOS code, a cut code) is accepted. *)
Theorem huffman_decode_iff_encode x m out :
  is_bytes x -> 0 <= m -> 30 * m <= MAX_SAFE_INTEGER ->
  decodeHpackHuffman x m = Ok out <->
  is_bytes out /\ len out <= m /\ encodeHpackHuffman out = Ok x.
Proof.
  intros Hx Hm Hsafe. split.
  - intros H. apply decode_is_encoding in H as (He & Hb & Hl); [|done..].
    split_and!; [done..|]. destruct (encode_total out) as [y Hy]; [lia|].
    rewrite Hy. f_equal. eapply is_encoding_unique; [by eapply encode_is_encoding|done].
  - intros (Hb & Hl & He). apply decode_encoding; [done..|]. by apply encode_is_encoding.
Qed.

Lemma huffman_decode_iff_encode_witness :
  decodeHpackHuffman [241; 227; 194; 229; 242; 58; 107; 160; 171; 144; 244; 255] 15
  = Ok (u "www.example.com").
Proof.
  apply (huffman_decode_iff_encode _ 15 (u "www.example.com")).
  - repeat constructor; done.
  - done.
  - done.
  - split_and!; [repeat constructor; done|done|vm_compute; reflexivity].
Defined.

(** Encoding never throws below 2^53 / 30 bytes, and its output has exactly the
    length [hpackHuffmanEncodedLength] announces: the code bits rounded up. *)
Theorem huffman_encode_length input :
  30 * len input <= MAX_SAFE_INTEGER ->
  exists out, encodeHpackHuffman input = Ok out /\ is_bytes out /\
    hpackHuffmanEncodedLength input = Ok (len out) /\
    8 * len out - 8 < len (huff_bits input) <= 8 * len out.
Proof.
  intros Hs. destruct (encode_total input Hs) as [out Ho]. exists out. split; [done|].
  apply encode_is_encoding in Ho as (Hb & k & Hk & Hbits). split; [done|].
  apply (f_equal len) in Hbits. rewrite len_flat_bits, len_app in Hbits.
  assert (len (replicate k true) = Z.of_nat k) as Hk' by (unfold len; by rewrite length_replicate).
  rewrite encodedLength_total by done. split; [f_equal; div_lia|lia].
Qed.

Lemma huffman_encode_length_witness :
  exists out, encodeHpackHuffman (u "no-cache") = Ok out /\ is_bytes out /\
    hpackHuffmanEncodedLength (u "no-cache") = Ok (len out) /\
    8 * len out - 8 < len (huff_bits (u "no-cache")) <= 8 * len out.
Proof. apply huffman_encode_length. vm_compute. discriminate. Defined.
