(* ===== verification/Hpack.v ===== *)
(** * HPACK header compression ([http2/hpack.ts])

    The static and dynamic tables, the prefix-integer and string codecs, and the
    stateful [HpackDecoder] and [HpackEncoder].  A [Cursor] is local to one call,
    so reading is a computation in [ST Cursor] whose state a throw discards; the
    dynamic table outlives a throw, so the two [decode]/[encode] methods return
    the object together with the result. *)

From S2P Require Import Prelude Encoding Huffman.

Inductive HpackIndexing := incremental | without | never.
#[export] Instance HpackIndexing_eq_dec : EqDecision HpackIndexing.
Proof. solve_decision. Defined.

Record HpackHeaderField := mk_field {
  f_name : jsstr;
  f_value : jsstr;
  f_indexing : option HpackIndexing;
}.

Record DecodedHpackHeaderField := mk_decoded {
  d_name : jsstr;
  d_value : jsstr;
  neverIndexed : bool;
}.

Record HpackLimits := mk_limits {
  maxHeaderListBytes : Z;
  maxStringBytes : Z;
}.

Definition defaultHpackLimits : HpackLimits := mk_limits (64 * 1024) (64 * 1024).

Record StoredHeader := mk_stored {
  s_name : jsstr;
  s_value : jsstr;
  s_size : Z;
}.

Record Cursor := mk_cursor {
  c_bytes : list Z;
  c_offset : Z;
}.

(** ** The static table *)

Definition STATIC_NAMES : list jsstr := u <$> [
  ":authority"; ":method"; ":method"; ":path"; ":path"; ":scheme"; ":scheme"; ":status";
  ":status"; ":status"; ":status"; ":status"; ":status"; ":status"; "accept-charset";
  "accept-encoding"; "accept-language"; "accept-ranges"; "accept";
  "access-control-allow-origin"; "age"; "allow"; "authorization"; "cache-control";
  "content-disposition"; "content-encoding"; "content-language"; "content-length";
  "content-location"; "content-range"; "content-type"; "cookie"; "date"; "etag"; "expect";
  "expires"; "from"; "host"; "if-match"; "if-modified-since"; "if-none-match"; "if-range";
  "if-unmodified-since"; "last-modified"; "link"; "location"; "max-forwards";
  "proxy-authenticate"; "proxy-authorization"; "range"; "referer"; "refresh"; "retry-after";
  "server"; "set-cookie"; "strict-transport-security"; "transfer-encoding"; "user-agent";
  "vary"; "via"; "www-authenticate"].

Definition STATIC_VALUES : list jsstr := u <$> [
  EmptyString; "GET"; "POST"; "/"; "/index.html"; "http"; "https"; "200"; "204"; "206"; "304";
  "400"; "404"; "500"; EmptyString; "gzip, deflate"; EmptyString; EmptyString; EmptyString;
  EmptyString; EmptyString; EmptyString; EmptyString; EmptyString; EmptyString; EmptyString;
  EmptyString; EmptyString; EmptyString; EmptyString; EmptyString; EmptyString; EmptyString;
  EmptyString; EmptyString; EmptyString; EmptyString; EmptyString; EmptyString; EmptyString;
  EmptyString; EmptyString; EmptyString; EmptyString; EmptyString; EmptyString; EmptyString;
  EmptyString; EmptyString; EmptyString; EmptyString; EmptyString; EmptyString; EmptyString;
  EmptyString; EmptyString; EmptyString; EmptyString; EmptyString; EmptyString; EmptyString].

Definition STATIC_TABLE_LENGTH : Z := 61.
Definition MAX_HPACK_INTEGER : Z := 0x7fffffff.

Definition requireNonnegativeInteger (value : Z) (name : string) : result unit :=
  throw_if (negb (isSafeInteger value) || (value <? 0) || (MAX_HPACK_INTEGER <? value))
    (RangeError (name +:+ " must be an integer between 0 and 2^31-1")).

Definition byteStringLength (value : jsstr) : result Z :=
  if existsb (fun code => 255 <? code) value
  then Err (TypeError "HPACK fields must be ByteStrings")
  else Ok (len value).

Definition entrySize (name value : jsstr) : result Z :=
  n ← byteStringLength name;
  v ← byteStringLength value;
  Ok (n + v + 32).

Definition staticEntry (index : Z) : option StoredHeader :=
  if (index <? 1) || (STATIC_TABLE_LENGTH <? index) then None
  else
    name ← at_ STATIC_NAMES (index - 1);
    value ← at_ STATIC_VALUES (index - 1);
    Some (mk_stored name value (len name + len value + 32)).

(** ** The dynamic table *)

Record DynamicTable := mk_table {
  stored : list StoredHeader;
  storedBytes : Z;
  capacityBytes : Z;
}.

Definition new_DynamicTable (capacity : Z) : DynamicTable := mk_table [] 0 capacity.

Definition dt_get (t : DynamicTable) (index : Z) : option StoredHeader :=
  at_ (stored t) (index - 1).

(** [while (storedBytes > target && stored.length !== 0)]: every iteration pops
    one entry, so [stored.length] iterations are enough. *)
Fixpoint evict_loop (fuel : nat) (l : list StoredHeader) (n target : Z) : list StoredHeader * Z :=
  match fuel with
  | O => (l, n)
  | S fuel =>
      if (target <? n) && negb (len l =? 0) then
        match last l with
        | Some removed => evict_loop fuel (removelast l) (n - s_size removed) target
        | None => (l, n)
        end
      else (l, n)
  end.

Definition evictTo (t : DynamicTable) (target : Z) : DynamicTable :=
  let '(l, n) := evict_loop (length (stored t)) (stored t) (storedBytes t) target in
  mk_table l n (capacityBytes t).

Definition setCapacity (t : DynamicTable) (capacity : Z) : DynamicTable :=
  evictTo (mk_table (stored t) (storedBytes t) capacity) capacity.

Definition dt_insert (t : DynamicTable) (name value : jsstr) : result DynamicTable :=
  size ← entrySize name value;
  if capacityBytes t <? size then Ok (mk_table [] 0 (capacityBytes t))
  else
    let t := evictTo t (capacityBytes t - size) in
    Ok (mk_table (mk_stored name value size :: stored t) (storedBytes t + size) (capacityBytes t)).

(** The loops of [find] and [findName]: the position from [i + 1], or zero. *)
Fixpoint find_from (p : StoredHeader -> bool) (l : list StoredHeader) (i : Z) : Z :=
  match l with
  | [] => 0
  | entry :: l => if p entry then i + 1 else find_from p l (i + 1)
  end.

Definition dt_find (t : DynamicTable) (name value : jsstr) : Z :=
  find_from (fun entry => str_eqb (s_name entry) name && str_eqb (s_value entry) value) (stored t) 0.

Definition dt_findName (t : DynamicTable) (name : jsstr) : Z :=
  find_from (fun entry => str_eqb (s_name entry) name) (stored t) 0.

(** ** Integers and strings *)

(** [cursor.bytes[cursor.offset++]] *)
Definition readByte : ST Cursor Z := fun c =>
  match at_ (c_bytes c) (c_offset c) with
  | Some byte => Ok (byte, mk_cursor (c_bytes c) (c_offset c + 1))
  | None => Err (ProtocolError "Truncated HPACK block")
  end.

Fixpoint decode_octets (octets : nat) (value shift : Z) : ST Cursor Z :=
  match octets with
  | O => st_lift (Err (ProtocolError "HPACK integer encoding is too long"))
  | S octets =>
      byte ← readByte;
      let part := (byte .& 127) * 2 ^ shift in
      if negb (isSafeInteger part) || (MAX_HPACK_INTEGER - value <? part)
      then st_lift (Err (ProtocolError "HPACK integer exceeds the supported range"))
      else
        let value := value + part in
        if byte .& 128 =? 0 then mret value else decode_octets octets value (shift + 7)
  end.

Definition decodeHpackInteger (prefixBits : Z) : ST Cursor Z :=
  if (prefixBits <? 1) || (8 <? prefixBits)
  then st_lift (Err (RangeError "Invalid HPACK prefix width"))
  else
    let prefixMask := 2 ^ prefixBits - 1 in
    first ← readByte;
    let value := first .& prefixMask in
    if value <? prefixMask then mret value else decode_octets 5 value 0.

(** [while (remainder >= 128)]: a value below [2^31] needs at most five octets. *)
Fixpoint write_octets (fuel : nat) (output : list Z) (remainder : Z) : result (list Z) :=
  match fuel with
  | O => Err OutOfFuel
  | S fuel =>
      if 128 <=? remainder
      then write_octets fuel (output ++ [Z.rem remainder 128 + 128]) (remainder / 128)
      else Ok (output ++ [remainder])
  end.

Definition writeInteger (output : list Z) (value prefixBits prefix : Z) : result (list Z) :=
  requireNonnegativeInteger value "HPACK integer" ;;
  let prefixMask := 2 ^ prefixBits - 1 in
  if value <? prefixMask then Ok (output ++ [prefix .| value])
  else write_octets 5 (output ++ [prefix .| prefixMask]) (value - prefixMask).

Definition writeBytes (output bytes : list Z) : list Z :=
  foldl (fun output byte => output ++ [byte]) output bytes.

Definition writeString (output : list Z) (value : jsstr) (useHuffman : bool) : result (list Z) :=
  bytes ← encodeByteString value;
  encodedLength ← hpackHuffmanEncodedLength bytes;
  if useHuffman && (encodedLength <? len bytes) then
    encoded ← encodeHpackHuffman bytes;
    output ← writeInteger output (len encoded) 7 128;
    Ok (writeBytes output encoded)
  else
    output ← writeInteger output (len bytes) 7 0;
    Ok (writeBytes output bytes).

Definition readString (limits : HpackLimits) : ST Cursor jsstr :=
  c ← st_get;
  let huffman := negb (at_or 0 (c_bytes c) (c_offset c) .& 128 =? 0) in
  length ← decodeHpackInteger 7;
  if maxStringBytes limits <? length
  then st_lift (Err (LimitError "Encoded HPACK string exceeds configured limit")) else
  cursor ← st_get;
  if len (c_bytes cursor) - c_offset cursor <? length
  then st_lift (Err (ProtocolError "Truncated HPACK string")) else
  let chunk := subarray (c_bytes cursor) (c_offset cursor) (c_offset cursor + length) in
  st_put (mk_cursor (c_bytes cursor) (c_offset cursor + length)) ;;
  if negb huffman then mret (latin1 chunk)
  else
    decoded ← st_lift (decodeHpackHuffman chunk (maxStringBytes limits));
    mret (latin1 decoded).

(** [for (let i = 0; i < STATIC_TABLE_LENGTH; i++)]: the position, or zero. *)
Fixpoint static_from (p : Z -> bool) (n : nat) (i : Z) : Z :=
  match n with
  | O => 0
  | S n => if p i then i + 1 else static_from p n (i + 1)
  end.

Definition findStatic (name value : jsstr) : Z :=
  static_from (fun i => bool_decide (at_ STATIC_NAMES i = Some name)
    && bool_decide (at_ STATIC_VALUES i = Some value)) (Z.to_nat STATIC_TABLE_LENGTH) 0.

Definition findStaticName (name : jsstr) : Z :=
  static_from (fun i => bool_decide (at_ STATIC_NAMES i = Some name))
    (Z.to_nat STATIC_TABLE_LENGTH) 0.

Definition isSensitiveHeaderName (name : jsstr) : bool :=
  str_eqb name (u "authorization") || str_eqb name (u "proxy-authorization")
  || str_eqb name (u "cookie") || str_eqb name (u "set-cookie").

Definition resolveIndex (table : DynamicTable) (index : Z) : result StoredHeader :=
  if index =? 0 then Err (ProtocolError "HPACK index zero is invalid") else
  match staticEntry index with
  | Some fixed => Ok fixed
  | None =>
      match dt_get table (index - STATIC_TABLE_LENGTH) with
      | Some dynamic => Ok dynamic
      | None => Err (ProtocolError "HPACK index is outside the table")
      end
  end.

Definition readLiteral (table : DynamicTable) (prefixBits : Z) (limits : HpackLimits)
    : ST Cursor (jsstr * jsstr) :=
  nameIndex ← decodeHpackInteger prefixBits;
  name ← (if nameIndex =? 0 then readString limits
          else st_lift (s_name <$> resolveIndex table nameIndex));
  value ← readString limits;
  mret (name, value).

Definition validateLimits (limits : HpackLimits) : result unit :=
  requireNonnegativeInteger (maxHeaderListBytes limits) "maxHeaderListBytes" ;;
  requireNonnegativeInteger (maxStringBytes limits) "maxStringBytes".

(** ** The decoder *)

Record HpackDecoder := mk_decoder {
  d_table : DynamicTable;
  maximumAllowedTableSize : Z;
  requiredMinimumSize : option Z;
  d_limits : HpackLimits;
}.

Definition new_HpackDecoder (maximumTableSize : Z) (limits : HpackLimits) : result HpackDecoder :=
  requireNonnegativeInteger maximumTableSize "maximumTableSize" ;;
  validateLimits limits ;;
  Ok (mk_decoder (new_DynamicTable maximumTableSize) maximumTableSize None limits).

Definition decoder_setMaximumTableSize (d : HpackDecoder) (maximum : Z) : result HpackDecoder :=
  requireNonnegativeInteger maximum "maximumTableSize" ;;
  let required :=
    if maximum <? capacityBytes (d_table d)
    then Some (Z.min (default maximum (requiredMinimumSize d)) maximum)
    else requiredMinimumSize d in
  Ok (mk_decoder (d_table d) maximum required (d_limits d)).

(** The variables of one [decode] call, and the table it updates. *)
Record decoding := mk_decoding {
  s_cursor : Cursor;
  s_table : DynamicTable;
  s_headers : list DecodedHpackHeaderField;
  s_listBytes : Z;
  s_sawHeader : bool;
  s_sizeUpdates : Z;
  s_met : bool;
}.

Definition check_minimum (s : decoding) : result unit :=
  throw_if (negb (s_met s))
    (ProtocolError "HPACK block omitted a required table size update").

Definition check_list (l : HpackLimits) (listBytes : Z) : result unit :=
  throw_if (maxHeaderListBytes l <? listBytes)
    (LimitError "HPACK header list exceeds configured limit").

(** The three kinds of header field and the table size update. *)
Definition decode_indexed (d : HpackDecoder) (s : decoding) : result decoding :=
  check_minimum s ;;
  '(index, c) ← decodeHpackInteger 7 (s_cursor s);
  entry ← resolveIndex (s_table s) index;
  let listBytes := s_listBytes s + s_size entry in
  check_list (d_limits d) listBytes ;;
  Ok (mk_decoding c (s_table s) (s_headers s ++ [mk_decoded (s_name entry) (s_value entry) false])
        listBytes true (s_sizeUpdates s) (s_met s)).

Definition decode_incremental (d : HpackDecoder) (s : decoding) : result decoding :=
  check_minimum s ;;
  '(field, c) ← readLiteral (s_table s) 6 (d_limits d) (s_cursor s);
  size ← entrySize field.1 field.2;
  let listBytes := s_listBytes s + size in
  check_list (d_limits d) listBytes ;;
  table ← dt_insert (s_table s) field.1 field.2;
  Ok (mk_decoding c table (s_headers s ++ [mk_decoded field.1 field.2 false])
        listBytes true (s_sizeUpdates s) (s_met s)).

Definition decode_size_update (d : HpackDecoder) (s : decoding) : result decoding :=
  throw_if (s_sawHeader s) (ProtocolError "HPACK table size update followed a header field") ;;
  let sizeUpdates := s_sizeUpdates s + 1 in
  throw_if (2 <? sizeUpdates) (ProtocolError "Too many HPACK table size updates") ;;
  '(size, c) ← decodeHpackInteger 5 (s_cursor s);
  throw_if (maximumAllowedTableSize d <? size)
    (ProtocolError "HPACK table size update exceeds the advertised maximum") ;;
  met ← match requiredMinimumSize d with
        | Some required =>
            if sizeUpdates =? 1 then
              throw_if (required <? size)
                (ProtocolError "HPACK table size update omitted the required minimum") ;;
              Ok true
            else Ok (s_met s)
        | None => Ok (s_met s)
        end;
  Ok (mk_decoding c (setCapacity (s_table s) size) (s_headers s) (s_listBytes s) (s_sawHeader s)
        sizeUpdates met).

Definition decode_literal (d : HpackDecoder) (first : Z) (s : decoding) : result decoding :=
  check_minimum s ;;
  let never := negb (first .& 16 =? 0) in
  '(field, c) ← readLiteral (s_table s) 4 (d_limits d) (s_cursor s);
  size ← entrySize field.1 field.2;
  let listBytes := s_listBytes s + size in
  check_list (d_limits d) listBytes ;;
  Ok (mk_decoding c (s_table s) (s_headers s ++ [mk_decoded field.1 field.2 never])
        listBytes true (s_sizeUpdates s) (s_met s)).

(** One iteration of the loop.  Every step that changes the table does so last,
    so a step that throws leaves the table of the previous step. *)
Definition decode_step (d : HpackDecoder) (s : decoding) : result decoding :=
  let first := at_or 0 (c_bytes (s_cursor s)) (c_offset (s_cursor s)) in
  if negb (first .& 128 =? 0) then decode_indexed d s
  else if negb (first .& 64 =? 0) then decode_incremental d s
  else if negb (first .& 32 =? 0) then decode_size_update d s
  else decode_literal d first s.

(** [while (cursor.offset < block.length)]: every iteration reads a byte. *)
Fixpoint decode_loop (fuel : nat) (d : HpackDecoder) (s : decoding) : decoding * result unit :=
  if c_offset (s_cursor s) <? len (c_bytes (s_cursor s)) then
    match fuel with
    | O => (s, Err OutOfFuel)
    | S fuel =>
        match decode_step d s with
        | Ok s => decode_loop fuel d s
        | Err e => (s, Err e)
        end
    end
  else (s, Ok tt).

Definition decode (d : HpackDecoder) (block : list Z)
    : HpackDecoder * result (list DecodedHpackHeaderField) :=
  let s0 := mk_decoding (mk_cursor block 0) (d_table d) [] 0 false 0
              (bool_decide (requiredMinimumSize d = None)) in
  let '(s, r) := decode_loop (length block) d s0 in
  let stopped := mk_decoder (s_table s) (maximumAllowedTableSize d) (requiredMinimumSize d) (d_limits d) in
  match (r ;; check_minimum s) with
  | Err e => (stopped, Err e)
  | Ok _ => (mk_decoder (s_table s) (maximumAllowedTableSize d) None (d_limits d), Ok (s_headers s))
  end.

(** ** The encoder *)

Record HpackEncoder := mk_encoder {
  e_table : DynamicTable;
  pendingMinimumSize : option Z;
  pendingFinalSize : option Z;
  e_huffman : bool;
}.

Definition new_HpackEncoder (maximumTableSize : Z) (huffman : bool) : result HpackEncoder :=
  requireNonnegativeInteger maximumTableSize "maximumTableSize" ;;
  Ok (mk_encoder (new_DynamicTable maximumTableSize) None None huffman).

Definition set_huffman (e : HpackEncoder) (huffman : bool) : HpackEncoder :=
  mk_encoder (e_table e) (pendingMinimumSize e) (pendingFinalSize e) huffman.

Definition encoder_setMaximumTableSize (e : HpackEncoder) (maximum : Z) : result HpackEncoder :=
  requireNonnegativeInteger maximum "maximumTableSize" ;;
  Ok (mk_encoder (setCapacity (e_table e) maximum)
        (Some (Z.min (default maximum (pendingMinimumSize e)) maximum)) (Some maximum) (e_huffman e)).

(** The size updates owed before the first field. *)
Definition encode_pending (e : HpackEncoder) : result (list Z) :=
  match pendingFinalSize e with
  | None => Ok []
  | Some final =>
      let minimum := default final (pendingMinimumSize e) in
      output ← writeInteger [] minimum 5 32;
      if negb (minimum =? final) then writeInteger output final 5 32 else Ok output
  end.

(** [dynamic === 0 ? 0 : STATIC_TABLE_LENGTH + dynamic], the static entry first. *)
Definition index_of (fixed dynamic : Z) : Z :=
  if negb (fixed =? 0) then fixed
  else if dynamic =? 0 then 0 else STATIC_TABLE_LENGTH + dynamic.

Definition field_indexing (field : HpackHeaderField) : HpackIndexing :=
  match f_indexing field with
  | Some i => i
  | None => if isSensitiveHeaderName (f_name field) then never else incremental
  end.

(** The index of an entry with the name and the value, for an incremental field. *)
Definition exact_index (t : DynamicTable) (mode : HpackIndexing) (name value : jsstr) : Z :=
  if bool_decide (mode = incremental) then
    let fixed := findStatic name value in
    index_of fixed (if fixed =? 0 then dt_find t name value else 0)
  else 0.

Definition name_index (t : DynamicTable) (name : jsstr) : Z :=
  let fixedName := findStaticName name in
  index_of fixedName (if fixedName =? 0 then dt_findName t name else 0).

(** One iteration of the loop over the fields; the table changes last. *)
Definition encode_field (huffman : bool) (t : DynamicTable) (output : list Z)
    (field : HpackHeaderField) : result (DynamicTable * list Z) :=
  let name := f_name field in
  let value := f_value field in
  byteStringLength name ;;
  byteStringLength value ;;
  let mode := field_indexing field in
  let exact := exact_index t mode name value in
  if negb (exact =? 0) then
    output ← writeInteger output exact 7 128;
    Ok (t, output)
  else
    let nameIndex := name_index t name in
    let prefix := match mode with incremental => 64 | never => 16 | without => 0 end in
    let prefixBits := match mode with incremental => 6 | _ => 4 end in
    output ← writeInteger output nameIndex prefixBits prefix;
    output ← (if nameIndex =? 0 then writeString output name huffman else Ok output);
    output ← writeString output value huffman;
    t ← (if bool_decide (mode = incremental) then dt_insert t name value else Ok t);
    Ok (t, output).

Fixpoint encode_fields (huffman : bool) (t : DynamicTable) (output : list Z)
    (fields : list HpackHeaderField) : DynamicTable * result (list Z) :=
  match fields with
  | [] => (t, Ok output)
  | field :: fields =>
      match encode_field huffman t output field with
      | Ok (t, output) => encode_fields huffman t output fields
      | Err e => (t, Err e)
      end
  end.

(** [new Uint8Array(output)] takes every number modulo 256. *)
Definition encode (e : HpackEncoder) (fields : list HpackHeaderField)
    : HpackEncoder * result (list Z) :=
  match encode_pending e with
  | Err err => (e, Err err)
  | Ok output =>
      let '(t, r) := encode_fields (e_huffman e) (e_table e) output fields in
      (mk_encoder t None None (e_huffman e),
       (fun output : list Z => to_uint8 <$> output) <$> r)
  end.
