(* ===== verification/HpackTheory.v ===== *)
(** * The HPACK codec is correct

    Integers and strings round-trip; the dynamic table stays within its
    capacity and evicts exactly what does not fit; an encoder and a decoder that
    start in step stay in step, and every header list sent is the list received. *)

From S2P Require Import Prelude Encoding Huffman Hpack.

(** ** Specifications *)

(** [p] reads exactly [bs], wherever it stands, and returns [a]. *)
Definition parses {A} (p : ST Cursor A) (bs : list Z) (a : A) : Prop := forall pre rest,
  p (mk_cursor (pre ++ bs ++ rest) (len pre))
  = Ok (a, mk_cursor (pre ++ bs ++ rest) (len pre + len bs)).

(** The size of a list of entries, and an entry's own size. *)
Definition sizes (l : list StoredHeader) : Z := foldr (fun e n => s_size e + n) 0 l.

Definition entry_ok (e : StoredHeader) : Prop :=
  s_size e = len (s_name e) + len (s_value e) + 32 /\
  is_bytestring (s_name e) /\ is_bytestring (s_value e).

#[export] Instance entry_ok_dec e : Decision (entry_ok e).
Proof. unfold entry_ok. apply _. Defined.

(** The invariant of a dynamic table. *)
Record table_ok (t : DynamicTable) : Prop := {
  ok_entries : Forall entry_ok (stored t);
  ok_bytes : storedBytes t = sizes (stored t);
  ok_fits : storedBytes t <= capacityBytes t;
  ok_capacity : 0 <= capacityBytes t <= MAX_HPACK_INTEGER;
}.

(** RFC 7541 section 4.3: the newest entries that fit together. *)
Fixpoint fit (target : Z) (l : list StoredHeader) : list StoredHeader :=
  match l with
  | [] => []
  | e :: l => if s_size e <=? target then e :: fit (target - s_size e) l else []
  end.

Definition fit_table (t : DynamicTable) (target capacity : Z) : DynamicTable :=
  mk_table (fit target (stored t)) (sizes (fit target (stored t))) capacity.

(** The prefixes the encoder writes leave their low bits to the integer. *)
Definition prefix_fits (prefixBits prefix : Z) : Prop :=
  1 <= prefixBits <= 8 /\ 0 <= prefix /\ prefix mod 2 ^ prefixBits = 0 /\
  prefix + 2 ^ prefixBits <= 256.

(** What an insertion leaves: the entry and the newest old ones that fit with it,
    or nothing at all when the entry alone does not fit. *)
Definition inserted (t : DynamicTable) (n v : jsstr) : DynamicTable :=
  let size := len n + len v + 32 in
  let l := if capacityBytes t <? size then []
           else mk_stored n v size :: fit (capacityBytes t - size) (stored t) in
  mk_table l (sizes l) (capacityBytes t).

(** An index an encoder writes resolves to an entry with the field's name. *)
Definition resolves (t : DynamicTable) (i : Z) (ok : StoredHeader -> Prop) : Prop :=
  0 < i <= MAX_HPACK_INTEGER /\ exists e, resolveIndex t i = Ok e /\ entry_ok e /\ ok e.

Definition field_ok (l : HpackLimits) (f : HpackHeaderField) : Prop :=
  is_bytestring (f_name f) /\ is_bytestring (f_value f) /\
  len (f_name f) <= maxStringBytes l /\ len (f_value f) <= maxStringBytes l.

Definition field_size (f : HpackHeaderField) : Z := len (f_name f) + len (f_value f) + 32.

(** What the receiver makes of a field. *)
Definition received (f : HpackHeaderField) : DecodedHpackHeaderField :=
  mk_decoded (f_name f) (f_value f) (bool_decide (field_indexing f = never)).

(** A decoding state at [pos] of the input [block]. *)
Definition advance (s : decoding) (n : Z) (t : DynamicTable) (f : HpackHeaderField) : decoding :=
  mk_decoding (mk_cursor (c_bytes (s_cursor s)) (c_offset (s_cursor s) + n)) t
    (s_headers s ++ [received f]) (s_listBytes s + field_size f) true (s_sizeUpdates s) (s_met s).

(** [decode_step] reads [bs] at the cursor as the field [f]. *)
Definition step_reads (l : HpackLimits) (t : DynamicTable) (bs : list Z) (f : HpackHeaderField)
    (t' : DynamicTable) : Prop := forall d s pre rest,
  d_limits d = l -> s_table s = t -> s_met s = true ->
  s_cursor s = mk_cursor (pre ++ bs ++ rest) (len pre) ->
  s_listBytes s + field_size f <= maxHeaderListBytes l ->
  decode_step d s = Ok (advance s (len bs) t' f).

Definition list_size (fields : list HpackHeaderField) : Z :=
  foldr (fun f n => field_size f + n) 0 fields.

(** The decoding loop from a state at [bs], which ends the block, reaches [s']. *)
Definition loop_reads (d : HpackDecoder) (s : decoding) (bs : list Z) (s' : decoding) : Prop :=
  forall pre fuel, s_cursor s = mk_cursor (pre ++ bs) (len pre) -> (length bs <= fuel)%nat ->
  decode_loop fuel d s = (s', Ok tt).

Definition updated (s : decoding) (n : Z) (size : Z) : decoding :=
  mk_decoding (mk_cursor (c_bytes (s_cursor s)) (c_offset (s_cursor s) + n))
    (fit_table (s_table s) size size) (s_headers s) (s_listBytes s) (s_sawHeader s)
    (s_sizeUpdates s + 1) true.

(** The encoder's table is the decoder's, up to the size updates it still owes. *)
Record synced (e : HpackEncoder) (d : HpackDecoder) : Prop := {
  sy_encoder : table_ok (e_table e);
  sy_decoder : table_ok (d_table d);
  sy_pending :
    match pendingFinalSize e with
    | None => pendingMinimumSize e = None /\ e_table e = d_table d /\ requiredMinimumSize d = None
    | Some final => exists minimum, pendingMinimumSize e = Some minimum /\ 0 <= minimum <= final /\
        final = maximumAllowedTableSize d /\ e_table e = fit_table (d_table d) minimum final /\
        forall r, requiredMinimumSize d = Some r -> minimum <= r
    end;
}.

(** A connection: both ends created with one size, resized together when the
    SETTINGS are acknowledged, and header blocks sent in order. *)
Inductive session (l : HpackLimits) : HpackEncoder -> HpackDecoder -> Prop :=
| session_start n huffman e d :
    new_HpackEncoder n huffman = Ok e -> new_HpackDecoder n l = Ok d -> session l e d
| session_huffman e d huffman :
    session l e d -> session l (set_huffman e huffman) d
| session_resize e d n e' d' :
    session l e d -> encoder_setMaximumTableSize e n = Ok e' ->
    decoder_setMaximumTableSize d n = Ok d' -> session l e' d'
| session_send e d fields e' block d' r :
    session l e d -> Forall (field_ok l) fields -> list_size fields <= maxHeaderListBytes l ->
    encode e fields = (e', Ok block) -> decode d block = (d', r) -> session l e' d'.

Definition example_fields : list HpackHeaderField :=
  [mk_field (u ":method") (u "GET") None; mk_field (u "cookie") (u "a=b") None;
   mk_field (u "x-one") (u "1") None; mk_field (u "x-one") (u "1") None].

(** ** Reading *)

Lemma parses_ret {A} (a : A) : parses (mret a) [] a.
Proof. intros pre rest. cbn. by rewrite len_nil, Z.add_0_r. Qed.

Lemma parses_bind {A B} (m : ST Cursor A) (k : A -> ST Cursor B) bs1 bs2 a b :
  parses m bs1 a -> parses (k a) bs2 b -> parses (m ≫= k) (bs1 ++ bs2) b.
Proof.
  intros Hm Hk pre rest. unfold mbind, ST_bind. rewrite <- app_assoc, Hm.
  specialize (Hk (pre ++ bs1) rest). rewrite len_app, <- app_assoc in Hk.
  by rewrite Hk, len_app, Z.add_assoc.
Qed.

Lemma parses_bind_nil {A B} (m : ST Cursor A) (k : A -> ST Cursor B) bs a b :
  parses m bs a -> parses (k a) [] b -> parses (m ≫= k) bs b.
Proof. intros Hm Hk. rewrite <- (app_nil_r bs). by eapply parses_bind. Qed.

Lemma readByte_parses b : parses readByte [b] b.
Proof. intros pre rest. unfold readByte. cbn [c_bytes c_offset app]. by rewrite at_app_mid. Qed.

(** ** Bits of a byte *)

Lemma and127 b : b .& 127 = b mod 128.
Proof. apply (js_and_ones b 7). lia. Qed.

Lemma and_flag b k : is_byte b -> 0 <= k < 8 -> (b .& 2 ^ k =? 0) = (b / 2 ^ k mod 2 =? 0).
Proof.
  intros Hb Hk.
  assert (H : forallb (fun k => forallb (fun b => Bool.eqb (b .& 2 ^ k =? 0) (b / 2 ^ k mod 2 =? 0))
    (seqZ 0 256)) (seqZ 0 8) = true) by (vm_compute; reflexivity).
  rewrite forallb_forall in H. specialize (H k).
  rewrite <- list_elem_of_In, elem_of_seqZ in H. specialize (H ltac:(lia)).
  eapply byte_check in H; [|done]. by apply eqb_prop.
Qed.

Lemma and128 b : is_byte b -> (b .& 128 =? 0) = (b <? 128).
Proof.
  intros Hb. change 128 with (2 ^ 7) at 1. rewrite and_flag by (done || lia).
  destruct Hb. destruct (Z.eqb_spec (b / 2 ^ 7 mod 2) 0), (Z.ltb_spec b 128); try done;
    change (2 ^ 7) with 128 in *; div_lia.
Qed.

(** ** Integers *)

Lemma write_octets_parses fuel : forall output r,
  (0 < fuel)%nat -> 0 <= r < 128 ^ Z.of_nat fuel ->
  exists bs, write_octets fuel output r = Ok (output ++ bs) /\ is_bytes bs /\
    forall fuel' value shift, (fuel <= fuel')%nat -> 0 <= value -> 0 <= shift ->
      value + r * 2 ^ shift <= MAX_HPACK_INTEGER ->
      parses (decode_octets fuel' value shift) bs (value + r * 2 ^ shift).
Proof.
  induction fuel as [|fuel IH]; intros output r Hfuel Hr; [lia|].
  cbn [write_octets]. rewrite Nat2Z.inj_succ, Z.pow_succ_r in Hr by lia.
  destruct (Z.leb_spec 128 r) as [Hbig|Hsmall].
  - assert ((0 < fuel)%nat) by (destruct fuel; [change (Z.of_nat 0) with 0 in Hr|]; lia).
    destruct (IH (output ++ [Z.rem r 128 + 128]) (r / 128)) as (bs & -> & Hb & Hparse); [done| |].
    { split; [apply Z.div_pos; lia|apply Z.div_lt_upper_bound; lia]. }
    rewrite Z.rem_mod_nonneg by lia. rewrite <- app_assoc.
    exists ((r mod 128 + 128) :: bs). split; [done|].
    assert (Hbyte : is_byte (r mod 128 + 128)) by (split; div_lia).
    split; [by constructor|]. intros fuel' value shift Hf Hv Hs Hmax.
    destruct fuel' as [|fuel']; [lia|]. cbn [decode_octets].
    pose proof (pow2_pos shift Hs) as Hp.
    apply (parses_bind _ _ [_] bs (r mod 128 + 128)); [apply readByte_parses|].
    rewrite and127, and128 by done. unfold isSafeInteger, MAX_SAFE_INTEGER, MAX_HPACK_INTEGER in *.
    replace ((r mod 128 + 128) mod 128) with (r mod 128) by div_lia.
    pose proof (Z.mod_pos_bound r 128). pose proof (Z.div_mod r 128).
    destruct (Z.leb_spec (Z.abs (r mod 128 * 2 ^ shift)) 9007199254740991); [|nia].
    destruct (Z.ltb_spec (0x7fffffff - value) (r mod 128 * 2 ^ shift)); [nia|].
    cbn [negb orb]. destruct (Z.ltb_spec (r mod 128 + 128) 128); [lia|].
    replace (value + r * 2 ^ shift)
      with (value + r mod 128 * 2 ^ shift + r / 128 * 2 ^ (shift + 7)).
    + apply Hparse; [lia|nia|lia|]. rewrite Z.pow_add_r by lia. nia.
    + rewrite Z.pow_add_r by lia. nia.
  - exists [r]. split; [done|]. assert (Hbyte : is_byte r) by (split; lia).
    split; [by constructor|]. intros fuel' value shift Hf Hv Hs Hmax.
    destruct fuel' as [|fuel']; [lia|]. cbn [decode_octets].
    pose proof (pow2_pos shift Hs) as Hp.
    apply (parses_bind_nil _ _ [r] r); [apply readByte_parses|].
    rewrite and127, and128, Z.mod_small by (done || lia).
    unfold isSafeInteger, MAX_SAFE_INTEGER, MAX_HPACK_INTEGER in *.
    destruct (Z.leb_spec (Z.abs (r * 2 ^ shift)) 9007199254740991); [|nia].
    destruct (Z.ltb_spec (0x7fffffff - value) (r * 2 ^ shift)); [nia|].
    cbn [negb orb]. destruct (Z.ltb_spec r 128); [|lia]. apply parses_ret.
Qed.

Lemma writeInteger_parses output v p prefix :
  prefix_fits p prefix -> 0 <= v <= MAX_HPACK_INTEGER ->
  exists first bs, writeInteger output v p prefix = Ok (output ++ first :: bs) /\
    is_bytes (first :: bs) /\ prefix <= first < prefix + 2 ^ p /\
    parses (decodeHpackInteger p) (first :: bs) v.
Proof.
  intros (Hp & Hpre & Hlow & Hfit) Hv. unfold writeInteger, requireNonnegativeInteger.
  unfold isSafeInteger, MAX_SAFE_INTEGER, MAX_HPACK_INTEGER in *.
  destruct (Z.leb_spec (Z.abs v) 9007199254740991); [|lia].
  destruct (Z.ltb_spec v 0); [lia|]. destruct (Z.ltb_spec 0x7fffffff v); [lia|]. cbn [negb orb throw_if].
  change (mbind ?f (Ok ?x)) with (f x). cbv beta.
  pose proof (pow2_le 1 p ltac:(lia)) as H2. pose proof (pow2_le p 8 ltac:(lia)).
  assert (Hor : forall x, 0 <= x < 2 ^ p -> prefix .| x = prefix + x) by
    (intros x Hx; apply (js_or_add _ _ p); lia).
  assert (Hmask : forall x, 0 <= x < 2 ^ p -> (prefix + x) .& (2 ^ p - 1) = x).
  { intros x Hx. rewrite js_and_ones by lia. rewrite Zplus_mod, Hlow, Z.add_0_l, Z.mod_mod by lia.
    by apply Z.mod_small. }
  assert (Hwidth : (p <? 1) || (8 <? p) = false) by lia.
  destruct (Z.ltb_spec v (2 ^ p - 1)) as [Hs|Hl].
  - rewrite Hor by lia. exists (prefix + v), []. split; [done|].
    split; [apply Forall_singleton; split; lia|]. split; [lia|].
    unfold decodeHpackInteger. rewrite Hwidth.
    apply (parses_bind_nil _ _ [_] (prefix + v)); [apply readByte_parses|].
    rewrite Hmask by lia. destruct (Z.ltb_spec v (2 ^ p - 1)); [|lia]. apply parses_ret.
  - destruct (write_octets_parses 5 (output ++ [prefix .| (2 ^ p - 1)]) (v - (2 ^ p - 1)))
      as (bs & Hw & Hb & Hparse).
    { lia. }
    { change (128 ^ Z.of_nat 5) with 34359738368. lia. }
    rewrite Hw, Hor, <- app_assoc by lia. exists (prefix + (2 ^ p - 1)), bs. split; [done|].
    split; [constructor; [unfold is_byte; lia|done]|]. split; [lia|].
    unfold decodeHpackInteger. rewrite Hwidth.
    apply (parses_bind _ _ [_] bs (prefix + (2 ^ p - 1))); [apply readByte_parses|].
    rewrite Hmask by lia. rewrite Z.ltb_irrefl.
    specialize (Hparse 5%nat (2 ^ p - 1) 0). change (2 ^ 0) with 1 in Hparse.
    rewrite Z.mul_1_r in Hparse. unfold MAX_HPACK_INTEGER in Hparse.
    replace (2 ^ p - 1 + (v - (2 ^ p - 1))) with v in Hparse by lia. apply Hparse; lia.
Qed.

(** ** Strings *)

Lemma writeBytes_app output bs : writeBytes output bs = output ++ bs.
Proof.
  unfold writeBytes. revert output. induction bs as [|b bs IH]; intros output; cbn;
    [by rewrite app_nil_r|]. by rewrite IH, <- app_assoc.
Qed.

Lemma is_byte_first first : is_byte first -> forall bs pre rest,
  at_or 0 (pre ++ (first :: bs) ++ rest) (len pre) = first.
Proof. intros _ bs pre rest. unfold at_or. cbn [app]. by rewrite at_app_mid. Qed.

(** The part of [readString] after the length: [n] bytes and their meaning. *)
Lemma readString_parses lim first bs chunk huffman text :
  is_bytes (first :: bs) -> (first .& 128 =? 0) = negb huffman ->
  parses (decodeHpackInteger 7) (first :: bs) (len chunk) ->
  len chunk <= maxStringBytes lim ->
  (if huffman then latin1 <$> decodeHpackHuffman chunk (maxStringBytes lim) else Ok (latin1 chunk))
    = Ok text ->
  parses (readString lim) ((first :: bs) ++ chunk) text.
Proof.
  intros Hb Hflag Hint Hlim Htext pre rest.
  unfold readString, st_get, mbind, ST_bind. cbn [c_bytes c_offset].
  rewrite <- app_assoc, is_byte_first, Hflag by (by inversion Hb).
  specialize (Hint pre (chunk ++ rest)). rewrite Hint. clear Hint.
  destruct (Z.ltb_spec (maxStringBytes lim) (len chunk)) as [|_]; [lia|]. cbn [c_bytes c_offset].
  pose proof (len_nonneg rest).
  destruct (Z.ltb_spec (len (pre ++ (first :: bs) ++ chunk ++ rest) - (len pre + len (first :: bs))) (len chunk))
    as [Hc|_]; [rewrite !len_app in Hc; lia|].
  assert (Hsub : subarray (pre ++ (first :: bs) ++ chunk ++ rest) (len pre + len (first :: bs))
     (len pre + len (first :: bs) + len chunk) = chunk).
  { rewrite app_assoc, <- len_app. apply subarray_app_mid. }
  cbn [st_put]. rewrite Hsub. rewrite (len_app (first :: bs)), Z.add_assoc.
  destruct huffman; cbn [negb].
  - unfold st_lift. destruct (decodeHpackHuffman chunk (maxStringBytes lim)) as [t|]; cbn in Htext; [|done].
    by injection Htext as <-.
  - by injection Htext as <-.
Qed.

Lemma writeString_parses output s huffman lim :
  is_bytestring s -> len s <= maxStringBytes lim -> maxStringBytes lim <= MAX_HPACK_INTEGER ->
  exists bs, writeString output s huffman = Ok (output ++ bs) /\ is_bytes bs /\ bs <> [] /\
    parses (readString lim) bs s.
Proof.
  intros Hs Hlen Hmax. unfold writeString. rewrite encodeByteString_bytes by done. cbn [mbind result_bind].
  assert (Hsafe : 30 * len s <= MAX_SAFE_INTEGER) by (unfold MAX_HPACK_INTEGER, MAX_SAFE_INTEGER in *; lia).
  pose proof (len_nonneg s) as Hs0.
  rewrite encodedLength_total by done. cbn [mbind result_bind].
  destruct (huffman && ((len (huff_bits s) + 7) / 8 <? len s)) eqn:Hh.
  - apply andb_true_iff in Hh as [_ Hh]. apply Z.ltb_lt in Hh.
    destruct (encode_total s Hsafe) as [out Hout]. rewrite Hout. cbn [mbind result_bind].
    pose proof (encode_is_encoding s out Hout) as Henc.
    assert (Hl : len out = (len (huff_bits s) + 7) / 8).
    { destruct Henc as (_ & k & Hk & Hbits). apply (f_equal len) in Hbits.
      rewrite len_flat_bits, len_app in Hbits. unfold len in Hbits at 3.
      rewrite length_replicate in Hbits. div_lia. }
    pose proof (len_nonneg out) as Ho0.
    destruct (writeInteger_parses output (len out) 7 128) as (first & bs & -> & Hb & Hr & Hp);
      [by vm_compute|lia|]. cbn [mbind result_bind].
    rewrite writeBytes_app, <- app_assoc. exists ((first :: bs) ++ out).
    split; [done|]. split; [by apply Forall_app_2, Henc|]. split; [done|].
    apply (readString_parses lim first bs out true); [done| |done|lia|].
    + inversion Hb as [|? ? Hf]; subst. rewrite and128 by done. cbn. lia.
    + rewrite (decode_encoding _ s) by done. cbn. by rewrite latin1_bytes.
  - destruct (writeInteger_parses output (len s) 7 0) as (first & bs & -> & Hb & Hr & Hp);
      [by vm_compute|lia|]. cbn [mbind result_bind].
    rewrite writeBytes_app, <- app_assoc. exists ((first :: bs) ++ s).
    split; [done|]. split; [by apply Forall_app_2|]. split; [done|].
    apply (readString_parses lim first bs s false); [done| |done|lia|].
    + inversion Hb as [|? ? Hf]; subst. rewrite and128 by done. cbn. change (2 ^ 7) with 128 in Hr. lia.
    + by rewrite latin1_bytes.
Qed.

(** ** The dynamic table *)

Lemma entry_size_pos e : entry_ok e -> 32 <= s_size e.
Proof. intros (-> & _). pose proof (len_nonneg (s_name e)). pose proof (len_nonneg (s_value e)). lia. Qed.

Lemma sizes_app l k : sizes (l ++ k) = sizes l + sizes k.
Proof. induction l as [|e l IH]; cbn; [done|]. unfold sizes in *. lia. Qed.

Lemma sizes_bound l : Forall entry_ok l -> 32 * len l <= sizes l.
Proof.
  induction 1 as [|e l He Hl IH]; [done|]. rewrite len_cons. pose proof (entry_size_pos e He). cbn.
  unfold sizes in *. lia.
Qed.

Lemma fit_all target l : Forall entry_ok l -> sizes l <= target -> fit target l = l.
Proof.
  intros Hl. revert target. induction Hl as [|e l He Hl IH]; intros target Hs; [done|].
  cbn in Hs |- *. pose proof (entry_size_pos e He). pose proof (sizes_bound l Hl). pose proof (len_nonneg l).
  fold (sizes l) in *. destruct (Z.leb_spec (s_size e) target); [|lia]. f_equal. apply IH. lia.
Qed.

Lemma fit_snoc target l e :
  Forall entry_ok l -> target < sizes (l ++ [e]) -> fit target (l ++ [e]) = fit target l.
Proof.
  intros Hl. revert target. induction Hl as [|x l Hx Hl IH]; intros target Hs.
  - cbn in *. destruct (Z.leb_spec (s_size e) target); [lia|done].
  - cbn in *. destruct (Z.leb_spec (s_size x) target); [|done]. f_equal. apply IH.
    unfold sizes. lia.
Qed.

Lemma fit_sublist target l : exists k, l = fit target l ++ k.
Proof.
  revert target. induction l as [|e l IH]; intros target; [by exists []|]. cbn.
  destruct (s_size e <=? target); [|by eexists]. destruct (IH (target - s_size e)) as [k Hk].
  exists k. cbn. by f_equal.
Qed.

Lemma fit_sizes target l : 0 <= target -> sizes (fit target l) <= target.
Proof.
  revert target. induction l as [|e l IH]; intros target Ht; [done|]. cbn.
  destruct (Z.leb_spec (s_size e) target); [|done]. cbn. specialize (IH (target - s_size e)).
  unfold sizes in *. lia.
Qed.

Lemma fit_fit a b l : Forall entry_ok l -> fit a (fit b l) = fit (Z.min a b) l.
Proof.
  intros Hl. revert a b. induction Hl as [|e l He Hl IH]; intros a b; [done|]. cbn.
  destruct (Z.leb_spec (s_size e) b), (Z.leb_spec (s_size e) (Z.min a b)); try lia; cbn.
  - destruct (Z.leb_spec (s_size e) a); [|lia]. f_equal. rewrite IH. f_equal. lia.
  - destruct (Z.leb_spec (s_size e) a); [lia|done].
  - done.
Qed.

Lemma fit_entries target l : Forall entry_ok l -> Forall entry_ok (fit target l).
Proof. intros Hl. destruct (fit_sublist target l) as [k Hk]. rewrite Hk in Hl. by apply Forall_app in Hl as [? _]. Qed.

(** Popping from the old end until the rest fits leaves the newest entries that fit. *)
Lemma evict_loop_fit target l : Forall entry_ok l ->
  evict_loop (length l) l (sizes l) target = (fit target l, sizes (fit target l)).
Proof.
  induction l as [|e l IH] using rev_ind; intros Hl; [done|].
  apply Forall_app in Hl as [Hl He].
  rewrite length_app, Nat.add_1_r. cbn [evict_loop].
  rewrite last_snoc, removelast_last.
  destruct (Z.ltb_spec target (sizes (l ++ [e]))) as [Hbig|Hfits].
  - rewrite len_app. change (len [e]) with 1. pose proof (len_nonneg l).
    destruct (Z.eqb_spec (len l + 1) 0) as [|_]; [lia|]. cbn [negb andb].
    rewrite sizes_app. cbn [sizes foldr]. replace (sizes l + (s_size e + 0) - s_size e) with (sizes l) by lia.
    rewrite IH by done. by rewrite fit_snoc.
  - cbn [andb]. by rewrite fit_all by (done || by apply Forall_app_2).
Qed.

Lemma evictTo_fit t target :
  Forall entry_ok (stored t) -> storedBytes t = sizes (stored t) ->
  evictTo t target = fit_table t target (capacityBytes t).
Proof. intros He Hb. unfold evictTo. by rewrite Hb, evict_loop_fit. Qed.

Lemma setCapacity_fit t c : table_ok t -> setCapacity t c = fit_table t c c.
Proof. intros Ht. unfold setCapacity. by rewrite evictTo_fit by apply Ht. Qed.

Lemma fit_table_ok t target capacity :
  table_ok t -> 0 <= target <= capacity -> capacity <= MAX_HPACK_INTEGER ->
  table_ok (fit_table t target capacity).
Proof.
  intros Ht Htc Hc. split; cbn.
  - apply fit_entries, Ht.
  - done.
  - pose proof (fit_sizes target (stored t)). lia.
  - lia.
Qed.

Lemma byteStringLength_ok s : is_bytestring s -> byteStringLength s = Ok (len s).
Proof.
  intros Hs. unfold byteStringLength. destruct (existsb _ s) eqn:E; [exfalso|done].
  apply existsb_exists in E as (c & Hc & H255). unfold is_bytestring in Hs. rewrite Forall_forall in Hs.
  apply list_elem_of_In, Hs in Hc as [? ?]. lia.
Qed.

Lemma entrySize_ok n v : is_bytestring n -> is_bytestring v -> entrySize n v = Ok (len n + len v + 32).
Proof. intros Hn Hv. unfold entrySize. by rewrite !byteStringLength_ok. Qed.

Lemma dt_insert_inserted t n v : table_ok t -> is_bytestring n -> is_bytestring v ->
  dt_insert t n v = Ok (inserted t n v).
Proof.
  intros Ht Hn Hv. unfold dt_insert, inserted. rewrite entrySize_ok by done. cbn [mbind result_bind].
  destruct (capacityBytes t <? len n + len v + 32); [done|].
  rewrite evictTo_fit by apply Ht. cbn. f_equal. f_equal. unfold sizes. lia.
Qed.

Lemma inserted_ok t n v : table_ok t -> is_bytestring n -> is_bytestring v -> table_ok (inserted t n v).
Proof.
  intros Ht Hn Hv. pose proof (ok_capacity t Ht). unfold inserted.
  destruct (Z.ltb_spec (capacityBytes t) (len n + len v + 32)); split; cbn; try done || lia.
  - constructor; [by split|]. apply fit_entries, Ht.
  - pose proof (fit_sizes (capacityBytes t - (len n + len v + 32)) (stored t)). unfold sizes in *. lia.
Qed.

(** ** Indices *)

Lemma find_from_spec p l : forall i, 0 <= i -> let r := find_from p l i in
  r = 0 \/ exists e, i < r <= i + len l /\ at_ l (r - i - 1) = Some e /\ p e = true.
Proof.
  induction l as [|x l IH]; intros i Hi; cbn; [by left|].
  destruct (p x) eqn:E.
  - right. exists x. rewrite len_cons. pose proof (len_nonneg l). split; [lia|].
    replace (i + 1 - i - 1) with 0 by lia. done.
  - destruct (IH (i + 1) ltac:(lia)) as [->|(e & Hr & Hat & Hp)]; [by left|right].
    exists e. rewrite len_cons. split; [lia|]. split; [|done].
    replace (find_from p l (i + 1) - i - 1)
      with (find_from p l (i + 1) - (i + 1) - 1 + 1) by lia.
    revert Hat. generalize (find_from p l (i + 1) - (i + 1) - 1). intros j Hj.
    pose proof (at_Some _ _ _ Hj). unfold at_ in *.
    destruct (Z.ltb_spec j 0); [lia|]. destruct (Z.ltb_spec (j + 1) 0); [lia|].
    replace (Z.to_nat (j + 1)) with (S (Z.to_nat j)) by lia. done.
Qed.

Lemma static_from_spec p n : forall i, 0 <= i -> let r := static_from p n i in
  r = 0 \/ (i < r <= i + Z.of_nat n /\ p (r - 1) = true).
Proof.
  induction n as [|n IH]; intros i Hi; cbn; [by left|].
  destruct (p i) eqn:E; [right; replace (i + 1 - 1) with i by lia; split; [lia|done]|].
  destruct (IH (i + 1) ltac:(lia)) as [->|[Hr Hp]]; [by left|right]. split; [lia|done].
Qed.

Lemma static_bytestrings :
  Forall is_bytestring STATIC_NAMES /\ Forall is_bytestring STATIC_VALUES.
Proof.
  assert (H : forall l : list (list Z), forallb (forallb (fun b => (0 <=? b) && (b <? 256))) l = true ->
    Forall is_bytestring l).
  { intros l Hl. apply Forall_forall. intros s Hs%list_elem_of_In. rewrite forallb_forall in Hl.
    apply Hl in Hs. apply Forall_forall. intros b Hb%list_elem_of_In. rewrite forallb_forall in Hs.
    apply Hs in Hb. unfold is_byte. lia. }
  split; apply H; vm_compute; reflexivity.
Qed.

Lemma static_resolves t i n v :
  0 < i <= 61 -> at_ STATIC_NAMES (i - 1) = Some n -> at_ STATIC_VALUES (i - 1) = Some v ->
  resolves t i (fun e => s_name e = n /\ s_value e = v).
Proof.
  intros Hi Hn Hv. destruct static_bytestrings as [Hsn Hsv].
  split; [unfold MAX_HPACK_INTEGER; lia|]. exists (mk_stored n v (len n + len v + 32)).
  split; [|split; [split; [done|split; [exact (at_Forall _ _ _ _ Hsn Hn)|exact (at_Forall _ _ _ _ Hsv Hv)]]|done]].
  unfold resolveIndex, staticEntry. destruct (Z.eqb_spec i 0); [lia|].
  destruct (Z.ltb_spec i 1); [lia|]. unfold STATIC_TABLE_LENGTH.
  destruct (Z.ltb_spec 61 i); [lia|]. cbn [orb]. by rewrite Hn, Hv.
Qed.

Lemma dynamic_resolves t i e :
  table_ok t -> 0 < i <= len (stored t) -> at_ (stored t) (i - 1) = Some e ->
  resolves t (61 + i) (eq e).
Proof.
  intros Ht Hi He. pose proof (sizes_bound _ (ok_entries t Ht)) as Hb.
  pose proof (ok_fits t Ht). pose proof (ok_capacity t Ht). rewrite <- (ok_bytes t Ht) in Hb.
  split; [unfold MAX_HPACK_INTEGER in *; lia|]. exists e. split_and!; try done.
  - unfold resolveIndex, staticEntry, dt_get, STATIC_TABLE_LENGTH.
    destruct (Z.eqb_spec (61 + i) 0); [lia|]. destruct (Z.ltb_spec (61 + i) 1); [lia|].
    destruct (Z.ltb_spec 61 (61 + i)); [|lia]. cbn [orb].
    replace (61 + i - 61 - 1) with (i - 1) by lia. by rewrite He.
  - eapply at_Forall; [apply Ht|done].
Qed.

(** Both lookups of the encoder: the index is zero or resolves as wanted. *)
Lemma exact_index_resolves t mode n v i :
  table_ok t -> exact_index t mode n v = i -> i <> 0 ->
  mode = incremental /\ resolves t i (fun e => s_name e = n /\ s_value e = v).
Proof.
  intros Ht <- Hi. unfold exact_index in *. case_bool_decide as Hm; [|done]. split; [done|].
  cbv zeta in *. unfold index_of in *.
  destruct (Z.eqb_spec (findStatic n v) 0) as [H0|H0]; cbn [negb] in *.
  - destruct (find_from_spec (fun entry => str_eqb (s_name entry) n && str_eqb (s_value entry) v)
      (stored t) 0 ltac:(lia)) as [Hz|(e & Hr & Hat & Hp)]; fold (dt_find t n v) in *.
    { by rewrite Hz in Hi. }
    destruct (Z.eqb_spec (dt_find t n v) 0); [lia|]. rewrite Z.sub_0_r in Hat.
    destruct (dynamic_resolves t (dt_find t n v) e Ht) as [Hmax (e' & He & Hok & <-)]; [lia|done|].
    apply andb_true_iff in Hp as [Hp1%bool_decide_eq_true_1 Hp2%bool_decide_eq_true_1].
    split; [done|]. by exists e.
  - destruct (static_from_spec (fun i => bool_decide (at_ STATIC_NAMES i = Some n)
      && bool_decide (at_ STATIC_VALUES i = Some v)) 61 0 ltac:(lia)) as [Hz|[Hr Hp]];
      change (static_from _ 61 0) with (findStatic n v) in *; [done|].
    apply andb_true_iff in Hp as [Hp1%bool_decide_eq_true Hp2%bool_decide_eq_true].
    apply static_resolves; [lia|done|done].
Qed.

Lemma name_index_resolves t n i :
  table_ok t -> name_index t n = i -> i <> 0 -> resolves t i (fun e => s_name e = n).
Proof.
  intros Ht <- Hi. unfold name_index in *. cbv zeta in *. unfold index_of in *.
  destruct (Z.eqb_spec (findStaticName n) 0) as [H0|H0]; cbn [negb] in *.
  - destruct (find_from_spec (fun entry => str_eqb (s_name entry) n)
      (stored t) 0 ltac:(lia)) as [Hz|(e & Hr & Hat & Hp)]; fold (dt_findName t n) in *.
    { by rewrite Hz in Hi. }
    destruct (Z.eqb_spec (dt_findName t n) 0); [lia|]. rewrite Z.sub_0_r in Hat.
    destruct (dynamic_resolves t (dt_findName t n) e Ht) as [Hmax (e' & He & Hok & <-)]; [lia|done|].
    apply bool_decide_eq_true_1 in Hp. split; [done|]. by exists e.
  - destruct (static_from_spec (fun i => bool_decide (at_ STATIC_NAMES i = Some n)) 61 0 ltac:(lia))
      as [Hz|[Hr Hp]]; change (static_from _ 61 0) with (findStaticName n) in *; [done|].
    apply bool_decide_eq_true in Hp.
    destruct (at_total STATIC_VALUES (findStaticName n - 1)) as [v Hv];
      [change (len STATIC_VALUES) with 61; lia|].
    destruct (static_resolves t (findStaticName n) n v) as [Hmax (e & He & Hok & Hn & _)]; [lia|done|done|].
    split; [done|]. by exists e.
Qed.

(** ** One header field *)

#[export] Instance field_ok_dec l f : Decision (field_ok l f).
Proof. unfold field_ok. apply _. Defined.

Lemma flag_bits first : is_byte first ->
  (first .& 128 =? 0) = (first <? 128) /\ (first .& 64 =? 0) = (first / 64 mod 2 =? 0) /\
  (first .& 32 =? 0) = (first / 32 mod 2 =? 0) /\ (first .& 16 =? 0) = (first / 16 mod 2 =? 0).
Proof.
  intros Hb. split; [by apply and128|].
  split_and!; [change 64 with (2 ^ 6) at 1|change 32 with (2 ^ 5) at 1|change 16 with (2 ^ 4) at 1];
    by rewrite and_flag by (done || lia).
Qed.

Lemma step_first s pre first bs rest :
  s_cursor s = mk_cursor (pre ++ (first :: bs) ++ rest) (len pre) ->
  at_or 0 (c_bytes (s_cursor s)) (c_offset (s_cursor s)) = first.
Proof. intros ->. cbn [c_bytes c_offset]. unfold at_or. cbn [app]. by rewrite at_app_mid. Qed.

Lemma throw_if_false e : throw_if false e = Ok tt.
Proof. done. Qed.

Lemma check_list_ok l n : n <= maxHeaderListBytes l -> check_list l n = Ok tt.
Proof. intros Hn. unfold check_list. destruct (Z.ltb_spec (maxHeaderListBytes l) n); [lia|done]. Qed.

Lemma indexed_reads l t first bs i f :
  table_ok t -> is_bytes (first :: bs) -> 128 <= first < 256 ->
  parses (decodeHpackInteger 7) (first :: bs) i -> field_indexing f = incremental ->
  resolves t i (fun e => s_name e = f_name f /\ s_value e = f_value f) ->
  step_reads l t (first :: bs) f t.
Proof.
  intros Ht Hb Hf Hp Hinc (_ & e & He & (Hsize & _) & Hn & Hv) d s pre rest Hl Hst Hmet Hcur Hlist.
  unfold decode_step. rewrite (step_first s pre first bs rest) by done.
  destruct (flag_bits first) as (-> & _); [by inversion Hb|].
  destruct (Z.ltb_spec first 128); [lia|]. cbn [negb]. unfold decode_indexed, check_minimum.
  rewrite Hmet, Hcur. cbn [negb]. rewrite throw_if_false. cbn [mbind result_bind].
  specialize (Hp pre rest). rewrite Hp. cbn [mbind result_bind]. rewrite Hst, He. cbn [mbind result_bind].
  unfold field_size in *. rewrite Hsize, Hn, Hv, Hl. rewrite check_list_ok by lia.
  cbn [mbind result_bind]. unfold advance, received, field_size. by rewrite Hcur, Hinc, Hmet.
Qed.

(** The rest of a literal: the name unless indexed, then the value. *)
Lemma literal_parses l t p first bs i nb vb n v :
  parses (decodeHpackInteger p) (first :: bs) i ->
  (if i =? 0 then parses (readString l) nb n
   else nb = [] /\ exists e, resolveIndex t i = Ok e /\ s_name e = n) ->
  parses (readString l) vb v ->
  parses (readLiteral t p l) ((first :: bs) ++ nb ++ vb) (n, v).
Proof.
  intros Hi Hn Hv. unfold readLiteral. eapply parses_bind; [exact Hi|].
  eapply (parses_bind _ _ nb vb n).
  - destruct (i =? 0); [done|]. destruct Hn as (-> & e & He & Hname).
    intros pre rest. rewrite He. cbn. by rewrite Hname, len_nil, Z.add_0_r.
  - eapply parses_bind_nil; [exact Hv|]. apply parses_ret.
Qed.

Lemma literal_reads l t first bs f t' :
  table_ok t -> is_bytes (first :: bs) -> field_ok l f ->
  match field_indexing f with
  | incremental => 64 <= first < 128 /\ t' = inserted t (f_name f) (f_value f) /\
                   parses (readLiteral t 6 l) (first :: bs) (f_name f, f_value f)
  | mode => (match mode with never => 16 | _ => 0 end) <= first
            < (match mode with never => 32 | _ => 16 end) /\
            t' = t /\ parses (readLiteral t 4 l) (first :: bs) (f_name f, f_value f)
  end ->
  step_reads l t (first :: bs) f t'.
Proof.
  intros Ht Hb (Hbn & Hbv & _) Hcase d s pre rest Hl Hst Hmet Hcur Hlist.
  unfold decode_step. rewrite (step_first s pre first bs rest) by done.
  destruct (flag_bits first) as (-> & -> & -> & H16); [by inversion Hb|].
  assert (Hread : forall p, parses (readLiteral t p l) (first :: bs) (f_name f, f_value f) ->
    readLiteral (s_table s) p (d_limits d) (s_cursor s)
    = Ok ((f_name f, f_value f), mk_cursor (pre ++ (first :: bs) ++ rest) (len pre + len (first :: bs)))).
  { intros p Hp. rewrite Hst, Hl, Hcur. apply Hp. }
  unfold field_size in *. unfold advance, received, field_size.
  destruct (field_indexing f) eqn:Hmode; destruct Hcase as (Hr & -> & Hp); apply Hread in Hp.
  - destruct (Z.ltb_spec first 128); [|lia]. cbn [negb].
    destruct (Z.eqb_spec (first / 64 mod 2) 0); [div_lia|]. cbn [negb].
    unfold decode_incremental, check_minimum. rewrite Hmet. cbn [negb]. rewrite throw_if_false.
    cbn [mbind result_bind]. rewrite Hp. cbn [mbind result_bind fst snd].
    rewrite entrySize_ok by done. cbn [mbind result_bind]. rewrite Hl, check_list_ok by lia.
    cbn [mbind result_bind]. rewrite Hst, dt_insert_inserted by done. cbn [mbind result_bind].
    by rewrite Hcur.
  - destruct (Z.ltb_spec first 128); [|lia]. cbn [negb].
    destruct (Z.eqb_spec (first / 64 mod 2) 0); [|div_lia]. cbn [negb].
    destruct (Z.eqb_spec (first / 32 mod 2) 0); [|div_lia]. cbn [negb].
    unfold decode_literal, check_minimum. rewrite Hmet, H16. cbn [negb]. rewrite throw_if_false.
    cbn [mbind result_bind]. rewrite Hp. cbn [mbind result_bind fst snd].
    rewrite entrySize_ok by done. cbn [mbind result_bind]. rewrite Hl, check_list_ok by lia.
    cbn [mbind result_bind]. destruct (Z.eqb_spec (first / 16 mod 2) 0); [|div_lia].
    by rewrite Hcur, Hst.
  - destruct (Z.ltb_spec first 128); [|lia]. cbn [negb].
    destruct (Z.eqb_spec (first / 64 mod 2) 0); [|div_lia]. cbn [negb].
    destruct (Z.eqb_spec (first / 32 mod 2) 0); [|div_lia]. cbn [negb].
    unfold decode_literal, check_minimum. rewrite Hmet, H16. cbn [negb]. rewrite throw_if_false.
    cbn [mbind result_bind]. rewrite Hp. cbn [mbind result_bind fst snd].
    rewrite entrySize_ok by done. cbn [mbind result_bind]. rewrite Hl, check_list_ok by lia.
    cbn [mbind result_bind]. destruct (Z.eqb_spec (first / 16 mod 2) 0); [div_lia|].
    by rewrite Hcur, Hst.
Qed.

Lemma encode_field_reads l h t output f :
  table_ok t -> field_ok l f -> maxStringBytes l <= MAX_HPACK_INTEGER ->
  exists bs t', encode_field h t output f = Ok (t', output ++ bs) /\ is_bytes bs /\ bs <> [] /\
    table_ok t' /\ step_reads l t bs f t'.
Proof.
  intros Ht Hf Hmax. pose proof Hf as (Hn & Hv & Hln & Hlv). unfold encode_field.
  rewrite !byteStringLength_ok by done. cbn [mbind result_bind].
  destruct (Z.eqb_spec (exact_index t (field_indexing f) (f_name f) (f_value f)) 0) as [Hz|Hnz]; cbn [negb].
  - set (mode := field_indexing f). set (i := name_index t (f_name f)).
    set (prefix := match mode with incremental => 64 | never => 16 | without => 0 end).
    set (bits := match mode with incremental => 6 | _ => 4 end).
    assert (Hi : 0 <= i <= MAX_HPACK_INTEGER).
    { destruct (Z.eq_dec i 0) as [->|Hi]; [unfold MAX_HPACK_INTEGER; lia|].
      apply (name_index_resolves t (f_name f) i Ht) in Hi as [? _]; [lia|done]. }
    destruct (writeInteger_parses output i bits prefix) as (first & bs & -> & Hb & Hr & Hp);
      [by subst bits prefix; destruct mode; vm_compute|done|]. cbn [mbind result_bind].
    assert (Hname : exists nb, (if i =? 0 then writeString (output ++ first :: bs) (f_name f) h
        else Ok (output ++ first :: bs)) = Ok ((output ++ first :: bs) ++ nb) /\ is_bytes nb /\
      (if i =? 0 then parses (readString l) nb (f_name f)
       else nb = [] /\ exists e, resolveIndex t i = Ok e /\ s_name e = f_name f)).
    { destruct (Z.eqb_spec i 0) as [_|Hi0].
      - destruct (writeString_parses (output ++ first :: bs) (f_name f) h l) as (nb & ? & ? & _ & ?); [done..|].
        by exists nb.
      - apply (name_index_resolves t (f_name f) i Ht) in Hi0 as [_ (e & He & _ & Hen)]; [|done].
        exists []. rewrite app_nil_r. split_and!; [done|constructor|done|by exists e]. }
    destruct Hname as (nb & -> & Hnb & Hname). cbn [mbind result_bind].
    destruct (writeString_parses ((output ++ first :: bs) ++ nb) (f_value f) h l)
      as (vb & -> & Hvb & _ & Hvp); [done..|]. cbn [mbind result_bind].
    exists (first :: bs ++ nb ++ vb).
    exists (if bool_decide (mode = incremental) then inserted t (f_name f) (f_value f) else t).
    rewrite dt_insert_inserted by done.
    assert (Hlit : parses (readLiteral t bits l) (first :: bs ++ nb ++ vb) (f_name f, f_value f))
      by exact (literal_parses l t bits first bs i nb vb _ _ Hp Hname Hvp).
    split; [case_bool_decide; cbn; by rewrite <- !app_assoc|].
    assert (Hbytes : is_bytes (first :: bs ++ nb ++ vb)).
    { inversion Hb; subst. constructor; [done|]. by repeat apply Forall_app_2. }
    split_and!; [done|done|by case_bool_decide; [apply inserted_ok|]|].
    apply literal_reads; [done|done|done|]. fold mode.
    subst bits prefix. destruct mode; cbn in Hr |- *; split_and!; done || lia.
  - destruct (exact_index_resolves t _ (f_name f) (f_value f) _ Ht eq_refl Hnz) as [Hinc Hres].
    pose proof Hres as [Hi _].
    destruct (writeInteger_parses output (exact_index t (field_indexing f) (f_name f) (f_value f)) 7 128)
      as (first & bs & -> & Hb & Hr & Hp); [by vm_compute|lia|]. cbn [mbind result_bind].
    exists (first :: bs), t. split_and!; [done..|].
    eapply indexed_reads; [done|done| |exact Hp|done|exact Hres]. inversion Hb as [|? ? [? ?]]; subst. lia.
Qed.

(** ** A header block *)

Lemma loop_done d s pre fuel :
  s_cursor s = mk_cursor pre (len pre) -> decode_loop fuel d s = (s, Ok tt).
Proof. intros Hc. destruct fuel; cbn; rewrite Hc; cbn; by rewrite Z.ltb_irrefl. Qed.

(** One step of the loop at a non-empty input. *)
Lemma loop_step d s s1 pre bs rest fuel :
  s_cursor s = mk_cursor (pre ++ bs ++ rest) (len pre) -> bs <> [] ->
  (length (bs ++ rest) <= fuel)%nat -> decode_step d s = Ok s1 ->
  exists fuel', (length rest <= fuel')%nat /\ decode_loop fuel d s = decode_loop fuel' d s1.
Proof.
  intros Hc Hbs Hf Hstep. rewrite length_app in Hf.
  destruct bs as [|b bs]; [done|]. destruct fuel as [|fuel]; [cbn in Hf; lia|].
  exists fuel. cbn in Hf. split; [lia|]. cbn [decode_loop]. rewrite Hstep, Hc. cbn [c_bytes c_offset].
  destruct (Z.ltb_spec (len pre) (len (pre ++ (b :: bs) ++ rest))) as [_|Hge]; [done|].
  rewrite !len_app, len_cons in Hge. pose proof (len_nonneg bs). pose proof (len_nonneg rest). lia.
Qed.

Lemma list_size_cons f fs : list_size (f :: fs) = field_size f + list_size fs.
Proof. done. Qed.

Lemma list_size_nonneg fs : 0 <= list_size fs.
Proof.
  induction fs as [|f fs IH]; [done|]. rewrite list_size_cons. unfold field_size.
  pose proof (len_nonneg (f_name f)). pose proof (len_nonneg (f_value f)). lia.
Qed.

Lemma encode_fields_reads l h fields : forall t output,
  table_ok t -> Forall (field_ok l) fields -> maxStringBytes l <= MAX_HPACK_INTEGER ->
  exists bs t', encode_fields h t output fields = (t', Ok (output ++ bs)) /\ is_bytes bs /\ table_ok t' /\
    forall d s, d_limits d = l -> s_table s = t -> s_met s = true ->
      s_listBytes s + list_size fields <= maxHeaderListBytes l ->
      exists s', loop_reads d s bs s' /\ s_table s' = t' /\ s_met s' = true /\
        s_headers s' = s_headers s ++ (received <$> fields).
Proof.
  induction fields as [|f fields IH]; intros t output Ht Hf Hmax.
  - exists [], t. cbn. rewrite app_nil_r. split_and!; [done|constructor|done|].
    intros d s Hl Hs Hmet _. exists s. rewrite app_nil_r. split_and!; try done.
    intros pre fuel Hc _. rewrite app_nil_r in Hc. by eapply loop_done.
  - apply Forall_cons in Hf as [Hf Hfs]. cbn [encode_fields].
    destruct (encode_field_reads l h t output f) as (bs1 & t1 & -> & Hb1 & Hne & Ht1 & Hstep); [done..|].
    destruct (IH t1 (output ++ bs1)) as (bs2 & t2 & -> & Hb2 & Ht2 & Hloop); [done..|].
    exists (bs1 ++ bs2), t2. rewrite <- app_assoc. split_and!; [done|by apply Forall_app_2|done|].
    intros d s Hl Hs Hmet Hlist. rewrite list_size_cons in Hlist. pose proof (list_size_nonneg fields).
    destruct (Hloop d (advance s (len bs1) t1 f)) as (s' & Hrun & Hs' & Hmet' & Hh);
      [done|done|done|cbn; lia|].
    exists s'. split_and!; [|done|done|].
    + intros pre fuel Hc Hfuel.
      assert (Hd : decode_step d s = Ok (advance s (len bs1) t1 f))
        by (apply (Hstep d s pre bs2); done || lia).
      destruct (loop_step d s _ pre bs1 bs2 fuel Hc Hne Hfuel Hd) as (fuel' & Hfuel' & ->).
      apply (Hrun (pre ++ bs1)); [|done]. unfold advance. cbn [s_cursor]. rewrite Hc. cbn [c_bytes c_offset].
      by rewrite len_app, <- app_assoc.
    + rewrite Hh. cbn. by rewrite <- app_assoc.
Qed.

(** ** Size updates *)

Lemma update_reads output size :
  0 <= size <= MAX_HPACK_INTEGER ->
  exists bs, writeInteger output size 5 32 = Ok (output ++ bs) /\ is_bytes bs /\ bs <> [] /\
    forall d s pre rest, s_cursor s = mk_cursor (pre ++ bs ++ rest) (len pre) -> table_ok (s_table s) ->
      s_sawHeader s = false -> s_sizeUpdates s < 2 -> size <= maximumAllowedTableSize d ->
      (s_met s = true \/ s_sizeUpdates s = 0) -> (requiredMinimumSize d = None -> s_met s = true) ->
      (forall r, requiredMinimumSize d = Some r -> s_sizeUpdates s = 0 -> size <= r) ->
      decode_step d s = Ok (updated s (len bs) size).
Proof.
  intros Hsize.
  destruct (writeInteger_parses output size 5 32) as (first & bs & -> & Hb & Hr & Hp); [by vm_compute|done|].
  exists (first :: bs). split_and!; [done..|].
  intros d s pre rest Hc Ht Hsaw Hups Hallowed Hmet Hnone Hreq.
  unfold decode_step. rewrite (step_first s pre first bs rest) by done.
  change (2 ^ 5) with 32 in Hr.
  destruct (flag_bits first) as (-> & -> & -> & _); [by inversion Hb|].
  destruct (Z.ltb_spec first 128); [|lia]. cbn [negb].
  destruct (Z.eqb_spec (first / 64 mod 2) 0); [|div_lia]. cbn [negb].
  destruct (Z.eqb_spec (first / 32 mod 2) 0); [div_lia|]. cbn [negb].
  unfold decode_size_update. rewrite Hsaw, throw_if_false. cbn [mbind result_bind].
  destruct (Z.ltb_spec 2 (s_sizeUpdates s + 1)); [lia|]. rewrite throw_if_false. cbn [mbind result_bind].
  rewrite Hc. specialize (Hp pre rest). rewrite Hp. cbn [mbind result_bind].
  destruct (Z.ltb_spec (maximumAllowedTableSize d) size); [lia|]. rewrite throw_if_false. cbn [mbind result_bind].
  unfold updated. rewrite Hc. cbn [c_bytes c_offset]. rewrite setCapacity_fit by done.
  destruct (requiredMinimumSize d) as [r|] eqn:Er; [|by rewrite Hnone, Hsaw].
  destruct (Z.eqb_spec (s_sizeUpdates s + 1) 1) as [Hfst|Hfst].
  - specialize (Hreq r eq_refl ltac:(lia)). destruct (Z.ltb_spec r size); [lia|].
    rewrite throw_if_false. cbn [mbind result_bind]. by rewrite Hsaw.
  - destruct Hmet as [->|?]; [|lia]. by rewrite Hsaw.
Qed.

(** ** The two ends stay in step *)

Lemma require_ok n s : requireNonnegativeInteger n s = Ok tt -> 0 <= n <= MAX_HPACK_INTEGER.
Proof.
  unfold requireNonnegativeInteger, throw_if. destruct (_ || _) eqn:E; [done|]. intros _. lia.
Qed.

Lemma bind_unit_ok {B} (m : result unit) (k : result B) b : (m ;; k) = Ok b -> m = Ok tt /\ k = Ok b.
Proof. destruct m as [[]|]; [done|]. intros [=]. Qed.

Lemma new_table_ok n : 0 <= n <= MAX_HPACK_INTEGER -> table_ok (new_DynamicTable n).
Proof. intros Hn. by split; [constructor|done|cbn; lia|]. Qed.

Lemma fit_nil target : fit target [] = [].
Proof. done. Qed.

Lemma synced_start n huffman l e d :
  new_HpackEncoder n huffman = Ok e -> new_HpackDecoder n l = Ok d ->
  synced e d /\ d_limits d = l /\ maxStringBytes l <= MAX_HPACK_INTEGER.
Proof.
  unfold new_HpackEncoder, new_HpackDecoder.
  intros [Hn [= <-]]%bind_unit_ok [_ [Hlim [= <-]]%bind_unit_ok]%bind_unit_ok.
  apply require_ok in Hn. apply bind_unit_ok in Hlim as [_ Hs]. apply require_ok in Hs.
  split_and!; [|done|lia]. split; [by apply new_table_ok..|done].
Qed.

Lemma synced_resize e d n e' d' :
  synced e d -> encoder_setMaximumTableSize e n = Ok e' -> decoder_setMaximumTableSize d n = Ok d' ->
  synced e' d' /\ d_limits d' = d_limits d.
Proof.
  unfold encoder_setMaximumTableSize, decoder_setMaximumTableSize.
  intros [He Hd Hp] [Hn [= <-]]%bind_unit_ok [_ [= <-]]%bind_unit_ok. apply require_ok in Hn.
  rewrite setCapacity_fit by done. split; [|done].
  split; cbn [e_table d_table pendingMinimumSize pendingFinalSize maximumAllowedTableSize requiredMinimumSize].
  - apply fit_table_ok; [done|lia|lia].
  - done.
  - destruct (pendingFinalSize e) as [final|].
    + destruct Hp as (m & -> & Hm & -> & Ht & Hreq). cbn [default].
      exists (Z.min m n). split_and!; try done || lia.
      * rewrite Ht. unfold fit_table. cbn [stored]. rewrite fit_fit by apply Hd.
        by rewrite (Z.min_comm n m).
      * intros r Hr. destruct (n <? capacityBytes (d_table d)).
        -- injection Hr as <-. destruct (requiredMinimumSize d) as [r|]; cbn; [|lia].
           specialize (Hreq r eq_refl). lia.
        -- specialize (Hreq r Hr). lia.
    + destruct Hp as (-> & Ht & ->). cbn [default]. exists n. rewrite Z.min_id, Ht.
      split_and!; try done || lia. intros r Hr.
      destruct (n <? capacityBytes (d_table d)); [|done]. injection Hr as <-. cbn. lia.
Qed.

(** The size updates at the head of a block bring the decoder's table level. *)
Lemma pending_reads e d :
  synced e d -> exists bs, encode_pending e = Ok bs /\ is_bytes bs /\
    forall s pre rest fuel,
      s_cursor s = mk_cursor (pre ++ bs ++ rest) (len pre) -> (length (bs ++ rest) <= fuel)%nat ->
      s_table s = d_table d -> s_sawHeader s = false -> s_sizeUpdates s = 0 ->
      s_met s = bool_decide (requiredMinimumSize d = None) ->
      exists s' fuel', decode_loop fuel d s = decode_loop fuel' d s' /\ (length rest <= fuel')%nat /\
        s_cursor s' = mk_cursor (pre ++ bs ++ rest) (len (pre ++ bs)) /\ s_table s' = e_table e /\
        s_met s' = true /\ s_headers s' = s_headers s /\ s_listBytes s' = s_listBytes s.
Proof.
  intros [He Hd Hp]. unfold encode_pending. destruct (pendingFinalSize e) as [final|].
  2: { destruct Hp as (_ & Ht & Hr). exists []. split_and!; [done|constructor|].
       intros s pre rest fuel Hc Hf Hs _ _ Hmet. exists s, fuel. rewrite app_nil_r, Ht, Hmet.
       rewrite bool_decide_eq_true_2 by done. done. }
  destruct Hp as (m & -> & Hm & Hfin & Ht & Hreq). cbv zeta. change (default final (Some m)) with m.
  assert (Hmax : final <= MAX_HPACK_INTEGER).
  { pose proof (ok_capacity _ He) as Hc. rewrite Ht in Hc. cbn in Hc. lia. }
  destruct (update_reads [] m) as (bs1 & -> & Hb1 & Hne1 & Hstep1); [lia|]. cbn [mbind result_bind app].
  assert (Hfirst : forall s pre rest, s_cursor s = mk_cursor (pre ++ bs1 ++ rest) (len pre) ->
    s_table s = d_table d -> s_sawHeader s = false -> s_sizeUpdates s = 0 ->
    s_met s = bool_decide (requiredMinimumSize d = None) ->
    decode_step d s = Ok (updated s (len bs1) m)).
  { intros s pre rest Hc Hs Hsaw Hups Hmet. apply (Hstep1 d s pre rest); [done|by rewrite Hs|done|lia|lia|by right| |].
    - intros Hr. by rewrite Hmet, Hr.
    - intros r Hr _. by apply Hreq. }
  destruct (Z.eqb_spec m final) as [->|Hne]; cbn [negb].
  - exists bs1. split_and!; [done..|]. intros s pre rest fuel Hc Hf Hs Hsaw Hups Hmet.
    destruct (loop_step d s _ pre bs1 rest fuel Hc Hne1 Hf (Hfirst s pre rest Hc Hs Hsaw Hups Hmet))
      as (fuel' & Hf' & ->).
    exists (updated s (len bs1) final), fuel'. split_and!; [done|done| |by rewrite Ht, <- Hs|done..].
    unfold updated. cbn [s_cursor]. rewrite Hc. cbn [c_bytes c_offset]. by rewrite len_app.
  - destruct (update_reads bs1 final) as (bs2 & -> & Hb2 & Hne2 & Hstep2); [lia|].
    exists (bs1 ++ bs2). split_and!; [done|by apply Forall_app_2|].
    intros s pre rest fuel Hc Hf Hs Hsaw Hups Hmet. rewrite <- app_assoc in Hc, Hf.
    destruct (loop_step d s _ pre bs1 (bs2 ++ rest) fuel Hc Hne1 Hf
      (Hfirst s pre (bs2 ++ rest) Hc Hs Hsaw Hups Hmet)) as (fuel1 & Hf1 & ->).
    set (s1 := updated s (len bs1) m).
    assert (Hc1 : s_cursor s1 = mk_cursor ((pre ++ bs1) ++ bs2 ++ rest) (len (pre ++ bs1))).
    { unfold s1, updated. cbn [s_cursor]. rewrite Hc. cbn [c_bytes c_offset]. by rewrite len_app, <- app_assoc. }
    assert (Hd2 : decode_step d s1 = Ok (updated s1 (len bs2) final)).
    { apply (Hstep2 d s1 (pre ++ bs1) rest); [done| |done|cbn; lia|lia|by left|done|cbn; lia].
      change (s_table s1) with (fit_table (s_table s) m m). rewrite Hs. apply fit_table_ok; [done|lia|lia]. }
    destruct (loop_step d s1 _ (pre ++ bs1) bs2 rest fuel1 Hc1 Hne2 Hf1 Hd2) as (fuel2 & Hf2 & ->).
    exists (updated s1 (len bs2) final), fuel2. split_and!; [done|done| | |done..].
    + unfold updated at 1. cbn [s_cursor]. rewrite Hc1. cbn [c_bytes c_offset].
      by rewrite <- len_app, <- !app_assoc.
    + unfold s1, updated. cbn [s_table]. rewrite Hs, Ht. unfold fit_table. cbn [stored].
      rewrite fit_fit by apply Hd. by replace (Z.min final m) with m by lia.
Qed.

Lemma to_uint8_bytes l : is_bytes l -> to_uint8 <$> l = l.
Proof. induction 1 as [|b l Hb Hl IH]; [done|]. cbn. by rewrite IH, to_uint8_small. Qed.

Lemma synced_send e d fields :
  synced e d -> maxStringBytes (d_limits d) <= MAX_HPACK_INTEGER ->
  Forall (field_ok (d_limits d)) fields -> list_size fields <= maxHeaderListBytes (d_limits d) ->
  exists e' d' block, encode e fields = (e', Ok block) /\ is_bytes block /\
    decode d block = (d', Ok (received <$> fields)) /\ synced e' d' /\ d_limits d' = d_limits d.
Proof.
  intros Hsy Hmax Hf Hlist. pose proof Hsy as [He Hd _].
  destruct (pending_reads e d Hsy) as (bs1 & Hpend & Hb1 & Hread1).
  destruct (encode_fields_reads (d_limits d) (e_huffman e) fields (e_table e) bs1)
    as (bs2 & t' & Hfields & Hb2 & Ht' & Hread2); [done..|].
  unfold encode. rewrite Hpend, Hfields. cbn [fmap result_fmap].
  rewrite to_uint8_bytes by by apply Forall_app_2.
  set (s0 := mk_decoding (mk_cursor (bs1 ++ bs2) 0) (d_table d) [] 0 false 0
    (bool_decide (requiredMinimumSize d = None))).
  destruct (Hread1 s0 [] bs2 (length (bs1 ++ bs2)))
    as (s1 & fuel & Hrun1 & Hfuel & Hc1 & Ht1 & Hm1 & Hh1 & Hl1); [done..|].
  destruct (Hread2 d s1) as (s2 & Hrun2 & Ht2 & Hm2 & Hh2); [done|done|done|rewrite Hl1; cbn; lia|].
  eexists _, (mk_decoder t' (maximumAllowedTableSize d) None (d_limits d)), (bs1 ++ bs2).
  split; [done|]. split; [by apply Forall_app_2|]. split.
  - unfold decode. fold s0. rewrite Hrun1, (Hrun2 bs1 fuel) by (exact Hc1 || done).
    unfold check_minimum. rewrite Hm2. cbn [negb throw_if mbind result_bind]. by rewrite Hh2, Hh1, Ht2.
  - split; [|done]. by split.
Qed.

Lemma session_synced l e d : session l e d ->
  synced e d /\ d_limits d = l /\ maxStringBytes l <= MAX_HPACK_INTEGER.
Proof.
  induction 1 as [n huffman e d He Hd|e d huffman _ (IH & Hl & Hm)|e d n e' d' _ (IH & Hl & Hm) He Hd
    |e d fields e' block d' r _ (IH & Hl & Hm) Hf Hs He Hd].
  - by eapply synced_start.
  - split; [|done]. destruct IH as [? ? ?]. by split.
  - destruct (synced_resize e d n e' d') as [? ?]; [done..|]. split_and!; [done|congruence|done].
  - subst l. destruct (synced_send e d fields) as (e1 & d1 & b1 & He1 & _ & Hd1 & Hsy & Hl1); [done..|].
    rewrite He1 in He. injection He as <- <-. rewrite Hd1 in Hd. injection Hd as <- _. done.
Qed.

(** ** Properties *)

(** C1: a header list sent on a session is the header list received.  From any
    pair of endpoints reached by creating them with one table size, resizing them
    together and exchanging blocks, every list of fields within the receiver's
    limits encodes, its block is bytes, decodes to the same names and values in
    the same order (never-indexed exactly where the sender said so), and leaves
    the two ends in a session again. *)
Theorem hpack_session_roundtrip l e d fields :
  session l e d -> Forall (field_ok l) fields -> list_size fields <= maxHeaderListBytes l ->
  exists e' d' block, encode e fields = (e', Ok block) /\ is_bytes block /\
    decode d block = (d', Ok (received <$> fields)) /\ session l e' d'.
Proof.
  intros Hs Hf Hl. destruct (session_synced l e d Hs) as (Hsy & <- & Hm).
  destruct (synced_send e d fields Hsy Hm Hf Hl) as (e' & d' & block & He & Hb & Hd & _).
  exists e', d', block. split_and!; [done|done|done|]. by eapply session_send.
Qed.

Lemma hpack_session_roundtrip_witness :
  exists e d e' d' block, session defaultHpackLimits e d /\
    encode e example_fields = (e', Ok block) /\ is_bytes block /\
    decode d block = (d', Ok (received <$> example_fields)) /\ session defaultHpackLimits e' d'.
Proof.
  eexists _, _.
  assert (Hs : session defaultHpackLimits (mk_encoder (mk_table [] 0 100) (Some 100) (Some 100) true)
    (mk_decoder (mk_table [] 0 4096) 100 (Some 100) defaultHpackLimits)).
  { eapply (session_resize _ _ _ 100); [by apply (session_start _ 4096 true)|reflexivity..]. }
  destruct (hpack_session_roundtrip _ _ _ example_fields Hs) as (e' & d' & block & H1 & H2 & H3 & H4).
  - by_computing.
  - vm_compute. done.
  - exists e', d', block. exact (conj Hs (conj H1 (conj H2 (conj H3 H4)))).
Defined.

(** The prefixed integers of RFC 7541 section 5.1 round-trip.  For every prefix
    width and pattern that leaves its low bits clear, every integer from 0 to
    2^31-1 is written as bytes whose first keeps the pattern, and reading at the
    start of those bytes, wherever they stand, consumes exactly them and returns
    the integer. *)
Theorem hpack_integer_roundtrip output v p prefix :
  prefix_fits p prefix -> 0 <= v <= MAX_HPACK_INTEGER ->
  exists first bs, writeInteger output v p prefix = Ok (output ++ first :: bs) /\
    is_bytes (first :: bs) /\ prefix <= first < prefix + 2 ^ p /\
    parses (decodeHpackInteger p) (first :: bs) v.
Proof. apply writeInteger_parses. Qed.

Lemma hpack_integer_roundtrip_witness :
  prefix_fits 5 32 /\ exists first bs, writeInteger [] 1337 5 32 = Ok ([] ++ first :: bs) /\
    is_bytes (first :: bs) /\ 32 <= first < 32 + 2 ^ 5 /\
    parses (decodeHpackInteger 5) (first :: bs) 1337.
Proof.
  assert (H : prefix_fits 5 32) by by vm_compute.
  split; [exact H|]. apply (hpack_integer_roundtrip [] 1337 5 32 H). by vm_compute.
Defined.

(** The dynamic table keeps the newest entries that fit.  A table within its
    invariant (sizes add up and stay within the capacity) takes an insertion to
    the new entry followed by the longest run of the newest old entries that fits
    beside it, or to the empty table when the entry alone is too large; a
    capacity change keeps the longest run that fits; both keep the invariant. *)
Theorem dynamic_table_evicts t n v c :
  table_ok t -> is_bytestring n -> is_bytestring v -> 0 <= c <= MAX_HPACK_INTEGER ->
  dt_insert t n v = Ok (inserted t n v) /\ table_ok (inserted t n v) /\
  setCapacity t c = fit_table t c c /\ table_ok (setCapacity t c).
Proof.
  intros Ht Hn Hv Hc. rewrite setCapacity_fit by done. split_and!.
  - by apply dt_insert_inserted.
  - by apply inserted_ok.
  - done.
  - apply fit_table_ok; [done|lia..].
Qed.

Lemma dynamic_table_evicts_witness :
  let t := mk_table [mk_stored (u "a") (u "b") 34; mk_stored (u "c") (u "d") 34] 68 80 in
  table_ok t /\ dt_insert t (u "e") (u "f") = Ok (inserted t (u "e") (u "f")) /\
  setCapacity t 40 = fit_table t 40 40.
Proof.
  intros t. assert (Ht : table_ok t).
  { split; [|done|cbn; lia|vm_compute; split; congruence].
    by_computing. }
  destruct (dynamic_table_evicts t (u "e") (u "f") 40 Ht) as (Hi & _ & Hs & _).
  - by_computing.
  - by_computing.
  - vm_compute. split; congruence.
  - exact (conj Ht (conj Hi Hs)).
Defined.
