(* ===== verification/HpackSafety.v ===== *)
(** * The HPACK decoder on any input

    No block, however malformed, makes the decoder loop, grow its table past its
    capacity or return a header list past the configured limit. *)

From S2P Require Import Prelude Encoding Huffman Hpack HpackTheory.

(** ** Any input: bounds, progress and the invariant *)

Definition cursor_ok (c : Cursor) : Prop :=
  is_bytes (c_bytes c) /\ 0 <= c_offset c <= len (c_bytes c).

(** [p] moves the cursor forward within its bytes and returns something [ok]. *)
Definition moves {A} (p : ST Cursor A) (ok : A -> Prop) : Prop := forall c a c',
  cursor_ok c -> p c = Ok (a, c') ->
  ok a /\ c_bytes c' = c_bytes c /\ c_offset c < c_offset c' <= len (c_bytes c).

(** The invariant of a decoder, whatever it was sent. *)
Record decoder_ok (d : HpackDecoder) : Prop := {
  do_table : table_ok (d_table d);
  do_allowed : 0 <= maximumAllowedTableSize d <= MAX_HPACK_INTEGER;
  do_capacity : requiredMinimumSize d = None ->
    capacityBytes (d_table d) <= maximumAllowedTableSize d;
  do_strings : 0 <= maxStringBytes (d_limits d);
  do_list : 0 <= maxHeaderListBytes (d_limits d);
}.

Definition decoded_size (hs : list DecodedHpackHeaderField) : Z :=
  foldr (fun h n => len (d_name h) + len (d_value h) + 32 + n) 0 hs.

Definition decoded_ok (h : DecodedHpackHeaderField) : Prop :=
  is_bytestring (d_name h) /\ is_bytestring (d_value h).

(** The invariant of the decoding loop. *)
Record decoding_ok (d : HpackDecoder) (s : decoding) : Prop := {
  dk_cursor : cursor_ok (s_cursor s);
  dk_table : table_ok (s_table s);
  dk_headers : Forall decoded_ok (s_headers s);
  dk_size : s_listBytes s = decoded_size (s_headers s);
  dk_limit : s_listBytes s <= maxHeaderListBytes (d_limits d);
  dk_none : requiredMinimumSize d = None -> s_met s = true;
  dk_met : s_met s = true -> capacityBytes (s_table s) <= maximumAllowedTableSize d;
}.

(** A later state of the loop: the invariant, further on in the same bytes. *)
Definition steps_to (d : HpackDecoder) (s s' : decoding) : Prop :=
  decoding_ok d s' /\ c_bytes (s_cursor s') = c_bytes (s_cursor s) /\
  c_offset (s_cursor s) < c_offset (s_cursor s').

(** Every decoder the program can hold, whatever bytes it was given. *)
Inductive decoder_reached (l : HpackLimits) : HpackDecoder -> Prop :=
| reached_new n d : new_HpackDecoder n l = Ok d -> decoder_reached l d
| reached_resize d n d' :
    decoder_reached l d -> decoder_setMaximumTableSize d n = Ok d' -> decoder_reached l d'
| reached_decode d block d' r :
    decoder_reached l d -> is_bytes block -> decode d block = (d', r) -> decoder_reached l d'.

Lemma readByte_moves : moves readByte is_byte.
Proof.
  intros c a c' [Hb Ho] H. unfold readByte in H. destruct (at_ _ _) as [b|] eqn:E; [|done].
  injection H as <- <-. pose proof (at_Some _ _ _ E). cbn.
  split; [by eapply at_Forall|]. split; [done|lia].
Qed.

Lemma moves_cursor_ok {A} (p : ST Cursor A) ok c a c' :
  moves p ok -> cursor_ok c -> p c = Ok (a, c') -> cursor_ok c'.
Proof.
  intros Hp Hc H. destruct (Hp c a c' Hc H) as (_ & Hb & Ho). destruct Hc as [Hbytes ?].
  split; [by rewrite Hb|]. rewrite Hb. lia.
Qed.

Lemma moves_bind {A B} (m : ST Cursor A) (k : A -> ST Cursor B) ok1 ok2 :
  moves m ok1 -> (forall a, ok1 a -> moves (k a) ok2) -> moves (m ≫= k) ok2.
Proof.
  intros Hm Hk c b c' Hc H. unfold mbind, ST_bind in H.
  destruct (m c) as [[a c1]|] eqn:E; [|done].
  pose proof (moves_cursor_ok m ok1 c a c1 Hm Hc E) as Hc1.
  destruct (Hm c a c1 Hc E) as (Ha & Hb1 & Ho1).
  destruct (Hk a Ha c1 b c' Hc1 H) as (Hok & Hb2 & Ho2). rewrite Hb1 in *. split; [done|]. split; [done|lia].
Qed.

(** A continuation that only computes. *)
Lemma moves_map {A B} (m : ST Cursor A) (k : A -> ST Cursor B) (ok1 : A -> Prop) (ok2 : B -> Prop) :
  moves m ok1 -> (forall a c b c', ok1 a -> k a c = Ok (b, c') -> ok2 b /\ c' = c) -> moves (m ≫= k) ok2.
Proof.
  intros Hm Hk c b c' Hc H. unfold mbind, ST_bind in H.
  destruct (m c) as [[a c1]|] eqn:E; [|done]. destruct (Hm c a c1 Hc E) as (Ha & Hb1 & Ho1).
  destruct (Hk a c1 b c' Ha H) as [Hok ->]. done.
Qed.

Lemma decode_octets_moves n : forall value shift,
  0 <= value <= MAX_HPACK_INTEGER -> 0 <= shift ->
  moves (decode_octets n value shift) (fun v => 0 <= v <= MAX_HPACK_INTEGER).
Proof.
  induction n as [|n IH]; intros value shift Hv Hs; [intros c a c' _ H; done|].
  cbn [decode_octets]. intros c a c' Hc H. unfold mbind, ST_bind in H.
  destruct (readByte c) as [[b c1]|] eqn:E; [|done].
  pose proof (moves_cursor_ok _ _ _ _ _ readByte_moves Hc E) as Hc1.
  destruct (readByte_moves c b c1 Hc E) as (Hbyte & Hb1 & Ho1).
  cbv zeta in H. rewrite and127 in H. pose proof (pow2_pos shift Hs). pose proof (Z.mod_pos_bound b 128).
  destruct (_ || _) eqn:Hg; [done|]. apply orb_false_iff in Hg as [_ Hg]. apply Z.ltb_ge in Hg.
  destruct (b .& 128 =? 0).
  - injection H as <- <-. split; [nia|]. done.
  - destruct (IH (value + b mod 128 * 2 ^ shift) (shift + 7) ltac:(nia) ltac:(lia) c1 a c' Hc1 H)
      as (Hok & Hb2 & Ho2). rewrite Hb1 in *. split; [done|]. split; [done|lia].
Qed.

Lemma decodeHpackInteger_moves p :
  moves (decodeHpackInteger p) (fun v => 0 <= v <= MAX_HPACK_INTEGER).
Proof.
  unfold decodeHpackInteger. destruct ((p <? 1) || (8 <? p)) eqn:Hp; [intros c a c' _ H; done|].
  pose proof (pow2_le p 8 ltac:(lia)). pose proof (pow2_le 1 p ltac:(lia)).
  intros c a c' Hc H'. unfold mbind, ST_bind in H'.
  destruct (readByte c) as [[b c1]|] eqn:E; [|done].
  pose proof (moves_cursor_ok _ _ _ _ _ readByte_moves Hc E) as Hc1.
  destruct (readByte_moves c b c1 Hc E) as (Hbyte & Hb1 & Ho1).
  cbv zeta in H'. rewrite js_and_ones in H' by lia. pose proof (Z.mod_pos_bound b (2 ^ p)).
  unfold MAX_HPACK_INTEGER in *. destruct (b mod 2 ^ p <? 2 ^ p - 1).
  - injection H' as <- <-. split; [lia|done].
  - destruct (decode_octets_moves 5 (b mod 2 ^ p) 0 ltac:(unfold MAX_HPACK_INTEGER; lia) ltac:(lia)
      c1 a c' Hc1 H') as (Hok & Hb2 & Ho2).
    rewrite Hb1 in *. split; [done|]. split; [done|lia].
Qed.

Lemma readString_moves lim :
  0 <= maxStringBytes lim ->
  moves (readString lim) (fun s => is_bytestring s /\ len s <= maxStringBytes lim).
Proof.
  intros Hlim c a c' Hc H. unfold readString, st_get, mbind, ST_bind in H.
  destruct (decodeHpackInteger 7 c) as [[n c1]|] eqn:E; [|done].
  pose proof (moves_cursor_ok _ _ _ _ _ (decodeHpackInteger_moves 7) Hc E) as Hc1.
  destruct (decodeHpackInteger_moves 7 c n c1 Hc E) as (Hn & Hb1 & Ho1).
  destruct (Z.ltb_spec (maxStringBytes lim) n); [done|].
  destruct (Z.ltb_spec (len (c_bytes c1) - c_offset c1) n) as [|Hroom]; [done|].
  cbn [st_put] in H. set (chunk := subarray _ _ _) in H.
  assert (Hchunk : is_bytes chunk) by (apply subarray_bytes; apply Hc1).
  assert (Hlen : len chunk <= n).
  { subst chunk. unfold subarray, len. rewrite length_take. lia. }
  rewrite Hb1 in *. destruct (negb _).
  - injection H as <- <-. cbn. rewrite latin1_bytes by done. split; [split; [done|lia]|]. split; [done|lia].
  - unfold st_lift in H. destruct (decodeHpackHuffman chunk (maxStringBytes lim)) as [t|] eqn:Eh; [|done].
    apply decode_is_encoding in Eh as (_ & Hbt & Hlt); [|done..].
    injection H as <- <-. cbn. rewrite latin1_bytes by done. split; [done|]. split; [done|lia].
Qed.

Lemma resolveIndex_ok t i e : table_ok t -> resolveIndex t i = Ok e -> entry_ok e.
Proof.
  intros Ht H. unfold resolveIndex in H. destruct (i =? 0); [done|].
  destruct (staticEntry i) as [f|] eqn:E.
  - injection H as <-. unfold staticEntry in E. destruct (_ || _); [done|].
    apply bind_Some in E as (n & En & E). apply bind_Some in E as (v & Ev & E). injection E as <-.
    destruct static_bytestrings as [Hsn Hsv].
    split; [done|]. split; [exact (at_Forall _ _ _ _ Hsn En)|exact (at_Forall _ _ _ _ Hsv Ev)].
  - destruct (dt_get t _) as [f|] eqn:Ed; [|done]. injection H as <-.
    exact (at_Forall _ _ _ _ (ok_entries t Ht) Ed).
Qed.

Lemma readLiteral_moves t p lim :
  table_ok t -> 0 <= maxStringBytes lim ->
  moves (readLiteral t p lim) (fun f => is_bytestring f.1 /\ is_bytestring f.2).
Proof.
  intros Ht Hlim. unfold readLiteral.
  apply (moves_bind _ _ _ _ (decodeHpackInteger_moves p)). intros i _ c a c' Hc H.
  unfold mbind, ST_bind in H.
  assert (Hname : forall n c1, (if i =? 0 then readString lim else st_lift (s_name <$> resolveIndex t i)) c
    = Ok (n, c1) -> is_bytestring n /\ cursor_ok c1 /\ c_bytes c1 = c_bytes c /\ c_offset c <= c_offset c1).
  { intros n c1 Hn. destruct (i =? 0).
    - pose proof (moves_cursor_ok _ _ _ _ _ (readString_moves lim Hlim) Hc Hn).
      destruct (readString_moves lim Hlim c n c1 Hc Hn) as ([? ?] & ? & ?). split_and!; done || lia.
    - unfold st_lift in Hn. destruct (resolveIndex t i) as [e|] eqn:Ee; cbn in Hn; [|done].
      injection Hn as <- <-. apply (resolveIndex_ok _ _ _ Ht) in Ee as (_ & ? & _). split_and!; done. }
  destruct (_ c) as [[n c1]|] eqn:En; [|done].
  destruct (Hname n c1 eq_refl) as (Hbn & Hc1 & Hb1 & Ho1).
  destruct (readString lim c1) as [[v c2]|] eqn:Ev; [|done]. injection H as <- <-.
  destruct (readString_moves lim Hlim c1 v c2 Hc1 Ev) as ([Hbv _] & Hb2 & Ho2). rewrite Hb1 in *.
  split; [done|]. split; [done|lia].
Qed.

Lemma decoded_size_snoc hs h :
  decoded_size (hs ++ [h]) = decoded_size hs + (len (d_name h) + len (d_value h) + 32).
Proof. induction hs as [|x hs IH]; cbn; [lia|]. unfold decoded_size in *. lia. Qed.

Lemma check_list_Ok l n x : check_list l n = Ok x -> n <= maxHeaderListBytes l.
Proof. intros H%throw_if_Ok. lia. Qed.

(** A header field read at the cursor extends the state. *)
Lemma field_steps_to d s c n v never t :
  decoding_ok d s -> is_bytestring n -> is_bytestring v -> table_ok t ->
  capacityBytes t = capacityBytes (s_table s) ->
  c_bytes c = c_bytes (s_cursor s) -> c_offset (s_cursor s) < c_offset c <= len (c_bytes (s_cursor s)) ->
  s_listBytes s + (len n + len v + 32) <= maxHeaderListBytes (d_limits d) ->
  steps_to d s (mk_decoding c t (s_headers s ++ [mk_decoded n v never])
    (s_listBytes s + (len n + len v + 32)) true (s_sizeUpdates s) (s_met s)).
Proof.
  intros [[Hb Ho] Ht Hh Hs Hl Hnone Hm] Hn Hv Ht' Hcap Hcb Hco Hlist.
  split; [|split; [done|cbn; lia]]. split; cbn; [|done| | |done|done|].
  - split; rewrite Hcb; [done|lia].
  - apply Forall_app_2; [done|]. by apply Forall_singleton.
  - by rewrite decoded_size_snoc, Hs.
  - rewrite Hcap. done.
Qed.

Lemma inserted_capacity t n v : capacityBytes (inserted t n v) = capacityBytes t.
Proof. done. Qed.

Lemma decode_indexed_steps d s s' : decoding_ok d s -> decode_indexed d s = Ok s' -> steps_to d s s'.
Proof.
  intros Hs H. unfold decode_indexed, check_minimum in H. ok_inv H. ok_inv H. destruct x as [i c].
  ok_inv H. ok_inv H. apply check_list_Ok in Hx1. injection H as <-.
  destruct (decodeHpackInteger_moves 7 _ _ _ (dk_cursor _ _ Hs) Hx) as (_ & Hb & Ho).
  destruct (resolveIndex_ok _ _ _ (dk_table _ _ Hs) Hx0) as (Hsize & Hn & Hv). rewrite Hsize in *.
  by apply field_steps_to; try apply Hs.
Qed.

Lemma decode_incremental_steps d s s' :
  decoder_ok d -> decoding_ok d s -> decode_incremental d s = Ok s' -> steps_to d s s'.
Proof.
  intros Hd Hs H. unfold decode_incremental, check_minimum in H. ok_inv H. ok_inv H. destruct x as [[n v] c].
  ok_inv H. ok_inv H. ok_inv H. apply check_list_Ok in Hx1. injection H as <-.
  destruct (readLiteral_moves _ 6 _ (dk_table _ _ Hs) (do_strings _ Hd) _ _ _ (dk_cursor _ _ Hs) Hx)
    as ([Hn Hv] & Hb & Ho). cbn [fst snd] in *.
  rewrite entrySize_ok in Hx0 by done. injection Hx0 as <-.
  rewrite dt_insert_inserted in Hx2 by (done || apply Hs). injection Hx2 as <-.
  apply field_steps_to; try done. apply inserted_ok; [apply Hs|done|done].
Qed.

Lemma decode_literal_steps d first s s' :
  decoder_ok d -> decoding_ok d s -> decode_literal d first s = Ok s' -> steps_to d s s'.
Proof.
  intros Hd Hs H. unfold decode_literal, check_minimum in H. ok_inv H. ok_inv H. destruct x as [[n v] c].
  ok_inv H. ok_inv H. apply check_list_Ok in Hx1. injection H as <-.
  destruct (readLiteral_moves _ 4 _ (dk_table _ _ Hs) (do_strings _ Hd) _ _ _ (dk_cursor _ _ Hs) Hx)
    as ([Hn Hv] & Hb & Ho). cbn [fst snd] in *.
  rewrite entrySize_ok in Hx0 by done. injection Hx0 as <-.
  apply field_steps_to; try done. apply Hs.
Qed.

Lemma decode_size_update_steps d s s' :
  decoder_ok d -> decoding_ok d s -> decode_size_update d s = Ok s' -> steps_to d s s'.
Proof.
  intros Hd Hs H. unfold decode_size_update in H. ok_inv H. ok_inv H. ok_inv H. destruct x as [size c].
  ok_inv H. ok_inv H. injection H as <-.
  destruct (decodeHpackInteger_moves 5 _ _ _ (dk_cursor _ _ Hs) Hx) as (Hsize & Hb & Ho).
  pose proof (do_allowed _ Hd). pose proof (dk_cursor _ _ Hs) as [Hcb Hco].
  rewrite setCapacity_fit by apply Hs. split; [|by split; [|cbn; lia]].
  split; cbn; try apply Hs.
  - split; rewrite Hb; [done|lia].
  - apply fit_table_ok; [apply Hs|lia..].
  - intros Hr. rewrite Hr in Hx0. injection Hx0 as <-. by apply Hs.
  - intros _. lia.
Qed.

Lemma decode_step_steps d s s' :
  decoder_ok d -> decoding_ok d s -> decode_step d s = Ok s' -> steps_to d s s'.
Proof.
  intros Hd Hs H. unfold decode_step in H.
  destruct (negb _); [by apply decode_indexed_steps|].
  destruct (negb _); [by apply decode_incremental_steps|].
  destruct (negb _); [by apply decode_size_update_steps|by eapply decode_literal_steps].
Qed.

(** Every error of a step is one of the program's. *)
Lemma st_bind_finishes {A B} (m : ST Cursor A) (k : A -> ST Cursor B) c :
  finishes (m c) -> (forall a c', finishes (k a c')) -> finishes ((m ≫= k) c).
Proof.
  unfold finishes, mbind, ST_bind. destruct (m c) as [[a c']|e]; [auto|]. intros He _ [= ->]. done.
Qed.

Lemma readByte_finishes c : finishes (readByte c).
Proof. unfold readByte. by destruct (at_ _ _). Qed.

Lemma decode_octets_finishes n : forall v sh c, finishes (decode_octets n v sh c).
Proof.
  induction n as [|n IH]; intros v sh c; [done|]. cbn [decode_octets].
  apply st_bind_finishes; [apply readByte_finishes|]. intros b c'. cbv zeta.
  destruct (_ || _); [done|]. destruct (_ =? 0); [done|apply IH].
Qed.

Lemma decodeHpackInteger_finishes p c : finishes (decodeHpackInteger p c).
Proof.
  unfold decodeHpackInteger. destruct (_ || _); [done|]. cbv zeta.
  apply st_bind_finishes; [apply readByte_finishes|]. intros b c'.
  destruct (_ <? _); [done|apply decode_octets_finishes].
Qed.

Lemma decodeHpackHuffman_finishes x m : finishes (decodeHpackHuffman x m).
Proof.
  apply finishes_bind; [|intros d _; by destruct (_ && _)].
  apply finishes_foldM. intros d b. apply finishes_foldM. intros d' i. unfold decode_bit. cbv zeta.
  repeat case_match; done.
Qed.

Lemma readString_finishes l c : finishes (readString l c).
Proof.
  unfold readString. apply st_bind_finishes; [done|]. intros c0 c1. cbv zeta.
  apply st_bind_finishes; [apply decodeHpackInteger_finishes|]. intros n c2.
  destruct (_ <? n); [done|]. apply st_bind_finishes; [done|]. intros c3 c4.
  destruct (_ <? n); [done|]. apply st_bind_finishes; [done|]. intros ? c5.
  destruct (negb _); [done|]. apply st_bind_finishes; [|done].
  unfold st_lift. pose proof (decodeHpackHuffman_finishes
    (subarray (c_bytes c3) (c_offset c3) (c_offset c3 + n)) (maxStringBytes l)) as H.
  destruct (decodeHpackHuffman _ _); [done|]. intros [= ->]. done.
Qed.

Lemma resolveIndex_finishes t i : finishes (resolveIndex t i).
Proof. unfold resolveIndex. repeat case_match; done. Qed.

Lemma readLiteral_finishes t p l c : finishes (readLiteral t p l c).
Proof.
  unfold readLiteral. apply st_bind_finishes; [apply decodeHpackInteger_finishes|]. intros i c1.
  apply st_bind_finishes.
  - destruct (i =? 0); [apply readString_finishes|]. unfold st_lift.
    pose proof (resolveIndex_finishes t i) as H. destruct (resolveIndex t i); cbn; [done|].
    intros [= ->]. done.
  - intros n c2. apply st_bind_finishes; [apply readString_finishes|done].
Qed.

Lemma entrySize_finishes n v : finishes (entrySize n v).
Proof. unfold entrySize, byteStringLength. destruct (existsb _ n), (existsb _ v); done. Qed.

Lemma dt_insert_finishes t n v : finishes (dt_insert t n v).
Proof.
  apply finishes_bind; [apply entrySize_finishes|]. intros size _. by destruct (_ <? _).
Qed.

#[local] Hint Resolve decodeHpackInteger_finishes readLiteral_finishes resolveIndex_finishes
  entrySize_finishes dt_insert_finishes : finishes.

(** Chains of checks and calls, one after the other. *)
Ltac finish_chain :=
  repeat first
    [ apply finishes_seq; [solve [eauto with finishes]|]
    | apply finishes_bind; [solve [eauto with finishes]|]; intros ? _
    | progress cbv zeta
    | match goal with |- context [let '(_, _) := ?p in _] => destruct p end ];
  eauto with finishes.

Lemma decode_step_finishes d s : finishes (decode_step d s).
Proof.
  unfold decode_step, decode_indexed, decode_incremental, decode_size_update, decode_literal,
    check_minimum, check_list.
  destruct (negb _); [finish_chain|]. destruct (negb _); [finish_chain|].
  destruct (negb _); [|finish_chain]. finish_chain.
  apply finishes_bind; [|by intros].
  destruct (requiredMinimumSize d); [|done]. destruct (_ =? 1); [|done]. finish_chain.
Qed.

Lemma decode_loop_safe d fuel : forall s s' r,
  decoder_ok d -> decoding_ok d s ->
  len (c_bytes (s_cursor s)) - c_offset (s_cursor s) <= Z.of_nat fuel ->
  decode_loop fuel d s = (s', r) -> decoding_ok d s' /\ finishes r.
Proof.
  induction fuel as [|fuel IH]; intros s s' r Hd Hs Hfuel H; cbn in H.
  - destruct (Z.ltb_spec (c_offset (s_cursor s)) (len (c_bytes (s_cursor s)))); [lia|].
    by injection H as <- <-.
  - destruct (_ <? _); [|by injection H as <- <-].
    destruct (decode_step d s) as [s1|e] eqn:E.
    + destruct (decode_step_steps d s s1 Hd Hs E) as (Hs1 & Hb & Ho).
      eapply IH; [done|done| |done]. rewrite Hb. lia.
    + injection H as <- <-. split; [done|]. rewrite <- E || idtac.
      pose proof (decode_step_finishes d s) as Hf. rewrite E in Hf. unfold finishes in *. congruence.
Qed.

Lemma decode_safe d block d' r :
  decoder_ok d -> is_bytes block -> decode d block = (d', r) ->
  finishes r /\ decoder_ok d' /\ d_limits d' = d_limits d /\
  match r with
  | Ok hs => Forall decoded_ok hs /\ decoded_size hs <= maxHeaderListBytes (d_limits d) /\
             capacityBytes (d_table d') <= maximumAllowedTableSize d'
  | Err _ => True
  end.
Proof.
  intros Hd Hb H. unfold decode in H. set (s0 := mk_decoding _ _ _ _ _ _ _) in H.
  assert (Hs0 : decoding_ok d s0).
  { split; cbn; [|apply Hd|constructor|done|apply Hd| |].
    - pose proof (len_nonneg block). by split; cbn; [|lia].
    - intros Hr. by apply bool_decide_eq_true.
    - intros Hm%bool_decide_eq_true. by apply Hd. }
  destruct (decode_loop (length block) d s0) as [s r0] eqn:E.
  destruct (decode_loop_safe d (length block) s0 s r0 Hd Hs0) as [Hs Hf]; [cbn; unfold len; lia|done|].
  destruct r0 as [[]|e]; cbn [mbind result_bind] in H.
  - unfold check_minimum in H. destruct (s_met s) eqn:Hm; cbn in H; injection H as <- <-.
    + pose proof (dk_met _ _ Hs Hm). split; [done|].
      split; [by split; cbn; try apply Hs; try apply Hd|].
      split; [done|]. split; [apply Hs|]. split; [|done]. rewrite <- (dk_size _ _ Hs). apply Hs.
    + split; [done|]. split; [|done]. split; cbn; try apply Hs; try apply Hd.
      intros Hr%(dk_none _ _ Hs). congruence.
  - injection H as <- <-. split; [unfold finishes in *; congruence|]. split; [|done].
    split; cbn; try apply Hs; try apply Hd. intros Hr%(dk_none _ _ Hs). by apply Hs.
Qed.

(** ** Properties *)

Lemma resize_decoder_ok d n d' :
  decoder_ok d -> decoder_setMaximumTableSize d n = Ok d' -> decoder_ok d' /\ d_limits d' = d_limits d.
Proof.
  unfold decoder_setMaximumTableSize. intros [Ht Ha Hc Hs Hl] [Hn [= <-]]%bind_unit_ok.
  apply require_ok in Hn. split; [|done]. split; cbn; [done|done| |done|done].
  destruct (Z.ltb_spec n (capacityBytes (d_table d))); [done|]. intros _. lia.
Qed.

Lemma decoder_reached_ok l d : decoder_reached l d -> decoder_ok d /\ d_limits d = l.
Proof.
  induction 1 as [n d H|d n d' _ [IH Hl] H|d block d' r _ [IH Hl] Hb H].
  - unfold new_HpackDecoder in H. apply bind_unit_ok in H as [Hn H]. apply bind_unit_ok in H as [Hv H].
    injection H as <-. apply require_ok in Hn. apply bind_unit_ok in Hv as [H1%require_ok H2%require_ok].
    split; [|done]. split; cbn; [by apply new_table_ok|lia|lia|lia|lia].
  - destruct (resize_decoder_ok d n d' IH H) as [? ->]. done.
  - destruct (decode_safe d block d' r IH Hb H) as (_ & ? & -> & _). done.
Qed.

(** C2: decoding is safe on any input.  A decoder that has been resized and fed
    arbitrary blocks in any order, failed ones included, ends every further call:
    it throws an error of the program or returns headers whose names and values
    are byte strings and whose total size is within the configured limit, with
    the table within the advertised maximum; either way its table is still within
    its invariant and its limits are unchanged. *)
Theorem hpack_decode_safe l d block d' r :
  decoder_reached l d -> is_bytes block -> decode d block = (d', r) ->
  finishes r /\ table_ok (d_table d') /\ d_limits d' = l /\
  match r with
  | Ok hs => Forall decoded_ok hs /\ decoded_size hs <= maxHeaderListBytes l /\
             capacityBytes (d_table d') <= maximumAllowedTableSize d'
  | Err _ => True
  end.
Proof.
  intros Hr Hb H. destruct (decoder_reached_ok l d Hr) as [Hd <-].
  destruct (decode_safe d block d' r Hd Hb H) as (Hf & Hd' & Hl & Hok).
  split; [done|]. split; [apply Hd'|]. done.
Qed.

Lemma hpack_decode_safe_witness :
  exists d d', decoder_reached defaultHpackLimits d /\
    decode d [0x82; 0xff] = (d', Err (ProtocolError "Truncated HPACK block")) /\
    table_ok (d_table d') /\ d_limits d' = defaultHpackLimits.
Proof.
  pose (d := mk_decoder (mk_table [] 0 4096) 4096 None defaultHpackLimits).
  assert (Hd : decoder_reached defaultHpackLimits d) by by apply (reached_new _ 4096).
  exists d, d.
  assert (E : decode d [0x82; 0xff] = (d, Err (ProtocolError "Truncated HPACK block"))) by by vm_compute.
  assert (Hb : is_bytes [0x82; 0xff]) by by repeat constructor.
  pose proof (hpack_decode_safe defaultHpackLimits d _ d _ Hd Hb E) as (_ & Ht & Hl & _).
  exact (conj Hd (conj E (conj Ht Hl))).
Defined.
