(* ===== verification/Io.v ===== *)
(** * The buffered reader and the write loop ([http1/io.ts])

    [ByteConnection] is the provider's interface; [Transport] adds what its
    documentation promises: reads deliver one byte stream in nonempty chunks of
    at most the requested size, writes accept a nonempty prefix.  The reader's
    results are shown to depend on the stream only, never on its chunking. *)

From S2P Require Import Prelude Encoding.

(** [provider/primitives.ts]: the operations the shared code calls. *)
Class ByteConnection (T : Type) := {
  read : Z -> T -> result (option (list Z) * T);
  write : list Z -> T -> result (Z * T);
}.

(** The documented contract, in terms of the bytes still to come before EOF and
    the bytes accepted so far. *)
Class Transport (T : Type) `{ByteConnection T} := {
  incoming : T -> list Z;
  outgoing : T -> list Z;
  read_contract n t : 1 <= n ->
    (incoming t = [] /\ exists t', read n t = Ok (None, t') /\ incoming t' = [] /\ outgoing t' = outgoing t) \/
    (exists chunk t', read n t = Ok (Some chunk, t') /\ chunk <> [] /\ len chunk <= n /\
      incoming t = chunk ++ incoming t' /\ outgoing t' = outgoing t);
  write_contract data t : data <> [] ->
    exists n t', write data t = Ok (n, t') /\ 1 <= n <= len data /\
      outgoing t' = outgoing t ++ take (Z.to_nat n) data /\ incoming t' = incoming t;
}.

(** ** Writing *)

Section WriteAll.
Context {T : Type} `{ByteConnection T}.

(** [while (offset < data.length)]: progress is at least one byte. *)
Fixpoint writeAll_loop (fuel : nat) (data : list Z) (offset : Z) (connection : T) : result T :=
  if offset <? len data then
    match fuel with
    | O => Err OutOfFuel
    | S fuel =>
        let part := subarray data offset (Z.min (offset + 65536) (len data)) in
        '(written, connection) ← write part connection;
        throw_if ((written <=? 0) || (len part <? written))
          (ProtocolError "Invalid write progress from transport") ;;
        writeAll_loop fuel data (offset + written) connection
    end
  else Ok connection.

Definition writeAll (connection : T) (data : list Z) : result T :=
  writeAll_loop (length data) data 0 connection.
End WriteAll.

(** ** Reading *)

Record BufferedReader (T : Type) := mk_reader {
  b_connection : T;
  b_buffer : list Z;
  b_position : Z;
}.
Arguments mk_reader {T}.
Arguments b_connection {T}.
Arguments b_buffer {T}.
Arguments b_position {T}.

Section Reader.
Context {T : Type} `{ByteConnection T}.

Definition new_BufferedReader (connection : T) : BufferedReader T := mk_reader connection [] 0.

Definition bufferedBytes (r : BufferedReader T) : Z := len (b_buffer r) - b_position r.

(** The buffered part of [some] and [line]: the rest of the buffer up to [e]. *)
Definition consume (r : BufferedReader T) (e : Z) : list Z * BufferedReader T :=
  (subarray (b_buffer r) (b_position r) e, mk_reader (b_connection r) (b_buffer r) e).

Definition some (maxBytes : Z) : ST (BufferedReader T) (option (list Z)) := fun r =>
  if maxBytes <? 1 then Err (RangeError "maxBytes must be positive") else
  let serve r :=
    let '(part, r) := consume r (Z.min (b_position r + maxBytes) (len (b_buffer r))) in
    Ok (Some part, r) in
  if b_position r =? len (b_buffer r) then
    '(data, connection) ← read (Z.min 65536 maxBytes) (b_connection r);
    match data with
    | None => Ok (None, mk_reader connection (b_buffer r) (b_position r))
    | Some data =>
        throw_if ((len data =? 0) || (Z.min 65536 maxBytes <? len data))
          (ProtocolError "Invalid read size from transport") ;;
        serve (mk_reader connection data 0)
    end
  else serve r.

(** [while (offset < length)]: every chunk is nonempty. *)
Fixpoint exact_loop (fuel : nat) (length offset : Z) (result : list Z) : ST (BufferedReader T) (list Z) :=
  if offset <? length then
    match fuel with
    | O => st_lift (Err OutOfFuel)
    | S fuel =>
        chunk ← some (length - offset);
        match chunk with
        | None => st_lift (Err (ProtocolError "Unexpected EOF"))
        | Some chunk =>
            exact_loop fuel length (offset + len chunk) (set_range result offset chunk)
        end
    end
  else mret result.

Definition exact (length : Z) : ST (BufferedReader T) (list Z) :=
  if negb (isSafeInteger length) || (length <? 0)
  then st_lift (Err (RangeError "Invalid byte length"))
  else exact_loop (Z.to_nat length) length 0 (zeros length).

(** [while (true)]: [size] grows and may not pass [maxBytes]. *)
Fixpoint line_loop (fuel : nat) (maxBytes : Z) (parts : list (list Z)) (size : Z)
    : ST (BufferedReader T) jsstr := fun r =>
  match fuel with
  | O => Err OutOfFuel
  | S fuel =>
      r ← (if b_position r =? len (b_buffer r) then
             '(chunk, connection) ← read 65536 (b_connection r);
             match chunk with
             | None => Err (ProtocolError "EOF inside an HTTP line")
             | Some chunk =>
                 throw_if ((len chunk =? 0) || (65536 <? len chunk))
                   (ProtocolError "Invalid transport read size") ;;
                 Ok (mk_reader connection chunk 0)
             end
           else Ok r);
      let lf := js_indexOf (b_buffer r) 10 (b_position r) in
      let '(part, r) := consume r (if lf <? 0 then len (b_buffer r) else lf + 1) in
      let size := size + len part in
      throw_if (maxBytes <? size) (LimitError "HTTP line exceeds configured limit") ;;
      let parts := parts ++ [part] in
      if 0 <=? lf then
        bytes ← (if len parts =? 1 then Ok part else concatBytes parts (Some size));
        throw_if ((len bytes <? 2) || negb (bool_decide (at_ bytes (len bytes - 2) = Some 13)))
          (ProtocolError "HTTP requires CRLF, not bare LF") ;;
        Ok (latin1 (subarray bytes 0 (len bytes - 2)), r)
      else line_loop fuel maxBytes parts size r
  end.

Definition line (maxBytes : Z) : ST (BufferedReader T) jsstr :=
  line_loop (S (Z.to_nat maxBytes)) maxBytes [] 0.
End Reader.

(** ** The specification: the bytes a reader has still to return *)

Definition pending {T} `{Transport T} (r : BufferedReader T) : list Z :=
  drop (Z.to_nat (b_position r)) (b_buffer r) ++ incoming (b_connection r).

Definition reader_ok {T} (r : BufferedReader T) : Prop := 0 <= b_position r <= len (b_buffer r).
#[export] Instance reader_ok_dec {T} (r : BufferedReader T) : Decision (reader_ok r).
Proof. unfold reader_ok. apply _. Defined.

(** A line of the stream: its text and what follows it. *)
Definition line_of (maxBytes : Z) (bytes : list Z) : result (jsstr * list Z) :=
  let lf := index_of_from 10 bytes 0 in
  if lf <? 0 then
    if (0 <? len bytes) && (maxBytes <? len bytes)
    then Err (LimitError "HTTP line exceeds configured limit")
    else Err (ProtocolError "EOF inside an HTTP line")
  else if maxBytes <? lf + 1 then Err (LimitError "HTTP line exceeds configured limit")
  else if (lf <? 1) || negb (bool_decide (at_ bytes (lf - 1) = Some 13))
  then Err (ProtocolError "HTTP requires CRLF, not bare LF")
  else Ok (latin1 (take (Z.to_nat (lf - 1)) bytes), drop (Z.to_nat (lf + 1)) bytes).

(** ** A transport that follows a script *)

(** The sizes of the chunks to come, the bytes to read and the bytes written;
    a size of zero is served as one byte. *)
Record Script := mk_script {
  sizes_left : list nat;
  to_read : list Z;
  written : list Z;
}.

#[export] Instance script_connection : ByteConnection Script := {
  read n s :=
    match to_read s with
    | [] => Ok (None, s)
    | bytes =>
        let k := Nat.min (Nat.max 1 (default 1%nat (head (sizes_left s)))) (Z.to_nat n) in
        Ok (Some (take k bytes), mk_script (tail (sizes_left s)) (drop k bytes) (written s))
    end;
  write data s :=
    let k := Nat.min (Nat.max 1 (default 1%nat (head (sizes_left s)))) (length data) in
    Ok (Z.of_nat k, mk_script (tail (sizes_left s)) (to_read s) (written s ++ take k data));
}.

#[export, program] Instance script_transport : Transport Script := {
  incoming := to_read;
  outgoing := written;
}.
Next Obligation.
  intros n [sizes bytes out] Hn. cbn. destruct bytes as [|b bytes]; [left; split; [done|]; by eexists|right].
  eexists _, _. split; [done|]. split; [|split; [|split; [|done]]].
  - rewrite <- length_zero_iff_nil, length_take. cbn. lia.
  - unfold len. rewrite length_take. lia.
  - cbn. by rewrite take_drop.
Qed.
Next Obligation.
  intros data [sizes bytes out] Hd. cbn. eexists _, _. split; [done|]. rewrite Nat2Z.id. split; [|done].
  unfold len. destruct data; [done|]. cbn. lia.
Qed.

(** The outcome of reading a line: what the stream holds, and the rest of it. *)
Definition reads_line {T} `{Transport T} (m : result (jsstr * BufferedReader T))
    (spec : result (jsstr * list Z)) : Prop :=
  match spec with
  | Ok (text, rest) => exists r', m = Ok (text, r') /\ pending r' = rest /\ reader_ok r'
  | Err e => m = Err e
  end.

(** The first half of an iteration of [line]: the buffer is refilled exactly when
    it is used up. *)
Definition refill {T} `{ByteConnection T} (r : BufferedReader T) : result (BufferedReader T) :=
  if b_position r =? len (b_buffer r) then
    '(chunk, connection) ← read 65536 (b_connection r);
    match chunk with
    | None => Err (ProtocolError "EOF inside an HTTP line")
    | Some chunk =>
        throw_if ((len chunk =? 0) || (65536 <? len chunk))
          (ProtocolError "Invalid transport read size") ;;
        Ok (mk_reader connection chunk 0)
    end
  else Ok r.

Definition example_script : Script :=
  mk_script [2; 1; 3; 1; 9]%nat [71; 69; 84; 13; 10; 1; 2; 3] [].

(** ** Reading is independent of the chunking *)

Section ReaderTheory.
Context {T : Type} `{Transport T}.
Implicit Types r : BufferedReader T.

Lemma pending_empty r : reader_ok r -> b_position r = len (b_buffer r) ->
  pending r = incoming (b_connection r).
Proof. intros _ Hp. unfold pending. by rewrite Hp, drop_ge by (unfold len; lia). Qed.

(** Taking a piece of the buffer takes it off the pending bytes. *)
Lemma consume_pending r e : reader_ok r -> b_position r <= e <= len (b_buffer r) ->
  let '(part, r') := consume r e in
  pending r = part ++ pending r' /\ len part = e - b_position r /\ reader_ok r'.
Proof.
  intros Hr He. unfold reader_ok in Hr. cbn. unfold pending, subarray. cbn. split; [|split].
  - rewrite app_assoc. f_equal.
    replace (Z.to_nat e) with (Z.to_nat (b_position r + (e - b_position r))) by (f_equal; lia).
    by rewrite take_drop_add by lia.
  - rewrite len_take; [done|]. rewrite len_drop; lia.
  - unfold reader_ok. cbn. lia.
Qed.

Lemma nonempty_len (l : list Z) : l <> [] -> 1 <= len l.
Proof. destruct l; [done|]. rewrite len_cons. pose proof (len_nonneg l). lia. Qed.

(** A refilled reader is at the start of a chunk of the stream. *)
Lemma refill_ok (c : T) chunk c' :
  chunk <> [] -> incoming c = chunk ++ incoming c' -> reader_ok (mk_reader c' chunk 0) /\
  pending (mk_reader c' chunk 0) = incoming c.
Proof.
  intros Hc ->. split; [|done]. unfold reader_ok. cbn. pose proof (len_nonneg chunk). lia.
Qed.

Lemma some_spec r n : reader_ok r -> 1 <= n ->
  (pending r = [] /\ exists r', some n r = Ok (None, r') /\ reader_ok r' /\ pending r' = []) \/
  exists chunk r', some n r = Ok (Some chunk, r') /\ chunk <> [] /\ len chunk <= n /\
    pending r = chunk ++ pending r' /\ reader_ok r'.
Proof.
  intros Hr Hn. unfold some. destruct (Z.ltb_spec n 1); [lia|].
  (* Serving from a buffer with something in it. *)
  assert (Hserve : forall r1, reader_ok r1 -> b_position r1 < len (b_buffer r1) ->
    exists chunk r', consume r1 (Z.min (b_position r1 + n) (len (b_buffer r1))) = (chunk, r') /\
      chunk <> [] /\ len chunk <= n /\ pending r1 = chunk ++ pending r' /\ reader_ok r').
  { intros r1 Hr1 Hlt. pose proof (consume_pending r1 (Z.min (b_position r1 + n) (len (b_buffer r1))) Hr1) as Hc.
    destruct (consume r1 _) as [chunk r']. destruct Hc as (Hp & Hl & Hr'); [unfold reader_ok in Hr1; lia|].
    exists chunk, r'. split_and!; try done; [|lia]. intros ->. rewrite (@len_nil Z) in Hl. unfold reader_ok in *. lia. }
  destruct (Z.eqb_spec (b_position r) (len (b_buffer r))) as [He|Hne].
  - destruct (read_contract (Z.min 65536 n) (b_connection r)) as
      [(Hnil & c' & Hread & Hc' & _)|(chunk & c' & Hread & Hcne & Hclen & Hin & _)]; [lia| |].
    + left. rewrite pending_empty by done. split; [done|]. rewrite Hread. cbn.
      eexists. split; [done|]. split; [done|]. by rewrite pending_empty.
    + right. rewrite Hread. cbn [mbind result_bind].
      pose proof (nonempty_len chunk Hcne).
      destruct (Z.eqb_spec (len chunk) 0); [lia|]. destruct (Z.ltb_spec (Z.min 65536 n) (len chunk)); [lia|].
      cbn [orb throw_if mbind result_bind]. destruct (refill_ok _ _ _ Hcne Hin) as [Hok Hpen].
      destruct (Hserve (mk_reader c' chunk 0) Hok) as (part & r' & -> & ? & ? & Hp & ?); [cbn; lia|].
      exists part, r'. rewrite (pending_empty r) by done. rewrite <- Hpen. done.
  - right. destruct (Hserve r Hr) as (part & r' & -> & ? & ? & Hp & ?); [unfold reader_ok in Hr; lia|].
    by exists part, r'.
Qed.

(** The next [n] bytes of the stream, or an error when it ends before. *)
Lemma exact_loop_spec fuel : forall n done_ r, reader_ok r ->
  0 <= n <= Z.of_nat fuel ->
  (n <= len (pending r) -> exists r',
    exact_loop fuel (len done_ + n) (len done_) (done_ ++ zeros n) r
    = Ok (done_ ++ take (Z.to_nat n) (pending r), r') /\
    pending r' = drop (Z.to_nat n) (pending r) /\ reader_ok r') /\
  (len (pending r) < n ->
    exact_loop fuel (len done_ + n) (len done_) (done_ ++ zeros n) r = Err (ProtocolError "Unexpected EOF")).
Proof.
  induction fuel as [|fuel IH]; intros n done_ r Hr Hn.
  - assert (n = 0) as -> by lia. cbn [exact_loop]. rewrite Z.add_0_r, Z.ltb_irrefl. cbn.
    pose proof (len_nonneg (pending r)). split; [|lia]. intros _. by exists r.
  - cbn [exact_loop]. destruct (Z.ltb_spec (len done_) (len done_ + n)) as [Hlt|Hge].
    2: { assert (n = 0) as -> by lia. cbn. pose proof (len_nonneg (pending r)).
         split; [|lia]. intros _. by exists r. }
    replace (len done_ + n - len done_) with n by lia.
    unfold mbind, ST_bind. destruct (some_spec r n Hr) as
      [(Hnil & r' & -> & _ & _)|(chunk & r' & -> & Hcne & Hclen & Hp & Hr')]; [lia| |].
    + rewrite Hnil. cbn. split; [unfold len; cbn; lia|done].
    + pose proof (nonempty_len chunk Hcne). rewrite set_range_next by lia.
      rewrite <- len_app. destruct (IH (n - len chunk) (done_ ++ chunk) r' Hr') as [IH1 IH2]; [lia|].
      rewrite !len_app in IH1, IH2. replace (len done_ + n) with (len done_ + len chunk + (n - len chunk)) by lia.
      rewrite Hp, !len_app. replace (Z.to_nat n) with (length chunk + Z.to_nat (n - len chunk))%nat
        by (unfold len in *; lia).
      split.
      * intros Hle. destruct IH1 as (r2 & -> & Hp2 & Hr2); [lia|]. exists r2.
        rewrite <- app_assoc, take_app_add', drop_app_add' by done. done.
      * intros Hgt. apply IH2. lia.
Qed.

Lemma exact_spec n r : reader_ok r -> 0 <= n <= MAX_SAFE_INTEGER ->
  (n <= len (pending r) -> exists r', exact n r = Ok (take (Z.to_nat n) (pending r), r') /\
    pending r' = drop (Z.to_nat n) (pending r) /\ reader_ok r') /\
  (len (pending r) < n -> exact n r = Err (ProtocolError "Unexpected EOF")).
Proof.
  intros Hr Hn. unfold exact, isSafeInteger. destruct (Z.leb_spec (Z.abs n) MAX_SAFE_INTEGER); [|lia].
  destruct (Z.ltb_spec n 0); [lia|]. cbn [negb orb].
  pose proof (exact_loop_spec (Z.to_nat n) n [] r Hr) as Hs. rewrite (@len_nil Z) in Hs. apply Hs. lia.
Qed.

(** ** Lines *)

Lemma concatBytes_parts parts part size :
  size = len (concat (parts ++ [part])) ->
  (if len (parts ++ [part]) =? 1 then Ok part else concatBytes (parts ++ [part]) (Some size))
  = Ok (concat (parts ++ [part])).
Proof.
  intros Hs. destruct (Z.eqb_spec (len (parts ++ [part])) 1) as [He|_]; [|by apply concatBytes_chunks].
  rewrite len_app in He. destruct parts as [|p parts]; [by rewrite concat_app; cbn; rewrite app_nil_r|].
  rewrite len_cons in He. cbn in He. pose proof (len_nonneg parts). unfold len at 2 in He. cbn in He. lia.
Qed.

(** The text of the line that [bytes], which ends in LF, holds. *)
Lemma line_of_found text rest maxBytes :
  10 ∉ text -> len text < maxBytes ->
  line_of maxBytes (text ++ 10 :: rest) =
  let bytes := text ++ [10] in
  throw_if ((len bytes <? 2) || negb (bool_decide (at_ bytes (len bytes - 2) = Some 13)))
    (ProtocolError "HTTP requires CRLF, not bare LF") ;;
  Ok (latin1 (subarray bytes 0 (len bytes - 2)), rest).
Proof.
  intros Hn Hm. unfold line_of. rewrite index_of_from_app by done. rewrite Z.add_0_l.
  pose proof (len_nonneg text). destruct (Z.ltb_spec (len text) 0); [lia|].
  destruct (Z.ltb_spec maxBytes (len text + 1)); [lia|]. cbv zeta. rewrite len_app.
  change (len [10]) with 1. replace (len text + 1 - 2) with (len text - 1) by lia.
  destruct (Z.ltb_spec (len text) 1), (Z.ltb_spec (len text + 1) 2); try lia; [done|]. cbn [orb].
  assert (Hat : forall k : list Z, at_ (text ++ k) (len text - 1) = at_ text (len text - 1)).
  { intros k. unfold at_. destruct (Z.ltb_spec (len text - 1) 0); [done|].
    apply lookup_app_l. unfold len in *. lia. }
  rewrite !Hat. destruct (negb _); [done|]. cbn [throw_if mbind result_bind]. f_equal. f_equal.
  - unfold subarray. rewrite Z.sub_0_r. cbn [Z.to_nat]. rewrite drop_0.
    rewrite !take_app_le by (unfold len in *; lia). done.
  - replace (Z.to_nat (len text + 1)) with (length text + 1)%nat by (unfold len; lia).
    by rewrite drop_app_add.
Qed.

Lemma line_of_over text rest maxBytes :
  10 ∉ text -> maxBytes < len text + 1 ->
  line_of maxBytes (text ++ 10 :: rest) = Err (LimitError "HTTP line exceeds configured limit").
Proof.
  intros Hn Hm. unfold line_of. rewrite index_of_from_app by done. rewrite Z.add_0_l.
  pose proof (len_nonneg text). destruct (Z.ltb_spec (len text) 0); [lia|].
  destruct (Z.ltb_spec maxBytes (len text + 1)); [done|lia].
Qed.

Lemma line_of_long text rest maxBytes :
  10 ∉ text -> 1 <= len text -> maxBytes < len text ->
  line_of maxBytes (text ++ rest) = Err (LimitError "HTTP line exceeds configured limit").
Proof.
  intros Hn Hl Hm. unfold line_of. pose proof (len_nonneg rest).
  destruct (index_of_from_spec 10 rest 0) as [[_ Hr]|(a & b & -> & Ha & _)]; [lia| |].
  - rewrite index_of_from_none by set_solver. cbn. rewrite len_app.
    destruct (Z.ltb_spec 0 (len text + len rest)), (Z.ltb_spec maxBytes (len text + len rest)); done || lia.
  - rewrite app_assoc, index_of_from_app by (lia || set_solver). rewrite len_app.
    pose proof (len_nonneg a). destruct (Z.ltb_spec (0 + (len text + len a)) 0); [lia|].
    destruct (Z.ltb_spec maxBytes (0 + (len text + len a) + 1)); [done|lia].
Qed.
End ReaderTheory.

(** ** Lines of a stream *)

Section LineTheory.
Context {T : Type} `{Transport T}.
Implicit Types r : BufferedReader T.

Lemma refill_spec r : reader_ok r ->
  (pending r = [] /\ refill r = Err (ProtocolError "EOF inside an HTTP line")) \/
  exists r1, refill r = Ok r1 /\ reader_ok r1 /\ pending r1 = pending r /\ b_position r1 < len (b_buffer r1).
Proof.
  intros Hr. unfold refill. destruct (Z.eqb_spec (b_position r) (len (b_buffer r))) as [He|Hne].
  - rewrite pending_empty by done. destruct (read_contract 65536 (b_connection r)) as
      [(Hnil & c' & Hread & _)|(chunk & c' & Hread & Hcne & Hclen & Hin & _)]; [lia| |].
    + left. by rewrite Hread.
    + right. rewrite Hread. cbn [mbind result_bind]. pose proof (nonempty_len chunk Hcne).
      destruct (Z.eqb_spec (len chunk) 0); [lia|]. destruct (Z.ltb_spec 65536 (len chunk)); [lia|].
      cbn [orb throw_if mbind result_bind]. destruct (refill_ok _ _ _ Hcne Hin) as [Hok Hpen].
      eexists. split_and!; [done|done|done|]. cbn. lia.
  - right. exists r. unfold reader_ok in *. split_and!; done || lia.
Qed.

Lemma line_loop_unfold fuel maxBytes parts size r :
  line_loop (S fuel) maxBytes parts size r =
  r ← refill r;
  let lf := js_indexOf (b_buffer r) 10 (b_position r) in
  let '(part, r) := consume r (if lf <? 0 then len (b_buffer r) else lf + 1) in
  let size := size + len part in
  throw_if (maxBytes <? size) (LimitError "HTTP line exceeds configured limit") ;;
  let parts := parts ++ [part] in
  if 0 <=? lf then
    bytes ← (if len parts =? 1 then Ok part else concatBytes parts (Some size));
    throw_if ((len bytes <? 2) || negb (bool_decide (at_ bytes (len bytes - 2) = Some 13)))
      (ProtocolError "HTTP requires CRLF, not bare LF") ;;
    Ok (latin1 (subarray bytes 0 (len bytes - 2)), r)
  else line_loop fuel maxBytes parts size r.
Proof. done. Qed.

(** The buffered bytes up to and including LF, or all of them when there is none. *)
Lemma lf_part r : reader_ok r -> b_position r < len (b_buffer r) ->
  let lf := js_indexOf (b_buffer r) 10 (b_position r) in
  exists part r', consume r (if lf <? 0 then len (b_buffer r) else lf + 1) = (part, r') /\
    1 <= len part /\ pending r = part ++ pending r' /\ reader_ok r' /\
    (lf < 0 /\ 10 ∉ part \/ 0 <= lf /\ exists text, part = text ++ [10] /\ 10 ∉ text).
Proof.
  intros Hr Hlt lf. unfold js_indexOf in lf. pose proof Hr as Hr'. unfold reader_ok in Hr'.
  assert (Hlen : len (drop (Z.to_nat (b_position r)) (b_buffer r)) = len (b_buffer r) - b_position r)
    by (apply len_drop; lia).
  destruct (index_of_from_spec 10 (drop (Z.to_nat (b_position r)) (b_buffer r)) (b_position r))
    as [[Hlf Hn]|(a & b & Hab & Ha & Hlf)]; [lia| |]; fold lf in Hlf; rewrite Hlf.
  - cbn [Z.ltb Z.compare]. pose proof (consume_pending r (len (b_buffer r)) Hr ltac:(lia)) as Hc.
    destruct (consume r _) as [part r'] eqn:E. destruct Hc as (Hp & Hl & Hok). exists part, r'.
    split_and!; [done|lia|done|done|]. left. split; [lia|]. injection E as <- _.
    unfold subarray. rewrite take_ge; [done|]. unfold len in *. rewrite length_drop. lia.
  - rewrite Hab, len_app, len_cons in Hlen. pose proof (len_nonneg a). pose proof (len_nonneg b).
    destruct (Z.ltb_spec (b_position r + len a) 0); [lia|].
    pose proof (consume_pending r (b_position r + len a + 1) Hr ltac:(lia)) as Hc.
    destruct (consume r _) as [part r'] eqn:E. destruct Hc as (Hp & Hl & Hok). exists part, r'.
    split_and!; [done|lia|done|done|]. right. split; [lia|]. exists a. split; [|done].
    injection E as <- _. unfold subarray. rewrite Hab.
    replace (Z.to_nat _) with (length a + 1)%nat by (unfold len; lia).
    rewrite take_app_add. done.
Qed.

Lemma line_loop_spec fuel : forall maxBytes parts r,
  reader_ok r -> 10 ∉ concat parts -> (parts = [] \/ len (concat parts) <= maxBytes) ->
  (0 < fuel)%nat -> maxBytes - len (concat parts) < Z.of_nat fuel ->
  reads_line (line_loop fuel maxBytes parts (len (concat parts)) r)
    (line_of maxBytes (concat parts ++ pending r)).
Proof.
  induction fuel as [|fuel IH]; intros maxBytes parts r Hr Hn Hsize Hf0 Hfuel; [lia|].
  rewrite line_loop_unfold.
  destruct (refill_spec r Hr) as [(Hnil & ->)|(r1 & -> & Hr1 & Hp1 & Hlt)].
  - rewrite Hnil, app_nil_r. unfold reads_line, line_of. rewrite index_of_from_none by done.
    cbn [Z.ltb Z.compare mbind result_bind].
    destruct (Z.ltb_spec 0 (len (concat parts))), (Z.ltb_spec maxBytes (len (concat parts))); try done.
    destruct Hsize as [->|?]; [|lia]. cbn [concat] in *. rewrite (@len_nil Z) in *. lia.
  - cbn [mbind result_bind]. rewrite <- Hp1. clear Hr Hp1 r.
    destruct (lf_part r1 Hr1 Hlt) as (part & r2 & -> & Hlp & Hp & Hr2 & Hlf). rewrite Hp, app_assoc.
    assert (Hc : len (concat parts) + len part = len (concat (parts ++ [part]))).
    { rewrite concat_app, len_app. cbn. by rewrite app_nil_r. }
    assert (Hcc : concat parts ++ part = concat (parts ++ [part])).
    { rewrite concat_app. cbn. by rewrite app_nil_r. }
    cbv zeta. pose proof (len_nonneg (concat parts)).
    destruct Hlf as [(Hneg & Hnp)|(Hpos & text & -> & Hnt)].
    + destruct (Z.leb_spec 0 (js_indexOf (b_buffer r1) 10 (b_position r1))); [lia|].
      rewrite Hc, Hcc. assert (Hn2 : 10 ∉ concat (parts ++ [part])) by (rewrite <- Hcc; set_solver).
      destruct (Z.ltb_spec maxBytes (len (concat (parts ++ [part])))) as [Hbig|Hfits].
      * rewrite line_of_long by (done || lia). done.
      * cbn [throw_if mbind result_bind]. apply IH; [done|done|by right|lia|lia].
    + destruct (Z.leb_spec 0 (js_indexOf (b_buffer r1) 10 (b_position r1))); [|lia].
      rewrite <- app_assoc, <- (app_assoc text).
      cbn [app]. rewrite app_assoc.
      assert (Hnct : 10 ∉ concat parts ++ text) by set_solver.
      assert (Hl1 : len (text ++ [10]) = len text + 1) by by rewrite len_app.
      destruct (Z.ltb_spec maxBytes (len (concat parts) + len (text ++ [10]))) as [Hbig|Hfits].
      * rewrite line_of_over by (rewrite ?len_app; done || lia). exact eq_refl.
      * cbn [throw_if]. rewrite line_of_found by (rewrite ?len_app; done || lia).
        change (mbind ?f (Ok tt)) with (f tt). cbv beta.
        rewrite concatBytes_parts by (rewrite <- Hc; lia). cbn [mbind result_bind].
        rewrite <- Hcc, app_assoc. cbv zeta. destruct (_ || _); [done|].
        cbn [throw_if]. unfold reads_line. cbn [mbind result_bind]. by exists r2.
Qed.

Lemma line_spec maxBytes r : reader_ok r ->
  reads_line (line maxBytes r) (line_of maxBytes (pending r)).
Proof.
  intros Hr. apply (line_loop_spec _ maxBytes [] r); [done|set_solver|by left|lia|].
  cbn [concat]. rewrite (@len_nil Z). lia.
Qed.
End LineTheory.

(** ** Writing *)

Section WriteTheory.
Context {T : Type} `{Transport T}.

Lemma writeAll_loop_spec fuel : forall data offset c,
  0 <= offset <= len data -> len data - offset <= Z.of_nat fuel ->
  exists c', writeAll_loop fuel data offset c = Ok c' /\ incoming c' = incoming c /\
    outgoing c' = outgoing c ++ drop (Z.to_nat offset) data.
Proof.
  induction fuel as [|fuel IH]; intros data offset c Ho Hf; cbn [writeAll_loop].
  - destruct (Z.ltb_spec offset (len data)); [lia|]. exists c.
    rewrite drop_ge, app_nil_r by (unfold len in *; lia). done.
  - destruct (Z.ltb_spec offset (len data)) as [Hlt|].
    2: { exists c. rewrite drop_ge, app_nil_r by (unfold len in *; lia). done. }
    set (part := subarray data offset (Z.min (offset + 65536) (len data))).
    assert (Hpart : len part = Z.min 65536 (len data - offset)).
    { subst part. unfold subarray. rewrite len_take; [lia|]. rewrite len_drop; lia. }
    destruct (write_contract part c) as (n & c1 & -> & Hn & Hout & Hin).
    { intros E. rewrite E, (@len_nil Z) in Hpart. lia. }
    cbn [mbind result_bind]. destruct (Z.leb_spec n 0), (Z.ltb_spec (len part) n); try lia.
    cbn [orb throw_if mbind result_bind].
    destruct (IH data (offset + n) c1) as (c2 & -> & Hin2 & Hout2); [lia|lia|].
    exists c2. split; [done|]. split; [congruence|].
    rewrite Hout2, Hout, <- app_assoc. f_equal. subst part. unfold subarray.
    rewrite take_take. replace (Nat.min _ _) with (Z.to_nat n) by lia. apply take_drop_add; lia.
Qed.
End WriteTheory.

(** ** Properties *)

(** Reading an exact number of bytes does not depend on how the transport
    chunks them.  On every transport that keeps its contract and at every state
    of the reader, [exact(n)] returns the next [n] bytes of the stream (buffered
    bytes first) and leaves exactly the rest to be read, or throws "Unexpected
    EOF" when the stream ends before. *)
Theorem reader_exact_stream {T} `{Transport T} (r : BufferedReader T) n :
  reader_ok r -> 0 <= n <= MAX_SAFE_INTEGER ->
  (n <= len (pending r) -> exists r', exact n r = Ok (take (Z.to_nat n) (pending r), r') /\
    pending r' = drop (Z.to_nat n) (pending r) /\ reader_ok r') /\
  (len (pending r) < n -> exact n r = Err (ProtocolError "Unexpected EOF")).
Proof. intros. by apply exact_spec. Qed.

(** Reading a line does not depend on the chunking either.  [line(maxBytes)]
    is the function [line_of] of the stream: the text before the first CRLF, with
    the rest left to be read; a limit error as soon as the line with its ending is
    longer than [maxBytes]; a protocol error for a bare LF or an end of stream. *)
Theorem reader_line_stream {T} `{Transport T} (r : BufferedReader T) maxBytes :
  reader_ok r -> reads_line (line maxBytes r) (line_of maxBytes (pending r)).
Proof. apply line_spec. Qed.

(** [writeAll] sends all of the data, in order and once, over any transport
    that accepts a nonempty prefix of what it is given, and never gives up. *)
Theorem writeAll_sends_all {T} `{Transport T} (c : T) data :
  exists c', writeAll c data = Ok c' /\ outgoing c' = outgoing c ++ data /\ incoming c' = incoming c.
Proof.
  destruct (writeAll_loop_spec (length data) data 0 c) as (c' & Hrun & Hin & Hout);
    [pose proof (len_nonneg data); lia|unfold len; lia|]. by exists c'.
Qed.

Lemma reader_exact_stream_witness :
  exists r', exact 4 (new_BufferedReader example_script) = Ok ([71; 69; 84; 13], r') /\
    pending r' = [10; 1; 2; 3].
Proof.
  destruct (reader_exact_stream (new_BufferedReader example_script) 4) as [H _].
  - by_computing.
  - vm_compute. split; congruence.
  - destruct H as (r' & H1 & H2 & _); [by vm_compute|]. exists r'. exact (conj H1 H2).
Defined.

Lemma reader_line_stream_witness :
  exists r', line 5 (new_BufferedReader example_script) = Ok (u "GET", r') /\ pending r' = [1; 2; 3].
Proof.
  pose proof (reader_line_stream (new_BufferedReader example_script) 5) as H.
  destruct H as (r' & H1 & H2 & _); [by_computing|]. exists r'. exact (conj H1 H2).
Defined.

Lemma writeAll_sends_all_witness :
  exists c', writeAll example_script (u "HELLO") = Ok c' /\ outgoing c' = u "HELLO".
Proof.
  destruct (writeAll_sends_all example_script (u "HELLO")) as (c' & H1 & H2 & _).
  exists c'. exact (conj H1 H2).
Defined.
