(* ===== verification/ReaderGrammar.v ===== *)
(** * Reading as parsing

    What a computation over a [BufferedReader] returns and leaves, stated as a
    grammar of the bytes pending in it, with the combinators that compose such
    statements along the sequence of reads. *)

From S2P Require Import Prelude Encoding Io.

(** A reader computation that returns [a] and leaves [rest] exactly when [G a rest]. *)
Definition parses {T A} `{Transport T} (m : result (A * BufferedReader T)) (G : A -> list Z -> Prop) : Prop :=
  (forall a r', m = Ok (a, r') -> reader_ok r' /\ G a (pending r')) /\
  (forall a rest, G a rest -> exists r', m = Ok (a, r') /\ pending r' = rest /\ reader_ok r') /\
  finishes m.

Definition crlf (text : jsstr) : list Z := text ++ [13; 10].

(** ** Lines *)

Lemma line_of_iff maxBytes bytes text rest : is_bytes bytes ->
  line_of maxBytes bytes = Ok (text, rest) <-> bytes = crlf text ++ rest /\ 10 ∉ text /\ len text + 2 <= maxBytes.
Proof.
  intros Hb. assert (Hrun : forall t x b, 10 ∉ t -> x <> 10 -> bytes = t ++ x :: 10 :: b ->
    line_of maxBytes bytes = if maxBytes <? len t + 2 then Err (LimitError "HTTP line exceeds configured limit")
      else if x =? 13 then Ok (t, b) else Err (ProtocolError "HTTP requires CRLF, not bare LF")).
  { intros t x b Ht Hx E. pose proof (len_nonneg t). unfold line_of. rewrite E.
    replace (t ++ x :: 10 :: b) with ((t ++ [x]) ++ 10 :: b) by by rewrite <- app_assoc.
    rewrite index_of_from_app by set_solver. rewrite Z.add_0_l, len_app. change (len [x]) with 1.
    destruct (Z.ltb_spec (len t + 1) 0); [lia|]. rewrite <- Z.add_assoc. change (1 + 1) with 2.
    destruct (maxBytes <? len t + 2); [done|]. destruct (Z.ltb_spec (len t + 1) 1).
    { assert (len t = 0) by lia. lia. }
    cbn [orb]. rewrite Z.add_simpl_r, <- app_assoc. cbn [app]. rewrite at_app_mid.
    destruct (Z.eqb_spec x 13) as [->|Hx13].
    - rewrite bool_decide_eq_true_2 by done. cbn [negb]. f_equal. f_equal.
      + unfold len. rewrite Nat2Z.id, take_app_length. apply latin1_bytes. rewrite E in Hb. by apply Forall_app in Hb as [Hb _].
      + replace (Z.to_nat (len t + 2)) with (length t + 2)%nat by (unfold len; lia). by rewrite drop_app_add.
    - by rewrite bool_decide_eq_false_2 by congruence. }
  split.
  - intros H. destruct (index_of_from_spec 10 bytes 0) as [[Hi _]|(a & b & E & Ha & _)]; [lia| |].
    { unfold line_of in H. rewrite Hi in H. cbn [Z.ltb Z.compare] in H. by destruct ((0 <? len bytes) && (maxBytes <? len bytes)). }
    destruct a as [|x t _] using rev_ind.
    { unfold line_of in H. rewrite E in H. cbn in H. by destruct (maxBytes <? 0 + 1). }
    rewrite <- app_assoc in E. cbn [app] in E. rewrite (Hrun t x b) in H by (done || set_solver).
    destruct (Z.ltb_spec maxBytes (len t + 2)); [done|]. destruct (Z.eqb_spec x 13) as [->|]; [|done]. injection H as <- <-.
    split; [|split; [set_solver|lia]]. rewrite E. unfold crlf. by rewrite <- app_assoc.
  - intros (E & Ht & Hm). unfold crlf in E. rewrite <- app_assoc in E. rewrite (Hrun text 13 rest) by done.
    by destruct (Z.ltb_spec maxBytes (len text + 2)); [lia|].
Qed.

Lemma line_of_finishes maxBytes bytes : finishes (line_of maxBytes bytes).
Proof. unfold line_of. repeat case_match; done. Qed.

Section ReaderGrammars.
Context {T : Type} `{Transport T}.
Implicit Types r : BufferedReader T.

Lemma line_parses maxBytes r : reader_ok r -> is_bytes (pending r) ->
  parses (line maxBytes r) (fun text rest => pending r = crlf text ++ rest /\ 10 ∉ text /\ len text + 2 <= maxBytes).
Proof.
  intros Hr Hb. pose proof (line_spec maxBytes r Hr) as Hline. split_and!.
  - intros text r' E. rewrite <- line_of_iff by done. unfold reads_line in Hline.
    destruct (line_of maxBytes (pending r)) as [[t rest]|e]; [|congruence].
    destruct Hline as (r1 & E1 & <- & Hr1). rewrite E in E1. by injection E1 as -> ->.
  - intros text rest HG. apply line_of_iff in HG; [|done]. unfold reads_line in Hline. by rewrite HG in Hline.
  - pose proof (line_of_finishes maxBytes (pending r)) as Hf. unfold reads_line in Hline.
    destruct (line_of maxBytes (pending r)) as [[t rest]|e]; [|rewrite Hline; intros [= ->]; by apply Hf].
    by destruct Hline as (r1 & -> & _).
Qed.

Lemma exact_parses n r : reader_ok r -> 0 <= n <= MAX_SAFE_INTEGER ->
  parses (exact n r) (fun bytes rest => pending r = bytes ++ rest /\ len bytes = n).
Proof.
  intros Hr Hn. destruct (exact_spec n r Hr Hn) as [Hok Herr]. destruct (Z.le_gt_cases n (len (pending r))) as [Hl|Hl].
  - destruct (Hok Hl) as (r' & E & Hp & Hr'). split_and!.
    + intros a r1 E1. rewrite E in E1. injection E1 as <- <-. split; [done|]. rewrite Hp, take_drop. split; [done|apply len_take; lia].
    + intros a rest [Ep Ha]. exists r'. rewrite E, Hp, Ep in *.
      replace (Z.to_nat n) with (length a) by (unfold len in Ha; lia). by rewrite take_app_length, drop_app_length.
    + by rewrite E.
  - rewrite (Herr Hl). split_and!; [done| |done]. intros a rest [Ep Ha]. rewrite Ep, len_app in Hl. pose proof (len_nonneg rest). lia.
Qed.

(** Sequencing: the second computation reads what the first leaves. *)
Lemma reader_bind {A B} (m : result (A * BufferedReader T)) (k : A -> BufferedReader T -> result (B * BufferedReader T)) G G' :
  parses m G -> (forall a r', G a (pending r') -> reader_ok r' -> parses (k a r') (G' a (pending r'))) ->
  parses ('(a, r') ← m; k a r') (fun b rest => exists a mid, G a mid /\ G' a mid b rest).
Proof.
  intros (Hs & Hc & Hf) Hk. split_and!.
  - intros b r' E. apply bind_Ok in E as ([a r1] & E1 & E2). destruct (Hs a r1 E1) as [Hr1 HG].
    destruct (Hk a r1 HG Hr1) as (Hs' & _). destruct (Hs' b r' E2) as [Hr' HG']. split; [done|]. by exists a, (pending r1).
  - intros b rest (a & mid & HG & HG'). destruct (Hc a mid HG) as (r1 & -> & <- & Hr1).
    destruct (Hk a r1 HG Hr1) as (_ & Hc' & _). by apply Hc'.
  - apply finishes_bind; [done|]. intros [a r1] E1. destruct (Hs a r1 E1) as [Hr1 HG]. by destruct (Hk a r1 HG Hr1) as (_ & _ & Hf').
Qed.

(** A check of what was read. *)
Lemma reader_check {A B} (m : result A) r (P : A -> Prop) (k : A -> result (B * BufferedReader T)) G :
  (forall a, m = Ok a <-> P a) -> finishes m -> (forall a, P a -> parses (k a) (G a)) ->
  parses (m ≫= k) (fun b rest => exists a, P a /\ G a b rest).
Proof.
  intros Hm Hf Hk. split_and!.
  - intros b r' E. apply bind_Ok in E as (a & E1 & E2). apply Hm in E1. destruct (Hk a E1) as (Hs & _).
    destruct (Hs b r' E2) as [Hr' HG]. split; [done|]. by exists a.
  - intros b rest (a & HP & HG). apply Hm in HP as E. rewrite E. cbn [mbind result_bind]. by apply (Hk a HP).
  - apply finishes_bind; [done|]. intros a E. apply Hm in E. by apply Hk.
Qed.

Lemma reader_ret {A} (a : A) r : reader_ok r -> parses (Ok (a, r)) (fun b rest => b = a /\ rest = pending r).
Proof. intros Hr. split_and!; [by intros b r' [= <- <-]|intros b rest [-> ->]; by exists r|done]. Qed.

Lemma reader_err {A} e : e <> OutOfFuel -> parses (T := T) (A := A) (Err e) (fun _ _ => False).
Proof. intros He. split_and!; [done|done|]. by intros [= ->]. Qed.

Lemma reader_iff {A} (m : result (A * BufferedReader T)) G G' :
  (forall a rest, G a rest <-> G' a rest) -> parses m G -> parses m G'.
Proof.
  intros HG (Hs & Hc & Hf). split_and!; [|intros a rest Ha; apply Hc; by apply HG|done].
  intros a r' E. destruct (Hs a r' E) as [Hr Ha]. split; [done|]. by apply HG.
Qed.
End ReaderGrammars.
