(* ===== verification/Frame.v ===== *)
(** * HTTP/2 frames ([http2/frame.ts])

    The frame envelope, the payload parsers and writers of every frame type, and
    [Http2HeaderBlockAssembler], which joins HEADERS and CONTINUATION frames. *)

From S2P Require Import Prelude Encoding Io.

Definition HTTP2_FRAME_DATA : Z := 0.
Definition HTTP2_FRAME_HEADERS : Z := 1.
Definition HTTP2_FRAME_PRIORITY : Z := 2.
Definition HTTP2_FRAME_RST_STREAM : Z := 3.
Definition HTTP2_FRAME_SETTINGS : Z := 4.
Definition HTTP2_FRAME_PUSH_PROMISE : Z := 5.
Definition HTTP2_FRAME_PING : Z := 6.
Definition HTTP2_FRAME_GOAWAY : Z := 7.
Definition HTTP2_FRAME_WINDOW_UPDATE : Z := 8.
Definition HTTP2_FRAME_CONTINUATION : Z := 9.

Definition HTTP2_FLAG_END_STREAM : Z := 1.
Definition HTTP2_FLAG_ACK : Z := 1.
Definition HTTP2_FLAG_END_HEADERS : Z := 4.
Definition HTTP2_FLAG_PADDED : Z := 8.
Definition HTTP2_FLAG_PRIORITY : Z := 32.

Definition HTTP2_NO_ERROR : Z := 0.
Definition HTTP2_PROTOCOL_ERROR : Z := 1.
Definition HTTP2_INTERNAL_ERROR : Z := 2.
Definition HTTP2_FLOW_CONTROL_ERROR : Z := 3.
Definition HTTP2_SETTINGS_TIMEOUT : Z := 4.
Definition HTTP2_STREAM_CLOSED : Z := 5.
Definition HTTP2_FRAME_SIZE_ERROR : Z := 6.
Definition HTTP2_REFUSED_STREAM : Z := 7.
Definition HTTP2_CANCEL : Z := 8.
Definition HTTP2_COMPRESSION_ERROR : Z := 9.
Definition HTTP2_ENHANCE_YOUR_CALM : Z := 11.

Definition HTTP2_SETTING_HEADER_TABLE_SIZE : Z := 1.
Definition HTTP2_SETTING_ENABLE_PUSH : Z := 2.
Definition HTTP2_SETTING_MAX_CONCURRENT_STREAMS : Z := 3.
Definition HTTP2_SETTING_INITIAL_WINDOW_SIZE : Z := 4.
Definition HTTP2_SETTING_MAX_FRAME_SIZE : Z := 5.
Definition HTTP2_SETTING_MAX_HEADER_LIST_SIZE : Z := 6.
Definition HTTP2_SETTING_ENABLE_CONNECT_PROTOCOL : Z := 8.

Definition HTTP2_DEFAULT_FRAME_SIZE : Z := 16384.
Definition HTTP2_MAX_FRAME_SIZE : Z := 0xffffff.
Definition HTTP2_DEFAULT_WINDOW_SIZE : Z := 65535.
Definition HTTP2_MAX_WINDOW_SIZE : Z := 0x7fffffff.

Record Http2Frame := mk_frame {
  fr_type : Z;
  fr_flags : Z;
  fr_streamId : Z;
  fr_payload : list Z;
}.

Record Http2Setting := mk_setting {
  identifier : Z;
  set_value : Z;
}.

Record Http2Priority := mk_priority {
  exclusive : bool;
  streamDependency : Z;
  weight : Z;
}.

Record Http2DataPayload := mk_data {
  dp_data : list Z;
  dp_paddingBytes : Z;
}.

Record Http2HeadersPayload := mk_headers {
  hp_fragment : list Z;
  hp_paddingBytes : Z;
  hp_priority : option Http2Priority;
}.

Record Http2PushPromisePayload := mk_push {
  pp_promisedStreamId : Z;
  pp_fragment : list Z;
  pp_paddingBytes : Z;
}.

Record Http2GoAwayPayload := mk_goaway {
  ga_lastStreamId : Z;
  ga_errorCode : Z;
  ga_debugData : list Z;
}.

Inductive header_block_kind := kind_headers | kind_push_promise.

Record Http2HeaderBlock := mk_block {
  hb_kind : header_block_kind;
  hb_streamId : Z;
  hb_endStream : bool;
  hb_promisedStreamId : option Z;
  hb_priority : option Http2Priority;
  hb_block : list Z;
}.

(** ** Checks *)

Definition requireByte (value : Z) (name : string) : result unit :=
  throw_if ((value <? 0) || (255 <? value)) (RangeError (name +:+ " must be an unsigned byte")).

Definition requireStreamId (value : Z) : result unit :=
  throw_if ((value <? 0) || (HTTP2_MAX_WINDOW_SIZE <? value))
    (RangeError "HTTP/2 stream identifier is outside the 31-bit range").

Definition requireFrameLimit (value : Z) : result unit :=
  throw_if ((value <? HTTP2_DEFAULT_FRAME_SIZE) || (HTTP2_MAX_FRAME_SIZE <? value))
    (RangeError "HTTP/2 maximum frame size is outside the permitted range").

Definition frameSizeError (message : string) : js_error :=
  Http2WireError message HTTP2_FRAME_SIZE_ERROR None.

Definition protocolError (message : string) : js_error :=
  Http2WireError message HTTP2_PROTOCOL_ERROR None.

Definition readUint32 (bytes : list Z) (offset : Z) : result Z :=
  match at_ bytes offset, at_ bytes (offset + 1), at_ bytes (offset + 2), at_ bytes (offset + 3) with
  | Some a, Some b, Some c, Some d => Ok (a * 0x1000000 + b * 0x10000 + c * 0x100 + d)
  | _, _, _, _ => Err (frameSizeError "Truncated HTTP/2 integer")
  end.

Definition writeUint32 (bytes : list Z) (offset value : Z) : list Z :=
  let bytes := set_u8 bytes offset ((value / 0x1000000) .& 255) in
  let bytes := set_u8 bytes (offset + 1) ((value / 0x10000) .& 255) in
  let bytes := set_u8 bytes (offset + 2) ((value / 0x100) .& 255) in
  set_u8 bytes (offset + 3) (value .& 255).

(** [output.set(input, offset)] throws when the input does not fit. *)
Definition copyInto (output : list Z) (offset : Z) (input : list Z) : result (list Z) :=
  if len output <? offset + len input then Err (RangeError "offset is out of bounds")
  else Ok (set_range output offset input).

Definition requireConnectionFrame (frame : Http2Frame) (name : string) : result unit :=
  throw_if (negb (fr_streamId frame =? 0)) (protocolError (name +:+ " frame used a stream identifier")).

Definition requireStreamFrame (frame : Http2Frame) (name : string) : result unit :=
  throw_if (fr_streamId frame =? 0) (protocolError (name +:+ " frame used stream zero")).

Definition requireLength (frame : Http2Frame) (length : Z) (name : string) : result unit :=
  throw_if (negb (len (fr_payload frame) =? length))
    (frameSizeError (name +:+ " frame has an invalid length")).

Record padded_range := mk_range {
  r_start : Z;
  r_end : Z;
  r_paddingBytes : Z;
}.

Definition paddedRange (payload : list Z) (offset : Z) (padded : bool) : result padded_range :=
  '(start, paddingBytes) ←
    (if padded then
       match at_ payload 0 with
       | None => Err (frameSizeError "Padded HTTP/2 frame has no pad length")
       | Some count => Ok (offset + 1, count)
       end
     else Ok (offset, 0));
  let e := len payload - paddingBytes in
  throw_if (e <? start) (protocolError "HTTP/2 padding exceeds the frame payload") ;;
  Ok (mk_range start e paddingBytes).

Definition has_flag (frame : Http2Frame) (flag : Z) : bool := negb (fr_flags frame .& flag =? 0).

(** ** Payloads *)

Definition parseHttp2Data (frame : Http2Frame) : result Http2DataPayload :=
  requireStreamFrame frame "DATA" ;;
  range ← paddedRange (fr_payload frame) 0 (has_flag frame HTTP2_FLAG_PADDED);
  Ok (mk_data (subarray (fr_payload frame) (r_start range) (r_end range)) (r_paddingBytes range)).

Definition parsePriorityFields (payload : list Z) (offset : Z) : result Http2Priority :=
  rawDependency ← readUint32 payload offset;
  Ok (mk_priority (0x80000000 <=? rawDependency) (rawDependency .& HTTP2_MAX_WINDOW_SIZE)
        (at_or 0 payload (offset + 4) + 1)).

Definition requireNonSelfDependency (priority : Http2Priority) (ownStreamId : Z) : result unit :=
  throw_if (streamDependency priority =? ownStreamId)
    (Http2WireError "HTTP/2 stream depends on itself" HTTP2_PROTOCOL_ERROR (Some ownStreamId)).

Definition parseHttp2Priority (frame : Http2Frame) : result Http2Priority :=
  requireStreamFrame frame "PRIORITY" ;;
  requireLength frame 5 "PRIORITY" ;;
  priority ← parsePriorityFields (fr_payload frame) 0;
  requireNonSelfDependency priority (fr_streamId frame) ;;
  Ok priority.

Definition parseHttp2Headers (frame : Http2Frame) : result Http2HeadersPayload :=
  requireStreamFrame frame "HEADERS" ;;
  range ← paddedRange (fr_payload frame) 0 (has_flag frame HTTP2_FLAG_PADDED);
  '(start, priority) ←
    (if has_flag frame HTTP2_FLAG_PRIORITY then
       throw_if (r_end range - r_start range <? 5)
         (frameSizeError "HEADERS priority fields are truncated") ;;
       priority ← parsePriorityFields (fr_payload frame) (r_start range);
       Ok (r_start range + 5, Some priority)
     else Ok (r_start range, None));
  Ok (mk_headers (subarray (fr_payload frame) start (r_end range)) (r_paddingBytes range) priority).

Definition parseHttp2PushPromise (frame : Http2Frame) : result Http2PushPromisePayload :=
  requireStreamFrame frame "PUSH_PROMISE" ;;
  range ← paddedRange (fr_payload frame) 0 (has_flag frame HTTP2_FLAG_PADDED);
  throw_if (r_end range - r_start range <? 4)
    (frameSizeError "PUSH_PROMISE stream identifier is truncated") ;;
  raw ← readUint32 (fr_payload frame) (r_start range);
  let promisedStreamId := raw .& HTTP2_MAX_WINDOW_SIZE in
  throw_if (promisedStreamId =? 0) (protocolError "PUSH_PROMISE used promised stream zero") ;;
  Ok (mk_push promisedStreamId (subarray (fr_payload frame) (r_start range + 4) (r_end range))
        (r_paddingBytes range)).

Definition validateHttp2Setting (identifier value : Z) : result unit :=
  throw_if (((identifier =? HTTP2_SETTING_ENABLE_PUSH)
             || (identifier =? HTTP2_SETTING_ENABLE_CONNECT_PROTOCOL))
            && negb (value =? 0) && negb (value =? 1))
    (protocolError "HTTP/2 boolean setting is neither zero nor one") ;;
  throw_if ((identifier =? HTTP2_SETTING_INITIAL_WINDOW_SIZE) && (HTTP2_MAX_WINDOW_SIZE <? value))
    (Http2WireError "HTTP/2 initial window exceeds the signed 31-bit range"
       HTTP2_FLOW_CONTROL_ERROR None) ;;
  throw_if ((identifier =? HTTP2_SETTING_MAX_FRAME_SIZE)
            && ((value <? HTTP2_DEFAULT_FRAME_SIZE) || (HTTP2_MAX_FRAME_SIZE <? value)))
    (protocolError "HTTP/2 maximum frame setting is outside the permitted range").

(** The offsets [0, 6, 12, ...] below the payload's length. *)
Definition parse_setting (payload : list Z) (settings : list Http2Setting) (offset : Z)
    : result (list Http2Setting) :=
  let identifier := at_or 0 payload offset * 0x100 + at_or 0 payload (offset + 1) in
  value ← readUint32 payload (offset + 2);
  validateHttp2Setting identifier value ;;
  Ok (settings ++ [mk_setting identifier value]).

Definition offsets (n : Z) : list Z := Z.mul 6 <$> seqZ 0 (n / 6).

Definition parseHttp2Settings (frame : Http2Frame) : result (list Http2Setting) :=
  requireConnectionFrame frame "SETTINGS" ;;
  throw_if (has_flag frame HTTP2_FLAG_ACK && negb (len (fr_payload frame) =? 0))
    (frameSizeError "Acknowledged SETTINGS frame has a payload") ;;
  throw_if (negb (len (fr_payload frame) mod 6 =? 0))
    (frameSizeError "SETTINGS payload is not a sequence of pairs") ;;
  foldM (parse_setting (fr_payload frame)) [] (offsets (len (fr_payload frame))).

Definition parseHttp2WindowUpdate (frame : Http2Frame) : result Z :=
  requireLength frame 4 "WINDOW_UPDATE" ;;
  raw ← readUint32 (fr_payload frame) 0;
  let increment := raw .& HTTP2_MAX_WINDOW_SIZE in
  throw_if (increment =? 0)
    (Http2WireError "HTTP/2 window increment is zero" HTTP2_PROTOCOL_ERROR
       (if fr_streamId frame =? 0 then None else Some (fr_streamId frame))) ;;
  Ok increment.

Definition parseHttp2GoAway (frame : Http2Frame) : result Http2GoAwayPayload :=
  requireConnectionFrame frame "GOAWAY" ;;
  throw_if (len (fr_payload frame) <? 8) (frameSizeError "GOAWAY frame is truncated") ;;
  raw ← readUint32 (fr_payload frame) 0;
  errorCode ← readUint32 (fr_payload frame) 4;
  Ok (mk_goaway (raw .& HTTP2_MAX_WINDOW_SIZE) errorCode
        (subarray (fr_payload frame) 8 (len (fr_payload frame)))).

Definition parseHttp2RstStream (frame : Http2Frame) : result Z :=
  requireStreamFrame frame "RST_STREAM" ;;
  requireLength frame 4 "RST_STREAM" ;;
  readUint32 (fr_payload frame) 0.

(** The [switch] on the frame type; an unknown type is accepted. *)
Definition validate_payload (frame : Http2Frame) : result unit :=
  let t := fr_type frame in
  if t =? HTTP2_FRAME_DATA then parseHttp2Data frame ;; Ok tt
  else if t =? HTTP2_FRAME_HEADERS then
    headers ← parseHttp2Headers frame;
    match hp_priority headers with
    | Some priority => requireNonSelfDependency priority (fr_streamId frame)
    | None => Ok tt
    end
  else if t =? HTTP2_FRAME_PRIORITY then parseHttp2Priority frame ;; Ok tt
  else if t =? HTTP2_FRAME_RST_STREAM then parseHttp2RstStream frame ;; Ok tt
  else if t =? HTTP2_FRAME_SETTINGS then parseHttp2Settings frame ;; Ok tt
  else if t =? HTTP2_FRAME_PUSH_PROMISE then parseHttp2PushPromise frame ;; Ok tt
  else if t =? HTTP2_FRAME_PING then
    requireConnectionFrame frame "PING" ;; requireLength frame 8 "PING"
  else if t =? HTTP2_FRAME_GOAWAY then parseHttp2GoAway frame ;; Ok tt
  else if t =? HTTP2_FRAME_WINDOW_UPDATE then parseHttp2WindowUpdate frame ;; Ok tt
  else if t =? HTTP2_FRAME_CONTINUATION then requireStreamFrame frame "CONTINUATION"
  else Ok tt.

Definition validateHttp2Frame (frame : Http2Frame) (maximumFrameSize : Z) : result unit :=
  requireByte (fr_type frame) "HTTP/2 frame type" ;;
  requireByte (fr_flags frame) "HTTP/2 frame flags" ;;
  requireStreamId (fr_streamId frame) ;;
  requireFrameLimit maximumFrameSize ;;
  throw_if (maximumFrameSize <? len (fr_payload frame))
    (frameSizeError "HTTP/2 frame exceeds local limit") ;;
  validate_payload frame.

(** ** The envelope *)

Definition encodeHttp2Frame (frame : Http2Frame) (maximumFrameSize : Z) : result (list Z) :=
  requireByte (fr_type frame) "HTTP/2 frame type" ;;
  requireByte (fr_flags frame) "HTTP/2 frame flags" ;;
  requireStreamId (fr_streamId frame) ;;
  requireFrameLimit maximumFrameSize ;;
  let length := len (fr_payload frame) in
  throw_if (maximumFrameSize <? length)
    (LimitError "HTTP/2 frame exceeds the peer maximum frame size") ;;
  validateHttp2Frame frame maximumFrameSize ;;
  let output := zeros (9 + length) in
  let output := set_u8 output 0 ((length / 0x10000) .& 255) in
  let output := set_u8 output 1 ((length / 0x100) .& 255) in
  let output := set_u8 output 2 (length .& 255) in
  let output := set_u8 output 3 (fr_type frame) in
  let output := set_u8 output 4 (fr_flags frame) in
  let output := writeUint32 output 5 (fr_streamId frame) in
  copyInto output 9 (fr_payload frame).

Definition frame_length (bytes : list Z) : Z :=
  at_or 0 bytes 0 * 0x10000 + at_or 0 bytes 1 * 0x100 + at_or 0 bytes 2.

Definition decodeHttp2Frame (bytes : list Z) (maximumFrameSize : Z) : result Http2Frame :=
  requireFrameLimit maximumFrameSize ;;
  throw_if (len bytes <? 9) (frameSizeError "Truncated HTTP/2 frame header") ;;
  let length := frame_length bytes in
  throw_if (maximumFrameSize <? length)
    (frameSizeError "HTTP/2 frame exceeds the local maximum size") ;;
  throw_if (negb (len bytes =? length + 9))
    (frameSizeError "HTTP/2 frame length does not match its payload") ;;
  streamId ← readUint32 bytes 5;
  let frame := mk_frame (at_or 0 bytes 3) (at_or 0 bytes 4) (streamId .& HTTP2_MAX_WINDOW_SIZE)
                 (subarray bytes 9 (len bytes)) in
  validateHttp2Frame frame maximumFrameSize ;;
  Ok frame.

(** A stream error is kept for the connection, every other one is thrown. *)
Definition keep_stream_error (r : result unit) : result unit :=
  match r with
  | Err (Http2WireError _ _ (Some _)) => Ok tt
  | r => r
  end.

Section ReadFrame.
Context {T : Type} `{ByteConnection T}.

Definition readHttp2Frame (maximumFrameSize : Z) : ST (BufferedReader T) Http2Frame :=
  st_lift (requireFrameLimit maximumFrameSize) ;;
  header ← exact 9;
  let length := frame_length header in
  st_lift (throw_if (maximumFrameSize <? length)
    (frameSizeError "HTTP/2 frame exceeds the local maximum size")) ;;
  payload ← exact length;
  streamId ← st_lift (readUint32 header 5);
  let frame := mk_frame (at_or 0 header 3) (at_or 0 header 4) (streamId .& HTTP2_MAX_WINDOW_SIZE) payload in
  st_lift (keep_stream_error (validateHttp2Frame frame maximumFrameSize)) ;;
  mret frame.
End ReadFrame.

(** ** Writing payloads *)

(** One iteration of the loop: the settings array has no holes. *)
Definition write_setting (st : list Z * Z) (setting : Http2Setting) : result (list Z * Z) :=
  let '(payload, index) := st in
  throw_if ((identifier setting <? 0) || (65535 <? identifier setting))
    (RangeError "HTTP/2 setting identifier is outside the 16-bit range") ;;
  throw_if ((set_value setting <? 0) || (0xffffffff <? set_value setting))
    (RangeError "HTTP/2 setting value is outside the 32-bit range") ;;
  validateHttp2Setting (identifier setting) (set_value setting) ;;
  let offset := index * 6 in
  let payload := set_u8 payload offset (identifier setting / 0x100) in
  let payload := set_u8 payload (offset + 1) (identifier setting .& 255) in
  Ok (writeUint32 payload (offset + 2) (set_value setting), index + 1).

Definition encodeHttp2Settings (settings : list Http2Setting) : result (list Z) :=
  st ← foldM write_setting (zeros (len settings * 6), 0) settings;
  Ok st.1.

Definition encodeHttp2WindowUpdate (increment : Z) : result (list Z) :=
  throw_if ((increment <? 1) || (HTTP2_MAX_WINDOW_SIZE <? increment))
    (RangeError "HTTP/2 window increment is outside the signed 31-bit range") ;;
  Ok (writeUint32 (zeros 4) 0 increment).

Definition encodeHttp2ErrorCode (errorCode : Z) : result (list Z) :=
  throw_if ((errorCode <? 0) || (0xffffffff <? errorCode))
    (RangeError "HTTP/2 error code is outside the 32-bit range") ;;
  Ok (writeUint32 (zeros 4) 0 errorCode).

Definition encodeHttp2GoAway (lastStreamId errorCode : Z) (debugData : list Z) : result (list Z) :=
  requireStreamId lastStreamId ;;
  throw_if ((errorCode <? 0) || (0xffffffff <? errorCode))
    (RangeError "HTTP/2 error code is outside the 32-bit range") ;;
  let payload := zeros (8 + len debugData) in
  let payload := writeUint32 payload 0 lastStreamId in
  let payload := writeUint32 payload 4 errorCode in
  copyInto payload 8 debugData.

(** ** The header block assembler *)

Record PendingHeaderBlock := mk_pending {
  pb_kind : header_block_kind;
  pb_streamId : Z;
  pb_endStream : bool;
  pb_promisedStreamId : option Z;
  pb_priority : option Http2Priority;
  pb_fragments : list (list Z);
  pb_bytes : Z;
}.

Record Http2HeaderBlockAssembler := mk_assembler {
  maximumBytes : Z;
  maximumFragments : Z;
  as_pending : option PendingHeaderBlock;
}.

Definition new_Http2HeaderBlockAssembler (maximumBytes maximumFragments : Z)
    : result Http2HeaderBlockAssembler :=
  throw_if (negb (isSafeInteger maximumBytes) || (maximumBytes <? 0))
    (RangeError "Invalid compressed header-block limit") ;;
  throw_if (negb (isSafeInteger maximumFragments) || (maximumFragments <? 1))
    (RangeError "Invalid HTTP/2 header-block fragment limit") ;;
  Ok (mk_assembler maximumBytes maximumFragments None).

Definition append (a : Http2HeaderBlockAssembler) (pending : PendingHeaderBlock) (fragment : list Z)
    : result PendingHeaderBlock :=
  throw_if (maximumFragments a <=? len (pb_fragments pending))
    (LimitError "HTTP/2 header block has too many fragments") ;;
  throw_if (maximumBytes a - pb_bytes pending <? len fragment)
    (LimitError "Compressed HTTP/2 header block exceeds configured limit") ;;
  Ok (mk_pending (pb_kind pending) (pb_streamId pending) (pb_endStream pending)
        (pb_promisedStreamId pending) (pb_priority pending) (pb_fragments pending ++ [fragment])
        (pb_bytes pending + len fragment)).

Definition finish (pending : PendingHeaderBlock) : result Http2HeaderBlock :=
  block ← concatBytes (pb_fragments pending) (Some (pb_bytes pending));
  Ok (mk_block (pb_kind pending) (pb_streamId pending) (pb_endStream pending)
        (pb_promisedStreamId pending) (pb_priority pending) block).

Definition set_pending (a : Http2HeaderBlockAssembler) (p : option PendingHeaderBlock)
    : Http2HeaderBlockAssembler := mk_assembler (maximumBytes a) (maximumFragments a) p.

(** The first frame of a block: its own fields and the first fragment. *)
Definition start_block (frame : Http2Frame) : result (PendingHeaderBlock * list Z) :=
  if fr_type frame =? HTTP2_FRAME_HEADERS then
    headers ← parseHttp2Headers frame;
    Ok (mk_pending kind_headers (fr_streamId frame) (has_flag frame HTTP2_FLAG_END_STREAM) None
          (hp_priority headers) [] 0, hp_fragment headers)
  else
    push ← parseHttp2PushPromise frame;
    Ok (mk_pending kind_push_promise (fr_streamId frame) false (Some (pp_promisedStreamId push)) None
          [] 0, pp_fragment push).

(** [accept]: every [throw] comes before the assembler changes, so a throw leaves
    it as it was. *)
Definition accept (a : Http2HeaderBlockAssembler) (frame : Http2Frame)
    : result (option Http2HeaderBlock * Http2HeaderBlockAssembler) :=
  (let validated := validateHttp2Frame frame HTTP2_MAX_FRAME_SIZE in
   if fr_type frame =? HTTP2_FRAME_HEADERS then keep_stream_error validated else validated) ;;
  match as_pending a with
  | Some pending =>
      throw_if (negb (fr_type frame =? HTTP2_FRAME_CONTINUATION)
                || negb (fr_streamId frame =? pb_streamId pending))
        (protocolError "HTTP/2 header block was interrupted before END_HEADERS") ;;
      pending ← append a pending (fr_payload frame);
      if negb (has_flag frame HTTP2_FLAG_END_HEADERS)
      then Ok (None, set_pending a (Some pending))
      else
        block ← finish pending;
        Ok (Some block, set_pending a None)
  | None =>
      throw_if (fr_type frame =? HTTP2_FRAME_CONTINUATION)
        (protocolError "Unexpected HTTP/2 CONTINUATION frame") ;;
      if negb (fr_type frame =? HTTP2_FRAME_HEADERS) && negb (fr_type frame =? HTTP2_FRAME_PUSH_PROMISE)
      then Ok (None, a)
      else
        '(next, fragment) ← start_block frame;
        next ← append a next fragment;
        if has_flag frame HTTP2_FLAG_END_HEADERS then
          block ← finish next;
          Ok (Some block, a)
        else Ok (None, set_pending a (Some next))
  end.
