(* ===== verification/FrameTheory.v ===== *)
(** * HTTP/2 frames: round trips, accounting and the header block assembler *)

From S2P Require Import Prelude Encoding Io Frame.

(** ** Specifications *)

(** Four bytes, most significant first. *)
Definition be32 (v : Z) : list Z :=
  [v / 0x1000000 mod 256; v / 0x10000 mod 256; v / 0x100 mod 256; v mod 256].

(** The bytes of a frame (RFC 9113 section 4.1). *)
Definition frame_bytes (f : Http2Frame) : list Z :=
  let n := len (fr_payload f) in
  [n / 0x10000 mod 256; n / 0x100 mod 256; n mod 256; fr_type f; fr_flags f]
    ++ be32 (fr_streamId f) ++ fr_payload f.

(** What a frame that was encoded satisfies. *)
Record frame_valid (f : Http2Frame) (m : Z) : Prop := {
  fv_type : is_byte (fr_type f);
  fv_flags : is_byte (fr_flags f);
  fv_stream : 0 <= fr_streamId f <= HTTP2_MAX_WINDOW_SIZE;
  fv_limit : HTTP2_DEFAULT_FRAME_SIZE <= m <= HTTP2_MAX_FRAME_SIZE;
  fv_length : len (fr_payload f) <= m;
  fv_payload : validate_payload f = Ok tt;
}.

Definition setting_bytes (s : Http2Setting) : list Z :=
  [identifier s / 0x100; identifier s mod 256] ++ be32 (set_value s).

Record setting_ok (s : Http2Setting) : Prop := {
  so_identifier : 0 <= identifier s <= 65535;
  so_value : 0 <= set_value s <= 0xffffffff;
  so_valid : validateHttp2Setting (identifier s) (set_value s) = Ok tt;
}.

(** A pending block with one more fragment. *)
Definition with_fragment (p : PendingHeaderBlock) (fragment : list Z) : PendingHeaderBlock :=
  mk_pending (pb_kind p) (pb_streamId p) (pb_endStream p) (pb_promisedStreamId p) (pb_priority p)
    (pb_fragments p ++ [fragment]) (pb_bytes p + len fragment).

(** The frames of one header block in their order on the connection, and what
    they gather: HEADERS or PUSH_PROMISE, then CONTINUATIONs of the same stream,
    none but the last with END_HEADERS. *)
Inductive gathers : list Http2Frame -> PendingHeaderBlock -> Prop :=
| gathers_start f p fragment :
    fr_type f = HTTP2_FRAME_HEADERS \/ fr_type f = HTTP2_FRAME_PUSH_PROMISE ->
    start_block f = Ok (p, fragment) -> gathers [f] (with_fragment p fragment)
| gathers_more fs g p f :
    gathers (fs ++ [g]) p -> has_flag g HTTP2_FLAG_END_HEADERS = false ->
    fr_type f = HTTP2_FRAME_CONTINUATION -> fr_streamId f = pb_streamId p ->
    gathers (fs ++ [g; f]) (with_fragment p (fr_payload f)).

(** The block the gathered frames make. *)
Definition gathered_block (p : PendingHeaderBlock) : Http2HeaderBlock :=
  mk_block (pb_kind p) (pb_streamId p) (pb_endStream p) (pb_promisedStreamId p) (pb_priority p)
    (concat (pb_fragments p)).

(** What the assembler has of the frames since the last complete block. *)
Definition assembling (a : Http2HeaderBlockAssembler) (fs : list Http2Frame) : Prop :=
  match as_pending a with
  | None => fs = []
  | Some p => gathers fs p /\ len (pb_fragments p) <= maximumFragments a /\ pb_bytes p <= maximumBytes a /\
      exists gs g, fs = gs ++ [g] /\ has_flag g HTTP2_FLAG_END_HEADERS = false
  end.

Definition example_frame : Http2Frame := mk_frame HTTP2_FRAME_DATA 9 3 [2; 104; 105; 0; 0].

(** ** Bytes and integers *)

Lemma zeros_add a b : 0 <= a -> 0 <= b -> zeros (a + b) = zeros a ++ zeros b.
Proof. intros Ha Hb. unfold zeros. by rewrite Z2Nat.inj_add, replicate_add. Qed.

Lemma at_app_ge {A} (pre l : list A) k : 0 <= k -> at_ (pre ++ l) (len pre + k) = at_ l k.
Proof.
  intros Hk. unfold at_, len. destruct (Z.ltb_spec (Z.of_nat (length pre) + k) 0); [lia|].
  destruct (Z.ltb_spec k 0); [lia|]. rewrite lookup_app_r by lia. f_equal. lia.
Qed.

Lemma set_u8_mid pre x post k v :
  k = len pre -> set_u8 (pre ++ x :: post) k v = pre ++ to_uint8 v :: post.
Proof.
  intros ->. unfold set_u8, len. destruct (Z.ltb_spec (Z.of_nat (length pre)) 0); [lia|].
  rewrite Nat2Z.id. rewrite <- (Nat.add_0_r (length pre)). by rewrite insert_app_r.
Qed.

Lemma and255 x : x .& 255 = x mod 256.
Proof. apply (js_and_ones x 8). lia. Qed.

Lemma to_uint8_mod x : to_uint8 (x mod 256) = x mod 256.
Proof. unfold to_uint8. by rewrite Z.mod_mod. Qed.

Lemma be32_bytes v : is_bytes (be32 v).
Proof. unfold be32. repeat constructor; apply Z.mod_pos_bound; lia. Qed.

Lemma writeUint32_mid pre a b c d post k v :
  k = len pre -> writeUint32 (pre ++ a :: b :: c :: d :: post) k v = pre ++ be32 v ++ post.
Proof.
  intros ->. unfold writeUint32. rewrite !and255.
  rewrite set_u8_mid, to_uint8_mod by done.
  rewrite (cons_middle _ pre (b :: _)), app_assoc, set_u8_mid, to_uint8_mod by (by rewrite len_app).
  rewrite (cons_middle _ _ (c :: _)), app_assoc, set_u8_mid, to_uint8_mod by (rewrite !len_app, !len_cons, (@len_nil Z); lia).
  rewrite (cons_middle _ _ (d :: _)), app_assoc, set_u8_mid, to_uint8_mod by (rewrite !len_app, !len_cons, (@len_nil Z); lia).
  by rewrite <- !app_assoc.
Qed.

Lemma be32_value v : 0 <= v <= 0xffffffff ->
  v / 0x1000000 mod 256 * 0x1000000 + v / 0x10000 mod 256 * 0x10000 + v / 0x100 mod 256 * 0x100
  + v mod 256 = v.
Proof. intros Hv. div_lia. Qed.

Lemma readUint32_mid pre v post k :
  k = len pre -> 0 <= v <= 0xffffffff -> readUint32 (pre ++ be32 v ++ post) k = Ok v.
Proof.
  intros -> Hv. unfold readUint32. rewrite <- (Z.add_0_r (len pre)) at 1.
  rewrite !at_app_ge by lia. change (Ok (v / 0x1000000 mod 256 * 0x1000000 + v / 0x10000 mod 256 * 0x10000 + v / 0x100 mod 256 * 0x100 + v mod 256) = Ok v). by rewrite be32_value.
Qed.

Lemma readUint32_total bytes k :
  is_bytes bytes -> 0 <= k -> k + 4 <= len bytes ->
  exists v, readUint32 bytes k = Ok v /\ 0 <= v <= 0xffffffff.
Proof.
  intros Hb Hk Hl. unfold readUint32.
  destruct (at_total bytes k) as [a Ha]; [lia|]. destruct (at_total bytes (k + 1)) as [b Hb']; [lia|].
  destruct (at_total bytes (k + 2)) as [c Hc]; [lia|]. destruct (at_total bytes (k + 3)) as [d Hd]; [lia|].
  rewrite Ha, Hb', Hc, Hd. eexists. split; [done|].
  apply (at_Forall is_byte) in Ha, Hb', Hc, Hd; [|done..]. unfold is_byte in *. lia.
Qed.

Lemma and_max v : 0 <= v -> v .& HTTP2_MAX_WINDOW_SIZE = v mod 0x80000000.
Proof. intros Hv. apply (js_and_ones v 31). lia. Qed.

Lemma set_range_exact pre mid post b k :
  k = len pre -> length b = length mid -> set_range (pre ++ mid ++ post) k b = pre ++ b ++ post.
Proof.
  intros -> Hl. unfold set_range, len. rewrite Nat2Z.id, take_app_length, Hl.
  rewrite drop_app_add, drop_app_length. done.
Qed.

(** ** The envelope *)

Lemma require_if_Ok c e : throw_if c e = Ok tt <-> c = false.
Proof. by destruct c. Qed.

(** The writes into the output array produce the frame's bytes. *)
Lemma write_frame f :
  is_byte (fr_type f) -> is_byte (fr_flags f) ->
  let length := len (fr_payload f) in
  let output := zeros (9 + length) in
  let output := set_u8 output 0 ((length / 0x10000) .& 255) in
  let output := set_u8 output 1 ((length / 0x100) .& 255) in
  let output := set_u8 output 2 (length .& 255) in
  let output := set_u8 output 3 (fr_type f) in
  let output := set_u8 output 4 (fr_flags f) in
  let output := writeUint32 output 5 (fr_streamId f) in
  copyInto output 9 (fr_payload f) = Ok (frame_bytes f).
Proof.
  intros Ht Hf. pose proof (len_nonneg (fr_payload f)) as Hn. cbv zeta.
  rewrite zeros_add by lia. change (zeros 9) with [0; 0; 0; 0; 0; 0; 0; 0; 0].
  set (n := len (fr_payload f)). cbn [app]. rewrite !and255.
  unfold writeUint32, set_u8. rewrite !and255.
  match goal with |- copyInto ?o _ _ = _ =>
    let o' := eval cbv [insert list_insert Z.to_nat Pos.to_nat Pos.iter_op Nat.add Z.ltb Z.compare
      Z.add Pos.add Pos.succ] in o in change o with o' end.
  rewrite !to_uint8_mod, !to_uint8_small by done.
  assert (Hz : len (zeros n) = n) by (unfold len, zeros; rewrite length_replicate; lia).
  unfold copyInto. rewrite !len_cons, Hz. fold n.
  destruct (Z.ltb_spec (n + 1 + 1 + 1 + 1 + 1 + 1 + 1 + 1 + 1) (9 + n)); [lia|]. f_equal.
  unfold set_range. rewrite (drop_ge _ (Z.to_nat 9 + length (fr_payload f))), app_nil_r; [done|].
  cbn [length]. unfold len in Hz, n. lia.
Qed.

Lemma encode_bytes f m bytes :
  encodeHttp2Frame f m = Ok bytes -> bytes = frame_bytes f.
Proof.
  intros H. unfold encodeHttp2Frame, requireByte, requireStreamId, requireFrameLimit in H.
  do 4 ok_inv H. cbv zeta in H. do 2 ok_inv H. rewrite write_frame in H by (unfold is_byte; lia).
  by injection H as <-.
Qed.

Lemma subarray_drop {A} (l : list A) k : 0 <= k -> subarray l k (len l) = drop (Z.to_nat k) l.
Proof. intros Hk. unfold subarray. apply take_ge. rewrite length_drop. unfold len. lia. Qed.

Lemma frame_bytes_length f m :
  0 <= len (fr_payload f) <= m -> m <= HTTP2_MAX_FRAME_SIZE ->
  frame_length (frame_bytes f) = len (fr_payload f) /\ len (frame_bytes f) = len (fr_payload f) + 9.
Proof.
  unfold HTTP2_MAX_FRAME_SIZE. intros Hn Hm. split.
  - unfold frame_length.
    change (at_or 0 (frame_bytes f) 0) with (len (fr_payload f) / 0x10000 mod 256).
    change (at_or 0 (frame_bytes f) 1) with (len (fr_payload f) / 0x100 mod 256).
    change (at_or 0 (frame_bytes f) 2) with (len (fr_payload f) mod 256). div_lia.
  - unfold frame_bytes, be32. rewrite !len_app, !len_cons. rewrite (@len_nil Z). lia.
Qed.

Lemma validate_iff f m : validateHttp2Frame f m = Ok tt <-> frame_valid f m.
Proof.
  unfold validateHttp2Frame, requireByte, requireStreamId, requireFrameLimit. split.
  - intros H. ok_inv H. ok_inv H. ok_inv H. ok_inv H. ok_inv H. split; unfold is_byte; done || lia.
  - intros [? ? ? ? ? ?]. unfold is_byte, HTTP2_MAX_WINDOW_SIZE, HTTP2_DEFAULT_FRAME_SIZE, HTTP2_MAX_FRAME_SIZE in *.
    guards_pass. done.
Qed.

Lemma encode_valid f m : frame_valid f m <-> exists bytes, encodeHttp2Frame f m = Ok bytes.
Proof.
  split.
  - intros Hv. pose proof (proj2 (validate_iff f m) Hv) as Hok. destruct Hv.
    unfold encodeHttp2Frame, requireByte, requireStreamId, requireFrameLimit. cbv zeta. rewrite Hok.
    unfold is_byte, HTTP2_MAX_WINDOW_SIZE, HTTP2_DEFAULT_FRAME_SIZE, HTTP2_MAX_FRAME_SIZE in *.
    guards_pass. rewrite write_frame by (unfold is_byte; lia). by eexists.
  - intros [bytes H]. apply validate_iff.
    unfold encodeHttp2Frame, requireByte, requireStreamId, requireFrameLimit in H.
    do 4 ok_inv H. cbv zeta in H. ok_inv H. ok_inv H. by destruct x.
Qed.

(** Decoding the bytes of a frame: the length, the fields and the checks. *)
Lemma decode_frame_bytes f m :
  frame_valid f m -> decodeHttp2Frame (frame_bytes f) m = Ok f.
Proof.
  intros Hv. pose proof (proj2 (validate_iff f m) Hv) as Hok. destruct Hv as [Ht Hf Hs Hm Hl Hp].
  pose proof (len_nonneg (fr_payload f)) as Hn.
  destruct (frame_bytes_length f m) as [Hfl Hlen]; [lia|lia|].
  unfold decodeHttp2Frame, requireFrameLimit. rewrite Hfl, Hlen.
  unfold HTTP2_DEFAULT_FRAME_SIZE, HTTP2_MAX_FRAME_SIZE, HTTP2_MAX_WINDOW_SIZE in *.
  guards_pass.
  assert (Hr : readUint32 (frame_bytes f) 5 = Ok (fr_streamId f)).
  { apply (readUint32_mid [_; _; _; _; _]); [done|lia]. }
  rewrite Hr. cbn [mbind result_bind].
  rewrite and_max, Z.mod_small by lia. cbv zeta.
  rewrite <- Hlen, subarray_drop by lia.
  assert (Hd : drop (Z.to_nat 9) (frame_bytes f) = fr_payload f) by reflexivity. rewrite Hd.
  change (at_or 0 (frame_bytes f) 3) with (fr_type f). change (at_or 0 (frame_bytes f) 4) with (fr_flags f).
  destruct f as [ty fl sid pl]. cbn [fr_type fr_flags fr_streamId fr_payload] in *. by rewrite Hok.
Qed.

Lemma byte9 (bytes : list Z) : 9 <= len bytes -> exists a b c t fl s0 s1 s2 s3 payload,
  bytes = a :: b :: c :: t :: fl :: s0 :: s1 :: s2 :: s3 :: payload.
Proof.
  intros Hl. unfold len in Hl.
  do 9 (destruct bytes as [|? bytes]; [cbn in Hl; lia|]). by repeat eexists.
Qed.

(** What was decoded is what the bytes say, up to the reserved bit. *)
Lemma decode_encode bytes m f :
  is_bytes bytes -> decodeHttp2Frame bytes m = Ok f -> at_or 0 bytes 5 < 128 ->
  frame_bytes f = bytes /\ frame_valid f m.
Proof.
  intros Hb H H5. unfold decodeHttp2Frame, requireFrameLimit in H. ok_inv H. ok_inv H. cbv zeta in H.
  ok_inv H. ok_inv H. ok_inv H. ok_inv H. injection H as <-. destruct x0.
  split; [|by apply validate_iff]. unfold frame_bytes. cbn [fr_type fr_flags fr_streamId fr_payload].
  rewrite subarray_drop by lia.
  destruct (byte9 bytes) as (a & b & c & t & fl & s0 & s1 & s2 & s3 & payload & ->); [lia|].
  change (at_or 0 _ 5) with s0 in H5. change (at_or 0 _ 3) with t. change (at_or 0 _ 4) with fl.
  unfold frame_length in *. change (at_or 0 _ 0) with a in *. change (at_or 0 _ 1) with b in *.
  change (at_or 0 _ 2) with c in *. change (drop (Z.to_nat 9) _) with payload.
  do 9 (apply Forall_cons in Hb as [? Hb]). unfold is_byte in *.
  change (readUint32 _ 5) with (Ok (s0 * 0x1000000 + s1 * 0x10000 + s2 * 0x100 + s3)) in Hx.
  injection Hx as <-. clear Hx0. rewrite and_max by lia. rewrite (Z.mod_small _ 0x80000000) by lia.
  assert (Hlp : len payload = a * 65536 + b * 256 + c).
  { rewrite !len_cons in Hc2. lia. }
  rewrite Hlp. unfold be32. cbn [app]. repeat f_equal; div_lia.
Qed.

(** ** Payloads *)

(** ** Frames on a stream *)

Section Stream.
Context {T : Type} `{Transport T}.

Lemma read_frame f m (r : BufferedReader T) rest :
  frame_valid f m -> reader_ok r -> pending r = frame_bytes f ++ rest ->
  exists r', readHttp2Frame m r = Ok (f, r') /\ pending r' = rest /\ reader_ok r'.
Proof.
  intros Hv Hr Hp. pose proof (proj2 (validate_iff f m) Hv) as Hok. destruct Hv as [Ht Hf Hs Hm Hl _].
  pose proof (len_nonneg (fr_payload f)) as Hn.
  destruct (frame_bytes_length f m) as [Hfl Hlen]; [lia|lia|].
  unfold readHttp2Frame, mbind, ST_bind, st_lift, requireFrameLimit.
  unfold HTTP2_DEFAULT_FRAME_SIZE, HTTP2_MAX_FRAME_SIZE, HTTP2_MAX_WINDOW_SIZE in *.
  replace (_ || _) with false by lia. cbn [throw_if].
  set (header := take 9 (frame_bytes f)).
  assert (Hsplit : frame_bytes f = header ++ fr_payload f) by reflexivity.
  assert (Hh : len header = 9) by reflexivity.
  destruct (exact_spec 9 r Hr) as [He _]; [unfold MAX_SAFE_INTEGER; lia|].
  destruct He as (r1 & -> & Hp1 & Hr1); [rewrite Hp, len_app; pose proof (len_nonneg rest); lia|].
  rewrite Hp, Hsplit in Hp1 |- *. rewrite <- app_assoc in Hp1 |- *.
  rewrite (take_app_length' header) by (unfold len in Hh; lia).
  rewrite (drop_app_length' header) in Hp1 by (unfold len in Hh; lia).
  assert (Hfl' : frame_length header = len (fr_payload f)) by exact Hfl. rewrite Hfl'.
  replace (m <? len (fr_payload f)) with false by lia. cbn [throw_if].
  destruct (exact_spec (len (fr_payload f)) r1 Hr1) as [He _]; [unfold MAX_SAFE_INTEGER; lia|].
  destruct He as (r2 & -> & Hp2 & Hr2); [rewrite Hp1, len_app; pose proof (len_nonneg rest); lia|].
  rewrite Hp1 in Hp2 |- *.
  rewrite (take_app_length' (fr_payload f)) by (unfold len; lia).
  rewrite (drop_app_length' (fr_payload f)) in Hp2 by (unfold len; lia).
  assert (Hs5 : readUint32 header 5 = Ok (fr_streamId f)).
  { apply (readUint32_mid [_; _; _; _; _] (fr_streamId f) []); [done|lia]. }
  rewrite Hs5, and_max, Z.mod_small by lia.
  change (at_or 0 header 3) with (fr_type f). change (at_or 0 header 4) with (fr_flags f).
  exists r2. destruct f as [ty fl sid pl]. cbn [fr_type fr_flags fr_streamId fr_payload] in *.
  by rewrite Hok.
Qed.
End Stream.

(** ** Settings *)

Lemma setting_bytes_length s : len (setting_bytes s) = 6.
Proof. done. Qed.

Lemma settings_length l : len (l ≫= setting_bytes) = 6 * len l.
Proof.
  induction l as [|s l IH]; [done|]. rewrite bind_cons, len_app, len_cons, setting_bytes_length, IH. lia.
Qed.

Lemma write_setting_step done_ post index s :
  len done_ = index * 6 -> setting_ok s ->
  write_setting (done_ ++ zeros 6 ++ post, index) s = Ok (done_ ++ setting_bytes s ++ post, index + 1).
Proof.
  intros Hd [Hi Hv Hok]. unfold write_setting. guards_pass. rewrite Hok. cbn [mbind result_bind].
  f_equal. f_equal. change (zeros 6) with [0; 0; 0; 0; 0; 0]. cbn [app]. rewrite and255.
  rewrite set_u8_mid by lia. rewrite (cons_middle _ done_ (0 :: _)), app_assoc.
  rewrite set_u8_mid by (rewrite len_app, len_cons, (@len_nil Z); lia).
  rewrite (cons_middle _ _ (0 :: _)), app_assoc.
  rewrite writeUint32_mid by (rewrite !len_app, !len_cons, (@len_nil Z); lia).
  rewrite to_uint8_mod, to_uint8_small by (unfold is_byte; div_lia).
  by rewrite <- !app_assoc.
Qed.

Lemma write_setting_Ok st s st' : write_setting st s = Ok st' -> setting_ok s.
Proof.
  destruct st as [p i]. unfold write_setting. intros H. ok_inv H. ok_inv H. ok_inv H. destruct x. split; done || lia.
Qed.

Lemma write_settings done_ index settings :
  len done_ = index * 6 -> Forall setting_ok settings ->
  foldM write_setting (done_ ++ zeros (len settings * 6), index) settings
  = Ok (done_ ++ (settings ≫= setting_bytes), index + len settings).
Proof.
  intros Hd Hs. revert done_ index Hd. induction Hs as [|s l Hs Hl IH]; intros done_ index Hd.
  - cbn. by rewrite (@len_nil Http2Setting), Z.add_0_r.
  - rewrite len_cons. pose proof (len_nonneg l). replace ((len l + 1) * 6) with (6 + len l * 6) by lia.
    rewrite zeros_add by lia. rewrite foldM_cons, write_setting_step by done.
    rewrite app_assoc, IH by (rewrite len_app, setting_bytes_length; lia).
    rewrite bind_cons, <- app_assoc. by replace (index + 1 + len l) with (index + (len l + 1)) by lia.
Qed.

Lemma encode_settings_iff settings p :
  encodeHttp2Settings settings = Ok p <-> Forall setting_ok settings /\ p = settings ≫= setting_bytes.
Proof.
  unfold encodeHttp2Settings. split.
  - intros H. ok_inv H. injection H as <-.
    assert (Hs : Forall setting_ok settings).
    { clear -Hx. revert Hx. generalize (zeros (len settings * 6), 0).
      induction settings as [|s l IH]; intros st H; [constructor|].
      rewrite foldM_cons in H. destruct (write_setting st s) as [st1|] eqn:E; [|done].
      constructor; [by eapply write_setting_Ok|by eapply IH]. }
    split; [done|]. pose proof (write_settings [] 0 settings) as Hw. cbn [app] in Hw.
    rewrite Hw in Hx by done. by injection Hx as <-.
  - intros [Hs ->]. pose proof (write_settings [] 0 settings) as Hw. cbn [app] in Hw. by rewrite Hw.
Qed.

(** Any bytes of the right length are settings; only their values may be invalid. *)
Lemma settings_of_bytes k : forall p, is_bytes p -> length p = (6 * k)%nat ->
  exists l, p = l ≫= setting_bytes /\
    Forall (fun s => 0 <= identifier s <= 65535 /\ 0 <= set_value s <= 0xffffffff) l.
Proof.
  induction k as [|k IH]; intros p Hb Hl.
  - destruct p; [|done]. by exists [].
  - destruct p as [|a [|b [|c [|d [|e [|f p]]]]]]; try (cbn in Hl; lia).
    do 6 (apply Forall_cons in Hb as [? Hb]). unfold is_byte in *.
    destruct (IH p) as (l & -> & Hf); [done|cbn in Hl; lia|].
    exists (mk_setting (a * 256 + b) (c * 0x1000000 + d * 0x10000 + e * 0x100 + f) :: l).
    split; [|constructor; [cbn; lia|done]].
    rewrite bind_cons. unfold setting_bytes at 2, be32. cbn [identifier set_value app].
    repeat f_equal; div_lia.
Qed.

Lemma parse_setting_step pre s post acc :
  0 <= identifier s <= 65535 -> 0 <= set_value s <= 0xffffffff ->
  parse_setting (pre ++ setting_bytes s ++ post) acc (len pre)
  = (validateHttp2Setting (identifier s) (set_value s) ;; Ok (acc ++ [s])).
Proof.
  intros Hi Hv. unfold parse_setting. set (bytes := pre ++ _ ++ post).
  assert (H0 : at_or 0 bytes (len pre) = identifier s / 0x100).
  { unfold at_or, bytes. by rewrite <- (Z.add_0_r (len pre)), at_app_ge. }
  assert (H1 : at_or 0 bytes (len pre + 1) = identifier s mod 256).
  { unfold at_or, bytes. by rewrite at_app_ge. }
  assert (H2 : readUint32 bytes (len pre + 2) = Ok (set_value s)).
  { unfold bytes, setting_bytes. rewrite <- app_assoc, app_assoc.
    apply readUint32_mid; [by rewrite len_app|done]. }
  rewrite H0, H1, H2. cbn [mbind result_bind].
  replace (identifier s / 0x100 * 0x100 + identifier s mod 256) with (identifier s) by div_lia.
  by destruct s.
Qed.

Lemma parse_settings_fold l : forall pre acc,
  Forall (fun s => 0 <= identifier s <= 65535 /\ 0 <= set_value s <= 0xffffffff) l ->
  forall i, len pre = 6 * i ->
  foldM (parse_setting (pre ++ (l ≫= setting_bytes))) acc (Z.mul 6 <$> seqZ i (len l))
  = foldM (fun acc s => validateHttp2Setting (identifier s) (set_value s) ;; Ok (acc ++ [s])) acc l.
Proof.
  induction l as [|s l IH]; intros pre acc Hf i Hp; [done|]. apply Forall_cons in Hf as [[Hi Hv] Hf].
  rewrite len_cons. pose proof (len_nonneg l). rewrite seqZ_cons by lia.
  rewrite fmap_cons, !foldM_cons. rewrite <- Hp. rewrite bind_cons, parse_setting_step by done.
  destruct (validateHttp2Setting _ _) as [[]|]; cbn [mbind result_bind]; [|done].
  rewrite app_assoc. replace (Z.pred (len l + 1)) with (len l) by lia.
  apply IH; [done|]. rewrite len_app, setting_bytes_length. lia.
Qed.

Lemma validate_fold l : forall acc s,
  foldM (fun acc s => validateHttp2Setting (identifier s) (set_value s) ;; Ok (acc ++ [s])) acc l = Ok s <->
  Forall (fun s => validateHttp2Setting (identifier s) (set_value s) = Ok tt) l /\ s = acc ++ l.
Proof.
  induction l as [|x l IH]; intros acc s.
  - cbn. rewrite app_nil_r. split; [by intros [= ->]|by intros [_ ->]].
  - rewrite foldM_cons, Forall_cons. destruct (validateHttp2Setting _ _) as [[]|]; cbn [mbind result_bind].
    + rewrite IH, <- app_assoc. cbn. naive_solver.
    + split; [done|]. by intros [[? ?] ?].
Qed.

Lemma parse_settings_iff p settings : is_bytes p ->
  parseHttp2Settings (mk_frame HTTP2_FRAME_SETTINGS 0 0 p) = Ok settings <->
  Forall setting_ok settings /\ p = settings ≫= setting_bytes.
Proof.
  intros Hb. unfold parseHttp2Settings, requireConnectionFrame. cbn [fr_streamId fr_payload].
  change (has_flag _ _) with false. cbn [throw_if mbind result_bind andb Z.eqb negb].
  assert (Hfold : forall l, Forall (fun s => 0 <= identifier s <= 65535 /\ 0 <= set_value s <= 0xffffffff) l ->
    foldM (parse_setting (l ≫= setting_bytes)) [] (offsets (len (l ≫= setting_bytes))) = Ok settings <->
    Forall setting_ok l /\ settings = l).
  { intros l Hl. unfold offsets. rewrite settings_length. replace (6 * len l / 6) with (len l) by div_lia.
    pose proof (parse_settings_fold l [] [] Hl 0 eq_refl) as Hp. cbn [app] in Hp. rewrite Hp, validate_fold. cbn [app].
    split; intros [Hf ->]; (split; [|done]); rewrite Forall_forall in *; intros s Hs; specialize (Hl s Hs);
      specialize (Hf s Hs); [by destruct Hl; split|by apply Hf]. }
  split.
  - intros H. ok_inv H. apply negb_false_iff, Z.eqb_eq in Hc.
    destruct (settings_of_bytes (Z.to_nat (len p / 6)) p Hb) as (l & -> & Hl).
    { unfold len in *. div_lia. }
    apply (Hfold l Hl) in H as [Hok ->]. done.
  - intros [Hok ->]. rewrite settings_length. replace (6 * len settings) with (len settings * 6) by lia.
    rewrite Z.mod_mul by lia. cbn [throw_if negb Z.eqb mbind result_bind].
    replace (len settings * 6) with (len (settings ≫= setting_bytes)) by (rewrite settings_length; lia).
    apply Hfold; [|done]. eapply Forall_impl; [exact Hok|]. by intros s [? ? ?].
Qed.

(** ** Control payloads *)

Lemma len_be32 v : len (be32 v) = 4.
Proof. done. Qed.

Lemma write4 v : writeUint32 (zeros 4) 0 v = be32 v.
Proof. apply (writeUint32_mid [] 0 0 0 0 [] 0 v). done. Qed.

Lemma read4 v : 0 <= v <= 0xffffffff -> readUint32 (be32 v) 0 = Ok v.
Proof. intros Hv. apply (readUint32_mid [] v [] 0); done. Qed.

Lemma window_update_roundtrip n sid :
  1 <= n <= HTTP2_MAX_WINDOW_SIZE -> exists p, encodeHttp2WindowUpdate n = Ok p /\ is_bytes p /\
    parseHttp2WindowUpdate (mk_frame HTTP2_FRAME_WINDOW_UPDATE 0 sid p) = Ok n.
Proof.
  intros Hn. exists (be32 n). unfold encodeHttp2WindowUpdate, parseHttp2WindowUpdate, requireLength.
  unfold HTTP2_MAX_WINDOW_SIZE in Hn. unfold HTTP2_MAX_WINDOW_SIZE at 1. guards_pass. rewrite write4.
  split; [done|]. split; [apply be32_bytes|]. cbn [fr_payload]. change (len (be32 n) =? 4) with true.
  cbn [negb throw_if mbind result_bind]. rewrite read4 by lia. cbn [mbind result_bind].
  rewrite and_max, Z.mod_small by lia. cbv zeta. guards_pass. done.
Qed.

Lemma rst_stream_roundtrip e sid :
  0 <= e <= 0xffffffff -> sid <> 0 -> exists p, encodeHttp2ErrorCode e = Ok p /\ is_bytes p /\
    parseHttp2RstStream (mk_frame HTTP2_FRAME_RST_STREAM 0 sid p) = Ok e.
Proof.
  intros He Hs. exists (be32 e). unfold encodeHttp2ErrorCode, parseHttp2RstStream, requireLength, requireStreamFrame.
  guards_pass. rewrite write4. split; [done|]. split; [apply be32_bytes|]. cbn [fr_payload fr_streamId].
  guards_pass. change (len (be32 e) =? 4) with true. cbn [negb throw_if mbind result_bind]. by rewrite read4.
Qed.

Lemma goaway_roundtrip last e debug :
  0 <= last <= HTTP2_MAX_WINDOW_SIZE -> 0 <= e <= 0xffffffff -> is_bytes debug ->
  exists p, encodeHttp2GoAway last e debug = Ok p /\ is_bytes p /\
    parseHttp2GoAway (mk_frame HTTP2_FRAME_GOAWAY 0 0 p) = Ok (mk_goaway last e debug).
Proof.
  unfold HTTP2_MAX_WINDOW_SIZE. intros Hl He Hb. exists (be32 last ++ be32 e ++ debug).
  pose proof (len_nonneg debug) as Hd.
  assert (Hlen : len (be32 last ++ be32 e ++ debug) = len debug + 8) by (rewrite !len_app, !len_be32; lia).
  split; [|split].
  - unfold encodeHttp2GoAway, requireStreamId, HTTP2_MAX_WINDOW_SIZE. guards_pass. cbv zeta.
    rewrite zeros_add by lia. change (zeros 8) with [0; 0; 0; 0; 0; 0; 0; 0]. cbn [app].
    pose proof (writeUint32_mid [] 0 0 0 0 (0 :: 0 :: 0 :: 0 :: zeros (len debug)) 0 last eq_refl) as H1.
    cbn [app] in H1. rewrite H1.
    rewrite (writeUint32_mid (be32 last) 0 0 0 0) by done.
    assert (Hz : len (zeros (len debug)) = len debug) by (unfold len, zeros; rewrite length_replicate; lia).
    unfold copyInto. rewrite !len_app, Hz.
    destruct (Z.ltb_spec (len (be32 last) + (len (be32 e) + len debug)) (8 + len debug)) as [Hc|_];
      [rewrite !len_be32 in Hc; lia|].
    f_equal. rewrite app_assoc, <- (app_nil_r (_ ++ zeros _)), <- app_assoc.
    rewrite set_range_exact; [by rewrite app_nil_r, <- app_assoc|done|].
    unfold len in *. lia.
  - apply Forall_app_2; [apply be32_bytes|]. apply Forall_app_2; [apply be32_bytes|done].
  - unfold parseHttp2GoAway, requireConnectionFrame. cbn [fr_payload fr_streamId]. rewrite Hlen. guards_pass.
    pose proof (readUint32_mid [] last (be32 e ++ debug) 0 eq_refl ltac:(lia)) as H1. cbn [app] in H1.
    rewrite H1. cbn [mbind result_bind]. rewrite (readUint32_mid (be32 last)) by done.
    cbn [mbind result_bind]. rewrite and_max, Z.mod_small by lia.
    rewrite <- Hlen, subarray_drop by lia. done.
Qed.

(** ** Padding *)

Lemma paddedRange_split payload padded r :
  is_bytes payload -> paddedRange payload 0 padded = Ok r ->
  exists pad body padding, payload = pad ++ body ++ padding /\
    pad = (if padded then [r_paddingBytes r] else []) /\ len padding = r_paddingBytes r /\
    r_start r = len pad /\ r_end r = len pad + len body.
Proof.
  intros Hb H. unfold paddedRange in H. ok_inv H. destruct x as [start n]. ok_inv H. injection H as <-.
  cbn [r_start r_end r_paddingBytes].
  assert (Hcase : exists pad rest, payload = pad ++ rest /\ start = len pad /\
    pad = (if padded then [n] else []) /\ 0 <= n).
  { destruct padded.
    - destruct payload as [|b rest]; [done|]. change (at_ (b :: rest) 0) with (Some b) in Hx.
      injection Hx as <- <-. exists [b], rest. apply Forall_cons in Hb as [[? ?] _]. done.
    - injection Hx as <- <-. by exists [], payload. }
  destruct Hcase as (pad & rest & -> & -> & Hpad & Hn). rewrite len_app in *.
  pose proof (len_nonneg rest).
  exists pad, (take (Z.to_nat (len rest - n)) rest), (drop (Z.to_nat (len rest - n)) rest).
  rewrite take_drop, len_take, len_drop by lia. split_and!; done || lia.
Qed.

Lemma parse_data_split f d :
  is_bytes (fr_payload f) -> parseHttp2Data f = Ok d ->
  exists padding, fr_payload f =
    (if has_flag f HTTP2_FLAG_PADDED then [dp_paddingBytes d] else []) ++ dp_data d ++ padding /\
    len padding = dp_paddingBytes d.
Proof.
  intros Hb H. unfold parseHttp2Data in H. ok_inv H. ok_inv H. injection H as <-. cbn [dp_paddingBytes dp_data].
  destruct (paddedRange_split _ _ _ Hb Hx0) as (pad & body & padding & Hp & -> & Hl & Hs & He).
  exists padding. split; [|done]. rewrite Hs, He, Hp. f_equal. f_equal. symmetry. apply subarray_app_mid.
Qed.

Lemma parse_headers_split f h :
  is_bytes (fr_payload f) -> parseHttp2Headers f = Ok h ->
  exists priority padding, fr_payload f =
    (if has_flag f HTTP2_FLAG_PADDED then [hp_paddingBytes h] else []) ++ priority ++ hp_fragment h ++ padding /\
    len padding = hp_paddingBytes h /\
    len priority = (if has_flag f HTTP2_FLAG_PRIORITY then 5 else 0) /\
    (hp_priority h = None <-> has_flag f HTTP2_FLAG_PRIORITY = false).
Proof.
  intros Hb H. unfold parseHttp2Headers in H. ok_inv H. ok_inv H. ok_inv H. destruct x1 as [start priority].
  injection H as <-. cbn [hp_paddingBytes hp_fragment hp_priority].
  destruct (paddedRange_split _ _ _ Hb Hx0) as (pad & body & padding & Hp & -> & Hl & Hs & He).
  destruct (has_flag f HTTP2_FLAG_PRIORITY).
  - ok_inv Hx1. ok_inv Hx1. injection Hx1 as <- <-.
    pose proof (len_nonneg body). assert (Hpr : len (take 5 body) = 5) by (apply (len_take body 5); lia).
    assert (Hbody : body = take 5 body ++ drop 5 body) by by rewrite take_drop.
    revert Hpr Hbody. generalize (take 5 body), (drop 5 body). intros pr fr Hpr ->.
    exists pr, padding. split_and!; [|done|done|done].
    rewrite Hs, He, Hp, <- Hpr, len_app, Z.add_assoc, <- len_app. f_equal.
    rewrite <- app_assoc. f_equal. rewrite app_assoc. f_equal. symmetry. apply subarray_app_mid.
  - injection Hx1 as <- <-. exists [], padding. split_and!; [|done|done|done].
    rewrite Hs, He, Hp. cbn [app]. f_equal. f_equal. symmetry. apply subarray_app_mid.
Qed.

(** ** The header block assembler *)

Lemma start_block_empty f p fragment :
  start_block f = Ok (p, fragment) -> pb_fragments p = [] /\ pb_bytes p = 0.
Proof.
  unfold start_block. destruct (_ =? _); intros H; ok_inv H; by injection H as <- <-.
Qed.

Lemma gathers_bytes fs p : gathers fs p -> pb_bytes p = len (concat (pb_fragments p)).
Proof.
  assert (Hstep : forall p fragment, pb_bytes p = len (concat (pb_fragments p)) ->
    pb_bytes (with_fragment p fragment) = len (concat (pb_fragments (with_fragment p fragment)))).
  { intros q fragment Hq. cbn. rewrite concat_app, len_app, Hq. cbn. by rewrite app_nil_r. }
  induction 1 as [f p fragment _ H|fs g p f _ IH _ _ _]; apply Hstep; [|done].
  by apply start_block_empty in H as [-> ->].
Qed.

Lemma finish_gathered fs p : gathers fs p -> finish p = Ok (gathered_block p).
Proof.
  intros Hg. unfold finish. by rewrite concatBytes_chunks by by apply (gathers_bytes fs).
Qed.

Lemma append_Ok a p fragment p' :
  append a p fragment = Ok p' ->
  p' = with_fragment p fragment /\ len (pb_fragments p') <= maximumFragments a /\ pb_bytes p' <= maximumBytes a.
Proof.
  intros H. unfold append in H. ok_inv H. ok_inv H. injection H as <-. split; [done|]. cbn.
  rewrite len_app. change (len [fragment]) with 1. lia.
Qed.

Lemma accept_refines a fs f out a' :
  assembling a fs -> accept a f = Ok (out, a') ->
  maximumBytes a' = maximumBytes a /\ maximumFragments a' = maximumFragments a /\
  ((fs = [] /\ out = None /\ a' = a /\ fr_type f <> HTTP2_FRAME_HEADERS /\
    fr_type f <> HTTP2_FRAME_PUSH_PROMISE /\ fr_type f <> HTTP2_FRAME_CONTINUATION) \/
   exists p, gathers (fs ++ [f]) p /\ len (pb_fragments p) <= maximumFragments a /\ pb_bytes p <= maximumBytes a /\
     if has_flag f HTTP2_FLAG_END_HEADERS then out = Some (gathered_block p) /\ assembling a' []
     else out = None /\ assembling a' (fs ++ [f])).
Proof.
  intros Ha H. unfold accept in H. ok_inv H. clear Hx x. unfold assembling in Ha.
  destruct (as_pending a) as [p|] eqn:Ep.
  - destruct Ha as (Hg & _ & _ & gs & g & -> & Hflag). ok_inv H.
    apply orb_false_iff in Hc as [Ht%negb_false_iff%Z.eqb_eq Hs%negb_false_iff%Z.eqb_eq].
    ok_inv H. apply append_Ok in Hx as (-> & Hlf & Hlb).
    assert (Hg' : gathers ((gs ++ [g]) ++ [f]) (with_fragment p (fr_payload f)))
      by (rewrite <- app_assoc; by apply gathers_more).
    destruct (has_flag f HTTP2_FLAG_END_HEADERS) eqn:Hend; cbn [negb] in H.
    + rewrite (finish_gathered _ _ Hg') in H. cbn [mbind result_bind] in H. injection H as <- <-.
      split_and!; [done|done|right]. eexists. split; [done|]. done.
    + injection H as <- <-. split_and!; [done|done|right]. eexists. split; [done|].
      do 3 (split; [done|]). unfold assembling. cbn. split_and!; [done|done|done|]. by eexists _, f.
  - subst fs. ok_inv H. apply Z.eqb_neq in Hc.
    destruct (Z.eqb_spec (fr_type f) HTTP2_FRAME_HEADERS) as [Eh|Eh];
    destruct (Z.eqb_spec (fr_type f) HTTP2_FRAME_PUSH_PROMISE) as [Epp|Epp]; cbn [negb andb] in H;
    [by rewrite Eh in Epp| | |by injection H as <- <-; split; [done|]; split; [done|]; left].
    all: ok_inv H; destruct x as [next fragment]; ok_inv H; apply append_Ok in Hx0 as (-> & Hlf & Hlb).
    all: assert (Hg : gathers [f] (with_fragment next fragment)) by (apply gathers_start; auto).
    all: destruct (has_flag f HTTP2_FLAG_END_HEADERS) eqn:Hend;
      [rewrite (finish_gathered _ _ Hg) in H; cbn [mbind result_bind] in H|].
    all: injection H as <- <-; split_and!; [done|done|right].
    all: eexists; do 4 (split; [done|]).
    all: unfold assembling; cbn; rewrite ?Ep; try done.
    all: split_and!; [done|done|done|]; by exists [], f.
Qed.

(** ** Properties *)

(** Encoding and decoding a frame are inverse.  For a payload of bytes,
    [encodeHttp2Frame] returns [bytes] exactly when [bytes] are bytes, the
    reserved bit is clear and [decodeHttp2Frame] returns the frame from them: the
    two functions accept the same frames and agree on every field. *)
Theorem frame_encode_iff_decode f m bytes :
  is_bytes (fr_payload f) ->
  encodeHttp2Frame f m = Ok bytes <->
  is_bytes bytes /\ at_or 0 bytes 5 < 128 /\ decodeHttp2Frame bytes m = Ok f.
Proof.
  intros Hb. split.
  - intros H. pose proof (encode_bytes f m bytes H) as ->.
    assert (Hv : frame_valid f m) by (apply encode_valid; by eexists). pose proof Hv as [Ht Hf Hs Hm Hl _].
    unfold HTTP2_MAX_WINDOW_SIZE in *. split_and!.
    + unfold frame_bytes. apply Forall_app_2; [|by apply Forall_app_2; [apply be32_bytes|]].
      repeat constructor; try apply Z.mod_pos_bound; try apply Ht; try apply Hf; lia.
    + change (at_or 0 (frame_bytes f) 5) with (fr_streamId f / 0x1000000 mod 256). div_lia.
    + by apply decode_frame_bytes.
  - intros (Hbs & H5 & H). destruct (decode_encode bytes m f Hbs H H5) as [<- Hv].
    apply encode_valid in Hv as [bytes' Hv]. rewrite Hv. f_equal. by eapply encode_bytes.
Qed.

Lemma frame_encode_iff_decode_witness :
  encodeHttp2Frame example_frame 16384 = Ok [0; 0; 5; 0; 9; 0; 0; 0; 3; 2; 104; 105; 0; 0] /\
  is_bytes (fr_payload example_frame) /\
  decodeHttp2Frame [0; 0; 5; 0; 9; 0; 0; 0; 3; 2; 104; 105; 0; 0] 16384 = Ok example_frame.
Proof.
  assert (Hb : is_bytes (fr_payload example_frame)) by by_computing.
  assert (E : encodeHttp2Frame example_frame 16384 = Ok [0; 0; 5; 0; 9; 0; 0; 0; 3; 2; 104; 105; 0; 0])
    by by vm_compute.
  exact (conj E (conj Hb (proj2 (proj2 (proj1 (frame_encode_iff_decode example_frame 16384 _ Hb) E))))).
Defined.

(** C11: a frame written to a connection is the frame read from it, however the
    transport chunks it.  When the bytes still to come start with an encoded
    frame, [readHttp2Frame] returns that frame and leaves the reader at the byte
    after it, so the next frame is read from its start. *)
Theorem frame_stream_roundtrip {T} `{Transport T} f m bytes (r : BufferedReader T) rest :
  encodeHttp2Frame f m = Ok bytes -> reader_ok r -> pending r = bytes ++ rest ->
  exists r', readHttp2Frame m r = Ok (f, r') /\ pending r' = rest /\ reader_ok r'.
Proof.
  intros He Hr Hp. pose proof (encode_bytes f m bytes He) as ->.
  apply (read_frame f m r rest); [apply encode_valid; by eexists|done|done].
Qed.

Lemma frame_stream_roundtrip_witness :
  let c := mk_script [4; 1; 2; 1; 3; 9]%nat [0; 0; 5; 0; 9; 0; 0; 0; 3; 2; 104; 105; 0; 0; 77; 78] [] in
  exists r', readHttp2Frame 16384 (new_BufferedReader c) = Ok (example_frame, r') /\ pending r' = [77; 78].
Proof.
  intros c. destruct (frame_stream_roundtrip example_frame 16384
    [0; 0; 5; 0; 9; 0; 0; 0; 3; 2; 104; 105; 0; 0] (new_BufferedReader c) [77; 78]) as (r' & H1 & H2 & _).
  - by vm_compute.
  - by_computing.
  - reflexivity.
  - exists r'. exact (conj H1 H2).
Defined.

(** SETTINGS payloads round-trip, and the writer and the parser reject the
    same settings: for a payload of bytes, [encodeHttp2Settings] produces it from
    a list exactly when [parseHttp2Settings] reads that list from it. *)
Theorem settings_encode_iff_parse settings p :
  is_bytes p ->
  encodeHttp2Settings settings = Ok p <->
  parseHttp2Settings (mk_frame HTTP2_FRAME_SETTINGS 0 0 p) = Ok settings.
Proof. intros Hb. by rewrite encode_settings_iff, parse_settings_iff. Qed.

Lemma settings_encode_iff_parse_witness :
  let s := [mk_setting 4 100000; mk_setting 5 16384] in
  let p := [0; 4; 0; 1; 134; 160; 0; 5; 0; 0; 64; 0] in
  is_bytes p /\ encodeHttp2Settings s = Ok p /\
  parseHttp2Settings (mk_frame HTTP2_FRAME_SETTINGS 0 0 p) = Ok s.
Proof.
  intros s p. assert (Hb : is_bytes p) by by_computing.
  assert (E : encodeHttp2Settings s = Ok p) by by vm_compute.
  exact (conj Hb (conj E (proj1 (settings_encode_iff_parse s p Hb) E))).
Defined.

(** WINDOW_UPDATE, RST_STREAM and GOAWAY payloads round-trip over the whole
    range the protocol gives their fields. *)
Theorem control_payload_roundtrip n sid e last debug :
  1 <= n <= HTTP2_MAX_WINDOW_SIZE -> sid <> 0 -> 0 <= e <= 0xffffffff ->
  0 <= last <= HTTP2_MAX_WINDOW_SIZE -> is_bytes debug ->
  (exists p, encodeHttp2WindowUpdate n = Ok p /\ is_bytes p /\
    parseHttp2WindowUpdate (mk_frame HTTP2_FRAME_WINDOW_UPDATE 0 sid p) = Ok n) /\
  (exists p, encodeHttp2ErrorCode e = Ok p /\ is_bytes p /\
    parseHttp2RstStream (mk_frame HTTP2_FRAME_RST_STREAM 0 sid p) = Ok e) /\
  (exists p, encodeHttp2GoAway last e debug = Ok p /\ is_bytes p /\
    parseHttp2GoAway (mk_frame HTTP2_FRAME_GOAWAY 0 0 p) = Ok (mk_goaway last e debug)).
Proof.
  intros Hn Hs He Hl Hd. split; [by apply window_update_roundtrip|].
  split; [by apply rst_stream_roundtrip|by apply goaway_roundtrip].
Qed.

Lemma control_payload_roundtrip_witness :
  exists p, encodeHttp2GoAway 5 0xffffffff [1; 2] = Ok p /\ is_bytes p /\
    parseHttp2GoAway (mk_frame HTTP2_FRAME_GOAWAY 0 0 p) = Ok (mk_goaway 5 0xffffffff [1; 2]).
Proof.
  destruct (control_payload_roundtrip 1 3 0xffffffff 5 [1; 2]) as (_ & _ & H);
    [by vm_compute|by vm_compute|by vm_compute|by vm_compute|by_computing|exact H].
Defined.

(** Padding is accounted for exactly.  The payload of an accepted DATA frame
    is its pad-length byte (when the flag is set), the data and as many bytes of
    padding as reported; the payload of an accepted HEADERS frame has, besides,
    five bytes of priority exactly when the PRIORITY flag is set.  So the
    reported parts add up to the payload, which is what flow control counts. *)
Theorem payload_accounting f :
  is_bytes (fr_payload f) ->
  (forall d, parseHttp2Data f = Ok d -> exists padding, fr_payload f =
    (if has_flag f HTTP2_FLAG_PADDED then [dp_paddingBytes d] else []) ++ dp_data d ++ padding /\
    len padding = dp_paddingBytes d) /\
  (forall h, parseHttp2Headers f = Ok h -> exists priority padding, fr_payload f =
    (if has_flag f HTTP2_FLAG_PADDED then [hp_paddingBytes h] else []) ++ priority ++ hp_fragment h ++ padding /\
    len padding = hp_paddingBytes h /\
    len priority = (if has_flag f HTTP2_FLAG_PRIORITY then 5 else 0) /\
    (hp_priority h = None <-> has_flag f HTTP2_FLAG_PRIORITY = false)).
Proof. intros Hb. split; intros; [by apply parse_data_split|by apply parse_headers_split]. Qed.

Lemma payload_accounting_witness :
  is_bytes (fr_payload example_frame) /\
  exists padding, fr_payload example_frame = [2] ++ [104; 105] ++ padding /\ len padding = 2.
Proof.
  assert (Hb : is_bytes (fr_payload example_frame)) by by_computing.
  destruct (payload_accounting example_frame Hb) as [H _].
  split; [exact Hb|]. exact (H (mk_data [104; 105] 2) eq_refl).
Defined.

(** The header block assembler implements RFC 9113 section 4.3.  With the
    frames since the last complete block gathered as HEADERS or PUSH_PROMISE
    followed by CONTINUATIONs of one stream, every accepted frame either is none
    of these types and changes nothing, or extends the gathered frames within
    the fragment and byte limits; with END_HEADERS it yields the block whose
    bytes are the concatenation of the gathered fragments in order and leaves the
    assembler idle, and without it nothing is yielded yet. *)
Theorem assembler_refines a fs f out a' :
  assembling a fs -> accept a f = Ok (out, a') ->
  maximumBytes a' = maximumBytes a /\ maximumFragments a' = maximumFragments a /\
  ((fs = [] /\ out = None /\ a' = a /\ fr_type f <> HTTP2_FRAME_HEADERS /\
    fr_type f <> HTTP2_FRAME_PUSH_PROMISE /\ fr_type f <> HTTP2_FRAME_CONTINUATION) \/
   exists p, gathers (fs ++ [f]) p /\ len (pb_fragments p) <= maximumFragments a /\ pb_bytes p <= maximumBytes a /\
     if has_flag f HTTP2_FLAG_END_HEADERS then out = Some (gathered_block p) /\ assembling a' []
     else out = None /\ assembling a' (fs ++ [f])).
Proof. apply accept_refines. Qed.

Lemma assembler_refines_witness :
  let a := mk_assembler 100 4 None in
  let f := mk_frame HTTP2_FRAME_HEADERS 1 3 [130] in
  exists a', accept a f = Ok (None, a') /\ assembling a [] /\ assembling a' [f].
Proof.
  intros a f. eexists. split; [reflexivity|]. split; [reflexivity|].
  destruct (assembler_refines a [] f None _ eq_refl eq_refl) as (_ & _ & [(_ & _ & _ & H & _)|(p & _ & _ & _ & _ & H)]).
  - destruct (H eq_refl).
  - exact H.
Defined.
