(* ===== verification/HeaderRules.v ===== *)
(** * HTTP/2 header rules ([http2/headers.ts])

    What a request, a response and a trailer block may contain: field names and
    values, pseudo-headers and their order, and the declared content length. *)

From S2P Require Import Prelude Ascii Frame Hpack.

(** The two field types of [hpack.ts] have a name and a value. *)
Class HeaderField (F : Type) := {
  name : F -> jsstr;
  value : F -> jsstr;
}.
#[export] Instance encoded_field : HeaderField HpackHeaderField := {| name := f_name; value := f_value |}.
#[export] Instance decoded_field : HeaderField DecodedHpackHeaderField := {| name := d_name; value := d_value |}.

Record Http2ResponseHeaders := mk_response {
  status : Z;
  rs_headers : list DecodedHpackHeaderField;
  rs_contentLength : option Z;
}.

Definition forbiddenConnectionFields : list jsstr :=
  u <$> ["connection"; "keep-alive"; "proxy-connection"; "transfer-encoding"; "upgrade"].

Definition streamProtocolError (message : string) (streamId : Z) : js_error :=
  Http2WireError message HTTP2_PROTOCOL_ERROR (Some streamId).

Definition COLON : Z := 58.
Definition COMMA : Z := 44.
Definition SPACE : Z := 32.
Definition TAB : Z := 9.

Definition is_name_unit (code : Z) : bool :=
  in_range 97 122 code || in_range 48 57 code ||
  bool_decide (code ∈ [33; 35; 36; 37; 38; 39; 42; 43; 45; 46; 94; 95; 96; 124; 126]).

Definition isLowercaseFieldName (name : jsstr) : bool :=
  let rest := if starts_with COLON name then drop 1 name else name in
  negb (len rest =? 0) && forallb is_name_unit rest.

Definition lower_unit (code : Z) : Z := if in_range 65 90 code then code + 32 else code.

Definition asciiEqualsIgnoreCase (value expectedLowercase : jsstr) : bool :=
  (len value =? len expectedLowercase) && bool_decide (lower_unit <$> value = expectedLowercase).

Definition isTrailersOnly (value : jsstr) : bool :=
  forallb (fun member =>
    let trimmed := trim isHTTPTabOrSpace member in
    negb (bool_decide (trimmed = [])) && asciiEqualsIgnoreCase trimmed (u "trailers"))
    (js_split COMMA value).

Definition forbidden_control (code : Z) : bool := (code <? 32) && negb (code =? 9) || (code =? 127).

Section Rules.
Context {F : Type} `{HeaderField F}.

Definition validateField (field : F) (streamId : Z) : result unit :=
  throw_if (negb (isLowercaseFieldName (name field)))
    (streamProtocolError "HTTP/2 field name is empty, uppercase, or not a token" streamId) ;;
  throw_if (starts_with SPACE (value field) || starts_with TAB (value field)
            || ends_with SPACE (value field) || ends_with TAB (value field))
    (streamProtocolError "HTTP/2 field value contains forbidden whitespace or controls" streamId) ;;
  throw_if (existsb (str_eqb (name field)) forbiddenConnectionFields)
    (streamProtocolError "HTTP/2 message contains a connection-specific field" streamId) ;;
  throw_if (existsb forbidden_control (value field))
    (streamProtocolError "HTTP/2 field value contains a forbidden control" streamId) ;;
  throw_if (str_eqb (name field) (u "te") && negb (isTrailersOnly (value field)))
    (streamProtocolError "HTTP/2 TE field contains a value other than trailers" streamId).

(** One value of a Content-Length list; [expected] is [Some] exactly when
    [sawValue] is set.  [Number] of more digits than a double holds is not a
    safe integer, and neither is the exact value. *)
Definition content_length_value (streamId : Z) (expected : option Z) (v : jsstr) : result (option Z) :=
  throw_if (bool_decide (v = []) || negb (forallb (in_range 48 57) v))
    (streamProtocolError "HTTP/2 Content-Length is invalid" streamId) ;;
  let parsed := decimal v in
  throw_if (negb (isSafeInteger parsed))
    (streamProtocolError "HTTP/2 Content-Length exceeds the exact integer range" streamId) ;;
  match expected with
  | None => Ok (Some parsed)
  | Some e =>
      throw_if (negb (parsed =? e))
        (streamProtocolError "HTTP/2 Content-Length fields disagree" streamId) ;;
      Ok (Some e)
  end.

Definition parseContentLength (fields : list F) (streamId : Z) : result (option Z) :=
  foldM (fun expected field =>
    if str_eqb (name field) (u "content-length")
    then foldM (content_length_value streamId) expected (js_split COMMA (value field))
    else Ok expected) None fields.

(** The local variables of [validateHttp2RequestHeaders]. *)
Record pseudo_headers := mk_pseudo {
  regular : bool;
  method : option jsstr;
  scheme : option jsstr;
  authority : option jsstr;
  path : option jsstr;
  protocol : option jsstr;
}.

Definition set_once (v : option jsstr) (error : js_error) : result unit :=
  throw_if (match v with Some _ => true | None => false end) error.

(** One iteration of the loop over the fields. *)
Definition request_field (streamId : Z) (s : pseudo_headers) (field : F) : result pseudo_headers :=
  validateField field streamId ;;
  let pseudo := starts_with COLON (name field) in
  throw_if (pseudo && regular s)
    (streamProtocolError "HTTP/2 pseudo-header followed a regular field" streamId) ;;
  let reg := if pseudo then regular s else true in
  let n := name field in
  let v := Some (value field) in
  if str_eqb n (u ":method") then
    set_once (method s) (streamProtocolError "Duplicate HTTP/2 :method" streamId) ;;
    Ok (mk_pseudo reg v (scheme s) (authority s) (path s) (protocol s))
  else if str_eqb n (u ":scheme") then
    set_once (scheme s) (streamProtocolError "Duplicate HTTP/2 :scheme" streamId) ;;
    Ok (mk_pseudo reg (method s) v (authority s) (path s) (protocol s))
  else if str_eqb n (u ":authority") then
    set_once (authority s) (streamProtocolError "Duplicate HTTP/2 :authority" streamId) ;;
    Ok (mk_pseudo reg (method s) (scheme s) v (path s) (protocol s))
  else if str_eqb n (u ":path") then
    set_once (path s) (streamProtocolError "Duplicate HTTP/2 :path" streamId) ;;
    Ok (mk_pseudo reg (method s) (scheme s) (authority s) v (protocol s))
  else if str_eqb n (u ":protocol") then
    set_once (protocol s) (streamProtocolError "Duplicate HTTP/2 :protocol" streamId) ;;
    Ok (mk_pseudo reg (method s) (scheme s) (authority s) (path s) v)
  else
    throw_if pseudo (streamProtocolError "Unknown HTTP/2 request pseudo-header" streamId) ;;
    Ok (mk_pseudo reg (method s) (scheme s) (authority s) (path s) (protocol s)).

Definition is_null (v : option jsstr) : bool := bool_decide (v = None).
Definition is_blank (v : option jsstr) : bool := bool_decide (v = Some []).

(** The checks after the loop. *)
Definition request_complete (extendedConnectEnabled : bool) (streamId : Z) (s : pseudo_headers)
    : result unit :=
  throw_if (is_null (method s) || is_blank (method s))
    (streamProtocolError "HTTP/2 request omitted :method" streamId) ;;
  let connect := bool_decide (method s = Some (u "CONNECT")) in
  if negb (is_null (protocol s)) then
    throw_if (negb extendedConnectEnabled || negb connect)
      (streamProtocolError "HTTP/2 extended CONNECT was not enabled" streamId) ;;
    throw_if (is_blank (protocol s) || is_null (scheme s) || is_null (authority s)
              || is_null (path s) || is_blank (path s))
      (streamProtocolError "HTTP/2 extended CONNECT omitted a required pseudo-header" streamId)
  else if connect then
    throw_if (is_null (authority s) || is_blank (authority s)
              || negb (is_null (scheme s)) || negb (is_null (path s)))
      (streamProtocolError "HTTP/2 CONNECT has invalid pseudo-headers" streamId)
  else
    throw_if (is_null (scheme s) || is_blank (scheme s) || is_null (authority s)
              || is_blank (authority s) || is_null (path s) || is_blank (path s))
      (streamProtocolError "HTTP/2 request omitted a required pseudo-header" streamId).

Definition validateHttp2RequestHeaders (fields : list F) (streamId : Z)
    (extendedConnectEnabled : bool) : result (option Z) :=
  s ← foldM (request_field streamId) (mk_pseudo false None None None None None) fields;
  contentLength ← parseContentLength fields streamId;
  request_complete extendedConnectEnabled streamId s ;;
  Ok contentLength.

Definition http2HeaderListSize (fields : list F) : result Z :=
  foldM (fun total field =>
    let total := total + (len (name field) + len (value field) + 32) in
    throw_if (negb (isSafeInteger total)) (RangeError "HTTP/2 header list size is not exact") ;;
    Ok total) 0 fields.
End Rules.

(** The local variables of [parseHttp2ResponseHeaders]. *)
Record response_state := mk_response_state {
  rp_regular : bool;
  statusText : option jsstr;
  rp_headers : list DecodedHpackHeaderField;
}.

Definition response_field (streamId : Z) (s : response_state) (field : DecodedHpackHeaderField)
    : result response_state :=
  validateField field streamId ;;
  let pseudo := starts_with COLON (name field) in
  throw_if (pseudo && rp_regular s)
    (streamProtocolError "HTTP/2 pseudo-header followed a regular field" streamId) ;;
  let reg := if pseudo then rp_regular s else true in
  if str_eqb (name field) (u ":status") then
    set_once (statusText s) (streamProtocolError "Duplicate HTTP/2 :status" streamId) ;;
    Ok (mk_response_state reg (Some (value field)) (rp_headers s))
  else
    throw_if pseudo (streamProtocolError "Unknown HTTP/2 response pseudo-header" streamId) ;;
    Ok (mk_response_state reg (statusText s) (rp_headers s ++ [field])).

(** [/^[1-5][0-9][0-9]$/] *)
Definition is_status_text (v : jsstr) : bool :=
  match v with
  | [a; b; c] => in_range 49 53 a && in_range 48 57 b && in_range 48 57 c
  | _ => false
  end.

Definition parseHttp2ResponseHeaders (fields : list DecodedHpackHeaderField) (streamId : Z)
    : result Http2ResponseHeaders :=
  s ← foldM (response_field streamId) (mk_response_state false None []) fields;
  let invalid := streamProtocolError "HTTP/2 response has an invalid :status" streamId in
  text ← match statusText s with Some text => Ok text | None => Err invalid end;
  throw_if (negb (is_status_text text) || str_eqb text (u "101")) invalid ;;
  contentLength ← parseContentLength (rp_headers s) streamId;
  Ok (mk_response (decimal text) (rp_headers s) contentLength).

Definition parseHttp2Trailers (fields : list DecodedHpackHeaderField) (streamId : Z)
    : result (list DecodedHpackHeaderField) :=
  foldM (fun _ field =>
    validateField field streamId ;;
    throw_if (starts_with COLON (name field))
      (streamProtocolError "HTTP/2 trailer block contains a pseudo-header" streamId) ;;
    throw_if (str_eqb (name field) (u "content-length") || str_eqb (name field) (u "host")
              || str_eqb (name field) (u "te"))
      (streamProtocolError "HTTP/2 trailer block contains a framing or routing field" streamId)) tt fields ;;
  Ok fields.

(** ** Specifications *)

Section Spec.
Context {F : Type} `{HeaderField F}.

(** A field that may appear in an HTTP/2 message. *)
Record field_wf (f : F) : Prop := {
  fw_name : isLowercaseFieldName (name f) = true;
  fw_start : starts_with SPACE (value f) = false /\ starts_with TAB (value f) = false;
  fw_end : ends_with SPACE (value f) = false /\ ends_with TAB (value f) = false;
  fw_connection : name f ∉ forbiddenConnectionFields;
  fw_control : Forall (fun c => forbidden_control c = false) (value f);
  fw_te : name f = u "te" -> isTrailersOnly (value f) = true;
}.

Definition is_pseudo (f : F) : Prop := starts_with COLON (name f) = true.
#[export] Instance is_pseudo_dec f : Decision (is_pseudo f).
Proof. unfold is_pseudo. apply _. Defined.

(** Pseudo-headers come first. *)
Definition ordered (fs : list F) : Prop :=
  exists ps rs, fs = ps ++ rs /\ Forall is_pseudo ps /\ Forall (fun f => ~ is_pseudo f) rs.

(** The fields of a message that may have the pseudo-headers [names], each once. *)
Record fields_wf (names : list jsstr) (fs : list F) : Prop := {
  fs_fields : Forall field_wf fs;
  fs_ordered : ordered fs;
  fs_names : Forall (fun f => is_pseudo f -> name f ∈ names) fs;
  fs_once : NoDup (name <$> filter is_pseudo fs);
}.

(** The value of the first field of a name. *)
Definition find_value (n : jsstr) (fs : list F) : option jsstr :=
  value <$> head (filter (fun f => name f = n) fs).

Definition request_names : list jsstr :=
  u <$> [":method"; ":scheme"; ":authority"; ":path"; ":protocol"].

(** The values of all Content-Length fields. *)
Definition length_values (fs : list F) : list jsstr :=
  filter (fun f => name f = u "content-length") fs ≫= fun f => js_split COMMA (value f).

Definition length_value_ok (v : jsstr) : Prop :=
  v <> [] /\ Forall (fun c => in_range 48 57 c = true) v /\ decimal v <= MAX_SAFE_INTEGER.

(** The declared length: every value is valid and they agree. *)
Definition declares_length (fs : list F) (cl : option Z) : Prop :=
  Forall length_value_ok (length_values fs) /\
  match cl with
  | None => length_values fs = []
  | Some n => length_values fs <> [] /\ Forall (fun v => decimal v = n) (length_values fs)
  end.

(** The three forms of a request (RFC 9113 section 8.3.1, RFC 8441). *)
Inductive request_form (extended : bool) (fs : list F) : Prop :=
| form_request m s a p :
    find_value (u ":method") fs = Some m -> m <> [] -> m <> u "CONNECT" ->
    find_value (u ":protocol") fs = None ->
    find_value (u ":scheme") fs = Some s -> s <> [] ->
    find_value (u ":authority") fs = Some a -> a <> [] ->
    find_value (u ":path") fs = Some p -> p <> [] -> request_form extended fs
| form_connect a :
    find_value (u ":method") fs = Some (u "CONNECT") ->
    find_value (u ":protocol") fs = None ->
    find_value (u ":scheme") fs = None ->
    find_value (u ":authority") fs = Some a -> a <> [] ->
    find_value (u ":path") fs = None -> request_form extended fs
| form_extended_connect s a p q :
    extended = true ->
    find_value (u ":method") fs = Some (u "CONNECT") ->
    find_value (u ":protocol") fs = Some q -> q <> [] ->
    find_value (u ":scheme") fs = Some s ->
    find_value (u ":authority") fs = Some a ->
    find_value (u ":path") fs = Some p -> p <> [] -> request_form extended fs.
End Spec.

(** Every error is a protocol error of the one stream. *)
Definition only_stream_errors {A} (streamId : Z) (r : result A) : Prop :=
  match r with
  | Ok _ => True
  | Err e => exists message, e = streamProtocolError message streamId
  end.

(** ** Errors *)

Create HintDb stream_errors.

(** A response: one [:status] first, then the regular fields. *)
Record response_wf (fs : list DecodedHpackHeaderField) (r : Http2ResponseHeaders) : Prop := {
  rw_fields : fields_wf [u ":status"] fs;
  rw_status : exists text, find_value (u ":status") fs = Some text /\
    is_status_text text = true /\ text <> u "101" /\ status r = decimal text;
  rw_headers : rs_headers r = filter (fun f => ~ is_pseudo f) fs;
  rw_length : declares_length (rs_headers r) (rs_contentLength r);
}.

Definition response_summary (fs : list DecodedHpackHeaderField) : response_state :=
  mk_response_state (negb (bool_decide (Forall is_pseudo fs))) (find_value (u ":status") fs)
    (filter (fun f => ~ is_pseudo f) fs).

Lemma stream_errors_ok {A} sid (a : A) : only_stream_errors sid (Ok a).
Proof. done. Qed.

Lemma stream_errors_throw_if sid c msg : only_stream_errors sid (throw_if c (streamProtocolError msg sid)).
Proof. destruct c; [by eexists|done]. Qed.

Lemma stream_errors_bind {A B} sid (m : result A) (k : A -> result B) :
  only_stream_errors sid m -> (forall a, only_stream_errors sid (k a)) -> only_stream_errors sid (m ≫= k).
Proof. destruct m; [|done]. intros _ Hk. apply Hk. Qed.

Lemma stream_errors_foldM {A B} sid (f : A -> B -> result A) l a :
  (forall a b, only_stream_errors sid (f a b)) -> only_stream_errors sid (foldM f a l).
Proof.
  intros Hf. revert a. induction l as [|b l IH]; intros a; [done|].
  apply stream_errors_bind; [apply Hf|exact IH].
Qed.

#[local] Hint Resolve stream_errors_ok stream_errors_throw_if : stream_errors.

Ltac stream_errors :=
  repeat first
    [ solve [auto with stream_errors]
    | apply stream_errors_bind; [|intros ?]
    | apply stream_errors_foldM; intros ? ?
    | case_match
    | progress cbv zeta ].

Section Theory.
Context {F : Type} `{HeaderField F}.
Implicit Types f : F.
Implicit Types fs : list F.

(** ** One field *)

Lemma validateField_iff f sid : validateField f sid = Ok tt <-> field_wf f.
Proof.
  unfold validateField. split.
  - intros Hv. ok_inv Hv. ok_inv Hv. ok_inv Hv. ok_inv Hv.
    apply throw_if_Ok in Hv. rewrite !orb_false_iff in Hc0.
    split; [by apply negb_false_iff|tauto|tauto| | |].
    + intros Hin. apply list_elem_of_In in Hin. enough (true = false) by done. rewrite <- Hc1.
      symmetry. apply existsb_exists. exists (name f). split; [done|]. by apply bool_decide_eq_true.
    + apply Forall_forall. intros c Hin%list_elem_of_In. destruct (forbidden_control c) eqn:E; [|done].
      rewrite <- Hc2. symmetry. apply existsb_exists. by exists c.
    + intros Hn. apply andb_false_iff in Hv as [Hv|Hv]; [|by apply negb_false_iff].
      unfold str_eqb in Hv. by apply bool_decide_eq_false in Hv.
  - intros [Hn [-> ->] [-> ->] Hconn Hctl Hte]. rewrite Hn. cbn [negb throw_if orb mbind result_bind].
    replace (existsb (str_eqb (name f)) forbiddenConnectionFields) with false.
    2: { symmetry. apply not_true_iff_false. intros (n & Hin & E)%existsb_exists.
         apply bool_decide_eq_true in E as <-. by apply Hconn, list_elem_of_In. }
    replace (existsb forbidden_control (value f)) with false.
    2: { symmetry. apply not_true_iff_false. intros (c & Hin & E)%existsb_exists.
         rewrite Forall_forall in Hctl. apply list_elem_of_In, Hctl in Hin. congruence. }
    cbn [throw_if mbind result_bind]. unfold str_eqb. case_bool_decide as E; [|done].
    by rewrite (Hte E).
Qed.

Lemma validateField_errors f sid : only_stream_errors sid (validateField f sid).
Proof. unfold validateField. stream_errors. Qed.

(** ** Order and names, one field at a time *)

Lemma ordered_snoc fs f :
  ordered (fs ++ [f]) <-> ordered fs /\ (is_pseudo f -> Forall is_pseudo fs).
Proof.
  split.
  - intros (ps & rs & Heq & Hp & Hr). destruct rs as [|r rs _] using rev_ind.
    + rewrite app_nil_r in Heq. subst ps. apply Forall_app in Hp as [Hp _].
      split; [|done]. exists fs, []. by rewrite app_nil_r.
    + rewrite app_assoc in Heq. apply app_inj_tail in Heq as [-> ->].
      apply Forall_app in Hr as [Hr Hf]. rewrite Forall_singleton in Hf.
      split; [by exists ps, rs|]. intros Hpf. destruct (Hf Hpf).
  - intros [(ps & rs & -> & Hp & Hr) Hf]. destruct (decide (is_pseudo f)) as [Hpf|Hpf].
    + specialize (Hf Hpf). exists (ps ++ rs ++ [f]), []. rewrite app_nil_r, app_assoc.
      split; [done|]. split; [|constructor]. apply Forall_app_2; [done|by apply Forall_singleton].
    + exists ps, (rs ++ [f]). rewrite app_assoc. split; [done|]. split; [done|].
      apply Forall_app_2; [done|by apply Forall_singleton].
Qed.

Lemma fields_wf_snoc names fs f :
  fields_wf names (fs ++ [f]) <-> fields_wf names fs /\ field_wf f /\
    (is_pseudo f -> Forall is_pseudo fs /\ name f ∈ names /\ name f ∉ (name <$> filter is_pseudo fs)).
Proof.
  assert (Honce : NoDup (name <$> filter is_pseudo (fs ++ [f])) <->
    NoDup (name <$> filter is_pseudo fs) /\ (is_pseudo f -> name f ∉ (name <$> filter is_pseudo fs))).
  { rewrite filter_app, fmap_app, NoDup_app. rewrite filter_cons, filter_nil.
    destruct (decide (is_pseudo f)) as [Hp|Hp]; cbn.
    - split; [intros (? & Hd & _); split; [done|]; intros _ Hin; apply (Hd _ Hin); set_solver|].
      intros [Hd Hn]. split_and!; [done| |apply NoDup_singleton].
      intros n Hin ->%list_elem_of_singleton. by apply Hn.
    - split; [by intros (? & _ & _)|]. intros [Hd _]. split_and!; [done|set_solver|constructor]. }
  split.
  - intros [Hf Ho Hn Hd]. apply Forall_app in Hf as [Hf Hf1]. rewrite Forall_singleton in Hf1.
    apply ordered_snoc in Ho as [Ho Ho1]. apply Forall_app in Hn as [Hn Hn1]. rewrite Forall_singleton in Hn1.
    apply Honce in Hd as [Hd Hd1]. split; [done|]. split; [done|]. auto.
  - intros ([Hf Ho Hn Hd] & Hf1 & H1). split.
    + apply Forall_app_2; [done|by apply Forall_singleton].
    + apply ordered_snoc. split; [done|]. intros Hp. by apply H1.
    + apply Forall_app_2; [done|]. apply Forall_singleton. intros Hp. by apply H1.
    + apply Honce. split; [done|]. intros Hp. by apply H1.
Qed.

Lemma find_value_snoc n fs f :
  find_value n (fs ++ [f]) =
  match find_value n fs with
  | Some v => Some v
  | None => if decide (name f = n) then Some (value f) else None
  end.
Proof.
  unfold find_value. rewrite filter_app, filter_cons, filter_nil.
  destruct (filter _ fs) as [|x l]; [|done]. cbn. by destruct (decide (name f = n)).
Qed.

Lemma find_value_None n fs : find_value n fs = None <-> n ∉ (name <$> fs).
Proof.
  unfold find_value. split.
  - intros Hf Hin. apply list_elem_of_fmap in Hin as (f & -> & Hin).
    destruct (filter (fun g => name g = name f) fs) as [|x l] eqn:E; [|done].
    assert (Hnil : f ∈ filter (fun g => name g = name f) fs) by by apply list_elem_of_filter.
    rewrite E in Hnil. set_solver.
  - intros Hn. destruct (filter _ fs) as [|x l] eqn:E; [done|].
    assert (Hx : x ∈ filter (fun g => name g = n) fs) by (rewrite E; set_solver).
    apply list_elem_of_filter in Hx as [<- Hx]. destruct Hn. by apply list_elem_of_fmap_2.
Qed.

(** A name that starts with a colon is found among the pseudo-headers. *)
Lemma pseudo_name_in fs n : starts_with COLON n = true ->
  n ∈ (name <$> filter is_pseudo fs) <-> n ∈ (name <$> fs).
Proof.
  intros Hn. rewrite !list_elem_of_fmap. split; intros (f & -> & Hf); exists f; (split; [done|]).
  - by apply list_elem_of_filter in Hf as [_ Hf].
  - by apply list_elem_of_filter.
Qed.
End Theory.

(** ** The request loop *)

Section Request.
Context {F : Type} `{HeaderField F}.
Implicit Types f : F.
Implicit Types fs : list F.

(** The variables of the loop as functions of the fields read. *)
Definition summary fs : pseudo_headers :=
  mk_pseudo (negb (bool_decide (Forall is_pseudo fs)))
    (find_value (u ":method") fs) (find_value (u ":scheme") fs) (find_value (u ":authority") fs)
    (find_value (u ":path") fs) (find_value (u ":protocol") fs).

Lemma set_once_Ok v e : set_once v e = Ok tt <-> v = None.
Proof. by destruct v. Qed.

Lemma regular_snoc fs f :
  regular (summary (fs ++ [f])) =
  if starts_with COLON (name f) then regular (summary fs) else true.
Proof.
  cbn. destruct (starts_with COLON (name f)) eqn:E.
  - f_equal. apply bool_decide_ext. rewrite Forall_app, Forall_singleton. unfold is_pseudo at 3. tauto.
  - rewrite bool_decide_eq_false_2; [done|]. rewrite Forall_app, Forall_singleton. unfold is_pseudo at 2. rewrite E. by intros [_ ?].
Qed.

(** What a step needs of the fields before it, for a field that passed its own
    checks. *)
Definition fits_after fs f : Prop :=
  is_pseudo f -> Forall is_pseudo fs /\ name f ∈ request_names /\ name f ∉ (name <$> filter is_pseudo fs).

Lemma find_value_other fs f n m : name f = n -> m <> n -> find_value m (fs ++ [f]) = find_value m fs.
Proof.
  intros Hn Hm. rewrite find_value_snoc. destruct (find_value m fs); [done|].
  rewrite decide_False; [done|]. congruence.
Qed.

Lemma find_value_new fs f n : name f = n -> find_value n fs = None -> find_value n (fs ++ [f]) = Some (value f).
Proof. intros <- Hn. by rewrite find_value_snoc, Hn, decide_True. Qed.

(** One of the five pseudo-headers: read when its slot is empty. *)
Lemma pseudo_case fs f n e1 e2 x s :
  name f = n -> n ∈ request_names -> starts_with COLON n = true ->
  (find_value n fs = None -> x = summary (fs ++ [f])) ->
  (throw_if (starts_with COLON n && regular (summary fs)) e1 ;;
   set_once (find_value n fs) e2 ;; Ok x) = Ok s <->
  fits_after fs f /\ s = summary (fs ++ [f]).
Proof.
  intros Hn Hin Hcolon Hx. unfold fits_after, is_pseudo at 1.
  rewrite Hn, pseudo_name_in, <- find_value_None by done. rewrite Hcolon. cbn [andb summary regular].
  case_bool_decide as Ha; cbn [negb throw_if mbind result_bind].
  - destruct (find_value n fs) as [v|] eqn:E; cbn [set_once throw_if mbind result_bind].
    + split; [done|]. intros [Hf _]. by destruct (Hf eq_refl) as (_ & _ & ?).
    + rewrite Hx by done. split; [by intros [= <-]|by intros [_ ->]].
  - split; [done|]. intros [Hf _]. by destruct (Hf eq_refl).
Qed.

(** A field that is no known pseudo-header: it may be no pseudo-header at all. *)
Lemma regular_case fs f e1 e2 s :
  name f ∉ request_names ->
  (throw_if (starts_with COLON (name f) && regular (summary fs)) e1 ;;
   throw_if (starts_with COLON (name f)) e2 ;;
   Ok (mk_pseudo (if starts_with COLON (name f) then regular (summary fs) else true)
        (method (summary fs)) (scheme (summary fs)) (authority (summary fs)) (path (summary fs))
        (protocol (summary fs)))) = Ok s <->
  fits_after fs f /\ s = summary (fs ++ [f]).
Proof.
  intros Hn. unfold fits_after, is_pseudo at 1. destruct (starts_with COLON (name f)) eqn:E.
  - destruct (regular (summary fs)); cbn; split; try done; intros [Hf _];
      by destruct (Hf eq_refl) as (_ & ? & _).
  - cbn [andb throw_if mbind result_bind].
    assert (Hs : mk_pseudo true (method (summary fs)) (scheme (summary fs)) (authority (summary fs))
      (path (summary fs)) (protocol (summary fs)) = summary (fs ++ [f])).
    { unfold summary. cbn [method scheme authority path protocol].
      pose proof (regular_snoc fs f) as Hr. rewrite E in Hr. cbn [regular summary] in Hr. rewrite Hr.
      f_equal; symmetry; apply (find_value_other fs f (name f)); try done; intros Hm; apply Hn; rewrite <- Hm;
        unfold request_names; set_solver. }
    rewrite Hs. split; [by intros [= <-]|by intros [_ ->]].
Qed.

(** One slot of [request_field_iff]. *)
Ltac slot Hcase fs f n E :=
  apply str_eqb_true in E; apply (Hcase n); [exact E|unfold request_names; set_solver|done|];
  intros Hnone; let Hr := fresh in pose proof (regular_snoc fs f) as Hr; rewrite E in Hr;
  rewrite E; unfold summary; cbn [regular summary method scheme authority path protocol] in Hr |- *; rewrite Hr;
  f_equal; first [by rewrite (find_value_new fs f n)|symmetry; apply (find_value_other fs f n); [done|by_computing]|done].

Lemma request_field_iff sid fs f s :
  request_field sid (summary fs) f = Ok s <->
  field_wf f /\ fits_after fs f /\ s = summary (fs ++ [f]).
Proof.
  unfold request_field. rewrite <- (validateField_iff f sid).
  destruct (validateField f sid) as [[]|e]; cbn [mbind result_bind]; [|by split; [|intros [? _]]].
  cbv zeta. match goal with |- ?l = _ <-> _ =>
    enough (Hs : l = Ok s <-> fits_after fs f /\ s = summary (fs ++ [f])) by (rewrite Hs; tauto) end.
  assert (Hcase : forall n x, name f = n -> n ∈ request_names -> starts_with COLON n = true ->
    (find_value n fs = None -> x = summary (fs ++ [f])) -> forall e1 e2,
    (throw_if (starts_with COLON (name f) && regular (summary fs)) e1 ;;
     set_once (find_value n fs) e2 ;; Ok x) = Ok s <-> fits_after fs f /\ s = summary (fs ++ [f])).
  { intros n x Hn Hin Hc Hx e1 e2. rewrite Hn. by apply (pseudo_case fs f n). }
  destruct (str_eqb (name f) (u ":method")) eqn:E1; [slot Hcase fs f (u ":method") E1|].
  destruct (str_eqb (name f) (u ":scheme")) eqn:E2; [slot Hcase fs f (u ":scheme") E2|].
  destruct (str_eqb (name f) (u ":authority")) eqn:E3; [slot Hcase fs f (u ":authority") E3|].
  destruct (str_eqb (name f) (u ":path")) eqn:E4; [slot Hcase fs f (u ":path") E4|].
  destruct (str_eqb (name f) (u ":protocol")) eqn:E5; [slot Hcase fs f (u ":protocol") E5|].
  apply regular_case. apply str_eqb_false in E1, E2, E3, E4, E5.
  unfold request_names. cbn [fmap list_fmap]. set_solver.
Qed.

Lemma fits_after_snoc fs f : fields_wf request_names (fs ++ [f]) <->
  fields_wf request_names fs /\ field_wf f /\ fits_after fs f.
Proof. apply fields_wf_snoc. Qed.

Lemma request_loop_iff sid fs s :
  foldM (request_field sid) (summary []) fs = Ok s <->
  fields_wf request_names fs /\ s = summary fs.
Proof.
  revert s. induction fs as [|f fs IH] using rev_ind; intros s.
  - cbn [foldM]. split; [intros [= <-]|by intros [_ ->]]. split; [|done].
    split; [constructor| |constructor|constructor]. exists [], []. by split_and!.
  - rewrite foldM_app, fits_after_snoc. cbn [foldM].
    destruct (foldM (request_field sid) (summary []) fs) as [s0|e] eqn:E; cbn [mbind result_bind].
    + destruct (proj1 (IH s0) eq_refl) as [Hwf ->].
      destruct (request_field sid (summary fs) f) as [s1|e1] eqn:E1; cbn [mbind result_bind].
      * apply request_field_iff in E1 as (Hf & Hfit & ->). split; [by intros [= <-]|by intros [_ ->]].
      * split; [done|]. intros [(_ & Hf & Hfit) ->].
        pose proof (proj2 (request_field_iff sid fs f _) (conj Hf (conj Hfit eq_refl))). congruence.
    + split; [done|]. intros [(Hwf & _) _]. pose proof (proj2 (IH _) (conj Hwf eq_refl)). congruence.
Qed.

(** ** Content-Length *)

Lemma decimal_nonneg v : Forall (fun c => in_range 48 57 c = true) v -> 0 <= decimal v.
Proof.
  intros Hv. unfold decimal. assert (Hg : forall a, 0 <= a -> 0 <= foldl (fun v c => 10 * v + (c - 48)) a v);
    [|by apply Hg].
  induction Hv as [|c v Hc Hv IH]; intros a Ha; cbn [foldl]; [done|].
  apply IH. unfold in_range in Hc. lia.
Qed.

Lemma content_length_value_iff sid e v e' :
  content_length_value sid e v = Ok e' <->
  length_value_ok v /\ e' = Some (decimal v) /\ (e = None \/ e = Some (decimal v)).
Proof.
  unfold content_length_value, length_value_ok. case_bool_decide as Hnil; cbn [orb throw_if mbind result_bind].
  { split; [done|]. by intros ((? & _) & _). }
  destruct (forallb (in_range 48 57) v) eqn:Hd; cbn [negb throw_if mbind result_bind].
  2: { split; [done|]. intros ((_ & Hall & _) & _). exfalso. rewrite <- not_true_iff_false in Hd. apply Hd.
       apply forallb_forall. intros c Hc%list_elem_of_In. rewrite Forall_forall in Hall. by apply Hall. }
  assert (Hall : Forall (fun c => in_range 48 57 c = true) v).
  { apply Forall_forall. intros c Hc%list_elem_of_In. rewrite forallb_forall in Hd. by apply Hd. }
  assert (Hpos : 0 <= decimal v).
  { by apply decimal_nonneg. }
  unfold isSafeInteger. rewrite Z.abs_eq by done.
  destruct (Z.leb_spec (decimal v) MAX_SAFE_INTEGER) as [Hm|Hm]; cbn [negb throw_if mbind result_bind].
  2: { split; [done|]. intros ((_ & _ & ?) & _). lia. }
  destruct e as [n|].
  - destruct (Z.eqb_spec (decimal v) n) as [<-|Hne]; cbn [negb throw_if mbind result_bind].
    + split; [intros [= <-]; auto|by intros (_ & -> & _)].
    + split; [done|]. intros (_ & _ & [?|?]); congruence.
  - split; [intros [= <-]; auto|by intros (_ & -> & _)].
Qed.

(** A list of values from a state that has seen some: all valid, all the same. *)
Lemma content_length_values_iff sid vs e e' :
  foldM (content_length_value sid) e vs = Ok e' <->
  Forall length_value_ok vs /\
  match e with
  | Some n => e' = Some n /\ Forall (fun v => decimal v = n) vs
  | None => match e' with
            | None => vs = []
            | Some n => vs <> [] /\ Forall (fun v => decimal v = n) vs
            end
  end.
Proof.
  revert e e'. induction vs as [|v vs IH]; intros e e'.
  - cbn. destruct e as [n|], e' as [m|]; naive_solver.
  - rewrite foldM_cons, Forall_cons.
    destruct (content_length_value sid e v) as [e1|err] eqn:E.
    + apply content_length_value_iff in E as (Hok & -> & He). rewrite IH.
      destruct e as [n|]; [destruct He as [?|[= ->]]; [done|]|].
      * rewrite Forall_cons. naive_solver.
      * destruct e' as [m|]; [|naive_solver]. rewrite Forall_cons. naive_solver.
    + split; [done|]. intros [[Hok _] Hm]. exfalso.
      assert (Hv : content_length_value sid e v = Ok (Some (decimal v))); [|congruence].
      apply content_length_value_iff. split; [done|]. split; [done|].
      destruct e as [n|]; [|by left]. destruct Hm as [_ Hm]. rewrite Forall_cons in Hm. right. f_equal. symmetry. apply Hm.
Qed.

Lemma parseContentLength_iff fs sid cl :
  parseContentLength fs sid = Ok cl <-> declares_length fs cl.
Proof.
  unfold parseContentLength, declares_length.
  assert (Hfold : forall e, foldM (fun expected field =>
      if str_eqb (name field) (u "content-length")
      then foldM (content_length_value sid) expected (js_split COMMA (value field)) else Ok expected) e fs
    = foldM (content_length_value sid) e (length_values fs)).
  { unfold length_values. induction fs as [|f fs IH]; intros e; [done|]. rewrite foldM_cons, filter_cons.
    unfold str_eqb at 1. case_bool_decide as Hn; [rewrite decide_True by done|rewrite decide_False by done].
    - rewrite bind_cons, foldM_app. by destruct (foldM _ e (js_split _ _)) as [e1|]; cbn [mbind result_bind].
    - apply IH. }
  rewrite Hfold, content_length_values_iff. done.
Qed.

Lemma parseContentLength_errors fs sid : only_stream_errors sid (parseContentLength fs sid).
Proof. unfold parseContentLength, content_length_value. stream_errors. Qed.

(** ** The request *)

Lemma request_complete_iff ext sid fs :
  request_complete ext sid (summary fs) = Ok tt <-> request_form ext fs.
Proof.
  unfold request_complete, is_null, is_blank. cbn [method scheme authority path protocol summary]. split.
  - intros Hc. ok_inv Hc. rewrite orb_false_iff, !bool_decide_eq_false in Hc0. destruct Hc0 as [Hm0 Hm1].
    destruct (find_value (u ":method") fs) as [m|] eqn:Em; [|done].
    destruct (find_value (u ":protocol") fs) as [q|] eqn:Eq; cbn [negb] in Hc.
    + rewrite bool_decide_eq_false_2 in Hc by done. cbn [negb] in Hc. ok_inv Hc.
      apply orb_false_iff in Hc0 as [He%negb_false_iff Hcon%negb_false_iff].
      apply bool_decide_eq_true in Hcon as [= ->]. apply throw_if_Ok in Hc.
      rewrite !orb_false_iff, !bool_decide_eq_false in Hc. destruct_and! Hc.
      destruct (find_value (u ":scheme") fs) as [s|] eqn:Es; [|done].
      destruct (find_value (u ":authority") fs) as [a|] eqn:Ea; [|done].
      destruct (find_value (u ":path") fs) as [p|] eqn:Ep; [|done].
      eapply form_extended_connect; done || congruence.
    + rewrite bool_decide_eq_true_2 in Hc by done. cbn [negb] in Hc. case_bool_decide as Hcon.
      * injection Hcon as ->. apply throw_if_Ok in Hc.
        rewrite !orb_false_iff, !negb_false_iff, !bool_decide_eq_false, !bool_decide_eq_true in Hc. destruct_and! Hc.
        destruct (find_value (u ":authority") fs) as [a|] eqn:Ea; [|done].
        eapply form_connect; done || congruence.
      * apply throw_if_Ok in Hc. rewrite !orb_false_iff, !bool_decide_eq_false in Hc. destruct_and! Hc.
        destruct (find_value (u ":scheme") fs) as [s|] eqn:Es; [|done].
        destruct (find_value (u ":authority") fs) as [a|] eqn:Ea; [|done].
        destruct (find_value (u ":path") fs) as [p|] eqn:Ep; [|done].
        eapply form_request; done || congruence.
  - intros [m s a p Hm Hm0 Hmc Hq Hs Hs0 Ha Ha0 Hp Hp0|a Hm Hq Hs Ha Ha0 Hp|s a p q He Hm Hq Hq0 Hs Ha Hp Hp0];
      rewrite Hm, Hq, Hs, Ha, Hp; try subst ext;
      repeat (case_bool_decide; try congruence; cbn [negb orb throw_if mbind result_bind]); done.
Qed.

Lemma request_headers_iff fs sid ext cl :
  validateHttp2RequestHeaders fs sid ext = Ok cl <->
  fields_wf request_names fs /\ declares_length fs cl /\ request_form ext fs.
Proof.
  unfold validateHttp2RequestHeaders. change (mk_pseudo false None None None None None) with (summary []).
  rewrite <- parseContentLength_iff with (sid := sid), <- request_complete_iff with (sid := sid).
  destruct (foldM (request_field sid) (summary []) fs) as [s|e] eqn:E; cbn [mbind result_bind].
  - apply request_loop_iff in E as [Hwf ->].
    destruct (parseContentLength fs sid) as [c|]; cbn [mbind result_bind]; [|naive_solver].
    destruct (request_complete ext sid (summary fs)) as [[]|]; cbn [mbind result_bind]; naive_solver.
  - split; [done|]. intros (Hwf & _). pose proof (proj2 (request_loop_iff sid fs _) (conj Hwf eq_refl)). congruence.
Qed.

Lemma request_headers_errors fs sid ext : only_stream_errors sid (validateHttp2RequestHeaders fs sid ext).
Proof.
  unfold validateHttp2RequestHeaders, request_field, request_complete, set_once.
  apply stream_errors_bind; [apply stream_errors_foldM; intros s f; apply stream_errors_bind|intros s];
    [apply validateField_errors|intros _; stream_errors|].
  apply stream_errors_bind; [apply parseContentLength_errors|]. intros cl. stream_errors.
Qed.
End Request.

(** ** Responses and trailers *)

Section Response.
Implicit Types f : DecodedHpackHeaderField.
Implicit Types fs : list DecodedHpackHeaderField.

Lemma response_field_iff sid fs f s :
  response_field sid (response_summary fs) f = Ok s <->
  field_wf f /\ (is_pseudo f -> Forall is_pseudo fs /\ name f ∈ [u ":status"] /\
    name f ∉ (name <$> filter is_pseudo fs)) /\ s = response_summary (fs ++ [f]).
Proof.
  unfold response_field. rewrite <- (validateField_iff f sid).
  destruct (validateField f sid) as [[]|e]; cbn [mbind result_bind]; [|by split; [|intros [? _]]].
  cbv zeta. unfold is_pseudo at 1. destruct (starts_with COLON (name f)) eqn:Ec.
  - cbn [andb response_summary rp_regular statusText rp_headers].
    rewrite pseudo_name_in by done. unfold str_eqb.
    destruct (bool_decide_reflect (Forall is_pseudo fs)) as [Hall|Hall]; cbn [negb throw_if mbind result_bind].
    2: { split; [done|]. intros (_ & Hf & _). by destruct (Hf eq_refl). }
    case_bool_decide as Hn.
    + rewrite Hn, <- find_value_None. destruct (find_value (u ":status") fs) as [v|] eqn:Ev;
        cbn [set_once throw_if mbind result_bind].
      * split; [done|]. intros (_ & Hf & _). by destruct (Hf eq_refl) as (_ & _ & ?).
      * assert (Hs : mk_response_state false (Some (value f)) (filter (fun f => ~ is_pseudo f) fs)
          = response_summary (fs ++ [f])).
        { unfold response_summary. rewrite (find_value_new fs f) by done.
          rewrite filter_app, filter_cons, filter_nil, decide_False, app_nil_r by (unfold is_pseudo; rewrite Ec; tauto).
          rewrite bool_decide_eq_true_2; [done|]. rewrite Forall_app, Forall_singleton. done. }
        rewrite Hs. split; [intros [= <-]|by intros (_ & _ & ->)].
        split; [done|]. split; [|done]. intros _. split; [done|]. split; [set_solver|done].
    + split; [done|]. intros (_ & Hf & _). destruct (Hf eq_refl) as (_ & Hin & _). set_solver.
  - cbn [andb throw_if mbind result_bind].
    unfold str_eqb. rewrite bool_decide_eq_false_2; [|intros Hn; by rewrite Hn in Ec].
    cbn [throw_if mbind result_bind response_summary rp_regular statusText rp_headers].
    assert (Hs : mk_response_state true (find_value (u ":status") fs) (filter (fun f => ~ is_pseudo f) fs ++ [f])
          = response_summary (fs ++ [f])).
    { unfold response_summary. rewrite (find_value_other fs f (name f)) by (done || intros Hn; by rewrite <- Hn in Ec).
      rewrite filter_app, filter_cons, filter_nil, decide_True by (unfold is_pseudo; rewrite Ec; done).
      rewrite bool_decide_eq_false_2; [done|]. rewrite Forall_app, Forall_singleton. unfold is_pseudo at 2.
      rewrite Ec. by intros [_ ?]. }
    rewrite Hs. split; [by intros [= <-]|by intros (_ & _ & ->)].
Qed.

Lemma response_loop_iff sid fs s :
  foldM (response_field sid) (response_summary []) fs = Ok s <->
  fields_wf [u ":status"] fs /\ s = response_summary fs.
Proof.
  revert s. induction fs as [|f fs IH] using rev_ind; intros s.
  - cbn [foldM]. split; [intros [= <-]|by intros [_ ->]]. split; [|done].
    split; [constructor| |constructor|constructor]. exists [], []. by split_and!.
  - rewrite foldM_app, fields_wf_snoc. cbn [foldM].
    destruct (foldM (response_field sid) (response_summary []) fs) as [s0|e] eqn:E; cbn [mbind result_bind].
    + destruct (proj1 (IH s0) eq_refl) as [Hwf ->].
      destruct (response_field sid (response_summary fs) f) as [s1|e1] eqn:E1; cbn [mbind result_bind].
      * apply response_field_iff in E1 as (Hf & Hfit & ->). split; [by intros [= <-]|by intros [_ ->]].
      * split; [done|]. intros [(_ & Hf & Hfit) ->].
        pose proof (proj2 (response_field_iff sid fs f _) (conj Hf (conj Hfit eq_refl))). congruence.
    + split; [done|]. intros [(Hwf & _) _]. pose proof (proj2 (IH _) (conj Hwf eq_refl)). congruence.
Qed.

Lemma response_headers_iff fs sid r :
  parseHttp2ResponseHeaders fs sid = Ok r <-> response_wf fs r.
Proof.
  unfold parseHttp2ResponseHeaders. change (mk_response_state false None []) with (response_summary []).
  destruct (foldM (response_field sid) (response_summary []) fs) as [s|e] eqn:E; cbn [mbind result_bind].
  2: { split; [done|]. intros [Hwf _ _ _]. pose proof (proj2 (response_loop_iff sid fs _) (conj Hwf eq_refl)). congruence. }
  apply response_loop_iff in E as [Hwf ->]. cbn [response_summary statusText rp_headers].
  destruct (find_value (u ":status") fs) as [text|] eqn:Et; cbn [mbind result_bind].
  2: { split; [done|]. intros [_ (? & Hv & _) _ _]. congruence. }
  split.
  - intros Hr. ok_inv Hr. ok_inv Hr. injection Hr as <-.
    apply orb_false_iff in Hc as [Ht%negb_false_iff H1%str_eqb_false].
    split; [done|by exists text|done|]. by apply parseContentLength_iff in Hx.
  - intros [_ (text' & Hv & Ht & H1 & Hs) Hh Hl]. rewrite Et in Hv. injection Hv as <-. rewrite Ht. cbn [negb orb].
    unfold str_eqb. rewrite bool_decide_eq_false_2 by done. cbn [throw_if mbind result_bind].
    rewrite Hh in Hl. apply (parseContentLength_iff _ sid) in Hl. rewrite Hl. cbn [mbind result_bind].
    destruct r as [st hs cl]. cbn in *. by subst.
Qed.

Lemma response_headers_errors fs sid : only_stream_errors sid (parseHttp2ResponseHeaders fs sid).
Proof.
  unfold parseHttp2ResponseHeaders, response_field, set_once.
  apply stream_errors_bind; [apply stream_errors_foldM; intros s f; apply stream_errors_bind|intros s];
    [apply validateField_errors|intros _; stream_errors|].
  apply stream_errors_bind; [destruct (statusText s); [done|by eexists]|]. intros text.
  apply stream_errors_bind; [apply stream_errors_throw_if|]. intros _.
  apply stream_errors_bind; [apply parseContentLength_errors|done].
Qed.

Lemma status_text_range v : is_status_text v = true -> 100 <= decimal v <= 599.
Proof.
  destruct v as [|a [|b [|c [|]]]]; try done. unfold is_status_text, decimal, in_range. cbn [foldl]. lia.
Qed.

Lemma trailers_iff fs sid out :
  parseHttp2Trailers fs sid = Ok out <->
  out = fs /\ Forall (fun f => field_wf f /\ ~ is_pseudo f /\
    name f ∉ [u "content-length"; u "host"; u "te"]) fs.
Proof.
  unfold parseHttp2Trailers. set (check := fun _ _ => _).
  assert (Hcheck : forall f t, check t f = Ok tt <-> field_wf f /\ ~ is_pseudo f /\
    name f ∉ [u "content-length"; u "host"; u "te"]).
  { intros f t. unfold check, is_pseudo, str_eqb. rewrite <- (validateField_iff f sid).
    destruct (validateField f sid) as [[]|e]; cbn [mbind result_bind]; [|naive_solver].
    destruct (starts_with COLON (name f)); cbn [throw_if mbind result_bind]; [naive_solver|].
    repeat case_bool_decide; cbn [orb throw_if]; set_solver. }
  assert (Hall : foldM check tt fs = Ok tt <-> Forall (fun f => field_wf f /\ ~ is_pseudo f /\
    name f ∉ [u "content-length"; u "host"; u "te"]) fs).
  { induction fs as [|f fs IH]; [done|]. rewrite foldM_cons, Forall_cons, <- IH, <- (Hcheck f tt).
    destruct (check tt f) as [[]|]; naive_solver. }
  rewrite <- Hall. destruct (foldM check tt fs) as [[]|]; cbn [mbind result_bind]; naive_solver.
Qed.
End Response.

(** ** Properties *)

(** C12: a request header list is accepted exactly when it is well formed: every
    field has a lower-case token name, a value without edge white space or
    controls and no connection-specific meaning; the pseudo-headers come first,
    are known and appear once; they form a request, a CONNECT or (when enabled)
    an extended CONNECT; and the Content-Length values are digits, exact and in
    agreement, the result being the declared length.  A rejected list is always a
    protocol error of its stream, so the connection survives it. *)
Theorem request_headers_accepted {F} `{HeaderField F} (fs : list F) sid ext :
  (forall cl, validateHttp2RequestHeaders fs sid ext = Ok cl <->
    fields_wf request_names fs /\ declares_length fs cl /\ request_form ext fs) /\
  only_stream_errors sid (validateHttp2RequestHeaders fs sid ext).
Proof. split; [intros cl; apply request_headers_iff|apply request_headers_errors]. Qed.

(** A response header list is accepted exactly when its fields are well
    formed, [:status] is its only pseudo-header, comes first and is a three-digit
    code other than 101, and the declared lengths agree; the result has the
    status (from 100 to 599), the regular fields in their order and the declared
    length.  A rejected list is always a protocol error of its stream. *)
Theorem response_headers_accepted (fs : list DecodedHpackHeaderField) sid :
  (forall r, parseHttp2ResponseHeaders fs sid = Ok r <-> response_wf fs r) /\
  (forall r, response_wf fs r -> 100 <= status r <= 599) /\
  only_stream_errors sid (parseHttp2ResponseHeaders fs sid).
Proof.
  split; [intros r; apply response_headers_iff|]. split; [|apply response_headers_errors].
  intros r [_ (text & _ & Ht & _ & ->) _ _]. by apply status_text_range.
Qed.

(** A trailer block is accepted, unchanged, exactly when every field is well
    formed, none is a pseudo-header and none is a framing or routing field. *)
Theorem trailers_accepted (fs : list DecodedHpackHeaderField) sid out :
  parseHttp2Trailers fs sid = Ok out <->
  out = fs /\ Forall (fun f => field_wf f /\ ~ is_pseudo f /\
    name f ∉ [u "content-length"; u "host"; u "te"]) fs.
Proof. apply trailers_iff. Qed.

Example request_example :
  validateHttp2RequestHeaders
    [mk_field (u ":method") (u "POST") None; mk_field (u ":scheme") (u "https") None;
     mk_field (u ":authority") (u "a.b") None; mk_field (u ":path") (u "/") None;
     mk_field (u "content-length") (u "12,12") None; mk_field (u "te") (u "trailers") None] 1 false
  = Ok (Some 12).
Proof. vm_compute. reflexivity. Qed.

Example response_example :
  parseHttp2ResponseHeaders [mk_decoded (u ":status") (u "204") false; mk_decoded (u "date") (u "x") false] 1
  = Ok (mk_response 204 [mk_decoded (u "date") (u "x") false] None).
Proof. vm_compute. reflexivity. Qed.
