(* ===== verification/Effects.v ===== *)
(** * Turns of an asynchronous program

    JavaScript runs one turn at a time, from one suspension of an [async]
    function to the next.  A turn is a function of the heap; what it changed
    before an exception stays changed.  The file gives the turns as a monad, the
    rules by which properties of its parts become properties of the whole, and
    the updates of one field of a record. *)

From S2P Require Import Prelude.

(** ** Field updates *)

(** [exact_update eta p v r]: the record [r] with the field [p] set to [v], where
    [eta] rebuilds a record from its fields. *)
Ltac exact_update eta p v r :=
  let e := eval pattern p in eta in
  match e with ?F _ => let t := eval cbv beta in (F (fun _ => v) r) in exact t end.

(** ** Turns *)

Definition Eff (S A : Type) : Type := S -> S * result A.

Definition eff_ret {S A} (a : A) : Eff S A := fun s => (s, Ok a).
Definition eff_bind {S A B} (m : Eff S A) (k : A -> Eff S B) : Eff S B := fun s =>
  match m s with (s, Ok a) => k a s | (s, Err e) => (s, Err e) end.

Declare Scope turn_scope.
Delimit Scope turn_scope with turn.
Notation "x ← m ; k" := (eff_bind m (fun x => k)) : turn_scope.
Notation "m ;; k" := (eff_bind m (fun _ => k)) : turn_scope.

Definition eff_lift {S A} (r : result A) : Eff S A := fun s => (s, r).
Definition eff_get {S A} (f : S -> A) : Eff S A := fun s => (s, Ok (f s)).
Definition eff_set {S} (f : S -> S) : Eff S unit := fun s => (f s, Ok tt).
Definition eff_throw {S A} (e : js_error) : Eff S A := fun s => (s, Err e).

(** [try { m } catch (e) { h }] *)
Definition eff_catch {S A} (m : Eff S A) (h : js_error -> Eff S A) : Eff S A := fun s =>
  match m s with (s, Ok a) => (s, Ok a) | (s, Err e) => h e s end.

(** [if (b) m] *)
Definition eff_when {S} (b : bool) (m : Eff S unit) : Eff S unit := if b then m else eff_ret tt.

(** [for (const a of l) f(a)] *)
Fixpoint eff_each {S A} (f : A -> Eff S unit) (l : list A) : Eff S unit :=
  match l with
  | [] => eff_ret tt
  | a :: l => eff_bind (f a) (fun _ => eff_each f l)
  end.

(** ** What a turn does to the heap

    [does R m]: whatever the outcome, the heaps before and after are related. *)

Definition does {S A} (R : S -> S -> Prop) (m : Eff S A) : Prop := forall s, R s (m s).1.

Section Does.
Context {S : Type} (R : S -> S -> Prop) `{!PreOrder R}.

Lemma does_ret {A} (a : A) : does R (eff_ret a : Eff S A).
Proof. intros s. cbn. reflexivity. Qed.

Lemma does_lift {A} (r : result A) : does R (eff_lift r : Eff S A).
Proof. intros s. cbn. reflexivity. Qed.

Lemma does_get {A} (f : S -> A) : does R (eff_get f).
Proof. intros s. cbn. reflexivity. Qed.

Lemma does_throw {A} e : does R (eff_throw e : Eff S A).
Proof. intros s. cbn. reflexivity. Qed.

Lemma does_set f : (forall s, R s (f s)) -> does R (eff_set f).
Proof. intros H s. apply H. Qed.

Lemma does_bind {A B} (m : Eff S A) (k : A -> Eff S B) :
  does R m -> (forall a, does R (k a)) -> does R (eff_bind m k).
Proof.
  intros Hm Hk s. unfold eff_bind. specialize (Hm s). destruct (m s) as [s' [a|e]]; cbn in *; [|exact Hm].
  transitivity s'; [exact Hm|apply Hk].
Qed.

Lemma does_catch {A} (m : Eff S A) h : does R m -> (forall e, does R (h e)) -> does R (eff_catch m h).
Proof.
  intros Hm Hh s. unfold eff_catch. specialize (Hm s). destruct (m s) as [s' [a|e]]; cbn in *; [exact Hm|].
  transitivity s'; [exact Hm|apply Hh].
Qed.

Lemma does_when b m : does R m -> does R (eff_when b m).
Proof. intros Hm. destruct b; [done|apply does_ret]. Qed.

Lemma does_each {A} (f : A -> Eff S unit) l : (forall a, does R (f a)) -> does R (eff_each f l).
Proof. intros Hf. induction l as [|a l IH]; [apply does_ret|]. cbn. apply does_bind; [apply Hf|done]. Qed.

End Does.

(** Goals [does R m] for a turn built by the combinators. *)
Create HintDb turns.
#[export] Hint Resolve does_ret does_lift does_get does_throw does_when does_each does_catch : turns.

Ltac turn_step :=
  match goal with
  | |- forall _, _ => intro
  | |- does _ (eff_bind _ _) => apply does_bind; [assumption|..]
  | |- does _ (if ?b then _ else _) => destruct b
  | |- does _ (match ?x with _ => _ end) => destruct x
  | |- does _ (let _ := _ in _) => cbv zeta
  end.
