(* ===== verification/Http2Heap.v ===== *)
(** * The heap of an HTTP/2 client connection ([http2/connection.ts])

    The options, the streams and the connection as records.  What an [async]
    method keeps across an [await] is in the heap too: [reading], [requests],
    [drains] and [finishing] of the connection, [pulling] and [upload] of a
    stream.  A promise is a number; [promises] has the outcome of the settled
    ones.  Two fields are history and are read by no method: [sent] and
    [delivered]. *)

From stdpp Require Export gmap.
From S2P Require Import Prelude Effects Hpack Frame HeaderRules.

(** ** Options *)

Record Http2ConnectionOptions := mk_options {
  opt_headerTableSize : option Z;
  opt_initialStreamWindowSize : option Z;
  opt_connectionWindowSize : option Z;
  opt_maximumFrameSize : option Z;
  opt_maximumHeaderListBytes : option Z;
  opt_maximumHeaderStringBytes : option Z;
  opt_maximumCompressedHeaderBlockBytes : option Z;
  opt_maximumHeaderBlockFragments : option Z;
  opt_maximumConcurrentStreams : option Z;
  opt_maximumPendingRequests : option Z;
  opt_enableConnectProtocol : option bool;
}.

Record NormalizedOptions := mk_normalized {
  headerTableSize : Z;
  initialStreamWindowSize : Z;
  connectionWindowSize : Z;
  maximumFrameSize : Z;
  maximumHeaderListBytes : Z;
  maximumHeaderStringBytes : Z;
  maximumCompressedHeaderBlockBytes : Z;
  maximumHeaderBlockFragments : Z;
  maximumConcurrentStreams : Z;
  maximumPendingRequests : Z;
  enableConnectProtocol : bool;
}.

Definition requireInteger (value minimum maximum : Z) (name : string) : result unit :=
  throw_if ((value <? minimum) || (maximum <? value)) (RangeError (name +:+ " is outside the permitted range")).

Definition normalizeOptions (o : Http2ConnectionOptions) : result NormalizedOptions :=
  let n := mk_normalized
    (default 4096 (opt_headerTableSize o))
    (default HTTP2_DEFAULT_WINDOW_SIZE (opt_initialStreamWindowSize o))
    (default (1024 * 1024) (opt_connectionWindowSize o))
    (default HTTP2_DEFAULT_FRAME_SIZE (opt_maximumFrameSize o))
    (default (64 * 1024) (opt_maximumHeaderListBytes o))
    (default (64 * 1024) (opt_maximumHeaderStringBytes o))
    (default (64 * 1024) (opt_maximumCompressedHeaderBlockBytes o))
    (default 1024 (opt_maximumHeaderBlockFragments o))
    (default 100 (opt_maximumConcurrentStreams o))
    (default 1024 (opt_maximumPendingRequests o))
    (default true (opt_enableConnectProtocol o)) in
  requireInteger (headerTableSize n) 0 0xffffffff "HTTP/2 header table size" ;;
  requireInteger (initialStreamWindowSize n) 0 HTTP2_MAX_WINDOW_SIZE "HTTP/2 initial stream window" ;;
  requireInteger (connectionWindowSize n) HTTP2_DEFAULT_WINDOW_SIZE HTTP2_MAX_WINDOW_SIZE "HTTP/2 connection window" ;;
  requireInteger (maximumFrameSize n) HTTP2_DEFAULT_FRAME_SIZE HTTP2_MAX_FRAME_SIZE "HTTP/2 maximum frame size" ;;
  requireInteger (maximumHeaderListBytes n) 0 0xffffffff "HTTP/2 maximum header list size" ;;
  requireInteger (maximumHeaderStringBytes n) 0 HTTP2_MAX_WINDOW_SIZE "HTTP/2 maximum header string size" ;;
  requireInteger (maximumCompressedHeaderBlockBytes n) 0 HTTP2_MAX_WINDOW_SIZE "HTTP/2 maximum compressed header block size" ;;
  requireInteger (maximumHeaderBlockFragments n) 1 HTTP2_MAX_WINDOW_SIZE "HTTP/2 header block fragment limit" ;;
  requireInteger (maximumConcurrentStreams n) 0 0xffffffff "HTTP/2 maximum concurrent streams" ;;
  requireInteger (maximumPendingRequests n) 0 HTTP2_MAX_WINDOW_SIZE "HTTP/2 pending request limit" ;;
  Ok n.

Definition errorFromPeer (errorCode streamId : Z) (message : string) : js_error :=
  Http2WireError message errorCode (Some streamId).

(** A failure of the connection: [new Http2WireError(message, errorCode)]. *)
Definition wireError (message : string) (errorCode : Z) : js_error := Http2WireError message errorCode None.

Fixpoint requestMethod (headers : list HpackHeaderField) : jsstr :=
  match headers with
  | [] => []
  | field :: headers => if str_eqb (f_name field) (u ":method") then f_value field else requestMethod headers
  end.

(** ** Streams *)

Inductive IncomingItem :=
| IncomingData (bytes : list Z) (flowBytes : Z)
| IncomingEnd
| IncomingError (reason : js_error).

(** The [ReadableStream] of a response body, as its controller sees it. *)
Inductive body_state := body_open | body_closed | body_errored (reason : js_error).

(** [pullBody] at its [await]: not running, waiting for an item ([incomingWaiter]
    is set), or resumed with an item. *)
Inductive pull_state := pull_idle | pull_waiting | pull_taken (item : IncomingItem).

(** [sendRequestBody] at its [await]s: [reader.read()], [waitForFlowChange] with
    the rest of a chunk, the write of a DATA frame of a chunk, the last write. *)
Inductive upload_state :=
| upload_none
| upload_reading
| upload_waiting (chunk : list Z) (offset signal : Z)
| upload_writing (chunk : list Z) (offset written : Z)
| upload_ending (written : Z).

(** The private fields of the class, and the suspended functions of the stream. *)
Record Http2ClientStream := mk_stream {
  st_id : Z;
  sendWindow : Z;
  receiveWindow : Z;
  localEnded : bool;
  remoteEnded : bool;
  responseDelivered : bool;
  responseStatus : Z;
  expectedContentLength : option Z;
  receivedBodyBytes : Z;
  bodyForbidden : bool;
  responseResult : option (result Http2ResponseHeaders);   (** the promise, once settled *)
  trailersResult : option (result (list DecodedHpackHeaderField));
  onInformational : option (Http2ResponseHeaders -> result unit);
  incoming : list IncomingItem;
  incomingOffset : Z;
  appTerminal : bool;
  failed : bool;
  trailersSettled : bool;
  uploadReader : bool;   (** [uploadReader !== null] *)
  disposeAbort : bool;   (** subscribed to the signal *)
  expectedSendLength : option Z;
  sentBodyBytes : Z;
  bodyState : body_state;   (** the state of [body] *)
  pulling : pull_state;   (** the suspended [pullBody] *)
  delivered : list (list Z);   (** the chunks enqueued to [body] *)
  upload : upload_state;   (** the suspended [sendRequestBody] *)
}.

Ltac update_stream p v r :=
  exact_update (fun r : Http2ClientStream => mk_stream (st_id r) (sendWindow r) (receiveWindow r) (localEnded
    r) (remoteEnded r) (responseDelivered r) (responseStatus r) (expectedContentLength r) (receivedBodyBytes
    r) (bodyForbidden r) (responseResult r) (trailersResult r) (onInformational r) (incoming r)
    (incomingOffset r) (appTerminal r) (failed r) (trailersSettled r) (uploadReader r) (disposeAbort r)
    (expectedSendLength r) (sentBodyBytes r) (bodyState r) (pulling r) (delivered r) (upload r)) p v r.

Definition set_st_id (v : Z) (r : Http2ClientStream) : Http2ClientStream := ltac:(update_stream (st_id) v r).
Definition set_sendWindow (v : Z) (r : Http2ClientStream) : Http2ClientStream := ltac:(update_stream (sendWindow) v r).
Definition set_receiveWindow (v : Z) (r : Http2ClientStream) : Http2ClientStream := ltac:(update_stream (receiveWindow) v r).
Definition set_localEnded (v : bool) (r : Http2ClientStream) : Http2ClientStream := ltac:(update_stream (localEnded) v r).
Definition set_remoteEnded (v : bool) (r : Http2ClientStream) : Http2ClientStream := ltac:(update_stream (remoteEnded) v r).
Definition set_responseDelivered (v : bool) (r : Http2ClientStream) : Http2ClientStream := ltac:(update_stream (responseDelivered) v r).
Definition set_responseStatus (v : Z) (r : Http2ClientStream) : Http2ClientStream := ltac:(update_stream (responseStatus) v r).
Definition set_expectedContentLength (v : option Z) (r : Http2ClientStream) : Http2ClientStream := ltac:(update_stream (expectedContentLength) v r).
Definition set_receivedBodyBytes (v : Z) (r : Http2ClientStream) : Http2ClientStream := ltac:(update_stream (receivedBodyBytes) v r).
Definition set_bodyForbidden (v : bool) (r : Http2ClientStream) : Http2ClientStream := ltac:(update_stream (bodyForbidden) v r).
Definition set_responseResult (v : option (result Http2ResponseHeaders)) (r : Http2ClientStream) : Http2ClientStream := ltac:(update_stream (responseResult) v r).
Definition set_trailersResult (v : option (result (list DecodedHpackHeaderField))) (r : Http2ClientStream) : Http2ClientStream := ltac:(update_stream (trailersResult) v r).
Definition set_onInformational (v : option (Http2ResponseHeaders -> result unit)) (r : Http2ClientStream) : Http2ClientStream := ltac:(update_stream (onInformational) v r).
Definition set_incoming (v : list IncomingItem) (r : Http2ClientStream) : Http2ClientStream := ltac:(update_stream (incoming) v r).
Definition set_incomingOffset (v : Z) (r : Http2ClientStream) : Http2ClientStream := ltac:(update_stream (incomingOffset) v r).
Definition set_appTerminal (v : bool) (r : Http2ClientStream) : Http2ClientStream := ltac:(update_stream (appTerminal) v r).
Definition set_failed (v : bool) (r : Http2ClientStream) : Http2ClientStream := ltac:(update_stream (failed) v r).
Definition set_trailersSettled (v : bool) (r : Http2ClientStream) : Http2ClientStream := ltac:(update_stream (trailersSettled) v r).
Definition set_uploadReader (v : bool) (r : Http2ClientStream) : Http2ClientStream := ltac:(update_stream (uploadReader) v r).
Definition set_disposeAbort (v : bool) (r : Http2ClientStream) : Http2ClientStream := ltac:(update_stream (disposeAbort) v r).
Definition set_expectedSendLength (v : option Z) (r : Http2ClientStream) : Http2ClientStream := ltac:(update_stream (expectedSendLength) v r).
Definition set_sentBodyBytes (v : Z) (r : Http2ClientStream) : Http2ClientStream := ltac:(update_stream (sentBodyBytes) v r).
Definition set_bodyState (v : body_state) (r : Http2ClientStream) : Http2ClientStream := ltac:(update_stream (bodyState) v r).
Definition set_pulling (v : pull_state) (r : Http2ClientStream) : Http2ClientStream := ltac:(update_stream (pulling) v r).
Definition set_delivered (v : list (list Z)) (r : Http2ClientStream) : Http2ClientStream := ltac:(update_stream (delivered) v r).
Definition set_upload (v : upload_state) (r : Http2ClientStream) : Http2ClientStream := ltac:(update_stream (upload) v r).


Definition new_Http2ClientStream (id initialSendWindow initialReceiveWindow : Z) (method : jsstr) (hasBody : bool)
    (expectedSendLength : option Z) (onInformational : option (Http2ResponseHeaders -> result unit)) : Http2ClientStream :=
  mk_stream id initialSendWindow initialReceiveWindow (negb hasBody) false false 0 None 0 (str_eqb method (u "HEAD"))
    None None onInformational [] 0 false false false false false expectedSendLength 0
    body_open pull_idle [] upload_none.

(** ** The connection *)

Record SlotWaiter := mk_waiter {
  w_result : Z;   (** its promise *)
  w_active : bool;
}.

(** [readLoop] at its [await]s, with [start] before it. *)
Inductive reader_state :=
| reader_none
| reader_starting (written : Z)
| reader_reading
| reader_settings (written : Z)
| reader_ping (written : Z)
| reader_done.

Record Http2ClientRequest := mk_request {
  rq_headers : list HpackHeaderField;
  rq_body : bool;   (** [body !== null] *)
  rq_onInformational : option (Http2ResponseHeaders -> result unit);
}.

(** [request] at its [await]s: the peer's settings, the turn of
    [reserveStreamSlot], a slot, the turn after it, the write of the header block;
    then its outcome. *)
Inductive request_state :=
| request_awaiting
| request_unreserved
| request_waiting (slot : Z)
| request_granted
| request_sending (id written : Z)
| request_returned (id : Z)
| request_rejected (reason : js_error).

Record Request := mk_call {
  r_request : Http2ClientRequest;
  r_aborted : option js_error;   (** the reason of the aborted signal *)
  r_state : request_state;
}.

(** The private fields of the class, its promises and its suspended functions. *)
Record Http2ClientConnection := mk_connection {
  connection_closed : bool;   (** [connection.closed] *)
  options : NormalizedOptions;
  decoder : HpackDecoder;
  encoder : HpackEncoder;
  blocks : Http2HeaderBlockAssembler;
  streams : list Z;   (** the keys of the map, in order *)
  objects : gmap Z Http2ClientStream;   (** every stream object *)
  writes : list (list Z * Z);   (** bytes and promise *)
  writeOffset : Z;
  writing : bool;
  slotWaiters : list SlotWaiter;
  slotOffset : Z;
  reservedSlots : Z;
  readyResult : Z;
  closedResult : Z;
  flowSignal : Z;
  nextStreamId : Z;
  highestOpenedStreamId : Z;
  remoteMaximumConcurrentStreams : Z;
  remoteInitialWindowSize : Z;
  remoteMaximumFrameSize : Z;
  remoteMaximumHeaderListSize : Z;
  remoteExtendedConnect : bool;
  connectionSendWindow : Z;
  connectionReceiveWindow : Z;
  receivedSettings : bool;
  settingsAcknowledged : bool;
  started : bool;
  draining : bool;
  terminating : bool;
  terminated : bool;
  remoteLastStreamId : Z;
  localGoAwaySent : bool;
  remoteGoAwayReceived : bool;
  promises : gmap Z (result unit);   (** the settled promises *)
  nextPromise : Z;
  reading : reader_state;   (** the suspended [readLoop] *)
  requests : gmap Z Request;   (** the calls of [request] *)
  drains : list Z;   (** the suspended calls of [drain] *)
  finishing : option Z;   (** the [GOAWAY] that [terminate] waits for *)
  sent : list Http2Frame;   (** the frames enqueued so far *)
}.

Ltac update_connection p v r :=
  exact_update (fun r : Http2ClientConnection => mk_connection (connection_closed r) (options r) (decoder r)
    (encoder r) (blocks r) (streams r) (objects r) (writes r) (writeOffset r) (writing r) (slotWaiters r)
    (slotOffset r) (reservedSlots r) (readyResult r) (closedResult r) (flowSignal r) (nextStreamId r)
    (highestOpenedStreamId r) (remoteMaximumConcurrentStreams r) (remoteInitialWindowSize r)
    (remoteMaximumFrameSize r) (remoteMaximumHeaderListSize r) (remoteExtendedConnect r) (connectionSendWindow
    r) (connectionReceiveWindow r) (receivedSettings r) (settingsAcknowledged r) (started r) (draining r)
    (terminating r) (terminated r) (remoteLastStreamId r) (localGoAwaySent r) (remoteGoAwayReceived r)
    (promises r) (nextPromise r) (reading r) (requests r) (drains r) (finishing r) (sent r)) p v r.

Definition set_connection_closed (v : bool) (r : Http2ClientConnection) : Http2ClientConnection := ltac:(update_connection (connection_closed) v r).
Definition set_options (v : NormalizedOptions) (r : Http2ClientConnection) : Http2ClientConnection := ltac:(update_connection (options) v r).
Definition set_decoder (v : HpackDecoder) (r : Http2ClientConnection) : Http2ClientConnection := ltac:(update_connection (decoder) v r).
Definition set_encoder (v : HpackEncoder) (r : Http2ClientConnection) : Http2ClientConnection := ltac:(update_connection (encoder) v r).
Definition set_blocks (v : Http2HeaderBlockAssembler) (r : Http2ClientConnection) : Http2ClientConnection := ltac:(update_connection (blocks) v r).
Definition set_streams (v : list Z) (r : Http2ClientConnection) : Http2ClientConnection := ltac:(update_connection (streams) v r).
Definition set_objects (v : gmap Z Http2ClientStream) (r : Http2ClientConnection) : Http2ClientConnection := ltac:(update_connection (objects) v r).
Definition set_writes (v : list (list Z * Z)) (r : Http2ClientConnection) : Http2ClientConnection := ltac:(update_connection (writes) v r).
Definition set_writeOffset (v : Z) (r : Http2ClientConnection) : Http2ClientConnection := ltac:(update_connection (writeOffset) v r).
Definition set_writing (v : bool) (r : Http2ClientConnection) : Http2ClientConnection := ltac:(update_connection (writing) v r).
Definition set_slotWaiters (v : list SlotWaiter) (r : Http2ClientConnection) : Http2ClientConnection := ltac:(update_connection (slotWaiters) v r).
Definition set_slotOffset (v : Z) (r : Http2ClientConnection) : Http2ClientConnection := ltac:(update_connection (slotOffset) v r).
Definition set_reservedSlots (v : Z) (r : Http2ClientConnection) : Http2ClientConnection := ltac:(update_connection (reservedSlots) v r).
Definition set_readyResult (v : Z) (r : Http2ClientConnection) : Http2ClientConnection := ltac:(update_connection (readyResult) v r).
Definition set_closedResult (v : Z) (r : Http2ClientConnection) : Http2ClientConnection := ltac:(update_connection (closedResult) v r).
Definition set_flowSignal (v : Z) (r : Http2ClientConnection) : Http2ClientConnection := ltac:(update_connection (flowSignal) v r).
Definition set_nextStreamId (v : Z) (r : Http2ClientConnection) : Http2ClientConnection := ltac:(update_connection (nextStreamId) v r).
Definition set_highestOpenedStreamId (v : Z) (r : Http2ClientConnection) : Http2ClientConnection := ltac:(update_connection (highestOpenedStreamId) v r).
Definition set_remoteMaximumConcurrentStreams (v : Z) (r : Http2ClientConnection) : Http2ClientConnection := ltac:(update_connection (remoteMaximumConcurrentStreams) v r).
Definition set_remoteInitialWindowSize (v : Z) (r : Http2ClientConnection) : Http2ClientConnection := ltac:(update_connection (remoteInitialWindowSize) v r).
Definition set_remoteMaximumFrameSize (v : Z) (r : Http2ClientConnection) : Http2ClientConnection := ltac:(update_connection (remoteMaximumFrameSize) v r).
Definition set_remoteMaximumHeaderListSize (v : Z) (r : Http2ClientConnection) : Http2ClientConnection := ltac:(update_connection (remoteMaximumHeaderListSize) v r).
Definition set_remoteExtendedConnect (v : bool) (r : Http2ClientConnection) : Http2ClientConnection := ltac:(update_connection (remoteExtendedConnect) v r).
Definition set_connectionSendWindow (v : Z) (r : Http2ClientConnection) : Http2ClientConnection := ltac:(update_connection (connectionSendWindow) v r).
Definition set_connectionReceiveWindow (v : Z) (r : Http2ClientConnection) : Http2ClientConnection := ltac:(update_connection (connectionReceiveWindow) v r).
Definition set_receivedSettings (v : bool) (r : Http2ClientConnection) : Http2ClientConnection := ltac:(update_connection (receivedSettings) v r).
Definition set_settingsAcknowledged (v : bool) (r : Http2ClientConnection) : Http2ClientConnection := ltac:(update_connection (settingsAcknowledged) v r).
Definition set_started (v : bool) (r : Http2ClientConnection) : Http2ClientConnection := ltac:(update_connection (started) v r).
Definition set_draining (v : bool) (r : Http2ClientConnection) : Http2ClientConnection := ltac:(update_connection (draining) v r).
Definition set_terminating (v : bool) (r : Http2ClientConnection) : Http2ClientConnection := ltac:(update_connection (terminating) v r).
Definition set_terminated (v : bool) (r : Http2ClientConnection) : Http2ClientConnection := ltac:(update_connection (terminated) v r).
Definition set_remoteLastStreamId (v : Z) (r : Http2ClientConnection) : Http2ClientConnection := ltac:(update_connection (remoteLastStreamId) v r).
Definition set_localGoAwaySent (v : bool) (r : Http2ClientConnection) : Http2ClientConnection := ltac:(update_connection (localGoAwaySent) v r).
Definition set_remoteGoAwayReceived (v : bool) (r : Http2ClientConnection) : Http2ClientConnection := ltac:(update_connection (remoteGoAwayReceived) v r).
Definition set_promises (v : gmap Z (result unit)) (r : Http2ClientConnection) : Http2ClientConnection := ltac:(update_connection (promises) v r).
Definition set_nextPromise (v : Z) (r : Http2ClientConnection) : Http2ClientConnection := ltac:(update_connection (nextPromise) v r).
Definition set_reading (v : reader_state) (r : Http2ClientConnection) : Http2ClientConnection := ltac:(update_connection (reading) v r).
Definition set_requests (v : gmap Z Request) (r : Http2ClientConnection) : Http2ClientConnection := ltac:(update_connection (requests) v r).
Definition set_drains (v : list Z) (r : Http2ClientConnection) : Http2ClientConnection := ltac:(update_connection (drains) v r).
Definition set_finishing (v : option Z) (r : Http2ClientConnection) : Http2ClientConnection := ltac:(update_connection (finishing) v r).
Definition set_sent (v : list Http2Frame) (r : Http2ClientConnection) : Http2ClientConnection := ltac:(update_connection (sent) v r).
