(* ===== verification/Http2Connection.v ===== *)
(** * The methods of an HTTP/2 client connection ([http2/connection.ts])

    Every method as a turn on the heap; an [async] method is cut at its [await]s,
    and each continuation is an event of its own.  [step] runs one event; an event
    that cannot happen changes nothing.  The transport is what reports the end of
    a write ([ev_written]) and the frames it read ([ev_frame]). *)

From stdpp Require Import gmap.
From S2P Require Import Prelude Effects Hpack Frame HeaderRules Http2Heap.
Local Open Scope Z_scope.
Local Open Scope turn_scope.

Definition Turn : Type -> Type := Eff Http2ClientConnection.

(** ** Promises and objects *)

Definition get_ {A} (f : Http2ClientConnection -> A) : Turn A := eff_get f.
Definition put {A} (set : A -> Http2ClientConnection -> Http2ClientConnection) (a : A) : Turn unit := eff_set (set a).

(** A new promise, pending or settled. *)
Definition promise (r : option (result unit)) : Turn Z := fun c =>
  let p := nextPromise c in
  (set_nextPromise (p + 1) (match r with Some r => set_promises (<[p := r]> (promises c)) c | None => c end), Ok p).

(** [resolve] and [reject]: only the first has an effect. *)
Definition settle (p : Z) (r : result unit) : Turn unit := eff_set (fun c =>
  match promises c !! p with Some _ => c | None => set_promises (<[p := r]> (promises c)) c end).

(** A reference to a stream is never dangling; [no_stream] makes the lookup total. *)
Definition no_stream : Http2ClientStream := new_Http2ClientStream 0 0 0 [] false None None.
Definition stream_of (c : Http2ClientConnection) (id : Z) : Http2ClientStream := default no_stream (objects c !! id).
Definition the (id : Z) : Turn Http2ClientStream := eff_get (fun c => stream_of c id).
Definition change (id : Z) (f : Http2ClientStream -> Http2ClientStream) : Turn unit :=
  eff_set (fun c => set_objects (alter f id (objects c)) c).

Definition has_stream (c : Http2ClientConnection) (id : Z) : bool := bool_decide (id ∈ streams c).

(** [for (const stream of this.streams.values())]: an entry deleted by the body is
    not visited, and no body adds one. *)
Definition each_stream (f : Z -> Turn unit) : Turn unit :=
  ids ← get_ streams;
  eff_each (fun id => present ← get_ (fun c => has_stream c id); eff_when present (f id)) ids.

(** ** Writing *)

(** [drainWrites], from the head of its loop to the next [await]. *)
Definition write_next : Turn unit := eff_set (fun c =>
  if writeOffset c <? len (writes c) then set_writeOffset (writeOffset c + 1) c
  else set_writing false (set_writeOffset 0 (set_writes [] c))).

Definition drainWrites : Turn unit :=
  busy ← get_ writing;
  if busy then eff_ret tt else put set_writing true ;; write_next.

Definition enqueueBytes (frames : list Http2Frame) (bytes : list Z) : Turn Z :=
  c ← get_ id;
  if terminated c then promise (Some (Err (TypeError "HTTP/2 connection is closed")))
  else
    p ← promise None;
    eff_set (fun c => set_writes (writes c ++ [(bytes, p)]) c) ;;
    eff_set (fun c => set_sent (sent c ++ frames) c) ;;
    eff_when (negb (writing c)) drainWrites ;;
    eff_ret p.

(** An [async] method: what it throws rejects its promise. *)
Definition sendFrame (frame : Http2Frame) : Turn Z :=
  c ← get_ id;
  match encodeHttp2Frame frame (remoteMaximumFrameSize c) with
  | Ok bytes => enqueueBytes [frame] bytes
  | Err e => promise (Some (Err e))
  end.

Definition encode_frame (maximumFrameSize : Z) (encoded : list Z) (frame : Http2Frame) : result (list Z) :=
  fmap (fun bytes => encoded ++ bytes) (encodeHttp2Frame frame maximumFrameSize).

Definition sendFrames (frames : list Http2Frame) : Turn Z :=
  c ← get_ id;
  match foldM (encode_frame (remoteMaximumFrameSize c)) [] frames with
  | Ok bytes => enqueueBytes frames bytes
  | Err e => promise (Some (Err e))
  end.

(** The [do] loop of [sendHeaderBlock]. *)
Fixpoint header_frames (fuel : nat) (maximum streamId : Z) (block : list Z) (endStream : bool)
    (offset : Z) (first : bool) : result (list Http2Frame) :=
  match fuel with
  | O => Err OutOfFuel
  | S fuel =>
      let e := Z.min (offset + maximum) (len block) in
      let last := e =? len block in
      let frame := mk_frame (if first then HTTP2_FRAME_HEADERS else HTTP2_FRAME_CONTINUATION)
        ((if first && endStream then HTTP2_FLAG_END_STREAM else 0) .| (if last then HTTP2_FLAG_END_HEADERS else 0))
        streamId (subarray block offset e) in
      if e <? len block then
        fmap (cons frame) (header_frames fuel maximum streamId block endStream e false)
      else Ok [frame]
  end.

Definition sendHeaderBlock (streamId : Z) (block : list Z) (endStream : bool) : Turn Z :=
  c ← get_ id;
  match header_frames (S (length block)) (remoteMaximumFrameSize c) streamId block endStream 0 true with
  | Ok frames => sendFrames frames
  | Err e => promise (Some (Err e))
  end.

(** [sendFrame] with a payload that is computed first, and may throw. *)
Definition send_with (type flags streamId : Z) (payload : result (list Z)) : Turn Z :=
  payload ← eff_lift payload;
  sendFrame (mk_frame type flags streamId payload).

Definition sendClosedStreamReset (streamId : Z) : Turn unit :=
  send_with HTTP2_FRAME_RST_STREAM 0 streamId (encodeHttp2ErrorCode HTTP2_STREAM_CLOSED) ;; eff_ret tt.

(** ** Slots and signals *)

Definition notifyFlowChange : Turn unit :=
  previous ← get_ flowSignal;
  p ← promise None;
  put set_flowSignal p ;;
  settle previous (Ok tt).

Definition slot_free (c : Http2ClientConnection) : bool :=
  len (streams c) + reservedSlots c <? remoteMaximumConcurrentStreams c.

Definition inactive (w : SlotWaiter) : SlotWaiter := mk_waiter (w_result w) false.

(** The loop of [wakeSlotWaiters] over the waiters from [slotOffset] on. *)
Fixpoint wake_loop (l : list SlotWaiter) : Turn unit :=
  match l with
  | [] => eff_ret tt
  | w :: l =>
      c ← get_ id;
      if slot_free c then
        put set_slotOffset (slotOffset c + 1) ;;
        eff_when (w_active w) (
          put set_slotWaiters (alter inactive (Z.to_nat (slotOffset c)) (slotWaiters c)) ;;
          put set_reservedSlots (reservedSlots c + 1) ;;
          settle (w_result w) (Ok tt)) ;;
        wake_loop l
      else eff_ret tt
  end.

Definition pending_waiters (c : Http2ClientConnection) : list SlotWaiter := drop (Z.to_nat (slotOffset c)) (slotWaiters c).

Definition wakeSlotWaiters : Turn unit :=
  l ← get_ pending_waiters;
  wake_loop l ;;
  eff_set (fun c =>
    if (32 <? slotOffset c) && (len (slotWaiters c) <=? slotOffset c * 2)
    then set_slotOffset 0 (set_slotWaiters (pending_waiters c) c) else c).

Definition failSlotWaiters (reason : js_error) : Turn unit :=
  l ← get_ pending_waiters;
  eff_each (fun w => eff_when (w_active w) (settle (w_result w) (Err reason))) l ;;
  put set_slotWaiters [] ;; put set_slotOffset 0.

(** ** Streams that end *)

Definition finishApplication (id : Z) : Turn unit := change id (fun s =>
  if appTerminal s then s else set_uploadReader false (set_disposeAbort false (set_appTerminal true s))).

Definition settled {A} (p : option (result A)) (r : result A) : option (result A) := Some (default r p).

Definition settleTrailers (id : Z) (fields : list DecodedHpackHeaderField) : Turn unit := change id (fun s =>
  if trailersSettled s then s
  else set_trailersResult (settled (trailersResult s) (Ok fields)) (set_trailersSettled true s)).

Definition push_item (item : IncomingItem) (s : Http2ClientStream) : Http2ClientStream :=
  match pulling s with
  | pull_waiting => set_pulling (pull_taken item) s
  | _ => set_incoming (incoming s ++ [item]) s
  end.

Definition pushIncoming (id : Z) (item : IncomingItem) : Turn unit := change id (push_item item).

Definition item_flow (item : IncomingItem) : Z := match item with IncomingData _ flowBytes => flowBytes | _ => 0 end.
Definition queued (s : Http2ClientStream) : list IncomingItem := drop (Z.to_nat (incomingOffset s)) (incoming s).
Definition items_flow (l : list IncomingItem) : Z := foldr (fun item n => item_flow item + n) 0 l.

(** [finish], the local function of [terminate]. *)
Definition finish_termination : Turn unit :=
  c ← get_ id;
  if terminated c then eff_ret tt
  else put set_terminated true ;; put set_connection_closed true ;; settle (closedResult c) (Ok tt).

Section Credit.

(** The methods below and [returnConnectionCredit] call each other: [credit] is
    the latter. *)
Variable credit : Z -> Turn unit.

Definition discard_with (id : Z) : Turn unit :=
  s ← the id;
  let returned := items_flow (queued s) in
  change id (fun s => set_incomingOffset 0 (set_incoming [] s)) ;;
  eff_when (negb (returned =? 0)) (credit returned).

Definition fail_stream (reason : js_error) (s : Http2ClientStream) : Http2ClientStream :=
  let s := set_uploadReader false (set_remoteEnded true (set_localEnded true (set_failed true s))) in
  let s := if responseDelivered s then s else set_responseResult (settled (responseResult s) (Err reason)) s in
  if trailersSettled s then s
  else set_trailersResult (settled (trailersResult s) (Err reason)) (set_trailersSettled true s).

Definition fail_with (id : Z) (reason : js_error) : Turn unit :=
  s ← the id;
  if failed s then eff_ret tt
  else
    change id (fail_stream reason) ;;
    discard_with id ;;
    pushIncoming id (IncomingError reason) ;;
    finishApplication id.

Definition terminate_with (reason : js_error) (errorCode : Z) (sendGoAway : bool) : Turn unit :=
  c ← get_ id;
  if terminating c || terminated c then eff_ret tt
  else
    put set_terminating true ;;
    put set_draining true ;;
    settle (readyResult c) (Err reason) ;;
    failSlotWaiters reason ;;
    notifyFlowChange ;;
    each_stream (fun id => fail_with id reason) ;;
    put set_streams [] ;;
    if negb sendGoAway || connection_closed c then finish_termination
    else
      p ← send_with HTTP2_FRAME_GOAWAY 0 0 (encodeHttp2GoAway 0 errorCode []);
      put set_finishing (Some p).

End Credit.

(** Within [terminate] the connection is terminating, so that the inner call
    returns at once: two levels are enough. *)
Fixpoint credit_at (depth : nat) (amount : Z) : Turn unit :=
  match depth with
  | O => eff_throw OutOfFuel
  | S depth =>
      c ← get_ id;
      if (amount =? 0) || terminating c || terminated c then eff_ret tt
      else if HTTP2_MAX_WINDOW_SIZE - amount <? connectionReceiveWindow c then
        terminate_with (credit_at depth) (wireError "HTTP/2 connection receive window overflow" HTTP2_FLOW_CONTROL_ERROR)
          HTTP2_FLOW_CONTROL_ERROR true
      else
        put set_connectionReceiveWindow (connectionReceiveWindow c + amount) ;;
        send_with HTTP2_FRAME_WINDOW_UPDATE 0 0 (encodeHttp2WindowUpdate amount) ;; eff_ret tt
  end.

Definition returnConnectionCredit : Z -> Turn unit := credit_at 2.
Definition discardIncoming : Z -> Turn unit := discard_with returnConnectionCredit.
Definition fail : Z -> js_error -> Turn unit := fail_with returnConnectionCredit.
Definition terminate : js_error -> Z -> bool -> Turn unit := terminate_with returnConnectionCredit.

Definition finishDrainIfIdle : Turn unit :=
  c ← get_ id;
  if negb (draining c) || negb (len (streams c) =? 0) || (negb (localGoAwaySent c) && negb (remoteGoAwayReceived c))
     || terminating c || terminated c
  then eff_ret tt
  else terminate (TypeError "HTTP/2 connection drained") HTTP2_NO_ERROR false.

Definition streamStateChanged (id : Z) : Turn unit :=
  s ← the id;
  if negb (localEnded s) || negb (remoteEnded s) then eff_ret tt
  else
    c ← get_ Datatypes.id;
    eff_when (has_stream c id) (
      put set_streams (filter (fun k => k <> id) (streams c)) ;;
      wakeSlotWaiters ;;
      finishDrainIfIdle).

Definition resetStream (id errorCode : Z) (message : string) : Turn unit :=
  present ← get_ (fun c => has_stream c id);
  eff_when present (send_with HTTP2_FRAME_RST_STREAM 0 id (encodeHttp2ErrorCode errorCode) ;; eff_ret tt) ;;
  fail id (errorFromPeer errorCode id message) ;;
  finishApplication id ;;
  streamStateChanged id.

Definition cancelStream (id : Z) (reason : js_error) : Turn unit :=
  present ← get_ (fun c => has_stream c id);
  if present : bool then
    send_with HTTP2_FRAME_RST_STREAM 0 id (encodeHttp2ErrorCode HTTP2_CANCEL) ;;
    fail id reason ;;
    finishApplication id ;;
    streamStateChanged id
  else
    fail id reason ;;
    finishApplication id.

(** ** Receiving *)

Definition returnReceiveCredit (id amount : Z) : Turn unit :=
  returnConnectionCredit amount ;;
  s ← the id;
  present ← get_ (fun c => has_stream c id);
  if remoteEnded s || negb present || (amount =? 0) then eff_ret tt
  else if HTTP2_MAX_WINDOW_SIZE - amount <? receiveWindow s then
    terminate (wireError "HTTP/2 stream receive window overflow" HTTP2_FLOW_CONTROL_ERROR) HTTP2_FLOW_CONTROL_ERROR true
  else
    change id (set_receiveWindow (receiveWindow s + amount)) ;;
    send_with HTTP2_FRAME_WINDOW_UPDATE 0 id (encodeHttp2WindowUpdate amount) ;; eff_ret tt.

Definition length_mismatch (s : Http2ClientStream) : bool :=
  negb (bodyForbidden s) &&
  match expectedContentLength s with Some n => negb (n =? receivedBodyBytes s) | None => false end.

Definition receiveEnd (id : Z) : Turn unit :=
  s ← the id;
  if remoteEnded s then eff_ret tt
  else
    change id (set_remoteEnded true) ;;
    if length_mismatch s then
      fail id (errorFromPeer HTTP2_PROTOCOL_ERROR id "HTTP/2 Content-Length mismatch") ;;
      streamStateChanged id
    else
      settleTrailers id [] ;;
      pushIncoming id IncomingEnd ;;
      streamStateChanged id.

Definition peerReset (id errorCode : Z) : Turn unit :=
  change id (fun s => set_remoteEnded true (set_localEnded true s)) ;;
  fail id (errorFromPeer errorCode id "Peer reset the HTTP/2 stream") ;;
  streamStateChanged id.

Definition markLocalEnd (id : Z) : Turn unit :=
  s ← the id;
  if localEnded s then eff_ret tt
  else change id (set_localEnded true) ;; streamStateChanged id.

(** A final response's headers. *)
Definition deliver_response (parsed : Http2ResponseHeaders) (s : Http2ClientStream) : Http2ClientStream :=
  set_responseResult (settled (responseResult s) (Ok parsed))
    (set_bodyForbidden (bodyForbidden s || bool_decide (status parsed ∈ [204; 205; 304]))
      (set_expectedContentLength (rs_contentLength parsed)
        (set_responseStatus (status parsed) (set_responseDelivered true s)))).

Definition handleHeaders (id : Z) (parsed : Http2ResponseHeaders) (endStream : bool) : Turn unit :=
  s ← the id;
  if remoteEnded s then resetStream id HTTP2_STREAM_CLOSED "HEADERS followed remote END_STREAM"
  else if negb (responseDelivered s) then
    if status parsed <? 200 then
      if endStream then resetStream id HTTP2_PROTOCOL_ERROR "Informational response ended the HTTP/2 stream"
      else match onInformational s with
           | Some callback =>
               match callback parsed with
               | Ok _ => eff_ret tt
               | Err _ => resetStream id HTTP2_INTERNAL_ERROR "HTTP/2 informational callback failed"
               end
           | None => eff_ret tt
           end
    else
      change id (deliver_response parsed) ;;
      eff_when endStream (receiveEnd id)
  else if negb endStream then resetStream id HTTP2_PROTOCOL_ERROR "HTTP/2 trailer block omitted END_STREAM"
  else settleTrailers id (rs_headers parsed) ;; receiveEnd id.

Definition handleTrailers (id : Z) (fields : list DecodedHpackHeaderField) (endStream : bool) : Turn unit :=
  s ← the id;
  if negb (responseDelivered s) || negb endStream then
    resetStream id HTTP2_PROTOCOL_ERROR "Invalid HTTP/2 trailer block"
  else settleTrailers id fields ;; receiveEnd id.

Definition receiveData (id : Z) (data : list Z) (flowBytes : Z) (endStream : bool) : Turn unit :=
  s ← the id;
  if negb (responseDelivered s) || remoteEnded s then
    resetStream id HTTP2_STREAM_CLOSED "DATA arrived outside a response body" ;;
    returnConnectionCredit flowBytes
  else
    let received := receivedBodyBytes s + len data in
    change id (set_receivedBodyBytes received) ;;
    if negb (isSafeInteger received) || (bodyForbidden s && negb (len data =? 0)) then
      resetStream id HTTP2_PROTOCOL_ERROR "HTTP/2 response body is not permitted" ;;
      returnConnectionCredit flowBytes
    else
      (if len data =? 0 then returnReceiveCredit id flowBytes else pushIncoming id (IncomingData data flowBytes)) ;;
      eff_when endStream (receiveEnd id).

(** ** Frames *)

Definition findStream (streamId : Z) (frameName : string) : Turn bool :=
  c ← get_ id;
  if has_stream c streamId then eff_ret true
  else if (streamId .& 1 =? 0) || (highestOpenedStreamId c <? streamId) then
    eff_throw (wireError (frameName +:+ " frame referred to an idle or server-initiated stream") HTTP2_PROTOCOL_ERROR)
  else eff_ret false.

(** [error.message], for an [Error]. *)
Definition error_message (e : js_error) : string :=
  match e with
  | ProtocolError msg | LimitError msg | RangeError msg | TypeError msg | DOMException msg _ | Http2WireError msg _ _ => msg
  | OutOfFuel => "unknown compression error"
  end.

Definition compression_error (e : js_error) : js_error :=
  match e with
  | LimitError _ => wireError "HTTP/2 decoded header list exceeds configured limits" HTTP2_ENHANCE_YOUR_CALM
  | e => wireError ("HTTP/2 header compression failed: " +:+ error_message e) HTTP2_COMPRESSION_ERROR
  end.

Definition decode_block (block : list Z) : Turn (list DecodedHpackHeaderField) :=
  c ← get_ id;
  let '(d, r) := Hpack.decode (decoder c) block in
  put set_decoder d ;;
  match r with Ok fields => eff_ret fields | Err e => eff_throw (compression_error e) end.

Definition handleHeaderBlock (b : Http2HeaderBlock) : Turn unit :=
  if match hb_kind b with kind_push_promise => true | kind_headers => false end then
    eff_throw (wireError "HTTP/2 server push is disabled" HTTP2_PROTOCOL_ERROR)
  else
    decoded ← decode_block (hb_block b);
    let id := hb_streamId b in
    found ← findStream id "HEADERS";
    if negb found then sendClosedStreamReset id
    else
      s ← the id;
      if match hb_priority b with Some p => streamDependency p =? id | None => false end then
        resetStream id HTTP2_PROTOCOL_ERROR "HTTP/2 stream depends on itself"
      else if remoteEnded s then resetStream id HTTP2_STREAM_CLOSED "HEADERS followed remote END_STREAM"
      else if responseDelivered s then
        trailers ← eff_lift (parseHttp2Trailers decoded id);
        handleTrailers id trailers (hb_endStream b)
      else
        headers ← eff_lift (parseHttp2ResponseHeaders decoded id);
        handleHeaders id headers (hb_endStream b).

Definition handleData (frame : Http2Frame) : Turn unit :=
  let id := fr_streamId frame in
  found ← findStream id "DATA";
  parsed ← eff_lift (parseHttp2Data frame);
  let flowBytes := len (fr_payload frame) in
  c ← get_ Datatypes.id;
  put set_connectionReceiveWindow (connectionReceiveWindow c - flowBytes) ;;
  if connectionReceiveWindow c - flowBytes <? 0 then
    eff_throw (wireError "Peer exceeded the HTTP/2 connection flow-control window" HTTP2_FLOW_CONTROL_ERROR)
  else if negb found then returnConnectionCredit flowBytes ;; sendClosedStreamReset id
  else
    s ← the id;
    change id (set_receiveWindow (receiveWindow s - flowBytes)) ;;
    if receiveWindow s - flowBytes <? 0 then
      returnConnectionCredit flowBytes ;;
      resetStream id HTTP2_FLOW_CONTROL_ERROR "Peer exceeded the HTTP/2 stream flow-control window"
    else receiveData id (dp_data parsed) flowBytes (has_flag frame HTTP2_FLAG_END_STREAM).

Definition handleReset (frame : Http2Frame) : Turn unit :=
  found ← findStream (fr_streamId frame) "RST_STREAM";
  eff_when found (
    errorCode ← eff_lift (parseHttp2RstStream frame);
    peerReset (fr_streamId frame) errorCode).

(** One stream's turn of a new initial window. *)
Definition shift_window (difference id : Z) : Turn unit :=
  s ← the id;
  if (0 <? difference) && (HTTP2_MAX_WINDOW_SIZE - difference <? sendWindow s) then
    eff_throw (wireError "HTTP/2 stream send window overflow after SETTINGS" HTTP2_FLOW_CONTROL_ERROR)
  else change id (set_sendWindow (sendWindow s + difference)).

Definition apply_initial_window (value : Z) : Turn unit :=
  initial ← get_ remoteInitialWindowSize;
  each_stream (shift_window (value - initial)) ;;
  put set_remoteInitialWindowSize value ;;
  notifyFlowChange.

Definition applyRemoteSetting (setting : Http2Setting) : Turn unit :=
  let value := set_value setting in
  let named i := identifier setting =? i in
  if named HTTP2_SETTING_HEADER_TABLE_SIZE then
    c ← get_ id;
    e ← eff_lift (encoder_setMaximumTableSize (encoder c) value);
    put set_encoder e
  else if named HTTP2_SETTING_ENABLE_PUSH then
    eff_throw (wireError "Server sent the client-only SETTINGS_ENABLE_PUSH" HTTP2_PROTOCOL_ERROR)
  else if named HTTP2_SETTING_MAX_CONCURRENT_STREAMS then
    put set_remoteMaximumConcurrentStreams value ;; wakeSlotWaiters
  else if named HTTP2_SETTING_INITIAL_WINDOW_SIZE then apply_initial_window value
  else if named HTTP2_SETTING_MAX_FRAME_SIZE then put set_remoteMaximumFrameSize value
  else if named HTTP2_SETTING_MAX_HEADER_LIST_SIZE then put set_remoteMaximumHeaderListSize value
  else if named HTTP2_SETTING_ENABLE_CONNECT_PROTOCOL then put set_remoteExtendedConnect (value =? 1)
  else eff_ret tt.

(** [handleSettings] up to the write of the acknowledgement. *)
Definition handleSettings (frame : Http2Frame) : Turn unit :=
  if has_flag frame HTTP2_FLAG_ACK then put set_settingsAcknowledged true
  else
    settings ← eff_lift (parseHttp2Settings frame);
    eff_each applyRemoteSetting settings ;;
    put set_receivedSettings true ;;
    p ← sendFrame (mk_frame HTTP2_FRAME_SETTINGS HTTP2_FLAG_ACK 0 []);
    put set_reading (reader_settings p).

Definition refuse_above (lastStreamId id : Z) : Turn unit :=
  eff_when (lastStreamId <? id) (
    fail id (errorFromPeer HTTP2_REFUSED_STREAM id "Peer GOAWAY did not process this HTTP/2 stream") ;;
    streamStateChanged id).

Definition handleGoAway (frame : Http2Frame) : Turn unit :=
  goAway ← eff_lift (parseHttp2GoAway frame);
  last ← get_ remoteLastStreamId;
  if last <? ga_lastStreamId goAway then
    eff_throw (wireError "Peer increased the last stream identifier in a later GOAWAY" HTTP2_PROTOCOL_ERROR)
  else
    put set_remoteLastStreamId (ga_lastStreamId goAway) ;;
    put set_remoteGoAwayReceived true ;;
    put set_draining true ;;
    failSlotWaiters (wireError "Peer is draining HTTP/2" HTTP2_REFUSED_STREAM) ;;
    each_stream (refuse_above (ga_lastStreamId goAway)) ;;
    finishDrainIfIdle.

Definition handleWindowUpdate (frame : Http2Frame) : Turn unit :=
  increment ← eff_lift (parseHttp2WindowUpdate frame);
  let id := fr_streamId frame in
  if id =? 0 then
    window ← get_ connectionSendWindow;
    if HTTP2_MAX_WINDOW_SIZE - increment <? window then
      eff_throw (wireError "HTTP/2 connection send window overflow" HTTP2_FLOW_CONTROL_ERROR)
    else put set_connectionSendWindow (window + increment) ;; notifyFlowChange
  else
    found ← findStream id "WINDOW_UPDATE";
    eff_when found (
      s ← the id;
      if HTTP2_MAX_WINDOW_SIZE - increment <? sendWindow s then
        resetStream id HTTP2_FLOW_CONTROL_ERROR "HTTP/2 stream send window overflow"
      else change id (set_sendWindow (sendWindow s + increment)) ;; notifyFlowChange).

Definition handlePing (frame : Http2Frame) : Turn unit :=
  eff_when (negb (has_flag frame HTTP2_FLAG_ACK)) (
    p ← sendFrame (mk_frame HTTP2_FRAME_PING HTTP2_FLAG_ACK 0 (fr_payload frame));
    put set_reading (reader_ping p)).

Definition accept_block (frame : Http2Frame) : Turn (option Http2HeaderBlock) :=
  c ← get_ id;
  match accept (blocks c) frame with
  | Ok (b, a) => put set_blocks a ;; eff_ret b
  | Err e => eff_throw e
  end.

Definition handleFrame (frame : Http2Frame) : Turn unit :=
  let t := fr_type frame in
  if t =? HTTP2_FRAME_PUSH_PROMISE then
    eff_throw (wireError "Peer sent PUSH_PROMISE after client disabled server push" HTTP2_PROTOCOL_ERROR)
  else
    headerBlock ← accept_block frame;
    if (t =? HTTP2_FRAME_HEADERS) || (t =? HTTP2_FRAME_CONTINUATION) then
      match headerBlock with Some b => handleHeaderBlock b | None => eff_ret tt end
    else if t =? HTTP2_FRAME_DATA then handleData frame
    else if t =? HTTP2_FRAME_PRIORITY then eff_lift (parseHttp2Priority frame) ;; eff_ret tt
    else if t =? HTTP2_FRAME_RST_STREAM then handleReset frame
    else if t =? HTTP2_FRAME_SETTINGS then handleSettings frame
    else if t =? HTTP2_FRAME_PING then handlePing frame
    else if t =? HTTP2_FRAME_GOAWAY then handleGoAway frame
    else if t =? HTTP2_FRAME_WINDOW_UPDATE then handleWindowUpdate frame
    else eff_ret tt.

(** ** The read loop *)

(** Its head: [while (!this.terminating && !this.terminated)]. *)
Definition read_next : Turn unit := eff_set (fun c =>
  set_reading (if terminating c || terminated c then reader_done else reader_reading) c).

(** Its outer [catch]. *)
Definition reader_catch (e : js_error) : Turn unit :=
  put set_reading reader_done ;;
  terminate e
    match e with
    | Http2WireError _ errorCode _ => errorCode
    | LimitError _ => HTTP2_ENHANCE_YOUR_CALM
    | _ => HTTP2_INTERNAL_ERROR
    end true.

(** Its inner [catch]. *)
Definition frame_catch (e : js_error) : Turn unit :=
  match e with
  | Http2WireError message errorCode (Some streamId) =>
      present ← get_ (fun c => has_stream c streamId);
      if present : bool then resetStream streamId errorCode message else sendClosedStreamReset streamId
  | e => eff_throw e
  end.

Definition read_frame (frame : Http2Frame) : Turn unit :=
  c ← get_ id;
  if negb (receivedSettings c) && (negb (fr_type frame =? HTTP2_FRAME_SETTINGS) || has_flag frame HTTP2_FLAG_ACK) then
    eff_throw (wireError "The first peer HTTP/2 frame is not initial SETTINGS" HTTP2_PROTOCOL_ERROR)
  else eff_catch (handleFrame frame) frame_catch.

(** The next iteration, unless the frame waits for a write. *)
Definition reader_after : Turn unit :=
  r ← get_ reading;
  match r with
  | reader_settings _ | reader_ping _ => eff_ret tt
  | _ => read_next
  end.

Definition reader_frame (frame : Http2Frame) : Turn unit := eff_catch (read_frame frame ;; reader_after) reader_catch.

(** The rest of [handleSettings] and of [handlePing], and of [start]. *)
Definition reader_resume : Turn unit :=
  c ← get_ id;
  let after (p : Z) (m : Turn unit) :=
    match promises c !! p with
    | None => eff_ret tt
    | Some r => eff_catch (eff_catch (eff_lift r ;; m) frame_catch ;; read_next) reader_catch
    end in
  match reading c with
  | reader_starting p =>
      match promises c !! p with
      | None => eff_ret tt
      | Some (Ok _) => read_next
      | Some (Err _) => put set_reading reader_done
      end
  | reader_settings p => after p (settle (readyResult c) (Ok tt) ;; wakeSlotWaiters)
  | reader_ping p => after p (eff_ret tt)
  | _ => eff_ret tt
  end.

(** ** Starting and ending *)

Definition CLIENT_PREFACE : list Z := u "PRI * HTTP/2.0" ++ [13; 10; 13; 10] ++ u "SM" ++ [13; 10; 13; 10].

Definition start_settings (o : NormalizedOptions) : list Http2Setting :=
  [mk_setting HTTP2_SETTING_HEADER_TABLE_SIZE (headerTableSize o);
   mk_setting HTTP2_SETTING_ENABLE_PUSH 0;
   mk_setting HTTP2_SETTING_MAX_CONCURRENT_STREAMS (maximumConcurrentStreams o);
   mk_setting HTTP2_SETTING_INITIAL_WINDOW_SIZE (initialStreamWindowSize o);
   mk_setting HTTP2_SETTING_MAX_FRAME_SIZE (maximumFrameSize o);
   mk_setting HTTP2_SETTING_MAX_HEADER_LIST_SIZE (maximumHeaderListBytes o)] ++
  (if enableConnectProtocol o then [mk_setting HTTP2_SETTING_ENABLE_CONNECT_PROTOCOL 1] else []).

(** The default limit of [encodeHttp2Frame] is [HTTP2_DEFAULT_FRAME_SIZE]. *)
Definition start_bytes (frames : list Http2Frame) : result (list Z) :=
  foldM (encode_frame HTTP2_DEFAULT_FRAME_SIZE) CLIENT_PREFACE frames.

Definition start : Turn unit :=
  c ← get_ id;
  if started c then eff_throw (TypeError "HTTP/2 connection was already started")
  else if connection_closed c then eff_throw (TypeError "HTTP/2 byte connection is closed")
  else
    put set_started true ;;
    let o := options c in
    settings ← eff_lift (encodeHttp2Settings (start_settings o));
    update ← eff_lift (if HTTP2_DEFAULT_WINDOW_SIZE <? connectionWindowSize o
      then encodeHttp2WindowUpdate (connectionWindowSize o - HTTP2_DEFAULT_WINDOW_SIZE) else Ok []);
    let frames := mk_frame HTTP2_FRAME_SETTINGS 0 0 settings ::
      (if HTTP2_DEFAULT_WINDOW_SIZE <? connectionWindowSize o then [mk_frame HTTP2_FRAME_WINDOW_UPDATE 0 0 update] else []) in
    bytes ← eff_lift (start_bytes frames);
    p ← enqueueBytes frames bytes;
    put set_reading (reader_starting p).

(** [drain] up to the write of its GOAWAY frame, and after it. *)
Definition drain : Turn unit :=
  c ← get_ id;
  if terminated c then eff_ret tt
  else if negb (started c) then
    terminate (TypeError "HTTP/2 connection drained before start") HTTP2_NO_ERROR false
  else if negb (draining c) then
    put set_draining true ;;
    failSlotWaiters (wireError "HTTP/2 connection is draining" HTTP2_REFUSED_STREAM) ;;
    p ← send_with HTTP2_FRAME_GOAWAY 0 0 (encodeHttp2GoAway 0 HTTP2_NO_ERROR []);
    eff_set (fun c => set_drains (drains c ++ [p]) c)
  else finishDrainIfIdle.

Definition drain_resume (p : Z) : Turn unit :=
  c ← get_ id;
  match promises c !! p with
  | Some (Ok _) =>
      if bool_decide (p ∈ drains c) then
        put set_drains (filter (fun q => q <> p) (drains c)) ;;
        put set_localGoAwaySent true ;; finishDrainIfIdle
      else eff_ret tt
  | _ => eff_ret tt
  end.

Definition close (reason : js_error) : Turn unit :=
  c ← get_ id;
  if terminated c || terminating c then eff_ret tt
  else put set_draining true ;; terminate reason HTTP2_NO_ERROR (started c).

(** [.then(finish, finish)] *)
Definition finish_resume : Turn unit :=
  c ← get_ id;
  match finishing c with
  | Some p => eff_when (match promises c !! p with Some _ => true | None => false end) (put set_finishing None ;; finish_termination)
  | None => eff_ret tt
  end.

(** The rest of an iteration of [drainWrites], once [writeAll] returned or threw. *)
Definition write_resume (r : result unit) : Turn unit :=
  c ← get_ id;
  match writes c !! Z.to_nat (writeOffset c - 1) with
  | Some (_, p) =>
      eff_when (writing c) (
        settle p r ;;
        (match r with
         | Ok _ => eff_ret tt
         | Err e =>
             eff_each (fun w => settle w.2 (Err e)) (drop (Z.to_nat (writeOffset c)) (writes c)) ;;
             put set_writeOffset (len (writes c)) ;;
             terminate e HTTP2_INTERNAL_ERROR false
         end) ;;
        write_next)
  | None => eff_ret tt
  end.

(** ** Requests *)

Definition set_request (k : Z) (f : Request -> Request) : Turn unit := eff_set (fun c => set_requests (alter f k (requests c)) c).
Definition with_state (st : request_state) (r : Request) : Request := mk_call (r_request r) (r_aborted r) st.
Definition become (k : Z) (st : request_state) : Turn unit := set_request k (with_state st).

(** [signal.throwIfAborted()] *)
Definition throwIfAborted (r : Request) : Turn unit :=
  match r_aborted r with Some reason => eff_throw reason | None => eff_ret tt end.

(** [request] up to its first wait. *)
Definition request (k : Z) (q : Http2ClientRequest) (aborted : option js_error) : Turn unit :=
  c ← get_ id;
  match requests c !! k with
  | Some _ => eff_ret tt
  | None =>
      let st :=
        if negb (started c) then request_rejected (TypeError "HTTP/2 connection has not been started")
        else match aborted with
             | Some reason => request_rejected reason
             | None => if receivedSettings c then request_unreserved else request_awaiting
             end in
      put set_requests (<[k := mk_call q aborted st]> (requests c))
  end.

Definition draining_error : js_error := wireError "HTTP/2 connection is draining" HTTP2_REFUSED_STREAM.

Definition reserveStreamSlot (k : Z) (r : Request) : Turn unit :=
  throwIfAborted r ;;
  c ← get_ id;
  if draining c || terminating c || terminated c then eff_throw draining_error
  else if slot_free c then
    put set_reservedSlots (reservedSlots c + 1) ;; become k request_granted
  else if maximumPendingRequests (options c) <=? len (slotWaiters c) - slotOffset c then
    eff_throw (LimitError "HTTP/2 pending request queue is full")
  else
    p ← promise None;
    eff_set (fun c => set_slotWaiters (slotWaiters c ++ [mk_waiter p true]) c) ;;
    become k (request_waiting p).

(** What [request] throws rejects its promise. *)
Definition request_catch (k : Z) (e : js_error) : Turn unit := become k (request_rejected e).

Definition request_reserve (k : Z) : Turn unit :=
  c ← get_ id;
  match requests c !! k with
  | Some r =>
      match r_state r with
      | request_unreserved => eff_catch (reserveStreamSlot k r) (request_catch k)
      | request_awaiting =>
          match promises c !! readyResult c with
          | Some (Ok _) => eff_catch (reserveStreamSlot k r) (request_catch k)
          | Some (Err e) => request_catch k e
          | None => eff_ret tt
          end
      | _ => eff_ret tt
      end
  | None => eff_ret tt
  end.

(** [attachSignal]: the callback runs at once if the signal is aborted. *)
Definition attachSignal (id : Z) (r : Request) : Turn unit :=
  match r_aborted r with
  | Some reason => eff_catch (cancelStream id reason) (fun _ => eff_ret tt)
  | None => change id (set_disposeAbort true)
  end.

(** The part of [request] between the slot and the stream; the slot is given back
    when it throws. *)
Definition prepare_request (q : Http2ClientRequest) : Turn (Z * list Z * option Z) :=
  c ← get_ id;
  if draining c || terminating c || terminated c then eff_throw draining_error
  else if HTTP2_MAX_WINDOW_SIZE <? nextStreamId c then
    put set_draining true ;; eff_throw (wireError "HTTP/2 stream identifiers are exhausted" HTTP2_REFUSED_STREAM)
  else
    let streamId := nextStreamId c in
    put set_nextStreamId (streamId + 2) ;;
    expected ← eff_lift (validateHttp2RequestHeaders (rq_headers q) streamId
      (enableConnectProtocol (options c) && remoteExtendedConnect c));
    if negb (rq_body q) && match expected with Some n => negb (n =? 0) | None => false end then
      eff_throw (TypeError "HTTP/2 Content-Length requires a request body")
    else
      size ← eff_lift (http2HeaderListSize (rq_headers q));
      if remoteMaximumHeaderListSize c <? size then
        eff_throw (LimitError "HTTP/2 request header list exceeds the peer setting")
      else
        let '(e, block) := Hpack.encode (encoder c) (rq_headers q) in
        put set_encoder e ;;
        block ← eff_lift block;
        eff_ret (streamId, block, expected).

Definition open_stream (k : Z) (r : Request) (streamId : Z) (block : list Z) (expected : option Z) : Turn unit :=
  let q := r_request r in
  c ← get_ id;
  let stream := new_Http2ClientStream streamId (remoteInitialWindowSize c) (initialStreamWindowSize (options c))
    (requestMethod (rq_headers q)) (rq_body q) expected (rq_onInformational q) in
  put set_objects (<[streamId := stream]> (objects c)) ;;
  put set_reservedSlots (reservedSlots c - 1) ;;
  put set_streams (streams c ++ [streamId]) ;;
  put set_highestOpenedStreamId streamId ;;
  attachSignal streamId r ;;
  p ← sendHeaderBlock streamId block (negb (rq_body q));
  become k (request_sending streamId p).

Definition release_slot : Turn unit :=
  c ← get_ id; put set_reservedSlots (reservedSlots c - 1) ;; wakeSlotWaiters.

Definition open_request (k : Z) (r : Request) : Turn unit := fun c =>
  match prepare_request (r_request r) c with
  | (c, Ok (streamId, block, expected)) => open_stream k r streamId block expected c
  | (c, Err e) => (release_slot ;; request_catch k e) c
  end.

Definition request_open (k : Z) : Turn unit :=
  c ← get_ id;
  match requests c !! k with
  | Some r =>
      match r_state r with
      | request_granted => open_request k r
      | request_waiting p =>
          match promises c !! p with
          | Some (Ok _) => open_request k r
          | Some (Err e) => request_catch k e
          | None => eff_ret tt
          end
      | _ => eff_ret tt
      end
  | None => eff_ret tt
  end.

(** ** Uploads *)

Definition upload_to (id : Z) (st : upload_state) : Turn unit := change id (set_upload st).

(** The [finally] of [sendRequestBody]. *)
Definition upload_finish (id : Z) : Turn unit := change id (fun s => set_upload upload_none (set_uploadReader false s)).

(** Its [catch]: what a reset throws is ignored with the promise. *)
Definition upload_catch (id : Z) (e : js_error) : Turn unit :=
  s ← the id;
  eff_catch (eff_when (negb (localEnded s)) (resetStream id HTTP2_INTERNAL_ERROR "HTTP/2 upload failed"))
    (fun _ => eff_ret tt) ;;
  upload_finish id.

Definition acceptSendBytes (id length : Z) : Turn unit :=
  s ← the id;
  let total := sentBodyBytes s + length in
  change id (set_sentBodyBytes total) ;;
  if negb (isSafeInteger total) || match expectedSendLength s with Some n => n <? total | None => false end then
    eff_throw (ProtocolError "HTTP/2 request body exceeds Content-Length")
  else eff_ret tt.

Definition verifySendComplete (id : Z) : Turn unit :=
  s ← the id;
  if match expectedSendLength s with Some n => negb (sentBodyBytes s =? n) | None => false end then
    eff_throw (ProtocolError "HTTP/2 request body is shorter than Content-Length")
  else eff_ret tt.

Definition cannot_send (c : Http2ClientConnection) (s : Http2ClientStream) : Turn unit :=
  if terminating c || terminated c || localEnded s then eff_throw (TypeError "HTTP/2 stream cannot send more data")
  else eff_ret tt.

Definition reserveSendCapacity (id requested : Z) : Turn Z :=
  c ← get_ Datatypes.id;
  s ← the id;
  cannot_send c s ;;
  let permitted := Z.min (Z.min (Z.min requested (remoteMaximumFrameSize c)) (connectionSendWindow c)) (sendWindow s) in
  if permitted <=? 0 then eff_ret 0
  else
    put set_connectionSendWindow (connectionSendWindow c - permitted) ;;
    change id (set_sendWindow (sendWindow s - permitted)) ;;
    eff_ret permitted.

Definition waitForFlowChange (id : Z) : Turn Z :=
  c ← get_ Datatypes.id;
  s ← the id;
  cannot_send c s ;;
  eff_ret (flowSignal c).

(** The outer loop, at its head. *)
Definition upload_next (id : Z) : Turn unit :=
  s ← the id;
  if localEnded s then upload_finish id else upload_to id upload_reading.

(** The inner loop from [reserveSendCapacity] to the next [await]. *)
Definition upload_reserve (id : Z) (chunk : list Z) (offset : Z) : Turn unit :=
  length ← reserveSendCapacity id (len chunk - offset);
  if length =? 0 then
    signal ← waitForFlowChange id;
    upload_to id (upload_waiting chunk offset signal)
  else
    p ← sendFrame (mk_frame HTTP2_FRAME_DATA 0 id (subarray chunk offset (offset + length)));
    upload_to id (upload_writing chunk (offset + length) p).

Definition upload_send (id : Z) (chunk : list Z) (offset : Z) : Turn unit :=
  s ← the id;
  if (offset <? len chunk) && negb (localEnded s) then upload_reserve id chunk offset else upload_next id.

(** The end of the body. *)
Definition upload_complete (id : Z) : Turn unit :=
  s ← the id;
  if localEnded s then upload_finish id
  else
    verifySendComplete id ;;
    p ← sendFrame (mk_frame HTTP2_FRAME_DATA HTTP2_FLAG_END_STREAM id []);
    upload_to id (upload_ending p).

(** What [reader.read()] gives. *)
Inductive upload_result := upload_chunk (bytes : list Z) | upload_done | upload_error (reason : js_error).

Definition upload_read (id : Z) (r : upload_result) : Turn unit :=
  s ← the id;
  match upload s with
  | upload_reading =>
      eff_catch
        match r with
        | upload_chunk bytes => acceptSendBytes id (len bytes) ;; upload_send id bytes 0
        | upload_done => upload_complete id
        | upload_error reason => eff_throw reason
        end (upload_catch id)
  | _ => eff_ret tt
  end.

Definition upload_resume (id : Z) : Turn unit :=
  s ← the id;
  c ← get_ Datatypes.id;
  let after (p : Z) (m : Turn unit) :=
    match promises c !! p with
    | None => eff_ret tt
    | Some r => eff_catch (eff_lift r ;; m) (upload_catch id)
    end in
  match upload s with
  | upload_waiting chunk offset signal => after signal (upload_reserve id chunk offset)
  | upload_writing chunk offset p => after p (upload_send id chunk offset)
  | upload_ending p => after p (markLocalEnd id ;; upload_finish id)
  | _ => eff_ret tt
  end.

(** [sendRequestBody] up to its first wait; [getReader] of the request's body
    succeeds. *)
Definition sendRequestBody (id : Z) : Turn unit := change id (set_uploadReader true) ;; upload_next id.

(** The rest of [request], once the header block is written. *)
Definition request_opened (k : Z) : Turn unit :=
  c ← get_ id;
  match requests c !! k with
  | Some r =>
      match r_state r with
      | request_sending id p =>
          match promises c !! p with
          | Some (Ok _) =>
              become k (request_returned id) ;;
              eff_catch (if rq_body (r_request r) then sendRequestBody id else streamStateChanged id) (request_catch k)
          | Some (Err e) => fail id e ;; streamStateChanged id ;; request_catch k e
          | None => eff_ret tt
          end
      | _ => eff_ret tt
      end
  | None => eff_ret tt
  end.

(** The abort steps of a request's signal. *)
Definition waiter_abort (p : Z) (reason : js_error) : Turn unit :=
  c ← get_ id;
  eff_when (existsb (fun w => (w_result w =? p) && w_active w) (pending_waiters c)) (
    put set_slotWaiters (take (Z.to_nat (slotOffset c)) (slotWaiters c) ++ filter (fun w => w_result w <> p) (pending_waiters c)) ;;
    settle p (Err reason)).

Definition request_abort (k : Z) (reason : js_error) : Turn unit :=
  c ← get_ id;
  match requests c !! k with
  | Some (mk_call q None st) =>
      set_request k (fun r => mk_call (r_request r) (Some reason) (r_state r)) ;;
      match st with
      | request_awaiting =>
          eff_when (match promises c !! readyResult c with Some _ => false | None => true end) (become k (request_rejected reason))
      | request_waiting p => waiter_abort p reason
      | request_sending id _ | request_returned id =>
          s ← the id;
          eff_when (disposeAbort s) (eff_catch (cancelStream id reason) (fun _ => eff_ret tt))
      | _ => eff_ret tt
      end
  | _ => eff_ret tt
  end.

(** ** Response bodies *)

(** [nextIncoming]: the item at [incomingOffset], if any, and the queue cut. *)
Definition take_item (s : Http2ClientStream) : Http2ClientStream :=
  match queued s with
  | item :: rest =>
      let offset := incomingOffset s + 1 in
      let s := set_pulling (pull_taken item) s in
      if (32 <? offset) && (len (incoming s) <=? offset * 2)
      then set_incomingOffset 0 (set_incoming rest s) else set_incomingOffset offset s
  | [] => set_pulling pull_waiting s
  end.

(** The stream of [body] calls [pullBody] while it is readable and no call runs. *)
Definition pullBody (id : Z) : Turn unit :=
  change id (fun s =>
    match bodyState s, pulling s with
    | body_open, pull_idle => take_item s
    | _, _ => s
    end).

Definition enqueue_body (id : Z) (bytes : list Z) : Turn unit :=
  s ← the id;
  match bodyState s with
  | body_open => change id (set_delivered (delivered s ++ [bytes]))
  | _ => eff_throw (TypeError "Stream is not writable")
  end.

Definition close_body (id : Z) : Turn unit :=
  s ← the id;
  match bodyState s with
  | body_open => change id (set_bodyState body_closed)
  | _ => eff_throw (TypeError "Stream cannot be closed twice")
  end.

(** What [pullBody] throws fails the stream of [body], if it is readable. *)
Definition error_body (id : Z) (e : js_error) : Turn unit := change id (fun s =>
  match bodyState s with body_open => set_bodyState (body_errored e) s | _ => s end).

Definition pull_resume (id : Z) : Turn unit :=
  s ← the id;
  match pulling s with
  | pull_taken item =>
      change id (set_pulling pull_idle) ;;
      eff_catch
        match item with
        | IncomingData bytes flowBytes => enqueue_body id bytes ;; returnReceiveCredit id flowBytes
        | IncomingEnd => finishApplication id ;; close_body id
        | IncomingError reason => finishApplication id ;; eff_throw reason
        end (error_body id)
  | _ => eff_ret tt
  end.

(** [cancel] of the stream of [body] closes it, then calls [cancelBody]. *)
Definition cancelBody (id : Z) (reason : js_error) : Turn unit :=
  s ← the id;
  match bodyState s with
  | body_open =>
      change id (set_bodyState body_closed) ;;
      if appTerminal s then eff_ret tt
      else discardIncoming id ;; finishApplication id ;; cancelStream id reason
  | _ => eff_ret tt
  end.

(** ** Runs *)

Inductive event :=
| ev_start | ev_drain | ev_close (reason : js_error)
| ev_frame (frame : Http2Frame) | ev_read_error (e : js_error) | ev_reader
| ev_written (r : result unit) | ev_drained (p : Z) | ev_finish
| ev_request (k : Z) (q : Http2ClientRequest) (aborted : option js_error)
| ev_reserve (k : Z) | ev_open (k : Z) | ev_opened (k : Z) | ev_abort (k : Z) (reason : js_error)
| ev_upload (id : Z) (r : upload_result) | ev_uploaded (id : Z)
| ev_pull (id : Z) | ev_pulled (id : Z) | ev_cancel (id : Z) (reason : js_error).

(** The reader is at its [await] of [readHttp2Frame]. *)
Definition while_reading (m : Turn unit) : Turn unit :=
  r ← get_ reading; match r with reader_reading => m | _ => eff_ret tt end.

Definition turn (e : event) : Turn unit :=
  match e with
  | ev_start => start
  | ev_drain => drain
  | ev_close reason => close reason
  | ev_frame frame => while_reading (reader_frame frame)
  | ev_read_error e => while_reading (reader_catch e)
  | ev_reader => reader_resume
  | ev_written r => write_resume r
  | ev_drained p => drain_resume p
  | ev_finish => finish_resume
  | ev_request k q aborted => request k q aborted
  | ev_reserve k => request_reserve k
  | ev_open k => request_open k
  | ev_opened k => request_opened k
  | ev_abort k reason => request_abort k reason
  | ev_upload id r => upload_read id r
  | ev_uploaded id => upload_resume id
  | ev_pull id => pullBody id
  | ev_pulled id => pull_resume id
  | ev_cancel id reason => cancelBody id reason
  end.

(** An event on a stream that does not exist changes nothing. *)
Definition event_stream (e : event) : option Z :=
  match e with
  | ev_upload id _ | ev_uploaded id | ev_pull id | ev_pulled id | ev_cancel id _ => Some id
  | _ => None
  end.

Definition possible (c : Http2ClientConnection) (e : event) : bool :=
  match event_stream e with
  | Some id => match objects c !! id with Some _ => true | None => false end
  | None => true
  end.

Definition step (c : Http2ClientConnection) (e : event) : Http2ClientConnection :=
  if possible c e then (turn e c).1 else c.

Definition run (c : Http2ClientConnection) (es : list event) : Http2ClientConnection := foldl step c es.

Definition new_connection (o : NormalizedOptions) (d : HpackDecoder) (e : HpackEncoder) (a : Http2HeaderBlockAssembler)
    : Http2ClientConnection :=
  mk_connection false o d e a [] ∅ [] 0 false [] 0 0 0 1 2 1 0 0xffffffff HTTP2_DEFAULT_WINDOW_SIZE
    HTTP2_DEFAULT_FRAME_SIZE 0xffffffff false HTTP2_DEFAULT_WINDOW_SIZE (connectionWindowSize o)
    false false false false false false HTTP2_MAX_WINDOW_SIZE false false ∅ 3 reader_none ∅ [] None [].

(** The constructor, for a transport that is open. *)
Definition new_Http2ClientConnection (opts : Http2ConnectionOptions) : result Http2ClientConnection :=
  mbind (fun o =>
  mbind (fun d =>
  mbind (fun e =>
    fmap (new_connection o d e)
      (new_Http2HeaderBlockAssembler (maximumCompressedHeaderBlockBytes o) (maximumHeaderBlockFragments o)))
    (new_HpackEncoder 4096 true))
    (new_HpackDecoder (headerTableSize o) (mk_limits (maximumHeaderListBytes o) (maximumHeaderStringBytes o))))
    (normalizeOptions opts).

(** ** Examples *)

(** A connection with the default options; it reads the peer's SETTINGS, with an
    initial window of 5 bytes, opens a stream, and sends 8 bytes of a body when the
    peer allows 2 more. *)
Definition default_options : Http2ConnectionOptions := mk_options None None None None None None None None None None None.
Definition default_connection : Http2ClientConnection := new_connection
  (mk_normalized 4096 65535 1048576 16384 65536 65536 65536 1024 100 1024 true)
  (mk_decoder (new_DynamicTable 4096) 4096 None (mk_limits 65536 65536))
  (mk_encoder (new_DynamicTable 4096) None None true) (mk_assembler 65536 1024 None).
Definition example_request (body : bool) : Http2ClientRequest := mk_request
  [mk_field (u ":method") (u "POST") None; mk_field (u ":scheme") (u "https") None; mk_field (u ":path") (u "/") None;
   mk_field (u ":authority") (u "example.org") None] body None.
Definition wrote : event := ev_written (Ok tt).
Definition example_start : list event :=
  [ev_start; wrote; ev_reader; ev_frame (mk_frame HTTP2_FRAME_SETTINGS 0 0 [0; 4; 0; 0; 0; 5]); wrote; ev_reader].
Definition example_open (k : Z) (body : bool) : list event :=
  [ev_request k (example_request body) None; ev_reserve k; ev_open k; wrote; ev_opened k].
Definition example_upload : list event := example_start ++ example_open 1 true ++
  [ev_upload 1 (upload_chunk [1; 2; 3; 4; 5; 6; 7; 8]); wrote; ev_uploaded 1;
   ev_frame (mk_frame HTTP2_FRAME_WINDOW_UPDATE 0 1 [0; 0; 0; 2]); ev_uploaded 1; wrote; ev_uploaded 1].
