(* ===== verification/Http2Turns.v ===== *)
(** * How a connection evolves

    What no method of the connection but the few that say so ever does: the
    relation [evolves] between the heaps before and after a method.  It is a
    preorder, so that a method that calls others evolves when they do. *)

From stdpp Require Import gmap.
From S2P Require Import Prelude Effects Hpack Frame HeaderRules Http2Heap Http2Connection.
Local Open Scope Z_scope.
Local Open Scope turn_scope.

(** [true] stays [true]. *)
Definition stays (b b' : bool) : Prop := b = true -> b' = true.
#[export] Instance stays_preorder : PreOrder stays.
Proof. split; unfold stays; [by intros b|intros a b c Hab Hbc H; auto]. Qed.

(** The bytes of a DATA frame that count for flow control. *)
Definition data_length (f : Http2Frame) : Z := if fr_type f =? HTTP2_FRAME_DATA then len (fr_payload f) else 0.
Definition no_data (fs : list Http2Frame) : Prop := Forall (fun f => data_length f = 0) fs.

(** A stream keeps its identity and its send window, and what has ended stays so. *)
Record stream_evolves (s s' : Http2ClientStream) : Prop := {
  se_id : st_id s' = st_id s;
  se_window : sendWindow s' = sendWindow s;
  se_local : stays (localEnded s) (localEnded s');
  se_remote : stays (remoteEnded s) (remoteEnded s');
  se_failed : stays (failed s) (failed s');
  se_terminal : stays (appTerminal s) (appTerminal s');
}.
#[export] Instance stream_evolves_preorder : PreOrder stream_evolves.
Proof.
  split.
  - intros s. by split.
  - intros a b c [] []. split; first [congruence|etransitivity; eassumption].
Qed.

(** The connection has begun to end. *)
Definition ends (c : Http2ClientConnection) : Prop := terminating c = true \/ terminated c = true.

Definition ended (s : Http2ClientStream) : Prop := localEnded s = true /\ remoteEnded s = true.

Record evolves (c c' : Http2ClientConnection) : Prop := {
  ev_options : options c' = options c;
  ev_objects : dom (objects c') = dom (objects c);
  ev_stream : forall id, stream_evolves (stream_of c id) (stream_of c' id);
  ev_streams : streams c' `sublist_of` streams c;
  ev_gone : ends c' \/ forall id, id ∈ streams c -> id ∈ streams c' \/ ended (stream_of c' id);
  ev_next : nextStreamId c' = nextStreamId c;
  ev_highest : highestOpenedStreamId c' = highestOpenedStreamId c;
  ev_csw : connectionSendWindow c' = connectionSendWindow c;
  ev_frame_size : remoteMaximumFrameSize c' = remoteMaximumFrameSize c;
  ev_initial : remoteInitialWindowSize c' = remoteInitialWindowSize c;
  ev_sent : exists fs, sent c' = sent c ++ fs /\ no_data fs;
  ev_terminating : stays (terminating c) (terminating c');
  ev_terminated : stays (terminated c) (terminated c');
  ev_draining : stays (draining c) (draining c');
}.
#[export] Instance evolves_preorder : PreOrder evolves.
Proof.
  split.
  - intros c. split; try done.
    + right. auto.
    + exists []. rewrite app_nil_r. by split; [|constructor].
  - intros a b c [] []. split; try congruence; try (etransitivity; eassumption).
    + intros id. etransitivity; [apply ev_stream0|apply ev_stream1].
    + destruct ev_gone1 as [?|Hg1]; [by left|]. destruct ev_gone0 as [[H|H]|Hg0].
      * left. left. by apply ev_terminating1.
      * left. right. by apply ev_terminated1.
      * right. intros id Hid. destruct (Hg0 id Hid) as [?|[H1 H2]]; [auto|]. right.
        by split; [apply (se_local _ _ (ev_stream1 id))|apply (se_remote _ _ (ev_stream1 id))].
    + destruct ev_sent0 as (fs & E1 & H1), ev_sent1 as (fs' & E2 & H2). exists (fs ++ fs').
      split; [by rewrite E2, E1, app_assoc|]. unfold no_data in *. by apply Forall_app_2.
Qed.

(** ** Symbolic execution of a turn *)

Lemma bind_at {S A B} (R : S -> S -> Prop) `{!PreOrder R} (m : Eff S A) (k : A -> Eff S B) c c' :
  does R m -> R c c' -> (forall a c'', R c c'' -> R c (k a c'').1) -> R c (eff_bind m k c').1.
Proof.
  intros Hm Hc Hk. unfold eff_bind. specialize (Hm c'). destruct (m c') as [c'' [a|e]]; cbn in *.
  - apply Hk. by etransitivity.
  - by etransitivity.
Qed.

Lemma does_at {S A} (R : S -> S -> Prop) `{!PreOrder R} (m : Eff S A) c c' : does R m -> R c c' -> R c (m c').1.
Proof. intros Hm Hc. etransitivity; [done|apply Hm]. Qed.

Lemma stream_of_alter c id k f : stream_of (set_objects (alter f k (objects c)) c) id =
  if bool_decide (id = k /\ is_Some (objects c !! k)) then f (stream_of c id) else stream_of c id.
Proof.
  unfold stream_of. cbn. case_bool_decide as H.
  - destruct H as [-> [s Hs]]. by rewrite lookup_alter_eq, Hs.
  - destruct (decide (id = k)) as [->|Hne]; [|by rewrite lookup_alter_ne].
    rewrite lookup_alter_eq. destruct (objects c !! k); [|done]. exfalso. apply H. split; [done|by eexists].
Qed.

Lemma stream_of_change (R : Http2ClientStream -> Http2ClientStream -> Prop) `{!Reflexive R} c k f id :
  (forall s, R s (f s)) -> R (stream_of c id) (stream_of (set_objects (alter f k (objects c)) c) id).
Proof. intros H. rewrite stream_of_alter. by case_bool_decide. Qed.

Lemma evolves_change c k f : (forall s, stream_evolves s (f s)) -> evolves c (set_objects (alter f k (objects c)) c).
Proof.
  intros Hf. split; cbn; try done.
  - by rewrite dom_alter_L.
  - intros id. by apply stream_of_change; [apply _|].
  - right. auto.
  - exists []. rewrite app_nil_r. by split; [|constructor].
Qed.

Lemma evolves_remove c k : ended (stream_of c k) -> evolves c (set_streams (filter (fun i => i <> k) (streams c)) c).
Proof.
  intros Hk. split; cbn; try done.
  - apply sublist_filter.
  - right. intros id Hid. destruct (decide (id = k)) as [->|Hne]; [by right|]. left. by apply list_elem_of_filter.
  - exists []. rewrite app_nil_r. by split; [|constructor].
Qed.

Lemma evolves_clear c : ends c -> evolves c (set_streams [] c).
Proof.
  intros Hc. split; cbn; try done.
  - apply sublist_nil_l.
  - by left.
  - exists []. rewrite app_nil_r. by split; [|constructor].
Qed.

(** A heap that differs in fields [evolves] does not speak of. *)
Ltac evolve :=
  split; cbn; try done;
  first [ intros; reflexivity | exists []; rewrite app_nil_r; by split; [|constructor] | by unfold stays | by right; auto ].

Create HintDb evolves.

Lemma promise_evolves r : does evolves (promise r).
Proof. intros c. unfold promise. cbn. destruct r; evolve. Qed.
Lemma settle_evolves p r : does evolves (settle p r).
Proof. intros c. cbn. unfold settle, eff_set. cbn. destruct (promises c !! p); [done|evolve]. Qed.
#[export] Hint Resolve promise_evolves settle_evolves : evolves.

Lemma write_next_evolves : does evolves write_next.
Proof. intros c. unfold write_next, eff_set. cbn. destruct (writeOffset c <? len (writes c)); evolve. Qed.
#[export] Hint Resolve write_next_evolves : evolves.

Lemma bind_assoc_at {S A B C} (m : Eff S A) (k : A -> Eff S B) (l : B -> Eff S C) c :
  eff_bind (eff_bind m k) l c = eff_bind m (fun a => eff_bind (k a) l) c.
Proof. unfold eff_bind. by destruct (m c) as [c' [a|e]]. Qed.

Lemma lift_at {S A B} (R : S -> S -> Prop) (r : result A) (k : A -> Eff S B) c c' :
  R c c' -> (forall a, r = Ok a -> R c (k a c').1) -> R c (eff_bind (eff_lift r) k c').1.
Proof. intros Hc Hk. unfold eff_bind, eff_lift. destruct r; [by apply Hk|done]. Qed.

(** [exec base db]: runs the turn of a goal [R c (m c').1], with [R c c'] at hand;
    [base] proves that an assignment is related, [call] that a method is. *)
Ltac exec_step base call :=
  lazymatch goal with
  | |- ?R ?c (eff_bind (get_ ?f) ?k ?c').1 => change (R c (k (f c') c').1); cbv beta
  | |- ?R ?c (eff_bind (eff_get ?f) ?k ?c').1 => change (R c (k (f c') c').1); cbv beta
  | |- ?R ?c (eff_bind (the ?i) ?k ?c').1 => change (R c (k (stream_of c' i) c').1); cbv beta
  | |- ?R ?c (eff_bind (put ?s ?v) ?k ?c').1 => change (R c (k tt (s v c')).1); cbv beta
  | |- ?R ?c (eff_bind (eff_set ?f) ?k ?c').1 => change (R c (k tt (f c')).1); cbv beta
  | |- ?R ?c (eff_bind (change ?i ?f) ?k ?c').1 => change (R c (k tt (set_objects (alter f i (objects c')) c')).1); cbv beta
  | |- ?R ?c (eff_bind (eff_bind _ _) _ _).1 => rewrite bind_assoc_at
  | |- ?R ?c (eff_bind (eff_lift _) _ _).1 => apply lift_at; [base tt|intros]
  | |- ?R ?c (eff_lift _ ?c').1 => change (R c c')
  | |- ?R ?c (eff_bind (eff_ret ?a) ?k ?c').1 => change (R c (k a c').1); cbv beta
  | |- ?R ?c (eff_bind (eff_throw ?a) ?k ?c').1 => change (R c c')
  | |- ?R ?c (eff_bind (eff_when ?b ?m) ?k ?c').1 => destruct b eqn:?; unfold eff_when
  | |- ?R ?c (eff_bind (if ?b then _ else _) ?k ?c').1 => destruct b eqn:?
  | |- ?R ?c (eff_bind (match ?b with _ => _ end) ?k ?c').1 => destruct b eqn:?
  | |- ?R ?c (eff_bind (let _ := _ in _) ?k ?c').1 => cbv zeta
  | |- ?R ?c (eff_bind ?m ?k ?c').1 => apply bind_at; [apply _|call tt|base tt|intros]
  | |- ?R ?c (put ?s ?v ?c').1 => change (R c (s v c'))
  | |- ?R ?c (eff_set ?f ?c').1 => change (R c (f c')); cbv beta
  | |- ?R ?c (change ?i ?f ?c').1 => change (R c (set_objects (alter f i (objects c')) c'))
  | |- ?R ?c (eff_ret _ ?c').1 => change (R c c')
  | |- ?R ?c (eff_throw _ ?c').1 => change (R c c')
  | |- ?R ?c (eff_when ?b ?m ?c').1 => destruct b eqn:?; unfold eff_when
  | |- ?R ?c ((if ?b then _ else _) ?c').1 => destruct b eqn:?
  | |- ?R ?c ((match ?b with _ => _ end) ?c').1 => destruct b eqn:?
  | |- ?R ?c ((let _ := _ in _) ?c').1 => cbv zeta
  | |- ?R ?c ((let _ := _ in _)).1 => cbv zeta
  | |- ?R ?c (?m ?c').1 => apply does_at; [apply _|call tt|base tt]
  end.

Lemma evolves_sent c fs : no_data fs -> evolves c (set_sent (sent c ++ fs) c).
Proof. intros H. split; cbn; try done; [right; auto|by exists fs]. Qed.

(** An assignment in the heap [evolves] has reached. *)
Ltac evolve_from :=
  match goal with
  | H : evolves ?c ?d |- evolves ?c ?d => exact H
  | |- evolves ?c ?c => reflexivity
  | |- evolves ?c (set_sent (sent ?d ++ _) ?d) => transitivity d; [evolve_from|apply evolves_sent; assumption]
  | |- evolves ?c (set_objects (alter _ _ (objects ?d)) ?d) => transitivity d; [evolve_from|apply evolves_change; intros; first [by constructor|solve [eauto with evolves]]]
  | |- evolves ?c (_ _ ?d) => transitivity d; [evolve_from|evolve]
  end.

Ltac evolving := intros ?; repeat exec_step ltac:(fun _ => evolve_from) ltac:(fun _ => solve [eauto 12 with evolves]); try evolve_from.

Lemma drainWrites_evolves : does evolves drainWrites.
Proof. unfold drainWrites. evolving. Qed.
#[export] Hint Resolve drainWrites_evolves : evolves.

Lemma enqueueBytes_evolves fs bytes : no_data fs -> does evolves (enqueueBytes fs bytes).
Proof. intros Hfs. unfold enqueueBytes. evolving. Qed.
#[export] Hint Resolve enqueueBytes_evolves : evolves.

Lemma sendFrame_evolves f : data_length f = 0 -> does evolves (sendFrame f).
Proof. intros Hf. assert (no_data [f]) by by constructor. unfold sendFrame. evolving. Qed.
#[export] Hint Resolve sendFrame_evolves : evolves.
#[export] Hint Extern 1 (does evolves (sendFrame (mk_frame _ _ _ _))) => apply sendFrame_evolves; reflexivity : evolves.

Lemma send_with_evolves t flags sid payload : (t =? HTTP2_FRAME_DATA) = false -> does evolves (send_with t flags sid payload).
Proof. intros Ht. assert (forall p, data_length (mk_frame t flags sid p) = 0) by (intros p; unfold data_length; cbn [fr_type]; by rewrite Ht). unfold send_with. evolving. Qed.

Lemma notifyFlowChange_evolves : does evolves notifyFlowChange.
Proof. unfold notifyFlowChange. evolving. Qed.

Lemma wake_loop_evolves l : does evolves (wake_loop l).
Proof. induction l as [|w l IH]; cbn; evolving. Qed.
#[export] Hint Resolve notifyFlowChange_evolves wake_loop_evolves : evolves.
#[export] Hint Extern 1 (does evolves (send_with _ _ _ _)) => apply send_with_evolves; reflexivity : evolves.

Lemma wakeSlotWaiters_evolves : does evolves wakeSlotWaiters.
Proof. unfold wakeSlotWaiters. evolving. all: match goal with |- evolves _ (if ?b then _ else _) => destruct b end; evolve_from. Qed.
#[export] Hint Resolve wakeSlotWaiters_evolves : evolves.

Lemma failSlotWaiters_evolves reason : does evolves (failSlotWaiters reason).
Proof.
  assert (forall l, does evolves (eff_each (fun w => eff_when (w_active w) (settle (w_result w) (Err reason))) l)).
  { intros l. apply does_each; [apply _|]. intros w. apply does_when; [apply _|]. eauto with evolves. }
  unfold failSlotWaiters. evolving.
Qed.

Lemma finishApplication_evolves id : does evolves (finishApplication id).
Proof. intros c. apply evolves_change. intros s. destruct (appTerminal s) eqn:E; [done|]. by constructor; cbn. Qed.

Lemma settleTrailers_evolves id fields : does evolves (settleTrailers id fields).
Proof. intros c. apply evolves_change. intros s. destruct (trailersSettled s); [done|]. by constructor. Qed.

Lemma pushIncoming_evolves id item : does evolves (pushIncoming id item).
Proof. intros c. apply evolves_change. intros s. unfold push_item. destruct (pulling s); by constructor. Qed.

Lemma finish_termination_evolves : does evolves finish_termination.
Proof. unfold finish_termination. evolving. Qed.
#[export] Hint Resolve failSlotWaiters_evolves finishApplication_evolves settleTrailers_evolves pushIncoming_evolves
  finish_termination_evolves : evolves.

Lemma fail_stream_evolves reason s : stream_evolves s (fail_stream reason s).
Proof. unfold fail_stream. cbn. destruct (responseDelivered s); cbn; destruct (trailersSettled s); by constructor. Qed.

Lemma each_stream_does (R : Http2ClientConnection -> Http2ClientConnection -> Prop) `{!PreOrder R} f :
  (forall id, does R (f id)) -> does R (each_stream f).
Proof.
  intros Hf c. apply (does_at R (eff_each _ (streams c))); [|done]. apply does_each; [done|]. intros id c'.
  cbn. unfold eff_bind, get_, eff_get. by apply does_when.
Qed.
#[export] Hint Resolve fail_stream_evolves : evolves.

Section CreditEvolves.
Context (credit : Z -> Turn unit) (Hcredit : forall n, does evolves (credit n)).

Lemma discard_with_evolves id : does evolves (discard_with credit id).
Proof using Hcredit. unfold discard_with. evolving. Qed.

Lemma fail_with_evolves id reason : does evolves (fail_with credit id reason).
Proof using Hcredit.
  pose proof discard_with_evolves. unfold fail_with. evolving.
Qed.

Lemma terminate_with_evolves reason code b : does evolves (terminate_with credit reason code b).
Proof using Hcredit.
  assert (does evolves (each_stream (fun id => fail_with credit id reason))).
  { apply each_stream_does; [apply _|]. intros id. apply fail_with_evolves. }
  intros c. unfold terminate_with. do 2 exec_step ltac:(fun _ => evolve_from) idtac; [reflexivity|].
  set (c1 := set_draining true (set_terminating true c)). transitivity c1; [subst c1; evolve_from|].
  do 2 exec_step ltac:(fun _ => evolve_from) idtac. change (set_draining true (set_terminating true c)) with c1.
  assert (forall d, evolves c1 d -> evolves c1 (set_streams [] d)).
  { intros d Hd. transitivity d; [done|]. apply evolves_clear. left. by apply (ev_terminating _ _ Hd). }
  repeat exec_step ltac:(fun _ => first [evolve_from|eauto]) ltac:(fun _ => solve [eauto 12 with evolves]).
  all: try evolve_from.
Qed.
End CreditEvolves.

Lemma credit_at_evolves depth n : does evolves (credit_at depth n).
Proof.
  revert n. induction depth as [|depth IH]; intros n; [intros c; reflexivity|]. cbn [credit_at].
  pose proof (terminate_with_evolves _ IH). evolving.
Qed.

Lemma returnConnectionCredit_evolves n : does evolves (returnConnectionCredit n).
Proof. apply credit_at_evolves. Qed.
#[export] Hint Resolve returnConnectionCredit_evolves : evolves.

Lemma discardIncoming_evolves id : does evolves (discardIncoming id).
Proof. apply discard_with_evolves. eauto with evolves. Qed.
Lemma fail_evolves id reason : does evolves (fail id reason).
Proof. apply fail_with_evolves. eauto with evolves. Qed.
Lemma terminate_evolves reason code b : does evolves (terminate reason code b).
Proof. apply terminate_with_evolves. eauto with evolves. Qed.
#[export] Hint Resolve discardIncoming_evolves fail_evolves terminate_evolves : evolves.

Lemma finishDrainIfIdle_evolves : does evolves finishDrainIfIdle.
Proof. unfold finishDrainIfIdle. evolving. Qed.
#[export] Hint Resolve finishDrainIfIdle_evolves : evolves.
Lemma streamStateChanged_evolves id : does evolves (streamStateChanged id).
Proof.
  intros c. unfold streamStateChanged.
  do 2 exec_step ltac:(fun _ => evolve_from) idtac; [reflexivity|].
  assert (Hs : ended (stream_of c id)).
  { unfold ended. by destruct (localEnded (stream_of c id)), (remoteEnded (stream_of c id)). }
  pose proof (evolves_remove c id Hs). repeat exec_step ltac:(fun _ => evolve_from) ltac:(fun _ => solve [eauto 12 with evolves]).
  all: try evolve_from.
Qed.
#[export] Hint Resolve streamStateChanged_evolves : evolves.
Lemma resetStream_evolves id code message : does evolves (resetStream id code message).
Proof. unfold resetStream. evolving. Qed.
Lemma cancelStream_evolves id reason : does evolves (cancelStream id reason).
Proof. unfold cancelStream. evolving. Qed.
Lemma returnReceiveCredit_evolves id n : does evolves (returnReceiveCredit id n).
Proof. unfold returnReceiveCredit. evolving. Qed.
#[export] Hint Resolve resetStream_evolves cancelStream_evolves returnReceiveCredit_evolves : evolves.
Lemma receiveEnd_evolves id : does evolves (receiveEnd id).
Proof. unfold receiveEnd. evolving. Qed.
Lemma peerReset_evolves id code : does evolves (peerReset id code).
Proof. unfold peerReset. evolving. Qed.
Lemma markLocalEnd_evolves id : does evolves (markLocalEnd id).
Proof. unfold markLocalEnd. evolving. Qed.
#[export] Hint Resolve receiveEnd_evolves peerReset_evolves markLocalEnd_evolves : evolves.
Lemma handleHeaders_evolves id parsed e : does evolves (handleHeaders id parsed e).
Proof. unfold handleHeaders. evolving. Qed.
Lemma handleTrailers_evolves id fields e : does evolves (handleTrailers id fields e).
Proof. unfold handleTrailers. evolving. Qed.
Lemma receiveData_evolves id data n e : does evolves (receiveData id data n e).
Proof. unfold receiveData. evolving. Qed.
Lemma findStream_evolves id name : does evolves (findStream id name).
Proof. unfold findStream. evolving. Qed.
Lemma sendClosedStreamReset_evolves id : does evolves (sendClosedStreamReset id).
Proof. unfold sendClosedStreamReset. evolving. Qed.
Lemma decode_block_evolves b : does evolves (decode_block b).
Proof. unfold decode_block. evolving. Qed.
#[export] Hint Resolve handleHeaders_evolves handleTrailers_evolves receiveData_evolves findStream_evolves
  sendClosedStreamReset_evolves decode_block_evolves : evolves.
Lemma handleHeaderBlock_evolves b : does evolves (handleHeaderBlock b).
Proof. unfold handleHeaderBlock. evolving. Qed.
Lemma handleData_evolves f : does evolves (handleData f).
Proof. unfold handleData. evolving. Qed.
Lemma handleReset_evolves f : does evolves (handleReset f).
Proof. unfold handleReset. evolving. Qed.
Lemma accept_block_evolves f : does evolves (accept_block f).
Proof. unfold accept_block. evolving. Qed.
Lemma handlePing_evolves f : does evolves (handlePing f).
Proof. unfold handlePing. evolving. Qed.
Lemma handleGoAway_evolves f : does evolves (handleGoAway f).
Proof.
  assert (forall last, does evolves (each_stream (refuse_above last))).
  { intros last. apply each_stream_does; [apply _|]. intros id. unfold refuse_above. evolving. }
  unfold handleGoAway. evolving.
Qed.
#[export] Hint Resolve accept_block_evolves handlePing_evolves handleGoAway_evolves handleHeaderBlock_evolves
  handleData_evolves handleReset_evolves : evolves.

Lemma read_next_evolves : does evolves read_next.
Proof. intros c. unfold read_next, eff_set. cbn. evolve. Qed.
Lemma reader_catch_evolves e : does evolves (reader_catch e).
Proof. unfold reader_catch. evolving. Qed.
Lemma frame_catch_evolves e : does evolves (frame_catch e).
Proof. unfold frame_catch. evolving. Qed.
#[export] Hint Resolve read_next_evolves reader_catch_evolves frame_catch_evolves : evolves.

Lemma catch_evolves {A} (m : Turn A) h : does evolves m -> (forall e, does evolves (h e)) -> does evolves (eff_catch m h).
Proof. intros Hm Hh. by apply does_catch; [apply _|..]. Qed.
Lemma bind_evolves {A B} (m : Turn A) (k : A -> Turn B) : does evolves m -> (forall a, does evolves (k a)) -> does evolves (eff_bind m k).
Proof. intros Hm Hk. by apply does_bind; [apply _|..]. Qed.
Lemma ret_evolves {A} (a : A) : does evolves (eff_ret a : Turn A).
Proof. apply does_ret. apply _. Qed.
Lemma lift_evolves {A} (r : result A) : does evolves (eff_lift r : Turn A).
Proof. apply does_lift. apply _. Qed.
Lemma when_evolves b (m : Turn unit) : does evolves m -> does evolves (eff_when b m).
Proof. intros Hm. apply does_when; [apply _|done]. Qed.
#[export] Hint Resolve catch_evolves bind_evolves ret_evolves lift_evolves when_evolves : evolves.
#[export] Hint Extern 2 (does evolves (match ?b with _ => _ end)) => destruct b : evolves.

Lemma reader_resume_evolves : does evolves reader_resume.
Proof. unfold reader_resume. evolving. Qed.
Lemma start_evolves : does evolves start.
Proof.
  assert (forall a b o, no_data (mk_frame HTTP2_FRAME_SETTINGS 0 0 a :: (if HTTP2_DEFAULT_WINDOW_SIZE <? connectionWindowSize o
    then [mk_frame HTTP2_FRAME_WINDOW_UPDATE 0 0 b] else []))).
  { intros a b o. constructor; [done|]. destruct (HTTP2_DEFAULT_WINDOW_SIZE <? connectionWindowSize o); by repeat constructor. }
  unfold start. evolving.
Qed.
Lemma drain_evolves : does evolves drain.
Proof. unfold drain. evolving. Qed.
Lemma drain_resume_evolves p : does evolves (drain_resume p).
Proof. unfold drain_resume. evolving. Qed.
Lemma close_evolves reason : does evolves (close reason).
Proof. unfold close. evolving. Qed.
Lemma finish_resume_evolves : does evolves finish_resume.
Proof. unfold finish_resume. evolving. Qed.
Lemma write_resume_evolves r : does evolves (write_resume r).
Proof.
  assert (forall e l, does evolves (eff_each (fun w : list Z * Z => settle w.2 (Err e)) l)).
  { intros e l. apply does_each; [apply _|]. intros w. eauto with evolves. }
  unfold write_resume. evolving.
Qed.
#[export] Hint Resolve reader_resume_evolves start_evolves drain_evolves drain_resume_evolves close_evolves
  finish_resume_evolves write_resume_evolves : evolves.

Lemma become_evolves k st : does evolves (become k st).
Proof. intros c. unfold become, set_request, eff_set. cbn. evolve. Qed.
#[export] Hint Resolve become_evolves : evolves.
Lemma request_evolves k q aborted : does evolves (request k q aborted).
Proof. unfold request. evolving. Qed.
Lemma throwIfAborted_evolves r : does evolves (throwIfAborted r).
Proof. unfold throwIfAborted. evolving. Qed.
#[export] Hint Resolve request_evolves throwIfAborted_evolves : evolves.
Lemma reserveStreamSlot_evolves k r : does evolves (reserveStreamSlot k r).
Proof. unfold reserveStreamSlot. evolving. Qed.
Lemma request_catch_evolves k e : does evolves (request_catch k e).
Proof. unfold request_catch. eauto with evolves. Qed.
#[export] Hint Resolve reserveStreamSlot_evolves request_catch_evolves : evolves.
Lemma request_reserve_evolves k : does evolves (request_reserve k).
Proof. unfold request_reserve. evolving. Qed.
Lemma attachSignal_evolves id r : does evolves (attachSignal id r).
Proof. unfold attachSignal. evolving. Qed.
Lemma release_slot_evolves : does evolves release_slot.
Proof. unfold release_slot. evolving. Qed.
Lemma waiter_abort_evolves p reason : does evolves (waiter_abort p reason).
Proof. unfold waiter_abort. evolving. Qed.
#[export] Hint Resolve request_reserve_evolves attachSignal_evolves release_slot_evolves waiter_abort_evolves : evolves.
Lemma request_abort_evolves k reason : does evolves (request_abort k reason).
Proof.
  assert (forall f, does evolves (set_request k f)).
  { intros f c. unfold set_request, eff_set. cbn. evolve. }
  unfold request_abort. evolving.
Qed.

Lemma upload_to_evolves id st : does evolves (upload_to id st).
Proof. unfold upload_to. evolving. Qed.
Lemma upload_finish_evolves id : does evolves (upload_finish id).
Proof. unfold upload_finish. evolving. Qed.
Lemma acceptSendBytes_evolves id n : does evolves (acceptSendBytes id n).
Proof. unfold acceptSendBytes. evolving. Qed.
Lemma verifySendComplete_evolves id : does evolves (verifySendComplete id).
Proof. unfold verifySendComplete. evolving. Qed.
Lemma cannot_send_evolves c s : does evolves (cannot_send c s).
Proof. unfold cannot_send. evolving. Qed.
#[export] Hint Resolve request_abort_evolves upload_to_evolves upload_finish_evolves acceptSendBytes_evolves
  verifySendComplete_evolves cannot_send_evolves : evolves.
Lemma upload_catch_evolves id e : does evolves (upload_catch id e).
Proof. unfold upload_catch. evolving. Qed.
Lemma waitForFlowChange_evolves id : does evolves (waitForFlowChange id).
Proof. unfold waitForFlowChange. evolving. Qed.
Lemma upload_next_evolves id : does evolves (upload_next id).
Proof. unfold upload_next. evolving. Qed.
Lemma upload_complete_evolves id : does evolves (upload_complete id).
Proof. unfold upload_complete. evolving. Qed.
#[export] Hint Resolve upload_complete_evolves upload_catch_evolves waitForFlowChange_evolves upload_next_evolves : evolves.
Lemma sendRequestBody_evolves id : does evolves (sendRequestBody id).
Proof. unfold sendRequestBody. evolving. Qed.
#[export] Hint Resolve sendRequestBody_evolves : evolves.
Lemma request_opened_evolves k : does evolves (request_opened k).
Proof. unfold request_opened. evolving. Qed.

Lemma pullBody_evolves id : does evolves (pullBody id).
Proof.
  intros c. apply evolves_change. intros s. destruct (bodyState s), (pulling s); try done. unfold take_item. cbn.
  destruct (queued s); [by constructor|]. destruct (32 <? incomingOffset s + 1); cbn; try destruct (len (incoming s) <=? _); by constructor.
Qed.
Lemma enqueue_body_evolves id bytes : does evolves (enqueue_body id bytes).
Proof. unfold enqueue_body. evolving. Qed.
Lemma close_body_evolves id : does evolves (close_body id).
Proof. unfold close_body. evolving. Qed.
Lemma error_body_evolves id e : does evolves (error_body id e).
Proof. intros c. apply evolves_change. intros s. by destruct (bodyState s); constructor. Qed.
Lemma throw_evolves {A} e : does evolves (eff_throw e : Turn A).
Proof. apply does_throw. apply _. Qed.
#[export] Hint Resolve request_opened_evolves pullBody_evolves enqueue_body_evolves close_body_evolves error_body_evolves throw_evolves : evolves.
Lemma pull_resume_evolves id : does evolves (pull_resume id).
Proof. unfold pull_resume. evolving. Qed.
Lemma cancelBody_evolves id reason : does evolves (cancelBody id reason).
Proof. unfold cancelBody. evolving. Qed.
#[export] Hint Resolve pull_resume_evolves cancelBody_evolves : evolves.
