(* ===== verification/Http2Send.v ===== *)
(** * Flow control of a connection: sending

    The client sends no more DATA than its peer allows: on the connection, the
    initial 65535 bytes and every WINDOW_UPDATE of the connection; on a stream, the
    peer's current initial window and the stream's WINDOW_UPDATEs; whatever the
    order of the peer's frames, of the uploads, and of everything else. *)

From stdpp Require Import gmap.
From S2P Require Import Prelude Effects Hpack Frame FrameTheory HeaderRules Http2Heap Http2Connection Http2Turns.
Local Open Scope Z_scope.
Local Open Scope turn_scope.

(** ** What was sent and what was allowed *)

(** The bytes of the DATA frames, of all streams and of one. *)
Definition data_total (fs : list Http2Frame) : Z := foldr (fun f n => data_length f + n) 0 fs.
Definition data_on (id : Z) (fs : list Http2Frame) : Z := data_total (filter (fun f => fr_streamId f = id) fs).

(** The bytes that an event allows for a stream, or for the connection (stream 0). *)
Definition increment (id : Z) (e : event) : Z :=
  match e with
  | ev_frame f =>
      if (fr_type f =? HTTP2_FRAME_WINDOW_UPDATE) && (fr_streamId f =? id)
      then match parseHttp2WindowUpdate f with Ok n => n | Err _ => 0 end else 0
  | _ => 0
  end.
Definition allowed (id : Z) (es : list event) : Z := foldr (fun e n => increment id e + n) 0 es.

(** Within the allowance [credit]: on the connection, and on every open stream as
    long as the connection is not ending. *)
Record send_core (credit : Z -> Z) (c : Http2ClientConnection) : Prop := {
  so_window : 0 <= connectionSendWindow c <= HTTP2_MAX_WINDOW_SIZE;
  so_total : data_total (sent c) + connectionSendWindow c <= HTTP2_DEFAULT_WINDOW_SIZE + credit 0;
  so_next : 1 <= nextStreamId c;
  so_fresh : forall id, nextStreamId c <= id -> objects c !! id = None /\ data_on id (sent c) = 0;
  so_pos : forall id, id ∈ streams c -> 1 <= id;
  so_nodup : NoDup (streams c);
  so_dom : forall id, id ∈ streams c -> is_Some (objects c !! id);
  so_gone : ends c \/ forall id, is_Some (objects c !! id) -> id ∈ streams c \/ localEnded (stream_of c id) = true;
  so_initial : remoteInitialWindowSize c <= HTTP2_MAX_WINDOW_SIZE;
}.

Definition streams_ok (credit : Z -> Z) (c : Http2ClientConnection) : Prop :=
  ends c \/ forall id, id ∈ streams c ->
    sendWindow (stream_of c id) <= HTTP2_MAX_WINDOW_SIZE /\
    data_on id (sent c) + sendWindow (stream_of c id) <= remoteInitialWindowSize c + credit id.

Definition send_ok (credit : Z -> Z) (c : Http2ClientConnection) : Prop := send_core credit c /\ streams_ok credit c.

Lemma data_total_cons f fs : data_total (f :: fs) = data_length f + data_total fs.
Proof. done. Qed.

Lemma data_total_app a b : data_total (a ++ b) = data_total a + data_total b.
Proof. induction a as [|f a IH]; [done|]. cbn [app]. rewrite !data_total_cons. lia. Qed.

Lemma data_on_app id a b : data_on id (a ++ b) = data_on id a + data_on id b.
Proof. unfold data_on. by rewrite filter_app, data_total_app. Qed.

Lemma data_total_nonneg fs : 0 <= data_total fs.
Proof. induction fs as [|f fs IH]; [done|]. rewrite data_total_cons. unfold data_length, len. case_match; lia. Qed.

Lemma no_data_total fs : no_data fs -> data_total fs = 0.
Proof. induction 1 as [|f fs Hf _ IH]; [done|]. rewrite data_total_cons. lia. Qed.

Lemma no_data_on id fs : no_data fs -> data_on id fs = 0.
Proof. intros H. apply no_data_total. unfold no_data in *. rewrite Forall_forall in *. intros f [_ Hf]%list_elem_of_filter. auto. Qed.

Lemma evolves_sent_data c c' : evolves c c' ->
  data_total (sent c') = data_total (sent c) /\ forall id, data_on id (sent c') = data_on id (sent c).
Proof.
  intros H. destruct (ev_sent _ _ H) as (fs & -> & Hfs). split.
  - rewrite data_total_app, (no_data_total fs); [lia|done].
  - intros id. rewrite data_on_app, (no_data_on id fs); [lia|done].
Qed.

Lemma evolves_dom c c' id : evolves c c' -> is_Some (objects c' !! id) <-> is_Some (objects c !! id).
Proof. intros H. rewrite <- !elem_of_dom, (ev_objects _ _ H). done. Qed.

Lemma evolves_ends c c' : evolves c c' -> ends c -> ends c'.
Proof. intros H [E|E]; [left; by apply (ev_terminating _ _ H)|right; by apply (ev_terminated _ _ H)]. Qed.

Lemma evolves_send_core credit c c' : evolves c c' -> send_core credit c -> send_core credit c'.
Proof.
  intros H S. destruct (evolves_sent_data c c' H) as [Ht Hon]. split.
  - rewrite (ev_csw _ _ H). apply S.
  - rewrite Ht, (ev_csw _ _ H). apply S.
  - rewrite (ev_next _ _ H). apply S.
  - intros id. rewrite (ev_next _ _ H), Hon. intros Hid. destruct (so_fresh _ _ S id Hid) as [Hn ->].
    split; [|done]. apply eq_None_not_Some. intros Hs%(evolves_dom _ _ id H). rewrite Hn in Hs. by apply is_Some_None in Hs.
  - intros id Hid. apply (so_pos _ _ S). eapply elem_of_sublist; [done|apply H].
  - eapply sublist_NoDup; [apply S|apply H].
  - intros id Hid. apply (evolves_dom _ _ id H), (so_dom _ _ S). eapply elem_of_sublist; [done|apply H].
  - destruct (so_gone _ _ S) as [E|E]; [left; by eapply evolves_ends|]. destruct (ev_gone _ _ H) as [?|Hg]; [by left|right].
    intros id Hid. apply (evolves_dom _ _ id H) in Hid as [Hin|Hl]%E.
    + destruct (Hg id Hin) as [?|[? _]]; auto.
    + right. by apply (se_local _ _ (ev_stream _ _ H id)).
  - rewrite (ev_initial _ _ H). apply S.
Qed.

Lemma evolves_streams_ok credit c c' : evolves c c' -> streams_ok credit c -> streams_ok credit c'.
Proof.
  intros H [E|E]; [left; by eapply evolves_ends|right]. intros id Hid. destruct (evolves_sent_data c c' H) as [_ Hon].
  rewrite (se_window _ _ (ev_stream _ _ H id)), Hon, (ev_initial _ _ H). apply E. eapply elem_of_sublist; [done|apply H].
Qed.

Lemma evolves_send_ok credit c c' : evolves c c' -> send_ok credit c -> send_ok credit c'.
Proof. intros H [S1 S2]. split; [by eapply evolves_send_core|by eapply evolves_streams_ok]. Qed.

Lemma send_ok_more credit credit' c : (forall id, credit id <= credit' id) -> send_ok credit c -> send_ok credit' c.
Proof.
  intros Hle [S1 S2]. split.
  - destruct S1. split; try done. specialize (Hle 0). lia.
  - destruct S2 as [E|E]; [by left|right]. intros id Hid. specialize (Hle id). specialize (E id Hid). lia.
Qed.

(** ** Errors of the connection *)

(** What a turn throws satisfies [P]. *)
Definition throws {A} (P : js_error -> Prop) (m : Turn A) : Prop := forall c c' e, m c = (c', Err e) -> P e.

Definition conn_error (e : js_error) : Prop := match e with Http2WireError _ _ (Some _) => False | _ => True end.

(** Turns that only read and assign throw nothing. *)
Ltac quiet := repeat intro; match goal with E : _ = (_, Err _) |- _ => exfalso; cbn in E; repeat case_match; discriminate E end.

Lemma throws_bind {A B} P (m : Turn A) (k : A -> Turn B) :
  throws P m -> (forall a, throws P (k a)) -> throws P (eff_bind m k).
Proof.
  intros Hm Hk c c' e. unfold eff_bind. destruct (m c) as [c1 [a|e1]] eqn:E; [apply Hk|]. intros E'. apply (Hm c c1 e). congruence.
Qed.
Lemma throws_lift {A} P (r : result A) : (forall e, r = Err e -> P e) -> throws P (eff_lift r : Turn A).
Proof. intros H c c' e E. apply H. unfold eff_lift in E. congruence. Qed.
Lemma throws_each {A} P (f : A -> Turn unit) l : (forall a, throws P (f a)) -> throws P (eff_each f l).
Proof. intros H. induction l as [|a l IH]; [quiet|]. cbn. by apply throws_bind. Qed.

Lemma enqueueBytes_throws P fs bytes : throws P (enqueueBytes fs bytes).
Proof.
  unfold enqueueBytes. apply throws_bind; [quiet|]. intros c. destruct (terminated c); [quiet|].
  apply throws_bind; [quiet|]. intros p. do 2 (apply throws_bind; [quiet|]; intros []). apply throws_bind; [|quiet].
  destruct (negb (writing c)); [|quiet]. cbn. apply throws_bind; [quiet|]. intros []; quiet.
Qed.
Lemma sendFrame_throws P f : throws P (sendFrame f).
Proof.
  unfold sendFrame. apply throws_bind; [quiet|]. intros c. destruct (encodeHttp2Frame f _); [apply enqueueBytes_throws|quiet].
Qed.
Lemma wake_loop_throws P l : throws P (wake_loop l).
Proof.
  induction l as [|w l IH]; cbn; [quiet|]. apply throws_bind; [quiet|]. intros c. destruct (slot_free c); [|quiet].
  apply throws_bind; [quiet|]. intros []. apply throws_bind; [|done]. destruct (w_active w); quiet.
Qed.
Lemma wakeSlotWaiters_throws P : throws P wakeSlotWaiters.
Proof. unfold wakeSlotWaiters. apply throws_bind; [quiet|]. intros l. apply throws_bind; [apply wake_loop_throws|quiet]. Qed.

Lemma shift_window_throws d id : throws conn_error (shift_window d id).
Proof.
  unfold shift_window. apply throws_bind; [quiet|]. intros s. destruct (_ && _); [|quiet]. intros c c' e E; injection E as _ <-; done.
Qed.
Lemma each_stream_throws P f : (forall id, throws P (f id)) -> throws P (each_stream f).
Proof.
  intros H. unfold each_stream. apply throws_bind; [quiet|]. intros ids. apply throws_each. intros id.
  apply throws_bind; [quiet|]. intros b. destruct b; [apply H|quiet].
Qed.

Lemma requireNonnegativeInteger_conn n name e : requireNonnegativeInteger n name = Err e -> conn_error e.
Proof. unfold requireNonnegativeInteger, throw_if. case_match; [|done]. by intros [= <-]. Qed.

Lemma apply_initial_window_throws value : throws conn_error (apply_initial_window value).
Proof.
  apply throws_bind; [quiet|]. intros initial. apply throws_bind; [|quiet].
  apply each_stream_throws. intros id. apply shift_window_throws.
Qed.

Lemma applyRemoteSetting_throws st : throws conn_error (applyRemoteSetting st).
Proof.
  unfold applyRemoteSetting. cbv zeta. repeat (match goal with |- throws _ (if ?b then _ else _) => destruct b end); try quiet.
  - apply throws_bind; [quiet|]. intros c. apply throws_bind; [|quiet]. apply throws_lift. intros e.
    unfold encoder_setMaximumTableSize. destruct (requireNonnegativeInteger _ _) eqn:E; [done|]. intros [= <-].
    by eapply requireNonnegativeInteger_conn.
  - intros c c' e E; injection E as _ <-; done.
  - apply throws_bind; [quiet|]. intros []. apply wakeSlotWaiters_throws.
  - apply apply_initial_window_throws.
Qed.


Lemma bind_Err {A B} (m : result A) (k : A -> result B) e :
  mbind k m = Err e -> m = Err e \/ exists a, m = Ok a /\ k a = Err e.
Proof. destruct m as [a|e']; cbn; [right; by exists a|intros [= ->]; by left]. Qed.

Lemma throw_if_Err c e e' : throw_if c e = Err e' -> e' = e.
Proof. unfold throw_if. destruct c; congruence. Qed.

Lemma foldM_Err {A B} (P : js_error -> Prop) (f : A -> B -> result A) l :
  (forall a b e, f a b = Err e -> P e) -> forall a e, foldM f a l = Err e -> P e.
Proof.
  intros Hf. induction l as [|b l IH]; intros a e; [done|]. cbn. intros [E|(a' & E & H)]%bind_Err; [by eapply Hf|by eapply IH].
Qed.

(** A frame's SETTINGS are never blamed on a stream. *)
Lemma parseHttp2Settings_conn f e : parseHttp2Settings f = Err e -> conn_error e.
Proof.
  unfold parseHttp2Settings. intros [E|(? & _ & H)]%bind_Err; [by apply throw_if_Err in E as ->|].
  revert H. intros [E|(? & _ & H)]%bind_Err; [by apply throw_if_Err in E as ->|].
  revert H. intros [E|(? & _ & H)]%bind_Err; [by apply throw_if_Err in E as ->|].
  revert H. apply (foldM_Err conn_error). intros l o e'. unfold parse_setting. cbv zeta.
  intros [E|(v & _ & H)]%bind_Err; [unfold readUint32 in E; repeat case_match; congruence || (injection E as <-; done)|].
  revert H. intros [E|(? & _ & H)]%bind_Err; [|done]. revert E. unfold validateHttp2Setting.
  intros [E|(? & _ & H')]%bind_Err; [by apply throw_if_Err in E as ->|].
  revert H'. intros [E|(? & _ & H')]%bind_Err; [by apply throw_if_Err in E as ->|by apply throw_if_Err in H' as ->].
Qed.

Lemma parseHttp2Settings_valid f l : parseHttp2Settings f = Ok l ->
  Forall (fun s => validateHttp2Setting (identifier s) (set_value s) = Ok tt) l.
Proof.
  unfold parseHttp2Settings. intros H. do 3 (apply bind_Ok in H as (? & _ & H)). revert H. apply (foldM_inv (Forall _)); [|done].
  intros acc o acc' _ Hacc. unfold parse_setting. cbv zeta. intros (v & _ & H)%bind_Ok. apply bind_Ok in H as ([] & Hv & H).
  injection H as <-. apply Forall_app_2; [done|]. by repeat constructor.
Qed.

(** ** SETTINGS *)

(** Nothing but the windows of streams has changed. *)
Record moved (c c' : Http2ClientConnection) : Prop := {
  mv_rest : c' = set_objects (objects c') c;
  mv_dom : dom (objects c') = dom (objects c);
  mv_stream : forall id, exists w, stream_of c' id = set_sendWindow w (stream_of c id);
}.
#[export] Instance moved_preorder : PreOrder moved.
Proof.
  split.
  - intros c. split; [by destruct c|done|]. intros id. exists (sendWindow (stream_of c id)). by destruct (stream_of c id).
  - intros a b c [R1 D1 S1] [R2 D2 S2]. split; [by rewrite R2, R1|congruence|]. intros id.
    destruct (S1 id) as [w1 E1], (S2 id) as [w2 E2]. exists w2. by rewrite E2, E1.
Qed.

Lemma shift_window_moved d id : does moved (shift_window d id).
Proof.
  intros c. unfold shift_window. repeat exec_step ltac:(fun _ => reflexivity) idtac; [reflexivity|].
  split; [done|by cbn; rewrite dom_alter_L|]. intros k.
  rewrite stream_of_alter. case_bool_decide; [by eexists|]. exists (sendWindow (stream_of c k)). by destruct (stream_of c k).
Qed.

Lemma moved_core credit c c' : moved c c' -> send_core credit c -> send_core credit c'.
Proof.
  intros [-> Hd Hs] S. set (o := objects c') in *. assert (Ho : forall id, is_Some (o !! id) <-> is_Some (objects c !! id)).
  { intros id. rewrite <- !elem_of_dom. by cbn in Hd; rewrite Hd. }
  split; cbn; try apply S.
  - intros id Hid. destruct (so_fresh _ _ S id Hid) as [Hn Hz]. split; [|done]. apply eq_None_not_Some. intros H%Ho.
    rewrite Hn in H. by apply is_Some_None in H.
  - intros id Hid. by apply Ho, (so_dom _ _ S).
  - destruct (so_gone _ _ S) as [E|E]; [by left|right]. intros id Hid%Ho. destruct (E id Hid) as [?|Hl]; [by left|right].
    destruct (Hs id) as [w Hw]. by rewrite Hw.
Qed.

Lemma moved_ends c c' : moved c c' -> ends c -> ends c'.
Proof. by intros [-> _ _]. Qed.

(** One stream is moved by [d]. *)
Lemma shift_window_ok d id c c' : is_Some (objects c !! id) -> shift_window d id c = (c', Ok tt) ->
  sendWindow (stream_of c' id) = sendWindow (stream_of c id) + d /\
  (sendWindow (stream_of c id) <= HTTP2_MAX_WINDOW_SIZE -> sendWindow (stream_of c' id) <= HTTP2_MAX_WINDOW_SIZE) /\
  forall k, k <> id -> stream_of c' k = stream_of c k.
Proof.
  intros Hid. unfold shift_window, the, eff_bind, eff_get, change, eff_set, eff_throw.
  destruct ((0 <? d) && (HTTP2_MAX_WINDOW_SIZE - d <? sendWindow (stream_of c id))) eqn:E; [done|]. intros H.
  assert (Hc : c' = set_objects (alter (set_sendWindow (sendWindow (stream_of c id) + d)) id (objects c)) c) by congruence.
  subst c'. clear H. rewrite stream_of_alter, bool_decide_true by done. cbn. split; [done|]. split; [lia|].
  intros k Hk. rewrite stream_of_alter, bool_decide_false; [done|]. by intros [-> _].
Qed.

Lemma shift_each d : forall ids c c', NoDup ids -> (forall id, id ∈ ids -> id ∈ streams c /\ is_Some (objects c !! id)) ->
  eff_each (fun id => present ← get_ (fun c => has_stream c id); eff_when present (shift_window d id)) ids c = (c', Ok tt) ->
  (forall id, id ∈ ids -> sendWindow (stream_of c' id) = sendWindow (stream_of c id) + d /\
    (sendWindow (stream_of c id) <= HTTP2_MAX_WINDOW_SIZE -> sendWindow (stream_of c' id) <= HTTP2_MAX_WINDOW_SIZE)) /\
  forall k, k ∉ ids -> stream_of c' k = stream_of c k.
Proof.
  induction ids as [|id ids IH]; intros c c' Hnd Hin.
  { intros [= <-]. split; [intros id H; by apply not_elem_of_nil in H|done]. }
  apply NoDup_cons in Hnd as [Hnotin Hnd]. cbn. unfold eff_bind at 1 2. unfold get_ at 1, eff_get at 1.
  destruct (Hin id) as [Hs Ho]; [by left|]. unfold has_stream at 1. rewrite (bool_decide_true _ Hs). cbn [eff_when].
  pose proof (shift_window_moved d id c) as Hm.
  destruct (shift_window d id c) as [c1 [[]|e]] eqn:E1; [|done]. intros E2. cbn [fst] in Hm.
  destruct (shift_window_ok d id c c1 Ho E1) as (H1 & H2 & H3).
  assert (Hin1 : forall k, k ∈ ids -> k ∈ streams c1 /\ is_Some (objects c1 !! k)).
  { intros k Hk. destruct (Hin k) as [? Hk2]; [by right|]. split; [by rewrite (mv_rest _ _ Hm)|].
    apply elem_of_dom. rewrite (mv_dom _ _ Hm). by apply elem_of_dom. }
  destruct (IH c1 c' Hnd Hin1 E2) as [Hids Hrest]. split.
  - intros k [->|Hk]%elem_of_cons; [by rewrite Hrest|]. destruct (Hids k Hk) as [-> ?].
    rewrite !H3 in * by (intros ->; contradiction). done.
  - intros k Hk. rewrite not_elem_of_cons in Hk. destruct Hk. rewrite Hrest, H3; done.
Qed.

(** A heap with the same fields as far as sending goes. *)
Ltac same_sending := lazymatch goal with S : send_ok _ _ |- _ => destruct S as [[] S2]; split; [split; done|exact S2] end.

(** A call that keeps the allowance, unless it throws an error that ends the
    connection. *)
Definition keeps_send {A} (credit : Z -> Z) (m : Turn A) : Prop := forall c, send_ok credit c ->
  send_core credit (m c).1 /\ match (m c).2 with Ok _ => streams_ok credit (m c).1 | Err e => conn_error e \/ streams_ok credit (m c).1 end.

Lemma keeps_send_bind {A B} credit (m : Turn A) (k : A -> Turn B) : keeps_send credit m -> (forall a, keeps_send credit (k a)) -> keeps_send credit (eff_bind m k).
Proof.
  intros Hm Hk c S. unfold eff_bind. destruct (Hm c S) as [Hc Hs]. destruct (m c) as [c1 [a|e]]; cbn in *; [|done].
  apply Hk. by split.
Qed.

Lemma keeps_send_each {A} credit (f : A -> Turn unit) l : Forall (fun a => keeps_send credit (f a)) l -> keeps_send credit (eff_each f l).
Proof.
  induction 1 as [|a l Ha _ IH]; [by intros c []|]. cbn. by apply keeps_send_bind.
Qed.

Lemma keeps_send_evolves {A} credit (m : Turn A) : does evolves m -> keeps_send credit m.
Proof.
  intros Hm c S. pose proof (evolves_send_ok credit _ _ (Hm c) S) as [S1 S2]. split; [done|].
  destruct (m c).2; [done|by right].
Qed.

Lemma keeps_send_throws credit (m : Turn unit) : throws conn_error m ->
  (forall c, send_ok credit c -> send_core credit (m c).1 /\ forall x, (m c).2 = Ok x -> streams_ok credit (m c).1) -> keeps_send credit m.
Proof.
  intros Ht Hm c S. destruct (Hm c S) as [Hc Hs]. split; [done|]. pose proof (Ht c) as Hc'.
  destruct (m c) as [c' [x|e]]; cbn in *; [by eapply Hs|]. left. by eapply Hc'.
Qed.

Lemma apply_initial_window_keeps credit value : value <= HTTP2_MAX_WINDOW_SIZE -> keeps_send credit (apply_initial_window value).
Proof.
  intros Hv. apply keeps_send_throws; [apply apply_initial_window_throws|]. intros c [S1 S2].
  set (d := value - remoteInitialWindowSize c).
  assert (E : apply_initial_window value c = match each_stream (shift_window d) c with
    | (c1, Ok _) => notifyFlowChange (set_remoteInitialWindowSize value c1) | (c1, Err e) => (c1, Err e) end) by done.
  rewrite E. clear E.
  pose proof (each_stream_does moved (shift_window d) (shift_window_moved d) c) as Hm.
  pose proof (shift_each d (streams c) c) as Hs.
  change (eff_each (fun id => present ← get_ (fun c => has_stream c id); eff_when present (shift_window d id)) (streams c) c)
    with (each_stream (shift_window d) c) in Hs.
  destruct (each_stream (shift_window d) c) as [c1 [[]|e]]; cbn [fst snd] in *; [|split; [by eapply moved_core|done]].
  pose proof (moved_core credit c c1 Hm S1) as S1'. set (c2 := set_remoteInitialWindowSize value c1).
  assert (S : send_ok credit c2).
  { split; [destruct S1'; by split|]. destruct (so_gone _ _ S1') as [E|_]; [by left|]. destruct S2 as [E|Hold]; [left; exact (moved_ends _ _ Hm E)|].
    right. intros id Hid. change (id ∈ streams c1) in Hid. change (stream_of c2 id) with (stream_of c1 id).
    change (sent c2) with (sent c1). change (remoteInitialWindowSize c2) with value. 
    assert (Hin : id ∈ streams c) by (by rewrite (mv_rest _ _ Hm) in Hid).
    assert (Hsent : sent c1 = sent c) by (by rewrite (mv_rest _ _ Hm)). rewrite Hsent.
    destruct (Hs c1 (so_nodup _ _ S1)) as [Hids _]; [intros k Hk; split; [done|by apply (so_dom _ _ S1)]|done|].
    destruct (Hids id Hin) as [Hw Hmax]. destruct (Hold id Hin) as [H1 H2]. split; [by apply Hmax|]. lia. }
  pose proof (evolves_send_ok credit _ _ (notifyFlowChange_evolves c2) S) as [H1 H2]. by split.
Qed.

Lemma applyRemoteSetting_keeps credit st : validateHttp2Setting (identifier st) (set_value st) = Ok tt ->
  keeps_send credit (applyRemoteSetting st).
Proof.
  intros Hv. unfold applyRemoteSetting. cbv zeta.
  destruct (identifier st =? HTTP2_SETTING_HEADER_TABLE_SIZE); [apply keeps_send_evolves; evolving|].
  destruct (identifier st =? HTTP2_SETTING_ENABLE_PUSH); [apply keeps_send_evolves; eauto with evolves|].
  destruct (identifier st =? HTTP2_SETTING_MAX_CONCURRENT_STREAMS); [apply keeps_send_evolves; evolving|].
  destruct (identifier st =? HTTP2_SETTING_INITIAL_WINDOW_SIZE) eqn:E.
  { apply apply_initial_window_keeps. unfold validateHttp2Setting in Hv. rewrite E in Hv. ok_inv Hv. ok_inv Hv. lia. }
  destruct (identifier st =? HTTP2_SETTING_MAX_FRAME_SIZE); [by intros c S; cbn; same_sending|].
  destruct (identifier st =? HTTP2_SETTING_MAX_HEADER_LIST_SIZE); [apply keeps_send_evolves; intros c; cbn; evolve|].
  destruct (identifier st =? HTTP2_SETTING_ENABLE_CONNECT_PROTOCOL); [apply keeps_send_evolves; intros c; cbn; evolve|].
  apply keeps_send_evolves. eauto with evolves.
Qed.

Lemma handleSettings_keeps credit f : keeps_send credit (handleSettings f).
Proof.
  unfold handleSettings. destruct (has_flag f HTTP2_FLAG_ACK); [apply keeps_send_evolves; intros c; cbn; evolve|].
  destruct (parseHttp2Settings f) as [l|e] eqn:E.
  - apply (keeps_send_bind credit (eff_each applyRemoteSetting l)).
    + apply keeps_send_each. eapply Forall_impl; [by eapply parseHttp2Settings_valid|]. intros st. apply applyRemoteSetting_keeps.
    + intros _. apply keeps_send_evolves. evolving.
  - intros c [S1 S2]. cbn. split; [done|]. left. by eapply parseHttp2Settings_conn.
Qed.

(** ** WINDOW_UPDATE *)

Lemma increment_bounds f n : parseHttp2WindowUpdate f = Ok n -> 1 <= n <= HTTP2_MAX_WINDOW_SIZE.
Proof.
  unfold parseHttp2WindowUpdate. intros H. ok_inv H. ok_inv H. cbv zeta in H. ok_inv H. injection H as <-.
  unfold js_and in *. change (to_int32 HTTP2_MAX_WINDOW_SIZE) with (Z.ones 31) in *. rewrite Z.land_ones in * by lia.
  match goal with |- context [to_int32 ?x mod _] => pose proof (Z.mod_pos_bound (to_int32 x) (2 ^ 31)) end. unfold HTTP2_MAX_WINDOW_SIZE. lia.
Qed.

Lemma increment_nonneg id e : 0 <= increment id e.
Proof.
  unfold increment. destruct e; try done. destruct (_ && _); [|done].
  destruct (parseHttp2WindowUpdate frame) eqn:E; [|done]. apply increment_bounds in E. lia.
Qed.

Lemma findStream_run id name c c' b : findStream id name c = (c', Ok b) -> c' = c /\ (b = true -> id ∈ streams c).
Proof.
  unfold findStream, eff_bind, get_, eff_get, Datatypes.id. unfold has_stream.
  case_bool_decide as H; [intros [= <- <-]; by split|]. destruct (_ || _); intros [= <- <-]. by split.
Qed.

Lemma set_window_ok credit c id w : send_core credit c -> w <= HTTP2_MAX_WINDOW_SIZE ->
  (ends c \/ forall k, k ∈ streams c -> sendWindow (stream_of c k) <= HTTP2_MAX_WINDOW_SIZE /\
     data_on k (sent c) + (if bool_decide (k = id) then w else sendWindow (stream_of c k)) <= remoteInitialWindowSize c + credit k) ->
  send_ok credit (set_objects (alter (set_sendWindow w) id (objects c)) c).
Proof.
  intros S Hw Hs. set (c' := set_objects _ c).
  assert (Hm : moved c c').
  { split; [done|by cbn; rewrite dom_alter_L|]. intros k. subst c'. rewrite stream_of_alter. case_bool_decide; [by eexists|].
    exists (sendWindow (stream_of c k)). by destruct (stream_of c k). }
  split; [by eapply moved_core|]. destruct Hs as [E|Hs]; [by left|right]. intros k Hk. destruct (Hs k Hk) as [H1 H2].
  subst c'. rewrite stream_of_alter. destruct (decide (k = id)) as [->|Hne].
  - rewrite bool_decide_true by (split; [done|by apply (so_dom _ _ S)]). rewrite bool_decide_true in H2 by done. by cbn.
  - rewrite bool_decide_false by (by intros []). by rewrite bool_decide_false in H2.
Qed.

Lemma handleWindowUpdate_keeps credit f : fr_type f = HTTP2_FRAME_WINDOW_UPDATE -> forall c, send_ok credit c ->
  send_ok (fun id => credit id + increment id (ev_frame f)) (handleWindowUpdate f c).1.
Proof.
  intros Ht c S. set (credit' := fun id => credit id + increment id (ev_frame f)).
  assert (S' : send_ok credit' c) by (eapply send_ok_more; [|exact S]; intros id; pose proof (increment_nonneg id (ev_frame f)); subst credit'; cbn beta; lia).
  unfold handleWindowUpdate, eff_bind at 1, eff_lift. destruct (parseHttp2WindowUpdate f) as [n|e] eqn:En; [|exact S'].
  pose proof (increment_bounds f n En) as Hn. assert (Hinc : increment (fr_streamId f) (ev_frame f) = n).
  { unfold increment. by rewrite Ht, !Z.eqb_refl, En. }
  destruct (fr_streamId f =? 0) eqn:E0.
  - apply Z.eqb_eq in E0. unfold eff_bind, get_, eff_get, put, eff_set, eff_throw.
    destruct (HTTP2_MAX_WINDOW_SIZE - n <? connectionSendWindow c) eqn:El; [exact S'|].
    eapply evolves_send_ok; [apply notifyFlowChange_evolves|]. destruct S as [S1 S2], S' as [_ S2']. rewrite E0 in Hinc.
    split; [|exact S2']. destruct S1.
    assert (data_total (sent c) + (connectionSendWindow c + n) <= HTTP2_DEFAULT_WINDOW_SIZE + credit' 0) by (subst credit'; cbn beta; lia).
    split; try done. cbn. lia.
  - unfold eff_bind at 1. destruct (findStream _ _ c) as [c1 [b|e]] eqn:Ef.
    2: { pose proof (findStream_evolves (fr_streamId f) "WINDOW_UPDATE" c) as Hev. rewrite Ef in Hev. by eapply evolves_send_ok. }
    apply findStream_run in Ef as [-> Hb]. destruct b; [|exact S']. specialize (Hb eq_refl). cbn [eff_when].
    unfold eff_bind at 1, the at 1, eff_get at 1. destruct (HTTP2_MAX_WINDOW_SIZE - n <? sendWindow (stream_of c (fr_streamId f))) eqn:El.
    { eapply evolves_send_ok; [apply resetStream_evolves|exact S']. }
    unfold eff_bind, change, eff_set. eapply evolves_send_ok; [apply notifyFlowChange_evolves|].
    destruct S as [S1 S2], S' as [S1' _]. apply set_window_ok; [exact S1'|lia|]. destruct S2 as [E|S2]; [by left|right].
    intros k Hk. destruct (S2 k Hk) as [H1 H2]. split; [done|]. subst credit'. cbn beta. case_bool_decide as Hkid.
    + subst k. lia.
    + pose proof (increment_nonneg k (ev_frame f)). lia.
Qed.

(** ** DATA frames *)

(** Frames are enqueued between two turns that send nothing, or not at all. *)
Lemma enqueueBytes_split fs bytes c : evolves c (enqueueBytes fs bytes c).1 \/
  exists c1, evolves c c1 /\ evolves (set_sent (sent c1 ++ fs) c1) (enqueueBytes fs bytes c).1.
Proof.
  destruct (terminated c) eqn:E.
  - left. assert (Hq : enqueueBytes fs bytes c = promise (Some (Err (TypeError "HTTP/2 connection is closed"))) c).
    { unfold enqueueBytes, eff_bind at 1, get_ at 1, eff_get at 1, Datatypes.id. by rewrite E. }
    rewrite Hq. apply promise_evolves.
  - right. set (c1 := (promise None c).1). exists (set_writes (writes c1 ++ [(bytes, nextPromise c)]) c1). split.
    { transitivity c1; [apply promise_evolves|evolve]. }
    set (c2 := set_sent _ _).
    assert (Hq : enqueueBytes fs bytes c = (eff_when (negb (writing c)) drainWrites ;; eff_ret (nextPromise c)) c2).
    { unfold enqueueBytes, eff_bind at 1, get_ at 1, eff_get at 1, Datatypes.id. by rewrite E. }
    rewrite Hq. clear Hq. clearbody c2. clear c1.
    assert (Hd : does evolves (eff_when (negb (writing c)) drainWrites ;; eff_ret (nextPromise c))) by eauto with evolves. apply Hd.
Qed.

Lemma sendFrame_split f c : evolves c (sendFrame f c).1 \/
  exists c1, evolves c c1 /\ evolves (set_sent (sent c1 ++ [f]) c1) (sendFrame f c).1.
Proof.
  destruct (encodeHttp2Frame f (remoteMaximumFrameSize c)) as [bytes|e] eqn:E.
  - assert (Hq : sendFrame f c = enqueueBytes [f] bytes c).
    { unfold sendFrame, eff_bind, get_, eff_get, Datatypes.id. by rewrite E. }
    rewrite Hq. apply enqueueBytes_split.
  - left. assert (Hq : sendFrame f c = promise (Some (Err e)) c).
    { unfold sendFrame, eff_bind, get_, eff_get, Datatypes.id. by rewrite E. }
    rewrite Hq. apply promise_evolves.
Qed.

(** A frame of at most [n] bytes of DATA on the stream [id] uses up [n] bytes that
    were set aside. *)
Definition set_aside (n id : Z) (credit : Z -> Z) (k : Z) : Z := if (k =? 0) || (k =? id) then credit k - n else credit k.

Lemma data_on_frame k f : data_on k [f] = if fr_streamId f =? k then data_length f else 0.
Proof.
  unfold data_on. destruct (Z.eqb_spec (fr_streamId f) k).
  - rewrite filter_cons_True by done. cbn. lia.
  - by rewrite filter_cons_False by done.
Qed.

Lemma sendFrame_data credit n id f c : 0 <= n -> data_length f <= n -> fr_streamId f = id -> id < nextStreamId c ->
  send_ok (set_aside n id credit) c -> send_ok credit (sendFrame f c).1.
Proof.
  intros Hn Hf Hid Hnext S. assert (Hless : forall k, set_aside n id credit k <= credit k).
  { intros k. unfold set_aside. destruct (_ || _); lia. }
  destruct (sendFrame_split f c) as [H|(c1 & H1 & H2)].
  { eapply evolves_send_ok; [exact H|]. by eapply send_ok_more. }
  eapply evolves_send_ok; [exact H2|]. pose proof (evolves_send_ok _ _ _ H1 S) as [S1 S2]. rewrite <- (ev_next _ _ H1) in Hnext.
  assert (H0 : set_aside n id credit 0 = credit 0 - n) by done. clear H1 H2 S.
  split.
  - destruct S1. split; try done.
    + cbn. rewrite data_total_app. cbn. lia.
    + intros k Hk. change (nextStreamId c1 <= k) in Hk. destruct (so_fresh0 k Hk) as [Hn0 Hz]. split; [done|].
      change (data_on k (sent c1 ++ [f]) = 0). rewrite data_on_app, data_on_frame. destruct (Z.eqb_spec (fr_streamId f) k); lia.
  - destruct S2 as [E|S2]; [by left|right]. intros k Hk. destruct (S2 k Hk) as [Hm Hs]. split; [done|].
    change (data_on k (sent c1 ++ [f]) + sendWindow (stream_of c1 k) <= remoteInitialWindowSize c1 + credit k).
    rewrite data_on_app, data_on_frame. unfold set_aside in Hs. destruct (Z.eqb_spec (fr_streamId f) k).
    + rewrite Hid in *. subst k. rewrite Z.eqb_refl, orb_true_r in Hs. lia.
    + destruct ((k =? 0) || (k =? id)); lia.
Qed.

Lemma sendFrame_data_on n id f c k : 0 <= n -> data_length f <= n -> fr_streamId f = id ->
  data_on k (sent (sendFrame f c).1) <= data_on k (sent c) + (if k =? id then n else 0) /\
  (k <> id -> data_on k (sent (sendFrame f c).1) = data_on k (sent c)).
Proof.
  intros Hn Hf <-. destruct (sendFrame_split f c) as [H|(c1 & H1 & H2)].
  - rewrite (proj2 (evolves_sent_data _ _ H)). split; [|done]. destruct (k =? _); lia.
  - rewrite (proj2 (evolves_sent_data _ _ H2)). change (sent (set_sent (sent c1 ++ [f]) c1)) with (sent c1 ++ [f]).
    rewrite data_on_app, data_on_frame, (proj2 (evolves_sent_data _ _ H1)), (Z.eqb_sym (fr_streamId f)).
    destruct (Z.eqb_spec k (fr_streamId f)); split; intros; lia.
Qed.

(** What [reserveSendCapacity] gives was set aside. *)
Lemma reserve_spec credit id n c c' r : send_ok credit c -> reserveSendCapacity id n c = (c', r) ->
  match r with
  | Ok p => 0 <= p /\ p <= Z.max 0 n /\ nextStreamId c' = nextStreamId c /\ id < nextStreamId c /\
      remoteInitialWindowSize c' = remoteInitialWindowSize c /\ sent c' = sent c /\
      (0 < p -> data_on id (sent c) + p <= remoteInitialWindowSize c + credit id) /\
      send_ok (set_aside p id credit) c'
  | Err _ => c' = c
  end.
Proof.
  intros [S1 S2]. unfold reserveSendCapacity, cannot_send, the, get_, eff_bind, eff_get, eff_throw, eff_ret, Datatypes.id.
  destruct (terminating c) eqn:E1; [by intros [= <- <-]|]. destruct (terminated c) eqn:E2; [by intros [= <- <-]|].
  destruct (localEnded (stream_of c id)) eqn:E3; [by intros [= <- <-]|]. cbn [orb].
  assert (Hends : ~ ends c) by (intros [?|?]; congruence).
  destruct (so_gone _ _ S1) as [?|Hg]; [done|]. destruct S2 as [?|S2]; [done|].
  assert (Ho : is_Some (objects c !! id)).
  { unfold stream_of in E3. destruct (objects c !! id) as [s|]; [by eexists|]. done. }
  destruct (Hg id Ho) as [Hin|?]; [|congruence]. destruct (S2 id Hin) as [Hm Hs].
  assert (Hid : id < nextStreamId c).
  { destruct (Z.lt_ge_cases id (nextStreamId c)) as [?|Hge]; [done|]. destruct (so_fresh _ _ S1 id Hge) as [Hn _].
    rewrite Hn in Ho. by apply is_Some_None in Ho. }
  set (p := Z.min _ (sendWindow (stream_of c id))). destruct (Z.leb_spec p 0) as [Hp|Hp].
  { intros [= <- <-]. split_and!; try done; [lia|]. eapply send_ok_more; [|split; [exact S1|by right]].
    intros k. unfold set_aside. destruct (_ || _); lia. }
  unfold put, change, eff_set. intros [= <- <-]. split_and!; try done; try lia.
  apply (set_window_ok _ (set_connectionSendWindow (connectionSendWindow c - p) c)).
  - destruct S1. assert (0 <= connectionSendWindow c - p <= HTTP2_MAX_WINDOW_SIZE) by lia.
    assert (data_total (sent c) + (connectionSendWindow c - p) <= HTTP2_DEFAULT_WINDOW_SIZE + (credit 0 - p)) by lia.
    by split.
  - lia.
  - right. intros k Hk. destruct (S2 k Hk) as [H1 H2]. split; [done|].
    change (data_on k (sent c) + (if bool_decide (k = id) then sendWindow (stream_of c id) - p else sendWindow (stream_of c k))
      <= remoteInitialWindowSize c + set_aside p id credit k).
    unfold set_aside. case_bool_decide as Hk'.
    + subst k. rewrite Z.eqb_refl, orb_true_r. lia.
    + destruct (Z.eqb_spec k 0) as [->|]; [by apply (so_pos _ _ S1) in Hk|]. destruct (Z.eqb_spec k id); [done|]. cbn [orb]. lia.
Qed.

(** ** Every event *)

(** What a turn sends on a stream is within the stream's window as it was. *)
Record kept (credit : Z -> Z) (c c' : Http2ClientConnection) : Prop := {
  k_ok : send_ok credit c';
  k_initial : remoteInitialWindowSize c' = remoteInitialWindowSize c;
  k_data : forall k, data_on k (sent c') = data_on k (sent c) \/ data_on k (sent c') <= remoteInitialWindowSize c + credit k;
}.
Definition keeps (credit : Z -> Z) (c c' : Http2ClientConnection) : Prop := send_ok credit c -> kept credit c c'.
#[export] Instance keeps_preorder credit : PreOrder (keeps credit).
Proof.
  split; unfold keeps.
  - intros c S. split; [done..|]. intros k. by left.
  - intros a b c H1 H2 S. destruct (H1 S) as [S1 I1 D1]. destruct (H2 S1) as [S2 I2 D2]. split; [done|congruence|].
    intros k. destruct (D2 k) as [->|D]; [apply D1|]. right. by rewrite <- I1.
Qed.

Lemma evolves_keeps credit c c' : evolves c c' -> keeps credit c c'.
Proof.
  intros H S. split; [by eapply evolves_send_ok|by apply ev_initial|]. intros k. left. by apply (evolves_sent_data c c' H).
Qed.
Lemma kept_after credit c c1 c2 : kept credit c c1 -> evolves c1 c2 -> kept credit c c2.
Proof.
  intros [S1 I1 D1] H. destruct (evolves_keeps credit c1 c2 H S1) as [S2 I2 D2]. split; [done|congruence|].
  intros k. rewrite (proj2 (evolves_sent_data _ _ H)). apply D1.
Qed.

Lemma does_keeps {A} credit (m : Turn A) : does evolves m -> does (keeps credit) m.
Proof. intros H c. apply evolves_keeps, H. Qed.

Section Uploads.
Context (credit : Z -> Z).

Lemma upload_reserve_keeps id chunk offset : does (keeps credit) (upload_reserve id chunk offset).
Proof.
  intros c S. unfold upload_reserve, eff_bind at 1. destruct (reserveSendCapacity id (len chunk - offset) c) as [c1 [p|e]] eqn:E.
  2: { apply (reserve_spec credit) in E; [|done]. subst c1. by apply (reflexivity (R := keeps credit)). }
  apply (reserve_spec credit) in E as (Hp & Hpn & Hnext & Hid & Hini & Hsent & Hbound & S1); [|done].
  destruct (Z.eqb_spec p 0) as [->|Hp0].
  - assert (S2 : send_ok credit c1).
    { eapply send_ok_more; [|exact S1]. intros k. unfold set_aside. destruct (_ || _); lia. }
    assert (Hd : does evolves (signal ← waitForFlowChange id; upload_to id (upload_waiting chunk offset signal))) by eauto with evolves.
    destruct (does_keeps credit _ Hd c1 S2) as [S3 I3 D3]. split; [done|congruence|]. intros k. rewrite <- Hini, <- Hsent. apply D3.
  - set (f := mk_frame HTTP2_FRAME_DATA 0 id (subarray chunk offset (offset + p))). unfold eff_bind.
    assert (Hf : data_length f <= p). { unfold data_length. cbn. unfold len, subarray. rewrite length_take. lia. }
    assert (S2 : send_ok credit (sendFrame f c1).1) by (apply (sendFrame_data credit p id); [done|done|done|lia|done]).
    pose proof (fun k => sendFrame_data_on p id f c1 k Hp Hf eq_refl) as Hdata.
    assert (Hinit : remoteInitialWindowSize (sendFrame f c1).1 = remoteInitialWindowSize c1).
    { destruct (sendFrame_split f c1) as [H|(c2 & H1 & H2)]; [apply (ev_initial _ _ H)|].
      rewrite (ev_initial _ _ H2). apply (ev_initial _ _ H1). }
    assert (K : kept credit c (sendFrame f c1).1).
    { split; [done|congruence|]. intros k. destruct (Hdata k) as [H1 H2]. rewrite Hsent in H1, H2.
      destruct (decide (k = id)) as [Hk|Hne]; [right|left; by apply H2]. rewrite Hk, Z.eqb_refl in *.
      specialize (Hbound ltac:(lia)). lia. }
    destruct (sendFrame f c1) as [c2 [q|e]]; cbn [fst] in *; [|done]. eapply kept_after; [exact K|]. apply upload_to_evolves.
Qed.

Lemma upload_send_keeps id chunk offset : does (keeps credit) (upload_send id chunk offset).
Proof.
  intros c. unfold upload_send. do 2 exec_step ltac:(fun _ => idtac) idtac; [apply upload_reserve_keeps|].
  apply does_keeps. eauto with evolves.
Qed.

Lemma upload_read_keeps id r : does (keeps credit) (upload_read id r).
Proof.
  unfold upload_read. apply does_bind; [apply _|apply does_keeps; intros c; reflexivity|]. intros s.
  destruct (upload s); try (apply does_keeps; solve [eauto with evolves]).
  apply does_catch; [apply _| |intros e; apply does_keeps; eauto with evolves].
  destruct r; [|apply does_keeps; solve [eauto with evolves]..]. apply does_bind; [apply _|apply does_keeps; eauto with evolves|].
  intros []. apply upload_send_keeps.
Qed.

Lemma upload_resume_keeps id : does (keeps credit) (upload_resume id).
Proof.
  assert (Hlift : forall r : result unit, does (keeps credit) (eff_lift r : Turn unit)) by (intros r; apply does_keeps; eauto with evolves).
  assert (Hafter : forall (p : option (result unit)) m, does (keeps credit) m -> does (keeps credit)
    match p with None => eff_ret tt | Some r => eff_catch (eff_lift r ;; m) (upload_catch id) end).
  { intros [r|] m Hm; [|apply does_keeps; eauto with evolves]. apply does_catch; [apply _| |intros e; apply does_keeps; eauto with evolves].
    by apply does_bind; [apply _|..]. }
  unfold upload_resume. apply does_bind; [apply _|apply does_keeps; intros c; reflexivity|]. intros s.
  apply does_bind; [apply _|apply does_keeps; intros c; reflexivity|]. intros c. cbv zeta.
  destruct (upload s).
  - apply does_keeps. eauto with evolves.
  - apply does_keeps. eauto with evolves.
  - apply Hafter, upload_reserve_keeps.
  - apply Hafter, upload_send_keeps.
  - apply Hafter, does_keeps. eauto with evolves.
Qed.

(** *** Opening a stream *)

Lemma header_frames_no_data fuel : forall maximum id block e offset first frames,
  header_frames fuel maximum id block e offset first = Ok frames -> no_data frames.
Proof.
  induction fuel as [|fuel IH]; intros maximum id block e offset first frames; [done|]. cbn -[js_or]. cbv zeta.
  set (stop := Z.min _ _). destruct (stop <? len block).
  - destruct (header_frames fuel _ _ _ _ _ _) as [frames'|] eqn:E; [|done]. intros [= <-]. constructor; [|by eapply IH].
    unfold data_length. by destruct first.
  - intros [= <-]. constructor; [|done]. unfold data_length. by destruct first.
Qed.

Lemma sendHeaderBlock_evolves id block e : does evolves (sendHeaderBlock id block e).
Proof.
  intros c. unfold sendHeaderBlock. exec_step ltac:(fun _ => idtac) idtac.
  destruct (header_frames _ _ _ _ _ _ _) as [frames|] eqn:E; [|apply promise_evolves].
  apply header_frames_no_data in E. assert (Hs : does evolves (sendFrames frames)); [|apply Hs].
  unfold sendFrames. evolving.
Qed.

(** Until its stream is opened, a request moves the identifiers only. *)
Lemma prepare_request_spec q c c' r : send_ok credit c -> prepare_request q c = (c', r) ->
  send_ok credit c' /\ remoteInitialWindowSize c' = remoteInitialWindowSize c /\ sent c' = sent c /\ match r with
  | Ok (id, _, _) => 1 <= id /\ nextStreamId c' = id + 2 /\ objects c' !! id = None /\ data_on id (sent c') = 0
  | Err _ => True end.
Proof.
  intros S. unfold prepare_request, eff_bind at 1, get_, eff_get, Datatypes.id.
  destruct (draining c || terminating c || terminated c); [by intros [= <- <-]|].
  destruct (HTTP2_MAX_WINDOW_SIZE <? nextStreamId c).
  { intros [= <- <-]. split; [|done]. eapply evolves_send_ok; [|exact S]. evolve. }
  set (c1 := set_nextStreamId (nextStreamId c + 2) c). assert (S1 : send_ok credit c1).
  { destruct S as [[] S2]. split; [split; try done; [cbn; lia|]|done]. intros k Hk. apply so_fresh0. cbn in Hk. lia. }
  unfold eff_bind at 1, put, eff_set. fold c1.
  unfold eff_bind at 1, eff_lift. destruct (validateHttp2RequestHeaders _ _ _) as [expected|e]; [|by intros [= <- <-]].
  destruct (negb _ && _); [by intros [= <- <-]|].
  unfold eff_bind at 1. destruct (http2HeaderListSize _) as [size|e]; [|by intros [= <- <-]].
  destruct (_ <? size); [by intros [= <- <-]|]. destruct (Hpack.encode _ _) as [e block].
  unfold eff_bind, eff_ret. destruct block as [block|err]; intros [= <- <-];
    (split; [eapply evolves_send_ok; [|exact S1]; evolve|try done]).
  split; [done|]. split; [done|]. destruct S as [S _]. split; [apply S|]. split; [done|]. apply (so_fresh _ _ S). lia.
Qed.

Lemma open_stream_keeps k r id block expected c : 1 <= id -> nextStreamId c = id + 2 -> objects c !! id = None ->
  data_on id (sent c) = 0 -> (forall id, 0 <= credit id) -> keeps credit c (open_stream k r id block expected c).1.
Proof.
  intros Hid Hnext Hnew Hz Hcr [S1 S2]. unfold open_stream.
  set (s := new_Http2ClientStream id (remoteInitialWindowSize c) (initialStreamWindowSize (options c))
    (requestMethod (rq_headers (r_request r))) (rq_body (r_request r)) expected (rq_onInformational (r_request r))).
  set (c1 := set_highestOpenedStreamId id (set_streams (streams c ++ [id]) (set_reservedSlots (reservedSlots c - 1)
    (set_objects (<[id := s]> (objects c)) c)))).
  assert (Hrest : does evolves (attachSignal id r ;; (p ← sendHeaderBlock id block (negb (rq_body (r_request r))); become k (request_sending id p)))).
  { pose proof sendHeaderBlock_evolves. eauto with evolves. }
  eapply kept_after; [|exact (Hrest c1)]. clear Hrest.
  assert (Hnot : id ∉ streams c). { intros Hin. apply (so_dom _ _ S1) in Hin. rewrite Hnew in Hin. by apply is_Some_None in Hin. }
  assert (Hold : forall k, k <> id -> stream_of c1 k = stream_of c k).
  { intros j Hj. unfold stream_of. cbn. by rewrite lookup_insert_ne. }
  assert (Hthis : stream_of c1 id = s). { unfold stream_of. cbn. by rewrite lookup_insert_eq. }
  assert (Hin1 : forall j, j ∈ streams c1 <-> j ∈ streams c \/ j = id).
  { intros j. cbn. rewrite elem_of_app, list_elem_of_singleton. done. }
  split; [|done|intros j; by left]. split.
  - destruct S1. split; try done.
    + intros j Hj. change (nextStreamId c <= j) in Hj. assert (j <> id) by lia. change (objects c1) with (<[id := s]> (objects c)). rewrite lookup_insert_ne by done. auto.
    + intros j [Hj| ->]%Hin1; auto.
    + cbn. apply NoDup_app. split; [done|]. split; [|apply NoDup_singleton]. intros j Hj ->%list_elem_of_singleton. done.
    + intros j. change (objects c1) with (<[id := s]> (objects c)). rewrite Hin1. destruct (decide (j = id)) as [->|Hne].
      * rewrite lookup_insert_eq. by eexists.
      * rewrite lookup_insert_ne by done. intros [?| ->]; [auto|done].
    + destruct so_gone0 as [?|Hg]; [by left|right]. intros j. change (objects c1) with (<[id := s]> (objects c)). rewrite Hin1.
      destruct (decide (j = id)) as [->|Hne]; [auto|]. rewrite lookup_insert_ne, Hold by done. intros [?|?]%Hg; auto.
  - destruct S2 as [?|S2]; [by left|right]. intros j [Hj| ->]%Hin1.
    + assert (j <> id) by (intros ->; done). rewrite Hold by done. apply (S2 j Hj).
    + rewrite Hthis. change (sent c1) with (sent c). rewrite Hz. change (sendWindow s) with (remoteInitialWindowSize c).
      change (remoteInitialWindowSize c1) with (remoteInitialWindowSize c). split; [apply S1|]. specialize (Hcr id). lia.
Qed.
End Uploads.

Lemma open_request_keeps credit k r : (forall id, 0 <= credit id) -> does (keeps credit) (open_request k r).
Proof.
  intros Hcr c S. unfold open_request. destruct (prepare_request (r_request r) c) as [c1 [[[id block] expected]|e]] eqn:E.
  - apply (prepare_request_spec credit) in E as (S1 & HI & HD & H1 & H2 & H3 & H4); [|done].
    destruct (open_stream_keeps credit k r id block expected c1 H1 H2 H3 H4 Hcr S1) as [S2 I2 D2].
    split; [done|congruence|]. intros j. rewrite <- HI, <- HD. apply D2.
  - apply (prepare_request_spec credit) in E as (S1 & HI & HD & _); [|done]. assert (K : kept credit c c1).
    { split; [done|done|]. intros j. left. by rewrite HD. }
    eapply kept_after; [exact K|].
    assert (Hd : does evolves (release_slot ;; request_catch k e)) by eauto with evolves. apply Hd.
Qed.

Lemma request_open_keeps credit k : (forall id, 0 <= credit id) -> does (keeps credit) (request_open k).
Proof.
  intros Hcr c. unfold request_open. exec_step idtac idtac. destruct (requests (Datatypes.id c) !! k) as [r|]; [|reflexivity].
  destruct (r_state r); try reflexivity; [|by apply open_request_keeps].
  destruct (promises (Datatypes.id c) !! slot) as [[[]|e]|]; [by apply open_request_keeps| |reflexivity].
  apply evolves_keeps, request_catch_evolves.
Qed.

(** *** The read loop *)

Lemma terminate_with_ends credit reason code b c : (forall n, does evolves (credit n)) ->
  ends (terminate_with credit reason code b c).1.
Proof.
  intros Hcredit. unfold terminate_with, eff_bind at 1, get_ at 1, eff_get at 1. change (Datatypes.id c) with c.
  destruct (terminating c) eqn:E1; [by left|]. destruct (terminated c) eqn:E2; [by right|]. cbn [orb].
  unfold eff_bind at 1, put at 1, eff_set at 1. set (c1 := set_terminating true c).
  match goal with |- ends (?m c1).1 => assert (Hm : does (fun c c' => ends c -> ends c') m) end.
  { assert (Hp : PreOrder (fun c c' => ends c -> ends c')) by (split; [by intros x|intros x y z; auto]).
    assert (Hev : forall A (m : Turn A), does evolves m -> does (fun c c' => ends c -> ends c') m).
    { intros A m Hm d. apply evolves_ends, Hm. }
    assert (Hput : forall d, ends d -> ends (set_draining true d)) by done.
    assert (Hclear : forall d, ends d -> ends (set_streams [] d)) by done.
    assert (Hfin : forall p d, ends d -> ends (set_finishing p d)) by done.
    assert (Heach : does evolves (each_stream (fun id => fail_with credit id reason))).
    { apply each_stream_does; [apply _|]. intros id. by apply fail_with_evolves. }
    apply does_bind; [done|intros d; apply Hput|]. intros [].
    do 4 (apply does_bind; [done|apply Hev; eauto with evolves|]; intros []).
    apply does_bind; [done|intros d; apply Hclear|]. intros [].
    destruct (_ || _); [apply Hev; eauto with evolves|].
    apply does_bind; [done|apply Hev; eauto with evolves|]. intros p d. apply Hfin. }
  apply Hm. by left.
Qed.

Lemma terminate_ends reason code b c : ends (terminate reason code b c).1.
Proof. apply terminate_with_ends. eauto with evolves. Qed.

(** A frame is handled within the allowance, unless an error of the connection
    stops it; then the connection ends. *)
Lemma reader_frame_spec credit f c :
  send_core credit (handleFrame f c).1 ->
  match (handleFrame f c).2 with Ok _ => streams_ok credit (handleFrame f c).1
  | Err e => conn_error e \/ streams_ok credit (handleFrame f c).1 end ->
  send_ok credit c -> send_ok credit (reader_frame f c).1.
Proof.
  intros H1 H2 S. unfold reader_frame, eff_catch at 1, eff_bind at 1.
  assert (Hafter : does evolves reader_after).
  { unfold reader_after. apply bind_evolves; [intros d; reflexivity|]. intros []; eauto with evolves. }
  assert (Hend : forall e d, send_core credit d -> send_ok credit (reader_catch e d).1).
  { intros e d Hd. unfold reader_catch, eff_bind, put, eff_set. set (d1 := set_reading reader_done d).
    split; [|left; apply terminate_ends]. eapply evolves_send_core; [apply terminate_evolves|].
    eapply evolves_send_core; [|exact Hd]. evolve. }
  destruct (read_frame f c) as [c1 [x|e]] eqn:E.
  - assert (S1 : send_ok credit c1).
    { revert E. unfold read_frame, eff_bind, get_, eff_get, eff_throw. destruct (_ && _); [done|]. unfold eff_catch.
      destruct (handleFrame f c) as [c2 [y|e]]; cbn [fst snd] in *.
      - intros [= <- <-]. by split.
      - intros E. destruct H2 as [He|H2].
        + destruct e as [| | | | |? ? [sid|]|]; try done; by injection E.
        + pose proof (evolves_send_ok credit _ _ (frame_catch_evolves e c2) (conj H1 H2)) as S1. by rewrite E in S1. }
    pose proof (evolves_send_ok credit _ _ (Hafter c1) S1) as S2. destruct (reader_after c1) as [c2 [y|e]]; [done|]. apply Hend, S2.
  - apply Hend. revert E. unfold read_frame, eff_bind, get_, eff_get, eff_throw.
    destruct (_ && _); [intros [= <- <-]; apply S|]. unfold eff_catch.
    destruct (handleFrame f c) as [c2 [y|e']]; cbn [fst snd] in *; [done|]. intros E.
    pose proof (evolves_send_core credit _ _ (frame_catch_evolves e' c2) H1) as S1. by rewrite E in S1.
Qed.

Definition more (credit : Z -> Z) (e : event) (id : Z) : Z := credit id + increment id e.

Lemma send_ok_more_event credit e c : send_ok credit c -> send_ok (more credit e) c.
Proof. intros S. eapply send_ok_more; [|exact S]. intros id. unfold more. pose proof (increment_nonneg id e). lia. Qed.

Lemma handleFrame_spec credit f c : send_ok credit c ->
  let credit' := more credit (ev_frame f) in
  send_core credit' (handleFrame f c).1 /\
  match (handleFrame f c).2 with Ok _ => streams_ok credit' (handleFrame f c).1
  | Err e => conn_error e \/ streams_ok credit' (handleFrame f c).1 end.
Proof.
  intros S credit'. pose proof (send_ok_more_event credit (ev_frame f) c S : send_ok credit' c) as S'.
  destruct (Z.eqb_spec (fr_type f) HTTP2_FRAME_WINDOW_UPDATE) as [Ht|Ht].
  - assert (Hd : forall d, send_ok credit d -> send_ok credit' (handleWindowUpdate f d).1) by (intros d; by apply handleWindowUpdate_keeps).
    assert (Hs : send_ok credit' (handleFrame f c).1).
    { unfold handleFrame. rewrite Ht. cbn -[accept_block handleWindowUpdate]. unfold eff_bind at 1.
      pose proof (accept_block_evolves f c) as Ha. destruct (accept_block f c) as [c1 [b|e]]; cbn [fst] in Ha.
      - apply Hd. by eapply evolves_send_ok.
      - by eapply evolves_send_ok. }
    destruct Hs as [Hs1 Hs2]. split; [done|]. destruct (handleFrame f c).2; [done|by right].
  - revert c S S'. assert (Hk : keeps_send credit' (handleFrame f)); [|intros c _ S'; by apply Hk].
    unfold handleFrame. cbv zeta. apply Z.eqb_neq in Ht. rewrite Ht.
    destruct (fr_type f =? HTTP2_FRAME_PUSH_PROMISE); [apply keeps_send_evolves; eauto with evolves|].
    assert (Hb : forall b : option Http2HeaderBlock, keeps_send credit'
      (if (fr_type f =? HTTP2_FRAME_HEADERS) || (fr_type f =? HTTP2_FRAME_CONTINUATION)
       then match b with Some b => handleHeaderBlock b | None => eff_ret tt end
       else if fr_type f =? HTTP2_FRAME_DATA then handleData f
       else if fr_type f =? HTTP2_FRAME_PRIORITY then eff_lift (parseHttp2Priority f) ;; eff_ret tt
       else if fr_type f =? HTTP2_FRAME_RST_STREAM then handleReset f
       else if fr_type f =? HTTP2_FRAME_SETTINGS then handleSettings f
       else if fr_type f =? HTTP2_FRAME_PING then handlePing f
       else if fr_type f =? HTTP2_FRAME_GOAWAY then handleGoAway f else eff_ret tt)).
    { intros b. repeat (match goal with |- keeps_send _ (if ?t then _ else _) => destruct t end);
        solve [apply handleSettings_keeps | apply keeps_send_evolves; eauto with evolves]. }
    apply keeps_send_bind; [apply keeps_send_evolves; eauto with evolves|exact Hb].
Qed.

Lemma step_send_ok credit c e : (forall id, 0 <= credit id) -> send_ok credit c -> send_ok (more credit e) (step c e).
Proof.
  intros Hcr S. unfold step. destruct (possible c e); [|by apply send_ok_more_event].
  assert (Hev : forall m : Turn unit, does evolves m -> turn e = m -> send_ok (more credit e) (turn e c).1).
  { intros m Hm ->. apply send_ok_more_event. eapply evolves_send_ok; [apply Hm|done]. }
  assert (Hk : forall m : Turn unit, does (keeps credit) m -> turn e = m -> send_ok (more credit e) (turn e c).1).
  { intros m Hm ->. apply send_ok_more_event. by apply Hm. }
  destruct e; try (eapply Hev; [|reflexivity]; eauto with evolves; fail).
  - cbn. unfold while_reading, eff_bind, get_, eff_get. destruct (reading c); try (by apply send_ok_more_event).
    destruct (handleFrame_spec credit frame c S) as [H1 H2]. apply reader_frame_spec; [done|done|by apply send_ok_more_event].
  - eapply Hev; [|reflexivity]. unfold while_reading. apply bind_evolves; [intros d; reflexivity|]. intros []; eauto with evolves.
  - eapply Hk; [|reflexivity]. by apply request_open_keeps.
  - eapply Hk; [|reflexivity]. apply upload_read_keeps.
  - eapply Hk; [|reflexivity]. apply upload_resume_keeps.
Qed.

Lemma run_send_ok es : forall credit c, (forall id, 0 <= credit id) -> send_ok credit c ->
  send_ok (fun id => credit id + allowed id es) (run c es).
Proof.
  induction es as [|e es IH]; intros credit c Hcr S.
  - eapply send_ok_more; [|exact S]. intros id. change (allowed id []) with 0. lia.
  - change (run c (e :: es)) with (run (step c e) es). eapply send_ok_more; [|apply (IH (more credit e)); [|by apply step_send_ok]].
    + intros id. unfold more. change (allowed id (e :: es)) with (increment id e + allowed id es). lia.
    + intros id. unfold more. pose proof (increment_nonneg id e). specialize (Hcr id). lia.
Qed.

Lemma initial_send_ok opts c : new_Http2ClientConnection opts = Ok c -> send_ok (fun _ => 0) c.
Proof.
  unfold new_Http2ClientConnection. intros H. apply bind_Ok in H as (o & _ & H). apply bind_Ok in H as (d & _ & H).
  apply bind_Ok in H as (e & _ & H). destruct (new_Http2HeaderBlockAssembler _ _) as [a|]; [|done]. injection H as <-.
  split.
  - split; cbn; try done; try (unfold HTTP2_DEFAULT_WINDOW_SIZE, HTTP2_MAX_WINDOW_SIZE; lia).
    + intros id Hid. by apply not_elem_of_nil in Hid.
    + constructor.
    + intros id Hid. by apply not_elem_of_nil in Hid.
    + right. intros id Hid. rewrite lookup_empty in Hid. by apply is_Some_None in Hid.
  - right. intros id Hid. by apply not_elem_of_nil in Hid.
Qed.

(** Frames from the peer make no DATA go out. *)
Definition quiet_data (c c' : Http2ClientConnection) : Prop := forall k, data_on k (sent c') = data_on k (sent c).
#[export] Instance quiet_data_preorder : PreOrder quiet_data.
Proof. split; unfold quiet_data; [done|intros a b c H1 H2 k; by rewrite H2]. Qed.

Lemma does_quiet {A} (m : Turn A) : does evolves m -> does quiet_data m.
Proof. intros H c k. by apply (evolves_sent_data c _ (H c)). Qed.

Ltac quiet_step := first
  [ apply does_quiet; solve [eauto with evolves]
  | intros ? ?; reflexivity ].

Lemma quiet_bind {A B} (m : Turn A) (k : A -> Turn B) : does quiet_data m -> (forall a, does quiet_data (k a)) -> does quiet_data (eff_bind m k).
Proof. intros Hm Hk. by apply does_bind; [apply _|..]. Qed.

Lemma apply_initial_window_quiet v : does quiet_data (apply_initial_window v).
Proof.
  apply quiet_bind; [quiet_step|]. intros initial. apply quiet_bind; [|intros []; apply quiet_bind; [quiet_step|intros []; quiet_step]].
  apply each_stream_does; [apply _|]. intros id c. pose proof (shift_window_moved (v - initial) id c) as [H _ _].
  intros k. by rewrite H.
Qed.

Lemma handleSettings_quiet f : does quiet_data (handleSettings f).
Proof.
  unfold handleSettings. destruct (has_flag f HTTP2_FLAG_ACK); [quiet_step|].
  apply quiet_bind; [quiet_step|]. intros l. apply quiet_bind.
  - apply does_each; [apply _|]. intros st. unfold applyRemoteSetting. cbv zeta.
    repeat (match goal with |- does _ (if ?b then _ else _) => destruct b end); try quiet_step.
    + apply does_quiet. evolving.
    + apply quiet_bind; [quiet_step|intros []; quiet_step].
    + apply apply_initial_window_quiet.
  - intros []. apply quiet_bind; [quiet_step|]. intros []. apply does_quiet. evolving.
Qed.

Lemma handleWindowUpdate_quiet f : does quiet_data (handleWindowUpdate f).
Proof.
  unfold handleWindowUpdate. cbv zeta. apply quiet_bind; [quiet_step|]. intros n. destruct (fr_streamId f =? 0).
  - apply quiet_bind; [quiet_step|]. intros w. destruct (_ <? w); [quiet_step|]. apply quiet_bind; [quiet_step|intros []; quiet_step].
  - apply quiet_bind; [quiet_step|]. intros []; [|quiet_step]. cbn [eff_when]. apply quiet_bind; [quiet_step|]. intros s.
    destruct (_ <? sendWindow s); [quiet_step|]. apply quiet_bind; [quiet_step|intros []; quiet_step].
Qed.

Lemma handleFrame_quiet f : does quiet_data (handleFrame f).
Proof.
  pose proof (handleSettings_quiet f). pose proof (handleWindowUpdate_quiet f).
  unfold handleFrame. cbv zeta. destruct (_ =? HTTP2_FRAME_PUSH_PROMISE); [quiet_step|].
  apply quiet_bind; [quiet_step|]. intros b.
  repeat (match goal with |- does _ (if ?b then _ else _) => destruct b end); first [assumption|quiet_step].
Qed.

Lemma reader_frame_quiet f : does quiet_data (reader_frame f).
Proof.
  apply does_catch; [apply _| |intros e; quiet_step]. apply quiet_bind.
  - unfold read_frame. apply quiet_bind; [quiet_step|]. intros c. destruct (_ && _); [quiet_step|].
    apply does_catch; [apply _|apply handleFrame_quiet|intros e; quiet_step].
  - intros x. apply does_quiet. unfold reader_after. apply bind_evolves; [intros d; reflexivity|]. intros []; eauto with evolves.
Qed.

Lemma step_data credit c e k : (forall id, 0 <= credit id) -> send_ok credit c ->
  data_on k (sent (step c e)) = data_on k (sent c) \/ data_on k (sent (step c e)) <= remoteInitialWindowSize c + credit k.
Proof.
  intros Hcr S. unfold step. destruct (possible c e); [|by left].
  assert (Hq : forall m : Turn unit, does quiet_data m -> turn e = m -> data_on k (sent (turn e c).1) = data_on k (sent c)).
  { intros m Hm ->. apply Hm. }
  assert (Hk : forall m : Turn unit, does (keeps credit) m -> turn e = m ->
    data_on k (sent (turn e c).1) = data_on k (sent c) \/ data_on k (sent (turn e c).1) <= remoteInitialWindowSize c + credit k).
  { intros m Hm ->. by apply (k_data _ _ _ (Hm c S)). }
  destruct e; try (left; eapply Hq; [|reflexivity]; quiet_step; fail).
  - left. eapply Hq; [|reflexivity]. apply quiet_bind; [quiet_step|]. intros []; first [apply reader_frame_quiet|quiet_step].
  - left. eapply Hq; [|reflexivity]. apply quiet_bind; [quiet_step|]. intros []; quiet_step.
  - eapply Hk; [|reflexivity]. by apply request_open_keeps.
  - eapply Hk; [|reflexivity]. apply upload_read_keeps.
  - eapply Hk; [|reflexivity]. apply upload_resume_keeps.
Qed.

Lemma allowed_nonneg id es : 0 <= allowed id es.
Proof.
  induction es as [|e es IH]; [done|]. change (allowed id (e :: es)) with (increment id e + allowed id es).
  pose proof (increment_nonneg id e). lia.
Qed.

(** ** The property *)

(** C3: the peer's flow control is obeyed.  Whatever frames the peer sends and in
    whatever order uploads, aborts and everything else happen, the DATA bytes of
    the connection never exceed 65535 and the increments of the connection; when a
    step sends DATA on a stream, the stream's bytes then do not exceed the peer's
    initial window at that time and the increments of the stream; and no window
    exceeds 2^31 - 1. *)
Theorem send_flow_control opts c0 es : new_Http2ClientConnection opts = Ok c0 ->
  let c := run c0 es in
  data_total (sent c) <= HTTP2_DEFAULT_WINDOW_SIZE + allowed 0 es /\
  0 <= connectionSendWindow c <= HTTP2_MAX_WINDOW_SIZE /\
  (ends c \/ forall id, id ∈ streams c -> sendWindow (stream_of c id) <= HTTP2_MAX_WINDOW_SIZE) /\
  forall e id, data_on id (sent (step c e)) = data_on id (sent c) \/
    data_on id (sent (step c e)) <= remoteInitialWindowSize c + allowed id es.
Proof.
  intros H c. pose proof (run_send_ok es (fun _ => 0) c0 ltac:(done) (initial_send_ok opts c0 H)) as S. fold c in S.
  pose proof S as [S1 S2]. split_and!.
  - pose proof (so_total _ _ S1) as Ht. pose proof (so_window _ _ S1) as Hw. cbv beta in Ht. lia.
  - apply S1.
  - apply S1.
  - destruct S2 as [E|S2]; [by left|right]. intros id Hid. by apply S2.
  - intros e id. apply (step_data (fun id => 0 + allowed id es)); [|done]. intros k. apply allowed_nonneg.
Qed.

Lemma send_flow_control_witness :
  new_Http2ClientConnection default_options = Ok default_connection /\
  data_on 1 (sent (run default_connection example_upload)) = 7 /\
  data_total (sent (run default_connection example_upload)) <= HTTP2_DEFAULT_WINDOW_SIZE + allowed 0 example_upload.
Proof.
  assert (E : new_Http2ClientConnection default_options = Ok default_connection) by (vm_compute; reflexivity).
  split; [exact E|]. split; [vm_compute; reflexivity|].
  exact (proj1 (send_flow_control default_options default_connection example_upload E)).
Defined.
