(* ===== verification/Http2Receive.v ===== *)
(** * Flow control of a connection: receiving

    Every byte of DATA that the peer was allowed to send is accounted for: it is
    in the window, in the queue of a stream, or with a suspended read of a body;
    what a read that ended up on a canceled body had taken is lost.  So the
    connection never buffers more than [connectionWindowSize] bytes, and the
    window never overflows. *)

From stdpp Require Import gmap.
From S2P Require Import Prelude Effects Hpack Frame FrameTheory HeaderRules Http2Heap Http2Connection Http2Turns Http2Send.
Local Open Scope Z_scope.
Local Open Scope turn_scope.

(** ** What is held *)

Definition taken (s : Http2ClientStream) : Z := match pulling s with pull_taken item => item_flow item | _ => 0 end.

(** The credit that a stream owes, for what it holds. *)
Definition held (s : Http2ClientStream) : Z := items_flow (queued s) + taken s.

(** The sum over all streams. *)
Definition total (f : Http2ClientStream -> Z) (m : gmap Z Http2ClientStream) : Z := map_fold (fun _ s n => f s + n) 0 m.

(** The bytes that a stream holds. *)
Definition item_bytes (item : IncomingItem) : Z := match item with IncomingData bytes _ => len bytes | _ => 0 end.
Definition buffered (s : Http2ClientStream) : Z :=
  foldr (fun item n => item_bytes item + n) 0 (queued s) + match pulling s with pull_taken item => item_bytes item | _ => 0 end.

(** The data of an item is part of a frame's payload. *)
Definition item_ok (item : IncomingItem) : Prop := item_bytes item <= item_flow item.

Record queue_ok (s : Http2ClientStream) : Prop := {
  q_offset : 0 <= incomingOffset s <= len (incoming s);
  q_items : Forall item_ok (incoming s);
  q_taken : match pulling s with pull_taken item => item_ok item | _ => True end;
}.
Definition queues_ok (c : Http2ClientConnection) : Prop := forall id s, objects c !! id = Some s -> queue_ok s.

(** The window together with what is held. *)
Definition account (c : Http2ClientConnection) : Z := connectionReceiveWindow c + total held (objects c).

(** The credit lost with a chunk that a read of a canceled body had taken. *)
Definition lost_by (c : Http2ClientConnection) (e : event) : Z :=
  match e with
  | ev_pulled id =>
      match objects c !! id with
      | Some s => match pulling s, bodyState s with
                  | pull_taken item, (body_closed | body_errored _) => item_flow item
                  | _, _ => 0
                  end
      | None => 0
      end
  | _ => 0
  end.
Fixpoint lost (c : Http2ClientConnection) (es : list event) : Z :=
  match es with
  | [] => 0
  | e :: es => lost_by c e + lost (step c e) es
  end.

Definition keeps_queues (c c' : Http2ClientConnection) : Prop := queues_ok c -> queues_ok c'.

(** The account has grown by [n], unless the connection ends; and nothing was taken
    from the window. *)
Definition gains (n : Z) (c c' : Http2ClientConnection) : Prop := queues_ok c ->
  queues_ok c' /\ (ends c -> ends c') /\
  (ends c' \/ account c' = account c + n /\ connectionReceiveWindow c <= connectionReceiveWindow c').
Abbreviation neutral := (gains 0).

(** A change of a stream that keeps its queue in order and what it holds. *)
Definition keeps_held (f : Http2ClientStream -> Http2ClientStream) : Prop :=
  forall s, queue_ok s -> queue_ok (f s) /\ held (f s) = held s.

(** A part of a frame's turn adds [n] to the account, unless it throws an error that ends the
    connection. *)
Definition settles {A} (n : Z) (c : Http2ClientConnection) (p : Http2ClientConnection * result A) : Prop :=
  queues_ok p.1 /\ (ends c -> ends p.1) /\
  ((exists e, p.2 = Err e /\ conn_error e) \/ ends p.1 \/
   account p.1 = account c + n /\ connectionReceiveWindow c <= connectionReceiveWindow p.1).

(** A frame keeps the account, unless it throws an error that ends the connection. *)
Definition handled {A} (c : Http2ClientConnection) (p : Http2ClientConnection * result A) : Prop :=
  queues_ok p.1 /\ (ends c -> ends p.1) /\ (0 <= connectionReceiveWindow c ->
  (exists e, p.2 = Err e /\ conn_error e) \/ ends p.1 \/ account p.1 = account c /\ 0 <= connectionReceiveWindow p.1).

(** Everything is accounted for: the total is [size]. *)
Definition recv_ok (size : Z) (c : Http2ClientConnection) : Prop :=
  queues_ok c /\ (ends c \/ 0 <= connectionReceiveWindow c /\ account c = size).

(** A response with three bytes of a body, half of it read; and a read that the
    body's cancellation overtakes. *)
Definition example_response : list event := example_start ++ example_open 1 false ++
  [ev_frame (mk_frame HTTP2_FRAME_HEADERS HTTP2_FLAG_END_HEADERS 1 [136])].
Definition example_download : list event := example_response ++
  [ev_frame (mk_frame HTTP2_FRAME_DATA 0 1 [1; 2; 3]); ev_frame (mk_frame HTTP2_FRAME_DATA 0 1 [4; 5; 6; 7]); ev_pull 1; ev_pulled 1].
Definition example_cancelled : list event := example_response ++
  [ev_pull 1; ev_frame (mk_frame HTTP2_FRAME_DATA 0 1 [1; 2; 3]); ev_cancel 1 (TypeError "cancelled"); ev_pulled 1].

(** *** Sums over the streams *)

Lemma total_insert (f : Http2ClientStream -> Z) m k s : m !! k = None ->
  total f (<[k := s]> m) = f s + total f m.
Proof. intros H. unfold total. rewrite map_fold_insert_L; [done| |done]. intros. lia. Qed.

Lemma total_alter (f : Http2ClientStream -> Z) g m k s : m !! k = Some s ->
  total f (alter g k m) = total f m + (f (g s) - f s).
Proof.
  intros H. rewrite <- (insert_delete_id m k s H) at 2. rewrite total_insert by apply lookup_delete_eq.
  assert (E : alter g k m = <[k := g s]> (delete k m)).
  { apply map_eq. intros i. destruct (decide (i = k)) as [->|Hne].
    - by rewrite lookup_alter_eq, lookup_insert_eq, H.
    - by rewrite lookup_alter_ne, lookup_insert_ne, lookup_delete_ne. }
  rewrite E, total_insert by apply lookup_delete_eq. lia.
Qed.

Lemma total_nonneg (f : Http2ClientStream -> Z) m : (forall k s, m !! k = Some s -> 0 <= f s) -> 0 <= total f m.
Proof.
  revert m. apply (map_ind (fun m => (forall k s, m !! k = Some s -> 0 <= f s) -> 0 <= total f m)); [done|].
  intros k s m Hk IH H. rewrite total_insert by done.
  assert (0 <= f s) by (apply (H k); by rewrite lookup_insert_eq). assert (0 <= total f m); [|lia].
  apply IH. intros j t Hj. apply (H j). rewrite lookup_insert_ne; [done|]. intros ->. congruence.
Qed.

Lemma total_le (f g : Http2ClientStream -> Z) m : (forall k s, m !! k = Some s -> f s <= g s) ->
  total f m <= total g m.
Proof.
  revert m. apply (map_ind (fun m => (forall k s, m !! k = Some s -> f s <= g s) -> total f m <= total g m)); [done|].
  intros k s m Hk IH H. rewrite !total_insert by done.
  assert (f s <= g s) by (apply (H k); by rewrite lookup_insert_eq).
  assert (total f m <= total g m); [|lia].
  apply IH. intros j t Hj. apply (H j). rewrite lookup_insert_ne; [done|]. intros ->. congruence.
Qed.

#[export] Instance keeps_queues_preorder : PreOrder keeps_queues.
Proof. split; unfold keeps_queues; [by intros c|intros a b c H1 H2 Q; auto]. Qed.

Lemma gains_then n k a b c : gains n a b -> gains k b c -> gains (n + k) a c.
Proof.
  intros H1 H2 Q. destruct (H1 Q) as (Q1 & E1 & A1). destruct (H2 Q1) as (Q2 & E2 & A2).
  split_and!; [done|auto|]. destruct A2 as [?|A2]; [by left|]. destruct A1 as [?|A1]; [left; auto|]. right. lia.
Qed.

#[export] Instance neutral_preorder : PreOrder neutral.
Proof.
  split.
  - intros c Q. split_and!; [done|done|]. right. lia.
  - intros a b c H1 H2. exact (gains_then 0 0 a b c H1 H2).
Qed.

Lemma neutral_queues {A} (m : Turn A) : does neutral m -> does keeps_queues m.
Proof. intros H c Q. apply (H c Q). Qed.

(** ** Assignments and methods that hold nothing *)

Lemma neutral_same c c' : objects c' = objects c -> connectionReceiveWindow c' = connectionReceiveWindow c ->
  (ends c -> ends c') -> neutral c c'.
Proof.
  intros Ho Hw He Q. unfold account, queues_ok. rewrite Ho, Hw. split_and!; [done|done|]. right. lia.
Qed.

(** A change of a stream that adds to what it holds. *)
Lemma change_account f k c n : (forall s, objects c !! k = Some s -> queue_ok s -> queue_ok (f s) /\ held (f s) = held s + n) ->
  (objects c !! k = None -> n = 0) -> queues_ok c ->
  queues_ok (set_objects (alter f k (objects c)) c) /\ account (set_objects (alter f k (objects c)) c) = account c + n.
Proof.
  intros Hf Hn Q. destruct (objects c !! k) as [s|] eqn:E.
  - destruct (Hf s eq_refl (Q _ _ E)) as [Hq Hh]. split.
    + intros j t. cbn. destruct (decide (j = k)) as [->|Hj].
      * rewrite lookup_alter_eq, E. by intros [= <-].
      * rewrite lookup_alter_ne by done. apply Q.
    + unfold account. cbn. rewrite (total_alter _ _ _ k s E). lia.
  - rewrite Hn by done. rewrite Z.add_0_r. assert (Ha : alter f k (objects c) = objects c).
    { apply map_eq. intros j. destruct (decide (j = k)) as [->|Hj]; [by rewrite lookup_alter_eq, E|by rewrite lookup_alter_ne]. }
    unfold account, queues_ok. cbn. by rewrite Ha.
Qed.

Lemma neutral_change f k c : keeps_held f -> neutral c (set_objects (alter f k (objects c)) c).
Proof.
  intros Hf Q. destruct (change_account f k c 0) as [Hq Ha]; [|done|done|].
  - intros s _ Hs. destruct (Hf s Hs) as [? ->]. split; [done|lia].
  - split_and!; [done|done|]. right. cbn. lia.
Qed.

Ltac holds := let s := fresh in let Q := fresh in
  intros s Q; cbv zeta; repeat case_match; split; first [by destruct Q; split|reflexivity].

Create HintDb neutral.

Ltac neutral_from :=
  match goal with
  | H : neutral ?c ?d |- neutral ?c ?d => exact H
  | |- neutral ?c ?c => reflexivity
  | |- neutral ?c (set_objects (alter _ _ (objects ?d)) ?d) => transitivity d; [neutral_from|apply neutral_change; first [solve [holds]|solve [eauto with neutral]]]
  | |- neutral ?c (_ _ ?d) => transitivity d; [neutral_from|apply neutral_same; [reflexivity|reflexivity|by intros [?|?]; [left|right]]]
  end.
Ltac neutrally := intros ?; repeat exec_step ltac:(fun _ => neutral_from) ltac:(fun _ => solve [eauto 12 with neutral]); try neutral_from.

Lemma promise_neutral r : does neutral (promise r).
Proof. intros c. unfold promise. cbn. destruct r; by apply neutral_same. Qed.
Lemma settle_neutral p r : does neutral (settle p r).
Proof. intros c. cbn. unfold settle, eff_set. cbn. destruct (promises c !! p); [done|by apply neutral_same]. Qed.
Lemma write_next_neutral : does neutral write_next.
Proof. intros c. unfold write_next, eff_set. cbn. destruct (writeOffset c <? len (writes c)); by apply neutral_same. Qed.
#[export] Hint Resolve promise_neutral settle_neutral write_next_neutral : neutral.
Lemma drainWrites_neutral : does neutral drainWrites.
Proof. unfold drainWrites. neutrally. Qed.
#[export] Hint Resolve drainWrites_neutral : neutral.
Lemma enqueueBytes_neutral fs bytes : does neutral (enqueueBytes fs bytes).
Proof. unfold enqueueBytes. neutrally. Qed.
#[export] Hint Resolve enqueueBytes_neutral : neutral.
Lemma sendFrame_neutral f : does neutral (sendFrame f).
Proof. unfold sendFrame. neutrally. Qed.
Lemma sendFrames_neutral fs : does neutral (sendFrames fs).
Proof. unfold sendFrames. neutrally. Qed.
#[export] Hint Resolve sendFrame_neutral sendFrames_neutral : neutral.
Lemma send_with_neutral t flags id payload : does neutral (send_with t flags id payload).
Proof. unfold send_with. neutrally. Qed.
Lemma sendHeaderBlock_neutral id block e : does neutral (sendHeaderBlock id block e).
Proof. unfold sendHeaderBlock. neutrally. Qed.
Lemma notifyFlowChange_neutral : does neutral notifyFlowChange.
Proof. unfold notifyFlowChange. neutrally. Qed.
Lemma wake_loop_neutral l : does neutral (wake_loop l).
Proof. induction l as [|w l IH]; cbn; neutrally. Qed.
#[export] Hint Resolve send_with_neutral sendHeaderBlock_neutral notifyFlowChange_neutral wake_loop_neutral : neutral.
Lemma wakeSlotWaiters_neutral : does neutral wakeSlotWaiters.
Proof. unfold wakeSlotWaiters. neutrally. all: match goal with |- neutral _ (if ?b then _ else _) => destruct b end; neutral_from. Qed.
Lemma failSlotWaiters_neutral reason : does neutral (failSlotWaiters reason).
Proof.
  assert (forall l, does neutral (eff_each (fun w => eff_when (w_active w) (settle (w_result w) (Err reason))) l)).
  { intros l. apply does_each; [apply _|]. intros w. apply does_when; [apply _|]. eauto with neutral. }
  unfold failSlotWaiters. neutrally.
Qed.
Lemma finish_termination_neutral : does neutral finish_termination.
Proof. unfold finish_termination. neutrally. Qed.
#[export] Hint Resolve wakeSlotWaiters_neutral failSlotWaiters_neutral finish_termination_neutral : neutral.

(** ** Queues *)

Lemma items_flow_app a b : items_flow (a ++ b) = items_flow a + items_flow b.
Proof. induction a as [|i a IH]; [done|]. change (items_flow ((i :: a) ++ b)) with (item_flow i + items_flow (a ++ b)).
  change (items_flow (i :: a)) with (item_flow i + items_flow a). lia. Qed.

(** Appending to the queue, while no read waits. *)
Lemma append_held item s : item_ok item -> queue_ok s ->
  queue_ok (set_incoming (incoming s ++ [item]) s) /\ held (set_incoming (incoming s ++ [item]) s) = held s + item_flow item.
Proof.
  intros Hi [Ho Hq Ht]. split; [split; cbn; [unfold len in *; rewrite length_app; lia|by apply Forall_app_2; [|constructor]|done]|].
  assert (E : queued (set_incoming (incoming s ++ [item]) s) = queued s ++ [item]).
  { unfold queued. cbn. rewrite drop_app_le; [done|]. unfold len in *. lia. }
  unfold held. rewrite E, items_flow_app. change (items_flow [item]) with (item_flow item + 0).
  change (taken (set_incoming (incoming s ++ [item]) s)) with (taken s). lia.
Qed.

Lemma push_item_held item s : item_ok item -> queue_ok s ->
  queue_ok (push_item item s) /\ held (push_item item s) = held s + item_flow item.
Proof.
  intros Hi Q. unfold push_item. destruct (pulling s) eqn:E; try by apply append_held.
  destruct Q as [Ho Hq Ht]. split; [by split|]. unfold held, taken. rewrite E.
  change (queued (set_pulling (pull_taken item) s)) with (queued s). cbn [pulling set_pulling]. lia.
Qed.

Lemma pushIncoming_neutral id item : item_ok item -> item_flow item = 0 -> does neutral (pushIncoming id item).
Proof.
  intros Hi Hf c. apply neutral_change. intros s Hs. destruct (push_item_held item s Hi Hs) as [? ->]. split; [done|lia].
Qed.
Lemma finishApplication_neutral id : does neutral (finishApplication id).
Proof. intros c. apply neutral_change. holds. Qed.
Lemma settleTrailers_neutral id fields : does neutral (settleTrailers id fields).
Proof. intros c. apply neutral_change. holds. Qed.
Lemma fail_stream_held reason : keeps_held (fail_stream reason).
Proof. unfold fail_stream. holds. Qed.
#[export] Hint Resolve finishApplication_neutral settleTrailers_neutral fail_stream_held : neutral.
#[export] Hint Extern 1 (does neutral (pushIncoming _ _)) => apply pushIncoming_neutral; [unfold item_ok; cbn; lia|reflexivity] : neutral.

Lemma items_flow_nonneg l : Forall item_ok l -> 0 <= items_flow l.
Proof.
  induction 1 as [|i l Hi _ IH]; [done|]. change (items_flow (i :: l)) with (item_flow i + items_flow l).
  assert (0 <= item_bytes i) by (destruct i; cbn; unfold len; lia). unfold item_ok in Hi. lia.
Qed.

Lemma queued_ok s : queue_ok s -> Forall item_ok (queued s).
Proof. intros Q. apply Forall_drop, Q. Qed.

(** Emptying the queue. *)
Lemma clear_held s : queue_ok s -> queue_ok (set_incomingOffset 0 (set_incoming [] s)) /\
  held (set_incomingOffset 0 (set_incoming [] s)) = held s + - items_flow (queued s).
Proof.
  intros [Ho Hq Ht]. split; [split; cbn; [unfold len; cbn; lia|by constructor|done]|].
  unfold held. change (items_flow (queued (set_incomingOffset 0 (set_incoming [] s)))) with 0.
  change (taken (set_incomingOffset 0 (set_incoming [] s))) with (taken s). lia.
Qed.

(** ** Credit *)

Section Credit.
Context (credit : Z -> Turn unit) (Hev : forall n, does evolves (credit n)).

(** What the other methods do while the connection ends. *)
Context (Hqueues : forall n, does keeps_queues (credit n)).

Lemma discard_with_queues id : does keeps_queues (discard_with credit id).
Proof using Hqueues.
  intros c Q. unfold discard_with.
  assert (Q1 : queues_ok (set_objects (alter (fun s => set_incomingOffset 0 (set_incoming [] s)) id (objects c)) c)).
  { intros k s. cbn. destruct (decide (k = id)) as [->|Hk]; [|rewrite lookup_alter_ne by done; apply Q].
    rewrite lookup_alter_eq. destruct (objects c !! id) as [t|] eqn:E; [|done]. intros [= <-]. by apply clear_held, (Q id). }
  change (queues_ok (eff_when (negb (items_flow (queued (stream_of c id)) =? 0)) (credit (items_flow (queued (stream_of c id))))
    (set_objects (alter (fun s => set_incomingOffset 0 (set_incoming [] s)) id (objects c)) c)).1).
  destruct (negb _); [by apply Hqueues|done].
Qed.

Lemma fail_with_queues id reason : does keeps_queues (fail_with credit id reason).
Proof using Hqueues.
  pose proof discard_with_queues.
  assert (forall A (m : Turn A), does neutral m -> does keeps_queues m) by (intros; by apply neutral_queues).
  unfold fail_with. apply does_bind; [apply _|intros c Q; exact Q|]. intros s. destruct (failed s); [apply does_ret, _|].
  apply does_bind; [apply _|apply neutral_queues; intros c; apply neutral_change; eauto with neutral|]. intros [].
  apply does_bind; [apply _|done|]. intros [].
  apply does_bind; [apply _|apply neutral_queues; eauto with neutral|]. intros [].
  apply neutral_queues. eauto with neutral.
Qed.

Lemma terminate_with_queues reason code b : does keeps_queues (terminate_with credit reason code b).
Proof using Hqueues.
  assert (H : forall A (m : Turn A), does neutral m -> does keeps_queues m) by (intros; by apply neutral_queues).
  assert (Heach : does keeps_queues (each_stream (fun id => fail_with credit id reason))).
  { apply each_stream_does; [apply _|]. intros id. apply fail_with_queues. }
  unfold terminate_with. apply does_bind; [apply _|intros c Q; exact Q|]. intros c. destruct (_ || _); [apply does_ret, _|].
  do 2 (apply does_bind; [apply _|intros d Q; exact Q|]; intros []).
  do 3 (apply does_bind; [apply _|apply H; eauto with neutral|]; intros []).
  apply does_bind; [apply _|done|]. intros []. apply does_bind; [apply _|intros d Q; exact Q|]. intros [].
  destruct (_ || _); [apply H; eauto with neutral|].
  apply does_bind; [apply _|apply H; eauto with neutral|]. intros p d Q. exact Q.
Qed.
End Credit.

Lemma credit_at_queues depth n : does keeps_queues (credit_at depth n).
Proof.
  revert n. induction depth as [|depth IH]; intros n; [intros c; apply keeps_queues_preorder|]. cbn [credit_at].
  apply does_bind; [apply _|intros c Q; exact Q|]. intros c. destruct (_ || _); [apply does_ret, _|].
  destruct (_ <? _); [by apply terminate_with_queues|]. apply does_bind; [apply _|intros d Q; exact Q|]. intros [].
  apply neutral_queues. neutrally.
Qed.

Lemma returnConnectionCredit_run n c : returnConnectionCredit n c =
  if (n =? 0) || terminating c || terminated c then (c, Ok tt)
  else if HTTP2_MAX_WINDOW_SIZE - n <? connectionReceiveWindow c then
    terminate_with (credit_at 1) (wireError "HTTP/2 connection receive window overflow" HTTP2_FLOW_CONTROL_ERROR)
      HTTP2_FLOW_CONTROL_ERROR true c
  else (send_with HTTP2_FRAME_WINDOW_UPDATE 0 0 (encodeHttp2WindowUpdate n) ;; eff_ret tt)
    (set_connectionReceiveWindow (connectionReceiveWindow c + n) c).
Proof.
  transitivity ((if (n =? 0) || terminating c || terminated c then eff_ret tt
    else if HTTP2_MAX_WINDOW_SIZE - n <? connectionReceiveWindow c then
      terminate_with (credit_at 1) (wireError "HTTP/2 connection receive window overflow" HTTP2_FLOW_CONTROL_ERROR)
        HTTP2_FLOW_CONTROL_ERROR true
    else put set_connectionReceiveWindow (connectionReceiveWindow c + n) ;;
      send_with HTTP2_FRAME_WINDOW_UPDATE 0 0 (encodeHttp2WindowUpdate n) ;; eff_ret tt) c); [reflexivity|].
  destruct (_ || _); [done|]. by destruct (_ <? _).
Qed.

Lemma returnConnectionCredit_gains n : 0 <= n -> does (gains n) (returnConnectionCredit n).
Proof.
  intros Hn c Q. split; [by apply credit_at_queues|]. split; [apply evolves_ends, returnConnectionCredit_evolves|].
  rewrite returnConnectionCredit_run. destruct (Z.eqb_spec n 0) as [->|Hz]; cbn [orb]; [right; cbn; lia|].
  destruct (terminating c) eqn:E1; cbn [orb]; [by left; left|]. destruct (terminated c) eqn:E2; cbn [orb]; [by left; right|].
  destruct (_ <? _); [left; apply terminate_with_ends; intros k; apply credit_at_evolves|].
  assert (Hs : does neutral (send_with HTTP2_FRAME_WINDOW_UPDATE 0 0 (encodeHttp2WindowUpdate n) ;; eff_ret tt)) by neutrally.
  destruct (Hs (set_connectionReceiveWindow (connectionReceiveWindow c + n) c) Q) as (_ & _ & [E|[-> Hw]]); [by left|right].
  change (connectionReceiveWindow (set_connectionReceiveWindow (connectionReceiveWindow c + n) c)) with (connectionReceiveWindow c + n) in Hw.
  unfold account. cbn [connectionReceiveWindow objects set_connectionReceiveWindow]. split; [|lia].
  change (connectionReceiveWindow c + n + total held (objects c) + 0 = connectionReceiveWindow c + total held (objects c) + n). lia.
Qed.

(** What a turn adds to what is held comes off what the next one takes. *)
Lemma gains_bind {A B} n k j (m : Turn A) (f : A -> Turn B) : does (gains n) m -> (forall a, does (gains k) (f a)) -> 
  (forall c c' e, m c = (c', Err e) -> False) -> n + k = j -> does (gains j) (eff_bind m f).
Proof.
  intros Hm Hf He <- c. unfold eff_bind. specialize (Hm c). specialize (He c). destruct (m c) as [c1 [a|e]]; cbn in *.
  - by apply (gains_then n k c c1 _ Hm (Hf a c1)).
  - exfalso. by eapply He.
Qed.

Lemma change_gains f id n : (forall s, queue_ok s -> queue_ok (f s) /\ held (f s) = held s + n) ->
  forall c, is_Some (objects c !! id) -> gains n c (set_objects (alter f id (objects c)) c).
Proof.
  intros Hf c [s Hs] Q. destruct (change_account f id c n) as [Hq Ha]; [by intros t _; apply Hf|congruence|done|].
  split_and!; [done|done|]. right. by cbn.
Qed.

Lemma discardIncoming_neutral id : does neutral (discardIncoming id).
Proof.
  intros c Q. set (n := items_flow (queued (stream_of c id))).
  set (c1 := set_objects (alter (fun s => set_incomingOffset 0 (set_incoming [] s)) id (objects c)) c).
  assert (E : discardIncoming id c = eff_when (negb (n =? 0)) (returnConnectionCredit n) c1) by done. rewrite E.
  assert (Hn : 0 <= n).
  { unfold n, stream_of. destruct (objects c !! id) as [s|] eqn:Es; [|done]. apply items_flow_nonneg, queued_ok, (Q id s Es). }
  destruct (change_account (fun s => set_incomingOffset 0 (set_incoming [] s)) id c (- n)) as [Q1 A1]; [| |done|].
  { intros s Hs Hq. assert (n = items_flow (queued s)) as -> by (unfold n, stream_of; by rewrite Hs). by apply clear_held. }
  { intros H. unfold n, stream_of. by rewrite H. }
  change (queues_ok c1) in Q1. change (account c1 = account c + - n) in A1.
  destruct (Z.eqb_spec n 0) as [Hz|_].
  - split_and!; [done|done|]. right. change (account c1 = account c + 0 /\ connectionReceiveWindow c <= connectionReceiveWindow c). lia.
  - destruct (returnConnectionCredit_gains n Hn c1 Q1) as (Q2 & E2 & A2). split_and!; [done|exact E2|].
    destruct A2 as [?|A2]; [by left|right]. change (connectionReceiveWindow c1) with (connectionReceiveWindow c) in A2.
    cbn [eff_when negb]. lia.
Qed.
#[export] Hint Resolve discardIncoming_neutral : neutral.

Lemma fail_neutral id reason : does neutral (fail id reason).
Proof.
  unfold fail, fail_with. change (discard_with returnConnectionCredit id) with (discardIncoming id). neutrally.
Qed.
Lemma terminate_neutral reason code b : does neutral (terminate reason code b).
Proof.
  intros c Q. split; [apply terminate_with_queues; [intros n; apply credit_at_queues|done]|].
  pose proof (terminate_ends reason code b c). split; [done|by left].
Qed.
#[export] Hint Resolve fail_neutral terminate_neutral : neutral.

Lemma finishDrainIfIdle_neutral : does neutral finishDrainIfIdle.
Proof. unfold finishDrainIfIdle. neutrally. Qed.
#[export] Hint Resolve finishDrainIfIdle_neutral : neutral.
Lemma streamStateChanged_neutral id : does neutral (streamStateChanged id).
Proof. unfold streamStateChanged. neutrally. Qed.
#[export] Hint Resolve streamStateChanged_neutral : neutral.
Lemma resetStream_neutral id code message : does neutral (resetStream id code message).
Proof. unfold resetStream. neutrally. Qed.
Lemma cancelStream_neutral id reason : does neutral (cancelStream id reason).
Proof. unfold cancelStream. neutrally. Qed.
#[export] Hint Resolve resetStream_neutral cancelStream_neutral : neutral.
Lemma receiveEnd_neutral id : does neutral (receiveEnd id).
Proof. unfold receiveEnd. neutrally. Qed.
Lemma peerReset_neutral id code : does neutral (peerReset id code).
Proof. unfold peerReset. neutrally. Qed.
Lemma markLocalEnd_neutral id : does neutral (markLocalEnd id).
Proof. unfold markLocalEnd. neutrally. Qed.
#[export] Hint Resolve receiveEnd_neutral peerReset_neutral markLocalEnd_neutral : neutral.

Lemma gains_neutral {A B} n (m : Turn A) (f : A -> Turn B) : does (gains n) m -> (forall a, does neutral (f a)) ->
  does (gains n) (eff_bind m f).
Proof.
  intros Hm Hf c. unfold eff_bind. specialize (Hm c). destruct (m c) as [c1 [a|e]]; cbn in *; [|done].
  rewrite <- (Z.add_0_r n). by apply (gains_then n 0 c c1 _ Hm (Hf a c1)).
Qed.

Lemma returnReceiveCredit_gains id n : 0 <= n -> does (gains n) (returnReceiveCredit id n).
Proof.
  intros Hn. unfold returnReceiveCredit. apply gains_neutral; [by apply returnConnectionCredit_gains|]. intros []. neutrally.
Qed.

(** ** What the methods of a frame throw *)

Create HintDb throws.

Lemma send_with_throws t flags id payload : (forall e, payload = Err e -> conn_error e) -> throws conn_error (send_with t flags id payload).
Proof. intros H. apply throws_bind; [by apply throws_lift|]. intros p. apply sendFrame_throws. Qed.

Lemma encodeHttp2WindowUpdate_conn n e : encodeHttp2WindowUpdate n = Err e -> conn_error e.
Proof. unfold encodeHttp2WindowUpdate. intros [E|(? & _ & H)]%bind_Err; [by apply throw_if_Err in E as ->|done]. Qed.
Lemma encodeHttp2ErrorCode_conn n e : encodeHttp2ErrorCode n = Err e -> conn_error e.
Proof. unfold encodeHttp2ErrorCode. intros [E|(? & _ & H)]%bind_Err; [by apply throw_if_Err in E as ->|done]. Qed.
Lemma encodeHttp2GoAway_conn n code e : encodeHttp2GoAway n code [] = Err e -> conn_error e.
Proof.
  unfold encodeHttp2GoAway. intros [E|(? & _ & H)]%bind_Err.
  - unfold requireStreamId in E. by apply throw_if_Err in E as ->.
  - revert H. intros [E|(? & _ & H)]%bind_Err; [by apply throw_if_Err in E as ->|]. unfold copyInto in H. revert H. case_match; [done|congruence].
Qed.

Lemma throws_set P f : throws P (eff_set f : Turn unit).
Proof. quiet. Qed.
Lemma throws_get {A} P (f : Http2ClientConnection -> A) : throws P (eff_get f).
Proof. quiet. Qed.
Lemma throws_ret {A} P (a : A) : throws P (eff_ret a : Turn A).
Proof. quiet. Qed.
#[export] Hint Resolve throws_set throws_get throws_ret sendFrame_throws wakeSlotWaiters_throws encodeHttp2WindowUpdate_conn
  encodeHttp2ErrorCode_conn encodeHttp2GoAway_conn send_with_throws : throws.

Ltac throwing := repeat match goal with
  | |- forall _, throws _ _ => intro
  | |- throws _ (eff_when ?b _) => destruct b; unfold eff_when
  | |- throws _ (if ?b then _ else _) => destruct b
  | |- throws _ (match ?b with _ => _ end) => destruct b
  | |- throws _ (let _ := _ in _) => cbv zeta
  | |- throws _ (change _ _) => apply throws_set
  | |- throws _ (put _ _) => apply throws_set
  | |- throws _ (settle _ _) => apply throws_set
  | |- throws _ (get_ _) => apply throws_get
  | |- throws _ (the _) => apply throws_get
  | |- throws _ _ => solve [eauto with throws]
  | |- throws _ (eff_bind _ _) => apply throws_bind
  end.

Lemma notifyFlowChange_throws P : throws P notifyFlowChange.
Proof. unfold notifyFlowChange. throwing. quiet. Qed.
Lemma failSlotWaiters_throws P reason : throws P (failSlotWaiters reason).
Proof.
  unfold failSlotWaiters. apply throws_bind; [throwing|]. intros l. apply throws_bind; [|throwing].
  apply throws_each. intros w. throwing.
Qed.
Lemma finish_termination_throws P : throws P finish_termination.
Proof. unfold finish_termination. throwing. Qed.
#[export] Hint Resolve notifyFlowChange_throws failSlotWaiters_throws finish_termination_throws : throws.

Section CreditThrows.
Context (credit : Z -> Turn unit) (Hcredit : forall n, throws conn_error (credit n)).

Lemma discard_with_throws id : throws conn_error (discard_with credit id).
Proof using Hcredit. unfold discard_with. throwing. Qed.

Lemma fail_with_throws id reason : throws conn_error (fail_with credit id reason).
Proof using Hcredit. pose proof discard_with_throws. unfold fail_with, pushIncoming, finishApplication. throwing. Qed.

Lemma terminate_with_throws reason code b : throws conn_error (terminate_with credit reason code b).
Proof using Hcredit.
  pose proof fail_with_throws.
  assert (throws conn_error (each_stream (fun id => fail_with credit id reason))) by by apply each_stream_throws.
  unfold terminate_with. throwing.
Qed.
End CreditThrows.

Lemma credit_at_throws depth n : throws conn_error (credit_at depth n).
Proof.
  revert n. induction depth as [|depth IH]; intros n; [intros c c' e [= _ <-]; done|]. cbn [credit_at].
  pose proof (terminate_with_throws _ IH). throwing.
Qed.

Lemma returnConnectionCredit_throws n : throws conn_error (returnConnectionCredit n).
Proof. apply credit_at_throws. Qed.
#[export] Hint Resolve returnConnectionCredit_throws : throws.
Lemma fail_throws id reason : throws conn_error (fail id reason).
Proof. apply fail_with_throws. eauto with throws. Qed.
Lemma terminate_throws reason code b : throws conn_error (terminate reason code b).
Proof. apply terminate_with_throws. eauto with throws. Qed.
#[export] Hint Resolve fail_throws terminate_throws : throws.
Lemma finishDrainIfIdle_throws : throws conn_error finishDrainIfIdle.
Proof. unfold finishDrainIfIdle. throwing. Qed.
#[export] Hint Resolve finishDrainIfIdle_throws : throws.
Lemma streamStateChanged_throws id : throws conn_error (streamStateChanged id).
Proof. unfold streamStateChanged. throwing. Qed.
#[export] Hint Resolve streamStateChanged_throws : throws.
Lemma resetStream_throws id code message : throws conn_error (resetStream id code message).
Proof. unfold resetStream, finishApplication. throwing. Qed.
Lemma sendClosedStreamReset_throws id : throws conn_error (sendClosedStreamReset id).
Proof. unfold sendClosedStreamReset. throwing. Qed.
Lemma returnReceiveCredit_throws id n : throws conn_error (returnReceiveCredit id n).
Proof. unfold returnReceiveCredit. throwing. Qed.
#[export] Hint Resolve resetStream_throws sendClosedStreamReset_throws returnReceiveCredit_throws : throws.

(** ** Frames *)

Lemma settles_gains {A} n c (m : Turn A) : does (gains n) m -> queues_ok c -> settles n c (m c).
Proof. intros Hm Q. destruct (Hm c Q) as (Q1 & E1 & A1). split_and!; [done|done|by right]. Qed.

Lemma settles_bind {A B} n k j c (m : Turn A) (f : A -> Turn B) : throws conn_error m -> does (gains n) m -> queues_ok c ->
  (forall a c1, queues_ok c1 -> settles k c1 (f a c1)) -> n + k = j -> settles j c (eff_bind m f c).
Proof.
  intros Ht Hm Q Hf <-. destruct (Hm c Q) as (Q1 & E1 & A1). specialize (Ht c). unfold eff_bind.
  destruct (m c) as [c1 [a|e]]; cbn in *; [|split_and!; [done|done|left; exists e; split; [done|by eapply Ht]]].
  destruct (Hf a c1 Q1) as (Q2 & E2 & A2). split_and!; [done|auto|]. destruct A2 as [?|[?|A2]]; [by left|by right; left|].
  right. destruct A1 as [?|A1]; [left; auto|]. right. lia.
Qed.

(** From a heap that only differs in what is not accounted for. *)
Lemma settles_from {A} n c c1 (p : Http2ClientConnection * result A) : neutral c c1 -> queues_ok c -> (queues_ok c1 -> settles n c1 p) -> settles n c p.
Proof.
  intros H Q Hp. destruct (H Q) as (Q1 & E1 & A1). destruct (Hp Q1) as (Q2 & E2 & A2).
  split_and!; [done|auto|]. destruct A2 as [?|[?|A2]]; [by left|by right; left|].
  right. destruct A1 as [?|A1]; [left; auto|]. right. lia.
Qed.

Lemma receiveData_settles id data n e c : len data <= n -> is_Some (objects c !! id) -> queues_ok c ->
  settles n c (receiveData id data n e c).
Proof.
  intros Hn Hid Q. assert (H0 : 0 <= n) by (unfold len in Hn; lia).
  assert (Hreset : forall code message d, queues_ok d ->
    settles n d ((resetStream id code message ;; returnConnectionCredit n) d)).
  { intros code message d Qd. apply (settles_bind 0 n); [eauto with throws|eauto with neutral|done| |lia].
    intros _ d1 Qd1. apply settles_gains; [by apply returnConnectionCredit_gains|done]. }
  assert (Hend : does neutral (eff_when e (receiveEnd id))) by (apply does_when; [apply _|eauto with neutral]).
  unfold receiveData, the, eff_bind at 1, eff_get. set (s := stream_of c id).
  destruct (_ || _); [by apply Hreset|]. cbv zeta. unfold eff_bind at 1, change at 1, eff_set at 1.
  set (c1 := set_objects _ c). apply (settles_from n c c1); [apply neutral_change; holds|done|]. intros Q1.
  destruct (_ || _); [by apply Hreset|]. destruct (len data =? 0).
  - apply settles_gains; [|done]. apply gains_neutral; [by apply returnReceiveCredit_gains|done].
  - unfold eff_bind, pushIncoming, change, eff_set.
    assert (Hp : gains n c1 (set_objects (alter (push_item (IncomingData data n)) id (objects c1)) c1)).
    { apply change_gains; [intros t Ht; by apply push_item_held|]. unfold c1. cbn. rewrite lookup_alter_eq. destruct Hid as [t ->]. by eexists. }
    destruct (Hp Q1) as (Q2 & E2 & A2). set (c2 := set_objects _ c1) in *.
    destruct (settles_gains 0 c2 _ Hend Q2) as (Q3 & E3 & A3). split_and!; [done|auto|].
    destruct A3 as [?|[?|A3]]; [by left|by right; left|right]. destruct A2 as [?|A2]; [left; auto|right]. lia.
Qed.

Lemma settles_handled {A} c (p : Http2ClientConnection * result A) : settles 0 c p -> handled c p.
Proof. intros (Q & E & A1). split_and!; [done|done|]. intros H. destruct A1 as [?|[?|?]]; [by left|by right; left|right; right; lia]. Qed.

Lemma neutral_handled {A} c (m : Turn A) : does neutral m -> queues_ok c -> handled c (m c).
Proof. intros Hm Q. apply settles_handled. by apply settles_gains. Qed.

Lemma parsed_length f d : parseHttp2Data f = Ok d -> len (dp_data d) <= len (fr_payload f).
Proof.
  unfold parseHttp2Data. intros ([] & _ & H)%bind_Ok. apply bind_Ok in H as (r & _ & [= <-]). cbn.
  unfold subarray, len. rewrite length_take, length_drop. lia.
Qed.

Lemma sendClosedStreamReset_neutral id : does neutral (sendClosedStreamReset id).
Proof. unfold sendClosedStreamReset. neutrally. Qed.
#[export] Hint Resolve sendClosedStreamReset_neutral : neutral.

Lemma handleData_handled credit f c : send_core credit c -> queues_ok c -> handled c (handleData f c).
Proof.
  intros S Q. assert (Hsame : forall e, handled c (c, Err e : result unit)) by (by intros e; split_and!; [..|by right; right]).
  unfold handleData. cbv zeta. set (id := fr_streamId f). set (n := len (fr_payload f)).
  assert (Hn : 0 <= n) by (unfold n, len; lia).
  unfold eff_bind at 1. destruct (findStream id "DATA" c) as [c' [found|e]] eqn:Ef.
  2: { assert (c' = c) as ->; [|apply Hsame]. revert Ef. unfold findStream, eff_bind, get_, eff_get, eff_ret, eff_throw.
       repeat case_match; congruence. }
  apply findStream_run in Ef as [-> Hfound]. unfold eff_bind at 1, eff_lift.
  destruct (parseHttp2Data f) as [parsed|e] eqn:Ep; [|apply Hsame]. apply parsed_length in Ep. fold n in Ep.
  unfold eff_bind at 1 2, get_, eff_get, put, eff_set. change (Datatypes.id c) with c.
  set (c1 := set_connectionReceiveWindow (connectionReceiveWindow c - n) c).
  assert (Q1 : queues_ok c1) by exact Q. assert (A1 : account c1 = account c - n) by (unfold account, c1; cbn; lia).
  assert (Hw : connectionReceiveWindow c1 = connectionReceiveWindow c - n) by done.
  destruct (connectionReceiveWindow c - n <? 0) eqn:Eneg; [split_and!; [done|done|left; by eexists]|]. apply Z.ltb_ge in Eneg.
  assert (Hfrom : forall p : Http2ClientConnection * result unit, settles n c1 p -> handled c p).
  { intros p (Q2 & E2 & A2). split_and!; [done|exact E2|intros _]. destruct A2 as [?|[?|?]]; [by left|by right; left|right; right; lia]. }
  apply Hfrom. destruct found; cbn [negb].
  - unfold the, eff_bind at 1, eff_get, eff_bind at 1, change, eff_set. set (s := stream_of c1 id). set (c2 := set_objects _ c1).
    apply (settles_from n c1 c2); [apply neutral_change; holds|done|]. intros Q2. destruct (_ <? 0).
    + apply (settles_bind n 0); [eauto with throws|by apply returnConnectionCredit_gains|done| |lia].
      intros _ d Qd. apply settles_gains; [eauto with neutral|done].
    + apply receiveData_settles; [done| |done]. unfold c2. cbn. rewrite lookup_alter_eq.
      destruct (so_dom _ _ S id (Hfound eq_refl)) as [t ->]. by eexists.
  - apply settles_gains; [|done]. apply gains_neutral; [by apply returnConnectionCredit_gains|eauto with neutral].
Qed.

Lemma bind_neutral {A B} (m : Turn A) (k : A -> Turn B) : does neutral m -> (forall a, does neutral (k a)) -> does neutral (eff_bind m k).
Proof. intros Hm Hk. by apply does_bind; [apply _|..]. Qed.
Lemma catch_neutral {A} (m : Turn A) h : does neutral m -> (forall e, does neutral (h e)) -> does neutral (eff_catch m h).
Proof. intros Hm Hh. by apply does_catch; [apply _|..]. Qed.
Lemma ret_neutral {A} (a : A) : does neutral (eff_ret a : Turn A).
Proof. apply does_ret. apply _. Qed.
Lemma throw_neutral {A} e : does neutral (eff_throw e : Turn A).
Proof. apply does_throw. apply _. Qed.
Lemma lift_neutral {A} (r : result A) : does neutral (eff_lift r : Turn A).
Proof. apply does_lift. apply _. Qed.
Lemma when_neutral b (m : Turn unit) : does neutral m -> does neutral (eff_when b m).
Proof. intros Hm. apply does_when; [apply _|done]. Qed.
Lemma each_neutral {A} (f : A -> Turn unit) l : (forall a, does neutral (f a)) -> does neutral (eff_each f l).
Proof. intros Hf. apply does_each; [apply _|done]. Qed.
Lemma each_stream_neutral f : (forall id, does neutral (f id)) -> does neutral (each_stream f).
Proof. intros Hf. apply each_stream_does; [apply _|done]. Qed.
#[export] Hint Resolve bind_neutral catch_neutral ret_neutral throw_neutral lift_neutral when_neutral each_neutral each_stream_neutral : neutral.
#[export] Hint Extern 2 (does neutral (match ?b with _ => _ end)) => destruct b : neutral.

Lemma handleHeaders_neutral id parsed e : does neutral (handleHeaders id parsed e).
Proof. unfold handleHeaders. neutrally. Qed.
Lemma handleTrailers_neutral id fields e : does neutral (handleTrailers id fields e).
Proof. unfold handleTrailers. neutrally. Qed.
Lemma findStream_neutral id name : does neutral (findStream id name).
Proof. unfold findStream. neutrally. Qed.
Lemma decode_block_neutral b : does neutral (decode_block b).
Proof. unfold decode_block. neutrally. Qed.
#[export] Hint Resolve handleHeaders_neutral handleTrailers_neutral findStream_neutral decode_block_neutral : neutral.
Lemma handleHeaderBlock_neutral b : does neutral (handleHeaderBlock b).
Proof. unfold handleHeaderBlock. neutrally. Qed.
Lemma handleReset_neutral f : does neutral (handleReset f).
Proof. unfold handleReset. neutrally. Qed.
Lemma shift_window_neutral d id : does neutral (shift_window d id).
Proof. unfold shift_window. neutrally. Qed.
#[export] Hint Resolve shift_window_neutral handleHeaderBlock_neutral handleReset_neutral : neutral.
Lemma apply_initial_window_neutral v : does neutral (apply_initial_window v).
Proof. unfold apply_initial_window. neutrally. Qed.
#[export] Hint Resolve apply_initial_window_neutral : neutral.
Lemma applyRemoteSetting_neutral st : does neutral (applyRemoteSetting st).
Proof. unfold applyRemoteSetting. neutrally. Qed.
#[export] Hint Resolve applyRemoteSetting_neutral : neutral.
Lemma handleSettings_neutral f : does neutral (handleSettings f).
Proof. unfold handleSettings. neutrally. Qed.
Lemma refuse_above_neutral last id : does neutral (refuse_above last id).
Proof. unfold refuse_above. neutrally. Qed.
#[export] Hint Resolve refuse_above_neutral : neutral.
Lemma handleGoAway_neutral f : does neutral (handleGoAway f).
Proof. unfold handleGoAway. neutrally. Qed.
Lemma handleWindowUpdate_neutral f : does neutral (handleWindowUpdate f).
Proof. unfold handleWindowUpdate. neutrally. Qed.
Lemma handlePing_neutral f : does neutral (handlePing f).
Proof. unfold handlePing. neutrally. Qed.
Lemma accept_block_neutral f : does neutral (accept_block f).
Proof. unfold accept_block. neutrally. Qed.
#[export] Hint Resolve handleSettings_neutral handleGoAway_neutral handleWindowUpdate_neutral handlePing_neutral accept_block_neutral : neutral.

Lemma accept_block_run f c : exists a, (accept_block f c).1 = set_blocks a c.
Proof.
  unfold accept_block, eff_bind, get_, eff_get, put, eff_set, eff_ret, eff_throw. change (Datatypes.id c) with c.
  destruct (accept (blocks c) f) as [[b a]|e]; [by exists a|]. exists (blocks c). by destruct c.
Qed.

Lemma handleFrame_handled credit f c : send_core credit c -> queues_ok c -> handled c (handleFrame f c).
Proof.
  intros S Q. unfold handleFrame. cbv zeta.
  destruct (_ =? HTTP2_FRAME_PUSH_PROMISE); [apply neutral_handled; eauto with neutral|].
  unfold eff_bind at 1. destruct (accept_block_run f c) as [a Ha]. pose proof (accept_block_evolves f c) as Hev.
  destruct (accept_block f c) as [c1 [b|e]]; cbn [fst] in *; [|subst c1; split_and!; [done|done|by right; right]].
  assert (S1 : send_core credit c1) by (by eapply evolves_send_core).
  assert (Q1 : queues_ok c1) by (by subst c1).
  assert (Hfrom : forall p : Http2ClientConnection * result unit, handled c1 p -> handled c p) by (by subst c1).
  assert (Hneutral : forall m : Turn unit, does neutral m -> handled c (m c1)) by (intros m Hm; apply Hfrom, neutral_handled; done).
  destruct (_ || _); [apply Hneutral; eauto with neutral|].
  destruct (_ =? HTTP2_FRAME_DATA); [apply Hfrom; by eapply handleData_handled|].
  repeat (match goal with |- handled _ ((if ?t then _ else _) _) => destruct t end); apply Hneutral; eauto with neutral.
Qed.

(** ** Events *)

Lemma neutral_recv_ok size c c' : neutral c c' -> recv_ok size c -> recv_ok size c'.
Proof.
  intros H [Q A]. destruct (H Q) as (Q1 & E1 & A1). split; [done|]. destruct A as [?|A]; [left; auto|].
  destruct A1 as [?|?]; [by left|right; lia].
Qed.

Lemma read_next_neutral : does neutral read_next.
Proof. intros c. unfold read_next, eff_set. cbn. by apply neutral_same. Qed.
Lemma reader_catch_neutral e : does neutral (reader_catch e).
Proof. unfold reader_catch. neutrally. Qed.
Lemma frame_catch_neutral e : does neutral (frame_catch e).
Proof. unfold frame_catch. neutrally. Qed.
#[export] Hint Resolve read_next_neutral reader_catch_neutral frame_catch_neutral : neutral.
Lemma reader_after_neutral : does neutral reader_after.
Proof. unfold reader_after. neutrally. Qed.
#[export] Hint Resolve reader_after_neutral : neutral.
Lemma reader_resume_neutral : does neutral reader_resume.
Proof. unfold reader_resume. neutrally. Qed.

Lemma reader_catch_ends e c : ends (reader_catch e c).1.
Proof. unfold reader_catch, eff_bind, put, eff_set. apply terminate_ends. Qed.

Lemma reader_frame_recv credit size f c : send_core credit c -> recv_ok size c -> recv_ok size (reader_frame f c).1.
Proof.
  intros S [Q A]. destruct (handleFrame_handled credit f c S Q) as (Q1 & E1 & H1).
  assert (Hcatch : forall e d, queues_ok d -> recv_ok size (reader_catch e d).1).
  { intros e d Qd. split; [apply (reader_catch_neutral e d Qd)|left; apply reader_catch_ends]. }
  assert (Hok : forall d, recv_ok size d -> recv_ok size (match reader_after d with (s, Ok a) => (s, Ok a) | (s, Err e) => reader_catch e s end).1).
  { intros d Hd. pose proof (neutral_recv_ok size _ _ (reader_after_neutral d) Hd) as Hd1.
    destruct (reader_after d) as [d1 [x|e]]; [done|]. apply Hcatch, Hd1. }
  unfold reader_frame, eff_catch at 1, eff_bind at 1, read_frame, eff_bind, get_, eff_get, eff_throw. change (Datatypes.id c) with c.
  destruct (_ && _); [by apply Hcatch|]. unfold eff_catch.
  destruct (handleFrame f c) as [c1 [x|e]]; cbn [fst snd] in *.
  - apply Hok. split; [done|]. destruct A as [?|[A0 A]]; [left; auto|].
    destruct (H1 A0) as [(e & [=] & _)|[?|[? ?]]]; [by left|right; split; [done|congruence]].
  - pose proof (frame_catch_neutral e c1) as Hn. destruct (frame_catch e c1) as [c2 [x|e']] eqn:Ec; cbn [fst] in Hn.
    + apply Hok. assert (R1 : recv_ok size c1); [|by eapply neutral_recv_ok]. split; [done|].
      destruct A as [?|[A0 A]]; [left; auto|]. destruct (H1 A0) as [(e' & [= <-] & He)|[?|[? ?]]]; [|by left|right; split; [done|congruence]].
      exfalso. revert Ec. unfold frame_catch. destruct e as [| | | | |? ? [sid|]|]; try discriminate. done.
    + apply Hcatch. by apply Hn.
Qed.

Lemma start_neutral : does neutral start.
Proof. unfold start. neutrally. Qed.
Lemma drain_neutral : does neutral drain.
Proof. unfold drain. neutrally. Qed.
Lemma drain_resume_neutral p : does neutral (drain_resume p).
Proof. unfold drain_resume. neutrally. Qed.
Lemma close_neutral reason : does neutral (close reason).
Proof. unfold close. neutrally. Qed.
Lemma finish_resume_neutral : does neutral finish_resume.
Proof. unfold finish_resume. neutrally. Qed.
Lemma write_resume_neutral r : does neutral (write_resume r).
Proof. unfold write_resume. neutrally. Qed.
#[export] Hint Resolve reader_resume_neutral start_neutral drain_neutral drain_resume_neutral close_neutral finish_resume_neutral write_resume_neutral : neutral.

Lemma become_neutral k st : does neutral (become k st).
Proof. intros c. unfold become, set_request, eff_set. cbn. by apply neutral_same. Qed.
#[export] Hint Resolve become_neutral : neutral.
Lemma request_neutral k q aborted : does neutral (request k q aborted).
Proof. unfold request. neutrally. Qed.
Lemma throwIfAborted_neutral r : does neutral (throwIfAborted r).
Proof. unfold throwIfAborted. neutrally. Qed.
#[export] Hint Resolve request_neutral throwIfAborted_neutral : neutral.
Lemma reserveStreamSlot_neutral k r : does neutral (reserveStreamSlot k r).
Proof. unfold reserveStreamSlot. neutrally. Qed.
Lemma request_catch_neutral k e : does neutral (request_catch k e).
Proof. unfold request_catch. eauto with neutral. Qed.
#[export] Hint Resolve reserveStreamSlot_neutral request_catch_neutral : neutral.
Lemma request_reserve_neutral k : does neutral (request_reserve k).
Proof. unfold request_reserve. neutrally. Qed.
Lemma attachSignal_neutral id r : does neutral (attachSignal id r).
Proof. unfold attachSignal. neutrally. Qed.
Lemma release_slot_neutral : does neutral release_slot.
Proof. unfold release_slot. neutrally. Qed.
Lemma waiter_abort_neutral p reason : does neutral (waiter_abort p reason).
Proof. unfold waiter_abort. neutrally. Qed.
#[export] Hint Resolve request_reserve_neutral attachSignal_neutral release_slot_neutral waiter_abort_neutral : neutral.
Lemma request_abort_neutral k reason : does neutral (request_abort k reason).
Proof.
  assert (forall f, does neutral (set_request k f)).
  { intros f c. unfold set_request, eff_set. cbn. by apply neutral_same. }
  unfold request_abort. neutrally.
Qed.

Lemma upload_to_neutral id st : does neutral (upload_to id st).
Proof. unfold upload_to. neutrally. Qed.
Lemma upload_finish_neutral id : does neutral (upload_finish id).
Proof. unfold upload_finish. neutrally. Qed.
Lemma acceptSendBytes_neutral id n : does neutral (acceptSendBytes id n).
Proof. unfold acceptSendBytes. neutrally. Qed.
Lemma verifySendComplete_neutral id : does neutral (verifySendComplete id).
Proof. unfold verifySendComplete. neutrally. Qed.
Lemma cannot_send_neutral c s : does neutral (cannot_send c s).
Proof. unfold cannot_send. neutrally. Qed.
#[export] Hint Resolve request_abort_neutral upload_to_neutral upload_finish_neutral acceptSendBytes_neutral
  verifySendComplete_neutral cannot_send_neutral : neutral.
Lemma upload_catch_neutral id e : does neutral (upload_catch id e).
Proof. unfold upload_catch. neutrally. Qed.
Lemma waitForFlowChange_neutral id : does neutral (waitForFlowChange id).
Proof. unfold waitForFlowChange. neutrally. Qed.
Lemma reserveSendCapacity_neutral id n : does neutral (reserveSendCapacity id n).
Proof. unfold reserveSendCapacity. neutrally. Qed.
Lemma upload_next_neutral id : does neutral (upload_next id).
Proof. unfold upload_next. neutrally. Qed.
Lemma upload_complete_neutral id : does neutral (upload_complete id).
Proof. unfold upload_complete. neutrally. Qed.
#[export] Hint Resolve reserveSendCapacity_neutral upload_complete_neutral upload_catch_neutral waitForFlowChange_neutral upload_next_neutral : neutral.
Lemma upload_reserve_neutral id chunk offset : does neutral (upload_reserve id chunk offset).
Proof. unfold upload_reserve. neutrally. Qed.
#[export] Hint Resolve upload_reserve_neutral : neutral.
Lemma upload_send_neutral id chunk offset : does neutral (upload_send id chunk offset).
Proof. unfold upload_send. neutrally. Qed.
#[export] Hint Resolve upload_send_neutral : neutral.
Lemma upload_read_neutral id r : does neutral (upload_read id r).
Proof. unfold upload_read. neutrally. Qed.
Lemma upload_resume_neutral id : does neutral (upload_resume id).
Proof. unfold upload_resume. neutrally. Qed.
Lemma sendRequestBody_neutral id : does neutral (sendRequestBody id).
Proof. unfold sendRequestBody. neutrally. Qed.
#[export] Hint Resolve upload_read_neutral upload_resume_neutral sendRequestBody_neutral : neutral.
Lemma request_opened_neutral k : does neutral (request_opened k).
Proof. unfold request_opened. neutrally. Qed.
#[export] Hint Resolve request_opened_neutral : neutral.

Lemma prepare_request_neutral q : does neutral (prepare_request q).
Proof. unfold prepare_request. neutrally. Qed.

Lemma open_stream_neutral k r id block expected c : objects c !! id = None -> neutral c (open_stream k r id block expected c).1.
Proof.
  intros Hnew. unfold open_stream.
  set (s := new_Http2ClientStream id (remoteInitialWindowSize c) (initialStreamWindowSize (options c))
    (requestMethod (rq_headers (r_request r))) (rq_body (r_request r)) expected (rq_onInformational (r_request r))).
  set (c1 := set_highestOpenedStreamId id (set_streams (streams c ++ [id]) (set_reservedSlots (reservedSlots c - 1)
    (set_objects (<[id := s]> (objects c)) c)))).
  assert (Hrest : does neutral (attachSignal id r ;; (p ← sendHeaderBlock id block (negb (rq_body (r_request r))); become k (request_sending id p)))).
  { pose proof sendHeaderBlock_neutral. eauto with neutral. }
  transitivity c1; [|exact (Hrest c1)]. intros Q. split_and!; [|done|right].
  - intros j t. change (objects c1) with (<[id := s]> (objects c)). destruct (decide (j = id)) as [->|Hj].
    + rewrite lookup_insert_eq. intros [= <-]. split; cbn; [unfold len; cbn; lia|by constructor|done].
    + rewrite lookup_insert_ne by done. apply Q.
  - unfold account. change (objects c1) with (<[id := s]> (objects c)). rewrite total_insert by done.
    change (connectionReceiveWindow c1) with (connectionReceiveWindow c). change (held s) with 0. lia.
Qed.

Lemma request_open_recv credit size k c : send_ok credit c -> recv_ok size c -> recv_ok size (request_open k c).1.
Proof.
  intros S R. assert (Hopen : forall r, recv_ok size (open_request k r c).1).
  { intros r. unfold open_request. pose proof (prepare_request_neutral (r_request r) c) as Hn.
    destruct (prepare_request (r_request r) c) as [c1 [[[id block] expected]|e]] eqn:E; cbn [fst] in Hn.
    - apply (prepare_request_spec credit) in E as (_ & _ & _ & _ & _ & Hnew & _); [|done].
      eapply neutral_recv_ok; [by apply open_stream_neutral|]. by eapply neutral_recv_ok.
    - assert (Hd : does neutral (release_slot ;; request_catch k e)) by eauto with neutral.
      eapply neutral_recv_ok; [apply Hd|]. by eapply neutral_recv_ok. }
  unfold request_open, eff_bind, get_, eff_get. change (Datatypes.id c) with c. destruct (requests c !! k) as [r|]; [|done].
  destruct (r_state r) as [| |p| | | |]; try done; try by apply Hopen. destruct (promises c !! p) as [[x|e]|]; [by apply Hopen| |done].
  eapply neutral_recv_ok; [apply request_catch_neutral|done].
Qed.

(** ** Bodies *)

Lemma take_item_held s : pulling s = pull_idle -> queue_ok s -> queue_ok (take_item s) /\ held (take_item s) = held s.
Proof.
  intros Hp [Ho Hq Ht]. unfold take_item. destruct (queued s) as [|item rest] eqn:E.
  { split; [by split|]. unfold held, taken. rewrite Hp. change (queued (set_pulling pull_waiting s)) with (queued s). by rewrite E. }
  assert (Hi : Forall item_ok (item :: rest)) by (rewrite <- E; by apply Forall_drop).
  assert (Hrest : rest = drop (Z.to_nat (incomingOffset s + 1)) (incoming s)).
  { replace (Z.to_nat (incomingOffset s + 1)) with (Z.to_nat (incomingOffset s) + 1)%nat by lia.
    rewrite <- drop_drop. change (drop (Z.to_nat (incomingOffset s)) (incoming s)) with (queued s). by rewrite E. }
  assert (Hlt : incomingOffset s < len (incoming s)).
  { assert (H : (0 < length (queued s))%nat) by (rewrite E; cbn; lia). unfold queued in H. rewrite length_drop in H. unfold len. lia. }
  assert (Hs : held s = item_flow item + items_flow rest + 0).
  { unfold held, taken. rewrite E, Hp. change (items_flow (item :: rest)) with (item_flow item + items_flow rest). done. }
  rewrite Hs. destruct (_ && _).
  - split; [split; cbn; [unfold len; lia|by inversion Hi|by inversion Hi]|].
    unfold held, taken. change (queued (set_incomingOffset 0 (set_incoming rest (set_pulling (pull_taken item) s)))) with rest.
    change (pulling (set_incomingOffset 0 (set_incoming rest (set_pulling (pull_taken item) s)))) with (pull_taken item). cbv iota. lia.
  - split; [split; cbn; [lia|done|by inversion Hi]|].
    unfold held, taken. change (queued (set_incomingOffset (incomingOffset s + 1) (set_pulling (pull_taken item) s)))
      with (drop (Z.to_nat (incomingOffset s + 1)) (incoming s)). rewrite <- Hrest.
    change (pulling (set_incomingOffset (incomingOffset s + 1) (set_pulling (pull_taken item) s))) with (pull_taken item). cbv iota. lia.
Qed.

Lemma pullBody_neutral id : does neutral (pullBody id).
Proof.
  intros c. apply neutral_change. intros s Q. destruct (bodyState s); [|by split..]. destruct (pulling s) eqn:E; [|by split..].
  by apply take_item_held.
Qed.
Lemma enqueue_body_neutral id bytes : does neutral (enqueue_body id bytes).
Proof. unfold enqueue_body. neutrally. Qed.
Lemma close_body_neutral id : does neutral (close_body id).
Proof. unfold close_body. neutrally. Qed.
Lemma error_body_neutral id e : does neutral (error_body id e).
Proof. intros c. apply neutral_change. holds. Qed.
#[export] Hint Resolve pullBody_neutral enqueue_body_neutral close_body_neutral error_body_neutral : neutral.
Lemma cancelBody_neutral id reason : does neutral (cancelBody id reason).
Proof. unfold cancelBody. neutrally. Qed.
#[export] Hint Resolve cancelBody_neutral : neutral.

Lemma item_flow_nonneg item : item_ok item -> 0 <= item_flow item.
Proof. unfold item_ok. destruct item; cbn; unfold len; lia. Qed.

Lemma gains_recv_ok size n c c' : gains n c c' -> recv_ok size c -> 0 <= connectionReceiveWindow c' \/ 0 <= n -> recv_ok (size + n) c'.
Proof.
  intros H [Q A] Hn. destruct (H Q) as (Q1 & E1 & A1). split; [done|]. destruct A as [?|A]; [left; auto|].
  destruct A1 as [?|?]; [by left|right; lia].
Qed.

(** A resumed read returns the credit of its chunk, or loses it. *)
Lemma pull_resume_recv size id c : recv_ok size c -> recv_ok (size - lost_by c (ev_pulled id)) (pull_resume id c).1.
Proof.
  intros R. unfold pull_resume, the, eff_bind at 1, eff_get, lost_by, stream_of. pose proof (proj1 R) as Q.
  destruct (objects c !! id) as [s|] eqn:Es; [change (default no_stream (Some s)) with s|by rewrite Z.sub_0_r].
  destruct (pulling s) as [| |item] eqn:Ep; [by rewrite Z.sub_0_r..|].
  assert (Hi : item_ok item) by (pose proof (q_taken s (Q id s Es)) as H; by rewrite Ep in H).
  pose proof (item_flow_nonneg item Hi) as Hpos. unfold eff_bind at 1, change, eff_set.
  set (c1 := set_objects (alter (set_pulling pull_idle) id (objects c)) c).
  assert (R1 : recv_ok (size + - item_flow item) c1).
  { destruct R as [_ A]. destruct (change_account (set_pulling pull_idle) id c (- item_flow item)) as [Q1 A1]; [|congruence|done|].
    - intros t Ht [Ho Hq Hk]. assert (t = s) as -> by congruence. split; [by split|]. unfold held, taken. rewrite Ep.
      change (queued (set_pulling pull_idle s)) with (queued s). change (pulling (set_pulling pull_idle s)) with pull_idle. cbv iota. lia.
    - fold c1 in Q1, A1. split; [done|]. destruct A as [?|[? ?]]; [by left|right]. split; [done|lia]. }
  assert (Hsame : forall m : Turn unit, item_flow item = 0 -> does neutral m -> recv_ok (size - match bodyState s with body_open => 0 | _ => item_flow item end) (m c1).1).
  { intros m Hz Hm. eapply neutral_recv_ok; [apply Hm|]. by destruct (bodyState s); rewrite Hz in *. }
  destruct item as [bytes flow| |reason]; [|apply Hsame; eauto with neutral..].
  cbn [item_flow] in *.
  assert (Hs1 : stream_of c1 id = set_pulling pull_idle s) by (unfold stream_of, c1; cbn; by rewrite lookup_alter_eq, Es).
  assert (Hlost : bodyState s <> body_open ->
    recv_ok (size - flow) (eff_catch (enqueue_body id bytes ;; returnReceiveCredit id flow) (error_body id) c1).1).
  { intros Hb. assert (E1 : (enqueue_body id bytes ;; returnReceiveCredit id flow) c1 = (c1, Err (TypeError "Stream is not writable"))).
    { unfold enqueue_body, the, eff_bind, eff_get. rewrite Hs1. change (bodyState (set_pulling pull_idle s)) with (bodyState s).
      by destruct (bodyState s). }
    unfold eff_catch. rewrite E1. eapply neutral_recv_ok; [apply error_body_neutral|exact R1]. }
  destruct (bodyState s) eqn:Eb.
  - assert (Hg : gains flow c1 (eff_catch (enqueue_body id bytes ;; returnReceiveCredit id flow) (error_body id) c1).1).
    { assert (E1 : (enqueue_body id bytes ;; returnReceiveCredit id flow) c1 =
        returnReceiveCredit id flow (set_objects (alter (set_delivered (delivered s ++ [bytes])) id (objects c1)) c1)).
      { unfold enqueue_body, the, eff_bind, eff_get. rewrite Hs1. change (bodyState (set_pulling pull_idle s)) with (bodyState s). by rewrite Eb. }
      unfold eff_catch. rewrite E1. set (c2 := set_objects _ c1).
      assert (Hg : gains flow c1 (returnReceiveCredit id flow c2).1).
      { eapply (gains_then 0 flow); [apply (neutral_change (set_delivered (delivered s ++ [bytes])) id c1); holds|by apply returnReceiveCredit_gains]. }
      destruct (returnReceiveCredit id flow c2) as [c3 [x|e]]; cbn [fst] in *; [done|].
      rewrite <- (Z.add_0_r flow). eapply gains_then; [exact Hg|apply error_body_neutral]. }
    replace (size - 0) with (size + - flow + flow) by lia. eapply gains_recv_ok; [exact Hg|done|by right].
  - by apply Hlost.
  - by apply Hlost.
Qed.

(** ** Runs *)

Lemma step_recv_ok credit size c e : send_ok credit c -> recv_ok size c -> recv_ok (size - lost_by c e) (step c e).
Proof.
  intros S R. unfold step. destruct (possible c e) eqn:Ep.
  - assert (Hn : forall m : Turn unit, does neutral m -> recv_ok (size - 0) (m c).1).
    { intros m Hm. rewrite Z.sub_0_r. eapply neutral_recv_ok; [apply Hm|done]. }
    destruct e; try (apply Hn; unfold turn, while_reading; eauto with neutral; fail).
    + cbn [lost_by]. rewrite Z.sub_0_r. cbn. unfold while_reading, eff_bind, get_, eff_get.
      destruct (reading c); try exact R. by eapply (reader_frame_recv credit); [apply S|].
    + cbn [lost_by]. rewrite Z.sub_0_r. by eapply request_open_recv.
    + by apply pull_resume_recv.
  - assert (lost_by c e = 0) as ->; [|by rewrite Z.sub_0_r]. destruct e; try done. cbn in *. by destruct (objects c !! id).
Qed.

Lemma run_recv_ok es : forall credit size c, (forall id, 0 <= credit id) -> send_ok credit c -> recv_ok size c ->
  recv_ok (size - lost c es) (run c es).
Proof.
  induction es as [|e es IH]; intros credit size c Hcr S R; [change (lost c []) with 0; by rewrite Z.sub_0_r|].
  change (run c (e :: es)) with (run (step c e) es). change (lost c (e :: es)) with (lost_by c e + lost (step c e) es).
  rewrite Z.sub_add_distr. apply (IH (more credit e)).
  - intros id. unfold more. pose proof (increment_nonneg id e). specialize (Hcr id). lia.
  - by apply step_send_ok.
  - by eapply step_recv_ok.
Qed.

Lemma initial_recv_ok opts c : new_Http2ClientConnection opts = Ok c -> recv_ok (connectionWindowSize (options c)) c.
Proof.
  unfold new_Http2ClientConnection. intros H. apply bind_Ok in H as (o & Ho & H). apply bind_Ok in H as (d & _ & H).
  apply bind_Ok in H as (e & _ & H). destruct (new_Http2HeaderBlockAssembler _ _) as [a|]; [|done]. injection H as <-.
  split; [intros k s; cbn; by rewrite lookup_empty|right]. unfold account. cbn.
  enough (0 <= connectionWindowSize o) by (change (total held ∅) with 0; lia). revert Ho. unfold normalizeOptions. cbv zeta.
  intros ([] & _ & Ho)%bind_Ok. apply bind_Ok in Ho as ([] & _ & Ho). apply bind_Ok in Ho as ([] & Hw & Ho).
  do 7 (apply bind_Ok in Ho as (? & _ & Ho)). injection Ho as <-. cbn [connectionWindowSize] in *. revert Hw.
  unfold requireInteger, throw_if, HTTP2_DEFAULT_WINDOW_SIZE. case_match; [done|]. lia.
Qed.

(** A stream never holds more bytes than it owes credit for. *)
Lemma buffered_held s : queue_ok s -> buffered s <= held s.
Proof.
  intros Q. assert (H : forall l, Forall item_ok l -> foldr (fun item n => item_bytes item + n) 0 l <= items_flow l).
  { induction 1 as [|i l Hi _ IH]; [done|]. change (items_flow (i :: l)) with (item_flow i + items_flow l).
    change (foldr (fun item n => item_bytes item + n) 0 (i :: l)) with (item_bytes i + foldr (fun item n => item_bytes item + n) 0 l).
    unfold item_ok in Hi. lia. }
  unfold buffered, held, taken. specialize (H _ (queued_ok s Q)). pose proof (q_taken s Q) as Ht.
  unfold item_ok in Ht. destruct (pulling s); lia.
Qed.

Lemma lost_by_nonneg c e : queues_ok c -> 0 <= lost_by c e.
Proof.
  intros Q. destruct e; try done. cbn. destruct (objects c !! id) as [s|] eqn:Es; [|done]. pose proof (q_taken s (Q id s Es)) as Ht.
  destruct (pulling s); try done. destruct (bodyState s); [done|by apply item_flow_nonneg..].
Qed.

Lemma lost_nonneg es : forall credit size c, (forall id, 0 <= credit id) -> send_ok credit c -> recv_ok size c -> 0 <= lost c es.
Proof.
  induction es as [|e es IH]; intros credit size c Hcr S R; [done|].
  change (lost c (e :: es)) with (lost_by c e + lost (step c e) es). pose proof (lost_by_nonneg c e (proj1 R)).
  assert (0 <= lost (step c e) es); [|lia]. apply (IH (more credit e) (size - lost_by c e)).
  - intros id. unfold more. pose proof (increment_nonneg id e). specialize (Hcr id). lia.
  - by apply step_send_ok.
  - by eapply step_recv_ok.
Qed.

(** ** The property *)

(** C5: the memory that a peer can fill is bounded, and its window is paid back.
    Whatever frames the peer sends and in whatever order bodies are read, cancelled
    or left alone, until the connection ends its window and the credit owed for
    what streams hold and for what cancelled reads lost make up
    [connectionWindowSize]: what was consumed is paid back, and the bytes buffered by
    all streams, open or not, never exceed that size. *)
Theorem receive_flow_control opts c0 es : new_Http2ClientConnection opts = Ok c0 ->
  let c := run c0 es in
  ends c \/
  0 <= connectionReceiveWindow c /\
  connectionReceiveWindow c + total held (objects c) + lost c0 es = connectionWindowSize (options c0) /\
  total buffered (objects c) <= total held (objects c) /\
  total buffered (objects c) <= connectionWindowSize (options c0).
Proof.
  intros H c. pose proof (initial_send_ok opts c0 H) as S. pose proof (initial_recv_ok opts c0 H) as R.
  destruct (run_recv_ok es (fun _ => 0) _ c0 ltac:(done) S R) as [Q [E|[Hw Ha]]]; [by left|right]. fold c in Q, Hw, Ha.
  pose proof (lost_nonneg es (fun _ => 0) _ c0 ltac:(done) S R) as Hl.
  assert (Hle : total buffered (objects c) <= total held (objects c)).
  { apply total_le. intros k s Hs. by apply buffered_held, (Q k). }
  unfold account in Ha. split_and!; [done|lia|done|lia].
Qed.

Lemma receive_flow_control_witness :
  new_Http2ClientConnection default_options = Ok default_connection /\
  terminating (run default_connection example_download) = false /\
  total buffered (objects (run default_connection example_download)) = 4 /\
  (ends (run default_connection example_download) \/
   0 <= connectionReceiveWindow (run default_connection example_download) /\
   connectionReceiveWindow (run default_connection example_download) + total held (objects (run default_connection example_download)) +
     lost default_connection example_download = connectionWindowSize (options default_connection) /\
   total buffered (objects (run default_connection example_download)) <= total held (objects (run default_connection example_download)) /\
   total buffered (objects (run default_connection example_download)) <= connectionWindowSize (options default_connection)).
Proof.
  assert (E : new_Http2ClientConnection default_options = Ok default_connection) by (vm_compute; reflexivity).
  split; [exact E|]. split; [vm_compute; reflexivity|]. split; [vm_compute; reflexivity|].
  exact (receive_flow_control default_options default_connection example_download E).
Defined.

(** The window that a cancelled read loses is never given back: nothing is held, the
    connection lives, and the window is smaller by the chunk. *)
Lemma cancelled_read_loses_window :
  let c := run default_connection example_cancelled in
  ~ ends c /\ total held (objects c) = 0 /\ lost default_connection example_cancelled = 3 /\
  connectionReceiveWindow c = connectionWindowSize (options c) - 3.
Proof. split; [intros [E|E]; vm_compute in E; discriminate|vm_compute; by split_and!]. Qed.
