(* ===== verification/Http2Blocks.v ===== *)
(** * Header blocks on a connection

    A header block that does not fit one frame is cut into HEADERS and CONTINUATION
    frames ([sendHeaderBlock]); the assembler of the peer ([accept]) makes the same
    block of them. *)

From S2P Require Import Prelude Encoding Effects Frame FrameTheory Http2Heap Http2Connection Http2Turns.
Local Open Scope Z_scope.

(** An assembler that accepts frames one after the other, and the blocks it yields. *)
Definition accept_next (r : list Http2HeaderBlock * Http2HeaderBlockAssembler) (f : Http2Frame)
    : result (list Http2HeaderBlock * Http2HeaderBlockAssembler) :=
  mbind (fun '(out, a) => Ok (r.1 ++ match out with Some b => [b] | None => [] end, a)) (Frame.accept r.2 f).
Definition accept_all (a : Http2HeaderBlockAssembler) (fs : list Http2Frame) : result (list Http2HeaderBlock * Http2HeaderBlockAssembler) :=
  foldM accept_next ([], a) fs.

(** The flags of a frame of a block. *)
Definition block_flags (first e last : bool) : Z :=
  (if first && e then HTTP2_FLAG_END_STREAM else 0) .| (if last then HTTP2_FLAG_END_HEADERS else 0).
Definition block_frame (first e last : bool) (id : Z) (fragment : list Z) : Http2Frame :=
  mk_frame (if first then HTTP2_FRAME_HEADERS else HTTP2_FRAME_CONTINUATION) (block_flags first e last) id fragment.

(** A block that is pending, and what it makes with the rest of its bytes. *)
Definition started (p : PendingHeaderBlock) (id : Z) : Prop :=
  pb_streamId p = id /\ pb_bytes p = len (concat (pb_fragments p)).
Definition completed (p : PendingHeaderBlock) (rest : list Z) : Http2HeaderBlock :=
  mk_block (pb_kind p) (pb_streamId p) (pb_endStream p) (pb_promisedStreamId p) (pb_priority p) (concat (pb_fragments p) ++ rest).

(** An assembler has room for more. *)
Definition room (a : Http2HeaderBlockAssembler) (p : PendingHeaderBlock) (fragments bytes : Z) : Prop :=
  len (pb_fragments p) + fragments <= maximumFragments a /\ pb_bytes p + bytes <= maximumBytes a.

(** The number of frames for [n] bytes. *)
Definition frame_count (maximum n : Z) : Z := Z.max 1 ((n + maximum - 1) / maximum).

Lemma frame_count_one m n : 1 <= m -> 0 <= n <= m -> frame_count m n = 1.
Proof.
  intros Hm Hn. unfold frame_count. assert ((n + m - 1) / m < 2) by (apply Z.div_lt_upper_bound; lia). lia.
Qed.
Lemma frame_count_more m n : 1 <= m -> m < n -> frame_count m n = 1 + frame_count m (n - m).
Proof.
  intros Hm Hn. unfold frame_count. replace (n + m - 1) with (n - m + m - 1 + 1 * m) by lia. rewrite Z.div_add by lia.
  assert (1 <= (n - m + m - 1) / m) by (apply Z.div_le_lower_bound; lia). lia.
Qed.

Lemma block_frame_valid first e last id fragment m : HTTP2_DEFAULT_FRAME_SIZE <= m <= HTTP2_MAX_FRAME_SIZE ->
  1 <= id <= HTTP2_MAX_WINDOW_SIZE -> len fragment <= m -> frame_valid (block_frame first e last id fragment) m.
Proof.
  intros Hm Hid Hf. split; [by destruct first|by destruct first, e, last|cbn; lia|done|done|].
  assert (Hz : (id =? 0) = false) by lia.
  destruct first; [|unfold validate_payload, requireStreamFrame; cbn; by rewrite Hz].
  unfold validate_payload, parseHttp2Headers, requireStreamFrame, paddedRange. cbn [fr_type fr_streamId fr_payload block_frame].
  rewrite Hz. assert (Hp : has_flag (block_frame true e last id fragment) HTTP2_FLAG_PADDED = false) by by destruct e, last.
  assert (Hq : has_flag (block_frame true e last id fragment) HTTP2_FLAG_PRIORITY = false) by by destruct e, last.
  rewrite Hp, Hq. assert (E : (len fragment - 0 <? 0) = false) by (apply Z.ltb_ge; unfold len; lia). cbn. by rewrite E.
Qed.

Lemma start_block_frame e last id fragment : 1 <= id ->
  start_block (block_frame true e last id fragment) = Ok (mk_pending kind_headers id e None None [] 0, fragment).
Proof.
  intros Hid. assert (Hz : (id =? 0) = false) by lia.
  unfold start_block, parseHttp2Headers, requireStreamFrame, paddedRange. cbn [fr_type fr_streamId fr_payload block_frame].
  rewrite Hz. assert (Hp : has_flag (block_frame true e last id fragment) HTTP2_FLAG_PADDED = false) by by destruct e, last.
  assert (Hq : has_flag (block_frame true e last id fragment) HTTP2_FLAG_PRIORITY = false) by by destruct e, last.
  assert (He : has_flag (block_frame true e last id fragment) HTTP2_FLAG_END_STREAM = e) by by destruct e, last.
  rewrite Hp, Hq, He. cbn. assert (Hn : (len fragment - 0 <? 0) = false) by (apply Z.ltb_ge; unfold len; lia). rewrite Hn. cbn.
  unfold subarray. rewrite drop_0, take_ge; [done|]. unfold len. lia.
Qed.

Lemma append_room a p fragment : room a p 1 (len fragment) -> Frame.append a p fragment = Ok (with_fragment p fragment).
Proof.
  intros [H1 H2]. unfold Frame.append, throw_if.
  assert (E1 : (maximumFragments a <=? len (pb_fragments p)) = false) by lia.
  assert (E2 : (maximumBytes a - pb_bytes p <? len fragment) = false) by lia. by rewrite E1, E2.
Qed.

Lemma finish_bytes p : pb_bytes p = len (concat (pb_fragments p)) -> Frame.finish p = Ok (completed p []).
Proof. intros H. unfold Frame.finish. rewrite concatBytes_chunks by done. unfold completed. by rewrite app_nil_r. Qed.

Lemma accept_block_frame (first e last : bool) id fragment a p : 1 <= id <= HTTP2_MAX_WINDOW_SIZE ->
  len fragment <= HTTP2_MAX_FRAME_SIZE -> started p id -> room a p 1 (len fragment) ->
  as_pending a = (if first then None else Some p) ->
  (first = true -> p = mk_pending kind_headers id e None None [] 0) ->
  Frame.accept a (block_frame first e last id fragment) =
  if last then Ok (Some (completed (with_fragment p fragment) []), set_pending a None)
  else Ok (None, set_pending a (Some (with_fragment p fragment))).
Proof.
  intros Hid Hf [Hs Hb] Hr Ha Hp.
  assert (Hv : validateHttp2Frame (block_frame first e last id fragment) HTTP2_MAX_FRAME_SIZE = Ok tt).
  { apply validate_iff, block_frame_valid; [done|done|done]. }
  assert (Hend : has_flag (block_frame first e last id fragment) HTTP2_FLAG_END_HEADERS = last) by by destruct first, e, last.
  assert (Hfin : Frame.finish (with_fragment p fragment) = Ok (completed (with_fragment p fragment) [])).
  { apply finish_bytes. cbn. rewrite concat_app, len_app, Hb. cbn. by rewrite app_nil_r. }
  assert (Hset : first = true -> set_pending a None = a) by (intros ->; destruct a; cbn in *; by subst).
  unfold Frame.accept. rewrite Hv, Ha, Hend. destruct first.
  - cbn [fr_type block_frame]. change (HTTP2_FRAME_HEADERS =? HTTP2_FRAME_HEADERS) with true. cbn [mbind result_bind keep_stream_error].
    rewrite start_block_frame by lia. cbn. rewrite <- Hp by done. rewrite append_room by done. cbn [mbind result_bind].
    destruct last; [|done]. rewrite Hfin. cbn [mbind result_bind]. by rewrite Hset.
  - cbn [fr_type fr_streamId fr_payload block_frame]. change (HTTP2_FRAME_CONTINUATION =? HTTP2_FRAME_HEADERS) with false.
    change (HTTP2_FRAME_CONTINUATION =? HTTP2_FRAME_CONTINUATION) with true. rewrite Hs, Z.eqb_refl. cbn [mbind result_bind negb orb throw_if].
    rewrite append_room by done. cbn [mbind result_bind]. destruct last; cbn [negb]; [|done]. by rewrite Hfin.
Qed.

Lemma header_frames_S fuel maximum id block e offset first : header_frames (S fuel) maximum id block e offset first =
  let e1 := Z.min (offset + maximum) (len block) in
  let f := block_frame first e (e1 =? len block) id (subarray block offset e1) in
  if e1 <? len block then fmap (cons f) (header_frames fuel maximum id block e e1 false) else Ok [f].
Proof. done. Qed.

Lemma accept_next_run outs a f : accept_next (outs, a) f =
  mbind (fun '(out, a) => Ok (outs ++ match out with Some b => [b] | None => [] end, a)) (Frame.accept a f).
Proof. done. Qed.

Lemma set_pending_twice a p q : set_pending (set_pending a p) q = set_pending a q.
Proof. done. Qed.

Lemma completed_more p fragment rest : completed (with_fragment p fragment) rest = completed p (fragment ++ rest).
Proof. unfold completed. cbn. by rewrite concat_app, <- app_assoc; cbn; rewrite app_nil_r. Qed.

Lemma subarray_then_drop {A} (l : list A) s e : 0 <= s <= e -> subarray l s e ++ drop (Z.to_nat e) l = drop (Z.to_nat s) l.
Proof.
  intros H. unfold subarray. rewrite <- (take_drop (Z.to_nat (e - s)) (drop (Z.to_nat s) l)) at 2. f_equal.
  rewrite drop_drop. f_equal. lia.
Qed.

Section Split.
Context (maximum id : Z) (block : list Z) (e : bool).
Context (Hmax : HTTP2_DEFAULT_FRAME_SIZE <= maximum <= HTTP2_MAX_FRAME_SIZE) (Hid : 1 <= id <= HTTP2_MAX_WINDOW_SIZE).

Lemma header_frames_spec fuel : forall offset first p, 0 <= offset <= len block -> len block - offset < Z.of_nat fuel ->
  started p id -> (first = true -> p = mk_pending kind_headers id e None None [] 0) ->
  exists fs, header_frames fuel maximum id block e offset first = Ok fs /\
    concat (map fr_payload fs) = drop (Z.to_nat offset) block /\ len fs = frame_count maximum (len block - offset) /\
    Forall (fun f => fr_streamId f = id /\ frame_valid f maximum) fs /\
    forall a outs, room a p (len fs) (len block - offset) -> as_pending a = (if first then None else Some p) ->
      foldM accept_next (outs, a) fs = Ok (outs ++ [completed p (drop (Z.to_nat offset) block)], set_pending a None).
Proof using Hmax Hid.
  induction fuel as [|fuel IH]; intros offset first p Ho Hf Hs Hp; [lia|]. rewrite header_frames_S. cbv zeta.
  set (e1 := Z.min (offset + maximum) (len block)). set (fragment := subarray block offset e1).
  assert (Hm : 1 <= maximum) by (unfold HTTP2_DEFAULT_FRAME_SIZE in Hmax; lia).
  assert (He1 : offset <= e1 <= len block) by lia.
  assert (Hlen : len fragment = e1 - offset).
  { unfold fragment, subarray, len in *. rewrite length_take, length_drop. lia. }
  assert (Hvalid : forall last, fr_streamId (block_frame first e last id fragment) = id /\ frame_valid (block_frame first e last id fragment) maximum).
  { intros last. split; [done|]. apply block_frame_valid; [done|done|lia]. }
  assert (Hfrag : len fragment <= HTTP2_MAX_FRAME_SIZE) by lia.
  assert (Hcat : fragment ++ drop (Z.to_nat e1) block = drop (Z.to_nat offset) block) by (apply subarray_then_drop; lia).
  destruct (Z.ltb_spec e1 (len block)) as [Hlt|Hge].
  - assert (E : (e1 =? len block) = false) by lia. rewrite E.
    destruct (IH e1 false (with_fragment p fragment)) as (fs & -> & Hconcat & Hcount & Hall & Haccept); [lia|lia| |done|].
    { destruct Hs as [Hs1 Hs2]. split; [done|]. cbn. rewrite concat_app, len_app, Hs2. cbn. by rewrite app_nil_r. }
    eexists. split; [reflexivity|]. split; [cbn; by rewrite Hconcat|].
    split; [rewrite len_cons, Hcount, (frame_count_more maximum (len block - offset)) by lia; replace (len block - e1) with (len block - offset - maximum) by lia; lia|].
    split; [by constructor|].
    intros a outs [Hr1 Hr2] Ha. rewrite len_cons in Hr1. assert (0 <= len fs) by (unfold len; lia).
    rewrite foldM_cons, accept_next_run. rewrite (accept_block_frame first e false id fragment a p); try done.
    2: { split; lia. }
    cbn [mbind result_bind]. rewrite app_nil_r. rewrite Haccept; [|split; cbn; rewrite ?len_app; change (len [fragment]) with 1; lia|done].
    by rewrite set_pending_twice, completed_more, Hcat.
  - assert (E : e1 = len block) by lia. rewrite E, Z.eqb_refl, <- E. eexists. split; [reflexivity|].
    assert (Hnil : drop (Z.to_nat e1) block = []). { rewrite E. apply drop_ge. unfold len. lia. }
    rewrite Hnil, app_nil_r in Hcat. split; [cbn; by rewrite app_nil_r|].
    split; [rewrite frame_count_one; [done|lia|lia]|]. split; [by constructor|].
    intros a outs [Hr1 Hr2] Ha. change (len [_]) with 1 in Hr1.
    rewrite foldM_cons, accept_next_run. rewrite (accept_block_frame first e true id fragment a p); try done.
    2: { split; lia. }
    cbn [mbind result_bind]. by rewrite completed_more, app_nil_r, Hcat.
Qed.
End Split.

(** ** Sending *)

Lemma encode_frames m fs : Forall (fun f => frame_valid f m) fs -> forall encoded,
  foldM (encode_frame m) encoded fs = Ok (encoded ++ concat (map frame_bytes fs)).
Proof.
  induction 1 as [|f fs Hf _ IH]; intros encoded; [cbn; by rewrite app_nil_r|]. rewrite foldM_cons.
  apply encode_valid in Hf as [bytes Hb]. pose proof (encode_bytes _ _ _ Hb) as ->. unfold encode_frame at 1. rewrite Hb.
  cbn [fmap result_fmap mbind result_bind]. rewrite IH.
  change (concat (map frame_bytes (f :: fs))) with (frame_bytes f ++ concat (map frame_bytes fs)). by rewrite app_assoc.
Qed.

Lemma enqueueBytes_run fs bytes c : terminated c = false -> writeOffset c <= len (writes c) ->
  let c' := (enqueueBytes fs bytes c).1 in
  sent c' = sent c ++ fs /\ writes c' = writes c ++ [(bytes, nextPromise c)].
Proof.
  intros Ht Hw. unfold enqueueBytes, eff_bind, get_, eff_get, promise, eff_set. change (Datatypes.id c) with c. rewrite Ht.
  cbn [fst snd]. set (d := set_sent _ _). change (writing _) with (writing c). 
  assert (Hd : sent d = sent c ++ fs /\ writes d = writes c ++ [(bytes, nextPromise c)] /\ writeOffset d = writeOffset c /\ writing d = writing c) by done.
  destruct Hd as (Hs & Hwr & Ho & Hb). clearbody d. destruct (negb (writing c)) eqn:E; cbn [eff_when]; [|done].
  unfold drainWrites, eff_bind, get_, eff_get. rewrite Hb. destruct (writing c); [done|]. unfold put, eff_set, write_next, eff_set.
  change (writeOffset (set_writing true d)) with (writeOffset d). change (writes (set_writing true d)) with (writes d).
  rewrite Ho, Hwr, len_app. change (len [_]) with 1. assert (Hlt : (writeOffset c <? len (writes c) + 1) = true) by lia.
  rewrite Hlt. split; [exact Hs|exact Hwr].
Qed.

(** C8: a header block is sent as the peer will read it.  [sendHeaderBlock] queues
    the bytes of as many frames as needed that fit the peer's frame size, all of the stream,
    whose payloads are the block in order; and an assembler that has room for them yields
    exactly one block after the last of them: the block that was sent, with its
    stream and END_STREAM, and is idle again. *)
Theorem header_block_sent c id block e : HTTP2_DEFAULT_FRAME_SIZE <= remoteMaximumFrameSize c <= HTTP2_MAX_FRAME_SIZE ->
  1 <= id <= HTTP2_MAX_WINDOW_SIZE -> terminated c = false -> writeOffset c <= len (writes c) ->
  let c' := (sendHeaderBlock id block e c).1 in
  exists fs, sent c' = sent c ++ fs /\ writes c' = writes c ++ [(concat (map frame_bytes fs), nextPromise c)] /\
    concat (map fr_payload fs) = block /\ len fs = frame_count (remoteMaximumFrameSize c) (len block) /\
    Forall (fun f => fr_streamId f = id /\ frame_valid f (remoteMaximumFrameSize c)) fs /\
    forall a, as_pending a = None -> len fs <= maximumFragments a -> len block <= maximumBytes a ->
      accept_all a fs = Ok ([mk_block kind_headers id e None None block], a).
Proof.
  intros Hm Hid Ht Hw c'. destruct (header_frames_spec (remoteMaximumFrameSize c) id block e Hm Hid (S (length block)) 0 true
    (mk_pending kind_headers id e None None [] 0)) as (fs & E & Hconcat & Hcount & Hall & Haccept);
    [unfold len; lia|unfold len; lia|done|done|].
  exists fs. subst c'. unfold sendHeaderBlock, eff_bind, get_, eff_get. change (Datatypes.id c) with c. rewrite E.
  unfold sendFrames, eff_bind, get_, eff_get. change (Datatypes.id c) with c.
  rewrite (encode_frames (remoteMaximumFrameSize c) fs); [|eapply Forall_impl; [exact Hall|by intros f [_ H]]].
  destruct (enqueueBytes_run fs ([] ++ concat (map frame_bytes fs)) c Ht Hw) as [-> ->].
  rewrite Z.sub_0_r in *. split_and!; try done.
  intros a Ha Hf Hb. unfold accept_all. rewrite Haccept; [|split; cbn [pb_fragments pb_bytes]; change (@len (list Z) []) with 0; lia|done].
  unfold completed. cbn. by destruct a; cbn in *; subst.
Qed.

Lemma header_block_sent_witness :
  let c := run default_connection example_start in
  let block := repeat 130 (Z.to_nat 20000) in
  exists fs, sent (sendHeaderBlock 1 block true c).1 = sent c ++ fs /\ len fs = 2 /\
    accept_all (mk_assembler 65536 1024 None) fs = Ok ([mk_block kind_headers 1 true None None block], mk_assembler 65536 1024 None).
Proof.
  intros c block. destruct (header_block_sent c 1 block true) as (fs & Hs & _ & _ & Hn & _ & Ha).
  - by_computing.
  - by_computing.
  - by vm_compute.
  - by_computing.
  - assert (H2 : len fs = 2) by (rewrite Hn; by vm_compute).
    exists fs. split; [exact Hs|]. split; [exact H2|]. apply Ha; [done|rewrite H2; by_computing|by_computing].
Defined.
