(* ===== verification/Http2Traverse.v ===== *)
(** * Traversing the methods of a connection

    A relation between heaps that the few turns which move slots, streams and
    GOAWAY keep, and that no assignment of the other fields breaks, is kept by
    every method built from them.  [Turnwise] states what such a relation has to
    promise; the lemmas below give the rest, so that an invariant of the slots or
    of the shutdown is proved where it is at stake and nowhere else. *)

From stdpp Require Import gmap.
From S2P Require Import Prelude Effects Hpack Frame HeaderRules Http2Heap Http2Connection Http2Turns Http2Send Http2Receive.
Local Open Scope Z_scope.
Local Open Scope turn_scope.

(** The streams whose HEADERS were sent, in order. *)
Definition opened (fs : list Http2Frame) : list Z := map fr_streamId (filter (fun f => fr_type f = HTTP2_FRAME_HEADERS) fs).

(** The fields that slots, stream identifiers and the shutdown are about. *)
Definition outline (c : Http2ClientConnection) :=
  (remoteMaximumConcurrentStreams c, (draining c, terminating c, terminated c, localGoAwaySent c, remoteGoAwayReceived c),
   (nextStreamId c, highestOpenedStreamId c, options c, drains c, opened (sent c))).
Definition core (c : Http2ClientConnection) := (streams c, slotWaiters c, slotOffset c, reservedSlots c, outline c).

Class Turnwise (R : Http2ClientConnection -> Http2ClientConnection -> Prop) : Prop := {
  tw_preorder :: PreOrder R;
  tw_same c c' : core c' = core c -> R c c';
  tw_ends c c' : evolves c c' -> ends c' -> R c c';
  tw_wake : does R wakeSlotWaiters;
  tw_state id : does R (streamStateChanged id);
}.

Create HintDb turnwise.
#[export] Hint Resolve tw_wake tw_state : turnwise.

Section Turnwise.
Context {R : Http2ClientConnection -> Http2ClientConnection -> Prop} {HR : Turnwise R}.

Lemma tw_sent c fs : opened fs = [] -> R c (set_sent (sent c ++ fs) c).
Proof using HR.
  intros H. apply tw_same. unfold core, outline. cbn. repeat f_equal. unfold opened in *. by rewrite filter_app, map_app, H, app_nil_r.
Qed.

Ltac turnwise_from :=
  match goal with
  | H : R ?c ?d |- R ?c ?d => exact H
  | |- R ?c ?c => reflexivity
  | |- R ?c (set_sent (sent ?d ++ _) ?d) => transitivity d; [turnwise_from|apply tw_sent; assumption]
  | |- R ?c (set_objects (alter _ _ (objects ?d)) ?d) => transitivity d; [turnwise_from|apply tw_same; reflexivity]
  | |- R ?c (_ _ ?d) => transitivity d; [turnwise_from|apply tw_same; reflexivity]
  end.
Ltac turnwise := intros ?; repeat exec_step ltac:(fun _ => turnwise_from) ltac:(fun _ => solve [eauto 12 with turnwise]); try turnwise_from.

Lemma promise_turnwise r : does R (promise r).
Proof using HR. intros c. unfold promise. cbn. destruct r; by apply tw_same. Qed.
Lemma settle_turnwise p r : does R (settle p r).
Proof using HR. intros c. cbn. unfold settle, eff_set. cbn. destruct (promises c !! p); by apply tw_same. Qed.
Lemma write_next_turnwise : does R write_next.
Proof using HR. intros c. unfold write_next, eff_set. cbn. destruct (writeOffset c <? len (writes c)); by apply tw_same. Qed.
Local Hint Resolve promise_turnwise settle_turnwise write_next_turnwise : turnwise.
Lemma drainWrites_turnwise : does R drainWrites.
Proof using HR. unfold drainWrites. turnwise. Qed.
Local Hint Resolve drainWrites_turnwise : turnwise.
Lemma enqueueBytes_turnwise fs bytes : opened fs = [] -> does R (enqueueBytes fs bytes).
Proof using HR. intros Hfs. unfold enqueueBytes. turnwise. Qed.
Local Hint Resolve enqueueBytes_turnwise : turnwise.
Lemma sendFrame_turnwise t flags id payload : (t =? HTTP2_FRAME_HEADERS) = false -> does R (sendFrame (mk_frame t flags id payload)).
Proof using HR.
  intros Ht. assert (opened [mk_frame t flags id payload] = []).
  { unfold opened. rewrite filter_cons, decide_False; [done|]. cbn. lia. }
  unfold sendFrame. turnwise.
Qed.
Local Hint Extern 1 (does _ (sendFrame (mk_frame _ _ _ _))) => apply sendFrame_turnwise; reflexivity : turnwise.
Lemma send_with_turnwise t flags id payload : (t =? HTTP2_FRAME_HEADERS) = false -> does R (send_with t flags id payload).
Proof using HR. intros Ht. assert (forall p, does R (sendFrame (mk_frame t flags id p))) by (intros p; by apply sendFrame_turnwise). unfold send_with. turnwise. Qed.
Local Hint Extern 1 (does _ (send_with _ _ _ _)) => apply send_with_turnwise; reflexivity : turnwise.
Lemma notifyFlowChange_turnwise : does R notifyFlowChange.
Proof using HR. unfold notifyFlowChange. turnwise. Qed.
Lemma change_turnwise id f : does R (change id f).
Proof using HR. intros c. apply tw_same. reflexivity. Qed.
Local Hint Resolve notifyFlowChange_turnwise change_turnwise : turnwise.
Lemma pushIncoming_turnwise id item : does R (pushIncoming id item).
Proof using HR. apply change_turnwise. Qed.
Lemma finishApplication_turnwise id : does R (finishApplication id).
Proof using HR. apply change_turnwise. Qed.
Lemma settleTrailers_turnwise id fields : does R (settleTrailers id fields).
Proof using HR. apply change_turnwise. Qed.
Lemma terminate_with_turnwise credit reason code b : (forall n, does evolves (credit n)) -> does R (terminate_with credit reason code b).
Proof using HR. intros Hc c. apply tw_ends; [by apply terminate_with_evolves|by apply terminate_with_ends]. Qed.
Lemma terminate_turnwise reason code b : does R (terminate reason code b).
Proof using HR. apply terminate_with_turnwise. eauto with evolves. Qed.
Local Hint Resolve pushIncoming_turnwise finishApplication_turnwise settleTrailers_turnwise terminate_turnwise : turnwise.
Lemma returnConnectionCredit_turnwise n : does R (returnConnectionCredit n).
Proof using HR.
  intros c. rewrite returnConnectionCredit_run. destruct (_ || _); [reflexivity|].
  destruct (_ <? _); [apply terminate_with_turnwise, (credit_at_evolves 1)|].
  transitivity (set_connectionReceiveWindow (connectionReceiveWindow c + n) c); [by apply tw_same|].
  match goal with |- R ?d (?m ?d).1 => assert (H : does R m) by turnwise; apply H end.
Qed.
Local Hint Resolve returnConnectionCredit_turnwise : turnwise.
Lemma finishDrainIfIdle_turnwise : does R finishDrainIfIdle.
Proof using HR. unfold finishDrainIfIdle. turnwise. Qed.
Lemma discardIncoming_turnwise id : does R (discardIncoming id).
Proof using HR. unfold discardIncoming, discard_with. turnwise. Qed.
Local Hint Resolve discardIncoming_turnwise : turnwise.
Lemma fail_turnwise id reason : does R (fail id reason).
Proof using HR. unfold fail, fail_with. change (discard_with returnConnectionCredit id) with (discardIncoming id). turnwise. Qed.
Local Hint Resolve fail_turnwise : turnwise.
Lemma resetStream_turnwise id code message : does R (resetStream id code message).
Proof using HR. unfold resetStream. turnwise. Qed.
Local Hint Resolve resetStream_turnwise : turnwise.
Lemma cancelStream_turnwise id reason : does R (cancelStream id reason).
Proof using HR. unfold cancelStream. turnwise. Qed.
Local Hint Resolve cancelStream_turnwise : turnwise.
Lemma returnReceiveCredit_turnwise id n : does R (returnReceiveCredit id n).
Proof using HR. unfold returnReceiveCredit. turnwise. Qed.
Local Hint Resolve returnReceiveCredit_turnwise : turnwise.
Lemma peerReset_turnwise id code : does R (peerReset id code).
Proof using HR. unfold peerReset. turnwise. Qed.
Local Hint Resolve peerReset_turnwise : turnwise.
Lemma markLocalEnd_turnwise id : does R (markLocalEnd id).
Proof using HR. unfold markLocalEnd. turnwise. Qed.
Local Hint Resolve markLocalEnd_turnwise : turnwise.
Lemma receiveEnd_turnwise id : does R (receiveEnd id).
Proof using HR. unfold receiveEnd. turnwise. Qed.
Local Hint Resolve receiveEnd_turnwise : turnwise.
Lemma handleHeaders_turnwise id parsed e : does R (handleHeaders id parsed e).
Proof using HR. unfold handleHeaders. turnwise. Qed.
Local Hint Resolve handleHeaders_turnwise : turnwise.
Lemma handleTrailers_turnwise id fields e : does R (handleTrailers id fields e).
Proof using HR. unfold handleTrailers. turnwise. Qed.
Local Hint Resolve handleTrailers_turnwise : turnwise.
Lemma receiveData_turnwise id data n e : does R (receiveData id data n e).
Proof using HR. unfold receiveData. turnwise. Qed.
Local Hint Resolve receiveData_turnwise : turnwise.
Lemma findStream_turnwise id name : does R (findStream id name).
Proof using HR. unfold findStream. turnwise. Qed.
Local Hint Resolve findStream_turnwise : turnwise.
Lemma sendClosedStreamReset_turnwise id : does R (sendClosedStreamReset id).
Proof using HR. unfold sendClosedStreamReset. turnwise. Qed.
Local Hint Resolve sendClosedStreamReset_turnwise : turnwise.
Lemma decode_block_turnwise b : does R (decode_block b).
Proof using HR. unfold decode_block. turnwise. Qed.
Local Hint Resolve decode_block_turnwise : turnwise.
Lemma handleHeaderBlock_turnwise b : does R (handleHeaderBlock b).
Proof using HR. unfold handleHeaderBlock. turnwise. Qed.
Local Hint Resolve handleHeaderBlock_turnwise : turnwise.
Lemma handleData_turnwise f : does R (handleData f).
Proof using HR. unfold handleData. turnwise. Qed.
Local Hint Resolve handleData_turnwise : turnwise.
Lemma handleReset_turnwise f : does R (handleReset f).
Proof using HR. unfold handleReset. turnwise. Qed.
Local Hint Resolve handleReset_turnwise : turnwise.
Lemma accept_block_turnwise f : does R (accept_block f).
Proof using HR. unfold accept_block. turnwise. Qed.
Local Hint Resolve accept_block_turnwise : turnwise.
Lemma handlePing_turnwise f : does R (handlePing f).
Proof using HR. unfold handlePing. turnwise. Qed.
Local Hint Resolve handlePing_turnwise : turnwise.
Lemma shift_window_turnwise d id : does R (shift_window d id).
Proof using HR. unfold shift_window. turnwise. Qed.
Local Hint Resolve shift_window_turnwise : turnwise.
Lemma apply_initial_window_turnwise v : does R (apply_initial_window v).
Proof using HR.
  assert (forall d, does R (each_stream (shift_window d))) by (intros d; apply each_stream_does; [apply _|]; intros id; apply shift_window_turnwise).
  unfold apply_initial_window. turnwise.
Qed.
Local Hint Resolve apply_initial_window_turnwise : turnwise.
Lemma handleWindowUpdate_turnwise f : does R (handleWindowUpdate f).
Proof using HR. unfold handleWindowUpdate. turnwise. Qed.
Lemma refuse_above_turnwise last id : does R (refuse_above last id).
Proof using HR. unfold refuse_above. turnwise. Qed.
Local Hint Resolve handleWindowUpdate_turnwise refuse_above_turnwise : turnwise.
Lemma read_next_turnwise : does R read_next.
Proof using HR. intros c. unfold read_next, eff_set. cbn. by apply tw_same. Qed.
Lemma reader_catch_turnwise e : does R (reader_catch e).
Proof using HR. unfold reader_catch. turnwise. Qed.
Lemma frame_catch_turnwise e : does R (frame_catch e).
Proof using HR. unfold frame_catch. turnwise. Qed.
Local Hint Resolve read_next_turnwise reader_catch_turnwise frame_catch_turnwise : turnwise.
Lemma bind_turnwise {A B} (m : Turn A) (k : A -> Turn B) : does R m -> (forall a, does R (k a)) -> does R (eff_bind m k).
Proof using HR. intros Hm Hk. by apply does_bind; [apply _|..]. Qed.
Lemma catch_turnwise {A} (m : Turn A) h : does R m -> (forall e, does R (h e)) -> does R (eff_catch m h).
Proof using HR. intros Hm Hh. by apply does_catch; [apply _|..]. Qed.
Lemma ret_turnwise {A} (a : A) : does R (eff_ret a : Turn A).
Proof using HR. apply does_ret. apply _. Qed.
Lemma throw_turnwise {A} e : does R (eff_throw e : Turn A).
Proof using HR. apply does_throw. apply _. Qed.
Lemma lift_turnwise {A} (r : result A) : does R (eff_lift r : Turn A).
Proof using HR. apply does_lift. apply _. Qed.
Lemma when_turnwise b (m : Turn unit) : does R m -> does R (eff_when b m).
Proof using HR. intros Hm. apply does_when; [apply _|done]. Qed.
Lemma each_turnwise {A} (f : A -> Turn unit) l : (forall a, does R (f a)) -> does R (eff_each f l).
Proof using HR. intros Hf. apply does_each; [apply _|done]. Qed.
Local Hint Resolve bind_turnwise catch_turnwise ret_turnwise throw_turnwise lift_turnwise when_turnwise each_turnwise : turnwise.
Local Hint Extern 2 (does _ (match ?b with _ => _ end)) => destruct b : turnwise.
Lemma reader_after_turnwise : does R reader_after.
Proof using HR. unfold reader_after. turnwise. Qed.
Local Hint Resolve reader_after_turnwise : turnwise.
Lemma reader_resume_turnwise : does R reader_resume.
Proof using HR. unfold reader_resume. turnwise. Qed.
Lemma start_turnwise : does R start.
Proof using HR. 
  assert (forall a b o, opened (mk_frame HTTP2_FRAME_SETTINGS 0 0 a :: (if HTTP2_DEFAULT_WINDOW_SIZE <? connectionWindowSize o
    then [mk_frame HTTP2_FRAME_WINDOW_UPDATE 0 0 b] else [])) = []).
  { intros a b o. by destruct (HTTP2_DEFAULT_WINDOW_SIZE <? connectionWindowSize o). }
  unfold start. turnwise. Qed.
Lemma close_turnwise reason : does R (close reason).
Proof using HR.
  intros c. pose proof (close_evolves reason c) as He. revert He.
  unfold close, eff_bind, get_, eff_get, put, eff_set. destruct (_ || _); [intros _; reflexivity|]. intros He.
  apply tw_ends; [exact He|apply terminate_ends].
Qed.
Lemma write_resume_turnwise r : does R (write_resume r).
Proof using HR. unfold write_resume. turnwise. Qed.
Lemma become_turnwise k st : does R (become k st).
Proof using HR. intros c. by apply tw_same. Qed.
Local Hint Resolve reader_resume_turnwise start_turnwise write_resume_turnwise become_turnwise : turnwise.
Lemma request_turnwise k q aborted : does R (request k q aborted).
Proof using HR. unfold request. turnwise. Qed.
Lemma throwIfAborted_turnwise r : does R (throwIfAborted r).
Proof using HR. unfold throwIfAborted. turnwise. Qed.
Lemma request_catch_turnwise k e : does R (request_catch k e).
Proof using HR. unfold request_catch. eauto with turnwise. Qed.
Local Hint Resolve request_turnwise throwIfAborted_turnwise request_catch_turnwise : turnwise.
Lemma attachSignal_turnwise id r : does R (attachSignal id r).
Proof using HR. unfold attachSignal. turnwise. Qed.
Local Hint Resolve attachSignal_turnwise : turnwise.
Lemma upload_to_turnwise id st : does R (upload_to id st).
Proof using HR. unfold upload_to. turnwise. Qed.
Lemma upload_finish_turnwise id : does R (upload_finish id).
Proof using HR. unfold upload_finish. turnwise. Qed.
Lemma acceptSendBytes_turnwise id n : does R (acceptSendBytes id n).
Proof using HR. unfold acceptSendBytes. turnwise. Qed.
Lemma verifySendComplete_turnwise id : does R (verifySendComplete id).
Proof using HR. unfold verifySendComplete. turnwise. Qed.
Lemma cannot_send_turnwise c s : does R (cannot_send c s).
Proof using HR. unfold cannot_send. turnwise. Qed.
Local Hint Resolve upload_to_turnwise upload_finish_turnwise acceptSendBytes_turnwise verifySendComplete_turnwise cannot_send_turnwise : turnwise.
Lemma upload_catch_turnwise id e : does R (upload_catch id e).
Proof using HR. unfold upload_catch. turnwise. Qed.
Lemma waitForFlowChange_turnwise id : does R (waitForFlowChange id).
Proof using HR. unfold waitForFlowChange. turnwise. Qed.
Lemma reserveSendCapacity_turnwise id n : does R (reserveSendCapacity id n).
Proof using HR. unfold reserveSendCapacity. turnwise. Qed.
Lemma upload_next_turnwise id : does R (upload_next id).
Proof using HR. unfold upload_next. turnwise. Qed.
Lemma upload_complete_turnwise id : does R (upload_complete id).
Proof using HR. unfold upload_complete. turnwise. Qed.
Local Hint Resolve upload_catch_turnwise waitForFlowChange_turnwise reserveSendCapacity_turnwise upload_next_turnwise upload_complete_turnwise : turnwise.
Lemma upload_reserve_turnwise id chunk offset : does R (upload_reserve id chunk offset).
Proof using HR. unfold upload_reserve. turnwise. Qed.
Local Hint Resolve upload_reserve_turnwise : turnwise.
Lemma upload_send_turnwise id chunk offset : does R (upload_send id chunk offset).
Proof using HR. unfold upload_send. turnwise. Qed.
Local Hint Resolve upload_send_turnwise : turnwise.
Lemma upload_read_turnwise id r : does R (upload_read id r).
Proof using HR. unfold upload_read. turnwise. Qed.
Lemma upload_resume_turnwise id : does R (upload_resume id).
Proof using HR. unfold upload_resume. turnwise. Qed.
Lemma sendRequestBody_turnwise id : does R (sendRequestBody id).
Proof using HR. unfold sendRequestBody. turnwise. Qed.
Local Hint Resolve upload_read_turnwise upload_resume_turnwise sendRequestBody_turnwise : turnwise.
Lemma request_opened_turnwise k : does R (request_opened k).
Proof using HR. unfold request_opened. turnwise. Qed.
Lemma pullBody_turnwise id : does R (pullBody id).
Proof using HR. apply change_turnwise. Qed.
Lemma enqueue_body_turnwise id bytes : does R (enqueue_body id bytes).
Proof using HR. unfold enqueue_body. turnwise. Qed.
Lemma close_body_turnwise id : does R (close_body id).
Proof using HR. unfold close_body. turnwise. Qed.
Lemma error_body_turnwise id e : does R (error_body id e).
Proof using HR. apply change_turnwise. Qed.
Local Hint Resolve pullBody_turnwise enqueue_body_turnwise close_body_turnwise error_body_turnwise : turnwise.
Lemma pull_resume_turnwise id : does R (pull_resume id).
Proof using HR. unfold pull_resume. turnwise. Qed.
Lemma cancelBody_turnwise id reason : does R (cancelBody id reason).
Proof using HR. unfold cancelBody. turnwise. Qed.
End Turnwise.

#[export] Hint Extern 0 (Turnwise _) => apply _ : turnwise.
#[export] Hint Resolve promise_turnwise settle_turnwise write_next_turnwise drainWrites_turnwise
  notifyFlowChange_turnwise change_turnwise pushIncoming_turnwise finishApplication_turnwise
  settleTrailers_turnwise terminate_turnwise returnConnectionCredit_turnwise finishDrainIfIdle_turnwise discardIncoming_turnwise
  fail_turnwise resetStream_turnwise cancelStream_turnwise returnReceiveCredit_turnwise peerReset_turnwise
  markLocalEnd_turnwise receiveEnd_turnwise handleHeaders_turnwise handleTrailers_turnwise receiveData_turnwise
  findStream_turnwise sendClosedStreamReset_turnwise decode_block_turnwise handleHeaderBlock_turnwise
  handleData_turnwise handleReset_turnwise accept_block_turnwise handlePing_turnwise shift_window_turnwise
  apply_initial_window_turnwise handleWindowUpdate_turnwise refuse_above_turnwise read_next_turnwise
  reader_catch_turnwise frame_catch_turnwise bind_turnwise catch_turnwise ret_turnwise throw_turnwise
  lift_turnwise when_turnwise each_turnwise reader_after_turnwise reader_resume_turnwise start_turnwise
  close_turnwise write_resume_turnwise become_turnwise request_turnwise throwIfAborted_turnwise
  request_catch_turnwise attachSignal_turnwise upload_to_turnwise upload_finish_turnwise
  acceptSendBytes_turnwise verifySendComplete_turnwise cannot_send_turnwise upload_catch_turnwise
  waitForFlowChange_turnwise reserveSendCapacity_turnwise upload_next_turnwise upload_complete_turnwise
  upload_reserve_turnwise upload_send_turnwise upload_read_turnwise upload_resume_turnwise
  sendRequestBody_turnwise request_opened_turnwise pullBody_turnwise enqueue_body_turnwise close_body_turnwise
  error_body_turnwise pull_resume_turnwise cancelBody_turnwise : turnwise.
#[export] Hint Extern 1 (does _ (sendFrame (mk_frame _ _ _ _))) => apply sendFrame_turnwise; reflexivity : turnwise.
#[export] Hint Extern 1 (does _ (send_with _ _ _ _)) => apply send_with_turnwise; reflexivity : turnwise.
#[export] Hint Extern 2 (does _ (match ?b with _ => _ end)) => destruct b : turnwise.
