(* ===== verification/Http2Slots.v ===== *)
(** * Slots, stream identifiers and the shutdown of a connection

    A request opens its stream in a slot; the peer limits the slots, and requests
    wait in [slotWaiters] while none is free.  The file shows that no request waits
    while a slot is free, that the limit is kept, that streams are opened with
    ascending odd identifiers and none once the connection drains, and that a
    connection that said or heard GOAWAY ends with its last stream. *)

From Stdlib Require Import Sorted.
From stdpp Require Import gmap.
From S2P Require Import Prelude Effects Hpack Frame HeaderRules Http2Heap Http2Connection Http2Turns Http2Send Http2Receive Http2Traverse.
Local Open Scope Z_scope.
Local Open Scope turn_scope.

(** ** The invariant *)

Definition waits (w : SlotWaiter) : Prop := w_active w = true.

(** The slots in use: open streams, and requests between the two. *)
Definition used (c : Http2ClientConnection) : Z := len (streams c) + reservedSlots c.

(** GOAWAY was sent or received. *)
Definition said_goodbye (c : Http2ClientConnection) : bool := localGoAwaySent c || remoteGoAwayReceived c.

(** What holds even while a method runs. *)
Record slots_weak (c : Http2ClientConnection) : Prop := {
  sl_waits : Forall waits (pending_waiters c);
  sl_offset : 0 <= slotOffset c;
  sl_drains : drains c <> [] -> draining c = true;
  sl_goodbye : said_goodbye c = true -> draining c = true;
  sl_next : highestOpenedStreamId c < nextStreamId c /\ 1 <= nextStreamId c /\ Z.odd (nextStreamId c) = true;
  sl_opened : Forall (fun id => 1 <= id <= highestOpenedStreamId c /\ Z.odd id = true) (opened (sent c));
  sl_sorted : StronglySorted Z.lt (opened (sent c));
}.

(** No request waits for a free slot. *)
Definition nobody_starves (c : Http2ClientConnection) : Prop := slot_free c = true -> pending_waiters c = [].

(** Not idle after GOAWAY. *)
Definition not_idle (c : Http2ClientConnection) : Prop := said_goodbye c = true -> streams c <> [].

Record slots_ok (c : Http2ClientConnection) : Prop := {
  sl_weak : slots_weak c;
  sl_free : nobody_starves c;
  sl_idle : not_idle c;
}.
Definition orderly (c : Http2ClientConnection) : Prop := ends c \/ slots_ok c.

(** What most methods do to the slots: none is opened, and none is taken beyond the
    limit. *)
Record settled_slots (c c' : Http2ClientConnection) : Prop := {
  ss_limit : remoteMaximumConcurrentStreams c' = remoteMaximumConcurrentStreams c;
  ss_used : used c' <= used c \/ used c' <= remoteMaximumConcurrentStreams c';
  ss_opened : opened (sent c') = opened (sent c);
  ss_next : nextStreamId c' = nextStreamId c;
  ss_highest : highestOpenedStreamId c' = highestOpenedStreamId c;
}.
Record keeps_slots (c c' : Http2ClientConnection) : Prop := {
  ks_orderly : orderly c -> orderly c';
  ks_ends : ends c -> ends c';
  ks_draining : draining c = true -> draining c' = true;
  ks_streams : streams c' `sublist_of` streams c;
  ks_settled : orderly c -> ends c' \/ settled_slots c c';
}.

Definition used_ok (c c' : Http2ClientConnection) : Prop :=
  remoteMaximumConcurrentStreams c' = remoteMaximumConcurrentStreams c /\
  (used c' <= used c \/ used c' <= remoteMaximumConcurrentStreams c').

(** The same for every method; [strict] for those that do not change the limit. *)
Record within (strict : bool) (c c' : Http2ClientConnection) : Prop := {
  wi_orderly : orderly c -> orderly c';
  wi_ends : ends c -> ends c';
  wi_streams : draining c = true -> draining c' = true /\ streams c' `sublist_of` streams c;
  wi_used : strict = true -> orderly c -> ends c' \/ used_ok c c';
}.

(** What [within] asks of a heap that does not end. *)
Definition allowed_by (c c' : Http2ClientConnection) : Prop := orderly c' /\ (ends c' \/ used_ok c c').

(** What waking does. *)
Record woke (c c' : Http2ClientConnection) : Prop := {
  wk_streams : streams c' = streams c;
  wk_used : used c' <= used c \/ used c' <= remoteMaximumConcurrentStreams c';
  wk_rest : outline c' = outline c;
  wk_waits : Forall waits (pending_waiters c) -> Forall waits (pending_waiters c');
  wk_offset : 0 <= slotOffset c -> 0 <= slotOffset c';
}.

(** What sending frames, or a header block, does. *)
Definition only_sends (fs : list Http2Frame) (c c' : Http2ClientConnection) : Prop :=
  core (set_sent [] c') = core (set_sent [] c) /\ (sent c' = sent c \/ sent c' = sent c ++ fs).
Definition only_opens (id : Z) (c c' : Http2ClientConnection) : Prop :=
  core (set_sent [] c') = core (set_sent [] c) /\ (opened (sent c') = opened (sent c) \/ opened (sent c') = opened (sent c) ++ [id]).

(** What [open_stream] needs of the heap. *)
Record ready_for (id : Z) (c : Http2ClientConnection) : Prop := {
  rf_highest : highestOpenedStreamId c < id;
  rf_next : nextStreamId c = id + 2;
  rf_id : 1 <= id /\ Z.odd id = true;
  rf_draining : draining c = false;
  rf_ends : ~ ends c;
}.

(** SETTINGS may change the limit. *)
Definition is_settings (f : Http2Frame) : bool := fr_type f =? HTTP2_FRAME_SETTINGS.
Definition changes_limit (e : event) : bool := match e with ev_frame f => is_settings f | _ => false end.

(** Two requests where the peer allows one stream: the second waits until the
    response to the first ends. *)
Definition example_limit : list event :=
  [ev_start; wrote; ev_reader; ev_frame (mk_frame HTTP2_FRAME_SETTINGS 0 0 [0; 3; 0; 0; 0; 1]); wrote; ev_reader] ++
  example_open 1 false ++ [ev_request 2 (example_request false) None; ev_reserve 2].
Definition example_end : event := ev_frame (mk_frame HTTP2_FRAME_HEADERS (HTTP2_FLAG_END_HEADERS + HTTP2_FLAG_END_STREAM) 1 [136]).
Definition example_goaway : event := ev_frame (mk_frame HTTP2_FRAME_GOAWAY 0 0 [0; 0; 0; 1; 0; 0; 0; 0]).

#[export] Instance settled_slots_preorder : PreOrder settled_slots.
Proof.
  split.
  - intros c. split; [done|by left|done..].
  - intros a b c [] []. split; [congruence| |congruence..]. destruct ss_used1; [|by right]. destruct ss_used0; [left; lia|right; lia].
Qed.
#[export] Instance keeps_slots_preorder : PreOrder keeps_slots.
Proof.
  split.
  - intros c. split; [done|done|done|done|by right].
  - intros a b c [] []. split; [auto|auto|auto|by etransitivity|]. intros O. destruct (ks_settled0 O) as [?|?]; [left; auto|].
    destruct (ks_settled1 (ks_orderly0 O)) as [?|?]; [by left|right]. by etransitivity.
Qed.
#[export] Instance used_ok_preorder : PreOrder used_ok.
Proof.
  split; [intros c; split; [done|by left]|]. intros a b c [E1 H1] [E2 H2]. split; [congruence|].
  destruct H2; [|by right]. destruct H1; [left; lia|right; lia].
Qed.
#[export] Instance within_preorder strict : PreOrder (within strict).
Proof.
  split.
  - intros c. split; [done|done|done|by right].
  - intros a b c [] []. split; [auto|auto| |].
    + intros H. destruct (wi_streams0 H) as [H1 S1]. destruct (wi_streams1 H1) as [H2 S2]. split; [done|by etransitivity].
    + intros Hs O. destruct (wi_used0 Hs O) as [?|?]; [left; auto|].
      destruct (wi_used1 Hs (wi_orderly0 O)) as [?|?]; [by left|right]. by etransitivity.
Qed.

Lemma settled_used c c' : settled_slots c c' -> used_ok c c'.
Proof. intros []. by split. Qed.

Lemma keeps_slots_within strict c c' : keeps_slots c c' -> within strict c c'.
Proof.
  intros []. split; [done|done|auto|]. intros _ O. destruct (ks_settled0 O); [by left|right]. by apply settled_used.
Qed.

(** ** Waking requests *)

Lemma settle_run p r c : exists pr, settle p r c = (set_promises pr c, Ok tt).
Proof.
  unfold settle, eff_set. destruct (promises c !! p); [|by eexists]. exists (promises c). by destruct c.
Qed.

Lemma woke_refl c : woke c c.
Proof. split; [done|by left|done..]. Qed.
Lemma woke_core c c' : woke c c' -> remoteMaximumConcurrentStreams c' = remoteMaximumConcurrentStreams c /\
  (draining c' = draining c /\ terminating c' = terminating c /\ terminated c' = terminated c /\ said_goodbye c' = said_goodbye c /\ drains c' = drains c) /\
  nextStreamId c' = nextStreamId c /\ highestOpenedStreamId c' = highestOpenedStreamId c /\ opened (sent c') = opened (sent c).
Proof. intros [_ _ E _ _]. unfold outline in E. unfold said_goodbye. split_and!; congruence. Qed.

Lemma woke_limit c c' : woke c c' -> remoteMaximumConcurrentStreams c' = remoteMaximumConcurrentStreams c.
Proof. intros W. apply (woke_core c c' W). Qed.

Lemma woke_trans a b c : woke a b -> woke b c -> remoteMaximumConcurrentStreams c = remoteMaximumConcurrentStreams b -> woke a c.
Proof.
  intros [] [] E. split; [congruence| |congruence|auto|auto]. destruct wk_used1; [|by right]. destruct wk_used0; [left; lia|right; lia].
Qed.

(** One turn of the loop. *)
Lemma wake_loop_step w l c : 0 <= slotOffset c -> slot_free c = true -> exists c1, wake_loop (w :: l) c = wake_loop l c1 /\
  slotOffset c1 = slotOffset c + 1 /\ drop (Z.to_nat (slotOffset c + 1)) (slotWaiters c1) = drop (Z.to_nat (slotOffset c + 1)) (slotWaiters c) /\
  streams c1 = streams c /\ used c1 <= used c + 1 /\
  outline c1 = outline c.
Proof.
  intros Ho Hf. cbn [wake_loop]. unfold eff_bind at 1, get_, eff_get. change (Datatypes.id c) with c. rewrite Hf.
  destruct (w_active w).
  - destruct (settle_run (w_result w) (Ok tt) (set_reservedSlots (reservedSlots c + 1)
      (set_slotWaiters (alter inactive (Z.to_nat (slotOffset c)) (slotWaiters c)) (set_slotOffset (slotOffset c + 1) c)))) as [pr E].
    eexists. split; [unfold eff_when, eff_bind, put, eff_set; rewrite E; reflexivity|]. cbn. split; [done|].
    split; [apply drop_alter_lt; lia|]. split; [done|]. unfold used. cbn. split; [lia|done].
  - exists (set_slotOffset (slotOffset c + 1) c). split; [done|]. cbn. split; [done|]. split; [done|]. split; [done|].
    unfold used. cbn. split; [lia|done].
Qed.

Lemma wake_loop_woke l : forall c, 0 <= slotOffset c -> pending_waiters c = l ->
  let c' := (wake_loop l c).1 in woke c c' /\ nobody_starves c'.
Proof.
  induction l as [|w l IH]; intros c Ho Hl; [split; [apply woke_refl|by intros _]|].
  destruct (slot_free c) eqn:Ef.
  - destruct (wake_loop_step w l c Ho Ef) as (c1 & -> & Ho1 & Hd & Hs & Hu & Hr). 
    assert (Hp : pending_waiters c1 = l).
    { unfold pending_waiters in *. rewrite Ho1, Hd. replace (Z.to_nat (slotOffset c + 1)) with (Z.to_nat (slotOffset c) + 1)%nat by lia.
      rewrite <- drop_drop, Hl. done. }
    assert (Hlimit : remoteMaximumConcurrentStreams c1 = remoteMaximumConcurrentStreams c) by (unfold outline in Hr; congruence).
    destruct (IH c1) as [W N]; [lia|done|]. split; [|done]. eapply woke_trans; [|exact W|].
    + split; [done| |done| |lia].
      * right. apply Z.ltb_lt in Ef. unfold used in *. rewrite Hlimit. lia.
      * rewrite Hp, Hl. by inversion 1.
    + by apply woke_limit.
  - assert (E : wake_loop (w :: l) c = (c, Ok tt)).
    { cbn [wake_loop]. unfold eff_bind at 1, get_, eff_get. change (Datatypes.id c) with c. by rewrite Ef. }
    rewrite E. split; [apply woke_refl|]. intros H. cbn [fst] in *. congruence.
Qed.

Lemma wakeSlotWaiters_woke c : 0 <= slotOffset c -> woke c (wakeSlotWaiters c).1 /\ nobody_starves (wakeSlotWaiters c).1.
Proof.
  intros Ho. destruct (wake_loop_woke (pending_waiters c) c Ho eq_refl) as [W N].
  unfold wakeSlotWaiters, eff_bind, get_, eff_get. pose proof (wake_loop_throws (fun _ => False) (pending_waiters c) c) as Hn.
  destruct (wake_loop (pending_waiters c) c) as [c1 [x|e]]; [|by destruct (Hn c1 e)]. cbn [fst] in *. clear Hn. unfold eff_set. cbn [fst].
  destruct (_ && _); [|done]. set (c2 := set_slotOffset _ _). assert (Hp : pending_waiters c2 = pending_waiters c1) by done.
  split; [|intros H; rewrite Hp; by apply N]. eapply woke_trans; [exact W| |done].
  split; [done|by left|done|by rewrite Hp|done].
Qed.

Lemma woke_ends c c' : woke c c' -> ends c' <-> ends c.
Proof. intros W. destruct (woke_core c c' W) as (_ & (_ & H1 & H2 & _) & _). unfold ends. by rewrite H1, H2. Qed.

Lemma woke_weak c c' : woke c c' -> slots_weak c -> slots_weak c'.
Proof.
  intros W S. destruct (woke_core c c' W) as (_ & (Hd & _ & _ & Hg & Hdr) & Hn & Hh & Ho). split.
  - apply (wk_waits _ _ W), S.
  - apply (wk_offset _ _ W), S.
  - rewrite Hdr, Hd. apply S.
  - rewrite Hg, Hd. apply S.
  - rewrite Hn, Hh. apply S.
  - rewrite Ho, Hh. apply S.
  - rewrite Ho. apply S.
Qed.

Lemma woke_settled c c' : woke c c' -> settled_slots c c'.
Proof. intros W. destruct (woke_core c c' W) as (Hl & _ & Hn & Hh & Ho). split; [done|apply W|done|done|done]. Qed.

Lemma woke_idle c c' : woke c c' -> not_idle c -> not_idle c'.
Proof. intros W H. destruct (woke_core c c' W) as (_ & (_ & _ & _ & Hg & _) & _). unfold not_idle. rewrite Hg, (wk_streams _ _ W). exact H. Qed.

(** ** Turns *)


Lemma core_fields c c' : core c' = core c ->
  (streams c' = streams c /\ pending_waiters c' = pending_waiters c /\ slot_free c' = slot_free c /\ slotOffset c' = slotOffset c /\
   used c' = used c) /\
  (remoteMaximumConcurrentStreams c' = remoteMaximumConcurrentStreams c /\ draining c' = draining c /\ terminating c' = terminating c /\
   terminated c' = terminated c /\ said_goodbye c' = said_goodbye c /\ drains c' = drains c) /\
  nextStreamId c' = nextStreamId c /\ highestOpenedStreamId c' = highestOpenedStreamId c /\ opened (sent c') = opened (sent c).
Proof.
  unfold core, outline. intros E.
  assert (E1 : streams c' = streams c) by congruence. assert (E2 : slotWaiters c' = slotWaiters c) by congruence.
  assert (E3 : slotOffset c' = slotOffset c) by congruence. assert (E4 : reservedSlots c' = reservedSlots c) by congruence.
  assert (E5 : remoteMaximumConcurrentStreams c' = remoteMaximumConcurrentStreams c) by congruence.
  unfold pending_waiters, slot_free, used, said_goodbye. rewrite E1, E2, E3, E4, E5. split_and!; congruence.
Qed.

Lemma core_weak c c' : core c' = core c -> slots_weak c -> slots_weak c'.
Proof.
  intros E []. destruct (core_fields c c' E) as ((Hs & Hp & Hf & Ho & Hu) & (Hl & Hd & _ & _ & Hg & Hdr) & Hn & Hh & Hop).
  split; rewrite ?Hp, ?Ho, ?Hdr, ?Hd, ?Hg, ?Hn, ?Hh, ?Hop; done.
Qed.

Lemma core_ok c c' : core c' = core c -> slots_ok c -> slots_ok c'.
Proof.
  intros E []. destruct (core_fields c c' E) as ((Hs & Hp & Hf & Ho & Hu) & (Hl & Hd & _ & _ & Hg & Hdr) & Hn & Hh & Hop).
  split; [by apply (core_weak c)|unfold nobody_starves; by rewrite Hf, Hp|unfold not_idle; by rewrite Hg, Hs].
Qed.

Lemma core_ends c c' : core c' = core c -> ends c' <-> ends c.
Proof. intros E. destruct (core_fields c c' E) as (_ & (_ & _ & H1 & H2 & _) & _). unfold ends. by rewrite H1, H2. Qed.

Lemma keeps_slots_same c c' : core c' = core c -> keeps_slots c c'.
Proof.
  intros E. pose proof (core_ends c c' E) as He. pose proof (core_ok c c' E) as Hok.
  destruct (core_fields c c' E) as ((Hs & Hp & Hf & Ho & Hu) & (Hl & Hd & _ & _ & Hg & Hdr) & Hn & Hh & Hop).
  split; [unfold orderly; intros [?|?]; [left; by apply He|right; by apply Hok]|apply He|by rewrite Hd|by rewrite Hs|].
  intros _. right. split; [done|left; lia|done..].
Qed.

Lemma keeps_slots_ends c c' : evolves c c' -> ends c' -> keeps_slots c c'.
Proof.
  intros Hev He. split; [by left|done|apply (ev_draining _ _ Hev)|apply (ev_streams _ _ Hev)|by left].
Qed.

Lemma woke_streams c c' : woke c c' -> streams c' `sublist_of` streams c.
Proof. intros W. by rewrite (wk_streams _ _ W). Qed.

Lemma wakeSlotWaiters_slots : does keeps_slots wakeSlotWaiters.
Proof.
  intros c. split.
  - intros [E|[S F I]].
    + left. apply (evolves_ends c); [apply wakeSlotWaiters_evolves|done].
    + destruct (wakeSlotWaiters_woke c (sl_offset _ S)) as [W N]. right.
      split; [by eapply woke_weak|done|by eapply woke_idle].
  - apply evolves_ends, wakeSlotWaiters_evolves.
  - apply (ev_draining _ _ (wakeSlotWaiters_evolves c)).
  - apply (ev_streams _ _ (wakeSlotWaiters_evolves c)).
  - intros [E|[S F I]]; [left; apply (evolves_ends c); [apply wakeSlotWaiters_evolves|done]|right].
    apply woke_settled, (wakeSlotWaiters_woke c (sl_offset _ S)).
Qed.

(** Draining ends the idle connection. *)
Lemma finishDrainIfIdle_idle c : slots_weak c -> ends (finishDrainIfIdle c).1 \/ (finishDrainIfIdle c).1 = c /\ not_idle c.
Proof.
  intros S. unfold finishDrainIfIdle, eff_bind, get_, eff_get. change (Datatypes.id c) with c.
  destruct (negb (draining c) || _ || _ || _ || _) eqn:E; [|left; apply terminate_ends].
  destruct (terminating c) eqn:E1; [left; by left|]. destruct (terminated c) eqn:E2; [left; by right|]. right. split; [done|].
  intros Hg Hs. pose proof (sl_goodbye _ S Hg) as Hd. unfold said_goodbye in Hg. rewrite Hd, Hs in E. cbn in E.
  destruct (localGoAwaySent c), (remoteGoAwayReceived c); done.
Qed.

Lemma finishDrainIfIdle_slots c : slots_weak c -> nobody_starves c -> keeps_slots c (finishDrainIfIdle c).1 /\ orderly (finishDrainIfIdle c).1.
Proof.
  intros S F. destruct (finishDrainIfIdle_idle c S) as [E|[-> I]].
  - split; [apply keeps_slots_ends; [apply finishDrainIfIdle_evolves|done]|by left].
  - split; [reflexivity|right; by split].
Qed.

Lemma used_remove c id : used (set_streams (filter (fun k => k <> id) (streams c)) c) <= used c.
Proof. unfold used, len. cbn. pose proof (sublist_length _ _ (sublist_filter (fun k => k <> id) (streams c))). lia. Qed.

Lemma streamStateChanged_run id c : streamStateChanged id c =
  if negb (localEnded (stream_of c id)) || negb (remoteEnded (stream_of c id)) then (c, Ok tt)
  else if has_stream c id then (wakeSlotWaiters ;; finishDrainIfIdle) (set_streams (filter (fun k => k <> id) (streams c)) c)
  else (c, Ok tt).
Proof.
  transitivity ((if negb (localEnded (stream_of c id)) || negb (remoteEnded (stream_of c id)) then eff_ret tt
    else c ← get_ Datatypes.id; eff_when (has_stream c id) (
      put set_streams (filter (fun k => k <> id) (streams c)) ;; wakeSlotWaiters ;; finishDrainIfIdle)) c); [reflexivity|].
  destruct (_ || _); [done|]. unfold eff_bind at 1, get_, eff_get. change (Datatypes.id c) with c. by destruct (has_stream c id).
Qed.

Lemma streamStateChanged_slots id : does keeps_slots (streamStateChanged id).
Proof.
  intros c. assert (Hev : evolves c (streamStateChanged id c).1) by apply streamStateChanged_evolves.
  assert (He : ends c -> keeps_slots c (streamStateChanged id c).1).
  { intros E. apply keeps_slots_ends; [done|by eapply evolves_ends]. }
  enough (H : slots_ok c -> orderly (streamStateChanged id c).1 /\ (ends (streamStateChanged id c).1 \/ settled_slots c (streamStateChanged id c).1)).
  { split; [intros [E|S]; [apply He; [done|by left]|by apply H]|by apply evolves_ends|apply (ev_draining _ _ Hev)|apply (ev_streams _ _ Hev)|].
    intros [E|S]; [left; by eapply evolves_ends|by apply H]. }
  clear He Hev. intros S. assert (Hsame : orderly c /\ (ends c \/ settled_slots c c)) by (split; [by right|by right]).
  rewrite streamStateChanged_run. destruct (_ || _); [exact Hsame|]. destruct (has_stream c id); [|exact Hsame].
  set (c1 := set_streams (filter (fun k => k <> id) (streams c)) c).
  destruct S as [S F I]. assert (S1 : slots_weak c1) by (destruct S; by split).
  assert (T1 : settled_slots c c1) by (split; [done|left; apply used_remove|done..]).
  destruct (wakeSlotWaiters_woke c1 (sl_offset _ S1)) as [W N]. pose proof (woke_weak _ _ W S1) as S2.
  pose proof (woke_settled _ _ W) as T2. unfold eff_bind. pose proof (wakeSlotWaiters_throws (fun _ => False) c1) as Hn.
  destruct (wakeSlotWaiters c1) as [c2 [x|e]]; [|by destruct (Hn c2 e)]. cbn [fst] in *.
  destruct (finishDrainIfIdle_slots c2 S2 N) as [K O]. split; [done|]. destruct (finishDrainIfIdle_idle c2 S2) as [E|[-> _]]; [by left|right].
  by etransitivity.
Qed.

#[export] Instance keeps_slots_turnwise : Turnwise keeps_slots.
Proof.
  split; [apply _|apply keeps_slots_same|apply keeps_slots_ends|apply wakeSlotWaiters_slots|apply streamStateChanged_slots].
Qed.

Lemma slots_within {A} strict (m : Turn A) : does keeps_slots m -> does (within strict) m.
Proof. intros H c. apply keeps_slots_within, H. Qed.

(** A turn that goes on from an allowed heap. *)
Lemma allowed_then c c1 c2 : allowed_by c c1 -> keeps_slots c1 c2 -> allowed_by c c2.
Proof.
  intros [O A1] []. split; [auto|]. destruct A1 as [?|?]; [left; auto|]. destruct (ks_settled0 O); [by left|right].
  etransitivity; [done|by apply settled_used].
Qed.

Lemma allowed_same c : slots_ok c -> allowed_by c c.
Proof. intros S. split; [by right|by right]. Qed.

(** ** The turns that move slots, streams or GOAWAY *)

Lemma within_evolves {A} strict (m : Turn A) : does evolves m -> (forall c, slots_ok c -> allowed_by c (m c).1) -> does (within strict) m.
Proof.
  intros Hev Hok c. split.
  - intros [E|S]; [left; by apply (evolves_ends c)|by apply Hok].
  - by apply evolves_ends.
  - intros Hd. split; [by apply (ev_draining _ _ (Hev c))|apply (ev_streams _ _ (Hev c))].
  - intros _ [E|S]; [left; by apply (evolves_ends c)|by apply Hok].
Qed.

Lemma within_bind {A B} strict (m : Turn A) (k : A -> Turn B) : does (within strict) m -> (forall a, does (within strict) (k a)) ->
  does (within strict) (eff_bind m k).
Proof. intros Hm Hk. by apply does_bind; [apply _|..]. Qed.
Lemma within_catch {A} strict (m : Turn A) h : does (within strict) m -> (forall e, does (within strict) (h e)) ->
  does (within strict) (eff_catch m h).
Proof. intros Hm Hh. by apply does_catch; [apply _|..]. Qed.

Lemma applyRemoteSetting_within st : does (within false) (applyRemoteSetting st).
Proof.
  unfold applyRemoteSetting. cbv zeta.
  destruct (_ =? HTTP2_SETTING_HEADER_TABLE_SIZE).
  { apply slots_within. intros c. repeat exec_step ltac:(fun _ => reflexivity) idtac. by apply keeps_slots_same. }
  destruct (_ =? HTTP2_SETTING_ENABLE_PUSH); [apply slots_within; eauto with turnwise|].
  destruct (_ =? HTTP2_SETTING_MAX_CONCURRENT_STREAMS).
  { intros c. set (c1 := set_remoteMaximumConcurrentStreams (set_value st) c).
    change (within false c (wakeSlotWaiters c1).1). pose proof (wakeSlotWaiters_slots c1) as [_ H2 H3 H4 _]. split.
    - intros [E|[S F I]]; [left; by apply H2|]. assert (S1 : slots_weak c1) by (destruct S; by split).
      destruct (wakeSlotWaiters_woke c1 (sl_offset _ S1)) as [W N]. right. split; [by eapply woke_weak|done|by eapply woke_idle].
    - exact H2.
    - intros Hd. split; [by apply H3|exact H4].
    - done. }
  destruct (_ =? HTTP2_SETTING_INITIAL_WINDOW_SIZE); [apply slots_within; eauto with turnwise|].
  apply slots_within. repeat (match goal with |- does _ (if ?b then _ else _) => destruct b end); [intros c; by apply keeps_slots_same..|apply ret_turnwise].
Qed.

Lemma handleSettings_within f : does (within false) (handleSettings f).
Proof.
  unfold handleSettings. destruct (has_flag f HTTP2_FLAG_ACK); [intros c; by apply keeps_slots_within, keeps_slots_same|].
  apply within_bind; [apply slots_within, lift_turnwise|]. intros l. apply within_bind.
  - apply does_each; [apply _|]. intros st. apply applyRemoteSetting_within.
  - intros []. apply within_bind; [intros c; by apply keeps_slots_within, keeps_slots_same|]. intros [].
    apply within_bind; [apply slots_within; eauto with turnwise|]. intros p c. by apply keeps_slots_within, keeps_slots_same.
Qed.

Lemma failSlotWaiters_run reason c : exists pr, failSlotWaiters reason c = (set_slotOffset 0 (set_slotWaiters [] (set_promises pr c)), Ok tt).
Proof.
  set (f := fun w => eff_when (w_active w) (settle (w_result w) (Err reason))).
  assert (H1 : forall w d, exists pr, f w d = (set_promises pr d, Ok tt)).
  { intros w d. unfold f. destruct (w_active w); [apply settle_run|]. exists (promises d). by destruct d. }
  assert (H : forall l d, exists pr, eff_each f l d = (set_promises pr d, Ok tt)).
  { induction l as [|w l IH]; intros d; [exists (promises d); by destruct d|].
    destruct (H1 w d) as [pr E]. destruct (IH (set_promises pr d)) as [pr2 E2]. exists pr2.
    change (eff_each f (w :: l) d) with (eff_bind (f w) (fun _ => eff_each f l) d). unfold eff_bind. by rewrite E, E2. }
  unfold failSlotWaiters, eff_bind, get_, eff_get. fold f. destruct (H (pending_waiters c) c) as [pr ->]. by exists pr.
Qed.

(** No one waits in a connection that drains. *)
Lemma drained_weak c d : slots_weak c -> draining d = true -> pending_waiters d = [] -> slotOffset d = 0 ->
  nextStreamId d = nextStreamId c -> highestOpenedStreamId d = highestOpenedStreamId c -> opened (sent d) = opened (sent c) ->
  slots_weak d /\ nobody_starves d.
Proof.
  intros [] Hd Hp Ho Hn Hh Hop. split; [|by intros _]. split; rewrite ?Hp, ?Ho, ?Hn, ?Hh, ?Hop; done || constructor.
Qed.

Lemma allowed_ends c c' : ends c' -> allowed_by c c'.
Proof. intros E. split; by left. Qed.

(** From a heap where only an idle connection is out of order. *)
Lemma finishDrainIfIdle_allowed c c1 : used_ok c c1 -> slots_weak c1 -> nobody_starves c1 -> allowed_by c (finishDrainIfIdle c1).1.
Proof.
  intros U S F. destruct (finishDrainIfIdle_idle c1 S) as [E|[-> I]]; [by apply allowed_ends|]. split; [right; by split|by right].
Qed.

Lemma handleGoAway_within f : does (within true) (handleGoAway f).
Proof.
  apply within_evolves; [eauto with evolves|]. intros c S. unfold handleGoAway. unfold eff_bind at 1, eff_lift.
  destruct (parseHttp2GoAway f) as [goAway|e]; [|by apply allowed_same].
  unfold eff_bind at 1, get_, eff_get. destruct (_ <? _); [by apply allowed_same|].
  unfold eff_bind at 1 2 3, put, eff_set. set (c1 := set_draining true _).
  unfold eff_bind at 1. destruct (failSlotWaiters_run (wireError "Peer is draining HTTP/2" HTTP2_REFUSED_STREAM) c1) as [pr ->].
  set (c2 := set_slotOffset 0 _). destruct (drained_weak c c2 (sl_weak _ S)) as [S2 F2]; try done.
  assert (U2 : used_ok c c2) by (split; [done|by left]). destruct (streams c2) as [|id ids] eqn:Es.
  - unfold each_stream, eff_bind at 1 2, get_, eff_get. rewrite Es. cbn [eff_each]. by apply finishDrainIfIdle_allowed.
  - assert (S3 : slots_ok c2) by (split; [done|done|intros _; by rewrite Es]).
    assert (H : does keeps_slots (each_stream (refuse_above (ga_lastStreamId goAway)) ;; finishDrainIfIdle)).
    { apply bind_turnwise; [|eauto with turnwise]. apply each_stream_does; [apply _|]. eauto with turnwise. }
    apply (allowed_then c c2); [split; by right|apply (H c2)].
Qed.

Lemma drain_within : does (within true) drain.
Proof.
  apply within_evolves; [eauto with evolves|]. intros c S. pose proof (allowed_same c S) as A0.
  unfold drain, eff_bind at 1, get_, eff_get. change (Datatypes.id c) with c.
  destruct (terminated c); [exact A0|]. destruct (negb (started c)); [apply (allowed_then c c); [done|apply terminate_turnwise]|].
  destruct (negb (draining c)); [|apply (allowed_then c c); [done|apply finishDrainIfIdle_turnwise]].
  unfold eff_bind at 1, put, eff_set. set (c1 := set_draining true c). unfold eff_bind at 1.
  destruct (failSlotWaiters_run (wireError "HTTP/2 connection is draining" HTTP2_REFUSED_STREAM) c1) as [pr ->].
  set (c2 := set_slotOffset 0 _). destruct (drained_weak c c2 (sl_weak _ S)) as [S2 F2]; try done.
  assert (A2 : allowed_by c c2) by (split; right; [split; [done|done|apply S]|split; [done|by left]]).
  unfold eff_bind. match goal with |- context [send_with ?t ?fl ?id ?p c2] => assert (H : keeps_slots c2 (send_with t fl id p c2).1) by (apply send_with_turnwise; reflexivity);
    destruct (send_with t fl id p c2) as [c3 [q|e]] end; cbn [fst] in *; pose proof (allowed_then _ _ _ A2 H) as [O U]; [|by split].
  assert (Hd : draining c3 = true) by by apply H.
  destruct O as [E|[[] F I]]; [by apply allowed_ends|]. split; [right; split; [by split|exact F|exact I]|exact U].
Qed.

Lemma drain_resume_within p : does (within true) (drain_resume p).
Proof.
  apply within_evolves; [eauto with evolves|]. intros c S. pose proof (allowed_same c S) as A0.
  unfold drain_resume, eff_bind at 1, get_, eff_get. change (Datatypes.id c) with c.
  destruct (promises c !! p) as [[x|e]|]; [|done..]. case_bool_decide as Hp; [|done].
  unfold eff_bind, put, eff_set. set (c1 := set_localGoAwaySent true _). destruct S as [S F I].
  assert (Hd : draining c = true). { apply (sl_drains _ S). intros E. rewrite E in Hp. by apply not_elem_of_nil in Hp. }
  apply finishDrainIfIdle_allowed; [split; [done|by left]|destruct S; by split|exact F].
Qed.

Lemma finish_resume_within : does (within true) finish_resume.
Proof.
  apply within_evolves; [eauto with evolves|]. intros c S. pose proof (allowed_same c S) as A0.
  unfold finish_resume, eff_bind at 1, get_, eff_get. change (Datatypes.id c) with c.
  destruct (finishing c); [|done]. destruct (match promises c !! z with Some _ => true | None => false end); [|done].
  unfold eff_when, eff_bind at 1, put, eff_set. apply allowed_ends. unfold finish_termination, eff_bind at 1, get_, eff_get.
  match goal with |- context [terminated ?d] => destruct (terminated d) eqn:E end; [by right|].
  right. unfold eff_bind, put, eff_set, settle, eff_set. by destruct (promises _ !! _).
Qed.

(** A request takes a free slot, or waits because none is free. *)
Lemma reserve_ok k r c : slots_ok c -> allowed_by c (reserveStreamSlot k r c).1.
Proof.
  intros S. pose proof (allowed_same c S) as Hsame.
  unfold reserveStreamSlot, eff_bind at 1, throwIfAborted. destruct (r_aborted r); [exact Hsame|].
  unfold eff_ret, eff_bind at 1, get_, eff_get. change (Datatypes.id c) with c. destruct (_ || _); [exact Hsame|].
  destruct (slot_free c) eqn:Ef; [|destruct (_ <=? _); [exact Hsame|]].
  - set (c1 := (become k request_granted (set_reservedSlots (reservedSlots c + 1) c)).1).
    change (allowed_by c c1). destruct S as [S F I]. split.
    + right. split; [destruct S; by split| |exact I]. intros H. change (pending_waiters c = []). by apply F.
    + right. split; [done|right]. apply Z.ltb_lt in Ef. change (used c1) with (len (streams c) + (reservedSlots c + 1)).
      change (remoteMaximumConcurrentStreams c1) with (remoteMaximumConcurrentStreams c). lia.
  - set (p := nextPromise c).
    set (c1 := (become k (request_waiting p) (set_slotWaiters (slotWaiters c ++ [mk_waiter p true]) (set_nextPromise (p + 1) c))).1).
    change (allowed_by c c1). split; [|right; split; [done|by left]]. destruct S as [S F I].
    assert (Hp : Forall waits (pending_waiters c1)).
    { unfold pending_waiters. change (slotWaiters c1) with (slotWaiters c ++ [mk_waiter p true]). change (slotOffset c1) with (slotOffset c).
      rewrite drop_app. apply Forall_app_2; [apply (sl_waits _ S)|]. apply Forall_drop. by constructor. }
    right. split; [destruct S; by split| |exact I]. intros H. change (slot_free c = true) in H. congruence.
Qed.

Lemma reserveStreamSlot_within k r : does (within true) (reserveStreamSlot k r).
Proof. apply within_evolves; [apply reserveStreamSlot_evolves|]. intros c S. by apply reserve_ok. Qed.

Lemma request_reserve_within k : does (within true) (request_reserve k).
Proof.
  assert (H : forall r, does (within true) (eff_catch (reserveStreamSlot k r) (request_catch k))).
  { intros r. apply within_catch; [apply reserveStreamSlot_within|]. intros e. apply slots_within. eauto with turnwise. }
  unfold request_reserve. apply within_bind; [intros c; by apply keeps_slots_within, keeps_slots_same|]. intros c.
  destruct (requests c !! k) as [r|]; [|apply slots_within, ret_turnwise]. destruct (r_state r); try apply slots_within, ret_turnwise; [|apply H].
  destruct (promises c !! readyResult c) as [[x|e]|]; [apply H|apply slots_within; eauto with turnwise..].
Qed.

Lemma waiter_abort_slots p reason : does keeps_slots (waiter_abort p reason).
Proof.
  intros c. pose proof (waiter_abort_evolves p reason c) as Hev.
  assert (H : orderly c -> (fun d => orderly d /\ (ends d \/ settled_slots c d)) (waiter_abort p reason c).1).
  { intros [E|S]; [split; left; by apply (evolves_ends c)|]. unfold waiter_abort, eff_bind, get_, eff_get. change (Datatypes.id c) with c.
    destruct (existsb _ _); [|split; [by right|by right]]. unfold eff_when, put, eff_set.
    set (l := filter (fun w => w_result w <> p) (pending_waiters c)). set (c1 := set_slotWaiters _ c).
    destruct (settle_run p (Err reason) c1) as [pr ->]. cbn [fst].
    assert (Hp : pending_waiters c1 = l \/ slotWaiters c1 = take (Z.to_nat (slotOffset c)) (slotWaiters c) ++ l /\ (length (slotWaiters c) < Z.to_nat (slotOffset c))%nat).
    { destruct (le_lt_dec (Z.to_nat (slotOffset c)) (length (slotWaiters c))); [left|by right].
      unfold pending_waiters. change (slotOffset c1) with (slotOffset c). 
      change (slotWaiters c1) with (take (Z.to_nat (slotOffset c)) (slotWaiters c) ++ l). apply drop_app_length'. rewrite length_take. lia. }
    assert (Hl : Forall waits l).
    { pose proof (sl_waits _ (sl_weak _ S)) as Hall. rewrite Forall_forall in Hall |- *. intros w [_ Hw]%list_elem_of_filter. auto. }
    assert (Hl2 : pending_waiters c = [] -> l = []) by (unfold l; by intros ->).
    assert (Hw : Forall waits (pending_waiters c1) /\ (pending_waiters c = [] -> pending_waiters c1 = [])).
    { destruct Hp as [->|[Ew Hlt]]; [done|]. assert (Hn : l = []) by (apply Hl2; unfold pending_waiters; apply drop_ge; lia).
      unfold pending_waiters. change (slotOffset c1) with (slotOffset c). rewrite Ew, Hn, app_nil_r, drop_ge by (rewrite length_take; lia). by split. }
    split.
    - right. destruct S as [S F I]. split; [destruct S; split; try done; apply Hw| |exact I]. intros Hf. apply Hw. by apply F.
    - right. split; [done|by left|done..]. }
  split; [by apply H|by apply evolves_ends|apply (ev_draining _ _ Hev)|apply (ev_streams _ _ Hev)|by apply H].
Qed.
#[export] Hint Resolve waiter_abort_slots : turnwise.

Lemma request_abort_slots k reason : does keeps_slots (request_abort k reason).
Proof.
  assert (Hs : forall f, does keeps_slots (set_request k f)) by (intros f c; by apply keeps_slots_same).
  assert (Hc : forall id, does keeps_slots (eff_catch (cancelStream id reason) (fun _ => eff_ret tt))) by (intros; eauto with turnwise).
  unfold request_abort. apply bind_turnwise; [intros c; by apply keeps_slots_same|]. intros c.
  destruct (requests c !! k) as [[q [a|] st]|]; try apply ret_turnwise. apply bind_turnwise; [done|]. intros [].
  destruct st; try apply ret_turnwise; try (by apply when_turnwise, become_turnwise); try apply waiter_abort_slots.
  all: apply bind_turnwise; [intros d; by apply keeps_slots_same|]; intros s; by apply when_turnwise.
Qed.

(** ** Opening a stream *)

Lemma StronglySorted_snoc (l : list Z) x : StronglySorted Z.lt l -> Forall (fun y => y < x) l -> StronglySorted Z.lt (l ++ [x]).
Proof.
  induction 1 as [|y l Hl IH Hy]; intros Hx; cbn; [by repeat constructor|]. apply Forall_cons in Hx as [H1 H2].
  constructor; [by apply IH|]. apply Forall_app_2; [done|by constructor].
Qed.

Lemma opened_app a b : opened (a ++ b) = opened a ++ opened b.
Proof. unfold opened. by rewrite filter_app, map_app. Qed.

(** A header block is one HEADERS frame and its CONTINUATIONs. *)
Lemma header_frames_opened fuel : forall maximum id block e offset first fs,
  header_frames fuel maximum id block e offset first = Ok fs -> opened fs = if first then [id] else [].
Proof.
  assert (Hone : forall (first : bool) flags id payload,
    opened [mk_frame (if first then HTTP2_FRAME_HEADERS else HTTP2_FRAME_CONTINUATION) flags id payload] = if first then [id] else []) by by intros [].
  induction fuel as [|fuel IH]; intros maximum id block e offset first fs; [done|]. cbn [header_frames]. cbv zeta.
  set (f := mk_frame _ _ _ _). destruct (_ <? _).
  - destruct (header_frames fuel _ _ _ _ _ false) as [fs1|] eqn:E; [|done]. cbn. intros [= <-].
    change (f :: fs1) with ([f] ++ fs1). rewrite opened_app, (IH _ _ _ _ _ _ _ E), app_nil_r. apply Hone.
  - intros [= <-]. apply Hone.
Qed.

Lemma enqueueBytes_core fs bytes c : only_sends fs c (enqueueBytes fs bytes c).1.
Proof.
  unfold enqueueBytes, eff_bind at 1, get_, eff_get. change (Datatypes.id c) with c. destruct (terminated c); [split; [done|by left]|].
  unfold eff_bind, promise, eff_set. cbn [fst snd]. set (d := set_sent _ _).
  assert (Hd : core (set_sent [] d) = core (set_sent [] c) /\ sent d = sent c ++ fs) by done. destruct Hd as [H1 H2]. clearbody d.
  destruct (negb (writing c)); cbn [eff_when]; [|split; [exact H1|by right]].
  assert (H : core (set_sent [] (drainWrites d).1) = core (set_sent [] d) /\ sent (drainWrites d).1 = sent d).
  { unfold drainWrites, eff_bind, get_, eff_get. destruct (writing d); [done|]. unfold put, eff_set, write_next, eff_set. by destruct (_ <? _). }
  destruct (drainWrites d) as [d1 [x|e]]; cbn [fst] in *; destruct H as [H3 H4];
    (split; [exact (eq_trans H3 H1)|right; exact (eq_trans H4 H2)]).
Qed.

Lemma sendHeaderBlock_core id block e c : only_opens id c (sendHeaderBlock id block e c).1.
Proof.
  unfold sendHeaderBlock, eff_bind, get_, eff_get. change (Datatypes.id c) with c. 
  destruct (header_frames _ _ id block e 0 true) as [fs|err] eqn:E; [|split; [done|by left]]. apply header_frames_opened in E.
  unfold sendFrames, eff_bind, get_, eff_get. change (Datatypes.id c) with c. destruct (foldM _ _ fs) as [bytes|err]; [|split; [done|by left]].
  destruct (enqueueBytes_core fs bytes c) as [H [H1|H1]]; (split; [exact H|]); rewrite H1; [by left|right]. by rewrite opened_app, E.
Qed.

Lemma sent_fields c c' : core (set_sent [] c') = core (set_sent [] c) ->
  (streams c' = streams c /\ pending_waiters c' = pending_waiters c /\ slot_free c' = slot_free c /\ slotOffset c' = slotOffset c /\
   used c' = used c) /\
  (remoteMaximumConcurrentStreams c' = remoteMaximumConcurrentStreams c /\ draining c' = draining c /\ terminating c' = terminating c /\
   terminated c' = terminated c /\ said_goodbye c' = said_goodbye c /\ drains c' = drains c) /\
  nextStreamId c' = nextStreamId c /\ highestOpenedStreamId c' = highestOpenedStreamId c.
Proof.
  intros E. destruct (core_fields _ _ E) as (H1 & H2 & H3 & H4 & _). exact (conj H1 (conj H2 (conj H3 H4))).
Qed.

Lemma prepare_request_slots q c c' r : slots_ok c -> prepare_request q c = (c', r) ->
  slots_ok c' /\ streams c' = streams c /\ used c' = used c /\ remoteMaximumConcurrentStreams c' = remoteMaximumConcurrentStreams c /\
  match r with Ok (id, _, _) => ready_for id c' | Err _ => True end.
Proof.
  intros S. unfold prepare_request, eff_bind at 1, get_, eff_get. change (Datatypes.id c) with c.
  destruct (draining c) eqn:Ed; [by intros [= <- <-]|]. cbn [orb].
  destruct (terminating c) eqn:E1; [by intros [= <- <-]|]. destruct (terminated c) eqn:E2; [by intros [= <- <-]|]. cbn [orb].
  destruct (HTTP2_MAX_WINDOW_SIZE <? nextStreamId c).
  { intros [= <- <-]. split; [|done]. destruct S as [S F I]. split; [destruct S; by split|exact F|exact I]. }
  set (c1 := set_nextStreamId (nextStreamId c + 2) c). assert (S1 : slots_ok c1).
  { destruct S as [S F I]. split; [|exact F|exact I]. destruct S as [? ? ? ? [H1 [H2 H3]] ? ?]. split; try done. cbn. split_and!; [lia|lia|].
    rewrite Z.odd_add, H3. done. }
  assert (R1 : forall e, ready_for (nextStreamId c) (set_encoder e c1)).
  { intros e. destruct S as [[? ? ? ? [H1 [H2 H3]] ? ?] F I]. split; try done. intros [E|E]; cbn in E; congruence. }
  unfold eff_bind at 1, put, eff_set. fold c1.
  unfold eff_bind at 1, eff_lift. destruct (validateHttp2RequestHeaders _ _ _) as [expected|e]; [|by intros [= <- <-]].
  destruct (negb _ && _); [by intros [= <- <-]|].
  unfold eff_bind at 1. destruct (http2HeaderListSize _) as [size|e]; [|by intros [= <- <-]].
  destruct (_ <? size); [by intros [= <- <-]|]. destruct (Hpack.encode _ _) as [e block].
  assert (Se : slots_ok (set_encoder e c1)) by (by apply (core_ok c1)).
  unfold eff_bind, eff_ret. destruct block as [block|err]; intros [= <- <-]; split_and!; done.
Qed.

Lemma open_stream_slots k r id block expected c : slots_ok c -> ready_for id c -> allowed_by c (open_stream k r id block expected c).1.
Proof.
  intros [S F I] R. unfold open_stream.
  set (s := new_Http2ClientStream id (remoteInitialWindowSize c) (initialStreamWindowSize (options c))
    (requestMethod (rq_headers (r_request r))) (rq_body (r_request r)) expected (rq_onInformational (r_request r))).
  set (c1 := set_highestOpenedStreamId id (set_streams (streams c ++ [id]) (set_reservedSlots (reservedSlots c - 1)
    (set_objects (<[id := s]> (objects c)) c)))).
  change (allowed_by c ((attachSignal id r ;; (p ← sendHeaderBlock id block (negb (rq_body (r_request r))); become k (request_sending id p))) c1).1).
  assert (Hu : used c1 = used c) by (unfold used, c1; cbn; rewrite len_app; change (len [id]) with 1; lia).
  assert (S1 : slots_ok c1).
  { destruct R, S. split.
    - split; try done; change (highestOpenedStreamId c1) with id; change (nextStreamId c1) with (nextStreamId c).
      + rewrite rf_next0. split_and!; [lia|lia|]. rewrite Z.odd_add. by destruct rf_id0 as [_ ->].
      + eapply Forall_impl; [exact sl_opened0|]. intros j [? ?]. split; [lia|done].
    - intros H. apply F. unfold slot_free in *. unfold used in Hu. change (remoteMaximumConcurrentStreams c1) with (remoteMaximumConcurrentStreams c) in H. lia.
    - intros _ H. change (streams c1) with (streams c ++ [id]) in H. by destruct (streams c). }
  assert (A1 : allowed_by c c1) by (split; right; [done|split; [done|left; lia]]).
  assert (Ha : does keeps_slots (attachSignal id r)) by eauto with turnwise. specialize (Ha c1).
  unfold eff_bind at 1. destruct (attachSignal id r c1) as [c2 [x|e]]; cbn [fst] in Ha; pose proof (allowed_then _ _ _ A1 Ha) as A2; [|done].
  assert (Hlater : forall d, allowed_by c (sendHeaderBlock id block (negb (rq_body (r_request r))) d).1 ->
    allowed_by c ((p ← sendHeaderBlock id block (negb (rq_body (r_request r))); become k (request_sending id p)) d).1).
  { intros d H. unfold eff_bind. destruct (sendHeaderBlock _ _ _ d) as [d1 [p|e]]; [|done]. by apply (allowed_then c d1); [|apply become_turnwise]. }
  apply Hlater. destruct (sendHeaderBlock_core id block (negb (rq_body (r_request r))) c2) as [Hc Ho].
  set (c3 := (sendHeaderBlock id block (negb (rq_body (r_request r))) c2).1) in *.
  assert (Hends : ends c2 -> ends c3) by (intros E; by apply (core_ends _ _ Hc)).
  destruct (sent_fields _ _ Hc) as ((K1 & K2 & K3 & K4 & K5) & (K6 & K7 & K8 & K9 & K10 & K11) & K12 & K13).
  destruct A2 as [[E|S2] U2]; [by apply allowed_ends, Hends|].
  destruct (ks_settled _ _ Ha ltac:(by right)) as [E|T]; [by apply allowed_ends, Hends|].
  split; [right|destruct U2 as [?|[U2 U3]]; [left; auto|right; split; [congruence|rewrite K5, K6; done]]].
  assert (Hop : opened (sent c2) = opened (sent c)) by (by rewrite (ss_opened _ _ T)).
  assert (Hh : highestOpenedStreamId c2 = id) by (by rewrite (ss_highest _ _ T)).
  destruct S2 as [[] F2 I2]. split; [split|unfold nobody_starves; by rewrite K3, K2|unfold not_idle; by rewrite K10, K1];
    try (rewrite ?K2, ?K4, ?K7, ?K10, ?K11, ?K12, ?K13; done).
  - rewrite K13, Hh. destruct Ho as [-> | ->]; [by rewrite <- Hh|]. apply Forall_app_2; [by rewrite <- Hh|]. constructor; [|done].
    destruct R. split; [lia|by destruct rf_id0].
  - destruct Ho as [-> | ->]; [done|]. rewrite Hop. apply StronglySorted_snoc; [apply (sl_sorted _ S)|].
    pose proof (sl_opened _ S) as Hall. destruct R. eapply Forall_impl; [exact Hall|]. intros j [? ?]. lia.
Qed.

Lemma release_slot_within : does (within true) release_slot.
Proof.
  apply within_evolves; [apply release_slot_evolves|]. intros c [S F I].
  set (c1 := set_reservedSlots (reservedSlots c - 1) c). change (allowed_by c (wakeSlotWaiters c1).1).
  assert (S1 : slots_weak c1) by (destruct S; by split). destruct (wakeSlotWaiters_woke c1 (sl_offset _ S1)) as [W N].
  split; right.
  - split; [by eapply woke_weak|done|by eapply woke_idle].
  - etransitivity; [|apply settled_used, woke_settled, W]. split; [done|left]. unfold used, c1. cbn. lia.
Qed.

Lemma prepare_ends q c c' r : (ends c \/ draining c = true) -> prepare_request q c = (c', r) -> c' = c /\ exists e, r = Err e.
Proof.
  intros H. unfold prepare_request, eff_bind at 1, get_, eff_get. change (Datatypes.id c) with c.
  assert (E : draining c || terminating c || terminated c = true).
  { destruct H as [[H|H]|H]; rewrite H; by rewrite ?orb_true_r. }
  rewrite E. intros [= <- <-]. split; [done|by eexists].
Qed.

Lemma open_request_within k r : does (within true) (open_request k r).
Proof.
  assert (Hr : forall e, does (within true) (release_slot ;; request_catch k e)).
  { intros e. apply within_bind; [apply release_slot_within|]. intros []. apply slots_within. eauto with turnwise. }
  intros c. unfold open_request. destruct (prepare_request (r_request r) c) as [c1 p] eqn:E.
  assert (Hnot : ends c \/ draining c = true -> exists e, c1 = c /\ p = Err e).
  { intros H. apply prepare_ends in E as [-> [e ->]]; [by exists e|done]. }
  assert (Hstill : ends c \/ draining c = true ->
    within true c (match p with Ok (streamId, block, expected) => open_stream k r streamId block expected c1
      | Err e => (release_slot ;; request_catch k e) c1 end).1).
  { intros H. destruct (Hnot H) as (e & -> & ->). apply Hr. }
  assert (Hok : slots_ok c -> allowed_by c (match p with Ok (streamId, block, expected) => open_stream k r streamId block expected c1
      | Err e => (release_slot ;; request_catch k e) c1 end).1).
  { intros S. destruct (prepare_request_slots _ _ _ _ S E) as (S1 & Hs & Hu & Hl & Hready).
    assert (U1 : used_ok c c1) by (split; [done|left; lia]). destruct p as [[[id block] expected]|e].
    - destruct (open_stream_slots k r id block expected c1 S1 Hready) as [O A1]. split; [done|].
      destruct A1 as [?|U]; [by left|right; by etransitivity].
    - destruct (Hr e c1) as [W1 W2 _ W4]. split; [apply W1; by right|]. destruct (W4 eq_refl ltac:(by right)) as [?|?]; [by left|right; by etransitivity]. }
  assert (Hres : within true c (match p with Ok (streamId, block, expected) => open_stream k r streamId block expected c1
      | Err e => (release_slot ;; request_catch k e) c1 end).1).
  { split.
    - intros [E1|S]; [|by apply Hok]. apply (wi_orderly _ _ _ (Hstill (or_introl E1))). by left.
    - intros E1. by apply (wi_ends _ _ _ (Hstill (or_introl E1))).
    - intros Hd. by apply (wi_streams _ _ _ (Hstill (or_intror Hd))).
    - intros _ [E1|S]; [left; by apply (wi_ends _ _ _ (Hstill (or_introl E1)))|by apply Hok]. }
  by destruct p as [[[id block] expected]|e].
Qed.

Lemma request_open_within k : does (within true) (request_open k).
Proof.
  unfold request_open. apply within_bind; [intros c; by apply keeps_slots_within, keeps_slots_same|]. intros c.
  destruct (requests c !! k) as [r|]; [|apply slots_within, ret_turnwise].
  destruct (r_state r) as [| |p| | | |]; try apply slots_within, ret_turnwise; [|apply open_request_within].
  destruct (promises c !! p) as [[x|e]|]; [apply open_request_within|apply slots_within; eauto with turnwise..].
Qed.

(** ** Runs *)

Lemma within_any strict c c' : within true c c' -> within strict c c'.
Proof. intros []. by split; auto. Qed.

Lemma handleFrame_within f : does (within (negb (is_settings f))) (handleFrame f).
Proof.
  unfold handleFrame. cbv zeta. destruct (_ =? HTTP2_FRAME_PUSH_PROMISE); [apply slots_within; eauto with turnwise|].
  apply within_bind; [apply slots_within; eauto with turnwise|]. intros b.
  destruct (_ || _); [apply slots_within; destruct b; eauto with turnwise|].
  destruct (_ =? HTTP2_FRAME_DATA); [apply slots_within; eauto with turnwise|].
  destruct (_ =? HTTP2_FRAME_PRIORITY); [apply slots_within; eauto with turnwise|].
  destruct (_ =? HTTP2_FRAME_RST_STREAM); [apply slots_within; eauto with turnwise|].
  destruct (fr_type f =? HTTP2_FRAME_SETTINGS) eqn:Es; [unfold is_settings; rewrite Es; apply handleSettings_within|].
  destruct (_ =? HTTP2_FRAME_PING); [apply slots_within; eauto with turnwise|].
  destruct (_ =? HTTP2_FRAME_GOAWAY); [intros c; apply within_any, handleGoAway_within|].
  destruct (_ =? HTTP2_FRAME_WINDOW_UPDATE); apply slots_within; eauto with turnwise.
Qed.

Lemma get_within {A} strict (f : Http2ClientConnection -> A) : does (within strict) (eff_get f).
Proof. intros c. reflexivity. Qed.

Lemma reader_frame_within f : does (within (negb (is_settings f))) (reader_frame f).
Proof.
  unfold reader_frame. apply within_catch; [|intros e; apply slots_within; eauto with turnwise].
  apply within_bind; [|intros []; apply slots_within; eauto with turnwise]. unfold read_frame. apply within_bind; [apply get_within|].
  intros c. destruct (_ && _); [apply slots_within; eauto with turnwise|].
  apply within_catch; [apply handleFrame_within|intros e; apply slots_within; eauto with turnwise].
Qed.

Lemma step_within e c : within (negb (changes_limit e)) c (step c e).
Proof.
  unfold step. destruct (possible c e); [|reflexivity].
  assert (H : forall m : Turn unit, does (within true) m -> within (negb (changes_limit e)) c (m c).1) by (intros m Hm; apply within_any, Hm).
  assert (Hs : forall m : Turn unit, does keeps_slots m -> within (negb (changes_limit e)) c (m c).1) by (intros m Hm; apply H, slots_within, Hm).
  destruct e; cbn [turn]; try (apply Hs; eauto with turnwise; fail).
  - apply H, drain_within.
  - unfold while_reading, get_, eff_bind, eff_get. destruct (reading c); try reflexivity. apply reader_frame_within.
  - apply H. unfold while_reading. apply within_bind; [apply get_within|]. intros []; apply slots_within; eauto with turnwise.
  - apply H, drain_resume_within.
  - apply H, finish_resume_within.
  - apply H, request_reserve_within.
  - apply H, request_open_within.
  - apply H, slots_within, request_abort_slots.
Qed.

Lemma run_orderly es : forall c, orderly c -> orderly (run c es).
Proof. induction es as [|e es IH]; intros c O; [done|]. change (run c (e :: es)) with (run (step c e) es). apply IH, (step_within e c), O. Qed.

Lemma initial_orderly opts c : new_Http2ClientConnection opts = Ok c -> orderly c.
Proof.
  unfold new_Http2ClientConnection. intros H. apply bind_Ok in H as (o & _ & H). apply bind_Ok in H as (d & _ & H).
  apply bind_Ok in H as (e & _ & H). destruct (new_Http2HeaderBlockAssembler _ _) as [a|]; [|done]. injection H as <-.
  right. split; [split; cbn; try done; by constructor|by intros _|done].
Qed.

(** ** Properties *)



(** C7: a connection shuts down.  Once GOAWAY was sent or received the connection
    drains; while it drains no step opens a stream; and as soon as the last stream
    is gone the connection ends. *)
Theorem drains_to_the_end opts c0 es e : new_Http2ClientConnection opts = Ok c0 ->
  let c := run c0 es in
  (localGoAwaySent c || remoteGoAwayReceived c = true -> ends c \/ draining c = true /\ streams c <> []) /\
  (draining c = true -> draining (step c e) = true /\ streams (step c e) `sublist_of` streams c).
Proof.
  intros H c. pose proof (run_orderly es c0 (initial_orderly opts c0 H)) as O. fold c in O. split.
  - intros Hg. destruct O as [E|[S F I]]; [by left|right]. split; [exact (sl_goodbye _ S Hg)|exact (I Hg)].
  - apply (wi_streams _ _ _ (step_within e c)).
Qed.

Lemma drains_to_the_end_witness :
  let c := run default_connection (example_limit ++ [example_goaway]) in
  new_Http2ClientConnection default_options = Ok default_connection /\
  remoteGoAwayReceived c = true /\ terminated c = false /\ streams c = [1] /\ pending_waiters c = [] /\
  terminated (step c example_end) = true /\
  (draining c = true -> draining (step c example_end) = true /\ streams (step c example_end) `sublist_of` streams c).
Proof.
  intros c. assert (E : new_Http2ClientConnection default_options = Ok default_connection) by (vm_compute; reflexivity).
  split; [exact E|]. split; [by vm_compute|]. split; [by vm_compute|]. split; [by vm_compute|]. split; [by vm_compute|]. split; [by vm_compute|].
  exact (proj2 (drains_to_the_end default_options default_connection (example_limit ++ [example_goaway]) example_end E)).
Defined.

(** The streams of a client are odd and opened in ascending order.  Until the
    connection ends, the streams whose HEADERS were sent have strictly ascending
    odd identifiers, none above [highestOpenedStreamId], by which the connection
    tells an idle stream from a closed one; and the next one is above it. *)
Theorem streams_ascend opts c0 es : new_Http2ClientConnection opts = Ok c0 ->
  let c := run c0 es in
  ends c \/ StronglySorted Z.lt (opened (sent c)) /\
    Forall (fun id => 1 <= id <= highestOpenedStreamId c /\ Z.odd id = true) (opened (sent c)) /\
    highestOpenedStreamId c < nextStreamId c.
Proof.
  intros H c. pose proof (run_orderly es c0 (initial_orderly opts c0 H)) as O. fold c in O.
  destruct O as [E|[[] F I]]; [by left|right]. split_and!; [done|done|lia].
Qed.

Lemma streams_ascend_witness :
  let c := run default_connection (example_start ++ example_open 1 true ++ example_open 2 false) in
  new_Http2ClientConnection default_options = Ok default_connection /\ opened (sent c) = [1; 3] /\
  (ends c \/ StronglySorted Z.lt (opened (sent c)) /\
    Forall (fun id => 1 <= id <= highestOpenedStreamId c /\ Z.odd id = true) (opened (sent c)) /\
    highestOpenedStreamId c < nextStreamId c).
Proof.
  intros c. assert (E : new_Http2ClientConnection default_options = Ok default_connection) by (vm_compute; reflexivity).
  split; [exact E|]. split; [by vm_compute|].
  exact (streams_ascend default_options default_connection (example_start ++ example_open 1 true ++ example_open 2 false) E).
Defined.

(** ** What the model shows *)

(** A request whose signal is aborted between its slot and its stream resets the
    stream before it opens it: RST_STREAM of stream 1 goes out before its HEADERS. *)
Lemma aborted_open_resets_idle_stream :
  map (fun f => (fr_type f, fr_streamId f)) (drop 3 (sent (run default_connection (example_start ++
    [ev_request 1 (example_request false) None; ev_reserve 1; ev_abort 1 (TypeError "aborted"); ev_open 1])))) =
  [(HTTP2_FRAME_RST_STREAM, 1); (HTTP2_FRAME_HEADERS, 1)].
Proof. by vm_compute. Qed.

(** When the identifiers of streams run out, [request] marks the connection as
    draining without a GOAWAY: a later [drain] then does nothing, and never ends. *)
Lemma drain_after_exhaustion c : started c = true -> draining c = true -> said_goodbye c = false -> terminated c = false ->
  drain c = (c, Ok tt).
Proof.
  intros Hs Hd Hg Ht. unfold said_goodbye in Hg. apply orb_false_iff in Hg as [H1 H2].
  unfold drain, finishDrainIfIdle, eff_bind, get_, eff_get. change (Datatypes.id c) with c. rewrite Ht, Hs, Hd. cbn [negb].
  change (Datatypes.id c) with c. rewrite H1, H2, Hd. cbn. by rewrite orb_true_r.
Qed.
