(* ===== verification/Utf8.v ===== *)
(** * UTF-8 ([core/utf8.ts])

    [utf8Length], the bounded [utf8Write] and the replacing [utf8Decode], with the
    encoding of a scalar value and the segmentation of a byte string as their
    specification. *)

From S2P Require Import Prelude.

(** [input.charCodeAt(i)] in a comparison: [NaN] outside the string compares
    false with everything, like a number below every unit. *)
Definition charCodeAt (l : jsstr) (i : Z) : Z := at_or (-1) l i.

(** ** Length *)

(** [for (let index = 0; index < input.length; index++)], by the rest of the
    input; a surrogate pair advances the index twice. *)
Fixpoint utf8Length (input : jsstr) : Z :=
  match input with
  | [] => 0
  | code :: rest =>
      if code <? 0x80 then 1 + utf8Length rest
      else if code <? 0x800 then 2 + utf8Length rest
      else
        match rest with
        | next :: rest' =>
            if (0xd800 <=? code) && (code <? 0xdc00) then
              if (0xdc00 <=? next) && (next <? 0xe000) then 4 + utf8Length rest'
              else 3 + utf8Length rest
            else 3 + utf8Length rest
        | [] => 3 + utf8Length rest
        end
  end.

(** ** Writing *)

Record Utf8WriteProgress := mk_progress {
  p_read : Z;
  p_written : Z;
}.

Record write_state := mk_write {
  w_output : list Z;
  w_outputIndex : Z;
  w_inputIndex : Z;
}.

(** The code point at the index and the units it takes. *)
Definition code_at (input : jsstr) (inputIndex : Z) : Z * Z :=
  let code := charCodeAt input inputIndex in
  if (0xd800 <=? code) && (code <? 0xdc00) then
    let next := if inputIndex + 1 <? len input then charCodeAt input (inputIndex + 1) else 0 in
    if (0xdc00 <=? next) && (next <? 0xe000)
    then (0x10000 + ((code - 0xd800) .<< 10) + next - 0xdc00, 2)
    else (0xfffd, 1)
  else if (0xdc00 <=? code) && (code <? 0xe000) then (0xfffd, 1)
  else (code, 1).

(** The bytes of the four branches. *)
Definition code_bytes (code : Z) : list Z :=
  if code <? 0x80 then [code]
  else if code <? 0x800 then [0xc0 .| (code .>> 6); 0x80 .| (code .& 0x3f)]
  else if code <? 0x10000 then
    [0xe0 .| (code .>> 12); 0x80 .| ((code .>> 6) .& 0x3f); 0x80 .| (code .& 0x3f)]
  else
    [0xf0 .| (code .>> 18); 0x80 .| ((code .>> 12) .& 0x3f); 0x80 .| ((code .>> 6) .& 0x3f);
     0x80 .| (code .& 0x3f)].

(** [output[outputIndex++] = byte] for each byte. *)
Definition put_bytes (output : list Z) (outputIndex : Z) (bytes : list Z) : list Z * Z :=
  foldl (fun '(output, i) byte => (set_u8 output i byte, i + 1)) (output, outputIndex) bytes.

(** [while (inputIndex < input.length)]: every iteration takes a unit. *)
Fixpoint write_loop (fuel : nat) (input : jsstr) (end_ : Z) (s : write_state) : write_state :=
  if w_inputIndex s <? len input then
    match fuel with
    | O => s
    | S fuel =>
        let '(code, inputUnits) := code_at input (w_inputIndex s) in
        let bytes := code_bytes code in
        if end_ <? w_outputIndex s + len bytes then s
        else
          let '(output, outputIndex) := put_bytes (w_output s) (w_outputIndex s) bytes in
          write_loop fuel input end_ (mk_write output outputIndex (w_inputIndex s + inputUnits))
    end
  else s.

(** The array written to and the progress; the code returns [p_written]. *)
Definition utf8Write (output : list Z) (input : jsstr) (offset maximum : Z)
    : list Z * Utf8WriteProgress :=
  let s := write_loop (length input) input (offset + maximum) (mk_write output offset 0) in
  (w_output s, mk_progress (w_inputIndex s) (w_outputIndex s - offset)).

(** ** Decoding *)

Record decode_state := mk_dstate {
  u_output : jsstr;
  codePoint : Z;
  bytesSeen : Z;
  bytesNeeded : Z;
  lowerBoundary : Z;
  upperBoundary : Z;
  u_index : Z;
}.

(** The units of a code point: a surrogate pair above [0xffff]. *)
Definition code_units (code : Z) : jsstr :=
  if 0xffff <? code then
    let supplementary := code - 0x10000 in
    [0xd800 + (supplementary .>> 10); 0xdc00 + (supplementary .& 0x3ff)]
  else [code].

(** One iteration: a rejected continuation byte is not consumed. *)
Definition udecode_step (byte : Z) (s : decode_state) : decode_state :=
  if bytesNeeded s =? 0 then
    let i := u_index s + 1 in
    if byte <=? 0x7f then
      mk_dstate (u_output s ++ [byte]) (codePoint s) (bytesSeen s) 0 (lowerBoundary s) (upperBoundary s) i
    else if (0xc2 <=? byte) && (byte <=? 0xdf) then
      mk_dstate (u_output s) (byte .& 0x1f) (bytesSeen s) 1 (lowerBoundary s) (upperBoundary s) i
    else if (0xe0 <=? byte) && (byte <=? 0xef) then
      mk_dstate (u_output s) (byte .& 0x0f) (bytesSeen s) 2
        (if byte =? 0xe0 then 0xa0 else lowerBoundary s) (if byte =? 0xed then 0x9f else upperBoundary s) i
    else if (0xf0 <=? byte) && (byte <=? 0xf4) then
      mk_dstate (u_output s) (byte .& 0x07) (bytesSeen s) 3
        (if byte =? 0xf0 then 0x90 else lowerBoundary s) (if byte =? 0xf4 then 0x8f else upperBoundary s) i
    else
      mk_dstate (u_output s ++ [0xfffd]) (codePoint s) (bytesSeen s) 0 (lowerBoundary s) (upperBoundary s) i
  else if (byte <? lowerBoundary s) || (upperBoundary s <? byte) then
    mk_dstate (u_output s ++ [0xfffd]) 0 0 0 0x80 0xbf (u_index s)
  else
    let code := (codePoint s .<< 6) .| (byte .& 0x3f) in
    let seen := bytesSeen s + 1 in
    if seen =? bytesNeeded s
    then mk_dstate (u_output s ++ code_units code) 0 0 0 0x80 0xbf (u_index s + 1)
    else mk_dstate (u_output s) code seen (bytesNeeded s) 0x80 0xbf (u_index s + 1).

(** [while (index < end)]: a byte is rejected at most once before it is taken,
    so twice the length is enough. *)
Fixpoint udecode_loop (fuel : nat) (bytes : list Z) (end_ : Z) (s : decode_state) : decode_state :=
  if u_index s <? end_ then
    match fuel with
    | O => s
    | S fuel =>
        match at_ bytes (u_index s) with
        | None => s
        | Some byte => udecode_loop fuel bytes end_ (udecode_step byte s)
        end
    end
  else s.

Definition utf8Decode (bytes : list Z) (start end_ : Z) : jsstr :=
  let s := udecode_loop (2 * Z.to_nat (end_ - start)) bytes end_ (mk_dstate [] 0 0 0 0x80 0xbf start) in
  if negb (bytesNeeded s =? 0) then u_output s ++ [0xfffd] else u_output s.

(** ** Specification *)

(** A Unicode scalar value. *)
Definition is_scalar (c : Z) : Prop := 0 <= c < 0xd800 \/ 0xe000 <= c <= 0x10ffff.
#[export] Instance is_scalar_dec c : Decision (is_scalar c).
Proof. unfold is_scalar. apply _. Defined.

(** Its UTF-8 bytes and its UTF-16 units. *)
Definition encode_scalar (c : Z) : list Z :=
  if c <? 0x80 then [c]
  else if c <? 0x800 then [0xc0 + c / 64; 0x80 + c mod 64]
  else if c <? 0x10000 then [0xe0 + c / 4096; 0x80 + c / 64 mod 64; 0x80 + c mod 64]
  else [0xf0 + c / 262144; 0x80 + c / 4096 mod 64; 0x80 + c / 64 mod 64; 0x80 + c mod 64].

Definition scalar_units (c : Z) : jsstr :=
  if c <? 0x10000 then [c] else [0xd800 + (c - 0x10000) / 1024; 0xdc00 + (c - 0x10000) mod 1024].

(** The scalar values of a string: an unpaired surrogate is U+FFFD
    ([USVString] conversion). *)
Fixpoint to_scalars (l : jsstr) : list Z :=
  match l with
  | [] => []
  | c :: rest =>
      if (0xd800 <=? c) && (c <? 0xdc00) then
        match rest with
        | d :: rest' =>
            if (0xdc00 <=? d) && (d <? 0xe000)
            then 0x10000 + (c - 0xd800) * 1024 + (d - 0xdc00) :: to_scalars rest'
            else 0xfffd :: to_scalars rest
        | [] => [0xfffd]
        end
      else if (0xdc00 <=? c) && (c <? 0xe000) then 0xfffd :: to_scalars rest
      else c :: to_scalars rest
  end.

Definition of_scalars (l : list Z) : jsstr := l ≫= scalar_units.
Definition encode_scalars (l : list Z) : list Z := l ≫= encode_scalar.

(** [p] starts the encoding of some scalar value. *)
Definition starts_encoding (p : list Z) : Prop :=
  exists c k, is_scalar c /\ encode_scalar c = p ++ k.

(** An ill-formed piece before [rest]: a byte that starts nothing, or the longest
    start of an encoding that [rest] does not continue. *)
Definition maximal_bad (p rest : list Z) : Prop :=
  (exists b, p = [b] /\ ~ starts_encoding [b]) \/
  (p <> [] /\ starts_encoding p /\ (forall c, is_scalar c -> encode_scalar c <> p) /\
   match rest with [] => True | b :: _ => ~ starts_encoding (p ++ [b]) end).

(** The segmentation of bytes into scalar values and ill-formed pieces, each of
    these one U+FFFD (the Unicode Standard's substitution of maximal subparts). *)
Inductive segments : list Z -> list Z -> Prop :=
| segments_nil : segments [] []
| segments_scalar c rest out :
    is_scalar c -> segments rest out -> segments (encode_scalar c ++ rest) (c :: out)
| segments_bad p rest out :
    maximal_bad p rest -> segments rest out -> segments (p ++ rest) (0xfffd :: out).
