(* ===== verification/Utf8Theory.v ===== *)
(** * UTF-8 is written, read and replaced as the Unicode Standard says *)

From S2P Require Import Prelude Utf8.

(** ** Specifications *)

(** The longest start of a list of scalar values whose bytes fit. *)
Fixpoint fitting (room : Z) (l : list Z) : list Z :=
  match l with
  | [] => []
  | c :: l =>
      let n := len (encode_scalar c) in
      if n <=? room then c :: fitting (room - n) l else []
  end.

(** What the decoder knows of a lead byte: the continuation bytes it needs and
    the bounds of the first. *)
Definition lead_needed (b : Z) : Z := if b <=? 0xdf then 1 else if b <=? 0xef then 2 else 3.
Definition lead_lower (b : Z) : Z := if b =? 0xe0 then 0xa0 else if b =? 0xf0 then 0x90 else 0x80.
Definition lead_upper (b : Z) : Z := if b =? 0xed then 0x9f else if b =? 0xf4 then 0x8f else 0xbf.

(** The bits of a lead byte and of its continuation bytes. *)
Definition lead_code (b : Z) : Z :=
  if b <=? 0xdf then b mod 32 else if b <=? 0xef then b mod 16 else b mod 8.
Definition cont_code (v : Z) (t : list Z) : Z := foldl (fun v b => v * 64 + b mod 64) v t.

Definition is_cont (b : Z) : Prop := 0x80 <= b <= 0xbf.
Definition conts_ok (b0 : Z) (t : list Z) : Prop :=
  match t with
  | [] => True
  | b1 :: t => lead_lower b0 <= b1 <= lead_upper b0 /\ Forall is_cont t
  end.

(** The decoder's state after the bytes [p] of an unfinished sequence. *)
Definition state_of (p : list Z) (s : decode_state) : Prop :=
  match p with
  | [] => bytesNeeded s = 0 /\ bytesSeen s = 0 /\ lowerBoundary s = 0x80 /\ upperBoundary s = 0xbf
  | b0 :: t =>
      0xc2 <= b0 <= 0xf4 /\ conts_ok b0 t /\ len t < lead_needed b0 /\
      bytesNeeded s = lead_needed b0 /\ bytesSeen s = len t /\
      codePoint s = cont_code (lead_code b0) t /\
      lowerBoundary s = (if len t =? 0 then lead_lower b0 else 0x80) /\
      upperBoundary s = (if len t =? 0 then lead_upper b0 else 0xbf)
  end.

(** The string when the input ends. *)
Definition final (s : decode_state) : jsstr :=
  if negb (bytesNeeded s =? 0) then u_output s ++ [0xfffd] else u_output s.

Definition decodes_to (p rest : list Z) (s s' : decode_state) : Prop :=
  exists out, segments (p ++ rest) out /\ Forall is_scalar out /\ final s' = u_output s ++ of_scalars out.

(** ** Encoding *)

Lemma shr_div c k : 0 <= c <= 0x10ffff -> 0 <= k < 32 -> c .>> k = c / 2 ^ k.
Proof. intros. apply js_shr_div; lia. Qed.

Lemma and63 c : c .& 0x3f = c mod 64.
Proof. apply (js_and_ones c 6). lia. Qed.

Lemma or_cont x : 0 <= x < 64 -> 0x80 .| x = 0x80 + x.
Proof. intros. apply (js_or_add _ _ 6); lia || done. Qed.

Lemma code_bytes_scalar c : 0 <= c <= 0x10ffff -> code_bytes c = encode_scalar c.
Proof.
  intros Hc. unfold code_bytes, encode_scalar. rewrite !and63, !shr_div by lia.
  change (2 ^ 6) with 64. change (2 ^ 12) with 4096. change (2 ^ 18) with 262144.
  rewrite !or_cont by (apply Z.mod_pos_bound; lia).
  destruct (Z.ltb_spec c 0x80); [done|].
  destruct (Z.ltb_spec c 0x800). { rewrite (js_or_add 0xc0 _ 5) by (done || (change (2 ^ 5) with 32; div_lia)). done. }
  destruct (Z.ltb_spec c 0x10000). { rewrite (js_or_add 0xe0 _ 4) by (done || (change (2 ^ 4) with 16; div_lia)). done. }
  rewrite (js_or_add 0xf0 _ 3) by (done || (change (2 ^ 3) with 8; div_lia)). done.
Qed.

Lemma len_encode c : len (encode_scalar c) =
  if c <? 0x80 then 1 else if c <? 0x800 then 2 else if c <? 0x10000 then 3 else 4.
Proof. unfold encode_scalar. by repeat case_match. Qed.

Lemma encode_bytes_ok c : is_scalar c -> is_bytes (encode_scalar c).
Proof.
  unfold is_scalar. intros Hc. unfold encode_scalar.
  destruct (Z.ltb_spec c 0x80); [|destruct (Z.ltb_spec c 0x800); [|destruct (Z.ltb_spec c 0x10000)]];
    repeat constructor; div_lia.
Qed.

(** ** Strings and their scalar values *)

Lemma strong_string (P : jsstr -> Prop) :
  (forall l, (forall k, (length k < length l)%nat -> P k) -> P l) -> forall l, P l.
Proof.
  intros Hstep l. remember (length l) as n eqn:Hn. revert l Hn.
  induction n as [n IH] using lt_wf_ind. intros l ->. apply Hstep. intros k Hk. by eapply IH.
Qed.

Lemma charCodeAt_mid (pre : jsstr) c rest : charCodeAt (pre ++ c :: rest) (len pre) = c.
Proof. unfold charCodeAt, at_or. by rewrite at_app_mid. Qed.

Lemma charCodeAt_next (pre : jsstr) c d rest : charCodeAt (pre ++ c :: d :: rest) (len pre + 1) = d.
Proof.
  rewrite (cons_middle c), app_assoc. replace (len pre + 1) with (len (pre ++ [c])) by by rewrite len_app.
  apply charCodeAt_mid.
Qed.

Lemma replacement_scalar : is_scalar 0xfffd.
Proof. right. lia. Qed.

(** The first code point of a string. *)
Lemma next_scalar pre rest : rest <> [] -> is_jsstr rest ->
  exists c n k, rest = n ++ k /\ n <> [] /\ is_scalar c /\
    code_at (pre ++ rest) (len pre) = (c, len n) /\ len n = len (scalar_units c) /\
    to_scalars rest = c :: to_scalars k /\ utf8Length rest = len (encode_scalar c) + utf8Length k.
Proof.
  intros Hne Hu. destruct rest as [|c rest]; [done|]. apply Forall_cons in Hu as [Hc Hu].
  unfold is_unit in Hc. unfold code_at. rewrite charCodeAt_mid. cbn [to_scalars utf8Length].
  destruct (Z.leb_spec 0xd800 c) as [Hlo|Hlo]; destruct (Z.ltb_spec c 0xdc00) as [Hhi|Hhi]; cbn [andb].
  - destruct (Z.ltb_spec c 0x80); [lia|]. destruct (Z.ltb_spec c 0x800); [lia|].
    destruct rest as [|d rest].
    + exists 0xfffd, [c], []. rewrite len_app. change (len [c]) with 1. rewrite Z.ltb_irrefl. split_and!; done || apply replacement_scalar.
    + rewrite len_app, !len_cons. pose proof (len_nonneg rest).
      destruct (Z.ltb_spec (len pre + 1) (len pre + (len rest + 1 + 1))); [|lia].
      rewrite charCodeAt_next. apply Forall_cons in Hu as [Hd Hu]. unfold is_unit in Hd.
      destruct ((0xdc00 <=? d) && (d <? 0xe000)) eqn:Hpair.
      * rewrite js_shl_mul by lia. change (2 ^ 10) with 1024.
        exists (65536 + (c - 55296) * 1024 + (d - 56320)), [c; d], rest.
        assert (Hs : 0x10000 <= 65536 + (c - 55296) * 1024 + (d - 56320) <= 0x10ffff) by lia.
        split_and!; [done|done|by right; lia|f_equal; lia| |done|].
        -- unfold scalar_units. destruct (Z.ltb_spec (65536 + (c - 55296) * 1024 + (d - 56320)) 0x10000); [lia|done].
        -- rewrite len_encode. repeat case_match; lia.
      * exists 0xfffd, [c], (d :: rest). split_and!; done || apply replacement_scalar.
  - destruct (Z.leb_spec 0xdc00 c); [|lia]. destruct (Z.ltb_spec c 0xe000) as [He|He]; cbn [andb].
    + destruct (Z.ltb_spec c 0x80); [lia|]. destruct (Z.ltb_spec c 0x800); [lia|].
      exists 0xfffd, [c], rest. split_and!; try done || apply replacement_scalar. destruct rest; done.
    + destruct (Z.ltb_spec c 0x80); [lia|]. destruct (Z.ltb_spec c 0x800); [lia|].
      exists c, [c], rest. split_and!; try done; [by right; lia| |].
      * unfold scalar_units. destruct (Z.ltb_spec c 0x10000); [done|lia].
      * rewrite len_encode. destruct rest; repeat case_match; lia.
  - exists c, [c], rest. destruct (Z.leb_spec 0xdc00 c); [lia|]. cbn [andb]. split_and!; try done; [by left; lia| |].
    + unfold scalar_units. destruct (Z.ltb_spec c 0x10000); [done|lia].
    + rewrite len_encode. destruct rest; repeat case_match; lia.
  - lia.
Qed.

Lemma to_scalars_ok l : is_jsstr l -> Forall is_scalar (to_scalars l).
Proof.
  induction l as [l IH] using strong_string. intros Hu. destruct (decide (l = [])) as [->|Hne]; [constructor|].
  destruct (next_scalar [] l Hne Hu) as (c & n & k & -> & Hn & Hc & _ & _ & -> & _).
  apply Forall_app in Hu as [_ Hk]. constructor; [done|]. apply IH; [|done].
  rewrite length_app. destruct n; [done|]. cbn. lia.
Qed.

Lemma utf8Length_scalars l : is_jsstr l -> utf8Length l = len (encode_scalars (to_scalars l)).
Proof.
  induction l as [l IH] using strong_string. intros Hu. destruct (decide (l = [])) as [->|Hne]; [done|].
  destruct (next_scalar [] l Hne Hu) as (c & n & k & -> & Hn & Hc & _ & _ & -> & ->).
  apply Forall_app in Hu as [_ Hk]. unfold encode_scalars. rewrite bind_cons, len_app, IH; [done| |done].
  rewrite length_app. destruct n; [done|]. cbn. lia.
Qed.

(** ** The bounded write *)

Lemma put_bytes_range bytes : forall o i, 0 <= i -> i + len bytes <= len o -> is_bytes bytes ->
  put_bytes o i bytes = (set_range o i bytes, i + len bytes).
Proof.
  induction bytes as [|b bytes IH]; intros o i Hi Hl Hb.
  - cbn. unfold set_range. cbn [app length]. rewrite Nat.add_0_r, take_drop. by rewrite (@len_nil Z), Z.add_0_r.
  - apply Forall_cons in Hb as [Hb Hbs]. rewrite len_cons in Hl. pose proof (len_nonneg bytes).
    unfold put_bytes. cbn [foldl]. fold (put_bytes (set_u8 o i b) (i + 1) bytes).
    assert (Hset : set_u8 o i b = take (Z.to_nat i) o ++ b :: drop (Z.to_nat (i + 1)) o).
    { unfold set_u8. destruct (Z.ltb_spec i 0); [lia|]. rewrite to_uint8_small by done.
      rewrite insert_take_drop by (unfold len in *; lia). do 3 f_equal. lia. }
    rewrite IH; [|lia| |done].
    2: { unfold set_u8. destruct (i <? 0); unfold len in *; rewrite ?length_insert; lia. }
    rewrite len_cons. f_equal; [|lia]. rewrite Hset. unfold set_range.
    assert (Hlt : length (take (Z.to_nat i) o) = Z.to_nat i) by (rewrite length_take; unfold len in *; lia).
    replace (Z.to_nat (i + 1)) with (Z.to_nat i + 1)%nat by lia.
    rewrite (cons_middle b), (app_assoc (take (Z.to_nat i) o) [b]).
    rewrite take_app_length' by (rewrite length_app, Hlt; done).
    rewrite <- app_assoc. cbn [app]. f_equal. f_equal. f_equal.
    rewrite drop_app_ge by (rewrite length_app, Hlt; cbn; lia).
    rewrite length_app, Hlt, drop_drop. cbn [length]. f_equal. lia.
Qed.

Lemma set_range_app o i a b : 0 <= i -> i + len a + len b <= len o ->
  set_range (set_range o i a) (i + len a) b = set_range o i (a ++ b).
Proof.
  intros Hi Hl. unfold set_range, len in *.
  assert (Hlt : length (take (Z.to_nat i) o) = Z.to_nat i) by (rewrite length_take; lia).
  rewrite (app_assoc (take _ o)), take_app_length' by (rewrite length_app, Hlt; lia).
  rewrite <- !app_assoc. f_equal. f_equal. f_equal.
  rewrite (app_assoc (take _ o)), drop_app_ge by (rewrite length_app, Hlt; lia).
  rewrite drop_drop, !length_app, Hlt. f_equal. lia.
Qed.

Lemma len_set_range o i b : 0 <= i -> i + len b <= len o -> len (set_range o i b) = len o.
Proof.
  intros Hi Hl. unfold set_range, len in *. rewrite !length_app, length_take, length_drop. lia.
Qed.

Lemma fitting_bytes l : forall r, 0 <= r -> len (encode_scalars (fitting r l)) <= r.
Proof.
  induction l as [|x l IH]; intros r Hr; [done|]. cbn [fitting].
  destruct (Z.leb_spec (len (encode_scalar x)) r); [|done].
  unfold encode_scalars. rewrite bind_cons, len_app. specialize (IH (r - len (encode_scalar x))).
  unfold encode_scalars in IH. lia.
Qed.

Lemma write_loop_spec fuel : forall pre rest o i end_,
  (length rest <= fuel)%nat -> is_jsstr rest -> 0 <= i -> end_ <= len o -> i <= end_ ->
  let cs := fitting (end_ - i) (to_scalars rest) in
  write_loop fuel (pre ++ rest) end_ (mk_write o i (len pre))
  = mk_write (set_range o i (encode_scalars cs)) (i + len (encode_scalars cs)) (len pre + len (of_scalars cs)).
Proof.
  assert (Hstop : forall pre o i end_, 0 <= i <= end_ -> end_ <= len o ->
    mk_write o i (len pre) = mk_write (set_range o i (encode_scalars [])) (i + len (encode_scalars []))
      (len (A:=Z) pre + len (of_scalars []))).
  { intros pre o i end_ Hi Ho. unfold set_range. cbn. rewrite Nat.add_0_r, take_drop, (@len_nil Z), !Z.add_0_r. done. }
  induction fuel as [|fuel IH]; intros pre rest o i end_ Hf Hu Hi Ho He; cbn [write_loop w_inputIndex].
  - destruct rest; [|cbn in Hf; lia]. rewrite app_nil_r, Z.ltb_irrefl. by eapply Hstop.
  - destruct (decide (rest = [])) as [->|Hne].
    { rewrite app_nil_r, Z.ltb_irrefl. by eapply Hstop. }
    destruct (next_scalar pre rest Hne Hu) as (c & n & k & -> & Hn & Hc & Hcode & Hnl & Hts & _).
    rewrite Hts, Hcode. rewrite !len_app. pose proof (len_nonneg k).
    assert (1 <= len n) by (destruct n; [done|]; rewrite len_cons; pose proof (len_nonneg n); lia).
    destruct (Z.ltb_spec (len pre) (len pre + (len n + len k))); [|lia].
    rewrite code_bytes_scalar by (unfold is_scalar in Hc; lia). cbn [w_output w_outputIndex fitting].
    pose proof (len_nonneg (encode_scalar c)) as Hcl.
    destruct (Z.leb_spec (len (encode_scalar c)) (end_ - i)) as [Hfit|Hfit];
      destruct (Z.ltb_spec end_ (i + len (encode_scalar c))); try lia; [|by eapply Hstop].
    rewrite put_bytes_range by (lia || by apply encode_bytes_ok).
    rewrite app_assoc, <- (len_app pre). apply Forall_app in Hu as [_ Hk].
    specialize (IH (pre ++ n) k (set_range o i (encode_scalar c)) (i + len (encode_scalar c)) end_).
    cbv zeta in IH. rewrite IH; [|rewrite length_app in Hf; destruct n; [done|]; cbn in Hf; lia|done|lia| |lia].
    2: { rewrite len_set_range by lia. done. }
    replace (end_ - (i + len (encode_scalar c))) with (end_ - i - len (encode_scalar c)) by lia.
    set (cs := fitting _ _). unfold encode_scalars, of_scalars. rewrite !bind_cons, !len_app.
    fold (encode_scalars cs). fold (of_scalars cs).
    assert (Hcs : len (encode_scalars cs) <= end_ - i - len (encode_scalar c)).
    { subst cs. apply fitting_bytes. lia. }
    rewrite set_range_app by lia. f_equal; lia.
Qed.

(** ** Which bytes start an encoding *)

(** The bytes of a scalar value are one ASCII byte, or a lead byte with its
    continuation bytes in bounds. *)
Lemma encode_shape c : is_scalar c ->
  (0 <= c < 0x80 /\ encode_scalar c = [c]) \/
  exists b0 t, encode_scalar c = b0 :: t /\ 0xc2 <= b0 <= 0xf4 /\ len t = lead_needed b0 /\ conts_ok b0 t.
Proof.
  unfold is_scalar. intros Hc. unfold encode_scalar.
  destruct (Z.ltb_spec c 0x80); [left; split; [lia|done]|right].
  unfold lead_needed, conts_ok, lead_lower, lead_upper.
  destruct (Z.ltb_spec c 0x800); [|destruct (Z.ltb_spec c 0x10000)]; eexists _, _; (split; [done|]).
  - assert (0xc2 <= 0xc0 + c / 64 <= 0xdf) by div_lia.
    split; [lia|]. destruct (Z.leb_spec (192 + c / 64) 223); [|lia]. split; [done|].
    repeat match goal with |- context [?a =? ?b] => destruct (Z.eqb_spec a b); [lia|] end.
    split; [div_lia|constructor].
  - assert (0xe0 <= 0xe0 + c / 4096 <= 0xef) by div_lia.
    split; [lia|]. destruct (Z.leb_spec (224 + c / 4096) 223); [lia|].
    destruct (Z.leb_spec (224 + c / 4096) 239); [|lia]. split; [done|].
    split; [|constructor; [unfold is_cont; div_lia|constructor]].
    destruct (Z.eqb_spec (224 + c / 4096) 0xe0), (Z.eqb_spec (224 + c / 4096) 0xf0),
      (Z.eqb_spec (224 + c / 4096) 0xed), (Z.eqb_spec (224 + c / 4096) 0xf4); try lia; div_lia.
  - assert (0xf0 <= 0xf0 + c / 262144 <= 0xf4) by div_lia.
    split; [lia|]. destruct (Z.leb_spec (240 + c / 262144) 223); [lia|].
    destruct (Z.leb_spec (240 + c / 262144) 239); [lia|]. split; [done|].
    split; [|repeat constructor; unfold is_cont; div_lia].
    destruct (Z.eqb_spec (240 + c / 262144) 0xe0), (Z.eqb_spec (240 + c / 262144) 0xf0),
      (Z.eqb_spec (240 + c / 262144) 0xed), (Z.eqb_spec (240 + c / 262144) 0xf4); try lia; div_lia.
Qed.

(** A complete sequence encodes the scalar value its bits make. *)
Lemma complete_sequence b0 t : 0xc2 <= b0 <= 0xf4 -> conts_ok b0 t -> len t = lead_needed b0 ->
  let c := cont_code (lead_code b0) t in
  is_scalar c /\ encode_scalar c = b0 :: t /\ 0x80 <= c.
Proof.
  intros Hb Ht Hl. unfold lead_needed, lead_code in *. unfold conts_ok, lead_lower, lead_upper in Ht.
  destruct (Z.leb_spec b0 0xdf) as [H1|H1]; [|destruct (Z.leb_spec b0 0xef) as [H2|H2]].
  - destruct t as [|b1 [|]]; try (unfold len in Hl; cbn in Hl; lia). destruct Ht as [Ht _].
    repeat match type of Ht with context [?a =? ?b] => destruct (Z.eqb_spec a b); [lia|] end.
    cbn [cont_code foldl]. set (c := b0 mod 32 * 64 + b1 mod 64).
    assert (Hc : 0x80 <= c < 0x800) by (unfold c; div_lia).
    split; [left; lia|]. split; [|lia]. unfold encode_scalar.
    destruct (Z.ltb_spec c 0x80); [lia|]. destruct (Z.ltb_spec c 0x800); [|lia].
    unfold c. repeat f_equal; div_lia.
  - destruct t as [|b1 [|b2 [|]]]; try (unfold len in Hl; cbn in Hl; lia). destruct Ht as [Ht Hcs].
    apply Forall_cons in Hcs as [Hb2 _]. unfold is_cont in Hb2.
    cbn [cont_code foldl]. set (c := (b0 mod 16 * 64 + b1 mod 64) * 64 + b2 mod 64).
    assert (Hb1 : 0x80 <= b1 <= 0xbf /\ (b0 = 0xe0 -> 0xa0 <= b1) /\ (b0 = 0xed -> b1 <= 0x9f)).
    { destruct (Z.eqb_spec b0 0xe0), (Z.eqb_spec b0 0xf0), (Z.eqb_spec b0 0xed), (Z.eqb_spec b0 0xf4); lia. }
    assert (Hc : 0x800 <= c < 0x10000 /\ (c < 0xd800 \/ 0xe000 <= c)) by (unfold c; div_lia).
    split; [unfold is_scalar; lia|]. split; [|lia]. unfold encode_scalar.
    destruct (Z.ltb_spec c 0x80); [lia|]. destruct (Z.ltb_spec c 0x800); [lia|].
    destruct (Z.ltb_spec c 0x10000); [|lia]. unfold c. repeat f_equal; div_lia.
  - destruct t as [|b1 [|b2 [|b3 [|]]]]; try (unfold len in Hl; cbn in Hl; lia). destruct Ht as [Ht Hcs].
    apply Forall_cons in Hcs as [Hb2 Hcs]. apply Forall_cons in Hcs as [Hb3 _]. unfold is_cont in Hb2, Hb3.
    cbn [cont_code foldl]. set (c := ((b0 mod 8 * 64 + b1 mod 64) * 64 + b2 mod 64) * 64 + b3 mod 64).
    assert (Hb1 : 0x80 <= b1 <= 0xbf /\ (b0 = 0xf0 -> 0x90 <= b1) /\ (b0 = 0xf4 -> b1 <= 0x8f)).
    { destruct (Z.eqb_spec b0 0xe0), (Z.eqb_spec b0 0xf0), (Z.eqb_spec b0 0xed), (Z.eqb_spec b0 0xf4); lia. }
    assert (Hc : 0x10000 <= c <= 0x10ffff) by (unfold c; div_lia).
    split; [unfold is_scalar; lia|]. split; [|lia]. unfold encode_scalar.
    destruct (Z.ltb_spec c 0x80); [lia|]. destruct (Z.ltb_spec c 0x800); [lia|].
    destruct (Z.ltb_spec c 0x10000); [lia|]. unfold c. repeat f_equal; div_lia.
Qed.

Lemma lead_bounds b0 : 0x80 <= lead_lower b0 <= lead_upper b0 /\ lead_upper b0 <= 0xbf.
Proof. unfold lead_lower, lead_upper. repeat case_match; lia. Qed.

Lemma lead_needed_range b0 : 1 <= lead_needed b0 <= 3.
Proof. unfold lead_needed. repeat case_match; lia. Qed.

Lemma conts_ok_app b0 t k : conts_ok b0 (t ++ k) <->
  conts_ok b0 t /\ match t with [] => conts_ok b0 k | _ => Forall is_cont k end.
Proof. destruct t as [|b1 t]; cbn; [tauto|]. rewrite Forall_app. tauto. Qed.

(** An unfinished sequence starts an encoding and is none. *)
Lemma unfinished_starts b0 t : 0xc2 <= b0 <= 0xf4 -> conts_ok b0 t -> len t <= lead_needed b0 ->
  starts_encoding (b0 :: t).
Proof.
  intros Hb Ht Hl. pose proof (lead_bounds b0) as Hlb.
  set (m := Z.to_nat (lead_needed b0 - len t)).
  assert (Hk : exists k, conts_ok b0 (t ++ k) /\ length k = m).
  { destruct t as [|b1 t].
    - destruct m as [|n]; [by exists []|]. exists (lead_lower b0 :: replicate n 0x80).
      cbn [app conts_ok length]. rewrite length_replicate. split; [|done]. split; [lia|].
      apply Forall_replicate. unfold is_cont. lia.
    - exists (replicate m 0x80). rewrite length_replicate. split; [|done]. apply conts_ok_app. split; [done|].
      apply Forall_replicate. unfold is_cont. lia. }
  destruct Hk as (k & Hok & Hlk).
  destruct (complete_sequence b0 (t ++ k)) as (Hs & He & _); [done|done|rewrite len_app; unfold len in *; lia|].
  eexists _, k. split; [exact Hs|]. by rewrite He.
Qed.

Lemma unfinished_no_encoding b0 t c :
  0xc2 <= b0 <= 0xf4 -> len t < lead_needed b0 -> is_scalar c -> encode_scalar c <> b0 :: t.
Proof.
  intros Hb Hl Hc E. destruct (encode_shape c Hc) as [[Hr E1]|(b & t' & E1 & Hb' & Hl' & _)]; rewrite E in E1.
  - injection E1 as -> _. lia.
  - injection E1 as <- <-. lia.
Qed.

(** The byte after an unfinished sequence that starts an encoding is in bounds. *)
Lemma starts_next b0 t b : 0xc2 <= b0 <= 0xf4 -> starts_encoding (b0 :: t ++ [b]) ->
  (if len t =? 0 then lead_lower b0 else 0x80) <= b <= (if len t =? 0 then lead_upper b0 else 0xbf).
Proof.
  intros Hb (c & k & Hc & E). destruct (encode_shape c Hc) as [[Hr E1]|(b' & t' & E1 & Hb' & Hl' & Hok)]; rewrite E in E1.
  - injection E1 as -> _. lia.
  - cbn [app] in E1. rewrite <- app_assoc in E1. injection E1 as <- <-. destruct t as [|b1 t].
    + rewrite (@len_nil Z). cbn in Hok |- *. lia.
    + rewrite len_cons. pose proof (len_nonneg t). destruct (Z.eqb_spec (len t + 1) 0); [lia|].
      apply conts_ok_app in Hok as [_ Hk]. apply Forall_cons in Hk as [Hk _]. exact Hk.
Qed.

Lemma starts_one b : starts_encoding [b] -> 0 <= b < 0x80 \/ 0xc2 <= b <= 0xf4.
Proof.
  intros (c & k & Hc & E). destruct (encode_shape c Hc) as [[Hr E1]|(b' & t' & E1 & Hb' & _)]; rewrite E in E1;
    injection E1 as -> _; lia.
Qed.

(** ** The decoder's steps *)

Lemma code_units_scalar c : 0 <= c <= 0x10ffff -> code_units c = scalar_units c.
Proof.
  intros Hc. unfold code_units, scalar_units.
  destruct (Z.ltb_spec 0xffff c), (Z.ltb_spec c 0x10000); try lia; [|done]. cbv zeta.
  rewrite js_shr_div by lia. change 0x3ff with (2 ^ 10 - 1). rewrite js_and_ones by lia. done.
Qed.

Lemma lead_and b : 0xc2 <= b <= 0xf4 ->
  (if b <=? 0xdf then b .& 0x1f else if b <=? 0xef then b .& 0x0f else b .& 0x07) = lead_code b.
Proof.
  intros Hb. unfold lead_code. change 0x1f with (2 ^ 5 - 1). change 0x0f with (2 ^ 4 - 1). change 0x07 with (2 ^ 3 - 1).
  by rewrite !js_and_ones by lia.
Qed.

(** The first byte of a sequence. *)
Lemma lead_step b s : is_byte b -> state_of [] s ->
  (b < 0x80 /\ state_of [] (udecode_step b s) /\ u_output (udecode_step b s) = u_output s ++ [b] /\
     u_index (udecode_step b s) = u_index s + 1) \/
  (0xc2 <= b <= 0xf4 /\ state_of [b] (udecode_step b s) /\ u_output (udecode_step b s) = u_output s /\
     u_index (udecode_step b s) = u_index s + 1) \/
  (~ starts_encoding [b] /\ state_of [] (udecode_step b s) /\
     u_output (udecode_step b s) = u_output s ++ [0xfffd] /\ u_index (udecode_step b s) = u_index s + 1).
Proof.
  intros Hb (Hn & Hs & Hlo & Hup). unfold is_byte in Hb. unfold udecode_step. rewrite Hn. cbn [Z.eqb].
  destruct (Z.leb_spec b 0x7f); [left; split; [lia|]; by cbn|right].
  pose proof (lead_and b) as Hcode. unfold state_of, lead_needed, lead_lower, lead_upper.
  destruct (Z.leb_spec 0xc2 b); cbn [andb].
  2: { right. split; [intros Hst%starts_one; lia|].
       destruct (Z.leb_spec 0xe0 b); [lia|]. destruct (Z.leb_spec 0xf0 b); [lia|]. cbn. done. }
  destruct (Z.leb_spec b 0xdf); cbn [andb].
  { left. split; [lia|]. cbn. rewrite Hlo, Hup, Hs. split; [|done].
    assert (b <> 0xe0 /\ b <> 0xed /\ b <> 0xf0 /\ b <> 0xf4) as (? & ? & ? & ?) by lia.
    repeat match goal with |- context [?a =? ?b] => destruct (Z.eqb_spec a b); [lia|] end.
    split_and!; done || lia || (rewrite <- Hcode by lia; done). }
  destruct (Z.leb_spec 0xe0 b); [|lia]. destruct (Z.leb_spec b 0xef); cbn [andb].
  { left. split; [lia|]. cbn. rewrite Hlo, Hup, Hs. split; [|done].
    assert (b <> 0xf0 /\ b <> 0xf4) as [? ?] by lia.
    destruct (Z.eqb_spec b 0xf0); [lia|]. destruct (Z.eqb_spec b 0xf4); [lia|].
    split_and!; done || lia || (rewrite <- Hcode by lia; done). }
  destruct (Z.leb_spec 0xf0 b); [|lia]. destruct (Z.leb_spec b 0xf4); cbn [andb].
  { left. split; [lia|]. cbn. rewrite Hlo, Hup, Hs. split; [|done].
    destruct (Z.eqb_spec b 0xe0); [lia|]. destruct (Z.eqb_spec b 0xed); [lia|].
    split_and!; done || lia || (rewrite <- Hcode by lia; done). }
  right. split; [intros Hst%starts_one; lia|]. cbn. done.
Qed.

Lemma cont_code_bound b0 t : len t < lead_needed b0 -> is_byte b0 -> 0 <= cont_code (lead_code b0) t < 32768.
Proof.
  intros Hl Hb. unfold lead_needed, lead_code, is_byte in *.
  assert (Hm : forall x, 0 <= x mod 64 < 64) by (intros; apply Z.mod_pos_bound; lia).
  destruct (Z.leb_spec b0 0xdf); [|destruct (Z.leb_spec b0 0xef)];
    destruct t as [|b1 [|b2 [|b3 t]]]; try (unfold len in Hl; cbn [length] in Hl; lia); cbn [cont_code foldl];
    try pose proof (Hm b1); try pose proof (Hm b2); div_lia.
Qed.

Lemma cont_code_snoc v t b : cont_code v (t ++ [b]) = cont_code v t * 64 + b mod 64.
Proof. unfold cont_code. by rewrite foldl_app. Qed.

(** A byte after an unfinished sequence. *)
Lemma cont_step b0 t b s : is_byte b -> state_of (b0 :: t) s ->
  (~ starts_encoding (b0 :: t ++ [b]) /\ state_of [] (udecode_step b s) /\
     u_output (udecode_step b s) = u_output s ++ [0xfffd] /\ u_index (udecode_step b s) = u_index s) \/
  (state_of (b0 :: t ++ [b]) (udecode_step b s) /\ u_output (udecode_step b s) = u_output s /\
     u_index (udecode_step b s) = u_index s + 1) \/
  (exists c, is_scalar c /\ encode_scalar c = b0 :: t ++ [b] /\
     c = (codePoint s .<< 6) .| (b .& 0x3f) /\ state_of [] (udecode_step b s) /\
     u_output (udecode_step b s) = u_output s ++ scalar_units c /\ u_index (udecode_step b s) = u_index s + 1).
Proof.
  intros Hb (Hb0 & Hok & Hl & Hn & Hs & Hc & Hlo & Hup).
  pose proof (lead_needed_range b0) as Hr. unfold udecode_step. rewrite Hn, Hs, Hlo, Hup.
  destruct (Z.eqb_spec (lead_needed b0) 0); [lia|].
  destruct ((b <? _) || (_ <? b)) eqn:Hin.
  { left. split; [|by cbn]. intros Hst. apply starts_next in Hst; [|done].
    apply orb_true_iff in Hin as [Hin%Z.ltb_lt|Hin%Z.ltb_lt]; lia. }
  apply orb_false_iff in Hin as [Hin1%Z.ltb_ge Hin2%Z.ltb_ge].
  assert (Hok' : conts_ok b0 (t ++ [b])).
  { apply conts_ok_app. split; [done|]. destruct t as [|b1 t].
    - rewrite (@len_nil Z) in Hin1, Hin2. cbn in Hin1, Hin2 |- *. split; [lia|constructor].
    - rewrite len_cons in Hin1, Hin2. pose proof (len_nonneg t). destruct (Z.eqb_spec (len t + 1) 0); [lia|].
      apply Forall_singleton. unfold is_cont. lia. }
  pose proof (cont_code_bound b0 t Hl ltac:(unfold is_byte; lia)) as Hbound.
  assert (Hcode : (codePoint s .<< 6) .| (b .& 0x3f) = cont_code (lead_code b0) (t ++ [b])).
  { rewrite Hc, js_shl_mul, and63 by lia. change (2 ^ 6) with 64. pose proof (Z.mod_pos_bound b 64).
    rewrite (js_or_add _ _ 6) by ((change (2 ^ 6) with 64; apply Z.mod_mul; lia) || lia).
    by rewrite <- cont_code_snoc. }
  rewrite Hcode. right. destruct (Z.eqb_spec (len t + 1) (lead_needed b0)) as [Heq|Hne].
  - right. destruct (complete_sequence b0 (t ++ [b])) as (Hsc & He & _); [done|done|by rewrite len_app|].
    eexists. split; [exact Hsc|]. split; [done|]. split; [done|]. split; [by cbn|]. cbn [u_output u_index].
    split; [|done]. rewrite code_units_scalar; [done|]. unfold is_scalar in Hsc. lia.
  - left. cbn. split; [|done]. split; [done|]. split; [done|]. rewrite len_app. change (len [b]) with 1.
    pose proof (len_nonneg t). destruct (Z.eqb_spec (len t + 1) 0); [lia|]. split_and!; done || lia.
Qed.

(** ** Decoding a byte string *)

Lemma bad_scalar : of_scalars [0xfffd] = [0xfffd].
Proof. done. Qed.

Lemma of_scalars_cons c l : of_scalars (c :: l) = scalar_units c ++ of_scalars l.
Proof. apply bind_cons. Qed.

(** A step that outputs the units of [c] for the piece [q], and the rest. *)
Lemma decodes_scalar q c rest s1 s2 s' :
  encode_scalar c = q -> is_scalar c -> u_output s2 = u_output s1 ++ scalar_units c ->
  decodes_to [] rest s2 s' -> decodes_to q rest s1 s'.
Proof.
  intros <- Hc Ho (out & Hseg & Hsc & Hf). exists (c :: out). split; [by apply segments_scalar|].
  split; [by constructor|]. by rewrite Hf, Ho, of_scalars_cons, app_assoc.
Qed.

Lemma decodes_bad q rest s1 s2 s' :
  maximal_bad q rest -> u_output s2 = u_output s1 ++ [0xfffd] ->
  decodes_to [] rest s2 s' -> decodes_to q rest s1 s'.
Proof.
  intros Hq Ho (out & Hseg & Hsc & Hf). exists (0xfffd :: out). split; [by apply segments_bad|].
  split; [constructor; [apply replacement_scalar|done]|]. by rewrite Hf, Ho, of_scalars_cons, app_assoc.
Qed.

Lemma decodes_more p b rest s1 s2 s' :
  u_output s2 = u_output s1 -> decodes_to (p ++ [b]) rest s2 s' -> decodes_to p (b :: rest) s1 s'.
Proof. intros Ho (out & Hseg & Hsc & Hf). exists out. by rewrite <- Ho, (cons_middle b p), app_assoc. Qed.

Lemma maximal_unfinished b0 t rest s : state_of (b0 :: t) s ->
  match rest with [] => True | b :: _ => ~ starts_encoding (b0 :: t ++ [b]) end -> maximal_bad (b0 :: t) rest.
Proof.
  intros (Hb0 & Hok & Hl & _) Hrest. right. split; [done|]. split; [apply unfinished_starts; done || lia|].
  split; [|done]. intros c Hc. by apply unfinished_no_encoding.
Qed.

Lemma udecode_loop_spec bytes post rest : forall pre p s fuel,
  bytes = pre ++ rest ++ post -> is_bytes rest -> state_of p s -> u_index s = len pre ->
  (2 * length rest <= fuel)%nat ->
  decodes_to p rest s (udecode_loop fuel bytes (len pre + len rest) s).
Proof.
  induction rest as [|b rest IH]; intros pre p s fuel Hbytes Hr Hs Hi Hf.
  - assert (Hstop : udecode_loop fuel bytes (len pre + len (@nil Z)) s = s).
    { destruct fuel; cbn [udecode_loop]; rewrite Hi, (@len_nil Z), Z.add_0_r, Z.ltb_irrefl; done. }
    rewrite Hstop. destruct p as [|b0 t].
    + destruct Hs as (Hn & _). exists []. split; [constructor|]. split; [constructor|].
      unfold final. rewrite Hn. cbn. by rewrite app_nil_r.
    + exists [0xfffd]. split; [|split; [constructor; [apply replacement_scalar|constructor]|]].
      * apply (segments_bad (b0 :: t) []); [by eapply maximal_unfinished|constructor].
      * unfold final. destruct Hs as (_ & _ & _ & Hn & _). rewrite Hn. pose proof (lead_needed_range b0).
        by destruct (Z.eqb_spec (lead_needed b0) 0); [lia|].
  - apply Forall_cons in Hr as [Hb Hr].
    assert (Hat : at_ bytes (len pre) = Some b) by (rewrite Hbytes; apply at_app_mid).
    rewrite len_cons. replace (len pre + (len rest + 1)) with (len (pre ++ [b]) + len rest) by (rewrite len_app, len_cons, (@len_nil Z); lia).
    pose proof (len_nonneg rest) as Hrn.
    assert (Hbytes' : bytes = (pre ++ [b]) ++ rest ++ post) by (rewrite Hbytes, <- app_assoc; done).
    assert (Hloop : forall s fuel, u_index s = len pre ->
      udecode_loop (S fuel) bytes (len (pre ++ [b]) + len rest) s =
      udecode_loop fuel bytes (len (pre ++ [b]) + len rest) (udecode_step b s)).
    { intros s1 f1 Hi1. cbn [udecode_loop]. rewrite Hi1, Hat, len_app. change (len [b]) with 1.
      by destruct (Z.ltb_spec (len pre) (len pre + 1 + len rest)); [|lia]. }
    assert (Hnext : forall i, i = len pre + 1 -> i = len (pre ++ [b])) by (intros i ->; by rewrite len_app).
    (* From no pending bytes, [b] is the first of a sequence. *)
    assert (Hlead : forall s fuel, state_of [] s -> u_index s = len pre -> (2 * length rest <= fuel)%nat ->
      decodes_to [] (b :: rest) s (udecode_loop (S fuel) bytes (len (pre ++ [b]) + len rest) s)).
    { intros s1 f1 Hs1 Hi1 Hf1. rewrite Hloop by done.
      destruct (lead_step b s1 Hb Hs1) as [(Hlt & Hst & Ho & Hix)|[(Hlt & Hst & Ho & Hix)|(Hno & Hst & Ho & Hix)]];
        rewrite Hi1 in Hix; apply Hnext in Hix; specialize (IH _ _ _ f1 Hbytes' Hr Hst Hix Hf1).
      - unfold is_byte in Hb. eapply (decodes_scalar [b] b); [| | |exact IH].
        + unfold encode_scalar. by destruct (Z.ltb_spec b 0x80); [|lia].
        + left. lia.
        + rewrite Ho. f_equal. unfold scalar_units. by destruct (Z.ltb_spec b 0x10000); [|lia].
      - by eapply decodes_more.
      - eapply (decodes_bad [b]); [|exact Ho|exact IH]. left. by exists b. }
    destruct fuel as [|fuel]; [cbn in Hf; lia|]. cbn [length] in Hf. destruct p as [|b0 t].
    + apply Hlead; done || lia.
    + destruct (cont_step b0 t b s Hb Hs) as [(Hno & Hst & Ho & Hix)|[(Hst & Ho & Hix)|(c & Hc & He & _ & Hst & Ho & Hix)]].
      * rewrite Hloop by done. destruct fuel as [|fuel]; [lia|].
        eapply decodes_bad; [by eapply maximal_unfinished|exact Ho|]. apply Hlead; [done|by rewrite Hix|lia].
      * rewrite Hloop by done. eapply decodes_more; [exact Ho|].
        apply (IH (pre ++ [b])); [done|done|done|apply Hnext; lia|lia].
      * rewrite Hloop by done.
        assert (Hd : decodes_to (b0 :: t ++ [b]) rest s
          (udecode_loop fuel bytes (len (pre ++ [b]) + len rest) (udecode_step b s))).
        { eapply decodes_scalar; [exact He|done|exact Ho|].
          apply (IH (pre ++ [b])); [done|done|done|apply Hnext; lia|lia]. }
        destruct Hd as (out & Hseg & Hrest). exists out. split; [|done].
        rewrite (cons_middle b), app_assoc. exact Hseg.
Qed.

Lemma utf8Decode_segments pre mid post : is_bytes mid -> exists out,
  segments mid out /\ Forall is_scalar out /\
  utf8Decode (pre ++ mid ++ post) (len pre) (len pre + len mid) = of_scalars out.
Proof.
  intros Hm. unfold utf8Decode. fold (final (udecode_loop (2 * Z.to_nat (len pre + len mid - len pre))
    (pre ++ mid ++ post) (len pre + len mid) (mk_dstate [] 0 0 0 0x80 0xbf (len pre)))).
  destruct (udecode_loop_spec (pre ++ mid ++ post) post mid pre [] (mk_dstate [] 0 0 0 0x80 0xbf (len pre))
    (2 * Z.to_nat (len pre + len mid - len pre))) as (out & Hseg & Hsc & Hf); try done.
  { unfold len. lia. }
  by exists out.
Qed.

(** ** The segmentation is unique *)

Lemma encode_prefix_free c c' k : is_scalar c -> is_scalar c' ->
  encode_scalar c' = encode_scalar c ++ k -> k = [].
Proof.
  intros Hc Hc' E.
  destruct (encode_shape c Hc) as [[Hr ->]|(b & t & -> & Hb & Hl & _)] in E;
  destruct (encode_shape c' Hc') as [[Hr' ->]|(b' & t' & -> & Hb' & Hl' & _)] in E.
  - by injection E.
  - injection E as -> _. lia.
  - injection E as -> _. lia.
  - injection E as -> ->. rewrite len_app in Hl'. destruct k; [done|].
    rewrite len_cons in Hl'. pose proof (len_nonneg k). lia.
Qed.

Lemma encode_scalar_inj c c' : is_scalar c -> is_scalar c' -> encode_scalar c = encode_scalar c' -> c = c'.
Proof.
  unfold is_scalar, encode_scalar. intros Hc Hc' E.
  repeat match type of E with context [?a <? ?b] => destruct (Z.ltb_spec a b) end;
    injection E; intros; div_lia.
Qed.

Lemma encode_nonempty c : exists b t, encode_scalar c = b :: t.
Proof. unfold encode_scalar. repeat case_match; by eexists _, _. Qed.

Lemma starts_prefix p k : starts_encoding (p ++ k) -> starts_encoding p.
Proof. intros (c & q & Hc & E). exists c, (k ++ q). by rewrite app_assoc. Qed.

(** An ill-formed piece is no scalar value's bytes, and goes on as far as it can. *)
Lemma bad_not_scalar p rest c r : is_scalar c -> maximal_bad p rest -> p ++ rest <> encode_scalar c ++ r.
Proof.
  intros Hc Hbad E. assert (Hst : starts_encoding (encode_scalar c)) by (exists c, []; by rewrite app_nil_r).
  destruct Hbad as [(b & -> & Hno)|(Hne & (c' & q & Hc' & Eq) & Hneq & Hmax)].
  - destruct (encode_nonempty c) as (b' & t & Ec). rewrite Ec in E, Hst. injection E as -> _.
    by apply Hno, (starts_prefix [b'] t).
  - apply app_eq_app in E as (k & [[-> ->]|[Ek ->]]).
    + rewrite <- app_assoc in Eq. apply encode_prefix_free in Eq; [|done|done].
      apply app_nil in Eq as [-> _]. apply (Hneq c Hc). by rewrite app_nil_r.
    + destruct k as [|b k]; [apply (Hneq c Hc); by rewrite Ek, app_nil_r|].
      cbn in Hmax. apply Hmax. apply (starts_prefix _ k). rewrite <- app_assoc. cbn. by rewrite <- Ek.
Qed.

Lemma bad_unique p rest p' rest' : maximal_bad p rest -> maximal_bad p' rest' ->
  p ++ rest = p' ++ rest' -> p = p' /\ rest = rest'.
Proof.
  (* A piece that another one extends is that other one. *)
  assert (Hext : forall p rest k rest', maximal_bad p rest -> maximal_bad (p ++ k) rest' ->
    rest = k ++ rest' -> k = []).
  { intros q r k r' [(b & -> & Hno)|(Hne & Hst & Hneq & Hmax)] Hbad ->; (destruct k as [|x k]; [done|]);
      destruct Hbad as [(b' & Eb & Hno')|(_ & Hst' & _)].
    - discriminate.
    - destruct Hno. by apply (starts_prefix [b] (x :: k)).
    - destruct q as [|y [|]]; [done|discriminate|discriminate].
    - cbn in Hmax. destruct Hmax. apply (starts_prefix _ k). by rewrite <- app_assoc. }
  intros Hp Hp' E. apply app_eq_app in E as (k & [[-> ->]|[-> ->]]).
  - rewrite (Hext p' (k ++ rest) k rest) by done. by rewrite app_nil_r.
  - rewrite (Hext p (k ++ rest') k rest') by done. by rewrite app_nil_r.
Qed.

Lemma bad_nonempty p rest : maximal_bad p rest -> p <> [].
Proof. by intros [(b & -> & _)|[? _]]. Qed.

Lemma segments_unique bytes out out' : segments bytes out -> segments bytes out' -> out = out'.
Proof.
  intros H. revert out'. induction H as [|c rest out Hc _ IH|p rest out Hp _ IH]; intros out' H'.
  - inversion H' as [|c rest o Hc Ho E|p rest o Hp Ho E]; subst; [done| |].
    + destruct (encode_nonempty c) as (b & t & Ec). by rewrite Ec in E.
    + apply app_nil in E as [-> _]. by apply bad_nonempty in Hp.
  - inversion H' as [E|c' rest' o Hc' Ho E|p rest' o Hp Ho E]; subst.
    + destruct (encode_nonempty c) as (b & t & Ec). by rewrite Ec in E.
    + assert (c' = c /\ rest' = rest) as [-> ->].
      { apply app_eq_app in E as (k & [[Ek ->]|[Ek ->]]).
        - pose proof (encode_prefix_free _ _ _ Hc Hc' Ek) as ->. rewrite app_nil_r in Ek.
          split; [by apply encode_scalar_inj|done].
        - pose proof (encode_prefix_free _ _ _ Hc' Hc Ek) as ->. rewrite app_nil_r in Ek.
          split; [by apply encode_scalar_inj|done]. }
      f_equal. by apply IH.
    + by destruct (bad_not_scalar p rest' c rest).
  - inversion H' as [E|c' rest' o Hc' Ho E|p' rest' o Hp' Ho E]; subst.
    + symmetry in E. apply app_nil in E as [-> _]. by apply bad_nonempty in Hp.
    + by destruct (bad_not_scalar p rest c' rest').
    + destruct (bad_unique p rest p' rest' Hp Hp') as [-> ->]; [done|]. f_equal. by apply IH.
Qed.

(** ** Scalar values and units *)

Lemma to_of_scalars l : Forall is_scalar l -> to_scalars (of_scalars l) = l.
Proof.
  induction 1 as [|c l Hc Hl IH]; [done|]. rewrite of_scalars_cons. unfold scalar_units, is_scalar in *.
  destruct (Z.ltb_spec c 0x10000); cbn [app to_scalars].
  - destruct (Z.leb_spec 0xd800 c), (Z.ltb_spec c 0xdc00), (Z.leb_spec 0xdc00 c), (Z.ltb_spec c 0xe000);
      cbn [andb]; try lia; by rewrite IH.
  - assert (0xd800 <= 0xd800 + (c - 0x10000) / 1024 < 0xdc00) by div_lia.
    pose proof (Z.mod_pos_bound (c - 0x10000) 1024).
    destruct (Z.leb_spec 0xd800 (0xd800 + (c - 0x10000) / 1024)); [|lia].
    destruct (Z.ltb_spec (0xd800 + (c - 0x10000) / 1024) 0xdc00); [|lia].
    destruct (Z.leb_spec 0xdc00 (0xdc00 + (c - 0x10000) mod 1024)); [|lia].
    destruct (Z.ltb_spec (0xdc00 + (c - 0x10000) mod 1024) 0xe000); [|lia].
    cbn [andb]. rewrite IH. f_equal. div_lia.
Qed.

Lemma segments_scalars l : Forall is_scalar l -> segments (encode_scalars l) l.
Proof.
  induction 1 as [|c l Hc Hl IH]; [constructor|]. unfold encode_scalars. rewrite bind_cons. by apply segments_scalar.
Qed.

Lemma encode_scalars_bytes l : Forall is_scalar l -> is_bytes (encode_scalars l).
Proof.
  induction 1 as [|c l Hc Hl IH]; [constructor|]. unfold encode_scalars. rewrite bind_cons.
  apply Forall_app_2; [by apply encode_bytes_ok|done].
Qed.

Lemma fitting_all l r : len (encode_scalars l) <= r -> fitting r l = l.
Proof.
  revert r. induction l as [|c l IH]; intros r Hr; [done|]. unfold encode_scalars in Hr.
  rewrite bind_cons, len_app in Hr. fold (encode_scalars l) in Hr. pose proof (len_nonneg (encode_scalars l)).
  cbn [fitting]. destruct (Z.leb_spec (len (encode_scalar c)) r); [|lia]. f_equal. apply IH. lia.
Qed.

(** A buffer of the string's length is filled. *)
Lemma utf8Write_whole input : is_jsstr input ->
  utf8Write (zeros (utf8Length input)) input 0 (utf8Length input)
  = (encode_scalars (to_scalars input), mk_progress (len input) (utf8Length input)).
Proof.
  intros Hu. set (cs := to_scalars input).
  pose proof (utf8Length_scalars input Hu) as Hlen. fold cs in Hlen.
  pose proof (len_nonneg (encode_scalars cs)) as Hn.
  assert (Hz : len (zeros (utf8Length input)) = utf8Length input)
    by (unfold len at 1, zeros; rewrite length_replicate; lia).
  pose proof (write_loop_spec (length input) [] input (zeros (utf8Length input)) 0 (utf8Length input)) as Hw.
  cbn [app] in Hw. rewrite (@len_nil Z) in Hw. cbv zeta in Hw. fold cs in Hw.
  rewrite Z.sub_0_r, fitting_all in Hw by lia.
  unfold utf8Write. rewrite Z.add_0_l, Hw by (done || lia). cbn [w_output w_inputIndex w_outputIndex].
  rewrite Z.sub_0_r, !Z.add_0_l, <- Hlen. f_equal; [|f_equal].
  - unfold set_range. cbn [Z.to_nat take app]. rewrite drop_ge, app_nil_r; [done|].
    unfold zeros. rewrite length_replicate. unfold len in Hlen. cbn. lia.
  - unfold cs. clear -Hu. induction input as [l IH] using strong_string.
    destruct (decide (l = [])) as [->|Hne]; [done|].
    destruct (next_scalar [] l Hne Hu) as (c & n & k & -> & Hn & _ & _ & Hnl & -> & _).
    apply Forall_app in Hu as [_ Hk]. rewrite of_scalars_cons, !len_app, IH; [lia| |done].
    rewrite length_app. destruct n; [done|]. cbn. lia.
Qed.

(** ** Properties *)

(** The bounded UTF-8 write.  At every offset and bound within the array,
    [utf8Write] writes the encodings of the longest start of the string's scalar
    values (a lone surrogate being U+FFFD) that fits: never a partial sequence,
    nothing outside the bytes reported, and [read] is exactly the units of the
    scalar values written. *)
Theorem utf8_write_fits output input offset maximum :
  is_jsstr input -> 0 <= offset -> 0 <= maximum -> offset + maximum <= len output ->
  let cs := fitting maximum (to_scalars input) in
  utf8Write output input offset maximum
  = (set_range output offset (encode_scalars cs),
     mk_progress (len (of_scalars cs)) (len (encode_scalars cs))) /\
  len (encode_scalars cs) <= maximum.
Proof.
  intros Hu Ho Hm Hl cs. split; [|by apply fitting_bytes]. unfold utf8Write.
  pose proof (write_loop_spec (length input) [] input output offset (offset + maximum)) as Hw.
  cbn [app] in Hw. rewrite (@len_nil Z) in Hw. cbv zeta in Hw. rewrite Hw by (done || lia).
  replace (offset + maximum - offset) with maximum by lia. fold cs. cbn [w_output w_inputIndex w_outputIndex].
  by replace (offset + len (encode_scalars cs) - offset) with (len (encode_scalars cs)) by lia.
Qed.

Lemma utf8_write_fits_witness :
  let input := [0x41; 0xd83d; 0xde00; 0xd800; 0xe9] in
  is_jsstr input /\
  utf8Write (zeros 9) input 1 7 = ([0; 0x41; 0xf0; 0x9f; 0x98; 0x80; 0; 0; 0], mk_progress 3 5) /\ 5 <= 7.
Proof.
  intros input. assert (Hu : is_jsstr input) by by_computing. split; [exact Hu|].
  apply (utf8_write_fits (zeros 9) input 1 7); [exact Hu|lia|lia|vm_compute; congruence].
Defined.

(** C30: decoding is the Unicode substitution of maximal subparts.  For every
    range of bytes, [utf8Decode] returns the units of the scalar values [out]
    exactly when [out] is the (unique) segmentation of the range into encodings
    of scalar values and maximal ill-formed pieces, each read as U+FFFD; so it is
    total, and its result is always well-formed UTF-16. *)
Theorem utf8_decode_segments pre mid post :
  is_bytes mid ->
  let text := utf8Decode (pre ++ mid ++ post) (len pre) (len pre + len mid) in
  (exists out, segments mid out /\ Forall is_scalar out /\ text = of_scalars out) /\
  (forall out, Forall is_scalar out -> text = of_scalars out <-> segments mid out).
Proof.
  intros Hm text. destruct (utf8Decode_segments pre mid post Hm) as (out & Hseg & Hsc & Ht).
  split; [by exists out|]. intros out' Hsc'. split.
  - intros E. assert (out' = out) as ->; [|done].
    rewrite <- (to_of_scalars out'), <- (to_of_scalars out) by done. f_equal. rewrite <- E. exact Ht.
  - intros Hseg'. rewrite (segments_unique mid out' out) by done. exact Ht.
Qed.

Lemma utf8_decode_segments_witness :
  let mid := [0x41; 0xe2; 0x82; 0xe2; 0x82; 0xac; 0x80] in
  is_bytes mid /\ utf8Decode ([1; 2] ++ mid ++ [3]) 2 9 = of_scalars [0x41; 0xfffd; 0x20ac; 0xfffd] /\
  segments mid [0x41; 0xfffd; 0x20ac; 0xfffd].
Proof.
  intros mid. assert (Hm : is_bytes mid) by by_computing.
  assert (E : utf8Decode ([1; 2] ++ mid ++ [3]) 2 9 = of_scalars [0x41; 0xfffd; 0x20ac; 0xfffd]) by by vm_compute.
  split; [exact Hm|]. split; [exact E|].
  destruct (utf8_decode_segments [1; 2] mid [3] Hm) as [_ H]. apply H; [by_computing|exact E].
Defined.

(** Encoding then decoding.  A buffer of [utf8Length] bytes holds exactly the
    encoding of the string, and decoding it returns the string with its lone
    surrogates replaced (the string itself when it is well formed). *)
Theorem utf8_roundtrip input :
  is_jsstr input ->
  exists bytes, utf8Write (zeros (utf8Length input)) input 0 (utf8Length input)
    = (bytes, mk_progress (len input) (utf8Length input)) /\
  len bytes = utf8Length input /\
  utf8Decode bytes 0 (len bytes) = of_scalars (to_scalars input) /\
  (forall l, Forall is_scalar l -> input = of_scalars l -> utf8Decode bytes 0 (len bytes) = input).
Proof.
  intros Hu. exists (encode_scalars (to_scalars input)). pose proof (to_scalars_ok input Hu) as Hsc.
  rewrite utf8Write_whole, utf8Length_scalars by done.
  assert (Hdec : utf8Decode (encode_scalars (to_scalars input)) 0 (len (encode_scalars (to_scalars input)))
    = of_scalars (to_scalars input)).
  { destruct (utf8Decode_segments [] (encode_scalars (to_scalars input)) []) as (out & Hseg & _ & Ht);
      [by apply encode_scalars_bytes|].
    cbn [app] in Ht. rewrite app_nil_r, (@len_nil Z), Z.add_0_l in Ht. rewrite Ht. f_equal.
    eapply segments_unique; [exact Hseg|by apply segments_scalars]. }
  split; [done|]. split; [done|]. split; [exact Hdec|]. intros l Hl ->. rewrite Hdec. by rewrite to_of_scalars.
Qed.

Lemma utf8_roundtrip_witness :
  is_jsstr [0x41; 0xd83d; 0xde00; 0xd800] /\ exists bytes,
    utf8Write (zeros 8) [0x41; 0xd83d; 0xde00; 0xd800] 0 8 = (bytes, mk_progress 4 8) /\
    utf8Decode bytes 0 (len bytes) = [0x41; 0xd83d; 0xde00; 0xfffd].
Proof.
  assert (Hu : is_jsstr [0x41; 0xd83d; 0xde00; 0xd800]) by by_computing. split; [exact Hu|].
  destruct (utf8_roundtrip _ Hu) as (bytes & H1 & _ & H2 & _). exists bytes. exact (conj H1 H2).
Defined.
