(* ===== verification/TextDecoder.v ===== *)
(** * The streaming text decoder ([core/encoding.ts], [TextDecoder])

    The UTF-8 and UTF-16 state machines, the byte order mark and the input queue
    that a [fatal] decoder keeps.  Web IDL's conversions of the arguments are not
    modelled: [decode] takes the bytes and the [stream] flag. *)

From S2P Require Import Prelude Ascii Utf8.

Inductive DecoderEncoding := utf_8 | utf_16le | utf_16be.
#[export] Instance DecoderEncoding_eq_dec : EqDecision DecoderEncoding.
Proof. solve_decision. Defined.

Definition encoding_name (e : DecoderEncoding) : string :=
  match e with utf_8 => "utf-8" | utf_16le => "utf-16le" | utf_16be => "utf-16be" end.

Definition utf16Label (label : jsstr) : option DecoderEncoding :=
  if str_eqb label (u "unicodefffe") || str_eqb label (u "utf-16be") then Some utf_16be
  else if existsb (str_eqb label) (u <$> ["csunicode"; "iso-10646-ucs-2"; "ucs-2"; "unicode";
    "unicodefeff"; "utf-16"; "utf-16le"]) then Some utf_16le
  else None.

Definition utf8Label (label : jsstr) : bool :=
  existsb (str_eqb label) (u <$> ["unicode-1-1-utf-8"; "unicode11utf8"; "unicode20utf8"; "utf-8";
    "utf8"; "x-unicode20utf8"]).

(** The private fields that [#resetSequence] resets. *)
Record sequence := mk_sequence {
  needed : Z;
  seen : Z;
  code : Z;
  lower : Z;
  upper : Z;
  pendingByte : Z;
  pendingLead : Z;
}.

Definition reset_sequence : sequence := mk_sequence 0 0 0 0x80 0xbf (-1) (-1).

Record TextDecoder := mk_td {
  decoderEncoding : DecoderEncoding;
  decoderFatal : bool;
  decoderIgnoreBOM : bool;
  td_seq : sequence;
  td_bomSeen : bool;
  doNotFlush : bool;
  inputQueue : list Z;
  inputPosition : Z;
}.

(** A label's units of more than one byte, whose lower case is not modelled, occur
    in no label's lower case. *)
Definition new_TextDecoder (label : jsstr) (fatal ignoreBOM : bool) : result TextDecoder :=
  let normalized := to_lower (trimASCIIWhitespace label) in
  let utf16 := utf16Label normalized in
  throw_if (bool_decide (utf16 = None) && negb (utf8Label normalized))
    (RangeError "This decoder implements UTF-8, UTF-16LE and UTF-16BE") ;;
  Ok (mk_td (default utf_8 utf16) fatal ignoreBOM reset_sequence false false [] 0).

Definition set_seq (d : TextDecoder) (q : sequence) : TextDecoder :=
  mk_td (decoderEncoding d) (decoderFatal d) (decoderIgnoreBOM d) q (td_bomSeen d) (doNotFlush d)
    (inputQueue d) (inputPosition d).

Definition set_queue (d : TextDecoder) (queue : list Z) (position : Z) : TextDecoder :=
  mk_td (decoderEncoding d) (decoderFatal d) (decoderIgnoreBOM d) (td_seq d) (td_bomSeen d) (doNotFlush d)
    queue position.

Definition set_bom (d : TextDecoder) (bomSeen : bool) : TextDecoder :=
  mk_td (decoderEncoding d) (decoderFatal d) (decoderIgnoreBOM d) (td_seq d) bomSeen (doNotFlush d)
    (inputQueue d) (inputPosition d).

Definition set_doNotFlush (d : TextDecoder) (stream : bool) : TextDecoder :=
  mk_td (decoderEncoding d) (decoderFatal d) (decoderIgnoreBOM d) (td_seq d) (td_bomSeen d) stream
    (inputQueue d) (inputPosition d).

Definition resetSequence (d : TextDecoder) : TextDecoder := set_seq d reset_sequence.
Definition clearInput (d : TextDecoder) : TextDecoder := set_queue d [] 0.

Definition invalidEncodedData (e : DecoderEncoding) : js_error :=
  TypeError ("The encoded data was not valid for encoding " +:+ encoding_name e).

(** A method that changes the decoder and may throw, keeping the changes. *)
Definition TD (A : Type) : Type := TextDecoder * result A.

Definition replacement (d : TextDecoder) (position : Z) : TD unit :=
  let d := resetSequence d in
  if decoderFatal d
  then (set_queue d (inputQueue d) position, Err (invalidEncodedData (decoderEncoding d)))
  else (d, Ok tt).

Definition appendInput (d : TextDecoder) (input : list Z) : TextDecoder :=
  set_queue d (subarray (inputQueue d) (inputPosition d) (len (inputQueue d)) ++ input) 0.

(** ** Output *)

(** The variables that [emit] closes over. *)
Record emitter := mk_emitter {
  bomSeen : bool;
  pieces : list jsstr;
  ascii : jsstr;
}.

Definition emit (ignoreBOM : bool) (e : emitter) (code : Z) : emitter :=
  if negb (bomSeen e) && (code =? 0xfeff) && negb ignoreBOM
  then mk_emitter true (pieces e) (ascii e)
  else
    let ascii := ascii e ++ code_units code in
    if 4096 <=? len ascii
    then mk_emitter true (pieces e ++ [ascii]) []
    else mk_emitter true (pieces e) ascii.

(** [pieces.push(ascii); return pieces.join("")] *)
Definition joined (e : emitter) : jsstr := concat (pieces e ++ [ascii e]).

(** ** UTF-16 *)

Definition utf16Error (d : TextDecoder) (position : Z) (restoredUnit : option Z) : TD unit :=
  if negb (decoderFatal d) then (d, Ok tt) else
  let error := Err (invalidEncodedData (decoderEncoding d)) in
  match restoredUnit with
  | None => (set_queue d (inputQueue d) position, error)
  | Some unit =>
      let rest := subarray (inputQueue d) position (len (inputQueue d)) in
      let bytes := if bool_decide (decoderEncoding d = utf_16be)
                   then [to_uint8 (unit .>> 8); to_uint8 (unit .& 255)]
                   else [to_uint8 (unit .& 255); to_uint8 (unit .>> 8)] in
      (set_queue d (bytes ++ rest) 0, error)
  end.

Definition set_pending (d : TextDecoder) (byte lead : Z) : TextDecoder :=
  let q := td_seq d in
  set_seq d (mk_sequence (needed q) (seen q) (code q) (lower q) (upper q) byte lead).

(** The end of an iteration: the unit alone. *)
Definition utf16_unit (d : TextDecoder) (index unit : Z) (e : emitter) : TD emitter :=
  if (0xd800 <=? unit) && (unit <=? 0xdbff) then (set_pending d (-1) unit, Ok e)
  else if (0xdc00 <=? unit) && (unit <=? 0xdfff) then
    match utf16Error d (index + 1) None with
    | (d, Err error) => (d, Err error)
    | (d, Ok _) => (d, Ok (emit (decoderIgnoreBOM d) e 0xfffd))
    end
  else (d, Ok (emit (decoderIgnoreBOM d) e unit)).

(** One iteration of the loop. *)
Definition utf16_byte (d : TextDecoder) (index byte : Z) (e : emitter) : TD emitter :=
  let pending := pendingByte (td_seq d) in
  let lead := pendingLead (td_seq d) in
  if pending =? -1 then (set_pending d byte lead, Ok e) else
  let unit := if bool_decide (decoderEncoding d = utf_16be)
              then (pending .<< 8) .| byte else (byte .<< 8) .| pending in
  let d := set_pending d (-1) lead in
  if negb (lead =? -1) then
    let d := set_pending d (-1) (-1) in
    if (0xdc00 <=? unit) && (unit <=? 0xdfff)
    then (d, Ok (emit (decoderIgnoreBOM d) e (0x10000 + ((lead - 0xd800) .<< 10) + (unit - 0xdc00))))
    else
      match utf16Error d (index + 1) (Some unit) with
      | (d, Err error) => (d, Err error)
      | (d, Ok _) => utf16_unit d index unit (emit (decoderIgnoreBOM d) e 0xfffd)
      end
  else utf16_unit d index unit e.

Fixpoint utf16_loop (d : TextDecoder) (index : Z) (input : list Z) (e : emitter) : TD emitter :=
  match input with
  | [] => (d, Ok e)
  | byte :: input =>
      match utf16_byte d index byte e with
      | (d, Ok e) => utf16_loop d (index + 1) input e
      | (d, Err error) => (d, Err error)
      end
  end.

Definition decodeUTF16 (d : TextDecoder) (input : list Z) (stream : bool) (e : emitter) : TD emitter :=
  match utf16_loop d 0 input e with
  | (d, Err error) => (d, Err error)
  | (d, Ok e) =>
      if stream then (d, Ok e)
      else if negb (pendingLead (td_seq d) =? -1) || negb (pendingByte (td_seq d) =? -1) then
        let d := set_pending d (-1) (-1) in
        match utf16Error d (len input) None with
        | (d, Err error) => (d, Err error)
        | (d, Ok _) => (d, Ok (emit (decoderIgnoreBOM d) e 0xfffd))
        end
      else (d, Ok e)
  end.

(** ** UTF-8 *)

(** What an iteration does besides the sequence: nothing, a code point, or the
    replacement of an error. *)
Inductive utf8_event := quiet | scalar (code : Z) | error.

(** The sequence after a byte, the event, and whether the byte was consumed. *)
Definition utf8_next (byte : Z) (q : sequence) : sequence * utf8_event * bool :=
  let start needed code lower upper :=
    (mk_sequence needed (seen q) code lower upper (pendingByte q) (pendingLead q), quiet, true) in
  if needed q =? 0 then
    if byte <=? 0x7f then (q, scalar byte, true)
    else if (0xc2 <=? byte) && (byte <=? 0xdf) then start 1 (byte .& 0x1f) (lower q) (upper q)
    else if (0xe0 <=? byte) && (byte <=? 0xef) then
      start 2 (byte .& 0x0f) (if byte =? 0xe0 then 0xa0 else lower q) (if byte =? 0xed then 0x9f else upper q)
    else if (0xf0 <=? byte) && (byte <=? 0xf4) then
      start 3 (byte .& 7) (if byte =? 0xf0 then 0x90 else lower q) (if byte =? 0xf4 then 0x8f else upper q)
    else (q, error, true)
  else if (byte <? lower q) || (upper q <? byte) then (q, error, false)
  else
    let code := (code q .<< 6) .| (byte .& 63) in
    let seen := seen q + 1 in
    if seen =? needed q then (reset_sequence, scalar code, true)
    else (mk_sequence (needed q) seen code 0x80 0xbf (pendingByte q) (pendingLead q), quiet, true).

(** [while (i < input.length)]: a byte is rejected at most once before it is
    consumed. *)
Fixpoint utf8_loop (fuel : nat) (d : TextDecoder) (i : Z) (input : list Z) (e : emitter) : TD emitter :=
  if i <? len input then
    match fuel, at_ input i with
    | S fuel, Some byte =>
        let '(q, event, consumed) := utf8_next byte (td_seq d) in
        let i := if consumed : bool then i + 1 else i in
        let d := set_seq d q in
        match event with
        | quiet => utf8_loop fuel d i input e
        | scalar c => utf8_loop fuel d i input (emit (decoderIgnoreBOM d) e c)
        | error =>
            match replacement d i with
            | (d, Err err) => (d, Err err)
            | (d, Ok _) => utf8_loop fuel d i input (emit (decoderIgnoreBOM d) e 0xfffd)
            end
        end
    | _, _ => (d, Err OutOfFuel)
    end
  else (d, Ok e).

(** ** [decode] *)

Definition decode_begin (d : TextDecoder) (stream : bool) : TextDecoder :=
  let d := if doNotFlush d then d else set_bom (clearInput (resetSequence d)) false in
  set_doNotFlush d stream.

Definition decode (d : TextDecoder) (bytes : list Z) (stream : bool) : TD jsstr :=
  let d := appendInput (decode_begin d stream) bytes in
  let input := inputQueue d in
  let e := mk_emitter (td_bomSeen d) [] [] in
  if negb (bool_decide (decoderEncoding d = utf_8)) then
    match decodeUTF16 d input stream e with
    | (d, Err err) => (d, Err err)
    | (d, Ok e) => (set_bom (clearInput d) (bomSeen e), Ok (joined e))
    end
  else
    match utf8_loop (2 * length input) d 0 input e with
    | (d, Err err) => (d, Err err)
    | (d, Ok e) =>
        if negb stream then
          let finished :=
            if negb (needed (td_seq d) =? 0) then
              match replacement d (len input) with
              | (d, Err err) => (d, Err err)
              | (d, Ok _) => (d, Ok (emit (decoderIgnoreBOM d) e 0xfffd))
              end
            else (d, Ok e) in
          match finished with
          | (d, Err err) => (d, Err err)
          | (d, Ok e) => (set_bom (clearInput (resetSequence d)) false, Ok (joined e))
          end
        else (set_bom (clearInput d) (bomSeen e), Ok (joined e))
    end.

Definition decodeUTF8 (bytes : list Z) (fatal ignoreBOM : bool) : result jsstr :=
  d ← new_TextDecoder (u "utf-8") fatal ignoreBOM;
  (decode d bytes false).2.
