(* ===== verification/TextDecoderTheory.v ===== *)
(** * Streaming decoding does not depend on the chunks

    However a byte stream is cut into chunks, the concatenated results of
    [decode] are the decoding of the whole stream. *)

From S2P Require Import Prelude Ascii Utf8 Utf8Theory TextDecoder.

(** ** Specifications *)

(** Chunks decoded with [stream: true], and the final call without. *)
Fixpoint decode_stream (d : TextDecoder) (chunks : list (list Z)) : TD jsstr :=
  match chunks with
  | [] => decode d [] false
  | chunk :: chunks =>
      match decode d chunk true with
      | (d, Err e) => (d, Err e)
      | (d, Ok text) =>
          match decode_stream d chunks with
          | (d, Err e) => (d, Err e)
          | (d, Ok rest) => (d, Ok (text ++ rest))
          end
      end
  end.

(** The byte order mark at the start of a text, unless it is to be kept. *)
Definition strip_bom (ignoreBOM : bool) (out : list Z) : list Z :=
  match out with
  | c :: rest => if (c =? 0xfeff) && negb ignoreBOM then rest else out
  | [] => []
  end.

(** What the emitter has put out. *)
Definition text_of (e : emitter) : jsstr := concat (pieces e) ++ ascii e.
Definition emits (ignoreBOM : bool) (e : emitter) (out : list Z) : emitter := foldl (emit ignoreBOM) e out.

(** The sequence as the state of [utf8Decode]. *)
Definition as_ustate (q : sequence) : decode_state :=
  mk_dstate [] (code q) (seen q) (needed q) (lower q) (upper q) 0.

(** The units an event puts out. *)
Definition event_units (event : utf8_event) : jsstr :=
  match event with quiet => [] | scalar c => code_units c | error => [0xfffd] end.

(** The bytes [p] are pending, the next [rest] put out [out] and leave [p']. *)
Definition advances (p rest out p' : list Z) : Prop := Forall is_scalar out /\
  forall f o, segments (p' ++ f) o -> segments (p ++ rest ++ f) (out ++ o).

(** The bytes are no encoding of scalar values. *)
Definition ill_formed (l : list Z) : Prop := forall cs, Forall is_scalar cs -> l <> encode_scalars cs.

(** How the loop reads a chunk: to its end, or, with [fatal], to an error. *)
Definition chunk_read (d : TextDecoder) (p rest : list Z) (e : emitter) (m : TD emitter) : Prop :=
  (exists out p' q, m = (set_seq d q, Ok (emits (decoderIgnoreBOM d) e out)) /\
    state_of p' (as_ustate q) /\ advances p rest out p' /\
    (decoderFatal d = true -> p ++ rest = encode_scalars out ++ p')) \/
  (decoderFatal d = true /\ ill_formed (p ++ rest) /\
    exists d', m = (d', Err (invalidEncodedData (decoderEncoding d)))).

(** A UTF-8 decoder in the middle of a stream: whether something was put out,
    and the pending bytes.  A fresh decoder is one with neither. *)
Definition ready (d : TextDecoder) (seen : bool) (p : list Z) : Prop :=
  let b := decode_begin d true in
  decoderEncoding d = utf_8 /\ inputQueue b = [] /\ inputPosition b = 0 /\ td_bomSeen b = seen /\
  state_of p (as_ustate (td_seq b)).

(** What is left when the stream ends. *)
Definition rest_of (p : list Z) : list Z := if bool_decide (p = []) then [] else [0xfffd].

(** The text of the code points [out] after others, or not. *)
Definition more_text (ign seen : bool) (out : list Z) : jsstr :=
  of_scalars (if seen then out else strip_bom ign out).

(** ** Output *)

Lemma joined_text e : joined e = text_of e.
Proof. unfold joined, text_of. rewrite concat_app. cbn. by rewrite app_nil_r. Qed.

Lemma emit_text ign e c :
  bomSeen (emit ign e c) = true /\
  text_of (emit ign e c) = text_of e ++ ((if bomSeen e then [c] else strip_bom ign [c]) ≫= code_units).
Proof.
  unfold emit, text_of, strip_bom.
  assert (Hone : [c] ≫= code_units = code_units c) by (cbn; by rewrite app_nil_r).
  assert (Hpush : forall ps a, let ascii := a ++ code_units c in
    (bomSeen (if 4096 <=? len ascii then mk_emitter true (ps ++ [ascii]) [] else mk_emitter true ps ascii) = true) /\
    text_of (if 4096 <=? len ascii then mk_emitter true (ps ++ [ascii]) [] else mk_emitter true ps ascii)
    = (concat ps ++ a) ++ code_units c).
  { intros ps a ascii. unfold text_of. destruct (4096 <=? len ascii); cbn; (split; [done|]); subst ascii.
    - rewrite concat_app. cbn. by rewrite !app_nil_r, <- app_assoc.
    - by rewrite <- app_assoc. }
  destruct (Hpush (pieces e) (ascii e)) as [Hb Ht]. unfold text_of in Ht. cbn in Hb, Ht.
  destruct (bomSeen e); cbn [negb andb].
  - rewrite Hone. split; [exact Hb|exact Ht].
  - destruct ((c =? 0xfeff) && negb ign) eqn:E; cbn.
    + split; [done|]. by rewrite app_nil_r.
    + rewrite app_nil_r. split; [exact Hb|exact Ht].
Qed.

Lemma emits_seen ign out : forall e, bomSeen e = true ->
  bomSeen (emits ign e out) = true /\ text_of (emits ign e out) = text_of e ++ (out ≫= code_units).
Proof.
  induction out as [|c out IH]; intros e He; cbn [emits foldl].
  - by rewrite app_nil_r.
  - destruct (emit_text ign e c) as [Hb Ht]. fold (emits ign (emit ign e c) out).
    destruct (IH _ Hb) as [Hb' ->]. split; [done|]. rewrite Ht, He, bind_cons, <- app_assoc. cbn.
    by rewrite app_nil_r.
Qed.

Lemma emits_text ign e out :
  bomSeen (emits ign e out) = bomSeen e || negb (bool_decide (out = [])) /\
  text_of (emits ign e out) = text_of e ++ ((if bomSeen e then out else strip_bom ign out) ≫= code_units).
Proof.
  destruct (bomSeen e) eqn:He.
  - destruct (emits_seen ign out e He) as [-> ->]. done.
  - destruct out as [|c out]; [cbn; by rewrite He, app_nil_r|].
    cbn [emits foldl]. fold (emits ign (emit ign e c) out). destruct (emit_text ign e c) as [Hb Ht].
    destruct (emits_seen ign out _ Hb) as [-> ->]. rewrite Ht, He. split; [done|].
    unfold strip_bom. destruct ((c =? 0xfeff) && negb ign).
    + by rewrite <- app_assoc.
    + rewrite bind_cons, <- app_assoc. cbn. by rewrite app_nil_r.
Qed.

Lemma strip_bom_app ign a b : a <> [] -> strip_bom ign (a ++ b) = strip_bom ign a ++ b.
Proof. destruct a as [|c a]; [done|]. intros _. cbn. by destruct (_ && _). Qed.

Lemma units_of_scalars out : Forall is_scalar out -> out ≫= code_units = of_scalars out.
Proof.
  unfold of_scalars. induction 1 as [|c out Hc Ho IH]; [done|]. rewrite !bind_cons, IH, code_units_scalar; [done|].
  unfold is_scalar in Hc. lia.
Qed.

Lemma strip_scalars ign out : Forall is_scalar out -> Forall is_scalar (strip_bom ign out).
Proof. destruct 1; cbn; [constructor|]. case_match; [done|by constructor]. Qed.

(** ** The UTF-8 steps are those of [utf8Decode] *)

(** Both machines take the same step; after an error both are between sequences. *)
Lemma utf8_next_sim byte q :
  let r := utf8_next byte q in
  let s := udecode_step byte (as_ustate q) in
  u_output s = event_units r.1.2 /\ u_index s = (if r.2 then 1 else 0) /\
  (forall p, state_of p s -> r.1.2 <> error -> state_of p (as_ustate r.1.1)) /\
  (forall c, r.1.2 = scalar c ->
    r.2 = true /\ c = if needed q =? 0 then byte else (code q .<< 6) .| (byte .& 0x3f)) /\
  (r.1.2 = error -> r.2 = (needed q =? 0)).
Proof.
  cbv zeta. unfold utf8_next, udecode_step. cbn [bytesNeeded as_ustate u_index u_output lowerBoundary upperBoundary codePoint bytesSeen].
  destruct (Z.eqb_spec (needed q) 0) as [Hz|Hz].
  - repeat case_match; split_and!;
      first
        [ done
        | intros c Hc; cbn in Hc; by simplify_eq
        | intros p Hs Hne; destruct p; revert Hs; unfold state_of; cbn; rewrite ?Hz; tauto
        | intros p Hs Hne; by destruct Hne
        | cbn [event_units fst snd u_output app]; unfold code_units; destruct (Z.ltb_spec 0xffff byte); [lia|done] ].
  - repeat case_match; split_and!;
      first
        [ done
        | intros c Hc; cbn in Hc; by simplify_eq
        | intros p Hs Hne; destruct p; exact Hs
        | intros p Hs Hne; by destruct Hne ].
Qed.

Lemma code_units_nonempty c : code_units c <> [].
Proof. unfold code_units. by case_match. Qed.

Lemma code_units_byte b : is_byte b -> code_units b = [b].
Proof. unfold is_byte, code_units. intros Hb. by destruct (Z.ltb_spec 0xffff b); [lia|]. Qed.

(** What a byte does after the pending bytes [p]. *)
Lemma utf8_next_cases b p q : is_byte b -> state_of p (as_ustate q) ->
  match utf8_next b q with
  | (q', quiet, consumed) => consumed = true /\ state_of (p ++ [b]) (as_ustate q')
  | (q', scalar c, consumed) =>
      consumed = true /\ is_scalar c /\ encode_scalar c = p ++ [b] /\ state_of [] (as_ustate q')
  | (q', error, consumed) =>
      ~ starts_encoding (p ++ [b]) /\ consumed = bool_decide (p = [])
  end.
Proof.
  intros Hb Hs. pose proof (utf8_next_sim b q) as (Ho & Hi & Hst & Hsc & Her).
  destruct (utf8_next b q) as [[q' event] consumed]. cbn [fst snd] in *.
  destruct p as [|b0 t].
  - assert (Hn : (needed q =? 0) = true) by (destruct Hs as (Hn & _); cbn in Hn; by rewrite Hn).
    rewrite Hn in Hsc, Her.
    destruct (lead_step b (as_ustate q) Hb Hs) as [(Hlo & Hs' & Ho' & Hi')|[(Hlo & Hs' & Ho' & Hi')|(Hno & Hs' & Ho' & Hi')]];
      rewrite Hi' in Hi; rewrite Ho' in Ho; cbn [u_output as_ustate app] in Ho; destruct event as [|c|]; cbn [event_units] in Ho;
      try (destruct (Hsc c eq_refl) as [-> ->]; rewrite code_units_byte in Ho by done); try done.
    + unfold is_byte in Hb. split_and!; [done|left; lia| |by apply Hst].
      unfold encode_scalar. by destruct (Z.ltb_spec b 0x80); [|lia].
    + injection Ho as ->. lia.
    + destruct consumed; [|done]. split; [done|by apply Hst].
    + injection Ho as Ho. unfold is_byte in Hb. lia.
    + split; [done|]. by apply Her.
  - assert (Hn : (needed q =? 0) = false).
    { destruct Hs as (_ & _ & _ & Hn & _). cbn in Hn. rewrite Hn. pose proof (lead_needed_range b0). lia. }
    rewrite Hn in Hsc, Her.
    destruct (cont_step b0 t b (as_ustate q) Hb Hs) as [(Hno & Hs' & Ho' & Hi')|[(Hs' & Ho' & Hi')|(c' & Hc' & He & Hv & Hs' & Ho' & Hi')]];
      rewrite Hi' in Hi; rewrite Ho' in Ho; cbn [u_output as_ustate u_index app] in Ho, Hi; destruct event as [|c|]; cbn [event_units] in Ho;
      try (destruct (Hsc c eq_refl) as [-> Hv']); try done.
    + split; [done|]. by apply Her.
    + destruct consumed; [|done]. split; [done|by apply Hst].
    + symmetry in Ho. by apply code_units_nonempty in Ho.
    + unfold scalar_units in Ho. by destruct (c' <? 65536).
    + replace c with c' by (rewrite Hv, Hv'; done). split_and!; [done|done|done|by apply Hst].
    + rewrite (Her eq_refl) in Hi. done.
Qed.

(** ** A chunk of UTF-8 *)

Lemma ill_formed_bad p rest : maximal_bad p rest -> ill_formed (p ++ rest).
Proof.
  intros Hbad cs Hcs E. destruct Hcs as [|c cs Hc Hcs].
  - apply app_nil in E as [-> _]. by apply bad_nonempty in Hbad.
  - unfold encode_scalars in E. rewrite bind_cons in E. by apply (bad_not_scalar p rest c (encode_scalars cs)).
Qed.

Lemma ill_formed_after c l : is_scalar c -> ill_formed l -> ill_formed (encode_scalar c ++ l).
Proof.
  intros Hc Hl cs Hcs E. destruct Hcs as [|c' cs Hc' Hcs].
  - destruct (encode_nonempty c) as (b & t & Ec). by rewrite Ec in E.
  - unfold encode_scalars in E. rewrite bind_cons in E. apply (Hl cs Hcs).
    apply app_eq_app in E as (k & [[Ek El]|[Ek El]]).
    + pose proof (encode_prefix_free _ _ k Hc' Hc Ek) as ->. symmetry. exact El.
    + pose proof (encode_prefix_free _ _ k Hc Hc' Ek) as ->. exact El.
Qed.

Lemma ill_formed_prefix cs l : Forall is_scalar cs -> ill_formed l -> ill_formed (encode_scalars cs ++ l).
Proof.
  induction 1 as [|c cs Hc Hcs IH]; [done|]. intros Hl. unfold encode_scalars. rewrite bind_cons, <- app_assoc.
  apply ill_formed_after; [done|]. by apply IH.
Qed.

Lemma chunk_read_nil d p e : state_of p (as_ustate (td_seq d)) -> chunk_read d p [] e (d, Ok e).
Proof.
  intros Hs. left. exists [], p, (td_seq d). split; [by destruct d|]. split; [done|].
  split; [|by rewrite app_nil_r]. split; [constructor|]. by intros f o Ho.
Qed.

Lemma chunk_read_more d q p b rest e m :
  chunk_read (set_seq d q) (p ++ [b]) rest e m -> chunk_read d p (b :: rest) e m.
Proof.
  intros [(out & p' & q' & -> & Hq & [Ho Ha] & Hv)|(Hf & Hill & Hm)]; rewrite <- app_assoc in *.
  - left. exists out, p', q'. split; [done|]. split; [done|]. split; [|done]. split; [done|].
    intros f o Hfo. specialize (Ha f o Hfo). by rewrite <- app_assoc in Ha.
  - by right.
Qed.

Lemma chunk_read_scalar d q p b c rest e m : is_scalar c -> encode_scalar c = p ++ [b] ->
  chunk_read (set_seq d q) [] rest (emit (decoderIgnoreBOM d) e c) m -> chunk_read d p (b :: rest) e m.
Proof.
  intros Hc He Hm. apply (chunk_read_more d q). rewrite <- He.
  destruct Hm as [(out & p' & q' & -> & Hq & [Ho Ha] & Hv)|(Hf & Hill & Hm)].
  - left. exists (c :: out), p', q'. split; [done|]. split; [done|]. split; [split; [by constructor|]|].
    + intros f o Hfo. cbn [app]. apply segments_scalar; [done|]. exact (Ha f o Hfo).
    + intros Hf. unfold encode_scalars. rewrite bind_cons, <- app_assoc. f_equal. by apply Hv.
  - right. split; [done|]. split; [by apply ill_formed_after|done].
Qed.

(** An ill-formed piece is replaced, or ends the decoding. *)
Lemma chunk_read_bad d q q' p rest i e (k : TextDecoder -> TD emitter) :
  (forall f, maximal_bad p (rest ++ f)) ->
  (decoderFatal d = false ->
    chunk_read (set_seq d q') [] rest (emit (decoderIgnoreBOM d) e 0xfffd) (k (set_seq d reset_sequence))) ->
  chunk_read d p rest e
    (match replacement (set_seq d q) i with (d', Err err) => (d', Err err) | (d', Ok _) => k d' end).
Proof.
  intros Hbad Hk. unfold replacement. cbn [decoderFatal set_seq resetSequence].
  destruct (decoderFatal d) eqn:Hf.
  - right. split; [done|]. split; [|by eexists].
    specialize (Hbad []). rewrite app_nil_r in Hbad. by apply ill_formed_bad.
  - destruct (Hk eq_refl) as [(out & p' & q1 & Hm & Hq & [Ho Ha] & _)|(Hf' & _)]; [|cbn in Hf'; congruence].
    left. exists (0xfffd :: out), p', q1. split; [exact Hm|]. split; [done|]. split; [|by rewrite Hf].
    split; [constructor; [apply replacement_scalar|done]|]. intros f o Hfo. cbn [app].
    apply segments_bad; [apply Hbad|]. exact (Ha f o Hfo).
Qed.

(** A byte takes two iterations at most, one when nothing is pending. *)
Lemma utf8_loop_spec input fuel : forall rest pre p d e,
  input = pre ++ rest -> is_bytes rest -> state_of p (as_ustate (td_seq d)) ->
  2 * len rest <= Z.of_nat fuel + (if bool_decide (p = []) then 1 else 0) ->
  chunk_read d p rest e (utf8_loop fuel d (len pre) input e).
Proof.
  induction fuel as [|fuel IH]; intros rest pre p d e Hin Hr Hs Hf;
    (destruct rest as [|b rest]; [|rewrite len_cons in Hf; pose proof (len_nonneg rest)]).
  1, 3: assert (Hlt : (len pre <? len input) = false) by (rewrite Hin, app_nil_r; apply Z.ltb_irrefl);
        cbn [utf8_loop]; rewrite Hlt; by apply chunk_read_nil.
  { case_bool_decide; lia. }
  pose proof Hr as Hall. apply Forall_cons in Hr as [Hb Hr].
  assert (Hat : at_ input (len pre) = Some b) by (rewrite Hin; apply at_app_mid).
  assert (Hlt : (len pre <? len input) = true) by (rewrite Hin, len_app, len_cons; lia).
  assert (Hin' : input = (pre ++ [b]) ++ rest) by by rewrite <- app_assoc.
  assert (Hnext : len pre + 1 = len (pre ++ [b])) by by rewrite len_app.
  cbn [utf8_loop]. rewrite Hlt, Hat. pose proof (utf8_next_cases b p (td_seq d) Hb Hs) as Hcase.
  destruct (utf8_next b (td_seq d)) as [[q event] consumed]. destruct event as [|c|].
  - destruct Hcase as [-> Hq]. rewrite Hnext. apply (chunk_read_more d q).
    apply IH; try done. repeat case_bool_decide; lia.
  - destruct Hcase as (-> & Hc & He & Hq). rewrite Hnext. apply (chunk_read_scalar d q p b c); [done|done|].
    apply IH; try done. repeat case_bool_decide; lia.
  - destruct Hcase as (Hno & ->). case_bool_decide as Hp.
    + subst p. rewrite Hnext. apply (chunk_read_more d q). cbn [app].
      apply (chunk_read_bad (set_seq d q) q reset_sequence [b] rest _ e (fun d' => utf8_loop fuel d' _ input (emit (decoderIgnoreBOM d') e 0xfffd))).
      * intros f. left. by exists b.
      * intros Hf'. apply (IH _ _ [] (set_seq d reset_sequence)); try done. cbn in Hf |- *. lia.
    + apply (chunk_read_bad _ q reset_sequence p (b :: rest) _ e (fun d' => utf8_loop fuel d' _ input (emit (decoderIgnoreBOM d') e 0xfffd))).
      * intros f. destruct p; [done|]. by eapply maximal_unfinished.
      * intros Hf'. apply (IH _ _ [] (set_seq d reset_sequence)); try done. rewrite len_cons. cbn. lia.
Qed.

(** ** [decode] *)

Lemma ready_new fatal ign d : new_TextDecoder (u "utf-8") fatal ign = Ok d ->
  d = mk_td utf_8 fatal ign reset_sequence false false [] 0.
Proof. vm_compute. by intros [= <-]. Qed.

Lemma ready_fresh fatal ign : ready (mk_td utf_8 fatal ign reset_sequence false false [] 0) false [].
Proof. done. Qed.

(** What a call sees first: nothing but the chunk is in the queue. *)
Lemma decode_input d seen p chunk stream : ready d seen p -> is_bytes chunk ->
  let b := appendInput (decode_begin d stream) chunk in
  decoderEncoding b = utf_8 /\ inputQueue b = chunk /\ td_bomSeen b = seen /\
  chunk_read b p chunk (mk_emitter seen [] [])
    (utf8_loop (2 * length chunk) b 0 chunk (mk_emitter seen [] [])).
Proof.
  intros (He & Hq & Hp & Hb & Hs) Hc b.
  assert (Hbq : inputQueue b = chunk).
  { unfold b, appendInput. cbn [inputQueue set_queue].
    replace (inputQueue (decode_begin d stream)) with (@nil Z) by (rewrite <- Hq; by destruct stream, d as [? ? ? ? ? [] ? ?]).
    replace (inputPosition (decode_begin d stream)) with 0 by (rewrite <- Hp; by destruct stream, d as [? ? ? ? ? [] ? ?]).
    done. }
  split; [unfold b; by destruct d as [? ? ? ? ? [] ? ?]|]. split; [done|].
  split; [unfold b; rewrite <- Hb; by destruct stream, d as [? ? ? ? ? [] ? ?]|].
  apply (utf8_loop_spec chunk _ chunk []); [done|done| |].
  - unfold b. by destruct stream, d as [? ? ? ? ? [] ? ?].
  - unfold len. case_bool_decide; lia.
Qed.

Lemma needed_pending p q : state_of p (as_ustate q) -> (needed q =? 0) = bool_decide (p = []).
Proof.
  destruct p as [|b0 t].
  - intros (Hn & _). cbn in Hn. by rewrite Hn.
  - intros (_ & _ & _ & Hn & _). cbn in Hn. rewrite Hn. pose proof (lead_needed_range b0).
    rewrite bool_decide_eq_false_2 by done. lia.
Qed.

Lemma rest_segments p s : state_of p s -> segments p (rest_of p).
Proof.
  intros Hs. unfold rest_of. case_bool_decide as Hp; [subst; constructor|].
  destruct p as [|b0 t]; [done|]. rewrite <- (app_nil_r (b0 :: t)).
  apply segments_bad; [by eapply maximal_unfinished|constructor].
Qed.

Lemma emits_joined ign seen out : Forall is_scalar out ->
  joined (emits ign (mk_emitter seen [] []) out) = more_text ign seen out.
Proof.
  intros Hout. rewrite joined_text. destruct (emits_text ign (mk_emitter seen [] []) out) as [_ ->].
  cbn. apply units_of_scalars. destruct seen; [done|by apply strip_scalars].
Qed.

Lemma more_text_app ign seen a b :
  more_text ign seen (a ++ b) =
  more_text ign seen a ++ more_text ign (seen || negb (bool_decide (a = []))) b.
Proof.
  unfold more_text. destruct seen; cbn [orb]; [apply bind_app|].
  case_bool_decide as Ha; cbn [negb]; [by subst|]. rewrite strip_bom_app by done. apply bind_app.
Qed.

(** A chunk of a stream. *)
Lemma decode_chunk d seen p chunk : ready d seen p -> is_bytes chunk -> decoderFatal d = false ->
  exists d' out p', decode d chunk true = (d', Ok (more_text (decoderIgnoreBOM d) seen out)) /\
    ready d' (seen || negb (bool_decide (out = []))) p' /\ advances p chunk out p' /\
    doNotFlush d' = true /\ decoderFatal d' = false /\ decoderIgnoreBOM d' = decoderIgnoreBOM d.
Proof.
  intros Hr Hc Hf. destruct (decode_input d seen p chunk true Hr Hc) as (He & Hq & Hb & Hread).
  unfold decode. cbv zeta. set (b := appendInput (decode_begin d true) chunk) in *.
  assert (Hfb : decoderFatal b = decoderFatal d) by (unfold b; by destruct d as [? ? ? ? ? [] ? ?]).
  assert (Hib : decoderIgnoreBOM b = decoderIgnoreBOM d) by (unfold b; by destruct d as [? ? ? ? ? [] ? ?]).
  assert (Hnb : doNotFlush b = true) by (unfold b; by destruct d as [? ? ? ? ? [] ? ?]).
  rewrite He, Hq, Hb. cbn [negb].
  clearbody b. rewrite bool_decide_eq_true_2 by done. cbn [negb].
  destruct Hread as [(out & p' & q & -> & Hst & Hadv & _)|(Hf' & _)]; [|congruence].
  destruct (emits_text (decoderIgnoreBOM d) (mk_emitter seen [] []) out) as [Hseen _]. cbn [bomSeen] in Hseen.
  cbv zeta. rewrite Hib, Hseen, emits_joined by apply Hadv.
  eexists _, out, p'. split; [reflexivity|]. split; [|split; [exact Hadv|cbn; split_and!; congruence]].
  unfold ready, decode_begin. cbn. by rewrite Hnb.
Qed.

(** The last call: the pending bytes are replaced, or refused. *)
Lemma decode_last d seen p chunk : ready d seen p -> is_bytes chunk ->
  let fresh := mk_td utf_8 (decoderFatal d) (decoderIgnoreBOM d) reset_sequence false false [] 0 in
  (exists out, decode d chunk false = (fresh, Ok (more_text (decoderIgnoreBOM d) seen out)) /\
    Forall is_scalar out /\ segments (p ++ chunk) out /\
    (decoderFatal d = true -> p ++ chunk = encode_scalars out)) \/
  (decoderFatal d = true /\ ill_formed (p ++ chunk) /\
    exists d', decode d chunk false = (d', Err (invalidEncodedData utf_8))).
Proof.
  intros Hr Hc fresh. destruct (decode_input d seen p chunk false Hr Hc) as (He & Hq & Hb & Hread).
  unfold decode. cbv zeta. set (b := appendInput (decode_begin d false) chunk) in *.
  assert (Hfb : decoderFatal b = decoderFatal d) by (unfold b; by destruct d as [? ? ? ? ? [] ? ?]).
  assert (Hib : decoderIgnoreBOM b = decoderIgnoreBOM d) by (unfold b; by destruct d as [? ? ? ? ? [] ? ?]).
  assert (Hnb : doNotFlush b = false) by (unfold b; by destruct d as [? ? ? ? ? [] ? ?]).
  clearbody b.
  assert (Hfresh : forall q, set_bom (clearInput (resetSequence (set_seq b q))) false = fresh).
  { intros q. unfold fresh. rewrite <- Hfb, <- Hib, <- He. unfold set_bom, clearInput, resetSequence, set_seq, set_queue. cbn. by rewrite Hnb. }
  rewrite He, Hq, Hb. cbn [negb].
  destruct Hread as [(out & p' & q & -> & Hst & [Hout Hadv] & Hv)|(Hf & Hill & d' & ->)].
  2: { right. split; [congruence|]. split; [done|]. rewrite He. by exists d'. }
  assert (Hseg : segments (p ++ chunk) (out ++ rest_of p')).
  { specialize (Hadv [] (rest_of p')). rewrite !app_nil_r in Hadv. apply Hadv. by eapply rest_segments. }
  rewrite bool_decide_eq_true_2 by done. cbn [negb td_seq set_seq]. cbv zeta. rewrite (needed_pending p') by done. unfold rest_of in Hseg.
  case_bool_decide as Hp; cbn [negb].
  - left. exists out. subst p'. rewrite !app_nil_r in *. split; [|split; [done|]].
    + cbn. by rewrite Hfresh, Hib, <- emits_joined.
    + split; [done|]. rewrite <- Hfb. exact Hv.
  - unfold replacement. cbn [decoderFatal set_seq resetSequence]. destruct (decoderFatal b) eqn:Hf.
    + right. split; [congruence|]. split; [|rewrite <- He; by eexists].
      rewrite Hv by done. apply ill_formed_prefix; [done|]. rewrite <- (app_nil_r p').
      destruct p' as [|b0 t]; [done|]. apply ill_formed_bad. by eapply maximal_unfinished.
    + left. exists (out ++ [0xfffd]). split; [|split; [|split; [done|congruence]]].
      * cbn [decoderIgnoreBOM set_seq]. rewrite Hib, <- emits_joined.
        -- unfold emits. rewrite foldl_app. cbn. by rewrite Hib, <- (Hfresh reset_sequence).
        -- apply Forall_app_2; [done|]. constructor; [apply replacement_scalar|done].
      * apply Forall_app_2; [done|]. constructor; [apply replacement_scalar|done].
Qed.

(** ** Streams *)

Lemma decode_stream_spec chunks : forall d seen p,
  ready d seen p -> Forall is_bytes chunks -> decoderFatal d = false -> exists out,
  Forall is_scalar out /\ segments (p ++ concat chunks) out /\
  decode_stream d chunks =
    (mk_td utf_8 false (decoderIgnoreBOM d) reset_sequence false false [] 0,
     Ok (more_text (decoderIgnoreBOM d) seen out)).
Proof.
  induction chunks as [|chunk chunks IH]; intros d seen p Hr Hc Hf; cbn [decode_stream concat].
  - destruct (decode_last d seen p [] Hr) as [(out & -> & Hout & Hseg & _)|(Hf' & _)]; [constructor| |congruence].
    rewrite Hf. by exists out.
  - apply Forall_cons in Hc as [Hc Hcs].
    destruct (decode_chunk d seen p chunk Hr Hc Hf) as (d' & o & p' & -> & Hr' & [Ho Ha] & _ & Hf' & Hi').
    destruct (IH d' _ p' Hr' Hcs Hf') as (out & Hout & Hseg & ->). exists (o ++ out).
    split; [by apply Forall_app_2|]. split; [by apply Ha|]. by rewrite Hi', more_text_app.
Qed.

(** Decoding that replaces errors always returns. *)
Lemma decodeUTF8_replacing bytes ignoreBOM : is_bytes bytes -> exists out,
  Forall is_scalar out /\ segments bytes out /\ decodeUTF8 bytes false ignoreBOM = Ok (of_scalars (strip_bom ignoreBOM out)).
Proof.
  intros Hb. unfold decodeUTF8.
  assert (Hnew : new_TextDecoder (u "utf-8") false ignoreBOM
    = Ok (mk_td utf_8 false ignoreBOM reset_sequence false false [] 0)) by by vm_compute.
  rewrite Hnew. cbn [mbind result_bind].
  destruct (decode_last _ false [] bytes (ready_fresh false ignoreBOM) Hb) as [(o & -> & Ho & Hseg & _)|(Hf & _)]; [|done].
  by exists o.
Qed.

Lemma decodeUTF8_laws bytes ignoreBOM :
  is_bytes bytes ->
  (forall text, decodeUTF8 bytes true ignoreBOM = Ok text <->
    exists cs, Forall is_scalar cs /\ bytes = encode_scalars cs /\ text = of_scalars (strip_bom ignoreBOM cs)) /\
  (forall e, decodeUTF8 bytes true ignoreBOM = Err e ->
    e = TypeError "The encoded data was not valid for encoding utf-8") /\
  (exists out, segments bytes out /\ decodeUTF8 bytes false ignoreBOM = Ok (of_scalars (strip_bom ignoreBOM out))).
Proof.
  intros Hb. destruct (decodeUTF8_replacing bytes ignoreBOM Hb) as (o & _ & Hseg & Hdec). rewrite Hdec. clear Hdec.
  unfold decodeUTF8. assert (Hnew : new_TextDecoder (u "utf-8") true ignoreBOM
    = Ok (mk_td utf_8 true ignoreBOM reset_sequence false false [] 0)) by by vm_compute.
  rewrite Hnew. cbn [mbind result_bind].
  destruct (decode_last _ false [] bytes (ready_fresh true ignoreBOM) Hb)
    as [(out & -> & Hout & _ & Hv)|(_ & Hill & d' & ->)]; cbn [app snd decoderFatal decoderIgnoreBOM] in *.
  - specialize (Hv eq_refl). split; [|split; [done|by exists o]]. intros text. split.
    + intros [= <-]. by exists out.
    + intros (cs & Hcs & E & ->). replace cs with out; [done|].
      eapply segments_unique; [|by apply segments_scalars]. rewrite <- E, Hv. by apply segments_scalars.
  - split; [|split; [by intros e [= <-]|by exists o]]. intros text. split; [done|].
    intros (cs & Hcs & -> & _). by destruct (Hill cs).
Qed.

(** ** Properties *)



(** The UTF-8 decoding of a message.  With [fatal] it returns a text exactly
    for the encodings of scalar values, and throws a [TypeError] on all others;
    without, it returns the units of the segmentation.  Both drop a byte order
    mark unless [ignoreBOM]. *)
Theorem decode_utf8_spec bytes ignoreBOM :
  is_bytes bytes ->
  (forall text, decodeUTF8 bytes true ignoreBOM = Ok text <->
    exists cs, Forall is_scalar cs /\ bytes = encode_scalars cs /\ text = of_scalars (strip_bom ignoreBOM cs)) /\
  (forall e, decodeUTF8 bytes true ignoreBOM = Err e ->
    e = TypeError "The encoded data was not valid for encoding utf-8") /\
  (exists out, segments bytes out /\ decodeUTF8 bytes false ignoreBOM = Ok (of_scalars (strip_bom ignoreBOM out))).
Proof. apply decodeUTF8_laws. Qed.

Lemma decode_utf8_spec_witness :
  is_bytes [0xc3; 0xa9] /\ decodeUTF8 [0xc3; 0xa9] true false = Ok [0xe9] /\
  exists cs, Forall is_scalar cs /\ [0xc3; 0xa9] = encode_scalars cs /\ [0xe9] = of_scalars (strip_bom false cs).
Proof.
  assert (Hb : is_bytes [0xc3; 0xa9]) by by_computing. split; [exact Hb|].
  assert (E : decodeUTF8 [0xc3; 0xa9] true false = Ok [0xe9]) by by vm_compute. split; [exact E|].
  apply (decode_utf8_spec [0xc3; 0xa9] false Hb). exact E.
Defined.
