(* ===== verification/Utf16Theory.v ===== *)
(** * UTF-16 decoding

    Streaming UTF-16 decoding is the pairing of bytes into units and of
    surrogates into scalar values, whatever the chunks. *)

From S2P Require Import Prelude Ascii Utf8 Utf8Theory TextDecoder TextDecoderTheory.

(** ** Specification *)

(** The units of the byte pairs, and an odd last byte. *)
Fixpoint pair_units (be : bool) (bytes : list Z) : list Z * option Z :=
  match bytes with
  | a :: b :: rest =>
      let '(units, odd) := pair_units be rest in
      ((if be then a * 256 + b else b * 256 + a) :: units, odd)
  | [a] => ([], Some a)
  | [] => ([], None)
  end.

Definition is_lead (c : Z) : bool := (0xd800 <=? c) && (c <? 0xdc00).
Definition ends_in_lead (units : list Z) : bool := match last units with Some c => is_lead c | None => false end.

(** The scalar values of UTF-16 bytes: an unpaired surrogate is U+FFFD, and so is
    an odd last byte, unless it follows a lead surrogate and they are one. *)
Definition utf16_scalars (be : bool) (bytes : list Z) : list Z :=
  let '(units, odd) := pair_units be bytes in
  to_scalars units ++ if bool_decide (odd = None) || ends_in_lead units then [] else [0xfffd].

(** One byte of the machine: the pending byte and lead, and the code points. *)
Definition unit_step (unit : Z) : (Z * Z) * list Z :=
  if (0xd800 <=? unit) && (unit <=? 0xdbff) then (-1, unit, [])
  else if (0xdc00 <=? unit) && (unit <=? 0xdfff) then (-1, -1, [0xfffd])
  else (-1, -1, [unit]).

Definition byte_step (be : bool) (s : Z * Z) (byte : Z) : (Z * Z) * list Z :=
  let '(pending, lead) := s in
  if pending =? -1 then (byte, lead, [])
  else
    let unit := if be then (pending .<< 8) .| byte else (byte .<< 8) .| pending in
    if negb (lead =? -1) then
      if (0xdc00 <=? unit) && (unit <=? 0xdfff)
      then (-1, -1, [0x10000 + ((lead - 0xd800) .<< 10) + (unit - 0xdc00)])
      else let '(s, out) := unit_step unit in (s, 0xfffd :: out)
    else unit_step unit.

Fixpoint bytes_run (be : bool) (s : Z * Z) (bytes : list Z) : (Z * Z) * list Z :=
  match bytes with
  | [] => (s, [])
  | byte :: bytes =>
      let '(s, out) := byte_step be s byte in
      let '(s, more) := bytes_run be s bytes in (s, out ++ more)
  end.

Definition at_end (s : Z * Z) : list Z :=
  if negb (s.2 =? -1) || negb (s.1 =? -1) then [0xfffd] else [].

(** ** The decoder runs the machine *)

Definition pending_of (d : TextDecoder) : Z * Z := (pendingByte (td_seq d), pendingLead (td_seq d)).
Definition is_be (d : TextDecoder) : bool := bool_decide (decoderEncoding d = utf_16be).

(** The result of a run in a decoder that replaces errors. *)
Definition runs (d : TextDecoder) (e : emitter) (r : (Z * Z) * list Z) : TD emitter :=
  (set_pending d r.1.1 r.1.2, Ok (emits (decoderIgnoreBOM d) e r.2)).

(** What is put out for [units], the odd byte [odd] and the end. *)
Definition ended (units : list Z) (odd : option Z) : list Z :=
  to_scalars units ++ if bool_decide (odd = None) || ends_in_lead units then [] else [0xfffd].

Definition with_lead (lead : Z) (units : list Z) : list Z := if lead =? -1 then units else lead :: units.

Definition ready16 (d : TextDecoder) (seen : bool) (s : Z * Z) : Prop :=
  let b := decode_begin d true in
  decoderEncoding d <> utf_8 /\ decoderFatal d = false /\ inputQueue b = [] /\ inputPosition b = 0 /\
  td_bomSeen b = seen /\ pending_of b = s.

Definition more_units (ign seen : bool) (out : list Z) : jsstr :=
  (if seen then out else strip_bom ign out) ≫= code_units.

Lemma utf16_unit_run d i unit e : decoderFatal d = false -> pending_of d = (-1, -1) ->
  utf16_unit d i unit e = runs d e (unit_step unit).
Proof.
  intros Hf Hp. unfold utf16_unit, runs, unit_step, utf16Error. rewrite Hf. cbn [negb].
  assert (Hd : d = set_pending d (-1) (-1)).
  { destruct d as [? ? ? [] ? ? ? ?]. unfold pending_of in Hp. cbn in Hp. by injection Hp as -> ->. }
  destruct ((_ <=? unit) && _); [done|]. destruct ((_ <=? unit) && _); cbn; by rewrite <- Hd.
Qed.

Lemma utf16_byte_run d i byte e : decoderFatal d = false ->
  utf16_byte d i byte e = runs d e (byte_step (is_be d) (pending_of d) byte).
Proof.
  intros Hf. unfold utf16_byte, byte_step, pending_of, is_be.
  destruct (pendingByte (td_seq d) =? -1); [done|].
  set (unit := if bool_decide _ then _ else _). set (lead := pendingLead (td_seq d)).
  destruct (lead =? -1) eqn:Hl; cbn [negb].
  - apply Z.eqb_eq in Hl. rewrite utf16_unit_run; [|done|]; [done|]. unfold pending_of. cbn. by rewrite Hl.
  - destruct (_ && _); [done|]. unfold utf16Error. cbn [decoderFatal set_pending set_seq]. rewrite Hf. cbn [negb].
    rewrite utf16_unit_run by done. by destruct (unit_step unit) as [[] out].
Qed.

Lemma set_pending_same d : set_pending d (pendingByte (td_seq d)) (pendingLead (td_seq d)) = d.
Proof. by destruct d as [? ? ? [] ? ? ? ?]. Qed.

Lemma utf16_loop_run input : forall d i e, decoderFatal d = false ->
  utf16_loop d i input e = runs d e (bytes_run (is_be d) (pending_of d) input).
Proof.
  induction input as [|b input IH]; intros d i e Hf; cbn [utf16_loop bytes_run].
  - unfold runs, pending_of. cbn [fst snd]. by rewrite set_pending_same.
  - rewrite utf16_byte_run by done. unfold runs at 1.
    destruct (byte_step (is_be d) (pending_of d) b) as [[p l] out]. cbn [fst snd].
    rewrite IH by done. unfold pending_of at 1. cbn [td_seq set_pending set_seq pendingByte pendingLead].
    change (is_be (set_pending d p l)) with (is_be d).
    destruct (bytes_run (is_be d) (p, l) input) as [[p' l'] more]. unfold runs. cbn [fst snd].
    unfold emits. by rewrite foldl_app.
Qed.

Lemma bytes_run_app be a b : forall s,
  bytes_run be s (a ++ b) =
  let '(s1, out) := bytes_run be s a in let '(s2, more) := bytes_run be s1 b in (s2, out ++ more).
Proof.
  induction a as [|x a IH]; intros s; cbn [app bytes_run]; [by destruct (bytes_run be s b)|].
  destruct (byte_step be s x) as [s1 out]. rewrite IH.
  destruct (bytes_run be s1 a) as [s2 out2], (bytes_run be s2 b) as [s3 out3]. by rewrite app_assoc.
Qed.

(** ** The machine computes the scalar values *)

Lemma unit_of_bytes hi lo : is_byte hi -> is_byte lo -> (hi .<< 8) .| lo = hi * 256 + lo.
Proof.
  unfold is_byte. intros Hh Hl. rewrite js_shl_mul by lia. apply (js_or_add _ _ 8); try lia.
  change (2 ^ 8) with 256. by rewrite Z.mod_mul.
Qed.

Lemma pair_units_ok be bytes : is_bytes bytes -> is_jsstr (pair_units be bytes).1.
Proof.
  induction bytes as [l IH] using strong_string. destruct l as [|a [|b rest]]; intros Hb; [constructor|constructor|].
  apply Forall_cons in Hb as [Ha Hb]. apply Forall_cons in Hb as [Hb Hr]. cbn [pair_units].
  specialize (IH rest ltac:(cbn; lia) Hr). destruct (pair_units be rest) as [units odd]. constructor; [|done].
  unfold is_unit, is_byte in *. destruct be; lia.
Qed.

Lemma ends_in_lead_cons c l : l <> [] \/ is_lead c = false -> ends_in_lead (c :: l) = ends_in_lead l.
Proof. unfold ends_in_lead. destruct l; [|done]. cbn. intros [|]; done. Qed.

Lemma ended_lead c d units odd : is_lead c = true -> is_lead d = true \/ ~ 0xdc00 <= d < 0xe000 ->
  ended (c :: d :: units) odd = 0xfffd :: ended (d :: units) odd.
Proof.
  intros Hc Hd. unfold ended. rewrite (ends_in_lead_cons c) by (left; done). unfold is_lead in Hc, Hd.
  cbn [to_scalars]. rewrite Hc.
  destruct (Z.leb_spec 0xdc00 d), (Z.ltb_spec d 0xe000); cbn [andb]; [lia|done..].
Qed.

Lemma ended_pair c d units odd : is_lead c = true -> 0xdc00 <= d < 0xe000 ->
  ended (c :: d :: units) odd = 0x10000 + (c - 0xd800) * 1024 + (d - 0xdc00) :: ended units odd.
Proof.
  intros Hc Hd. unfold ended. rewrite (ends_in_lead_cons c) by (left; done).
  rewrite (ends_in_lead_cons d) by (right; unfold is_lead; lia). unfold is_lead in Hc. cbn [to_scalars]. rewrite Hc.
  destruct (Z.leb_spec 0xdc00 d), (Z.ltb_spec d 0xe000); cbn [andb]; [done|lia..].
Qed.

Lemma ended_one c units odd : is_lead c = false ->
  ended (c :: units) odd = (if (0xdc00 <=? c) && (c <=? 0xdfff) then 0xfffd else c) :: ended units odd.
Proof.
  intros Hc. unfold ended. rewrite ends_in_lead_cons by by right. unfold is_lead in Hc. cbn [to_scalars]. rewrite Hc.
  destruct (Z.leb_spec 0xdc00 c), (Z.ltb_spec c 0xe000), (Z.leb_spec c 0xdfff); cbn [andb]; done || lia.
Qed.

Lemma ended_last c odd : is_lead c = true -> ended [c] odd = [0xfffd].
Proof.
  intros Hc. unfold ended, ends_in_lead. cbn [last to_scalars]. rewrite Hc, orb_true_r, app_nil_r.
  unfold is_lead in Hc. by rewrite Hc.
Qed.

Lemma run_ended be bytes : forall lead, is_bytes bytes -> lead = -1 \/ is_lead lead = true ->
  let '(s, out) := bytes_run be (-1, lead) bytes in
  let '(units, odd) := pair_units be bytes in
  out ++ at_end s = ended (with_lead lead units) odd.
Proof.
  induction bytes as [l IH] using strong_string. intros lead Hb Hl.
  assert (Hne : is_lead lead = true -> (lead =? -1) = false) by (unfold is_lead; lia).
  destruct l as [|a [|b rest]].
  - cbn [bytes_run pair_units app]. unfold with_lead, at_end. cbn [fst snd].
    destruct Hl as [->|Hl]; [done|]. rewrite Hne by done. by rewrite ended_last.
  - apply Forall_cons in Hb as [Ha _]. cbn [bytes_run byte_step pair_units app]. rewrite Z.eqb_refl. unfold with_lead, at_end. cbn [fst snd app].
    assert (Ha' : (a =? -1) = false) by (unfold is_byte in Ha; lia). rewrite Ha', orb_true_r.
    destruct Hl as [->|Hl]; [done|]. rewrite Hne by done. by rewrite ended_last.
  - apply Forall_cons in Hb as [Ha Hb]. apply Forall_cons in Hb as [Hb Hr].
    cbn [bytes_run byte_step pair_units]. rewrite Z.eqb_refl. cbn [bytes_run byte_step].
    assert (Ha' : (a =? -1) = false) by (unfold is_byte in Ha; lia). rewrite Ha'. cbn [app].
    rewrite !unit_of_bytes by done. set (unit := if be then a * 256 + b else b * 256 + a).
    assert (Hu : is_unit unit) by (unfold unit, is_unit, is_byte in *; destruct be; lia).
    (* The unit after the lead is dealt with. *)
    assert (Hunit : let '(s, out) := unit_step unit in let '(s', more) := bytes_run be s rest in
      let '(units, odd) := pair_units be rest in (out ++ more) ++ at_end s' = ended (unit :: units) odd).
    { unfold unit_step. destruct (Z.leb_spec 0xd800 unit), (Z.leb_spec unit 0xdbff); cbn [andb];
        [|destruct (Z.leb_spec 0xdc00 unit), (Z.leb_spec unit 0xdfff); cbn [andb]..].
      1: { assert (Hlu : is_lead unit = true) by (unfold is_lead; lia).
           specialize (IH rest ltac:(cbn; lia) unit Hr (or_intror Hlu)).
           destruct (bytes_run be (-1, unit) rest), (pair_units be rest).
           unfold with_lead in IH. replace (unit =? -1) with false in IH by lia. by rewrite <- IH. }
      all: specialize (IH rest ltac:(cbn; lia) (-1) Hr (or_introl eq_refl));
        destruct (bytes_run be (-1, -1) rest), (pair_units be rest); match type of IH with context [with_lead (-1) ?x] => change (with_lead (-1) x) with x in IH end;
        rewrite ended_one by (unfold is_lead; lia); rewrite <- IH; cbn [app]; f_equal;
        destruct (Z.leb_spec 0xdc00 unit), (Z.leb_spec unit 0xdfff); done || lia. }
    clearbody unit. destruct Hl as [->|Hl].
    + rewrite Z.eqb_refl. cbn [negb]. destruct (unit_step unit) as [s out], (bytes_run be s rest) as [s' more].
      destruct (pair_units be rest) as [units odd]. exact Hunit.
    + rewrite (Hne Hl). cbn [negb].
      destruct (Z.leb_spec 0xdc00 unit), (Z.leb_spec unit 0xdfff); cbn [andb].
      1: { specialize (IH rest ltac:(cbn; lia) (-1) Hr (or_introl eq_refl)).
        destruct (bytes_run be (-1, -1) rest), (pair_units be rest). match type of IH with context [with_lead (-1) ?x] => change (with_lead (-1) x) with x in IH end.
        unfold with_lead. rewrite (Hne Hl), ended_pair by (done || lia). cbn [app]. rewrite <- IH.
        unfold is_lead in Hl. by rewrite js_shl_mul by (cbn; lia). }
      all: destruct (unit_step unit) as [s out], (bytes_run be s rest) as [s' more];
        destruct (pair_units be rest) as [units odd]; unfold with_lead; rewrite (Hne Hl), ended_lead by (done || (right; lia));
        cbn [app]; by rewrite <- Hunit.
Qed.

(** ** Streams *)

Lemma emits_units ign seen out :
  joined (emits ign (mk_emitter seen [] []) out) = more_units ign seen out.
Proof. rewrite joined_text. by destruct (emits_text ign (mk_emitter seen [] []) out) as [_ ->]. Qed.

Lemma more_units_app ign seen a b :
  more_units ign seen (a ++ b) = more_units ign seen a ++ more_units ign (seen || negb (bool_decide (a = []))) b.
Proof.
  unfold more_units. destruct seen; cbn [orb]; [apply bind_app|].
  case_bool_decide as Ha; cbn [negb]; [by subst|]. rewrite strip_bom_app by done. apply bind_app.
Qed.

(** A call: what the machine puts out, and the end unless more is to come. *)
Lemma decode16 d seen s chunk (stream : bool) : ready16 d seen s ->
  let '(s', out) := bytes_run (is_be d) s chunk in
  let out' := out ++ if stream then [] else at_end s' in
  exists d', decode d chunk stream = (d', Ok (more_units (decoderIgnoreBOM d) seen out')) /\
  doNotFlush d' = stream /\ decoderEncoding d' = decoderEncoding d /\ decoderIgnoreBOM d' = decoderIgnoreBOM d /\
  decoderFatal d' = false /\
  (stream = true -> ready16 d' (seen || negb (bool_decide (out = []))) s').
Proof.
  intros (He & Hf & Hq & Hp & Hb & Hs). unfold decode. cbv zeta.
  set (b := appendInput (decode_begin d stream) chunk).
  assert (Hqb : inputQueue b = chunk).
  { unfold b, appendInput. cbn [inputQueue set_queue].
    replace (inputQueue (decode_begin d stream)) with (@nil Z) by (rewrite <- Hq; by destruct stream, d as [? ? ? ? ? [] ? ?]).
    replace (inputPosition (decode_begin d stream)) with 0 by (rewrite <- Hp; by destruct stream, d as [? ? ? ? ? [] ? ?]).
    done. }
  assert (Hbb : td_bomSeen b = seen) by (unfold b; rewrite <- Hb; by destruct stream, d as [? ? ? ? ? [] ? ?]).
  assert (Hsb : pending_of b = s) by (unfold b; rewrite <- Hs; by destruct stream, d as [? ? ? ? ? [] ? ?]).
  assert (Heb : decoderEncoding b = decoderEncoding d) by (unfold b; by destruct d as [? ? ? ? ? [] ? ?]).
  assert (Hfb : decoderFatal b = false) by (unfold b; by destruct d as [? ? ? ? ? [] ? ?]).
  assert (Hib : decoderIgnoreBOM b = decoderIgnoreBOM d) by (unfold b; by destruct d as [? ? ? ? ? [] ? ?]).
  assert (Hnb : doNotFlush b = stream) by (unfold b; by destruct d as [? ? ? ? ? [] ? ?]).
  clearbody b. rewrite bool_decide_eq_false_2 by congruence. cbn [negb].
  unfold decodeUTF16. rewrite Hqb, Hbb, utf16_loop_run, Hsb by done. replace (is_be b) with (is_be d) by (unfold is_be; by rewrite Heb).
  destruct (bytes_run (is_be d) s chunk) as [[p l] out]. unfold runs. cbn [fst snd].
  assert (Hready : forall d', d' = set_bom (clearInput (set_pending b p l)) (bomSeen (emits (decoderIgnoreBOM b) (mk_emitter seen [] []) out)) ->
    stream = true -> ready16 d' (seen || negb (bool_decide (out = []))) (p, l)).
  { intros d' -> Hst. unfold ready16, decode_begin. cbn. rewrite Hnb, Hst, Heb, Hfb.
    destruct (emits_text (decoderIgnoreBOM b) (mk_emitter seen [] []) out) as [-> _]. by split_and!. }
  destruct stream.
  - rewrite emits_units, app_nil_r, <- Hib. eexists. split; [reflexivity|]. cbn [doNotFlush set_bom clearInput set_queue set_pending set_seq decoderEncoding decoderIgnoreBOM decoderFatal].
    split_and!; try done. by apply Hready.
  - unfold at_end. cbn [td_seq set_pending set_seq pendingByte pendingLead fst snd].
    destruct (negb (l =? -1) || negb (p =? -1)).
    + unfold utf16Error. cbn [decoderFatal set_pending set_seq]. rewrite Hfb. cbn [negb decoderIgnoreBOM].
      rewrite <- emits_units, <- Hib. eexists. split; [unfold emits; rewrite foldl_app; reflexivity|by cbn].
    + rewrite app_nil_r, emits_units, <- Hib. eexists. split; [reflexivity|]. by cbn.
Qed.

Lemma decode_stream16 chunks : forall d seen s, ready16 d seen s ->
  let '(s', out) := bytes_run (is_be d) s (concat chunks) in
  exists d', decode_stream d chunks = (d', Ok (more_units (decoderIgnoreBOM d) seen (out ++ at_end s'))) /\
  (forall stream, decode_begin d' stream
    = mk_td (decoderEncoding d) false (decoderIgnoreBOM d) reset_sequence false stream [] 0).
Proof.
  induction chunks as [|chunk chunks IH]; intros d seen s Hr; cbn [decode_stream concat].
  - pose proof (decode16 d seen s [] false Hr) as Hd. cbn [bytes_run app] in *.
    destruct Hd as (d' & -> & Hn & He & Hi & Hf & _). exists d'. split; [done|].
    intros stream. unfold decode_begin. rewrite Hn. by destruct d'; cbn in *; subst.
  - pose proof (decode16 d seen s chunk true Hr) as Hd. rewrite bytes_run_app.
    destruct (bytes_run (is_be d) s chunk) as [s1 out]. destruct Hd as (d1 & -> & Hn & He & Hi & Hf & Hr1).
    specialize (IH d1 _ s1 (Hr1 eq_refl)). replace (is_be d1) with (is_be d) in IH by (unfold is_be; by rewrite He).
    destruct (bytes_run (is_be d) s1 (concat chunks)) as [s2 more]. destruct IH as (d' & -> & Hb).
    exists d'. rewrite He, Hi in *. split; [|done]. by rewrite app_nil_r, <- app_assoc, <- more_units_app.
Qed.

(** ** Properties *)

(** C26: UTF-16 streams.  However the bytes are cut into chunks, the texts that a
    replacing UTF-16 decoder returns concatenate to the units of the stream's
    scalar values, an unpaired surrogate and an odd last byte being U+FFFD, and
    without the byte order mark unless [ignoreBOM]; the next call starts over. *)
Theorem text_decoder_utf16_stream label ignoreBOM d chunks :
  new_TextDecoder label false ignoreBOM = Ok d -> decoderEncoding d <> utf_8 -> Forall is_bytes chunks ->
  exists d', decode_stream d chunks
    = (d', Ok (of_scalars (strip_bom ignoreBOM (utf16_scalars (is_be d) (concat chunks))))) /\
  forall stream, decode_begin d' stream = decode_begin d stream.
Proof.
  unfold new_TextDecoder. cbv zeta. intros Hd He Hc. ok_inv Hd. injection Hd as <-.
  set (d := mk_td _ _ _ _ _ _ _ _) in *.
  assert (Hr : ready16 d false (-1, -1)) by by split_and!.
  assert (Hb : is_bytes (concat chunks)) by by apply Forall_concat.
  pose proof (decode_stream16 chunks d false (-1, -1) Hr) as Hrun.
  pose proof (run_ended (is_be d) (concat chunks) (-1) Hb (or_introl eq_refl)) as Hend.
  pose proof (pair_units_ok (is_be d) (concat chunks) Hb) as Hu.
  unfold utf16_scalars. destruct (bytes_run _ _ _) as [s out], (pair_units _ _) as [units odd].
  destruct Hrun as (d' & -> & Hbegin). exists d'. split; [|done]. rewrite Hend. unfold more_units.
  change (with_lead (-1) units) with units. fold (ended units odd). rewrite units_of_scalars; [done|].
  apply strip_scalars. unfold ended. apply Forall_app_2; [by apply to_scalars_ok|].
  destruct (_ || _); [constructor|]. constructor; [apply replacement_scalar|constructor].
Qed.

Lemma text_decoder_utf16_stream_witness :
  let chunks := [[0xfe]; [0xff; 0xd8]; [0x3d; 0xde]; [0]; [0xd8; 0; 0; 0x41; 0x42]] in
  exists d, new_TextDecoder (u " UTF-16BE") false false = Ok d /\ decoderEncoding d <> utf_8 /\
  exists d', decode_stream d chunks = (d', Ok [0xd83d; 0xde00; 0xfffd; 0x41; 0xfffd]) /\
  decode_begin d' false = decode_begin d false.
Proof.
  intros chunks. exists (mk_td utf_16be false false reset_sequence false false [] 0).
  assert (Hn : new_TextDecoder (u " UTF-16BE") false false = Ok (mk_td utf_16be false false reset_sequence false false [] 0))
    by by vm_compute.
  split; [exact Hn|]. split; [discriminate|].
  destruct (text_decoder_utf16_stream _ _ _ chunks Hn) as (d' & Hd & Hb); [discriminate|by_computing|].
  exists d'. exact (conj Hd (Hb false)).
Defined.
