(* ===== verification/Base64.v ===== *)
(** * Forgiving base64 ([core/base64.ts])

    The encoder and the decoder of the Infra standard, which skips ASCII
    whitespace and accepts unpadded data, shown to be the group codec of RFC 4648
    on what is left. *)

From S2P Require Import Prelude Ascii.

Definition BASE64_ALPHABET : jsstr :=
  u "ABCDEFGHIJKLMNOPQRSTUVWXYZabcdefghijklmnopqrstuvwxyz0123456789+/".

(** [s.charAt(i)]: the empty string outside. *)
Definition charAt (l : jsstr) (i : Z) : jsstr :=
  match at_ l i with Some c => [c] | None => [] end.

(** The indices of [for (let index = 0; index < n; index += 3)]. *)
Definition by_threes (n : Z) : list Z := Z.mul 3 <$> seqZ 0 ((n + 2) / 3).

(** One iteration. *)
Definition encode_group (bytes : list Z) (index : Z) : jsstr :=
  let first := at_or 0 bytes index in
  let second := at_or 0 bytes (index + 1) in
  let third := at_or 0 bytes (index + 2) in
  charAt BASE64_ALPHABET (first .>>> 2) ++
  charAt BASE64_ALPHABET (((first .& 3) .<< 4) .| (second .>>> 4)) ++
  (if index + 1 <? len bytes then charAt BASE64_ALPHABET (((second .& 15) .<< 2) .| (third .>>> 6)) else u "=") ++
  (if index + 2 <? len bytes then charAt BASE64_ALPHABET (third .& 63) else u "=").

Definition forgivingBase64Encode (bytes : list Z) : jsstr :=
  foldl (fun result index => result ++ encode_group bytes index) [] (by_threes (len bytes)).

(** [null] when a unit is no byte. *)
Definition base64BinaryStringToBytes (input : jsstr) : option (list Z) :=
  mapM (fun unit => if 0xff <? unit then None else Some (to_uint8 unit)) input.

Definition base64BytesToBinaryString (bytes : list Z) : jsstr := (fun b => b mod 65536) <$> bytes.

Definition base64Value (code : Z) : Z :=
  if in_range 0x41 0x5a code then code - 0x41
  else if in_range 0x61 0x7a code then code - 0x61 + 26
  else if in_range 0x30 0x39 code then code - 0x30 + 52
  else if code =? 0x2b then 62
  else if code =? 0x2f then 63
  else -1.

Definition significantLength (input : list Z) : Z :=
  foldl (fun n byte => if isASCIIWhitespace byte then n else n + 1) 0 input.

(** The padding loop, from the last byte: [end] without at most two [=]. *)
Fixpoint remove_padding (backwards : list Z) (end_ removedPadding : Z) : Z :=
  match backwards with
  | [] => end_
  | byte :: backwards =>
      if removedPadding <? 2 then
        if isASCIIWhitespace byte then remove_padding backwards end_ removedPadding
        else if negb (byte =? 0x3d) then end_
        else remove_padding backwards (end_ - 1) (removedPadding + 1)
      else end_
  end.

Record base64_state := mk_b64 {
  output : list Z;
  accumulator : Z;
  bits : Z;
  b64_read : Z;
  written : Z;
}.

(** A significant byte; [None] is [return null]. *)
Definition base64_byte (s : base64_state) (byte : Z) : option base64_state :=
  let value := base64Value byte in
  if value <? 0 then None else
  let accumulator := (accumulator s .<< 6) .| value in
  let bits := bits s + 6 in
  let '(output, bits, written) :=
    if 8 <=? bits
    then (set_u8 (output s) (written s) ((accumulator .>> (bits - 8)) .& 0xff), bits - 8, written s + 1)
    else (output s, bits, written s) in
  Some (mk_b64 output (if bits =? 0 then 0 else accumulator) bits (b64_read s + 1) written).

(** [for (let index = 0; index < input.length && read < end; index++)] *)
Fixpoint base64_loop (end_ : Z) (input : list Z) (s : base64_state) : option base64_state :=
  match input with
  | [] => Some s
  | byte :: input =>
      if b64_read s <? end_ then
        if isASCIIWhitespace byte then base64_loop end_ input s
        else s ← base64_byte s byte; base64_loop end_ input s
      else Some s
  end.

Definition forgivingBase64Decode (input : list Z) : option (list Z) :=
  let significant := significantLength input in
  let end_ := if significant mod 4 =? 0 then remove_padding (reverse input) significant 0 else significant in
  if end_ mod 4 =? 1 then None else
  s ← base64_loop end_ input (mk_b64 (zeros (end_ * 6 / 8)) 0 0 0 0);
  Some (output s).

(** ** Specification *)

(** The groups of RFC 4648. *)
Fixpoint decode_groups (values : list Z) : list Z :=
  match values with
  | a :: b :: c :: d :: rest =>
      a * 4 + b / 16 :: b mod 16 * 16 + c / 4 :: c mod 4 * 64 + d :: decode_groups rest
  | [a; b; c] => [a * 4 + b / 16; b mod 16 * 16 + c / 4]
  | [a; b] => [a * 4 + b / 16]
  | _ => []
  end.

Fixpoint value_groups (bytes : list Z) : list Z :=
  match bytes with
  | a :: b :: c :: rest => a / 4 :: a mod 4 * 16 + b / 16 :: b mod 16 * 4 + c / 64 :: c mod 64 :: value_groups rest
  | [a; b] => [a / 4; a mod 4 * 16 + b / 16; b mod 16 * 4]
  | [a] => [a / 4; a mod 4 * 16]
  | [] => []
  end.

Definition significant (input : list Z) : list Z := filter (fun b => isASCIIWhitespace b = false) input.

(** At most [n] [=] at the start go. *)
Fixpoint strip_padding (n : nat) (data : list Z) : list Z :=
  match n, data with
  | S n, c :: rest => if c =? 0x3d then strip_padding n rest else data
  | _, _ => data
  end.

(** One or two [=] at the end of data of a length divisible by four go. *)
Definition unpadded (data : list Z) : list Z :=
  if len data mod 4 =? 0 then reverse (strip_padding 2 (reverse data)) else data.

(** A character's value. *)
Definition value_of (c : Z) : option Z := if base64Value c <? 0 then None else Some (base64Value c).

(** The Infra standard's forgiving-base64 decode. *)
Definition infra_decode (input : list Z) : option (list Z) :=
  let data := unpadded (significant input) in
  if len data mod 4 =? 1 then None else decode_groups <$> mapM value_of data.

(** The loop without the whitespace and the bound. *)
Definition base64_bytes (s : base64_state) (bytes : list Z) : option base64_state :=
  foldl (fun s byte => s ≫= fun s => base64_byte s byte) (Some s) bytes.

(** The loop's state when [done_] is written, [k] bytes are not, and [acc] holds
    the last [n] bits. *)
Definition filled (done_ : list Z) (k acc n r : Z) : base64_state :=
  mk_b64 (done_ ++ zeros k) acc n r (len done_).

Definition char_of (v : Z) : Z := at_or 0 BASE64_ALPHABET v.

Definition padding (n : Z) : jsstr := replicate (Z.to_nat ((3 - n mod 3) mod 3)) 0x3d.

(** ** Decoding *)

Lemma significantLength_spec input : significantLength input = len (significant input).
Proof.
  unfold significantLength, significant.
  assert (H : forall n, foldl (fun n byte => if isASCIIWhitespace byte then n else n + 1) n input
    = n + len (filter (fun b => isASCIIWhitespace b = false) input)).
  { induction input as [|b input IH]; intros n; cbn [foldl]; [by rewrite filter_nil, (@len_nil Z), Z.add_0_r|].
    rewrite IH, filter_cons. destruct (isASCIIWhitespace b); case_decide; try done. rewrite len_cons. lia. }
  rewrite H. lia.
Qed.

(** The padding loop sees the significant bytes only. *)
Lemma remove_padding_significant l : forall end_ k,
  remove_padding l end_ k = remove_padding (significant l) end_ k.
Proof.
  unfold significant. induction l as [|b l IH]; intros end_ k; [done|].
  rewrite filter_cons. cbn [remove_padding]. destruct (isASCIIWhitespace b) eqn:Hb; case_decide; try done.
  - destruct (Z.ltb_spec k 2); [apply IH|]. destruct (filter _ l) as [|c l']; cbn [remove_padding]; [done|].
    by destruct (Z.ltb_spec k 2); [lia|].
  - cbn [remove_padding]. rewrite Hb. by rewrite IH.
Qed.

Lemma significant_reverse l : significant (reverse l) = reverse (significant l).
Proof. apply filter_reverse. Qed.

Lemma significant_no_space l : Forall (fun b => isASCIIWhitespace b = false) (significant l).
Proof. apply Forall_forall. intros b [Hb _]%list_elem_of_filter. done. Qed.

Lemma strip_padding_suffix n l : exists k, l = k ++ strip_padding n l.
Proof.
  revert l. induction n as [|n IH]; intros [|c l]; cbn [strip_padding]; try by exists [].
  destruct (c =? 0x3d); [|by exists []]. destruct (IH l) as [k E]. exists (c :: k). cbn. by rewrite <- E.
Qed.

Lemma remove_padding_strip n : forall l k, (n <= 2)%nat -> k = 2 - Z.of_nat n ->
  Forall (fun b => isASCIIWhitespace b = false) l ->
  remove_padding l (len l) k = len (strip_padding n l) /\
  forall e, remove_padding l (e + len l) k = e + len (strip_padding n l).
Proof.
  assert (H : forall l k e, (n <= 2)%nat -> k = 2 - Z.of_nat n -> Forall (fun b => isASCIIWhitespace b = false) l ->
    remove_padding l (e + len l) k = e + len (strip_padding n l)).
  { induction n as [|n IH]; intros [|c l] k e Hn -> Hl; cbn [remove_padding strip_padding]; try done.
    apply Forall_cons in Hl as [Hc Hl]. destruct (Z.ltb_spec (2 - Z.of_nat (S n)) 2); [|lia].
    rewrite Hc. destruct (Z.eqb_spec c 0x3d); cbn [negb]; [|done].
    replace (e + len (c :: l) - 1) with (e + len l) by (rewrite len_cons; lia). apply IH; [lia|lia|done]. }
  intros l k Hn Hk Hl. split; [by apply (H l k 0)|intros e; by apply H].
Qed.

(** The bytes the decoder reads are those that the standard keeps. *)
Lemma unpadded_take data : Forall (fun b => isASCIIWhitespace b = false) data ->
  let e := if len data mod 4 =? 0 then remove_padding (reverse data) (len data) 0 else len data in
  unpadded data = take (Z.to_nat e) data /\ len (unpadded data) = e.
Proof.
  intros Hs. cbv zeta. unfold unpadded. destruct (len data mod 4 =? 0).
  2: { split; [|done]. rewrite take_ge; [done|]. unfold len. lia. }
  assert (Hlen : len data = len (reverse data)) by (unfold len; by rewrite length_reverse).
  rewrite Hlen. destruct (remove_padding_strip 2 (reverse data) 0) as [-> _]; [lia|done|by apply Forall_reverse|].
  destruct (strip_padding_suffix 2 (reverse data)) as [k E]. set (s := strip_padding 2 (reverse data)) in *.
  assert (Hr : len (reverse s) = len s) by (unfold len; by rewrite length_reverse). split; [|done].
  assert (Ed : data = reverse s ++ reverse k) by (rewrite <- reverse_app, <- E; by rewrite reverse_involutive).
  rewrite Ed, <- Hr. unfold len. by rewrite Nat2Z.id, take_app_length.
Qed.

Lemma base64_bytes_none bytes : foldl (fun s byte => s ≫= fun s => base64_byte s byte) None bytes = None.
Proof. by induction bytes. Qed.

Lemma base64_loop_significant e input : forall s, 0 <= e - b64_read s ->
  base64_loop e input s = base64_bytes s (take (Z.to_nat (e - b64_read s)) (significant input)).
Proof.
  unfold significant, base64_bytes. induction input as [|b input IH]; intros s He; cbn [base64_loop].
  - by rewrite filter_nil, take_nil.
  - destruct (Z.ltb_spec (b64_read s) e) as [Hlt|].
    2: { by replace (e - b64_read s) with 0 by lia. }
    rewrite filter_cons. destruct (isASCIIWhitespace b); case_decide; try done; [by apply IH|].
    replace (Z.to_nat (e - b64_read s)) with (S (Z.to_nat (e - (b64_read s + 1)))) by lia. cbn [take foldl].
    cbn [mbind option_bind]. destruct (base64_byte s b) as [s'|] eqn:E; [|by rewrite base64_bytes_none].
    assert (Hr : b64_read s' = b64_read s + 1).
    { unfold base64_byte in E. cbv zeta in E. destruct (base64Value b <? 0); [done|].
      destruct (8 <=? bits s + 6); by injection E as <-. }
    cbn [mbind option_bind]. rewrite (IH s') by lia. by rewrite Hr.
Qed.

Lemma base64Value_range c : -1 <= base64Value c < 64.
Proof. unfold base64Value, in_range. repeat case_match; lia. Qed.

Lemma value_of_range c v : value_of c = Some v -> 0 <= v < 64.
Proof.
  unfold value_of. pose proof (base64Value_range c). destruct (Z.ltb_spec (base64Value c) 0); [done|].
  intros [= <-]. lia.
Qed.

Lemma shift_in_value acc v : 0 <= acc < 262144 -> 0 <= v < 64 -> (acc .<< 6) .| v = acc * 64 + v.
Proof.
  intros Ha Hv. rewrite js_shl_mul by lia. apply (js_or_add _ _ 6); try lia. change (2 ^ 6) with 64. apply Z.mod_mul. lia.
Qed.

(** A character that completes no byte, and one that does. *)
Lemma base64_first done_ k r c v : value_of c = Some v ->
  base64_byte (filled done_ k 0 0 r) c = Some (filled done_ k v 6 (r + 1)).
Proof.
  intros Hv. pose proof (value_of_range c v Hv) as Hr. unfold base64_byte, filled. cbn [accumulator bits output written b64_read].
  unfold value_of in Hv. destruct (base64Value c <? 0); [done|]. injection Hv as ->. by rewrite shift_in_value by lia.
Qed.

Lemma base64_next done_ k acc n r c v x : value_of c = Some v -> 0 <= acc < 262144 -> 2 <= n <= 6 -> 1 <= k ->
  x = (acc * 64 + v) / 2 ^ (n - 2) mod 256 ->
  base64_byte (filled done_ k acc n r) c
  = Some (filled (done_ ++ [x]) (k - 1) (if n =? 2 then 0 else acc * 64 + v) (n - 2) (r + 1)).
Proof.
  intros Hv Ha Hn Hk Hx. pose proof (value_of_range c v Hv) as Hr. unfold base64_byte, filled.
  cbn [accumulator bits output written b64_read].
  unfold value_of in Hv. destruct (base64Value c <? 0); [done|]. injection Hv as ->.
  rewrite shift_in_value by lia. destruct (Z.leb_spec 8 (n + 6)); [|lia].
  replace (n + 6 - 8) with (n - 2) by lia. rewrite js_shr_div, (js_and_ones _ 8) by lia. change (2 ^ 8) with 256.
  rewrite <- Hx, set_u8_zeros by (done || (subst x; unfold is_byte; apply Z.mod_pos_bound; lia)).
  f_equal. rewrite len_app. f_equal. destruct (Z.eqb_spec (n - 2) 0), (Z.eqb_spec n 2); done || lia.
Qed.

Lemma base64_byte_bad s c : value_of c = None -> base64_byte s c = None.
Proof. unfold value_of, base64_byte. by destruct (base64Value c <? 0). Qed.

Lemma base64_bytes_cons s c l : base64_bytes s (c :: l) = base64_byte s c ≫= fun s => base64_bytes s l.
Proof.
  unfold base64_bytes. cbn [foldl]. cbn [mbind option_bind]. destruct (base64_byte s c); [done|apply base64_bytes_none].
Qed.

Lemma mapM_value_cons c l : mapM value_of (c :: l) = v ← value_of c; vs ← mapM value_of l; Some (v :: vs).
Proof. done. Qed.

Lemma base64_bytes_bad data : mapM value_of data = None -> forall s, base64_bytes s data = None.
Proof.
  induction data as [|c data IH]; [done|]. rewrite mapM_value_cons. intros H s. rewrite base64_bytes_cons.
  destruct (value_of c) eqn:E; [|by rewrite base64_byte_bad]. cbn [mbind option_bind] in H.
  destruct (mapM value_of data); [done|]. destruct (base64_byte s c); [|done]. by apply IH.
Qed.

(** From the start of a group, the loop writes the groups of the values. *)
Lemma base64_bytes_groups data : forall vs done_ k r, mapM value_of data = Some vs -> len (decode_groups vs) <= k ->
  exists s, base64_bytes (filled done_ k 0 0 r) data = Some s /\
    output s = done_ ++ decode_groups vs ++ zeros (k - len (decode_groups vs)).
Proof.
  induction data as [data IH] using (induction_ltof1 _ (@length Z)). unfold ltof in IH. intros vs done_ k r Hvs Hk.
  assert (Hstop : forall out k acc n r, exists s, base64_bytes (filled out k acc n r) [] = Some s /\
    output s = out ++ zeros k) by (intros; by eexists).
  destruct data as [|a data]; [injection Hvs as <-; cbn; rewrite Z.sub_0_r; apply Hstop|].
  rewrite mapM_value_cons in Hvs. destruct (value_of a) as [va|] eqn:Ea; [|done]. cbn [mbind option_bind] in Hvs.
  pose proof (value_of_range _ _ Ea). rewrite base64_bytes_cons, (base64_first done_ k r a va Ea). cbn [mbind option_bind].
  destruct data as [|b data]; [injection Hvs as <-; cbn; rewrite Z.sub_0_r; apply Hstop|].
  rewrite mapM_value_cons in Hvs. destruct (value_of b) as [vb|] eqn:Eb; [|done]. cbn [mbind option_bind] in Hvs.
  destruct (mapM value_of data) as [vs'|] eqn:Hd; [|done]. injection Hvs as <-.
  assert (Hk1 : 1 <= k).
  { destruct vs' as [|? [|? ?]]; cbn [decode_groups] in Hk; rewrite !len_cons in Hk; try (rewrite (@len_nil Z) in Hk; lia).
    pose proof (len_nonneg (decode_groups l)). lia. }
  pose proof (value_of_range _ _ Eb).
  rewrite base64_bytes_cons, (base64_next _ _ _ _ _ b vb (va * 4 + vb / 16) Eb)
    by (try lia; change (2 ^ (6 - 2)) with 16; div_lia). change (6 - 2) with 4. change (6 =? 2) with false. cbn [mbind option_bind].
  destruct data as [|c data].
  { injection Hd as <-. rewrite app_assoc. apply Hstop. }
  rewrite mapM_value_cons in Hd. destruct (value_of c) as [vc|] eqn:Ec; [|done]. cbn [mbind option_bind] in Hd.
  destruct (mapM value_of data) as [vs|] eqn:Hd'; [|done]. injection Hd as <-.
  assert (Hk2 : 2 <= k).
  { destruct vs; cbn [decode_groups] in Hk; rewrite !len_cons in Hk; try (rewrite (@len_nil Z) in Hk; lia).
    pose proof (len_nonneg (decode_groups vs)). lia. }
  pose proof (value_of_range _ _ Ec).
  rewrite base64_bytes_cons, (base64_next _ _ _ _ _ c vc (vb mod 16 * 16 + vc / 4) Ec)
    by (try lia; change (2 ^ (4 - 2)) with 4; div_lia). change (4 - 2) with 2. change (4 =? 2) with false. cbn [mbind option_bind].
  destruct data as [|d data].
  { injection Hd' as <-. rewrite (app_assoc done_). change (decode_groups [va; vb; vc]) with ([va * 4 + vb / 16] ++ [vb mod 16 * 16 + vc / 4]).
    rewrite (app_assoc done_). match goal with |- context [k - len ?l] => change (len l) with 2 end. replace (k - 2) with (k - 1 - 1) by lia. apply Hstop. }
  rewrite mapM_value_cons in Hd'. destruct (value_of d) as [vd|] eqn:Ed; [|done]. cbn [mbind option_bind] in Hd'.
  destruct (mapM value_of data) as [vs4|] eqn:Hd4; [|done]. injection Hd' as <-.
  pose proof (value_of_range _ _ Ed). cbn [decode_groups] in *. rewrite !len_cons in Hk. pose proof (len_nonneg (decode_groups vs4)).
  rewrite base64_bytes_cons, (base64_next _ _ _ _ _ d vd (vc mod 4 * 64 + vd) Ed)
    by (try lia; change (2 ^ (2 - 2)) with 1; div_lia). change (2 - 2) with 0. change (2 =? 2) with true. cbn [mbind option_bind].
  destruct (IH data ltac:(cbn; lia) vs4 (((done_ ++ [va * 4 + vb / 16]) ++ [vb mod 16 * 16 + vc / 4]) ++ [vc mod 4 * 64 + vd])
    (k - 1 - 1 - 1) (r + 1 + 1 + 1 + 1) Hd4) as (s & Hs & Ho); [lia|].
  exists s. split; [exact Hs|]. rewrite Ho, <- !app_assoc, !len_cons. cbn [app].
  by replace (k - 1 - 1 - 1 - len (decode_groups vs4)) with (k - (len (decode_groups vs4) + 1 + 1 + 1)) by lia.
Qed.

Lemma decode_groups_len vs : len vs mod 4 <> 1 -> len (decode_groups vs) = len vs * 6 / 8.
Proof.
  induction vs as [vs IH] using (induction_ltof1 _ (@length Z)). unfold ltof in IH.
  destruct vs as [|a [|b [|c [|d vs]]]]; intros Hm; cbn [decode_groups]; try done.
  rewrite !len_cons in *. rewrite IH; [div_lia|cbn; lia|]. intros E. apply Hm. rewrite <- E. div_lia.
Qed.

Lemma mapM_value_len data vs : mapM value_of data = Some vs -> len vs = len data.
Proof. intros H%length_mapM. unfold len. by rewrite H. Qed.

Lemma decode_infra input : forgivingBase64Decode input = infra_decode input.
Proof.
  unfold forgivingBase64Decode, infra_decode. rewrite significantLength_spec, remove_padding_significant, significant_reverse.
  set (data := significant input). destruct (unpadded_take data (significant_no_space input)) as [Ht He].
  set (e := if _ =? 0 then _ else _) in *. rewrite He. destruct (Z.eqb_spec (e mod 4) 1) as [|Hm]; [done|].
  pose proof (len_nonneg (unpadded data)).
  rewrite base64_loop_significant by (cbn [b64_read]; lia). cbn [b64_read]. rewrite Z.sub_0_r. fold data. rewrite <- Ht.
  destruct (mapM value_of (unpadded data)) as [vs|] eqn:Hv.
  - pose proof (mapM_value_len _ _ Hv) as Hl. assert (Hd : len (decode_groups vs) = e * 6 / 8).
    { rewrite decode_groups_len; [congruence|]. by rewrite Hl, He. }
    destruct (base64_bytes_groups (unpadded data) vs [] (e * 6 / 8) 0 Hv) as (s & Hs & Ho); [lia|].
    unfold filled in Hs. cbn [app] in Hs. rewrite (@len_nil Z) in Hs. rewrite Hs. cbn. rewrite Ho, Hd, Z.sub_diag.
    by rewrite app_nil_r.
  - by rewrite (base64_bytes_bad _ Hv).
Qed.

(** ** Encoding *)

Lemma char_facts v : 0 <= v < 64 ->
  charAt BASE64_ALPHABET v = [char_of v] /\ value_of (char_of v) = Some v /\
  isASCIIWhitespace (char_of v) = false /\ char_of v <> 0x3d.
Proof.
  intros Hv. assert (H : forallb (fun v => bool_decide (charAt BASE64_ALPHABET v = [char_of v] /\
    value_of (char_of v) = Some v /\ isASCIIWhitespace (char_of v) = false /\ char_of v <> 0x3d)) (seqZ 0 64) = true)
    by by vm_compute.
  rewrite forallb_forall in H. assert (Hin : In v (seqZ 0 64)) by (apply list_elem_of_In, elem_of_seqZ; lia).
  exact (bool_decide_eq_true_1 _ (H v Hin)).
Qed.

Lemma by_threes_step n : 0 <= n -> by_threes (n + 3) = 0 :: (Z.add 3 <$> by_threes n).
Proof.
  intros Hn. unfold by_threes. replace ((n + 3 + 2) / 3) with (Z.succ ((n + 2) / 3)) by div_lia.
  rewrite seqZ_cons by div_lia. cbn [fmap list_fmap]. f_equal. rewrite Z.pred_succ, <- !list_fmap_compose.
  change (Z.succ 0) with (1 + 0). rewrite <- (fmap_add_seqZ 1 0), <- list_fmap_compose. apply list_fmap_ext. intros i x _. cbn. lia.
Qed.

Lemma at_skip {A} (a b c : A) l i : 0 <= i -> at_ (a :: b :: c :: l) (3 + i) = at_ l i.
Proof.
  intros Hi. unfold at_. destruct (Z.ltb_spec (3 + i) 0), (Z.ltb_spec i 0); try lia.
  by replace (Z.to_nat (3 + i)) with (S (S (S (Z.to_nat i)))) by lia.
Qed.

Lemma encode_group_skip a b c l i : 0 <= i -> encode_group (a :: b :: c :: l) (3 + i) = encode_group l i.
Proof.
  intros Hi. unfold encode_group, at_or. rewrite <- !Z.add_assoc, !at_skip, !len_cons by lia.
  repeat match goal with |- context [?x <? len l + 1 + 1 + 1] =>
    replace (x <? len l + 1 + 1 + 1) with (x - 3 <? len l) by lia end.
  by replace (3 + (i + 1) - 3) with (i + 1) by lia; replace (3 + (i + 2) - 3) with (i + 2) by lia.
Qed.

Lemma encode_concat bytes : forgivingBase64Encode bytes = by_threes (len bytes) ≫= encode_group bytes.
Proof.
  unfold forgivingBase64Encode. generalize (by_threes (len bytes)). intros l.
  assert (H : forall r, foldl (fun result index => result ++ encode_group bytes index) r l = r ++ (l ≫= encode_group bytes)).
  { induction l as [|i l IH]; intros r; cbn; [by rewrite app_nil_r|]. by rewrite IH, app_assoc. }
  apply H.
Qed.

Lemma sixths a b : is_byte a -> is_byte b ->
  a .>>> 2 = a / 4 /\ a .& 63 = a mod 64 /\ ((a .& 3) .<< 4) .| (b .>>> 4) = a mod 4 * 16 + b / 16 /\
  ((a .& 15) .<< 2) .| (b .>>> 6) = a mod 16 * 4 + b / 64.
Proof.
  unfold is_byte. intros Ha Hb. rewrite !js_ushr_div by lia. rewrite (js_and_ones _ 6), (js_and_ones _ 2), (js_and_ones _ 4) by lia.
  change (2 ^ 2) with 4. change (2 ^ 4) with 16. change (2 ^ 6) with 64.
  pose proof (Z.mod_pos_bound a 4). pose proof (Z.mod_pos_bound a 16). split_and!; try done.
  - rewrite js_shl_mul by (cbn; lia). apply (js_or_add _ _ 4); cbn; div_lia.
  - rewrite js_shl_mul by (cbn; lia). apply (js_or_add _ _ 2); cbn; div_lia.
Qed.

Lemma first_group l a b c : is_byte a -> is_byte b -> is_byte c ->
  at_or 0 l 0 = a -> at_or 0 l 1 = b -> at_or 0 l 2 = c ->
  encode_group l 0 = char_of (a / 4) :: char_of (a mod 4 * 16 + b / 16) ::
    (if 1 <? len l then char_of (b mod 16 * 4 + c / 64) else 0x3d) ::
    (if 2 <? len l then char_of (c mod 64) else 0x3d) :: [].
Proof.
  intros Ha Hb Hc Ea Eb Ec. unfold encode_group. change (0 + 1) with 1. change (0 + 2) with 2. rewrite Ea, Eb, Ec.
  destruct (sixths a b Ha Hb) as (-> & _ & -> & _). destruct (sixths b c Hb Hc) as (_ & _ & _ & ->).
  destruct (sixths c c Hc Hc) as (_ & -> & _ & _). unfold is_byte in *.
  destruct (char_facts (a / 4)) as (-> & _); [div_lia|]. destruct (char_facts (a mod 4 * 16 + b / 16)) as (-> & _); [div_lia|].
  destruct (char_facts (b mod 16 * 4 + c / 64)) as (-> & _); [div_lia|]. destruct (char_facts (c mod 64)) as (-> & _); [div_lia|].
  by destruct (1 <? len l), (2 <? len l).
Qed.

Lemma value_groups_ok bytes : is_bytes bytes -> Forall (fun v => 0 <= v < 64) (value_groups bytes).
Proof.
  induction bytes as [bytes IH] using (induction_ltof1 _ (@length Z)). unfold ltof in IH. intros Hb.
  destruct bytes as [|a [|b [|c bytes]]]; cbn [value_groups]; rewrite ?Forall_cons in *; unfold is_byte in *;
    try (split_and!; [div_lia..|constructor]); [constructor|].
  destruct Hb as (Ha & Hb & Hc & Hbytes). split_and!; [div_lia..|]. apply IH; [cbn; lia|done].
Qed.

Lemma encode_spec bytes : is_bytes bytes ->
  forgivingBase64Encode bytes = (char_of <$> value_groups bytes) ++ padding (len bytes).
Proof.
  rewrite encode_concat. induction bytes as [bytes IH] using (induction_ltof1 _ (@length Z)). unfold ltof in IH.
  intros Hb. assert (H0 : is_byte 0) by done. destruct bytes as [|a [|b [|c bytes]]]; rewrite ?Forall_cons in Hb; [done|..].
  - change (by_threes (len [a])) with [0]. cbn [mbind list_bind app]. rewrite (first_group [a] a 0 0) by (done || apply Hb). change (0 / 16) with 0. by rewrite Z.add_0_r.
  - change (by_threes (len [a; b])) with [0]. cbn [mbind list_bind app].
    rewrite (first_group [a; b] a b 0) by (done || apply Hb). change (0 / 64) with 0. by rewrite Z.add_0_r.
  - destruct Hb as (Ha & Hb & Hc & Hbytes). replace (len (a :: b :: c :: bytes)) with (len bytes + 3) by (rewrite !len_cons; lia).
    pose proof (len_nonneg bytes). rewrite by_threes_step, bind_cons by done. rewrite (first_group _ a b c) by done.
    rewrite !len_cons. destruct (Z.ltb_spec 1 (len bytes + 1 + 1 + 1)), (Z.ltb_spec 2 (len bytes + 1 + 1 + 1)); try lia.
    cbn [value_groups fmap list_fmap app]. do 4 f_equal.
    replace (padding (len bytes + 3)) with (padding (len bytes))
      by (unfold padding; replace ((len bytes + 3) mod 3) with (len bytes mod 3) by div_lia; done).
    rewrite <- IH by (done || (cbn; lia)).
    assert (Hn : Forall (fun i => 0 <= i) (by_threes (len bytes))).
    { apply Forall_forall. intros i (j & -> & Hj%elem_of_seqZ)%list_elem_of_fmap. lia. }
    induction Hn as [|i l Hi _ IHl]; [done|]. cbn [fmap list_fmap]. rewrite !bind_cons, encode_group_skip by done.
    by f_equal.
Qed.

Lemma decode_value_groups bytes : is_bytes bytes -> decode_groups (value_groups bytes) = bytes.
Proof.
  induction bytes as [bytes IH] using (induction_ltof1 _ (@length Z)). unfold ltof in IH. intros Hb.
  destruct bytes as [|a [|b [|c bytes]]]; cbn [value_groups decode_groups]; rewrite ?Forall_cons in Hb; unfold is_byte in *.
  - done.
  - f_equal. div_lia.
  - f_equal; [div_lia|]. f_equal. div_lia.
  - f_equal; [div_lia|]. f_equal; [div_lia|]. f_equal; [div_lia|]. apply IH; [cbn; lia|apply Hb].
Qed.

Lemma mapM_value_chars vs : Forall (fun v => 0 <= v < 64) vs -> mapM value_of (char_of <$> vs) = Some vs.
Proof.
  induction 1 as [|v vs Hv Hvs IH]; [done|]. cbn [fmap list_fmap]. rewrite mapM_value_cons.
  destruct (char_facts v Hv) as (_ & -> & _). cbn [mbind option_bind]. by rewrite IH.
Qed.

Lemma value_groups_len bytes : len (value_groups bytes) = len bytes + (len bytes + 2) / 3 /\
  (len (value_groups bytes) + (3 - len bytes mod 3) mod 3) mod 4 = 0.
Proof.
  induction bytes as [bytes IH] using (induction_ltof1 _ (@length Z)). unfold ltof in IH.
  destruct bytes as [|a [|b [|c bytes]]]; [done..|]. cbn [value_groups]. rewrite !len_cons.
  destruct (IH bytes) as [IH1 IH2]; [cbn; lia|]. rewrite IH1 in *. split; [div_lia|].
  rewrite <- IH2. replace ((len bytes + 1 + 1 + 1) mod 3) with (len bytes mod 3) by div_lia. div_lia.
Qed.

(** The characters without the padding are what remains. *)
Lemma unpadded_chars vs n : Forall (fun v => 0 <= v < 64) vs -> (n <= 2)%nat ->
  (len vs + Z.of_nat n) mod 4 = 0 -> unpadded ((char_of <$> vs) ++ replicate n 0x3d) = char_of <$> vs.
Proof.
  intros Hvs Hn Hm. unfold unpadded. rewrite len_app. unfold len at 1 2. rewrite length_fmap, length_replicate.
  fold (len vs). rewrite Hm. cbn [Z.eqb]. rewrite reverse_app, reverse_replicate.
  assert (Hs : forall m, strip_padding m (reverse (char_of <$> vs)) = reverse (char_of <$> vs)).
  { intros m. rewrite <- fmap_reverse. assert (Hr : Forall (fun v => 0 <= v < 64) (reverse vs)) by by apply Forall_reverse.
    destruct m, Hr as [|v vs' Hv _]; try done. cbn. destruct (char_facts v Hv) as (_ & _ & _ & Hne).
    by destruct (Z.eqb_spec (char_of v) 61). }
  destruct n as [|[|[|n]]]; [| | |lia]; cbn [replicate app];
    [rewrite Hs|change (strip_padding 2 (61 :: reverse (char_of <$> vs))) with (strip_padding 1 (reverse (char_of <$> vs))); rewrite Hs
    |change (strip_padding 2 (61 :: 61 :: reverse (char_of <$> vs))) with (strip_padding 0 (reverse (char_of <$> vs))); rewrite Hs];
    apply reverse_involutive.
Qed.

Lemma unpadded_short vs : len vs mod 4 <> 0 -> unpadded (char_of <$> vs) = char_of <$> vs.
Proof.
  intros Hm. unfold unpadded, len at 1. rewrite length_fmap. fold (len vs). by destruct (Z.eqb_spec (len vs mod 4) 0).
Qed.

(** ** Properties *)

(** The decoder is the standard's.  The loop with its accumulator, padding
    scan and fixed output buffer returns what the Infra standard's forgiving
    decode returns, for every input: it fails exactly on data with a character
    outside the alphabet or of a length one more than a multiple of four. *)
Theorem base64_decode_infra input : forgivingBase64Decode input = infra_decode input.
Proof. apply decode_infra. Qed.

(** Base64 round trip.  Text whose characters other than ASCII whitespace are
    the encoding of some bytes, with its padding or without, decodes to them. *)
Theorem base64_roundtrip bytes input :
  is_bytes bytes ->
  significant input = forgivingBase64Encode bytes \/
  significant input ++ padding (len bytes) = forgivingBase64Encode bytes ->
  forgivingBase64Decode input = Some bytes.
Proof.
  intros Hb Hin. rewrite decode_infra. unfold infra_decode. rewrite encode_spec in Hin by done.
  pose proof (value_groups_ok bytes Hb) as Hv. destruct (value_groups_len bytes) as [Hl Hm].
  assert (Hu : unpadded (significant input) = char_of <$> value_groups bytes).
  { pose proof (Z.mod_pos_bound (3 - len bytes mod 3) 3). destruct Hin as [->|Hin].
    - apply unpadded_chars; [done|lia|]. by rewrite Z2Nat.id by lia.
    - apply app_inv_tail in Hin. rewrite Hin. destruct (decide (len (value_groups bytes) mod 4 = 0)) as [E|E].
      + rewrite <- (app_nil_r (char_of <$> _)) at 1. apply (unpadded_chars _ 0); [done|lia|]. by rewrite Z.add_0_r.
      + by apply unpadded_short. }
  rewrite Hu, mapM_value_chars by done. unfold len at 1. rewrite length_fmap. fold (len (value_groups bytes)).
  destruct (Z.eqb_spec (len (value_groups bytes) mod 4) 1); [exfalso; div_lia|].
  cbn. by rewrite decode_value_groups.
Qed.

Lemma base64_roundtrip_witness :
  is_bytes [0; 255; 16; 1] /\ forgivingBase64Encode [0; 255; 16; 1] = u "AP8QAQ==" /\
  forgivingBase64Decode (u " AP8Q A Q") = Some [0; 255; 16; 1].
Proof.
  assert (Hb : is_bytes [0; 255; 16; 1]) by by_computing. split; [exact Hb|]. split; [by vm_compute|].
  apply (base64_roundtrip [0; 255; 16; 1] (u " AP8Q A Q") Hb). right. by vm_compute.
Defined.
