(* ===== verification/WebIdl.v ===== *)
(** * Web IDL string conversions ([core/webidl.ts])

    The conversions to [USVString] and [ByteString] of a value that is a string. *)

From S2P Require Import Prelude Utf8 Utf8Theory.

(** The loop of [toUSVString], by the rest of the string; [index] is where it
    starts, [runStart] where the part not yet copied starts. *)
Fixpoint usv_loop (value rest : jsstr) (index runStart : Z) (result : jsstr) : jsstr * Z :=
  match rest with
  | [] => (result, runStart)
  | unit :: rest =>
      let replaced (_ : Datatypes.unit) := usv_loop value rest (index + 1) (index + 1)
        (result ++ subarray value runStart index ++ [0xfffd]) in
      if (0xd800 <=? unit) && (unit <=? 0xdbff) then
        match rest with
        | next :: rest' =>
            if (0xdc00 <=? next) && (next <=? 0xdfff)
            then usv_loop value rest' (index + 2) runStart result
            else replaced tt
        | [] => replaced tt
        end
      else if (unit <? 0xdc00) || (0xdfff <? unit) then usv_loop value rest (index + 1) runStart result
      else replaced tt
  end.

Definition toUSVString (value : jsstr) : jsstr :=
  let '(result, runStart) := usv_loop value value 0 0 [] in
  if runStart =? 0 then value else result ++ subarray value runStart (len value).

Definition coerceToByteString (text : jsstr) : result jsstr :=
  if existsb (fun c => 255 <? c) text then Err (TypeError "ByteString contains a code unit greater than 255")
  else Ok text.

(** ** [toUSVString] *)

(** A string with its unpaired surrogates replaced. *)
Definition well_formed (l : jsstr) : jsstr := of_scalars (to_scalars l).

Lemma well_formed_pair c d rest : 0xd800 <= c < 0xdc00 -> 0xdc00 <= d < 0xe000 ->
  well_formed (c :: d :: rest) = c :: d :: well_formed rest.
Proof.
  intros Hc Hd. unfold well_formed. cbn [to_scalars].
  destruct (Z.leb_spec 0xd800 c), (Z.ltb_spec c 0xdc00), (Z.leb_spec 0xdc00 d), (Z.ltb_spec d 0xe000); try lia.
  cbn [andb]. rewrite of_scalars_cons. unfold scalar_units. destruct (Z.ltb_spec (65536 + (c - 55296) * 1024 + (d - 56320)) 65536); [lia|].
  cbn [app]. f_equal; [div_lia|]. f_equal. div_lia.
Qed.

Lemma well_formed_one c rest : is_unit c -> ~ 0xd800 <= c < 0xe000 -> well_formed (c :: rest) = c :: well_formed rest.
Proof.
  unfold is_unit. intros Hu Hc. unfold well_formed. cbn [to_scalars].
  destruct (Z.leb_spec 0xd800 c), (Z.ltb_spec c 0xdc00), (Z.leb_spec 0xdc00 c), (Z.ltb_spec c 0xe000); try lia;
    cbn [andb]; rewrite of_scalars_cons; unfold scalar_units; destruct (Z.ltb_spec c 65536); done || lia.
Qed.

Lemma well_formed_lone c rest : 0xd800 <= c < 0xe000 ->
  match rest with d :: _ => c < 0xdc00 -> ~ 0xdc00 <= d < 0xe000 | [] => True end ->
  well_formed (c :: rest) = 0xfffd :: well_formed rest.
Proof.
  intros Hc Hd. unfold well_formed. cbn [to_scalars].
  destruct (Z.leb_spec 0xd800 c), (Z.ltb_spec c 0xdc00), (Z.leb_spec 0xdc00 c), (Z.ltb_spec c 0xe000); try lia;
    cbn [andb]; [|done]. destruct rest as [|d rest]; [done|].
  destruct (Z.leb_spec 0xdc00 d), (Z.ltb_spec d 0xe000); cbn [andb]; done || lia.
Qed.

(** The part [run] is to be copied, [rest] is to be read. *)
Lemma usv_loop_spec rest : forall pre run result, is_jsstr rest ->
  let value := pre ++ run ++ rest in
  let '(r, s) := usv_loop value rest (len pre + len run) (len pre) result in
  len pre <= s /\ (s = len pre -> r = result) /\
  r ++ subarray value s (len value) = result ++ run ++ well_formed rest.
Proof.
  induction rest as [rest IH] using (induction_ltof1 _ (@length Z)). unfold ltof in IH. intros pre run result Hu value.
  pose proof (len_nonneg run) as Hrn. destruct rest as [|c rest].
  { cbn [usv_loop]. split_and!; [lia|done|]. unfold value. rewrite len_app, !app_nil_r. f_equal.
    rewrite <- (app_nil_r run) at 1. apply subarray_app_mid. }
  apply Forall_cons in Hu as [Hc Hu].
  (* The unit is replaced: the run and U+FFFD are copied. *)
  assert (Hlone : 0xd800 <= c < 0xe000 -> match rest with d :: _ => c < 0xdc00 -> ~ 0xdc00 <= d < 0xe000 | [] => True end ->
    let '(r, s) := usv_loop value rest (len pre + len run + 1) (len pre + len run + 1)
      (result ++ subarray value (len pre) (len pre + len run) ++ [0xfffd]) in
    len pre <= s /\ (s = len pre -> r = result) /\
    r ++ subarray value s (len value) = result ++ run ++ well_formed (c :: rest)).
  { intros Hs Hnext. rewrite (well_formed_lone c rest Hs Hnext).
    specialize (IH rest ltac:(cbn; lia) (pre ++ run ++ [c]) [] (result ++ run ++ [0xfffd]) Hu).
    cbv zeta in IH. replace ((pre ++ run ++ [c]) ++ [] ++ rest) with value in IH by (unfold value; by rewrite <- !app_assoc).
    rewrite !len_app, (@len_nil Z) in IH. change (len [c]) with 1 in IH. rewrite !Z.add_0_r, !Z.add_assoc in IH.
    replace (subarray value (len pre) (len pre + len run)) with run by (symmetry; apply subarray_app_mid).
    destruct (usv_loop value rest _ _ _) as [r s]. destruct IH as (Hle & _ & ->).
    split_and!; [lia|lia|]. by rewrite <- !app_assoc. }
  (* The unit joins the run. *)
  assert (Hkeep : forall x rest', c :: rest = x ++ rest' -> x <> [] -> is_jsstr rest' -> well_formed (c :: rest) = x ++ well_formed rest' ->
    let '(r, s) := usv_loop value rest' (len pre + len run + len x) (len pre) result in
    len pre <= s /\ (s = len pre -> r = result) /\
    r ++ subarray value s (len value) = result ++ run ++ well_formed (c :: rest)).
  { intros x rest' E Hx Hr ->. assert (Hlt : (length rest' < length (c :: rest))%nat)
      by (rewrite E, length_app; destruct x; [done|cbn; lia]).
    specialize (IH rest' Hlt pre (run ++ x) result Hr). cbv zeta in IH.
    replace (pre ++ (run ++ x) ++ rest') with value in IH by (unfold value; by rewrite E, <- !app_assoc).
    rewrite len_app, Z.add_assoc in IH. destruct (usv_loop value rest' _ _ _) as [r s]. by rewrite <- app_assoc in IH. }
  cbn [usv_loop]. destruct (Z.leb_spec 0xd800 c), (Z.leb_spec c 0xdbff); cbn [andb].
  - destruct rest as [|d rest]; [apply Hlone; [lia|done]|].
    destruct (Z.leb_spec 0xdc00 d), (Z.leb_spec d 0xdfff); cbn [andb].
    2-4: apply Hlone; lia.
    apply (Hkeep [c; d] rest); [done|done|by inversion Hu|]. apply well_formed_pair; lia.
  - destruct (Z.ltb_spec c 0xdc00), (Z.ltb_spec 0xdfff c); cbn [orb]; try lia.
    + apply (Hkeep [c] rest); [done|done|done|]. apply well_formed_one; [done|lia].
    + apply Hlone; [lia|]. destruct rest; [done|lia].
  - destruct (Z.ltb_spec c 0xdc00), (Z.ltb_spec 0xdfff c); cbn [orb]; try lia.
    all: apply (Hkeep [c] rest); [done|done|done|]; apply well_formed_one; [done|lia].
  - unfold is_unit in Hc. lia.
Qed.

Lemma toUSVString_spec value : is_jsstr value -> toUSVString value = well_formed value.
Proof.
  intros Hu. unfold toUSVString. pose proof (usv_loop_spec value [] [] [] Hu) as H. cbv zeta in H. cbn [app] in H.
  change (len [] + len []) with 0 in H. change (len []) with 0 in H.
  destruct (usv_loop value value 0 0 []) as [r s]. destruct H as (Hs & Hz & H).
  destruct (Z.eqb_spec s 0) as [->|]; [|exact H]. rewrite Hz in H by done. cbn [app] in H. rewrite <- H.
  unfold subarray. change (Z.to_nat 0) with 0%nat. rewrite drop_0, take_ge; [done|]. unfold len. lia.
Qed.

Lemma to_scalars_well_formed l : is_jsstr l -> to_scalars (well_formed l) = to_scalars l.
Proof. intros Hl. apply to_of_scalars. by apply to_scalars_ok. Qed.

Lemma of_scalars_well_formed l : Forall is_scalar l -> well_formed (of_scalars l) = of_scalars l.
Proof. intros Hl. unfold well_formed. by rewrite to_of_scalars. Qed.

Lemma of_scalars_units l : Forall is_scalar l -> is_jsstr (of_scalars l).
Proof.
  induction 1 as [|c l Hc Hl IH]; [constructor|]. rewrite of_scalars_cons. apply Forall_app_2; [|done].
  unfold scalar_units, is_scalar in *. destruct (Z.ltb_spec c 0x10000); repeat constructor; unfold is_unit; div_lia.
Qed.

(** ** Properties *)

(** [USVString] conversion.  The copying of runs between unpaired surrogates
    returns the string with exactly these replaced by U+FFFD; a well-formed
    string is returned as it is, and converting again changes nothing. *)
Theorem usv_string_spec value :
  is_jsstr value ->
  toUSVString value = of_scalars (to_scalars value) /\
  (forall l, Forall is_scalar l -> value = of_scalars l -> toUSVString value = value) /\
  toUSVString (toUSVString value) = toUSVString value.
Proof.
  intros Hu. rewrite toUSVString_spec by done. split; [done|]. split.
  - intros l Hl ->. by apply of_scalars_well_formed.
  - pose proof (to_scalars_ok value Hu) as Hl.
    rewrite toUSVString_spec by by apply of_scalars_units. by apply of_scalars_well_formed.
Qed.

Lemma usv_string_spec_witness :
  let value := [0xd800; 0x41; 0xd83d; 0xde00; 0xdc00] in
  is_jsstr value /\ toUSVString value = [0xfffd; 0x41; 0xd83d; 0xde00; 0xfffd] /\
  toUSVString value = of_scalars (to_scalars value).
Proof.
  intros value. assert (Hu : is_jsstr value) by by_computing. split; [exact Hu|]. split; [by vm_compute|].
  apply (usv_string_spec value Hu).
Defined.
