(* ===== verification/TextEncoder.v ===== *)
(** * [TextEncoder] ([core/encoding.ts])

    The two operations of the encoder over [utf8.ts]. *)

From S2P Require Import Prelude Utf8 Utf8Theory WebIdl.

Module TextEncoder.

Definition encode (input : jsstr) : list Z :=
  let text := toUSVString input in
  (utf8Write (zeros (utf8Length text)) text 0 (utf8Length text)).1.

(** The destination and the progress. *)
Definition encodeInto (source : jsstr) (destination : list Z) : list Z * Utf8WriteProgress :=
  let input := toUSVString source in
  utf8Write destination input 0 (len destination).

Lemma well_formed_units l : is_jsstr l -> is_jsstr (well_formed l).
Proof. intros Hl. apply of_scalars_units. by apply to_scalars_ok. Qed.

Lemma text_encode_spec input : is_jsstr input -> encode input = encode_scalars (to_scalars input).
Proof.
  intros Hu. unfold encode. rewrite toUSVString_spec by done.
  rewrite utf8Write_whole by by apply well_formed_units. by rewrite to_scalars_well_formed.
Qed.

Lemma encode_is_bytes input : is_jsstr input -> is_bytes (encode input).
Proof. intros Hu. rewrite text_encode_spec by done. apply encode_scalars_bytes. by apply to_scalars_ok. Qed.

End TextEncoder.
