(* ===== verification/UrlEncoded.v ===== *)
(** * Percent decoding and form data ([core/percent.ts], [forms/urlencoded-decode.ts])

    The two-pass percent decoder and the in-place parser of
    application/x-www-form-urlencoded, with the URL Standard's algorithms as
    their specification. *)

From S2P Require Import Prelude Ascii Utf8 Utf8Theory TextDecoder TextDecoderTheory WebIdl.

(** ** [core/percent.ts] *)

Definition asciiHexValue (code : Z) : Z :=
  if in_range 0x30 0x39 code then code - 0x30
  else if in_range 0x41 0x46 code then code - 0x41 + 10
  else if in_range 0x61 0x66 code then code - 0x61 + 10
  else -1.

(** The first loop, by the rest of [raw]. *)
Fixpoint decoded_length (raw : list Z) (decodedLength : Z) : Z :=
  match raw with
  | [] => decodedLength
  | byte :: rest =>
      match rest with
      | first :: second :: rest' =>
          if (byte =? 0x25) && (0 <=? asciiHexValue first) && (0 <=? asciiHexValue second)
          then decoded_length rest' (decodedLength - 2)
          else decoded_length rest decodedLength
      | _ => decoded_length rest decodedLength
      end
  end.

(** The second loop; [undefined] has the value -1. *)
Fixpoint percent_loop (raw output : list Z) (written : Z) : list Z :=
  match raw with
  | [] => output
  | byte :: rest =>
      match rest with
      | first :: second :: rest' =>
          let high := asciiHexValue first in
          let low := asciiHexValue second in
          if (byte =? 0x25) && (0 <=? high) && (0 <=? low)
          then percent_loop rest' (set_u8 output written (high * 16 + low)) (written + 1)
          else percent_loop rest (set_u8 output written byte) (written + 1)
      | _ => percent_loop rest (set_u8 output written byte) (written + 1)
      end
  end.

Definition percentDecodeBytes (input : jsstr) : list Z :=
  let raw := (utf8Write (zeros (utf8Length input)) input 0 (utf8Length input)).1 in
  percent_loop raw (zeros (decoded_length raw (len raw))) 0.

(** ** [forms/urlencoded-decode.ts] *)

Definition hexValue (byte : Z) : Z :=
  if in_range 0x30 0x39 byte then byte - 0x30
  else if in_range 0x41 0x46 byte then byte - 0x41 + 10
  else if in_range 0x61 0x66 byte then byte - 0x61 + 10
  else -1.

(** [while (firstEscape < end && ...)] *)
Fixpoint find_escape (fuel : nat) (input : list Z) (firstEscape end_ : Z) : Z :=
  match fuel with
  | O => firstEscape
  | S fuel =>
      if (firstEscape <? end_) && negb (bool_decide (at_ input firstEscape = Some 0x25))
         && negb (bool_decide (at_ input firstEscape = Some 0x2b))
      then find_escape fuel input (firstEscape + 1) end_
      else firstEscape
  end.

(** [for (let index = firstEscape; index < end; index++)] *)
Fixpoint component_loop (fuel : nat) (input : list Z) (index end_ : Z) (output : list Z) (written : Z)
    : list Z * Z :=
  match fuel with
  | O => (output, written)
  | S fuel =>
      if index <? end_ then
        let byte := at_or 0 input index in
        let put v next := component_loop fuel input next end_ (set_u8 output written v) (written + 1) in
        if byte =? 0x2b then put 0x20 (index + 1)
        else if (byte =? 0x25) && (index + 2 <? end_) then
          let high := hexValue (at_or 0 input (index + 1)) in
          let low := hexValue (at_or 0 input (index + 2)) in
          if (0 <=? high) && (0 <=? low) then put (high * 16 + low) (index + 3) else put byte (index + 1)
        else put byte (index + 1)
      else (output, written)
  end.

Definition decodeComponent (input : list Z) (start end_ : Z) : result jsstr :=
  let firstEscape := find_escape (length input) input start end_ in
  if firstEscape =? end_ then decodeUTF8 (subarray input start end_) false true
  else
    let output := set_range (zeros (end_ - start)) 0 (subarray input start firstEscape) in
    let '(output, written) := component_loop (length input) input firstEscape end_ output (firstEscape - start) in
    decodeUTF8 (subarray output 0 written) false true.

(** The entries of a [FormData]; [append] converts a name and a string value. *)
Definition FormData : Type := list (jsstr * jsstr).
Definition form_append (list : FormData) (name value : jsstr) : FormData :=
  list ++ [(toUSVString name, toUSVString value)].

(** [while (end < input.length && input[end] !== 0x26)]: the end and the separator. *)
Fixpoint find_end (fuel : nat) (input : list Z) (end_ separator : Z) : Z * Z :=
  match fuel with
  | O => (end_, separator)
  | S fuel =>
      if (end_ <? len input) && negb (bool_decide (at_ input end_ = Some 0x26)) then
        let separator := if (separator <? 0) && bool_decide (at_ input end_ = Some 0x3d) then end_ else separator in
        find_end fuel input (end_ + 1) separator
      else (end_, separator)
  end.

(** [while (start < input.length)] *)
Fixpoint form_loop (fuel : nat) (input : list Z) (start : Z) (form : FormData) : result FormData :=
  if start <? len input then
    match fuel with
    | O => Err OutOfFuel
    | S fuel =>
        let '(end_, separator) := find_end (length input) input start (-1) in
        form ← (if negb (end_ =? start) then
          let nameEnd := if separator <? 0 then end_ else separator in
          let valueStart := if separator <? 0 then end_ else separator + 1 in
          name ← decodeComponent input start nameEnd;
          value ← decodeComponent input valueStart end_;
          Ok (form_append form name value)
        else Ok form);
        form_loop fuel input (end_ + 1) form
    end
  else Ok form.

Definition decodeURLEncoded (input : list Z) : result FormData := form_loop (length input) input 0 [].

(** ** Specification *)

(** The URL Standard's percent-decode. *)
Fixpoint percent_decode (bytes : list Z) : list Z :=
  match bytes with
  | [] => []
  | byte :: rest =>
      match rest with
      | first :: second :: rest' =>
          if (byte =? 0x25) && (0 <=? asciiHexValue first) && (0 <=? asciiHexValue second)
          then asciiHexValue first * 16 + asciiHexValue second :: percent_decode rest'
          else byte :: percent_decode rest
      | _ => byte :: percent_decode rest
      end
  end.

(** Text in which some bytes are escaped, every [%] among them. *)
Inductive escaped : list Z -> list Z -> Prop :=
| escaped_nil : escaped [] []
| escaped_literal b bytes text : b <> 0x25 -> escaped bytes text -> escaped (b :: bytes) (b :: text)
| escaped_byte b high low bytes text :
    0 <= asciiHexValue high -> 0 <= asciiHexValue low -> b = asciiHexValue high * 16 + asciiHexValue low ->
    escaped bytes text -> escaped (b :: bytes) (0x25 :: high :: low :: text).

Definition plus_to_space (bytes : list Z) : list Z := (fun b => if b =? 0x2b then 0x20 else b) <$> bytes.

(** A name or a value is UTF-8 without a byte order mark. *)
Definition is_component (bytes : list Z) (text : jsstr) : Prop :=
  exists out, segments (percent_decode (plus_to_space bytes)) out /\ text = of_scalars out.

(** The parts of a sequence around its first [=]. *)
Fixpoint name_value (piece : list Z) : list Z * list Z :=
  match piece with
  | [] => ([], [])
  | b :: rest => if b =? 0x3d then ([], rest) else let '(name, value) := name_value rest in (b :: name, value)
  end.

(** The application/x-www-form-urlencoded parser of the URL Standard. *)
Definition is_form (input : list Z) (form : FormData) : Prop :=
  Forall2 (fun piece entry => is_component (name_value piece).1 entry.1 /\ is_component (name_value piece).2 entry.2)
    (filter (fun piece => piece <> []) (js_split 0x26 input)) form.

Definition component_bytes (bytes : list Z) : list Z := percent_decode (plus_to_space bytes).

(** ** Percent decoding *)

Lemma asciiHexValue_range c : -1 <= asciiHexValue c < 16.
Proof. unfold asciiHexValue, in_range. repeat case_match; lia. Qed.

(** Induction on what a step leaves: one element less, or three. *)
Lemma shorter_ind {A} (P : list A -> Prop) :
  (forall l, (forall k, (length k < length l)%nat -> P k) -> P l) -> forall l, P l.
Proof. intros H l. induction l as [l IH] using (induction_ltof1 _ (@length A)). by apply H. Qed.

(** A step of the decoding: one byte, or an escape. *)
Lemma percent_decode_step byte rest :
  (exists first second rest', rest = first :: second :: rest' /\ byte = 0x25 /\
     0 <= asciiHexValue first /\ 0 <= asciiHexValue second /\
     percent_decode (byte :: rest) = asciiHexValue first * 16 + asciiHexValue second :: percent_decode rest' /\
     (forall n, decoded_length (byte :: rest) n = decoded_length rest' (n - 2)) /\
     forall o w, percent_loop (byte :: rest) o w
       = percent_loop rest' (set_u8 o w (asciiHexValue first * 16 + asciiHexValue second)) (w + 1)) \/
  (percent_decode (byte :: rest) = byte :: percent_decode rest /\
   (forall n, decoded_length (byte :: rest) n = decoded_length rest n) /\
   (forall first second rest', rest = first :: second :: rest' -> byte = 0x25 ->
     asciiHexValue first < 0 \/ asciiHexValue second < 0) /\
   forall o w, percent_loop (byte :: rest) o w = percent_loop rest (set_u8 o w byte) (w + 1)).
Proof.
  destruct rest as [|first [|second rest']]; [right; split_and!; done..|]. cbn [percent_decode decoded_length percent_loop].
  destruct (Z.eqb_spec byte 0x25), (Z.leb_spec 0 (asciiHexValue first)), (Z.leb_spec 0 (asciiHexValue second)); cbn [andb].
  1: left; by exists first, second, rest'.
  all: right; split_and!; try done; intros ? ? ? [= <- <- <-]; lia.
Qed.

Lemma percent_decode_bytes bytes : is_bytes bytes -> is_bytes (percent_decode bytes).
Proof.
  induction bytes as [bytes IH] using shorter_ind. intros Hb. destruct bytes as [|b rest]; [constructor|].
  destruct (percent_decode_step b rest) as [(f & s & rest' & -> & -> & Hf & Hs & -> & _)|(-> & _)];
    rewrite !Forall_cons in Hb; constructor.
  - pose proof (asciiHexValue_range f). pose proof (asciiHexValue_range s). unfold is_byte. lia.
  - apply IH; [cbn; lia|apply Hb].
  - apply Hb.
  - apply IH; [cbn; lia|apply Hb].
Qed.

Lemma decoded_length_spec raw : forall n, decoded_length raw n = n - len raw + len (percent_decode raw).
Proof.
  induction raw as [raw IH] using shorter_ind. intros n. destruct raw as [|b rest]; [cbn; rewrite (@len_nil Z); lia|].
  destruct (percent_decode_step b rest) as [(f & s & rest' & -> & -> & Hf & Hs & -> & -> & _)|(-> & -> & _)];
    rewrite IH by (cbn; lia); rewrite !len_cons; lia.
Qed.

Lemma percent_loop_spec raw : forall done_, is_bytes raw ->
  percent_loop raw (done_ ++ zeros (len (percent_decode raw))) (len done_) = done_ ++ percent_decode raw.
Proof.
  induction raw as [raw IH] using shorter_ind. intros done_ Hb. destruct raw as [|b rest]; [done|].
  pose proof (percent_decode_bytes _ Hb) as Hd.
  destruct (percent_decode_step b rest) as [(f & s & rest' & -> & -> & Hf & Hs & E & _ & ->)|(E & _ & _ & ->)];
    rewrite E in *; rewrite !Forall_cons in Hb; rewrite len_cons; apply Forall_cons in Hd as [Hv _].
  - pose proof (len_nonneg (percent_decode rest')). rewrite set_u8_zeros by (done || lia).
    rewrite Z.add_simpl_r. replace (len done_ + 1) with (len (done_ ++ [asciiHexValue f * 16 + asciiHexValue s])) by (by rewrite len_app).
    rewrite IH; [by rewrite <- app_assoc|cbn; lia|apply Hb].
  - pose proof (len_nonneg (percent_decode rest)). rewrite set_u8_zeros by (done || lia).
    rewrite Z.add_simpl_r. replace (len done_ + 1) with (len (done_ ++ [b])) by (by rewrite len_app).
    rewrite IH; [by rewrite <- app_assoc|cbn; lia|apply Hb].
Qed.

Lemma percent_decode_escaped bytes text : escaped bytes text -> percent_decode text = bytes.
Proof.
  induction 1 as [|b bytes text Hb _ IH|b high low bytes text Hh Hl -> _ IH]; [done| |].
  - destruct (percent_decode_step b text) as [(? & ? & ? & _ & -> & _)|(-> & _)]; [done|by rewrite IH].
  - cbn [percent_decode]. destruct (Z.leb_spec 0 (asciiHexValue high)), (Z.leb_spec 0 (asciiHexValue low)); try lia.
    cbn. by rewrite IH.
Qed.

(** The bytes of a string. *)
Lemma raw_bytes input : is_jsstr input ->
  (utf8Write (zeros (utf8Length input)) input 0 (utf8Length input)).1 = encode_scalars (to_scalars input).
Proof. intros Hu. by rewrite utf8Write_whole. Qed.

Lemma percentDecodeBytes_spec input : is_jsstr input ->
  percentDecodeBytes input = percent_decode (encode_scalars (to_scalars input)).
Proof.
  intros Hu. unfold percentDecodeBytes. rewrite raw_bytes by done. cbv zeta.
  set (raw := encode_scalars (to_scalars input)).
  assert (Hb : is_bytes raw) by (apply encode_scalars_bytes; by apply to_scalars_ok).
  rewrite decoded_length_spec. replace (len raw - len raw + _) with (len (percent_decode raw)) by lia.
  by apply (percent_loop_spec raw []).
Qed.

(** ** Components *)

Lemma hexValue_ascii c : hexValue c = asciiHexValue c.
Proof. done. Qed.

Lemma hex_plus c : asciiHexValue (if c =? 0x2b then 0x20 else c) = asciiHexValue c.
Proof. by destruct (Z.eqb_spec c 0x2b) as [->|]. Qed.

Lemma component_bytes_ok bytes : is_bytes bytes -> is_bytes (component_bytes bytes).
Proof.
  intros Hb. apply percent_decode_bytes. unfold plus_to_space. apply Forall_fmap. eapply Forall_impl; [exact Hb|].
  intros b Hx. cbn. destruct (b =? 43); done.
Qed.

(** One iteration, as a step of the decoding. *)
Lemma component_step b rest :
  (b = 0x2b /\ component_bytes (b :: rest) = 0x20 :: component_bytes rest) \/
  (b <> 0x2b /\ exists first second rest', rest = first :: second :: rest' /\ b = 0x25 /\
     0 <= hexValue first /\ 0 <= hexValue second /\
     component_bytes (b :: rest) = hexValue first * 16 + hexValue second :: component_bytes rest') \/
  (b <> 0x2b /\ (forall first second rest', rest = first :: second :: rest' -> b = 0x25 ->
     hexValue first < 0 \/ hexValue second < 0) /\ component_bytes (b :: rest) = b :: component_bytes rest).
Proof.
  unfold component_bytes.
  change (plus_to_space (b :: rest)) with ((if b =? 0x2b then 0x20 else b) :: plus_to_space rest).
  destruct (Z.eqb_spec b 0x2b) as [->|Hb]; [left|right].
  - split; [done|]. by destruct (percent_decode_step 0x20 (plus_to_space rest)) as [(? & ? & ? & _ & [=] & _)|(-> & _)].
  - destruct (percent_decode_step b (plus_to_space rest)) as [(f & s & l' & El & -> & Hf & Hs & E & _)|(E & _ & Hno & _)].
    + left. split; [done|]. destruct rest as [|f' [|s' rest']]; [done|done|]. injection El as <- <- <-.
      rewrite hex_plus in *. rewrite hex_plus in *. exists f', s', rest'. by split_and!.
    + right. split; [done|]. split; [|exact E]. intros f s rest' -> ->.
      specialize (Hno _ _ (plus_to_space rest') eq_refl eq_refl). by rewrite !hex_plus in Hno.
Qed.

Lemma component_loop_spec fuel : forall rest pre post done_ k, is_bytes rest ->
  (length rest <= fuel)%nat -> len rest <= k ->
  component_loop fuel (pre ++ rest ++ post) (len pre) (len pre + len rest) (done_ ++ zeros k) (len done_)
  = (done_ ++ component_bytes rest ++ zeros (k - len (component_bytes rest)), len done_ + len (component_bytes rest)).
Proof.
  induction fuel as [|fuel IH]; intros rest pre post done_ k Hb Hf Hk.
  { destruct rest; [|cbn in Hf; lia]. cbn. by rewrite Z.sub_0_r, Z.add_0_r. }
  destruct rest as [|b rest].
  { cbn [component_loop]. rewrite (@len_nil Z), Z.add_0_r, Z.ltb_irrefl. cbn. by rewrite Z.sub_0_r, Z.add_0_r. }
  rewrite len_cons in *. cbn [length] in Hf. pose proof (len_nonneg rest). cbn [component_loop].
  destruct (Z.ltb_spec (len pre) (len pre + (len rest + 1))); [|lia].
  (* The value [v] is written and [taken] are read. *)
  assert (Hput : forall v taken rest', b :: rest = taken ++ rest' -> taken <> [] -> is_byte v ->
    component_bytes (b :: rest) = v :: component_bytes rest' ->
    component_loop fuel (pre ++ (b :: rest) ++ post) (len pre + len taken) (len pre + (len rest + 1))
      (set_u8 (done_ ++ zeros k) (len done_) v) (len done_ + 1)
    = (done_ ++ component_bytes (b :: rest) ++ zeros (k - len (component_bytes (b :: rest))),
       len done_ + len (component_bytes (b :: rest)))).
  { intros v taken rest' E Ht Hv ->. assert (El : len rest + 1 = len taken + len rest')
      by (rewrite <- len_app, <- E, len_cons; done).
    assert (Hlt : 1 <= len taken) by (destruct taken; [done|]; rewrite len_cons; pose proof (len_nonneg taken); lia).
    rewrite set_u8_zeros by (done || lia). rewrite E, El, <- app_assoc, app_assoc, Z.add_assoc, <- len_app.
    replace (len done_ + 1) with (len (done_ ++ [v])) by by rewrite len_app.
    rewrite IH.
    - rewrite !len_app, !len_cons, (@len_nil Z), <- app_assoc. cbn [app].
      replace (k - 1 - len (component_bytes rest')) with (k - (len (component_bytes rest') + 1)) by lia.
      f_equal. lia.
    - rewrite E in Hb. by apply Forall_app in Hb as [_ Hb].
    - apply (f_equal length) in E. rewrite length_app in E. cbn in E. unfold len in Hlt. lia.
    - lia. }
  pose proof (component_bytes_ok _ Hb) as Hcb.
  replace (at_or 0 (pre ++ (b :: rest) ++ post) (len pre)) with b by (unfold at_or; cbn [app]; by rewrite at_app_mid).
  destruct (component_step b rest) as [[-> E]|[(Hne & f & s & rest' & -> & -> & Hhf & Hhs & E)|(Hne & Hno & E)]].
  - cbn [Z.eqb Pos.eqb]. by apply (Hput 0x20 [0x2b] rest).
  - cbn [Z.eqb Pos.eqb andb]. rewrite !len_cons in *.
    pose proof (len_nonneg rest'). destruct (Z.ltb_spec (len pre + 2) (len pre + (len rest' + 1 + 1 + 1))); [|lia].
    unfold at_or. rewrite !at_app_r by lia. cbn [app].
    change (at_ _ 1) with (Some f). change (at_ _ 2) with (Some s). cbn [default]. unfold id.
    destruct (Z.leb_spec 0 (hexValue f)), (Z.leb_spec 0 (hexValue s)); try lia. cbn [andb].
    rewrite E in Hcb. apply Forall_cons in Hcb as [Hv _].
    exact (Hput _ [37; f; s] rest' eq_refl ltac:(done) Hv E).
  - destruct (Z.eqb_spec b 0x2b); [done|]. rewrite E in Hcb. apply Forall_cons in Hcb as [Hv _].
    pose proof (Hput b [b] rest eq_refl ltac:(done) Hv E) as Hgo. change (len [b]) with 1 in Hgo.
    destruct (Z.eqb_spec b 0x25) as [->|]; cbn [andb]; [|exact Hgo].
    destruct (Z.ltb_spec (len pre + 2) (len pre + (len rest + 1))) as [Hlt|]; [|exact Hgo].
    destruct rest as [|f [|s rest]]; [unfold len in Hlt; cbn [length] in Hlt; lia..|]. unfold at_or. rewrite !at_app_r by lia. cbn [app].
    change (at_ _ 1) with (Some f). change (at_ _ 2) with (Some s). cbn [default]. unfold id.
    specialize (Hno f s rest eq_refl eq_refl).
    destruct (Z.leb_spec 0 (hexValue f)), (Z.leb_spec 0 (hexValue s)); cbn [andb]; done || lia.
Qed.

(** The bytes before the first escape are kept. *)
Lemma find_escape_spec rest post fuel : forall pre, (length rest <= fuel)%nat ->
  exists literal tail, rest = literal ++ tail /\
  find_escape fuel (pre ++ rest ++ post) (len pre) (len pre + len rest) = len pre + len literal /\
  component_bytes rest = literal ++ component_bytes tail.
Proof.
  revert rest. induction fuel as [|fuel IH]; intros rest pre Hf.
  { destruct rest; [|cbn in Hf; lia]. exists [], []. cbn. by rewrite Z.add_0_r. }
  cbn [find_escape]. destruct rest as [|b rest].
  { exists [], []. by rewrite (@len_nil Z), Z.add_0_r, Z.ltb_irrefl. }
  cbn [app]. rewrite at_app_mid, len_cons. pose proof (len_nonneg rest).
  destruct (Z.ltb_spec (len pre) (len pre + (len rest + 1))); [|lia]. cbn [andb].
  case_bool_decide as H25; cbn [negb andb]; [by exists [], (b :: rest); rewrite (@len_nil Z), Z.add_0_r|].
  case_bool_decide as H2b; cbn [negb andb]; [by exists [], (b :: rest); rewrite (@len_nil Z), Z.add_0_r|].
  destruct (IH rest (pre ++ [b])) as (lit & tail & -> & Hi & Hc); [cbn in Hf; lia|].
  exists (b :: lit), tail. split; [done|]. split.
  - rewrite len_app in Hi. change (len [b]) with 1 in Hi. rewrite <- app_assoc in Hi. cbn [app] in Hi.
    replace (len pre + (len (lit ++ tail) + 1)) with (len pre + 1 + len (lit ++ tail)) by lia. rewrite Hi, len_cons. lia.
  - destruct (component_step b (lit ++ tail)) as [[-> _]|[(_ & ? & ? & ? & _ & -> & _)|(_ & _ & ->)]]; [done..|].
    cbn. by rewrite Hc.
Qed.

Lemma component_bytes_len bytes : len (component_bytes bytes) <= len bytes.
Proof.
  unfold component_bytes. pose proof (decoded_length_spec (plus_to_space bytes) 0) as H.
  assert (Hle : forall l n, decoded_length l n <= n).
  { induction l as [l IH] using shorter_ind. intros n. destruct l as [|b rest]; [cbn; lia|].
    destruct (percent_decode_step b rest) as [(f & s & rest' & -> & _ & _ & _ & _ & -> & _)|(_ & -> & _)].
    - specialize (IH rest' ltac:(cbn; lia) (n - 2)). lia.
    - apply IH. cbn. lia. }
  specialize (Hle (plus_to_space bytes) 0).
  assert (El : len (plus_to_space bytes) = len bytes) by (unfold len, plus_to_space; by rewrite length_fmap). lia.
Qed.

Lemma set_range_start lit n : len lit <= n -> set_range (zeros n) 0 lit = lit ++ zeros (n - len lit).
Proof.
  intros Hn. unfold set_range. change (Z.to_nat 0) with 0%nat. rewrite take_0. cbn [app Nat.add]. f_equal.
  unfold zeros. rewrite drop_replicate. f_equal. unfold len. lia.
Qed.

(** The bytes that a component decodes. *)
Lemma decodeComponent_bytes pre bytes post : is_bytes bytes ->
  decodeComponent (pre ++ bytes ++ post) (len pre) (len pre + len bytes) = decodeUTF8 (component_bytes bytes) false true.
Proof.
  intros Hb. unfold decodeComponent.
  destruct (find_escape_spec bytes post (length (pre ++ bytes ++ post)) pre) as (lit & tail & E & -> & Hc);
    [rewrite !length_app; lia|]. cbv zeta. rewrite Hc. subst bytes. apply Forall_app in Hb as [Hl Ht].
  rewrite len_app. pose proof (len_nonneg lit). pose proof (len_nonneg tail).
  destruct (Z.eqb_spec (len pre + len lit) (len pre + (len lit + len tail))) as [El|El].
  - destruct tail as [|b tail]; [|rewrite len_cons in El; pose proof (len_nonneg tail); lia].
    rewrite <- len_app, subarray_app_mid. by rewrite !app_nil_r.
  - replace (len pre + (len lit + len tail) - len pre) with (len lit + len tail) by lia.
    replace (len pre + len lit - len pre) with (len lit) by lia.
    rewrite <- app_assoc, (subarray_app_mid pre lit), set_range_start by lia.
    replace (len lit + len tail - len lit) with (len tail) by lia.
    pose proof (component_bytes_len tail).
    pose proof (component_loop_spec (length (pre ++ lit ++ tail ++ post)) tail (pre ++ lit) post lit (len tail) Ht) as Hloop.
    rewrite len_app, <- !app_assoc, <- Z.add_assoc in Hloop. rewrite Hloop by (rewrite ?length_app; lia).
    unfold subarray. change (Z.to_nat 0) with 0%nat. rewrite drop_0, Z.sub_0_r, <- len_app, app_assoc.
    unfold len at 1. by rewrite Nat2Z.id, take_app_length.
Qed.

Lemma decodeComponent_spec pre bytes post : is_bytes bytes -> exists text,
  decodeComponent (pre ++ bytes ++ post) (len pre) (len pre + len bytes) = Ok text /\
  is_component bytes text /\ toUSVString text = text.
Proof.
  intros Hb. rewrite decodeComponent_bytes by done.
  destruct (decodeUTF8_replacing (component_bytes bytes) true) as (out & Hsc & Hseg & ->); [by apply component_bytes_ok|].
  exists (of_scalars (strip_bom true out)). replace (strip_bom true out) with out by (destruct out; cbn; by rewrite ?andb_false_r).
  split; [done|]. split; [by exists out|]. rewrite toUSVString_spec by by apply of_scalars_units.
  by apply of_scalars_well_formed.
Qed.

(** ** Sequences *)

Lemma name_value_spec piece :
  (0x3d ∉ piece /\ name_value piece = (piece, [])) \/
  (exists name value, piece = name ++ 0x3d :: value /\ 0x3d ∉ name /\ name_value piece = (name, value)).
Proof.
  induction piece as [|b piece IH]; [left; split; [set_solver|done]|]. cbn [name_value].
  destruct (Z.eqb_spec b 0x3d) as [->|Hb]; [right; exists [], piece; split_and!; [done|set_solver|done]|].
  destruct IH as [[Hn ->]|(name & value & -> & Hn & ->)].
  - left. split; [set_solver|done].
  - right. exists (b :: name), value. split_and!; [done|set_solver|done].
Qed.

(** The scan stops at the end of the piece, with the first [=] after [sep]. *)
Lemma find_end_spec fuel : forall piece pre tail sep, (length piece <= fuel)%nat -> 0x26 ∉ piece ->
  tail = [] \/ (exists t, tail = 0x26 :: t) ->
  find_end fuel (pre ++ piece ++ tail) (len pre) sep
  = (len pre + len piece,
     if (sep <? 0) && bool_decide (0x3d ∈ piece) then len pre + len (name_value piece).1 else sep).
Proof.
  induction fuel as [|fuel IH]; intros piece pre tail sep Hf Hn Ht.
  { destruct piece; [|cbn in Hf; lia]. cbn [find_end]. rewrite Z.add_0_r.
    by rewrite bool_decide_eq_false_2, andb_false_r by set_solver. }
  cbn [find_end]. destruct piece as [|b piece].
  - rewrite bool_decide_eq_false_2 with (P := 0x3d ∈ _), andb_false_r, Z.add_0_r by set_solver. cbn [app].
    destruct Ht as [->|(t & ->)].
    + by rewrite app_nil_r, Z.ltb_irrefl.
    + by rewrite at_app_mid, bool_decide_eq_true_2, andb_false_r.
  - cbn [app]. rewrite at_app_mid, len_app, !len_cons, len_app. pose proof (len_nonneg piece). pose proof (len_nonneg tail).
    destruct (Z.ltb_spec (len pre) (len pre + (len piece + len tail + 1))); [|lia].
    rewrite bool_decide_eq_false_2 by (intros [= ->]; set_solver). cbn [andb negb].
    replace (pre ++ b :: piece ++ tail) with ((pre ++ [b]) ++ piece ++ tail) by by rewrite <- app_assoc.
    replace (len pre + 1) with (len (pre ++ [b])) by by rewrite len_app.
    rewrite IH; [|cbn in Hf; lia|set_solver|done]. rewrite len_app. change (len [b]) with 1. f_equal; [lia|].
    destruct (Z.ltb_spec sep 0); cbn [andb]; [|by destruct (Z.ltb_spec sep 0); [lia|]]. cbn [name_value].
    destruct (Z.eqb_spec b 0x3d) as [->|Hb].
    + rewrite bool_decide_eq_true_2 by done. rewrite (bool_decide_eq_true_2 (0x3d ∈ 0x3d :: piece)) by set_solver.
      pose proof (len_nonneg pre). destruct (Z.ltb_spec (len pre) 0); [lia|]. cbn. by rewrite Z.add_0_r.
    + rewrite bool_decide_eq_false_2 by congruence. destruct (Z.ltb_spec sep 0); [|lia]. cbn [andb].
      replace (bool_decide (0x3d ∈ b :: piece)) with (bool_decide (0x3d ∈ piece)) by (apply bool_decide_ext; set_solver).
      destruct (name_value piece) as [name value]. cbn [fst]. rewrite len_cons.
      case_bool_decide; lia.
Qed.

Lemma form_append_same form name value : toUSVString name = name -> toUSVString value = value ->
  form_append form name value = form ++ [(name, value)].
Proof. unfold form_append. by intros -> ->. Qed.

(** A nonempty piece is an entry. *)
Lemma form_entry pre piece tail form : is_bytes piece -> 0x26 ∉ piece ->
  let sep := if bool_decide (0x3d ∈ piece) then len pre + len (name_value piece).1 else -1 in
  let nameEnd := if sep <? 0 then len pre + len piece else sep in
  let valueStart := if sep <? 0 then len pre + len piece else sep + 1 in
  let input := pre ++ piece ++ tail in
  exists entry, is_component (name_value piece).1 entry.1 /\ is_component (name_value piece).2 entry.2 /\
  (name ← decodeComponent input (len pre) nameEnd;
   value ← decodeComponent input valueStart (len pre + len piece);
   Ok (form_append form name value)) = Ok (form ++ [entry]).
Proof.
  intros Hb Hn. cbv zeta. pose proof (len_nonneg pre). destruct (name_value_spec piece) as [[Hno ->]|(name & value & -> & Hname & ->)]; cbn [fst snd].
  - rewrite bool_decide_eq_false_2 by done. cbn [Z.ltb Z.compare].
    destruct (decodeComponent_spec pre piece tail Hb) as (t1 & Hd1 & Hc1 & Hu1).
    destruct (decodeComponent_spec (pre ++ piece) [] tail) as (t2 & Hd2 & Hc2 & Hu2); [constructor|].
    rewrite len_app, (@len_nil Z), Z.add_0_r, <- app_assoc in Hd2. cbn [app] in Hd2.
    exists (t1, t2). split; [done|]. split; [done|]. rewrite Hd1. cbn [mbind result_bind]. rewrite Hd2. cbn [mbind result_bind].
    by rewrite form_append_same.
  - rewrite bool_decide_eq_true_2 by set_solver. pose proof (len_nonneg name).
    destruct (Z.ltb_spec (len pre + len name) 0); [lia|]. apply Forall_app in Hb as [Hbn Hbv]. apply Forall_cons in Hbv as [_ Hbv].
    destruct (decodeComponent_spec pre name (0x3d :: value ++ tail) Hbn) as (t1 & Hd1 & Hc1 & Hu1).
    destruct (decodeComponent_spec (pre ++ name ++ [0x3d]) value tail Hbv) as (t2 & Hd2 & Hc2 & Hu2).
    rewrite !len_app, <- !app_assoc in Hd2. cbn [app] in Hd2. change (len [61]) with 1 in Hd2.
    exists (t1, t2). split; [done|]. split; [done|]. rewrite <- app_assoc. cbn [app]. rewrite Hd1. cbn [mbind result_bind].
    rewrite len_app, len_cons. replace (len pre + len name + 1) with (len pre + (len name + 1)) by lia.
    replace (len pre + (len name + (len value + 1))) with (len pre + (len name + 1) + len value) by lia.
    rewrite Hd2. cbn [mbind result_bind]. by rewrite form_append_same.
Qed.

Lemma form_loop_spec fuel : forall rest pre form, is_bytes rest -> (length rest <= fuel)%nat ->
  exists entries, is_form rest entries /\ form_loop fuel (pre ++ rest) (len pre) form = Ok (form ++ entries).
Proof.
  induction fuel as [|fuel IH]; intros rest pre form Hb Hf.
  { destruct rest; [|cbn in Hf; lia]. exists []. split; [constructor|]. cbn [form_loop].
    by rewrite !app_nil_r, Z.ltb_irrefl. }
  cbn [form_loop]. destruct rest as [|b0 r0]; [exists []; split; [constructor|]; by rewrite !app_nil_r, Z.ltb_irrefl|].
  destruct (split_first 0x26 (b0 :: r0)) as (piece & tail & E & Hn & Hsplit). rewrite E in *.
  apply Forall_app in Hb as [Hbp Hbt].
  assert (Hlt : (len pre <? len (pre ++ piece ++ tail)) = true).
  { apply Z.ltb_lt. rewrite len_app, <- E, len_cons. pose proof (len_nonneg r0). lia. }
  rewrite Hlt, find_end_spec; [|rewrite !length_app; lia|done|destruct Hsplit as [[-> _]|(t & -> & _)]; [by left|right; by exists t]].
  cbn [Z.ltb Z.compare andb].
  (* What follows the piece. *)
  assert (Hrest : forall form', exists entries,
    is_form (match tail with [] => [] | _ :: t => t end) entries /\
    form_loop fuel (pre ++ piece ++ tail) (len pre + len piece + 1) form' = Ok (form' ++ entries)).
  { intros form'. destruct Hsplit as [[-> _]|(t & -> & _)].
    - exists []. split; [constructor|]. rewrite !app_nil_r. rewrite <- len_app.
      destruct fuel; cbn [form_loop]; by destruct (Z.ltb_spec (len (pre ++ piece) + 1) (len (pre ++ piece))); [lia|].
    - apply Forall_cons in Hbt as [_ Hbt]. destruct (IH t (pre ++ piece ++ [0x26]) form' Hbt) as (entries & Hform & Hrun).
      { apply (f_equal length) in E. rewrite length_app in E. cbn in E, Hf. rewrite length_app in Hf. cbn in Hf. lia. }
      exists entries. split; [done|]. rewrite !len_app, <- !app_assoc in Hrun. cbn [app] in Hrun. change (len [38]) with 1 in Hrun.
      by rewrite <- Z.add_assoc. }
  assert (Hpieces : filter (fun piece => piece <> []) (js_split 0x26 (piece ++ tail)) =
    filter (fun piece => piece <> []) [piece] ++
    filter (fun piece => piece <> []) (js_split 0x26 (match tail with [] => [] | _ :: t => t end))).
  { destruct Hsplit as [[-> ->]|(t & -> & ->)]; [|by rewrite <- filter_app].
    change (filter (fun piece => piece <> []) (js_split 0x26 [])) with (@nil (list Z)). by rewrite app_nil_r. }
  destruct (decide (piece = [])) as [->|Hne].
  - rewrite Z.add_0_r, Z.eqb_refl. cbn [negb mbind result_bind]. destruct (Hrest form) as (entries & Hform & Hrun).
    change (len []) with 0 in Hrun. rewrite Z.add_0_r in Hrun. exists entries. split; [|exact Hrun].
    unfold is_form. rewrite Hpieces. exact Hform.
  - destruct (Z.eqb_spec (len pre + len piece) (len pre)) as [El|_].
    { destruct piece as [|x piece]; [done|]. rewrite len_cons in El. pose proof (len_nonneg piece). lia. }
    cbn [negb]. destruct (form_entry pre piece tail form Hbp Hn) as (entry & He1 & He2 & ->). cbn [mbind result_bind].
    destruct (Hrest (form ++ [entry])) as (entries & Hform & ->). exists (entry :: entries). split.
    + unfold is_form. rewrite Hpieces. rewrite (filter_cons _ piece []), decide_True, filter_nil by done. by constructor.
    + by rewrite <- app_assoc.
Qed.

(** ** Properties *)

(** Percent decoding.  The two passes agree: the array sized by the first is
    filled exactly by the second with the URL Standard's percent-decoding of the
    string's UTF-8 bytes, and text that escapes some bytes (and every [%])
    decodes to these bytes. *)
Theorem percent_decode_spec input :
  is_jsstr input ->
  percentDecodeBytes input = percent_decode (encode_scalars (to_scalars input)) /\
  (forall bytes, escaped bytes (encode_scalars (to_scalars input)) -> percentDecodeBytes input = bytes).
Proof.
  intros Hu. rewrite percentDecodeBytes_spec by done. split; [done|]. intros bytes. apply percent_decode_escaped.
Qed.

Lemma percent_decode_spec_witness :
  is_jsstr (u "a%25%eZ%F0") /\ percentDecodeBytes (u "a%25%eZ%F0") = u "a%%eZ" ++ [0xf0] /\
  percent_decode (encode_scalars (to_scalars (u "a%25%eZ%F0"))) = u "a%%eZ" ++ [0xf0].
Proof.
  assert (Hu : is_jsstr (u "a%25%eZ%F0")) by by_computing. split; [exact Hu|].
  assert (E : percentDecodeBytes (u "a%25%eZ%F0") = u "a%%eZ" ++ [0xf0]) by by vm_compute. split; [exact E|].
  rewrite <- (proj1 (percent_decode_spec _ Hu)). exact E.
Defined.

(** Form data.  The parser, with its separator scan and its shortcut for
    components without escapes, always returns, and what the URL Standard's
    application/x-www-form-urlencoded parser returns: the entries of the nonempty
    sequences between [&], each split at its first [=], with [+] as a space,
    percent-decoded and then decoded as UTF-8, a byte order mark kept. *)
Theorem form_decode_spec input :
  is_bytes input -> exists form, decodeURLEncoded input = Ok form /\ is_form input form.
Proof.
  intros Hb. destruct (form_loop_spec (length input) input [] [] Hb) as (form & Hform & Hrun); [lia|].
  exists form. split; [exact Hrun|exact Hform].
Qed.

Lemma form_decode_spec_witness :
  is_bytes (u "a=b%20c&&d+=%E2%82%AC=&e") /\
  exists form, decodeURLEncoded (u "a=b%20c&&d+=%E2%82%AC=&e") = Ok form /\ is_form (u "a=b%20c&&d+=%E2%82%AC=&e") form /\
  form = [(u "a", u "b c"); (u "d ", [0x20ac; 0x3d]); (u "e", [])].
Proof.
  assert (Hb : is_bytes (u "a=b%20c&&d+=%E2%82%AC=&e")) by by_computing. split; [exact Hb|].
  destruct (form_decode_spec _ Hb) as (form & Hrun & Hform). exists form. split; [exact Hrun|]. split; [exact Hform|].
  assert (E : decodeURLEncoded (u "a=b%20c&&d+=%E2%82%AC=&e") = Ok [(u "a", u "b c"); (u "d ", [0x20ac; 0x3d]); (u "e", [])])
    by by vm_compute. rewrite Hrun in E. by injection E.
Defined.
