(* ===== verification/FetchHeaders.v ===== *)
(** * Header lists ([fetch/headers.ts])

    The token and value rules, the [Headers] list with its guard and its cache of
    the sorted entries, and what [get], [set], [append], [delete] and iteration
    promise one another.  Web IDL's conversions of the arguments are modelled for
    strings; the conversion of an arbitrary [HeadersInit] is not. *)

From stdpp Require Import sorting relations.
From S2P Require Import Prelude Ascii WebIdl.

(** The characters that a token may hold besides letters and digits. *)
Definition token_marks : jsstr := u "!#$%&'*+-.^_`|~".

Definition is_token_unit (c : Z) : bool :=
  in_range 48 57 c || in_range 65 90 c || in_range 97 122 c || bool_decide (c ∈ token_marks).

Definition isToken (value : jsstr) : bool := negb (len value =? 0) && forallb is_token_unit value.

Definition normalizeConvertedName (name : jsstr) : result jsstr :=
  throw_if (negb (isToken name)) (TypeError "Invalid HTTP header name") ;;
  Ok (to_lower name).

Definition normalizeName (name : jsstr) : result jsstr :=
  name ← coerceToByteString name; normalizeConvertedName name.

Definition bad_value_unit (c : Z) : bool := (255 <? c) || (c =? 0) || (c =? 10) || (c =? 13).

Definition normalizeConvertedValue (value : jsstr) : result jsstr :=
  let normalized := trimHTTPWhitespace value in
  throw_if (existsb bad_value_unit normalized) (TypeError "Invalid HTTP header value") ;;
  Ok normalized.

(** ** The class *)

Definition HeaderEntry : Type := jsstr * jsstr.
Inductive HeaderGuard := guard_none | guard_immutable.
#[export] Instance HeaderGuard_eq_dec : EqDecision HeaderGuard.
Proof. solve_decision. Defined.

Record Headers := mk_headers_list {
  h_list : list HeaderEntry;
  h_guard : HeaderGuard;
  h_sortedCache : option (list HeaderEntry);
}.

Definition empty_headers : Headers := mk_headers_list [] guard_none None.

Definition writable (h : Headers) : result unit :=
  throw_if (bool_decide (h_guard h = guard_immutable)) (TypeError "Headers are immutable").

(** [this.#sortedCache = null] and the new list. *)
Definition with_list (h : Headers) (l : list HeaderEntry) : Headers := mk_headers_list l (h_guard h) None.

Definition appendConverted (h : Headers) (name value : jsstr) : result Headers :=
  key ← normalizeConvertedName name;
  normalized ← normalizeConvertedValue value;
  writable h ;;
  Ok (with_list h (h_list h ++ [(key, normalized)])).

Definition append (h : Headers) (name value : jsstr) : result Headers :=
  convertedName ← coerceToByteString name;
  convertedValue ← coerceToByteString value;
  appendConverted h convertedName convertedValue.

(** The compacting loop of [set]: the entries written and whether one was found. *)
Fixpoint set_loop (key normalized : jsstr) (l : list HeaderEntry) (found : bool) : list HeaderEntry * bool :=
  match l with
  | [] => ([], found)
  | entry :: l =>
      if negb (str_eqb entry.1 key) then
        let '(l, found) := set_loop key normalized l found in (entry :: l, found)
      else if found then set_loop key normalized l found
      else let '(l, _) := set_loop key normalized l true in ((key, normalized) :: l, true)
  end.

Definition set (h : Headers) (name value : jsstr) : result Headers :=
  convertedName ← coerceToByteString name;
  convertedValue ← coerceToByteString value;
  key ← normalizeConvertedName convertedName;
  normalized ← normalizeConvertedValue convertedValue;
  writable h ;;
  let '(l, found) := set_loop key normalized (h_list h) false in
  Ok (with_list h (if found then l else l ++ [(key, normalized)])).

Definition delete (h : Headers) (name : jsstr) : result Headers :=
  key ← normalizeName name;
  writable h ;;
  Ok (with_list h (filter (fun entry : HeaderEntry => entry.1 <> key) (h_list h))).

(** The loop of [#get]: the first value, and all of them from the second on. *)
Definition get_step (key : jsstr) (s : option jsstr * option (list jsstr)) (entry : HeaderEntry) :=
  let '(first, values) := s in
  if negb (str_eqb entry.1 key) then s
  else match first with
       | None => (Some entry.2, values)
       | Some v => (first, Some (default [v] values ++ [entry.2]))
       end.

Definition get_key (h : Headers) (key : jsstr) : option jsstr :=
  let '(first, values) := foldl (get_step key) (None, None) (h_list h) in
  match values with None => first | Some values => Some (js_join (u ", ") values) end.

Definition get (h : Headers) (name : jsstr) : result (option jsstr) :=
  key ← normalizeName name; Ok (get_key h key).

Definition has (h : Headers) (name : jsstr) : result bool :=
  key ← normalizeName name;
  Ok (existsb (fun entry : HeaderEntry => str_eqb entry.1 key) (h_list h)).

Definition getSetCookie (h : Headers) : list jsstr :=
  (filter (fun entry => entry.1 = u "set-cookie") (h_list h)).*2.

Definition makeImmutable (h : Headers) : Headers :=
  mk_headers_list (h_list h) guard_immutable (h_sortedCache h).

Definition copyHeaders (h : Headers) : Headers := mk_headers_list (h_list h) guard_none None.

(** An entry of the converted [HeadersInit]: any sequence of strings. *)
Definition fill_entry (h : Headers) (entry : list jsstr) : result Headers :=
  match entry with
  | [name; value] => appendConverted h name value
  | _ => Err (TypeError "Each header must be an iterable [name, value] tuple")
  end.

Definition createHeadersFromConvertedInit (init : list (list jsstr)) : result Headers :=
  foldM fill_entry empty_headers init.

(** ** Iteration *)

Record HeaderGroup := mk_group {
  g_name : jsstr;
  g_values : list jsstr;
}.

Definition compareHeaderGroups (left right : HeaderGroup) : Z :=
  if str_ltb (g_name left) (g_name right) then -1 else if str_ltb (g_name right) (g_name left) then 1 else 0.

(** The entry's group in the [Map], added at the end when it is new. *)
Fixpoint group_push (groups : list HeaderGroup) (entry : HeaderEntry) : list HeaderGroup :=
  match groups with
  | [] => [mk_group entry.1 [entry.2]]
  | g :: groups =>
      if str_eqb (g_name g) entry.1 then mk_group (g_name g) (g_values g ++ [entry.2]) :: groups
      else g :: group_push groups entry
  end.

(** The order that [Array.prototype.sort] establishes. *)
Definition group_le (a b : HeaderGroup) : Prop := compareHeaderGroups a b <= 0.
#[export] Instance group_le_dec : RelDecision group_le.
Proof. intros a b. unfold group_le. apply _. Defined.

Definition group_entries (g : HeaderGroup) : list HeaderEntry :=
  if str_eqb (g_name g) (u "set-cookie") then (fun value => (g_name g, value)) <$> g_values g
  else [(g_name g, js_join (u ", ") (g_values g))].

Definition sorted_entries (l : list HeaderEntry) : list HeaderEntry :=
  merge_sort group_le (foldl group_push [] l) ≫= group_entries.

(** [#sorted]: the entries, kept in the cache. *)
Definition sorted (h : Headers) : list HeaderEntry * Headers :=
  match h_sortedCache h with
  | Some cache => (cache, h)
  | None =>
      let result := sorted_entries (h_list h) in
      (result, mk_headers_list (h_list h) (h_guard h) (Some result))
  end.

(** A step of [#entrySteps] at [index]: the generator reads the entries again at
    every step, so it sees the changes made between steps. *)
Definition entry_step (h : Headers) (index : Z) : option HeaderEntry * Headers :=
  let '(entries, h) := sorted h in (at_ entries index, h).

(** ** Specification *)

(** The values of a name, in order, and combined. *)
Definition values_of (key : jsstr) (l : list HeaderEntry) : list jsstr := (filter (fun e : HeaderEntry => e.1 = key) l).*2.
Definition combined (key : jsstr) (l : list HeaderEntry) : option jsstr :=
  match values_of key l with [] => None | values => Some (js_join (u ", ") values) end.

(** A stored entry: a lowercase token and a trimmed value without [NUL], [LF], [CR]. *)
Definition entry_ok (e : HeaderEntry) : Prop :=
  isToken e.1 = true /\ to_lower e.1 = e.1 /\
  trimHTTPWhitespace e.2 = e.2 /\ existsb bad_value_unit e.2 = false.

(** The invariant of the class: the entries are normal and the cache is current. *)
Definition headers_ok (h : Headers) : Prop :=
  Forall entry_ok (h_list h) /\ forall r, h_sortedCache h = Some r -> r = sorted_entries (h_list h).

(** A call that returns, and iteration, change a header list. *)
Inductive header_call : Headers -> Headers -> Prop :=
| call_append h name value h' : append h name value = Ok h' -> header_call h h'
| call_set h name value h' : set h name value = Ok h' -> header_call h h'
| call_delete h name h' : delete h name = Ok h' -> header_call h h'
| call_step h index : header_call h (entry_step h index).2
| call_freeze h : header_call h (makeImmutable h)
| call_copy h : header_call h (copyHeaders h).

Definition name_le (a b : HeaderEntry) : Prop := str_ltb b.1 a.1 = false.

(** The groups of a list: one for each name, with its values. *)
Definition groups_of (l : list HeaderEntry) (groups : list HeaderGroup) : Prop :=
  NoDup (g_name <$> groups) /\
  (forall g, g ∈ groups -> g_values g = values_of (g_name g) l /\ g_values g <> []) /\
  (forall e, e ∈ l -> e.1 ∈ g_name <$> groups).

Definition entries_of (key : jsstr) (l : list HeaderEntry) : list HeaderEntry :=
  if bool_decide (key = u "set-cookie") then filter (fun e : HeaderEntry => e.1 = key) l
  else match combined key l with Some v => [(key, v)] | None => [] end.

(** ** The list operations *)

Lemma combined_join key l : values_of key l <> [] -> combined key l = Some (js_join (u ", ") (values_of key l)).
Proof. unfold combined. by destruct (values_of key l). Qed.

Lemma get_key_combined h key : get_key h key = combined key (h_list h).
Proof.
  unfold get_key, combined, values_of.
  assert (H : forall l first values, (first = None -> values = None) ->
    foldl (get_step key) (first, values) l =
    match (filter (fun e : HeaderEntry => e.1 = key) l).*2, first with
    | [], _ => (first, values)
    | [v], None => (Some v, None)
    | v :: vs, None => (Some v, Some (v :: vs))
    | vs, Some f => (first, Some (default [f] values ++ vs))
    end).
  { induction l as [|e l IH]; intros first values Hfv; [done|]. cbn [foldl]. rewrite filter_cons. unfold get_step at 2.
    destruct (str_eqb e.1 key) eqn:E; cbn [negb].
    - apply str_eqb_true in E. rewrite decide_True by done. cbn [fmap list_fmap]. destruct first as [f|].
      + rewrite IH by done. destruct (_.*2) as [|v [|w vs]]; [done|..]; cbn; by rewrite <- app_assoc.
      + rewrite Hfv by done. rewrite IH by done. by destruct (_.*2) as [|v [|w vs]].
    - apply str_eqb_false in E. rewrite decide_False by done. by apply IH. }
  rewrite H by done. by destruct (_.*2) as [|v [|w vs]].
Qed.

Lemma values_of_app key l k : values_of key (l ++ k) = values_of key l ++ values_of key k.
Proof. unfold values_of. by rewrite filter_app, fmap_app. Qed.

Lemma values_of_cons key e l : values_of key (e :: l) = if bool_decide (e.1 = key) then e.2 :: values_of key l else values_of key l.
Proof. unfold values_of. rewrite filter_cons. case_bool_decide; case_decide; done. Qed.

Lemma js_join_snoc sep vs v : vs <> [] -> js_join sep (vs ++ [v]) = js_join sep vs ++ sep ++ v.
Proof.
  induction vs as [|w vs IH]; [done|]. intros _. destruct vs as [|w' vs]; [done|].
  cbn [app js_join] in *. rewrite IH by done. by rewrite !app_assoc.
Qed.

(** Appending combines with the values that are there. *)
Lemma combined_append l key v k :
  combined k (l ++ [(key, v)]) =
  if bool_decide (k = key) then Some (match combined key l with Some old => old ++ u ", " ++ v | None => v end)
  else combined k l.
Proof.
  unfold combined. rewrite values_of_app, values_of_cons. cbn [fst snd values_of filter list_filter fmap list_fmap].
  case_bool_decide as H1; case_bool_decide as H2; try congruence.
  - subst k. change (values_of key []) with (@nil jsstr). destruct (values_of key l) as [|w vs] eqn:E; [done|].
    pose proof (js_join_snoc (u ", ") (w :: vs) v ltac:(done)) as Hj. cbn [app] in *. by rewrite Hj.
  - change (values_of k []) with (@nil jsstr). by rewrite app_nil_r.
Qed.

Lemma combined_delete l key k :
  combined k (filter (fun e : HeaderEntry => e.1 <> key) l) = if bool_decide (k = key) then None else combined k l.
Proof.
  assert (H : values_of k (filter (fun e : HeaderEntry => e.1 <> key) l) = if bool_decide (k = key) then [] else values_of k l).
  { induction l as [|e l IH]; [by case_bool_decide|]. rewrite filter_cons. destruct (decide (e.1 <> key)) as [He|He].
    - rewrite !values_of_cons, IH. repeat case_bool_decide; congruence.
    - rewrite values_of_cons, IH. repeat case_bool_decide; try done. destruct He. congruence. }
  unfold combined. rewrite H. by case_bool_decide.
Qed.

Lemma set_loop_spec key v l : forall found,
  let '(l', f) := set_loop key v l found in
  f = found || existsb (fun e : HeaderEntry => str_eqb e.1 key) l /\
  (forall k, k <> key -> values_of k l' = values_of k l) /\
  values_of key l' = (if found then [] else if f then [v] else []) /\
  Forall (fun e => e = (key, v) \/ e ∈ l) l'.
Proof.
  induction l as [|e l IH]; intros found; cbn [set_loop existsb].
  { split; [by rewrite orb_false_r|]. split; [done|]. split; [by destruct found|constructor]. }
  destruct (str_eqb e.1 key) eqn:E; cbn [negb orb].
  - apply str_eqb_true in E. destruct found.
    + specialize (IH true). destruct (set_loop key v l true) as [l' f]. destruct IH as (Hf & Hk & Hv & Hall).
      split; [by rewrite Hf|]. split; [|split; [done|]].
      * intros k Hne. rewrite values_of_cons, bool_decide_eq_false_2 by congruence. by apply Hk.
      * eapply Forall_impl; [exact Hall|]. intros x [->|]; [by left|right; by constructor].
    + specialize (IH true). destruct (set_loop key v l true) as [l' f]. destruct IH as (Hf & Hk & Hv & Hall).
      split; [done|]. split; [|split].
      * intros k Hne. rewrite !values_of_cons. cbn [fst]. rewrite !bool_decide_eq_false_2 by congruence. by apply Hk.
      * rewrite values_of_cons, bool_decide_eq_true_2 by done. by rewrite Hv.
      * constructor; [by left|]. eapply Forall_impl; [exact Hall|]. intros x [->|]; [by left|right; by constructor].
  - apply str_eqb_false in E. specialize (IH found). destruct (set_loop key v l found) as [l' f]. destruct IH as (Hf & Hk & Hv & Hall).
    split; [done|]. split; [|split].
    + intros k Hne. rewrite !values_of_cons. by rewrite Hk.
    + by rewrite values_of_cons, bool_decide_eq_false_2.
    + constructor; [right; by constructor|]. eapply Forall_impl; [exact Hall|]. intros x [->|]; [by left|right; by constructor].
Qed.

Lemma values_of_none key l : existsb (fun e : HeaderEntry => str_eqb e.1 key) l = negb (bool_decide (values_of key l = [])).
Proof.
  induction l as [|e l IH]; [done|]. cbn [existsb]. rewrite values_of_cons, IH.
  destruct (str_eqb e.1 key) eqn:E.
  - apply str_eqb_true in E. rewrite (bool_decide_eq_true_2 (e.1 = key)) by done. by rewrite (bool_decide_eq_false_2 (_ :: _ = [])) by done.
  - apply str_eqb_false in E. by rewrite (bool_decide_eq_false_2 (e.1 = key)) by done.
Qed.

Lemma combined_set l key v k :
  combined k (let '(l', found) := set_loop key v l false in if found then l' else l' ++ [(key, v)]) =
  if bool_decide (k = key) then Some v else combined k l.
Proof.
  pose proof (set_loop_spec key v l false) as H. destruct (set_loop key v l false) as [l' f].
  destruct H as (Hf & Hk & Hv & _). unfold combined. case_bool_decide as Hkey.
  - subst k. destruct f; rewrite ?values_of_app, ?Hv; [done|]. cbn [app]. by rewrite values_of_cons, bool_decide_eq_true_2.
  - destruct f; rewrite ?values_of_app, Hk by done; [done|]. rewrite values_of_cons. cbn [fst].
    rewrite bool_decide_eq_false_2 by congruence. change (values_of k []) with (@nil jsstr). by rewrite app_nil_r.
Qed.

(** ** The order of names *)

Lemma str_ltb_asym a : forall b, str_ltb a b = true -> str_ltb b a = false.
Proof.
  induction a as [|x a IH]; intros [|y b]; cbn [str_ltb]; try done.
  destruct (Z.ltb_spec x y), (Z.ltb_spec y x), (Z.eqb_spec x y), (Z.eqb_spec y x); cbn [orb andb]; try lia; try done.
  apply IH.
Qed.

Lemma str_ltb_cut a : forall b c, str_ltb a c = true -> str_ltb a b = true \/ str_ltb b c = true.
Proof.
  induction a as [|x a IH]; intros [|y b] [|z c]; cbn [str_ltb]; try done; [by right|by left|by right|].
  destruct (Z.ltb_spec x y), (Z.ltb_spec x z), (Z.ltb_spec y z), (Z.eqb_spec x y), (Z.eqb_spec x z), (Z.eqb_spec y z);
    cbn [orb andb]; try lia; try (by left); try (by right); try done. apply IH.
Qed.

Lemma group_le_spec a b : group_le a b <-> str_ltb (g_name b) (g_name a) = false.
Proof.
  unfold group_le, compareHeaderGroups. destruct (str_ltb (g_name a) (g_name b)) eqn:E.
  - rewrite (str_ltb_asym _ _ E). split; [done|lia].
  - destruct (str_ltb (g_name b) (g_name a)); split; done || lia.
Qed.

#[export] Instance group_le_total : Total group_le.
Proof.
  intros a b. rewrite !group_le_spec. destruct (str_ltb (g_name b) (g_name a)) eqn:E; [|by left].
  right. by apply str_ltb_asym.
Qed.

#[export] Instance group_le_trans : Transitive group_le.
Proof.
  intros a b c. rewrite !group_le_spec. intros Hab Hbc.
  destruct (str_ltb (g_name c) (g_name a)) eqn:E; [|done].
  destruct (str_ltb_cut _ (g_name b) _ E); congruence.
Qed.

(** ** Groups *)

Lemma group_push_spec groups e :
  (e.1 ∈ g_name <$> groups -> g_name <$> group_push groups e = g_name <$> groups) /\
  (e.1 ∉ g_name <$> groups -> group_push groups e = groups ++ [mk_group e.1 [e.2]]) /\
  (NoDup (g_name <$> groups) -> forall g, g ∈ group_push groups e ->
    exists vs, g_values g = vs ++ (if bool_decide (g_name g = e.1) then [e.2] else []) /\
    (mk_group (g_name g) vs ∈ groups \/ (vs = [] /\ g_name g = e.1 /\ e.1 ∉ g_name <$> groups))).
Proof.
  induction groups as [|g groups (IH1 & IH2 & IH3)]; cbn [group_push fmap list_fmap].
  - split; [set_solver|]. split; [done|]. intros _ g ->%list_elem_of_singleton. exists []. cbn.
    rewrite bool_decide_eq_true_2 by done. split; [done|]. right. split_and!; [done|done|set_solver].
  - destruct (str_eqb (g_name g) e.1) eqn:E.
    + apply str_eqb_true in E. split; [done|]. split; [intros Hn; destruct Hn; rewrite <- E; by constructor|].
      intros Hnd g' [->|Hg]%elem_of_cons.
      * exists (g_values g). cbn. rewrite bool_decide_eq_true_2 by done. split; [done|]. left. destruct g. by constructor.
      * exists (g_values g'). apply NoDup_cons in Hnd as [Hnin _].
        rewrite bool_decide_eq_false_2, app_nil_r.
        -- split; [done|]. left. destruct g'. by constructor.
        -- intros Heq. apply Hnin. rewrite E, <- Heq. by apply list_elem_of_fmap_2.
    + apply str_eqb_false in E. split; [|split].
      * intros Hin%elem_of_cons. destruct Hin as [Hin|Hin]; [congruence|]. cbn. by rewrite IH1.
      * intros Hn. rewrite IH2 by set_solver. done.
      * intros Hnd g' [->|Hg]%elem_of_cons.
        -- exists (g_values g). rewrite bool_decide_eq_false_2, app_nil_r by done. split; [done|]. left. destruct g. by constructor.
        -- apply NoDup_cons in Hnd as [_ Hnd]. destruct (IH3 Hnd g' Hg) as (vs & -> & [Hv|(-> & Hv & Hn)]); exists vs || exists [].
           ++ split; [done|]. left. by constructor.
           ++ split; [done|]. right. split_and!; [done|done|]. rewrite not_elem_of_cons. split; [congruence|done].
Qed.

Lemma group_push_ok l groups e : groups_of l groups -> groups_of (l ++ [e]) (group_push groups e).
Proof.
  intros (Hnd & Hv & Hin). destruct (group_push_spec groups e) as (H1 & H2 & H3).
  assert (Hnames : NoDup (g_name <$> group_push groups e) /\ (forall x, x ∈ g_name <$> groups \/ x = e.1 -> x ∈ g_name <$> group_push groups e)).
  { destruct (decide (e.1 ∈ g_name <$> groups)) as [Hd|Hd].
    - rewrite H1 by done. split; [done|]. by intros x [| ->].
    - rewrite H2 by done. rewrite fmap_app. split; [|set_solver]. apply NoDup_app. split_and!; [done| |apply NoDup_singleton].
      cbn. set_solver. }
  destruct Hnames as [Hnd' Hn]. split; [done|]. split.
  - intros g Hg. destruct (H3 Hnd g Hg) as (vs & -> & Hold). rewrite values_of_app, values_of_cons.
    change (values_of (g_name g) []) with (@nil jsstr).
    assert (Hb : bool_decide (e.1 = g_name g) = bool_decide (g_name g = e.1)) by (apply bool_decide_ext; split; congruence).
    rewrite Hb. destruct Hold as [Ho|(-> & He & Hno)].
    + destruct (Hv _ Ho) as [Hvs Hne]. cbn in Hvs, Hne. rewrite Hvs. split; [done|]. rewrite <- Hvs. by destruct vs.
    + rewrite bool_decide_eq_true_2 by done. split; [|done].
      assert (Hz : values_of (g_name g) l = []).
      { unfold values_of. rewrite filter_none; [done|]. intros x Hx Hx1. apply Hno. rewrite <- He, <- Hx1. by apply Hin. }
      by rewrite Hz.
  - intros x [Hx| ->%list_elem_of_singleton]%elem_of_app; apply Hn; [left; by apply Hin|by right].
Qed.

Lemma groups_spec l : groups_of l (foldl group_push [] l).
Proof.
  assert (H : forall k done_ groups, groups_of done_ groups -> groups_of (done_ ++ k) (foldl group_push groups k)).
  { induction k as [|e k IH]; intros d g Hg; cbn [foldl]; [by rewrite app_nil_r|].
    replace (d ++ e :: k) with ((d ++ [e]) ++ k) by by rewrite <- app_assoc. apply IH. by apply group_push_ok. }
  apply (H l [] []). split; [constructor|]. split; set_solver.
Qed.

(** ** The sorted entries *)

Lemma filter_group key g : filter (fun e : HeaderEntry => e.1 = key) (group_entries g) =
  if bool_decide (g_name g = key) then group_entries g else [].
Proof.
  unfold group_entries. destruct (str_eqb (g_name g) (u "set-cookie")).
  - induction (g_values g) as [|v vs IH]; [by case_bool_decide|]. cbn [fmap list_fmap]. rewrite filter_cons, IH.
    case_bool_decide; case_decide; try done; cbn in *; congruence.
  - rewrite filter_cons, filter_nil. case_bool_decide; case_decide; try done; cbn in *; congruence.
Qed.

Lemma filter_values key l : (fun v => (key, v)) <$> values_of key l = filter (fun e : HeaderEntry => e.1 = key) l.
Proof.
  unfold values_of. induction l as [|e l IH]; [done|]. rewrite filter_cons. case_decide as He; [|done].
  cbn [fmap list_fmap]. f_equal; [|exact IH]. by destruct e as [n v]; cbn in *; subst.
Qed.

Lemma sorted_filter key l : filter (fun e : HeaderEntry => e.1 = key) (sorted_entries l) = entries_of key l.
Proof.
  unfold sorted_entries. pose proof (groups_spec l) as (Hnd & Hv & Hin).
  pose proof (merge_sort_Permutation group_le (foldl group_push [] l)) as Hp.
  set (gs := foldl group_push [] l) in *. set (ms := merge_sort group_le gs) in *.
  assert (Hnd' : NoDup (g_name <$> ms)) by (by rewrite Hp).
  assert (Hv' : forall g, g ∈ ms -> g_values g = values_of (g_name g) l /\ g_values g <> []).
  { intros g Hg. apply Hv. by rewrite <- Hp. }
  assert (Hin' : forall e, e ∈ l -> e.1 ∈ g_name <$> ms) by (intros e He; rewrite Hp; by apply Hin).
  clearbody ms. clear Hnd Hv Hin Hp gs.
  (* At most one group has the name. *)
  assert (H : forall ms, NoDup (g_name <$> ms) -> (forall g, g ∈ ms -> g_values g = values_of (g_name g) l /\ g_values g <> []) ->
    filter (fun e : HeaderEntry => e.1 = key) (ms ≫= group_entries)
    = if bool_decide (key ∈ g_name <$> ms) then entries_of key l else []).
  { clear. induction ms as [|g ms IH]; intros Hnd Hv; [done|]. rewrite bind_cons, filter_app, filter_group.
    cbn [fmap list_fmap] in *. apply NoDup_cons in Hnd as [Hn Hnd].
    rewrite IH by (try done; intros; apply Hv; by constructor).
    destruct (bool_decide_reflect (g_name g = key)) as [<-|Hne].
    - rewrite (bool_decide_eq_false_2 (_ ∈ g_name <$> ms)) by done. rewrite bool_decide_eq_true_2 by by constructor.
      rewrite app_nil_r. destruct (Hv g) as [Hg Hnil]; [by constructor|]. unfold group_entries, entries_of, str_eqb.
      destruct (bool_decide (g_name g = u "set-cookie")); [by rewrite Hg, filter_values|].
      rewrite Hg in *. by rewrite combined_join.
    - cbn. replace (bool_decide (key ∈ g_name g :: (g_name <$> ms))) with (bool_decide (key ∈ g_name <$> ms)); [done|].
      apply bool_decide_ext. set_solver. }
  rewrite H by done. case_bool_decide as Hkey; [done|].
  assert (Hz : filter (fun e : HeaderEntry => e.1 = key) l = []).
  { apply filter_none. intros x Hx <-. by apply Hkey, Hin'. }
  unfold entries_of, combined, values_of. rewrite Hz. by case_bool_decide.
Qed.

Lemma sorted_sorted l : StronglySorted name_le (sorted_entries l).
Proof.
  unfold sorted_entries. pose proof (StronglySorted_merge_sort group_le (foldl group_push [] l)) as Hs.
  set (ms := merge_sort group_le _) in *. clearbody ms.
  assert (Hname : forall g e, e ∈ group_entries g -> e.1 = g_name g).
  { intros g e He. unfold group_entries in He. destruct (str_eqb _ _).
    - by apply list_elem_of_fmap in He as (v & -> & _).
    - by apply list_elem_of_singleton in He as ->. }
  induction Hs as [|g ms Hs IH Hall]; [constructor|]. rewrite bind_cons.
  assert (Hrest : forall e, e ∈ ms ≫= group_entries -> str_ltb e.1 (g_name g) = false).
  { intros e (g' & Hge & Hg')%list_elem_of_bind. rewrite Forall_forall in Hall. rewrite (Hname g' e Hge).
    by apply group_le_spec, Hall. }
  assert (Hg : forall e, e ∈ group_entries g -> e.1 = g_name g) by apply Hname.
  induction (group_entries g) as [|e es IHes]; [exact IH|]. cbn [app]. constructor.
  - apply IHes. intros e' He'. apply Hg. by constructor.
  - apply Forall_forall. intros e' He'. unfold name_le. rewrite (Hg e) by by constructor.
    apply elem_of_app in He' as [He'|He']; [|by apply Hrest]. rewrite (Hg e') by by constructor.
    destruct (str_ltb (g_name g) (g_name g)) eqn:E; [|done]. pose proof (str_ltb_asym _ _ E). congruence.
Qed.

(** ** Normal entries *)

Lemma token_unit_byte c : is_token_unit c = true -> is_byte c.
Proof.
  intros Hc. unfold is_token_unit, in_range in Hc. unfold is_byte.
  destruct (bool_decide_reflect (c ∈ token_marks)) as [Hm|]; [|lia].
  assert (Hall : Forall is_byte token_marks) by by_computing. rewrite Forall_forall in Hall. by apply Hall.
Qed.

Lemma token_unit_lower c : is_token_unit c = true ->
  is_token_unit (lower_latin c) = true /\ lower_latin (lower_latin c) = lower_latin c.
Proof.
  intros Hc. pose proof (byte_check (fun c => negb (is_token_unit c) ||
    (is_token_unit (lower_latin c) && (lower_latin (lower_latin c) =? lower_latin c))) ltac:(by vm_compute) c
    (token_unit_byte c Hc)) as H. cbv beta in H. rewrite Hc in H. cbn [negb orb] in H.
  apply andb_true_iff in H as [H1 H2%Z.eqb_eq]. done.
Qed.

Lemma token_lower name : isToken name = true ->
  isToken (to_lower name) = true /\ to_lower (to_lower name) = to_lower name.
Proof.
  unfold isToken, to_lower. intros [Hl Hu]%andb_true_iff. unfold len in *. rewrite length_fmap, Hl.
  rewrite forallb_forall in Hu. split.
  - apply forallb_forall. intros c Hc. apply list_elem_of_In, list_elem_of_fmap in Hc as (d & -> & Hd).
    apply token_unit_lower, Hu. by apply list_elem_of_In.
  - rewrite <- list_fmap_compose. apply list_fmap_ext. intros i c Hc. cbn.
    apply token_unit_lower, Hu, list_elem_of_In. by apply list_elem_of_lookup_2 in Hc.
Qed.

Lemma trim_again p value : trim p (trim p value) = trim p value.
Proof.
  destruct (trim_is_trimmed p value) as (b & a & _ & _ & _ & Hh & Hl).
  apply (is_trimmed_unique p (trim p value)); [apply trim_is_trimmed|].
  exists [], []. rewrite app_nil_r. by split_and!.
Qed.

Lemma normal_name name key : normalizeConvertedName name = Ok key -> isToken key = true /\ to_lower key = key.
Proof.
  unfold normalizeConvertedName. intros H. ok_inv H. injection H as <-. apply negb_false_iff in Hc. by apply token_lower.
Qed.

Lemma normal_value value v : normalizeConvertedValue value = Ok v ->
  trimHTTPWhitespace v = v /\ existsb bad_value_unit v = false.
Proof.
  unfold normalizeConvertedValue. intros H. ok_inv H. injection H as <-. split; [apply trim_again|done].
Qed.

(** ** The invariant *)

Lemma with_list_ok h l : Forall entry_ok l -> headers_ok (with_list h l).
Proof. by split. Qed.

Lemma appendConverted_ok h name value h' : headers_ok h -> appendConverted h name value = Ok h' -> headers_ok h'.
Proof.
  intros [Hl _]. unfold appendConverted. intros H. ok_inv H. ok_inv H. ok_inv H. injection H as <-.
  apply with_list_ok, Forall_app_2; [done|]. constructor; [|constructor].
  destruct (normal_name _ _ Hx). destruct (normal_value _ _ Hx0). by split_and!.
Qed.

Lemma sorted_ok h : headers_ok h -> sorted h = (sorted_entries (h_list h), (sorted h).2) /\
  headers_ok (sorted h).2 /\ h_list (sorted h).2 = h_list h /\ h_guard (sorted h).2 = h_guard h.
Proof.
  intros [Hl Hc]. unfold sorted. destruct (h_sortedCache h) as [r|] eqn:E; cbn.
  - rewrite (Hc r eq_refl) at 1. split_and!; try done. split; [done|]. rewrite E. exact Hc.
  - split; [done|]. split; [|done]. split; [done|]. cbn. by intros r [= <-].
Qed.

Lemma call_ok h h' : headers_ok h -> header_call h h' -> headers_ok h'.
Proof.
  intros Hok Hcall. pose proof Hok as [Hl Hcache]. destruct Hcall as [h name value h' H|h name value h' H|h name h' H|h index|h|h].
  - unfold append in H. ok_inv H. ok_inv H. by eapply appendConverted_ok.
  - unfold set in H. do 5 ok_inv H. pose proof (set_loop_spec x1 x2 (h_list h) false) as Hset.
    destruct (set_loop x1 x2 (h_list h) false) as [l found]. destruct Hset as (_ & _ & _ & Hall). injection H as <-.
    assert (He : entry_ok (x1, x2)).
    { destruct (normal_name _ _ Hx1). destruct (normal_value _ _ Hx2). by split_and!. }
    assert (Hl' : Forall entry_ok l).
    { eapply Forall_impl; [exact Hall|]. intros e [->|Hin]; [done|]. rewrite Forall_forall in Hl. by apply Hl. }
    apply with_list_ok. destruct found; [done|]. apply Forall_app_2; [done|]. by constructor.
  - unfold delete in H. ok_inv H. ok_inv H. injection H as <-. apply with_list_ok.
    apply Forall_forall. intros e [_ He]%list_elem_of_filter. rewrite Forall_forall in Hl. by apply Hl.
  - unfold entry_step. destruct (sorted_ok h Hok) as (-> & Hs & _). done.
  - by split.
  - by split.
Qed.

(** ** Properties *)

(** The class invariant.  Whatever sequence of calls leads from an empty list,
    iteration in between included, the stored names are lowercase tokens, the
    values trimmed and free of forbidden characters, and the cache, when there is
    one, is the sorting of the current list; and once a list is immutable no call
    changes its entries. *)
Theorem headers_invariant h :
  rtc header_call empty_headers h ->
  headers_ok h /\ (forall h', header_call h h' -> h_guard h = guard_immutable -> h_list h' = h_list h).
Proof.
  intros Hrun. assert (Hok : headers_ok h).
  { assert (H0 : headers_ok empty_headers) by by split. induction Hrun as [|h1 h2 h3 Hcall _ IH]; [done|].
    apply IH. by eapply call_ok. }
  split; [done|]. intros h' Hcall Hg. assert (Hw : writable h = Err (TypeError "Headers are immutable"))
    by (unfold writable; by rewrite Hg).
  destruct Hcall as [h name value h' H|h name value h' H|h name h' H|h index|h|h]; try done.
  - unfold append, appendConverted in H. do 5 ok_inv H. congruence.
  - unfold set in H. do 5 ok_inv H. congruence.
  - unfold delete in H. do 2 ok_inv H. congruence.
  - unfold entry_step. destruct (sorted_ok h Hok) as (-> & _ & Hs & _). exact Hs.
Qed.

Lemma headers_invariant_witness : exists h,
  rtc header_call empty_headers h /\ h_guard h = guard_immutable /\
  h_list h = [(u "b", u "2"); (u "a", u "1")] /\ headers_ok h.
Proof.
  assert (Hrun : rtc header_call empty_headers
    (makeImmutable (entry_step (mk_headers_list [(u "b", u "2"); (u "a", u "1")] guard_none None) 0).2)).
  { eapply (rtc_l _ _ (mk_headers_list [(u "b", u "2")] guard_none None)); [apply (call_append _ (u "B") (u " 2 ")); by vm_compute|].
    eapply rtc_l; [apply (call_append _ (u "a") (u "1") (mk_headers_list [(u "b", u "2"); (u "a", u "1")] guard_none None)); by vm_compute|].
    eapply rtc_l; [apply (call_step _ 0)|]. eapply rtc_l; [apply call_freeze|]. apply rtc_refl. }
  eexists. split; [exact Hrun|]. split; [reflexivity|]. split; [reflexivity|].
  exact (proj1 (headers_invariant _ Hrun)).
Defined.

(** The list operations.  [append] combines the value with those that are
    there, [set] makes it the only one, [delete] removes all, [has] tells whether
    there is one, and none of them changes what [get] returns for another name,
    whatever the order and the spelling of the stored names. *)
Theorem headers_get_laws h name value key v :
  normalizeName name = Ok key ->
  (value ← coerceToByteString value; normalizeConvertedValue value) = Ok v ->
  h_guard h = guard_none ->
  (exists h', append h name value = Ok h' /\ forall k, get_key h' k =
    if bool_decide (k = key) then Some (match get_key h key with Some old => old ++ u ", " ++ v | None => v end)
    else get_key h k) /\
  (exists h', set h name value = Ok h' /\ forall k, get_key h' k =
    if bool_decide (k = key) then Some v else get_key h k) /\
  (exists h', delete h name = Ok h' /\ forall k, get_key h' k =
    if bool_decide (k = key) then None else get_key h k) /\
  get h name = Ok (get_key h key) /\
  has h name = Ok (negb (bool_decide (get_key h key = None))).
Proof.
  intros Hn Hv Hg. pose proof Hn as Hn'. unfold normalizeName in Hn'. apply bind_Ok in Hn' as (n & Hcn & Hkey).
  apply bind_Ok in Hv as (w & Hcw & Hval).
  assert (Hw : writable h = Ok tt) by (unfold writable; by rewrite Hg).
  split; [|split; [|split; [|split]]].
  - unfold append, appendConverted. rewrite Hcn, Hcw. cbn [mbind result_bind]. rewrite Hkey, Hval, Hw. cbn [mbind result_bind].
    eexists. split; [done|]. intros k. rewrite !get_key_combined. apply combined_append.
  - unfold set. rewrite Hcn, Hcw. cbn [mbind result_bind]. rewrite Hkey, Hval, Hw. cbn [mbind result_bind].
    exists (with_list h (let '(l, found) := set_loop key v (h_list h) false in if found then l else l ++ [(key, v)])).
    split; [by destruct (set_loop key v (h_list h) false)|]. intros k. rewrite !get_key_combined. apply combined_set.
  - unfold delete. rewrite Hn, Hw. cbn [mbind result_bind]. eexists. split; [done|].
    intros k. rewrite !get_key_combined. apply combined_delete.
  - unfold get. by rewrite Hn.
  - unfold has. rewrite Hn. cbn [mbind result_bind]. f_equal. rewrite values_of_none, get_key_combined. f_equal.
    apply bool_decide_ext. unfold combined. by destruct (values_of key (h_list h)); split.
Qed.

Lemma headers_get_laws_witness :
  let h := mk_headers_list [(u "a", u "1"); (u "b", u "2"); (u "a", u "3")] guard_none None in
  normalizeName (u "A") = Ok (u "a") /\
  exists h', append h (u "A") (u " 4 ") = Ok h' /\ get_key h' (u "a") = Some (u "1, 3, 4") /\ get_key h' (u "b") = Some (u "2").
Proof.
  intros h. assert (Hn : normalizeName (u "A") = Ok (u "a")) by by vm_compute. split; [exact Hn|].
  destruct (headers_get_laws h (u "A") (u " 4 ") (u "a") (u "4") Hn) as [(h' & Ha & Hg) _]; [by vm_compute|done|].
  exists h'. split; [exact Ha|]. split; rewrite Hg; by vm_compute.
Defined.

(** Iteration.  From any list that satisfies the invariant, with or without a
    cache, [#sorted] returns entries in the order of their names' code units in
    which every name has exactly one entry with the value [get] returns, and
    [set-cookie] all of its own in their order; the entries themselves are left
    as they are. *)
Theorem headers_iteration h :
  headers_ok h ->
  let '(entries, h') := sorted h in
  StronglySorted name_le entries /\
  (forall key, filter (fun e : HeaderEntry => e.1 = key) entries =
    if bool_decide (key = u "set-cookie") then (fun v => (key, v)) <$> getSetCookie h
    else match get_key h key with Some v => [(key, v)] | None => [] end) /\
  h_list h' = h_list h /\ headers_ok h'.
Proof.
  intros Hok. destruct (sorted_ok h Hok) as (-> & Hok' & Hl & _). split; [apply sorted_sorted|].
  split; [|done]. intros key. rewrite sorted_filter. unfold entries_of. case_bool_decide as Hc; [|by rewrite get_key_combined].
  subst key. unfold getSetCookie. symmetry. apply filter_values.
Qed.

Lemma headers_iteration_witness :
  let h := mk_headers_list [(u "set-cookie", u "x"); (u "b", u "2"); (u "a", u "1"); (u "set-cookie", u "w"); (u "a", u "0")]
    guard_none None in
  headers_ok h /\ (sorted h).1 = [(u "a", u "1, 0"); (u "b", u "2"); (u "set-cookie", u "x"); (u "set-cookie", u "w")] /\
  StronglySorted name_le (sorted h).1.
Proof.
  intros h. assert (Hok : headers_ok h) by (split; [|done]; by_computing). split; [exact Hok|].
  split; [by vm_compute|]. pose proof (headers_iteration h Hok) as H. destruct (sorted h). exact (proj1 H).
Defined.
