(* ===== verification/Fields.v ===== *)
(** * List-valued fields ([http/fields.ts])

    [contentLength] and [hasToken]: the scanners over a combined field value, and
    the list grammar they implement. *)

From S2P Require Import Prelude Ascii FetchHeaders.

Definition is_blank_unit (code : Z) : bool := (code =? 9) || (code =? 32).

(** [while (index < raw.length) { ... index++ }] over blanks: the rest. *)
Fixpoint skip_blanks (rest : jsstr) : jsstr :=
  match rest with
  | code :: more => if is_blank_unit code then skip_blanks more else rest
  | [] => []
  end.

(** The digit loop: the number and the rest.  The code's number is a double; it
    equals this one up to [MAX_SAFE_INTEGER], and is no safe integer beyond. *)
Fixpoint read_digits (rest : jsstr) (length : Z) : Z * jsstr :=
  match rest with
  | code :: more =>
      let digit := code - 48 in
      if (digit <? 0) || (9 <? digit) then (length, rest) else read_digits more (length * 10 + digit)
  | [] => (length, [])
  end.

(** [while (true)]: an iteration that goes on takes a comma. *)
Fixpoint length_loop (fuel : nat) (rest : jsstr) (result_ : option Z) : result (option Z) :=
  match fuel with
  | O => Err OutOfFuel
  | S fuel =>
      let digits := skip_blanks rest in
      let '(length, after) := read_digits digits 0 in
      throw_if (len after =? len digits) (ProtocolError "Invalid Content-Length") ;;
      throw_if (negb (isSafeInteger length)) (ProtocolError "Content-Length is too large") ;;
      let after := skip_blanks after in
      throw_if (match result_ with Some result => negb (result =? length) | None => false end)
        (ProtocolError "Conflicting Content-Length fields") ;;
      match after with
      | [] => Ok (Some length)
      | code :: rest =>
          throw_if (negb (code =? 44)) (ProtocolError "Invalid Content-Length") ;;
          length_loop fuel rest (Some length)
      end
  end.

Definition contentLength (headers : Headers) : result (option Z) :=
  raw ← get headers (u "content-length");
  match raw with
  | None => Ok None
  | Some raw => length_loop (S (length raw)) raw None
  end.

(** [while (start <= raw.length)]: an iteration that goes on passes a comma. *)
Fixpoint token_loop (fuel : nat) (raw expected : jsstr) (start : Z) : bool :=
  match fuel with
  | O => false
  | S fuel =>
      if start <=? len raw then
        let comma := js_indexOf raw 44 start in
        let end_ := if comma <? 0 then len raw else comma in
        if str_eqb (to_lower (trimHTTPTabOrSpace (subarray raw start end_))) expected then true
        else if comma <? 0 then false
        else token_loop fuel raw expected (comma + 1)
      else false
  end.

Definition hasToken (headers : Headers) (name token : jsstr) : result bool :=
  raw ← get headers name;
  match raw with
  | None => Ok false
  | Some raw => Ok (token_loop (S (length raw)) raw (to_lower token) 0)
  end.

(** ** Specification *)

(** The members of a list. *)
Definition members (raw : jsstr) : list jsstr := trimHTTPTabOrSpace <$> js_split 44 raw.

Definition is_digit (c : Z) : Prop := 48 <= c <= 57.

(** A member that gives the length [n]. *)
Definition is_length (n : Z) (member : jsstr) : Prop :=
  member <> [] /\ Forall is_digit member /\ decimal member = n /\ n <= MAX_SAFE_INTEGER.

Definition is_blank (c : Z) : Prop := is_blank_unit c = true.

(** ** The scanners *)

Lemma skip_blanks_trim l : skip_blanks l = trim_start isHTTPTabOrSpace l.
Proof. induction l as [|c l IH]; [done|]. cbn. by rewrite IH. Qed.

Lemma read_digits_spec l : forall v, exists ds rest,
  l = ds ++ rest /\ Forall is_digit ds /\ (forall c, head rest = Some c -> ~ is_digit c) /\
  read_digits l v = (foldl (fun v c => v * 10 + (c - 48)) v ds, rest).
Proof.
  induction l as [|c l IH]; intros v; [exists [], []; by split_and!|]. cbn [read_digits].
  destruct (Z.ltb_spec (c - 48) 0), (Z.ltb_spec 9 (c - 48)); cbn [orb].
  4: { destruct (IH (v * 10 + (c - 48))) as (ds & rest & -> & Hd & Hr & ->). exists (c :: ds), rest.
       split_and!; [done|constructor; [unfold is_digit; lia|done]|done|done]. }
  all: exists [], (c :: l); split_and!; [done|constructor| |done]; intros d [= <-]; unfold is_digit; lia.
Qed.

Lemma skip_blanks_spec l : exists b, l = b ++ skip_blanks l /\ Forall is_blank b /\
  forall c, head (skip_blanks l) = Some c -> ~ is_blank c.
Proof.
  rewrite skip_blanks_trim. destruct (trim_start_split isHTTPTabOrSpace l) as (b & E & Hb & Hh).
  exists b. split; [done|]. split; [exact Hb|]. intros c Hc. unfold is_blank. specialize (Hh c Hc).
  unfold is_blank_unit. unfold isHTTPTabOrSpace in Hh. congruence.
Qed.

Lemma digit_not_blank c : is_digit c -> ~ is_blank c.
Proof. unfold is_digit, is_blank, is_blank_unit. lia. Qed.

Lemma decimal_digits ds v : foldl (fun v c => v * 10 + (c - 48)) v ds = foldl (fun v c => 10 * v + (c - 48)) v ds.
Proof. revert v. induction ds as [|d ds IH]; intros v; [done|]. cbn. rewrite IH. f_equal. lia. Qed.

Lemma decimal_digits_nonneg ds : Forall is_digit ds -> 0 <= decimal ds.
Proof.
  assert (H : forall v, 0 <= v -> Forall is_digit ds -> 0 <= foldl (fun v c => 10 * v + (c - 48)) v ds).
  { induction ds as [|d ds IH]; intros v Hv Hd; [done|]. apply Forall_cons in Hd as [Hd Hds].
    cbn. apply IH; [unfold is_digit in Hd; lia|done]. }
  by apply H.
Qed.

(** Where an iteration cuts the rest, and what it does then. *)
Lemma length_step rest : exists b1 ds b2 tail,
  rest = b1 ++ ds ++ b2 ++ tail /\ Forall is_blank b1 /\ Forall is_digit ds /\ Forall is_blank b2 /\
  (forall c, head (ds ++ b2 ++ tail) = Some c -> ~ is_blank c) /\
  (forall c, head (b2 ++ tail) = Some c -> ~ is_digit c) /\ (forall c, head tail = Some c -> ~ is_blank c) /\
  forall fuel r, length_loop (S fuel) rest r =
    (throw_if (bool_decide (ds = [])) (ProtocolError "Invalid Content-Length") ;;
     throw_if (MAX_SAFE_INTEGER <? decimal ds) (ProtocolError "Content-Length is too large") ;;
     throw_if (match r with Some result => negb (result =? decimal ds) | None => false end)
       (ProtocolError "Conflicting Content-Length fields") ;;
     match tail with
     | [] => Ok (Some (decimal ds))
     | code :: t => throw_if (negb (code =? 44)) (ProtocolError "Invalid Content-Length") ;; length_loop fuel t (Some (decimal ds))
     end).
Proof.
  destruct (skip_blanks_spec rest) as (b1 & E1 & Hb1 & Hh1).
  destruct (read_digits_spec (skip_blanks rest) 0) as (ds & after & E2 & Hds & Hh2 & Hread).
  destruct (skip_blanks_spec after) as (b2 & E3 & Hb2 & Hh3). exists b1, ds, b2, (skip_blanks after).
  rewrite <- E3, <- E2. split_and!; try done. intros fuel r. cbn [length_loop]. rewrite Hread, decimal_digits. fold (decimal ds).
  replace (len after =? len (skip_blanks rest)) with (bool_decide (ds = [])).
  2: { rewrite E2, len_app. destruct ds; [cbn; rewrite (@len_nil Z); symmetry; apply Z.eqb_eq; lia|].
       rewrite len_cons. pose proof (len_nonneg ds). rewrite bool_decide_eq_false_2 by done. lia. }
  replace (negb (isSafeInteger (decimal ds))) with (MAX_SAFE_INTEGER <? decimal ds); [done|].
  unfold isSafeInteger. rewrite Z.abs_eq by by apply decimal_digits_nonneg. lia.
Qed.

Lemma blanks_trimmed b1 inner b2 : Forall is_blank b1 -> Forall is_blank b2 -> inner <> [] -> Forall is_digit inner ->
  trimHTTPTabOrSpace (b1 ++ inner ++ b2) = inner.
Proof.
  intros Hb1 Hb2 Hne Hd. apply (is_trimmed_unique isHTTPTabOrSpace (b1 ++ inner ++ b2)); [apply trim_is_trimmed|].
  exists b1, b2. split_and!; try done; intros c Hc; apply not_true_iff_false; apply digit_not_blank;
    rewrite Forall_forall in Hd; apply Hd; [by apply head_Some_elem_of in Hc|by apply last_Some_elem_of in Hc].
Qed.

Lemma members_last piece : 44 ∉ piece -> members piece = [trimHTTPTabOrSpace piece].
Proof. intros Hn. unfold members. by rewrite js_split_one. Qed.

Lemma members_cons piece t : 44 ∉ piece -> members (piece ++ 44 :: t) = trimHTTPTabOrSpace piece :: members t.
Proof. intros Hn. unfold members. by rewrite js_split_app. Qed.

Lemma no_comma l : Forall is_blank l \/ Forall is_digit l -> 44 ∉ l.
Proof. intros [H|H] Hin; rewrite Forall_forall in H; specialize (H 44 Hin); [done|]. unfold is_digit in H. lia. Qed.

(** The trimmed first member, when it is a number, is where the scanner finds it. *)
Lemma first_member piece t b1 ds b2 tail n : 44 ∉ piece -> t = [] \/ (exists k, t = 44 :: k) ->
  piece ++ t = b1 ++ ds ++ b2 ++ tail -> Forall is_blank b1 -> Forall is_digit ds -> Forall is_blank b2 ->
  (forall c, head (ds ++ b2 ++ tail) = Some c -> ~ is_blank c) ->
  (forall c, head (b2 ++ tail) = Some c -> ~ is_digit c) -> (forall c, head tail = Some c -> ~ is_blank c) ->
  is_length n (trimHTTPTabOrSpace piece) -> ds <> [] /\ tail = t /\ decimal ds = n.
Proof.
  intros Hn Ht E Hb1 Hds Hb2 Hh1 Hh2 Hh3 (Hne & Hd & Hdec & _).
  destruct (trim_is_trimmed isHTTPTabOrSpace piece) as (a1 & a2 & Ep & Ha1 & Ha2 & _ & _).
  fold (trimHTTPTabOrSpace piece) in Ep. set (inner := trimHTTPTabOrSpace piece) in *.
  assert (Ht' : forall c, head t = Some c -> ~ is_blank c /\ ~ is_digit c).
  { intros c Hc. destruct Ht as [->|(k & ->)]; [done|]. injection Hc as <-. split; [by intros [=]|unfold is_digit; lia]. }
  rewrite Ep, <- !app_assoc in E.
  apply (span_unique is_blank) in E as [_ E]; [|exact Ha1|exact Hb1| |exact Hh1].
  2: { destruct inner as [|d inner]; [done|]. intros c [= <-]. apply Forall_cons in Hd as [Hd _]. by apply digit_not_blank. }
  apply (span_unique is_digit) in E as [-> E]; [|done|done| |exact Hh2].
  2: { destruct a2 as [|x a2]; cbn [app]; intros c Hc; [by apply Ht'|]. injection Hc as <-.
       apply Forall_cons in Ha2 as [Hx _]. intros Hxd. by apply digit_not_blank in Hxd. }
  apply (span_unique is_blank) in E as [_ ->]; [done|exact Ha2|done| |exact Hh3]. intros c Hc. by apply Ht'.
Qed.

Lemma length_loop_ok fuel n : forall rest r, (length rest < fuel)%nat ->
  length_loop fuel rest r = Ok (Some n) <-> Forall (is_length n) (members rest) /\ (r = None \/ r = Some n).
Proof.
  induction fuel as [|fuel IH]; intros rest r Hf; [lia|].
  destruct (length_step rest) as (b1 & ds & b2 & tail & E & Hb1 & Hds & Hb2 & Hh1 & Hh2 & Hh3 & Hrun). rewrite Hrun.
  assert (Hpiece : 44 ∉ b1 ++ ds ++ b2) by (rewrite !not_elem_of_app; split_and!; apply no_comma; auto).
  split.
  - intros H. ok_inv H. ok_inv H. ok_inv H. apply bool_decide_eq_false in Hc.
    assert (Hlen : is_length (decimal ds) (trimHTTPTabOrSpace (b1 ++ ds ++ b2)))
      by (rewrite blanks_trimmed by done; split_and!; [done|done|done|lia]).
    destruct tail as [|code t].
    + injection H as <-. rewrite app_nil_r in E. rewrite E, members_last by done. split; [by constructor|].
      destruct r as [m|]; [right|by left]. f_equal. lia.
    + ok_inv H. assert (code = 44) as -> by lia. apply IH in H as [Ht Hr].
      2: { rewrite E, !length_app in Hf. cbn in Hf. lia. }
      assert (decimal ds = n) as Hn by (destruct Hr as [?|Hr]; congruence). rewrite Hn in *.
      replace rest with ((b1 ++ ds ++ b2) ++ 44 :: t) by by rewrite E, <- !app_assoc. rewrite members_cons by done.
      split; [by constructor|]. destruct r as [m|]; [right|by left]. f_equal. lia.
  - intros [Hm Hr]. destruct (split_first 44 rest) as (piece & t & Er & Hnp & Hsplit).
    assert (Ht : t = [] \/ exists k, t = 44 :: k) by (destruct Hsplit as [[-> _]|(k & -> & _)]; [by left|right; by exists k]).
    assert (Hfirst : is_length n (trimHTTPTabOrSpace piece) /\
      match t with [] => True | _ :: k => Forall (is_length n) (members k) end).
    { rewrite Er in Hm. destruct Ht as [->|(k & ->)].
      - rewrite app_nil_r, members_last in Hm by done. apply Forall_cons in Hm as [Hm _]. done.
      - rewrite members_cons in Hm by done. by apply Forall_cons in Hm. }
    destruct Hfirst as [Hfirst Hmore]. rewrite E in Er. symmetry in Er.
    destruct (first_member piece t b1 ds b2 tail n) as (Hne & -> & Hdec); try done.
    rewrite bool_decide_eq_false_2 by done. destruct Hfirst as (_ & _ & _ & Hsafe).
    replace (MAX_SAFE_INTEGER <? decimal ds) with false by lia. cbn [throw_if mbind result_bind].
    replace (match r with Some result => negb (result =? decimal ds) | None => false end) with false
      by (destruct Hr as [->| ->]; [done|lia]). cbn [throw_if mbind result_bind].
    destruct Ht as [->|(k & ->)]; [by rewrite Hdec|]. cbn [Z.eqb Pos.eqb negb throw_if mbind result_bind].
    apply IH; [rewrite E, !length_app in Hf; cbn in Hf; lia|]. split; [done|]. right. by rewrite Hdec.
Qed.

Lemma length_loop_some fuel rest r : (length rest < fuel)%nat ->
  (exists n, length_loop fuel rest r = Ok (Some n)) \/ exists msg, length_loop fuel rest r = Err (ProtocolError msg).
Proof.
  revert rest r. induction fuel as [|fuel IH]; intros rest r Hf; [lia|].
  destruct (length_step rest) as (b1 & ds & b2 & tail & E & _ & _ & _ & _ & _ & _ & ->).
  destruct (bool_decide (ds = [])); cbn [throw_if mbind result_bind]; [right; by eexists|].
  destruct (MAX_SAFE_INTEGER <? decimal ds); cbn [throw_if mbind result_bind]; [right; by eexists|].
  destruct (match r with Some _ => _ | None => _ end); cbn [throw_if mbind result_bind]; [right; by eexists|].
  destruct tail as [|code t]; [left; by eexists|]. destruct (negb (code =? 44)); cbn [throw_if mbind result_bind]; [right; by eexists|].
  apply IH. rewrite E, !length_app in Hf. cbn in Hf. lia.
Qed.

(** ** Tokens *)

Lemma token_loop_spec expected fuel : forall pre rest, (length rest < fuel)%nat ->
  token_loop fuel (pre ++ rest) expected (len pre) = existsb (fun m => str_eqb (to_lower m) expected) (members rest).
Proof.
  induction fuel as [|fuel IH]; intros pre rest Hf; [lia|]. cbn [token_loop]. pose proof (len_nonneg pre).
  rewrite len_app. pose proof (len_nonneg rest). destruct (Z.leb_spec (len pre) (len pre + len rest)); [|lia].
  assert (Hi : js_indexOf (pre ++ rest) 44 (len pre) = index_of_from 44 rest (len pre)).
  { unfold js_indexOf. f_equal. unfold len. by rewrite Nat2Z.id, drop_app_length. }
  rewrite Hi. destruct (split_first 44 rest) as (piece & t & -> & Hn & [[-> _]|(k & -> & _)]).
  - rewrite app_nil_r in *. rewrite index_of_from_none by done. cbn [Z.ltb Z.compare].
    pose proof (subarray_app_mid pre piece []) as Hs. rewrite app_nil_r in Hs. rewrite Hs, members_last by done.
    cbn [existsb]. by destruct (str_eqb _ _).
  - rewrite index_of_from_app by done. pose proof (len_nonneg piece). destruct (Z.ltb_spec (len pre + len piece) 0); [lia|].
    rewrite subarray_app_mid, members_cons by done. cbn [existsb]. destruct (str_eqb _ _); [done|]. cbn [orb].
    rewrite <- (IH (pre ++ piece ++ [44]) k) by (rewrite length_app in Hf; cbn in Hf; lia).
    rewrite !len_app, <- !app_assoc. cbn [app]. change (len [44]) with 1. f_equal. lia.
Qed.

(** ** Properties *)

(** [Content-Length].  [contentLength] returns [null] exactly when the field is
    absent, and [n] exactly when every member of its comma-separated value, blanks
    apart, is a nonempty string of digits for the same safe integer [n]; on any
    other value it throws a [ProtocolError], so framing is never ambiguous. *)
Theorem content_length_spec headers raw :
  get headers (u "content-length") = Ok raw ->
  (contentLength headers = Ok None <-> raw = None) /\
  (forall n, contentLength headers = Ok (Some n) <-> exists v, raw = Some v /\ Forall (is_length n) (members v)) /\
  (forall e, contentLength headers = Err e -> exists msg, e = ProtocolError msg).
Proof.
  intros Hget. unfold contentLength. rewrite Hget. cbn [mbind result_bind]. destruct raw as [v|].
  - pose proof (length_loop_some (S (length v)) v None ltac:(lia)) as Hs. split; [|split].
    + split; [|done]. intros H. destruct Hs as [(n & Hs)|(msg & Hs)]; congruence.
    + intros n. rewrite length_loop_ok by lia. split; [intros [Hm _]; by exists v|]. intros (w & [= <-] & Hm). auto.
    + intros e He. destruct Hs as [(n & Hs)|(msg & Hs)]; [congruence|]. exists msg. congruence.
  - split; [done|]. split; [|done]. intros n. split; [done|]. by intros (v & [=] & _).
Qed.

Lemma content_length_spec_witness :
  let h := mk_headers_list [(u "content-length", u "42 ,	042"); (u "content-length", u "42")] guard_none None in
  get h (u "content-length") = Ok (Some (u "42 ,	042, 42")) /\ contentLength h = Ok (Some 42) /\
  Forall (is_length 42) (members (u "42 ,	042, 42")).
Proof.
  intros h. assert (Hg : get h (u "content-length") = Ok (Some (u "42 ,	042, 42"))) by by vm_compute. split; [exact Hg|].
  assert (Hc : contentLength h = Ok (Some 42)) by by vm_compute. split; [exact Hc|].
  destruct (content_length_spec h _ Hg) as (_ & Hn & _). apply Hn in Hc as (v & [= <-] & Hm). exact Hm.
Defined.

(** Token lists.  [hasToken] finds a token exactly when some member of the
    field's comma-separated value is the token, blanks and case apart. *)
Theorem has_token_spec headers name token raw :
  get headers name = Ok raw ->
  exists found, hasToken headers name token = Ok found /\
  (found = true <-> exists v m, raw = Some v /\ m ∈ members v /\ to_lower m = to_lower token).
Proof.
  intros Hget. unfold hasToken. rewrite Hget. cbn [mbind result_bind]. destruct raw as [v|].
  - eexists. split; [done|]. pose proof (token_loop_spec (to_lower token) (S (length v)) [] v ltac:(lia)) as H.
    cbn [app] in H. change (len []) with 0 in H. rewrite H, existsb_exists. split.
    + intros (m & Hm & Heq). exists v, m. split; [done|]. split; [by apply list_elem_of_In|by apply str_eqb_true].
    + intros (w & m & [= <-] & Hm & Heq). exists m. split; [by apply list_elem_of_In|]. rewrite Heq. by apply bool_decide_eq_true_2.
  - exists false. split; [done|]. split; [done|]. by intros (v & m & [=] & _).
Qed.

Lemma has_token_spec_witness :
  let h := mk_headers_list [(u "connection", u "keep-alive"); (u "connection", u " Upgrade")] guard_none None in
  get h (u "connection") = Ok (Some (u "keep-alive,  Upgrade")) /\ hasToken h (u "connection") (u "upgrade") = Ok true /\
  exists v m, Some (u "keep-alive,  Upgrade") = Some v /\ m ∈ members v /\ to_lower m = to_lower (u "upgrade").
Proof.
  intros h. assert (Hg : get h (u "connection") = Ok (Some (u "keep-alive,  Upgrade"))) by by vm_compute. split; [exact Hg|].
  assert (Hc : hasToken h (u "connection") (u "upgrade") = Ok true) by by vm_compute. split; [exact Hc|].
  destruct (has_token_spec h (u "connection") (u "upgrade") _ Hg) as (found & Hf & Hiff). apply Hiff. rewrite Hc in Hf.
  by injection Hf.
Defined.
