(* ===== verification/UsvText.v ===== *)
(** * Strings without unpaired surrogates

    What the encoder and the decoder of UTF-8 do on the strings that have scalar
    values, and on ASCII: the lemmas that the wire formats of forms share. *)

From S2P Require Import Prelude Utf8 Utf8Theory TextEncoder TextDecoder TextDecoderTheory WebIdl.
Local Open Scope Z_scope.

(** A string without unpaired surrogates. *)
Definition usv (s : jsstr) : Prop := exists cs, Forall is_scalar cs /\ s = of_scalars cs.

(** A unit of ASCII. *)
Definition is_ascii (c : Z) : Prop := 0 <= c < 0x80.

(** ** Encoding *)

Lemma encode_of_scalars cs : Forall is_scalar cs -> TextEncoder.encode (of_scalars cs) = encode_scalars cs.
Proof. intros Hcs. rewrite TextEncoder.text_encode_spec by by apply of_scalars_units. by rewrite to_of_scalars. Qed.

Lemma usv_app a b : usv a -> usv b -> usv (a ++ b) /\ TextEncoder.encode (a ++ b) = TextEncoder.encode a ++ TextEncoder.encode b.
Proof.
  intros (ca & Ha & ->) (cb & Hb & ->). assert (Hab : Forall is_scalar (ca ++ cb)) by by apply Forall_app.
  assert (Happ : of_scalars ca ++ of_scalars cb = of_scalars (ca ++ cb)) by (unfold of_scalars; by rewrite bind_app).
  rewrite Happ. split; [by exists (ca ++ cb)|]. rewrite !encode_of_scalars by done. unfold encode_scalars. by rewrite bind_app.
Qed.

Lemma ascii_scalars s : Forall is_ascii s -> Forall is_scalar s /\ of_scalars s = s /\ encode_scalars s = s.
Proof.
  induction 1 as [|c s Hc _ (H1 & H2 & H3)]; [by split_and!; [constructor|..]|]. unfold is_ascii in Hc. rewrite of_scalars_cons, H2.
  unfold encode_scalars. rewrite bind_cons. fold (encode_scalars s). rewrite H3. unfold scalar_units, encode_scalar.
  destruct (Z.ltb_spec c 0x10000), (Z.ltb_spec c 0x80); try lia. split_and!; [constructor; [unfold is_scalar; lia|done]|done|done].
Qed.

Lemma usv_ascii s : Forall is_ascii s -> usv s /\ TextEncoder.encode s = s.
Proof. intros (H1 & H2 & H3)%ascii_scalars. split; [by exists s|]. rewrite <- H2 at 1. by rewrite encode_of_scalars. Qed.

(** The first unit of a scalar value outside ASCII is not in ASCII. *)
Lemma scalar_units_cases c : is_scalar c -> scalar_units c = [c] \/ exists a b, scalar_units c = [a; b] /\ 0xd800 <= a /\ 0xd800 <= b.
Proof. intros Hc. unfold scalar_units. destruct (Z.ltb_spec c 0x10000); [by left|]. right. eexists _, _. split; [done|]. unfold is_scalar in Hc. div_lia. Qed.

Lemma head_scalars c cs : Forall is_scalar cs -> c < 0xd800 -> head (of_scalars cs) = Some c -> head cs = Some c.
Proof.
  intros Hcs Hc. destruct Hcs as [|d cs Hd _]; [done|]. rewrite of_scalars_cons.
  destruct (scalar_units_cases d Hd) as [->|(a & b & -> & Ha & _)]; [done|]. intros [= ->]. lia.
Qed.

Lemma decode_scalars ignoreBOM cs : Forall is_scalar cs -> decodeUTF8 (encode_scalars cs) false ignoreBOM = Ok (of_scalars (strip_bom ignoreBOM cs)).
Proof.
  intros Hcs. destruct (decodeUTF8_laws (encode_scalars cs) ignoreBOM) as (_ & _ & out & Hseg & ->); [by apply encode_scalars_bytes|].
  by rewrite (segments_unique _ _ _ Hseg (segments_scalars cs Hcs)).
Qed.

Lemma decode_encoded_text s : usv s -> head s <> Some 0xfeff -> decodeUTF8 (TextEncoder.encode s) false false = Ok s.
Proof.
  intros (cs & Hcs & ->) Hh. rewrite encode_of_scalars, decode_scalars by done. f_equal. destruct cs as [|c cs]; [done|]. cbn [strip_bom].
  destruct (Z.eqb_spec c 0xfeff) as [->|]; [|done]. by destruct Hh.
Qed.

Lemma usv_units s : usv s -> is_jsstr s.
Proof. intros (cs & Hcs & ->). by apply of_scalars_units. Qed.

(** Decoding keeps a byte order mark when it is told to. *)
Lemma decode_usv s : usv s -> decodeUTF8 (TextEncoder.encode s) false true = Ok s.
Proof. intros (cs & Hcs & ->). rewrite encode_of_scalars, decode_scalars by done. destruct cs; cbn [strip_bom]; by rewrite ?andb_false_r. Qed.

(** ** A unit of ASCII in a string *)

Lemma to_scalars_app a c b : is_ascii c -> to_scalars (a ++ c :: b) = to_scalars a ++ c :: to_scalars b.
Proof.
  unfold is_ascii. intros Hc. assert (Hone : to_scalars (c :: b) = c :: to_scalars b).
  { cbn [to_scalars]. destruct (Z.leb_spec 0xd800 c), (Z.leb_spec 0xdc00 c); try lia. done. }
  induction a as [a IH] using strong_string. destruct a as [|x a]; [done|]. cbn [app to_scalars].
  pose proof (IH a ltac:(cbn; lia)) as IHa. destruct ((0xd800 <=? x) && (x <? 0xdc00)).
  - destruct a as [|y a]; cbn [app].
    + destruct (Z.leb_spec 0xdc00 c); [lia|]. cbn [andb app]. by rewrite Hone.
    + destruct ((0xdc00 <=? y) && (y <? 0xe000)).
      * cbn [app]. f_equal. apply IH. cbn. lia.
      * cbn [app] in IHa |- *. by rewrite IHa.
  - destruct ((0xdc00 <=? x) && (x <? 0xe000)); cbn [app]; by rewrite IHa.
Qed.

Lemma to_scalars_in c s : c < 0xd800 -> c ∈ to_scalars s -> c ∈ s.
Proof.
  intros Hc. induction s as [s IH] using strong_string. destruct s as [|x s]; [done|]. cbn [to_scalars].
  assert (Hbad : forall l, c ∈ 0xfffd :: to_scalars l -> c ∈ to_scalars l) by (intros l [->|?]%elem_of_cons; [lia|done]).
  assert (Hs : c ∈ to_scalars s -> c ∈ x :: s) by (intros ?; right; apply IH; [cbn; lia|done]).
  destruct (Z.leb_spec 0xd800 x), (Z.ltb_spec x 0xdc00), (Z.leb_spec 0xdc00 x), (Z.ltb_spec x 0xe000); cbn [andb]; try lia.
  all: try (intros [->|?]%elem_of_cons; [by left|by apply Hs]). all: try (by intros ?%Hbad%Hs).
  destruct s as [|y s]; [intros ->%list_elem_of_singleton; lia|].
  destruct ((0xdc00 <=? y) && (y <? 0xe000)) eqn:E; [|by intros ?%Hbad%Hs].
  intros [->|Hin]%elem_of_cons; [exfalso; lia|]. right. right. apply IH; [cbn; lia|done].
Qed.

Lemma encode_split a c b : is_ascii c -> is_jsstr a -> is_jsstr b ->
  TextEncoder.encode (a ++ c :: b) = TextEncoder.encode a ++ c :: TextEncoder.encode b.
Proof.
  intros Hc Ha Hb. rewrite !TextEncoder.text_encode_spec; [|done..|].
  - rewrite to_scalars_app by done. unfold encode_scalars. rewrite bind_app, bind_cons. f_equal. unfold encode_scalar, is_ascii in *.
    by destruct (Z.ltb_spec c 0x80); [|lia].
  - apply Forall_app. split; [done|]. constructor; [|done]. unfold is_unit, is_ascii in *. lia.
Qed.

Lemma encode_no_ascii d s : is_ascii d -> is_jsstr s -> d ∉ s -> d ∉ TextEncoder.encode s.
Proof.
  unfold is_ascii. intros Hd Hs Hn. rewrite TextEncoder.text_encode_spec by done. intros (c & Hb & Hc)%list_elem_of_bind.
  pose proof (to_scalars_ok s Hs) as Hok. rewrite Forall_forall in Hok. pose proof (Hok c Hc) as Hsc.
  assert (c = d) as ->; [|apply Hn, to_scalars_in; [lia|done]].
  unfold encode_scalar, is_scalar in *. destruct (Z.ltb_spec c 0x80); [by apply list_elem_of_singleton in Hb|]. exfalso.
  destruct (Z.ltb_spec c 0x800), (Z.ltb_spec c 0x10000); rewrite !elem_of_cons, elem_of_nil in Hb; repeat destruct Hb as [Hb|Hb]; div_lia.
Qed.

Lemma usv_kept s : usv s -> toUSVString s = s.
Proof. intros (cs & Hcs & ->). rewrite toUSVString_spec by by apply of_scalars_units. by apply of_scalars_well_formed. Qed.

Lemma usv_constant s : forallb (fun c => (0 <=? c) && (c <? 0x80)) s = true -> usv s.
Proof.
  intros Hs. apply usv_ascii. apply Forall_forall. intros c Hc. rewrite forallb_forall in Hs. apply list_elem_of_In, Hs in Hc. unfold is_ascii. lia.
Qed.

Lemma usv_concat a b : usv a -> usv b -> usv (a ++ b).
Proof. apply usv_app. Qed.

