(* ===== verification/SearchParams.v ===== *)
(** * [URLSearchParams] ([forms/search-params.ts])

    The form encoder and decoder of query strings, the list of entries and its
    operations.  [search_params_wire] relates the class to the decoder of form
    bodies in [UrlEncoded]. *)

From stdpp Require Import sorting.
From S2P Require Import Prelude Utf8 Utf8Theory TextEncoder TextDecoder TextDecoderTheory WebIdl UsvText UrlEncoded.
Local Open Scope Z_scope.

(** ** Encoding and decoding *)

Definition upperHex : jsstr := u "0123456789ABCDEF".

(** [undefined] is [None]. *)
Definition hexDigit (code : option Z) : Z :=
  match code with
  | None => -1
  | Some code =>
      if in_range 48 57 code then code - 48
      else if in_range 65 70 code then code - 55
      else if in_range 97 102 code then code - 87
      else -1
  end.

Definition isFormSafe (byte : Z) : bool :=
  in_range 65 90 byte || in_range 97 122 byte || in_range 48 57 byte || (byte =? 42) || (byte =? 45) || (byte =? 46) || (byte =? 95).

(** The first loop: the length of the output. *)
Definition encoded_length (source : list Z) : Z :=
  foldl (fun length byte => length + (if isFormSafe byte || (byte =? 32) then 1 else 3)) 0 source.

(** The second loop. *)
Fixpoint encode_loop (source output : list Z) (offset : Z) : list Z :=
  match source with
  | [] => output
  | byte :: source =>
      if isFormSafe byte then encode_loop source (set_u8 output offset byte) (offset + 1)
      else if byte =? 32 then encode_loop source (set_u8 output offset 43) (offset + 1)
      else
        encode_loop source
          (set_u8 (set_u8 (set_u8 output offset 37) (offset + 1) (at_or 0 upperHex (byte .>>> 4))) (offset + 2) (at_or 0 upperHex (byte .& 15)))
          (offset + 3)
  end.

Definition formEncode (input : jsstr) : result jsstr :=
  let source := TextEncoder.encode input in
  decodeUTF8 (encode_loop source (zeros (encoded_length source)) 0) false true.

(** The loop over [source], by what is left of it: the bytes and their number. *)
Fixpoint decode_loop (source bytes : list Z) (length : Z) : list Z * Z :=
  match source with
  | [] => (bytes, length)
  | byte :: rest =>
      if byte =? 43 then decode_loop rest (set_u8 bytes length 32) (length + 1)
      else if byte =? 37 then
        match rest with
        | first :: second :: rest' =>
            let high := hexDigit (Some first) in
            let low := hexDigit (Some second) in
            if (0 <=? high) && (0 <=? low) then decode_loop rest' (set_u8 bytes length (high * 16 + low)) (length + 1)
            else decode_loop rest (set_u8 bytes length byte) (length + 1)
        | _ => decode_loop rest (set_u8 bytes length byte) (length + 1)
        end
      else decode_loop rest (set_u8 bytes length byte) (length + 1)
  end.

Definition formDecode (input : jsstr) : result jsstr :=
  let source := TextEncoder.encode input in
  let '(bytes, length) := decode_loop source (zeros (len source)) 0 in
  decodeUTF8 (subarray bytes 0 length) false true.

(** ** The class *)

Definition SearchParamEntry : Type := jsstr * jsstr.

Definition compareEntriesByName (left right : SearchParamEntry) : Z :=
  if str_ltb left.1 right.1 then -1 else if str_ltb right.1 left.1 then 1 else 0.

Definition append (params : list SearchParamEntry) (name value : jsstr) : list SearchParamEntry :=
  params ++ [(toUSVString name, toUSVString value)].

(** A part of the query. *)
Definition query_part (params : list SearchParamEntry) (part : jsstr) : result (list SearchParamEntry) :=
  if bool_decide (part = []) then Ok params
  else
    let index := js_indexOf part 61 0 in
    name ← formDecode (if index <? 0 then part else subarray part 0 index);
    value ← formDecode (if index <? 0 then [] else subarray part (index + 1) (len part));
    Ok (append params name value).

(** The constructor, of a string. *)
Definition strip_query (init : jsstr) : jsstr := if starts_with 63 init then tail init else init.
Definition new_URLSearchParams (init : jsstr) : result (list SearchParamEntry) :=
  foldM query_part [] (js_split 38 (strip_query init)).

(** The constructor, of the entries of a sequence of pairs or of a record. *)
Definition from_entries (init : list SearchParamEntry) : list SearchParamEntry := foldl (fun params e => append params e.1 e.2) [] init.

Definition size (params : list SearchParamEntry) : Z := len params.

Fixpoint get_loop (key : jsstr) (params : list SearchParamEntry) : option jsstr :=
  match params with
  | [] => None
  | item :: params => if str_eqb item.1 key then Some item.2 else get_loop key params
  end.
Definition get (params : list SearchParamEntry) (name : jsstr) : option jsstr := get_loop (toUSVString name) params.
Definition getAll (params : list SearchParamEntry) (name : jsstr) : list jsstr :=
  snd <$> filter (fun item => str_eqb item.1 (toUSVString name) = true) params.

(** An entry of the name and, when there is one, the value. *)
Definition is_match (key : jsstr) (match_ : option jsstr) (item : SearchParamEntry) : bool :=
  str_eqb item.1 key && match match_ with None => true | Some value => str_eqb item.2 value end.
Definition has (params : list SearchParamEntry) (name : jsstr) (value : option jsstr) : bool :=
  existsb (is_match (toUSVString name) (toUSVString <$> value)) params.
Definition delete (params : list SearchParamEntry) (name : jsstr) (value : option jsstr) : list SearchParamEntry :=
  filter (fun item => is_match (toUSVString name) (toUSVString <$> value) item = false) params.

Fixpoint set_loop (key val : jsstr) (params : list SearchParamEntry) (found : bool) : list SearchParamEntry * bool :=
  match params with
  | [] => ([], found)
  | item :: params =>
      if negb (str_eqb item.1 key) then let '(rest, found) := set_loop key val params found in (item :: rest, found)
      else if negb found then let '(rest, found) := set_loop key val params true in ((key, val) :: rest, found)
      else set_loop key val params found
  end.
Definition set (params : list SearchParamEntry) (name value : jsstr) : list SearchParamEntry :=
  let key := toUSVString name in
  let val := toUSVString value in
  let '(kept, found) := set_loop key val params false in
  if found then kept else kept ++ [(key, val)].

(** [list.sort], which is stable. *)
Definition name_order (a b : SearchParamEntry) : Prop := compareEntriesByName a b <= 0.
#[export] Instance name_order_dec : RelDecision name_order.
Proof. intros a b. unfold name_order. apply _. Defined.
Definition sort (params : list SearchParamEntry) : list SearchParamEntry := merge_sort name_order params.

(** The loop of [toString]: the pieces to join. *)
Definition push_entry (out : list jsstr) (entry : SearchParamEntry) : result (list jsstr) :=
  let out := if bool_decide (out <> []) then out ++ [[38]] else out in
  name ← formEncode entry.1;
  value ← formEncode entry.2;
  Ok (out ++ [name; [61]; value]).
Definition toString (params : list SearchParamEntry) : result jsstr :=
  out ← foldM push_entry [] params;
  Ok (concat out).

(** ** Specification *)

(** A byte in the text of a query. *)
Definition escape_byte (byte : Z) : list Z :=
  if isFormSafe byte then [byte]
  else if byte =? 32 then [43]
  else [37; at_or 0 upperHex (byte .>>> 4); at_or 0 upperHex (byte .& 15)].
Definition form_escape (bytes : list Z) : list Z := bytes ≫= escape_byte.

Definition entry_text (entry : SearchParamEntry) : jsstr :=
  form_escape (TextEncoder.encode entry.1) ++ 61 :: form_escape (TextEncoder.encode entry.2).
Definition more_text (entries : list SearchParamEntry) : jsstr := entries ≫= fun entry => 38 :: entry_text entry.
Definition query_text (entries : list SearchParamEntry) : jsstr :=
  match entries with [] => [] | entry :: entries => entry_text entry ++ more_text entries end.

(** What the class keeps: strings without unpaired surrogates. *)
Definition entry_usv (entry : SearchParamEntry) : Prop := usv entry.1 /\ usv entry.2.

(** ** Encoding *)

Lemma len_escape b bytes : len (form_escape (b :: bytes)) = len (escape_byte b) + len (form_escape bytes).
Proof. unfold form_escape. by rewrite bind_cons, len_app. Qed.

Lemma encoded_length_spec source : encoded_length source = len (form_escape source).
Proof.
  unfold encoded_length. assert (H : forall n, foldl (fun length byte => length + (if isFormSafe byte || (byte =? 32) then 1 else 3)) n source = n + len (form_escape source)).
  { induction source as [|b source IH]; intros n; [cbn; rewrite (@len_nil Z); lia|]. cbn [foldl]. rewrite IH, len_escape. unfold escape_byte.
    destruct (isFormSafe b); [cbn [orb]; change (len [b]) with 1; lia|]. cbn [orb]. destruct (b =? 32); [change (len [43]) with 1; lia|].
    rewrite !len_cons, (@len_nil Z). lia. }
  by rewrite H.
Qed.

(** Facts about the text of every byte. *)
Definition escape_facts (b : Z) : bool :=
  forallb (fun c => (0 <=? c) && (c <? 0x80) && negb (c =? 38) && negb (c =? 61) && negb (c =? 63)) (escape_byte b) &&
  (isFormSafe b || (b =? 32) || ((0 <=? asciiHexValue (at_or 0 upperHex (b .>>> 4))) && (0 <=? asciiHexValue (at_or 0 upperHex (b .& 15))) &&
    (asciiHexValue (at_or 0 upperHex (b .>>> 4)) * 16 + asciiHexValue (at_or 0 upperHex (b .& 15)) =? b) &&
    negb (at_or 0 upperHex (b .>>> 4) =? 43) && negb (at_or 0 upperHex (b .& 15) =? 43))) &&
  (negb (isFormSafe b) || (negb (b =? 43) && negb (b =? 37))).

Lemma escape_checked b : is_byte b -> escape_facts b = true.
Proof. apply byte_check. by vm_compute. Qed.

Lemma escape_units b c : is_byte b -> c ∈ escape_byte b -> is_ascii c /\ c <> 38 /\ c <> 61 /\ c <> 63.
Proof.
  intros Hb Hc. pose proof (escape_checked b Hb) as H. unfold escape_facts in H. rewrite !andb_true_iff in H. destruct H as [[H _] _].
  rewrite forallb_forall in H. apply list_elem_of_In, H in Hc. unfold is_ascii. lia.
Qed.

Lemma form_escape_units bytes c : is_bytes bytes -> c ∈ form_escape bytes -> is_ascii c /\ c <> 38 /\ c <> 61 /\ c <> 63.
Proof. intros Hb (b & Hc & Hin)%list_elem_of_bind. rewrite Forall_forall in Hb. eapply escape_units; [by apply Hb|done]. Qed.

Lemma form_escape_escaped bytes : is_bytes bytes -> escaped bytes (plus_to_space (form_escape bytes)).
Proof.
  induction 1 as [|b bytes Hb _ IH]; [constructor|]. unfold form_escape. rewrite bind_cons. unfold plus_to_space. rewrite fmap_app.
  pose proof (escape_checked b Hb) as H. unfold escape_facts in H. rewrite !andb_true_iff, !orb_true_iff, !andb_true_iff in H. destruct H as [[_ Hhex] Hsafe].
  unfold escape_byte. destruct (isFormSafe b) eqn:Hs.
  - destruct Hsafe as [[=]|[H43 H37]]. apply negb_true_iff in H43, H37. cbn [fmap list_fmap app]. rewrite H43. apply escaped_literal; [lia|exact IH].
  - destruct (Z.eqb_spec b 32) as [->|_]; [by apply escaped_literal|]. destruct Hhex as [[[=]|[=]]|[[[[H1 H2] H3] H4] H5]].
    apply negb_true_iff in H4, H5. cbn [fmap list_fmap app]. rewrite H4, H5. apply escaped_byte; [lia..|exact IH].
Qed.

Lemma component_escape bytes : is_bytes bytes -> component_bytes (form_escape bytes) = bytes.
Proof. intros Hb. apply percent_decode_escaped. by apply form_escape_escaped. Qed.

Lemma encode_loop_spec source : forall out, is_bytes source ->
  encode_loop source (out ++ zeros (len (form_escape source))) (len out) = out ++ form_escape source.
Proof.
  induction source as [|b source IH]; intros out Hs; [done|]. apply Forall_cons in Hs as [Hb Hs]. rewrite len_escape. unfold form_escape. rewrite bind_cons.
  fold (form_escape source). pose proof (len_nonneg (form_escape source)). cbn [encode_loop].
  assert (Hunit : forall c, c ∈ escape_byte b -> is_byte c) by (intros c Hc%escape_units; [unfold is_ascii, is_byte in *; lia|done]).
  assert (Hnext : forall v, len out + 1 = len (out ++ [v])) by (intros v; by rewrite len_app).
  unfold escape_byte in *. destruct (isFormSafe b).
  - change (len [b]) with 1. rewrite set_u8_zeros by (done || lia). rewrite (Hnext b), Z.add_simpl_l, IH by done. by rewrite <- app_assoc.
  - destruct (b =? 32).
    + change (len [43]) with 1. rewrite set_u8_zeros by (done || lia). rewrite (Hnext 43), Z.add_simpl_l, IH by done. by rewrite <- app_assoc.
    + set (h := at_or 0 upperHex (b .>>> 4)) in *. set (l := at_or 0 upperHex (b .& 15)) in *. change (len [37; h; l]) with 3.
      assert (Hh : is_byte h) by (apply Hunit; right; left). assert (Hl : is_byte l) by (apply Hunit; right; right; left).
      rewrite set_u8_zeros by (done || lia). rewrite (Hnext 37), set_u8_zeros by (done || lia).
      replace (len out + 2) with (len ((out ++ [37]) ++ [h])) by (rewrite !len_app; change (len [37]) with 1; change (len [h]) with 1; lia).
      rewrite set_u8_zeros by (done || lia).
      replace (len out + 3) with (len (((out ++ [37]) ++ [h]) ++ [l])) by (rewrite !len_app; change (len [37]) with 1; change (len [h]) with 1; change (len [l]) with 1; lia).
      replace (3 + len (form_escape source) - 1 - 1 - 1) with (len (form_escape source)) by lia. rewrite IH by done. by rewrite <- !app_assoc.
Qed.

Lemma formEncode_spec input : is_jsstr input -> formEncode input = Ok (form_escape (TextEncoder.encode input)).
Proof.
  intros Hi. pose proof (TextEncoder.encode_is_bytes input Hi) as Hb. unfold formEncode. rewrite encoded_length_spec.
  pose proof (encode_loop_spec (TextEncoder.encode input) [] Hb) as Hloop. cbn [app] in Hloop. change (len []) with 0 in Hloop. rewrite Hloop.
  assert (Ha : Forall is_ascii (form_escape (TextEncoder.encode input))) by (apply Forall_forall; intros c Hc; by eapply form_escape_units).
  destruct (usv_ascii _ Ha) as [Hu He]. rewrite <- He at 1. by apply decode_usv.
Qed.

(** ** Decoding *)

Lemma hexDigit_value c : hexDigit (Some c) = hexValue c.
Proof. unfold hexDigit, hexValue. repeat case_match; lia. Qed.

Lemma decode_loop_spec source : forall out k, is_bytes source -> len source <= k ->
  exists rest, decode_loop source (out ++ zeros k) (len out) = (out ++ component_bytes source ++ rest, len out + len (component_bytes source)).
Proof.
  induction source as [source IH] using shorter_ind. intros out k Hb Hk. destruct source as [|b source]; [exists (zeros k); cbn; by rewrite Z.add_0_r|].
  rewrite len_cons in Hk. pose proof (len_nonneg source).
  assert (Hput : forall v source', (length source' < length (b :: source))%nat -> len source' <= k - 1 -> is_bytes source' -> is_byte v ->
    component_bytes (b :: source) = v :: component_bytes source' -> exists rest,
    decode_loop source' (set_u8 (out ++ zeros k) (len out) v) (len out + 1) =
      (out ++ component_bytes (b :: source) ++ rest, len out + len (component_bytes (b :: source)))).
  { intros v source' Hl Hk' Hb' Hv ->. rewrite set_u8_zeros by (done || lia). replace (len out + 1) with (len (out ++ [v])) by by rewrite len_app.
    destruct (IH source' Hl (out ++ [v]) (k - 1) Hb' Hk') as [rest ->]. exists rest. rewrite len_app, <- !app_assoc, (len_cons v (component_bytes source')). change (len [v]) with 1. f_equal. lia. }
  pose proof (component_bytes_ok _ Hb) as Hcb. pose proof Hb as [Hb0 Hbs]%Forall_cons. cbn [decode_loop].
  destruct (component_step b source) as [[-> E]|[(Hne & f & s & rest' & -> & -> & Hf & Hs & E)|(Hne & Hno & E)]]; rewrite E in Hcb; apply Forall_cons in Hcb as [Hv _].
  - cbn [Z.eqb Pos.eqb]. apply (Hput 32 source); [cbn; lia|lia|done|done|exact E].
  - cbn [Z.eqb Pos.eqb]. rewrite !hexDigit_value. destruct (Z.leb_spec 0 (hexValue f)), (Z.leb_spec 0 (hexValue s)); try lia. cbn [andb].
    rewrite !len_cons in Hk. apply Forall_cons in Hbs as [_ [_ Hbs]%Forall_cons]. apply Hput; [cbn; lia|lia|done|done|exact E].
  - destruct (Z.eqb_spec b 43); [done|]. pose proof (Hput b source ltac:(cbn; lia) ltac:(lia) Hbs Hv E) as Hgo.
    destruct (Z.eqb_spec b 37) as [->|]; [|exact Hgo]. destruct source as [|f [|s rest']]; [exact Hgo..|]. rewrite !hexDigit_value.
    destruct (Hno f s rest' eq_refl eq_refl); destruct (Z.leb_spec 0 (hexValue f)), (Z.leb_spec 0 (hexValue s)); try lia; exact Hgo.
Qed.

Lemma formDecode_spec input : is_jsstr input -> exists text, formDecode input = Ok text /\ is_component (TextEncoder.encode input) text /\ toUSVString text = text.
Proof.
  intros Hi. pose proof (TextEncoder.encode_is_bytes input Hi) as Hb. unfold formDecode.
  destruct (decode_loop_spec (TextEncoder.encode input) [] (len (TextEncoder.encode input)) Hb) as [rest Hloop]; [lia|]. cbn [app] in Hloop. change (len []) with 0 in Hloop.
  rewrite Hloop, Z.add_0_l. replace (subarray _ 0 _) with (component_bytes (TextEncoder.encode input)).
  2: { unfold subarray, len. rewrite Z.sub_0_r, Nat2Z.id. change (Z.to_nat 0) with 0%nat. by rewrite drop_0, take_app_length. }
  destruct (decodeUTF8_replacing (component_bytes (TextEncoder.encode input)) true) as (out & Hsc & Hseg & ->); [by apply component_bytes_ok|].
  exists (of_scalars (strip_bom true out)). replace (strip_bom true out) with out by (destruct out; cbn; by rewrite ?andb_false_r).
  split; [done|]. split; [by exists out|]. apply usv_kept. by exists out.
Qed.

(** ** The query *)

Lemma name_value_split name value : 61 ∉ name -> name_value (name ++ 61 :: value) = (name, value).
Proof.
  induction name as [|c name IH]; intros Hn; [done|]. apply not_elem_of_cons in Hn as [Hc Hn]. cbn [app name_value]. rewrite (IH Hn).
  destruct (Z.eqb_spec c 0x3d); [congruence|done].
Qed.

Lemma name_value_none piece : 61 ∉ piece -> name_value piece = (piece, []).
Proof. intros Hn. destruct (name_value_spec piece) as [[_ H]|(name & value & -> & _)]; [done|]. destruct Hn. apply elem_of_app. right. by left. Qed.

Lemma is_ascii_61 : is_ascii 61.
Proof. by unfold is_ascii. Qed.

Lemma query_part_spec params part : is_jsstr part -> part <> [] -> exists entry, query_part params part = Ok (params ++ [entry]) /\
  is_component (name_value (TextEncoder.encode part)).1 entry.1 /\ is_component (name_value (TextEncoder.encode part)).2 entry.2.
Proof.
  intros Hp Hne. unfold query_part. rewrite bool_decide_eq_false_2 by done. cbv zeta.
  assert (Hdone : forall name value, is_jsstr name -> is_jsstr value -> exists entry,
    (n ← formDecode name; v ← formDecode value; Ok (append params n v)) = Ok (params ++ [entry]) /\
    is_component (TextEncoder.encode name) entry.1 /\ is_component (TextEncoder.encode value) entry.2).
  { intros name value [n (-> & Hn & Hun)]%formDecode_spec [v (-> & Hv & Huv)]%formDecode_spec. exists (n, v). cbn [mbind result_bind].
    unfold append. by rewrite Hun, Huv. }
  unfold js_indexOf. change (Z.to_nat 0) with 0%nat. rewrite drop_0. destruct (index_of_from_spec 61 part 0) as [[-> Hno]|(a & b & -> & Hno & ->)]; [lia|..].
  - rewrite name_value_none by (apply encode_no_ascii; [apply is_ascii_61|done..]). cbn [Z.ltb Z.compare]. by apply Hdone.
  - rewrite Z.add_0_l. pose proof (len_nonneg a). destruct (Z.ltb_spec (len a) 0); [lia|]. apply Forall_app in Hp as [Ha [_ Hb]%Forall_cons].
    rewrite encode_split, name_value_split by (apply is_ascii_61 || done || (by apply encode_no_ascii; [apply is_ascii_61|..])). cbn [fst snd].
    replace (subarray (a ++ 61 :: b) 0 (len a)) with a by (unfold subarray, len; rewrite Z.sub_0_r, Nat2Z.id; change (Z.to_nat 0) with 0%nat; by rewrite drop_0, take_app_length).
    replace (subarray (a ++ 61 :: b) (len a + 1) (len (a ++ 61 :: b))) with b; [by apply Hdone|].
    unfold subarray, len. rewrite take_ge.
    + replace (Z.to_nat (Z.of_nat (length a) + 1)) with (length a + 1)%nat by lia. by rewrite drop_app_add.
    + rewrite length_drop, length_app. cbn [length]. lia.
Qed.

Lemma encode_nonempty_text s : is_jsstr s -> s <> [] -> TextEncoder.encode s <> [].
Proof.
  intros Hs Hne He. rewrite TextEncoder.text_encode_spec in He by done. destruct s as [|c s]; [done|].
  assert (Hsc : exists d l, to_scalars (c :: s) = d :: l) by (cbn [to_scalars]; repeat case_match; eauto). destruct Hsc as (d & l & E).
  rewrite E in He. unfold encode_scalars in He. rewrite bind_cons in He. destruct (encode_nonempty d) as (x & t & Ed). by rewrite Ed in He.
Qed.

(** The parts of a query are those of its bytes. *)
Lemma split_encoded s : is_jsstr s -> js_split 38 (TextEncoder.encode s) = TextEncoder.encode <$> js_split 38 s.
Proof.
  assert (H38 : is_ascii 38) by by unfold is_ascii.
  induction s as [s IH] using strong_string. intros Hs. destruct (split_first 38 s) as (piece & tail & -> & Hn & [[-> ->]|(t & -> & ->)]).
  - rewrite app_nil_r in *. cbn [fmap list_fmap]. apply js_split_one. by apply encode_no_ascii.
  - apply Forall_app in Hs as [Hp [_ Ht]%Forall_cons]. rewrite encode_split, js_split_app by (done || by apply encode_no_ascii).
    cbn [fmap list_fmap]. f_equal. apply IH; [rewrite length_app; cbn; lia|done].
Qed.

Lemma split_units c s : is_jsstr s -> Forall is_jsstr (js_split c s).
Proof.
  induction s as [s IH] using strong_string. intros Hs. destruct (split_first c s) as (piece & tail & -> & Hn & [[-> ->]|(t & -> & ->)]).
  - rewrite app_nil_r in *. by constructor.
  - apply Forall_app in Hs as [Hp [_ Ht]%Forall_cons]. constructor; [done|]. apply IH; [rewrite length_app; cbn; lia|done].
Qed.

Lemma query_parts_spec parts : forall params, Forall is_jsstr parts -> exists entries, foldM query_part params parts = Ok (params ++ entries) /\
  Forall2 (fun piece entry => is_component (name_value piece).1 entry.1 /\ is_component (name_value piece).2 entry.2)
    (filter (fun piece => piece <> []) (TextEncoder.encode <$> parts)) entries.
Proof.
  induction parts as [|part parts IH]; intros params Hp; [exists []; rewrite app_nil_r; by split|]. apply Forall_cons in Hp as [Hpart Hp]. cbn [foldM fmap list_fmap].
  destruct (decide (part = [])) as [->|Hne].
  - cbn [mbind result_bind query_part]. destruct (IH params Hp) as (entries & Hf & Hc). by exists entries.
  - destruct (query_part_spec params part Hpart Hne) as (entry & -> & Hc). cbn [mbind result_bind]. destruct (IH (params ++ [entry]) Hp) as (entries & -> & Hcs).
    exists (entry :: entries). split; [by rewrite <- app_assoc|]. rewrite filter_cons_True by by apply encode_nonempty_text. by constructor.
Qed.

Lemma query_is_form q : is_jsstr q -> exists entries, foldM query_part [] (js_split 38 q) = Ok entries /\ is_form (TextEncoder.encode q) entries.
Proof.
  intros Hq. destruct (query_parts_spec (js_split 38 q) []) as (entries & Hf & Hc); [by apply split_units|]. exists entries. split; [exact Hf|].
  unfold is_form. by rewrite split_encoded.
Qed.

Lemma is_component_unique bytes t t' : is_component bytes t -> is_component bytes t' -> t = t'.
Proof. intros (out & Hs & ->) (out' & Hs' & ->). by rewrite (segments_unique _ _ _ Hs Hs'). Qed.

Lemma is_form_unique input f f' : is_form input f -> is_form input f' -> f = f'.
Proof.
  unfold is_form. revert f f'. induction (filter _ _) as [|piece pieces IH]; intros f f' Hf Hf'; inversion_clear Hf as [|? [n v] ? ? [Hn Hv] Hr]; inversion_clear Hf' as [|? [n' v'] ? ? [Hn' Hv'] Hr'];
    [done|]. f_equal; [f_equal; by eapply is_component_unique|by apply IH].
Qed.

(** ** The text of the entries *)

Lemma encoded_usv_bytes s : usv s -> is_bytes (TextEncoder.encode s).
Proof. intros Hs. apply TextEncoder.encode_is_bytes. by apply usv_units. Qed.

Lemma push_entry_spec out entry : entry_usv entry -> push_entry out entry =
  Ok ((if bool_decide (out <> []) then out ++ [[38]] else out) ++ [form_escape (TextEncoder.encode entry.1); [61]; form_escape (TextEncoder.encode entry.2)]).
Proof. intros [Hn%usv_units Hv%usv_units]. unfold push_entry. cbv zeta. by rewrite !formEncode_spec. Qed.

Lemma push_entries entries : forall out, Forall entry_usv entries -> out <> [] -> exists out',
  foldM push_entry out entries = Ok out' /\ concat out' = concat out ++ more_text entries.
Proof.
  induction entries as [|entry entries IH]; intros out He Hne; [exists out; by rewrite app_nil_r|]. apply Forall_cons in He as [Hentry He].
  cbn [foldM]. rewrite push_entry_spec, bool_decide_eq_true_2 by done. cbn [mbind result_bind].
  destruct (IH ((out ++ [[38]]) ++ [form_escape (TextEncoder.encode entry.1); [61]; form_escape (TextEncoder.encode entry.2)]) He) as (out' & -> & Hc).
  { intros E. by apply app_eq_nil in E as [_ E]. }
  exists out'. split; [done|]. rewrite Hc, !concat_app. unfold more_text. rewrite bind_cons. unfold entry_text. cbn [concat app]. by rewrite !app_nil_r, <- !app_assoc.
Qed.

Lemma toString_spec entries : Forall entry_usv entries -> toString entries = Ok (query_text entries).
Proof.
  destruct entries as [|entry entries]; [done|]. intros [Hentry He]%Forall_cons. unfold toString. cbn [foldM].
  rewrite push_entry_spec, bool_decide_eq_false_2 by (done || by intros []). cbn [mbind result_bind app].
  destruct (push_entries entries [form_escape (TextEncoder.encode entry.1); [61]; form_escape (TextEncoder.encode entry.2)] He ltac:(done)) as (out & -> & Hc).
  cbn [mbind result_bind]. rewrite Hc. unfold query_text, entry_text. cbn [concat app]. by rewrite app_nil_r.
Qed.

Lemma entry_text_units entry c : entry_usv entry -> c ∈ entry_text entry -> is_ascii c /\ c <> 38 /\ c <> 63.
Proof.
  intros [Hn%encoded_usv_bytes Hv%encoded_usv_bytes] Hc. unfold entry_text in Hc. apply elem_of_app in Hc as [Hc|[->|Hc]%elem_of_cons].
  - destruct (form_escape_units _ _ Hn Hc) as (? & ? & _ & ?). done.
  - by unfold is_ascii.
  - destruct (form_escape_units _ _ Hv Hc) as (? & ? & _ & ?). done.
Qed.

Lemma entry_text_no entry : entry_usv entry -> (38 ∉ entry_text entry) /\ (63 ∉ entry_text entry).
Proof. intros He. split; intros Hin; apply (entry_text_units _ _ He) in Hin as (_ & H38 & H63); congruence. Qed.

Lemma query_text_split entries : Forall entry_usv entries -> entries <> [] -> js_split 38 (query_text entries) = entry_text <$> entries.
Proof.
  intros He Hne. destruct entries as [|entry entries]; [done|]. clear Hne. revert entry He. induction entries as [|next entries IH]; intros entry [Hentry He]%Forall_cons.
  - cbn [query_text]. unfold more_text. cbn [mbind list_bind]. rewrite app_nil_r. apply js_split_one. by apply entry_text_no.
  - cbn [query_text]. unfold more_text. rewrite bind_cons. cbn [app]. rewrite js_split_app by by apply entry_text_no.
    cbn [fmap list_fmap]. f_equal. exact (IH next He).
Qed.

Lemma query_text_ascii entries : Forall entry_usv entries -> Forall is_ascii (query_text entries).
Proof.
  intros He. assert (Hone : forall entry, entry_usv entry -> Forall is_ascii (entry_text entry)) by (intros entry Hentry; apply Forall_forall; intros c Hc; by eapply entry_text_units).
  assert (Hmore : forall l, Forall entry_usv l -> Forall is_ascii (more_text l)).
  { induction 1 as [|entry l Hentry _ IH]; [constructor|]. unfold more_text. rewrite bind_cons. constructor; [by unfold is_ascii|]. apply Forall_app. auto. }
  destruct He as [|entry entries Hentry He]; [constructor|]. apply Forall_app. auto.
Qed.

Lemma query_text_no_question entries : Forall entry_usv entries -> strip_query (query_text entries) = query_text entries.
Proof.
  intros He. unfold strip_query. destruct (starts_with 63 (query_text entries)) eqn:E; [|done]. exfalso. apply bool_decide_eq_true in E.
  destruct He as [|entry entries Hentry He]; [done|]. cbn [query_text] in E.
  assert (Hin : 63 ∈ entry_text entry).
  { unfold entry_text in *. destruct (form_escape (TextEncoder.encode entry.1)); cbn in E; injection E as ->; left. }
  by apply (entry_text_no _ Hentry) in Hin.
Qed.

Lemma query_text_form entries : Forall entry_usv entries -> is_form (query_text entries) entries.
Proof.
  intros He. unfold is_form. destruct (decide (entries = [])) as [->|Hne]; [constructor|]. rewrite query_text_split by done. clear Hne.
  induction He as [|entry entries [Hn Hv] _ IH]; [constructor|]. cbn [fmap list_fmap].
  rewrite filter_cons_True by (unfold entry_text; by destruct (form_escape (TextEncoder.encode entry.1))). constructor; [|exact IH].
  unfold entry_text. rewrite name_value_split by (intros Hin%form_escape_units; [tauto|by apply encoded_usv_bytes]). cbn [fst snd].
  assert (Hcomp : forall s, usv s -> is_component (form_escape (TextEncoder.encode s)) s).
  { intros s Hs. unfold is_component. change (percent_decode (plus_to_space ?x)) with (component_bytes x). rewrite component_escape by by apply encoded_usv_bytes.
    destruct Hs as (cs & Hcs & ->). exists cs. rewrite encode_of_scalars by done. split; [by apply segments_scalars|done]. }
  by split; apply Hcomp.
Qed.

(** ** Properties *)

(** C22: Query strings and form bodies.  The class parses a query to the entries that
    the decoder of form bodies reads from its bytes, but for a leading question
    mark; and every list of entries is what both read from the text that [toString]
    writes of it. *)
Theorem search_params_wire :
  (forall init, is_jsstr init -> exists entries,
    new_URLSearchParams init = Ok entries /\ decodeURLEncoded (TextEncoder.encode (strip_query init)) = Ok entries) /\
  (forall entries, Forall entry_usv entries -> exists text,
    toString entries = Ok text /\ new_URLSearchParams text = Ok entries /\ decodeURLEncoded (TextEncoder.encode text) = Ok entries).
Proof.
  assert (Hagree : forall init, is_jsstr init -> exists entries, new_URLSearchParams init = Ok entries /\
    decodeURLEncoded (TextEncoder.encode (strip_query init)) = Ok entries /\ is_form (TextEncoder.encode (strip_query init)) entries).
  { intros init Hi. assert (Hq : is_jsstr (strip_query init)).
    { unfold strip_query. destruct (starts_with 63 init); [|done]. by destruct Hi. }
    destruct (query_is_form _ Hq) as (entries & Hnew & Hform). exists entries. split; [exact Hnew|].
    destruct (form_loop_spec (length (TextEncoder.encode (strip_query init))) (TextEncoder.encode (strip_query init)) [] []) as (f & Hf & Hrun);
      [by apply TextEncoder.encode_is_bytes|lia|]. cbn [app] in Hrun. split; [|done]. rewrite (is_form_unique _ _ _ Hform Hf). exact Hrun. }
  split; [intros init Hi; destruct (Hagree init Hi) as (entries & ? & ? & _); eauto|]. intros entries He. exists (query_text entries).
  split; [by apply toString_spec|]. pose proof (query_text_ascii entries He) as [Hu Henc]%usv_ascii.
  destruct (Hagree (query_text entries) (usv_units _ Hu)) as (f & Hnew & Hrun & Hform). rewrite (query_text_no_question _ He), Henc in *.
  rewrite (is_form_unique _ _ _ Hform (query_text_form entries He)) in *. done.
Qed.

(** A query with an ampersand, a plus sign and a lone surrogate. *)
Lemma search_params_wire_witness :
  let entries := [(u "a&b", u "1 + 1 = 2"); ([], [0x20ac])] in
  Forall entry_usv entries /\
  (exists text, toString entries = Ok text /\ new_URLSearchParams text = Ok entries /\ decodeURLEncoded (TextEncoder.encode text) = Ok entries) /\
  (exists e, new_URLSearchParams (u "?x=%C3%A9&&y=" ++ [0xd800]) = Ok e /\ decodeURLEncoded (TextEncoder.encode (u "x=%C3%A9&&y=" ++ [0xd800])) = Ok e).
Proof.
  intros entries. assert (He : Forall entry_usv entries).
  { repeat constructor; cbn [fst snd]; try (by apply usv_constant). exists [0x20ac]. by split; [by_computing|]. }
  split; [exact He|]. split; [exact (proj2 search_params_wire entries He)|].
  exact (proj1 search_params_wire (u "?x=%C3%A9&&y=" ++ [0xd800]) ltac:(by_computing)).
Defined.

(** [set] leaves one entry of the name, in the place of the first, and the others. *)
Lemma param_set_loop key val params : forall found,
  let '(kept, found') := set_loop key val params found in
  found' = found || existsb (fun item => str_eqb item.1 key) params /\
  filter (fun item => str_eqb item.1 key = false) kept = filter (fun item => str_eqb item.1 key = false) params.
Proof.
  induction params as [|item params IH]; intros found; cbn [set_loop existsb]; [by rewrite orb_false_r|].
  assert (Hk : str_eqb key key = true) by by apply bool_decide_eq_true.
  destruct (str_eqb item.1 key) eqn:E; cbn [negb orb].
  - specialize (IH true). destruct found; cbn [negb]; destruct (set_loop _ _ _ true) as [kept found']; destruct IH as (-> & H2); (split; [done|]).
    + rewrite (filter_cons_False _ item) by congruence. exact H2.
    + rewrite (filter_cons_False _ item) by congruence. rewrite filter_cons_False by (cbn; congruence). exact H2.
  - specialize (IH found). destruct (set_loop _ _ _ found) as [kept found']. destruct IH as (-> & H2). split; [done|].
    rewrite !filter_cons_True by done. f_equal. exact H2.
Qed.

(** [sort] orders the entries by name and keeps all of them. *)
Lemma compare_total : Total name_order.
Proof.
  intros a b. unfold name_order, compareEntriesByName. destruct (str_ltb a.1 b.1) eqn:E1; [left; lia|]. destruct (str_ltb b.1 a.1) eqn:E2; [right|left]; lia.
Qed.

Lemma sort_spec params : Sorted name_order (sort params) /\ sort params ≡ₚ params.
Proof. split; [apply Sorted_merge_sort, compare_total|apply merge_sort_Permutation]. Qed.
