(* ===== verification/Mime.v ===== *)
(** * MIME types and Content-Disposition ([forms/mime.ts])

    Both parsers in full, with the text behind the cursor in place of an index, and
    the serializer of MIME types, whose text the parser reads back. *)

From S2P Require Import Prelude Ascii FetchHeaders.
Local Open Scope Z_scope.

(** ** Texts and maps *)

(** [toLowerCase]: the Kelvin sign is the only other unit that becomes an ASCII
    letter; what becomes a unit outside ASCII is in no token, before and after. *)
Definition lower_unit (c : Z) : Z := if c =? 0x212a then 107 else lower_latin c.
Definition text_lower (value : jsstr) : jsstr := lower_unit <$> value.

(** The text before the first unit with a property, and the rest. *)
Fixpoint until (stop : Z -> bool) (s : jsstr) : jsstr * jsstr :=
  match s with
  | [] => ([], [])
  | c :: rest => if stop c then ([], s) else let '(before, after) := until stop rest in (c :: before, after)
  end.

Definition is_semicolon (c : Z) : bool := c =? 59.
Definition ends_name (c : Z) : bool := (c =? 59) || (c =? 61).

(** A [Map] of parameters, in the order of insertion. *)
Definition parameter_map : Type := list (jsstr * jsstr).
Definition map_has (name : jsstr) (parameters : parameter_map) : bool := existsb (fun p => str_eqb p.1 name) parameters.
Fixpoint map_get (name : jsstr) (parameters : parameter_map) : option jsstr :=
  match parameters with
  | [] => None
  | (n, value) :: rest => if str_eqb n name then Some value else map_get name rest
  end.
Definition set_first (name value : jsstr) (parameters : parameter_map) : parameter_map :=
  if map_has name parameters then parameters else parameters ++ [(name, value)].

(** ** MIME types *)

Record MIMEType := mk_mime { mime_type : jsstr; mime_subtype : jsstr; mime_essence : jsstr; mime_parameters : parameter_map }.

(** A character of a quoted value. *)
Definition escape_unit (c : Z) : jsstr := if (c =? 34) || (c =? 92) then [92; c] else [c].
Definition parameter_value_text (value : jsstr) : jsstr :=
  if isToken value then value else [34] ++ (value ≫= escape_unit) ++ [34].
Definition parameter_text (p : jsstr * jsstr) : jsstr := [59] ++ p.1 ++ [61] ++ parameter_value_text p.2.
Definition serializeMIMEType (m : MIMEType) : jsstr := mime_essence m ++ (mime_parameters m ≫= parameter_text).

Definition is_quoted_unit (code : Z) : bool := negb (negb (code =? 9) && ((code <? 32) || (code =? 127) || (255 <? code))).
Definition isHTTPQuotedString (value : jsstr) : bool := forallb is_quoted_unit value.

(** The loop over a quoted value, behind its opening quote. *)
Fixpoint mime_quoted (s : jsstr) (value : jsstr) : jsstr * jsstr :=
  match s with
  | [] => (value, [])
  | c :: rest =>
      if c =? 34 then (value, rest)
      else if c =? 92 then
        match rest with
        | [] => (value ++ [92], [])
        | d :: rest => mime_quoted rest (value ++ [d])
        end
      else mime_quoted rest (value ++ [c])
  end.

(** The value of a parameter, [None] when an unquoted one is empty, and the rest
    from the next semicolon. *)
Definition mime_value (s : jsstr) : option jsstr * jsstr :=
  if starts_with 34 s then let '(value, rest) := mime_quoted (tail s) [] in (Some value, (until is_semicolon rest).2)
  else
    let '(raw, rest) := until is_semicolon s in
    let value := trimTrailingHTTPWhitespace raw in
    (if len value =? 0 then None else Some value, rest).

Definition set_mime (name value : jsstr) (parameters : parameter_map) : parameter_map :=
  if isToken name && isHTTPQuotedString value && negb (map_has name parameters) then parameters ++ [(name, value)] else parameters.

(** The loop over the parameters, at a semicolon or the end. *)
Fixpoint mime_loop (fuel : nat) (s : jsstr) (parameters : parameter_map) : result parameter_map :=
  match s with
  | [] => Ok parameters
  | _ :: s =>
      match fuel with
      | O => Err OutOfFuel
      | S fuel =>
          let '(name, rest) := until ends_name (trim_start isHTTPWhitespace s) in
          match rest with
          | [] => Ok parameters
          | c :: value_text =>
              if c =? 59 then mime_loop fuel rest parameters
              else
                match value_text with
                | [] => Ok parameters
                | _ =>
                    let '(value, rest) := mime_value value_text in
                    mime_loop fuel rest (match value with Some value => set_mime (text_lower name) value parameters | None => parameters end)
                end
          end
      end
  end.

(** Every round consumes the semicolon. *)
Definition parseMIMEType (input : jsstr) : result (option MIMEType) :=
  let source := trimHTTPWhitespace input in
  let slash := js_indexOf source 47 0 in
  if slash <=? 0 then Ok None
  else
    let type := subarray source 0 slash in
    let '(raw, rest) := until is_semicolon (subarray source (slash + 1) (len source)) in
    let subtype := trimTrailingHTTPWhitespace raw in
    if negb (isToken type) || negb (isToken subtype) then Ok None
    else
      parameters ← mime_loop (length rest) rest [];
      let lowerType := text_lower type in
      let lowerSubtype := text_lower subtype in
      Ok (Some (mk_mime lowerType lowerSubtype (lowerType ++ [47] ++ lowerSubtype) parameters)).

(** ** Content-Disposition *)

Record ParameterizedValue := mk_parameterized { pv_value : jsstr; pv_parameters : parameter_map }.

(** A unit of a quoted value that is refused. *)
Definition bad_disposition_unit (c : Z) : bool := (c =? 13) || (c =? 10) || (c =? 0).

(** The loop over a quoted value, behind its opening quote, up to the closing one. *)
Fixpoint disposition_quoted (s : jsstr) (value : jsstr) : result (jsstr * jsstr) :=
  match s with
  | [] => Err (TypeError "Unclosed Content-Disposition parameter")
  | c :: rest =>
      if c =? 34 then Ok (value, rest)
      else if c =? 92 then
        match rest with
        | [] => Err (TypeError "Invalid quoted Content-Disposition parameter")
        | d :: rest =>
            if bad_disposition_unit d then Err (TypeError "Invalid Content-Disposition parameter byte")
            else disposition_quoted rest (value ++ [d])
        end
      else if bad_disposition_unit c then Err (TypeError "Invalid Content-Disposition parameter byte")
      else disposition_quoted rest (value ++ [c])
  end.

(** The value behind the equals sign and the white space after it. *)
Definition disposition_value (s : jsstr) : result (jsstr * jsstr) :=
  if starts_with 34 s then
    '(value, rest) ← disposition_quoted (tail s) [];
    let rest := trim_start isHTTPWhitespace rest in
    throw_if (match rest with [] => false | c :: _ => negb (c =? 59) end) (TypeError "Trailing Content-Disposition parameter characters") ;;
    Ok (value, rest)
  else
    let '(raw, rest) := until is_semicolon s in
    let value := trimHTTPWhitespace raw in
    throw_if (negb (isToken value)) (TypeError "Invalid unquoted Content-Disposition parameter") ;;
    Ok (value, rest).

(** The loop over the parameters, at a semicolon or the end. *)
Fixpoint disposition_loop (fuel : nat) (s : jsstr) (parameters : parameter_map) : result parameter_map :=
  match s with
  | [] => Ok parameters
  | _ :: s =>
      match fuel with
      | O => Err OutOfFuel
      | S fuel =>
          let '(raw, rest) := until ends_name (trim_start isHTTPWhitespace s) in
          let name := text_lower raw in
          throw_if (negb (isToken name) || negb (starts_with 61 rest)) (TypeError "Malformed Content-Disposition parameter") ;;
          '(value, rest) ← disposition_value (trim_start isHTTPWhitespace (tail rest));
          disposition_loop fuel rest (set_first name value parameters)
      end
  end.

Definition parseContentDisposition (input : jsstr) : result ParameterizedValue :=
  let '(before, rest) := until is_semicolon input in
  parameters ← disposition_loop (length rest) rest [];
  Ok (mk_parameterized (text_lower (trimHTTPWhitespace before)) parameters).

(** ** Specification *)

(** What the parser returns: tokens in lower case, distinct names and values that
    can be quoted. *)
Record mime_ok (m : MIMEType) : Prop := mk_mime_ok {
  mo_type : isToken (mime_type m) = true /\ text_lower (mime_type m) = mime_type m;
  mo_subtype : isToken (mime_subtype m) = true /\ text_lower (mime_subtype m) = mime_subtype m;
  mo_essence : mime_essence m = mime_type m ++ [47] ++ mime_subtype m;
  mo_names : Forall (fun p => isToken p.1 = true /\ text_lower p.1 = p.1) (mime_parameters m);
  mo_distinct : NoDup (mime_parameters m).*1;
  mo_values : Forall (fun p => isHTTPQuotedString p.2 = true) (mime_parameters m);
}.

(** A parameter that the loop sets as it is. *)
Definition parameter_ok (p : jsstr * jsstr) : Prop :=
  isToken p.1 = true /\ text_lower p.1 = p.1 /\ isHTTPQuotedString p.2 = true.

(** ** Texts *)

Lemma isToken_units t : isToken t = true <-> t <> [] /\ Forall (fun c => is_token_unit c = true) t.
Proof.
  unfold isToken. rewrite andb_true_iff, negb_true_iff, Z.eqb_neq, forallb_forall, Forall_forall. setoid_rewrite list_elem_of_In.
  assert (len t <> 0 <-> t <> []) by (destruct t; unfold len; cbn [length]; split; congruence || lia). tauto.
Qed.

Lemma until_app stop a b : Forall (fun c => stop c = false) a -> (forall c, head b = Some c -> stop c = true) -> until stop (a ++ b) = (a, b).
Proof.
  induction 1 as [|c a Hc _ IH]; intros Hb; cbn [app until]; [|by rewrite Hc, IH].
  destruct b as [|c b]; [done|]. cbn [until]. by rewrite (Hb c eq_refl).
Qed.

Lemma until_all stop a : Forall (fun c => stop c = false) a -> until stop a = (a, []).
Proof. intros Ha. rewrite <- (app_nil_r a) at 1. by apply until_app. Qed.

Lemma until_split stop s : let '(a, b) := until stop s in s = a ++ b /\ Forall (fun c => stop c = false) a /\ (forall c, head b = Some c -> stop c = true).
Proof.
  induction s as [|c s IH]; cbn [until]; [by split_and!|]. destruct (stop c) eqn:Hc.
  { split_and!; [done|constructor|]. by intros d [= <-]. }
  destruct (until stop s) as [a b]. destruct IH as (-> & Ha & Hb). split_and!; [done|by constructor|done].
Qed.

Lemma until_length stop s : (length (until stop s).2 <= length s)%nat.
Proof. pose proof (until_split stop s) as H. destruct (until stop s) as [a b]. destruct H as (-> & _). cbn. rewrite length_app. lia. Qed.

Lemma trim_start_length p s : (length (trim_start p s) <= length s)%nat.
Proof. induction s as [|c s IH]; cbn [trim_start]; [done|]. destruct (p c); cbn; lia. Qed.

Lemma trim_start_head p s : (forall c, head s = Some c -> p c = false) -> trim_start p s = s.
Proof. destruct s as [|c s]; [done|]. intros H. cbn. by rewrite (H c eq_refl). Qed.

Lemma trim_end_last p s : (forall c, last s = Some c -> p c = false) -> trim_end p s = s.
Proof. intros H. unfold trim_end. rewrite trim_start_head, reverse_involutive; [done|]. intros c. rewrite head_reverse. apply H. Qed.

Lemma trim_ends p s : (forall c, head s = Some c -> p c = false) -> (forall c, last s = Some c -> p c = false) -> trim p s = s.
Proof. intros Hh Hl. unfold trim. rewrite trim_start_head by done. by apply trim_end_last. Qed.

(** Units of tokens are no white space and no delimiter. *)
Lemma token_unit_plain c : is_token_unit c = true ->
  isHTTPWhitespace c = false /\ ends_name c = false /\ is_semicolon c = false /\ c <> 34 /\ c <> 47.
Proof.
  intros Hc. pose proof (token_unit_byte c Hc) as Hb.
  pose proof (byte_check (fun c => negb (is_token_unit c) ||
    (negb (isHTTPWhitespace c) && negb (ends_name c) && negb (is_semicolon c) && negb (c =? 34) && negb (c =? 47))) ltac:(by vm_compute) c Hb) as H.
  cbv beta in H. rewrite Hc in H. cbn [negb orb] in H. rewrite !andb_true_iff, !negb_true_iff, !Z.eqb_neq in H. tauto.
Qed.

Lemma Forall_token {t} (P : Z -> Prop) : isToken t = true -> (forall c, is_token_unit c = true -> P c) -> Forall P t.
Proof. intros [_ Ht]%isToken_units HP. eapply Forall_impl; [exact Ht|done]. Qed.

Lemma token_first {t} (P : Z -> Prop) c : isToken t = true -> (forall c, is_token_unit c = true -> P c) -> head t = Some c -> P c.
Proof. intros Ht HP Hc. pose proof (Forall_token P Ht HP) as H. destruct t as [|d t]; [done|]. injection Hc as <-. by inversion H. Qed.

Lemma token_last {t} (P : Z -> Prop) c : isToken t = true -> (forall c, is_token_unit c = true -> P c) -> last t = Some c -> P c.
Proof. intros Ht HP Hc. pose proof (Forall_token P Ht HP) as H. eapply Forall_forall; [exact H|]. by apply last_Some_elem_of. Qed.

(** ** The parameters of a MIME type *)

Lemma quoted_units value : forall acc rest, mime_quoted ((value ≫= escape_unit) ++ 34 :: rest) acc = (acc ++ value, rest).
Proof.
  induction value as [|c value IH]; intros acc rest; [by rewrite app_nil_r|].
  cbn [mbind list_bind]. change (list_bind _ _ escape_unit value) with (value ≫= escape_unit). rewrite <- app_assoc. unfold escape_unit at 1.
  destruct ((c =? 34) || (c =? 92)) eqn:Hc; cbn [app mime_quoted].
  - rewrite IH. by rewrite <- app_assoc.
  - apply orb_false_iff in Hc as [-> ->]. rewrite IH. by rewrite <- app_assoc.
Qed.

(** The rest of a list of parameters is empty or starts at a semicolon. *)
Lemma parameters_head ps c : head (ps ≫= parameter_text) = Some c -> c = 59.
Proof. destruct ps as [|p ps]; [done|]. by intros [= <-]. Qed.

Lemma mime_value_text value ps : isHTTPQuotedString value = true ->
  mime_value (parameter_value_text value ++ (ps ≫= parameter_text)) = (Some value, ps ≫= parameter_text).
Proof.
  intros Hq. assert (Hps : forall c, head (ps ≫= parameter_text) = Some c -> is_semicolon c = true) by (intros c ->%parameters_head; done).
  unfold parameter_value_text. destruct (isToken value) eqn:Ht.
  - unfold mime_value. destruct value as [|c value']; [done|]. set (value := c :: value') in *.
    assert (Hc : c <> 34) by (apply (token_first (fun c => c <> 34) c Ht); [intros d Hd; apply (token_unit_plain d Hd)|done]).
    assert (Hu : until is_semicolon (value ++ (ps ≫= parameter_text)) = (value, ps ≫= parameter_text)).
    { apply until_app; [|done]. apply (Forall_token _ Ht). intros d Hd. apply (token_unit_plain d Hd). }
    assert (Htrim : trimTrailingHTTPWhitespace value = value).
    { apply trim_end_last. intros d Hd. apply (token_last (fun c => isHTTPWhitespace c = false) d Ht); [|done]. intros e He. apply (token_unit_plain e He). }
    assert (Hs : starts_with 34 (value ++ ps ≫= parameter_text) = false) by (apply bool_decide_eq_false; by intros [= ->]).
    by rewrite Hs, Hu, Htrim.
  - unfold mime_value. cbn [app]. rewrite <- app_assoc. change (starts_with 34 _) with true. cbn [app tail]. rewrite quoted_units. cbn [app]. f_equal.
    destruct (ps ≫= parameter_text) as [|c s] eqn:E; [done|]. cbn [until]. by rewrite (Hps c eq_refl).
Qed.

Lemma mime_name name rest : isToken name = true ->
  until ends_name (trim_start isHTTPWhitespace (name ++ 61 :: rest)) = (name, 61 :: rest).
Proof.
  intros Ht. rewrite trim_start_head.
  - apply until_app; [|by intros c [= <-]]. apply (Forall_token _ Ht). intros c Hc. apply (token_unit_plain c Hc).
  - intros c Hc. apply (token_first (fun c => isHTTPWhitespace c = false) c Ht); [intros d Hd; apply (token_unit_plain d Hd)|].
    destruct name; [done|exact Hc].
Qed.

Lemma map_has_in name ps : map_has name ps = true <-> name ∈ ps.*1.
Proof.
  unfold map_has. rewrite existsb_exists. setoid_rewrite <- list_elem_of_In. rewrite list_elem_of_fmap. split.
  - intros (p & Hp & ->%str_eqb_true%eq_sym). by exists p.
  - intros (p & -> & Hp). exists p. split; [done|]. unfold str_eqb. by apply bool_decide_eq_true.
Qed.

Lemma map_has_not name ps : name ∉ ps.*1 -> map_has name ps = false.
Proof. intros Hn. apply not_true_iff_false. by rewrite map_has_in. Qed.

Lemma mime_step fuel p ps acc : parameter_ok p -> p.1 ∉ acc.*1 ->
  mime_loop (S fuel) (parameter_text p ++ (ps ≫= parameter_text)) acc = mime_loop fuel (ps ≫= parameter_text) (acc ++ [p]).
Proof.
  intros (Ht & Hl & Hq) Hn. destruct p as [name value]. cbn [fst snd] in *. unfold parameter_text at 1. cbn [fst snd app].
  rewrite <- !app_assoc. cbn [app mime_loop]. rewrite (mime_name _ _ Ht). cbn [Z.eqb Pos.eqb].
  rewrite (mime_value_text _ _ Hq). destruct (parameter_value_text value ++ _) as [|c s] eqn:E.
  { exfalso. apply app_eq_nil in E as [E _]. unfold parameter_value_text in E. destruct (isToken value) eqn:Hv; [|done]. by subst value. }
  unfold set_mime. by rewrite Hl, Ht, Hq, map_has_not.
Qed.

Lemma mime_loop_text ps : forall fuel acc, (length ps <= fuel)%nat -> Forall parameter_ok ps -> NoDup (acc ++ ps).*1 ->
  mime_loop fuel (ps ≫= parameter_text) acc = Ok (acc ++ ps).
Proof.
  induction ps as [|p ps IH]; intros fuel acc Hf Hok Hnd; [rewrite app_nil_r; by destruct fuel|].
  destruct fuel as [|fuel]; [cbn in Hf; lia|]. inversion_clear Hok as [|? ? Hp Hps]. cbn [length] in Hf.
  change ((p :: ps) ≫= parameter_text) with (parameter_text p ++ (ps ≫= parameter_text)). rewrite mime_step.
  - rewrite IH, <- app_assoc; [done|lia|done|]. by rewrite <- app_assoc.
  - done.
  - rewrite fmap_app in Hnd. apply NoDup_app in Hnd as (_ & Hnd & _). intros Hin. apply (Hnd _ Hin). by left.
Qed.

Lemma parameters_length ps : (length ps <= length (ps ≫= parameter_text))%nat.
Proof. induction ps as [|p ps IH]; [done|]. cbn. rewrite length_app. lia. Qed.

(** The loop keeps its parameters well formed, and ends. *)
Lemma set_mime_ok name value ps : Forall parameter_ok ps /\ NoDup ps.*1 -> text_lower name = name ->
  Forall parameter_ok (set_mime name value ps) /\ NoDup (set_mime name value ps).*1.
Proof.
  intros [Hok Hnd] Hl. unfold set_mime. destruct (isToken name) eqn:Ht; [|done]. destruct (isHTTPQuotedString value) eqn:Hq; [|done].
  destruct (map_has name ps) eqn:Hm; [done|]. cbn [andb negb]. split.
  - apply Forall_app. split; [done|]. by apply Forall_singleton.
  - rewrite fmap_app. apply NoDup_app. split_and!; [done| |apply NoDup_singleton]. intros x Hx ->%list_elem_of_singleton.
    cbn in Hx. apply map_has_in in Hx. congruence.
Qed.

Lemma text_lower_twice l : text_lower (text_lower l) = text_lower l.
Proof.
  unfold text_lower. rewrite <- list_fmap_compose. apply list_fmap_ext. intros _ c _. unfold compose, lower_unit, lower_latin, in_range.
  repeat case_match; lia.
Qed.

Lemma mime_quoted_length n : forall s acc, (length s <= n)%nat -> (length (mime_quoted s acc).2 <= length s)%nat.
Proof.
  induction n as [|n IH]; intros s acc Hn; (destruct s as [|c s]; [done|]); cbn [length] in Hn; [lia|]. cbn [mime_quoted].
  destruct (c =? 34); [cbn; lia|]. destruct (c =? 92); [|cbn [length]; specialize (IH s (acc ++ [c])); lia].
  destruct s as [|d s]; [cbn; lia|]. cbn [length] in *. specialize (IH s (acc ++ [d])). lia.
Qed.

Lemma mime_value_length s : (length (mime_value s).2 <= length s)%nat.
Proof.
  pose proof (until_length is_semicolon s) as Hu. unfold mime_value. destruct (starts_with 34 s).
  - pose proof (mime_quoted_length (length (tail s)) (tail s) []) as Hq. destruct (mime_quoted (tail s) []) as [value rest]. cbn [snd] in *.
    pose proof (until_length is_semicolon rest). destruct s; cbn [tail length] in *; lia.
  - by destruct (until is_semicolon s).
Qed.

Lemma mime_loop_ok fuel : forall s ps, (length s <= fuel)%nat -> Forall parameter_ok ps /\ NoDup ps.*1 ->
  exists ps', mime_loop fuel s ps = Ok ps' /\ Forall parameter_ok ps' /\ NoDup ps'.*1.
Proof.
  induction fuel as [|fuel IH]; intros s ps Hf Hok; (destruct s as [|c s]; [by exists ps|]); cbn [length] in Hf; [lia|]. cbn [mime_loop].
  pose proof (until_length ends_name (trim_start isHTTPWhitespace s)) as Hu. pose proof (trim_start_length isHTTPWhitespace s) as Ht.
  destruct (until ends_name _) as [name [|d rest]]; [by exists ps|]. cbn [snd length] in Hu.
  destruct (d =? 59); [apply IH; [cbn [length]; lia|done]|]. destruct rest as [|e rest]; [by exists ps|].
  pose proof (mime_value_length (e :: rest)) as Hv. destruct (mime_value (e :: rest)) as [value rest']. cbn [snd length] in *.
  apply IH; [lia|]. destruct value as [value|]; [|done]. apply set_mime_ok; [done|apply text_lower_twice].
Qed.

(** ** The theorem *)

Lemma token_text_lower t : isToken t = true -> isToken (text_lower t) = true /\ text_lower (text_lower t) = text_lower t.
Proof.
  intros Ht. split; [|apply text_lower_twice]. apply isToken_units in Ht as [Hne Ht]. apply isToken_units. split; [by destruct t|].
  apply Forall_fmap. eapply Forall_impl; [exact Ht|]. intros c Hc. unfold compose, lower_unit. destruct (Z.eqb_spec c 0x212a) as [->|_]; [done|].
  apply (token_unit_lower c Hc).
Qed.

Lemma parameters_ok m : mime_ok m -> Forall parameter_ok (mime_parameters m) /\ NoDup (mime_parameters m).*1.
Proof.
  intros []. split; [|done]. apply Forall_forall. intros p Hp. rewrite Forall_forall in mo_names0, mo_values0.
  destruct (mo_names0 p Hp). split_and!; [done..|by apply mo_values0].
Qed.

(** The serialized text has no white space at its ends. *)
Lemma parameter_text_last p c : parameter_ok p -> last (parameter_text p) = Some c -> isHTTPWhitespace c = false.
Proof.
  intros (Ht & _ & _). unfold parameter_text, parameter_value_text. destruct (isToken p.2) eqn:Hv.
  - rewrite !last_app. destruct (last p.2) as [d|] eqn:E; [|apply last_None in E; by rewrite E in Hv]. intros [= ->].
    apply (token_last (fun c => isHTTPWhitespace c = false) c Hv); [intros e He; apply (token_unit_plain e He)|done].
  - rewrite !last_app. by intros [= <-].
Qed.

Lemma serialized_last m c : mime_ok m -> last (serializeMIMEType m) = Some c -> isHTTPWhitespace c = false.
Proof.
  intros Hm. destruct (parameters_ok m Hm) as [Hps _]. unfold serializeMIMEType. rewrite last_app.
  destruct (mime_parameters m) as [|p ps _] using rev_ind; cbn [mbind list_bind last].
  - rewrite (mo_essence m Hm), last_app. destruct (mo_subtype m Hm) as [Hs _]. destruct (last (mime_subtype m)) as [d|] eqn:E.
    + rewrite last_app, E. intros [= ->]. apply (token_last (fun c => isHTTPWhitespace c = false) c Hs); [intros e He; apply (token_unit_plain e He)|done].
    + apply last_None in E. by rewrite E in Hs.
  - rewrite bind_app, bind_singleton, last_app. apply Forall_app in Hps as [_ Hp]. apply Forall_cons in Hp as [Hp _].
    destruct (last (parameter_text p)) as [d|] eqn:E; [intros [= ->]; exact (parameter_text_last _ _ Hp E)|].
    apply last_None in E. by destruct p.
Qed.

Lemma parse_serialized m : mime_ok m -> parseMIMEType (serializeMIMEType m) = Ok (Some m).
Proof.
  intros Hm. pose proof (parameters_ok m Hm) as [Hps Hnd]. pose proof (mo_type m Hm) as [Ht Htl]. pose proof (mo_subtype m Hm) as [Hs Hsl].
  assert (Htrim : trimHTTPWhitespace (serializeMIMEType m) = serializeMIMEType m).
  { apply trim_ends; [|intros c; by apply serialized_last]. intros c Hc. apply (token_first (fun c => isHTTPWhitespace c = false) c Ht).
    { intros d Hd. apply (token_unit_plain d Hd). }
    unfold serializeMIMEType in Hc. rewrite (mo_essence m Hm) in Hc. by destruct (mime_type m). }
  assert (Htext : serializeMIMEType m = mime_type m ++ 47 :: mime_subtype m ++ (mime_parameters m ≫= parameter_text)).
  { unfold serializeMIMEType. rewrite (mo_essence m Hm). by rewrite <- !app_assoc. }
  assert (Hslash : js_indexOf (serializeMIMEType m) 47 0 = len (mime_type m)).
  { rewrite Htext. unfold js_indexOf. change (Z.to_nat 0) with 0%nat. rewrite drop_0, index_of_from_app; [lia|lia|].
    apply (Forall_token (fun c => c <> 47)) in Ht; [|intros c Hc; apply (token_unit_plain c Hc)]. intros Hin. by eapply Forall_forall in Hin; [|exact Ht]. }
  assert (Hpos : len (mime_type m) <> 0) by (apply isToken_units in Ht as [Hne _]; destruct (mime_type m); unfold len; cbn [length]; congruence || lia).
  unfold parseMIMEType. rewrite Htrim, Hslash. destruct (Z.leb_spec (len (mime_type m)) 0) as [Hle|_]; [unfold len in *; lia|].
  replace (subarray (serializeMIMEType m) 0 (len (mime_type m))) with (mime_type m).
  2: { rewrite Htext. unfold subarray, len. rewrite Z.sub_0_r, Nat2Z.id. change (Z.to_nat 0) with 0%nat. by rewrite drop_0, take_app_length. }
  replace (subarray (serializeMIMEType m) (len (mime_type m) + 1) (len (serializeMIMEType m))) with (mime_subtype m ++ (mime_parameters m ≫= parameter_text)).
  2: { rewrite Htext. unfold subarray, len. rewrite !length_app. cbn [length].
    rewrite take_ge; [|rewrite length_drop, length_app; cbn [length]; lia].
    replace (Z.to_nat (Z.of_nat (length (mime_type m)) + 1)) with (length (mime_type m) + 1)%nat by lia. rewrite drop_app_add. done. }
  rewrite until_app.
  - replace (trimTrailingHTTPWhitespace (mime_subtype m)) with (mime_subtype m).
    2: { symmetry. apply trim_end_last. intros c Hc. apply (token_last (fun c => isHTTPWhitespace c = false) c Hs); [intros d Hd; apply (token_unit_plain d Hd)|done]. }
    rewrite Ht, Hs. cbn [negb orb]. rewrite (mime_loop_text _ _ []); [|apply parameters_length|done|done]. cbn [mbind result_bind app].
    rewrite Htl, Hsl. f_equal. f_equal. destruct m. cbn in *. f_equal. symmetry. apply (mo_essence _ Hm).
  - apply (Forall_token _ Hs). intros c Hc. apply (token_unit_plain c Hc).
  - by intros c ->%parameters_head.
Qed.

Lemma parse_ok input : exists r, parseMIMEType input = Ok r /\ forall m, r = Some m -> mime_ok m.
Proof.
  unfold parseMIMEType. destruct (_ <=? 0); [by exists None|]. destruct (until _ _) as [raw rest].
  destruct (isToken (subarray _ _ _)) eqn:Ht; [|by exists None]. destruct (isToken (trimTrailingHTTPWhitespace raw)) eqn:Hs; [|by exists None].
  cbn [negb orb]. destruct (mime_loop_ok (length rest) rest []) as (ps & -> & Hok & Hnd); [lia|split; constructor|].
  cbn [mbind result_bind]. eexists. split; [done|]. intros m [= <-]. apply token_text_lower in Ht, Hs. split; cbn; try done.
  - eapply Forall_impl; [exact Hok|]. by intros p (? & ? & ?).
  - eapply Forall_impl; [exact Hok|]. by intros p (? & ? & ?).
Qed.

(** C24: Every text is parsed or refused, and what is parsed is a MIME type: tokens in
    lower case, parameters with distinct names and values that can be quoted.  The
    serializer writes every MIME type as a text that is parsed to it again. *)
Theorem mime_type_roundtrip :
  (forall input, exists r, parseMIMEType input = Ok r /\ forall m, r = Some m -> mime_ok m) /\
  (forall m, mime_ok m -> parseMIMEType (serializeMIMEType m) = Ok (Some m)).
Proof. split; [apply parse_ok|apply parse_serialized]. Qed.

Lemma mime_type_roundtrip_witness :
  let m := mk_mime (u "text") (u "html") (u "text/html") [(u "charset", u "utf-8"); (u "title", [97; 34; 32; 92])] in
  mime_ok m /\ parseMIMEType (serializeMIMEType m) = Ok (Some m).
Proof.
  intros m. assert (Hm : mime_ok m) by (split; by_computing). split; [exact Hm|]. exact (proj2 mime_type_roundtrip m Hm).
Defined.
