(* ===== verification/Kmp.v ===== *)
(** * Searching bytes ([BytePattern] of [forms/multipart-decode.ts])

    The Knuth-Morris-Pratt search of the multipart decoder, with the table that its
    constructor builds; [find_first_occurrence] is its correctness. *)

From stdpp Require Import list.
From S2P Require Import Prelude.

(** Indices of arrays are natural numbers. *)
Record BytePattern := mk_pattern { needle : list Z; prefix : list nat }.

(** [while (matched > 0 && byte !== needle[matched]) matched = prefix[matched - 1] ?? 0] *)
Fixpoint fall_back (fuel : nat) (needle : list Z) (prefix : list nat) (byte : Z) (matched : nat) : nat :=
  match fuel with
  | O => matched
  | S fuel =>
      if (0 <? matched)%nat && negb (bool_decide (needle !! matched = Some byte))
      then fall_back fuel needle prefix byte (default 0%nat (prefix !! (matched - 1)%nat))
      else matched
  end.

(** The loop, and the increment behind it.  The length that is matched becomes
    shorter in every round. *)
Definition advance (needle : list Z) (prefix : list nat) (byte : Z) (matched : nat) : nat :=
  let matched := fall_back matched needle prefix byte matched in
  if bool_decide (needle !! matched = Some byte) then S matched else matched.

(** The loop of the constructor over the rest of the needle, at index [i]. *)
Fixpoint build_loop (needle : list Z) (rest : list Z) (i : nat) (matched : nat) (prefix : list nat) : list nat :=
  match rest with
  | [] => prefix
  | byte :: rest =>
      let matched := advance needle prefix byte matched in
      build_loop needle rest (S i) matched (<[i := matched]> prefix)
  end.

Definition new_pattern (needle : list Z) : BytePattern :=
  mk_pattern needle (build_loop needle (tail needle) 1 0 (replicate (length needle) 0%nat)).

(** The loop of [find], at index [i]; [None] is [-1]. *)
Fixpoint find_loop (p : BytePattern) (rest : list Z) (i : nat) (matched : nat) : option nat :=
  match rest with
  | [] => None
  | byte :: rest =>
      let matched := advance (needle p) (prefix p) byte matched in
      if (matched =? length (needle p))%nat then Some (S i - matched)%nat else find_loop p rest (S i) matched
  end.
Definition find (p : BytePattern) (bytes : list Z) (from : nat) : option nat := find_loop p (drop from bytes) from 0.

(** ** Specification *)

(** The needle occurs in the text at an index. *)
Definition occurs (x text : list Z) (i : nat) : Prop := x `prefix_of` drop i text.

Section Search.
Context (x : list Z).

(** The first [k] bytes of the needle end the text. *)
Definition matches (k : nat) (text : list Z) : Prop := (k <= length x)%nat /\ take k x `suffix_of` text.

(** The longest such start. *)
Definition longest (k : nat) (text : list Z) : Prop := matches k text /\ forall j, matches j text -> (j <= k)%nat.

(** The table up to an index: the longest proper border of each start. *)
Definition table_ok (prefix : list nat) (n : nat) : Prop :=
  forall k, (1 <= k <= n)%nat -> exists j, prefix !! (k - 1)%nat = Some j /\ longest j (tail (take k x)).

(** ** Borders *)

Lemma tail_length {A} (l : list A) : length (tail l) = (length l - 1)%nat.
Proof. destruct l; cbn; lia. Qed.

Lemma suffix_shorter (a b text : list Z) : a `suffix_of` text -> b `suffix_of` text -> (length a <= length b)%nat -> a `suffix_of` b.
Proof.
  intros [k1 ->] [k2 H] Hl. exists (drop (length k2) k1).
  assert (Hk : (length k2 <= length k1)%nat) by (apply (f_equal length) in H; rewrite !length_app in H; lia).
  apply (f_equal (drop (length k2))) in H. rewrite drop_app_le in H by done. by rewrite H, drop_app_length.
Qed.

Lemma take_snoc k (b : Z) : x !! k = Some b -> take (S k) x = take k x ++ [b].
Proof. apply take_S_r. Qed.

Lemma matches_snoc k text b : matches (S k) (text ++ [b]) <-> matches k text /\ x !! k = Some b.
Proof.
  split.
  - intros [Hk Hs]. destruct (lookup_lt_is_Some_2 x k) as [c Hc]; [lia|]. rewrite (take_snoc _ _ Hc) in Hs.
    apply suffix_snoc_inv_1 in Hs as Hcb. apply suffix_snoc_inv_2 in Hs. subst c. split; [|done]. split; [lia|done].
  - intros [[Hk Hs] Hb]. apply lookup_lt_Some in Hb as Hlt. split; [lia|]. rewrite (take_snoc _ _ Hb). by apply suffix_app.
Qed.

Lemma matches_zero text : matches 0 text.
Proof. split; [lia|]. rewrite take_0. apply suffix_nil. Qed.

(** What is matched at the end of a text is matched at the end of a longer match. *)
Lemma matches_inner j k text : matches j text -> matches k text -> (j < k)%nat -> matches j (tail (take k x)).
Proof.
  intros [Hj Hsj] [Hk Hsk] Hlt. split; [done|]. apply (suffix_shorter _ _ text); [done| |].
  - etrans; [|exact Hsk]. destruct (take k x); [done|]. by exists [z].
  - rewrite length_take. destruct (take k x) eqn:E; [|apply (f_equal length) in E; rewrite length_take in E; cbn in *; lia].
    apply (f_equal length) in E. rewrite length_take in E. cbn in *. lia.
Qed.

Lemma matches_outer j k text : matches k text -> matches j (tail (take k x)) -> matches j text.
Proof.
  intros [Hk Hsk] [Hj Hsj]. split; [done|]. etrans; [exact Hsj|]. etrans; [|exact Hsk]. destruct (take k x); [done|]. by exists [z].
Qed.

(** ** The steps *)

Lemma table_less prefix n m : table_ok prefix n -> (m <= n)%nat -> table_ok prefix m.
Proof. intros Ht Hm k Hk. apply Ht. lia. Qed.

Lemma fall_back_spec prefix b text fuel : forall m, (m <= fuel)%nat -> table_ok prefix m -> matches m text ->
  (forall j, matches j text -> x !! j = Some b -> (j <= m)%nat) ->
  let r := fall_back fuel x prefix b m in
  matches r text /\ (r = 0%nat \/ x !! r = Some b) /\ forall j, matches j text -> x !! j = Some b -> (j <= r)%nat.
Proof.
  induction fuel as [|fuel IH]; intros m Hf Ht Hm Hmax; cbn [fall_back]; [replace m with 0%nat in * by lia; auto|].
  destruct (Nat.ltb_spec 0 m) as [Hpos|]; [|replace m with 0%nat in * by lia; auto]. case_bool_decide as Hb; [auto|]. cbn [andb negb].
  destruct (Ht m) as (j & Hj & Hjm & Hjmax); [lia|]. rewrite Hj. change (default 0%nat (Some j)) with j.
  assert (Hlt : (j < m)%nat).
  { destruct Hjm as [_ Hs]. apply suffix_length in Hs. rewrite tail_length, !length_take in Hs. destruct Hm as [Hm _].
    destruct (le_lt_dec m j) as [Hmj|]; [|done]. destruct (le_lt_dec (length x) j); lia. }
  apply IH; [lia|by eapply table_less; [exact Ht|lia]|by eapply matches_outer|].
  intros k Hk Hkb. apply Hjmax. apply (matches_inner _ _ text); [done..|].
  pose proof (Hmax k Hk Hkb). destruct (decide (k = m)) as [->|]; [congruence|lia].
Qed.

Lemma advance_spec prefix b text m : table_ok prefix m -> longest m text -> longest (advance x prefix b m) (text ++ [b]).
Proof.
  intros Ht [Hm Hmax]. unfold advance. destruct (fall_back_spec prefix b text m m) as (Hr & H0 & Hrmax); [lia|done|done|auto|].
  set (r := fall_back m x prefix b m) in *. case_bool_decide as Hb.
  - split; [by apply matches_snoc|]. intros [|j]; [lia|]. intros [Hj Hjb]%matches_snoc. apply le_n_S. by apply Hrmax.
  - destruct H0 as [->|]; [|done]. split; [apply matches_zero|]. intros [|j]; [lia|]. intros [Hj Hjb]%matches_snoc.
    pose proof (Hrmax j Hj Hjb). replace j with 0%nat in * by lia. done.
Qed.

(** ** The table *)

Lemma tail_take_S i b : x !! S i = Some b -> tail (take (S (S i)) x) = tail (take (S i) x) ++ [b].
Proof. intros Hb. rewrite (take_snoc _ _ Hb). destruct x; [done|]. done. Qed.

Lemma longest_length m text : longest m text -> (m <= length text)%nat.
Proof. intros [[Hm Hs] _]. apply suffix_length in Hs. rewrite length_take in Hs. lia. Qed.

Lemma build_loop_spec rest : forall i m prefix, rest = drop (S i) x -> longest m (tail (take (S i) x)) -> table_ok prefix (S i) ->
  length prefix = length x -> (S i <= length x)%nat -> table_ok (build_loop x rest (S i) m prefix) (length x).
Proof.
  induction rest as [|b rest IH]; intros i m prefix Hrest Hm Ht Hl Hi; cbn [build_loop].
  { apply (f_equal length) in Hrest. rewrite length_drop in Hrest. cbn in Hrest. eapply table_less; [exact Ht|lia]. }
  assert (Hb : x !! S i = Some b) by (rewrite <- (Nat.add_0_r (S i)), <- lookup_drop, <- Hrest; done).
  assert (Hlen : (m <= i)%nat) by (apply longest_length in Hm; rewrite tail_length, length_take in Hm; lia).
  pose proof (advance_spec prefix b _ _ (table_less _ _ m Ht ltac:(lia)) Hm) as Hadv. rewrite <- tail_take_S in Hadv by done.
  apply lookup_lt_Some in Hb as Hlt. apply IH; [|exact Hadv| |by rewrite length_insert|lia].
  - replace (drop (S (S i)) x) with (drop 1 (drop (S i) x)) by (rewrite drop_drop; f_equal; lia). by rewrite <- Hrest.
  - intros k Hk. destruct (decide (k = S (S i))) as [->|Hne].
    + exists (advance x prefix b m). replace (S (S i) - 1)%nat with (S i) by lia. rewrite list_lookup_insert_eq by lia. done.
    + destruct (Ht k) as (j & Hj & Hjl); [lia|]. exists j. rewrite list_lookup_insert_ne by lia. done.
Qed.

Lemma new_pattern_ok : x <> [] -> table_ok (prefix (new_pattern x)) (length x).
Proof.
  intros Hne. unfold new_pattern. cbn [prefix]. assert (Hl : (1 <= length x)%nat) by (destruct x; [done|cbn; lia]).
  apply (build_loop_spec (tail x) 0 0); [by destruct x| | |by rewrite length_replicate|done].
  - assert (Hnil : tail (take 1 x) = []) by by destruct x. rewrite Hnil. split; [apply matches_zero|]. intros j [Hj Hs]. apply suffix_length in Hs. rewrite length_take in Hs. cbn in Hs. lia.
  - intros k Hk. replace k with 1%nat by lia. exists 0%nat. split; [by destruct x|]. assert (Hnil : tail (take 1 x) = []) by by destruct x.
    rewrite Hnil. split; [apply matches_zero|]. intros j [Hj Hs]. apply suffix_length in Hs. rewrite length_take in Hs. cbn in Hs. lia.
Qed.

(** ** The search *)

Lemma occurs_matches text i : x <> [] -> occurs x text i <-> (i + length x <= length text)%nat /\ matches (length x) (take (i + length x) text).
Proof.
  intros Hne. unfold occurs, matches. rewrite firstn_all. split.
  - intros [k Hk]. assert (Hl : (i + length x <= length text)%nat).
    { assert (Hd : length (drop i text) = length (x ++ k)) by by rewrite Hk. rewrite length_drop, length_app in Hd. destruct x; [done|cbn in *; lia]. }
    split; [done|]. split; [lia|]. exists (take i text). rewrite <- (take_drop i text) at 1. rewrite Hk.
    rewrite take_app_ge by (rewrite length_take; lia). rewrite length_take.
    replace (i + length x - i `min` length text)%nat with (length x) by lia. by rewrite take_app_length.
  - intros [Hl [_ [k Hk]]]. exists (drop (i + length x) text). rewrite <- (take_drop (i + length x) text) at 1. rewrite Hk.
    assert (Hkl : length k = i) by (apply (f_equal length) in Hk; rewrite length_take, length_app in Hk; lia).
    rewrite <- app_assoc. by rewrite drop_app_length'.
Qed.

(** No occurrence ends within the text. *)
Definition not_yet (t rest : list Z) : Prop := forall i, occurs x (t ++ rest) i -> (length t < i + length x)%nat.

Lemma find_loop_spec rest : forall t from m, x <> [] -> longest m t -> (m < length x)%nat -> not_yet t rest ->
  match find_loop (new_pattern x) rest (from + length t) m with
  | Some r => exists i, r = (from + i)%nat /\ occurs x (t ++ rest) i /\ forall j, occurs x (t ++ rest) j -> (i <= j)%nat
  | None => forall j, ~ occurs x (t ++ rest) j
  end.
Proof.
  induction rest as [|b rest IH]; intros t from m Hne Hm Hlt Hno; cbn [find_loop].
  { intros j Hj. pose proof (Hno j Hj). rewrite app_nil_r in Hj. apply occurs_matches in Hj as [Hj _]; [lia|done]. }
  change (needle (new_pattern x)) with x.
  pose proof (advance_spec (prefix (new_pattern x)) b t m (table_less _ (length x) m (new_pattern_ok Hne) ltac:(lia)) Hm) as Hadv.
  set (m' := advance _ _ _ _) in *. assert (Hsplit : t ++ b :: rest = (t ++ [b]) ++ rest) by by rewrite <- app_assoc.
  assert (Hend : forall i, occurs x (t ++ b :: rest) i -> (i + length x)%nat = S (length t) -> m' = length x).
  { intros i [Hl Hi]%occurs_matches He; [|done]. rewrite He, Hsplit, take_app_length' in Hi by (rewrite length_app; cbn; lia).
    apply Hadv in Hi. destruct Hadv as [[Hle _] _]. lia. }
  destruct (Nat.eqb_spec m' (length x)) as [Heq|Heq].
  - destruct Hadv as [Hm' _]. rewrite Heq in Hm' |- *. assert (Hlen : (length x <= S (length t))%nat).
    { destruct Hm' as [_ Hs]. apply suffix_length in Hs. rewrite firstn_all, length_app in Hs. cbn in Hs. lia. }
    exists (S (length t) - length x)%nat. split_and!; [lia| |].
    + apply occurs_matches; [done|]. rewrite Nat.sub_add by done. split; [rewrite length_app; cbn; lia|].
      by rewrite Hsplit, take_app_length' by (rewrite length_app; cbn; lia).
    + intros j Hj. pose proof (Hno j Hj). lia.
  - rewrite Hsplit. replace (S (from + length t)) with (from + length (t ++ [b]))%nat by (rewrite length_app; cbn; lia).
    apply IH; [done|done| |].
    + destruct Hadv as [[Hle _] _]. lia.
    + intros i Hi. rewrite <- Hsplit in Hi. rewrite length_app. cbn. pose proof (Hno i Hi). destruct (decide ((i + length x)%nat = S (length t))) as [He|]; [|lia].
      by destruct Heq; apply (Hend i).
Qed.
End Search.

(** The search finds the first occurrence of the needle at or after an index, when
    there is one. *)
Lemma find_spec x bytes from : x <> [] ->
  match find (new_pattern x) bytes from with
  | Some r => (from <= r)%nat /\ occurs x bytes r /\ forall j, (from <= j)%nat -> occurs x bytes j -> (r <= j)%nat
  | None => forall j, (from <= j)%nat -> ~ occurs x bytes j
  end.
Proof.
  intros Hne. unfold find. pose proof (find_loop_spec x (drop from bytes) [] from 0 Hne) as H. cbn [length app] in H. rewrite Nat.add_0_r in H.
  assert (Hocc : forall j, occurs x (drop from bytes) j <-> occurs x bytes (from + j)) by (intros j; unfold occurs; by rewrite drop_drop).
  destruct (find_loop _ _ _ _) as [r|].
  - destruct H as (i & -> & Hi & Hmin).
    + split; [apply matches_zero|]. intros j [Hj Hs]. apply suffix_length in Hs. rewrite length_take in Hs. cbn in Hs. lia.
    + destruct x; [done|cbn; lia].
    + intros i _. destruct x; [done|cbn; lia].
    + split_and!; [lia|by apply Hocc|]. intros j Hj Hjo. replace j with (from + (j - from))%nat in * by lia. apply Hocc, Hmin in Hjo. lia.
  - intros j Hj Hjo. replace j with (from + (j - from))%nat in Hjo by lia. apply Hocc in Hjo. revert Hjo. apply H.
    + split; [apply matches_zero|]. intros k [Hk Hs]. apply suffix_length in Hs. rewrite length_take in Hs. cbn in Hs. lia.
    + destruct x; [done|cbn; lia].
    + intros i _. destruct x; [done|cbn; lia].
Qed.

(** C23: The search of the multipart decoder.  With the table that the constructor
    builds, the search returns the first occurrence of the needle at or after the
    index, and [None] when there is none. *)
Theorem find_first_occurrence (x bytes : list Z) (from : nat) :
  x <> [] ->
  match find (new_pattern x) bytes from with
  | Some r => (from <= r)%nat /\ occurs x bytes r /\ forall j, (from <= j)%nat -> occurs x bytes j -> (r <= j)%nat
  | None => forall j, (from <= j)%nat -> ~ occurs x bytes j
  end.
Proof. apply find_spec. Qed.

(** The needle 1 1 2 behind 1 1 1: the third 1 is compared twice. *)
Lemma find_first_occurrence_witness :
  find (new_pattern [1; 1; 2]%Z) [5; 1; 1; 1; 2; 1; 1; 2]%Z 1 = Some 2%nat /\
  forall j, (1 <= j)%nat -> occurs [1; 1; 2]%Z [5; 1; 1; 1; 2; 1; 1; 2]%Z j -> (2 <= j)%nat.
Proof.
  split; [by vm_compute|]. assert (H := find_first_occurrence [1; 1; 2]%Z [5; 1; 1; 1; 2; 1; 1; 2]%Z 1 ltac:(discriminate)).
  vm_compute find in H. apply H.
Defined.
