(* ===== verification/FormData.v ===== *)
(** * Form data with files ([forms/form-data.ts], [file/blob.ts])

    The list of a [FormData] and its operations, on values of their declared types. *)

From S2P Require Import Prelude WebIdl.
Local Open Scope Z_scope.

(** [mediaType] of [file/blob.ts] *)
Definition mediaType (input : jsstr) : jsstr :=
  if existsb (fun code => (code <? 0x20) || (0x7e <? code)) input then [] else to_lower input.

(** A [File]: its contents are bytes that do not change. *)
Record FormFile := mk_file { file_bytes : list Z; file_name : jsstr; file_type : jsstr }.
#[export] Instance FormFile_eq_dec : EqDecision FormFile.
Proof. solve_decision. Defined.
Definition new_file (bytes : list Z) (name type : jsstr) : FormFile := mk_file bytes (toUSVString name) (mediaType type).

Inductive FormDataEntryValue := TextValue (text : jsstr) | FileValue (file : FormFile).
#[export] Instance FormDataEntryValue_eq_dec : EqDecision FormDataEntryValue.
Proof. solve_decision. Defined.
Definition FormDataEntry : Type := jsstr * FormDataEntryValue.

(** [convertFormDataValue] of a string, and of a file without a name. *)
Definition convertFormDataValue (value : FormDataEntryValue) : FormDataEntryValue :=
  match value with TextValue text => TextValue (toUSVString text) | FileValue file => FileValue file end.

Definition append (entries : list FormDataEntry) (name : jsstr) (value : FormDataEntryValue) : list FormDataEntry :=
  entries ++ [(toUSVString name, convertFormDataValue value)].

(** The loop of [set]: the first entry of the name gets the value, the others go. *)
Fixpoint set_loop (key : jsstr) (converted : FormDataEntryValue) (entries : list FormDataEntry) (found : bool) : list FormDataEntry * bool :=
  match entries with
  | [] => ([], found)
  | item :: entries =>
      if negb (str_eqb item.1 key) then let '(rest, found) := set_loop key converted entries found in (item :: rest, found)
      else if negb found then let '(rest, found) := set_loop key converted entries true in ((item.1, converted) :: rest, found)
      else set_loop key converted entries found
  end.
Definition set (entries : list FormDataEntry) (name : jsstr) (value : FormDataEntryValue) : list FormDataEntry :=
  let key := toUSVString name in
  let converted := convertFormDataValue value in
  let '(kept, found) := set_loop key converted entries false in
  if found then kept else kept ++ [(key, converted)].

Fixpoint get_loop (key : jsstr) (entries : list FormDataEntry) : option FormDataEntryValue :=
  match entries with
  | [] => None
  | item :: entries => if str_eqb item.1 key then Some item.2 else get_loop key entries
  end.
Definition get (entries : list FormDataEntry) (name : jsstr) : option FormDataEntryValue := get_loop (toUSVString name) entries.
Definition getAll (entries : list FormDataEntry) (name : jsstr) : list FormDataEntryValue :=
  snd <$> filter (fun item => str_eqb item.1 (toUSVString name) = true) entries.
Definition has (entries : list FormDataEntry) (name : jsstr) : bool := existsb (fun item => str_eqb item.1 (toUSVString name)) entries.
Definition delete (entries : list FormDataEntry) (name : jsstr) : list FormDataEntry :=
  filter (fun item => str_eqb item.1 (toUSVString name) = false) entries.

(** ** Properties *)

Lemma str_eqb_refl_eq a b : str_eqb a b = true <-> a = b.
Proof. unfold str_eqb. apply bool_decide_eq_true. Qed.

Lemma form_set_loop key converted entries : forall found,
  let '(kept, found') := set_loop key converted entries found in
  found' = found || existsb (fun item => str_eqb item.1 key) entries /\
  filter (fun item => str_eqb item.1 key = true) kept = (if negb found && found' then [(key, converted)] else []) /\
  filter (fun item => str_eqb item.1 key = false) kept = filter (fun item => str_eqb item.1 key = false) entries.
Proof.
  induction entries as [|item entries IH]; intros found; cbn [set_loop existsb]; [by rewrite orb_false_r, andb_negb_l|].
  destruct (str_eqb item.1 key) eqn:E; cbn [negb orb].
  - pose proof E as ->%str_eqb_refl_eq. assert (Hk : str_eqb key key = true) by by apply str_eqb_refl_eq. destruct found; cbn [negb].
    + specialize (IH true). destruct (set_loop _ _ _ true) as [kept found']. destruct IH as (-> & H1 & H2). split_and!; [done|exact H1|].
      rewrite filter_cons_False by congruence. exact H2.
    + specialize (IH true). destruct (set_loop _ _ _ true) as [kept found']. destruct IH as (-> & H1 & H2). cbn [negb andb orb] in *. split_and!; [done| |].
      * rewrite filter_cons_True by done. f_equal. exact H1.
      * rewrite !filter_cons_False by (cbn; congruence). exact H2.
  - specialize (IH found). destruct (set_loop _ _ _ found) as [kept found']. destruct IH as (-> & H1 & H2). split_and!; [done| |].
    + rewrite filter_cons_False by congruence. exact H1.
    + rewrite !filter_cons_True by done. f_equal. exact H2.
Qed.

(** [set] leaves exactly one entry of the name, and every other entry in its place. *)
Lemma form_data_set entries name value :
  getAll (set entries name value) name = [convertFormDataValue value] /\ delete (set entries name value) name = delete entries name.
Proof.
  unfold set, getAll, delete. set (key := toUSVString name). set (converted := convertFormDataValue value).
  pose proof (form_set_loop key converted entries false) as H. destruct (set_loop key converted entries false) as [kept found].
  destruct H as (Hf & H1 & H2). cbn [negb andb orb] in *. destruct found.
  - by rewrite H1, H2.
  - assert (Hkey : str_eqb key key = true) by by apply str_eqb_refl_eq.
    assert (Hnew : filter (fun item : FormDataEntry => str_eqb item.1 key = true) [(key, converted)] = [(key, converted)]) by (unfold filter; cbn; by rewrite decide_True).
    assert (Hold : filter (fun item : FormDataEntry => str_eqb item.1 key = false) [(key, converted)] = []) by (unfold filter; cbn; rewrite decide_False by congruence; done).
    rewrite !filter_app. split; [|etrans; [apply (f_equal2 app); [exact H2|exact Hold]|by rewrite app_nil_r]].
    etrans; [apply (f_equal (fmap snd)), (f_equal2 app); [exact H1|exact Hnew]|done].
Qed.

(** [get] returns the first of the values that [getAll] returns, [has] says whether there is one. *)
Lemma form_data_get entries name : get entries name = head (getAll entries name) /\ has entries name = bool_decide (getAll entries name <> []).
Proof.
  unfold get, getAll, has. induction entries as [|item entries [IH1 IH2]]; [done|]. cbn [get_loop existsb].
  destruct (str_eqb item.1 (toUSVString name)) eqn:E.
  - rewrite filter_cons_True by done. done.
  - rewrite filter_cons_False by congruence. by rewrite IH1, IH2.
Qed.
