(* ===== verification/Multipart.v ===== *)
(** * Multipart form data ([forms/multipart.ts], [forms/multipart-decode.ts])

    The encoder of form data and the decoder, with the search of [Kmp] and the
    parsers of [Mime]. *)

From S2P Require Import Prelude Ascii Encoding FetchHeaders TextEncoder TextDecoder WebIdl Mime Kmp FormData.
Local Open Scope Z_scope.

(** ** Encoding *)

(** [input.replace(/\r\n|\r|\n/g, "\r\n")] *)
Fixpoint newlines (input : jsstr) : jsstr :=
  match input with
  | [] => []
  | c :: rest =>
      if c =? 13 then
        match rest with
        | d :: rest' => if d =? 10 then 13 :: 10 :: newlines rest' else 13 :: 10 :: newlines rest
        | [] => [13; 10]
        end
      else if c =? 10 then 13 :: 10 :: newlines rest
      else c :: newlines rest
  end.

Definition quoted_unit (c : Z) : jsstr :=
  if c =? 13 then u "%0D" else if c =? 10 then u "%0A" else if c =? 34 then u "%22" else [c].
Definition quoted (input : jsstr) : jsstr := newlines input ≫= quoted_unit.

Definition HEX_DIGITS : jsstr := u "0123456789abcdef".
Definition hex_pair (byte : Z) : jsstr := [at_or 0 HEX_DIGITS (byte .>>> 4); at_or 0 HEX_DIGITS (byte .& 15)].
Definition boundary_of (entropy : list Z) : jsstr := u "----nts-" ++ (entropy ≫= hex_pair).

Definition quote : jsstr := [34].
Definition crlf : jsstr := [13; 10].

(** The header of a part, up to the name. *)
Definition name_header (boundary name : jsstr) : jsstr :=
  u "--" ++ boundary ++ crlf ++ u "Content-Disposition: form-data; name=" ++ quote ++ quoted name ++ quote.

(** The parts of one entry: strings are encoded one by one. *)
Definition entry_bytes (boundary : jsstr) (entry : FormDataEntry) : list Z :=
  let '(name, value) := entry in
  match value with
  | TextValue text => TextEncoder.encode (name_header boundary name ++ crlf ++ crlf) ++ TextEncoder.encode (newlines text) ++ TextEncoder.encode crlf
  | FileValue file =>
      TextEncoder.encode (name_header boundary name ++ u "; filename=" ++ quote ++ quoted (file_name file) ++ quote ++ crlf ++ u "Content-Type: " ++
        (if bool_decide (file_type file = []) then u "application/octet-stream" else file_type file) ++ crlf ++ crlf) ++
      file_bytes file ++ TextEncoder.encode crlf
  end.

(** The bytes and the content type; [entropy] is what the random source fills. *)
Definition encodeMultipart (form : list FormDataEntry) (entropy : list Z) : list Z * jsstr :=
  let boundary := boundary_of entropy in
  ((form ≫= entry_bytes boundary) ++ TextEncoder.encode (u "--" ++ boundary ++ u "--" ++ crlf),
   u "multipart/form-data; boundary=" ++ boundary).

(** ** Decoding *)

Record MultipartDecodeLimits := mk_limits { l_maxParts : option Z; l_maxPartHeaderBytes : option Z }.

Definition hasPair (bytes : list Z) (position : nat) (a b : Z) : bool :=
  bool_decide (bytes !! position = Some a) && bool_decide (bytes !! S position = Some b).

Fixpoint padding_loop (rest : list Z) (position : nat) : nat :=
  match rest with
  | byte :: rest => if (byte =? 32) || (byte =? 9) then padding_loop rest (S position) else position
  | [] => position
  end.
Definition skipTransportPadding (bytes : list Z) (position : nat) : nat := padding_loop (drop position bytes) position.

Definition startsWith (bytes prefix : list Z) : bool := bool_decide (take (length prefix) bytes = prefix).

(** [/^[0-9A-Za-z'()+_,\-./:=? ]+$/] *)
Definition is_boundary_unit (c : Z) : bool :=
  in_range 48 57 c || in_range 65 90 c || in_range 97 122 c || bool_decide (c ∈ u "'()+_,-./:=? ").

Definition valid_boundary (mime : MIMEType) : result jsstr :=
  match map_get (u "boundary") (mime_parameters mime) with
  | Some boundary =>
      throw_if (negb (str_eqb (mime_essence mime) (u "multipart/form-data")) || (len boundary <? 1) || (70 <? len boundary) ||
        negb (forallb is_boundary_unit boundary) || ends_with 32 boundary) (TypeError "Invalid multipart boundary") ;;
      Ok boundary
  | None => Err (TypeError "Invalid multipart boundary")
  end.

(** [text.split("\r\n")] *)
Fixpoint split_crlf (text : jsstr) : list jsstr :=
  match text with
  | [] => [[]]
  | c :: rest =>
      match rest with
      | d :: rest' =>
          if (c =? 13) && (d =? 10) then [] :: split_crlf rest'
          else match split_crlf rest with line :: lines => (c :: line) :: lines | [] => [[c]] end
      | [] => [[c]]
      end
  end.

(** The headers of a part: the disposition and the type. *)
Record part_headers := mk_part { h_disposition : option jsstr; h_type : jsstr }.

Definition header_line (h : part_headers) (line : jsstr) : result part_headers :=
  let colon := js_indexOf line 58 0 in
  let name := text_lower (subarray line 0 colon) in
  let value := trimHTTPTabOrSpace (subarray line (colon + 1) (len line)) in
  throw_if ((colon <? 1) || negb (isToken name) || existsb bad_disposition_unit value) (TypeError "Malformed multipart part header") ;;
  if str_eqb name (u "content-disposition") then
    throw_if (bool_decide (h_disposition h <> None)) (TypeError "Duplicate Content-Disposition") ;;
    Ok (mk_part (Some value) (h_type h))
  else if str_eqb name (u "content-type") then Ok (mk_part (h_disposition h) value)
  else if str_eqb name (u "content-transfer-encoding") then
    let encoding := text_lower value in
    throw_if (negb (str_eqb encoding (u "binary")) && negb (str_eqb encoding (u "8bit"))) (TypeError "Encoded multipart parts are not supported") ;;
    Ok h
  else Ok h.

(** The name of a part, its file name and its type. *)
Definition part_disposition (header_bytes : list Z) : result (jsstr * option jsstr * jsstr) :=
  text ← decodeUTF8 header_bytes false false;
  h ← foldM header_line (mk_part None (u "text/plain")) (split_crlf text);
  match h_disposition h with
  | None => Err (TypeError "Missing multipart Content-Disposition")
  | Some disposition =>
      parameters ← parseContentDisposition disposition;
      match map_get (u "name") (pv_parameters parameters) with
      | Some name =>
          throw_if (negb (str_eqb (pv_value parameters) (u "form-data"))) (TypeError "Invalid multipart disposition") ;;
          Ok (name, map_get (u "filename") (pv_parameters parameters), h_type h)
      | None => Err (TypeError "Invalid multipart disposition")
      end
  end.

(** What follows a boundary: the end of the message, or a line break. *)
Definition ends_body (bytes : list Z) (suffix : nat) : bool :=
  let closing := hasPair bytes suffix 45 45 in
  let end_ := skipTransportPadding bytes (if closing then suffix + 2 else suffix)%nat in
  hasPair bytes end_ 13 10 || (closing && (end_ =? length bytes)%nat).

(** The loop that finds the boundary behind a body. *)
Fixpoint body_end (fuel : nat) (search : BytePattern) (bytes : list Z) (next : option nat) : result (option nat) :=
  match next with
  | None => Ok None
  | Some next =>
      if ends_body bytes (next + length (needle search)) then Ok (Some next)
      else
        match fuel with
        | O => Err OutOfFuel
        | S fuel => body_end fuel search bytes (find search bytes (next + length (needle search)))
        end
  end.

(** The loop over the parts, behind a boundary. *)
Fixpoint decode_parts (fuel : nat) (search : BytePattern) (maxParts maxPartHeaderBytes : Z) (bytes : list Z) (offset : nat) (parts : Z)
    (form : list FormDataEntry) : result (list FormDataEntry) :=
  if hasPair bytes offset 45 45 then
    let end_ := skipTransportPadding bytes (offset + 2) in
    throw_if (negb (end_ =? length bytes)%nat && negb (hasPair bytes end_ 13 10)) (TypeError "Malformed multipart closing boundary") ;;
    Ok form
  else
    match fuel with
    | O => Err OutOfFuel
    | S fuel =>
        let offset := skipTransportPadding bytes offset in
        throw_if (negb (hasPair bytes offset 13 10)) (TypeError "Malformed multipart boundary separator") ;;
        let offset := (offset + 2)%nat in
        let parts := parts + 1 in
        throw_if (maxParts <? parts) (LimitError "Too many multipart fields") ;;
        let end_ := find (new_pattern [13; 10; 13; 10]) bytes offset in
        throw_if (maxPartHeaderBytes <? Z.of_nat (default (length bytes) end_) - Z.of_nat offset) (LimitError "Multipart headers too large") ;;
        match end_ with
        | None => Err (TypeError "Missing multipart part headers")
        | Some end_ =>
            '(name, filename, type) ← part_disposition (take (end_ - offset) (drop offset bytes));
            let bodyStart := (end_ + 4)%nat in
            next ← body_end (length bytes) search bytes (find search bytes bodyStart);
            match next with
            | None => Err (TypeError "Missing multipart closing boundary")
            | Some next =>
                let data := take (next - bodyStart) (drop bodyStart bytes) in
                value ← (match filename with
                         | None => TextValue <$> decodeUTF8 data false false
                         | Some filename => Ok (FileValue (new_file data filename type))
                         end);
                decode_parts fuel search maxParts maxPartHeaderBytes bytes (next + length (needle search)) parts (append form name value)
            end
        end
    end.

Definition decodeMultipart (bytes : list Z) (mime : MIMEType) (limits : MultipartDecodeLimits) : result (list FormDataEntry) :=
  boundary ← valid_boundary mime;
  opening ← encodeByteString (u "--" ++ boundary);
  marker ← encodeByteString (crlf ++ u "--" ++ boundary);
  let search := new_pattern marker in
  offset ← (if startsWith bytes opening then Ok 0%nat
            else match find search bytes 0 with
                 | Some first => Ok (first + 2)%nat
                 | None => Err (TypeError "Missing multipart opening boundary")
                 end);
  decode_parts (length bytes) search (default 10000 (l_maxParts limits)) (default 16384 (l_maxPartHeaderBytes limits)) bytes
    (offset + length opening) 0 [].
