(* ===== verification/MultipartTheory.v ===== *)
(** * The round trip of multipart form data

    What [encodeMultipart] writes, [decodeMultipart] reads back: [read_back] says
    how the names and the values come back, [entry_ok] which entries do. *)

From S2P Require Import Prelude Ascii Encoding Utf8 Utf8Theory FetchHeaders TextEncoder TextDecoder TextDecoderTheory WebIdl UsvText Mime Kmp FormData Multipart.
Local Open Scope Z_scope.

(** ** Specification *)

(** A name that the quotes can carry: the encoder does not escape the backslash. *)
Definition name_ok (s : jsstr) : Prop := usv s /\ (0 ∉ s) /\ (92 ∉ s).

(** A type of a file, without white space at its ends. *)
Definition type_ok (type : jsstr) : Prop := mediaType type = type /\ trimHTTPTabOrSpace type = type.
Definition type_text (type : jsstr) : jsstr := if bool_decide (type = []) then u "application/octet-stream" else type.

(** The disposition of an entry, its file name and the line of its type. *)
Definition filename_of (value : FormDataEntryValue) : option jsstr :=
  match value with TextValue _ => None | FileValue file => Some (quoted (file_name file)) end.
Definition filename_text (value : FormDataEntryValue) : jsstr :=
  match value with TextValue _ => [] | FileValue file => u "; filename=" ++ quote ++ quoted (file_name file) ++ quote end.
Definition disposition_text (entry : FormDataEntry) : jsstr :=
  u "form-data" ++ u "; name=" ++ quote ++ quoted entry.1 ++ quote ++ filename_text entry.2.
Definition type_line (value : FormDataEntryValue) : jsstr :=
  match value with TextValue _ => [] | FileValue file => crlf ++ u "Content-Type: " ++ type_text (file_type file) end.
Definition header_text (entry : FormDataEntry) : jsstr := u "Content-Disposition: " ++ disposition_text entry ++ type_line entry.2.

Definition body_of (value : FormDataEntryValue) : list Z :=
  match value with TextValue text => TextEncoder.encode (newlines text) | FileValue file => file_bytes file end.

Definition marker_of (boundary : jsstr) : list Z := crlf ++ u "--" ++ boundary.

(** What a value must be: a text does not start with a byte order mark. *)
Definition value_ok (value : FormDataEntryValue) : Prop :=
  match value with
  | TextValue text => usv text /\ head text <> Some 0xfeff
  | FileValue file => name_ok (file_name file) /\ type_ok (file_type file)
  end.

Record entry_ok (boundary : jsstr) (entry : FormDataEntry) : Prop := mk_entry_ok {
  eo_name : name_ok entry.1;
  eo_value : value_ok entry.2;
  eo_header : len (TextEncoder.encode (header_text entry)) <= 16384;
  eo_body : forall i, ~ occurs (marker_of boundary) (body_of entry.2) i;
}.

(** An entry as it comes back. *)
Definition read_back (entry : FormDataEntry) : FormDataEntry :=
  (quoted entry.1,
   match entry.2 with
   | TextValue text => TextValue (newlines text)
   | FileValue file => FileValue (mk_file (file_bytes file) (quoted (file_name file)) (type_text (file_type file)))
   end).

(** The bytes behind a boundary. *)
Fixpoint behind (boundary : jsstr) (form : list FormDataEntry) : list Z :=
  match form with
  | [] => u "--" ++ crlf
  | entry :: form =>
      crlf ++ TextEncoder.encode (header_text entry) ++ [13; 10; 13; 10] ++ body_of entry.2 ++ marker_of boundary ++ behind boundary form
  end.

(** ** Texts *)

(** Such strings put together. *)
Ltac usv := repeat lazymatch goal with
  | |- usv (_ ++ _) => apply usv_concat
  | |- usv (u _) => by apply usv_constant
  | |- usv quote => by apply usv_constant
  | |- usv crlf => by apply usv_constant
  | |- usv [] => by apply usv_constant
  | |- _ => assumption
  end.

Lemma newlines_plain c s : c <> 13 -> c <> 10 -> newlines (c :: s) = c :: newlines s.
Proof. intros H1 H2. cbn [newlines]. apply Z.eqb_neq in H1, H2. by rewrite H1, H2. Qed.

Lemma newlines_cr s : head s <> Some 10 -> newlines (13 :: s) = 13 :: 10 :: newlines s.
Proof. intros Hs. destruct s as [|d s]; [done|]. cbn [newlines Z.eqb Pos.eqb]. destruct (Z.eqb_spec d 10) as [->|]; done. Qed.

Lemma newlines_scalars n : forall cs, (length cs <= n)%nat -> Forall is_scalar cs ->
  newlines (of_scalars cs) = of_scalars (newlines cs) /\ Forall is_scalar (newlines cs).
Proof.
  assert (Hlf : forall l, of_scalars (13 :: 10 :: l) = 13 :: 10 :: of_scalars l) by done.
  assert (Hbr : forall l, Forall is_scalar l -> Forall is_scalar (13 :: 10 :: l)) by (repeat constructor; unfold is_scalar; done || lia).
  induction n as [|n IH]; intros cs Hn Hcs; (destruct cs as [|c cs]; [by split; [|constructor]|]); cbn [length] in Hn; [lia|].
  apply Forall_cons in Hcs as [Hc Hcs]. destruct (IH cs ltac:(lia) Hcs) as [IH1 IH2]. destruct (decide (c = 13)) as [->|H13].
  - destruct (decide (head cs = Some 10)) as [Hh|Hh].
    + destruct cs as [|d cs]; [done|]. injection Hh as ->. apply Forall_cons in Hcs as [_ Hcs]. cbn [length] in Hn. destruct (IH cs ltac:(lia) Hcs) as [IH3 IH4].
      rewrite Hlf. cbn [newlines Z.eqb Pos.eqb]. rewrite Hlf, IH3. auto.
    + rewrite of_scalars_cons. change (scalar_units 13 ++ of_scalars cs) with (13 :: of_scalars cs). rewrite !newlines_cr; [|done|by intros H%head_scalars].
      rewrite Hlf, IH1. auto.
  - destruct (decide (c = 10)) as [->|H10].
    + rewrite of_scalars_cons. change (scalar_units 10 ++ of_scalars cs) with (10 :: of_scalars cs). cbn [newlines Z.eqb Pos.eqb]. rewrite Hlf, IH1. auto.
    + rewrite (newlines_plain c cs), !of_scalars_cons by done. split; [|by constructor]. rewrite <- IH1.
      destruct (scalar_units_cases c Hc) as [->|(a & b & -> & Ha & Hb)]; cbn [app]; by rewrite !newlines_plain by lia.
Qed.

Lemma usv_newlines s : usv s -> usv (newlines s).
Proof. intros (cs & Hcs & ->). destruct (newlines_scalars (length cs) cs) as [-> ?]; [done..|]. by exists (newlines cs). Qed.

Lemma quoted_unit_scalars c : is_scalar c -> Forall is_scalar (quoted_unit c) /\ scalar_units c ≫= quoted_unit = of_scalars (quoted_unit c).
Proof.
  intros Hc. destruct (scalar_units_cases c Hc) as [E|(a & b & E & Ha & Hb)].
  - rewrite E, bind_singleton. unfold quoted_unit. destruct (c =? 13); [split; [by_computing|done]|]. destruct (c =? 10); [split; [by_computing|done]|].
    destruct (c =? 34); [split; [by_computing|done]|]. split; [by constructor|]. by rewrite of_scalars_cons, E.
  - assert (Hu : forall x, 0xd800 <= x -> quoted_unit x = [x]).
    { intros x Hx. unfold quoted_unit. destruct (Z.eqb_spec x 13), (Z.eqb_spec x 10), (Z.eqb_spec x 34); lia || done. }
    rewrite (Hu c); [|unfold scalar_units in E; destruct (Z.ltb_spec c 0x10000); [done|lia]]. split; [by constructor|].
    rewrite of_scalars_cons, E. cbn [mbind list_bind app]. by rewrite !Hu.
Qed.

Lemma usv_quoted s : usv s -> usv (quoted s).
Proof.
  intros Hs%usv_newlines. unfold quoted. destruct Hs as (cs & Hcs & ->). exists (cs ≫= quoted_unit). induction Hcs as [|c cs Hc _ [IH1 IH2]]; [done|].
  destruct (quoted_unit_scalars c Hc) as [H1 H2]. rewrite bind_cons, of_scalars_cons, bind_app, IH2, H2. split; [by apply Forall_app|].
  unfold of_scalars. by rewrite bind_app.
Qed.

(** What the quotes carry. *)
Definition is_plain (c : Z) : Prop := (c <> 13) /\ (c <> 10) /\ (c <> 34) /\ (c <> 92) /\ (c <> 0).

Lemma newlines_in n : forall s c, (length s <= n)%nat -> c ∈ newlines s -> c ∈ s \/ c = 13 \/ c = 10.
Proof.
  induction n as [|n IH]; intros s c Hn; (destruct s as [|d s]; [by intros ?%elem_of_nil|]); cbn [length] in Hn; [lia|]. cbn [newlines].
  assert (Hs : c ∈ 13 :: 10 :: newlines s -> c ∈ d :: s \/ c = 13 \/ c = 10).
  { rewrite !elem_of_cons. intros [?|[?|Hc%IH]]; [tauto..|lia]. }
  destruct (d =? 13).
  - destruct s as [|e s]; [rewrite !elem_of_cons; tauto|]. destruct (e =? 10); [|exact Hs]. cbn [length] in Hn. rewrite !elem_of_cons.
    intros [?|[?|Hc%IH]]; [tauto..|lia].
  - destruct (d =? 10); [exact Hs|]. rewrite !elem_of_cons. intros [?|Hc%IH]; [tauto..|lia].
Qed.

Lemma quoted_plain s : name_ok s -> Forall is_plain (quoted s).
Proof.
  intros (_ & H0 & H92). apply Forall_forall. intros c (d & Hc & Hd)%list_elem_of_bind. apply (newlines_in (length s)) in Hd; [|done].
  unfold quoted_unit in Hc. assert (Hq : forall l, forallb (fun c => negb (bool_decide (c ∈ [13; 10; 34; 92; 0]))) l = true -> c ∈ l -> is_plain c).
  { intros l Hl Hin. rewrite forallb_forall in Hl. apply list_elem_of_In in Hin. apply Hl, negb_true_iff, bool_decide_eq_false in Hin.
    rewrite !elem_of_cons in Hin. unfold is_plain. tauto. }
  destruct (Z.eqb_spec d 13); [by apply (Hq (u "%0D"))|]. destruct (Z.eqb_spec d 10); [by apply (Hq (u "%0A"))|]. destruct (Z.eqb_spec d 34); [by apply (Hq (u "%22"))|].
  apply list_elem_of_singleton in Hc as ->. unfold is_plain. split_and!; try done; intros ->; by destruct Hd as [|[]].
Qed.

(** ** Searching *)

Lemma occurs_lookup x text i : occurs x text i <-> forall j, (j < length x)%nat -> text !! (i + j)%nat = x !! j.
Proof.
  unfold occurs. split.
  - intros [k Hk] j Hj. by rewrite <- lookup_drop, Hk, lookup_app_l.
  - intros H. exists (drop (length x) (drop i text)). apply list_eq. intros j. destruct (decide (j < length x)%nat) as [Hj|Hj].
    + by rewrite lookup_app_l, lookup_drop, H.
    + rewrite lookup_app_r, !lookup_drop by lia. f_equal. lia.
Qed.

(** The needle behind a text does not occur earlier. *)
Definition fresh (x body : list Z) : Prop := forall i, (i < length body)%nat -> ~ occurs x (body ++ x) i.

Lemma find_here x pre body post : x <> [] -> fresh x body ->
  find (new_pattern x) (pre ++ body ++ x ++ post) (length pre) = Some (length pre + length body)%nat.
Proof.
  intros Hne Hf. pose proof (find_spec x (pre ++ body ++ x ++ post) (length pre) Hne) as H.
  assert (Hat : occurs x (pre ++ body ++ x ++ post) (length pre + length body)).
  { exists post. by rewrite <- drop_drop, drop_app_length, drop_app_length. }
  destruct (find _ _ _) as [r|]; [|by destruct (H (length pre + length body)%nat ltac:(lia))]. destruct H as (Hr & Ho & Hmin). f_equal.
  pose proof (Hmin (length pre + length body)%nat ltac:(lia) Hat). destruct (decide (r = length pre + length body)%nat) as [|Hlt]; [done|].
  destruct (Hf (r - length pre)%nat); [lia|]. apply occurs_lookup. intros j Hj. rewrite occurs_lookup in Ho.
  rewrite <- (Ho j Hj), (app_assoc body), (lookup_app_r pre) by lia. rewrite (lookup_app_l (body ++ x)) by (rewrite length_app; lia). f_equal. lia.
Qed.

Lemma lookup_in (l : list Z) i c : l !! i = Some c -> c ∈ l.
Proof. apply list_elem_of_lookup_2. Qed.

(** An empty line is not in a header of one line, nor in one of two. *)
Lemma fresh_line a : 13 ∉ a -> fresh [13; 10; 13; 10] a.
Proof.
  intros Ha i Hi Ho. rewrite occurs_lookup in Ho. specialize (Ho 0%nat ltac:(cbn; lia)). rewrite lookup_app_l in Ho by lia. by apply lookup_in in Ho.
Qed.

Lemma fresh_lines a b : 13 ∉ a -> 13 ∉ b -> b <> [] -> fresh [13; 10; 13; 10] (a ++ [13; 10] ++ b).
Proof.
  intros Ha Hb Hne i Hi Ho. rewrite occurs_lookup in Ho. pose proof (Ho 0%nat ltac:(cbn; lia)) as H0. pose proof (Ho 2%nat ltac:(cbn; lia)) as H2.
  rewrite !length_app in Hi. cbn [length] in Hi. rewrite <- !app_assoc in H0, H2. cbn [app] in H0, H2.
  assert (Hl : (0 < length b)%nat) by (destruct b; [done|cbn; lia]).
  destruct (decide (i < length a)%nat); [rewrite lookup_app_l in H0 by lia; by apply lookup_in in H0|]. rewrite lookup_app_r in H0, H2 by lia.
  destruct (i + 0 - length a)%nat as [|[|k]] eqn:E0; cbn in H0; [|done|].
  - replace (i + 2 - length a)%nat with 2%nat in H2 by lia.
    change ((b ++ [13; 10; 13; 10]) !! 0%nat = Some 13) in H2. rewrite lookup_app_l in H2 by done. by apply lookup_in in H2.
  - change ((b ++ [13; 10; 13; 10]) !! k = Some 13) in H0. rewrite lookup_app_l in H0 by lia. by apply lookup_in in H0.
Qed.

(** A marker starts with its only carriage return, so occurrences do not overlap. *)
Lemma fresh_marker m body : 13 ∉ m -> (forall i, ~ occurs (13 :: m) body i) -> fresh (13 :: m) body.
Proof.
  intros Hm Hb i Hi Ho. rewrite occurs_lookup in Ho. destruct (decide (i + length (13%Z :: m) <= length body)%nat) as [Hle|Hgt].
  - apply (Hb i). apply occurs_lookup. intros j Hj. rewrite <- (Ho j Hj). by rewrite lookup_app_l by lia.
  - pose proof (Ho (length body - i)%nat ltac:(lia)) as H. replace (i + (length body - i))%nat with (length body + 0)%nat in H by lia.
    rewrite lookup_app_r in H by lia. replace (length body + 0 - length body)%nat with 0%nat in H by lia. cbn in H.
    destruct (length body - i)%nat as [|n] eqn:E; [lia|]. cbn in H. symmetry in H. by apply lookup_in in H.
Qed.

(** ** The headers of a part *)

Lemma split_crlf_line a : 13 ∉ a -> split_crlf a = [a].
Proof.
  induction a as [|c a IH]; [done|]. rewrite not_elem_of_cons. intros [Hc Ha]. cbn [split_crlf]. rewrite (IH Ha). destruct a as [|d a]; [done|].
  destruct (Z.eqb_spec c 13); [congruence|]. done.
Qed.

Lemma split_crlf_app a b : 13 ∉ a -> split_crlf (a ++ crlf ++ b) = a :: split_crlf b.
Proof.
  induction a as [|c a IH]; [done|]. rewrite not_elem_of_cons. intros [Hc Ha]. cbn [app split_crlf]. cbn [app] in IH. rewrite (IH Ha).
  destruct (a ++ crlf ++ b) as [|d r] eqn:E; [by destruct a|]. destruct (Z.eqb_spec c 13); [congruence|]. done.
Qed.

Definition is_bad_value (value : jsstr) : bool := existsb bad_disposition_unit value.

(** A header line is cut at its colon. *)
Lemma header_line_field h name value : isToken name = true -> trimHTTPTabOrSpace value = value -> is_bad_value value = false ->
  header_line h (name ++ 58 :: 32 :: value) =
    (let name := text_lower name in
     if str_eqb name (u "content-disposition") then
       throw_if (bool_decide (h_disposition h <> None)) (TypeError "Duplicate Content-Disposition") ;;
       Ok (mk_part (Some value) (h_type h))
     else if str_eqb name (u "content-type") then Ok (mk_part (h_disposition h) value)
     else if str_eqb name (u "content-transfer-encoding") then
       throw_if (negb (str_eqb (text_lower value) (u "binary")) && negb (str_eqb (text_lower value) (u "8bit"))) (TypeError "Encoded multipart parts are not supported") ;;
       Ok h
     else Ok h).
Proof.
  intros Ht Hv Hb. assert (Hn : 58 ∉ name).
  { intros Hin. pose proof (Forall_token (fun c => c <> 58) Ht ltac:(intros c Hc ->; by vm_compute in Hc)) as H. rewrite Forall_forall in H. by apply (H 58). }
  assert (Hcolon : js_indexOf (name ++ 58 :: 32 :: value) 58 0 = len name).
  { unfold js_indexOf. change (Z.to_nat 0) with 0%nat. rewrite drop_0. rewrite index_of_from_app by (done || lia). lia. }
  assert (Hpos : 1 <= len name) by (apply isToken_units in Ht as [Hne _]; destruct name; unfold len; cbn [length]; congruence || lia).
  unfold header_line. rewrite Hcolon.
  replace (subarray (name ++ 58 :: 32 :: value) 0 (len name)) with name.
  2: { unfold subarray, len. rewrite Z.sub_0_r, Nat2Z.id. change (Z.to_nat 0) with 0%nat. by rewrite drop_0, take_app_length. }
  replace (subarray (name ++ 58 :: 32 :: value) (len name + 1) (len (name ++ 58 :: 32 :: value))) with (32 :: value).
  2: { unfold subarray, len. rewrite take_ge.
       - replace (Z.to_nat (Z.of_nat (length name) + 1)) with (length name + 1)%nat by lia. by rewrite drop_app_add.
       - rewrite length_drop, length_app. cbn [length]. lia. }
  change (trimHTTPTabOrSpace (32 :: value)) with (trimHTTPTabOrSpace value). rewrite Hv. fold (is_bad_value value). rewrite Hb.
  destruct (Z.ltb_spec (len name) 1); [lia|]. destruct (token_text_lower name Ht) as [-> _]. done.
Qed.

Lemma plain_value q : Forall is_plain q -> is_bad_value q = false.
Proof.
  intros Hq. unfold is_bad_value. apply not_true_iff_false. rewrite existsb_exists. intros (c & Hc & Hb). apply list_elem_of_In in Hc.
  rewrite Forall_forall in Hq. destruct (Hq c Hc) as (? & ? & ? & ? & ?). unfold bad_disposition_unit in Hb. rewrite !orb_true_iff, !Z.eqb_eq in Hb. tauto.
Qed.

Lemma disposition_quoted_plain q : forall acc rest, Forall is_plain q -> disposition_quoted (q ++ 34 :: rest) acc = Ok (acc ++ q, rest).
Proof.
  induction q as [|c q IH]; intros acc rest Hq; [by rewrite app_nil_r|]. apply Forall_cons in Hq as [(H13 & H10 & H34 & H92 & H0) Hq].
  cbn [app disposition_quoted]. unfold bad_disposition_unit. apply Z.eqb_neq in H13, H10, H34, H92, H0. rewrite H34, H92, H13, H10, H0. cbn [orb].
  rewrite IH by done. by rewrite <- app_assoc.
Qed.

Lemma disposition_step fuel name q rest acc : isToken name = true -> text_lower name = name -> Forall is_plain q ->
  (forall c, head rest = Some c -> c = 59) -> map_has name acc = false ->
  disposition_loop (S fuel) (59 :: 32 :: name ++ 61 :: quote ++ q ++ quote ++ rest) acc = disposition_loop fuel rest (acc ++ [(name, q)]).
Proof.
  intros Ht Hl Hq Hr Hm. cbn [disposition_loop]. change (trim_start isHTTPWhitespace (32 :: ?x)) with (trim_start isHTTPWhitespace x).
  rewrite (mime_name _ _ Ht). cbn [tail]. rewrite Hl, Ht. change (starts_with 61 (61 :: _)) with true. cbn [negb orb throw_if mbind result_bind].
  change (trim_start isHTTPWhitespace (quote ++ q ++ quote ++ rest)) with (34 :: q ++ 34 :: rest). unfold disposition_value.
  change (starts_with 34 (34 :: _)) with true. cbn [tail]. rewrite disposition_quoted_plain by done. cbn [mbind result_bind app].
  assert (Htr : trim_start isHTTPWhitespace rest = rest) by (apply trim_start_head; by intros c ->%Hr). rewrite Htr.
  destruct rest as [|c rest]; [|rewrite (Hr c eq_refl)]; cbn [negb Z.eqb Pos.eqb throw_if mbind result_bind]; unfold set_first; by rewrite Hm.
Qed.

Lemma filename_plain value : value_ok value -> Forall is_plain (default [] (filename_of value)).
Proof. destruct value; [constructor|]. intros [Hn _]. by apply quoted_plain. Qed.

Lemma parse_disposition_text entry : name_ok entry.1 -> value_ok entry.2 -> exists parameters,
  parseContentDisposition (disposition_text entry) = Ok (mk_parameterized (u "form-data") parameters) /\
  map_get (u "name") parameters = Some (quoted entry.1) /\ map_get (u "filename") parameters = filename_of entry.2.
Proof.
  intros Hn%quoted_plain Hv%filename_plain. unfold parseContentDisposition, disposition_text.
  rewrite until_app; [|by_computing|by intros c [= <-]].
  change (u "; name=" ++ quote ++ quoted entry.1 ++ quote ++ filename_text entry.2) with
    (59 :: 32 :: u "name" ++ 61 :: quote ++ quoted entry.1 ++ quote ++ filename_text entry.2). cbn [length].
  rewrite disposition_step; [|done|done|done|by destruct entry.2; [|intros c [= <-]]|done].
  destruct entry.2 as [text|file]; cbn [filename_text filename_of app] in *.
  - cbn [disposition_loop mbind result_bind]. eexists. split; [done|]. done.
  - change (u "; filename=" ++ quote ++ quoted (file_name file) ++ quote) with (59 :: 32 :: u "filename" ++ 61 :: quote ++ quoted (file_name file) ++ quote ++ []).
    rewrite disposition_step; [|done..]. cbn [disposition_loop mbind result_bind app]. eexists. split; [done|]. done.
Qed.

Definition is_good (c : Z) : Prop := bad_disposition_unit c = false.

Lemma good_value value : Forall is_good value -> is_bad_value value = false /\ 13 ∉ value.
Proof.
  rewrite Forall_forall. intros Hg. split.
  - apply not_true_iff_false. unfold is_bad_value. rewrite existsb_exists. intros (c & Hc%list_elem_of_In & Hb). by rewrite Hg in Hb.
  - by intros Hin%Hg.
Qed.

Lemma plain_good q : Forall is_plain q -> Forall is_good q.
Proof.
  intros Hq. eapply Forall_impl; [exact Hq|]. intros c (H13 & H10 & _ & _ & H0). apply Z.eqb_neq in H13, H10, H0. unfold is_good, bad_disposition_unit.
  by rewrite H13, H10, H0.
Qed.

Lemma disposition_good entry : name_ok entry.1 -> value_ok entry.2 -> Forall is_good (disposition_text entry).
Proof.
  intros Hn%quoted_plain%plain_good Hv%filename_plain%plain_good. unfold disposition_text. rewrite !Forall_app. split_and!; try done; [by_computing..|].
  destruct entry.2; [constructor|]. unfold filename_text. cbn [filename_of default] in Hv. rewrite !Forall_app. split_and!; [by_computing..|exact Hv|by_computing].
Qed.

Lemma disposition_trimmed entry : trimHTTPTabOrSpace (disposition_text entry) = disposition_text entry.
Proof.
  assert (Hend : exists text, disposition_text entry = text ++ quote).
  { unfold disposition_text. destruct entry.2 as [text|file]; cbn [filename_text].
    - exists (u "form-data" ++ u "; name=" ++ quote ++ quoted entry.1). by rewrite app_nil_r, <- !app_assoc.
    - exists (u "form-data" ++ u "; name=" ++ quote ++ quoted entry.1 ++ quote ++ u "; filename=" ++ quote ++ quoted (file_name file)). by rewrite <- !app_assoc. }
  apply trim_ends; [by intros c [= <-]|]. intros c. destruct Hend as [text ->]. rewrite last_app. by intros [= <-].
Qed.

Record type_facts (type : jsstr) : Prop := mk_type_facts {
  tf_ascii : Forall is_ascii (type_text type);
  tf_good : Forall is_good (type_text type);
  tf_trimmed : trimHTTPTabOrSpace (type_text type) = type_text type;
  tf_media : mediaType (type_text type) = type_text type;
  tf_some : type_text type <> [];
}.

Lemma type_text_facts type : type_ok type -> type_facts type.
Proof.
  intros [Hm Ht]. unfold type_text. destruct (decide (type = [])) as [->|Hne]; [split; by_computing|].
  assert (Htype : type_text type = type) by (unfold type_text; by rewrite bool_decide_eq_false_2).
  assert (Hall : Forall (fun c => 0x20 <= c <= 0x7e) type).
  { unfold mediaType in Hm. destruct (existsb _ type) eqn:E; [by subst type|]. apply Forall_forall. intros c Hc.
    apply not_true_iff_false in E. rewrite existsb_exists in E. destruct (Z.ltb_spec c 0x20), (Z.ltb_spec 0x7e c); try lia; destruct E; exists c;
      (split; [by apply list_elem_of_In|lia]). }
  split; rewrite Htype; try done; (eapply Forall_impl; [exact Hall|]); cbn; intros c Hc; [unfold is_ascii; lia|].
  unfold is_good, bad_disposition_unit. destruct (Z.eqb_spec c 13), (Z.eqb_spec c 10), (Z.eqb_spec c 0); lia || done.
Qed.

(** The header decodes to the name, the file name and the type. *)
Definition type_of (value : FormDataEntryValue) : jsstr :=
  match value with TextValue _ => u "text/plain" | FileValue file => type_text (file_type file) end.

Lemma disposition_usv entry : name_ok entry.1 -> value_ok entry.2 -> usv (disposition_text entry).
Proof.
  intros [Hn%usv_quoted _] Hv. unfold disposition_text, filename_text. destruct entry.2 as [text|file]; [usv|]. destruct Hv as [[Hf%usv_quoted _] _]. usv.
Qed.

Lemma type_line_usv value : value_ok value -> usv (type_line value).
Proof. destruct value as [text|file]; intros Hv; unfold type_line; [usv|]. destruct Hv as [_ Ht%type_text_facts]. destruct (usv_ascii _ (tf_ascii _ Ht)). usv. Qed.

Lemma header_usv entry : name_ok entry.1 -> value_ok entry.2 -> usv (header_text entry).
Proof. intros Hn Hv. pose proof (disposition_usv entry Hn Hv). pose proof (type_line_usv entry.2 Hv). unfold header_text. usv. Qed.

Lemma header_lines entry : name_ok entry.1 -> value_ok entry.2 ->
  foldM header_line (mk_part None (u "text/plain")) (split_crlf (header_text entry)) = Ok (mk_part (Some (disposition_text entry)) (type_of entry.2)).
Proof.
  intros Hn Hv. pose proof (disposition_good entry Hn Hv) as Hg. destruct (good_value _ Hg) as [Hbad _]. unfold header_text. rewrite app_assoc.
  assert (Hfirst : 13 ∉ u "Content-Disposition: " ++ disposition_text entry) by (apply good_value, Forall_app; split; [by_computing|done]).
  assert (Hline : forall h, h_disposition h = None ->
    header_line h (u "Content-Disposition: " ++ disposition_text entry) = Ok (mk_part (Some (disposition_text entry)) (h_type h))).
  { intros h Hh. change (u "Content-Disposition: " ++ ?x) with (u "Content-Disposition" ++ 58 :: 32 :: x).
    rewrite header_line_field by (done || apply disposition_trimmed). cbv zeta. change (text_lower (u "Content-Disposition")) with (u "content-disposition").
    unfold str_eqb. rewrite (bool_decide_eq_true_2 (u "content-disposition" = _)) by done. by rewrite Hh. }
  destruct entry.2 as [text|file] eqn:E; cbn [type_line type_of].
  - rewrite app_nil_r, split_crlf_line by done. cbn [foldM]. by rewrite Hline.
  - destruct Hv as [_ Ht%type_text_facts]. destruct (good_value _ (tf_good _ Ht)) as [Htb _].
    assert (Hsecond : 13 ∉ u "Content-Type: " ++ type_text (file_type file)) by (apply good_value, Forall_app; split; [by_computing|apply (tf_good _ Ht)]).
    rewrite split_crlf_app, split_crlf_line by done. cbn [foldM]. rewrite Hline by done. cbn [mbind result_bind h_type].
    change (u "Content-Type: " ++ ?x) with (u "Content-Type" ++ 58 :: 32 :: x). rewrite header_line_field by (done || apply (tf_trimmed _ Ht)).
    done.
Qed.

Lemma part_disposition_text entry : name_ok entry.1 -> value_ok entry.2 ->
  part_disposition (TextEncoder.encode (header_text entry)) = Ok (quoted entry.1, filename_of entry.2, type_of entry.2).
Proof.
  intros Hn Hv. unfold part_disposition. rewrite decode_encoded_text by (done || by apply header_usv). cbn [mbind result_bind]. rewrite header_lines by done.
  cbn [mbind result_bind h_disposition h_type]. destruct (parse_disposition_text entry Hn Hv) as (ps & -> & Hname & Hfile).
  cbn [mbind result_bind pv_parameters pv_value]. rewrite Hname, Hfile. done.
Qed.

Lemma header_fresh entry : name_ok entry.1 -> value_ok entry.2 -> fresh [13; 10; 13; 10] (TextEncoder.encode (header_text entry)).
Proof.
  intros Hn Hv. pose proof (disposition_good entry Hn Hv) as Hg. pose proof (disposition_usv entry Hn Hv) as Hu.
  assert (Hfirst : usv (u "Content-Disposition: " ++ disposition_text entry)) by usv.
  assert (Hcr : 13 ∉ TextEncoder.encode (u "Content-Disposition: " ++ disposition_text entry)).
  { apply encode_no_ascii; [done|by apply usv_units|]. apply good_value, Forall_app; split; [by_computing|done]. }
  unfold header_text. rewrite app_assoc. destruct entry.2 as [text|file]; cbn [type_line]; [rewrite app_nil_r; by apply fresh_line|].
  destruct Hv as [_ Ht%type_text_facts]. destruct (usv_ascii _ (tf_ascii _ Ht)) as [Htu Hte].
  assert (Htype : TextEncoder.encode (crlf ++ u "Content-Type: " ++ type_text (file_type file)) = [13; 10] ++ u "Content-Type: " ++ type_text (file_type file)).
  { apply usv_ascii. rewrite !Forall_app. split_and!; [by_computing..|apply (tf_ascii _ Ht)]. }
  destruct (usv_app (u "Content-Disposition: " ++ disposition_text entry) (crlf ++ u "Content-Type: " ++ type_text (file_type file))) as [_ ->]; [done|usv|].
  rewrite Htype. apply fresh_lines; [done| |done]. apply good_value, Forall_app; split; [by_computing|apply (tf_good _ Ht)].
Qed.

(** ** The parts *)

Lemma hasPair_shift pre l n k a b : n = (length pre + k)%nat -> hasPair (pre ++ l) n a b = hasPair l k a b.
Proof.
  intros ->. unfold hasPair. rewrite !lookup_app_r by lia.
  by replace (length pre + k - length pre)%nat with k by lia; replace (S (length pre + k) - length pre)%nat with (S k) by lia.
Qed.

Lemma skip_shift pre l n k : n = (length pre + k)%nat -> (forall c, l !! k = Some c -> c <> 32 /\ c <> 9) -> skipTransportPadding (pre ++ l) n = n.
Proof.
  intros -> Hc. unfold skipTransportPadding. rewrite drop_app_add. destruct (drop k l) as [|c r] eqn:E; [done|]. cbn [padding_loop].
  destruct (Hc c) as [H1 H2]; [by rewrite <- (Nat.add_0_r k), <- lookup_drop, E|]. apply Z.eqb_neq in H1, H2. by rewrite H1, H2.
Qed.

(** The value of a part is read back. *)
Lemma value_read_back name value : value_ok value ->
  match filename_of value with
  | None => TextValue <$> decodeUTF8 (body_of value) false false
  | Some filename => Ok (FileValue (new_file (body_of value) filename (type_of value)))
  end = Ok (read_back (name, value)).2.
Proof.
  destruct value as [text|file]; cbn [filename_of body_of type_of read_back snd value_ok].
  - intros [Ht Hh]. pose proof Ht as (cs & Hcs & Hs). rewrite decode_encoded_text; [done|by apply usv_newlines|].
    intros Hn. apply Hh. clear - Hn. destruct text as [|c text]; [done|]. cbn [newlines] in Hn. repeat case_match; cbn in *; congruence.
  - intros [[Hf%usv_quoted _] Ht%type_text_facts]. unfold new_file. by rewrite usv_kept, (tf_media _ Ht).
Qed.

Lemma append_read_back acc entry : name_ok entry.1 -> value_ok entry.2 -> append acc (quoted entry.1) (read_back entry).2 = acc ++ [read_back entry].
Proof.
  intros [Hn%usv_quoted _] Hv. unfold append. rewrite usv_kept by done. destruct entry as [name [text|file]]; cbn in *; [|done].
  destruct Hv as [Ht%usv_newlines _]. by rewrite usv_kept.
Qed.

Lemma ends_behind pre boundary form : ends_body (pre ++ behind boundary form) (length pre) = true.
Proof.
  unfold ends_body. cbv zeta. rewrite (hasPair_shift pre _ (length pre) 0) by lia. destruct form as [|entry form].
  - change (hasPair (behind boundary []) 0 45 45) with true. cbv iota. rewrite (skip_shift pre _ (length pre + 2) 2); [|done|by intros c [= <-]].
    by rewrite (hasPair_shift pre _ (length pre + 2) 2).
  - change (hasPair (behind boundary (entry :: form)) 0 45 45) with false. cbv iota. rewrite (skip_shift pre _ (length pre) 0); [|lia|by intros c [= <-]].
    by rewrite (hasPair_shift pre _ (length pre) 0) by lia.
Qed.

Lemma body_end_found fuel search bytes next : ends_body bytes (next + length (needle search)) = true ->
  body_end fuel search bytes (Some next) = Ok (Some next).
Proof. intros H. destruct fuel; cbn [body_end]; by rewrite H. Qed.

Lemma piece (pre mid post : list Z) m n : m = length pre -> n = length mid -> take n (drop m (pre ++ mid ++ post)) = mid.
Proof. intros -> ->. by rewrite drop_app_length, take_app_length. Qed.

Section Parts.
Context (boundary : jsstr) (Hboundary : 13 ∉ boundary).
Definition search : BytePattern := new_pattern (marker_of boundary).
Definition through (pre : list Z) (entry : FormDataEntry) : list Z :=
  pre ++ crlf ++ TextEncoder.encode (header_text entry) ++ [13; 10; 13; 10] ++ body_of entry.2 ++ marker_of boundary.

Lemma through_behind pre entry form : pre ++ behind boundary (entry :: form) = through pre entry ++ behind boundary form.
Proof. cbn [behind]. unfold through. by rewrite <- !app_assoc. Qed.

Lemma decode_step fuel pre entry form parts acc : entry_ok boundary entry -> parts < 10000 ->
  decode_parts (S fuel) search 10000 16384 (pre ++ behind boundary (entry :: form)) (length pre) parts acc =
  decode_parts fuel search 10000 16384 (through pre entry ++ behind boundary form) (length (through pre entry)) (parts + 1) (acc ++ [read_back entry]).
Proof.
  intros [Hn Hv Hh Hb] Hparts. set (bytes := pre ++ behind boundary (entry :: form)).
  set (H := TextEncoder.encode (header_text entry)) in *. set (bodyStart := (length pre + 2 + length H + 4)%nat).
  set (next := (bodyStart + length (body_of entry.2))%nat).
  assert (Hhead : bytes = (pre ++ crlf) ++ H ++ [13; 10; 13; 10] ++ body_of entry.2 ++ marker_of boundary ++ behind boundary form).
  { unfold bytes. cbn [behind]. by rewrite <- app_assoc. }
  assert (Hbody : bytes = (pre ++ crlf ++ H ++ [13; 10; 13; 10]) ++ body_of entry.2 ++ marker_of boundary ++ behind boundary form).
  { rewrite Hhead. by rewrite <- !app_assoc. }
  assert (Hthrough : bytes = through pre entry ++ behind boundary form) by apply through_behind.
  assert (Hlen : length (through pre entry) = (next + length (marker_of boundary))%nat).
  { unfold through, next, bodyStart. fold H. rewrite !length_app. cbn [length crlf]. lia. }
  assert (Hfind : find (new_pattern [13; 10; 13; 10]) bytes (length pre + 2) = Some (length pre + 2 + length H)%nat).
  { replace (length pre + 2)%nat with (length (pre ++ crlf)) by by rewrite length_app. rewrite Hhead. apply find_here; [done|]. by apply header_fresh. }
  assert (Hnext : find search bytes bodyStart = Some next).
  { unfold next. replace bodyStart with (length (pre ++ crlf ++ H ++ [13; 10; 13; 10])) by (unfold bodyStart; rewrite !length_app; cbn [length crlf]; lia).
    rewrite Hbody. apply find_here; [done|]. change (marker_of boundary) with (13 :: 10 :: 45 :: 45 :: boundary).
    apply fresh_marker; [|exact Hb]. rewrite !not_elem_of_cons. by split_and!. }
  assert (Hends : ends_body bytes (next + length (needle search)) = true).
  { change (needle search) with (marker_of boundary). rewrite <- Hlen, Hthrough. apply ends_behind. }
  assert (Hpart : part_disposition H = Ok (quoted entry.1, filename_of entry.2, type_of entry.2)) by by apply part_disposition_text.
  assert (H0 : hasPair bytes (length pre) 45 45 = false) by (unfold bytes; by rewrite (hasPair_shift pre _ (length pre) 0) by lia).
  assert (H1 : skipTransportPadding bytes (length pre) = length pre) by (unfold bytes; apply (skip_shift pre _ (length pre) 0); [lia|by intros c [= <-]]).
  assert (H2 : hasPair bytes (length pre) 13 10 = true) by (unfold bytes; by rewrite (hasPair_shift pre _ (length pre) 0) by lia).
  cbn [decode_parts]. rewrite H0, H1, H2. cbn [negb throw_if mbind result_bind]. cbv zeta. destruct (Z.ltb_spec 10000 (parts + 1)); [lia|].
  cbn [throw_if mbind result_bind]. rewrite Hfind. change (default (length bytes) (Some ?x)) with x.
  destruct (Z.ltb_spec 16384 (Z.of_nat (length pre + 2 + length H) - Z.of_nat (length pre + 2))); [unfold len in Hh; lia|]. cbn [throw_if mbind result_bind].
  replace (take _ (drop (length pre + 2) bytes)) with H.
  2: { rewrite Hhead. symmetry. apply piece; [by rewrite length_app|lia]. }
  rewrite Hpart. cbn [mbind result_bind]. fold bodyStart. rewrite Hnext, body_end_found by done. cbn [mbind result_bind].
  replace (take _ (drop bodyStart bytes)) with (body_of entry.2).
  2: { rewrite Hbody. symmetry. apply piece; [unfold bodyStart; rewrite !length_app; cbn [length crlf]; lia|unfold next; lia]. }
  rewrite (value_read_back entry.1) by done. replace (entry.1, entry.2) with entry by by destruct entry.
  cbn [mbind result_bind]. rewrite append_read_back by done.
  change (needle search) with (marker_of boundary). by rewrite <- Hlen, Hthrough.
Qed.

Lemma decode_behind form : forall fuel pre parts acc, Forall (entry_ok boundary) form -> (length form <= fuel)%nat -> parts + len form <= 10000 ->
  decode_parts fuel search 10000 16384 (pre ++ behind boundary form) (length pre) parts acc = Ok (acc ++ (read_back <$> form)).
Proof.
  induction form as [|entry form IH]; intros fuel pre parts acc Hok Hf Hp.
  - assert (H0 : hasPair (pre ++ behind boundary []) (length pre) 45 45 = true) by by rewrite (hasPair_shift pre _ (length pre) 0) by lia.
    assert (H1 : skipTransportPadding (pre ++ behind boundary []) (length pre + 2) = (length pre + 2)%nat).
    { apply (skip_shift pre _ _ 2); [done|by intros c [= <-]]. }
    assert (H2 : hasPair (pre ++ behind boundary []) (length pre + 2) 13 10 = true) by by rewrite (hasPair_shift pre _ _ 2).
    destruct fuel; cbn [decode_parts]; rewrite H0, H1, H2, andb_false_r; cbn; by rewrite app_nil_r.
  - apply Forall_cons in Hok as [He Hok]. destruct fuel as [|fuel]; [cbn in Hf; lia|]. unfold len in Hp. cbn [length] in Hf, Hp.
    rewrite decode_step by (done || lia). rewrite IH by (done || unfold len; lia). by rewrite <- app_assoc.
Qed.
End Parts.

(** ** The whole message *)

Lemma encode_around a s b : Forall is_ascii a -> usv s -> Forall is_ascii b -> TextEncoder.encode (a ++ s ++ b) = a ++ TextEncoder.encode s ++ b.
Proof.
  intros [Ha Ea]%usv_ascii Hs [Hb Eb]%usv_ascii. destruct (usv_app s b Hs Hb) as [Hsb E]. by rewrite (proj2 (usv_app a _ Ha Hsb)), E, Ea, Eb.
Qed.

Lemma entry_bytes_text boundary entry : Forall is_ascii boundary -> name_ok entry.1 -> value_ok entry.2 ->
  entry_bytes boundary entry = (u "--" ++ boundary) ++ crlf ++ TextEncoder.encode (header_text entry) ++ [13; 10; 13; 10] ++ body_of entry.2 ++ crlf.
Proof.
  intros Hb Hn Hv. pose proof (header_usv entry Hn Hv) as Hu.
  assert (Hhead : TextEncoder.encode ((u "--" ++ boundary ++ crlf) ++ header_text entry ++ crlf ++ crlf) =
    (u "--" ++ boundary ++ crlf) ++ TextEncoder.encode (header_text entry) ++ crlf ++ crlf).
  { apply encode_around; [|done|by_computing]. rewrite !Forall_app. by split_and!; [by_computing| |by_computing]. }
  destruct entry as [name value]. cbn [fst snd] in *. unfold entry_bytes, name_header.
  change (TextEncoder.encode crlf) with crlf. destruct value as [text|file]; cbn [body_of].
  - match goal with |- TextEncoder.encode ?t ++ _ = _ => replace t with ((u "--" ++ boundary ++ crlf) ++ header_text (name, TextValue text) ++ crlf ++ crlf) end.
    + rewrite Hhead. rewrite <- !app_assoc. done.
    + unfold header_text, disposition_text. cbn [fst snd filename_text type_line].
      change (u "Content-Disposition: form-data; name=") with (u "Content-Disposition: " ++ u "form-data" ++ u "; name="). by rewrite !app_nil_r, <- !app_assoc.
  - match goal with |- TextEncoder.encode ?t ++ _ = _ => replace t with ((u "--" ++ boundary ++ crlf) ++ header_text (name, FileValue file) ++ crlf ++ crlf) end.
    + rewrite Hhead. rewrite <- !app_assoc. done.
    + unfold header_text, disposition_text. cbn [fst snd filename_text type_line].
      change (u "Content-Disposition: form-data; name=") with (u "Content-Disposition: " ++ u "form-data" ++ u "; name="). unfold type_text. by rewrite <- !app_assoc.
Qed.

Lemma encode_behind boundary form : Forall is_ascii boundary -> Forall (entry_ok boundary) form ->
  (form ≫= entry_bytes boundary) ++ TextEncoder.encode (u "--" ++ boundary ++ u "--" ++ crlf) = (u "--" ++ boundary) ++ behind boundary form.
Proof.
  intros Hb. induction 1 as [|entry form [Hn Hv _ _] _ IH].
  - change ([] ≫= entry_bytes boundary) with (@nil Z). cbn [app behind]. rewrite <- app_assoc. apply usv_ascii. rewrite !Forall_app. by split_and!; [by_computing| |by_computing..].
  - rewrite bind_cons, <- app_assoc, IH, entry_bytes_text by done. cbn [behind]. unfold marker_of. by rewrite <- !app_assoc.
Qed.

(** The units of the boundary. *)
Definition is_boundary_char (c : Z) : bool := is_token_unit c && is_boundary_unit c && is_quoted_unit c && (0 <=? c) && (c <? 0x80) && negb (c =? 13) && negb (c =? 32).

Lemma boundary_units entropy : is_bytes entropy -> Forall (fun c => is_boundary_char c = true) (boundary_of entropy).
Proof.
  intros He. unfold boundary_of. apply Forall_app. split; [by_computing|]. induction He as [|b entropy Hb _ IH]; [constructor|]. rewrite bind_cons.
  apply Forall_app. split; [|done]. pose proof (byte_check (fun b => forallb is_boundary_char (hex_pair b)) ltac:(by vm_compute) b Hb) as H. cbv beta in H.
  apply Forall_forall. intros c Hc. rewrite forallb_forall in H. by apply H, list_elem_of_In.
Qed.

Lemma boundary_length entropy : length entropy = 24%nat -> len (boundary_of entropy) = 56.
Proof.
  intros He. assert (H : length (entropy ≫= hex_pair) = (2 * length entropy)%nat).
  { clear He. induction entropy as [|b entropy IH]; [done|]. rewrite bind_cons, length_app, IH. cbn. lia. }
  unfold len, boundary_of. rewrite length_app, H, He. done.
Qed.

Record boundary_ok (b : jsstr) : Prop := mk_boundary_ok {
  bo_length : len b = 56;
  bo_token : isToken b = true;
  bo_quoted : isHTTPQuotedString b = true;
  bo_allowed : forallb is_boundary_unit b = true;
  bo_ascii : Forall is_ascii b;
  bo_line : 13 ∉ b;
  bo_space : ends_with 32 b = false;
}.

Lemma boundary_of_ok entropy : length entropy = 24%nat -> is_bytes entropy -> boundary_ok (boundary_of entropy).
Proof.
  intros Hl%boundary_length Hu%boundary_units. set (b := boundary_of entropy) in *. unfold is_boundary_char in Hu. rewrite Forall_forall in Hu. split; [done|..].
  - apply isToken_units. split; [by intros E; rewrite E in Hl|]. apply Forall_forall. intros c Hc%Hu. rewrite !andb_true_iff in Hc. tauto.
  - apply forallb_forall. intros c Hc%list_elem_of_In%Hu. rewrite !andb_true_iff in Hc. tauto.
  - apply forallb_forall. intros c Hc%list_elem_of_In%Hu. rewrite !andb_true_iff in Hc. tauto.
  - apply Forall_forall. intros c Hc%Hu. unfold is_ascii. lia.
  - by intros Hc%Hu.
  - apply bool_decide_eq_false. by intros Hc%last_Some_elem_of%Hu.
Qed.

Definition multipart_mime (b : jsstr) : MIMEType :=
  mk_mime (u "multipart") (u "form-data") (u "multipart/form-data") [(u "boundary", b)].

Lemma parse_content_type b : isToken b = true -> isHTTPQuotedString b = true ->
  parseMIMEType (u "multipart/form-data; boundary=" ++ b) = Ok (Some (multipart_mime b)).
Proof.
  intros Ht Hq. unfold parseMIMEType.
  assert (Htrim : trimHTTPWhitespace (u "multipart/form-data; boundary=" ++ b) = u "multipart/form-data; boundary=" ++ b).
  { apply trim_ends; [by intros c [= <-]|]. intros c. rewrite last_app. destruct (last b) as [d|] eqn:E; [|apply last_None in E; by subst b].
    intros [= ->]. apply (token_last (fun c => isHTTPWhitespace c = false) c Ht); [intros d Hd; apply (token_unit_plain d Hd)|done]. }
  rewrite Htrim. change (js_indexOf (u "multipart/form-data; boundary=" ++ b) 47 0) with 9. cbn [Z.leb Z.compare].
  change (subarray (u "multipart/form-data; boundary=" ++ b) 0 9) with (u "multipart").
  replace (subarray (u "multipart/form-data; boundary=" ++ b) (9 + 1) (len (u "multipart/form-data; boundary=" ++ b))) with (u "form-data" ++ u "; boundary=" ++ b).
  2: { unfold subarray. rewrite take_ge; [done|]. rewrite length_drop. unfold len. lia. }
  rewrite until_app; [|by_computing|by intros c [= <-]]. change (trimTrailingHTTPWhitespace (u "form-data")) with (u "form-data").
  change (isToken (u "multipart")) with true. change (isToken (u "form-data")) with true. cbn [negb orb].
  change (u "; boundary=" ++ b) with (59 :: 32 :: u "boundary" ++ 61 :: b). cbn [length mime_loop].
  change (trim_start isHTTPWhitespace (32 :: ?x)) with (trim_start isHTTPWhitespace x). rewrite mime_name by done. cbn [Z.eqb Pos.eqb].
  pose proof (mime_value_text b [] Hq) as Hv. unfold parameter_value_text in Hv. rewrite Ht in Hv. cbn [mbind list_bind] in Hv. rewrite app_nil_r in Hv.
  destruct b as [|c b]; [done|]. rewrite Hv. unfold set_mime. change (isToken (text_lower (u "boundary"))) with true. rewrite Hq.
  done.
Qed.

Lemma behind_length boundary form : (length form <= length (behind boundary form))%nat.
Proof. induction form as [|entry form IH]; cbn [behind length]; [lia|]. rewrite !length_app. cbn [length crlf]. lia. Qed.

Lemma decode_encoded boundary form : boundary_ok boundary -> len form <= 10000 -> Forall (entry_ok boundary) form ->
  decodeMultipart ((u "--" ++ boundary) ++ behind boundary form) (multipart_mime boundary) (mk_limits None None) = Ok (read_back <$> form).
Proof.
  intros [Hl Ht Hq Ha Hascii Hcr Hs] Hn Hok. unfold decodeMultipart.
  assert (Hvalid : valid_boundary (multipart_mime boundary) = Ok boundary).
  { unfold valid_boundary. change (map_get (u "boundary") (mime_parameters (multipart_mime boundary))) with (Some boundary). cbv iota.
    change (str_eqb (mime_essence (multipart_mime boundary)) (u "multipart/form-data")) with true. rewrite Hl, Ha, Hs. done. }
  assert (Hbytes : forall l, Forall is_ascii l -> encodeByteString (l ++ u "--" ++ boundary) = Ok (l ++ u "--" ++ boundary)).
  { intros l Hl'. apply encodeByteString_bytes. assert (H : Forall is_ascii (l ++ u "--" ++ boundary)) by (rewrite !Forall_app; by split_and!; [|by_computing|]).
    eapply Forall_impl; [exact H|]. unfold is_ascii, is_byte. cbn. lia. }
  rewrite Hvalid. cbn [mbind result_bind]. pose proof (Hbytes [] (Forall_nil_2 _)) as Hopen. cbn [app] in Hopen. rewrite Hopen. cbn [mbind result_bind]. rewrite (Hbytes crlf) by by_computing.
  cbn [mbind result_bind]. cbv zeta. replace (startsWith _ _) with true.
  2: { symmetry. apply bool_decide_eq_true. by rewrite take_app_length. }
  cbn [mbind result_bind]. change (default 10000 (l_maxParts _)) with 10000. change (default 16384 (l_maxPartHeaderBytes _)) with 16384.
  change (0 + ?n)%nat with n. apply (decode_behind boundary Hcr form _ _ 0 []); [done| |lia].
  rewrite length_app. pose proof (behind_length boundary form). lia.
Qed.

(** ** The theorem *)


Lemma short_body x body : (length body < length x)%nat -> forall i, ~ occurs x body i.
Proof. intros Hl i [k Hk]. apply (f_equal length) in Hk. rewrite length_drop, length_app in Hk. lia. Qed.

(** A text with a line break, and a file whose name has a quote. *)
Definition sample_form : list FormDataEntry :=
  [(u "note", TextValue [104; 105; 10; 0x20ac]); (u "upload", FileValue (mk_file [0; 255; 13; 10; 45; 45] [97; 34; 98] []))].
Definition sample_entropy : list Z := seqZ 3 24.

Lemma sample_form_ok : Forall (entry_ok (boundary_of sample_entropy)) sample_form.
Proof.
  repeat constructor; try (apply short_body; apply Nat.ltb_lt; by vm_compute); cbn [fst snd value_ok sample_form file_name file_type]; try by_computing.
  all: try (by apply usv_constant). exists [104; 105; 10; 0x20ac]. split; by_computing.
Qed.


(** What does not survive: a backslash in a name, and a byte order mark before a text. *)
Example multipart_losses :
  let form := [([97; 92; 98], TextValue [0xfeff; 104; 105])] in
  let '(bytes, contentType) := encodeMultipart form sample_entropy in
  match parseMIMEType contentType with
  | Ok (Some mime) => decodeMultipart bytes mime (mk_limits None None) = Ok [(u "ab", TextValue (u "hi"))]
  | _ => False
  end.
Proof. vm_compute. reflexivity. Qed.
