(* ===== verification/MultipartSafety.v ===== *)
(** * The multipart decoder on every input

    Whatever the bytes are, the decoder ends: with form data of at most as many
    entries as the limit allows, or with one of the errors of the code. *)

From S2P Require Import Prelude Ascii Encoding FetchHeaders TextDecoder TextDecoderTheory WebIdl Mime Kmp FormData Multipart.
Local Open Scope Z_scope.

(** ** Specification *)

(** The errors that a malformed message and an exceeded limit throw. *)
Definition refusal (e : js_error) : Prop := match e with TypeError _ | LimitError _ => True | _ => False end.

(** A result of the code: a value with a property, or such an error. *)
Definition reads {A} (P : A -> Prop) (r : result A) : Prop := match r with Ok a => P a | Err e => refusal e end.

(** ** Rules *)

Lemma reads_bind {A B} (P : A -> Prop) (Q : B -> Prop) (m : result A) (k : A -> result B) :
  reads P m -> (forall a, P a -> reads Q (k a)) -> reads Q (m ≫= k).
Proof. destruct m as [a|e]; cbn; auto. Qed.

Lemma reads_throw_if {A} (P : A -> Prop) c e (k : result A) : refusal e -> (c = false -> reads P k) -> reads P (throw_if c e ;; k).
Proof. destruct c; cbn; auto. Qed.

Lemma reads_foldM {A B} (f : A -> B -> result A) l : (forall a b, reads (fun _ => True) (f a b)) -> forall a, reads (fun _ => True) (foldM f a l).
Proof. intros Hf. induction l as [|b l IH]; intros a; cbn [foldM]; [exact I|]. by eapply reads_bind. Qed.

(** ** The disposition *)

Lemma disposition_quoted_reads n : forall s acc, (length s <= n)%nat ->
  reads (fun p => (length p.2 <= length s)%nat) (disposition_quoted s acc).
Proof.
  assert (Hless : forall a b (r : result (jsstr * jsstr)), (a <= b)%nat -> reads (fun p => (length p.2 <= a)%nat) r -> reads (fun p => (length p.2 <= b)%nat) r).
  { intros a b [p|e] Hab; cbn; [lia|done]. }
  induction n as [|n IH]; intros s acc Hn; (destruct s as [|c s]; [exact I|]); cbn [length] in Hn; [lia|]. cbn [disposition_quoted].
  destruct (c =? 34); [cbn; lia|]. destruct (c =? 92).
  - destruct s as [|d s]; [exact I|]. destruct (bad_disposition_unit d); [exact I|]. cbn [length] in *. apply (Hless (length s)); [lia|]. apply IH. lia.
  - destruct (bad_disposition_unit c); [exact I|]. cbn [length]. apply (Hless (length s)); [lia|]. apply IH. lia.
Qed.

Lemma disposition_value_reads s : reads (fun p => (length p.2 <= length s)%nat) (disposition_value s).
Proof.
  unfold disposition_value. destruct (starts_with 34 s).
  - eapply reads_bind; [by apply (disposition_quoted_reads (length (tail s)))|]. intros [value rest] Hr. cbn [snd] in Hr. apply reads_throw_if; [exact I|]. intros _.
    cbn. pose proof (trim_start_length isHTTPWhitespace rest). destruct s; cbn [tail length] in *; lia.
  - pose proof (until_length is_semicolon s) as Hu. destruct (until is_semicolon s) as [raw rest]. apply reads_throw_if; [exact I|]. by intros _.
Qed.

Lemma disposition_loop_reads fuel : forall s ps, (length s <= fuel)%nat -> reads (fun _ => True) (disposition_loop fuel s ps).
Proof.
  induction fuel as [|fuel IH]; intros s ps Hf; (destruct s as [|c s]; [exact I|]); cbn [length] in Hf; [lia|]. cbn [disposition_loop].
  pose proof (until_length ends_name (trim_start isHTTPWhitespace s)) as Hu. pose proof (trim_start_length isHTTPWhitespace s) as Ht.
  destruct (until ends_name _) as [raw rest]. cbn [snd] in Hu. apply reads_throw_if; [exact I|]. intros _.
  pose proof (trim_start_length isHTTPWhitespace (tail rest)). eapply reads_bind; [apply disposition_value_reads|]. intros [value rest'] Hr. cbn [snd] in Hr.
  apply IH. destruct rest; cbn [tail length] in *; lia.
Qed.

Lemma parseContentDisposition_reads s : reads (fun _ => True) (parseContentDisposition s).
Proof.
  unfold parseContentDisposition. destruct (until is_semicolon s) as [before rest]. eapply reads_bind; [by apply disposition_loop_reads|done].
Qed.

(** ** The headers of a part *)

Lemma header_line_reads h line : reads (fun _ => True) (header_line h line).
Proof.
  unfold header_line. cbv zeta. apply reads_throw_if; [exact I|]. intros _.
  destruct (str_eqb _ (u "content-disposition")); [apply reads_throw_if; done|]. destruct (str_eqb _ (u "content-type")); [exact I|].
  destruct (str_eqb _ _); [|exact I]. by apply reads_throw_if.
Qed.

Lemma decodeUTF8_reads bytes : is_bytes bytes -> reads (fun _ => True) (decodeUTF8 bytes false false).
Proof. intros Hb. by destruct (decodeUTF8_replacing bytes false Hb) as (out & _ & _ & ->). Qed.

Lemma part_disposition_reads bytes : is_bytes bytes -> reads (fun _ => True) (part_disposition bytes).
Proof.
  intros Hb. unfold part_disposition. eapply reads_bind; [by apply decodeUTF8_reads|]. intros text _.
  eapply reads_bind; [apply reads_foldM, header_line_reads|]. intros h _. destruct (h_disposition h) as [d|]; [|exact I].
  eapply reads_bind; [apply parseContentDisposition_reads|]. intros ps _. destruct (map_get _ _); [|exact I]. by apply reads_throw_if.
Qed.

(** ** Indices *)

Lemma find_bounds x bytes from r : x <> [] -> find (new_pattern x) bytes from = Some r -> (from <= r)%nat /\ (r + length x <= length bytes)%nat.
Proof.
  intros Hne Hf. pose proof (find_spec x bytes from Hne) as H. rewrite Hf in H. destruct H as (H & [k Hk] & _). split; [done|].
  apply (f_equal length) in Hk. rewrite length_drop, length_app in Hk. destruct x; [done|]. cbn [length] in *. lia.
Qed.

Lemma padding_after rest : forall position, (position <= padding_loop rest position)%nat.
Proof. induction rest as [|c rest IH]; intros position; cbn [padding_loop]; [lia|]. destruct (_ || _); [|lia]. specialize (IH (S position)). lia. Qed.

Lemma hasPair_bound bytes n a b : hasPair bytes n a b = true -> (S n < length bytes)%nat.
Proof. unfold hasPair. intros [_ H%bool_decide_eq_true%lookup_lt_Some]%andb_true_iff. done. Qed.

Lemma is_bytes_piece bytes m n : is_bytes bytes -> is_bytes (take n (drop m bytes)).
Proof. intros Hb. by apply Forall_take, Forall_drop. Qed.

Section Loops.
Context (marker bytes : list Z) (Hmarker : marker <> []) (Hbytes : is_bytes bytes).

(** What a search returns lies within the bytes, from an index on. *)
Definition within (from : nat) (next : option nat) : Prop := forall r, next = Some r -> (from <= r)%nat /\ (r + length marker <= length bytes)%nat.

Lemma within_find from : within from (find (new_pattern marker) bytes from).
Proof. intros r. by apply find_bounds. Qed.

Lemma body_end_reads fuel : forall from next, within from next -> (length bytes <= fuel + from)%nat ->
  reads (within from) (body_end fuel (new_pattern marker) bytes next).
Proof.
  assert (Hpos : (0 < length marker)%nat) by (destruct marker; [done|cbn; lia]).
  induction fuel as [|fuel IH]; intros from [next|] Hw Hf; cbn [body_end]; try (by intros r); destruct (Hw next eq_refl) as [H1 H2].
  - destruct (ends_body _ _); [exact Hw|]. lia.
  - destruct (ends_body _ _); [exact Hw|]. change (needle (new_pattern marker)) with marker.
    pose proof (IH (next + length marker)%nat _ (within_find _) ltac:(lia)) as Hr. destruct (body_end _ _ _ _) as [o|e]; [|exact Hr].
    intros r ->. destruct (Hr r eq_refl). lia.
Qed.

Lemma decode_parts_reads maxParts maxHeader fuel : forall offset parts form, (S (length bytes) <= fuel + offset)%nat -> (offset <= length bytes)%nat ->
  len form = parts -> parts <= Z.max 0 maxParts ->
  reads (fun form => len form <= Z.max 0 maxParts) (decode_parts fuel (new_pattern marker) maxParts maxHeader bytes offset parts form).
Proof.
  induction fuel as [|fuel IH]; intros offset parts form Hf Ho Hl Hp; [lia|]. cbn [decode_parts]. cbv zeta.
  destruct (hasPair bytes offset 45 45); [apply reads_throw_if; [exact I|]; intros _; cbn; lia|].
  set (start := skipTransportPadding bytes offset). assert (Hs : (offset <= start)%nat) by apply padding_after.
  apply reads_throw_if; [exact I|]. intros Hpair%negb_false_iff%hasPair_bound. apply reads_throw_if; [exact I|]. intros Hmax%Z.ltb_ge.
  apply reads_throw_if; [exact I|]. intros _. destruct (find (new_pattern [13; 10; 13; 10]) bytes (start + 2)) as [end_|] eqn:He; [|exact I].
  apply find_bounds in He as [H1 H2]; [|done]. cbn [length] in H2. eapply reads_bind; [by apply part_disposition_reads, is_bytes_piece|].
  intros [[name filename] type] _. eapply reads_bind; [apply (body_end_reads _ (end_ + 4)); [apply within_find|lia]|].
  intros [next|] Hw; [|exact I]. destruct (Hw next eq_refl) as [H3 H4]. change (needle (new_pattern marker)) with marker.
  apply (reads_bind (fun _ => True)).
  { destruct filename; [exact I|]. pose proof (decodeUTF8_reads _ (is_bytes_piece bytes (end_ + 4) (next - (end_ + 4)) Hbytes)) as Hd.
    by destruct (decodeUTF8 _ _ _). }
  intros value _. apply IH; [lia|lia| |lia]. unfold append, len in *. rewrite length_app. cbn [length]. lia.
Qed.
End Loops.

(** ** Properties *)

(** A boundary that is accepted is ASCII. *)
Lemma boundary_bytes b : forallb is_boundary_unit b = true -> is_bytes b.
Proof.
  intros Hb. apply Forall_forall. intros c Hc. rewrite forallb_forall in Hb. apply list_elem_of_In, Hb in Hc. unfold is_boundary_unit, in_range in Hc.
  rewrite !orb_true_iff, !andb_true_iff, !Z.leb_le, bool_decide_eq_true in Hc. unfold is_byte. destruct Hc as [[[?|?]|?]|Hc]; [lia..|].
  assert (Hall : is_bytes (u "'()+_,-./:=? ")) by by_computing. rewrite Forall_forall in Hall. exact (Hall c Hc).
Qed.

Lemma valid_boundary_reads mime : reads (fun b => is_bytes b /\ 0 < len b) (valid_boundary mime).
Proof.
  unfold valid_boundary. destruct (map_get _ _) as [b|]; [|exact I]. apply reads_throw_if; [exact I|].
  intros [[[[_ H1]%orb_false_iff _]%orb_false_iff H2%negb_false_iff]%orb_false_iff _]%orb_false_iff. split; [by apply boundary_bytes|lia].
Qed.

(** C18: The decoder of multipart bodies ends on every input: it returns form data
    with no more entries than the limit, or throws a [TypeError] or a
    [LimitError]. *)
Theorem decode_multipart_total (bytes : list Z) (mime : MIMEType) (limits : MultipartDecodeLimits) :
  is_bytes bytes ->
  match decodeMultipart bytes mime limits with
  | Ok form => len form <= Z.max 0 (default 10000 (l_maxParts limits))
  | Err e => (exists msg, e = TypeError msg) \/ (exists msg, e = LimitError msg)
  end.
Proof.
  intros Hb. assert (H : reads (fun form => len form <= Z.max 0 (default 10000 (l_maxParts limits))) (decodeMultipart bytes mime limits)).
  2: { destruct (decodeMultipart _ _ _) as [form|[]]; cbn in H; eauto; done. }
  unfold decodeMultipart. eapply reads_bind; [apply valid_boundary_reads|]. intros b [Hbb Hb1].
  assert (Henc : forall l, is_bytes l -> encodeByteString (l ++ u "--" ++ b) = Ok (l ++ u "--" ++ b)).
  { intros l Hl. apply encodeByteString_bytes. apply Forall_app. split; [done|]. apply Forall_app. split; [by_computing|done]. }
  pose proof (Henc [] (Forall_nil_2 _)) as Hopen. cbn [app] in Hopen. rewrite Hopen. cbn [mbind result_bind]. rewrite (Henc crlf) by by_computing.
  cbn [mbind result_bind]. cbv zeta. set (opening := u "--" ++ b). set (marker := crlf ++ opening).
  apply (reads_bind (fun offset => (offset + length opening <= length bytes)%nat)).
  - destruct (startsWith bytes opening) eqn:Hs.
    + apply bool_decide_eq_true, (f_equal length) in Hs. rewrite length_take in Hs. cbn [reads]. lia.
    + destruct (find _ bytes 0) as [first|] eqn:Hf; [|exact I]. apply find_bounds in Hf as [_ Hf]; [|done]. unfold marker in Hf. rewrite length_app in Hf.
      change (length crlf) with 2%nat in Hf. cbn [reads]. lia.
  - intros offset Ho. apply (decode_parts_reads marker bytes); [done|done| |done|done|lia].
    unfold opening in *. rewrite length_app in *. change (length (u "--")) with 2%nat in *. lia.
Qed.

(** A body that is cut after its first part is refused. *)
Lemma decode_multipart_total_witness :
  let bytes := u "--b" ++ crlf ++ u "Content-Disposition: form-data; name=a" ++ crlf ++ crlf ++ u "text" in
  let mime := mk_mime (u "multipart") (u "form-data") (u "multipart/form-data") [(u "boundary", u "b")] in
  decodeMultipart bytes mime (mk_limits None None) = Err (TypeError "Missing multipart closing boundary") /\
  match decodeMultipart bytes mime (mk_limits None None) with
  | Ok form => len form <= 10000
  | Err e => (exists msg, e = TypeError msg) \/ (exists msg, e = LimitError msg)
  end.
Proof.
  intros bytes mime. split; [by vm_compute|]. exact (decode_multipart_total bytes mime (mk_limits None None) ltac:(by_computing)).
Defined.
