(* ===== verification/Http1.v ===== *)
(** * HTTP/1 messages ([http1/parser.ts])

    The request and status lines, the header fields, the framing of a response and
    the chunk-size line.  The parsers read through the buffered reader of [Io.v];
    what they accept is stated as a grammar of the bytes pending in it. *)

From S2P Require Import Prelude Ascii Encoding Io ReaderGrammar FetchHeaders Fields.

Record HeadLimits := mk_limits {
  maxHeaderBytes : Z;
  maxHeaders : Z;
  maxInformational : Z;
}.

Definition defaultHeadLimits : HeadLimits := mk_limits 32768 256 16.

Record ResponseHead := mk_response_head {
  rs_version : jsstr;
  rs_status : Z;
  rs_statusText : jsstr;
  rs_headers : list HeaderEntry;
}.

Record RequestHead := mk_request_head {
  rq_method : jsstr;
  rq_target : jsstr;
  rq_version : jsstr;
  rq_headers : list HeaderEntry;
}.

Definition bad_wire_unit (c : Z) : bool := ((c <? 32) && negb (c =? 9)) || (c =? 127) || (255 <? c).

Definition validateWireValue (value : jsstr) : result unit :=
  throw_if (existsb bad_wire_unit value) (ProtocolError "Invalid HTTP field value").

(** [s.charCodeAt(i)]: no unit is -1, which stands for [NaN]. *)
Definition code_at (l : jsstr) (i : Z) : Z := at_or (-1) l i.

Section Heads.
Context {T : Type} `{ByteConnection T}.

(** A nonempty line, as a header field. *)
Definition header_field (line : jsstr) : result HeaderEntry :=
  let colon := js_indexOf line 58 0 in
  let name := subarray line 0 colon in
  throw_if ((colon <=? 0) || negb (isToken name)) (ProtocolError "Malformed HTTP header or obsolete folding") ;;
  let value := subarray line (colon + 1) (len line) in
  validateWireValue value ;;
  Ok (to_lower name, trimHTTPTabOrSpace value).

(** [while (true)]: every line takes two bytes of the limit at least. *)
Fixpoint fields_loop (fuel : nat) (limits : HeadLimits) (headers : list HeaderEntry) (bytes : Z)
    : ST (BufferedReader T) (list HeaderEntry) := fun r =>
  match fuel with
  | O => Err OutOfFuel
  | S fuel =>
      '(text, r) ← line (maxHeaderBytes limits - bytes) r;
      let bytes := bytes + len text + 2 in
      if bool_decide (text = []) then Ok (headers, r)
      else
        throw_if (maxHeaders limits <=? len headers) (LimitError "Too many HTTP headers") ;;
        field ← header_field text;
        fields_loop fuel limits (headers ++ [field]) bytes r
  end.

Definition readHeaderFields (limits : HeadLimits) (initialBytes : Z)
    : ST (BufferedReader T) (list HeaderEntry) :=
  fields_loop (S (Z.to_nat (maxHeaderBytes limits - initialBytes))) limits [] initialBytes.

Definition is_version (version : jsstr) : bool := str_eqb version (u "1.0") || str_eqb version (u "1.1").
Definition not_digit (d : Z) : bool := (d <? 0) || (9 <? d).

Definition status_line (line : jsstr) : result (jsstr * Z * jsstr) :=
  throw_if ((len line <? 13) || negb (str_eqb (subarray line 0 5) (u "HTTP/")) ||
            negb (code_at line 8 =? 32) || negb (code_at line 12 =? 32))
    (ProtocolError "Malformed HTTP response status line") ;;
  let version := subarray line 5 8 in
  let first := code_at line 9 - 48 in
  let second := code_at line 10 - 48 in
  let third := code_at line 11 - 48 in
  throw_if (negb (is_version version) || not_digit first || not_digit second || not_digit third)
    (ProtocolError "Invalid HTTP status line") ;;
  let statusText := subarray line 13 (len line) in
  validateWireValue statusText ;;
  let status := first * 100 + second * 10 + third in
  throw_if ((status <? 100) || (599 <? status)) (ProtocolError "Unsupported HTTP status code") ;;
  Ok (version, status, statusText).

Definition readHead (limits : HeadLimits) : ST (BufferedReader T) ResponseHead := fun r =>
  '(text, r) ← line (maxHeaderBytes limits) r;
  '(version, status, statusText) ← status_line text;
  '(headers, r) ← readHeaderFields limits (len text + 2) r;
  Ok (mk_response_head version status statusText headers, r).

(** [line.lastIndexOf(" ")] *)
Definition js_lastIndexOf (l : jsstr) (x : Z) : Z :=
  let i := index_of_from x (reverse l) 0 in
  if i <? 0 then -1 else len l - 1 - i.

Definition request_line (line : jsstr) : result (jsstr * jsstr * jsstr) :=
  let firstSpace := js_indexOf line 32 0 in
  let lastSpace := js_lastIndexOf line 32 in
  throw_if ((firstSpace <=? 0) || (lastSpace <=? firstSpace + 1)) (ProtocolError "Malformed HTTP request line") ;;
  let method := subarray line 0 firstSpace in
  throw_if (negb (isToken method)) (ProtocolError "Invalid HTTP method") ;;
  let target := subarray line (firstSpace + 1) lastSpace in
  throw_if (existsb (fun code => (code <? 0x21) || (0x7e <? code)) target) (ProtocolError "Invalid HTTP request target") ;;
  let versionField := subarray line (lastSpace + 1) (len line) in
  throw_if (negb (len versionField =? 8) || negb (str_eqb (subarray versionField 0 5) (u "HTTP/")))
    (ProtocolError "Malformed HTTP request line") ;;
  let version := subarray versionField 5 (len versionField) in
  throw_if (negb (is_version version)) (ProtocolError "Unsupported HTTP version") ;;
  Ok (method, target, version).

Definition readRequestHead (limits : HeadLimits) : ST (BufferedReader T) RequestHead := fun r =>
  '(text, r) ← line (maxHeaderBytes limits) r;
  '(method, target, version) ← request_line text;
  '(headers, r) ← readHeaderFields limits (len text + 2) r;
  Ok (mk_request_head method target version headers, r).
End Heads.

Inductive framing := framing_chunked | framing_fixed (length : Z) | framing_eof.

Definition responseFraming (headers : Headers) : result framing :=
  length ← contentLength headers;
  transferEncoding ← get headers (u "transfer-encoding");
  match transferEncoding with
  | Some transferEncoding =>
      throw_if (negb (bool_decide (length = None))) (ProtocolError "Ambiguous Transfer-Encoding and Content-Length") ;;
      throw_if (negb (str_eqb (to_lower (trimHTTPTabOrSpace transferEncoding)) (u "chunked")))
        (ProtocolError "Unsupported or ambiguous Transfer-Encoding") ;;
      Ok framing_chunked
  | None => Ok (match length with None => framing_eof | Some length => framing_fixed length end)
  end.

(** ** The chunk-size line *)

Definition isTabOrSpace (code : Z) : bool := (code =? 9) || (code =? 32).

Definition isQuotedText (code : Z) : bool :=
  (code =? 9) || (code =? 32) || (code =? 33) || in_range 35 91 code || in_range 93 126 code || (128 <=? code).

Definition isQuotedPairValue (code : Z) : bool :=
  (code =? 9) || (code =? 32) || in_range 33 126 code || (128 <=? code).

Fixpoint skip_while (fuel : nat) (p : Z -> bool) (line : jsstr) (index : Z) : Z :=
  match fuel with
  | O => index
  | S fuel => if (index <? len line) && p (code_at line index) then skip_while fuel p line (index + 1) else index
  end.

Definition skipBadWhitespace (line : jsstr) (start : Z) : Z := skip_while (length line) isTabOrSpace line start.

(** [while (index < line.length)] in a quoted string: an iteration takes a unit. *)
Fixpoint quoted_loop (fuel : nat) (line : jsstr) (index : Z) : result Z :=
  let unterminated := Err (ProtocolError "Unterminated HTTP chunk extension string") in
  match fuel with
  | O => Err OutOfFuel
  | S fuel =>
      if index <? len line then
        let code := code_at line index in
        let index := index + 1 in
        if code =? 34 then Ok index
        else if code =? 92 then
          throw_if ((index =? len line) || negb (isQuotedPairValue (code_at line index)))
            (ProtocolError "Invalid HTTP chunk extension escape") ;;
          quoted_loop fuel line (index + 1)
        else
          throw_if (negb (isQuotedText code)) (ProtocolError "Invalid HTTP chunk extension string") ;;
          quoted_loop fuel line index
      else unterminated
  end.

Definition skipChunkExtensionValue (line : jsstr) (start : Z) : result Z :=
  if negb (code_at line start =? 34) then
    let end_ := skip_while (length line) (fun c => negb (isTabOrSpace c) && negb (c =? 59)) line start in
    throw_if (negb (isToken (subarray line start end_))) (ProtocolError "Invalid HTTP chunk extension") ;;
    Ok end_
  else quoted_loop (S (length line)) line (start + 1).

Definition hexDigit (code : Z) : Z :=
  if in_range 48 57 code then code - 48
  else if in_range 65 70 code then code - 55
  else if in_range 97 102 code then code - 87
  else -1.

(** The size loop: the number, which is the code's double up to
    [MAX_SAFE_INTEGER] and no safe integer beyond, and the index. *)
Fixpoint size_loop (fuel : nat) (line : jsstr) (index size : Z) : Z * Z :=
  match fuel with
  | O => (index, size)
  | S fuel =>
      if index <? len line then
        let digit := hexDigit (code_at line index) in
        if digit <? 0 then (index, size) else size_loop fuel line (index + 1) (size * 16 + digit)
      else (index, size)
  end.

Definition extension_name_unit (c : Z) : bool := negb (isTabOrSpace c) && negb (c =? 59) && negb (c =? 61).

(** An iteration of [while (index < line.length)]: one extension. *)
Definition chunk_extension (line : jsstr) (index : Z) : result Z :=
  let index := skipBadWhitespace line index in
  throw_if ((index =? len line) || negb (code_at line index =? 59)) (ProtocolError "Invalid HTTP chunk extension delimiter") ;;
  let index := skipBadWhitespace line (index + 1) in
  let nameStart := index in
  let index := skip_while (length line) extension_name_unit line index in
  throw_if (negb (isToken (subarray line nameStart index))) (ProtocolError "Invalid HTTP chunk extension name") ;;
  let nameEnd := index in
  let index := skipBadWhitespace line index in
  throw_if ((index =? len line) && negb (index =? nameEnd)) (ProtocolError "Invalid trailing whitespace in HTTP chunk extension") ;;
  if (index <? len line) && (code_at line index =? 61) then
    let index := skipBadWhitespace line (index + 1) in
    throw_if (index =? len line) (ProtocolError "Missing HTTP chunk extension value") ;;
    skipChunkExtensionValue line index
  else Ok index.

Fixpoint extensions_loop (fuel : nat) (line : jsstr) (index : Z) : result unit :=
  if index <? len line then
    match fuel with
    | O => Err OutOfFuel
    | S fuel => index ← chunk_extension line index; extensions_loop fuel line index
    end
  else Ok tt.

Definition parseChunkSize (line : jsstr) : result Z :=
  validateWireValue line ;;
  let '(index, size) := size_loop (length line) line 0 0 in
  throw_if (index =? 0) (ProtocolError "Invalid HTTP chunk size") ;;
  extensions_loop (length line) line index ;;
  throw_if (negb (isSafeInteger size)) (LimitError "HTTP chunk is too large") ;;
  Ok size.

(** ** Grammars of what is pending *)

Definition field_line (line : jsstr) (field : HeaderEntry) : Prop := exists name value,
  line = name ++ 58 :: value /\ isToken name = true /\ existsb bad_wire_unit value = false /\
  field = (to_lower name, trimHTTPTabOrSpace value).

Definition header_block (lines : list jsstr) : list Z := concat (crlf <$> lines) ++ crlf [].

(** The header fields after [used] bytes of the limit. *)
Definition fields_grammar (limits : HeadLimits) (used : Z) (bytes : list Z) (fields : list HeaderEntry) (rest : list Z) : Prop :=
  exists lines, bytes = header_block lines ++ rest /\ Forall2 field_line lines fields /\
    (fields = [] \/ len fields <= maxHeaders limits) /\ used + len (header_block lines) <= maxHeaderBytes limits.

Definition is_target_unit (c : Z) : Prop := 0x21 <= c <= 0x7e.

Definition request_text (method target version : jsstr) : jsstr :=
  method ++ 32 :: target ++ 32 :: u "HTTP/" ++ version.

Definition request_grammar (limits : HeadLimits) (bytes : list Z) (head : RequestHead) (rest : list Z) : Prop :=
  let text := request_text (rq_method head) (rq_target head) (rq_version head) in
  isToken (rq_method head) = true /\ rq_target head <> [] /\ Forall is_target_unit (rq_target head) /\
  is_version (rq_version head) = true /\
  exists after, bytes = crlf text ++ after /\ fields_grammar limits (len text + 2) after (rq_headers head) rest.

Definition digits3 (n : Z) : jsstr := [48 + n / 100; 48 + n / 10 mod 10; 48 + n mod 10].

Definition status_text (version : jsstr) (status : Z) (reason : jsstr) : jsstr :=
  u "HTTP/" ++ version ++ 32 :: digits3 status ++ 32 :: reason.

Definition response_grammar (limits : HeadLimits) (bytes : list Z) (head : ResponseHead) (rest : list Z) : Prop :=
  let text := status_text (rs_version head) (rs_status head) (rs_statusText head) in
  is_version (rs_version head) = true /\ 100 <= rs_status head <= 599 /\
  existsb bad_wire_unit (rs_statusText head) = false /\
  exists after, bytes = crlf text ++ after /\ fields_grammar limits (len text + 2) after (rs_headers head) rest.

Definition example_request : BufferedReader Script :=
  new_BufferedReader (mk_script [3; 1; 7; 2]%nat (u "GET /a HTTP/1.1" ++ [13; 10] ++ u "Host:  x " ++ [13; 10; 13; 10; 1; 2]) []).

Definition example_response : BufferedReader Script :=
  new_BufferedReader (mk_script [1; 20; 3]%nat (u "HTTP/1.0 204 No" ++ [13; 10; 13; 10; 7]) []).

Definition is_bws (c : Z) : Prop := isTabOrSpace c = true.

(** What follows the opening quote of a string. *)
Inductive quoted : jsstr -> Prop :=
| quoted_end : quoted [34]
| quoted_pair c q : isQuotedPairValue c = true -> quoted q -> quoted (92 :: c :: q)
| quoted_text c q : c <> 34 -> c <> 92 -> isQuotedText c = true -> quoted q -> quoted (c :: q).

Definition extension_value (v : jsstr) : Prop := isToken v = true \/ exists q, v = 34 :: q /\ quoted q.

(** [BWS ";" BWS name \[BWS "=" BWS value\]] *)
Inductive extension : jsstr -> Prop :=
| extension_name w1 w2 name :
    Forall is_bws w1 -> Forall is_bws w2 -> isToken name = true -> extension (w1 ++ 59 :: w2 ++ name)
| extension_with_value w1 w2 name w3 w4 value :
    Forall is_bws w1 -> Forall is_bws w2 -> isToken name = true -> Forall is_bws w3 -> Forall is_bws w4 ->
    extension_value value -> extension (w1 ++ 59 :: w2 ++ name ++ w3 ++ 61 :: w4 ++ value).

Inductive extensions : jsstr -> Prop :=
| extensions_nil : extensions []
| extensions_cons e more : extension e -> extensions more -> extensions (e ++ more).

Definition is_hex (c : Z) : Prop := 0 <= hexDigit c.

Definition hex_value (ds : jsstr) : Z := foldl (fun v c => v * 16 + hexDigit c) 0 ds.

Definition chunk_line (n : Z) (line : jsstr) : Prop := exists ds exts,
  line = ds ++ exts /\ ds <> [] /\ Forall is_hex ds /\ extensions exts /\ existsb bad_wire_unit line = false /\
  n = hex_value ds /\ n <= MAX_SAFE_INTEGER.


(** ** Header fields *)

Lemma throw_if_iff c e (P : Prop) : (c = false <-> P) -> throw_if c e = Ok tt <-> P.
Proof. intros <-. by destruct c. Qed.

Lemma token_units name c : isToken name = true -> c ∈ name -> is_token_unit c = true.
Proof.
  unfold isToken. intros [_ H]%andb_true_iff Hc. rewrite forallb_forall in H. apply H. by apply list_elem_of_In.
Qed.

Lemma token_nonempty name : isToken name = true -> name <> [].
Proof. by intros H ->. Qed.

Lemma token_without name c : isToken name = true -> is_token_unit c = false -> c ∉ name.
Proof. intros Hn Hc Hin. pose proof (token_units name c Hn Hin). congruence. Qed.

Lemma subarray_start {A} (a b : list A) : subarray (a ++ b) 0 (len a) = a.
Proof. apply (subarray_app_mid [] a b). Qed.

Lemma subarray_rest {A} (a b : list A) : subarray (a ++ b) (len a) (len (a ++ b)) = b.
Proof. pose proof (subarray_app_mid a b []) as H. rewrite app_nil_r in H. by rewrite len_app. Qed.

Lemma header_field_iff line field : header_field line = Ok field <-> field_line line field.
Proof.
  unfold header_field, js_indexOf. change (Z.to_nat 0) with 0%nat. rewrite drop_0. split.
  - intros H. ok_inv H. ok_inv H. unfold validateWireValue in Hx. apply throw_if_Ok in Hx. injection H as <-.
    apply orb_false_iff in Hc as [Hcolon Hname]. apply negb_false_iff in Hname.
    destruct (index_of_from_spec 58 line 0) as [[E _]|(a & b & -> & Ha & E)]; [lia|lia|]. rewrite E, Z.add_0_l in *.
    rewrite subarray_start in Hname. exists a, b.
    replace (a ++ 58 :: b) with ((a ++ [58]) ++ b) in * by by rewrite <- app_assoc.
    replace (len a + 1) with (len (a ++ [58])) in * by by rewrite len_app. rewrite subarray_rest in *.
    rewrite <- app_assoc, subarray_start. by split_and!.
  - intros (name & value & -> & Hn & Hv & ->). pose proof (token_nonempty name Hn) as Hne.
    rewrite index_of_from_app by (done || by apply token_without). rewrite Z.add_0_l, subarray_start, Hn.
    assert (Hl : 1 <= len name) by (destruct name; [done|]; rewrite len_cons; pose proof (len_nonneg name); lia).
    replace (len name <=? 0) with false by lia. cbn [orb negb throw_if mbind result_bind].
    replace (name ++ 58 :: value) with ((name ++ [58]) ++ value) by by rewrite <- app_assoc.
    replace (len name + 1) with (len (name ++ [58])) by by rewrite len_app. rewrite subarray_rest.
    unfold validateWireValue. by rewrite Hv.
Qed.

Lemma header_field_finishes line : finishes (header_field line).
Proof. unfold header_field, validateWireValue. auto 10 with finishes. Qed.

Lemma field_line_text line field : field_line line field -> 10 ∉ line /\ line <> [].
Proof.
  intros (name & value & -> & Hn & Hv & _). split; [|by destruct name].
  rewrite not_elem_of_app, not_elem_of_cons. split_and!; [by apply token_without|done|].
  intros Hin. apply not_true_iff_false in Hv. apply Hv, existsb_exists. exists 10. split; [by apply list_elem_of_In|done].
Qed.

Lemma len_crlf text : len (crlf text) = len text + 2.
Proof. unfold crlf. by rewrite len_app. Qed.

Lemma header_block_cons line lines : header_block (line :: lines) = crlf line ++ header_block lines.
Proof. unfold header_block. cbn [fmap list_fmap concat]. by rewrite <- app_assoc. Qed.

Lemma len_header_block_nil : len (header_block []) = 2.
Proof. done. Qed.

Section HeadGrammars.
Context {T : Type} `{Transport T}.
Implicit Types r : BufferedReader T.

Lemma crlf_inj a b x y : 10 ∉ a -> 10 ∉ b -> crlf a ++ x = crlf b ++ y -> a = b /\ x = y.
Proof.
  unfold crlf. rewrite <- !app_assoc. cbn [app]. intros Ha Hb E.
  replace (a ++ 13 :: 10 :: x) with ((a ++ [13]) ++ 10 :: x) in E by by rewrite <- app_assoc.
  replace (b ++ 13 :: 10 :: y) with ((b ++ [13]) ++ 10 :: y) in E by by rewrite <- app_assoc.
  apply (span_unique (fun c => c <> 10)) in E as [E1 E2].
  - split; [by apply app_inj_2 in E1 as [-> _]|by injection E2].
  - apply Forall_forall. intros c Hc ->. set_solver.
  - apply Forall_forall. intros c Hc ->. set_solver.
  - intros c [= <-]. by intros [].
  - intros c [= <-]. by intros [].
Qed.

(** What the fields still to be read are, after [headers] and [bytes]. *)
Definition more_fields (limits : HeadLimits) (headers : list HeaderEntry) (bytes : Z) (before : list Z)
    (out : list HeaderEntry) (rest : list Z) : Prop :=
  exists lines fields, out = headers ++ fields /\ before = header_block lines ++ rest /\
    Forall2 field_line lines fields /\ (fields = [] \/ len out <= maxHeaders limits) /\
    bytes + len (header_block lines) <= maxHeaderBytes limits.

(** The first line ends the fields or is one of them. *)
Definition first_line (limits : HeadLimits) (headers : list HeaderEntry) (bytes : Z) (text : jsstr) (mid : list Z)
    (out : list HeaderEntry) (rest : list Z) : Prop :=
  if bool_decide (text = []) then out = headers /\ rest = mid
  else exists u : unit, len headers < maxHeaders limits /\ exists field, field_line text field /\
    more_fields limits (headers ++ [field]) (bytes + len text + 2) mid out rest.

Lemma more_fields_first limits headers bytes before out rest :
  (exists text mid, (before = crlf text ++ mid /\ 10 ∉ text /\ len text + 2 <= maxHeaderBytes limits - bytes) /\
    first_line limits headers bytes text mid out rest) <-> more_fields limits headers bytes before out rest.
Proof.
  unfold first_line, more_fields. split.
  - intros (text & mid & (-> & Hn & Hl) & HG). case_bool_decide as Ht.
    + destruct HG as [-> ->]. subst text. exists [], []. rewrite app_nil_r. split_and!; [done|done|constructor|by left|].
      rewrite len_header_block_nil. change (len []) with 0 in Hl. lia.
    + destruct HG as (_ & Hm & field & Hfield & lines & fields & -> & -> & Hall & Hc & Hle).
      exists (text :: lines), (field :: fields). rewrite header_block_cons, <- !app_assoc. split_and!; [done|done|by constructor| |].
      * right. destruct Hc as [->|Hc]; [|by rewrite <- app_assoc in Hc]. cbn [app]. rewrite len_app. change (len [field]) with 1. lia.
      * rewrite len_app, len_crlf. lia.
  - intros (lines & fields & -> & -> & Hall & Hc & Hle). destruct Hall as [|text field lines fields Hfield Hall].
    + exists [], rest. rewrite app_nil_r. split; [|by rewrite bool_decide_eq_true_2]. split; [done|]. split; [set_solver|].
      rewrite len_header_block_nil in Hle. change (len []) with 0. lia.
    + destruct (field_line_text text field Hfield) as [Hn Hne]. exists text, (header_block lines ++ rest).
      rewrite header_block_cons, <- app_assoc in *. rewrite len_app, len_crlf in Hle. pose proof (len_nonneg (header_block lines)).
      split; [split_and!; [done|done|lia]|]. rewrite bool_decide_eq_false_2 by done. exists tt.
      destruct Hc as [|Hc]; [done|]. pose proof Hc as Hc'. rewrite len_app, len_cons in Hc'. pose proof (len_nonneg fields).
      split; [lia|]. exists field. split; [done|]. exists lines, fields. rewrite <- app_assoc. cbn [app].
      split_and!; [done|done|done|by right|lia].
Qed.

Lemma pending_mid r text mid : is_bytes (pending r) -> pending r = text ++ mid -> is_bytes mid.
Proof. intros Hb E. rewrite E in Hb. by apply Forall_app in Hb as [_ Hb]. Qed.

Lemma fields_loop_parses limits fuel : forall headers bytes r,
  reader_ok r -> is_bytes (pending r) -> maxHeaderBytes limits - bytes < Z.of_nat fuel -> (0 < fuel)%nat ->
  parses (fields_loop fuel limits headers bytes r) (more_fields limits headers bytes (pending r)).
Proof.
  induction fuel as [|fuel IH]; intros headers bytes r Hr Hb Hf Hf0; [lia|]. cbn [fields_loop].
  eapply reader_iff; [apply more_fields_first|].
  apply (reader_bind _ (fun text r => _) _ (first_line limits headers bytes) (line_parses _ r Hr Hb)).
  intros text r' (Hp & Hn & Hl) Hr'. unfold first_line. case_bool_decide as Ht; [by apply reader_ret|].
  assert (Hlt : 1 <= len text) by (destruct text; [done|]; rewrite len_cons; pose proof (len_nonneg text); lia).
  apply (reader_check _ r'); [intros []; apply throw_if_iff, Z.leb_gt|auto with finishes|].
  intros _ Hm. apply (reader_check _ r'); [apply header_field_iff|apply header_field_finishes|].
  intros field Hfield. apply IH; [done|by eapply pending_mid|lia|lia].
Qed.

Lemma readHeaderFields_parses limits used r : reader_ok r -> is_bytes (pending r) ->
  parses (readHeaderFields limits used r) (fields_grammar limits used (pending r)).
Proof.
  intros Hr Hb. unfold readHeaderFields.
  eapply reader_iff; [|apply fields_loop_parses; [done|done|lia|lia]].
  intros out rest. unfold more_fields, fields_grammar. split.
  - intros (lines & fields & -> & Hp & Hall & Hc & Hle). by exists lines.
  - intros (lines & Hp & Hall & Hc & Hle). by exists lines, out.
Qed.
End HeadGrammars.

(** ** The request and status lines *)

Lemma is_version_cases v : is_version v = true -> v = u "1.0" \/ v = u "1.1".
Proof. unfold is_version. intros [H|H]%orb_true_iff; [left|right]; by apply str_eqb_true. Qed.

(** The last occurrence cuts the string. *)
Lemma js_lastIndexOf_spec l x :
  (js_lastIndexOf l x = -1 /\ x ∉ l) \/ exists a b, l = a ++ x :: b /\ x ∉ b /\ js_lastIndexOf l x = len a.
Proof.
  unfold js_lastIndexOf. destruct (index_of_from_spec x (reverse l) 0) as [[-> Hn]|(c & d & E & Hc & ->)]; [lia| |].
  - left. split; [done|]. intros Hx. apply Hn. by apply elem_of_reverse.
  - right. exists (reverse d), (reverse c). assert (El : l = reverse d ++ x :: reverse c).
    { rewrite <- (reverse_involutive l), E, reverse_app, reverse_cons, <- app_assoc. done. }
    split; [done|]. split; [by rewrite elem_of_reverse|]. rewrite El at 1. rewrite len_app, len_cons.
    assert (Hlen : len (reverse c) = len c) by (unfold len; by rewrite length_reverse).
    rewrite Hlen. pose proof (len_nonneg c). destruct (Z.ltb_spec (0 + len c) 0); lia.
Qed.

Lemma js_lastIndexOf_app a x b : x ∉ b -> js_lastIndexOf (a ++ x :: b) x = len a.
Proof.
  intros Hb. destruct (js_lastIndexOf_spec (a ++ x :: b) x) as [[_ Hn]|(a' & b' & E & Hb' & ->)]; [set_solver|].
  assert (E' : reverse b ++ x :: reverse a = reverse b' ++ x :: reverse a').
  { apply (f_equal reverse) in E. rewrite !reverse_app, !reverse_cons, <- !app_assoc in E. exact E. }
  apply (span_unique (fun c => c <> x)) in E' as [_ E'].
  - injection E' as E'. unfold len. by rewrite <- (length_reverse a), <- (length_reverse a'), E'.
  - apply Forall_forall. intros c Hc ->. apply Hb. by apply elem_of_reverse.
  - apply Forall_forall. intros c Hc ->. apply Hb'. by apply elem_of_reverse.
  - intros c [= <-]. by intros [].
  - intros c [= <-]. by intros [].
Qed.

Lemma target_units t : existsb (fun code => (code <? 0x21) || (0x7e <? code)) t = false <-> Forall is_target_unit t.
Proof.
  induction t as [|c t IH]; [done|]. cbn [existsb]. rewrite orb_false_iff, IH, Forall_cons. unfold is_target_unit.
  split; intros [Hc Ht]; (split; [lia|exact Ht]).
Qed.

Lemma js_indexOf_first l x : js_indexOf l x 0 = index_of_from x l 0.
Proof. unfold js_indexOf. change (Z.to_nat 0) with 0%nat. by rewrite drop_0. Qed.

Lemma request_line_iff text m t v : request_line text = Ok (m, t, v) <->
  text = request_text m t v /\ isToken m = true /\ t <> [] /\ Forall is_target_unit t /\ is_version v = true.
Proof.
  unfold request_line. rewrite js_indexOf_first. split.
  - intros H. ok_inv H. apply orb_false_iff in Hc as [Hf Hl].
    destruct (index_of_from_spec 32 text 0) as [[E _]|(a & b & E & Ha & Ei)]; [lia|lia|]. rewrite Ei, Z.add_0_l in *.
    destruct (js_lastIndexOf_spec text 32) as [[El _]|(a' & b' & E' & Hb' & El)]; [pose proof (len_nonneg a); lia|]. rewrite El in *.
    assert (Ht : exists t0, a' = a ++ 32 :: t0 /\ t0 <> []).
    { rewrite E in E'. apply app_eq_app in E' as (k & [[-> Ek]|[-> Ek]]).
      - rewrite len_app in Hl. pose proof (len_nonneg k). lia.
      - destruct k as [|x k]; [rewrite app_nil_r in Hl; lia|]. injection Ek as <- _. exists k. split; [done|].
        intros ->. rewrite len_app in Hl. change (len [32]) with 1 in Hl. lia. }
    destruct Ht as (t0 & -> & Ht0). rewrite E' in H. rewrite <- app_assoc in H. cbn [app] in H.
    rewrite subarray_start in H.
    assert (Htarget : subarray (a ++ 32 :: t0 ++ 32 :: b') (len a + 1) (len (a ++ 32 :: t0)) = t0).
    { pose proof (subarray_app_mid (a ++ [32]) t0 (32 :: b')) as Hs. rewrite len_app, <- app_assoc in Hs. cbn [app] in Hs.
      change (len [32]) with 1 in Hs. rewrite <- Hs at 3. f_equal. rewrite len_app, len_cons. lia. }
    assert (Hver : subarray (a ++ 32 :: t0 ++ 32 :: b') (len (a ++ 32 :: t0) + 1) (len (a ++ 32 :: t0 ++ 32 :: b')) = b').
    { replace (a ++ 32 :: t0 ++ 32 :: b') with (((a ++ 32 :: t0) ++ [32]) ++ b') by (rewrite <- !app_assoc; done).
      replace (len (a ++ 32 :: t0) + 1) with (len ((a ++ 32 :: t0) ++ [32])) by (by rewrite (len_app (a ++ _))).
      apply subarray_rest. }
    rewrite Htarget, Hver in H. ok_inv H. ok_inv H. ok_inv H. ok_inv H. injection H as <- <- <-.
    apply negb_false_iff in Hc. apply target_units in Hc0. apply orb_false_iff in Hc1 as [H8 Hh].
    apply negb_false_iff, Z.eqb_eq in H8. apply negb_false_iff, str_eqb_true in Hh. apply negb_false_iff in Hc2.
    split; [|done]. rewrite E', <- app_assoc. unfold request_text. cbn [app]. do 4 f_equal.
    rewrite <- Hh. unfold subarray. rewrite Z.sub_0_r. change (Z.to_nat 0) with 0%nat. rewrite drop_0.
    rewrite (take_ge (drop _ b')) by (rewrite length_drop; unfold len in *; lia). symmetry. apply take_drop.
  - intros (-> & Hm & Ht & Hall & Hv). unfold request_text. pose proof (token_nonempty m Hm) as Hne.
    assert (Hl : 1 <= len m) by (destruct m; [done|]; rewrite len_cons; pose proof (len_nonneg m); lia).
    assert (Hlt : 1 <= len t) by (destruct t; [done|]; rewrite len_cons; pose proof (len_nonneg t); lia).
    set (tail := u "HTTP/" ++ v).
    assert (Htail : 32 ∉ tail /\ len tail = 8 /\ subarray tail 0 5 = u "HTTP/" /\ subarray tail 5 (len tail) = v).
    { unfold tail. destruct (is_version_cases v Hv) as [->| ->]; by_computing. }
    destruct Htail as (Hn32 & H8 & Hhttp & Hvv). clearbody tail.
    rewrite index_of_from_app by (done || by apply token_without). rewrite Z.add_0_l.
    assert (Hlast : js_lastIndexOf (m ++ 32 :: t ++ 32 :: tail) 32 = len m + 1 + len t).
    { replace (m ++ 32 :: t ++ 32 :: tail) with ((m ++ 32 :: t) ++ 32 :: tail) by by rewrite <- app_assoc.
      rewrite js_lastIndexOf_app by done. rewrite len_app, len_cons. lia. }
    rewrite Hlast, subarray_start, Hm.
    replace ((len m <=? 0) || (len m + 1 + len t <=? len m + 1)) with false by lia. cbn [throw_if mbind result_bind negb].
    assert (Htarget : subarray (m ++ 32 :: t ++ 32 :: tail) (len m + 1) (len m + 1 + len t) = t).
    { pose proof (subarray_app_mid (m ++ [32]) t (32 :: tail)) as Hs. rewrite len_app, <- app_assoc in Hs. exact Hs. }
    assert (Hver : subarray (m ++ 32 :: t ++ 32 :: tail) (len m + 1 + len t + 1) (len (m ++ 32 :: t ++ 32 :: tail)) = tail).
    { replace (m ++ 32 :: t ++ 32 :: tail) with ((m ++ 32 :: t ++ [32]) ++ tail) by (rewrite <- !app_assoc; cbn; by rewrite <- app_assoc).
      replace (len m + 1 + len t + 1) with (len (m ++ 32 :: t ++ [32])) by (rewrite len_app, len_cons, len_app; change (len [32]) with 1; lia).
      apply subarray_rest. }
    rewrite Htarget, Hver, H8, Hhttp. apply target_units in Hall. rewrite Hall. cbn [throw_if mbind result_bind].
    rewrite <- H8, Hvv, Hv. by rewrite H8.
Qed.

Lemma request_line_finishes text : finishes (request_line text).
Proof. unfold request_line. auto 20 with finishes. Qed.

Lemma status_digits f s t : 0 <= f <= 9 -> 0 <= s <= 9 -> 0 <= t <= 9 ->
  digits3 (f * 100 + s * 10 + t) = [48 + f; 48 + s; 48 + t].
Proof. intros. unfold digits3. f_equal; [div_lia|]. f_equal; [div_lia|]. f_equal. div_lia. Qed.

Lemma status_line_iff text v st reason : status_line text = Ok (v, st, reason) <->
  text = status_text v st reason /\ is_version v = true /\ 100 <= st <= 599 /\ existsb bad_wire_unit reason = false.
Proof.
  unfold status_line, validateWireValue. split.
  - intros H. ok_inv H. ok_inv H. ok_inv H. ok_inv H. injection H as <- <- <-.
    apply orb_false_iff in Hc as [Hc Hsp2]. apply orb_false_iff in Hc as [Hc Hsp1]. apply orb_false_iff in Hc as [Hl Hh].
    apply orb_false_iff in Hc0 as [Hc0 Ht]. apply orb_false_iff in Hc0 as [Hc0 Hs]. apply orb_false_iff in Hc0 as [Hv Hf].
    unfold not_digit in *. apply negb_false_iff in Hv, Hh, Hsp1, Hsp2. apply str_eqb_true in Hh.
    destruct text as [|c0 [|c1 [|c2 [|c3 [|c4 [|c5 [|c6 [|c7 [|c8 [|c9 [|c10 [|c11 [|c12 text]]]]]]]]]]]]]; try discriminate Hl.
    change (subarray (c0 :: _) 0 5) with [c0; c1; c2; c3; c4] in *. change (subarray (c0 :: _) 5 8) with [c5; c6; c7] in *.
    change (code_at (c0 :: _) 8) with c8 in *. change (code_at (c0 :: _) 9) with c9 in *.
    change (code_at (c0 :: _) 10) with c10 in *. change (code_at (c0 :: _) 11) with c11 in *.
    change (code_at (c0 :: _) 12) with c12 in *.
    change (c0 :: c1 :: c2 :: c3 :: c4 :: c5 :: c6 :: c7 :: c8 :: c9 :: c10 :: c11 :: c12 :: text) with
      ([c0; c1; c2; c3; c4; c5; c6; c7; c8; c9; c10; c11; c12] ++ text) in *.
    change 13 with (len [c0; c1; c2; c3; c4; c5; c6; c7; c8; c9; c10; c11; c12]) in *. rewrite subarray_rest in *.
    unfold status_text. rewrite status_digits by lia. split; [|split; [done|split; [lia|done]]].
    rewrite <- Hh. cbn [app]. repeat f_equal; lia.
  - intros (-> & Hv & Hst & Hr). unfold status_text.
    assert (Hd : exists f s t, digits3 st = [48 + f; 48 + s; 48 + t] /\ 0 <= f <= 9 /\ 0 <= s <= 9 /\ 0 <= t <= 9 /\ st = f * 100 + s * 10 + t).
    { exists (st / 100), (st / 10 mod 10), (st mod 10). split; [done|]. split_and!; div_lia. }
    destruct Hd as (f & s & t & -> & Hf & Hs & Ht & ->).
    assert (Hv3 : exists x y z, v = [x; y; z]) by (destruct (is_version_cases v Hv) as [->| ->]; by eexists _, _, _).
    destruct Hv3 as (x & y & z & ->).
    change (u "HTTP/" ++ [x; y; z] ++ 32 :: [48 + f; 48 + s; 48 + t] ++ 32 :: reason) with
      ([72; 84; 84; 80; 47; x; y; z; 32; 48 + f; 48 + s; 48 + t; 32] ++ reason).
    set (prefix := [72; 84; 84; 80; 47; x; y; z; 32; 48 + f; 48 + s; 48 + t; 32]).
    change (subarray (prefix ++ reason) 0 5) with (u "HTTP/"). change (subarray (prefix ++ reason) 5 8) with [x; y; z].
    change (code_at (prefix ++ reason) 8) with 32. change (code_at (prefix ++ reason) 12) with 32.
    change (code_at (prefix ++ reason) 9) with (48 + f). change (code_at (prefix ++ reason) 10) with (48 + s).
    change (code_at (prefix ++ reason) 11) with (48 + t). change 13 with (len prefix). rewrite subarray_rest, Hv, Hr, len_app.
    pose proof (len_nonneg reason). unfold not_digit.
    replace (len prefix + len reason <? len prefix) with false by lia. cbn [negb orb throw_if mbind result_bind].
    replace (48 + f - 48) with f by lia. replace (48 + s - 48) with s by lia. replace (48 + t - 48) with t by lia.
    change (str_eqb (u "HTTP/") (u "HTTP/")) with true. cbn [Z.eqb Pos.eqb negb orb throw_if mbind result_bind].
    replace ((f <? 0) || (9 <? f) || ((s <? 0) || (9 <? s)) || ((t <? 0) || (9 <? t))) with false by lia.
    cbn [throw_if mbind result_bind]. by replace ((f * 100 + s * 10 + t <? 100) || (599 <? f * 100 + s * 10 + t)) with false by lia.
Qed.

Lemma status_line_finishes text : finishes (status_line text).
Proof. unfold status_line, validateWireValue. auto 20 with finishes. Qed.

(** ** Heads *)

Lemma request_text_line m t v : isToken m = true -> Forall is_target_unit t -> is_version v = true -> 10 ∉ request_text m t v.
Proof.
  intros Hm Ht Hv. unfold request_text. rewrite !not_elem_of_app, !not_elem_of_cons, !not_elem_of_app, !not_elem_of_cons, not_elem_of_app.
  split_and!; try done; [by apply token_without| |by_computing|by destruct (is_version_cases v Hv) as [->| ->]; by_computing].
  intros Hin. rewrite Forall_forall in Ht. specialize (Ht 10 Hin). unfold is_target_unit in Ht. lia.
Qed.

Lemma wire_no_lf l : existsb bad_wire_unit l = false -> 10 ∉ l.
Proof.
  intros Hv Hin. apply not_true_iff_false in Hv. apply Hv, existsb_exists. exists 10. split; [by apply list_elem_of_In|done].
Qed.

Lemma status_text_line v st reason : is_version v = true -> 100 <= st <= 599 -> existsb bad_wire_unit reason = false ->
  10 ∉ status_text v st reason.
Proof.
  intros Hv Hst Hr. unfold status_text, digits3. rewrite !not_elem_of_app, !not_elem_of_cons, not_elem_of_app, !not_elem_of_cons.
  split_and!; try done; [by_computing|by destruct (is_version_cases v Hv) as [->| ->]; by_computing|div_lia|div_lia|div_lia|
    apply not_elem_of_nil|by apply wire_no_lf].
Qed.

Section HeadTheory.
Context {T : Type} `{Transport T}.
Implicit Types r : BufferedReader T.

Lemma readRequestHead_parses limits r : reader_ok r -> is_bytes (pending r) ->
  parses (readRequestHead limits r) (request_grammar limits (pending r)).
Proof.
  intros Hr Hb. unfold readRequestHead.
  eapply reader_iff; [|apply (reader_bind _ (fun text r => _) _ (fun text mid head rest => exists mtv : jsstr * jsstr * jsstr,
    (text = request_text mtv.1.1 mtv.1.2 mtv.2 /\ isToken mtv.1.1 = true /\ mtv.1.2 <> [] /\
     Forall is_target_unit mtv.1.2 /\ is_version mtv.2 = true) /\
    exists headers mid', fields_grammar limits (len text + 2) mid headers mid' /\
      head = mk_request_head mtv.1.1 mtv.1.2 mtv.2 headers /\ rest = mid') (line_parses _ r Hr Hb))].
  - intros [m t v headers] rest. unfold request_grammar. cbn [rq_method rq_target rq_version rq_headers]. split.
    + intros (text & mid & (Hp & Hn & Hl) & ([[m' t'] v'] & (-> & Hm & Ht & Ha & Hv) & hs & mid' & Hfields & [= -> -> -> ->] & ->)).
      cbn [fst snd] in *. split_and!; try done. by exists mid.
    + intros (Hm & Ht & Ha & Hv & after & Hp & Hfields). exists (request_text m t v), after. split.
      * split; [done|]. split; [by apply request_text_line|].
        destruct Hfields as (lines & _ & _ & _ & Hle). pose proof (len_nonneg (header_block lines)). lia.
      * exists (m, t, v). split; [done|]. by exists headers, rest.
  - intros text r' (Hp & Hn & Hl) Hr'. pose proof (pending_mid r _ _ Hb Hp) as Hb'.
    apply (reader_check (request_line text) r'
      (fun mtv => text = request_text mtv.1.1 mtv.1.2 mtv.2 /\ isToken mtv.1.1 = true /\ mtv.1.2 <> [] /\
        Forall is_target_unit mtv.1.2 /\ is_version mtv.2 = true)).
    + intros [[m t] v]. apply request_line_iff.
    + apply request_line_finishes.
    + intros [[m t] v] _. apply (reader_bind _ (fun headers r => Ok (mk_request_head m t v headers, r)) _ _
        (readHeaderFields_parses _ _ r' Hr' Hb')).
      intros headers r1 _ Hr1. by apply reader_ret.
Qed.

Lemma readHead_parses limits r : reader_ok r -> is_bytes (pending r) ->
  parses (readHead limits r) (response_grammar limits (pending r)).
Proof.
  intros Hr Hb. unfold readHead.
  eapply reader_iff; [|apply (reader_bind _ (fun text r => _) _ (fun text mid head rest => exists vsr : jsstr * Z * jsstr,
    (text = status_text vsr.1.1 vsr.1.2 vsr.2 /\ is_version vsr.1.1 = true /\ 100 <= vsr.1.2 <= 599 /\
     existsb bad_wire_unit vsr.2 = false) /\
    exists headers mid', fields_grammar limits (len text + 2) mid headers mid' /\
      head = mk_response_head vsr.1.1 vsr.1.2 vsr.2 headers /\ rest = mid') (line_parses _ r Hr Hb))].
  - intros [v st reason headers] rest. unfold response_grammar. cbn [rs_version rs_status rs_statusText rs_headers]. split.
    + intros (text & mid & (Hp & Hn & Hl) & ([[v' st'] reason'] & (-> & Hv & Hst & Hw) & hs & mid' & Hfields & [= -> -> -> ->] & ->)).
      cbn [fst snd] in *. split_and!; try done; [lia..|]. by exists mid.
    + intros (Hv & Hst & Hw & after & Hp & Hfields). exists (status_text v st reason), after. split.
      * split; [done|]. split; [by apply status_text_line|].
        destruct Hfields as (lines & _ & _ & _ & Hle). pose proof (len_nonneg (header_block lines)). lia.
      * exists (v, st, reason). split; [done|]. by exists headers, rest.
  - intros text r' (Hp & Hn & Hl) Hr'. pose proof (pending_mid r _ _ Hb Hp) as Hb'.
    apply (reader_check (status_line text) r'
      (fun vsr => text = status_text vsr.1.1 vsr.1.2 vsr.2 /\ is_version vsr.1.1 = true /\ 100 <= vsr.1.2 <= 599 /\
        existsb bad_wire_unit vsr.2 = false)).
    + intros [[v st] reason]. apply status_line_iff.
    + apply status_line_finishes.
    + intros [[v st] reason] _. apply (reader_bind _ (fun headers r => Ok (mk_response_head v st reason headers, r)) _ _
        (readHeaderFields_parses _ _ r' Hr' Hb')).
      intros headers r1 _ Hr1. by apply reader_ret.
Qed.
End HeadTheory.

(** ** Properties *)

(** C32: request heads.  Over any transport and however the bytes arrive, the
    reader returns a head and leaves [rest] exactly when the pending bytes are the
    request line of that head, its header lines and [rest], with a token for the
    method, a nonempty visible target, a supported version and the limits on
    bytes and fields respected; nothing past the head is consumed. *)
Theorem request_head_grammar {T} `{Transport T} limits (r : BufferedReader T) :
  reader_ok r -> is_bytes (pending r) ->
  parses (readRequestHead limits r) (request_grammar limits (pending r)).
Proof. apply readRequestHead_parses. Qed.

Lemma request_head_grammar_witness : exists r',
  readRequestHead defaultHeadLimits example_request
  = Ok (mk_request_head (u "GET") (u "/a") (u "1.1") [(u "host", u "x")], r') /\ pending r' = [1; 2].
Proof.
  destruct (request_head_grammar defaultHeadLimits example_request) as (_ & Hc & _); [by_computing|by_computing|].
  destruct (Hc (mk_request_head (u "GET") (u "/a") (u "1.1") [(u "host", u "x")]) [1; 2]) as (r' & Hr & Hp & _).
  - split; [by vm_compute|]. split; [done|]. split; [by_computing|]. split; [by vm_compute|].
    eexists. split; [reflexivity|]. exists [u "Host:  x "]. split; [reflexivity|]. split; [|split; [by right|by vm_compute]].
    constructor; [|constructor]. exists (u "Host"), (u "  x "). split; [reflexivity|]. by split_and!; vm_compute.
  - exists r'. exact (conj Hr Hp).
Defined.

(** Response heads, likewise: the status line has a supported version, a
    three-digit status from 100 to 599 and a reason without controls. *)
Theorem response_head_grammar {T} `{Transport T} limits (r : BufferedReader T) :
  reader_ok r -> is_bytes (pending r) ->
  parses (readHead limits r) (response_grammar limits (pending r)).
Proof. apply readHead_parses. Qed.

Lemma response_head_grammar_witness : exists r',
  readHead defaultHeadLimits example_response = Ok (mk_response_head (u "1.0") 204 (u "No") [], r') /\ pending r' = [7].
Proof.
  destruct (response_head_grammar defaultHeadLimits example_response) as (_ & Hc & _); [by_computing|by_computing|].
  destruct (Hc (mk_response_head (u "1.0") 204 (u "No") []) [7]) as (r' & Hr & Hp & _).
  - split; [by vm_compute|]. split; [by split; vm_compute|]. split; [by vm_compute|].
    eexists. split; [reflexivity|]. exists []. split; [reflexivity|]. split; [constructor|]. split; [by left|by vm_compute].
  - exists r'. exact (conj Hr Hp).
Defined.

(** Response framing is never ambiguous.  A response is chunked exactly when
    the combined [Transfer-Encoding] is the one coding [chunked] and there is no
    [Content-Length], fixed exactly when there is a length and no
    [Transfer-Encoding], and read to the end of the stream when there is neither;
    both fields together, any other coding and an invalid length are refused. *)
Theorem response_framing_spec headers te :
  get headers (u "transfer-encoding") = Ok te ->
  (responseFraming headers = Ok framing_chunked <->
    contentLength headers = Ok None /\ exists v, te = Some v /\ to_lower (trimHTTPTabOrSpace v) = u "chunked") /\
  (forall n, responseFraming headers = Ok (framing_fixed n) <-> contentLength headers = Ok (Some n) /\ te = None) /\
  (responseFraming headers = Ok framing_eof <-> contentLength headers = Ok None /\ te = None).
Proof.
  intros Hte. unfold responseFraming. rewrite Hte. destruct (contentLength headers) as [[n|]|e]; cbn [mbind result_bind].
  - destruct te as [v|]; cbn.
    + split_and!; [split; [done|by intros [[=] _]]|intros m; split; [done|by intros [_ [=]]]|split; [done|by intros [[=] _]]].
    + split_and!; [split; [done|by intros [[=] _]]|intros m; split; [by intros [= ->]|by intros [[= ->] _]]|split; [done|by intros [[=] _]]].
  - destruct te as [v|]; cbn.
    + destruct (str_eqb _ _) eqn:E; cbn.
      * apply str_eqb_true in E. split_and!; [split; [intros _; split; [done|by exists v]|done]|intros m; split; [done|by intros [[=] _]]|
          split; [done|by intros [_ [=]]]].
      * apply str_eqb_false in E. split_and!; [split; [done|by intros (_ & w & [= <-] & Hw)]|intros m; split; [done|by intros [[=] _]]|
          split; [done|by intros [_ [=]]]].
    + split_and!; [split; [done|by intros (_ & w & [=] & _)]|intros m; split; [done|by intros [[=] _]]|done].
  - split_and!; [split; [done|by intros [[=] _]]|intros m; split; [done|by intros [[=] _]]|split; [done|by intros [[=] _]]].
Qed.

Lemma response_framing_spec_witness :
  let h := mk_headers_list [(u "transfer-encoding", u " Chunked")] guard_none None in
  get h (u "transfer-encoding") = Ok (Some (u " Chunked")) /\ responseFraming h = Ok framing_chunked.
Proof.
  intros h. assert (Hg : get h (u "transfer-encoding") = Ok (Some (u " Chunked"))) by by vm_compute. split; [exact Hg|].
  apply (response_framing_spec h _ Hg). split; [by vm_compute|]. exists (u " Chunked"). split; [done|by vm_compute].
Defined.

(** ** The grammar of a chunk-size line *)

(** ** Scanning *)

Lemma code_at_mid pre c rest : code_at (pre ++ c :: rest) (len pre) = c.
Proof. unfold code_at, at_or. by rewrite at_app_mid. Qed.

Lemma skip_while_spec p fuel : forall rest pre, (length rest <= fuel)%nat -> exists a b,
  rest = a ++ b /\ Forall (fun c => p c = true) a /\ (forall c, head b = Some c -> p c = false) /\
  skip_while fuel p (pre ++ rest) (len pre) = len (pre ++ a).
Proof.
  induction fuel as [|fuel IH]; intros rest pre Hf.
  { destruct rest; [|cbn in Hf; lia]. exists [], []. rewrite !app_nil_r. split_and!; [done|apply Forall_nil_2| |done]. by intros c [=]. }
  cbn [skip_while]. destruct rest as [|c rest].
  { exists [], []. rewrite !app_nil_r, Z.ltb_irrefl. split_and!; [done|constructor| |done]. by intros c [=]. }
  rewrite code_at_mid, len_app, len_cons. pose proof (len_nonneg rest).
  destruct (Z.ltb_spec (len pre) (len pre + (len rest + 1))); [|lia]. cbn [andb]. destruct (p c) eqn:E.
  - destruct (IH rest (pre ++ [c])) as (a & b & -> & Ha & Hb & Hs); [cbn in Hf; lia|].
    exists (c :: a), b. rewrite len_app in Hs. change (len [c]) with 1 in Hs. rewrite <- !app_assoc in Hs. cbn [app] in Hs.
    split_and!; [done|by constructor|done|exact Hs].
  - exists [], (c :: rest). rewrite app_nil_r. split_and!; [done|constructor| |done]. by intros d [= <-].
Qed.

(** The scan of a known run. *)
Lemma skip_while_run p pre a b : Forall (fun c => p c = true) a -> (forall c, head b = Some c -> p c = false) ->
  forall line, line = pre ++ a ++ b -> skip_while (length line) p line (len pre) = len (pre ++ a).
Proof.
  intros Ha Hb line ->. destruct (skip_while_spec p (length (pre ++ a ++ b)) (a ++ b) pre) as (a' & b' & E & Ha' & Hb' & ->).
  { rewrite !length_app. lia. }
  apply (span_unique (fun c => p c = true)) in E as [-> _]; try done.
  - intros c Hc. rewrite (Hb c Hc). done.
  - intros c Hc. rewrite (Hb' c Hc). done.
Qed.

Lemma token_name_unit c : is_token_unit c = true -> extension_name_unit c = true /\ isTabOrSpace c = false /\
  (negb (isTabOrSpace c) && negb (c =? 59)) = true /\ c <> 34.
Proof.
  intros Hc. pose proof (byte_check (fun c => negb (is_token_unit c) || (extension_name_unit c && negb (isTabOrSpace c) &&
    (negb (isTabOrSpace c) && negb (c =? 59)) && negb (c =? 34))) ltac:(by vm_compute) c (token_unit_byte c Hc)) as H.
  cbv beta in H. rewrite Hc in H. cbn [negb orb] in H.
  apply andb_true_iff in H as [H H4]. apply andb_true_iff in H as [H H3]. apply andb_true_iff in H as [H1 H2].
  split_and!; [done|by apply negb_true_iff|done|]. by apply negb_true_iff, Z.eqb_neq in H4.
Qed.

Lemma token_Forall (P : Z -> Prop) name : isToken name = true -> (forall c, is_token_unit c = true -> P c) -> Forall P name.
Proof. intros Hn HP. apply Forall_forall. intros c Hc. apply HP. by apply (token_units name). Qed.

Lemma token_head name c : isToken name = true -> head name = Some c -> is_token_unit c = true.
Proof. intros Hn Hc. apply (token_units name); [done|]. by apply head_Some_elem_of. Qed.

(** ** Values *)

Lemma quoted_loop_spec fuel : forall rest pre, (length rest < fuel)%nat ->
  (forall i, quoted_loop fuel (pre ++ rest) (len pre) = Ok i -> exists q b, rest = q ++ b /\ quoted q /\ i = len (pre ++ q)) /\
  (forall q b, rest = q ++ b -> quoted q -> quoted_loop fuel (pre ++ rest) (len pre) = Ok (len (pre ++ q))) /\
  finishes (quoted_loop fuel (pre ++ rest) (len pre)).
Proof.
  induction fuel as [|fuel IH]; intros rest pre Hf; [lia|]. cbn [quoted_loop]. destruct rest as [|c rest].
  { rewrite !app_nil_r, Z.ltb_irrefl. split_and!; [done| |done]. intros q b E Hq.
    symmetry in E. apply app_nil in E as [-> _]. inversion Hq. }
  rewrite code_at_mid, len_app, len_cons. pose proof (len_nonneg rest).
  destruct (Z.ltb_spec (len pre) (len pre + (len rest + 1))); [|lia]. cbv zeta.
  destruct (Z.eqb_spec c 34) as [->|H34].
  { split_and!; [|intros q b E Hq|done].
    - intros i [= <-]. exists [34], rest. split_and!; [done|constructor|by rewrite len_app].
    - inversion Hq as [Eq|c' q' Hc Hq' Eq|c' q' Hc Hc' Ht Hq' Eq]; subst q; [by rewrite len_app|done|by injection E as <-]. }
  destruct (Z.eqb_spec c 92) as [->|H92].
  - replace (len pre + 1) with (len (pre ++ [92])) by by rewrite len_app.
    replace (pre ++ 92 :: rest) with ((pre ++ [92]) ++ rest) by by rewrite <- app_assoc.
    destruct rest as [|d rest].
    { replace (len (pre ++ [92]) =? len pre + (len [] + 1)) with true by (rewrite len_app; symmetry; apply Z.eqb_eq; done).
      split_and!; [done|intros q b E Hq|done].
      inversion Hq as [Eq|c' q' Hc Hq' Eq|c' q' Hc Hc' Ht Hq' Eq]; subst q; try done. injection E as <- _. done. }
    rewrite code_at_mid. replace (len (pre ++ [92]) =? len pre + (len (d :: rest) + 1)) with false
      by (rewrite len_app; change (len [92]) with 1; rewrite len_cons; pose proof (len_nonneg rest); symmetry; apply Z.eqb_neq; lia). cbn [orb].
    replace (len (pre ++ [92]) + 1) with (len (pre ++ [92; d])) by (rewrite !len_app; change (len [92; d]) with 2; change (len [92]) with 1; lia).
    replace ((pre ++ [92]) ++ d :: rest) with ((pre ++ [92; d]) ++ rest) by by rewrite <- !app_assoc.
    destruct (IH rest (pre ++ [92; d])) as (IH1 & IH2 & IH3); [cbn in Hf; lia|].
    destruct (isQuotedPairValue d) eqn:Hd; cbn [negb throw_if mbind result_bind].
    + split_and!; [intros i Hi|intros q b E Hq|exact IH3].
      * destruct (IH1 i Hi) as (q & b & -> & Hq & ->). exists (92 :: d :: q), b. split_and!; [done|by constructor|].
        by rewrite <- app_assoc.
      * inversion Hq as [Eq|c' q' Hc Hq' Eq|c' q' Hc Hc' Ht Hq' Eq]; subst q; [done| |by injection E as <-].
        injection E as -> E. rewrite (IH2 q' b E Hq'). by rewrite <- app_assoc.
    + split_and!; [done|intros q b E Hq|done].
      inversion Hq as [Eq|c' q' Hc Hq' Eq|c' q' Hc Hc' Ht Hq' Eq]; subst q; [done| |by injection E as <-].
      injection E as -> E. congruence.
  - replace (len pre + 1) with (len (pre ++ [c])) by by rewrite len_app.
    replace (pre ++ c :: rest) with ((pre ++ [c]) ++ rest) by by rewrite <- app_assoc.
    destruct (IH rest (pre ++ [c])) as (IH1 & IH2 & IH3); [cbn in Hf; lia|].
    destruct (isQuotedText c) eqn:Hc; cbn [negb throw_if mbind result_bind].
    + split_and!; [intros i Hi|intros q b E Hq|exact IH3].
      * destruct (IH1 i Hi) as (q & b & -> & Hq & ->). exists (c :: q), b. split_and!; [done|by constructor|].
        by rewrite <- app_assoc.
      * inversion Hq as [Eq|c' q' Hc1 Hq' Eq|c' q' Hc1 Hc' Ht Hq' Eq]; subst q; [injection E; congruence|injection E; congruence|].
        injection E as <- E. rewrite (IH2 q' b E Hq'). by rewrite <- app_assoc.
    + split_and!; [done|intros q b E Hq|done].
      inversion Hq as [Eq|c' q' Hc1 Hq' Eq|c' q' Hc1 Hc' Ht Hq' Eq]; subst q; [injection E; congruence|injection E; congruence|].
      injection E as <- E. congruence.
Qed.

Lemma value_spec pre rest : 
  (forall i, skipChunkExtensionValue (pre ++ rest) (len pre) = Ok i -> exists v b, rest = v ++ b /\ extension_value v /\ i = len (pre ++ v)) /\
  (forall v b, rest = v ++ b -> extension_value v -> (forall c, head b = Some c -> is_bws c \/ c = 59) ->
    skipChunkExtensionValue (pre ++ rest) (len pre) = Ok (len (pre ++ v))) /\
  finishes (skipChunkExtensionValue (pre ++ rest) (len pre)).
Proof.
  unfold skipChunkExtensionValue. destruct (Z.eqb_spec (code_at (pre ++ rest) (len pre)) 34) as [H34|H34]; cbn [negb].
  - assert (Hrest : exists q, rest = 34 :: q).
    { destruct rest as [|c rest]; [|rewrite code_at_mid in H34; subst; by eexists].
      unfold code_at, at_or, at_ in H34. rewrite app_nil_r in H34. exfalso. revert H34.
      destruct (Z.ltb_spec (len pre) 0); [done|]. rewrite lookup_ge_None_2 by (unfold len; lia). done. }
    destruct Hrest as (q0 & ->). replace (len pre + 1) with (len (pre ++ [34])) by by rewrite len_app.
    replace (pre ++ 34 :: q0) with ((pre ++ [34]) ++ q0) by by rewrite <- app_assoc.
    destruct (quoted_loop_spec (S (length ((pre ++ [34]) ++ q0))) q0 (pre ++ [34])) as (H1 & H2 & H3); [rewrite length_app; lia|].
    split_and!; [intros i Hi|intros v b E Hv Hb|exact H3].
    + destruct (H1 i Hi) as (q & b & -> & Hq & ->). exists (34 :: q), b. split_and!; [done|right; by exists q|].
      by rewrite <- app_assoc.
    + destruct Hv as [Hv|(q & -> & Hq)].
      * destruct v as [|c v]; [done|]. injection E as <- E.
        pose proof (token_head (34 :: v) 34 Hv eq_refl) as Ht. by destruct (token_name_unit 34 Ht) as (_ & _ & _ & []).
      * injection E as E. rewrite (H2 q b E Hq). by rewrite <- app_assoc.
  - set (p := fun c => negb (isTabOrSpace c) && negb (c =? 59)).
    split_and!; [intros i Hi|intros v b E Hv Hb|auto 5 with finishes].
    + destruct (skip_while_spec p (length (pre ++ rest)) rest pre) as (a & b & E & Ha & Hb & Hs); [rewrite length_app; lia|].
      rewrite Hs in Hi. ok_inv Hi. injection Hi as <-. apply negb_false_iff in Hc. rewrite E, len_app, subarray_app_mid in Hc.
      exists a, b. split_and!; [done|by left|by rewrite len_app].
    + destruct Hv as [Hv|(q & -> & Hq)].
      * rewrite (skip_while_run p pre v b) with (line := pre ++ rest); [|by apply (token_Forall _ v Hv), token_name_unit| |by rewrite E].
        -- rewrite E, len_app, subarray_app_mid, Hv. done.
        -- intros c Hc. unfold p. destruct (Hb c Hc) as [Hw| ->]; [by rewrite Hw|by rewrite andb_false_r].
      * rewrite E in H34. cbn [app] in H34. by rewrite code_at_mid in H34.
Qed.

(** ** Positions of a line: [line = P ++ R], at [len P] *)

Lemma skip_at p (line P R : jsstr) : line = P ++ R -> exists a b, R = a ++ b /\ line = (P ++ a) ++ b /\
  Forall (fun c => p c = true) a /\ (forall c, head b = Some c -> p c = false) /\
  skip_while (length line) p line (len P) = len (P ++ a).
Proof.
  intros ->. destruct (skip_while_spec p (length (P ++ R)) R P) as (a & b & -> & Ha & Hb & Hs); [rewrite !length_app; lia|].
  exists a, b. rewrite <- app_assoc. by split_and!.
Qed.

Lemma code_at_head (line P R : jsstr) : line = P ++ R -> code_at line (len P) = default (-1) (head R).
Proof.
  intros ->. destruct R as [|c R]; [|by rewrite code_at_mid]. unfold code_at, at_or, at_. rewrite app_nil_r.
  destruct (Z.ltb_spec (len P) 0); [done|]. by rewrite lookup_ge_None_2 by (unfold len; lia).
Qed.

Lemma at_end (line P R : jsstr) : line = P ++ R -> (len P =? len line) = bool_decide (R = []).
Proof.
  intros ->. rewrite len_app. destruct R as [|c R]; [rewrite bool_decide_eq_true_2 by done; apply Z.eqb_eq; rewrite (@len_nil Z); lia|].
  rewrite bool_decide_eq_false_2 by done. apply Z.eqb_neq. rewrite len_cons. pose proof (len_nonneg R). lia.
Qed.

Lemma before_end (line P R : jsstr) : line = P ++ R -> (len P <? len line) = negb (bool_decide (R = [])).
Proof.
  intros ->. rewrite len_app. destruct R as [|c R]; [rewrite bool_decide_eq_true_2 by done; apply Z.ltb_ge; rewrite (@len_nil Z); lia|].
  rewrite bool_decide_eq_false_2 by done. apply Z.ltb_lt. rewrite len_cons. pose proof (len_nonneg R). lia.
Qed.

Lemma len_snoc {A} (P : list A) c : len P + 1 = len (P ++ [c]).
Proof. by rewrite len_app. Qed.

(** ** Extensions *)

Lemma extension_start e : extension e -> exists w e', e = w ++ 59 :: e' /\ Forall is_bws w /\ extension (59 :: e').
Proof.
  intros [w1 w2 name H1 H2 Hn|w1 w2 name w3 w4 v H1 H2 Hn H3 H4 Hv]; eexists _, _; split_and!; try done.
  - by apply (extension_name []).
  - by apply (extension_with_value []).
Qed.

Lemma extensions_start exts : extensions exts ->
  exts = [] \/ exists w b, exts = w ++ 59 :: b /\ Forall is_bws w /\ extensions (59 :: b).
Proof.
  intros [|e more He Hm]; [by left|right]. destruct (extension_start e He) as (w & e' & -> & Hw & He').
  exists w, (e' ++ more). split_and!; [by rewrite <- app_assoc|done|]. by apply (extensions_cons (59 :: e')).
Qed.

Lemma extension_blanks w e : Forall is_bws w -> extension e -> extension (w ++ e).
Proof.
  intros Hw [w1 w2 name H1 H2 Hn|w1 w2 name w3 w4 v H1 H2 Hn H3 H4 Hv]; rewrite app_assoc; constructor; try done; by apply Forall_app.
Qed.

Lemma extensions_blanks w exts : Forall is_bws w -> (exts = [] -> w = []) -> extensions exts -> extensions (w ++ exts).
Proof.
  intros Hw Hn H. revert Hn. destruct H as [|e more He Hm]; intros Hn; [rewrite Hn by done; constructor|]. rewrite app_assoc. constructor; [by apply extension_blanks|done].
Qed.

Lemma bws_stops c rest : head (59 :: rest) = Some c -> isTabOrSpace c = false.
Proof. by intros [= <-]. Qed.

(** A name, then blanks: where the scans of a name and of blanks stop. *)
Lemma name_stops w b : Forall is_bws w -> (forall c, head b = Some c -> extension_name_unit c = false) ->
  forall c, head (w ++ b) = Some c -> extension_name_unit c = false.
Proof.
  intros Hw Hb c. destruct w as [|d w]; [apply Hb|]. intros [= <-]. apply Forall_cons in Hw as [Hd _].
  unfold extension_name_unit. by rewrite Hd.
Qed.

Lemma token_stops v b c : isToken v = true -> head (v ++ b) = Some c -> isTabOrSpace c = false.
Proof.
  destruct v as [|d v]; [done|]. intros Hv [= <-]. pose proof (token_head (d :: v) d Hv eq_refl) as Ht. by destruct (token_name_unit d Ht) as (_ & ? & _).
Qed.

Lemma value_stops v b c : extension_value v -> head (v ++ b) = Some c -> isTabOrSpace c = false.
Proof. intros [Hv|(q & -> & _)]; [by apply token_stops|by intros [= <-]]. Qed.

(** [skip_while] over a run that is known. *)
Lemma run_at p (line P a b : jsstr) : line = P ++ a ++ b -> Forall (fun c => p c = true) a -> (forall c, head b = Some c -> p c = false) ->
  skip_while (length line) p line (len P) = len (P ++ a).
Proof. intros E Ha Hb. by apply (skip_while_run p P a b). Qed.

Lemma chunk_extension_sound (line P R : jsstr) : line = P ++ R ->
  finishes (chunk_extension line (len P)) /\
  forall i, chunk_extension line (len P) = Ok i -> exists e w b,
    R = e ++ w ++ b /\ extension e /\ Forall is_bws w /\ (b = [] -> w = []) /\ i = len (P ++ e ++ w).
Proof.
  intros E. unfold chunk_extension, skipBadWhitespace. cbv zeta.
  destruct (skip_at isTabOrSpace line P R E) as (w1 & R1 & -> & E1 & Hw1 & _ & ->).
  rewrite (at_end _ _ _ E1), (code_at_head _ _ _ E1). destruct R1 as [|c1 R1]; [by split|]. cbn [head default from_option].
  rewrite bool_decide_eq_false_2 by done. cbn [orb]. unfold id. destruct (Z.eqb_spec c1 59) as [->|]; [|by split].
  cbn [negb throw_if mbind result_bind]. rewrite (len_snoc _ 59).
  assert (E2 : line = ((P ++ w1) ++ [59]) ++ R1) by by rewrite <- app_assoc. clear E1.
  destruct (skip_at isTabOrSpace line _ R1 E2) as (w2 & R3 & -> & E3 & Hw2 & _ & ->). clear E2.
  destruct (skip_at extension_name_unit line _ R3 E3) as (name & R4 & -> & E4 & _ & _ & ->).
  replace (subarray line (len (((P ++ w1) ++ [59]) ++ w2)) (len ((((P ++ w1) ++ [59]) ++ w2) ++ name))) with name
    by (rewrite E3, (len_app _ name), subarray_app_mid; done).
  clear E3. destruct (isToken name) eqn:Hname; [|by split]. cbn [negb throw_if mbind result_bind].
  destruct (skip_at isTabOrSpace line _ R4 E4) as (w3 & R5 & -> & E5 & Hw3 & _ & ->).
  set (P4 := (((P ++ w1) ++ [59]) ++ w2) ++ name) in *. rewrite (at_end _ _ _ E5).
  destruct (bool_decide (R5 = []) && negb (len (P4 ++ w3) =? len P4)) eqn:Hbad; [by split|].
  cbn [throw_if mbind result_bind]. assert (Hw3' : R5 = [] -> w3 = []).
  { intros ->. rewrite bool_decide_eq_true_2 in Hbad by done. apply negb_false_iff, Z.eqb_eq in Hbad.
    rewrite len_app in Hbad. destruct w3; [done|]. rewrite len_cons in Hbad. pose proof (len_nonneg w3). lia. }
  rewrite (before_end _ _ _ E5), (code_at_head _ _ _ E5).
  assert (Hplain : forall i, Ok (len (P4 ++ w3)) = Ok i -> exists e w b, w1 ++ 59 :: w2 ++ name ++ w3 ++ R5 = e ++ w ++ b /\
    extension e /\ Forall is_bws w /\ (b = [] -> w = []) /\ i = len (P ++ e ++ w)).
  { intros i [= <-]. exists (w1 ++ 59 :: w2 ++ name), w3, R5. split_and!; [by simplify_list_eq|by constructor|done|done|].
    unfold P4. by simplify_list_eq. }
  destruct R5 as [|c5 R5]; [by rewrite bool_decide_eq_true_2 by done|]. rewrite bool_decide_eq_false_2 by done.
  cbn [negb andb head default from_option]. unfold id. destruct (Z.eqb_spec c5 61) as [->|]; [|by split].
  rewrite (len_snoc _ 61). assert (E6 : line = ((P4 ++ w3) ++ [61]) ++ R5) by by rewrite <- app_assoc. clear E5.
  destruct (skip_at isTabOrSpace line _ R5 E6) as (w4 & R7 & -> & E7 & Hw4 & _ & ->). clear E6. rewrite (at_end _ _ _ E7).
  destruct (bool_decide (R7 = [])); [by split|]. cbn [throw_if mbind result_bind]. rewrite E7.
  destruct (value_spec (((P4 ++ w3) ++ [61]) ++ w4) R7) as (Hs & _ & Hf). split; [done|]. intros i Hi.
  destruct (Hs i Hi) as (v & b & -> & Hv & ->). exists (w1 ++ 59 :: w2 ++ name ++ w3 ++ 61 :: w4 ++ v), [], b.
  split_and!; [by simplify_list_eq|by constructor|done|done|]. unfold P4. by simplify_list_eq.
Qed.

Ltac at_position E := rewrite ?(at_end _ _ _ E), ?(code_at_head _ _ _ E), ?(before_end _ _ _ E).

Lemma chunk_extension_complete (line P e more : jsstr) : line = P ++ e ++ more -> extension e -> extensions more -> exists w b,
  more = w ++ b /\ Forall is_bws w /\ extensions b /\ chunk_extension line (len P) = Ok (len (P ++ e ++ w)).
Proof.
  intros E He Hmore. apply extensions_start in Hmore as Hm.
  assert (Hafter : forall c, head more = Some c -> is_bws c \/ c = 59).
  { destruct Hm as [->|(w & b & -> & Hw & _)]; [done|]. destruct w as [|d w]; intros c [= <-]; [by right|].
    left. by apply Forall_cons in Hw as [Hd _]. }
  unfold chunk_extension, skipBadWhitespace. cbv zeta.
  assert (Hstart : forall w1 w2 name tail, line = P ++ w1 ++ 59 :: w2 ++ name ++ tail -> Forall is_bws w1 -> Forall is_bws w2 ->
    isToken name = true -> (forall c, head tail = Some c -> extension_name_unit c = false) ->
    skip_while (length line) isTabOrSpace line (len P) = len (P ++ w1) /\
    (len (P ++ w1) =? len line) = false /\ code_at line (len (P ++ w1)) = 59 /\
    skip_while (length line) isTabOrSpace line (len (P ++ w1) + 1) = len (P ++ w1 ++ 59 :: w2) /\
    skip_while (length line) extension_name_unit line (len (P ++ w1 ++ 59 :: w2)) = len (P ++ w1 ++ 59 :: w2 ++ name) /\
    subarray line (len (P ++ w1 ++ 59 :: w2)) (len (P ++ w1 ++ 59 :: w2 ++ name)) = name).
  { intros w1 w2 name tail El H1 H2 Hn Ht.
    assert (E1 : line = (P ++ w1) ++ 59 :: w2 ++ name ++ tail) by (rewrite El; by simplify_list_eq).
    assert (E2 : line = ((P ++ w1) ++ [59]) ++ w2 ++ name ++ tail) by (rewrite El; by simplify_list_eq).
    assert (E3 : line = (P ++ w1 ++ 59 :: w2) ++ name ++ tail) by (rewrite El; by simplify_list_eq).
    at_position E1. cbn [head default from_option]. rewrite bool_decide_eq_false_2 by done. split_and!; [|done|done| | |].
    - apply (run_at _ line P w1 (59 :: w2 ++ name ++ tail) El H1). intros c. apply bws_stops.
    - rewrite (len_snoc _ 59). rewrite (run_at _ line _ w2 (name ++ tail)); [f_equal; by simplify_list_eq|done|done|].
      intros c. by apply token_stops.
    - rewrite (run_at _ line _ name tail); [f_equal; by simplify_list_eq|done| |done].
      apply (token_Forall _ name Hn). intros c Hc. by apply token_name_unit.
    - rewrite E3. replace (P ++ w1 ++ 59 :: w2 ++ name) with ((P ++ w1 ++ 59 :: w2) ++ name) by by simplify_list_eq.
      rewrite (len_app _ name). by rewrite subarray_app_mid. }
  destruct He as [w1 w2 name H1 H2 Hn|w1 w2 name w3 w4 v H1 H2 Hn H3 H4 Hv].
  - destruct (Hstart w1 w2 name more) as (-> & -> & -> & -> & -> & ->); try done; [rewrite E; by simplify_list_eq| |].
    { intros c Hc. unfold extension_name_unit. destruct (Hafter c Hc) as [Hw| ->]; [by rewrite Hw|done]. }
    rewrite Hn. cbn [Z.eqb Pos.eqb negb orb throw_if mbind result_bind].
    assert (E4 : line = (P ++ w1 ++ 59 :: w2 ++ name) ++ more) by (rewrite E; by simplify_list_eq).
    destruct Hm as [->|(w & b & -> & Hw & Hb)].
    + exists [], []. rewrite (run_at _ line _ [] []); [|done|constructor|done]. rewrite !app_nil_r in *.
      rewrite <- E4, Z.eqb_refl, Z.ltb_irrefl. cbn. by split_and!; [|constructor|constructor|rewrite E].
    + exists w, (59 :: b). rewrite (run_at _ line _ w (59 :: b) E4 Hw); [|intros c; apply bws_stops].
      assert (E5 : line = ((P ++ w1 ++ 59 :: w2 ++ name) ++ w) ++ 59 :: b) by (rewrite E4; by simplify_list_eq).
      at_position E5. rewrite bool_decide_eq_false_2 by done. cbn. split_and!; [done..|]. do 2 f_equal; by simplify_list_eq.
  - destruct (Hstart w1 w2 name (w3 ++ 61 :: w4 ++ v ++ more)) as (-> & -> & -> & -> & -> & ->); try done;
      [rewrite E; by simplify_list_eq|apply (name_stops w3); [done|by intros c [= <-]]|].
    rewrite Hn. cbn [Z.eqb Pos.eqb negb orb throw_if mbind result_bind].
    rewrite (run_at _ line _ w3 (61 :: w4 ++ v ++ more)); [|rewrite E; by simplify_list_eq|done|by intros c [= <-]].
    set (P5 := (P ++ w1 ++ 59 :: w2 ++ name) ++ w3).
    assert (E5 : line = P5 ++ 61 :: w4 ++ v ++ more) by (rewrite E; unfold P5; by simplify_list_eq).
    at_position E5. rewrite bool_decide_eq_false_2 by done. cbn [andb negb throw_if mbind result_bind head default from_option].
    unfold id. rewrite Z.eqb_refl, (len_snoc _ 61). rewrite (run_at _ line _ w4 (v ++ more)); [|rewrite E5; by simplify_list_eq|done|].
    2:{ intros c. by apply value_stops. }
    assert (E7 : line = ((P5 ++ [61]) ++ w4) ++ v ++ more) by (rewrite E5; by simplify_list_eq).
    at_position E7. rewrite bool_decide_eq_false_2.
    2:{ intros Ev. apply app_nil in Ev as [-> _]. by destruct Hv as [Hv|(q & Hv & _)]. }
    cbn [throw_if mbind result_bind]. exists [], more. split_and!; [done|constructor|done|]. rewrite E7.
    destruct (value_spec ((P5 ++ [61]) ++ w4) (v ++ more)) as (_ & Hc & _). rewrite (Hc v more); [|done..].
    do 2 f_equal. unfold P5. by simplify_list_eq.
Qed.

Lemma extensions_loop_spec fuel : forall (line P R : jsstr), line = P ++ R -> (length R <= fuel)%nat ->
  (extensions_loop fuel line (len P) = Ok tt <-> extensions R) /\ finishes (extensions_loop fuel line (len P)).
Proof.
  induction fuel as [|fuel IH]; intros line P R E Hf.
  { destruct R; [|cbn in Hf; lia]. cbn [extensions_loop]. rewrite (before_end _ _ _ E), bool_decide_eq_true_2 by done.
    split; [split; constructor|done]. }
  cbn [extensions_loop]. rewrite (before_end _ _ _ E). destruct R as [|c R].
  { rewrite bool_decide_eq_true_2 by done. split; [split; constructor|done]. }
  rewrite bool_decide_eq_false_2 by done. cbn [negb]. destruct (chunk_extension_sound line P (c :: R) E) as [Hfin Hs].
  assert (Hstep : forall e w b, c :: R = e ++ w ++ b -> extension e ->
    line = (P ++ e ++ w) ++ b /\ (length b <= fuel)%nat).
  { intros e w b Ec He. rewrite E, Ec. split; [by simplify_list_eq|]. apply (f_equal length) in Ec.
    rewrite !length_app in Ec. cbn in Ec, Hf. destruct (extension_start e He) as (w0 & e' & -> & _). rewrite length_app in Ec. cbn in Ec. lia. }
  split; [split|].
  - intros Hl. apply bind_Ok in Hl as (i & Hi & Hl). destruct (Hs i Hi) as (e & w & b & Ec & He & Hw & Hnil & ->).
    destruct (Hstep e w b Ec He) as [Eb Hlen]. rewrite Ec. constructor; [done|]. apply extensions_blanks; [done|done|].
    by apply (IH _ _ _ Eb Hlen).
  - intros Hx. inversion Hx as [|e more He Hm Ec]. symmetry in Ec. assert (E' : line = P ++ e ++ more) by by rewrite <- Ec.
    destruct (chunk_extension_complete line P e more E' He Hm) as (w & b & -> & Hw & Hb & ->). cbn [mbind result_bind].
    destruct (Hstep e w b Ec He) as [Eb Hlen]. by apply (IH _ _ _ Eb Hlen).
  - apply finishes_bind; [done|]. intros i Hi. destruct (Hs i Hi) as (e & w & b & Ec & He & _ & _ & ->).
    destruct (Hstep e w b Ec He) as [Eb Hlen]. by apply (IH _ _ _ Eb Hlen).
Qed.

(** ** The size *)

Lemma size_loop_spec fuel : forall rest pre size, (length rest <= fuel)%nat -> exists a b,
  rest = a ++ b /\ Forall is_hex a /\ (forall c, head b = Some c -> ~ is_hex c) /\
  size_loop fuel (pre ++ rest) (len pre) size = (len (pre ++ a), foldl (fun v c => v * 16 + hexDigit c) size a).
Proof.
  induction fuel as [|fuel IH]; intros rest pre size Hf.
  { destruct rest; [|cbn in Hf; lia]. exists [], []. rewrite !app_nil_r. split_and!; [done|constructor|by intros c [=]|done]. }
  cbn [size_loop]. rewrite (before_end _ pre rest) by done. destruct rest as [|c rest].
  { exists [], []. rewrite !app_nil_r. split_and!; [done|constructor|by intros c [=]|done]. }
  rewrite bool_decide_eq_false_2 by done. cbn [negb]. rewrite code_at_mid. destruct (Z.ltb_spec (hexDigit c) 0).
  - exists [], (c :: rest). rewrite app_nil_r. split_and!; [done|constructor| |done]. intros d [= <-]. unfold is_hex. lia.
  - destruct (IH rest (pre ++ [c]) (size * 16 + hexDigit c)) as (a & b & -> & Ha & Hb & Hs); [cbn in Hf; lia|].
    exists (c :: a), b. split_and!; [done|by constructor|done|]. rewrite (len_snoc pre c).
    replace (pre ++ c :: a ++ b) with ((pre ++ [c]) ++ a ++ b) by by simplify_list_eq. rewrite Hs. cbn [foldl].
    f_equal. f_equal. by simplify_list_eq.
Qed.

Lemma hex_value_nonneg ds : Forall is_hex ds -> 0 <= hex_value ds.
Proof.
  intros H. unfold hex_value. assert (Hg : forall a, 0 <= a -> 0 <= foldl (fun v c => v * 16 + hexDigit c) a ds); [|by apply Hg].
  induction H as [|c ds Hc _ IH]; intros a Ha; [done|]. apply IH. unfold is_hex in Hc. lia.
Qed.

Lemma extensions_not_hex exts c : extensions exts -> head exts = Some c -> ~ is_hex c.
Proof.
  intros H. apply extensions_start in H as [->|(w & b & -> & Hw & _)]; [done|]. destruct w as [|d w]; intros [= <-].
  - intros Hx. unfold is_hex in Hx. by vm_compute in Hx.
  - apply Forall_cons in Hw as [Hd _]. unfold is_bws, isTabOrSpace in Hd. apply orb_true_iff in Hd as [Hd|Hd];
      apply Z.eqb_eq in Hd as ->; intros Hx; unfold is_hex in Hx; by vm_compute in Hx.
Qed.

(** A chunk-size line is accepted with the size [n] exactly when it is a
    nonempty run of hexadecimal digits of value [n], at most [MAX_SAFE_INTEGER],
    followed by chunk extensions ([BWS ";" BWS name] and optionally
    [BWS "=" BWS value] with a token or a quoted string) and has no control
    character; the scans end on every line. *)
Theorem chunk_size_grammar line n :
  (parseChunkSize line = Ok n <-> chunk_line n line) /\ finishes (parseChunkSize line).
Proof.
  unfold parseChunkSize, validateWireValue.
  destruct (size_loop_spec (length line) line [] 0) as (ds & exts & E & Hds & Hexts & Hs); [done|].
  cbn [app] in Hs. change (len []) with 0 in Hs. rewrite Hs. fold (hex_value ds).
  pose proof (hex_value_nonneg ds Hds) as Hv. destruct (extensions_loop_spec (length line) line ds exts E) as [Hl Hf].
  { rewrite E, length_app. lia. }
  split; [|auto 8 with finishes]. split.
  - intros H. ok_inv H. destruct (Z.eqb_spec (len ds) 0) as [|Hne]; [done|]. cbn [throw_if mbind result_bind] in H.
    apply bind_Ok in H as (t & Hx & H). destruct t. apply Hl in Hx. destruct (isSafeInteger (hex_value ds)) eqn:Hsafe; [|done].
    injection H as <-. exists ds, exts. split_and!; try done; [by intros ->|].
    unfold isSafeInteger in Hsafe. rewrite Z.abs_eq in Hsafe by done. lia.
  - intros (ds' & exts' & E' & Hne & Hds' & Hx & Hbad & -> & Hmax).
    destruct (span_unique is_hex ds ds' exts exts') as [-> ->]; [by rewrite <- E|done|done|done|by intros c; apply extensions_not_hex|].
    rewrite Hbad. cbn [throw_if mbind result_bind]. destruct (Z.eqb_spec (len ds') 0) as [Hz|].
    { destruct ds'; [done|]. rewrite len_cons in Hz. pose proof (len_nonneg ds'). lia. }
    cbn [throw_if mbind result_bind]. rewrite (proj2 Hl Hx). cbn [mbind result_bind]. unfold isSafeInteger.
    rewrite Z.abs_eq by done. by rewrite (proj2 (Z.leb_le _ _) Hmax).
Qed.

Lemma chunk_size_grammar_witness : chunk_line 419 (u "1A3; name = value;q=" ++ [34; 120; 92; 34; 34]).
Proof. apply (proj1 (chunk_size_grammar _ 419)). by vm_compute. Defined.
