(* ===== verification/WebSocketCodec.v ===== *)
(** * WebSocket frames ([websocket/codec.ts])

    Reading and writing frames of RFC 6455 and the payloads of close frames.  What
    [readFrame] accepts is stated as a grammar of the bytes pending in the reader. *)

From S2P Require Import Prelude Encoding Io ReaderGrammar Utf8 Utf8Theory WebIdl TextEncoder TextDecoder TextDecoderTheory.

Record Frame := mk_ws_frame {
  fin : bool;
  opcode : Z;
  payload : list Z;
  compressed : option bool;
}.

Definition check_opcode (value : Z) : result Z :=
  if bool_decide (value ∈ [0; 1; 2; 8; 9; 10]) then Ok value else Err (ProtocolError "Reserved WebSocket opcode").

(** The checks of the first two bytes: the flags, the opcode and the short length. *)
Definition frame_head (expectMasked allowCompressed : bool) (a b : Z) : result (bool * Z * bool * Z) :=
  let fin := negb (a .& 128 =? 0) in
  code ← check_opcode (a .& 15);
  let compressed := negb (a .& 64 =? 0) in
  throw_if (negb (a .& 0x30 =? 0)) (ProtocolError "Unsupported WebSocket reserved bit") ;;
  throw_if (compressed && (negb allowCompressed || (code =? 0) || (8 <=? code)))
    (ProtocolError "Invalid permessage-deflate RSV1 bit") ;;
  throw_if (negb (Bool.eqb (negb (b .& 128 =? 0)) expectMasked)) (ProtocolError "Invalid WebSocket masking direction") ;;
  let length := b .& 127 in
  throw_if ((8 <=? code) && (negb fin || (125 <? length))) (ProtocolError "Fragmented or oversized control frame") ;;
  Ok (fin, code, compressed, length).

(** An iteration over the eight bytes of a long length. *)
Definition length_byte (length byte : Z) : result Z :=
  let length := length * 256 + byte in
  throw_if (negb (isSafeInteger length)) (LimitError "Frame length exceeds safe integer range") ;;
  Ok length.

(** [payload[i] ^ mask[i & 3]] over the whole payload. *)
Definition apply_mask (mask bytes : list Z) : list Z :=
  imap (fun i b => to_uint8 (b .^ at_or 0 mask (Z.of_nat i .& 3))) bytes.

Section Reading.
Context {T : Type} `{ByteConnection T}.

Definition frame_length (length : Z) : ST (BufferedReader T) Z := fun r =>
if length =? 126 then
  '(bytes, r) ← exact 2 r;
  let length := at_or 0 bytes 0 * 256 + at_or 0 bytes 1 in
  throw_if (length <? 126) (ProtocolError "Nonminimal frame length") ;;
  Ok (length, r)
else if length =? 127 then
  '(bytes, r) ← exact 8 r;
  throw_if (negb (at_or 0 bytes 0 .& 128 =? 0)) (ProtocolError "Invalid 64-bit frame length") ;;
  length ← foldM length_byte 0 bytes;
  throw_if (length <? 65536) (ProtocolError "Nonminimal frame length") ;;
  Ok (length, r)
else Ok (length, r).

(** [null] without masking. *)
Definition frame_mask (expectMasked : bool) : ST (BufferedReader T) (option (list Z)) := fun r =>
if expectMasked then '(mask, r) ← exact 4 r; Ok (Some mask, r) else Ok (None, r).

Definition readFrame (expectMasked : bool) (maxFrameBytes : Z) (allowCompressed : bool)
  : ST (BufferedReader T) Frame := fun r =>
'(base, r) ← exact 2 r;
'(fin, code, compressed, length) ← frame_head expectMasked allowCompressed (at_or 0 base 0) (at_or 0 base 1);
'(length, r) ← frame_length length r;
throw_if (maxFrameBytes <? length) (LimitError "WebSocket frame exceeds configured limit") ;;
'(mask, r) ← frame_mask expectMasked r;
'(bytes, r) ← exact length r;
let bytes := match mask with Some mask => apply_mask mask bytes | None => bytes end in
Ok (mk_ws_frame fin code bytes (Some compressed), r).
End Reading.

(** [for (let i = 9; i >= 2; --i)]: the eight bytes of the size. *)
Fixpoint write_size (indices : list Z) (header : list Z) (remaining : Z) : list Z :=
  match indices with
  | [] => header
  | i :: indices => write_size indices (set_u8 header i (remaining mod 256)) (remaining / 256)
  end.

Definition is_compressed (frame : Frame) : bool := default false (compressed frame).

(** The chunks and what the caller's payload array holds after the call; [fill]
    stands for [random.fill]. *)
Definition encodeFrame (frame : Frame) (fill : list Z -> list Z) (masked ownPayload : bool)
    : result (list (list Z) * list Z) :=
  let size := len (payload frame) in
  throw_if ((8 <=? opcode frame) && (negb (fin frame) || (125 <? size))) (ProtocolError "Invalid control frame") ;;
  let extended := if size <? 126 then 0 else if size <? 65536 then 2 else 8 in
  let header := zeros (2 + extended + (if masked then 4 else 0)) in
  throw_if (is_compressed frame && ((opcode frame =? 0) || (8 <=? opcode frame)))
    (ProtocolError "RSV1 is valid only on a message's first data frame") ;;
  let header := set_u8 header 0 (((if fin frame then 128 else 0) .| (if is_compressed frame then 64 else 0)) .| opcode frame) in
  let header := set_u8 header 1 ((if masked then 128 else 0) .| (if size <? 126 then size else if size <? 65536 then 126 else 127)) in
  let header :=
    if extended =? 2 then set_u8 (set_u8 header 2 (size .>>> 8)) 3 (size .& 255)
    else if extended =? 8 then write_size [9; 8; 7; 6; 5; 4; 3; 2] header size
    else header in
  if masked then
    let mask := fill (subarray header (2 + extended) (len header)) in
    let header := set_range header (2 + extended) mask in
    let bytes := apply_mask mask (payload frame) in
    Ok ([header; bytes], if ownPayload then bytes else payload frame)
  else Ok ([header; payload frame], payload frame).

Definition isValidWireCloseCode (code : Z) : bool :=
  in_range 3000 4999 code ||
  bool_decide (code ∈ [1000; 1001; 1002; 1003; 1007; 1008; 1009; 1010; 1011; 1012; 1013; 1014]).

Definition closePayload (code : option Z) (reason : jsstr) : result (list Z) :=
  match code with
  | None => throw_if (negb (bool_decide (reason = []))) (ProtocolError "A close reason needs a code") ;; Ok (zeros 0)
  | Some code =>
      throw_if (negb (isValidWireCloseCode code)) (ProtocolError "Invalid close code") ;;
      let text := TextEncoder.encode reason in
      throw_if (123 <? len text) (LimitError "WebSocket close reason exceeds 123 UTF-8 bytes") ;;
      let payload := zeros (2 + len text) in
      let payload := set_u8 payload 0 (code .>>> 8) in
      let payload := set_u8 payload 1 (code .& 255) in
      Ok (set_range payload 2 text)
  end.

Definition parseClose (payload : list Z) : result (Z * jsstr) :=
  if len payload =? 0 then Ok (1005, []) else
  throw_if (len payload =? 1) (ProtocolError "One-byte close payload") ;;
  let code := at_or 0 payload 0 * 256 + at_or 0 payload 1 in
  throw_if (negb (isValidWireCloseCode code)) (ProtocolError "Invalid peer close code") ;;
  reason ← decodeUTF8 (subarray payload 2 (len payload)) true true;
  Ok (code, reason).

(** ** The wire format *)

Definition length_code (n : Z) : Z := if n <? 126 then n else if n <? 65536 then 126 else 127.

(** [k] bytes of [n], the most significant first. *)
Fixpoint big_endian (k : nat) (n : Z) : list Z :=
  match k with O => [] | S k => big_endian k (n / 256) ++ [n mod 256] end.

Definition length_bytes (n : Z) : list Z :=
  if n <? 126 then [] else if n <? 65536 then big_endian 2 n else big_endian 8 n.

Definition first_byte (fin compressed : bool) (opcode : Z) : Z :=
  (if fin then 128 else 0) + (if compressed then 64 else 0) + opcode.

Definition wire_header (f : Frame) (masked : bool) : list Z :=
  first_byte (fin f) (is_compressed f) (opcode f) :: (if masked then 128 else 0) + length_code (len (payload f)) ::
  length_bytes (len (payload f)).

(** The mask is empty or four bytes. *)
Definition wire_frame (f : Frame) (mask : list Z) : list Z :=
  wire_header f (negb (bool_decide (mask = []))) ++ mask ++ apply_mask mask (payload f).

Definition mask_ok (masked : bool) (mask : list Z) : Prop := is_bytes mask /\ len mask = if masked then 4 else 0.

(** The frames a receiver accepts. *)
Record frame_ok (maxFrameBytes : Z) (allowCompressed : bool) (f : Frame) : Prop := {
  ok_opcode : opcode f ∈ [0; 1; 2; 8; 9; 10];
  ok_control : 8 <= opcode f -> fin f = true /\ len (payload f) <= 125;
  ok_compressed : is_compressed f = true -> allowCompressed = true /\ opcode f ∈ [1; 2];
  ok_payload : is_bytes (payload f);
  ok_length : len (payload f) <= maxFrameBytes;
}.

(** [fill] overwrites the bytes of the array. *)
Definition fills (fill : list Z -> list Z) : Prop := forall l, is_bytes (fill l) /\ len (fill l) = len l.

Definition head_ok (expectMasked allowCompressed : bool) (a b : Z) (h : bool * Z * bool * Z) : Prop :=
  let '(fin, code, compressed, length) := h in
  a = first_byte fin compressed code /\ code ∈ [0; 1; 2; 8; 9; 10] /\
  (compressed = true -> allowCompressed = true /\ code ∈ [1; 2]) /\
  b = (if expectMasked then 128 else 0) + length /\ 0 <= length < 128 /\
  (8 <= code -> fin = true /\ length <= 125).

Definition be_value (bytes : list Z) : Z := foldl (fun n b => n * 256 + b) 0 bytes.

Definition length_grammar (code : Z) (bytes : list Z) (n : Z) (rest : list Z) : Prop :=
  bytes = length_bytes n ++ rest /\ code = length_code n /\ 0 <= n <= MAX_SAFE_INTEGER.

Definition frame_grammar (expectMasked : bool) (maxFrameBytes : Z) (allowCompressed : bool)
    (bytes : list Z) (f : Frame) (rest : list Z) : Prop :=
  exists mask, mask_ok expectMasked mask /\ bytes = wire_frame f mask ++ rest /\
    frame_ok maxFrameBytes allowCompressed f /\ compressed f <> None.

(** What the reads give, one after the other. *)
Definition read_steps (em : bool) (max : Z) (ac : bool) (base mid : list Z) (f : Frame) (rest : list Z) : Prop :=
  exists h, head_ok em ac (at_or 0 base 0) (at_or 0 base 1) h /\
  exists n mid1, length_grammar h.2 mid n mid1 /\ (max <? n) = false /\
  exists mask mid2, (mid1 = default [] mask ++ mid2 /\ len (default [] mask) = (if em then 4 else 0) /\ em = bool_decide (is_Some mask)) /\
  exists raw mid3, (mid2 = raw ++ mid3 /\ len raw = n) /\
  f = mk_ws_frame h.1.1.1 h.1.1.2 (match mask with Some mask => apply_mask mask raw | None => raw end) (Some h.1.2) /\ rest = mid3.

Definition sendable (f : Frame) : Prop :=
  (8 <= opcode f -> fin f = true /\ len (payload f) <= 125) /\ (is_compressed f = true -> opcode f ∈ [1; 2]).

Definition close_bytes (code : Z) (text : list Z) : list Z := code / 256 :: code mod 256 :: text.

Definition example_wire : list Z := [129; 133; 55; 250; 33; 61; 127; 159; 77; 81; 88; 137; 0].

(** ** The first two bytes *)

Lemma head_bits a : is_byte a -> a .& 15 = a mod 16 /\ (a .& 128 =? 0) = (a <? 128) /\ (a .& 64 =? 0) = (a mod 128 <? 64) /\
  (a .& 0x30 =? 0) = (a mod 64 <? 16) /\ a .& 127 = a mod 128.
Proof.
  intros Ha. split; [apply (js_and_ones a 4); lia|]. split_and!; [| | |apply (js_and_ones a 7); lia].
  all: apply Bool.eqb_prop.
  - by apply (byte_check (fun a => Bool.eqb (a .& 128 =? 0) (a <? 128)) ltac:(by vm_compute)).
  - by apply (byte_check (fun a => Bool.eqb (a .& 64 =? 0) (a mod 128 <? 64)) ltac:(by vm_compute)).
  - by apply (byte_check (fun a => Bool.eqb (a .& 0x30 =? 0) (a mod 64 <? 16)) ltac:(by vm_compute)).
Qed.

Lemma opcode_range c : c ∈ [0; 1; 2; 8; 9; 10] -> 0 <= c < 16.
Proof. rewrite !elem_of_cons, elem_of_nil. lia. Qed.

Lemma data_opcode c : c ∈ [0; 1; 2; 8; 9; 10] -> c ∈ [1; 2] <-> (c =? 0) || (8 <=? c) = false.
Proof. rewrite orb_false_iff, Z.eqb_neq, Z.leb_gt, !elem_of_cons, !elem_of_nil. lia. Qed.

Lemma frame_head_iff em ac a b h : is_byte a -> is_byte b ->
  frame_head em ac a b = Ok h <-> head_ok em ac a b h.
Proof.
  intros Ha Hb. destruct (head_bits a Ha) as (Ha1 & Ha2 & Ha3 & Ha4 & _). destruct (head_bits b Hb) as (_ & Hb2 & _ & _ & Hb5).
  unfold frame_head, check_opcode. rewrite Ha1, Ha2, Ha3, Ha4, Hb2, Hb5. clear Ha1 Ha2 Ha3 Ha4 Hb2 Hb5.
  unfold is_byte in Ha, Hb. destruct h as [[[fin code] comp] length]. unfold head_ok. split.
  - intros H. destruct (bool_decide_reflect (a mod 16 ∈ [0; 1; 2; 8; 9; 10])) as [Hop|]; [|done]. cbn [mbind result_bind] in H.
    destruct (a mod 64 <? 16) eqn:Hrsv; [|done]. cbn [negb throw_if mbind result_bind] in H.
    destruct (negb (a mod 128 <? 64) && (negb ac || (a mod 16 =? 0) || (8 <=? a mod 16))) eqn:Hcomp; [done|].
    cbn [throw_if mbind result_bind] in H. destruct (Bool.eqb (negb (b <? 128)) em) eqn:Hm; [|done].
    cbn [negb throw_if mbind result_bind] in H. apply eqb_prop in Hm.
    destruct ((8 <=? a mod 16) && (negb (negb (a <? 128)) || (125 <? b mod 128))) eqn:Hc; [done|].
    cbn [throw_if mbind result_bind] in H. injection H as <- <- <- <-. split_and!; try done.
    + unfold first_byte. destruct (Z.ltb_spec a 128), (Z.ltb_spec (a mod 128) 64); cbn [negb]; div_lia.
    + intros Hx. rewrite Hx in Hcomp. cbn [andb] in Hcomp. destruct ac; [|done]. split; [done|]. by apply data_opcode.
    + subst em. destruct (Z.ltb_spec b 128); cbn [negb]; div_lia.
    + div_lia.
    + div_lia.
    + intros H8. destruct (Z.leb_spec 8 (a mod 16)); [|lia]. cbn [andb] in Hc. apply orb_false_iff in Hc as [Hc1 Hc2].
      apply negb_false_iff in Hc1. split; [done|lia].
  - intros (-> & Hop & Hcomp & -> & Hl & Hc). pose proof (opcode_range code Hop) as Hr. unfold first_byte in *.
    replace (((if fin then 128 else 0) + (if comp then 64 else 0) + code) mod 16) with code by (destruct fin, comp; div_lia).
    replace (((if fin then 128 else 0) + (if comp then 64 else 0) + code) <? 128) with (negb fin) by (destruct fin, comp; cbn [negb]; lia).
    replace (((if fin then 128 else 0) + (if comp then 64 else 0) + code) mod 128 <? 64) with (negb comp)
      by (destruct fin, comp; cbn [negb]; div_lia).
    replace (((if fin then 128 else 0) + (if comp then 64 else 0) + code) mod 64 <? 16) with true by (destruct fin, comp; div_lia).
    replace (((if em then 128 else 0) + length) <? 128) with (negb em) by (destruct em; cbn [negb]; lia).
    replace (((if em then 128 else 0) + length) mod 128) with length by (destruct em; div_lia).
    rewrite bool_decide_eq_true_2 by done. cbn [mbind result_bind]. rewrite !negb_involutive, eqb_reflx. cbn [negb throw_if mbind result_bind].
    assert (E : comp && (negb ac || (code =? 0) || (8 <=? code)) = false).
    { destruct comp; [|done]. destruct (Hcomp eq_refl) as [-> Hd]. cbn [negb andb orb]. by apply data_opcode. }
    rewrite E. cbn [throw_if mbind result_bind].
    assert (E2 : (8 <=? code) && (negb fin || (125 <? length)) = false).
    { destruct (Z.leb_spec 8 code); [|done]. destruct (Hc ltac:(done)) as [-> ?]. cbn [negb andb orb]. lia. }
    rewrite E2. done.
Qed.

Lemma frame_head_finishes em ac a b : finishes (frame_head em ac a b).
Proof. unfold frame_head, check_opcode. case_bool_decide; cbn [mbind result_bind]; [|done]. auto 10 with finishes. Qed.

(** ** Lengths *)

Lemma be_value_snoc bytes b : be_value (bytes ++ [b]) = be_value bytes * 256 + b.
Proof. unfold be_value. by rewrite foldl_app. Qed.

Lemma be_value_bound bytes : is_bytes bytes -> 0 <= be_value bytes < 256 ^ len bytes.
Proof.
  intros H. induction bytes as [|b bytes IH] using rev_ind; [by vm_compute|].
  apply Forall_app in H as [H Hb]. rewrite Forall_singleton in Hb. specialize (IH H). rewrite be_value_snoc, len_app.
  change (len [b]) with 1. rewrite Z.pow_add_r, Z.pow_1_r by (pose proof (len_nonneg bytes); lia). unfold is_byte in Hb. lia.
Qed.

Lemma length_big_endian k n : length (big_endian k n) = k.
Proof. revert n. induction k as [|k IH]; intros n; [done|]. cbn [big_endian]. rewrite length_app, IH. cbn. lia. Qed.

Lemma big_endian_bytes k n : is_bytes (big_endian k n).
Proof.
  revert n. induction k as [|k IH]; intros n; [constructor|]. cbn [big_endian]. apply Forall_app_2; [apply IH|].
  apply Forall_singleton. unfold is_byte. div_lia.
Qed.

Lemma big_endian_value bytes : is_bytes bytes -> big_endian (length bytes) (be_value bytes) = bytes.
Proof.
  induction bytes as [|b bytes IH] using rev_ind; [done|]. intros H. apply Forall_app in H as [H Hb]. rewrite Forall_singleton in Hb.
  rewrite length_app, Nat.add_comm, be_value_snoc. cbn [length Nat.add big_endian]. unfold is_byte in Hb.
  replace ((be_value bytes * 256 + b) / 256) with (be_value bytes) by div_lia. rewrite IH by done. f_equal. f_equal. div_lia.
Qed.

Lemma value_big_endian k n : 0 <= n < 256 ^ Z.of_nat k -> be_value (big_endian k n) = n.
Proof.
  revert n. induction k as [|k IH]; intros n Hn; [cbn in *; lia|]. cbn [big_endian]. rewrite be_value_snoc, IH.
  - div_lia.
  - rewrite Nat2Z.inj_succ, Z.pow_succ_r in Hn by lia. div_lia.
Qed.

Lemma length_bytes_fold bytes : forall acc n, is_bytes bytes -> 0 <= acc <= MAX_SAFE_INTEGER ->
  foldM length_byte acc bytes = Ok n <-> foldl (fun n b => n * 256 + b) acc bytes = n /\ n <= MAX_SAFE_INTEGER.
Proof.
  induction bytes as [|b bytes IH]; intros acc n Hb Hacc; cbn [foldM foldl].
  { split; [intros [= <-]; lia|by intros [-> _]]. }
  apply Forall_cons in Hb as [Hb Hbs]. unfold is_byte in Hb. assert (E : length_byte acc b = if acc * 256 + b <=? MAX_SAFE_INTEGER then Ok (acc * 256 + b)
    else Err (LimitError "Frame length exceeds safe integer range")).
  { unfold length_byte. cbv zeta. unfold isSafeInteger. rewrite Z.abs_eq by lia. by destruct (acc * 256 + b <=? MAX_SAFE_INTEGER). }
  rewrite E. clear E. destruct (Z.leb_spec (acc * 256 + b) MAX_SAFE_INTEGER) as [Hle|Hgt]; cbn [negb throw_if mbind result_bind].
  - apply IH; [done|lia].
  - split; [done|]. intros [<- Hmax].
    assert (Hg : forall l a, is_bytes l -> 0 <= a -> a <= foldl (fun n b => n * 256 + b) a l).
    { clear. induction l as [|x l IHl]; intros a Hl Ha; [cbn; lia|]. apply Forall_cons in Hl as [Hx Hl]. unfold is_byte in Hx.
      cbn [foldl]. specialize (IHl (a * 256 + x) Hl ltac:(lia)). lia. }
    specialize (Hg bytes (acc * 256 + b) Hbs ltac:(lia)). lia.
Qed.

Lemma length_fold_finishes bytes acc : finishes (foldM length_byte acc bytes).
Proof. apply finishes_foldM. intros a b. unfold length_byte. auto with finishes. Qed.

Lemma at_or_mid {A} (d : A) pre x rest : at_or d (pre ++ x :: rest) (len pre) = x.
Proof. unfold at_or. by rewrite at_app_mid. Qed.

Lemma two_bytes (bytes : list Z) : len bytes = 2 -> bytes = [at_or 0 bytes 0; at_or 0 bytes 1].
Proof. destruct bytes as [|a [|b [|c bytes]]]; intros H; try by (unfold len in H; cbn [length] in H; lia). done. Qed.

Lemma big_endian_2 n : big_endian 2 n = [n / 256 mod 256; n mod 256].
Proof. done. Qed.

Lemma first_of_eight n : 0 <= n <= MAX_SAFE_INTEGER -> at_or 0 (big_endian 8 n) 0 = 0.
Proof.
  intros Hn. change (at_or 0 (big_endian 8 n) 0) with (n / 256 / 256 / 256 / 256 / 256 / 256 / 256 mod 256).
  rewrite !Z.div_div by lia. unfold MAX_SAFE_INTEGER in Hn. rewrite Z.div_small by lia. done.
Qed.

Lemma length_bytes_big n : 65536 <= n -> length_bytes n = big_endian 8 n /\ length_code n = 127.
Proof.
  intros Hn. unfold length_bytes, length_code. destruct (Z.ltb_spec n 126); [lia|]. by destruct (Z.ltb_spec n 65536); [lia|].
Qed.

Lemma length_bytes_mid n : 126 <= n < 65536 -> length_bytes n = big_endian 2 n /\ length_code n = 126.
Proof.
  intros Hn. unfold length_bytes, length_code. destruct (Z.ltb_spec n 126); [lia|]. by destruct (Z.ltb_spec n 65536); [|lia].
Qed.

Lemma length_bytes_small n : n < 126 -> length_bytes n = [] /\ length_code n = n.
Proof. intros Hn. unfold length_bytes, length_code. by destruct (Z.ltb_spec n 126); [|lia]. Qed.

Lemma length_code_cases n : 0 <= n ->
  n < 126 /\ length_code n = n \/ 126 <= n < 65536 /\ length_code n = 126 \/ 65536 <= n /\ length_code n = 127.
Proof. intros Hn. unfold length_code. destruct (Z.ltb_spec n 126), (Z.ltb_spec n 65536); lia. Qed.

Section ReadingTheory.
Context {T : Type} `{Transport T}.
Implicit Types r : BufferedReader T.

Lemma reader_guard {A} c e (m : result (A * BufferedReader T)) G : e <> OutOfFuel -> (c = false -> parses m G) ->
parses (throw_if c e ;; m) (fun a rest => c = false /\ G a rest).
Proof.
intros He Hm. destruct c; cbn [throw_if mbind result_bind].
- eapply reader_iff; [|by apply reader_err]. naive_solver.
- eapply reader_iff; [|by apply Hm]. naive_solver.
Qed.

Lemma mid_bytes r (bytes mid : list Z) : is_bytes (pending r) -> pending r = bytes ++ mid -> is_bytes bytes /\ is_bytes mid.
Proof. intros Hb E. rewrite E in Hb. by apply Forall_app in Hb. Qed.

Lemma short_length_parses r : reader_ok r -> is_bytes (pending r) ->
parses (frame_length 126 r) (length_grammar 126 (pending r)).
Proof.
intros Hr Hb. unfold frame_length. cbn [Z.eqb Pos.eqb].
eapply reader_iff; [|apply (reader_bind _ _ _ (fun bytes mid n rest =>
  (at_or 0 bytes 0 * 256 + at_or 0 bytes 1 <? 126) = false /\ n = at_or 0 bytes 0 * 256 + at_or 0 bytes 1 /\ rest = mid)
  (exact_parses 2 r Hr ltac:(done)))].
2:{ intros bytes r' _ Hr'. apply reader_guard; [done|]. intros _. by apply reader_ret. }
cbv beta. intros n rest. unfold length_grammar. split.
- intros (bytes & mid & [E Hl] & Hn & -> & ->). destruct (mid_bytes r bytes mid Hb E) as [Hbs _].
  pose proof (be_value_bound bytes Hbs) as Hv. rewrite Hl in Hv. pose proof (big_endian_value bytes Hbs) as Hbe.
  rewrite (two_bytes bytes Hl) in E, Hv, Hbe. cbn [be_value foldl length] in Hv, Hbe.
  set (v := at_or 0 bytes 0 * 256 + at_or 0 bytes 1) in *. change ((0 * 256 + at_or 0 bytes 0) * 256 + at_or 0 bytes 1) with v in Hv, Hbe.
  destruct (length_bytes_mid v) as [-> ->]; [lia|]. rewrite E, Hbe. split_and!; [done|done|lia|unfold MAX_SAFE_INTEGER; lia].
- intros (E & Hc & Hn). destruct (length_code_cases n ltac:(lia)) as [[Hr1 Hr2]|[[Hr1 Hr2]|[Hr1 Hr2]]]; [lia| |lia].
  destruct (length_bytes_mid n Hr1) as [El _]. rewrite El, big_endian_2 in E. eexists _, rest. split; [split; [exact E|done]|].
  change (at_or 0 [n / 256 mod 256; n mod 256] 0) with (n / 256 mod 256).
  change (at_or 0 [n / 256 mod 256; n mod 256] 1) with (n mod 256).
  replace (n / 256 mod 256 * 256 + n mod 256) with n by div_lia. split_and!; [lia|done|done].
Qed.

Lemma long_length_parses r : reader_ok r -> is_bytes (pending r) ->
parses (frame_length 127 r) (length_grammar 127 (pending r)).
Proof.
intros Hr Hb. unfold frame_length. cbn [Z.eqb Pos.eqb].
eapply reader_iff; [|apply (reader_bind _ _ _ (fun bytes mid n rest =>
  negb (at_or 0 bytes 0 .& 128 =? 0) = false /\ exists v, (be_value bytes = v /\ v <= MAX_SAFE_INTEGER) /\
  (v <? 65536) = false /\ n = v /\ rest = mid) (exact_parses 8 r Hr ltac:(done)))].
2:{ intros bytes r' [E _] Hr'. apply mid_bytes in E as [Hbs _]; [|done]. apply reader_guard; [done|]. intros _.
    apply (reader_check _ r'); [|by apply length_fold_finishes|].
    - intros n. by apply length_bytes_fold.
    - intros n _. apply reader_guard; [done|]. intros _. by apply reader_ret. }
cbv beta. intros n rest. unfold length_grammar. split.
- intros (bytes & mid & [E Hl] & _ & v & [Hv Hmax] & Hn & -> & ->). destruct (mid_bytes r bytes mid Hb E) as [Hbs _].
  destruct (length_bytes_big v) as [-> ->]; [lia|]. pose proof (big_endian_value bytes Hbs) as Hbe.
  replace (length bytes) with 8%nat in Hbe by (unfold len in Hl; lia). rewrite <- Hv, Hbe, E. split_and!; [done|done|lia|lia].
- intros (E & Hc & Hn). destruct (length_code_cases n ltac:(lia)) as [[Hr1 Hr2]|[[Hr1 Hr2]|[Hr1 Hr2]]]; [lia|lia|].
  destruct (length_bytes_big n Hr1) as [El _]. rewrite El in E. exists (big_endian 8 n), rest. split.
  { split; [done|]. unfold len. by rewrite length_big_endian. }
  rewrite first_of_eight by done. split; [done|]. exists n. rewrite value_big_endian by (unfold MAX_SAFE_INTEGER in Hn; lia).
  split_and!; [done|lia|lia|done|done].
Qed.

Lemma frame_length_parses code r : reader_ok r -> is_bytes (pending r) -> 0 <= code < 128 ->
parses (frame_length code r) (length_grammar code (pending r)).
Proof.
intros Hr Hb Hc. destruct (decide (code = 126)) as [->|H126]; [by apply short_length_parses|].
destruct (decide (code = 127)) as [->|H127]; [by apply long_length_parses|].
unfold frame_length. rewrite (proj2 (Z.eqb_neq _ _) H126), (proj2 (Z.eqb_neq _ _) H127).
eapply reader_iff; [|by apply reader_ret]. intros n rest. unfold length_grammar. split.
- intros [-> ->]. destruct (length_bytes_small code) as [-> ->]; [lia|]. split_and!; [done|done|lia|unfold MAX_SAFE_INTEGER; lia].
- intros (E & Ec & Hn). destruct (length_code_cases n ltac:(lia)) as [[Hr1 Hr2]|[[Hr1 Hr2]|[Hr1 Hr2]]]; [|lia|lia].
  destruct (length_bytes_small n Hr1) as [El _]. rewrite El in E. split; [lia|done].
Qed.

Lemma frame_mask_parses em r : reader_ok r ->
parses (frame_mask em r) (fun mask rest => pending r = default [] mask ++ rest /\ len (default [] mask) = (if em then 4 else 0) /\
  (em = bool_decide (is_Some mask))).
Proof.
intros Hr. unfold frame_mask. destruct em.
- eapply reader_iff; [|apply (reader_bind _ _ _ (fun bytes mid mask rest => mask = Some bytes /\ rest = mid) (exact_parses 4 r Hr ltac:(done)))].
  2:{ intros bytes r' _ Hr'. by apply reader_ret. }
  cbv beta. intros mask rest. split.
  + intros (bytes & mid & [E Hl] & -> & ->). cbn [default]. split_and!; [done|done|]. by rewrite bool_decide_eq_true_2.
  + intros (E & Hl & Hs). symmetry in Hs. apply bool_decide_eq_true in Hs as [bytes ->]. by exists bytes, rest.
- eapply reader_iff; [|by apply reader_ret]. intros mask rest. split.
  + intros [-> ->]. cbn [default]. split_and!; [done|done|]. by rewrite bool_decide_eq_false_2 by by intros [].
  + intros (E & Hl & Hs). symmetry in Hs. apply bool_decide_eq_false in Hs. destruct mask; [by destruct Hs|]. by split.
Qed.
End ReadingTheory.

(** ** Masks *)

Lemma lxor_byte a m : is_byte a -> is_byte m -> is_byte (Z.lxor a m).
Proof.
  unfold is_byte. intros Ha Hm. assert (Hn : 0 <= Z.lxor a m) by (apply Z.lxor_nonneg; lia). split; [done|].
  destruct (decide (Z.lxor a m = 0)) as [->|Hz]; [lia|]. change 256 with (2 ^ 8). apply Z.log2_lt_pow2; [lia|].
  assert (Hlog : forall x, 0 <= x < 256 -> Z.log2 x < 8).
  { intros x Hx. destruct (decide (x = 0)) as [->|]; [done|]. apply Z.log2_lt_pow2; lia. }
  pose proof (Z.log2_lxor a m ltac:(lia) ltac:(lia)). specialize (Hlog a Ha) as H1. specialize (Hlog m Hm). lia.
Qed.

Lemma xor_byte a m : is_byte a -> is_byte m -> to_uint8 (a .^ m) = Z.lxor a m.
Proof.
  intros Ha Hm. unfold js_xor. rewrite !to_int32_small by (unfold is_byte in *; lia).
  by apply to_uint8_small, lxor_byte.
Qed.

Lemma xor_twice a m : is_byte a -> is_byte m -> to_uint8 (to_uint8 (a .^ m) .^ m) = a.
Proof.
  intros Ha Hm. rewrite (xor_byte a) by done. rewrite xor_byte by (done || by apply lxor_byte).
  by rewrite Z.lxor_assoc, Z.lxor_nilpotent, Z.lxor_0_r.
Qed.

Lemma len_apply_mask mask bytes : len (apply_mask mask bytes) = len bytes.
Proof. unfold len, apply_mask. by rewrite length_imap. Qed.

Lemma apply_mask_bytes mask bytes : is_bytes (apply_mask mask bytes).
Proof.
  apply Forall_lookup_2. intros i x Hx. unfold apply_mask in Hx. rewrite list_lookup_imap in Hx.
  destruct (bytes !! i); [|done]. injection Hx as <-. apply to_uint8_byte.
Qed.

Lemma apply_mask_twice mask bytes : is_bytes mask -> is_bytes bytes -> apply_mask mask (apply_mask mask bytes) = bytes.
Proof.
  intros Hm Hb. apply list_eq. intros i. unfold apply_mask. rewrite !list_lookup_imap.
  destruct (bytes !! i) as [b|] eqn:E; [|done]. cbn [fmap option_fmap option_map]. f_equal.
  apply xor_twice; [by eapply Forall_lookup_1|by apply at_or_Forall].
Qed.

Lemma apply_mask_nil bytes : is_bytes bytes -> apply_mask [] bytes = bytes.
Proof.
  intros Hb. apply list_eq. intros i. unfold apply_mask. rewrite list_lookup_imap.
  destruct (bytes !! i) as [b|] eqn:E; [|done]. cbn [fmap option_fmap option_map]. f_equal.
  change (at_or 0 [] (Z.of_nat i .& 3)) with (default 0 (at_ ([] : list Z) (Z.of_nat i .& 3))).
  replace (at_ ([] : list Z) (Z.of_nat i .& 3)) with (@None Z) by (unfold at_; by destruct (_ <? 0)). cbn [default from_option].
  apply Z.eqb_eq. apply (byte_check (fun b => to_uint8 (b .^ 0) =? b) ltac:(by vm_compute)). by eapply Forall_lookup_1.
Qed.

(** ** Reading a frame *)

Lemma mask_ok_false mask : mask_ok false mask -> mask = [].
Proof. intros [_ Hl]. destruct mask as [|m mask]; [done|]. rewrite len_cons in Hl. pose proof (len_nonneg mask). lia. Qed.

Lemma mask_ok_nonempty masked mask : mask_ok masked mask -> negb (bool_decide (mask = [])) = masked.
Proof.
  intros [_ Hl]. destruct mask as [|m mask]; destruct masked; [done|done|done|].
  rewrite len_cons in Hl. pose proof (len_nonneg mask). lia.
Qed.

Lemma wire_frame_eq f masked mask : mask_ok masked mask ->
  wire_frame f mask = [first_byte (fin f) (is_compressed f) (opcode f); (if masked then 128 else 0) + length_code (len (payload f))] ++
    length_bytes (len (payload f)) ++ mask ++ apply_mask mask (payload f).
Proof. intros Hm. unfold wire_frame, wire_header. by rewrite (mask_ok_nonempty masked mask Hm). Qed.

Lemma length_code_range n : 0 <= n -> 0 <= length_code n < 128.
Proof. intros Hn. destruct (length_code_cases n Hn) as [[? ->]|[[? ->]|[? ->]]]; lia. Qed.

Lemma read_steps_iff em max ac bytes f rest : is_bytes bytes -> max <= MAX_SAFE_INTEGER ->
  (exists base mid, (bytes = base ++ mid /\ len base = 2) /\ read_steps em max ac base mid f rest) <->
  frame_grammar em max ac bytes f rest.
Proof.
  intros Hb Hmax. split.
  - intros (base & mid & [-> Hl] & [[[fl code] comp] short] & Hh & n & mid1 & (-> & Hshort & Hn) & Hmn & mask & mid2 & (-> & Hlm & Hem)
      & raw & mid3 & [-> Hraw] & -> & ->). cbn [fst snd] in *.
    apply Forall_app in Hb as [_ Hb]. apply Forall_app in Hb as [_ Hb]. apply Forall_app in Hb as [Hmb Hb]. apply Forall_app in Hb as [Hrb _].
    destruct Hh as (Ha & Hop & Hcomp & Hb1 & _ & Hctl). rewrite (two_bytes base Hl), Ha, Hb1, Hshort.
    set (p := match mask with Some mask => apply_mask mask raw | None => raw end).
    assert (Hp : len p = n /\ is_bytes p /\ apply_mask (default [] mask) p = raw).
    { subst p. destruct mask as [mask|]; cbn [default from_option] in *.
      - rewrite len_apply_mask. split_and!; [done|apply apply_mask_bytes|by apply apply_mask_twice].
      - split_and!; [done|done|by apply apply_mask_nil]. }
    destruct Hp as (Hpl & Hpb & Hpm). set (mk := default [] mask) in *. clearbody mk p. exists mk. assert (Hmo : mask_ok em mk) by done.
    split_and!; [done| | |done].
    + rewrite (wire_frame_eq _ em) by done. cbn [fin opcode payload compressed is_compressed default from_option].
      unfold is_compressed. cbn [compressed default from_option]. unfold id. rewrite Hpl, Hpm. by rewrite <- !app_assoc.
    + constructor; cbn [fin opcode payload]; [done| |done|done|lia]. intros H8. destruct (Hctl H8) as [-> Hs]. split; [done|].
      rewrite Hpl. destruct (length_code_cases n ltac:(lia)) as [[? ?]|[[? ?]|[? ?]]]; lia.
  - intros (mask & Hmo & -> & [Hop Hctl Hcomp Hpay Hlen] & Hc). destruct f as [fl code p [comp|]]; [|done].
    rewrite (wire_frame_eq _ em mask Hmo). unfold is_compressed in *. cbn [fin opcode payload compressed default from_option] in *. unfold id in *.
    pose proof (len_nonneg p) as Hp0. pose proof (length_code_range (len p) Hp0) as Hlc.
    exists [first_byte fl comp code; (if em then 128 else 0) + length_code (len p)],
      (length_bytes (len p) ++ mask ++ apply_mask mask p ++ rest). split; [by split; [rewrite <- !app_assoc|]|].
    exists (fl, code, comp, length_code (len p)). split.
    { unfold head_ok. split_and!; try done; [lia|lia|]. intros H8. destruct (Hctl H8) as [-> Hs]. split; [done|].
      destruct (length_code_cases (len p) Hp0) as [[? ?]|[[? ?]|[? ?]]]; lia. }
    exists (len p), (mask ++ apply_mask mask p ++ rest). split; [by split_and!; [|done|lia|lia]|]. split; [lia|].
    exists (if em then Some mask else None), (apply_mask mask p ++ rest). assert (Hmb := proj1 Hmo). assert (Hml := proj2 Hmo). split.
    { destruct em; cbn [default from_option]; [split_and!; [done|done|by rewrite bool_decide_eq_true_2]|].
      rewrite (mask_ok_false mask Hmo). split_and!; [done|done|]. by rewrite bool_decide_eq_false_2 by by intros []. }
    exists (apply_mask mask p), rest. split; [by rewrite len_apply_mask|]. split; [|done]. cbn [fst snd]. f_equal.
    destruct em; [by rewrite apply_mask_twice|]. by rewrite (mask_ok_false mask Hmo), apply_mask_nil.
Qed.

Section FrameReading.
Context {T : Type} `{Transport T}.

Lemma at_byte l i : is_bytes l -> is_byte (at_or 0 l i).
Proof. intros Hl. apply at_or_Forall; [by vm_compute|done]. Qed.

Lemma readFrame_parses em max ac (r : BufferedReader T) : reader_ok r -> is_bytes (pending r) -> max <= MAX_SAFE_INTEGER ->
parses (readFrame em max ac r) (frame_grammar em max ac (pending r)).
Proof.
intros Hr Hb Hmax. unfold readFrame. eapply reader_iff; [intros f rest; by apply (read_steps_iff em max ac)|].
apply (reader_bind _ _ _ (read_steps em max ac) (exact_parses 2 r Hr ltac:(done))).
intros base r1 [E1 Hl1] Hr1. destruct (mid_bytes r base _ Hb E1) as [Hbb Hb1].
apply (reader_check _ r1); [intros h; apply frame_head_iff; by apply at_byte|apply frame_head_finishes|].
intros [[[fl code] comp] short] (_ & _ & _ & _ & Hshort & _). cbn [fst snd].
apply (reader_bind _ _ _ (fun n mid1 f rest => (max <? n) = false /\
  exists mask mid2, (mid1 = default [] mask ++ mid2 /\ len (default [] mask) = (if em then 4 else 0) /\ em = bool_decide (is_Some mask)) /\
  exists raw mid3, (mid2 = raw ++ mid3 /\ len raw = n) /\
  f = mk_ws_frame fl code (match mask with Some mask => apply_mask mask raw | None => raw end) (Some comp) /\ rest = mid3)
  (frame_length_parses short r1 Hr1 Hb1 Hshort)).
intros n r2 (E2 & _ & Hn) Hr2. apply reader_guard; [done|]. intros Hmn.
apply (reader_bind _ _ _ (fun mask mid2 f rest => exists raw mid3, (mid2 = raw ++ mid3 /\ len raw = n) /\
  f = mk_ws_frame fl code (match mask with Some mask => apply_mask mask raw | None => raw end) (Some comp) /\ rest = mid3)
  (frame_mask_parses em r2 Hr2)).
intros mask r3 _ Hr3.
apply (reader_bind _ _ _ (fun raw mid3 f rest =>
  f = mk_ws_frame fl code (match mask with Some mask => apply_mask mask raw | None => raw end) (Some comp) /\ rest = mid3)
  (exact_parses n r3 Hr3 Hn)).
intros raw r4 _ Hr4. by apply reader_ret.
Qed.
End FrameReading.

(** ** Writing a frame *)

Lemma fmap_to_uint8 l : is_bytes l -> to_uint8 <$> l = l.
Proof. induction 1 as [|b l Hb Hl IH]; [done|]. cbn [fmap list_fmap]. by rewrite to_uint8_small, IH. Qed.

Lemma first_byte_or f : opcode f ∈ [0; 1; 2; 8; 9; 10] ->
  ((if fin f then 128 else 0) .| (if is_compressed f then 64 else 0)) .| opcode f = first_byte (fin f) (is_compressed f) (opcode f).
Proof.
  rewrite !elem_of_cons, elem_of_nil. intros Hop. unfold first_byte.
  destruct (fin f), (is_compressed f); repeat destruct Hop as [->|Hop]; done.
Qed.

Lemma second_byte_or (masked : bool) n : 0 <= n < 128 -> (if masked then 128 else 0) .| n = (if masked then 128 else 0) + n.
Proof. intros Hn. destruct masked; apply (js_or_add _ _ 7); (done || lia). Qed.

Lemma write_header x y n (masked : bool) :
  let m := if masked then 4 else 0 in
  set_u8 (set_u8 (zeros (2 + 0 + m)) 0 x) 1 y = (to_uint8 <$> [x; y]) ++ zeros m /\
  set_u8 (set_u8 (set_u8 (set_u8 (zeros (2 + 2 + m)) 0 x) 1 y) 2 (n .>>> 8)) 3 (n .& 255)
    = (to_uint8 <$> [x; y; n .>>> 8; n .& 255]) ++ zeros m /\
  write_size [9; 8; 7; 6; 5; 4; 3; 2] (set_u8 (set_u8 (zeros (2 + 8 + m)) 0 x) 1 y) n
    = (to_uint8 <$> x :: y :: big_endian 8 n) ++ zeros m.
Proof. by destruct masked. Qed.

Lemma low_byte n : n .& 255 = n mod 256.
Proof. apply (js_and_ones n 8). lia. Qed.

Lemma high_byte n : 0 <= n < 65536 -> n .>>> 8 = n / 256.
Proof. intros Hn. apply (js_ushr_div n 8); lia. Qed.

(** The header that [encodeFrame] writes before it fills the mask. *)
Lemma header_written f (masked : bool) : opcode f ∈ [0; 1; 2; 8; 9; 10] ->
  let size := len (payload f) in
  let extended := if size <? 126 then 0 else if size <? 65536 then 2 else 8 in
  let x := ((if fin f then 128 else 0) .| (if is_compressed f then 64 else 0)) .| opcode f in
  let y := (if masked then 128 else 0) .| (if size <? 126 then size else if size <? 65536 then 126 else 127) in
  let header := set_u8 (set_u8 (zeros (2 + extended + (if masked then 4 else 0))) 0 x) 1 y in
  (if extended =? 2 then set_u8 (set_u8 header 2 (size .>>> 8)) 3 (size .& 255)
   else if extended =? 8 then write_size [9; 8; 7; 6; 5; 4; 3; 2] header size else header)
  = wire_header f masked ++ zeros (if masked then 4 else 0) /\ len (wire_header f masked) = 2 + extended.
Proof.
  intros Hop size extended x y header. pose proof (len_nonneg (payload f)) as Hs. fold size in Hs.
  destruct (write_header x y size masked) as (W0 & W2 & W8). subst header.
  assert (Hx : x = first_byte (fin f) (is_compressed f) (opcode f)) by by apply first_byte_or.
  assert (Hxb : is_byte x).
  { rewrite Hx. pose proof (opcode_range _ Hop). unfold first_byte, is_byte. destruct (fin f), (is_compressed f); lia. }
  assert (Hy : y = (if masked then 128 else 0) + length_code size).
  { apply second_byte_or. by apply (length_code_range size). }
  assert (Hyb : is_byte y).
  { rewrite Hy. pose proof (length_code_range size Hs). unfold is_byte. destruct masked; lia. }
  unfold wire_header. fold size. rewrite <- Hx, <- Hy. subst extended. clearbody x y. clear Hx Hy.
  unfold length_bytes. destruct (Z.ltb_spec size 126).
  { cbn [Z.eqb]. rewrite W0, fmap_to_uint8 by (rewrite !Forall_cons; by split_and!). done. }
  destruct (Z.ltb_spec size 65536); cbn [Z.eqb Pos.eqb].
  - rewrite W2. split; [|done]. f_equal. cbn [fmap list_fmap]. 
    rewrite (to_uint8_small x Hxb), (to_uint8_small y Hyb), (to_uint8_small (size .>>> 8)), (to_uint8_small (size .& 255)).
    + rewrite big_endian_2, low_byte, high_byte by lia. do 3 f_equal. rewrite Z.mod_small; [done|div_lia].
    + rewrite low_byte. unfold is_byte. div_lia.
    + rewrite high_byte by lia. unfold is_byte. div_lia.
  - rewrite W8, fmap_to_uint8 by (rewrite !Forall_cons; split_and!; [done|done|apply big_endian_bytes]). split; [done|].
    rewrite !len_cons. unfold len. by rewrite length_big_endian.
Qed.

Lemma wire_header_bytes f masked : opcode f ∈ [0; 1; 2; 8; 9; 10] -> is_bytes (wire_header f masked).
Proof.
  intros Hop. pose proof (opcode_range _ Hop). pose proof (length_code_range (len (payload f)) (len_nonneg _)).
  unfold wire_header. rewrite !Forall_cons. split_and!.
  - unfold first_byte, is_byte. destruct (fin f), (is_compressed f); lia.
  - unfold is_byte. destruct masked; lia.
  - unfold length_bytes. destruct (_ <? 126); [done|]. destruct (_ <? 65536); apply big_endian_bytes.
Qed.

Lemma encodeFrame_spec f fill (masked own : bool) : opcode f ∈ [0; 1; 2; 8; 9; 10] -> fills fill -> sendable f ->
  let mask := if masked then fill (zeros 4) else [] in
  let bytes := if masked then apply_mask mask (payload f) else payload f in
  encodeFrame f fill masked own = Ok ([wire_header f masked ++ mask; bytes], if masked && own then bytes else payload f).
Proof.
  intros Hop Hfill [Hctl Hcomp]. unfold encodeFrame. cbv zeta.
  assert (E1 : (8 <=? opcode f) && (negb (fin f) || (125 <? len (payload f))) = false).
  { destruct (Z.leb_spec 8 (opcode f)); [|done]. destruct (Hctl ltac:(done)) as [-> ?]. cbn [negb andb orb]. lia. }
  assert (E2 : is_compressed f && ((opcode f =? 0) || (8 <=? opcode f)) = false).
  { destruct (is_compressed f); [|done]. cbn [andb]. apply data_opcode; [done|]. by apply Hcomp. }
  rewrite E1, E2. cbn [throw_if mbind result_bind]. destruct (header_written f masked Hop) as [Hw Hl]. rewrite Hw, <- Hl.
  destruct masked; cbn [andb].
  - rewrite len_app. change (len (zeros 4)) with 4.
    assert (Es : forall h : list Z, subarray (h ++ zeros 4) (len h) (len h + 4) = zeros 4).
    { intros h. pose proof (subarray_app_mid h (zeros 4) []) as E. by rewrite app_nil_r in E. }
    rewrite Es. assert (Er : forall h m : list Z, len m = 4 -> set_range (h ++ zeros 4) (len h) m = h ++ m).
    { intros h m Hm. unfold set_range. replace (Z.to_nat (len h)) with (length h) by (unfold len; lia).
      rewrite take_app_length, drop_app_add, drop_ge; [by rewrite app_nil_r|]. unfold len in Hm. change (length (zeros 4)) with 4%nat. lia. }
    rewrite Er by exact (proj2 (Hfill (zeros 4))). by destruct own.
  - done.
Qed.

Lemma encodeFrame_errors f fill masked own out : encodeFrame f fill masked own = Ok out -> opcode f ∈ [0; 1; 2; 8; 9; 10] -> sendable f.
Proof.
  unfold encodeFrame. cbv zeta. intros H Hop.
  destruct ((8 <=? opcode f) && (negb (fin f) || (125 <? len (payload f)))) eqn:E1; [done|].
  destruct (is_compressed f && ((opcode f =? 0) || (8 <=? opcode f))) eqn:E2; [done|]. split.
  - intros H8. rewrite (proj2 (Z.leb_le _ _) H8) in E1. cbn [andb] in E1. apply orb_false_iff in E1 as [E1 E3].
    apply negb_false_iff in E1. split; [done|lia].
  - intros Hc. rewrite Hc in E2. cbn [andb] in E2. by apply data_opcode.
Qed.

(** ** Close payloads *)

Lemma close_code_range code : isValidWireCloseCode code = true -> 1000 <= code <= 4999.
Proof.
  unfold isValidWireCloseCode, in_range. intros [H|H]%orb_true_iff; [lia|]. apply bool_decide_eq_true in H.
  rewrite !elem_of_cons, elem_of_nil in H. lia.
Qed.

Lemma closePayload_code code reason : is_jsstr reason -> isValidWireCloseCode code = true ->
  closePayload (Some code) reason =
    if 123 <? len (encode_scalars (to_scalars reason)) then Err (LimitError "WebSocket close reason exceeds 123 UTF-8 bytes")
    else Ok (close_bytes code (encode_scalars (to_scalars reason))).
Proof.
  intros Hu Hc. pose proof (close_code_range code Hc) as Hr. unfold closePayload. rewrite Hc. cbn [negb throw_if mbind result_bind].
  cbv zeta. rewrite TextEncoder.text_encode_spec by done. set (text := encode_scalars (to_scalars reason)).
  destruct (123 <? len text); [done|]. cbn [throw_if mbind result_bind]. f_equal. pose proof (len_nonneg text) as Hl.
  assert (E : zeros (2 + len text) = 0 :: 0 :: zeros (len text)).
  { rewrite zeros_cons, zeros_cons by lia. by replace (2 + len text - 1 - 1) with (len text) by lia. }
  rewrite E. rewrite low_byte, high_byte by lia.
  change (set_u8 (set_u8 (0 :: 0 :: zeros (len text)) 0 (code / 256)) 1 (code mod 256))
    with (to_uint8 (code / 256) :: to_uint8 (code mod 256) :: zeros (len text)).
  rewrite !to_uint8_small by (unfold is_byte; div_lia). unfold set_range, close_bytes. change (Z.to_nat 2) with 2%nat. cbn [take app Nat.add drop].
  f_equal. f_equal. unfold zeros. rewrite drop_ge, app_nil_r; [done|]. rewrite length_replicate. unfold len. lia.
Qed.

Lemma close_bytes_read code text : 0 <= code < 65536 -> close_bytes code text = close_bytes code text /\
  at_or 0 (close_bytes code text) 0 * 256 + at_or 0 (close_bytes code text) 1 = code /\
  subarray (close_bytes code text) 2 (len (close_bytes code text)) = text.
Proof.
  intros Hc. split; [done|]. split.
  - change (at_or 0 (close_bytes code text) 0) with (code / 256). change (at_or 0 (close_bytes code text) 1) with (code mod 256). div_lia.
  - unfold close_bytes, subarray. change (Z.to_nat 2) with 2%nat. cbn [drop]. apply take_ge. unfold len. cbn [length]. lia.
Qed.

Lemma close_split p : is_bytes p -> 2 <= len p ->
  p = close_bytes (at_or 0 p 0 * 256 + at_or 0 p 1) (subarray p 2 (len p)).
Proof.
  intros Hb Hl. destruct p as [|a [|b p]]; try by (unfold len in Hl; cbn [length] in Hl; lia).
  apply Forall_cons in Hb as [Ha Hb]. apply Forall_cons in Hb as [Hbb _]. unfold is_byte in Ha, Hbb.
  change (at_or 0 (a :: b :: p) 0) with a. change (at_or 0 (a :: b :: p) 1) with b. unfold close_bytes.
  replace ((a * 256 + b) / 256) with a by div_lia. replace ((a * 256 + b) mod 256) with b by div_lia. do 2 f_equal.
  unfold subarray. change (Z.to_nat 2) with 2%nat. cbn [drop]. rewrite drop_0, take_ge; [done|]. unfold len. cbn [length]. lia.
Qed.

Lemma keep_bom cs : strip_bom true cs = cs.
Proof. destruct cs as [|c cs]; [done|]. cbn [strip_bom negb]. by rewrite andb_false_r. Qed.

Lemma parseClose_iff p code reason : is_bytes p ->
  parseClose p = Ok (code, reason) <->
  p = [] /\ code = 1005 /\ reason = [] \/
  isValidWireCloseCode code = true /\ exists cs, Forall is_scalar cs /\ p = close_bytes code (encode_scalars cs) /\ reason = of_scalars cs.
Proof.
  intros Hb. unfold parseClose. destruct (Z.eqb_spec (len p) 0) as [H0|H0].
  { assert (p = []) as -> by (destruct p; [done|rewrite len_cons in H0; pose proof (len_nonneg p); lia]).
    split; [intros [= <- <-]; by left|]. intros [(_ & -> & ->)|(_ & cs & _ & E & _)]; [done|discriminate]. }
  destruct (Z.eqb_spec (len p) 1) as [H1|H1].
  { split; [done|]. intros [(-> & _)|(_ & cs & _ & -> & _)]; [done|]. unfold close_bytes in H1. rewrite !len_cons in H1.
    pose proof (len_nonneg (encode_scalars cs)). lia. }
  cbn [throw_if mbind result_bind]. cbv zeta. pose proof (len_nonneg p) as Hl.
  pose proof (close_split p Hb ltac:(lia)) as Hs. set (c := at_or 0 p 0 * 256 + at_or 0 p 1) in *. set (text := subarray p 2 (len p)) in *.
  assert (Htext : is_bytes text) by by apply subarray_bytes. destruct (decodeUTF8_laws text true Htext) as [Hdec _].
  split.
  - intros H. destruct (isValidWireCloseCode c) eqn:Hc; [|done]. cbn [negb throw_if mbind result_bind] in H.
    apply bind_Ok in H as (t & Ht & H). injection H as <- <-. right. split; [done|].
    apply Hdec in Ht as (cs & Hcs & E & ->). exists cs. split_and!; [done|rewrite <- E; exact Hs|]. by rewrite keep_bom.
  - intros [(-> & _)|(Hc & cs & Hcs & E & ->)]; [by rewrite (@len_nil Z) in H0|].
    pose proof (close_code_range code Hc) as Hr. destruct (close_bytes_read code (encode_scalars cs) ltac:(lia)) as (_ & Ec & Et).
    rewrite <- E in Ec, Et. fold c text in Ec, Et. rewrite Ec, Hc. cbn [negb throw_if mbind result_bind].
    rewrite (proj2 (Hdec (of_scalars cs))); [done|]. exists cs. split_and!; [done|done|by rewrite keep_bom].
Qed.

(** ** Properties *)

(** C33: reading a frame.  Over any transport, [readFrame] returns a frame and
    leaves a rest exactly when the pending bytes are the wire form of that frame,
    with a mask of four bytes if and only if masking is expected, followed by the
    rest: the opcode is known, a control frame is final and short, a compressed
    frame is allowed and starts a data message, the length has its minimal form and
    is within the limit.  It always ends. *)
Theorem ws_frame_grammar {T} `{Transport T} expectMasked maxFrameBytes allowCompressed (r : BufferedReader T) :
  reader_ok r -> is_bytes (pending r) -> maxFrameBytes <= MAX_SAFE_INTEGER ->
  parses (readFrame expectMasked maxFrameBytes allowCompressed r)
    (frame_grammar expectMasked maxFrameBytes allowCompressed (pending r)).
Proof. apply readFrame_parses. Qed.

Lemma ws_frame_grammar_witness : exists r' : BufferedReader Script,
  readFrame true 1024 false (new_BufferedReader (mk_script [3; 1; 2]%nat example_wire []))
    = Ok (mk_ws_frame true 1 (u "Hello") (Some false), r') /\ pending r' = [137; 0] /\
  frame_grammar true 1024 false example_wire (mk_ws_frame true 1 (u "Hello") (Some false)) [137; 0].
Proof.
  pose (r := new_BufferedReader (mk_script [3; 1; 2]%nat example_wire [])).
  pose (r1 := match readFrame true 1024 false r with Ok (_, r1) => r1 | Err _ => r end).
  assert (E : readFrame true 1024 false r = Ok (mk_ws_frame true 1 (u "Hello") (Some false), r1)) by (vm_compute; reflexivity).
  assert (Hp : pending r1 = [137; 0]) by (vm_compute; reflexivity). exists r1. split; [exact E|]. split; [exact Hp|].
  assert (Hr : reader_ok r) by by_computing. assert (Hb : is_bytes (pending r)) by by_computing.
  destruct (ws_frame_grammar true 1024 false r Hr Hb) as (Hs & _); [unfold MAX_SAFE_INTEGER; lia|].
  pose proof (proj2 (Hs _ _ E)) as G. rewrite Hp in G. exact G.
Defined.

(** Frames round-trip.  [encodeFrame] returns chunks exactly for the frames
    that keep the rules of control and compressed frames.  Whatever mask the random
    source gives, a peer with the right masking direction that is sent the chunks
    followed by anything reads the same frame and leaves what follows; the caller's
    payload is untouched unless it was given away. *)
Theorem ws_frame_roundtrip {T} `{Transport T} f fill masked ownPayload maxFrameBytes allowCompressed
    (r : BufferedReader T) rest :
  opcode f ∈ [0; 1; 2; 8; 9; 10] -> is_bytes (payload f) -> len (payload f) <= maxFrameBytes <= MAX_SAFE_INTEGER ->
  (is_compressed f = true -> allowCompressed = true) -> fills fill -> reader_ok r -> is_bytes rest ->
  ((exists chunks after, encodeFrame f fill masked ownPayload = Ok (chunks, after)) <-> sendable f) /\
  forall chunks after, encodeFrame f fill masked ownPayload = Ok (chunks, after) ->
    (masked && ownPayload = false -> after = payload f) /\
    (pending r = concat chunks ++ rest -> exists r',
      readFrame masked maxFrameBytes allowCompressed r
        = Ok (mk_ws_frame (fin f) (opcode f) (payload f) (Some (is_compressed f)), r') /\
      pending r' = rest /\ reader_ok r').
Proof.
  intros Hop Hb Hlen Hac Hfill Hr Hrest. split.
  { split; [by intros (chunks & after & E); eapply encodeFrame_errors|]. intros Hsend.
    eexists _, _. by apply encodeFrame_spec. }
  intros chunks after He. pose proof (encodeFrame_errors f fill masked ownPayload _ He Hop) as Hsend.
  pose proof (encodeFrame_spec f fill masked ownPayload Hop Hfill Hsend) as Es. cbv zeta in Es. rewrite He in Es.
  set (mask := if masked then fill (zeros 4) else []) in *.
  set (bytes := if masked then apply_mask mask (payload f) else payload f) in *.
  assert (Hch : chunks = [wire_header f masked ++ mask; bytes]) by congruence.
  assert (Haf : after = if masked && ownPayload then bytes else payload f) by congruence. subst chunks after. clear He Es.
  split; [by intros ->|]. intros Hp.
  assert (Hmask : mask_ok masked mask) by (subst mask; destruct masked; [by apply Hfill|done]).
  set (f' := mk_ws_frame (fin f) (opcode f) (payload f) (Some (is_compressed f))).
  assert (Hwire : concat [wire_header f masked ++ mask; bytes] = wire_frame f' mask).
  { unfold wire_frame. rewrite (mask_ok_nonempty masked mask Hmask). cbn [concat]. rewrite app_nil_r, <- app_assoc. do 2 f_equal.
    subst bytes. destruct masked; [done|]. rewrite (mask_ok_false mask Hmask). by rewrite apply_mask_nil. }
  rewrite Hwire in Hp. destruct (readFrame_parses masked maxFrameBytes allowCompressed r Hr) as (_ & Hc & _).
  - rewrite Hp, <- Hwire. apply Forall_app_2; [|done]. cbn [concat]. rewrite app_nil_r, <- !app_assoc.
    apply Forall_app_2; [by apply wire_header_bytes|]. apply Forall_app_2; [apply Hmask|]. subst bytes. destruct masked; [apply apply_mask_bytes|done].
  - lia.
  - apply Hc. exists mask. split_and!; [done|done| |done]. destruct Hsend as [Hctl Hcomp].
    constructor; [exact Hop|exact Hctl| |exact Hb|exact (proj1 Hlen)]. intros Hx. split; [by apply Hac|by apply Hcomp].
Qed.

Lemma ws_frame_roundtrip_witness :
  let f := mk_ws_frame false 2 [1; 2; 255] None in
  let chunks := [[2; 131; 7; 7; 7; 7]; [6; 5; 248]] in
  encodeFrame f (fmap (fun _ => 7)) true true = Ok (chunks, [6; 5; 248]) /\
  exists r' : BufferedReader Script,
    readFrame true 64 false (new_BufferedReader (mk_script [] (concat chunks ++ [9]) []))
    = Ok (mk_ws_frame false 2 [1; 2; 255] (Some false), r') /\ pending r' = [9] /\ reader_ok r'.
Proof.
  intros f chunks. assert (E : encodeFrame f (fmap (fun _ => 7)) true true = Ok (chunks, [6; 5; 248])) by (vm_compute; reflexivity).
  split; [exact E|].
  destruct (ws_frame_roundtrip f (fmap (fun _ => 7)) true true 64 false
    (new_BufferedReader (mk_script [] (concat chunks ++ [9]) [])) [9]) as [_ Hr].
  - by_computing.
  - by_computing.
  - by_computing.
  - discriminate.
  - intros l. split; [|unfold len; by rewrite length_fmap]. apply Forall_fmap, Forall_true. intros x. by_computing.
  - by_computing.
  - by_computing.
  - apply (proj2 (Hr chunks [6; 5; 248] E)). vm_compute. reflexivity.
Defined.

(** Close payloads.  [closePayload] and [parseClose] are inverse on the valid
    codes and reasons of at most 123 bytes of UTF-8; [parseClose] accepts exactly
    the empty payload and a valid code followed by well-formed UTF-8, and a lone
    surrogate of a reason arrives as U+FFFD. *)
Theorem ws_close_payload p code reason :
  is_bytes p -> is_jsstr reason ->
  (parseClose p = Ok (code, reason) <->
    p = [] /\ code = 1005 /\ reason = [] \/
    isValidWireCloseCode code = true /\
    exists cs, Forall is_scalar cs /\ p = close_bytes code (encode_scalars cs) /\ reason = of_scalars cs) /\
  (closePayload (Some code) reason = Ok p ->
    parseClose p = Ok (code, well_formed reason) /\ len p <= 125) /\
  (isValidWireCloseCode code = true -> len (encode_scalars (to_scalars reason)) <= 123 ->
    exists p', closePayload (Some code) reason = Ok p').
Proof.
  intros Hb Hu. split; [by apply parseClose_iff|]. split.
  - intros H. assert (Hc : isValidWireCloseCode code = true).
    { unfold closePayload in H. by destruct (isValidWireCloseCode code). }
    rewrite closePayload_code in H by done. destruct (Z.ltb_spec 123 (len (encode_scalars (to_scalars reason)))); [done|].
    injection H as <-. split; [|unfold close_bytes; rewrite !len_cons; lia]. apply parseClose_iff; [done|]. right. split; [done|].
    exists (to_scalars reason). by split; [apply to_scalars_ok|].
  - intros Hc Hl. rewrite closePayload_code by done. destruct (Z.ltb_spec 123 (len (encode_scalars (to_scalars reason)))); [lia|by eexists].
Qed.

Lemma ws_close_payload_witness :
  is_bytes [3; 232; 98; 121; 101] /\ closePayload (Some 1000) (u "bye") = Ok [3; 232; 98; 121; 101] /\
  parseClose [3; 232; 98; 121; 101] = Ok (1000, u "bye").
Proof.
  assert (Hb : is_bytes [3; 232; 98; 121; 101]) by by_computing.
  assert (E : closePayload (Some 1000) (u "bye") = Ok [3; 232; 98; 121; 101]) by (vm_compute; reflexivity).
  split; [exact Hb|]. split; [exact E|].
  exact (proj1 (proj1 (proj2 (ws_close_payload [3; 232; 98; 121; 101] 1000 (u "bye") Hb ltac:(by_computing))) E)).
Defined.
