(* ===== verification/WebSocketAccept.v ===== *)
(** * The handshake digest ([websocket/handshake.ts], [websocketAccept])

    SHA-1 over 32-bit signed words in a typed array, as the code computes it, and
    SHA-1 of FIPS 180-4 over unsigned words, which it is shown to be. *)

From S2P Require Import Prelude Encoding Base64 WebSocketCodec.

(** ** The code *)

Definition alphabet : jsstr := u "ABCDEFGHIJKLMNOPQRSTUVWXYZabcdefghijklmnopqrstuvwxyz0123456789+/".

Definition base64_step (bytes : list Z) (i : Z) : jsstr :=
  let a := at_or 0 bytes i in
  let b := at_or 0 bytes (i + 1) in
  let c := at_or 0 bytes (i + 2) in
  charAt alphabet (a .>>> 2) ++ charAt alphabet (((a .& 3) .<< 4) .| (b .>>> 4)) ++
  (if i + 1 <? len bytes then charAt alphabet (((b .& 15) .<< 2) .| (c .>>> 6)) else u "=") ++
  (if i + 2 <? len bytes then charAt alphabet (c .& 63) else u "=").

Definition base64 (bytes : list Z) : jsstr :=
  foldl (fun result i => result ++ base64_step bytes i) [] (by_threes (len bytes)).

Definition rotate (value bits : Z) : Z := (value .<< bits) .| (value .>>> (32 - bits)).

(** [~a] *)
Definition js_not (a : Z) : Z := Z.lnot (to_int32 a).

(** [DataView]'s big-endian accessors. *)
Definition getInt32 (bytes : list Z) (offset : Z) : Z := to_int32 (be_value (subarray bytes offset (offset + 4))).
Definition setUint32 (bytes : list Z) (offset v : Z) : list Z := set_range bytes offset (big_endian 4 (to_uint32 v)).

(** [words[i] = v] on an [Int32Array]. *)
Definition set_i32 (words : list Z) (i v : Z) : list Z := <[Z.to_nat i := to_int32 v]> words.

Definition load_word (bytes : list Z) (offset : Z) (words : list Z) (i : Z) : list Z :=
  set_i32 words i (getInt32 bytes (offset + i * 4)).

Definition extend_word (words : list Z) (i : Z) : list Z :=
  set_i32 words i
    (rotate (at_or 0 words (i - 3) .^ at_or 0 words (i - 8) .^ at_or 0 words (i - 14) .^ at_or 0 words (i - 16)) 1).

Definition sha_state : Type := Z * Z * Z * Z * Z.

Definition sha_round (words : list Z) (s : sha_state) (i : Z) : sha_state :=
  let '(a, b, c, d, e) := s in
  let f := if i <? 20 then (b .& c) .| (js_not b .& d)
           else if i <? 40 then b .^ c .^ d
           else if i <? 60 then ((b .& c) .| (b .& d)) .| (c .& d)
           else b .^ c .^ d in
  let k := if i <? 20 then 0x5a827999 else if i <? 40 then 0x6ed9eba1 else if i <? 60 then 0x8f1bbcdc else 0xca62c1d6 in
  let next := (rotate a 5 + f + e + k + at_or 0 words i) .| 0 in
  (next, a, rotate b 30, c, d).

(** An iteration of the loop over the blocks: the words stay in their array. *)
Definition sha_block (bytes : list Z) (s : list Z * sha_state) (offset : Z) : list Z * sha_state :=
  let '(words, (h0, h1, h2, h3, h4)) := s in
  let words := foldl (load_word bytes offset) words (seqZ 0 16) in
  let words := foldl extend_word words (seqZ 16 64) in
  let '(a, b, c, d, e) := foldl (sha_round words) (h0, h1, h2, h3, h4) (seqZ 0 80) in
  (words, ((h0 + a) .| 0, (h1 + b) .| 0, (h2 + c) .| 0, (h3 + d) .| 0, (h4 + e) .| 0)).

Definition sha_initial : sha_state := (0x67452301, 0xefcdab89, 0x98badcfe, 0x10325476, 0xc3d2e1f0).

(** The padded input. *)
Definition sha_input (input : list Z) : list Z :=
  let length := (len input + 9 + 63) / 64 * 64 in
  let bytes := set_range (zeros length) 0 input in
  let bytes := set_u8 bytes (len input) 128 in
  setUint32 bytes (length - 4) (len input * 8).

Definition sha_output (s : sha_state) : list Z :=
  let '(h0, h1, h2, h3, h4) := s in
  setUint32 (setUint32 (setUint32 (setUint32 (setUint32 (zeros 20) 0 h0) 4 h1) 8 h2) 12 h3) 16 h4.

Definition ACCEPT_GUID : jsstr := u "258EAFA5-E914-47DA-95CA-C5AB0DC85B11".

Definition websocketAccept (key : jsstr) : result jsstr :=
  input ← encodeByteString (key ++ ACCEPT_GUID);
  let bytes := sha_input input in
  let '(_, s) := foldl (sha_block bytes) (zeros 80, sha_initial) (Z.mul 64 <$> seqZ 0 (len bytes / 64)) in
  Ok (base64 (sha_output s)).

Definition createKey (fill : list Z -> list Z) : jsstr := base64 (fill (zeros 16)).

(** ** FIPS 180-4 *)

Definition word (x : Z) : Z := x mod 4294967296.
Definition ROTL (n x : Z) : Z := word (x * 2 ^ n) + x / 2 ^ (32 - n).

Definition sha_f (t b c d : Z) : Z :=
  if t <? 20 then Z.lxor (Z.land b c) (Z.land (Z.lnot b mod 4294967296) d)
  else if t <? 40 then Z.lxor (Z.lxor b c) d
  else if t <? 60 then Z.lxor (Z.lxor (Z.land b c) (Z.land b d)) (Z.land c d)
  else Z.lxor (Z.lxor b c) d.

Definition sha_K (t : Z) : Z :=
  if t <? 20 then 0x5a827999 else if t <? 40 then 0x6ed9eba1 else if t <? 60 then 0x8f1bbcdc else 0xca62c1d6.

(** The message schedule: [W_t] from the sixteen words of the block. *)
Fixpoint schedule (n : nat) (W : list Z) : list Z :=
  match n with
  | O => W
  | S n =>
      let W := schedule n W in
      let t := len W in
      W ++ [ROTL 1 (Z.lxor (Z.lxor (Z.lxor (at_or 0 W (t - 3)) (at_or 0 W (t - 8))) (at_or 0 W (t - 14))) (at_or 0 W (t - 16)))]
  end.

Definition fips_round (W : list Z) (s : sha_state) (t : Z) : sha_state :=
  let '(a, b, c, d, e) := s in
  (word (ROTL 5 a + sha_f t b c d + e + sha_K t + at_or 0 W t), a, ROTL 30 b, c, d).

Definition block_words (block : list Z) : list Z := (fun i => be_value (subarray block (i * 4) (i * 4 + 4))) <$> seqZ 0 16.

Definition fips_block (H : sha_state) (block : list Z) : sha_state :=
  let W := schedule 64 (block_words block) in
  let '(h0, h1, h2, h3, h4) := H in
  let '(a, b, c, d, e) := foldl (fips_round W) H (seqZ 0 80) in
  (word (h0 + a), word (h1 + b), word (h2 + c), word (h3 + d), word (h4 + e)).

(** The message, a one bit, zeros, and its length in bits in 64 bits. *)
Definition fips_pad (m : list Z) : list Z :=
  m ++ 128 :: zeros ((55 - len m) mod 64) ++ big_endian 8 (len m * 8).

Definition fips_digest (H : sha_state) : list Z :=
  let '(h0, h1, h2, h3, h4) := H in
  big_endian 4 h0 ++ big_endian 4 h1 ++ big_endian 4 h2 ++ big_endian 4 h3 ++ big_endian 4 h4.

Definition sha1 (m : list Z) : list Z :=
  let padded := fips_pad m in
  fips_digest (foldl (fun H k => fips_block H (subarray padded (k * 64) (k * 64 + 64))) sha_initial (seqZ 0 (len padded / 64))).

(** ** Words *)

Abbreviation M32 := (Z.ones 32).

Lemma word_ones x : word x = Z.land x M32.
Proof. unfold word. by rewrite Z.land_ones. Qed.

Ltac word_bits :=
  rewrite ?word_ones; apply Z.bits_inj'; intros n Hn; 
  repeat first [rewrite Z.land_spec | rewrite Z.lor_spec | rewrite Z.lxor_spec | rewrite Z.lnot_spec by done];
  repeat match goal with |- context [Z.testbit ?x n] => destruct (Z.testbit x n); cbn [andb orb xorb negb] end; try done.

Lemma word_int32 x : word (to_int32 x) = word x.
Proof. destruct (to_int32_mod x) as [q ->]. unfold word. by rewrite Z.mod_add. Qed.

Lemma word_idem x : word (word x) = word x.
Proof. unfold word. by rewrite Zmod_mod. Qed.

Lemma word_range x : 0 <= word x < 4294967296.
Proof. unfold word. div_lia. Qed.

Lemma word_small x : 0 <= x < 4294967296 -> word x = x.
Proof. apply Z.mod_small. Qed.

Lemma word_land a b : word (Z.land a b) = Z.land (word a) (word b).
Proof. word_bits. Qed.
Lemma word_lor a b : word (Z.lor a b) = Z.lor (word a) (word b).
Proof. word_bits. Qed.
Lemma word_lxor a b : word (Z.lxor a b) = Z.lxor (word a) (word b).
Proof. word_bits. Qed.
Lemma word_lnot a : word (Z.lnot a) = word (Z.lnot (word a)).
Proof. word_bits. Qed.

Lemma word_add a b : word (a + b) = word (word a + word b).
Proof. unfold word. by rewrite Zplus_mod_idemp_l, Zplus_mod_idemp_r. Qed.
Lemma word_add_l a b : word (word a + b) = word (a + b).
Proof. unfold word. by rewrite Zplus_mod_idemp_l. Qed.

Lemma word_and a b : word (a .& b) = Z.land (word a) (word b).
Proof. unfold js_and. by rewrite word_land, !word_int32. Qed.
Lemma word_or a b : word (a .| b) = Z.lor (word a) (word b).
Proof. unfold js_or. by rewrite word_lor, !word_int32. Qed.
Lemma word_xor a b : word (a .^ b) = Z.lxor (word a) (word b).
Proof. unfold js_xor. by rewrite word_lxor, !word_int32. Qed.
Lemma word_not a : word (js_not a) = word (Z.lnot (word a)).
Proof. unfold js_not. by rewrite word_lnot, word_int32. Qed.
Lemma word_or0 a : word (a .| 0) = word a.
Proof. rewrite word_or. by rewrite Z.lor_0_r. Qed.

Lemma word_rotate v k : 0 < k < 32 -> word (rotate v k) = ROTL k (word v).
Proof.
  intros Hk. unfold rotate. rewrite word_or. unfold js_shl, js_ushr.
  rewrite (to_uint32_small k), (Z.mod_small k), (to_uint32_small (32 - k)), (Z.mod_small (32 - k)) by lia.
  rewrite word_int32, Z.shiftl_mul_pow2, Z.shiftr_div_pow2 by lia.
  change (to_uint32 v) with (word v). set (x := word v). pose proof (word_range v) as Hx. fold x in Hx.
  assert (Hs : word (to_int32 v * 2 ^ k) = word (x * 2 ^ k)).
  { unfold x, word. rewrite (Zmult_mod (to_int32 v)), (Zmult_mod (v mod 4294967296)). pose proof (word_int32 v) as H. unfold word in H.
    by rewrite H, Zmod_mod. }
  rewrite Hs. pose proof (pow2_pos k ltac:(lia)) as Hp1. pose proof (pow2_pos (32 - k) ltac:(lia)) as Hp2.
  assert (E32 : 4294967296 = 2 ^ (32 - k) * 2 ^ k) by (rewrite <- Z.pow_add_r by lia; by replace (32 - k + k) with 32 by lia).
  assert (Hhi : 0 <= x / 2 ^ (32 - k) < 2 ^ k).
  { split; [by apply Z.div_pos; lia|]. apply Z.div_lt_upper_bound; lia. }
  rewrite (word_small (x / 2 ^ (32 - k))) by (pose proof (pow2_le k 32 ltac:(lia)); lia).
  unfold ROTL. apply (lor_add_low _ _ k); [lia| |done]. unfold word. rewrite E32 at 1.
  rewrite Z.mul_comm, (Z.mul_comm (2 ^ (32 - k))), Z.mul_mod_distr_l by lia. rewrite Z.mul_comm. apply Z.mod_mul. lia.
Qed.

(** ** Rounds *)

Lemma sha_f_words t b c d :
  word (if t <? 20 then (b .& c) .| (js_not b .& d)
        else if t <? 40 then b .^ c .^ d
        else if t <? 60 then ((b .& c) .| (b .& d)) .| (c .& d)
        else b .^ c .^ d) = sha_f t (word b) (word c) (word d).
Proof.
  unfold sha_f. destruct (t <? 20).
  { rewrite word_or, !word_and, word_not. change (Z.lnot (word b) mod 4294967296) with (word (Z.lnot (word b))). word_bits. }
  destruct (t <? 40); [by rewrite !word_xor|]. destruct (t <? 60); [|by rewrite !word_xor].
  rewrite !word_or, !word_and. set (B := word b). set (C := word c). set (D := word d). word_bits.
Qed.

Lemma word_sum r f e k w : word (word r + word f + word e + k + word w) = word (r + f + e + k + w).
Proof.
  assert (H : forall a b, word (a + word b) = word (a + b)) by (intros; unfold word; by rewrite Zplus_mod_idemp_r).
  rewrite H. replace (word r + word f + word e + k + w) with (word r + word f + (k + w) + word e) by lia. rewrite H.
  replace (word r + word f + (k + w) + e) with (word r + (k + w + e) + word f) by lia. rewrite H.
  replace (word r + (k + w + e) + f) with (k + w + e + f + word r) by lia. rewrite H. f_equal. lia.
Qed.

(** A state of signed words and one of unsigned words. *)
Definition state_words (s : sha_state) : sha_state :=
  let '(a, b, c, d, e) := s in (word a, word b, word c, word d, word e).

Lemma round_words words W s t : word (at_or 0 words t) = at_or 0 W t ->
  state_words (sha_round words s t) = fips_round W (state_words s) t.
Proof.
  intros Hw. destruct s as [[[[a b] c] d] e]. cbn [state_words sha_round fips_round]. cbv zeta.
  rewrite word_or0, (word_rotate b 30), <- (word_rotate a 5), <- Hw, <- sha_f_words by lia. fold (sha_K t).
  set (f := if t <? 20 then _ else _). do 4 f_equal. symmetry. apply word_sum.
Qed.

Lemma rounds_words words W l : (forall t, t ∈ l -> word (at_or 0 words t) = at_or 0 W t) -> forall s,
  state_words (foldl (sha_round words) s l) = foldl (fips_round W) (state_words s) l.
Proof.
  induction l as [|t l IH]; intros Hw s; [done|]. cbn [foldl]. rewrite IH by set_solver. f_equal. apply round_words. set_solver.
Qed.

(** ** The message schedule *)

Lemma seqZ_snoc a (k : nat) : seqZ a (Z.of_nat (S k)) = seqZ a (Z.of_nat k) ++ [a + Z.of_nat k].
Proof. replace (Z.of_nat (S k)) with (Z.of_nat k + 1) by lia. rewrite seqZ_app by lia. done. Qed.

(** The first [n] words of the array are those of the schedule. *)
Definition words_are (words W : list Z) : Prop :=
  length words = 80%nat /\ (length W <= 80)%nat /\ forall t, 0 <= t < len W -> word (at_or 0 words t) = at_or 0 W t.

Lemma at_or_set_i32 words i v t : 0 <= i < len words -> at_or 0 (set_i32 words i v) t = if t =? i then to_int32 v else at_or 0 words t.
Proof.
  intros Hi. unfold at_or, at_, set_i32. destruct (Z.ltb_spec t 0); [by destruct (Z.eqb_spec t i); [lia|]|].
  destruct (Z.eqb_spec t i) as [->|].
  - rewrite list_lookup_insert_eq; [done|]. unfold len in Hi. lia.
  - by rewrite list_lookup_insert_ne by lia.
Qed.

Lemma at_or_snoc W x t : 0 <= t <= len W -> at_or 0 (W ++ [x]) t = if t =? len W then x else at_or 0 W t.
Proof.
  intros Ht. unfold at_or, at_. destruct (Z.ltb_spec t 0); [lia|]. destruct (Z.eqb_spec t (len W)) as [->|].
  - unfold len. by rewrite Nat2Z.id, list_lookup_middle.
  - by rewrite lookup_app_l by (unfold len in *; lia).
Qed.

Lemma words_are_snoc words W v x : words_are words W -> (length W < 80)%nat -> word v = x ->
  words_are (set_i32 words (len W) v) (W ++ [x]).
Proof.
  intros (Hl & _ & Hw) Hn <-. split; [unfold set_i32; by rewrite length_insert|]. split; [rewrite length_app; cbn; lia|].
  intros t Ht. rewrite len_app in Ht. change (len [word v]) with 1 in Ht.
  rewrite at_or_set_i32 by (unfold len; lia). rewrite at_or_snoc by lia. destruct (Z.eqb_spec t (len W)) as [->|].
  - apply word_int32.
  - apply Hw. lia.
Qed.

Lemma load_words bytes offset words (k : nat) : (k <= 16)%nat -> length words = 80%nat ->
  words_are (foldl (load_word bytes offset) words (seqZ 0 (Z.of_nat k)))
    ((fun i => word (getInt32 bytes (offset + i * 4))) <$> seqZ 0 (Z.of_nat k)).
Proof.
  induction k as [|k IH]; intros Hk Hl.
  { change (seqZ 0 (Z.of_nat 0)) with (@nil Z). split; [done|]. split; [cbn; lia|]. intros t Ht. unfold len in Ht. cbn in Ht. lia. }
  rewrite seqZ_snoc, foldl_app, fmap_app. cbn [foldl fmap list_fmap]. rewrite Z.add_0_l.
  specialize (IH ltac:(lia) Hl). set (W := _ <$> seqZ 0 (Z.of_nat k)) in *.
  assert (HW : len W = Z.of_nat k) by (unfold W, len; rewrite length_fmap, length_seqZ; lia).
  set (ws := foldl (load_word bytes offset) words _) in *. unfold load_word. rewrite <- HW. apply words_are_snoc; [done| |done]. unfold len in HW. lia.
Qed.

Lemma length_schedule n W : length (schedule n W) = (length W + n)%nat.
Proof. induction n as [|n IH]; cbn [schedule]; [lia|]. rewrite length_app, IH. cbn. lia. Qed.

Lemma extend_words words W (n : nat) : words_are words W -> length W = 16%nat -> (n <= 64)%nat ->
  words_are (foldl extend_word words (seqZ 16 (Z.of_nat n))) (schedule n W).
Proof.
  intros Hw HW. induction n as [|n IH]; intros Hn; [done|]. specialize (IH ltac:(lia)).
  rewrite seqZ_snoc, foldl_app. cbn [foldl schedule]. set (ws := foldl extend_word words _) in *. set (S := schedule n W) in *.
  assert (HS : len S = 16 + Z.of_nat n) by (unfold len, S; rewrite length_schedule; lia).
  unfold extend_word. rewrite <- HS. apply words_are_snoc; [done|unfold len in HS; lia|].
  rewrite word_rotate by lia. f_equal. rewrite !word_xor. destruct IH as (_ & _ & Hat). by rewrite !Hat by lia.
Qed.

(** ** Blocks *)

Lemma subarray_subarray {A} (l : list A) off n s e : 0 <= off -> 0 <= s <= e -> e <= n ->
  subarray (subarray l off (off + n)) s e = subarray l (off + s) (off + e).
Proof.
  intros Ho Hs He. unfold subarray. rewrite skipn_firstn_comm, take_take, drop_drop. f_equal; [lia|]. f_equal. lia.
Qed.

Lemma block_words_spec bytes off : is_bytes bytes -> 0 <= off ->
  block_words (subarray bytes off (off + 64)) = (fun i => word (getInt32 bytes (off + i * 4))) <$> seqZ 0 (Z.of_nat 16).
Proof.
  intros Hb Ho. unfold block_words. change (Z.of_nat 16) with 16. apply list_fmap_ext. intros k i Hi.
  apply lookup_seqZ in Hi as [-> Hk]. unfold getInt32. rewrite word_int32, subarray_subarray by lia.
  replace (off + ((0 + Z.of_nat k) * 4 + 4)) with (off + (0 + Z.of_nat k) * 4 + 4) by lia.
  set (w := subarray bytes (off + (0 + Z.of_nat k) * 4) (off + (0 + Z.of_nat k) * 4 + 4)). rewrite word_small; [done|].
  assert (Hw : is_bytes w) by by apply subarray_bytes. pose proof (be_value_bound w Hw) as Hv.
  assert (Hl : len w <= 4) by (unfold w, subarray, len; rewrite length_take; lia).
  pose proof (Z.pow_le_mono_r 256 (len w) 4 ltac:(lia) Hl). lia.
Qed.

Lemma block_spec bytes words s off : is_bytes bytes -> 0 <= off -> length words = 80%nat ->
  length (sha_block bytes (words, s) off).1 = 80%nat /\
  state_words (sha_block bytes (words, s) off).2 = fips_block (state_words s) (subarray bytes off (off + 64)).
Proof.
  intros Hb Ho Hl. destruct s as [[[[h0 h1] h2] h3] h4]. unfold sha_block. cbv zeta.
  pose proof (load_words bytes off words 16 ltac:(lia) Hl) as H16. rewrite <- block_words_spec in H16 by done.
  change (Z.of_nat 16) with 16 in H16. set (W := block_words _) in *.
  pose proof (extend_words _ W 64 H16 eq_refl ltac:(lia)) as H80. change (Z.of_nat 64) with 64 in H80.
  set (words' := foldl extend_word _ (seqZ 16 64)) in *. destruct H80 as (Hl80 & _ & Hat).
  pose proof (rounds_words words' (schedule 64 W) (seqZ 0 80)) as Hr.
  specialize (Hr ltac:(intros t Ht; apply Hat; apply elem_of_seqZ in Ht; unfold len; rewrite length_schedule; change (length W) with 16%nat; lia)
    (h0, h1, h2, h3, h4)).
  destruct (foldl (sha_round words') (h0, h1, h2, h3, h4) (seqZ 0 80)) as [[[[a b] c] d] e]. cbn [fst snd].
  split; [done|]. cbn [state_words fips_block]. fold W. rewrite !word_or0.
  cbn [state_words] in Hr. rewrite <- Hr. by rewrite <- !word_add.
Qed.

Lemma blocks_spec bytes l : is_bytes bytes -> (forall k, k ∈ l -> 0 <= k) -> forall words s, length words = 80%nat ->
  state_words (foldl (sha_block bytes) (words, s) (Z.mul 64 <$> l)).2
  = foldl (fun H k => fips_block H (subarray bytes (k * 64) (k * 64 + 64))) (state_words s) l.
Proof.
  intros Hb. induction l as [|k l IH]; intros Hk words s Hl; [done|]. cbn [fmap list_fmap foldl].
  destruct (block_spec bytes words s (64 * k) Hb ltac:(specialize (Hk k ltac:(set_solver)); lia) Hl) as [Hl' Hs].
  destruct (sha_block bytes (words, s) (64 * k)) as [words' s']. cbn [fst snd] in *.
  rewrite IH by (done || set_solver). rewrite Hs. by rewrite (Z.mul_comm 64 k).
Qed.

(** ** Padding and output *)

Lemma len_zeros n : 0 <= n -> len (zeros n) = n.
Proof. intros Hn. unfold len, zeros. rewrite length_replicate. lia. Qed.

Lemma zeros_bytes n : is_bytes (zeros n).
Proof. apply Forall_replicate. by vm_compute. Qed.

Lemma set_range_mid (a b c m : list Z) : length m = length b -> set_range (a ++ b ++ c) (len a) m = a ++ m ++ c.
Proof.
  intros Hm. unfold set_range. replace (Z.to_nat (len a)) with (length a) by (unfold len; lia).
  rewrite take_app_length, drop_app_add, Hm, drop_app_length. done.
Qed.

Lemma zeros_app a b : 0 <= a -> 0 <= b -> zeros (a + b) = zeros a ++ zeros b.
Proof. intros Ha Hb. unfold zeros. rewrite Z2Nat.inj_add by lia. apply replicate_add. Qed.

Lemma big_endian_8 n : 0 <= n < 4294967296 -> big_endian 8 n = zeros 4 ++ big_endian 4 n.
Proof.
  intros Hn. change (big_endian 8 n) with ([n / 256 / 256 / 256 / 256 / 256 / 256 / 256 mod 256; n / 256 / 256 / 256 / 256 / 256 / 256 mod 256;
    n / 256 / 256 / 256 / 256 / 256 mod 256; n / 256 / 256 / 256 / 256 mod 256] ++ big_endian 4 n).
  rewrite !Z.div_div by lia. by rewrite !Z.div_small by lia.
Qed.

Lemma sha_input_pad m : is_bytes m -> len m < 536870912 -> sha_input m = fips_pad m /\ len (fips_pad m) mod 64 = 0.
Proof.
  intros Hm Hl. pose proof (len_nonneg m) as Hn. unfold sha_input, fips_pad.
  set (z := (55 - len m) mod 64). assert (Hz : 0 <= z < 64) by (unfold z; div_lia).
  assert (HL : (len m + 9 + 63) / 64 * 64 = len m + (1 + (z + 4) + 4)) by (unfold z; div_lia).
  rewrite HL, zeros_app, (zeros_app (1 + (z + 4)) 4), (zeros_app 1 (z + 4)) by lia.
  assert (E1 : set_range (zeros (len m) ++ (zeros 1 ++ zeros (z + 4)) ++ zeros 4) 0 m = m ++ 0 :: zeros (z + 4) ++ zeros 4).
  { pose proof (set_range_mid [] (zeros (len m)) ((zeros 1 ++ zeros (z + 4)) ++ zeros 4) m) as E. cbn [app] in E.
    change (len []) with 0 in E. rewrite E; [by rewrite <- app_assoc|]. unfold zeros, len. rewrite length_replicate. lia. }
  rewrite E1. assert (E2 : set_u8 (m ++ 0 :: zeros (z + 4) ++ zeros 4) (len m) 128 = m ++ 128 :: zeros (z + 4) ++ zeros 4).
  { unfold set_u8. destruct (Z.ltb_spec (len m) 0); [lia|]. unfold len. rewrite Nat2Z.id.
    rewrite insert_app_r_alt, Nat.sub_diag by lia. done. }
  rewrite E2. unfold setUint32. replace (to_uint32 (len m * 8)) with (len m * 8) by (symmetry; apply to_uint32_small; lia).
  rewrite big_endian_8 by lia. split.
  - pose proof (set_range_mid (m ++ 128 :: zeros (z + 4)) (zeros 4) [] (big_endian 4 (len m * 8)) eq_refl) as E3.
    rewrite !app_nil_r, len_app, len_cons, len_zeros, <- !app_assoc in E3 by lia. cbn [app] in E3.
    replace (len m + (1 + (z + 4) + 4) - 4) with (len m + (z + 4 + 1)) by lia. rewrite E3.
    rewrite zeros_app by lia. by rewrite <- !app_assoc.
  - rewrite len_app, len_cons, !len_app, !len_zeros by lia. change (len (big_endian 4 (len m * 8))) with 4. unfold z. div_lia.
Qed.

Lemma output_digest s : sha_output s = fips_digest (state_words s).
Proof. by destruct s as [[[[h0 h1] h2] h3] h4]. Qed.

Lemma fips_pad_bytes m : is_bytes m -> is_bytes (fips_pad m).
Proof.
  intros Hm. unfold fips_pad. apply Forall_app_2; [done|]. rewrite Forall_cons. split; [by vm_compute|].
  apply Forall_app_2; [apply zeros_bytes|apply big_endian_bytes].
Qed.

Lemma base64_same bytes : base64 bytes = forgivingBase64Encode bytes.
Proof. done. Qed.

Lemma websocketAccept_spec key : Forall is_byte key -> len key < 536870000 ->
  websocketAccept key = Ok (forgivingBase64Encode (sha1 (key ++ ACCEPT_GUID))).
Proof.
  intros Hk Hl. unfold websocketAccept. assert (Hm : is_bytes (key ++ ACCEPT_GUID)) by (apply Forall_app_2; [done|by by_computing]).
  rewrite encodeByteString_bytes by done. cbn [mbind result_bind]. cbv zeta.
  destruct (sha_input_pad (key ++ ACCEPT_GUID) Hm) as [-> Hmod].
  { rewrite len_app. change (len ACCEPT_GUID) with 36. lia. }
  pose proof (blocks_spec (fips_pad (key ++ ACCEPT_GUID)) (seqZ 0 (len (fips_pad (key ++ ACCEPT_GUID)) / 64))
    (fips_pad_bytes _ Hm) ltac:(intros k Hk'; apply elem_of_seqZ in Hk'; lia) (zeros 80) sha_initial eq_refl) as Hb.
  destruct (foldl (sha_block _) (zeros 80, sha_initial) _) as [words s]. cbn [snd] in Hb.
  rewrite base64_same, output_digest, Hb. done.
Qed.

(** ** Properties *)

(** C35: the handshake digest is SHA-1.  For every key of bytes, the accept value is
    the base64 of the FIPS 180-4 digest of the key followed by the GUID of RFC 6455:
    the signed rounds in the typed array, the message schedule written over the
    words of the previous block and the 32-bit length field compute the standard's
    function. *)
Theorem websocket_accept_sha1 key : is_bytes key -> len key < 536870000 ->
  websocketAccept key = Ok (forgivingBase64Encode (sha1 (key ++ ACCEPT_GUID))).
Proof. apply websocketAccept_spec. Qed.

(** The example of RFC 6455, section 1.3. *)
Lemma websocket_accept_sha1_witness :
  is_bytes (u "dGhlIHNhbXBsZSBub25jZQ==") /\
  Ok (forgivingBase64Encode (sha1 (u "dGhlIHNhbXBsZSBub25jZQ==" ++ ACCEPT_GUID))) = Ok (u "s3pPLMBiTxaQ9kYGzzhZRbK+xOo=").
Proof.
  assert (E : websocketAccept (u "dGhlIHNhbXBsZSBub25jZQ==") = Ok (u "s3pPLMBiTxaQ9kYGzzhZRbK+xOo=")) by (vm_compute; reflexivity).
  assert (Hb : is_bytes (u "dGhlIHNhbXBsZSBub25jZQ==")) by by_computing.
  exact (conj Hb (eq_trans (eq_sym (websocket_accept_sha1 _ Hb eq_refl)) E)).
Defined.
