(* ===== verification/PerMessageDeflate.v ===== *)
(** * The negotiation of permessage-deflate ([websocket/permessage-deflate.ts])

    The parser of [Sec-WebSocket-Extensions], the server's choice among a client's
    offers and the client's check of the server's answer, with the agreement of the
    two.  The compression contexts belong to the provider and are not modelled. *)

From S2P Require Import Prelude Ascii FetchHeaders.

(** [s.trim()]: white space and line terminators of ECMA-262. *)
Definition js_space (c : Z) : bool :=
  in_range 9 13 c || (c =? 32) || (c =? 160) || (c =? 0x1680) || in_range 0x2000 0x200a c ||
  (c =? 0x2028) || (c =? 0x2029) || (c =? 0x202f) || (c =? 0x205f) || (c =? 0x3000) || (c =? 0xfeff).
Definition js_trim (value : jsstr) : jsstr := trim js_space value.

Record PerMessageDeflateNegotiation := mk_negotiation {
  response : jsstr;
  incomingNoContextTakeover : bool;
  outgoingNoContextTakeover : bool;
  incomingWindowBits : Z;
  outgoingWindowBits : Z;
}.

Record ExtensionParameter := mk_parameter {
  parameter_name : jsstr;
  parameter_value : option jsstr;
}.

Record Extension := mk_extension {
  extension_name : jsstr;
  parameters : list ExtensionParameter;
}.

Definition perMessageDeflateOffer : jsstr := u "permessage-deflate".

(** ** Parsing *)

Record split_state := mk_split {
  parts : list jsstr;
  start : Z;
  is_quoted : bool;
  escaped : bool;
}.

Definition split_part (input : jsstr) (from to : Z) : result jsstr :=
  let part := js_trim (subarray input from to) in
  throw_if (bool_decide (part = [])) (ProtocolError "Empty WebSocket extension element") ;;
  Ok part.

Definition split_step (input : jsstr) (delimiter : Z) (s : split_state) (index : Z) : result split_state :=
  let code := at_or 0 input index in
  if escaped s then Ok (mk_split (parts s) (start s) (is_quoted s) false)
  else if is_quoted s && (code =? 92) then Ok (mk_split (parts s) (start s) (is_quoted s) true)
  else if code =? 34 then Ok (mk_split (parts s) (start s) (negb (is_quoted s)) false)
  else if negb (is_quoted s) && (code =? delimiter) then
    part ← split_part input (start s) index;
    Ok (mk_split (parts s ++ [part]) (index + 1) (is_quoted s) false)
  else Ok s.

Definition splitOutsideQuotes (input : jsstr) (delimiter : Z) : result (list jsstr) :=
  s ← foldM (split_step input delimiter) (mk_split [] 0 false false) (seqZ 0 (len input));
  throw_if (is_quoted s || escaped s) (ProtocolError "Unterminated WebSocket extension quote") ;;
  part ← split_part input (start s) (len input);
  Ok (parts s ++ [part]).

(** The loop of [decodeQuoted], by what is left between the quotes. *)
Fixpoint quoted_value (inner value : jsstr) : result jsstr :=
  match inner with
  | [] => Ok value
  | code :: inner =>
      if code =? 92 then
        match inner with
        | [] => Err (ProtocolError "Invalid quoted WebSocket extension parameter")
        | escaped :: inner =>
            throw_if ((escaped <? 33) || (126 <? escaped)) (ProtocolError "Invalid quoted WebSocket extension escape") ;;
            quoted_value inner (value ++ [escaped])
        end
      else
        throw_if ((code =? 34) || (code <? 32) || (code =? 127)) (ProtocolError "Invalid quoted WebSocket extension parameter") ;;
        quoted_value inner (value ++ [code])
  end.

Definition decodeQuoted (input : jsstr) : result jsstr :=
  throw_if ((len input <? 2) || negb (at_or 0 input (len input - 1) =? 34))
    (ProtocolError "Unterminated WebSocket extension parameter") ;;
  quoted_value (subarray input 1 (len input - 1)) [].

Definition parseParameter (input : jsstr) : result ExtensionParameter :=
  let part := js_trim input in
  let equals := js_indexOf part 61 0 in
  let name := to_lower (js_trim (if equals <? 0 then part else subarray part 0 equals)) in
  throw_if (negb (isToken name)) (ProtocolError "Invalid WebSocket extension parameter") ;;
  if equals <? 0 then Ok (mk_parameter name None) else
  let raw := js_trim (subarray part (equals + 1) (len part)) in
  value ← (if starts_with 34 raw then decodeQuoted raw else Ok raw);
  throw_if (negb (isToken value)) (ProtocolError "Invalid WebSocket extension parameter value") ;;
  Ok (mk_parameter name (Some value)).

Definition parse_extension (extensions : list Extension) (item : jsstr) : result (list Extension) :=
  parts ← splitOutsideQuotes item 59;
  let name := to_lower (js_trim (default [] (head parts))) in
  throw_if (negb (isToken name)) (ProtocolError "Invalid WebSocket extension name") ;;
  parameters ← foldM (fun parameters part => parameter ← parseParameter part; Ok (parameters ++ [parameter])) [] (tail parts);
  Ok (extensions ++ [mk_extension name parameters]).

Definition parseExtensions (header : jsstr) : result (list Extension) :=
  items ← splitOutsideQuotes header 44;
  foldM parse_extension [] items.

(** ** The client's check *)

Definition requireValueless (parameter : ExtensionParameter) : result unit :=
  throw_if (negb (bool_decide (parameter_value parameter = None)))
    (ProtocolError "Context-takeover parameters do not accept values").

(** [/^(?:[89]|1[0-5])$/] *)
Definition window_bits_text (value : jsstr) : bool :=
  match value with
  | [c] => in_range 56 57 c
  | [a; b] => (a =? 49) && in_range 48 53 b
  | _ => false
  end.

Definition parseWindowBits (value : option jsstr) : result Z :=
  match value with
  | Some value =>
      throw_if (negb (window_bits_text value)) (ProtocolError "Invalid permessage-deflate window size") ;;
      Ok (decimal value)
  | None => Err (ProtocolError "Invalid permessage-deflate window size")
  end.

(** The incoming and outgoing flags, the incoming window and the names seen. *)
Definition client_state : Type := bool * bool * Z * list jsstr.

Definition client_parameter (s : client_state) (parameter : ExtensionParameter) : result client_state :=
  let '(incoming, outgoing, bits, seen) := s in
  let name := parameter_name parameter in
  throw_if (bool_decide (name ∈ seen)) (ProtocolError "Duplicate permessage-deflate parameter") ;;
  let seen := seen ++ [name] in
  if str_eqb name (u "server_no_context_takeover") then requireValueless parameter ;; Ok (true, outgoing, bits, seen)
  else if str_eqb name (u "client_no_context_takeover") then requireValueless parameter ;; Ok (incoming, true, bits, seen)
  else if str_eqb name (u "server_max_window_bits") then
    bits ← parseWindowBits (parameter_value parameter); Ok (incoming, outgoing, bits, seen)
  else if str_eqb name (u "client_max_window_bits") then Err (ProtocolError "Unsolicited client_max_window_bits parameter")
  else Err (ProtocolError "Unknown permessage-deflate parameter").

Definition negotiatePerMessageDeflate (header : option jsstr) (offered : bool) : result (option PerMessageDeflateNegotiation) :=
  match header with
  | None => Ok None
  | Some header =>
      throw_if (negb offered) (ProtocolError "Unsolicited WebSocket extension") ;;
      extensions ← parseExtensions header;
      match extensions with
      | [extension] =>
          throw_if (negb (str_eqb (extension_name extension) (u "permessage-deflate")))
            (ProtocolError "Server selected an extension that was not offered") ;;
          '(incoming, outgoing, bits, _) ← foldM client_parameter (false, false, 15, []) (parameters extension);
          Ok (Some (mk_negotiation header incoming outgoing bits 15))
      | _ => Err (ProtocolError "Server selected an extension that was not offered")
      end
  end.

(** ** The server's choice *)

Fixpoint digits_value (value : jsstr) (bits : Z) : option Z :=
  match value with
  | [] => Some bits
  | c :: value =>
      let digit := c - 0x30 in
      if (digit <? 0) || (9 <? digit) then None else digits_value value (bits * 10 + digit)
  end.

Definition windowBits (value : jsstr) : option Z :=
  if (len value =? 0) || (2 <? len value) then None else
  bits ← digits_value value 0;
  if (8 <=? bits) && (bits <=? 15) then Some bits else None.

Record offer_state := mk_offer {
  o_incoming : bool;
  o_outgoing : bool;
  o_outgoingBits : Z;
  o_clientBits : option Z;
  o_clientLimit : bool;
  o_seen : list jsstr;
}.

(** A parameter of an offer; [None] is an offer that cannot be used. *)
Definition offer_parameter (s : offer_state) (parameter : ExtensionParameter) : option offer_state :=
  let name := parameter_name parameter in
  let value := parameter_value parameter in
  if bool_decide (name ∈ o_seen s) then None else
  let seen := o_seen s ++ [name] in
  if str_eqb name (u "server_no_context_takeover") then
    if bool_decide (value = None)
    then Some (mk_offer (o_incoming s) true (o_outgoingBits s) (o_clientBits s) (o_clientLimit s) seen) else None
  else if str_eqb name (u "client_no_context_takeover") then
    if bool_decide (value = None)
    then Some (mk_offer true (o_outgoing s) (o_outgoingBits s) (o_clientBits s) (o_clientLimit s) seen) else None
  else if str_eqb name (u "server_max_window_bits") then
    match value with
    | None => Some (mk_offer (o_incoming s) (o_outgoing s) (o_outgoingBits s) (o_clientBits s) (o_clientLimit s) seen)
    | Some value =>
        bits ← windowBits value;
        Some (mk_offer (o_incoming s) (o_outgoing s) bits (o_clientBits s) (o_clientLimit s) seen)
    end
  else if str_eqb name (u "client_max_window_bits") then
    match value with
    | None => Some (mk_offer (o_incoming s) (o_outgoing s) (o_outgoingBits s) (o_clientBits s) true seen)
    | Some value =>
        bits ← windowBits value;
        Some (mk_offer (o_incoming s) (o_outgoing s) (o_outgoingBits s) (Some bits) true seen)
    end
  else None.

Fixpoint offer_parameters (s : offer_state) (l : list ExtensionParameter) : option offer_state :=
  match l with
  | [] => Some s
  | parameter :: l => s ← offer_parameter s parameter; offer_parameters s l
  end.

(** [String(bits)] for a number below 100. *)
Definition bits_text (bits : Z) : jsstr := if bits <? 10 then [48 + bits] else [48 + bits / 10; 48 + bits mod 10].

Definition offer_answer (s : offer_state) : PerMessageDeflateNegotiation :=
  let response := u "permessage-deflate" in
  let response := if o_outgoing s then response ++ u "; server_no_context_takeover" else response in
  let response := if o_incoming s then response ++ u "; client_no_context_takeover" else response in
  let response := if negb (o_outgoingBits s =? 15)
    then response ++ u "; server_max_window_bits=" ++ bits_text (o_outgoingBits s) else response in
  let response := match o_clientBits s with
    | Some bits => if o_clientLimit s then response ++ u "; client_max_window_bits=" ++ bits_text bits else response
    | None => response
    end in
  mk_negotiation response (o_incoming s) (o_outgoing s) (default 15 (o_clientBits s)) (o_outgoingBits s).

Fixpoint choose_offer (extensions : list Extension) : option PerMessageDeflateNegotiation :=
  match extensions with
  | [] => None
  | extension :: extensions =>
      if negb (str_eqb (extension_name extension) (u "permessage-deflate")) then choose_offer extensions
      else match offer_parameters (mk_offer false false 15 None false []) (parameters extension) with
           | Some s => Some (offer_answer s)
           | None => choose_offer extensions
           end
  end.

Definition negotiatePerMessageDeflateOffer (header : option jsstr) : result (option PerMessageDeflateNegotiation) :=
  match header with
  | None => Ok None
  | Some header => extensions ← parseExtensions header; Ok (choose_offer extensions)
  end.

(** ** Agreement *)

#[export] Instance negotiation_eq_dec : EqDecision PerMessageDeflateNegotiation.
Proof. solve_decision. Defined.

(** The server's answer as the client sees it: the directions are exchanged. *)
Definition mirrored (n : PerMessageDeflateNegotiation) : PerMessageDeflateNegotiation :=
  mk_negotiation (response n) (outgoingNoContextTakeover n) (incomingNoContextTakeover n) (outgoingWindowBits n) 15.

Definition unsolicited : result (option PerMessageDeflateNegotiation) :=
  Err (ProtocolError "Unsolicited client_max_window_bits parameter").

Definition client_answer (n : PerMessageDeflateNegotiation) : result (option PerMessageDeflateNegotiation) :=
  negotiatePerMessageDeflate (Some (response n)) true.

(** What an offer in progress holds. *)
Record offer_wf (l : list ExtensionParameter) (s : offer_state) : Prop := {
  wf_outgoing : 8 <= o_outgoingBits s <= 15;
  wf_client : forall b, o_clientBits s = Some b -> 8 <= b <= 15 /\ o_clientLimit s = true /\
    exists p, p ∈ l /\ parameter_name p = u "client_max_window_bits" /\ is_Some (parameter_value p);
}.

Definition all_states : list offer_state :=
  i ← [true; false]; o ← [true; false]; b ← seqZ 8 8; c ← None :: (Some <$> seqZ 8 8);
  [mk_offer i o b c (bool_decide (is_Some c)) []].

Definition agrees (s : offer_state) : bool :=
  let n := offer_answer s in
  bool_decide (client_answer n = match o_clientBits s with None => Ok (Some (mirrored n)) | Some _ => unsolicited end).

Lemma all_agree : forallb agrees all_states = true.
Proof. vm_compute. reflexivity. Qed.

Lemma answer_state s : o_clientLimit s = true \/ o_clientBits s = None -> 8 <= o_outgoingBits s <= 15 ->
  (forall b, o_clientBits s = Some b -> 8 <= b <= 15) -> agrees s = true.
Proof.
  intros Hl Hb Hc. set (s' := mk_offer (o_incoming s) (o_outgoing s) (o_outgoingBits s) (o_clientBits s) (bool_decide (is_Some (o_clientBits s))) []).
  assert (E : agrees s = agrees s').
  { unfold agrees. replace (offer_answer s) with (offer_answer s'); [done|]. unfold offer_answer. cbn [o_incoming o_outgoing o_outgoingBits o_clientBits o_clientLimit s'].
    destruct (o_clientBits s) as [b|] eqn:Ec; [|done]. by destruct Hl as [->|Hl]. }
  rewrite E. pose proof all_agree as Hall. rewrite forallb_forall in Hall. apply Hall. apply list_elem_of_In. unfold all_states.
  apply list_elem_of_bind. exists (o_incoming s). split; [|destruct (o_incoming s); set_solver].
  apply list_elem_of_bind. exists (o_outgoing s). split; [|destruct (o_outgoing s); set_solver].
  apply list_elem_of_bind. exists (o_outgoingBits s). split; [|apply elem_of_seqZ; lia].
  apply list_elem_of_bind. exists (o_clientBits s). split; [by apply list_elem_of_singleton|].
  destruct (o_clientBits s) as [b|]; [|set_solver]. apply list_elem_of_further, list_elem_of_fmap. exists b. split; [done|].
  apply elem_of_seqZ. specialize (Hc b eq_refl). lia.
Qed.

Lemma windowBits_range value b : windowBits value = Some b -> 8 <= b <= 15.
Proof.
  unfold windowBits. destruct (_ || _); [done|]. destruct (digits_value value 0) as [v|]; [|done]. cbn [mbind option_bind].
  destruct ((8 <=? v) && (v <=? 15)) eqn:E; [|done]. intros [= <-]. lia.
Qed.

Lemma offer_parameter_wf l s p s' : offer_wf l s -> p ∈ l -> offer_parameter s p = Some s' -> offer_wf l s'.
Proof.
  intros [Ho Hc] Hp. unfold offer_parameter. case_bool_decide; [done|].
  destruct (str_eqb (parameter_name p) (u "server_no_context_takeover")); [case_bool_decide; [|done]; intros [= <-]; by constructor|].
  destruct (str_eqb (parameter_name p) (u "client_no_context_takeover")); [case_bool_decide; [|done]; intros [= <-]; by constructor|].
  destruct (str_eqb (parameter_name p) (u "server_max_window_bits")).
  { destruct (parameter_value p) as [v|]; [|intros [= <-]; by constructor]. destruct (windowBits v) as [b|] eqn:E; [|done].
    cbn [mbind option_bind]. intros [= <-]. apply windowBits_range in E. by constructor. }
  destruct (str_eqb (parameter_name p) (u "client_max_window_bits")) eqn:En; [|done].
  destruct (parameter_value p) as [v|] eqn:Ev.
  - destruct (windowBits v) as [b|] eqn:E; [|done]. cbn [mbind option_bind]. intros [= <-]. apply windowBits_range in E.
    constructor; [done|]. intros b' [= <-]. split_and!; [lia|lia|done|]. exists p. rewrite Ev. split_and!; [done|by apply str_eqb_true|done].
  - intros [= <-]. constructor; [done|]. intros b Hb. destruct (Hc b Hb) as (Hr & _ & Hx). exact (conj Hr (conj eq_refl Hx)).
Qed.

Lemma offer_parameters_wf l0 l : forall s s', (forall p, p ∈ l -> p ∈ l0) -> offer_wf l0 s -> offer_parameters s l = Some s' -> offer_wf l0 s'.
Proof.
  induction l as [|p l IH]; intros s s' Hsub Hs; cbn [offer_parameters]; [by intros [= <-]|].
  destruct (offer_parameter s p) as [s1|] eqn:E; [|done]. cbn [mbind option_bind]. intros H.
  apply (IH s1 s'); [set_solver| |done]. apply (offer_parameter_wf l0 s p s1); [done|set_solver|done].
Qed.

Lemma choose_offer_wf extensions n : choose_offer extensions = Some n ->
  exists e s, e ∈ extensions /\ extension_name e = u "permessage-deflate" /\ n = offer_answer s /\ offer_wf (parameters e) s.
Proof.
  induction extensions as [|e extensions IH]; [done|]. cbn [choose_offer].
  assert (Hrest : choose_offer extensions = Some n -> exists e0 s, e0 ∈ e :: extensions /\ extension_name e0 = u "permessage-deflate" /\
    n = offer_answer s /\ offer_wf (parameters e0) s).
  { intros H. destruct (IH H) as (e' & s & He & Hx). exists e', s. split; [by apply list_elem_of_further|done]. }
  destruct (str_eqb (extension_name e) (u "permessage-deflate")) eqn:En; cbn [negb]; [|done].
  destruct (offer_parameters _ (parameters e)) as [s|] eqn:E; [|done]. intros [= <-]. exists e, s.
  split_and!; [set_solver|by apply str_eqb_true|done|]. apply (offer_parameters_wf _ _ _ _ ltac:(done)) in E; [done|]. constructor; cbn; [lia|by intros b [=]].
Qed.

(** The two ends agree on compression.  Whatever a client offers, when the
    server accepts, its windows are between 8 and 15 bits, and a client that reads
    the server's answer arrives at the same parameters with the directions
    exchanged; the one exception is an answer that limits the client's window,
    which the server gives only to an offer of [client_max_window_bits] with a
    value and which this client, that offers none, refuses. *)
Theorem deflate_agreement header n :
  negotiatePerMessageDeflateOffer (Some header) = Ok (Some n) ->
  8 <= incomingWindowBits n <= 15 /\ 8 <= outgoingWindowBits n <= 15 /\
  (client_answer n = Ok (Some (mirrored n)) /\ incomingWindowBits n = 15 \/
   client_answer n = unsolicited /\ exists extensions e p, parseExtensions header = Ok extensions /\ e ∈ extensions /\
     p ∈ parameters e /\ parameter_name p = u "client_max_window_bits" /\ is_Some (parameter_value p)).
Proof.
  unfold negotiatePerMessageDeflateOffer. destruct (parseExtensions header) as [extensions|] eqn:Ep; [|done].
  cbn [mbind result_bind]. intros [= Hn]. destruct (choose_offer_wf extensions n Hn) as (e & s & He & _ & -> & [Ho Hc]).
  assert (Ha : agrees s = true).
  { apply answer_state; [|done|by intros b Hb; apply (Hc b Hb)]. destruct (o_clientBits s) as [b|] eqn:E; [|by right].
    left. by destruct (Hc b eq_refl) as (_ & ? & _). }
  unfold agrees in Ha. apply bool_decide_eq_true in Ha. unfold offer_answer at 1 2. cbn [incomingWindowBits outgoingWindowBits].
  rewrite Ha. destruct (o_clientBits s) as [b|] eqn:E; cbn [default from_option]; unfold id.
  - destruct (Hc b eq_refl) as (Hb & _ & p & Hp & Hpn & Hpv). split; [done|]. split; [done|]. right. split; [done|]. by exists extensions, e, p.
  - split; [lia|]. split; [done|]. left. split; [done|]. unfold offer_answer. cbn [incomingWindowBits]. by rewrite E.
Qed.

Lemma deflate_agreement_witness :
  let n := mk_negotiation (u "permessage-deflate; server_no_context_takeover; server_max_window_bits=12") false true 15 12 in
  negotiatePerMessageDeflateOffer (Some (u "x, permessage-deflate; server_max_window_bits=12; server_no_context_takeover")) = Ok (Some n) /\
  8 <= incomingWindowBits n <= 15.
Proof.
  intros n. assert (E : negotiatePerMessageDeflateOffer
    (Some (u "x, permessage-deflate; server_max_window_bits=12; server_no_context_takeover")) = Ok (Some n)) by (vm_compute; reflexivity).
  exact (conj E (proj1 (deflate_agreement _ n E))).
Defined.
