(* ===== verification/WebSocketHandshake.v ===== *)
(** * The WebSocket handshake ([websocket/handshake.ts], [server-handshake.ts], [semantics.ts])

    The server's decision on an upgrade request, the client's check of the answer,
    and the conversions of the constructor's and [close]'s arguments.  The two ends
    are shown to agree with one another. *)

From S2P Require Import Prelude Ascii Encoding Utf8 Utf8Theory WebIdl TextEncoder Base64 FetchHeaders Fields WebSocketCodec PerMessageDeflate WebSocketAccept.

(** ** Headers from entries

    [new Headers(entries)], for an array of pairs of strings: the conversion of the
    whole sequence comes before the list is filled. *)
Definition convert_entry (entry : HeaderEntry) : result (list jsstr) :=
  name ← coerceToByteString entry.1; value ← coerceToByteString entry.2; Ok [name; value].

Definition headersFromEntries (entries : list HeaderEntry) : result Headers :=
  init ← foldM (fun init entry => entry ← convert_entry entry; Ok (init ++ [entry])) [] entries;
  createHeadersFromConvertedInit init.

(** ** The client ([handshake.ts]) *)

Record ValidatedWebSocketHandshake := mk_validated {
  v_protocol : jsstr;
  v_extensions : jsstr;
  v_perMessageDeflate : option PerMessageDeflateNegotiation;
}.

(** The first condition, by the short circuit of its three tests. *)
Definition upgraded (status : Z) (headers : Headers) : result bool :=
  if negb (status =? 101) then Ok false else
  connection ← hasToken headers (u "connection") (u "upgrade");
  if negb connection then Ok false else
  upgrade ← get headers (u "upgrade");
  Ok (bool_decide (to_lower <$> upgrade = Some (u "websocket"))).

Definition validateHandshake (status : Z) (headers : Headers) (key : jsstr) (protocols : list jsstr)
    (perMessageDeflateOffered : bool) : result ValidatedWebSocketHandshake :=
  upgraded ← upgraded status headers;
  throw_if (negb upgraded) (ProtocolError "Server did not perform a WebSocket upgrade") ;;
  accept ← get headers (u "sec-websocket-accept");
  expected ← websocketAccept key;
  throw_if (negb (bool_decide (accept = Some expected))) (ProtocolError "Invalid Sec-WebSocket-Accept") ;;
  extensionHeader ← get headers (u "sec-websocket-extensions");
  perMessageDeflate ← negotiatePerMessageDeflate extensionHeader perMessageDeflateOffered;
  selected ← get headers (u "sec-websocket-protocol");
  match selected with
  | None =>
      throw_if (negb (len protocols =? 0)) (ProtocolError "Server omitted the requested subprotocol") ;;
      Ok (mk_validated [] (default [] extensionHeader) perMessageDeflate)
  | Some selected =>
      throw_if (negb (bool_decide (selected ∈ protocols))) (ProtocolError "Unsolicited or ambiguous subprotocol") ;;
      Ok (mk_validated selected (default [] extensionHeader) perMessageDeflate)
  end.

(** ** The server ([server-handshake.ts]) *)

Record WebSocketUpgradeOptions := mk_upgrade_options {
  opt_protocols : option (list jsstr);
  opt_perMessageDeflate : bool;
}.

Record WebSocketUpgradeAccepted := mk_accepted {
  a_headers : list HeaderEntry;
  a_protocol : option jsstr;
  a_perMessageDeflate : option PerMessageDeflateNegotiation;
}.

Record WebSocketUpgradeRefused := mk_refused {
  r_status : Z;
  r_statusText : jsstr;
  r_headers : list HeaderEntry;
  r_reason : jsstr;
}.

Inductive WebSocketUpgradeOutcome :=
| upgrade_accepted (a : WebSocketUpgradeAccepted)
| upgrade_refused (r : WebSocketUpgradeRefused).

Definition VERSION : jsstr := u "13".

Definition refuse (status : Z) (statusText reason : jsstr) (extra : list HeaderEntry) : WebSocketUpgradeOutcome :=
  upgrade_refused (mk_refused status statusText (extra ++ [(u "connection", u "close")]) reason).

Definition isWellFormedKey (key : jsstr) : result bool :=
  if len key =? 0 then Ok false
  else if existsb (fun code => (code <=? 0x20) || (0x7e <? code)) key then Ok false
  else
    bytes ← encodeByteString key;
    Ok (match forgivingBase64Decode bytes with Some decoded => len decoded =? 16 | None => false end).

Definition offeredProtocols (header : option jsstr) : list jsstr :=
  match header with
  | None => []
  | Some header => filter (fun token => token <> []) (js_trim <$> js_split 44 header)
  end.

Definition acceptWebSocketUpgrade (method : jsstr) (headers : Headers) (options : WebSocketUpgradeOptions)
    : result WebSocketUpgradeOutcome :=
  if negb (str_eqb method (u "GET")) then
    Ok (refuse 405 (u "Method Not Allowed") (u "A WebSocket upgrade must be a GET") [(u "allow", u "GET")])
  else
  upgrade ← hasToken headers (u "upgrade") (u "websocket");
  if negb upgrade then Ok (refuse 400 (u "Bad Request") (u "Upgrade must name websocket") []) else
  connection ← hasToken headers (u "connection") (u "upgrade");
  if negb connection then Ok (refuse 400 (u "Bad Request") (u "Connection must contain the Upgrade token") []) else
  version ← get headers (u "sec-websocket-version");
  if negb (bool_decide (js_trim <$> version = Some VERSION)) then
    Ok (refuse 426 (u "Upgrade Required") (u "Unsupported WebSocket version") [(u "sec-websocket-version", VERSION)])
  else
  key ← get headers (u "sec-websocket-key");
  well_formed ← match key with None => Ok false | Some key => isWellFormedKey (js_trim key) end;
  if negb well_formed then
    Ok (refuse 400 (u "Bad Request") (u "Sec-WebSocket-Key must be sixteen base64 bytes") [])
  else
  let supported := default [] (opt_protocols options) in
  offer ← get headers (u "sec-websocket-protocol");
  let protocol := head (filter (fun candidate => candidate ∈ offeredProtocols offer) supported) in
  accept ← websocketAccept (js_trim (default [] key));
  let responseHeaders := [(u "upgrade", u "websocket"); (u "connection", u "Upgrade"); (u "sec-websocket-accept", accept)] in
  let responseHeaders := match protocol with
    | Some protocol => responseHeaders ++ [(u "sec-websocket-protocol", protocol)] | None => responseHeaders end in
  deflate ← (if opt_perMessageDeflate options
             then extensions ← get headers (u "sec-websocket-extensions"); negotiatePerMessageDeflateOffer extensions
             else Ok None);
  let responseHeaders := match deflate with
    | Some deflate => responseHeaders ++ [(u "sec-websocket-extensions", response deflate)] | None => responseHeaders end in
  Ok (upgrade_accepted (mk_accepted responseHeaders protocol deflate)).

(** ** The arguments ([semantics.ts]) *)

(** The loop of [normalizeWebSocketProtocols]: the offers and the folded names seen. *)
Definition protocol_step (s : list jsstr * list jsstr) (protocol : jsstr) : result (list jsstr * list jsstr) :=
  let '(protocols, seen) := s in
  let invalid := DOMException "Invalid or duplicate WebSocket subprotocol" "SyntaxError" in
  throw_if (negb (isToken protocol)) invalid ;;
  let key := to_lower protocol in
  throw_if (bool_decide (key ∈ seen)) invalid ;;
  Ok (protocols ++ [protocol], seen ++ [key]).

Definition normalizeWebSocketProtocols (values : list jsstr) : result (list jsstr) :=
  '(protocols, _) ← foldM protocol_step ([], []) values; Ok protocols.

Definition validateWebSocketClose (closeCode : option Z) (reason : jsstr) : result (option Z * jsstr) :=
  throw_if (match closeCode with
            | Some code => negb (code =? 1000) && ((code <? 3000) || (4999 <? code))
            | None => false end)
    (DOMException "Close code must be 1000 or 3000..4999" "InvalidAccessError") ;;
  throw_if (123 <? utf8Length reason) (DOMException "Close reason exceeds 123 UTF-8 bytes" "SyntaxError") ;;
  let code := match closeCode with
              | None => if negb (bool_decide (reason = [])) then Some 1000 else None
              | Some code => Some code end in
  Ok (code, reason).

(** [\[Clamp\] unsigned short], of an integer. *)
Definition toClampedUnsignedShort (value : Z) : Z :=
  if value <=? 0 then 0 else if 65535 <=? value then 65535 else value.

Definition normalizeWebSocketCloseArguments (code : option Z) (reason : jsstr) : result (option Z * jsstr) :=
  validateWebSocketClose (toClampedUnsignedShort <$> code) (toUSVString reason).

(** The URL parser belongs to a provider: [parse] gives the record's scheme and
    its serialisation. *)
Record URLRecord := mk_url { protocol : jsstr; href : jsstr }.

Definition normalizeWebSocketURL (parse : jsstr -> option jsstr -> result URLRecord) (input : jsstr) (baseURL : option jsstr)
    : result URLRecord :=
  let value := toUSVString input in
  let parsed :=
    parsed ← parse value baseURL;
    if str_eqb (protocol parsed) (u "http:") || str_eqb (protocol parsed) (u "https:") then
      parse ((if str_eqb (protocol parsed) (u "http:") then u "ws:" else u "wss:") ++
             subarray (href parsed) (len (protocol parsed)) (len (href parsed))) None
    else Ok parsed in
  match parsed with
  | Err _ => Err (DOMException "Invalid WebSocket URL" "SyntaxError")
  | Ok parsed =>
      throw_if ((negb (str_eqb (protocol parsed) (u "ws:")) && negb (str_eqb (protocol parsed) (u "wss:"))) ||
                bool_decide (35 ∈ href parsed))
        (DOMException "WebSocket requires a ws(s) URL without a fragment" "SyntaxError") ;;
      Ok parsed
  end.

(** ** Header lists of normal entries *)

Lemma existsb_none {A} (p : A -> bool) l : existsb p l = false <-> forall x, x ∈ l -> p x = false.
Proof.
  induction l as [|y l IH]; [by split; [set_solver|]|]. cbn [existsb]. rewrite orb_false_iff, IH. split.
  - intros [Hy Hl] x. rewrite elem_of_cons. intros [->|Hx]; auto.
  - intros H. split; [apply H; set_solver|]. intros x Hx. apply H. set_solver.
Qed.


Lemma normal_entry h e : entry_ok e -> h_guard h = guard_none ->
  fill_entry h [e.1; e.2] = Ok (with_list h (h_list h ++ [e])) /\ convert_entry e = Ok [e.1; e.2].
Proof.
  intros (Ht & Hl & Hv & Hb) Hg. destruct e as [n v]. cbn [fst snd] in *. split.
  - unfold fill_entry, appendConverted, normalizeConvertedName, normalizeConvertedValue. rewrite Ht, Hl, Hv, Hb.
    cbn [negb throw_if mbind result_bind]. unfold writable. by rewrite Hg.
  - unfold convert_entry, coerceToByteString. cbn [fst snd].
    assert (Hn : existsb (fun c => 255 <? c) n = false).
    { apply existsb_none. intros c Hc.
      unfold isToken in Ht. apply andb_true_iff in Ht as [_ Hu]. rewrite forallb_forall in Hu.
      specialize (Hu c ltac:(by apply list_elem_of_In)). pose proof (token_unit_byte c Hu) as Hbyte. unfold is_byte in Hbyte. lia. }
    assert (Hw : existsb (fun c => 255 <? c) v = false).
    { apply existsb_none. intros c Hc. rewrite existsb_none in Hb. specialize (Hb c Hc). unfold bad_value_unit in Hb.
      by destruct (255 <? c). }
    by rewrite Hn, Hw.
Qed.

Lemma entries_headers l : Forall entry_ok l -> headersFromEntries l = Ok (mk_headers_list l guard_none None).
Proof.
  intros Hl. unfold headersFromEntries.
  assert (Hc : forall init, foldM (fun init entry => entry ← convert_entry entry; Ok (init ++ [entry])) init l
    = Ok (init ++ ((fun e : HeaderEntry => [e.1; e.2]) <$> l))).
  { induction Hl as [|e l He Hl IH]; intros init; [by rewrite app_nil_r|]. cbn [foldM].
    rewrite (proj2 (normal_entry empty_headers e He eq_refl)). cbn [mbind result_bind]. rewrite IH. by rewrite <- app_assoc. }
  rewrite Hc. cbn [app mbind result_bind]. clear Hc. unfold createHeadersFromConvertedInit.
  assert (Hf : forall pre, foldM fill_entry (mk_headers_list pre guard_none None) ((fun e : HeaderEntry => [e.1; e.2]) <$> l)
    = Ok (mk_headers_list (pre ++ l) guard_none None)).
  { induction Hl as [|e l He Hl IH]; intros pre; [by rewrite app_nil_r|]. cbn [fmap list_fmap foldM].
    rewrite (proj1 (normal_entry (mk_headers_list pre guard_none None) e He eq_refl)). cbn [mbind result_bind]. unfold with_list. cbn [h_list h_guard].
    rewrite IH. by rewrite <- app_assoc. }
  apply (Hf []).
Qed.

(** A value without white space or controls is normal. *)
Definition visible (c : Z) : Prop := 0x21 <= c <= 0x7e.

Lemma trim_visible p (value : jsstr) : (forall c, visible c -> p c = false) -> Forall visible value -> trim p value = value.
Proof.
  intros Hp Hv. apply (is_trimmed_unique p value); [apply trim_is_trimmed|]. exists [], []. rewrite app_nil_r.
  split; [done|]. split; [constructor|]. split; [constructor|]. rewrite Forall_forall in Hv. split; intros c Hc; apply Hp, Hv.
  - by apply head_Some_elem_of.
  - by apply last_Some_elem_of.
Qed.

Lemma visible_js_trim value : Forall visible value -> js_trim value = value.
Proof. apply trim_visible. unfold visible, js_space, in_range. intros c Hc. lia. Qed.

Lemma visible_value value : Forall visible value ->
  trimHTTPWhitespace value = value /\ existsb bad_value_unit value = false.
Proof.
  intros Hv. split; [apply trim_visible; [|done]; unfold visible, isHTTPWhitespace; lia|].
  apply existsb_none. intros c Hc. rewrite Forall_forall in Hv. specialize (Hv c Hc).
  unfold visible, bad_value_unit in *. lia.
Qed.

Lemma visible_entry name value : isToken name = true -> to_lower name = name -> Forall visible value -> entry_ok (name, value).
Proof. intros Ht Hl Hv. destruct (visible_value value Hv) as [Htr Hb]. by split_and!. Qed.

(** ** The accept value and the offers *)

Lemma charAt_visible i : Forall visible (charAt alphabet i).
Proof.
  unfold charAt. destruct (at_ alphabet i) as [c|] eqn:E; [|constructor]. constructor; [|constructor].
  apply (at_Forall visible alphabet i c); [|done]. by_computing.
Qed.

Lemma base64_visible bytes : Forall visible (base64 bytes).
Proof.
  unfold base64. assert (H : forall l acc, Forall visible acc -> Forall visible (foldl (fun r i => r ++ base64_step bytes i) acc l)).
  { induction l as [|i l IH]; intros acc Ha; [done|]. cbn [foldl]. apply IH, Forall_app_2; [done|]. unfold base64_step.
    repeat apply Forall_app_2; try apply charAt_visible; destruct (_ <? _); try apply charAt_visible; by_computing. }
  apply H. constructor.
Qed.

Lemma accept_visible key accept : websocketAccept key = Ok accept -> Forall visible accept.
Proof.
  unfold websocketAccept. intros H. apply bind_Ok in H as (input & _ & H). cbv zeta in H.
  destruct (foldl _ _ _) as [words s]. injection H as <-. apply base64_visible.
Qed.

Lemma token_visible name : isToken name = true -> Forall visible name.
Proof.
  intros Hn. apply Forall_forall. intros c Hc. unfold isToken in Hn. apply andb_true_iff in Hn as [_ Hu].
  rewrite forallb_forall in Hu. specialize (Hu c ltac:(by apply list_elem_of_In)).
  pose proof (byte_check (fun c => negb (is_token_unit c) || ((0x21 <=? c) && (c <=? 0x7e))) ltac:(by vm_compute) c (token_unit_byte c Hu)) as H.
  cbv beta in H. rewrite Hu in H. unfold visible. cbn [negb orb] in H. lia.
Qed.

Lemma token_no_comma name : isToken name = true -> 44 ∉ name /\ name <> [].
Proof.
  unfold isToken. intros [Hl Hu]%andb_true_iff. rewrite forallb_forall in Hu. split; [|by intros ->].
  intros Hc. specialize (Hu 44 ltac:(by apply list_elem_of_In)). by vm_compute in Hu.
Qed.

Lemma blank_trim value : Forall visible value -> js_trim (32 :: value) = value.
Proof. intros Hv. unfold js_trim, trim. cbn [trim_start]. apply (visible_js_trim value Hv). Qed.

Lemma offered_join ps : ps <> [] -> Forall (fun p => isToken p = true) ps -> offeredProtocols (Some (js_join (u ", ") ps)) = ps.
Proof.
  intros Hne Hps. unfold offeredProtocols.
  assert (Hsplit : forall p ps, Forall (fun p => isToken p = true) (p :: ps) ->
    js_trim <$> js_split 44 (js_join (u ", ") (p :: ps)) = p :: ps /\
    js_trim <$> js_split 44 (32 :: js_join (u ", ") (p :: ps)) = p :: ps).
  { clear. intros p ps. revert p. induction ps as [|q ps IH]; intros p H.
    - rewrite Forall_singleton in H. assert (Hp := H). pose proof (token_visible p Hp) as Hv. destruct (token_no_comma p Hp) as [Hc _]. cbn [js_join].
      rewrite !js_split_one by (done || (rewrite elem_of_cons; intros [?|?]; done)). cbn [fmap list_fmap].
      by rewrite (visible_js_trim p Hv), (blank_trim p Hv).
    - apply Forall_cons in H as [Hp Hq]. pose proof (token_visible p Hp) as Hv. destruct (token_no_comma p Hp) as [Hc _].
      destruct (IH q Hq) as [_ IH2]. change (js_join (u ", ") (p :: q :: ps)) with (p ++ 44 :: 32 :: js_join (u ", ") (q :: ps)).
      rewrite (js_split_app 44 p) by done. rewrite (app_comm_cons p _ 32).
      rewrite (js_split_app 44 (32 :: p)) by (rewrite elem_of_cons; intros [?|?]; done).
      cbn [fmap list_fmap]. rewrite IH2. by rewrite (visible_js_trim p Hv), (blank_trim p Hv). }
  destruct ps as [|p ps]; [done|]. rewrite (proj1 (Hsplit p ps Hps)).
  assert (Hf : Forall (fun token : jsstr => token <> []) (p :: ps)).
  { eapply Forall_impl; [exact Hps|]. intros x Hx. by apply token_no_comma. }
  clear -Hf. induction Hf as [|x l Hx _ IH]; [done|]. rewrite filter_cons, decide_True by done. by rewrite IH.
Qed.

(** ** What an acceptance holds *)

Definition answer_entries (accept : jsstr) (protocol : option jsstr) (deflate : option PerMessageDeflateNegotiation) : list HeaderEntry :=
  [(u "upgrade", u "websocket"); (u "connection", u "Upgrade"); (u "sec-websocket-accept", accept)] ++
  match protocol with Some protocol => [(u "sec-websocket-protocol", protocol)] | None => [] end ++
  match deflate with Some deflate => [(u "sec-websocket-extensions", response deflate)] | None => [] end.

Lemma accepted_inj x a : Ok (upgrade_accepted x) = Ok (upgrade_accepted a) -> x = a.
Proof. by intros [= ->]. Qed.

Lemma accepted_inv method headers options a : acceptWebSocketUpgrade method headers options = Ok (upgrade_accepted a) ->
  exists key accept offer, method = u "GET" /\
    hasToken headers (u "upgrade") (u "websocket") = Ok true /\ hasToken headers (u "connection") (u "upgrade") = Ok true /\
    get headers (u "sec-websocket-key") = Ok (Some key) /\ isWellFormedKey (js_trim key) = Ok true /\
    websocketAccept (js_trim key) = Ok accept /\ get headers (u "sec-websocket-protocol") = Ok offer /\
    a_protocol a = head (filter (fun candidate => candidate ∈ offeredProtocols offer) (default [] (opt_protocols options))) /\
    (if opt_perMessageDeflate options
     then get headers (u "sec-websocket-extensions") ≫= negotiatePerMessageDeflateOffer else Ok None) = Ok (a_perMessageDeflate a) /\
    a_headers a = answer_entries accept (a_protocol a) (a_perMessageDeflate a).
Proof.
  unfold acceptWebSocketUpgrade. destruct (str_eqb method (u "GET")) eqn:Em; cbn [negb]; [|done]. apply str_eqb_true in Em.
  intros H. apply bind_Ok in H as (up & Hup & H). destruct up; cbn [negb] in H; [|done].
  apply bind_Ok in H as (conn & Hconn & H). destruct conn; cbn [negb] in H; [|done].
  apply bind_Ok in H as (version & _ & H). destruct (bool_decide (js_trim <$> version = Some VERSION)); cbn [negb] in H; [|done].
  apply bind_Ok in H as (key & Hkey & H). apply bind_Ok in H as (wf & Hwf & H). destruct wf; cbn [negb] in H; [|done].
  destruct key as [key|]; [|discriminate Hwf]. cbn [default from_option] in H. unfold id in H. cbv zeta in H.
  apply bind_Ok in H as (offer & Hoffer & H). apply bind_Ok in H as (accept & Haccept & H). apply bind_Ok in H as (deflate & Hd & H).
  apply accepted_inj in H. subst a. exists key, accept, offer. cbn [a_protocol a_perMessageDeflate a_headers]. split_and!; try done.
  unfold answer_entries. destruct (head _), deflate; done.
Qed.

(** ** The client's view of the answer *)

Definition ok_entry (e : option HeaderEntry) : Prop := match e with Some e => entry_ok e | None => True end.

Lemma answer_ok accept protocol deflate : Forall visible accept ->
  (forall p, protocol = Some p -> isToken p = true) ->
  (forall n, deflate = Some n -> entry_ok (u "sec-websocket-extensions", response n)) ->
  Forall entry_ok (answer_entries accept protocol deflate).
Proof.
  intros Ha Hp Hd. unfold answer_entries. cbn [app]. rewrite !Forall_cons. split_and!.
  - apply visible_entry; by by_computing.
  - apply visible_entry; by by_computing.
  - by apply visible_entry.
  - apply Forall_app_2.
    + destruct protocol as [p|]; [|constructor]. constructor; [|constructor]. apply visible_entry; [done|done|]. by apply token_visible, Hp.
    + destruct deflate as [n|]; [|constructor]. constructor; [|constructor]. by apply Hd.
Qed.

Lemma answer_get accept protocol deflate :
  let h := mk_headers_list (answer_entries accept protocol deflate) guard_none None in
  upgraded 101 h = Ok true /\ get h (u "sec-websocket-accept") = Ok (Some accept) /\
  get h (u "sec-websocket-extensions") = Ok (response <$> deflate) /\
  get h (u "sec-websocket-protocol") = Ok protocol.
Proof. by destruct protocol, deflate; vm_compute. Qed.

(** The client's offer of this implementation is answered with the same parameters. *)
Definition plain_deflate : PerMessageDeflateNegotiation := mk_negotiation perMessageDeflateOffer false false 15 15.

Lemma plain_offer : negotiatePerMessageDeflateOffer (Some perMessageDeflateOffer) = Ok (Some plain_deflate) /\
  negotiatePerMessageDeflate (Some perMessageDeflateOffer) true = Ok (Some plain_deflate).
Proof. split; vm_compute; reflexivity. Qed.

(** What this client sends and the server reads. *)
Record client_request (headers : Headers) (key : jsstr) (protocols : list jsstr) (offered : bool) : Prop := {
  cr_key : get headers (u "sec-websocket-key") = Ok (Some key);
  cr_trimmed : js_trim key = key;
  cr_tokens : Forall (fun p => isToken p = true) protocols;
  cr_protocols : get headers (u "sec-websocket-protocol")
    = Ok (match protocols with [] => None | _ => Some (js_join (u ", ") protocols) end);
  cr_extensions : get headers (u "sec-websocket-extensions") = Ok (if offered then Some perMessageDeflateOffer else None);
}.

Definition client_result (a : WebSocketUpgradeAccepted) (protocols : list jsstr) : result ValidatedWebSocketHandshake :=
  if bool_decide (a_protocol a = None) && negb (len protocols =? 0)
  then Err (ProtocolError "Server omitted the requested subprotocol")
  else Ok (mk_validated (default [] (a_protocol a)) (default [] (response <$> a_perMessageDeflate a)) (a_perMessageDeflate a)).

Definition example_upgrade : Headers := mk_headers_list
  [(u "upgrade", u "websocket"); (u "connection", u "keep-alive, Upgrade"); (u "sec-websocket-key", u "dGhlIHNhbXBsZSBub25jZQ==");
   (u "sec-websocket-version", u "13"); (u "sec-websocket-protocol", u "chat, superchat");
   (u "sec-websocket-extensions", perMessageDeflateOffer)] guard_none None.

Definition example_options : WebSocketUpgradeOptions := mk_upgrade_options (Some [u "superchat"]) true.

Lemma offered_protocols headers key protocols offered offer : client_request headers key protocols offered ->
  get headers (u "sec-websocket-protocol") = Ok offer -> offeredProtocols offer = protocols.
Proof.
  intros [_ _ Ht Hp _] Ho. rewrite Hp in Ho. injection Ho as <-. destruct protocols as [|p ps]; [done|]. by apply offered_join.
Qed.

Lemma deflate_answer headers key protocols offered options d : client_request headers key protocols offered ->
  (if opt_perMessageDeflate options
   then get headers (u "sec-websocket-extensions") ≫= negotiatePerMessageDeflateOffer else Ok None) = Ok d ->
  d = None \/ d = Some plain_deflate /\ offered = true.
Proof.
  intros [_ _ _ _ He] Hd. destruct (opt_perMessageDeflate options); [|injection Hd as <-; by left].
  rewrite He in Hd. cbn [mbind result_bind] in Hd. destruct offered; [|injection Hd as <-; by left].
  rewrite (proj1 plain_offer) in Hd. injection Hd as <-. by right.
Qed.

Lemma head_filter_in {A} (P : A -> Prop) `{forall x, Decision (P x)} l x : head (filter P l) = Some x -> P x /\ x ∈ l.
Proof. intros Hh. apply head_Some_elem_of in Hh. by apply list_elem_of_filter in Hh. Qed.

Lemma handshake_spec method headers options a key protocols offered :
  client_request headers key protocols offered ->
  acceptWebSocketUpgrade method headers options = Ok (upgrade_accepted a) ->
  exists answer, headersFromEntries (a_headers a) = Ok answer /\
    validateHandshake 101 answer key protocols offered = client_result a protocols /\
    (forall p, a_protocol a = Some p -> p ∈ protocols /\ p ∈ default [] (opt_protocols options)) /\
    (is_Some (a_perMessageDeflate a) -> offered = true /\ opt_perMessageDeflate options = true).
Proof.
  intros Hc Ha. destruct (accepted_inv _ _ _ _ Ha) as (key' & accept & offer & _ & _ & _ & Hkey & _ & Haccept & Hoffer & Hp & Hd & Hh).
  pose proof (cr_key _ _ _ _ Hc) as Hk. rewrite Hkey in Hk. injection Hk as ->. rewrite (cr_trimmed _ _ _ _ Hc) in Haccept.
  rewrite (offered_protocols _ _ _ _ _ Hc Hoffer) in Hp. pose proof (deflate_answer _ _ _ _ _ _ Hc Hd) as Hdefl.
  assert (Hin : forall p, a_protocol a = Some p -> p ∈ protocols /\ p ∈ default [] (opt_protocols options)).
  { intros p Hpp. rewrite Hp in Hpp. by apply head_filter_in in Hpp. }
  exists (mk_headers_list (a_headers a) guard_none None). split.
  { apply entries_headers. rewrite Hh. apply answer_ok; [by apply (accept_visible key)| |].
    - intros p Hpp. pose proof (cr_tokens _ _ _ _ Hc) as Ht. rewrite Forall_forall in Ht. by apply Ht, Hin.
    - intros n Hn. destruct Hdefl as [E|[E _]]; rewrite E in Hn; [done|]. injection Hn as <-. apply visible_entry; by by_computing. }
  split; [|split; [done|]].
  2:{ intros [n Hn]. destruct Hdefl as [E|[E Ho]]; rewrite Hn in E; [done|]. split; [done|].
      destruct (opt_perMessageDeflate options); [done|]. rewrite Hn in Hd. done. }
  destruct (answer_get accept (a_protocol a) (a_perMessageDeflate a)) as (G1 & G2 & G3 & G4). rewrite <- Hh in G1, G2, G3, G4.
  unfold validateHandshake. rewrite G1. cbn [mbind result_bind negb throw_if]. rewrite G2. cbn [mbind result_bind].
  rewrite Haccept. cbn [mbind result_bind]. rewrite bool_decide_eq_true_2 by done. cbn [negb throw_if mbind result_bind].
  rewrite G3. cbn [mbind result_bind].
  assert (Hneg : negotiatePerMessageDeflate (response <$> a_perMessageDeflate a) offered = Ok (a_perMessageDeflate a)).
  { destruct Hdefl as [->|[-> ->]]; [done|]. cbn [fmap option_fmap option_map]. apply plain_offer. }
  rewrite Hneg. cbn [mbind result_bind]. rewrite G4. cbn [mbind result_bind]. unfold client_result.
  destruct (a_protocol a) as [p|] eqn:Epr.
  - rewrite bool_decide_eq_true_2 by by apply Hin. rewrite bool_decide_eq_false_2 by done. done.
  - rewrite bool_decide_eq_true_2 by done. cbn [andb default from_option]. by destruct (len protocols =? 0).
Qed.

(** ** The arguments *)

Lemma protocols_loop values : forall protocols seen out,
  foldM protocol_step (protocols, seen) values = Ok out <->
  out = (protocols ++ values, seen ++ (to_lower <$> values)) /\ Forall (fun p => isToken p = true) values /\
  NoDup (to_lower <$> values) /\ forall p, p ∈ to_lower <$> values -> p ∉ seen.
Proof.
  induction values as [|v values IH]; intros protocols seen out; cbn [foldM fmap list_fmap].
  { rewrite !app_nil_r. split; [intros [= <-]; split_and!; [done|constructor|constructor|set_solver]|by intros [-> _]]. }
  assert (E : protocol_step (protocols, seen) v = if isToken v && negb (bool_decide (to_lower v ∈ seen))
    then Ok (protocols ++ [v], seen ++ [to_lower v])
    else Err (DOMException "Invalid or duplicate WebSocket subprotocol" "SyntaxError")).
  { unfold protocol_step. destruct (isToken v); [|done]. by destruct (bool_decide (to_lower v ∈ seen)). }
  rewrite E. clear E. destruct (isToken v) eqn:Ev; cbn [andb].
  2:{ split; [done|]. intros (_ & Ht & _). apply Forall_cons in Ht as [Ht _]. congruence. }
  case_bool_decide as Hs; cbn [negb mbind result_bind].
  { split; [done|]. intros (_ & _ & _ & Hn). exfalso. by apply (Hn (to_lower v) ltac:(set_solver)). }
  rewrite IH. rewrite Forall_cons, NoDup_cons, <- !app_assoc. cbn [app]. split.
  - intros (-> & Ht & Hd & Hn). split_and!; [done|done|done| |done|].
    + intros Hin. specialize (Hn _ Hin). set_solver.
    + intros p. rewrite elem_of_cons. intros [->|Hp]; [done|]. specialize (Hn p Hp). set_solver.
  - intros (-> & [_ Ht] & [Hv Hd] & Hn). split_and!; [done|done|done|]. intros p Hp. rewrite elem_of_app, elem_of_cons, elem_of_nil.
    intros [Hps|[->|[]]]; [|done]. by apply (Hn p ltac:(set_solver)).
Qed.

(** ** Properties *)

(** C34: the two ends of a handshake agree.  When the server accepts a request as
    this client writes it, the answer's entries form a header list that the client
    validates, with the subprotocol the server selected, which both sides named,
    and with the same compression parameters, which both sides asked for; the one
    answer the client refuses is that of a server that selected none of the
    subprotocols asked for. *)
Theorem handshake_agreement method headers options a key protocols offered :
  client_request headers key protocols offered ->
  acceptWebSocketUpgrade method headers options = Ok (upgrade_accepted a) ->
  exists answer, headersFromEntries (a_headers a) = Ok answer /\
    validateHandshake 101 answer key protocols offered = client_result a protocols /\
    (forall p, a_protocol a = Some p -> p ∈ protocols /\ p ∈ default [] (opt_protocols options)) /\
    (is_Some (a_perMessageDeflate a) -> offered = true /\ opt_perMessageDeflate options = true).
Proof. apply handshake_spec. Qed.

Lemma handshake_agreement_witness : exists a,
  acceptWebSocketUpgrade (u "GET") example_upgrade example_options = Ok (upgrade_accepted a) /\ a_protocol a = Some (u "superchat") /\
  exists answer, headersFromEntries (a_headers a) = Ok answer /\
    validateHandshake 101 answer (u "dGhlIHNhbXBsZSBub25jZQ==") [u "chat"; u "superchat"] true = client_result a [u "chat"; u "superchat"].
Proof.
  pose (a := mk_accepted (answer_entries (u "s3pPLMBiTxaQ9kYGzzhZRbK+xOo=") (Some (u "superchat")) (Some plain_deflate))
    (Some (u "superchat")) (Some plain_deflate)).
  assert (E : acceptWebSocketUpgrade (u "GET") example_upgrade example_options = Ok (upgrade_accepted a)) by (vm_compute; reflexivity).
  assert (Hc : client_request example_upgrade (u "dGhlIHNhbXBsZSBub25jZQ==") [u "chat"; u "superchat"] true).
  { constructor; try (vm_compute; reflexivity). by_computing. }
  exists a. split; [exact E|]. split; [reflexivity|].
  destruct (handshake_agreement (u "GET") example_upgrade example_options a _ _ true Hc E) as (answer & H1 & H2 & _).
  exists answer. exact (conj H1 H2).
Defined.

(** Subprotocols.  [normalizeWebSocketProtocols] returns the list itself,
    exactly when every element is a token and no two are equal but for the case of
    their letters. *)
Theorem protocols_normalized values out :
  normalizeWebSocketProtocols values = Ok out <->
  out = values /\ Forall (fun p => isToken p = true) values /\ NoDup (to_lower <$> values).
Proof.
  unfold normalizeWebSocketProtocols. split.
  - intros H. apply bind_Ok in H as ([ps seen] & H & E). injection E as <-. apply protocols_loop in H as ([= -> _] & Ht & Hd & _). done.
  - intros (-> & Ht & Hd). rewrite (proj2 (protocols_loop values [] [] (values, to_lower <$> values))); [done|].
    split_and!; [done|done|done|set_solver].
Qed.

Lemma closing_code c : (c =? 1000) = true \/ 3000 <= c <= 4999 -> isValidWireCloseCode c = true.
Proof.
  unfold isValidWireCloseCode, in_range. intros [H|H].
  - apply Z.eqb_eq in H as ->. by vm_compute.
  - apply orb_true_iff. left. lia.
Qed.

Lemma close_arguments code reason out :
  normalizeWebSocketCloseArguments code reason = Ok out <->
  (forall c, toClampedUnsignedShort <$> code = Some c -> c = 1000 \/ 3000 <= c <= 4999) /\ utf8Length (toUSVString reason) <= 123 /\
  out = (match toClampedUnsignedShort <$> code with
         | Some c => Some c | None => if bool_decide (toUSVString reason = []) then None else Some 1000 end, toUSVString reason).
Proof.
  unfold normalizeWebSocketCloseArguments, validateWebSocketClose. destruct (toClampedUnsignedShort <$> code) as [c|].
  - destruct (negb (c =? 1000) && ((c <? 3000) || (4999 <? c))) eqn:Ec; cbn [throw_if mbind result_bind].
    { split; [done|]. intros (Hc & _). specialize (Hc c eq_refl). lia. }
    destruct (Z.ltb_spec 123 (utf8Length (toUSVString reason))); cbn [throw_if mbind result_bind].
    { split; [done|]. intros (_ & Hl & _). lia. }
    split; [|by intros (_ & _ & ->)]. intros [= <-]. split; [|by split]. intros c' [= <-]. lia.
  - cbn [throw_if mbind result_bind]. destruct (Z.ltb_spec 123 (utf8Length (toUSVString reason))); cbn [throw_if mbind result_bind].
    { split; [done|]. intros (_ & Hl & _). lia. }
    split; [|intros (_ & _ & ->); by case_bool_decide]. intros [= <-]. split; [done|]. split; [done|]. by case_bool_decide.
Qed.

(** Closing.  [close(code, reason)] accepts the codes 1000 and 3000 to 4999
    (after clamping) with reasons of at most 123 bytes; whatever it accepts,
    [closePayload] encodes and the peer's [parseClose] reads back: the code, 1000
    for a reason without code, 1005 for neither, and the well-formed reason. *)
Theorem close_arguments_sent code reason : is_jsstr reason ->
  (is_ok (normalizeWebSocketCloseArguments code reason) = true <->
    (forall c, toClampedUnsignedShort <$> code = Some c -> c = 1000 \/ 3000 <= c <= 4999) /\ utf8Length (well_formed reason) <= 123) /\
  forall c text, normalizeWebSocketCloseArguments code reason = Ok (c, text) ->
    exists p, closePayload c text = Ok p /\ len p <= 125 /\ parseClose p = Ok (default 1005 c, well_formed reason).
Proof.
  intros Hu. pose proof (close_arguments code reason) as Hn. rewrite (toUSVString_spec reason Hu) in Hn.
  pose proof (TextEncoder.well_formed_units reason Hu) as Hwu. split.
  { split.
    - destruct (normalizeWebSocketCloseArguments code reason) as [out|]; [|done]. intros _. destruct (proj1 (Hn out) eq_refl) as (H1 & H2 & _). done.
    - intros [H1 H2]. by rewrite (proj2 (Hn _) (conj H1 (conj H2 eq_refl))). }
  intros c text Hok. apply Hn in Hok as (Hc & Hl & [= -> ->]). rewrite utf8Length_scalars in Hl by done.
  assert (Hsend : forall c, isValidWireCloseCode c = true -> exists p, closePayload (Some c) (well_formed reason) = Ok p /\ len p <= 125 /\
    parseClose p = Ok (c, well_formed reason)).
  { intros c Hv. rewrite closePayload_code by done. destruct (Z.ltb_spec 123 (len (encode_scalars (to_scalars (well_formed reason))))); [lia|].
    eexists. split; [done|]. rewrite to_scalars_well_formed in * by done. split; [unfold close_bytes; rewrite !len_cons; lia|].
    apply parseClose_iff.
    { unfold close_bytes. pose proof (close_code_range c Hv). rewrite !Forall_cons. split_and!; [unfold is_byte; div_lia|unfold is_byte; div_lia|].
      apply encode_scalars_bytes. by apply to_scalars_ok. }
    right. split; [done|]. exists (to_scalars reason). split_and!; [by apply to_scalars_ok|done|done]. }
  destruct (toClampedUnsignedShort <$> code) as [c|]; cbn [default from_option]; unfold id.
  - apply Hsend, closing_code. destruct (Hc c eq_refl) as [->|]; [by left|by right].
  - case_bool_decide as Hr.
    + rewrite Hr. exists []. by vm_compute.
    + by apply Hsend.
Qed.

Lemma close_arguments_sent_witness :
  is_jsstr (u "done") /\ exists p, closePayload (Some 3000) (u "done") = Ok p /\ len p <= 125 /\ parseClose p = Ok (3000, u "done").
Proof.
  assert (Hu : is_jsstr (u "done")) by by_computing. split; [exact Hu|].
  assert (E : normalizeWebSocketCloseArguments (Some 3000) (u "done") = Ok (Some 3000, u "done")) by (vm_compute; reflexivity).
  exact (proj2 (close_arguments_sent (Some 3000) (u "done") Hu) _ _ E).
Defined.
