(* ===== verification/Numbers.v ===== *)
(** * Numbers as text and as doubles

    What the modelled code uses of the numbers of ECMA-262 beyond safe integers:
    the decimal text of an integer, the double nearest to an integer, and numbers
    with a fraction, NaN or an infinity. *)

From S2P Require Import Prelude.

(** ** The text of an integer *)

(** [String(n)] for [0 <= n < 10^21], digit by digit from the last. *)
Fixpoint digits_loop (fuel : nat) (n : Z) (acc : jsstr) : jsstr :=
  match fuel with
  | O => acc
  | S fuel =>
      let acc := (48 + n mod 10) :: acc in
      if n / 10 =? 0 then acc else digits_loop fuel (n / 10) acc
  end.

Definition digits_text (n : Z) : jsstr := digits_loop (S (Z.to_nat (Z.log2 n))) n [].

(** [String(n)] for an integer of magnitude below [10^21]. *)
Definition js_string_of (n : Z) : jsstr := if n <? 0 then 45 :: digits_text (- n) else digits_text n.

(** [code >= 48 && code <= 57] *)
Definition is_digit_unit (c : Z) : bool := in_range 48 57 c.

(** ** Doubles *)

(** The double nearest to an integer, ties to even; [None] when that is an
    infinity. *)
Definition round_double (n : Z) : option Z :=
  let a := Z.abs n in
  if a <? 2 ^ 53 then Some n
  else
    let e := Z.log2 a - 52 in
    let q := a / 2 ^ e in
    let r := a mod 2 ^ e in
    let q := if (r <? 2 ^ (e - 1)) || ((r =? 2 ^ (e - 1)) && Z.even q) then q else q + 1 in
    if 2 ^ 1024 <=? q * 2 ^ e then None else Some (Z.sgn n * (q * 2 ^ e)).

(** A number: [Finite m e] is [m / 2^e]. *)
Inductive js_number :=
| NaN
| Infinity (negative : bool)
| Finite (m : Z) (e : nat).

Definition num_of (n : Z) : js_number := Finite n 0.

(** [Math.floor] and [Math.ceil] of [m / 2^e]. *)
Definition floor_of (m : Z) (e : nat) : Z := m / 2 ^ Z.of_nat e.
Definition ceil_of (m : Z) (e : nat) : Z := - ((- m) / 2 ^ Z.of_nat e).

(** [x % n], with the sign of [x]. *)
Definition js_rem (x n : Z) : Z := Z.rem x n.

(** ** Lemmas *)

Lemma digits_loop_app fuel : forall n acc, digits_loop fuel n acc = digits_loop fuel n [] ++ acc.
Proof.
  induction fuel as [|fuel IH]; intros n acc; cbn [digits_loop]; [done|].
  destruct (n / 10 =? 0); [done|]. rewrite IH, (IH _ [_]). by rewrite <- app_assoc.
Qed.

Lemma decimal_app a b : decimal (a ++ b) = decimal a * 10 ^ len b + decimal b.
Proof.
  unfold decimal. rewrite foldl_app. generalize (foldl (fun v c => 10 * v + (c - 48)) 0 a). intros v. clear a.
  change (foldl (fun v c => 10 * v + (c - 48)) v b = v * 10 ^ len b + foldl (fun v c => 10 * v + (c - 48)) 0 b).
  revert v. induction b as [|c b IH] using rev_ind; intros v.
  - change (v = v * 1 + 0). lia.
  - rewrite !foldl_app, len_app. change (len [c]) with 1. rewrite Z.pow_add_r by (unfold len; lia). cbn. rewrite IH. change (Z.pow_pos 10 1) with 10. ring.
Qed.

Lemma digits_loop_spec fuel : forall n, 0 <= n < 2 ^ Z.of_nat fuel -> (0 < fuel)%nat ->
  digits_loop fuel n [] <> [] /\ Forall (fun c => is_digit_unit c = true) (digits_loop fuel n []) /\
  decimal (digits_loop fuel n []) = n.
Proof.
  induction fuel as [|fuel IH]; intros n Hn Hf; [lia|]. cbn [digits_loop].
  assert (Hd : is_digit_unit (48 + n mod 10) = true) by (unfold is_digit_unit, in_range; apply andb_true_iff; rewrite !Z.leb_le; div_lia).
  assert (Hl : forall v, 10 * v + (48 + n mod 10 - 48) = 10 * v + n mod 10) by lia.
  destruct (Z.eqb_spec (n / 10) 0) as [H0|H0].
  - split_and!; [done|by constructor|]. unfold decimal. cbn. div_lia.
  - rewrite Nat2Z.inj_succ, Z.pow_succ_r in Hn by lia.
    destruct fuel as [|fuel]; [cbn in Hn; div_lia|].
    destruct (IH (n / 10)) as (Hne & Hall & Hv); [div_lia|lia|].
    rewrite digits_loop_app. split_and!.
    + intros [_ [=]]%app_nil.
    + apply Forall_app; by repeat constructor.
    + rewrite decimal_app, Hv. unfold decimal, len. cbn. div_lia.
Qed.

Lemma digits_text_spec n : 0 <= n ->
  digits_text n <> [] /\ Forall (fun c => is_digit_unit c = true) (digits_text n) /\ decimal (digits_text n) = n.
Proof.
  intros Hn. unfold digits_text. apply digits_loop_spec; [|lia].
  rewrite Nat2Z.inj_succ, Z2Nat.id by apply Z.log2_nonneg.
  destruct (decide (n = 0)) as [->|]; [done|]. pose proof (Z.log2_spec n). lia.
Qed.

(** The width of the text is that of the number. *)
Lemma digits_loop_len fuel : forall n k, 0 <= n -> (0 < fuel)%nat -> n < 2 ^ Z.of_nat fuel -> 1 <= k ->
  n < 10 ^ k -> (k = 1 \/ 10 ^ (k - 1) <= n) -> len (digits_loop fuel n []) = k.
Proof.
  induction fuel as [|fuel IH]; intros n k Hn Hf H2 Hk Hlt Hge; [lia|]. cbn [digits_loop].
  rewrite Nat2Z.inj_succ, Z.pow_succ_r in H2 by lia.
  destruct (Z.eqb_spec (n / 10) 0) as [H0|H0].
  - unfold len. cbn. destruct Hge as [->|Hge]; [done|].
    assert (k - 1 <= 0) by (apply Z.nlt_ge; intros Hp; pose proof (Z.pow_le_mono_r 10 1 (k - 1)); div_lia). lia.
  - destruct Hge as [->|Hge]; [div_lia|].
    destruct fuel as [|fuel]; [cbn in H2; div_lia|].
    rewrite digits_loop_app, len_app. change (len [_]) with 1.
    assert (k <> 1) by (intros ->; div_lia).
    assert (Hk1 : 10 ^ k = 10 * 10 ^ (k - 1)) by (rewrite <- Z.pow_succ_r by lia; f_equal; lia).
    rewrite (IH (n / 10) (k - 1)); [lia|div_lia|lia|div_lia|lia|div_lia|].
    destruct (decide (k - 1 = 1)) as [?|]; [by left|right].
    assert (Hk2 : 10 ^ (k - 1) = 10 * 10 ^ (k - 1 - 1)) by (rewrite <- Z.pow_succ_r by lia; f_equal; lia). div_lia.
Qed.

Lemma digits_text_len n k : 0 <= n -> 1 <= k -> n < 10 ^ k -> (k = 1 \/ 10 ^ (k - 1) <= n) -> len (digits_text n) = k.
Proof.
  intros Hn Hk Hlt Hge. unfold digits_text. apply digits_loop_len; try done; [lia|].
  rewrite Nat2Z.inj_succ, Z2Nat.id by apply Z.log2_nonneg.
  destruct (decide (n = 0)) as [->|]; [done|]. pose proof (Z.log2_spec n). lia.
Qed.

Lemma digits_loop_short fuel : forall n acc, len (digits_loop fuel n acc) <= Z.of_nat fuel + len acc.
Proof.
  induction fuel as [|fuel IH]; intros n acc; cbn [digits_loop]; [lia|].
  destruct (n / 10 =? 0); [rewrite len_cons; lia|]. etransitivity; [apply IH|]. rewrite len_cons. lia.
Qed.

Lemma digits_text_short n : 0 <= n -> len (digits_text n) <= Z.log2 n + 1.
Proof.
  intros Hn. unfold digits_text. pose proof (digits_loop_short (S (Z.to_nat (Z.log2 n))) n []) as H.
  rewrite len_nil, Nat2Z.inj_succ, Z2Nat.id in H by apply Z.log2_nonneg. lia.
Qed.

Lemma round_double_safe n : Z.abs n <= MAX_SAFE_INTEGER -> round_double n = Some n.
Proof.
  intros H. unfold round_double. destruct (Z.ltb_spec (Z.abs n) (2 ^ 53)) as [|Hge]; [done|].
  change (2 ^ 53) with (MAX_SAFE_INTEGER + 1) in Hge. lia.
Qed.

Lemma floor_num n : floor_of n 0 = n.
Proof. unfold floor_of. cbn. by rewrite Z.div_1_r. Qed.
Lemma ceil_num n : ceil_of n 0 = n.
Proof. unfold ceil_of. cbn. rewrite Z.div_1_r. lia. Qed.
