(* ===== verification/IdlNumbers.v ===== *)
(** * Web IDL integer conversions ([core/webidl.ts])

    The conversions of a number to the integer types of Web IDL, on every double:
    a fraction, NaN and the infinities included, the sign of zero left out. *)

From S2P Require Import Prelude Numbers.

(** [value - lower] is exact here, or rounds away from one half. *)
Definition roundTiesToEven (m : Z) (e : nat) : Z :=
  let lower := floor_of m e in
  let fraction := m - lower * 2 ^ Z.of_nat e in
  if 2 * fraction <? 2 ^ Z.of_nat e then lower
  else if 2 ^ Z.of_nat e <? 2 * fraction then lower + 1
  else if js_rem lower 2 =? 0 then lower else lower + 1.

(** [number < 0 ? Math.ceil(number) : Math.floor(number)] *)
Definition integer_part (m : Z) (e : nat) : Z := if m <? 0 then ceil_of m e else floor_of m e.

Definition unsignedInteger (value : js_number) (modulus : Z) : Z :=
  match value with
  | NaN | Infinity _ => 0
  | Finite m e =>
      if m =? 0 then 0
      else
        let integer := integer_part m e in
        if integer =? 0 then 0
        else
          let remainder := js_rem integer modulus in
          if remainder <? 0 then remainder + modulus else remainder
  end.

Definition toUnsignedShort (value : js_number) : Z := unsignedInteger value 65536.
Definition toUnsignedLong (value : js_number) : Z := unsignedInteger value 4294967296.

Definition toEnforceRangeUnsignedLongLong (value : js_number) : result Z :=
  match value with
  | NaN | Infinity _ => Err (TypeError "Value is not a finite unsigned long long")
  | Finite m e =>
      let integer := integer_part m e in
      if (integer <? 0) || (18446744073709551616 <=? integer)
      then Err (TypeError "Value is outside the unsigned long long range")
      else Ok (if integer =? 0 then 0 else integer)
  end.

Definition toClampedUnsignedShort (value : js_number) : Z :=
  match value with
  | NaN | Infinity true => 0
  | Infinity false => 65535
  | Finite m e =>
      if m <=? 0 then 0
      else if 65535 * 2 ^ Z.of_nat e <=? m then 65535
      else roundTiesToEven m e
  end.

Definition toClampedLongLong (value : js_number) : Z :=
  match value with
  | NaN => 0
  | Infinity true => - MAX_SAFE_INTEGER
  | Infinity false => MAX_SAFE_INTEGER
  | Finite m e =>
      if m <=? - MAX_SAFE_INTEGER * 2 ^ Z.of_nat e then - MAX_SAFE_INTEGER
      else if MAX_SAFE_INTEGER * 2 ^ Z.of_nat e <=? m then MAX_SAFE_INTEGER
      else roundTiesToEven m e
  end.

(** [wrapped += modulus] rounds to a double. *)
Definition add_modulus (wrapped : Z) : Z := default 0 (round_double (wrapped + 18446744073709551616)).

(** [wrapped - modulus] is exact, as a double of at least [2^63] and below
    [2^64] is a multiple of [2^11]. *)
Definition to_signed (wrapped : Z) : Z :=
  if 9223372036854775808 <=? wrapped then wrapped - 18446744073709551616 else wrapped.

Definition wrap_signed (wrapped : Z) : Z := to_signed (if wrapped <? 0 then add_modulus wrapped else wrapped).

Definition toLongLong (value : js_number) : Z :=
  match value with
  | NaN | Infinity _ => 0
  | Finite m e =>
      if m =? 0 then 0
      else
        let integer := integer_part m e in
        if isSafeInteger integer then integer else wrap_signed (js_rem integer 18446744073709551616)
  end.

(** ** Specification *)

(** The integer part of the standard: the value without its fraction. *)
Definition truncated (value : js_number) : Z :=
  match value with Finite m e => Z.quot m (2 ^ Z.of_nat e) | _ => 0 end.

(** [r] is the integer nearest to [m / 2^e], the even one of two. *)
Definition nearest_even (m : Z) (e : nat) (r : Z) : Prop :=
  Z.abs (2 * (r * 2 ^ Z.of_nat e - m)) <= 2 ^ Z.of_nat e /\
  (Z.abs (2 * (r * 2 ^ Z.of_nat e - m)) = 2 ^ Z.of_nat e -> Z.even r = true).

(** The clamped value of the standard, for a range of integers. *)
Definition clamps (lo hi : Z) (value : js_number) (r : Z) : Prop :=
  match value with
  | NaN => r = 0
  | Infinity negative => r = if negative : bool then lo else hi
  | Finite m e => exists clamped, clamped = Z.max (lo * 2 ^ Z.of_nat e) (Z.min m (hi * 2 ^ Z.of_nat e)) /\
      nearest_even clamped e r
  end.

(** The signed residue modulo [2^64]. *)
Definition signed64 (n : Z) : Z := (n + 2 ^ 63) mod 2 ^ 64 - 2 ^ 63.

(** ** Lemmas *)

Lemma integer_part_truncated m e : integer_part m e = truncated (Finite m e).
Proof.
  unfold integer_part, floor_of, ceil_of, truncated. pose proof (pow2_pos (Z.of_nat e) ltac:(lia)).
  destruct (Z.ltb_spec m 0).
  - rewrite <- Z.quot_div_nonneg by lia. rewrite Z.quot_opp_l by lia. lia.
  - rewrite Z.quot_div_nonneg; lia.
Qed.

Lemma rem_mod n w : 0 < w -> (if js_rem n w <? 0 then js_rem n w + w else js_rem n w) = n mod w.
Proof.
  intros Hw. unfold js_rem. pose proof (Z.quot_rem' n w). pose proof (Z.rem_bound_abs n w ltac:(lia)).
  destruct (Z.ltb_spec (Z.rem n w) 0); [apply Z.mod_unique_pos with (Z.quot n w - 1)|apply Z.mod_unique_pos with (Z.quot n w)]; lia.
Qed.

Lemma unsignedInteger_spec value w : 0 < w -> unsignedInteger value w = truncated value mod w.
Proof.
  intros Hw. unfold unsignedInteger. destruct value as [| |m e]; [done..|].
  destruct (Z.eqb_spec m 0) as [->|]; [cbn; by rewrite Z.quot_0_l by (pose proof (pow2_pos (Z.of_nat e)); lia)|].
  rewrite integer_part_truncated. destruct (Z.eqb_spec (truncated (Finite m e)) 0) as [->|]; [done|].
  by apply rem_mod.
Qed.

Lemma unsignedInteger_range value w : 0 < w -> 0 <= unsignedInteger value w < w.
Proof. intros Hw. rewrite unsignedInteger_spec by done. by apply Z.mod_pos_bound. Qed.

Lemma even_rem n : (js_rem n 2 =? 0) = Z.even n.
Proof.
  apply eq_true_iff_eq. unfold js_rem. rewrite Z.eqb_eq, Z.even_spec, Z.rem_divide by lia.
  split; intros [k ->]; exists k; lia.
Qed.

Lemma roundTiesToEven_nearest m e : nearest_even m e (roundTiesToEven m e).
Proof.
  unfold nearest_even, roundTiesToEven, floor_of. pose proof (pow2_pos (Z.of_nat e) ltac:(lia)) as Hp.
  set (p := 2 ^ Z.of_nat e) in *. pose proof (Z.div_mod m p ltac:(lia)). pose proof (Z.mod_pos_bound m p Hp).
  set (l := m / p) in *. rewrite even_rem.
  destruct (Z.ltb_spec (2 * (m - l * p)) p); [split; [|intros]; lia|].
  destruct (Z.ltb_spec p (2 * (m - l * p))); [split; [|intros]; lia|].
  destruct (Z.even l) eqn:He; [split; [lia|done]|split; [lia|intros _]].
  rewrite Z.even_add, He. done.
Qed.

Lemma nearest_exact k e : nearest_even (k * 2 ^ Z.of_nat e) e k.
Proof. unfold nearest_even. pose proof (pow2_pos (Z.of_nat e) ltac:(lia)). split; [|intros]; lia. Qed.

Lemma round_double_range n : 0 <= n < 2 ^ 64 -> exists d, round_double n = Some d /\ 0 <= d <= 2 ^ 64.
Proof.
  intros Hn. unfold round_double. rewrite Z.abs_eq by lia.
  destruct (Z.ltb_spec n (2 ^ 53)) as [|Hb]; [exists n; split; [done|lia]|].
  pose proof (Z.log2_spec n ltac:(lia)) as Hl. set (k := Z.log2 n) in *.
  assert (Hk : 53 <= k < 64) by (split; [apply Z.log2_le_pow2|apply Z.log2_lt_pow2]; lia).
  set (e := k - 52). assert (He : 0 <= e <= 11) by lia.
  pose proof (pow2_pos e ltac:(lia)) as Hpe.
  assert (Hq : 0 <= n / 2 ^ e < 2 ^ 53).
  { split; [apply Z.div_pos; lia|]. apply Z.div_lt_upper_bound; [done|].
    rewrite <- Z.pow_add_r by lia. replace (e + 53) with (Z.succ k) by lia. lia. }
  assert (H64 : 2 ^ e * 2 ^ 53 <= 2 ^ 64) by (rewrite <- Z.pow_add_r by lia; apply pow2_le; lia).
  set (q := if _ || _ then _ else _). assert (Hqq : 0 <= q <= 2 ^ 53) by (unfold q; destruct (_ || _); lia).
  assert (Hv : 0 <= q * 2 ^ e <= 2 ^ 64) by nia.
  destruct (Z.leb_spec (2 ^ 1024) (q * 2 ^ e)) as [Hc|]; [exfalso|].
  - pose proof (Z.pow_lt_mono_r 2 64 1024 ltac:(lia) ltac:(lia) ltac:(lia)). lia.
  - eexists; split; [done|]. rewrite Z.sgn_pos by lia. lia.
Qed.

Lemma wrap_signed_range w : - 2 ^ 64 < w < 2 ^ 64 -> - 2 ^ 63 <= wrap_signed w < 2 ^ 63.
Proof.
  intros Hw. unfold wrap_signed, to_signed. destruct (Z.ltb_spec w 0).
  - unfold add_modulus. destruct (round_double_range (w + 18446744073709551616)) as (d & -> & Hd); [lia|].
    cbn [default from_option id]. destruct (Z.leb_spec 9223372036854775808 d); lia.
  - destruct (Z.leb_spec 9223372036854775808 w); lia.
Qed.

Lemma rem_wrap n : - 2 ^ 64 < js_rem n 18446744073709551616 < 2 ^ 64.
Proof. unfold js_rem. pose proof (Z.rem_bound_abs n 18446744073709551616 ltac:(lia)). lia. Qed.

Lemma safe_range n : isSafeInteger n = true -> - 2 ^ 63 <= n < 2 ^ 63.
Proof. unfold isSafeInteger, MAX_SAFE_INTEGER. intros H%Z.leb_le. lia. Qed.

Lemma toLongLong_range value : - 2 ^ 63 <= toLongLong value < 2 ^ 63.
Proof.
  unfold toLongLong. destruct value as [| |m e]; [lia..|].
  destruct (m =? 0); [lia|]. cbv zeta. generalize (integer_part m e). intros n.
  destruct (isSafeInteger n) eqn:Hs; [by apply safe_range|].
  apply wrap_signed_range, rem_wrap.
Qed.

Lemma signed64_small n : - 2 ^ 63 <= n < 2 ^ 63 -> signed64 n = n.
Proof. intros. unfold signed64. rewrite Z.mod_small; lia. Qed.

Lemma wrap_signed_nonneg n : 0 <= n -> wrap_signed (js_rem n 18446744073709551616) = signed64 n.
Proof.
  intros Hn. unfold wrap_signed, to_signed, js_rem, signed64. rewrite Z.rem_mod_nonneg by lia.
  pose proof (Z.mod_pos_bound n 18446744073709551616 ltac:(lia)).
  destruct (Z.ltb_spec (n mod 18446744073709551616) 0); [lia|].
  destruct (Z.leb_spec 9223372036854775808 (n mod 18446744073709551616)); div_lia.
Qed.

Lemma truncated_zero e : truncated (Finite 0 e) = 0.
Proof. cbn. apply Z.quot_0_l. pose proof (pow2_pos (Z.of_nat e)). lia. Qed.

Lemma toLongLong_exact value : isSafeInteger (truncated value) = true \/ 0 <= truncated value ->
  toLongLong value = signed64 (truncated value).
Proof.
  intros H. unfold toLongLong. destruct value as [| |m e]; [done..|].
  destruct (Z.eqb_spec m 0) as [->|]; [by rewrite truncated_zero|].
  cbv zeta. rewrite integer_part_truncated. revert H. generalize (truncated (Finite m e)). clear. intros n H.
  destruct (isSafeInteger n) eqn:Hs; [by rewrite signed64_small by (by apply safe_range)|].
  destruct H as [H|H]; [done|]. by apply wrap_signed_nonneg.
Qed.

(** Below the safe integers the addition of [2^64] loses the low bits. *)
Example toLongLong_rounds : exists value, truncated value = - (2 ^ 53 + 2) /\
  signed64 (truncated value) = - (2 ^ 53 + 2) /\ toLongLong value = - 2 ^ 53.
Proof. exists (num_of (- (2 ^ 53 + 2))). by vm_compute. Qed.

Lemma enforced_spec value n : toEnforceRangeUnsignedLongLong value = Ok n <->
  (exists m e, value = Finite m e) /\ n = truncated value /\ 0 <= n < 2 ^ 64.
Proof.
  unfold toEnforceRangeUnsignedLongLong. destruct value as [|b|m e].
  1,2: split; [done|intros [(? & ? & [=]) _]].
  rewrite integer_part_truncated. set (k := truncated _).
  destruct (Z.ltb_spec k 0), (Z.leb_spec 18446744073709551616 k); cbn [orb].
  1-3: split; [done|intros (_ & -> & ?); lia].
  replace (if k =? 0 then 0 else k) with k by (destruct (Z.eqb_spec k 0); lia).
  split; [intros [= <-]; split_and!; [by eexists _, _|done|lia..]|by intros (_ & -> & _)].
Qed.

Lemma clamps_finite lo hi m e r : lo <= hi ->
  r = (if m <=? lo * 2 ^ Z.of_nat e then lo else if hi * 2 ^ Z.of_nat e <=? m then hi else roundTiesToEven m e) ->
  clamps lo hi (Finite m e) r.
Proof.
  intros Hlh ->. unfold clamps. eexists; split; [done|]. pose proof (pow2_pos (Z.of_nat e) ltac:(lia)).
  assert (lo * 2 ^ Z.of_nat e <= hi * 2 ^ Z.of_nat e) by nia.
  destruct (Z.leb_spec m (lo * 2 ^ Z.of_nat e)).
  { replace (Z.max _ _) with (lo * 2 ^ Z.of_nat e) by lia. apply nearest_exact. }
  destruct (Z.leb_spec (hi * 2 ^ Z.of_nat e) m).
  { replace (Z.max _ _) with (hi * 2 ^ Z.of_nat e) by lia. apply nearest_exact. }
  replace (Z.max _ _) with m by lia. apply roundTiesToEven_nearest.
Qed.

Lemma clamped_short value : clamps 0 65535 value (toClampedUnsignedShort value).
Proof. destruct value as [|[]|m e]; [done..|]. by apply clamps_finite. Qed.

Lemma clamped_long value : clamps (- MAX_SAFE_INTEGER) MAX_SAFE_INTEGER value (toClampedLongLong value).
Proof. destruct value as [|[]|m e]; [done..|]. by apply clamps_finite. Qed.


