(* ===== verification/CookieDate.v ===== *)
(** * Cookie dates ([cookies/cookies.ts])

    The calendar of ECMA-262 as the code uses it, the date that [toIMFDate]
    writes, and the tolerant date parser of RFC 6265bis.  A time value is a whole
    number of milliseconds; [None] is the time value NaN. *)

From S2P Require Import Prelude Ascii Numbers.

(** ** The calendar of ECMA-262 *)

Definition day_from_year (y : Z) : Z := 365 * (y - 1970) + (y - 1969) / 4 - (y - 1901) / 100 + (y - 1601) / 400.
Definition is_leap_year (y : Z) : bool := (y mod 4 =? 0) && (negb (y mod 100 =? 0) || (y mod 400 =? 0)).
Definition days_in_year (y : Z) : Z := if is_leap_year y then 366 else 365.

(** The day of the year on which a month starts; month 12 is the next year. *)
Definition month_start (leap : bool) (month : Z) : Z :=
  nth (Z.to_nat month) [0; 31; 59; 90; 120; 151; 181; 212; 243; 273; 304; 334; 365] 0
  + (if leap && (2 <=? month) then 1 else 0).

Definition days_in_month (y month : Z) : Z :=
  month_start (is_leap_year y) (month + 1) - month_start (is_leap_year y) month.

(** The year of a day: [day * 400 / 146097] is at most one year off. *)
Definition year_from_day (d : Z) : Z :=
  let y := 1970 + 400 * d / 146097 in
  if d <? day_from_year y then y - 1
  else if day_from_year (y + 1) <=? d then y + 1
  else y.

(** The month of a day of the year: the last that starts no later. *)
Definition month_from_yday (leap : bool) (d : Z) : Z :=
  len (filter (fun m => month_start leap m <= d) (seqZ 1 11)).

Definition msPerDay : Z := 86400000.
Definition day_of (t : Z) : Z := t / msPerDay.

Definition getUTCFullYear (t : Z) : Z := year_from_day (day_of t).
Definition year_day (t : Z) : Z := day_of t - day_from_year (getUTCFullYear t).
Definition getUTCMonth (t : Z) : Z := month_from_yday (is_leap_year (getUTCFullYear t)) (year_day t).
Definition getUTCDate (t : Z) : Z :=
  year_day t - month_start (is_leap_year (getUTCFullYear t)) (getUTCMonth t) + 1.
Definition getUTCDay (t : Z) : Z := (day_of t + 4) mod 7.
Definition getUTCHours (t : Z) : Z := t / 3600000 mod 24.
Definition getUTCMinutes (t : Z) : Z := t / 60000 mod 60.
Definition getUTCSeconds (t : Z) : Z := t / 1000 mod 60.

(** [TimeClip] *)
Definition time_clip (t : Z) : option Z := if Z.abs t <=? 8640000000000000 then Some t else None.

(** [Date.UTC] of whole numbers. *)
Definition date_UTC (year month day hour minute second : Z) : option Z :=
  let year := if in_range 0 99 year then 1900 + year else year in
  let ym := year + month / 12 in
  let days := day_from_year ym + month_start (is_leap_year ym) (month mod 12) + day - 1 in
  time_clip (days * msPerDay + hour * 3600000 + minute * 60000 + second * 1000).

(** ** Writing *)

Definition days : list jsstr := u <$> ["Sun"; "Mon"; "Tue"; "Wed"; "Thu"; "Fri"; "Sat"]%string.
Definition months : list jsstr :=
  u <$> ["Jan"; "Feb"; "Mar"; "Apr"; "May"; "Jun"; "Jul"; "Aug"; "Sep"; "Oct"; "Nov"; "Dec"]%string.
Definition lowerMonths : list jsstr :=
  u <$> ["jan"; "feb"; "mar"; "apr"; "may"; "jun"; "jul"; "aug"; "sep"; "oct"; "nov"; "dec"]%string.

Definition twoDigits (value : Z) : jsstr :=
  if value <? 10 then 48 :: js_string_of value else js_string_of value.

(** [toIMFDate] of a time value. *)
Definition toIMFDate (input : option Z) : result jsstr :=
  match input with
  | None => Err (TypeError "Invalid cookie expiry")
  | Some time =>
      match at_ days (getUTCDay time), at_ months (getUTCMonth time) with
      | Some day, Some month =>
          Ok (day ++ u ", " ++ twoDigits (getUTCDate time) ++ u " " ++ month ++ u " " ++
              js_string_of (getUTCFullYear time) ++ u " " ++ twoDigits (getUTCHours time) ++ u ":" ++
              twoDigits (getUTCMinutes time) ++ u ":" ++ twoDigits (getUTCSeconds time) ++ u " GMT")
      | _, _ => Err (TypeError "Invalid cookie expiry")
      end
  end.

(** ** Reading *)

Definition isDigit (code : Z) : bool := (48 <=? code) && (code <=? 57).

(** The loop of [digitsAtStart], by the rest of the string. *)
Fixpoint digits_run (value : jsstr) (length maximum : Z) : Z :=
  match value with
  | [] => length
  | code :: value =>
      if length <? maximum then
        if (code <? 48) || (57 <? code) then length else digits_run value (length + 1) maximum
      else length
  end.

Definition digitsAtStart (value : jsstr) (minimum maximum : Z) : Z :=
  let length := digits_run value 0 maximum in
  if minimum <=? length then length else 0.

(** [result * 10 + code - 48] for the first [length] units. *)
Definition parseDecimalPrefix (value : jsstr) (length : Z) : Z := decimal (subarray value 0 length).

Definition isDateDelimiter (code : Z) : bool :=
  (code =? 9) || in_range 32 47 code || in_range 59 64 code || in_range 91 96 code || in_range 123 126 code.

(** The loop of [dateTokens], by the rest of the string; [start] is where the
    token being read starts, or [-1]. *)
Fixpoint date_tokens_loop (value rest : jsstr) (index start : Z) (result : list jsstr) : list jsstr :=
  match rest with
  | [] => if 0 <=? start then result ++ [subarray value start index] else result
  | code :: rest =>
      if isDateDelimiter code then
        if 0 <=? start then date_tokens_loop value rest (index + 1) (-1) (result ++ [subarray value start index])
        else date_tokens_loop value rest (index + 1) start result
      else date_tokens_loop value rest (index + 1) (if start <? 0 then index else start) result
  end.

Definition dateTokens (value : jsstr) : list jsstr := date_tokens_loop value value 0 (-1) [].

(** The local variables of [parseCookieDate]; -1 is not found. *)
Record date_fields := mk_fields {
  df_day : Z; df_month : Z; df_year : Z; df_hour : Z; df_minute : Z; df_second : Z }.

#[export] Instance date_fields_eq_dec : EqDecision date_fields.
Proof. solve_decision. Defined.

Definition no_fields : date_fields := mk_fields (-1) (-1) (-1) (-1) (-1) (-1).

(** [value.charCodeAt(i) === code] *)
Definition unit_at (value : jsstr) (i code : Z) : bool := bool_decide (at_ value i = Some code).

(** [length === token.length || !isDigit(token.charCodeAt(length))] *)
Definition digits_end (token : jsstr) (length : Z) : bool :=
  (length =? len token) || negb (match at_ token length with Some c => isDigit c | None => false end).

(** The time of a token: its hour, minute and second. *)
Definition token_time (token : jsstr) : option (Z * Z * Z) :=
  let first := digitsAtStart token 1 2 in
  if (0 <? first) && unit_at token first 58 then
    let tail := drop (Z.to_nat (first + 1)) token in
    let secondLength := digitsAtStart tail 1 2 in
    if (0 <? secondLength) && unit_at tail secondLength 58 then
      let last := drop (Z.to_nat (secondLength + 1)) tail in
      let thirdLength := digitsAtStart last 1 2 in
      if (0 <? thirdLength) && digits_end last thirdLength then
        Some (parseDecimalPrefix token first, parseDecimalPrefix tail secondLength, parseDecimalPrefix last thirdLength)
      else None
    else None
  else None.

Definition token_day (token : jsstr) : option Z :=
  let length := digitsAtStart token 1 2 in
  if (0 <? length) && digits_end token length then Some (parseDecimalPrefix token length) else None.

(** [lowerMonths.indexOf(candidate)] *)
Fixpoint index_of_text (candidate : jsstr) (l : list jsstr) (i : Z) : Z :=
  match l with
  | [] => -1
  | x :: l => if str_eqb x candidate then i else index_of_text candidate l (i + 1)
  end.

Definition token_month (token : jsstr) : option Z :=
  if 3 <=? len token then
    let index := index_of_text (to_lower (subarray token 0 3)) lowerMonths 0 in
    if 0 <=? index then Some index else None
  else None.

Definition token_year (token : jsstr) : option Z :=
  let length := digitsAtStart token 2 4 in
  if (2 <=? length) && digits_end token length then Some (parseDecimalPrefix token length) else None.

(** The body of the loop over the tokens: each [continue] ends it. *)
Definition date_step (f : date_fields) (token : jsstr) : date_fields :=
  match (if df_hour f <? 0 then token_time token else None) with
  | Some (h, m, s) => mk_fields (df_day f) (df_month f) (df_year f) h m s
  | None =>
      match (if df_day f <? 0 then token_day token else None) with
      | Some d => mk_fields d (df_month f) (df_year f) (df_hour f) (df_minute f) (df_second f)
      | None =>
          match (if df_month f <? 0 then token_month token else None) with
          | Some m => mk_fields (df_day f) m (df_year f) (df_hour f) (df_minute f) (df_second f)
          | None =>
              match (if df_year f <? 0 then token_year token else None) with
              | Some y => mk_fields (df_day f) (df_month f) y (df_hour f) (df_minute f) (df_second f)
              | None => f
              end
          end
      end
  end.

Definition full_year (year : Z) : Z :=
  if (70 <=? year) && (year <=? 99) then year + 1900
  else if (0 <=? year) && (year <=? 69) then year + 2000
  else year.

(** What [parseCookieDate] does with the fields it found. *)
Definition date_of_fields (f : date_fields) : option Z :=
  let year := full_year (df_year f) in
  let day := df_day f in let month := df_month f in
  let hour := df_hour f in let minute := df_minute f in let second := df_second f in
  if (day <? 1) || (31 <? day) || (month <? 0) || (year <? 1601) || (hour <? 0) || (23 <? hour) ||
     (minute <? 0) || (59 <? minute) || (second <? 0) || (59 <? second)
  then None
  else
    match date_UTC year month day hour minute second with
    | None => None
    | Some time =>
        if negb (getUTCFullYear time =? year) || negb (getUTCMonth time =? month) ||
           negb (getUTCDate time =? day) || negb (getUTCHours time =? hour) ||
           negb (getUTCMinutes time =? minute) || negb (getUTCSeconds time =? second)
        then None else Some time
    end.

Definition date_fields_of (value : jsstr) : date_fields := foldl date_step no_fields (dateTokens value).

Definition parseCookieDate (value : jsstr) : option Z := date_of_fields (date_fields_of value).

(** The calendar day of a year, month and day of the month. *)
Definition is_calendar_date (year month day : Z) : Prop :=
  0 <= month <= 11 /\ 1 <= day <= days_in_month year month.

(** The instant of a date and a time of day. *)
Definition instant (year month day hour minute second : Z) : Z :=
  (day_from_year year + month_start (is_leap_year year) month + day - 1) * msPerDay
  + hour * 3600000 + minute * 60000 + second * 1000.

(** Every day of a month is found in that month, and every day of a year is in
    one of its months. *)
Definition month_days_check : bool :=
  forallb (fun leap => forallb (fun m =>
    forallb (fun d => month_from_yday leap d =? m)
      (seqZ (month_start leap m) (month_start leap (m + 1) - month_start leap m))) (seqZ 0 12)) [true; false].

Definition year_days_check : bool :=
  forallb (fun leap => forallb (fun d =>
    let m := month_from_yday leap d in
    in_range 0 11 m && (month_start leap m <=? d) && (d <? month_start leap (m + 1)))
    (seqZ 0 (if leap : bool then 366 else 365))) [true; false].

(** What the loop over the tokens keeps. *)
Definition fields_wf (f : date_fields) : Prop := -1 <= df_month f <= 11 /\ -1 <= df_year f <= 9999.

(** A text made of words that delimiters end; an empty word stands between two
    delimiters. *)
Fixpoint words_text (l : list (jsstr * Z)) (w : jsstr) : jsstr :=
  match l with
  | [] => w
  | (v, code) :: l => v ++ code :: words_text l w
  end.

Definition is_word (w : jsstr) : Prop := Forall (fun c => isDateDelimiter c = false) w.

(** The words of a written date, on the fields it has. *)
Definition word_skipped (f : date_fields) (w : jsstr) : Prop := date_step f w = f.

(** ** The calendar *)

Lemma day_from_year_succ y : day_from_year (y + 1) = day_from_year y + days_in_year y.
Proof.
  unfold day_from_year, days_in_year, is_leap_year.
  destruct (Z.eqb_spec (y mod 4) 0), (Z.eqb_spec (y mod 100) 0), (Z.eqb_spec (y mod 400) 0); cbn [andb orb negb]; div_lia.
Qed.

Lemma days_in_year_range y : 365 <= days_in_year y <= 366.
Proof. unfold days_in_year. destruct (is_leap_year y); lia. Qed.

Lemma day_from_year_mono a b : a <= b -> day_from_year a <= day_from_year b.
Proof. intros H. unfold day_from_year. div_lia. Qed.

Lemma year_from_day_bounds d : day_from_year (year_from_day d) <= d < day_from_year (year_from_day d + 1).
Proof.
  unfold year_from_day. set (y := 1970 + 400 * d / 146097).
  assert (Hy : 146097 * (y - 1970) <= 400 * d < 146097 * (y - 1970) + 146097) by (unfold y; div_lia). clearbody y.
  destruct (Z.ltb_spec d (day_from_year y)) as [H1|H1].
  { replace (y - 1 + 1) with y by lia. split; [|lia]. unfold day_from_year in *. div_lia. }
  destruct (Z.leb_spec (day_from_year (y + 1)) d) as [H2|H2]; [|lia]. split; [lia|].
  unfold day_from_year in *. div_lia.
Qed.

Lemma year_from_day_unique d y : day_from_year y <= d < day_from_year (y + 1) -> year_from_day d = y.
Proof.
  intros H. pose proof (year_from_day_bounds d). set (z := year_from_day d) in *.
  destruct (Z.lt_trichotomy z y) as [Hl|[->|Hl]]; [|done|].
  - pose proof (day_from_year_mono (z + 1) y ltac:(lia)). lia.
  - pose proof (day_from_year_mono (y + 1) z ltac:(lia)). lia.
Qed.

Lemma month_days_checked : month_days_check = true.
Proof. by vm_compute. Qed.

Lemma month_from_yday_unique leap m d : 0 <= m <= 11 -> month_start leap m <= d < month_start leap (m + 1) ->
  month_from_yday leap d = m.
Proof.
  intros Hm Hd. pose proof month_days_checked as H. unfold month_days_check in H.
  rewrite forallb_forall in H. specialize (H leap ltac:(by destruct leap; [left|right; left])).
  rewrite forallb_forall in H. specialize (H m ltac:(apply list_elem_of_In, elem_of_seqZ; lia)).
  rewrite forallb_forall in H. by apply Z.eqb_eq, H, list_elem_of_In, elem_of_seqZ; lia.
Qed.

Lemma year_days_checked : year_days_check = true.
Proof. by vm_compute. Qed.

Lemma month_from_yday_bounds leap d : 0 <= d < (if leap : bool then 366 else 365) ->
  0 <= month_from_yday leap d <= 11 /\
  month_start leap (month_from_yday leap d) <= d < month_start leap (month_from_yday leap d + 1).
Proof.
  intros Hd. pose proof year_days_checked as H. unfold year_days_check in H.
  rewrite forallb_forall in H. specialize (H leap ltac:(by destruct leap; [left|right; left])).
  rewrite forallb_forall in H. specialize (H d ltac:(apply list_elem_of_In, elem_of_seqZ; destruct leap; lia)).
  cbv zeta in H. unfold in_range in H. rewrite !andb_true_iff, !Z.leb_le, Z.ltb_lt in H. lia.
Qed.

Lemma month_start_bounds leap m : 0 <= m <= 11 -> 0 <= month_start leap m /\
  month_start leap m + 28 <= month_start leap (m + 1) <= (if leap : bool then 366 else 365).
Proof.
  intros Hm. assert (Hin : m ∈ seqZ 0 12) by (apply elem_of_seqZ; lia). revert m Hm Hin.
  refine (fun m _ Hin => proj1 (List.Forall_forall (fun m => _) (seqZ 0 12)) _ m (proj1 (list_elem_of_In _ _) Hin)).
  destruct leap; repeat constructor; by vm_compute.
Qed.

Lemma days_in_month_max y m : 0 <= m <= 11 -> days_in_month y m <= 31.
Proof.
  intros Hm. unfold days_in_month. assert (Hin : m ∈ seqZ 0 12) by (apply elem_of_seqZ; lia). revert m Hm Hin.
  refine (fun m _ Hin => proj1 (List.Forall_forall (fun m => _) (seqZ 0 12)) _ m (proj1 (list_elem_of_In _ _) Hin)).
  destruct (is_leap_year y); repeat constructor; by vm_compute.
Qed.

(** The fields of an instant are those it was made from. *)
Section Instant.
Context (y m d h mi s ms : Z).
Context (Hdate : is_calendar_date y m d).
Context (Hh : 0 <= h <= 23) (Hmi : 0 <= mi <= 59) (Hs : 0 <= s <= 59) (Hms : 0 <= ms < 1000).

Lemma instant_day : day_of (instant y m d h mi s + ms) = day_from_year y + month_start (is_leap_year y) m + d - 1.
Proof. unfold day_of, instant, msPerDay. div_lia. Qed.

Lemma instant_year : getUTCFullYear (instant y m d h mi s + ms) = y.
Proof.
  unfold getUTCFullYear. rewrite instant_day. apply year_from_day_unique.
  destruct Hdate as [Hm Hd]. unfold days_in_month in Hd. pose proof (month_start_bounds (is_leap_year y) m Hm).
  rewrite day_from_year_succ. unfold days_in_year. destruct (is_leap_year y); lia.
Qed.

Lemma instant_month : getUTCMonth (instant y m d h mi s + ms) = m.
Proof.
  unfold getUTCMonth, year_day. rewrite instant_year, instant_day.
  destruct Hdate as [Hm Hd]. unfold days_in_month in Hd. apply month_from_yday_unique; lia.
Qed.

Lemma instant_date : getUTCDate (instant y m d h mi s + ms) = d.
Proof. unfold getUTCDate, year_day. rewrite instant_month, instant_year, instant_day. lia. Qed.

Lemma instant_time : getUTCHours (instant y m d h mi s + ms) = h /\ getUTCMinutes (instant y m d h mi s + ms) = mi /\ getUTCSeconds (instant y m d h mi s + ms) = s.
Proof. unfold getUTCHours, getUTCMinutes, getUTCSeconds, instant, msPerDay. split_and!; div_lia. Qed.

End Instant.

(** Every time value is the instant of its fields and its milliseconds. *)
Lemma instant_of_fields t :
  is_calendar_date (getUTCFullYear t) (getUTCMonth t) (getUTCDate t) /\
  0 <= getUTCHours t <= 23 /\ 0 <= getUTCMinutes t <= 59 /\ 0 <= getUTCSeconds t <= 59 /\
  instant (getUTCFullYear t) (getUTCMonth t) (getUTCDate t) (getUTCHours t) (getUTCMinutes t) (getUTCSeconds t)
    = 1000 * (t / 1000).
Proof.
  pose proof (year_from_day_bounds (day_of t)) as Hy. fold (getUTCFullYear t) in Hy.
  rewrite day_from_year_succ in Hy. unfold days_in_year in Hy.
  pose proof (month_from_yday_bounds (is_leap_year (getUTCFullYear t)) (year_day t)) as Hm.
  fold (getUTCMonth t) in Hm. unfold is_calendar_date, days_in_month.
  assert (Hd : getUTCDate t = year_day t - month_start (is_leap_year (getUTCFullYear t)) (getUTCMonth t) + 1) by done.
  assert (Hyd : year_day t = day_of t - day_from_year (getUTCFullYear t)) by done.
  destruct Hm as [Hm1 Hm2]; [destruct (is_leap_year _); lia|].
  split_and!; try lia; try (unfold getUTCHours, getUTCMinutes, getUTCSeconds; div_lia).
  unfold instant. rewrite Hd, Hyd.
  replace (_ + _ + _ - 1) with (day_of t) by lia.
  unfold day_of, msPerDay, getUTCHours, getUTCMinutes, getUTCSeconds. div_lia.
Qed.

(** ** The fields that the parser finds *)


Lemma digits_run_le l : forall n k, n <= k -> n <= digits_run l n k <= k.
Proof.
  induction l as [|c l IH]; intros n k H; cbn [digits_run]; [lia|].
  destruct (Z.ltb_spec n k); [|lia]. destruct (_ || _); [lia|]. specialize (IH (n + 1) k). lia.
Qed.

Lemma digitsAtStart_le l lo hi : 0 <= hi -> 0 <= digitsAtStart l lo hi <= hi.
Proof. intros H. unfold digitsAtStart. pose proof (digits_run_le l 0 hi H). destruct (_ <=? _); lia. Qed.

(** The units counted are digits. *)
Lemma digits_run_digits l : forall n k, 0 <= n -> Forall (fun c => is_digit_unit c = true) (take (Z.to_nat (digits_run l n k - n)) l).
Proof.
  induction l as [|c l IH]; intros n k H; cbn [digits_run]; [by rewrite take_nil|].
  assert (Hz : Forall (fun c => is_digit_unit c = true) (take (Z.to_nat (n - n)) (c :: l))) by (rewrite Z.sub_diag; constructor).
  destruct (n <? k); [|done]. destruct (_ || _) eqn:Hc; [done|].
  destruct (decide (digits_run l (n + 1) k <= n)) as [Hle|Hgt].
  { replace (Z.to_nat _) with 0%nat by lia. constructor. }
  replace (Z.to_nat (digits_run l (n + 1) k - n)) with (S (Z.to_nat (digits_run l (n + 1) k - (n + 1)))) by lia.
  cbn [take]. constructor; [|apply IH; lia].
  apply orb_false_iff in Hc. rewrite !Z.ltb_ge in Hc. unfold is_digit_unit, in_range. rewrite andb_true_iff, !Z.leb_le. lia.
Qed.

Lemma decimal_bound l : Forall (fun c => is_digit_unit c = true) l -> 0 <= decimal l < 10 ^ len l.
Proof.
  induction l as [|c l IH] using rev_ind; intros Hl; [by vm_compute|].
  apply Forall_app in Hl as [Hl Hc]. rewrite Forall_singleton in Hc. specialize (IH Hl).
  rewrite decimal_app, len_app. change (len [c]) with 1. change (10 ^ 1) with 10.
  rewrite Z.pow_add_r by (unfold len; lia). change (10 ^ 1) with 10.
  apply andb_true_iff in Hc as [Hc1%Z.leb_le Hc2%Z.leb_le].
  change (decimal [c]) with (0 + (c - 48)). lia.
Qed.

Lemma prefix_bound token lo hi : 0 <= hi -> 0 <= parseDecimalPrefix token (digitsAtStart token lo hi) < 10 ^ hi.
Proof.
  intros Hhi. unfold parseDecimalPrefix, digitsAtStart. pose proof (digits_run_le token 0 hi Hhi) as Hr.
  pose proof (digits_run_digits token 0 hi ltac:(lia)) as Hd. rewrite Z.sub_0_r in Hd.
  unfold subarray. rewrite drop_0, Z.sub_0_r.
  assert (Hp : 1 <= 10 ^ hi) by (apply (Z.pow_le_mono_r 10 0 hi); lia).
  destruct (_ <=? _); [|change (0 <= 0 < 10 ^ hi); lia].
  pose proof (decimal_bound _ Hd). assert (10 ^ len (take (Z.to_nat (digits_run token 0 hi)) token) <= 10 ^ hi); [|lia].
  apply Z.pow_le_mono_r; [lia|]. unfold len. rewrite length_take. lia.
Qed.

Lemma token_year_bound token y : token_year token = Some y -> 0 <= y <= 9999.
Proof.
  unfold token_year. destruct (_ && _); [|done]. intros [= <-]. pose proof (prefix_bound token 2 4 ltac:(lia)). lia.
Qed.

Lemma index_of_text_bound x l : forall i, 0 <= i -> -1 <= index_of_text x l i < i + len l.
Proof.
  induction l as [|y l IH]; intros i Hi; cbn [index_of_text]; [rewrite len_nil; lia|].
  rewrite len_cons. pose proof (len_nonneg l). destruct (str_eqb y x); [lia|]. specialize (IH (i + 1)). lia.
Qed.

Lemma token_month_bound token m : token_month token = Some m -> 0 <= m <= 11.
Proof.
  unfold token_month. destruct (_ <=? _); [|done].
  pose proof (index_of_text_bound (to_lower (subarray token 0 3)) lowerMonths 0 ltac:(lia)) as H.
  change (len lowerMonths) with 12 in H. revert H. cbv zeta.
  generalize (index_of_text (to_lower (subarray token 0 3)) lowerMonths 0). intros i H. destruct (Z.leb_spec 0 i); [|done].
  intros [= <-]. lia.
Qed.

Lemma date_step_wf f token : fields_wf f -> fields_wf (date_step f token).
Proof.
  intros Hf. unfold date_step.
  destruct (if df_hour f <? 0 then _ else _) as [[[h m] s]|]; [done|].
  destruct (if df_day f <? 0 then _ else _) as [d|]; [done|].
  destruct (if df_month f <? 0 then _ else _) as [m|] eqn:Hm.
  { destruct (df_month f <? 0); [|done]. apply token_month_bound in Hm. destruct Hf. split; cbn; lia. }
  destruct (if df_year f <? 0 then _ else _) as [y|] eqn:Hy; [|done].
  destruct (df_year f <? 0); [|done]. apply token_year_bound in Hy. destruct Hf. split; cbn; lia.
Qed.

Lemma date_fields_wf value : fields_wf (date_fields_of value).
Proof.
  unfold date_fields_of. assert (H : fields_wf no_fields) by by_computing. revert H. generalize no_fields.
  induction (dateTokens value) as [|token l IH]; intros f Hf; [done|]. cbn. by apply IH, date_step_wf.
Qed.

(** ** What a date is *)

Lemma date_UTC_instant y m d h mi s : 1601 <= y <= 9999 -> is_calendar_date y m d \/ 0 <= m <= 11 /\ 1 <= d <= 31 ->
  0 <= h <= 23 -> 0 <= mi <= 59 -> 0 <= s <= 59 -> date_UTC y m d h mi s = Some (instant y m d h mi s).
Proof.
  intros Hy Hd Hh Hmi Hs. assert (Hm : 0 <= m <= 11) by (destruct Hd as [[? _]|[? _]]; done).
  pose proof (month_start_bounds (is_leap_year y) m Hm) as Hb.
  assert (Hdd : 1 <= d <= 366) by (destruct Hd as [[_ Hd]|]; unfold days_in_month in *; destruct (is_leap_year y); lia).
  unfold date_UTC. destruct (in_range 0 99 y) eqn:Hr; [unfold in_range in Hr; rewrite andb_true_iff, !Z.leb_le in Hr; lia|].
  rewrite (Z.div_small m 12), (Z.mod_small m 12), Z.add_0_r by lia. fold (instant y m d h mi s).
  unfold time_clip. destruct (Z.leb_spec (Z.abs (instant y m d h mi s)) 8640000000000000) as [|Hc]; [done|exfalso].
  pose proof (day_from_year_mono 1601 y ltac:(lia)). pose proof (day_from_year_mono y 9999 ltac:(lia)).
  change (day_from_year 1601) with (-134774) in *. change (day_from_year 9999) with 2932532 in *.
  unfold instant, msPerDay in Hc. destruct (is_leap_year y); lia.
Qed.

Lemma date_of_fields_spec f time : full_year (df_year f) <= 9999 -> -1 <= df_month f <= 11 ->
  date_of_fields f = Some time <->
    1601 <= full_year (df_year f) /\ is_calendar_date (full_year (df_year f)) (df_month f) (df_day f) /\
    0 <= df_hour f <= 23 /\ 0 <= df_minute f <= 59 /\ 0 <= df_second f <= 59 /\
    time = instant (full_year (df_year f)) (df_month f) (df_day f) (df_hour f) (df_minute f) (df_second f).
Proof.
  intros Hy9 Hm11. unfold date_of_fields. destruct f as [d m y h mi s]; cbn [df_day df_month df_year df_hour df_minute df_second] in *.
  cbv zeta. generalize dependent (full_year y). intros y' Hy9. destruct (_ || _) eqn:Hg.
  { rewrite !orb_true_iff, !Z.ltb_lt in Hg. split; [done|]. intros (? & [? Hd] & ? & ? & ? & _).
    unfold days_in_month in Hd. pose proof (month_start_bounds (is_leap_year y') m). exfalso.
    pose proof (days_in_month_max y' m). unfold days_in_month in *. lia. }
  rewrite !orb_false_iff, !Z.ltb_ge in Hg.
  rewrite date_UTC_instant by lia. destruct (_ || _) eqn:Hc.
  - rewrite !orb_true_iff, !negb_true_iff, !Z.eqb_neq in Hc. split; [done|]. intros (? & Hd & ? & ? & ? & ->). exfalso.
    pose proof (instant_year y' m d h mi s 0 Hd). pose proof (instant_month y' m d h mi s 0 Hd).
    pose proof (instant_date y' m d h mi s 0 Hd). pose proof (instant_time y' m d h mi s 0).
    rewrite Z.add_0_r in *. lia.
  - rewrite !orb_false_iff, !negb_false_iff, !Z.eqb_eq in Hc. destruct Hc as [[[[[H1 H2] H3] _] _] _].
    pose proof (instant_of_fields (instant y' m d h mi s)) as [Hd _]. rewrite H1, H2, H3 in Hd.
    split; [intros [= <-]; split_and!; try lia; apply Hd|by intros (_ & _ & _ & _ & _ & ->)].
Qed.

(** The date of a cookie is the instant of the fields found in its tokens,
    exactly when they are a date of the calendar from the year 1601 on and a time
    of day; two-digit years count from 1970. *)
Theorem cookie_date_calendar (value : jsstr) (time : Z) :
  let f := date_fields_of value in
  let year := full_year (df_year f) in
  parseCookieDate value = Some time <->
    1601 <= year /\ is_calendar_date year (df_month f) (df_day f) /\
    0 <= df_hour f <= 23 /\ 0 <= df_minute f <= 59 /\ 0 <= df_second f <= 59 /\
    time = instant year (df_month f) (df_day f) (df_hour f) (df_minute f) (df_second f).
Proof.
  cbv zeta. unfold parseCookieDate. pose proof (date_fields_wf value) as Hwf. revert Hwf.
  generalize (date_fields_of value). intros f Hwf. apply date_of_fields_spec; [|apply Hwf..].
  destruct Hwf as [_ Hy]. unfold full_year. repeat case_match; lia.
Qed.

(** ** Tokens *)

Lemma tokens_delim value code rest index result : isDateDelimiter code = true ->
  date_tokens_loop value (code :: rest) index (-1) result = date_tokens_loop value rest (index + 1) (-1) result.
Proof. intros H. cbn [date_tokens_loop]. by rewrite H. Qed.

Lemma tokens_in_word value w : forall rest index start result, Forall (fun c => isDateDelimiter c = false) w -> 0 <= start ->
  date_tokens_loop value (w ++ rest) index start result = date_tokens_loop value rest (index + len w) start result.
Proof.
  induction w as [|c w IH]; intros rest index start result Hw Hs; [rewrite len_nil, Z.add_0_r; done|].
  apply Forall_cons in Hw as [Hc Hw]. cbn [app date_tokens_loop]. rewrite Hc.
  destruct (Z.ltb_spec start 0); [lia|]. rewrite IH by done. rewrite len_cons. f_equal. lia.
Qed.

(** A word, up to the next delimiter or the end of the text, is one token. *)
Lemma tokens_word pre w code rest result : w <> [] -> Forall (fun c => isDateDelimiter c = false) w ->
  isDateDelimiter code = true ->
  date_tokens_loop (pre ++ w ++ code :: rest) (w ++ code :: rest) (len pre) (-1) result =
  date_tokens_loop (pre ++ w ++ code :: rest) rest (len pre + len w + 1) (-1) (result ++ [w]).
Proof.
  intros Hne Hw Hcode. destruct w as [|c w]; [done|]. clear Hne. apply Forall_cons in Hw as [Hc Hw].
  pose proof (len_nonneg pre). cbn [app date_tokens_loop]. rewrite Hc. cbn [Z.ltb Z.compare].
  rewrite tokens_in_word by done. cbn [date_tokens_loop]. rewrite Hcode.
  destruct (Z.leb_spec 0 (len pre)); [|lia].
  change (c :: w ++ code :: rest) with ((c :: w) ++ code :: rest).
  replace (len pre + 1 + len w) with (len pre + len (c :: w)) by (rewrite len_cons; lia).
  by rewrite subarray_app_mid.
Qed.

Lemma tokens_last pre w result : w <> [] -> Forall (fun c => isDateDelimiter c = false) w ->
  date_tokens_loop (pre ++ w) w (len pre) (-1) result = result ++ [w].
Proof.
  intros Hne Hw. destruct w as [|c w]; [done|]. clear Hne. apply Forall_cons in Hw as [Hc Hw].
  pose proof (len_nonneg pre). cbn [date_tokens_loop]. rewrite Hc. cbn [Z.ltb Z.compare].
  rewrite <- (app_nil_r w) at 2. rewrite tokens_in_word by done. cbn [date_tokens_loop].
  destruct (Z.leb_spec 0 (len pre)); [|lia].
  replace (len pre + 1 + len w) with (len pre + len (c :: w)) by (rewrite len_cons; lia).
  rewrite <- (app_nil_r (pre ++ c :: w)), <- app_assoc. by rewrite subarray_app_mid.
Qed.

Lemma words_tokens w l : is_word w -> Forall (fun '(v, code) => is_word v /\ isDateDelimiter code = true) l ->
  forall pre result, date_tokens_loop (pre ++ words_text l w) (words_text l w) (len pre) (-1) result =
  result ++ filter (fun x => x <> []) (l.*1 ++ [w]).
Proof.
  intros Hw. induction l as [|[v code] l IH]; intros Hl pre result; cbn [words_text fmap list_fmap fst app].
  - destruct w as [|c w]; [cbn; by rewrite app_nil_r|]. rewrite tokens_last by done. done.
  - apply Forall_cons in Hl as [[Hv Hcode] Hl].
    assert (Hnext : forall r, date_tokens_loop (pre ++ v ++ code :: words_text l w) (words_text l w) (len pre + len v + 1) (-1) r =
      r ++ filter (fun x => x <> []) (l.*1 ++ [w])).
    { intros r. rewrite <- IH with (pre := pre ++ v ++ [code]) by done.
      rewrite !len_app, <- !app_assoc. cbn [app]. f_equal. change (len [code]) with 1. lia. }
    destruct v as [|c v].
    + cbn [app]. rewrite tokens_delim by done. rewrite len_nil, Z.add_0_r in Hnext. cbn [app] in Hnext. rewrite Hnext. done.
    + rewrite tokens_word by done. rewrite Hnext, <- app_assoc. done.
Qed.

Lemma dateTokens_words w l : is_word w -> Forall (fun '(v, code) => is_word v /\ isDateDelimiter code = true) l ->
  dateTokens (words_text l w) = filter (fun x => x <> []) (l.*1 ++ [w]).
Proof. intros Hw Hl. exact (words_tokens w l Hw Hl [] []). Qed.

(** ** Reading what was written *)

Lemma two_digits v : 0 <= v < 100 -> twoDigits v = [48 + v / 10; 48 + v mod 10].
Proof.
  intros Hv. assert (Hc : forallb (fun v => bool_decide (twoDigits v = [48 + v / 10; 48 + v mod 10])) (seqZ 0 100) = true)
    by by vm_compute.
  rewrite forallb_forall in Hc. apply (bool_decide_unpack _), Is_true_true, Hc, list_elem_of_In, elem_of_seqZ. lia.
Qed.

Lemma four_digits y : 1000 <= y <= 9999 -> exists a b c d, js_string_of y = [a; b; c; d] /\
  Forall (fun c => is_digit_unit c = true) [a; b; c; d] /\ decimal [a; b; c; d] = y.
Proof.
  intros Hy. unfold js_string_of. destruct (Z.ltb_spec y 0); [lia|].
  pose proof (digits_text_len y 4 ltac:(lia) ltac:(lia) ltac:(lia) ltac:(right; lia)) as Hl.
  destruct (digits_text_spec y ltac:(lia)) as (_ & Hd & Hv).
  destruct (digits_text y) as [|a [|b [|c [|d [|]]]]]; unfold len in Hl; cbn in Hl; try lia.
  by exists a, b, c, d.
Qed.

Lemma day_names_skipped i w : at_ days i = Some w -> is_word w /\ w <> [] /\ word_skipped no_fields w.
Proof.
  intros H. assert (Hin : w ∈ days). { unfold at_ in H. destruct (i <? 0); [done|]. by eapply list_elem_of_lookup_2. }
  revert w H Hin. refine (fun w _ Hin => proj1 (List.Forall_forall (fun w => _) days) _ w (proj1 (list_elem_of_In _ _) Hin)).
  repeat constructor; done || by vm_compute.
Qed.

Lemma month_names_read i w d : at_ months i = Some w -> 0 <= d -> is_word w /\ w <> [] /\
  date_step (mk_fields d (-1) (-1) (-1) (-1) (-1)) w = mk_fields d i (-1) (-1) (-1) (-1).
Proof.
  intros H Hd. assert (Hi : 0 <= i < 12) by (apply at_Some in H; change (len months) with 12 in H; lia).
  assert (Hin : i ∈ seqZ 0 12) by (apply elem_of_seqZ; lia).
  assert (Hc : forallb (fun i => match at_ months i with None => false | Some w =>
    bool_decide (is_word w) && bool_decide (w <> []) && bool_decide (token_time w = None) && bool_decide (token_month w = Some i) end)
    (seqZ 0 12) = true) by by vm_compute.
  rewrite forallb_forall in Hc. specialize (Hc i ltac:(by apply list_elem_of_In)). rewrite H in Hc.
  rewrite !andb_true_iff, !bool_decide_eq_true in Hc. destruct Hc as [[[Hw Hne] Ht] Hm]. split_and!; [done..|].
  unfold date_step. cbn [df_day df_month df_year df_hour df_minute df_second Z.ltb Z.compare]. rewrite Ht, Hm.
  destruct (Z.ltb_spec d 0); [lia|]. done.
Qed.

(** Two digits are a number below 100 and no delimiters. *)
Lemma two_digits_wf v : 0 <= v < 100 -> is_word (twoDigits v) /\ twoDigits v <> [] /\
  isDigit (48 + v / 10) = true /\ isDigit (48 + v mod 10) = true /\ decimal (twoDigits v) = v.
Proof.
  intros Hv. assert (Hc : forallb (fun v => bool_decide (is_word (twoDigits v)) && bool_decide (twoDigits v <> []) &&
    isDigit (48 + v / 10) && isDigit (48 + v mod 10) && (decimal (twoDigits v) =? v)) (seqZ 0 100) = true) by by vm_compute.
  rewrite forallb_forall in Hc. specialize (Hc v ltac:(apply list_elem_of_In, elem_of_seqZ; lia)).
  rewrite !andb_true_iff, !bool_decide_eq_true, Z.eqb_eq in Hc. tauto.
Qed.

Lemma digit_guard c : isDigit c = true -> (c <? 48) || (57 <? c) = false /\ isDateDelimiter c = false /\ (c =? 58) = false.
Proof.
  unfold isDigit. rewrite andb_true_iff, !Z.leb_le. intros [H1 H2].
  unfold isDateDelimiter, in_range. split_and!.
  - apply orb_false_iff. rewrite !Z.ltb_ge. lia.
  - rewrite !orb_false_iff, !andb_false_iff, !Z.leb_gt, Z.eqb_neq. lia.
  - apply Z.eqb_neq. lia.
Qed.

Lemma digits_run_step c l n k : isDigit c = true -> n < k -> digits_run (c :: l) n k = digits_run l (n + 1) k.
Proof.
  intros Hc Hn. destruct (digit_guard c Hc) as (G & _ & _). cbn [digits_run]. rewrite G.
  destruct (Z.ltb_spec n k); [done|lia].
Qed.

Lemma digits_run_stop c l n k : isDigit c = false -> digits_run (c :: l) n k = n.
Proof.
  intros Hc. cbn [digits_run]. destruct (n <? k); [|done].
  unfold isDigit in Hc. rewrite andb_false_iff, !Z.leb_gt in Hc.
  destruct (Z.ltb_spec c 48), (Z.ltb_spec 57 c); cbn [orb]; done || lia.
Qed.

Lemma digits_run_full l n k : k <= n -> digits_run l n k = n.
Proof. intros H. destruct l as [|c l]; [done|]. cbn [digits_run]. destruct (Z.ltb_spec n k); [lia|done]. Qed.

(** Two digits are read, whatever follows them. *)
Lemma digitsAtStart_two a b l lo : isDigit a = true -> isDigit b = true -> lo <= 2 -> digitsAtStart (a :: b :: l) lo 2 = 2.
Proof.
  intros Ha Hb Hlo. unfold digitsAtStart. rewrite (digits_run_step a), (digits_run_step b), digits_run_full by done.
  change (0 + 1 + 1) with 2. destruct (Z.leb_spec lo 2); [done|lia].
Qed.

(** The token of the day of the month. *)
Lemma day_token_read v : 0 <= v < 100 ->
  date_step no_fields (twoDigits v) = mk_fields v (-1) (-1) (-1) (-1) (-1).
Proof.
  intros Hv. destruct (two_digits_wf v Hv) as (_ & _ & Ha & Hb & Hd). revert Hd. rewrite (two_digits v Hv). intros Hd.
  assert (Ht : token_time [48 + v / 10; 48 + v mod 10] = None) by (unfold token_time; by rewrite digitsAtStart_two by (done || lia)).
  assert (Hday : token_day [48 + v / 10; 48 + v mod 10] = Some v)
    by (unfold token_day; rewrite digitsAtStart_two by (done || lia); 
      transitivity (Some (decimal [48 + v / 10; 48 + v mod 10])); [done|by rewrite Hd]).
  unfold date_step, no_fields. cbn [df_day df_month df_year df_hour df_minute df_second Z.ltb Z.compare].
  by rewrite Ht, Hday.
Qed.

(** The token of the year. *)
Lemma year_token_read y d m : 1000 <= y <= 9999 -> 0 <= d -> 0 <= m ->
  is_word (js_string_of y) /\ js_string_of y <> [] /\
  date_step (mk_fields d m (-1) (-1) (-1) (-1)) (js_string_of y) = mk_fields d m y (-1) (-1) (-1).
Proof.
  intros Hy Hd Hm. destruct (four_digits y Hy) as (a & b & c & e & -> & Hall & Hv).
  rewrite !Forall_cons in Hall. destruct Hall as (Ha & Hb & Hc & He & _).
  change is_digit_unit with isDigit in *.
  assert (Ht : token_time [a; b; c; e] = None).
  { unfold token_time. rewrite digitsAtStart_two by (done || lia). destruct (digit_guard c Hc) as (_ & _ & Hcolon).
    apply Z.eqb_neq in Hcolon. cbn [Z.ltb Z.compare andb].
    destruct (unit_at [a; b; c; e] 2 58) eqn:Hu; [|done]. unfold unit_at in Hu. apply bool_decide_eq_true in Hu.
    change (Some c = Some 58) in Hu. congruence. }
  assert (Hyear : token_year [a; b; c; e] = Some y).
  { unfold token_year, digitsAtStart.
    rewrite (digits_run_step a), (digits_run_step b), (digits_run_step c), (digits_run_step e) by done.
    transitivity (Some (decimal [a; b; c; e])); [done|by rewrite Hv]. }
  split_and!; [repeat apply Forall_cons_2; try apply Forall_nil_2; by apply digit_guard|done|].
  unfold date_step. cbn [df_day df_month df_year df_hour df_minute df_second Z.ltb Z.compare].
  rewrite Ht, Hyear. destruct (Z.ltb_spec d 0), (Z.ltb_spec m 0); done || lia.
Qed.

(** The token of the time of day. *)
Lemma time_token_read h mi s d m y : 0 <= h < 100 -> 0 <= mi < 100 -> 0 <= s < 100 ->
  let w := twoDigits h ++ u ":" ++ twoDigits mi ++ u ":" ++ twoDigits s in
  is_word w /\ w <> [] /\ date_step (mk_fields d m y (-1) (-1) (-1)) w = mk_fields d m y h mi s.
Proof.
  intros Hh Hmi Hs. cbv zeta.
  destruct (two_digits_wf h Hh) as (Wh & _ & Ha & Hb & Vh), (two_digits_wf mi Hmi) as (Wm & _ & Hc & Hd & Vm),
    (two_digits_wf s Hs) as (Ws & _ & He & Hf & Vs).
  split_and!.
  - unfold is_word in *. rewrite !Forall_app. by split_and!; [|by repeat constructor| |by repeat constructor|].
  - rewrite (two_digits h Hh). done.
  - revert Vh Vm Vs. rewrite (two_digits h Hh), (two_digits mi Hmi), (two_digits s Hs). intros Vh Vm Vs.
    change (u ":") with [58]. cbn [app].
    set (w := _ :: _). assert (Ht : token_time w = Some (h, mi, s)).
    { unfold token_time, w. rewrite !digitsAtStart_two by (done || lia). cbn [Z.ltb Z.compare andb].
      change (unit_at _ 2 58) with true. cbn [andb]. change (Z.to_nat (2 + 1)) with 3%nat. cbn [drop].
      rewrite !digitsAtStart_two by (done || lia). change (unit_at _ 2 58) with true. cbn [Z.ltb Z.compare andb].
      change (Z.to_nat (2 + 1)) with 3%nat. cbn [drop].
      rewrite !digitsAtStart_two by (done || lia). change (digits_end _ 2) with true. cbn [Z.ltb Z.compare andb].
      transitivity (Some (decimal [48 + h / 10; 48 + h mod 10], decimal [48 + mi / 10; 48 + mi mod 10],
        decimal [48 + s / 10; 48 + s mod 10])); [done|by rewrite Vh, Vm, Vs]. }
    unfold date_step. cbn [df_day df_month df_year df_hour df_minute df_second Z.ltb Z.compare]. by rewrite Ht.
Qed.

Lemma full_year_late y : 1601 <= y -> full_year y = y.
Proof.
  intros Hy. unfold full_year. destruct (Z.leb_spec y 99), (Z.leb_spec y 69); try lia. by rewrite !andb_false_r.
Qed.

Lemma date_step_full f w : 0 <= df_hour f -> 0 <= df_day f -> 0 <= df_month f -> 0 <= df_year f -> date_step f w = f.
Proof. intros Hh Hd Hm Hy. unfold date_step. by rewrite !(proj2 (Z.ltb_ge _ _)) by done. Qed.

(** The words of the written date. *)
Lemma imf_words time : exists day month, at_ days (getUTCDay time) = Some day /\ at_ months (getUTCMonth time) = Some month /\
  toIMFDate (Some time) = Ok (words_text
    [(day, 44); ([], 32); (twoDigits (getUTCDate time), 32); (month, 32); (js_string_of (getUTCFullYear time), 32);
     (twoDigits (getUTCHours time) ++ u ":" ++ twoDigits (getUTCMinutes time) ++ u ":" ++ twoDigits (getUTCSeconds time), 32)]
    (u "GMT")).
Proof.
  destruct (at_total days (getUTCDay time)) as [day Hday].
  { change (len days) with 7. unfold getUTCDay. div_lia. }
  destruct (at_total months (getUTCMonth time)) as [month Hmonth].
  { change (len months) with 12. destruct (instant_of_fields time) as [[? _] _]. lia. }
  exists day, month. split_and!; [done..|]. unfold toIMFDate. rewrite Hday, Hmonth. cbn [words_text].
  f_equal. change (u ", ") with [44; 32]. change (u " ") with [32]. change (u " GMT") with (32 :: u "GMT").
  rewrite <- !app_assoc. done.
Qed.

Lemma date_text_read (time : Z) : 1601 <= getUTCFullYear time <= 9999 ->
  exists text, toIMFDate (Some time) = Ok text /\ parseCookieDate text = Some (1000 * (time / 1000)).
Proof.
  intros Hy. destruct (imf_words time) as (day & month & Hday & Hmonth & ->). eexists; split; [done|].
  destruct (instant_of_fields time) as ([Hm Hd] & Hh & Hmi & Hs & <-).
  pose proof (days_in_month_max (getUTCFullYear time) (getUTCMonth time) Hm) as Hmax.
  destruct (day_names_skipped _ _ Hday) as (Wd & Nd & Sd).
  destruct (two_digits_wf (getUTCDate time)) as (Wn & Nn & _); [lia|].
  destruct (month_names_read _ _ (getUTCDate time) Hmonth) as (Wm & Nm & Sm); [lia|].
  destruct (year_token_read (getUTCFullYear time) (getUTCDate time) (getUTCMonth time)) as (Wy & Ny & Sy); [lia..|].
  destruct (time_token_read (getUTCHours time) (getUTCMinutes time) (getUTCSeconds time)
    (getUTCDate time) (getUTCMonth time) (getUTCFullYear time)) as (Wt & Nt & St); [lia..|].
  unfold parseCookieDate, date_fields_of. assert (Wg : is_word (u "GMT")) by by_computing.
  rewrite (dateTokens_words _ _ Wg) by (repeat apply Forall_cons_2; try apply Forall_nil_2; (split; [done || by apply Forall_nil_2|done])).
  cbn [app fmap list_fmap fst]. rewrite filter_cons_True by done. rewrite filter_cons_False by (intros H; by apply H).
  rewrite !filter_cons_True by done. rewrite filter_nil.
  cbn [foldl]. rewrite Sd, day_token_read by lia. rewrite Sm, Sy, St.
  rewrite date_step_full by (cbn; lia).
  apply date_of_fields_spec; cbn [df_day df_month df_year df_hour df_minute df_second];
    rewrite ?full_year_late by lia; [lia..|].
  split; [lia|]. split_and!; done || lia.
Qed.

(** A date that is written is read back, up to its milliseconds, for every
    time of the years 1601 to 9999. *)
Theorem imf_date_roundtrip (time : Z) : 1601 <= getUTCFullYear time <= 9999 ->
  exists text, toIMFDate (Some time) = Ok text /\ parseCookieDate text = Some (1000 * (time / 1000)).
Proof. apply date_text_read. Qed.

Lemma imf_date_roundtrip_witness : exists text, toIMFDate (Some 784111777123) = Ok text /\
  text = u "Sun, 06 Nov 1994 08:49:37 GMT" /\ parseCookieDate text = Some 784111777000.
Proof.
  destruct (imf_date_roundtrip 784111777123) as (text & Ht & Hp); [by vm_compute|].
  exists text. split_and!; [done|by vm_compute in Ht; injection Ht as <-|exact Hp].
Defined.
