(* ===== verification/Cookies.v ===== *)
(** * Cookie fields ([cookies/cookies.ts])

    Reading and writing [Set-Cookie] and [Cookie] fields, and the functions that
    do so on a [Headers] object.  Texts are strings of bytes, which is what a
    header field holds, so that [toLowerCase] is that of Latin-1.  A cookie time
    is a time value, [None] being NaN. *)

From S2P Require Import Prelude Ascii Numbers IdlNumbers Effects FetchHeaders CookieDate.

Inductive CookieSameSite := Strict | Lax | NoneSite.
#[export] Instance CookieSameSite_eq_dec : EqDecision CookieSameSite.
Proof. solve_decision. Defined.

(** [Cookie] as the parser and [convertCookie] build it: [expires] is a [Date]. *)
Record Cookie := mk_cookie {
  c_name : jsstr;
  c_value : jsstr;
  c_expires : option (option Z);
  c_maxAge : option Z;
  c_domain : option jsstr;
  c_path : option jsstr;
  c_secure : option bool;
  c_httpOnly : option bool;
  c_sameSite : option CookieSameSite;
  c_unparsed : option (list jsstr);
}.
#[export] Instance Cookie_eq_dec : EqDecision Cookie.
Proof. solve_decision. Defined.

(** [Cookie] as a caller gives it: [undefined] and [null] are both [None], but
    for [sameSite], which [null] makes the text "null". *)
Inductive CookieTime := AsDate (time : option Z) | AsNumber (n : js_number).

Record CookieInit := mk_cookie_init {
  i_name : jsstr;
  i_value : jsstr;
  i_expires : option CookieTime;
  i_maxAge : option js_number;
  i_domain : option jsstr;
  i_path : option jsstr;
  i_secure : option bool;
  i_httpOnly : option bool;
  i_sameSite : option jsstr;
  i_unparsed : option (list jsstr);
}.

(** ** Validation *)

Definition cookie_control (code : Z) : bool := in_range 0 8 code || in_range 10 31 code || (code =? 127).

Definition hasCTLExcludingTab (value : jsstr) : bool := existsb cookie_control value.

(** The characters other than letters that a name may not hold. *)
Definition bad_name_unit (code : Z) : bool :=
  (code <? 33) || (126 <? code) ||
  bool_decide (code ∈ [34; 40; 41; 44; 47; 58; 59; 60; 61; 62; 63; 64; 91; 92; 93; 123; 125]).

Definition validateCookieName (name : jsstr) : result unit :=
  throw_if (existsb bad_name_unit name) (TypeError "Invalid cookie name").

Definition bad_value_code (code : Z) : bool :=
  (code <? 33) || (126 <? code) || (code =? 34) || (code =? 44) || (code =? 59) || (code =? 92).

Definition validateCookieValue (value : jsstr) : result unit :=
  let end_ := len value in
  if unit_at value 0 34 then
    throw_if ((end_ =? 1) || negb (unit_at value (end_ - 1) 34)) (TypeError "Invalid cookie value") ;;
    throw_if (existsb bad_value_code (subarray value 1 (end_ - 1))) (TypeError "Invalid cookie value")
  else throw_if (existsb bad_value_code value) (TypeError "Invalid cookie value").

Definition isLetterOrDigit (code : Z) : bool := in_range 48 57 code || in_range 65 90 code || in_range 97 122 code.

(** The loop of [validateCookieDomain], by the rest of the domain; [prev] is the
    unit before it. *)
Fixpoint domain_loop (rest : jsstr) (prev labelLength : Z) : result (Z * Z) :=
  match rest with
  | [] => Ok (prev, labelLength)
  | code :: rest =>
      if code =? 46 then
        throw_if ((labelLength =? 0) || (prev =? 45)) (TypeError "Invalid cookie domain") ;;
        domain_loop rest code 0
      else
        throw_if (((labelLength =? 0) && negb (isLetterOrDigit code)) || (negb (isLetterOrDigit code) && negb (code =? 45)))
          (TypeError "Invalid cookie domain") ;;
        throw_if (63 <? labelLength + 1) (TypeError "Invalid cookie domain") ;;
        domain_loop rest code (labelLength + 1)
  end.

Definition validateCookieDomain (domain : jsstr) : result unit :=
  throw_if ((len domain =? 0) || (255 <? len domain)) (TypeError "Invalid cookie domain") ;;
  '(prev, labelLength) ← domain_loop domain (-1) 0;
  throw_if ((labelLength =? 0) || (prev =? 45)) (TypeError "Invalid cookie domain").

Definition bad_path_unit (code : Z) : bool := (code <? 32) || (126 <? code) || (code =? 59).

Definition validateCookiePath (path : jsstr) : result unit :=
  throw_if (existsb bad_path_unit path) (TypeError "Invalid cookie path").

(** ** Reading *)

(** [Number(value)] is the nearest double; an infinity becomes a safe integer. *)
Definition parseMaxAge (value : jsstr) : option Z :=
  let number (negative : bool) (digits : jsstr) :=
    if forallb isDigit digits then
      Some (match round_double (if negative then - decimal digits else decimal digits) with
            | Some result => result
            | None => if negative then - MAX_SAFE_INTEGER else MAX_SAFE_INTEGER
            end)
    else None in
  match value with
  | [] => None
  | code :: digits =>
      if code =? 45 then match digits with [] => None | _ => number true digits end
      else number false value
  end.

Record ParsedCookie := mk_parsed { pc_cookie : Cookie; pc_pathAttributePresent : bool }.

(** The state of the loop over the attributes: the cookie, the unparsed
    attributes and whether a path was among them. *)
Definition attribute_state : Type := Cookie * list jsstr * bool.

Ltac update_cookie p v r :=
  exact_update (fun r : Cookie => mk_cookie (c_name r) (c_value r) (c_expires r) (c_maxAge r) (c_domain r)
    (c_path r) (c_secure r) (c_httpOnly r) (c_sameSite r) (c_unparsed r)) p v r.

Definition set_c_expires (v : option (option Z)) (r : Cookie) : Cookie := ltac:(update_cookie c_expires v r).
Definition set_c_maxAge (v : option Z) (r : Cookie) : Cookie := ltac:(update_cookie c_maxAge v r).
Definition set_c_domain (v : option jsstr) (r : Cookie) : Cookie := ltac:(update_cookie c_domain v r).
Definition set_c_path (v : option jsstr) (r : Cookie) : Cookie := ltac:(update_cookie c_path v r).
Definition set_c_secure (v : option bool) (r : Cookie) : Cookie := ltac:(update_cookie c_secure v r).
Definition set_c_httpOnly (v : option bool) (r : Cookie) : Cookie := ltac:(update_cookie c_httpOnly v r).
Definition set_c_sameSite (v : option CookieSameSite) (r : Cookie) : Cookie := ltac:(update_cookie c_sameSite v r).
Definition set_c_unparsed (v : option (list jsstr)) (r : Cookie) : Cookie := ltac:(update_cookie c_unparsed v r).

(** [text.slice(0, text.indexOf(x))] and what follows [x]; without an [x] the
    text and [None]. *)
Definition cut_at (x : Z) (text : jsstr) : jsstr * option jsstr :=
  let i := js_indexOf text x 0 in
  if i <? 0 then (text, None) else (subarray text 0 i, Some (drop (Z.to_nat (i + 1)) text)).

(** The dispatch on the name of an attribute. *)
Definition parse_sameSite (attributeValue : jsstr) : option CookieSameSite :=
  let sameSite := to_lower attributeValue in
  if str_eqb sameSite (u "strict") then Some Strict
  else if str_eqb sameSite (u "lax") then Some Lax
  else if str_eqb sameSite (u "none") then Some NoneSite
  else None.

Definition set_attribute (defaultPath attributeName attributeValue : jsstr) (s : attribute_state) : attribute_state :=
  let '(result, unparsed, pathAttributePresent) := s in
  let key := to_lower attributeName in
  if str_eqb key (u "expires") then
    (match parseCookieDate attributeValue with
     | Some expires => set_c_expires (Some (Some expires)) result
     | None => result
     end, unparsed, pathAttributePresent)
  else if str_eqb key (u "max-age") then
    (match parseMaxAge attributeValue with
     | Some maxAge => set_c_maxAge (Some maxAge) result
     | None => result
     end, unparsed, pathAttributePresent)
  else if str_eqb key (u "domain") then
    (set_c_domain (Some (to_lower (if starts_with 46 attributeValue then drop 1 attributeValue else attributeValue))) result,
     unparsed, pathAttributePresent)
  else if str_eqb key (u "path") then
    (set_c_path (Some (if starts_with 47 attributeValue then attributeValue else defaultPath)) result, unparsed, true)
  else if str_eqb key (u "secure") then (set_c_secure (Some true) result, unparsed, pathAttributePresent)
  else if str_eqb key (u "httponly") then (set_c_httpOnly (Some true) result, unparsed, pathAttributePresent)
  else if str_eqb key (u "samesite") then
    (match parse_sameSite attributeValue with
     | Some sameSite => set_c_sameSite (Some sameSite) result
     | None => result
     end, unparsed, pathAttributePresent)
  else (result, unparsed ++ [attributeName ++ [61] ++ attributeValue], pathAttributePresent).

(** The body of the loop over the attributes. *)
Definition attribute_step (defaultPath : jsstr) (s : attribute_state) (part : jsstr) : attribute_state :=
  let '(before, after) := cut_at 61 part in
  let attributeName := trimHTTPTabOrSpace before in
  let attributeValue := trimHTTPTabOrSpace (default [] after) in
  if 1024 <? len attributeValue then s else set_attribute defaultPath attributeName attributeValue s.

(** [while (cursor <= header.length)]: the cursor moves past a semicolon or past
    the end, so [header.length + 1] steps are enough. *)
Fixpoint attribute_loop (fuel : nat) (defaultPath header : jsstr) (cursor : Z) (s : attribute_state) : attribute_state :=
  match fuel with
  | O => s
  | S fuel =>
      if cursor <=? len header then
        let next := js_indexOf header 59 cursor in
        let part := if next <? 0 then drop (Z.to_nat cursor) header else subarray header cursor next in
        let cursor := if next <? 0 then len header + 1 else next + 1 in
        attribute_loop fuel defaultPath header cursor (attribute_step defaultPath s part)
      else s
  end.

Definition new_cookie (name value : jsstr) : Cookie := mk_cookie name value None None None None None None None None.

Definition parseCookieForRequest (header defaultPath : jsstr) : option ParsedCookie :=
  if hasCTLExcludingTab header then None
  else
    let semicolon := js_indexOf header 59 0 in
    let pair := if semicolon <? 0 then header else subarray header 0 semicolon in
    let '(before, after) := cut_at 61 pair in
    let name := trimHTTPTabOrSpace (match after with None => [] | Some _ => before end) in
    let value := trimHTTPTabOrSpace (match after with None => pair | Some after => after end) in
    if 4096 <? len name + len value then None
    else
      let cursor := if semicolon <? 0 then len header + 1 else semicolon + 1 in
      let '(result, unparsed, pathAttributePresent) :=
        attribute_loop (S (length header)) defaultPath header cursor (new_cookie name value, [], false) in
      let result := match unparsed with [] => result | _ => set_c_unparsed (Some unparsed) result end in
      Some (mk_parsed result pathAttributePresent).

Definition parseCookie (input : jsstr) : option Cookie := pc_cookie <$> parseCookieForRequest input (u "/").

(** ** Writing *)

(** [new Date(Math.floor(n))] for a finite [n >= 0], or an invalid date; a date
    is copied. *)
Definition convert_time (t : CookieTime) : option Z :=
  match t with
  | AsDate time => time
  | AsNumber (Finite m e) => if 0 <=? m then time_clip (floor_of m e) else None
  | AsNumber _ => None
  end.

Definition convert_sameSite (value : jsstr) : result CookieSameSite :=
  if str_eqb value (u "Strict") then Ok Strict
  else if str_eqb value (u "Lax") then Ok Lax
  else if str_eqb value (u "None") then Ok NoneSite
  else Err (TypeError "Invalid cookie SameSite value").

Definition convertCookie (input : CookieInit) : result Cookie :=
  sameSite ← match i_sameSite input with
             | None => Ok None
             | Some value => sameSite ← convert_sameSite value; Ok (Some sameSite)
             end;
  Ok (mk_cookie (i_name input) (i_value input) (convert_time <$> i_expires input) (toLongLong <$> i_maxAge input)
        (i_domain input) (i_path input) (i_secure input) (i_httpOnly input) sameSite
        (Some (default [] (i_unparsed input)))).

(** [text.startsWith(prefix)] *)
Definition has_prefix (prefix text : jsstr) : bool := str_eqb (take (length prefix) text) prefix.

Definition sameSite_text (s : CookieSameSite) : jsstr :=
  match s with Strict => u "Strict" | Lax => u "Lax" | NoneSite => u "None" end.

(** The text of an unparsed attribute. *)
Definition unparsed_text (part : jsstr) : result jsstr :=
  match cut_at 61 part with
  | (_, None) => Err (TypeError "Invalid unparsed cookie attribute")
  | (before, Some value) =>
      let name := trimHTTPTabOrSpace before in
      validateCookieName name ;;
      validateCookieValue value ;;
      Ok (name ++ [61] ++ value)
  end.

Definition push (output : list jsstr) (text : jsstr) : result (list jsstr) := Ok (output ++ [text]).

(** A part of the output: each appends at most one text. *)
Definition output_maxAge (cookie : Cookie) (output : list jsstr) : result (list jsstr) :=
  match c_maxAge cookie with
  | None => Ok output
  | Some maxAge =>
      throw_if (maxAge <? 0) (TypeError "Invalid cookie max-age") ;;
      push output (u "Max-Age=" ++ js_string_of maxAge)
  end.

Definition output_domain (domain : option jsstr) (output : list jsstr) : result (list jsstr) :=
  match domain with
  | Some ((_ :: _) as domain) => validateCookieDomain domain ;; push output (u "Domain=" ++ domain)
  | _ => Ok output
  end.

Definition output_path (path : option jsstr) (output : list jsstr) : result (list jsstr) :=
  match path with
  | Some ((_ :: _) as path) => validateCookiePath path ;; push output (u "Path=" ++ path)
  | _ => Ok output
  end.

Definition output_expires (cookie : Cookie) (output : list jsstr) : result (list jsstr) :=
  match c_expires cookie with
  | Some (Some time) => text ← toIMFDate (Some time); push output (u "Expires=" ++ text)
  | _ => Ok output
  end.

Definition output_unparsed (output : list jsstr) (part : jsstr) : result (list jsstr) :=
  text ← unparsed_text part; push output text.

Definition host_prefixed (cookie : Cookie) : bool := has_prefix (u "__host-") (to_lower (c_name cookie)).
Definition written_secure (cookie : Cookie) : bool :=
  bool_decide (c_secure cookie = Some true) || host_prefixed cookie || has_prefix (u "__secure-") (to_lower (c_name cookie)).

Definition serialize_converted (cookie : Cookie) : result (option jsstr) :=
  if len (c_name cookie) =? 0 then Ok None
  else
    validateCookieName (c_name cookie) ;;
    validateCookieValue (c_value cookie) ;;
    let output := [c_name cookie ++ [61] ++ c_value cookie] in
    let hostPrefix := host_prefixed cookie in
    let domain := if hostPrefix then None else c_domain cookie in
    let path := if hostPrefix then Some (u "/") else c_path cookie in
    let output := if written_secure cookie then output ++ [u "Secure"] else output in
    let output := if bool_decide (c_httpOnly cookie = Some true) then output ++ [u "HttpOnly"] else output in
    output ← output_maxAge cookie output;
    output ← output_domain domain output;
    output ← output_path path output;
    output ← output_expires cookie output;
    let output := match c_sameSite cookie with
                  | Some sameSite => output ++ [u "SameSite=" ++ sameSite_text sameSite]
                  | None => output
                  end in
    output ← foldM output_unparsed output (default [] (c_unparsed cookie));
    Ok (Some (js_join (u "; ") output)).

Definition serializeCookie (input : CookieInit) : result (option jsstr) :=
  cookie ← convertCookie input; serialize_converted cookie.

(** ** On a list of headers *)

Definition getSetCookies (headers : Headers) : list Cookie := omap parseCookie (getSetCookie headers).

Definition setCookie (headers : Headers) (cookie : CookieInit) : result Headers :=
  value ← serializeCookie cookie;
  match value with None => Ok headers | Some value => append headers (u "set-cookie") value end.

(** [deleteCookie] with the domain and path of its attributes. *)
Definition deleteCookie (headers : Headers) (name : jsstr) (domain path : option jsstr) : result Headers :=
  setCookie headers (mk_cookie_init name [] (Some (AsNumber (num_of 0))) None domain path None None None None).

Definition cookie_pair (piece : jsstr) : jsstr * jsstr :=
  let '(before, after) := cut_at 61 piece in (trimHTTPTabOrSpace before, default [] after).

Definition getCookiePairs (headers : Headers) : result (list (jsstr * jsstr)) :=
  value ← get headers (u "cookie");
  match value with
  | None | Some [] => Ok []
  | Some value => Ok (cookie_pair <$> js_split 59 value)
  end.
