(* ===== verification/CookiesTheory.v ===== *)
(** * Cookie fields: what is written is read back

    The loop over the attributes of a [Set-Cookie] field is a fold over its
    pieces between semicolons; the pieces that [serializeCookie] writes hold no
    semicolon and give back the attributes they were written for. *)

From S2P Require Import Prelude Ascii WebIdl Numbers IdlNumbers FetchHeaders CookieDate Cookies.

(** ** Specification *)

(** A text that can stand in a field: visible characters and spaces, without a
    semicolon. *)
Definition field_unit (c : Z) : Prop := 32 <= c <= 126 /\ c <> 59.
Definition field_text (l : jsstr) : Prop := Forall field_unit l.

(** The cookie of the pieces of a field. *)
Definition cookie_of_pieces (defaultPath : jsstr) (pieces : list jsstr) : option ParsedCookie :=
  match pieces with
  | [] => None
  | piece :: attributes =>
      let '(before, after) := cut_at 61 piece in
      let name := trimHTTPTabOrSpace (match after with None => [] | Some _ => before end) in
      let value := trimHTTPTabOrSpace (match after with None => piece | Some after => after end) in
      if 4096 <? len name + len value then None
      else
        let '(result, unparsed, pathAttributePresent) :=
          foldl (attribute_step defaultPath) (new_cookie name value, [], false) attributes in
        Some (mk_parsed (match unparsed with [] => result | _ => set_c_unparsed (Some unparsed) result end) pathAttributePresent)
  end.

(** An attribute that is written: its name, and its value unless it is a flag. *)
Definition attribute : Type := jsstr * option jsstr.
Definition attribute_text (a : attribute) : jsstr :=
  match a.2 with None => a.1 | Some v => a.1 ++ (61 :: v) end.

(** The name of an attribute is trimmed, and neither part ends the field. *)
Definition attribute_ok (a : attribute) : Prop :=
  field_text a.1 /\ 61 ∉ a.1 /\ trimHTTPTabOrSpace a.1 = a.1 /\ field_text (default [] a.2).

Definition unparsed_attribute (part : jsstr) : attribute :=
  let '(before, after) := cut_at 61 part in (trimHTTPTabOrSpace before, Some (default [] after)).

(** An attribute with an empty text is not written. *)
Definition nonempty_text (d : option jsstr) : option jsstr := match d with Some [] => None | _ => d end.
Definition written_domain (c : Cookie) : option jsstr := nonempty_text (if host_prefixed c then None else c_domain c).
Definition written_path (c : Cookie) : option jsstr := nonempty_text (if host_prefixed c then Some (u "/") else c_path c).

(** The attributes of a cookie, in the order in which they are written. *)
Definition written_attributes (c : Cookie) : list attribute :=
  (if written_secure c then [(u "Secure", None)] else []) ++
  (if bool_decide (c_httpOnly c = Some true) then [(u "HttpOnly", None)] else []) ++
  (match c_maxAge c with Some n => [(u "Max-Age", Some (js_string_of n))] | None => [] end) ++
  (match written_domain c with Some d => [(u "Domain", Some d)] | None => [] end) ++
  (match written_path c with Some p => [(u "Path", Some p)] | None => [] end) ++
  (match c_expires c with
   | Some (Some t) => match toIMFDate (Some t) with Ok text => [(u "Expires", Some text)] | Err _ => [] end
   | _ => []
   end) ++
  (match c_sameSite c with Some s => [(u "SameSite", Some (sameSite_text s))] | None => [] end) ++
  (unparsed_attribute <$> default [] (c_unparsed c)).

(** The attribute names that the parser knows. *)
Definition known_attributes : list jsstr :=
  u <$> ["expires"; "max-age"; "domain"; "path"; "secure"; "httponly"; "samesite"]%string.

(** What the parser's limits keep: the size of the pair, exact numbers, years of
    four digits, attributes of its own that are not known ones. *)
Definition readable (c : Cookie) : Prop :=
  len (c_name c) + len (c_value c) <= 4096 /\
  (forall n, c_maxAge c = Some n -> n <= MAX_SAFE_INTEGER) /\
  (forall t, c_expires c = Some (Some t) -> 1601 <= getUTCFullYear t <= 9999) /\
  Forall (fun part => to_lower (unparsed_attribute part).1 ∉ known_attributes /\
                      len (default [] (unparsed_attribute part).2) <= 1024) (default [] (c_unparsed c)).

(** The path that is read: one that is too long is dropped, one that does not
    start with a slash is the default path. *)
Definition read_path (path : jsstr) : option jsstr :=
  let path := trimHTTPTabOrSpace path in
  if 1024 <? len path then None else Some (if starts_with 47 path then path else u "/").

(** The cookie that is read back. *)
Definition read_back (c : Cookie) : Cookie :=
  mk_cookie (c_name c) (c_value c)
    (match c_expires c with Some (Some t) => Some (Some (1000 * (t / 1000))) | _ => None end)
    (c_maxAge c)
    (to_lower <$> written_domain c)
    (written_path c ≫= read_path)
    (if written_secure c then Some true else None)
    (if bool_decide (c_httpOnly c = Some true) then Some true else None)
    (c_sameSite c)
    (match default [] (c_unparsed c) with [] => None | l => Some (attribute_text ∘ unparsed_attribute <$> l) end).

Definition blanks (b : jsstr) : Prop := Forall (fun c => isHTTPTabOrSpace c = true) b.

(** Letters, digits and marks: no blank, and no end of a field. *)
Definition solid_unit (c : Z) : Prop := 33 <= c <= 126 /\ c <> 59.
Definition solid_text (l : jsstr) : Prop := Forall solid_unit l.

(** [output'] is [output] with some attributes appended. *)
Definition appended (attributes : list attribute) (output output' : list jsstr) : Prop :=
  output' = output ++ (attribute_text <$> attributes) /\ Forall attribute_ok attributes.

(** What the writer has checked. *)
Definition written_ok (c : Cookie) : Prop :=
  c_name c <> [] /\ solid_text (c_name c) /\ 61 ∉ c_name c /\ solid_text (c_value c) /\
  (forall n, c_maxAge c = Some n -> 0 <= n) /\
  (forall d, written_domain c = Some d -> solid_text d /\ starts_with 46 d = false /\ len d <= 255) /\
  Forall (fun part => exists v, (unparsed_attribute part).2 = Some v /\ solid_text v) (default [] (c_unparsed c)) /\
  Forall attribute_ok (written_attributes c).

(** The step of the parser on an attribute. *)
Definition read_attribute (d : jsstr) (s : attribute_state) (a : attribute) : attribute_state :=
  if 1024 <? len (trimHTTPTabOrSpace (default [] a.2)) then s else set_attribute d a.1 (trimHTTPTabOrSpace (default [] a.2)) s.

(** A cookie with a prefix, for the examples. *)
Definition sample_cookie : CookieInit :=
  mk_cookie_init (u "__Host-id") (u "abc") (Some (AsNumber (num_of 784111777123))) (Some (num_of 60)) (Some (u "Example.com"))
    (Some (u "/a")) None (Some true) (Some (u "Lax")) (Some [u "Part=1"]).

(** ** Splitting *)

Lemma cut_at_app x before after : x ∉ before -> cut_at x (before ++ (x :: after)) = (before, Some after).
Proof.
  intros Hx. unfold cut_at, js_indexOf. cbv zeta. change (drop (Z.to_nat 0) ?l) with l.
  rewrite index_of_from_app by done. pose proof (len_nonneg before). destruct (Z.ltb_spec (0 + len before) 0); [lia|].
  f_equal; [|f_equal].
  - rewrite <- (app_nil_l (before ++ _)). change 0 with (len (@nil Z)) at 1. by rewrite subarray_app_mid.
  - replace (Z.to_nat _) with (length (before ++ [x])) by (rewrite length_app; unfold len; cbn; lia).
    change (x :: after) with ([x] ++ after). rewrite app_assoc. apply drop_app_length.
Qed.

Lemma cut_at_none x text : x ∉ text -> cut_at x text = (text, None).
Proof. intros Hx. unfold cut_at, js_indexOf. cbv zeta. by rewrite index_of_from_none. Qed.

Lemma cut_at_cases x text : (x ∉ text /\ cut_at x text = (text, None)) \/
  exists before after, text = before ++ (x :: after) /\ x ∉ before /\ cut_at x text = (before, Some after).
Proof.
  destruct (split_first x text) as (a & tail & -> & Ha & [[-> _]|(b & -> & _)]).
  - left. rewrite app_nil_r. split; [done|by apply cut_at_none].
  - right. exists a, b. split_and!; [done..|by apply cut_at_app].
Qed.

(** One round of the loop takes the piece up to the next semicolon. *)
Lemma attribute_loop_split fuel : forall d header cursor s, 0 <= cursor <= len header ->
  (Z.to_nat (len header - cursor) < fuel)%nat ->
  attribute_loop fuel d header cursor s = foldl (attribute_step d) s (js_split 59 (drop (Z.to_nat cursor) header)).
Proof.
  induction fuel as [|fuel IH]; intros d header cursor s Hc Hf; [lia|]. cbn [attribute_loop]. cbv zeta.
  destruct (Z.leb_spec cursor (len header)); [|lia]. unfold js_indexOf.
  destruct (split_first 59 (drop (Z.to_nat cursor) header)) as (a & tail & Heq & Ha & [[-> ->]|(b & -> & ->)]).
  - rewrite index_of_from_none by (by rewrite Heq, app_nil_r). cbn [Z.ltb Z.compare foldl]. rewrite Heq, app_nil_r.
    destruct fuel; [done|]. cbn [attribute_loop]. destruct (Z.leb_spec (len header + 1) (len header)); [lia|done].
  - rewrite Heq, index_of_from_app by (done || lia). pose proof (len_nonneg a) as Hna. pose proof (len_nonneg b).
    destruct (Z.ltb_spec (cursor + len a) 0); [lia|].
    assert (Hl : len header = cursor + len a + 1 + len b).
    { pose proof (len_drop header cursor Hc) as Hd. rewrite Heq, len_app, len_cons in Hd. lia. }
    assert (Hsub : subarray header cursor (cursor + len a) = a).
    { unfold subarray. rewrite Heq. replace (Z.to_nat (cursor + len a - cursor)) with (length a) by (unfold len; lia).
      apply take_app_length. }
    rewrite Hsub, IH by lia. cbn [foldl]. f_equal. f_equal.
    replace (Z.to_nat (cursor + len a + 1)) with (Z.to_nat cursor + length (a ++ [59%Z]))%nat
      by (rewrite length_app; unfold len in *; cbn; lia).
    rewrite <- drop_drop, Heq. change (59 :: b) with ([59] ++ b). rewrite app_assoc. apply drop_app_length.
Qed.

Lemma parse_pieces header d : parseCookieForRequest header d =
  if hasCTLExcludingTab header then None else cookie_of_pieces d (js_split 59 header).
Proof.
  unfold parseCookieForRequest. destruct (hasCTLExcludingTab header); [done|]. cbv zeta.
  unfold js_indexOf. change (drop (Z.to_nat 0) header) with header.
  destruct (split_first 59 header) as (a & tail & Heq & Ha & [[-> ->]|(b & -> & ->)]).
  - rewrite app_nil_r in Heq. subst a. rewrite index_of_from_none by done. cbn [Z.ltb Z.compare cookie_of_pieces].
    destruct (cut_at 61 header) as [before after]. destruct (4096 <? _); [done|].
    cbn [attribute_loop]. destruct (Z.leb_spec (len header + 1) (len header)); [lia|done].
  - pose proof (len_nonneg a). pose proof (len_nonneg b). assert (Hl : len header = len a + 1 + len b) by (rewrite Heq, len_app, len_cons; lia).
    assert (Hi : index_of_from 59 header 0 = 0 + len a) by (rewrite Heq; by apply index_of_from_app).
    rewrite !Hi. destruct (Z.ltb_spec (0 + len a) 0); [lia|].
    assert (Hsub : subarray header 0 (0 + len a) = a).
    { rewrite Heq. rewrite <- (app_nil_l (a ++ _)). change 0 with (len (@nil Z)). by rewrite subarray_app_mid. }
    rewrite Hsub. cbn [cookie_of_pieces]. destruct (cut_at 61 a) as [before after]. destruct (4096 <? _); [done|].
    rewrite attribute_loop_split by (unfold len in *; lia).
    replace (drop (Z.to_nat (0 + len a + 1)) header) with b; [done|].
    rewrite Heq. replace (Z.to_nat (0 + len a + 1)) with (length (a ++ [59])) by (rewrite length_app; unfold len; cbn; lia).
    change (59 :: b) with ([59] ++ b). by rewrite app_assoc, drop_app_length.
Qed.

(** ** Blanks around a piece *)

Lemma trim_blank_end p l b : Forall (fun c => p c = true) b -> trim p (l ++ b) = trim p l.
Proof.
  intros Hb. apply trim_spec. destruct (trim_is_trimmed p l) as (before & after & Hl & Hbf & Ha & Hh & Hla).
  exists before, (after ++ b). rewrite Hl at 1. rewrite <- !app_assoc. split_and!; try done. by apply Forall_app.
Qed.

Lemma trim_blank_start p l b : Forall (fun c => p c = true) b -> trim p (b ++ l) = trim p l.
Proof.
  intros Hb. apply trim_spec. destruct (trim_is_trimmed p l) as (before & after & Hl & Hbf & Ha & Hh & Hla).
  exists (b ++ before), after. rewrite Hl at 1. rewrite <- !app_assoc. split_and!; try done. by apply Forall_app.
Qed.

Lemma trim_id p l : (forall c, head l = Some c -> p c = false) -> (forall c, last l = Some c -> p c = false) -> trim p l = l.
Proof. intros Hh Hl. apply trim_spec. exists [], []. rewrite app_nil_r. by split_and!. Qed.

Lemma trim_solid p l : Forall (fun c => p c = false) l -> trim p l = l.
Proof.
  intros Hl. rewrite Forall_forall in Hl. apply trim_id; intros c Hc; apply Hl.
  - by apply head_Some_elem_of.
  - by apply last_Some_elem_of.
Qed.

Lemma blanks_no x b : blanks b -> isHTTPTabOrSpace x = false -> x ∉ b.
Proof. intros Hb Hx Hin. unfold blanks in Hb. rewrite Forall_forall in Hb. specialize (Hb x Hin). cbn in Hb. congruence. Qed.

Lemma js_split_end x s b : x ∉ b -> exists init piece,
  js_split x s = init ++ [piece] /\ js_split x (s ++ b) = init ++ [piece ++ b].
Proof.
  intros Hb. induction s as [|c s (init & piece & H1 & H2)]; cbn [js_split app].
  - exists [], []. split; [done|]. by apply js_split_one.
  - destruct (c =? x); [exists ([] :: init), piece; by rewrite H1, H2|].
    rewrite H1, H2. destruct init as [|q init]; [by exists [], (c :: piece)|by exists ((c :: q) :: init), piece].
Qed.

Lemma attribute_step_end d s piece b : blanks b -> attribute_step d s (piece ++ b) = attribute_step d s piece.
Proof.
  intros Hb. assert (H61 : 61 ∉ b) by by apply blanks_no. unfold attribute_step, trimHTTPTabOrSpace.
  destruct (cut_at_cases 61 piece) as [[Hp ->]|(before & after & -> & Hp & ->)].
  - rewrite cut_at_none by set_solver. by rewrite trim_blank_end by done.
  - rewrite <- app_assoc. cbn [app]. rewrite cut_at_app by done. cbn [default from_option id].
    by rewrite (trim_blank_end _ after) by done.
Qed.

Lemma cookie_of_pieces_end d init piece b : blanks b ->
  cookie_of_pieces d (init ++ [piece ++ b]) = cookie_of_pieces d (init ++ [piece]).
Proof.
  intros Hb. assert (H61 : 61 ∉ b) by by apply blanks_no. destruct init as [|q init]; cbn [app cookie_of_pieces].
  - unfold trimHTTPTabOrSpace. destruct (cut_at_cases 61 piece) as [[Hp ->]|(before & after & -> & Hp & ->)].
    + rewrite cut_at_none by set_solver. by rewrite !(trim_blank_end _ piece) by done.
    + rewrite <- app_assoc. cbn [app]. rewrite cut_at_app by done. by rewrite !(trim_blank_end _ after) by done.
  - destruct (cut_at 61 q) as [before after]. destruct (4096 <? _); [done|]. rewrite !foldl_app. cbn [foldl].
    by rewrite attribute_step_end.
Qed.

Lemma blank_no_control b : blanks b -> hasCTLExcludingTab b = false.
Proof.
  intros Hb. unfold hasCTLExcludingTab. apply not_true_is_false. intros (c & Hc & Hctl)%existsb_exists.
  unfold blanks in Hb. rewrite Forall_forall in Hb. specialize (Hb c ltac:(by apply list_elem_of_In)). cbn in Hb.
  unfold isHTTPTabOrSpace in Hb. apply orb_true_iff in Hb as [->%Z.eqb_eq| ->%Z.eqb_eq]; done.
Qed.

(** Blanks at the end of a field change nothing. *)
Lemma parse_blank_end d s b : blanks b -> parseCookieForRequest (s ++ b) d = parseCookieForRequest s d.
Proof.
  intros Hb. rewrite !parse_pieces. unfold hasCTLExcludingTab. rewrite existsb_app.
  change (existsb cookie_control b) with (hasCTLExcludingTab b). rewrite (blank_no_control b Hb), orb_false_r.
  destruct (existsb _ s); [done|]. destruct (js_split_end 59 s b) as (init & piece & -> & ->); [by apply blanks_no|].
  by apply cookie_of_pieces_end.
Qed.

(** ** Attributes *)

Lemma attribute_step_text d s a : attribute_ok a ->
  attribute_step d s (32 :: attribute_text a) =
  if 1024 <? len (trimHTTPTabOrSpace (default [] a.2)) then s else set_attribute d a.1 (trimHTTPTabOrSpace (default [] a.2)) s.
Proof.
  intros (Hk & H61 & Ht & Hv). destruct a as [k [v|]]; unfold attribute_text; cbn [fst snd default from_option id] in *; unfold attribute_step.
  - change (32 :: k ++ 61 :: v) with ((32 :: k) ++ 61 :: v). rewrite cut_at_app by set_solver. cbn [default from_option id].
    unfold trimHTTPTabOrSpace in *. change (32 :: k) with ([32] ++ k). rewrite trim_blank_start by by constructor. by rewrite Ht.
  - rewrite cut_at_none by set_solver. unfold trimHTTPTabOrSpace in *. change (32 :: k) with ([32] ++ k).
    rewrite trim_blank_start by by constructor. by rewrite Ht.
Qed.

Lemma split_join parts first : Forall (fun p => 59 ∉ p) (first :: parts) ->
  js_split 59 (js_join (u "; ") (first :: parts)) = first :: ((fun p => 32 :: p) <$> parts).
Proof.
  revert first. induction parts as [|q parts IH]; intros first H; apply Forall_cons in H as [Hf H].
  - by apply js_split_one.
  - change (js_join (u "; ") (first :: q :: parts)) with (first ++ 59 :: 32 :: js_join (u "; ") (q :: parts)).
    rewrite js_split_app by done. cbn [fmap list_fmap]. f_equal.
    specialize (IH q H). cbn [js_split]. rewrite IH. done.
Qed.

(** The controls and the semicolons are not in a field text. *)
Lemma field_text_no l : field_text l -> 59 ∉ l /\ hasCTLExcludingTab l = false.
Proof.
  intros Hl. unfold field_text in Hl. rewrite Forall_forall in Hl. split.
  - intros Hin. by destruct (Hl 59 Hin).
  - unfold hasCTLExcludingTab. apply not_true_is_false. intros (c & Hc & Hctl)%existsb_exists.
    destruct (Hl c) as [Hr _]; [by apply list_elem_of_In|]. unfold cookie_control, in_range in Hctl. lia.
Qed.

Lemma attribute_text_ok a : attribute_ok a -> field_text (attribute_text a).
Proof.
  intros (Hk & _ & _ & Hv). destruct a as [k [v|]]; unfold attribute_text; cbn in *; [|done].
  apply Forall_app. split; [done|]. constructor; [unfold field_unit; lia|done].
Qed.

(** ** What the writer checks *)

Lemma solid_field l : solid_text l -> field_text l.
Proof. intros H. eapply Forall_impl; [exact H|]. unfold solid_unit, field_unit. lia. Qed.

Lemma solid_trim l : solid_text l -> trimHTTPTabOrSpace l = l.
Proof.
  intros Hl. apply trim_solid. eapply Forall_impl; [exact Hl|]. unfold solid_unit, isHTTPTabOrSpace. cbv beta. intros c Hc. lia.
Qed.

Lemma existsb_Forall {A} (p : A -> bool) (P : A -> Prop) l : (forall c, p c = false -> P c) -> existsb p l = false -> Forall P l.
Proof.
  intros HP. induction l as [|c l IH]; intros H; [constructor|]. cbn in H. apply orb_false_iff in H as [Hc Hl].
  constructor; [by apply HP|by apply IH].
Qed.

Lemma good_name_unit c : bad_name_unit c = false -> solid_unit c /\ c <> 61.
Proof.
  unfold bad_name_unit, solid_unit. rewrite !orb_false_iff, !Z.ltb_ge, bool_decide_eq_false. intros [[H1 H2] H3].
  split; [split; [lia|]|]; intros ->; apply H3; by apply (bool_decide_unpack _).
Qed.

Lemma valid_name name x : validateCookieName name = Ok x -> solid_text name /\ 61 ∉ name.
Proof.
  intros H%throw_if_Ok. split.
  - eapply existsb_Forall; [|exact H]. intros c Hc. apply (good_name_unit c Hc).
  - assert (Hn : Forall (fun c => c <> 61) name) by (eapply existsb_Forall; [|exact H]; intros c Hc; apply (good_name_unit c Hc)).
    rewrite Forall_forall in Hn. intros Hin. by destruct (Hn 61 Hin).
Qed.

Lemma good_value_code c : bad_value_code c = false -> solid_unit c.
Proof. unfold bad_value_code, solid_unit. rewrite !orb_false_iff, !Z.ltb_ge, !Z.eqb_neq. lia. Qed.

Lemma unit_at_split l i c : unit_at l i c = true -> exists a b, l = a ++ c :: b /\ len a = i.
Proof.
  unfold unit_at. rewrite bool_decide_eq_true. intros H. pose proof (at_Some l i c H) as Hi.
  unfold at_ in H. destruct (i <? 0); [done|]. apply list_elem_of_split_length in H as (a & b & -> & Ha).
  exists a, b. split; [done|]. unfold len in *. lia.
Qed.

Lemma valid_value value x : validateCookieValue value = Ok x -> solid_text value.
Proof.
  unfold validateCookieValue. cbv zeta. destruct (unit_at value 0 34) eqn:Hq.
  - intros H. ok_inv H. apply orb_false_iff in Hc as [H1 H2]. apply negb_false_iff in H2. apply throw_if_Ok in H.
    apply unit_at_split in Hq as (a & b & -> & Ha). destruct a; [|unfold len in Ha; cbn in Ha; lia]. cbn [app] in *.
    apply unit_at_split in H2 as (a & e & Heq & Hla). rewrite len_cons in *. apply Z.eqb_neq in H1.
    destruct a as [|q a]; [rewrite len_nil in Hla; lia|]. cbn [app] in Heq. injection Heq as <- ->.
    rewrite len_app, !len_cons in *. pose proof (len_nonneg a). assert (e = []) as -> by (destruct e; [done|rewrite len_cons in *; pose proof (len_nonneg e); lia]).
    assert (Hs : subarray (34 :: a ++ [34]) 1 (1 + (len a + (0 + 1)) - 1) = a).
    { change (34 :: a ++ [34]) with ([34] ++ a ++ [34]). change 1 with (len [34]) at 1.
      replace (1 + (len a + (0 + 1)) - 1) with (len [34] + len a) by (unfold len; cbn; lia). apply subarray_app_mid. }
    assert (Ha' : existsb bad_value_code a = false).
    { rewrite <- Hs, <- H. f_equal. f_equal. unfold len. cbn. lia. }
    unfold solid_text. constructor; [unfold solid_unit; lia|]. apply Forall_app. split; [|constructor; [unfold solid_unit; lia|constructor]].
    eapply existsb_Forall; [apply good_value_code|done].
  - intros H%throw_if_Ok. eapply existsb_Forall; [apply good_value_code|exact H].
Qed.

Lemma valid_path path x : validateCookiePath path = Ok x -> field_text path.
Proof.
  intros H%throw_if_Ok. eapply existsb_Forall; [|exact H]. intros c. unfold bad_path_unit, field_unit.
  rewrite !orb_false_iff, !Z.ltb_ge, Z.eqb_neq. lia.
Qed.

Lemma domain_loop_ok rest : forall prev label r, domain_loop rest prev label = Ok r ->
  solid_text rest /\ (label = 0 -> starts_with 46 rest = false).
Proof.
  induction rest as [|c rest IH]; intros prev label r H; cbn [domain_loop] in H; [by split; [constructor|]|].
  destruct (Z.eqb_spec c 46) as [->|Hc46].
  - ok_inv H. apply orb_false_iff in Hc as [Hc _]. apply Z.eqb_neq in Hc. destruct (IH _ _ _ H) as [Hr _].
    split; [constructor; [unfold solid_unit; lia|done]|done].
  - ok_inv H. ok_inv H. destruct (IH _ _ _ H) as [Hr _]. split; [constructor; [|done]|].
    + apply orb_false_iff in Hc as [_ Hc]. unfold isLetterOrDigit, in_range, solid_unit in *. lia.
    + intros _. unfold starts_with. apply bool_decide_eq_false. cbn. congruence.
Qed.

Lemma valid_domain domain x : validateCookieDomain domain = Ok x ->
  solid_text domain /\ starts_with 46 domain = false /\ len domain <= 255.
Proof.
  unfold validateCookieDomain. intros H. ok_inv H. ok_inv H. destruct (domain_loop_ok _ _ _ _ Hx) as [Hs Hh].
  split_and!; [done|by apply Hh|]. lia.
Qed.

(** ** The text that is written *)

Lemma literal_ok k v : solid_text k -> 61 ∉ k -> field_text (default [] v) -> attribute_ok (k, v).
Proof. intros Hk H61 Hv. split_and!; cbn; [by apply solid_field|done|by apply solid_trim|done]. Qed.

Ltac literal := apply literal_ok; [by by_computing|by by_computing|].

Lemma appended_none output : appended [] output output.
Proof. split; [by rewrite app_nil_r|constructor]. Qed.

Lemma appended_one a output : attribute_ok a -> appended [a] output (output ++ [attribute_text a]).
Proof. intros Ha. split; [done|]. constructor; [done|constructor]. Qed.

Lemma appended_app l1 l2 o1 o2 o3 : appended l1 o1 o2 -> appended l2 o2 o3 -> appended (l1 ++ l2) o1 o3.
Proof. intros [-> H1] [-> H2]. split; [by rewrite fmap_app, app_assoc|by apply Forall_app]. Qed.

Lemma digits_field n : 0 <= n -> field_text (js_string_of n) /\ solid_text (js_string_of n).
Proof.
  intros Hn. unfold js_string_of. destruct (Z.ltb_spec n 0); [lia|]. destruct (digits_text_spec n Hn) as (_ & Hd & _).
  assert (Hs : solid_text (digits_text n)); [|by split; [apply solid_field|]].
  eapply Forall_impl; [exact Hd|]. unfold is_digit_unit, in_range, solid_unit. lia.
Qed.

Lemma maxAge_appended c o o' : output_maxAge c o = Ok o' -> (forall n, c_maxAge c = Some n -> 0 <= n) /\
  appended (match c_maxAge c with Some n => [(u "Max-Age", Some (js_string_of n))] | None => [] end) o o'.
Proof.
  unfold output_maxAge. destruct (c_maxAge c) as [n|]; [|intros [= <-]; split; [done|apply appended_none]].
  intros H. ok_inv H. injection H as <-. apply Z.ltb_ge in Hc. split; [by intros k [= <-]|].
  apply (appended_one (u "Max-Age", Some _)). literal. by apply digits_field.
Qed.

Lemma domain_appended d o o' : output_domain d o = Ok o' ->
  (forall e, nonempty_text d = Some e -> solid_text e /\ starts_with 46 e = false /\ len e <= 255) /\
  appended (match nonempty_text d with Some d => [(u "Domain", Some d)] | None => [] end) o o'.
Proof.
  unfold output_domain. destruct d as [[|c d]|]; cbn [nonempty_text]; [intros [= <-]; split; [done|apply appended_none]| |intros [= <-]; split; [done|apply appended_none]].
  intros H. ok_inv H. injection H as <-. apply valid_domain in Hx. split; [by intros e [= <-]|].
  apply (appended_one (u "Domain", Some _)). literal. by apply solid_field, Hx.
Qed.

Lemma path_appended p o o' : output_path p o = Ok o' ->
  appended (match nonempty_text p with Some p => [(u "Path", Some p)] | None => [] end) o o'.
Proof.
  unfold output_path. destruct p as [[|c p]|]; cbn [nonempty_text]; [intros [= <-]; apply appended_none| |intros [= <-]; apply appended_none].
  intros H. ok_inv H. injection H as <-. apply valid_path in Hx.
  apply (appended_one (u "Path", Some _)). by literal.
Qed.

Lemma two_digits_field v : 0 <= v < 100 -> field_text (twoDigits v) /\ len (twoDigits v) = 2.
Proof.
  intros Hv. rewrite two_digits by done. split; [|done].
  repeat constructor; unfold field_unit; div_lia.
Qed.

Lemma string_of_field n : field_text (js_string_of n).
Proof.
  destruct (Z.ltb_spec n 0) as [Hn|Hn]; [|by apply digits_field]. unfold js_string_of. rewrite (proj2 (Z.ltb_lt _ _) Hn).
  constructor; [unfold field_unit; lia|]. destruct (digits_field (- n)) as [Hf _]; [lia|].
  unfold js_string_of in Hf. by rewrite (proj2 (Z.ltb_ge _ _)) in Hf by lia.
Qed.

Lemma named_field (l : list jsstr) i w : forallb (fun w => bool_decide (field_text w) && (len w =? 3) &&
    negb (match head w with Some c => isHTTPTabOrSpace c | None => true end)) l = true -> at_ l i = Some w ->
  field_text w /\ len w = 3 /\ exists c, head w = Some c /\ isHTTPTabOrSpace c = false.
Proof.
  intros Hl Hw. unfold at_ in Hw. destruct (i <? 0); [done|]. apply list_elem_of_lookup_2 in Hw.
  rewrite forallb_forall in Hl. specialize (Hl w ltac:(by apply list_elem_of_In)).
  rewrite !andb_true_iff, bool_decide_eq_true, Z.eqb_eq in Hl. destruct Hl as [[Hf Hn] Hb]. split_and!; [done..|].
  destruct (head w) as [c|]; [|done]. exists c. by apply negb_true_iff in Hb.
Qed.

Lemma words_text_last w l : w <> [] -> last (words_text l w) = last w.
Proof.
  intros Hw. induction l as [|[v c] l IH]; [done|]. cbn [words_text]. rewrite last_app, last_cons.
  rewrite IH. destruct (last w) eqn:Hl; [done|]. by apply last_None in Hl.
Qed.

(** A written date is visible; with a year of four digits it is trimmed and
    has 29 characters. *)
Lemma imf_text t text : toIMFDate (Some t) = Ok text -> field_text text /\
  (1601 <= getUTCFullYear t <= 9999 -> len text = 29 /\ trimHTTPTabOrSpace text = text).
Proof.
  destruct (imf_words t) as (day & month & Hd & Hm & ->). match goal with |- context [words_text ?l ?w] =>
    pose proof (words_text_last w l ltac:(done)) as Hlast; set (written := words_text l w) in * end.
  intros Heq. injection Heq as <-. unfold written in *. clear written. cbn [words_text app] in *. destruct (instant_of_fields t) as ([Hmo Hda] & Hh & Hmi & Hs & _).
  pose proof (days_in_month_max (getUTCFullYear t) (getUTCMonth t) Hmo) as Hmax.
  destruct (named_field days _ _ eq_refl Hd) as (Fd & Ld & c & Hc & Hb).
  destruct (named_field months _ _ eq_refl Hm) as (Fm & Lm & _).
  destruct (two_digits_field (getUTCDate t)) as [F1 L1]; [lia|]. destruct (two_digits_field (getUTCHours t)) as [F2 L2]; [lia|].
  destruct (two_digits_field (getUTCMinutes t)) as [F3 L3]; [lia|]. destruct (two_digits_field (getUTCSeconds t)) as [F4 L4]; [lia|].
  pose proof (string_of_field (getUTCFullYear t)) as F5. split.
  - unfold field_text in *. repeat first [assumption|apply Forall_app; split|apply Forall_cons_2; [unfold field_unit; lia|]|apply Forall_nil_2|by_computing].
  - intros Hy. assert (L5 : len (js_string_of (getUTCFullYear t)) = 4).
    { destruct (four_digits (getUTCFullYear t)) as (? & ? & ? & ? & -> & _); [lia|done]. }
    split; [repeat first [rewrite len_app|rewrite len_cons]; change (len (u ":")) with 1; change (len (u "GMT")) with 3; lia|].
    apply trim_id; intros x Hx.
    + destruct day; [done|]. cbn in Hx, Hc. congruence.
    + rewrite Hlast in Hx. by injection Hx as <-.
Qed.

Lemma sameSite_appended s o : appended (match s with Some s => [(u "SameSite", Some (sameSite_text s))] | None => [] end) o
  (match s with Some s => o ++ [u "SameSite=" ++ sameSite_text s] | None => o end).
Proof.
  destruct s as [s|]; [|apply appended_none]. apply (appended_one (u "SameSite", Some _)). literal. destruct s; by by_computing.
Qed.

Lemma unparsed_appended l : forall o o', foldM output_unparsed o l = Ok o' ->
  Forall (fun part => exists v, (unparsed_attribute part).2 = Some v /\ solid_text v) l /\
  appended (unparsed_attribute <$> l) o o'.
Proof.
  induction l as [|part l IH]; intros o o' H; [injection H as <-; split; [constructor|apply appended_none]|].
  cbn [foldM] in H. ok_inv H. apply IH in H as [Hl Ha]. clear IH. unfold output_unparsed in Hx. ok_inv Hx.
  injection Hx as <-. unfold unparsed_text in Hx0. cbn [fmap list_fmap]. unfold unparsed_attribute at 2.
  destruct (cut_at 61 part) as [before [v|]] eqn:Hcut; [|done]. cbn [default from_option id] in *.
  ok_inv Hx0. ok_inv Hx0. injection Hx0 as <-. apply valid_name in Hx as [Hk H61]. apply valid_value in Hx1.
  split. { constructor; [|done]. exists v. unfold unparsed_attribute. by rewrite Hcut. }
  eapply (appended_app [_] _); [|exact Ha]. apply (appended_one (trimHTTPTabOrSpace before, Some v)).
  apply literal_ok; [done..|]. by apply solid_field.
Qed.

Lemma expires_appended c o o' : output_expires c o = Ok o' ->
  appended (match c_expires c with
   | Some (Some t) => match toIMFDate (Some t) with Ok text => [(u "Expires", Some text)] | Err _ => [] end
   | _ => [] end) o o'.
Proof.
  unfold output_expires. destruct (c_expires c) as [[t|]|]; [|intros [= <-]; apply appended_none..].
  intros H. ok_inv H. injection H as <-. rewrite Hx. apply (appended_one (u "Expires", Some _)). literal. apply (imf_text _ _ Hx).
Qed.

Lemma flag_appended (b : bool) k o : solid_text k -> 61 ∉ k ->
  appended (if b then [(k, None)] else []) o (if b then o ++ [k] else o).
Proof.
  intros Hk H61. destruct b; [|apply appended_none]. apply (appended_one (k, None)). by apply literal_ok; [..|constructor].
Qed.

Lemma serialize_text c text : serialize_converted c = Ok (Some text) ->
  text = js_join (u "; ") ((c_name c ++ 61 :: c_value c) :: (attribute_text <$> written_attributes c)) /\ written_ok c.
Proof.
  unfold serialize_converted. destruct (Z.eqb_spec (len (c_name c)) 0) as [|Hne]; [done|]. intros H.
  do 2 ok_inv H. do 5 ok_inv H. injection H as <-.
  apply valid_name in Hx as [Hn H61]. apply valid_value in Hx0.
  apply maxAge_appended in Hx1 as [Hage A3].
  apply domain_appended in Hx2 as [Hdom A4]. apply path_appended in Hx3. apply expires_appended in Hx4. apply unparsed_appended in Hx5 as [Hun A8].
  pose proof (flag_appended (written_secure c) (u "Secure") [c_name c ++ [61] ++ c_value c] ltac:(by_computing) ltac:(by_computing)) as A1.
  pose proof (flag_appended (bool_decide (c_httpOnly c = Some true)) (u "HttpOnly")
    (if written_secure c then [c_name c ++ [61] ++ c_value c] ++ [u "Secure"] else [c_name c ++ [61] ++ c_value c])
    ltac:(by_computing) ltac:(by_computing)) as A2.
  assert (Hall : appended (written_attributes c) [c_name c ++ 61 :: c_value c] x5).
  { unfold written_attributes.
    do 2 (eapply appended_app; [eassumption|]). eapply appended_app; [exact A3|].
    eapply appended_app; [exact A4|]. eapply appended_app; [exact Hx3|]. eapply appended_app; [exact Hx4|]. eapply appended_app; [apply sameSite_appended|exact A8]. }
  destruct Hall as [-> Hok]. split; [done|]. split_and!; try done.
  intros Hnil. by rewrite Hnil in Hne.
Qed.

(** A written number is read back. *)
Lemma maxAge_text_short n : 0 <= n -> n <= MAX_SAFE_INTEGER -> len (js_string_of n) <= 1024.
Proof.
  intros Hn Hm. unfold js_string_of. destruct (Z.ltb_spec n 0); [lia|]. pose proof (digits_text_short n Hn) as Hs.
  pose proof (Z.log2_le_mono n MAX_SAFE_INTEGER Hm) as Hl. change (Z.log2 MAX_SAFE_INTEGER) with 52 in Hl. lia.
Qed.

Lemma parse_written_maxAge n : 0 <= n -> n <= MAX_SAFE_INTEGER -> parseMaxAge (js_string_of n) = Some n.
Proof.
  intros Hn Hm. unfold js_string_of. destruct (Z.ltb_spec n 0); [lia|].
  destruct (digits_text_spec n Hn) as (Hne & Hd & Hv). unfold parseMaxAge.
  destruct (digits_text n) as [|c digits] eqn:Ht; [done|]. rewrite <- Ht in *.
  assert (Hc : (c =? 45) = false).
  { rewrite Ht in Hd. apply Forall_cons in Hd as [Hc _]. unfold is_digit_unit, in_range in Hc. lia. }
  rewrite Hc. assert (Hall : forallb isDigit (digits_text n) = true).
  { apply forallb_forall. intros x Hx. rewrite Forall_forall in Hd. by apply Hd, list_elem_of_In. }
  rewrite Hall, Hv, round_double_safe by lia. done.
Qed.

(** ** Reading the attributes back *)

(** Each attribute that is written sets its own field of a cookie without it. *)
Section Read.
Context (c : Cookie) (Hok : written_ok c) (Hr : readable c).
Context (n v : jsstr) (l : list jsstr) (b : bool).

Lemma read_secure : foldl (read_attribute (u "/")) (mk_cookie n v None None None None None None None None, l, b)
    (if written_secure c then [(u "Secure", None)] else []) =
  (mk_cookie n v None None None None (if written_secure c then Some true else None) None None None, l, b).
Proof. by destruct (written_secure c). Qed.

Lemma read_httpOnly s : foldl (read_attribute (u "/")) (mk_cookie n v None None None None s None None None, l, b)
    (if bool_decide (c_httpOnly c = Some true) then [(u "HttpOnly", None)] else []) =
  (mk_cookie n v None None None None s (if bool_decide (c_httpOnly c = Some true) then Some true else None) None None, l, b).
Proof. by destruct (bool_decide _). Qed.

Lemma read_maxAge s h : foldl (read_attribute (u "/")) (mk_cookie n v None None None None s h None None, l, b)
    (match c_maxAge c with Some n => [(u "Max-Age", Some (js_string_of n))] | None => [] end) =
  (mk_cookie n v None (c_maxAge c) None None s h None None, l, b).
Proof.
  destruct Hok as (_ & _ & _ & _ & Hage & _), Hr as (_ & Hmax & _).
  destruct (c_maxAge c) as [a|]; [|done]. specialize (Hage a eq_refl). specialize (Hmax a eq_refl).
  unfold read_attribute. cbn [foldl fst snd default from_option id].
  rewrite (solid_trim (js_string_of a)) by by apply digits_field.
  rewrite (proj2 (Z.ltb_ge _ _)) by (by apply maxAge_text_short).
  transitivity (match parseMaxAge (js_string_of a) with
    | Some maxAge => set_c_maxAge (Some maxAge) (mk_cookie n v None None None None s h None None)
    | None => mk_cookie n v None None None None s h None None end, l, b); [done|].
  by rewrite parse_written_maxAge.
Qed.

Lemma read_domain a s h : foldl (read_attribute (u "/")) (mk_cookie n v None a None None s h None None, l, b)
    (match written_domain c with Some d => [(u "Domain", Some d)] | None => [] end) =
  (mk_cookie n v None a (to_lower <$> written_domain c) None s h None None, l, b).
Proof.
  destruct Hok as (_ & _ & _ & _ & _ & Hdom & _). destruct (written_domain c) as [d|]; [|done].
  destruct (Hdom d eq_refl) as (Hs & Hdot & Hlen). unfold read_attribute. cbn [foldl fst snd default from_option id].
  rewrite (solid_trim d Hs), (proj2 (Z.ltb_ge _ _)) by lia.
  transitivity (set_c_domain (Some (to_lower (if starts_with 46 d then drop 1 d else d)))
    (mk_cookie n v None a None None s h None None), l, b); [done|]. by rewrite Hdot.
Qed.

Lemma read_path_attribute a d s h : exists b', foldl (read_attribute (u "/")) (mk_cookie n v None a d None s h None None, l, b)
    (match written_path c with Some p => [(u "Path", Some p)] | None => [] end) =
  (mk_cookie n v None a d (written_path c ≫= read_path) s h None None, l, b').
Proof.
  destruct (written_path c) as [p|]; [|by exists b]. unfold read_attribute, read_path. cbn [foldl fst snd default from_option id mbind option_bind].
  destruct (1024 <? len (trimHTTPTabOrSpace p)); by eexists.
Qed.

Lemma read_expires a d p s h : foldl (read_attribute (u "/")) (mk_cookie n v None a d p s h None None, l, b)
    (match c_expires c with
     | Some (Some t) => match toIMFDate (Some t) with Ok text => [(u "Expires", Some text)] | Err _ => [] end
     | _ => [] end) =
  (mk_cookie n v (match c_expires c with Some (Some t) => Some (Some (1000 * (t / 1000))) | _ => None end) a d p s h None None, l, b).
Proof.
  destruct Hr as (_ & _ & Hy & _). destruct (c_expires c) as [[t|]|]; [|done..]. specialize (Hy t eq_refl).
  destruct (date_text_read t Hy) as (text & Htext & Hp). destruct (imf_text t text Htext) as (_ & Ht). rewrite Htext.
  destruct (Ht Hy) as [Hl Htr]. unfold read_attribute. cbn [foldl fst snd default from_option id].
  rewrite Htr, (proj2 (Z.ltb_ge _ _)) by lia.
  transitivity (match parseCookieDate text with
    | Some e => set_c_expires (Some (Some e)) (mk_cookie n v None a d p s h None None)
    | None => mk_cookie n v None a d p s h None None end, l, b); [done|]. by rewrite Hp.
Qed.

Lemma read_sameSite e a d p s h : foldl (read_attribute (u "/")) (mk_cookie n v e a d p s h None None, l, b)
    (match c_sameSite c with Some s => [(u "SameSite", Some (sameSite_text s))] | None => [] end) =
  (mk_cookie n v e a d p s h (c_sameSite c) None, l, b).
Proof. by destruct (c_sameSite c) as [[]|]. Qed.

End Read.

Lemma set_unknown_attribute d k v r l b : to_lower k ∉ known_attributes ->
  set_attribute d k v (r, l, b) = (r, l ++ [k ++ 61 :: v], b).
Proof.
  intros Hk. unfold set_attribute. cbv zeta.
  assert (Hne : forall w, w ∈ known_attributes -> str_eqb (to_lower k) w = false).
  { intros w Hw. unfold str_eqb. apply bool_decide_eq_false. intros Heq. apply Hk. by rewrite Heq. }
  by rewrite !Hne by by_computing.
Qed.

Lemma read_unparsed d r b parts : Forall (fun part => exists v, (unparsed_attribute part).2 = Some v /\ solid_text v) parts ->
  Forall (fun part => to_lower (unparsed_attribute part).1 ∉ known_attributes /\
                      len (default [] (unparsed_attribute part).2) <= 1024) parts ->
  forall l, foldl (read_attribute d) (r, l, b) (unparsed_attribute <$> parts) =
    (r, l ++ (attribute_text ∘ unparsed_attribute <$> parts), b).
Proof.
  intros Hs Hk. induction parts as [|part parts IH]; intros l; [by rewrite app_nil_r|].
  apply Forall_cons in Hs as [(v & Hv & Hsv) Hs]. apply Forall_cons in Hk as [[Hk Hl] Hks].
  cbn [fmap list_fmap foldl compose]. unfold read_attribute at 2. rewrite Hv in *. cbn [default from_option id] in *.
  rewrite (solid_trim v Hsv), (proj2 (Z.ltb_ge _ _)) by lia. rewrite set_unknown_attribute by done.
  rewrite IH by done. rewrite <- app_assoc. unfold compose, attribute_text at 2. by rewrite Hv.
Qed.

(** The pieces that are written give the cookie that is read back. *)
Lemma read_attributes c : written_ok c -> readable c -> exists b,
  foldl (read_attribute (u "/")) (new_cookie (c_name c) (c_value c), [], false) (written_attributes c) =
  (set_c_unparsed None (read_back c), attribute_text ∘ unparsed_attribute <$> default [] (c_unparsed c), b).
Proof.
  intros Hok Hr. unfold written_attributes, new_cookie.
  rewrite foldl_app, read_secure, foldl_app, read_httpOnly, foldl_app, read_maxAge by done.
  rewrite foldl_app, read_domain, foldl_app by done.
  edestruct (read_path_attribute c (c_name c) (c_value c) [] false) as [b ->]. exists b.
  rewrite foldl_app, read_expires, foldl_app, read_sameSite by done.
  destruct Hok as (_ & _ & _ & _ & _ & _ & Hun & _), Hr as (_ & _ & _ & Hk). by rewrite read_unparsed.
Qed.

Lemma steps_attributes d attributes : Forall attribute_ok attributes -> forall s,
  foldl (attribute_step d) s ((fun p => 32 :: p) <$> (attribute_text <$> attributes)) = foldl (read_attribute d) s attributes.
Proof.
  induction attributes as [|a attributes IH]; intros H s; [done|]. apply Forall_cons in H as [Ha H].
  cbn [fmap list_fmap foldl]. rewrite attribute_step_text by done. by apply IH.
Qed.

Lemma join_no_control parts : Forall field_text parts -> hasCTLExcludingTab (js_join (u "; ") parts) = false.
Proof.
  unfold hasCTLExcludingTab. induction parts as [|p parts IH]; intros H; [done|]. apply Forall_cons in H as [Hp H].
  destruct (field_text_no p Hp) as [_ Hc]. unfold hasCTLExcludingTab in Hc. destruct parts as [|q parts]; [done|].
  change (js_join (u "; ") (p :: q :: parts)) with (p ++ u "; " ++ js_join (u "; ") (q :: parts)).
  rewrite !existsb_app, Hc, (IH H). done.
Qed.

Lemma written_pieces_ok c : written_ok c ->
  Forall field_text ((c_name c ++ 61 :: c_value c) :: (attribute_text <$> written_attributes c)).
Proof.
  intros (_ & Hn & _ & Hv & _ & _ & _ & Ha). constructor.
  - apply Forall_app. split; [by apply solid_field|]. constructor; [unfold field_unit; lia|by apply solid_field].
  - apply Forall_fmap. eapply Forall_impl; [exact Ha|]. intros a Hok. by apply attribute_text_ok.
Qed.

Lemma parse_written c text : serialize_converted c = Ok (Some text) -> readable c -> parseCookie text = Some (read_back c).
Proof.
  intros Hs Hr. apply serialize_text in Hs as [-> Hok]. unfold parseCookie. rewrite parse_pieces.
  pose proof (written_pieces_ok c Hok) as Hp. rewrite join_no_control by done.
  rewrite split_join by (eapply Forall_impl; [exact Hp|]; intros p; apply field_text_no).
  destruct (read_attributes c Hok Hr) as [b Hread]. destruct Hok as (_ & Hn & H61 & Hv & _ & _ & _ & Ha).
  cbn [cookie_of_pieces]. rewrite cut_at_app by done. rewrite !solid_trim by done.
  destruct Hr as [Hlen _]. rewrite (proj2 (Z.ltb_ge _ _)) by done. rewrite steps_attributes, Hread by done.
  cbn [fmap option_fmap option_map pc_cookie]. unfold read_back.
  by destruct (default [] (c_unparsed c)) as [|part parts].
Qed.

(** A header list keeps the field, without the blanks at its end. *)
Lemma kept_field c text v : serialize_converted c = Ok (Some text) -> normalizeConvertedValue text = Ok v ->
  exists b, blanks b /\ text = v ++ b.
Proof.
  intros Hs Hv. apply serialize_text in Hs as [-> Hok]. unfold normalizeConvertedValue in Hv. ok_inv Hv. injection Hv as <-.
  clear Hc. pose proof (written_pieces_ok c Hok) as Hp. destruct Hok as (Hne & Hn & _).
  set (text := js_join _ _). assert (Ht : Forall (fun c => 32 <= c <= 126) text).
  { unfold text. generalize dependent (attribute_text <$> written_attributes c). intros l Hp.
    revert Hp. generalize (c_name c ++ 61 :: c_value c). induction l as [|q l IH]; intros p Hp;
      apply Forall_cons in Hp as [Hp Hl]; (assert (Hp' : Forall (fun c => 32 <= c <= 126) p) by (eapply Forall_impl; [exact Hp|]; unfold field_unit; tauto)); [done|].
    change (js_join (u "; ") (p :: q :: l)) with (p ++ u "; " ++ js_join (u "; ") (q :: l)).
    rewrite !Forall_app. split_and!; [done|by by_computing|by apply IH]. }
  destruct (trim_is_trimmed isHTTPWhitespace text) as (before & after & Heq & Hb & Ha & _).
  assert (Hbefore : before = []).
  { destruct before as [|x before]; [done|exfalso]. apply Forall_cons in Hb as [Hx _].
    assert (Hh : head text = head (c_name c)).
    { unfold text. destruct (c_name c) as [|y name]; [done|]. by destruct (attribute_text <$> written_attributes c). }
    rewrite Heq in Hh. cbn in Hh. destruct (c_name c) as [|y name]; [done|]. injection Hh as <-.
    apply Forall_cons in Hn as [Hs _]. unfold solid_unit, isHTTPWhitespace in *. lia. }
  subst before. exists after. split; [|done]. rewrite Heq in Ht. cbn [app] in Ht. apply Forall_app in Ht as [_ Ht].
  unfold blanks. rewrite Forall_forall in *. intros x Hx. specialize (Ht x Hx). specialize (Ha x Hx). cbv beta in *.
  unfold isHTTPWhitespace in Ha. unfold isHTTPTabOrSpace. lia.
Qed.


