(* ===== verification/CookieJar.v ===== *)
(** * The cookie jar ([cookies/jar.ts])

    Storage and retrieval of cookies after RFC 6265bis, over a store that keeps
    the persistent ones.  The URL parser, the public suffixes and the clock are
    code outside of the repository, so they are parameters; the store is an
    interface, which [MemoryCookieJarStore] implements.  A clock gives a whole
    number of milliseconds, or [None] for a number that is not finite; an
    operation that reads the clock takes its readings as arguments. *)

From stdpp Require Import sorting.
From S2P Require Import Prelude Ascii Numbers Effects FetchHeaders CookieDate Cookies.
Local Open Scope Z_scope.
Local Open Scope turn_scope.

(** ** Data *)

Definition maximumPersistentAgeSeconds : Z := 400 * 24 * 60 * 60.

Inductive StoredSameSite := SiteOf (s : CookieSameSite) | DefaultSite.
#[export] Instance StoredSameSite_eq_dec : EqDecision StoredSameSite.
Proof. solve_decision. Defined.

Inductive CookieAccessType := HttpAccess | NonHttpAccess.
#[export] Instance CookieAccessType_eq_dec : EqDecision CookieAccessType.
Proof. solve_decision. Defined.

Inductive CookieSameSiteStatus := SameSite | CrossSite.
#[export] Instance CookieSameSiteStatus_eq_dec : EqDecision CookieSameSiteStatus.
Proof. solve_decision. Defined.

(** The context of a request as a caller gives it; the types are texts until
    [readContext] has read them. *)
Record CookieAccessContext := mk_access {
  a_type : option jsstr;
  a_sameSite : option jsstr;
  a_topLevelNavigation : option bool;
  a_method : option jsstr;
}.

Record RequiredContext := mk_context {
  x_type : CookieAccessType;
  x_sameSite : CookieSameSiteStatus;
  x_topLevelNavigation : bool;
  x_method : jsstr;
}.

Record StoredCookie := mk_stored {
  k_name : jsstr;
  k_value : jsstr;
  k_expiryTime : option Z;
  k_domain : jsstr;
  k_path : jsstr;
  k_creationTime : Z;
  k_lastAccessTime : Z;
  k_creationIndex : Z;
  k_persistent : bool;
  k_hostOnly : bool;
  k_secure : bool;
  k_httpOnly : bool;
  k_sameSite : StoredSameSite;
}.
#[export] Instance StoredCookie_eq_dec : EqDecision StoredCookie.
Proof. solve_decision. Defined.

Ltac update_stored p v r :=
  exact_update (fun r : StoredCookie => mk_stored (k_name r) (k_value r) (k_expiryTime r) (k_domain r) (k_path r)
    (k_creationTime r) (k_lastAccessTime r) (k_creationIndex r) (k_persistent r) (k_hostOnly r) (k_secure r)
    (k_httpOnly r) (k_sameSite r)) p v r.

Definition set_k_expiryTime (v : option Z) (r : StoredCookie) : StoredCookie := ltac:(update_stored k_expiryTime v r).
Definition set_k_lastAccessTime (v : Z) (r : StoredCookie) : StoredCookie := ltac:(update_stored k_lastAccessTime v r).
Definition set_k_creationTime (v : Z) (r : StoredCookie) : StoredCookie := ltac:(update_stored k_creationTime v r).
Definition set_k_creationIndex (v : Z) (r : StoredCookie) : StoredCookie := ltac:(update_stored k_creationIndex v r).

(** [URLRecord], without [href], [host] and [origin], which the jar does not read. *)
Record URLRecord := mk_url {
  url_protocol : jsstr;
  url_hostname : jsstr;
  url_port : jsstr;
  url_pathname : jsstr;
  url_search : jsstr;
  url_hash : jsstr;
  url_username : jsstr;
  url_password : jsstr;
}.

(** ** The store *)

(** [CookieJarStore]: its three calls, by the state they leave.  A store without
    [close] has one that does nothing. *)
Class CookieStore (S : Type) := {
  loadAll : S -> result (list StoredCookie);
  saveAll : S -> list StoredCookie -> S * result unit;
  closeStore : S -> S * result unit;
}.

(** "Durable implementations atomically replace the previous snapshot or reject." *)
Class CookieStoreLaws (S : Type) `{CookieStore S} := {
  save_replaces s l s' : saveAll s l = (s', Ok tt) -> loadAll s' = Ok l;
  save_rejects s l s' e : saveAll s l = (s', Err e) -> loadAll s' = loadAll s;
}.

(** [cloneCookie] copies every field, so that the copy is the same value. *)
Definition cloneCookie (cookie : StoredCookie) : StoredCookie :=
  mk_stored (k_name cookie) (k_value cookie) (k_expiryTime cookie) (k_domain cookie) (k_path cookie)
    (k_creationTime cookie) (k_lastAccessTime cookie) (k_creationIndex cookie) (k_persistent cookie)
    (k_hostOnly cookie) (k_secure cookie) (k_httpOnly cookie) (k_sameSite cookie).

(** [MemoryCookieJarStore]: its field [cookies]. *)
Definition MemoryCookieJarStore : Type := list StoredCookie.

#[export] Instance memory_store : CookieStore MemoryCookieJarStore := {
  loadAll cookies := Ok (cloneCookie <$> cookies);
  saveAll _ cookies := (cloneCookie <$> cookies, Ok tt);
  closeStore cookies := (cookies, Ok tt);
}.

(** ** Policy *)

Definition validateLimit (value : Z) (name : string) : result Z :=
  if negb (isSafeInteger value) || (value <? 1) then Err (RangeError ("Invalid " ++ name)) else Ok value.

(** The types hold by construction: a number of a stored cookie is finite. *)
Definition validStoredCookieShape (cookie : StoredCookie) : bool :=
  (0 <? len (k_domain cookie)) &&
  starts_with 47 (k_path cookie) &&
  isSafeInteger (k_creationIndex cookie) &&
  (0 <=? k_creationIndex cookie) &&
  (k_creationIndex cookie <? MAX_SAFE_INTEGER) &&
  Bool.eqb (k_persistent cookie) (match k_expiryTime cookie with None => false | Some _ => true end).

Definition hasNonOctet (value : jsstr) : bool := existsb (fun c => 255 <? c) value.

Definition hasForbiddenCookieControl (value : jsstr) : bool := existsb cookie_control value.

(** [pathname.lastIndexOf(x)] *)
Definition last_index_of (x : Z) (l : jsstr) : Z :=
  let i := index_of_from x (reverse l) 0 in if i <? 0 then -1 else len l - 1 - i.

Definition defaultPath (pathname : jsstr) : jsstr :=
  if (len pathname =? 0) || negb (starts_with 47 pathname) then u "/"
  else
    let lastSlash := last_index_of 47 pathname in
    if lastSlash <=? 0 then u "/" else subarray pathname 0 lastSlash.

Definition isIPv4 (host : jsstr) : bool :=
  if len host =? 0 then false
  else forallb (fun code => negb (negb (code =? 46) && ((code <? 48) || (57 <? code)))) host.

Definition isIPAddress (host : jsstr) : bool := bool_decide (58 ∈ host) || isIPv4 host.

(** [text.endsWith(suffix)] *)
Definition has_suffix (suffix text : jsstr) : bool := has_prefix (reverse suffix) (reverse text).

Definition domainMatches (host domain : jsstr) : bool :=
  if str_eqb host domain then true else negb (isIPAddress host) && has_suffix (46 :: domain) host.

Definition pathMatches (requestPath cookiePath : jsstr) : bool :=
  if str_eqb requestPath cookiePath then true
  else if negb (has_prefix cookiePath requestPath) then false
  else ends_with 47 cookiePath || unit_at requestPath (len cookiePath) 47.

(** [method.toUpperCase()] of Latin-1; "ÿ" and "µ" leave it. *)
Definition upper_unit (c : Z) : list Z :=
  if in_range 97 122 c then [c - 32]
  else if c =? 223 then [83; 83]
  else if c =? 181 then [924]
  else if c =? 255 then [376]
  else if in_range 224 254 c && negb (c =? 247) then [c - 32]
  else [c].

Definition isSafeMethod (method : jsstr) : bool :=
  let upper := method ≫= upper_unit in
  str_eqb upper (u "GET") || str_eqb upper (u "HEAD") || str_eqb upper (u "OPTIONS") || str_eqb upper (u "TRACE").

Definition isSecureURL (url : URLRecord) : bool :=
  str_eqb (url_protocol url) (u "https:") || str_eqb (url_protocol url) (u "wss:").

Definition sameCookieKey (left right : StoredCookie) : bool :=
  str_eqb (k_name left) (k_name right) && str_eqb (k_domain left) (k_domain right) &&
  Bool.eqb (k_hostOnly left) (k_hostOnly right) && str_eqb (k_path left) (k_path right).

Definition compareAccess (left right : StoredCookie) : Z :=
  if negb (k_lastAccessTime left =? k_lastAccessTime right) then k_lastAccessTime left - k_lastAccessTime right
  else k_creationIndex left - k_creationIndex right.

Definition compareForHeader (left right : StoredCookie) : Z :=
  if negb (len (k_path left) =? len (k_path right)) then len (k_path right) - len (k_path left)
  else if negb (k_creationTime left =? k_creationTime right) then k_creationTime left - k_creationTime right
  else k_creationIndex left - k_creationIndex right.

Definition compareText (left right : jsstr) : Z :=
  if str_ltb left right then -1 else if str_ltb right left then 1 else 0.

Definition compareCookieKey (left right : StoredCookie) : Z :=
  let domain := compareText (k_domain left) (k_domain right) in
  if negb (domain =? 0) then domain
  else
    let path := compareText (k_path left) (k_path right) in
    if negb (path =? 0) then path
    else
      let name := compareText (k_name left) (k_name right) in
      if negb (name =? 0) then name
      else Z.b2z (k_hostOnly left) - Z.b2z (k_hostOnly right).

(** An [EvictionCandidate] is an object: its place among the candidates stands for
    it, and the places that are collected for the flag [remove]. *)
Definition EvictionCandidate : Type := nat * StoredCookie.

Definition compareDomainEviction (left right : EvictionCandidate) : Z :=
  let domain := compareText (k_domain left.2) (k_domain right.2) in
  if negb (domain =? 0) then domain
  else if negb (Bool.eqb (k_secure left.2) (k_secure right.2)) then (if k_secure left.2 then 1 else -1)
  else compareAccess left.2 right.2.

Definition compareGlobalEviction (left right : EvictionCandidate) : Z := compareAccess left.2 right.2.

(** [array.sort(compare)], which is stable. *)
Definition sorted_by {A} (compare : A -> A -> Z) (a b : A) : Prop := compare a b <= 0.
#[export] Instance sorted_by_dec {A} (compare : A -> A -> Z) : RelDecision (sorted_by compare).
Proof. intros a b. unfold sorted_by. apply _. Defined.
Definition js_sort {A} (compare : A -> A -> Z) (l : list A) : list A := merge_sort (sorted_by compare) l.

Definition receiptAllowed (sameSite : StoredSameSite) (context : RequiredContext) : bool :=
  if bool_decide (sameSite = SiteOf NoneSite) || bool_decide (x_sameSite context = SameSite) then true
  else bool_decide (x_type context = HttpAccess) && x_topLevelNavigation context.

Definition retrievalAllowed (sameSite : StoredSameSite) (context : RequiredContext) : bool :=
  if bool_decide (sameSite = SiteOf NoneSite) || bool_decide (x_sameSite context = SameSite) then true
  else bool_decide (x_type context = HttpAccess) && x_topLevelNavigation context &&
       (bool_decide (sameSite = SiteOf Lax) || bool_decide (sameSite = DefaultSite)) &&
       isSafeMethod (x_method context).

Definition readContext (context : CookieAccessContext) : result RequiredContext :=
  let type := default (u "http") (a_type context) in
  let sameSite := default (u "same-site") (a_sameSite context) in
  if negb (str_eqb type (u "http")) && negb (str_eqb type (u "non-http")) then Err (TypeError "Invalid cookie access type")
  else if negb (str_eqb sameSite (u "same-site")) && negb (str_eqb sameSite (u "cross-site"))
  then Err (TypeError "Invalid cookie same-site status")
  else Ok (mk_context (if str_eqb type (u "http") then HttpAccess else NonHttpAccess)
             (if str_eqb sameSite (u "same-site") then SameSite else CrossSite)
             (default false (a_topLevelNavigation context)) (default (u "GET") (a_method context))).

Definition persistentCookies (cookies : list StoredCookie) : list StoredCookie :=
  cloneCookie <$> filter (fun cookie => k_persistent cookie = true) cookies.

(** ** The jar *)

(** The options of a jar, with the code that it is given. *)
Record CookieJarOptions := mk_jar_options {
  o_urls : jsstr -> result URLRecord;
  o_publicSuffixes : option (jsstr -> bool);
  o_isSecure : option (URLRecord -> bool);
  o_maxCookiesPerDomain : option Z;
  o_maxCookies : option Z;
  o_maxPersistentAgeSeconds : option Z;
}.

Record JarConfig := mk_config {
  urls_parse : jsstr -> result URLRecord;
  publicSuffixes : option (jsstr -> bool);
  secureURL : URLRecord -> bool;
  maxCookiesPerDomain : Z;
  maxCookies : Z;
  maxAgeSeconds : Z;
}.

(** The constructor's checks. *)
Definition jar_config (options : CookieJarOptions) : result JarConfig :=
  (perDomain ← validateLimit (default 50 (o_maxCookiesPerDomain options)) "per-domain cookie limit";
   total ← validateLimit (default 3000 (o_maxCookies options)) "cookie limit";
   age ← validateLimit (default maximumPersistentAgeSeconds (o_maxPersistentAgeSeconds options)) "persistent cookie age";
   throw_if (maximumPersistentAgeSeconds <? age) (RangeError "Persistent cookie age cannot exceed 400 days") ;;
   Ok (mk_config (o_urls options) (o_publicSuffixes options) (default isSecureURL (o_isSecure options)) perDomain total age))%stdpp.

Record CookieJar (S : Type) := mk_jar {
  j_store : S;
  j_cookies : list StoredCookie;
  j_loaded : bool;
  j_closed : bool;
  j_nextCreationIndex : Z;
}.
Arguments mk_jar {S} j_store j_cookies j_loaded j_closed j_nextCreationIndex.
Arguments j_store {S} c.
Arguments j_cookies {S} c.
Arguments j_loaded {S} c.
Arguments j_closed {S} c.
Arguments j_nextCreationIndex {S} c.

Definition new_jar {S} (store : S) : CookieJar S := mk_jar store [] false false 0.

Definition set_j_store {S} (v : S) (j : CookieJar S) : CookieJar S :=
  mk_jar v (j_cookies j) (j_loaded j) (j_closed j) (j_nextCreationIndex j).
Definition set_j_cookies {S} (v : list StoredCookie) (j : CookieJar S) : CookieJar S :=
  mk_jar (j_store j) v (j_loaded j) (j_closed j) (j_nextCreationIndex j).
Definition set_j_loaded {S} (v : bool) (j : CookieJar S) : CookieJar S :=
  mk_jar (j_store j) (j_cookies j) v (j_closed j) (j_nextCreationIndex j).
Definition set_j_closed {S} (v : bool) (j : CookieJar S) : CookieJar S :=
  mk_jar (j_store j) (j_cookies j) (j_loaded j) v (j_nextCreationIndex j).
Definition set_j_nextCreationIndex {S} (v : Z) (j : CookieJar S) : CookieJar S :=
  mk_jar (j_store j) (j_cookies j) (j_loaded j) (j_closed j) v.

(** The array that is left of one by [removeExpired], and whether it changed. *)
Definition live (now : Z) (cookie : StoredCookie) : bool :=
  match k_expiryTime cookie with None => true | Some t => now <? t end.

Definition removeExpired (cookies : list StoredCookie) (now : Z) : list StoredCookie * bool :=
  let kept := filter (fun cookie => live now cookie = true) cookies in
  (kept, negb (len kept =? len cookies)).

(** [candidates.filter((candidate) => !candidate.remove)] *)
Definition unmarked (marked : list nat) (l : list EvictionCandidate) : list EvictionCandidate :=
  filter (fun c => c.1 ∉ marked) l.

(** [while (end < array.length && p(array[end])) end++] *)
Fixpoint run_length {A} (p : A -> bool) (l : list A) : Z :=
  match l with
  | x :: l => if p x then 1 + run_length p l else 0
  | [] => 0
  end.

Section Jar.
Context (cfg : JarConfig).

(** [parseURL] of a text or of a record. *)
Definition parseURL (input : jsstr + URLRecord) : result URLRecord :=
  (url ← match input with inl text => urls_parse cfg text | inr url => Ok url end;
   throw_if (len (url_hostname url) =? 0) (TypeError "Cookie URL must have a host") ;;
   Ok url)%stdpp.

Definition canonicalDomain (input : jsstr) : option jsstr :=
  if len input =? 0 then Some []
  else if existsb (fun c => 127 <? c) input then None
  else
    match urls_parse cfg (u "http://" ++ input ++ u "/") with
    | Err _ => None
    | Ok parsed =>
        if negb (str_eqb (url_protocol parsed) (u "http:")) || negb (str_eqb (url_username parsed) []) ||
           negb (str_eqb (url_password parsed) []) || negb (str_eqb (url_port parsed) []) ||
           negb (str_eqb (url_pathname parsed) (u "/")) || negb (str_eqb (url_search parsed) []) ||
           negb (str_eqb (url_hash parsed) []) || (len (url_hostname parsed) =? 0)
        then None else Some (to_lower (url_hostname parsed))
    end.

(** The loop of [evict] over the candidates sorted by domain: the places that are
    marked.  A round takes the candidates of the first one's domain. *)
Fixpoint mark_domains (fuel : nat) (byDomain : list EvictionCandidate) : list nat :=
  match fuel, byDomain with
  | S fuel, first :: rest =>
      let same (c : EvictionCandidate) := str_eqb (k_domain c.2) (k_domain first.2) in
      let end_ := 1 + run_length same rest in
      let excess := end_ - maxCookiesPerDomain cfg in
      (take (Z.to_nat excess) byDomain).*1 ++ mark_domains fuel (drop (Z.to_nat end_) byDomain)
  | _, _ => []
  end.

Definition evict (cookies : list StoredCookie) : list StoredCookie :=
  let candidates : list EvictionCandidate := imap pair cookies in
  let byDomain := js_sort compareDomainEviction candidates in
  let marked := mark_domains (length byDomain) byDomain in
  let globalExcess := len candidates - len marked - maxCookies cfg in
  let marked :=
    if 0 <? globalExcess then
      let remaining := js_sort compareGlobalEviction (unmarked marked candidates) in
      marked ++ (take (Z.to_nat globalExcess) remaining).*1
    else marked in
  (unmarked marked candidates).*2.

(** The checks of [ensureLoaded] on one cookie. *)
Definition refused_when_loaded (cookie : StoredCookie) : bool :=
  (4096 <? len (k_name cookie) + len (k_value cookie)) ||
  ((len (k_name cookie) =? 0) && (len (k_value cookie) =? 0)) ||
  hasForbiddenCookieControl (k_name cookie) ||
  hasForbiddenCookieControl (k_value cookie) ||
  hasForbiddenCookieControl (k_path cookie) ||
  bool_decide (59 ∈ k_path cookie) ||
  hasNonOctet (k_name cookie) ||
  hasNonOctet (k_value cookie) ||
  hasNonOctet (k_path cookie) ||
  negb (bool_decide (canonicalDomain (k_domain cookie) = Some (k_domain cookie))) ||
  (bool_decide (k_sameSite cookie = SiteOf NoneSite) && negb (k_secure cookie)) ||
  (has_prefix (u "__secure-") (to_lower (k_name cookie)) && negb (k_secure cookie)) ||
  (has_prefix (u "__host-") (to_lower (k_name cookie)) &&
   (negb (k_secure cookie) || negb (k_hostOnly cookie) || negb (str_eqb (k_path cookie) (u "/")))) ||
  ((len (k_name cookie) =? 0) &&
   (has_prefix (u "__secure-") (to_lower (k_value cookie)) || has_prefix (u "__host-") (to_lower (k_value cookie)))).

Definition load_step (s : list StoredCookie * Z) (candidate : StoredCookie) : result (list StoredCookie * Z) :=
  (let '(cookies, nextIndex) := s in
   throw_if (negb (validStoredCookieShape candidate) || negb (k_persistent candidate))
     (TypeError "Cookie store returned an invalid persistent cookie") ;;
   let cookie := cloneCookie candidate in
   throw_if (refused_when_loaded cookie) (TypeError "Cookie store returned an invalid persistent cookie") ;;
   Ok (cookies ++ [cookie], Z.max nextIndex (k_creationIndex cookie + 1)))%stdpp.

Definition compareCreation (left right : StoredCookie) : Z := k_creationIndex left - k_creationIndex right.

(** The loop over neighbours in the two sorted arrays. *)
Fixpoint neighbours_loop (byKey byCreation : list StoredCookie) : result unit :=
  match byKey, byCreation with
  | leftKey :: byKey, leftCreation :: byCreation =>
      match byKey, byCreation with
      | rightKey :: _, rightCreation :: _ =>
          (throw_if (sameCookieKey leftKey rightKey) (TypeError "Cookie store returned duplicate cookie keys") ;;
           throw_if (k_creationIndex leftCreation =? k_creationIndex rightCreation)
             (TypeError "Cookie store returned duplicate creation indexes") ;;
           neighbours_loop byKey byCreation)%stdpp
      | _, _ => Ok tt
      end
  | _, _ => Ok tt
  end.

Definition check_duplicates (cookies : list StoredCookie) : result unit :=
  neighbours_loop (js_sort compareCookieKey cookies) (js_sort compareCreation cookies).

(** A cookie whose expiry is later than the clock allows. *)
Definition expires_late (maximumExpiry : Z) (cookie : StoredCookie) : bool :=
  match k_expiryTime cookie with None => false | Some t => maximumExpiry <? t end.

Definition clamp_expiry (maximumExpiry : Z) (cookie : StoredCookie) : StoredCookie :=
  if expires_late maximumExpiry cookie then set_k_expiryTime (Some maximumExpiry) cookie else cookie.

Context {S : Type} `{CookieStore S}.

(** [await this.store.saveAll(persistentCookies(cookies))] *)
Definition save_persistent (cookies : list StoredCookie) : Eff (CookieJar S) unit := fun jar =>
  let '(store, r) := saveAll (j_store jar) (persistentCookies cookies) in (set_j_store store jar, r).

Definition read_clock (now : option Z) : Eff (CookieJar S) Z :=
  match now with
  | Some now => eff_ret now
  | None => eff_throw (TypeError "Cookie clock returned a non-finite time")
  end.

Definition ensureLoaded (clock : option Z) : Eff (CookieJar S) unit :=
  loaded ← eff_get j_loaded;
  if loaded then eff_ret tt
  else
    store ← eff_get j_store;
    loaded ← eff_lift (loadAll store);
    r ← eff_lift (foldM load_step ([], 0) loaded);
    let '(cookies, nextIndex) := r in
    eff_lift (check_duplicates cookies) ;;
    now ← read_clock clock;
    let maximumExpiry := now + maxAgeSeconds cfg * 1000 in
    let normalized := existsb (expires_late maximumExpiry) cookies in
    let cookies := clamp_expiry maximumExpiry <$> cookies in
    let priorLength := len cookies in
    let '(cookies, _) := removeExpired cookies now in
    let cookies := evict cookies in
    eff_when (normalized || negb (len cookies =? priorLength)) (save_persistent cookies) ;;
    eff_set (fun jar => set_j_loaded true (set_j_nextCreationIndex nextIndex (set_j_cookies cookies jar))).

Definition save (cookies : list StoredCookie) : Eff (CookieJar S) unit :=
  save_persistent cookies ;; eff_set (set_j_cookies cookies).

(** The start of every operation but [close]. *)
Definition open_jar (clock : option Z) : Eff (CookieJar S) unit :=
  closed ← eff_get j_closed;
  (if closed then eff_throw (TypeError "CookieJar is closed") else eff_ret tt) ;;
  ensureLoaded clock.

(** The domain of a cookie from its attribute: [None] refuses the cookie, and the
    flag says that the cookie is for its host only. *)
Definition cookie_domain (requestHost : jsstr) (domain : option jsstr) : option (jsstr * bool) :=
  match canonicalDomain (default [] domain) with
  | None => None
  | Some domainAttribute =>
      let public := (0 <? len domainAttribute) &&
        match publicSuffixes cfg with None => false | Some isPublicSuffix => isPublicSuffix domainAttribute end in
      if public && negb (str_eqb domainAttribute requestHost) then None
      else
        let domainAttribute := if public then [] else domainAttribute in
        let hostOnly := len domainAttribute =? 0 in
        let domain := if hostOnly then requestHost else domainAttribute in
        if negb hostOnly && negb (domainMatches requestHost domain) then None else Some (domain, hostOnly)
  end.

(** The rules of the names that start with a prefix, and of nameless cookies. *)
Definition prefix_refused (cookie : Cookie) (pathAttributePresent hostOnly secure : bool) (path : jsstr) : bool :=
  let lowerName := to_lower (c_name cookie) in
  let lowerValue := to_lower (c_value cookie) in
  (has_prefix (u "__secure-") lowerName && negb secure) ||
  (has_prefix (u "__host-") lowerName &&
   (negb secure || negb hostOnly || negb pathAttributePresent || negb (str_eqb path (u "/")))) ||
  ((len (c_name cookie) =? 0) && (has_prefix (u "__secure-") lowerValue || has_prefix (u "__host-") lowerValue)).

(** A cookie from an insecure URL may not overlay a secure one. *)
Definition overlays (name domain path : jsstr) (existing : StoredCookie) : bool :=
  k_secure existing && str_eqb (k_name existing) name &&
  (domainMatches (k_domain existing) domain || domainMatches domain (k_domain existing)) &&
  pathMatches path (k_path existing).

(** The expiry of a cookie and whether it is persistent. *)
Definition cookie_expiry (cookie : Cookie) (now : Z) : option Z * bool :=
  match c_maxAge cookie with
  | Some maxAge => (Some (if maxAge <=? 0 then 0 else now + Z.min maxAge (maxAgeSeconds cfg) * 1000), true)
  | None =>
      match c_expires cookie with
      | Some raw => (Some (Z.min (default 0 raw) (now + maxAgeSeconds cfg * 1000)), true)
      | None => (None, false)
      end
  end.

(** What [setCookie] decides: to refuse the cookie, or what to save, with the new
    [nextCreationIndex]. *)
Inductive set_decision := Refuse | Save (next : list StoredCookie) (nextCreationIndex : Z).

(** From the prototype on: replace the cookie of the same key or add one. *)
Definition replace_cookie (prototype : StoredCookie) (context : RequiredContext) (next : list StoredCookie)
    (now nextCreationIndex : Z) : set_decision :=
  let finish (prototype : StoredCookie) (next : list StoredCookie) (nextCreationIndex : Z) :=
    match k_expiryTime prototype with
    | Some expiryTime =>
        if expiryTime <=? now then Save next nextCreationIndex
        else Save (evict (next ++ [prototype])) nextCreationIndex
    | None => Save (evict (next ++ [prototype])) nextCreationIndex
    end in
  match list_find (fun existing => sameCookieKey existing prototype = true) next with
  | Some (existingIndex, existing) =>
      if bool_decide (x_type context = NonHttpAccess) && k_httpOnly existing then Refuse
      else finish (set_k_creationIndex (k_creationIndex existing) (set_k_creationTime (k_creationTime existing) prototype))
                  (base.delete existingIndex next) nextCreationIndex
  | None => finish prototype next (nextCreationIndex + 1)
  end.

(** The body of [setCookie], by the cookies of the jar and its index. *)
Definition decide_cookie (header : jsstr) (url : URLRecord) (access : CookieAccessContext) (now : Z)
    (cookies : list StoredCookie) (nextCreationIndex : Z) : result set_decision :=
  if existsb (fun c => 255 <? c) header then Ok Refuse
  else
    match parseCookieForRequest header (defaultPath (url_pathname url)) with
    | None => Ok Refuse
    | Some parsed =>
        let cookie := pc_cookie parsed in
        if (len (c_name cookie) =? 0) && (len (c_value cookie) =? 0) then Ok Refuse
        else if hasForbiddenCookieControl (c_name cookie) || hasForbiddenCookieControl (c_value cookie) then Ok Refuse
        else
          match cookie_domain (to_lower (url_hostname url)) (c_domain cookie) with
          | None => Ok Refuse
          | Some (domain, hostOnly) =>
              let path := default (defaultPath (url_pathname url)) (c_path cookie) in
              let secure := bool_decide (c_secure cookie = Some true) in
              let httpOnly := bool_decide (c_httpOnly cookie = Some true) in
              (context ← readContext access;
               let sameSite := match c_sameSite cookie with Some s => SiteOf s | None => DefaultSite end in
               if secure && negb (secureURL cfg url) then Ok Refuse
               else if httpOnly && bool_decide (x_type context = NonHttpAccess) then Ok Refuse
               else if negb (receiptAllowed sameSite context) then Ok Refuse
               else if bool_decide (sameSite = SiteOf NoneSite) && negb secure then Ok Refuse
               else if prefix_refused cookie (pc_pathAttributePresent parsed) hostOnly secure path then Ok Refuse
               else
                 let next := fst (removeExpired (cloneCookie <$> cookies) now) in
                 if negb secure && negb (secureURL cfg url) && existsb (overlays (c_name cookie) domain path) next then Ok Refuse
                 else
                   let '(expiryTime, persistent) := cookie_expiry cookie now in
                   let prototype := mk_stored (c_name cookie) (c_value cookie) expiryTime domain path now now nextCreationIndex
                                      persistent hostOnly secure httpOnly sameSite in
                   Ok (replace_cookie prototype context next now nextCreationIndex))%stdpp
          end
    end.

(** ** The operations

    Each holds the jar's lock from its start to its end, so that one runs at a
    time: [JarLock] models the lock.  [loadClock] is the reading of the
    clock in [ensureLoaded], [clock] the operation's own. *)

Definition setCookie (loadClock clock : option Z) (header : jsstr) (inputURL : jsstr + URLRecord)
    (access : CookieAccessContext) : Eff (CookieJar S) bool :=
  open_jar loadClock ;;
  url ← eff_lift (parseURL inputURL);
  now ← read_clock clock;
  cookies ← eff_get j_cookies;
  nextCreationIndex ← eff_get j_nextCreationIndex;
  decision ← eff_lift (decide_cookie header url access now cookies nextCreationIndex);
  match decision with
  | Refuse => eff_ret false
  | Save next nextCreationIndex =>
      eff_set (set_j_nextCreationIndex nextCreationIndex) ;;
      save next ;;
      eff_ret true
  end.

(** The conditions under which [getCookieHeader] selects a cookie. *)
Definition selects (url : URLRecord) (host : jsstr) (context : RequiredContext) (cookie : StoredCookie) : bool :=
  if (if k_hostOnly cookie then negb (str_eqb (k_domain cookie) host) else negb (domainMatches host (k_domain cookie))) then false
  else if (match publicSuffixes cfg with None => false | Some isPublicSuffix => isPublicSuffix (k_domain cookie) end) &&
          negb (k_hostOnly cookie) then false
  else if negb (pathMatches (url_pathname url) (k_path cookie)) then false
  else if k_secure cookie && negb (secureURL cfg url) then false
  else if k_httpOnly cookie && bool_decide (x_type context = NonHttpAccess) then false
  else retrievalAllowed (k_sameSite cookie) context.

Definition cookie_text (cookie : StoredCookie) : jsstr :=
  (if len (k_name cookie) =? 0 then [] else k_name cookie ++ [61]) ++ k_value cookie.

Definition getCookieHeader (loadClock clock : option Z) (inputURL : jsstr + URLRecord) (access : CookieAccessContext) :
    Eff (CookieJar S) jsstr :=
  open_jar loadClock ;;
  url ← eff_lift (parseURL inputURL);
  now ← read_clock clock;
  cookies ← eff_get j_cookies;
  let '(next, expired) := removeExpired (cloneCookie <$> cookies) now in
  context ← eff_lift (readContext access);
  let host := to_lower (url_hostname url) in
  let accessed cookie := if selects url host context cookie then set_k_lastAccessTime now cookie else cookie in
  let selected := set_k_lastAccessTime now <$> filter (fun cookie => selects url host context cookie = true) next in
  let changed := expired || existsb (selects url host context) next in
  let next := accessed <$> next in
  let selected := js_sort compareForHeader selected in
  eff_when changed (save next) ;;
  eff_ret (js_join (u "; ") (cookie_text <$> selected)).

Definition snapshot (loadClock clock : option Z) : Eff (CookieJar S) (list StoredCookie) :=
  open_jar loadClock ;;
  now ← read_clock clock;
  cookies ← eff_get j_cookies;
  let '(next, expired) := removeExpired (cloneCookie <$> cookies) now in
  eff_when expired (save next) ;;
  eff_ret (cloneCookie <$> next).

Definition clear (loadClock : option Z) : Eff (CookieJar S) unit :=
  open_jar loadClock ;;
  save [].

Definition close_store : Eff (CookieJar S) unit := fun jar =>
  let '(store, r) := closeStore (j_store jar) in (set_j_store store jar, r).

Definition close (loadClock : option Z) : Eff (CookieJar S) unit :=
  closed ← eff_get j_closed;
  if closed then eff_ret tt
  else
    ensureLoaded loadClock ;;
    cookies ← eff_get j_cookies;
    save_persistent cookies ;;
    eff_set (fun jar => set_j_closed true (set_j_cookies [] jar)) ;;
    close_store.

End Jar.

(** ** Runs *)

(** The calls on a jar. *)
Inductive jar_call :=
| CallSet (loadClock clock : option Z) (header : jsstr) (url : jsstr + URLRecord) (access : CookieAccessContext)
| CallGet (loadClock clock : option Z) (url : jsstr + URLRecord) (access : CookieAccessContext)
| CallSnapshot (loadClock clock : option Z)
| CallClear (loadClock : option Z)
| CallClose (loadClock : option Z).

(** The jar after a call, whether it returns or throws. *)
Definition call_jar (cfg : JarConfig) {S} `{CookieStore S} (call : jar_call) (jar : CookieJar S) : CookieJar S :=
  match call with
  | CallSet loadClock clock header url access => (setCookie cfg loadClock clock header url access jar).1
  | CallGet loadClock clock url access => (getCookieHeader cfg loadClock clock url access jar).1
  | CallSnapshot loadClock clock => (snapshot cfg loadClock clock jar).1
  | CallClear loadClock => (clear cfg loadClock jar).1
  | CallClose loadClock => (close cfg loadClock jar).1
  end.

Definition run_jar (cfg : JarConfig) {S} `{CookieStore S} (calls : list jar_call) (store : S) : CookieJar S :=
  foldl (fun jar call => call_jar cfg call jar) (new_jar store) calls.
