(* ===== verification/JarEviction.v ===== *)
(** * Sorting and eviction in the cookie jar

    The comparators of the jar order cookies totally; the array sorts therefore
    bring equal keys and equal domains together.  [evict] keeps a part of the
    cookies, in order, within the limits per domain and in all, and keeps all
    that are within the limits already. *)

From stdpp Require Import sorting.
From S2P Require Import Prelude Ascii FetchHeaders Cookies CookieJar.
Local Open Scope Z_scope.

(** ** Specification *)

(** How many cookies a domain has. *)
Definition domain_count (d : jsstr) (l : list StoredCookie) : Z := len (filter (fun k => k_domain k = d) l).

Definition within_limits (cfg : JarConfig) (l : list StoredCookie) : Prop :=
  len l <= maxCookies cfg /\ forall d, domain_count d l <= maxCookiesPerDomain cfg.

(** Two texts in order. *)
Definition text_le (a b : jsstr) : Prop := str_ltb b a = false.
Definition domain_le (a b : EvictionCandidate) : Prop := text_le (k_domain a.2) (k_domain b.2).

Definition cookie_key (k : StoredCookie) : jsstr * jsstr * bool * jsstr := (k_name k, k_domain k, k_hostOnly k, k_path k).

(** [a] and then [b] compared, as the comparators do. *)
Definition then_compare (a b : Z) : Z := if negb (a =? 0) then a else b.

(** The candidates of a domain. *)
Definition of_domain (d : jsstr) (l : list EvictionCandidate) : list EvictionCandidate :=
  filter (fun c => k_domain c.2 = d) l.

(** ** Filters *)

Lemma filter_kept {A} (P : A -> Prop) `{forall x, Decision (P x)} (l : list A) : (forall x, x ∈ l -> P x) -> filter P l = l.
Proof.
  induction l as [|x l IH]; intros Hl; [done|]. rewrite filter_cons_True by (apply Hl; by left).
  f_equal. apply IH. intros y Hy. apply Hl. by right.
Qed.

Lemma filter_same {A} (P Q : A -> Prop) `{forall x, Decision (P x)} `{forall x, Decision (Q x)} (l : list A) :
  (forall x, x ∈ l -> P x <-> Q x) -> filter P l = filter Q l.
Proof.
  induction l as [|x l IH]; intros Hl; [done|]. rewrite !filter_cons.
  assert (Hx : P x <-> Q x) by (apply Hl; by left). rewrite IH by (intros y Hy; apply Hl; by right).
  destruct (decide (P x)), (decide (Q x)); tauto.
Qed.

(** ** Texts *)

Lemma str_ltb_irrefl a : str_ltb a a = false.
Proof. destruct (str_ltb a a) eqn:E; [|done]. pose proof (str_ltb_asym _ _ E). congruence. Qed.

Lemma str_ltb_antisym a : forall b, str_ltb a b = false -> str_ltb b a = false -> a = b.
Proof.
  induction a as [|x a IH]; intros [|y b]; cbn; try done. rewrite !orb_false_iff, !andb_false_iff, !Z.ltb_ge, !Z.eqb_neq.
  intros [H1 H2] [H3 H4]. assert (x = y) as -> by lia. f_equal. apply IH; [by destruct H2|by destruct H4].
Qed.

Lemma str_ltb_trans a b c : str_ltb a b = true -> str_ltb b c = true -> str_ltb a c = true.
Proof.
  intros H1 H2. destruct (str_ltb_cut _ c _ H1) as [H|H]; [done|]. apply str_ltb_asym in H. congruence.
Qed.

#[export] Instance text_le_trans : Transitive text_le.
Proof.
  intros a b c H1 H2. unfold text_le in *. destruct (str_ltb c a) eqn:E; [|done].
  destruct (str_ltb_cut _ b _ E); congruence.
Qed.

(** [compareText] is the sign of the order. *)
Lemma compareText_cases a b :
  (compareText a b = -1 /\ str_ltb a b = true) \/ (compareText a b = 0 /\ a = b) \/ (compareText a b = 1 /\ str_ltb b a = true).
Proof.
  unfold compareText. destruct (str_ltb a b) eqn:E1; [by left|]. destruct (str_ltb b a) eqn:E2; [by right; right|].
  right. left. split; [done|]. by apply str_ltb_antisym.
Qed.

Lemma compareText_refl a : compareText a a = 0.
Proof. unfold compareText. by rewrite str_ltb_irrefl. Qed.

Lemma compareText_eq a b : compareText a b = 0 -> a = b.
Proof. destruct (compareText_cases a b) as [[-> _]|[[_ ->]|[-> _]]]; done. Qed.

Lemma compareText_flip a b : compareText b a = - compareText a b.
Proof.
  destruct (compareText_cases a b) as [[-> H]|[[-> ->]|[-> H]]]; [|apply compareText_refl|]; unfold compareText; rewrite H, ?(str_ltb_asym _ _ H); done.
Qed.

Lemma compareText_trans a b c : compareText a b <= 0 -> compareText b c <= 0 ->
  compareText a c <= 0 /\ (compareText a c = 0 -> compareText a b = 0 /\ compareText b c = 0).
Proof.
  destruct (compareText_cases a b) as [[-> H]|[[-> ->]|[-> _]]]; [| |lia].
  - destruct (compareText_cases b c) as [[-> H']|[[-> ->]|[-> _]]]; [| |lia].
    + intros _ _. unfold compareText. rewrite (str_ltb_trans _ _ _ H H'). lia.
    + intros _ _. unfold compareText. rewrite H. lia.
  - intros _ H. split; [done|]. done.
Qed.

(** ** Comparators *)

Lemma compareCookieKey_alt l r : compareCookieKey l r =
  then_compare (compareText (k_domain l) (k_domain r)) (then_compare (compareText (k_path l) (k_path r))
    (then_compare (compareText (k_name l) (k_name r)) (Z.b2z (k_hostOnly l) - Z.b2z (k_hostOnly r)))).
Proof. done. Qed.

Lemma then_compare_trans a1 a2 a3 b1 b2 b3 :
  (a1 <= 0 -> a2 <= 0 -> a3 <= 0 /\ (a3 = 0 -> a1 = 0 /\ a2 = 0)) ->
  (b1 <= 0 -> b2 <= 0 -> b3 <= 0 /\ (b3 = 0 -> b1 = 0 /\ b2 = 0)) ->
  then_compare a1 b1 <= 0 -> then_compare a2 b2 <= 0 ->
  then_compare a3 b3 <= 0 /\ (then_compare a3 b3 = 0 -> then_compare a1 b1 = 0 /\ then_compare a2 b2 = 0).
Proof.
  unfold then_compare. intros Ha Hb.
  destruct (Z.eqb_spec a1 0), (Z.eqb_spec a2 0), (Z.eqb_spec a3 0); cbn [negb]; intros H1 H2;
    try (specialize (Hb H1 H2)); specialize (Ha ltac:(lia) ltac:(lia)); lia.
Qed.

Lemma diff_trans x y z : x - y <= 0 -> y - z <= 0 -> x - z <= 0 /\ (x - z = 0 -> x - y = 0 /\ y - z = 0).
Proof. lia. Qed.

Lemma compareCookieKey_trans_strong a b c : compareCookieKey a b <= 0 -> compareCookieKey b c <= 0 ->
  compareCookieKey a c <= 0 /\ (compareCookieKey a c = 0 -> compareCookieKey a b = 0 /\ compareCookieKey b c = 0).
Proof.
  rewrite !compareCookieKey_alt. apply then_compare_trans; [apply compareText_trans|].
  apply then_compare_trans; [apply compareText_trans|]. apply then_compare_trans; [apply compareText_trans|apply diff_trans].
Qed.

Lemma then_compare_eq a b : then_compare a b = 0 <-> a = 0 /\ b = 0.
Proof. unfold then_compare. destruct (Z.eqb_spec a 0); cbn [negb]; lia. Qed.

Lemma compareCookieKey_eq a b : compareCookieKey a b = 0 <-> cookie_key a = cookie_key b.
Proof.
  rewrite compareCookieKey_alt, !then_compare_eq. unfold cookie_key. split.
  - intros (Hd & Hp & Hn & Hh). apply compareText_eq in Hd, Hp, Hn. destruct (k_hostOnly a), (k_hostOnly b); cbn in Hh; try lia; congruence.
  - intros [= -> -> -> ->]. rewrite !compareText_refl. lia.
Qed.

Lemma sameCookieKey_spec a b : sameCookieKey a b = true <-> cookie_key a = cookie_key b.
Proof.
  unfold sameCookieKey, cookie_key, str_eqb. rewrite !andb_true_iff, !bool_decide_eq_true, eqb_true_iff. split.
  - by intros [[[-> ->] ->] ->].
  - by intros [= -> -> -> ->].
Qed.

Lemma then_compare_total a b a' b' : a' = - a -> (b <= 0 \/ b' <= 0) -> then_compare a b <= 0 \/ then_compare a' b' <= 0.
Proof. unfold then_compare. intros ->. destruct (Z.eqb_spec a 0), (Z.eqb_spec (- a) 0); cbn [negb]; lia. Qed.

#[export] Instance key_order_total : Total (sorted_by compareCookieKey).
Proof.
  intros a b. unfold sorted_by. rewrite !compareCookieKey_alt.
  apply then_compare_total; [apply compareText_flip|]. apply then_compare_total; [apply compareText_flip|].
  apply then_compare_total; [apply compareText_flip|lia].
Qed.

#[export] Instance key_order_trans : Transitive (sorted_by compareCookieKey).
Proof. intros a b c H1 H2. by apply (compareCookieKey_trans_strong a b c). Qed.

#[export] Instance creation_order_total : Total (sorted_by compareCreation).
Proof. intros a b. unfold sorted_by, compareCreation. lia. Qed.
#[export] Instance creation_order_trans : Transitive (sorted_by compareCreation).
Proof. intros a b c. unfold sorted_by, compareCreation. lia. Qed.

#[export] Instance header_order_total : Total (sorted_by compareForHeader).
Proof. intros a b. unfold sorted_by, compareForHeader. repeat case_match; lia. Qed.
#[export] Instance header_order_trans : Transitive (sorted_by compareForHeader).
Proof. intros a b c. unfold sorted_by, compareForHeader. repeat case_match; lia. Qed.

#[export] Instance domain_order_total : Total (sorted_by compareDomainEviction).
Proof.
  intros a b. unfold sorted_by. apply (then_compare_total _ _ _ _ (compareText_flip _ _)). unfold compareAccess.
  destruct (k_secure a.2), (k_secure b.2); cbn [Bool.eqb negb]; repeat case_match; lia.
Qed.

Lemma js_sort_perm {A} (compare : A -> A -> Z) l : js_sort compare l ≡ₚ l.
Proof. apply merge_sort_Permutation. Qed.

(** Candidates that are sorted for eviction are sorted by domain. *)
Lemma sorted_domains l : StronglySorted domain_le (js_sort compareDomainEviction l).
Proof.
  apply Sorted_StronglySorted; [intros a b c; apply text_le_trans|].
  pose proof (Sorted_merge_sort (sorted_by compareDomainEviction) l) as Hs. unfold js_sort.
  induction Hs as [|a l' Hs IH Hh]; constructor; [done|]. destruct Hh as [|b l'' Hab]; constructor.
  unfold sorted_by, compareDomainEviction in Hab. unfold domain_le, text_le.
  destruct (compareText_cases (k_domain a.2) (k_domain b.2)) as [[Hc H]|[[Hc H]|[Hc H]]]; rewrite Hc in Hab; cbn in Hab.
  - by apply str_ltb_asym.
  - rewrite H. apply str_ltb_irrefl.
  - lia.
Qed.

(** Counting and filtering respect permutations. *)
#[export] Instance len_perm {A} : Proper ((≡ₚ) ==> eq) (@len A).
Proof. intros l k H. unfold len. by rewrite H. Qed.
#[export] Instance unmarked_perm m : Proper ((≡ₚ) ==> (≡ₚ)) (unmarked m).
Proof. intros l k H. unfold unmarked. by rewrite H. Qed.
#[export] Instance of_domain_perm d : Proper ((≡ₚ) ==> (≡ₚ)) (of_domain d).
Proof. intros l k H. unfold of_domain. by rewrite H. Qed.

(** ** Marking *)

Lemma unmarked_app m l k : unmarked m (l ++ k) = unmarked m l ++ unmarked m k.
Proof. apply filter_app. Qed.

Lemma unmarked_all m l : l.*1 ## m -> unmarked m l = l.
Proof.
  intros H. unfold unmarked. apply filter_kept. intros c Hc Hin. apply (H c.1); [|done].
  by apply list_elem_of_fmap_2.
Qed.

Lemma unmarked_none m l : l.*1 ⊆ m -> unmarked m l = [].
Proof. intros H. apply filter_none. intros c Hc Hn. apply Hn, H. by apply list_elem_of_fmap_2. Qed.

Lemma unmarked_marks m1 m2 l : unmarked (m1 ++ m2) l = unmarked m2 (unmarked m1 l).
Proof.
  unfold unmarked. rewrite list_filter_filter. apply list_filter_iff. intros c. rewrite elem_of_app. tauto.
Qed.

Lemma unmarked_out m c l : c.1 ∉ m -> unmarked m (c :: l) = c :: unmarked m l.
Proof. intros H. unfold unmarked. by rewrite filter_cons_True. Qed.

Lemma unmarked_in m c l : c.1 ∈ m -> unmarked m (c :: l) = unmarked m l.
Proof. intros H. unfold unmarked. rewrite filter_cons_False; [done|]. intros Hn. by apply Hn. Qed.

(** Marks that are places of candidates take as many candidates away. *)
Lemma unmarked_length m l : NoDup l.*1 -> m `sublist_of` l.*1 -> len (unmarked m l) = len l - len m.
Proof.
  revert m. induction l as [|c l IH]; intros m Hnd Hm; cbn [fmap list_fmap] in *.
  - apply sublist_nil_r in Hm as ->. done.
  - apply NoDup_cons in Hnd as [Hc Hnd]. apply sublist_cons_r in Hm as [Hm|(m' & -> & Hm)].
    + rewrite unmarked_out by (intros Hin; apply Hc; by eapply elem_of_sublist).
      rewrite !len_cons, IH by done. lia.
    + rewrite unmarked_in by by left. rewrite !len_cons.
      assert (Heq : unmarked (c.1 :: m') l = unmarked m' l).
      { apply filter_same. intros c' Hc'. split; [set_solver|]. intros Hn [Heq|Hin]%elem_of_cons; [|done].
        apply Hc. rewrite <- Heq. by apply list_elem_of_fmap_2. }
      rewrite Heq, IH by done. lia.
Qed.

Lemma run_length_spec {A} (p : A -> bool) l : exists a b, l = a ++ b /\ run_length p l = len a /\
  Forall (fun x => p x = true) a /\ (forall x, head b = Some x -> p x = false).
Proof.
  induction l as [|x l (a & b & -> & Hr & Ha & Hb)]; cbn [run_length]; [by exists [], []|].
  destruct (p x) eqn:E.
  - exists (x :: a), b. rewrite len_cons, Hr. split_and!; [done|lia|by constructor|done].
  - exists [], (x :: a ++ b). split_and!; [done|done|constructor|]. by intros y [= <-].
Qed.

(** The candidates sorted by domain are those of the first domain, and others. *)
Lemma domain_group (first : EvictionCandidate) (rest : list EvictionCandidate) : StronglySorted domain_le (first :: rest) -> exists same others,
  rest = same ++ others /\
  run_length (fun c : EvictionCandidate => str_eqb (k_domain c.2) (k_domain first.2)) rest = len same /\
  Forall (fun c => k_domain c.2 = k_domain first.2) (first :: same) /\
  Forall (fun c => k_domain c.2 <> k_domain first.2) others /\ StronglySorted domain_le others.
Proof.
  intros Hs. apply StronglySorted_cons in Hs as [Hf Hs].
  destruct (run_length_spec (fun c : EvictionCandidate => str_eqb (k_domain c.2) (k_domain first.2)) rest)
    as (same & others & -> & Hr & Hsame & Hhead).
  exists same, others. split_and!; [done..| | |by eapply StronglySorted_app_1_r].
  - constructor; [done|]. eapply Forall_impl; [exact Hsame|]. intros c. apply str_eqb_true.
  - apply Forall_app in Hf as [_ Hf]. apply StronglySorted_app_1_r in Hs.
    destruct others as [|o others]; [constructor|]. apply StronglySorted_cons in Hs as [Ho _].
    apply Forall_cons in Hf as [Hfo Hf]. specialize (Hhead o eq_refl). apply str_eqb_false in Hhead.
    constructor; [done|]. rewrite Forall_forall in *. intros c Hc Heq. specialize (Ho c Hc). apply Hhead.
    unfold domain_le, text_le in *. rewrite Heq in Ho. by apply str_ltb_antisym.
Qed.

Section Evict.
Context (cfg : JarConfig) (Hdomain : 0 <= maxCookiesPerDomain cfg) (Htotal : 0 <= maxCookies cfg).

Lemma mark_domains_round fuel (first : EvictionCandidate) (same others : list EvictionCandidate) :
  run_length (fun c : EvictionCandidate => str_eqb (k_domain c.2) (k_domain first.2)) (same ++ others) = len same ->
  mark_domains cfg (S fuel) (first :: same ++ others) =
  (take (Z.to_nat (len (first :: same) - maxCookiesPerDomain cfg)) (first :: same)).*1 ++ mark_domains cfg fuel others.
Proof.
  intros Hr. cbn [mark_domains]. cbv zeta. rewrite Hr, len_cons, (Z.add_comm 1). f_equal.
  - change (first :: same ++ others) with ((first :: same) ++ others). rewrite take_app_le; [done|].
    unfold len. cbn [length]. lia.
  - f_equal. change (first :: same ++ others) with ((first :: same) ++ others).
    replace (Z.to_nat (len same + 1)) with (length (first :: same)) by (unfold len; cbn; lia). apply drop_app_length.
Qed.

(** The marks are places of the candidates, in order. *)
Lemma mark_domains_sublist fuel : forall l, StronglySorted domain_le l -> mark_domains cfg fuel l `sublist_of` l.*1.
Proof.
  induction fuel as [|fuel IH]; intros l Hl; [apply sublist_nil_l|]. destruct l as [|first rest]; [done|].
  destruct (domain_group first rest Hl) as (same & others & -> & Hr & _ & _ & Hs).
  rewrite mark_domains_round by done. rewrite app_comm_cons, fmap_app. apply sublist_app; [|by apply IH].
  rewrite fmap_take. apply sublist_take.
Qed.

(** What is left of a domain is within its limit. *)
Lemma mark_domains_limit fuel : forall l d, StronglySorted domain_le l -> NoDup l.*1 -> (length l <= fuel)%nat ->
  len (of_domain d (unmarked (mark_domains cfg fuel l) l)) <= maxCookiesPerDomain cfg.
Proof.
  induction fuel as [|fuel IH]; intros l d Hl Hnd Hf; [destruct l; [done|cbn in Hf; lia]|].
  destruct l as [|first rest]; [done|].
  destruct (domain_group first rest Hl) as (same & others & -> & Hr & Hg & Ho & Hs).
  rewrite mark_domains_round by done. rewrite app_comm_cons in *. set (group := first :: same) in *.
  set (m1 := (take _ group).*1). set (m2 := mark_domains cfg fuel others).
  rewrite fmap_app in Hnd. apply NoDup_app in Hnd as (Hn1 & Hdis & Hn2).
  assert (Hm2 : m2 ⊆ others.*1) by (apply sublist_subseteq, mark_domains_sublist; done).
  assert (Hm1 : m1 `sublist_of` group.*1) by (unfold m1; rewrite fmap_take; apply sublist_take).
  rewrite unmarked_app. unfold of_domain. rewrite filter_app, len_app. fold (of_domain d). destruct (decide (d = k_domain first.2)) as [->|Hd].
  - rewrite (filter_none _ (unmarked _ others)), len_nil.
    2: { intros c Hc. unfold unmarked in Hc. apply list_elem_of_filter in Hc as [_ Hc]. rewrite Forall_forall in Ho. by apply Ho. }
    rewrite filter_kept.
    2: { intros c Hc. unfold unmarked in Hc. apply list_elem_of_filter in Hc as [_ Hc]. rewrite Forall_forall in Hg. by apply Hg. }
    rewrite unmarked_marks, (unmarked_all m2).
    2: { intros x Hx Hin. unfold unmarked in Hx. apply list_elem_of_fmap in Hx as (c & -> & Hc). apply list_elem_of_filter in Hc as [_ Hc].
         apply (Hdis c.1); [by apply list_elem_of_fmap_2|by apply Hm2]. }
    rewrite unmarked_length by done. unfold m1, len. rewrite length_fmap, length_take.
    change (nat * StoredCookie)%type with EvictionCandidate in *. lia.
  - rewrite (filter_none _ (unmarked _ group)), len_nil.
    2: { intros c Hc. unfold unmarked in Hc. apply list_elem_of_filter in Hc as [_ Hc]. rewrite Forall_forall in Hg.
         rewrite (Hg c Hc). congruence. }
    rewrite unmarked_marks, (unmarked_all m1).
    2: { intros x Hx Hin. apply (Hdis x); [by eapply elem_of_sublist|done]. }
    change (0 + len (of_domain d (unmarked m2 others)) <= maxCookiesPerDomain cfg). rewrite Z.add_0_l.
    apply IH; [done..|]. rewrite length_app in Hf. cbn [length group] in Hf. lia.
Qed.

Lemma of_domain_app d l k : len (of_domain d (l ++ k)) = len (of_domain d l) + len (of_domain d k).
Proof. unfold of_domain. by rewrite filter_app, len_app. Qed.

Lemma of_domain_all d l : Forall (fun c => k_domain c.2 = d) l -> of_domain d l = l.
Proof. intros Hl. apply filter_kept. by rewrite Forall_forall in Hl. Qed.

(** A domain within its limit has no marks. *)
Lemma mark_domains_none fuel : forall l, StronglySorted domain_le l ->
  (forall d, len (of_domain d l) <= maxCookiesPerDomain cfg) -> mark_domains cfg fuel l = [].
Proof.
  induction fuel as [|fuel IH]; intros l Hl Hc; [done|]. destruct l as [|first rest]; [done|].
  destruct (domain_group first rest Hl) as (same & others & -> & Hr & Hg & Ho & Hs).
  rewrite mark_domains_round by done. rewrite app_comm_cons in *.
  assert (Hgroup : len (first :: same) <= maxCookiesPerDomain cfg).
  { specialize (Hc (k_domain first.2)). rewrite of_domain_app in Hc.
    rewrite (of_domain_all (k_domain first.2) (first :: same)) in Hc by done.
    pose proof (len_nonneg (of_domain (k_domain first.2) others)). lia. }
  replace (Z.to_nat _) with 0%nat by lia. cbn [take fmap list_fmap app]. apply IH; [done|]. intros d.
  specialize (Hc d). rewrite of_domain_app in Hc. pose proof (len_nonneg (of_domain d (first :: same))). lia.
Qed.

(** ** The candidates *)

Lemma candidates_cookies l : (imap pair l : list EvictionCandidate).*2 = l.
Proof. apply list_eq. intros i. rewrite list_lookup_fmap, list_lookup_imap. by destruct (l !! i). Qed.

Lemma candidates_places l : NoDup (imap pair l : list EvictionCandidate).*1.
Proof.
  rewrite fmap_imap. apply NoDup_alt. intros i j x Hi Hj. rewrite list_lookup_imap in Hi, Hj.
  destruct (l !! i); [|done]. destruct (l !! j); [|done]. cbn in *. congruence.
Qed.

Lemma candidates_length l : len (imap pair l : list EvictionCandidate) = len l.
Proof. unfold len. by rewrite length_imap. Qed.

Lemma domain_count_candidates d (l : list EvictionCandidate) : domain_count d l.*2 = len (of_domain d l).
Proof.
  unfold domain_count, of_domain. induction l as [|c l IH]; [done|]. cbn [fmap list_fmap].
  rewrite !filter_cons. change (snd <$> l) with l.*2. case_decide; [|done]. rewrite !len_cons. f_equal. exact IH.
Qed.

Lemma unmarked_fewer d m1 m2 l : len (of_domain d (unmarked (m1 ++ m2) l)) <= len (of_domain d (unmarked m1 l)).
Proof.
  rewrite unmarked_marks. generalize (unmarked m1 l). intros k.
  replace (of_domain d (unmarked m2 k)) with (unmarked m2 (of_domain d k)).
  - apply inj_le. unfold unmarked. apply length_filter.
  - unfold of_domain, unmarked. rewrite !list_filter_filter. apply list_filter_iff. tauto.
Qed.

Lemma of_domain_sorted d m l :
  len (of_domain d (unmarked m l)) = len (of_domain d (unmarked m (js_sort compareDomainEviction l))).
Proof. by rewrite js_sort_perm. Qed.

Lemma evict_sublist l : evict cfg l `sublist_of` l.
Proof.
  unfold evict. cbv zeta. generalize (candidates_cookies l). set (C := imap pair l : list EvictionCandidate). intros HC.
  rewrite <- HC at 1. apply fmap_sublist, sublist_filter.
Qed.

(** The rest of [evict], by the places its first loop has marked. *)
Lemma evict_limits l : within_limits cfg (evict cfg l).
Proof.
  unfold evict. cbv zeta. set (C := imap pair l : list EvictionCandidate). set (D := js_sort compareDomainEviction C).
  assert (HC : NoDup C.*1) by apply candidates_places.
  assert (HD : D.*1 ≡ₚ C.*1) by (unfold D; by rewrite js_sort_perm).
  assert (HnD : NoDup D.*1) by by rewrite HD.
  set (M := mark_domains cfg (length D) D).
  assert (HM : M `sublist_of` D.*1) by (apply mark_domains_sublist, sorted_domains).
  assert (Hcount : forall d, len (of_domain d (unmarked M C)) <= maxCookiesPerDomain cfg).
  { intros d. rewrite of_domain_sorted. apply mark_domains_limit; [apply sorted_domains|done|done]. }
  assert (Hleft : len (unmarked M C) = len C - len M).
  { transitivity (len (unmarked M D)).
    - unfold D. by rewrite js_sort_perm.
    - rewrite unmarked_length by done. unfold D at 1. by rewrite js_sort_perm. }
  destruct (Z.ltb_spec 0 (len C - len M - maxCookies cfg)) as [Hg|Hg].
  - set (E := js_sort compareGlobalEviction (unmarked M C)). set (m2 := (take (Z.to_nat (len C - len M - maxCookies cfg)) E).*1). split.
    + assert (HE : NoDup E.*1).
      { unfold E. rewrite js_sort_perm. eapply sublist_NoDup; [exact HC|]. apply fmap_sublist, sublist_filter. }
      transitivity (len (unmarked m2 E)).
      * rewrite unmarked_marks. unfold len at 1. rewrite length_fmap. fold (len (unmarked m2 (unmarked M C))).
        assert (Hp : E ≡ₚ unmarked M C) by apply js_sort_perm. clearbody m2. by rewrite Hp.
      * rewrite unmarked_length; [|done|unfold m2; rewrite fmap_take; apply sublist_take].
        assert (HlE : len E = len C - len M) by (rewrite <- Hleft; unfold len, E; by rewrite js_sort_perm).
        unfold m2, len in *. rewrite length_fmap, length_take. change (nat * StoredCookie)%type with EvictionCandidate in *. lia.
    + intros d. rewrite domain_count_candidates. etransitivity; [apply unmarked_fewer|apply Hcount].
  - split.
    + unfold len in *. rewrite length_fmap. change (nat * StoredCookie)%type with EvictionCandidate in *. lia.
    + intros d. rewrite domain_count_candidates. apply Hcount.
Qed.

(** Cookies within the limits stay. *)
Lemma evict_within l : within_limits cfg l -> evict cfg l = l.
Proof.
  intros [Ht Hd]. unfold evict. cbv zeta. set (C := imap pair l : list EvictionCandidate).
  rewrite mark_domains_none.
  - change (len (@nil nat)) with 0. rewrite Z.sub_0_r. assert (HlC : len C = len l) by apply candidates_length.
    destruct (Z.ltb_spec 0 (len C - maxCookies cfg)); [lia|].
    transitivity C.*2; [|apply candidates_cookies]. f_equal. apply filter_kept. intros c _. apply not_elem_of_nil.
  - apply sorted_domains.
  - intros d. pose proof (of_domain_sorted d [] C) as Hs. rewrite !(unmarked_all []) in Hs by set_solver.
    rewrite <- Hs. etransitivity; [|apply (Hd d)]. rewrite <- domain_count_candidates. unfold C. by rewrite candidates_cookies.
Qed.

End Evict.
