(* ===== verification/CookieJarTheory.v ===== *)
(** * The cookie jar: its invariant

    Whatever is called on a jar, over any store that replaces or rejects a
    snapshot: no two cookies have the same name, domain and path, every cookie
    satisfies the rules of its name and its attributes, the limits hold, and the
    store holds the persistent cookies of the jar. *)

From stdpp Require Import sorting.
From S2P Require Import Prelude Ascii Effects FetchHeaders CookieDate Cookies CookiesTheory CookieJar JarEviction.
Local Open Scope Z_scope.

(** ** Specification *)

(** The rules that every stored cookie satisfies. *)
Record cookie_ok (k : StoredCookie) : Prop := mk_cookie_ok {
  ok_size : len (k_name k) + len (k_value k) <= 4096;
  ok_text : ~ (k_name k = [] /\ k_value k = []);
  ok_controls : hasForbiddenCookieControl (k_name k) = false /\ hasForbiddenCookieControl (k_value k) = false;
  ok_octets : hasNonOctet (k_name k) = false /\ hasNonOctet (k_value k) = false;
  ok_domain : k_domain k <> [];
  ok_path : starts_with 47 (k_path k) = true;
  ok_persistent : k_persistent k = match k_expiryTime k with None => false | Some _ => true end;
  ok_sameSite : k_sameSite k = SiteOf NoneSite -> k_secure k = true;
  ok_secure : has_prefix (u "__secure-") (to_lower (k_name k)) = true -> k_secure k = true;
  ok_host : has_prefix (u "__host-") (to_lower (k_name k)) = true ->
    k_secure k = true /\ k_hostOnly k = true /\ k_path k = u "/";
  ok_nameless : k_name k = [] -> has_prefix (u "__secure-") (to_lower (k_value k)) = false /\
    has_prefix (u "__host-") (to_lower (k_value k)) = false;
}.

(** The cookies of a jar whose next creation index is [next]. *)
Definition cookies_ok (next : Z) (l : list StoredCookie) : Prop :=
  NoDup (cookie_key <$> l) /\ NoDup (k_creationIndex <$> l) /\
  Forall (fun k => 0 <= k_creationIndex k < next) l /\ Forall cookie_ok l.

(** The invariant of a jar: of an open one that has been loaded. *)
Definition jar_ok (cfg : JarConfig) {S} `{CookieStore S} (j : CookieJar S) : Prop :=
  j_loaded j = true -> j_closed j = false ->
  cookies_ok (j_nextCreationIndex j) (j_cookies j) /\ within_limits cfg (j_cookies j) /\
  0 <= j_nextCreationIndex j /\ loadAll (j_store j) = Ok (persistentCookies (j_cookies j)).

(** The limits that the constructor of a jar checks. *)
Definition config_ok (cfg : JarConfig) : Prop :=
  1 <= maxCookiesPerDomain cfg /\ 1 <= maxCookies cfg /\ 1 <= maxAgeSeconds cfg <= maximumPersistentAgeSeconds.

(** The checks of [ensureLoaded] on one cookie. *)
Definition loaded_ok (cfg : JarConfig) (k : StoredCookie) : Prop :=
  validStoredCookieShape k = true /\ k_persistent k = true /\ refused_when_loaded cfg k = false.

(** What a step of the attributes leaves: the pair, and a path from the piece or
    from the request. *)
Definition path_from (d : jsstr) (source : jsstr) (p : option jsstr) : Prop :=
  forall q, p = Some q -> q = d \/ (starts_with 47 q = true /\ q ⊆ source).

(** What a stored cookie owes to the request that set it: its domain is the host
    or a parent that the host gives, its path is that of the field or the default,
    and its flags need a secure URL and an HTTP request. *)
Record set_by (cfg : JarConfig) (url : URLRecord) (header : jsstr) (context : RequiredContext) (k : StoredCookie) : Prop := mk_set_by {
  by_domain : if k_hostOnly k then k_domain k = to_lower (url_hostname url)
    else domainMatches (to_lower (url_hostname url)) (k_domain k) = true /\ exists a, canonicalDomain cfg a = Some (k_domain k);
  by_path : k_path k = defaultPath (url_pathname url) \/
    (k_path k ⊆ header /\ 59 ∉ k_path k /\ hasForbiddenCookieControl (k_path k) = false /\ hasNonOctet (k_path k) = false);
  by_secure : k_secure k = true -> secureURL cfg url = true;
  by_httpOnly : k_httpOnly k = true -> x_type context = HttpAccess;
  by_sameSite : receiptAllowed (k_sameSite k) context = true;
}.

(** Each element of a list differs from the next. *)
Fixpoint neighbours_differ {A B} (f : A -> B) (l : list A) : Prop :=
  match l with
  | a :: ((b :: _) as l) => f a <> f b /\ neighbours_differ f l
  | _ => True
  end.

(** A URL parser for the examples: a scheme, a host and a path. *)
Definition sample_parse (text : jsstr) : result URLRecord :=
  match cut_at 58 text with
  | (scheme, Some (47 :: 47 :: rest)) =>
      let '(host, path) := cut_at 47 rest in
      Ok (mk_url (scheme ++ [58]) (to_lower host) [] (47 :: default [] path) [] [] [] [])
  | _ => Err (TypeError "Invalid URL")
  end.

Definition sample_options : CookieJarOptions := mk_jar_options sample_parse None None (Some 1) (Some 2) None.
Definition plain_access : CookieAccessContext := mk_access None None None None.
Definition sample_calls : list jar_call :=
  [CallSet (Some 1000) (Some 1000) (u "a=1; Max-Age=60") (inl (u "https://a.test/")) plain_access;
   CallSet (Some 1000) (Some 2000) (u "b=2") (inl (u "https://b.test/")) plain_access;
   CallSet (Some 1000) (Some 3000) (u "c=3; Max-Age=60; Secure") (inl (u "https://A.test/x/y")) plain_access].

(** ** Cookies *)

Lemma clone_id k : cloneCookie k = k.
Proof. by destruct k. Qed.

Lemma clone_map (l : list StoredCookie) : cloneCookie <$> l = l.
Proof. induction l as [|k l IH]; [done|]. cbn. by rewrite clone_id, IH. Qed.

Lemma jar_config_ok options cfg : jar_config options = Ok cfg -> config_ok cfg.
Proof.
  unfold jar_config. intros H. do 4 ok_inv H. injection H as <-. unfold validateLimit in *.
  destruct (negb _ || _) eqn:E1 in Hx; [done|]. destruct (negb _ || _) eqn:E2 in Hx0; [done|]. destruct (negb _ || _) eqn:E3 in Hx1; [done|].
  injection Hx as <-. injection Hx0 as <-. injection Hx1 as <-. unfold config_ok. cbn.
  rewrite orb_false_iff, Z.ltb_ge in *. lia.
Qed.

Lemma cookies_ok_sublist next l k : k `sublist_of` l -> cookies_ok next l -> cookies_ok next k.
Proof.
  intros Hs (H1 & H2 & H3 & H4). split_and!.
  - eapply sublist_NoDup; [exact H1|]. by apply fmap_sublist.
  - eapply sublist_NoDup; [exact H2|]. by apply fmap_sublist.
  - rewrite Forall_forall in *. intros x Hx. apply H3. by eapply elem_of_sublist.
  - rewrite Forall_forall in *. intros x Hx. apply H4. by eapply elem_of_sublist.
Qed.

Lemma domain_count_sublist d l k : k `sublist_of` l -> domain_count d k <= domain_count d l.
Proof.
  intros Hs. unfold domain_count. induction Hs as [|x l1 l2 Hs IH|x l1 l2 Hs IH]; [done|..]; rewrite !filter_cons;
    case_decide; rewrite ?len_cons; lia.
Qed.

Lemma within_limits_sublist cfg l k : k `sublist_of` l -> within_limits cfg l -> within_limits cfg k.
Proof.
  intros Hs [H1 H2]. split.
  - etransitivity; [|exact H1]. unfold len. by apply inj_le, sublist_length.
  - intros d. etransitivity; [by apply domain_count_sublist|apply H2].
Qed.

Lemma cookies_ok_mono next next' l : next <= next' -> cookies_ok next l -> cookies_ok next' l.
Proof.
  intros Hn (H1 & H2 & H3 & H4). split_and!; try done. eapply Forall_impl; [exact H3|]. cbv beta. lia.
Qed.

(** Touching the access times changes nothing that the invariant speaks of. *)
Section Touch.
Context (f : StoredCookie -> StoredCookie).
Context (Hf : forall k, f k = k \/ exists t, f k = set_k_lastAccessTime t k).

Lemma touch_fmap {A} (g : StoredCookie -> A) (l : list StoredCookie) : (forall t k, g (set_k_lastAccessTime t k) = g k) -> g <$> (f <$> l) = g <$> l.
Proof.
  intros Hg. rewrite <- list_fmap_compose. apply list_fmap_ext. intros _ k _. cbn.
  destruct (Hf k) as [->|[t ->]]; [done|apply Hg].
Qed.

Lemma touch_ok k : cookie_ok k -> cookie_ok (f k).
Proof. destruct (Hf k) as [->|[t ->]]; [done|]. intros []. by constructor. Qed.

Lemma cookies_ok_touch next l : cookies_ok next l -> cookies_ok next (f <$> l).
Proof.
  intros (H1 & H2 & H3 & H4). split_and!.
  - by rewrite touch_fmap.
  - by rewrite touch_fmap.
  - apply Forall_fmap. eapply Forall_impl; [exact H3|]. intros k Hk. cbn. by destruct (Hf k) as [->|[t ->]].
  - apply Forall_fmap. eapply Forall_impl; [exact H4|]. apply touch_ok.
Qed.

Lemma within_limits_touch cfg l : within_limits cfg l -> within_limits cfg (f <$> l).
Proof.
  intros [H1 H2]. split; [unfold len in *; by rewrite length_fmap|]. intros d. etransitivity; [|apply (H2 d)].
  clear -Hf. unfold domain_count. induction l as [|k l IH]; [done|]. cbn [fmap list_fmap]. rewrite !filter_cons.
  assert (Hd : k_domain (f k) = k_domain k) by by destruct (Hf k) as [->|[t ->]].
  rewrite Hd. case_decide; [|exact IH]. rewrite !len_cons. apply Z.add_le_mono_r. exact IH.
Qed.

End Touch.

Lemma removeExpired_sublist l now : (removeExpired l now).1 `sublist_of` l.
Proof. apply sublist_filter. Qed.

(** A part of a list that is as long is the list. *)
Lemma sublist_len_eq {A} (k l : list A) : k `sublist_of` l -> len k = len l -> k = l.
Proof.
  intros Hs. unfold len. induction Hs as [|x l1 l2 Hs IH|x l1 l2 Hs IH]; cbn [length]; intros Hl; [done| |].
  - f_equal. apply IH. lia.
  - apply sublist_length in Hs. lia.
Qed.

(** ** Loading *)

(** Neighbours that differ. *)
Lemma sorted_NoDup {A B} (R : relation A) (f : A -> B) (l : list A) :
  (forall a b c, R a b -> R b c -> f a = f c -> f a = f b) -> StronglySorted R l ->
  neighbours_differ f l -> NoDup (f <$> l).
Proof.
  intros Hf. induction l as [|a l IH]; intros Hs Hn; [constructor|]. cbn [fmap list_fmap].
  apply StronglySorted_cons in Hs as [Ha Hs]. destruct l as [|b l]; [apply NoDup_singleton|].
  destruct Hn as [Hab Hn]. apply NoDup_cons. split; [|by apply IH].
  intros (c & Hc & Hin)%list_elem_of_fmap. apply elem_of_cons in Hin as [->|Hin]; [done|].
  apply StronglySorted_cons in Hs as [Hb _]. apply Forall_cons in Ha as [Hab' _]. rewrite Forall_forall in Hb.
  apply Hab. by apply (Hf a b c); [|apply Hb|].
Qed.

Lemma neighbours_checked bk : forall bc x, length bk = length bc -> neighbours_loop bk bc = Ok x ->
  neighbours_differ cookie_key bk /\ neighbours_differ k_creationIndex bc.
Proof.
  induction bk as [|a bk IH]; intros [|a' bc] x Hl H; try done. cbn [neighbours_loop] in H.
  destruct bk as [|b bk], bc as [|b' bc]; try done. ok_inv H. ok_inv H.
  destruct (IH (b' :: bc) x) as [H1 H2]; [cbn in *; lia|done|]. split; (split; [|done]).
  - intros Heq. apply sameCookieKey_spec in Heq. congruence.
  - by apply Z.eqb_neq in Hc0.
Qed.

Lemma check_duplicates_ok l x : check_duplicates l = Ok x -> NoDup (cookie_key <$> l) /\ NoDup (k_creationIndex <$> l).
Proof.
  intros H. unfold check_duplicates in H. apply neighbours_checked in H as [H1 H2].
  2: { pose proof (Permutation_length (js_sort_perm compareCookieKey l)). pose proof (Permutation_length (js_sort_perm compareCreation l)). lia. }
  split.
  - rewrite <- (js_sort_perm compareCookieKey l). apply (sorted_NoDup (sorted_by compareCookieKey)); [|apply StronglySorted_merge_sort; apply _|done].
    intros a b c Hab Hbc Hac. apply compareCookieKey_eq in Hac. apply compareCookieKey_eq. by apply (compareCookieKey_trans_strong a b c).
  - rewrite <- (js_sort_perm compareCreation l). apply (sorted_NoDup (sorted_by compareCreation)); [|apply StronglySorted_merge_sort; apply _|done].
    unfold sorted_by, compareCreation. lia.
Qed.

(** Distinct cookies pass the check. *)
Lemma distinct_checked bk : forall bc, NoDup (cookie_key <$> bk) -> NoDup (k_creationIndex <$> bc) -> neighbours_loop bk bc = Ok tt.
Proof.
  induction bk as [|a bk IH]; intros [|a' bc] H1 H2; try done. cbn [neighbours_loop].
  destruct bk as [|b bk], bc as [|b' bc]; try done. cbn [fmap list_fmap] in *.
  apply NoDup_cons in H1 as [Ha H1]. apply NoDup_cons in H2 as [Ha' H2].
  assert (Hk : sameCookieKey a b = false).
  { destruct (sameCookieKey a b) eqn:E; [|done]. apply sameCookieKey_spec in E. rewrite E in Ha. set_solver. }
  assert (Hi : (k_creationIndex a' =? k_creationIndex b') = false).
  { apply Z.eqb_neq. intros E. rewrite E in Ha'. set_solver. }
  rewrite Hk, Hi. by apply (IH (b' :: bc)).
Qed.

Lemma duplicates_checked l : NoDup (cookie_key <$> l) -> NoDup (k_creationIndex <$> l) -> check_duplicates l = Ok tt.
Proof. intros H1 H2. apply distinct_checked; by rewrite js_sort_perm. Qed.

(** What the checks on a loaded cookie give. *)
Lemma loaded_cookie_ok cfg k : loaded_ok cfg k -> cookie_ok k.
Proof.
  intros (Hshape & Hp & Hr). unfold validStoredCookieShape in Hshape. rewrite !andb_true_iff in Hshape.
  destruct Hshape as [[[[[Hd Hpath] _] _] _] Hper]. unfold refused_when_loaded in Hr. rewrite !orb_false_iff in Hr.
  destruct Hr as [[[[[[[[[[[[[Hsize Htext] Hc1] Hc2] _] _] Ho1] Ho2] _] _] Hsite] Hsec] Hhost] Hname].
  split; try done.
  - by apply Z.ltb_ge.
  - intros [Hn Hv]. by rewrite Hn, Hv in Htext.
  - intros Heq. by rewrite Heq in Hd.
  - by apply eqb_prop.
  - intros Hs. rewrite Hs in Hsite. by destruct (k_secure k).
  - intros Hs. rewrite Hs in Hsec. by destruct (k_secure k).
  - intros Hs. rewrite Hs in Hhost. cbn [andb] in Hhost. rewrite !orb_false_iff, !negb_false_iff in Hhost.
    destruct Hhost as [[-> ->] Hs2]. by apply str_eqb_true in Hs2.
  - intros Hn. rewrite Hn in Hname. by rewrite andb_true_l, orb_false_iff in Hname.
Qed.

Lemma load_fold cfg l : forall cookies next s, foldM (load_step cfg) (cookies, next) l = Ok s ->
  s.1 = cookies ++ l /\ Forall (loaded_ok cfg) l /\ next <= s.2 /\ Forall (fun k => k_creationIndex k < s.2) l.
Proof.
  induction l as [|k l IH]; intros cookies next s H; [injection H as <-; rewrite app_nil_r; cbn; split_and!; [done|constructor|lia|constructor]|].
  cbn [foldM] in H. ok_inv H. unfold load_step in Hx. ok_inv Hx. ok_inv Hx. injection Hx as <-. rewrite clone_id in *.
  apply orb_false_iff in Hc as [Hs Hp]. apply negb_false_iff in Hs, Hp.
  apply IH in H as (-> & Hl & Hn & Hi). rewrite <- app_assoc. split_and!; [done|by constructor|lia|]. constructor; [lia|done].
Qed.

Lemma load_fold_ok cfg l : Forall (loaded_ok cfg) l -> forall cookies next, exists next',
  foldM (load_step cfg) (cookies, next) l = Ok (cookies ++ l, next').
Proof.
  induction l as [|k l IH]; intros Hl cookies next; [exists next; by rewrite app_nil_r|].
  apply Forall_cons in Hl as [(Hs & Hp & Hr) Hl]. cbn [foldM].
  assert (Hstep : load_step cfg (cookies, next) k = Ok (cookies ++ [k], Z.max next (k_creationIndex k + 1))).
  { unfold load_step. rewrite !clone_id, Hs, Hp, Hr. done. }
  rewrite Hstep. cbn [mbind result_bind]. destruct (IH Hl (cookies ++ [k]) (Z.max next (k_creationIndex k + 1))) as [n' Hn].
  exists n'. rewrite Hn. by rewrite <- app_assoc.
Qed.

(** Clamping the expiry keeps a loaded cookie a stored one. *)
Section Clamp.
Context (limit : Z).

Lemma clamp_fields k : cookie_key (clamp_expiry limit k) = cookie_key k /\
  k_creationIndex (clamp_expiry limit k) = k_creationIndex k /\ k_persistent (clamp_expiry limit k) = k_persistent k /\
  (cookie_ok k -> cookie_ok (clamp_expiry limit k)).
Proof.
  unfold clamp_expiry. destruct (expires_late limit k) eqn:E; [|done]. split_and!; try done. intros [].
  unfold expires_late in E. destruct (k_expiryTime k) eqn:Ek; [|done]. by constructor.
Qed.

Lemma clamp_none l : existsb (expires_late limit) l = false -> clamp_expiry limit <$> l = l.
Proof.
  induction l as [|k l IH]; intros H; [done|]. cbn [existsb] in H. apply orb_false_iff in H as [Hk Hl].
  cbn [fmap list_fmap]. rewrite (IH Hl). unfold clamp_expiry at 1. by rewrite Hk.
Qed.

Lemma cookies_ok_clamp next l : cookies_ok next l -> cookies_ok next (clamp_expiry limit <$> l).
Proof.
  intros (H1 & H2 & H3 & H4). split_and!.
  - rewrite <- list_fmap_compose. erewrite list_fmap_ext; [exact H1|]. intros _ k _. apply clamp_fields.
  - rewrite <- list_fmap_compose. erewrite list_fmap_ext; [exact H2|]. intros _ k _. apply clamp_fields.
  - apply Forall_fmap. eapply Forall_impl; [exact H3|]. intros k Hk. cbn. destruct (clamp_fields k) as (_ & -> & _). done.
  - apply Forall_fmap. eapply Forall_impl; [exact H4|]. intros k Hk. by apply clamp_fields.
Qed.

End Clamp.

Lemma persistent_all l : Forall (fun k => k_persistent k = true) l -> persistentCookies l = l.
Proof. intros Hl. unfold persistentCookies. rewrite clone_map. apply filter_kept. by rewrite Forall_forall in Hl. Qed.

Section Invariant.
Context (cfg : JarConfig) (Hcfg : config_ok cfg).
Context {S : Type} `{CookieStoreLaws S}.

Lemma save_persistent_run (cookies : list StoredCookie) (j : CookieJar S) : exists store r,
  save_persistent cookies j = (set_j_store store j, r) /\
  (r = Ok tt -> loadAll store = Ok (persistentCookies cookies)) /\ (r <> Ok tt -> loadAll store = loadAll (j_store j)).
Proof.
  unfold save_persistent. destruct (saveAll (j_store j) (persistentCookies cookies)) as [store r] eqn:Hs.
  exists store, r. split; [done|]. destruct r as [[]|e]; split; intros Hr; try done.
  - by eapply save_replaces.
  - by eapply save_rejects.
Qed.

(** [ensureLoaded] loads a jar that satisfies the invariant, or leaves it unloaded. *)
Lemma ensureLoaded_ok clock (j : CookieJar S) : jar_ok cfg j -> let '(j', r) := ensureLoaded cfg clock j in
  jar_ok cfg j' /\ j_closed j' = j_closed j /\ (r = Ok tt -> j_loaded j' = true) /\
  (j_loaded j = true -> j' = j /\ r = Ok tt).
Proof.
  intros Hj. unfold ensureLoaded, eff_bind at 1, eff_get at 1. destruct (j_loaded j) eqn:Hl; [done|].
  unfold eff_bind at 1, eff_get at 1. unfold eff_bind at 1, eff_lift at 1.
  destruct (loadAll (j_store j)) as [loaded|e] eqn:Hload; [|done].
  unfold eff_bind at 1, eff_lift at 1. destruct (foldM (load_step cfg) ([], 0) loaded) as [[cookies next]|e] eqn:Hfold; [|done].
  apply load_fold in Hfold as (Hc & Hok & Hn & Hi). cbn [fst snd app] in *. subst cookies.
  unfold eff_bind at 1, eff_lift at 1. destruct (check_duplicates loaded) as [x|e] eqn:Hdup; [|done].
  apply check_duplicates_ok in Hdup as [Hk Hidx].
  unfold eff_bind at 1, read_clock. destruct clock as [now|]; [|done]. cbn [eff_ret].
  destruct (removeExpired _ now) as [kept expired] eqn:Hrem. set (limit := now + maxAgeSeconds cfg * 1000) in *.
  assert (Hall : cookies_ok next loaded).
  { split_and!; [done..| |].
    - rewrite Forall_forall in *. intros k Hin. specialize (Hok k Hin). specialize (Hi k Hin). cbv beta in *.
      destruct Hok as [Hs _]. unfold validStoredCookieShape in Hs. rewrite !andb_true_iff, !Z.leb_le in Hs. lia.
    - eapply Forall_impl; [exact Hok|]. apply loaded_cookie_ok. }
  assert (Hkept : kept `sublist_of` clamp_expiry limit <$> loaded).
  { replace kept with (removeExpired (clamp_expiry limit <$> loaded) now).1 by (by rewrite Hrem). apply removeExpired_sublist. }
  assert (Hev : evict cfg kept `sublist_of` clamp_expiry limit <$> loaded) by (etransitivity; [apply evict_sublist|done]).
  assert (Hfin : cookies_ok next (evict cfg kept)) by (eapply cookies_ok_sublist; [exact Hev|by apply cookies_ok_clamp]).
  assert (Hlim : within_limits cfg (evict cfg kept)) by (destruct Hcfg as (? & ? & _); apply evict_limits; lia).
  unfold eff_bind, eff_set. destruct (_ || _) eqn:Hsave; cbn [eff_when].
  - destruct (save_persistent_run (evict cfg kept) j) as (store & r & -> & Hr1 & Hr2). destruct r as [[]|e].
    + split_and!; [|done..]. intros _ _. cbn. split_and!; [done..|lia|by apply Hr1].
    + split_and!; [|done..]. intros Hl'. cbn in Hl'. congruence.
  - cbn [eff_ret]. split_and!; [|done..]. intros _ _. cbn. split_and!; [done..|lia|].
    apply orb_false_iff in Hsave as [Hs1 Hs2]. apply negb_false_iff, Z.eqb_eq in Hs2.
    rewrite clamp_none in * by done. assert (Heq : evict cfg kept = loaded).
    { apply (sublist_len_eq _ _ Hev Hs2). }
    rewrite Heq, Hload. f_equal. symmetry. apply persistent_all. eapply Forall_impl; [exact Hok|]. intros k (_ & Hp & _). exact Hp.
Qed.

End Invariant.

(** ** What the parser returns *)

Lemma trim_subset p l : trim p l ⊆ l.
Proof. destruct (trim_is_trimmed p l) as (before & after & Hl & _). rewrite Hl at 2. set_solver. Qed.

Lemma cut_at_subset x text : (cut_at x text).1 ⊆ text /\ default [] (cut_at x text).2 ⊆ text.
Proof.
  destruct (cut_at_cases x text) as [[_ ->]|(before & after & -> & _ & ->)]; cbn; set_solver.
Qed.

Lemma set_attribute_kept d k v s : let s' := set_attribute d k v s in
  c_name s'.1.1 = c_name s.1.1 /\ c_value s'.1.1 = c_value s.1.1 /\
  (c_path s'.1.1 = c_path s.1.1 \/ c_path s'.1.1 = Some (if starts_with 47 v then v else d)).
Proof.
  destruct s as [[r l] b]. unfold set_attribute. cbv zeta.
  repeat (destruct (str_eqb _ _); [repeat case_match; by split_and!; [..|(left + right)]|]). by split_and!; [..|left].
Qed.

Lemma attribute_step_kept d s piece : let s' := attribute_step d s piece in
  c_name s'.1.1 = c_name s.1.1 /\ c_value s'.1.1 = c_value s.1.1 /\
  forall source, piece ⊆ source -> path_from d source (c_path s.1.1) -> path_from d source (c_path s'.1.1).
Proof.
  unfold attribute_step. destruct (cut_at 61 piece) as [before after] eqn:Hcut. cbv zeta.
  destruct (1024 <? _); [done|]. destruct (set_attribute_kept d (trimHTTPTabOrSpace before) (trimHTTPTabOrSpace (default [] after)) s) as (-> & -> & Hp).
  split_and!; [done..|]. intros source Hs Hfrom. destruct Hp as [->| ->]; [done|]. intros q [= <-].
  destruct (starts_with 47 _) eqn:E; [right|by left]. split; [done|]. etransitivity; [apply trim_subset|].
  etransitivity; [|exact Hs]. pose proof (cut_at_subset 61 piece) as [_ Hsub]. by rewrite Hcut in Hsub.
Qed.

Lemma attributes_kept d source pieces : Forall (fun p => p ⊆ source) pieces -> forall s,
  let s' := foldl (attribute_step d) s pieces in
  c_name s'.1.1 = c_name s.1.1 /\ c_value s'.1.1 = c_value s.1.1 /\
  (path_from d source (c_path s.1.1) -> path_from d source (c_path s'.1.1)).
Proof.
  induction pieces as [|p pieces IH]; intros Hp s; [done|]. apply Forall_cons in Hp as [Hs Hp]. cbn [foldl].
  destruct (attribute_step_kept d s p) as (H1 & H2 & H3). destruct (IH Hp (attribute_step d s p)) as (-> & -> & H4).
  split_and!; [done..|]. intros Hf. apply H4. by apply H3.
Qed.

Lemma js_split_parts x l : Forall (fun p => p ⊆ l /\ x ∉ p) (js_split x l).
Proof.
  induction l as [|y l IH]; cbn [js_split]; [by repeat constructor; set_solver|].
  destruct (Z.eqb_spec y x) as [->|Hy].
  - constructor; [set_solver|]. eapply Forall_impl; [exact IH|]. cbv beta. set_solver.
  - destruct (js_split x l) as [|p ps]; [constructor; [set_solver|constructor]|].
    apply Forall_cons in IH as [Hp IH]. constructor; [set_solver|]. eapply Forall_impl; [exact IH|]. cbv beta. set_solver.
Qed.

(** The name and the value are parts of the field, of at most 4096 characters in
    all; a path from the field starts with a slash and holds no semicolon. *)
Lemma parse_facts header d parsed : parseCookieForRequest header d = Some parsed ->
  let c := pc_cookie parsed in
  hasCTLExcludingTab header = false /\ len (c_name c) + len (c_value c) <= 4096 /\ c_name c ⊆ header /\ c_value c ⊆ header /\
  forall q, c_path c = Some q -> q = d \/ (starts_with 47 q = true /\ q ⊆ header /\ 59 ∉ q).
Proof.
  rewrite parse_pieces. destruct (hasCTLExcludingTab header); [done|]. pose proof (js_split_parts 59 header) as Hparts.
  destruct (js_split 59 header) as [|piece pieces]; [done|]. cbn [cookie_of_pieces].
  apply Forall_cons in Hparts as [[Hpiece _] Hparts]. destruct (cut_at 61 piece) as [before after] eqn:Hcut.
  destruct (Z.ltb_spec 4096 (len (trimHTTPTabOrSpace (match after with None => [] | Some _ => before end))
    + len (trimHTTPTabOrSpace (match after with None => piece | Some after => after end)))) as [|Hlen]; [done|].
  destruct (foldl _ _ _) as [[r l] b] eqn:Hfold. intros [= <-]. cbn [pc_cookie].
  set (source := filter (fun c => c <> 59) header).
  assert (Hs : Forall (fun p => p ⊆ source) pieces).
  { eapply Forall_impl; [exact Hparts|]. intros p [Hp H59] c Hc. apply list_elem_of_filter. split; [intros ->; done|by apply Hp]. }
  destruct (attributes_kept d source pieces Hs (new_cookie (trimHTTPTabOrSpace (match after with None => [] | Some _ => before end))
    (trimHTTPTabOrSpace (match after with None => piece | Some after => after end)), [], false)) as (H1 & H2 & H3).
  rewrite Hfold in H1, H2, H3. cbn [fst snd] in *. pose proof (cut_at_subset 61 piece) as [Hs1 Hs2]. rewrite Hcut in Hs1, Hs2. cbn [fst snd] in *.
  assert (Hr : forall A (f : Cookie -> A), (forall v, f (set_c_unparsed v r) = f r) -> f (match l with [] => r | _ => set_c_unparsed (Some l) r end) = f r)
    by (intros A f Hf; by destruct l).
  rewrite !Hr by done. rewrite H1, H2. split_and!; [done|done| | |].
  - etransitivity; [apply trim_subset|]. etransitivity; [|exact Hpiece]. destruct after; [done|set_solver].
  - etransitivity; [apply trim_subset|]. etransitivity; [|exact Hpiece]. by destruct after.
  - intros q Hq. destruct (H3 ltac:(done) q Hq) as [->|[Hq1 Hq2]]; [by left|right]. split_and!; [done| |].
    + intros x Hx. specialize (Hq2 x Hx). by apply list_elem_of_filter in Hq2 as [_ Hq2].
    + intros Hx. specialize (Hq2 59 Hx). by apply list_elem_of_filter in Hq2 as [Hq2 _].
Qed.

(** ** What [setCookie] decides *)

Lemma existsb_subset {A} (p : A -> bool) (l k : list A) : l ⊆ k -> existsb p k = false -> existsb p l = false.
Proof.
  intros Hs Hk. apply not_true_is_false. intros (x & Hx & Hp)%existsb_exists. apply list_elem_of_In in Hx.
  apply not_true_iff_false in Hk. apply Hk, existsb_exists. exists x. split; [|done]. by apply list_elem_of_In, Hs.
Qed.

Lemma defaultPath_slash p : starts_with 47 (defaultPath p) = true.
Proof.
  unfold defaultPath. destruct (_ || _) eqn:E; [done|]. apply orb_false_iff in E as [_ E]. apply negb_false_iff in E.
  destruct (Z.leb_spec (last_index_of 47 p) 0) as [|Hl]; [done|]. destruct p as [|c p]; [done|].
  unfold subarray. change (Z.to_nat 0) with 0%nat. rewrite drop_0, Z.sub_0_r.
  destruct (Z.to_nat (last_index_of 47 (c :: p))) eqn:Hn; [lia|]. done.
Qed.

Lemma cookie_domain_spec cfg host attribute domain hostOnly : cookie_domain cfg host attribute = Some (domain, hostOnly) ->
  host <> [] -> domain <> [] /\ (if hostOnly : bool then domain = host
    else domainMatches host domain = true /\ exists a, canonicalDomain cfg a = Some domain).
Proof.
  unfold cookie_domain. destruct (canonicalDomain cfg _) as [a|] eqn:Ha; [|done]. cbv zeta.
  match goal with |- context [if ?p then [] else a] => set (a' := if p then [] else a) end. destruct (_ && negb (str_eqb a host)); [done|].
  destruct (Z.eqb_spec (len a') 0) as [Hz|Hz]; cbn [negb andb].
  - by intros [= <- <-].
  - destruct (domainMatches host a') eqn:Hm; [|done]. intros [= <- <-] _. split; [intros Heq; by rewrite Heq in Hz|]. split; [done|].
    exists (default [] attribute). rewrite Ha. f_equal. revert Hz. unfold a'. by case_match.
Qed.

Lemma cookie_expiry_persistent cfg c now expiry persistent : cookie_expiry cfg c now = (expiry, persistent) ->
  persistent = match expiry with None => false | Some _ => true end.
Proof. unfold cookie_expiry. destruct (c_maxAge c); [by intros [= <- <-]|]. destruct (c_expires c); by intros [= <- <-]. Qed.

(** The cookie that is stored, when one is. *)
Lemma decide_prototype cfg header url access now cookies idx next idx' :
  url_hostname url <> [] -> decide_cookie cfg header url access now cookies idx = Ok (Save next idx') ->
  exists prototype context, cookie_ok prototype /\ k_creationIndex prototype = idx /\
    readContext access = Ok context /\ set_by cfg url header context prototype /\
    (k_secure prototype = true \/ secureURL cfg url = true \/
     existsb (overlays (k_name prototype) (k_domain prototype) (k_path prototype)) (removeExpired cookies now).1 = false) /\
    replace_cookie cfg prototype context (removeExpired cookies now).1 now idx = Save next idx'.
Proof.
  intros Hhost H. unfold decide_cookie in H. rewrite clone_map in H.
  destruct (existsb _ header) eqn:Hoct; [done|].
  destruct (parseCookieForRequest header _) as [parsed|] eqn:Hparse; [|done].
  apply parse_facts in Hparse as (Hctl & Hlen & Hn & Hv & Hpath). cbv zeta in H. set (c := pc_cookie parsed) in *.
  destruct (_ && _) eqn:Hempty; [done|]. destruct (_ || _) eqn:Hforb in H; [done|]. apply orb_false_iff in Hforb as [Hf1 Hf2].
  destruct (cookie_domain cfg _ _) as [[domain hostOnly]|] eqn:Hdom; [|done].
  apply cookie_domain_spec in Hdom as [Hdne Hdm]; [|by destruct (url_hostname url)]. ok_inv H. cbv zeta in H.
  set (secure := bool_decide (c_secure c = Some true)) in *.
  set (site := match c_sameSite c with Some s => SiteOf s | None => DefaultSite end) in *.
  set (path := default (defaultPath (url_pathname url)) (c_path c)) in *.
  destruct (secure && negb (secureURL cfg url)) eqn:Hsec in H; [done|].
  destruct (_ && bool_decide (x_type x = NonHttpAccess)) eqn:Hhttp in H; [done|].
  destruct (negb (receiptAllowed site x)) eqn:Hreceipt in H; [done|]. destruct (_ && negb secure) eqn:Hsite in H; [done|].
  destruct (prefix_refused _ _ _ _ _) eqn:Hpre; [done|]. unfold prefix_refused in Hpre.
  rewrite !orb_false_iff in Hpre. destruct Hpre as [[Hpre1 Hpre2] Hpre3]. destruct (_ && existsb _ _) eqn:Hover in H; [done|].
  destruct (cookie_expiry cfg c now) as [expiry persistent] eqn:Hexp. injection H as H. eexists _, x.
  split_and!; [..|exact H]; [|done|done| |].
  - split; cbn [k_name k_value k_domain k_path k_persistent k_expiryTime k_sameSite k_secure k_hostOnly].
    + done.
    + intros [Hn0 Hv0]. by rewrite Hn0, Hv0 in Hempty.
    + by split.
    + split; by eapply existsb_subset; [|exact Hoct].
    + done.
    + unfold path. destruct (c_path c) as [q|]; [|apply defaultPath_slash].
      destruct (Hpath q eq_refl) as [->|(Hq & _)]; [apply defaultPath_slash|done].
    + by apply cookie_expiry_persistent in Hexp.
    + intros Hs. rewrite Hs in Hsite. by destruct secure.
    + intros Hs. rewrite Hs in Hpre1. by destruct secure.
    + intros Hs. rewrite Hs in Hpre2. cbn [andb] in Hpre2. rewrite !orb_false_iff, !negb_false_iff in Hpre2.
      destruct Hpre2 as [[[-> ->] _] Hpp]. by apply str_eqb_true in Hpp.
    + intros Hn0. rewrite Hn0 in Hpre3. by rewrite andb_true_l, orb_false_iff in Hpre3.
  - split; cbn [k_hostOnly k_domain k_path k_secure k_httpOnly k_sameSite].
    + exact Hdm.
    + unfold path. destruct (c_path c) as [q|]; [|by left]. destruct (Hpath q eq_refl) as [->|(_ & Hq & H59)]; [by left|right].
      split_and!; [done|done| |]; by eapply existsb_subset.
    + intros Hs. rewrite Hs in Hsec. by apply negb_false_iff in Hsec.
    + intros Hh. rewrite Hh in Hhttp. cbn [andb] in Hhttp. apply bool_decide_eq_false in Hhttp. by destruct (x_type x).
    + by apply negb_false_iff in Hreceipt.
  - cbn [k_secure k_name k_domain k_path]. apply andb_false_iff in Hover as [Hover|Hover]; [|by right; right].
    apply andb_false_iff in Hover as [Hover|Hover]; apply negb_false_iff in Hover; [by left|by right; left].
Qed.

Lemma cookies_ok_add next next' l p : cookies_ok next l -> cookie_ok p -> next <= next' ->
  cookie_key p ∉ cookie_key <$> l -> k_creationIndex p ∉ k_creationIndex <$> l -> 0 <= k_creationIndex p < next' ->
  cookies_ok next' (l ++ [p]).
Proof.
  intros (H1 & H2 & H3 & H4) Hp Hn Hk Hi Hr. split_and!.
  - rewrite fmap_app. apply NoDup_app. split_and!; [done| |apply NoDup_singleton].
    intros x Hx [->|Hn']%elem_of_cons; [done|by apply elem_of_nil in Hn'].
  - rewrite fmap_app. apply NoDup_app. split_and!; [done| |apply NoDup_singleton].
    intros x Hx [->|Hn']%elem_of_cons; [done|by apply elem_of_nil in Hn'].
  - apply Forall_app. split; [eapply Forall_impl; [exact H3|]; cbv beta; lia|by constructor].
  - apply Forall_app. split; [done|by constructor].
Qed.

Lemma NoDup_delete {A B} (f : A -> B) (l : list A) i x : NoDup (f <$> l) -> l !! i = Some x -> f x ∉ f <$> base.delete i l.
Proof.
  intros Hnd Hx. apply list_elem_of_split_length in Hx as (l1 & l2 & -> & ->). rewrite delete_middle.
  rewrite fmap_app in *. cbn [fmap list_fmap] in Hnd. apply NoDup_app in Hnd as (_ & Hd & Hn). apply NoDup_cons in Hn as [Hn _].
  intros [Hin|Hin]%elem_of_app; [|done]. apply (Hd _ Hin). by left.
Qed.

Section Replace.
Context (cfg : JarConfig) (Hcfg : config_ok cfg).

Lemma replace_ok prototype context l now idx next idx' :
  cookies_ok idx l -> within_limits cfg l -> 0 <= idx -> cookie_ok prototype -> k_creationIndex prototype = idx ->
  replace_cookie cfg prototype context l now idx = Save next idx' ->
  cookies_ok idx' next /\ within_limits cfg next /\ idx <= idx'.
Proof.
  intros Hl Hlim Hidx Hp Hpi H. unfold replace_cookie in H.
  set (finish := fun p l n => match k_expiryTime p with
    | Some e => if e <=? now then Save l n else Save (evict cfg (l ++ [p])) n | None => Save (evict cfg (l ++ [p])) n end) in H.
  assert (Hfinish : forall p l' n, cookies_ok n l' -> within_limits cfg l' -> cookies_ok n (l' ++ [p]) -> idx <= n ->
    finish p l' n = Save next idx' -> cookies_ok idx' next /\ within_limits cfg next /\ idx <= idx').
  { intros p l' n Hl' Hlim' Hadd Hn Hf.
    assert (Hev : cookies_ok n (evict cfg (l' ++ [p])) /\ within_limits cfg (evict cfg (l' ++ [p]))).
    { split; [eapply cookies_ok_sublist; [apply evict_sublist|done]|]. destruct Hcfg as (? & ? & _). apply evict_limits; lia. }
    unfold finish in Hf. destruct (k_expiryTime p) as [e|]; [destruct (e <=? now)|]; injection Hf as <- <-; tauto. }
  cbv zeta in H. fold finish in H. destruct (list_find _ l) as [[i existing]|] eqn:Hfind.
  - destruct (_ && k_httpOnly existing); [done|]. apply list_find_Some in Hfind as (Hi & Hsame & _).
    apply sameCookieKey_spec in Hsame. pose proof Hl as (Hk & Hx & Hr & _).
    assert (Hdel : base.delete i l `sublist_of` l) by apply sublist_delete.
    assert (Hexist : 0 <= k_creationIndex existing < idx).
    { rewrite Forall_forall in Hr. apply Hr. by eapply list_elem_of_lookup_2. }
    apply (Hfinish _ (base.delete i l) idx) in H; [done| | | |lia].
    + by eapply cookies_ok_sublist.
    + by eapply within_limits_sublist.
    + apply (cookies_ok_add idx); [by eapply cookies_ok_sublist|by destruct Hp|lia| | |cbn; lia].
      * change (cookie_key prototype ∉ cookie_key <$> base.delete i l). rewrite <- Hsame. by apply NoDup_delete.
      * cbn. by apply NoDup_delete.
  - apply list_find_None in Hfind. apply (Hfinish _ l (idx + 1)) in H; [done| |done| |lia].
    + eapply cookies_ok_mono; [|exact Hl]. lia.
    + apply (cookies_ok_add idx); [done|done|lia| | |lia].
      * intros (k & Hk & Hin)%list_elem_of_fmap. rewrite Forall_forall in Hfind. apply (Hfind k Hin), sameCookieKey_spec. done.
      * intros (k & Hk & Hin)%list_elem_of_fmap. destruct Hl as (_ & _ & Hr & _). rewrite Forall_forall in Hr. specialize (Hr k Hin). cbv beta in Hr. lia.
Qed.

End Replace.

(** ** The operations keep the invariant *)

Section Operations.
Context (cfg : JarConfig) (Hcfg : config_ok cfg).
Context {S : Type} `{CookieStoreLaws S}.

Lemma parse_host input url : parseURL cfg input = Ok url -> url_hostname url <> [].
Proof.
  unfold parseURL. intros Hp. ok_inv Hp. ok_inv Hp. injection Hp as <-. apply Z.eqb_neq in Hc. by destruct (url_hostname x).
Qed.

Lemma open_jar_ok clock (j : CookieJar S) : jar_ok cfg j -> let '(j', r) := open_jar cfg clock j in
  jar_ok cfg j' /\ (r = Ok tt -> j_loaded j' = true /\ j_closed j' = false).
Proof.
  intros Hj. unfold open_jar, eff_bind at 1, eff_get. destruct (j_closed j) eqn:Hc; [done|]. cbn [eff_bind eff_ret].
  pose proof (ensureLoaded_ok cfg Hcfg clock j Hj) as He. destruct (ensureLoaded cfg clock j) as [j' r].
  destruct He as (He1 & He2 & He3 & _). split; [done|]. intros ->. split; [by apply He3|by rewrite He2].
Qed.

Lemma save_ok next n (j : CookieJar S) : j_loaded j = true -> j_closed j = false -> jar_ok cfg j ->
  cookies_ok n next -> within_limits cfg next -> j_nextCreationIndex j <= n ->
  jar_ok cfg (save next (set_j_nextCreationIndex n j)).1.
Proof.
  intros Hl Hc Hj Hok Hlim Hn. destruct (Hj Hl Hc) as (Hj1 & Hj2 & Hj3 & Hj4). unfold save, eff_bind.
  destruct (save_persistent_run next (set_j_nextCreationIndex n j)) as (store & r & -> & Hr1 & Hr2).
  destruct r as [[]|e]; intros _ _; cbn; split_and!; try done; try lia.
  - by apply Hr1.
  - by eapply cookies_ok_mono.
  - by rewrite Hr2.
Qed.

Lemma save_same next (j : CookieJar S) : j_loaded j = true -> j_closed j = false -> jar_ok cfg j ->
  cookies_ok (j_nextCreationIndex j) next -> within_limits cfg next -> jar_ok cfg (save next j).1.
Proof.
  intros Hl Hc Hj Hok Hlim. replace j with (set_j_nextCreationIndex (j_nextCreationIndex j) j) at 2 by by destruct j.
  by apply save_ok.
Qed.

(** An operation that opens the jar and goes on from there. *)
Lemma opened {A} (m : CookieJar S -> CookieJar S * result A) clock (k : Eff (CookieJar S) A) (j : CookieJar S) :
  m = eff_bind (open_jar cfg clock) (fun _ => k) -> jar_ok cfg j ->
  (forall j', j_loaded j' = true -> j_closed j' = false -> jar_ok cfg j' -> jar_ok cfg (k j').1) -> jar_ok cfg (m j).1.
Proof.
  intros -> Hj Hk. pose proof (open_jar_ok clock j Hj) as Ho. unfold eff_bind. destruct (open_jar cfg clock j) as [j' [x|e]]; [|by destruct Ho].
  destruct x, Ho as [Hj' Hopen]. destruct (Hopen eq_refl). by apply Hk.
Qed.

Lemma read_clock_run now (j : CookieJar S) : (exists t, now = Some t /\ read_clock now j = (j, Ok t)) \/
  (exists e, read_clock now j = (j, Err e)).
Proof. destruct now as [t|]; [left; by exists t|right; by eexists]. Qed.

Lemma setCookie_ok loadClock clock header input access (j : CookieJar S) : jar_ok cfg j ->
  jar_ok cfg (setCookie cfg loadClock clock header input access j).1.
Proof.
  intros Hj. eapply opened; [reflexivity|done|]. clear j Hj. intros j Hl Hc Hj. unfold eff_bind at 1, eff_lift at 1.
  destruct (parseURL cfg input) as [url|e] eqn:Hurl; [|done]. apply parse_host in Hurl.
  unfold eff_bind at 1. destruct (read_clock_run clock j) as [(now & _ & ->)|[e ->]]; [|done].
  unfold eff_bind at 1, eff_get at 1. unfold eff_bind at 1, eff_get at 1. unfold eff_bind at 1, eff_lift at 1.
  destruct (decide_cookie _ _ _ _ _ _ _) as [[|next idx']|e] eqn:Hd; [done| |done].
  apply decide_prototype in Hd as (prototype & context & Hp & Hpi & _ & _ & _ & Hrep); [|done].
  destruct (Hj Hl Hc) as (Hj1 & Hj2 & Hj3 & _). apply (replace_ok cfg Hcfg) in Hrep as (Hr1 & Hr2 & Hr3); try done.
  2: { eapply cookies_ok_sublist; [apply removeExpired_sublist|done]. }
  2: { eapply within_limits_sublist; [apply removeExpired_sublist|done]. }
  pose proof (save_ok next idx' j Hl Hc Hj Hr1 Hr2 Hr3) as Hs. unfold eff_bind at 1, eff_set at 1. unfold eff_bind at 1.
  by destruct (save next (set_j_nextCreationIndex idx' j)) as [j' [x|e]].
Qed.

Lemma getCookieHeader_ok loadClock clock input access (j : CookieJar S) : jar_ok cfg j ->
  jar_ok cfg (getCookieHeader cfg loadClock clock input access j).1.
Proof.
  intros Hj. eapply opened; [reflexivity|done|]. clear j Hj. intros j Hl Hc Hj. unfold eff_bind at 1, eff_lift at 1.
  destruct (parseURL cfg input) as [url|e] eqn:Hurl; [|done].
  unfold eff_bind at 1. destruct (read_clock_run clock j) as [(now & _ & ->)|[e ->]]; [|done].
  unfold eff_bind at 1, eff_get at 1. rewrite clone_map.
  pose proof (removeExpired_sublist (j_cookies j) now) as Hs. destruct (removeExpired (j_cookies j) now) as [next expired].
  unfold eff_bind at 1, eff_lift at 1. destruct (readContext access) as [context|e]; [|done]. cbv zeta.
  unfold eff_bind, eff_when. destruct (expired || _); [|done]. destruct (Hj Hl Hc) as (Hj1 & Hj2 & _).
  set (touch := fun cookie => if selects _ _ _ _ cookie then _ else cookie).
  assert (Ht : forall k, touch k = k \/ exists t, touch k = set_k_lastAccessTime t k) by (intros k; unfold touch; case_match; [right; by eexists|by left]).
  assert (Hsave : jar_ok cfg (save (touch <$> next) j).1).
  { apply save_same; [done..| |].
    - apply cookies_ok_touch; [done|]. by eapply cookies_ok_sublist.
    - apply within_limits_touch; [done|]. by eapply within_limits_sublist. }
  by destruct (save (touch <$> next) j) as [j' [x|e]].
Qed.

Lemma snapshot_ok loadClock clock (j : CookieJar S) : jar_ok cfg j -> jar_ok cfg (snapshot cfg loadClock clock j).1.
Proof.
  intros Hj. eapply opened; [reflexivity|done|]. clear j Hj. intros j Hl Hc Hj.
  unfold eff_bind at 1. destruct (read_clock_run clock j) as [(now & _ & ->)|[e ->]]; [|done].
  unfold eff_bind at 1, eff_get at 1. rewrite clone_map.
  pose proof (removeExpired_sublist (j_cookies j) now) as Hs. destruct (removeExpired (j_cookies j) now) as [next expired].
  unfold eff_bind, eff_when. destruct expired; [|done]. destruct (Hj Hl Hc) as (Hj1 & Hj2 & _).
  assert (Hsave : jar_ok cfg (save next j).1).
  { apply save_same; [done..|by eapply cookies_ok_sublist|by eapply within_limits_sublist]. }
  by destruct (save next j) as [j' [x|e]].
Qed.

Lemma clear_ok loadClock (j : CookieJar S) : jar_ok cfg j -> jar_ok cfg (clear cfg loadClock j).1.
Proof.
  intros Hj. eapply opened; [reflexivity|done|]. clear j Hj. intros j Hl Hc Hj. destruct Hcfg as (? & ? & _).
  apply save_same; [done..| |].
  - split_and!; constructor.
  - split; [change (0 <= maxCookies cfg); lia|]. intros d. change (0 <= maxCookiesPerDomain cfg). lia.
Qed.

Lemma close_ok loadClock (j : CookieJar S) : jar_ok cfg j -> jar_ok cfg (close cfg loadClock j).1.
Proof.
  intros Hj. unfold close, eff_bind at 1, eff_get at 1. destruct (j_closed j) eqn:Hc; [done|].
  pose proof (ensureLoaded_ok cfg Hcfg loadClock j Hj) as He. unfold eff_bind at 1.
  destruct (ensureLoaded cfg loadClock j) as [j' r]. destruct He as (Hj' & Hc' & Hl' & _). destruct r as [x|e]; [|done].
  unfold eff_bind at 1, eff_get at 1. unfold eff_bind at 1.
  destruct (save_persistent_run (j_cookies j') j') as (store & r & -> & Hr1 & Hr2). destruct r as [[]|e].
  - unfold eff_bind, eff_set, close_store. destruct (closeStore _) as [store' r']. intros _ Hcl. done.
  - intros Hl Hcl. cbn in *. destruct (Hj' Hl Hcl) as (? & ? & ? & ?). split_and!; try done. by rewrite Hr2.
Qed.

Lemma jar_call_ok call (j : CookieJar S) : jar_ok cfg j -> jar_ok cfg (call_jar cfg call j).
Proof.
  intros Hj. destruct call; cbn [call_jar]; [by apply setCookie_ok|by apply getCookieHeader_ok|by apply snapshot_ok|by apply clear_ok|by apply close_ok].
Qed.

Lemma jar_run_ok calls (j : CookieJar S) : jar_ok cfg j -> jar_ok cfg (foldl (fun jar call => call_jar cfg call jar) j calls).
Proof. revert j. induction calls as [|call calls IH]; intros j Hj; [done|]. cbn [foldl]. by apply IH, jar_call_ok. Qed.

End Operations.

#[export] Instance memory_store_laws : CookieStoreLaws MemoryCookieJarStore.
Proof.
  split; [|done]. intros s l s' [= <-]. cbn. by rewrite !clone_map.
Qed.


