(* ===== verification/JarPolicy.v ===== *)
(** * The cookie jar: who sees a cookie, and who may set it

    What [getCookieHeader] sends, in terms of the domains and paths of RFC
    6265bis, and what a call of [setCookie] may change in the jar. *)

From stdpp Require Import sorting.
From S2P Require Import Prelude Ascii Effects FetchHeaders CookieDate Cookies CookiesTheory CookieJar JarEviction CookieJarTheory.
Local Open Scope Z_scope.

(** ** Specification *)

(** A host is in a domain: it is the domain, or a name below it. *)
Definition in_domain (host domain : jsstr) : Prop :=
  host = domain \/ (isIPAddress host = false /\ exists below, host = below ++ 46 :: domain).

(** A path is under another: equal, or longer by whole segments. *)
Definition under_path (request path : jsstr) : Prop :=
  request = path \/ exists rest, request = path ++ rest /\ (last path = Some 47 \/ head rest = Some 47).

(** The rules for sending a cookie. *)
Record may_send (cfg : JarConfig) (url : URLRecord) (context : RequiredContext) (now : Z) (k : StoredCookie) : Prop := mk_may_send {
  send_live : forall t, k_expiryTime k = Some t -> now < t;
  send_domain : if k_hostOnly k then to_lower (url_hostname url) = k_domain k
    else in_domain (to_lower (url_hostname url)) (k_domain k) /\
         forall isPublicSuffix, publicSuffixes cfg = Some isPublicSuffix -> isPublicSuffix (k_domain k) = false;
  send_path : under_path (url_pathname url) (k_path k);
  send_secure : k_secure k = true -> secureURL cfg url = true;
  send_httpOnly : k_httpOnly k = true -> x_type context = HttpAccess;
  send_sameSite : k_sameSite k = SiteOf NoneSite \/ x_sameSite context = SameSite \/
    (x_type context = HttpAccess /\ x_topLevelNavigation context = true /\ isSafeMethod (x_method context) = true /\
     (k_sameSite k = SiteOf Lax \/ k_sameSite k = DefaultSite));
}.

(** The order of the header: longer paths first, then older cookies. *)
Definition header_before (a b : StoredCookie) : Prop :=
  len (k_path b) < len (k_path a) \/
  (len (k_path a) = len (k_path b) /\
   (k_creationTime a < k_creationTime b \/ (k_creationTime a = k_creationTime b /\ k_creationIndex a < k_creationIndex b))).

(** A live secure cookie that a cookie of this name, domain and path would overlay. *)
Definition overlaid (now : Z) (name domain path : jsstr) (k : StoredCookie) : Prop :=
  k_secure k = true /\ live now k = true /\ k_name k = name /\
  (in_domain (k_domain k) domain \/ in_domain domain (k_domain k)) /\ under_path path (k_path k).

(** The cookies of a jar once it is open and loaded. *)
Definition opened_cookies (cfg : JarConfig) {S} `{CookieStore S} (clock : option Z) (j : CookieJar S) : list StoredCookie :=
  j_cookies (open_jar cfg clock j).1.

(** Three cookies for the examples. *)
Definition sent_options : CookieJarOptions := mk_jar_options sample_parse None None None None None.
Definition sent_calls : list jar_call :=
  [CallSet (Some 1000) (Some 1000) (u "a=1; Domain=a.test; Path=/; Secure") (inl (u "https://www.a.test/")) plain_access;
   CallSet (Some 1000) (Some 2000) (u "b=2; Path=/x") (inl (u "https://www.a.test/")) plain_access;
   CallSet (Some 1000) (Some 3000) (u "c=3; Path=/z") (inl (u "https://www.a.test/")) plain_access].

(** ** Matching *)

Lemma has_prefix_spec p l : has_prefix p l = true <-> exists rest, l = p ++ rest.
Proof.
  unfold has_prefix, str_eqb. rewrite bool_decide_eq_true. split.
  - intros H. exists (drop (length p) l). rewrite <- H at 1. by rewrite take_drop.
  - intros [rest ->]. apply take_app_length.
Qed.

Lemma has_suffix_spec s l : has_suffix s l = true <-> exists before, l = before ++ s.
Proof.
  unfold has_suffix. rewrite has_prefix_spec. split.
  - intros [rest H]. exists (reverse rest). apply (inj reverse). by rewrite reverse_app, reverse_involutive.
  - intros [before ->]. exists (reverse before). by rewrite reverse_app.
Qed.

Lemma domainMatches_spec host domain : domainMatches host domain = true <-> in_domain host domain.
Proof.
  unfold domainMatches, in_domain. destruct (str_eqb host domain) eqn:E.
  - apply str_eqb_true in E. tauto.
  - apply str_eqb_false in E. rewrite andb_true_iff, negb_true_iff, has_suffix_spec. tauto.
Qed.

Lemma ends_with_spec x l : ends_with x l = true <-> last l = Some x.
Proof. unfold ends_with. apply bool_decide_eq_true. Qed.

Lemma pathMatches_spec request path : pathMatches request path = true <-> under_path request path.
Proof.
  unfold pathMatches, under_path. destruct (str_eqb request path) eqn:E; [apply str_eqb_true in E; tauto|].
  apply str_eqb_false in E. destruct (has_prefix path request) eqn:Hp; cbn [negb].
  - apply has_prefix_spec in Hp as [rest ->]. rewrite orb_true_iff, ends_with_spec. unfold unit_at. rewrite bool_decide_eq_true.
    assert (Hat : at_ (path ++ rest) (len path) = head rest).
    { destruct rest as [|c rest]; [|apply at_app_mid]. rewrite app_nil_r. destruct (at_ path (len path)) eqn:Ha; [|done]. apply at_Some in Ha. lia. }
    rewrite Hat. split; [intros H; right; by exists rest|]. intros [H|(r & Hr & H)]; [done|]. apply app_inv_head in Hr. by subst r.
  - split; [done|]. intros [H|(rest & -> & _)]; [done|]. apply not_true_iff_false in Hp. exfalso. apply Hp, has_prefix_spec. by exists rest.
Qed.

Lemma retrieval_spec s context : retrievalAllowed s context = true <-> s = SiteOf NoneSite \/ x_sameSite context = SameSite \/
    (x_type context = HttpAccess /\ x_topLevelNavigation context = true /\ isSafeMethod (x_method context) = true /\
     (s = SiteOf Lax \/ s = DefaultSite)).
Proof.
  unfold retrievalAllowed. destruct (bool_decide (s = SiteOf NoneSite)) eqn:E1; cbn [orb].
  - apply bool_decide_eq_true in E1. tauto.
  - apply bool_decide_eq_false in E1. destruct (bool_decide (x_sameSite context = SameSite)) eqn:E2.
    + apply bool_decide_eq_true in E2. tauto.
    + apply bool_decide_eq_false in E2. rewrite !andb_true_iff, orb_true_iff, !bool_decide_eq_true. tauto.
Qed.

(** The conditions in the loop of [getCookieHeader] are the rules for sending. *)
Lemma selects_spec cfg url context now k : (live now k = true /\ selects cfg url (to_lower (url_hostname url)) context k = true) <->
  may_send cfg url context now k.
Proof.
  assert (Hlive : live now k = true <-> forall t, k_expiryTime k = Some t -> now < t).
  { unfold live. destruct (k_expiryTime k) as [t|]; [rewrite Z.ltb_lt|]; split; try done; [by intros ? ? [= <-]|by intros H; apply H]. }
  rewrite Hlive. unfold selects. split.
  - intros [Hl Hs]. destruct (if k_hostOnly k then _ else _) eqn:H1 in Hs; [done|]. destruct (_ && negb (k_hostOnly k)) eqn:H2 in Hs; [done|].
    destruct (pathMatches _ _) eqn:H3 in Hs; [|done]. destruct (k_secure k && _) eqn:H4 in Hs; [done|].
    destruct (k_httpOnly k && _) eqn:H5 in Hs; [done|]. cbn [negb] in Hs. split; [done| |by apply pathMatches_spec| | |by apply retrieval_spec].
    + destruct (k_hostOnly k); [apply negb_false_iff, str_eqb_true in H1; done|]. apply negb_false_iff in H1. split; [by apply domainMatches_spec|].
      intros f Hf. rewrite Hf in H2. cbn [negb] in H2. by rewrite andb_true_r in H2.
    + intros Hk. rewrite Hk in H4. by apply negb_false_iff in H4.
    + intros Hk. rewrite Hk in H5. cbn [andb] in H5. apply bool_decide_eq_false in H5. by destruct (x_type context).
  - intros [Hl Hd Hp Hsec Hh Hs]. split; [done|].
    assert (H1 : (if k_hostOnly k then negb (str_eqb (k_domain k) (to_lower (url_hostname url)))
      else negb (domainMatches (to_lower (url_hostname url)) (k_domain k))) = false).
    { destruct (k_hostOnly k); apply negb_false_iff; [unfold str_eqb; by apply bool_decide_eq_true|by apply domainMatches_spec, Hd]. }
    rewrite H1. assert (H2 : match publicSuffixes cfg with None => false | Some f => f (k_domain k) end && negb (k_hostOnly k) = false).
    { destruct (k_hostOnly k); [apply andb_false_r|]. destruct (publicSuffixes cfg) as [f|]; [|done]. rewrite (proj2 Hd f eq_refl). done. }
    rewrite H2. rewrite (proj2 (pathMatches_spec _ _) Hp). cbn [negb].
    assert (H4 : k_secure k && negb (secureURL cfg url) = false) by (destruct (k_secure k); [by rewrite Hsec|done]). rewrite H4.
    assert (H5 : k_httpOnly k && bool_decide (x_type context = NonHttpAccess) = false) by (destruct (k_httpOnly k); [by rewrite Hh|done]).
    rewrite H5. by apply retrieval_spec.
Qed.

(** ** What is sent *)

Lemma strictly_sorted l : NoDup (k_creationIndex <$> l) -> StronglySorted (sorted_by compareForHeader) l ->
  StronglySorted header_before l.
Proof.
  induction l as [|a l IH]; intros Hn Hs; [constructor|]. cbn [fmap list_fmap] in Hn. apply NoDup_cons in Hn as [Ha Hn].
  apply StronglySorted_cons in Hs as [Hf Hs]. constructor; [by apply IH|]. rewrite Forall_forall in *. intros b Hb.
  specialize (Hf b Hb). assert (Hi : k_creationIndex a <> k_creationIndex b) by (intros Heq; apply Ha; rewrite Heq; by apply list_elem_of_fmap_2).
  unfold sorted_by, compareForHeader in Hf. unfold header_before.
  destruct (Z.eqb_spec (len (k_path a)) (len (k_path b))); cbn [negb] in Hf; [|lia].
  destruct (Z.eqb_spec (k_creationTime a) (k_creationTime b)); cbn [negb] in Hf; lia.
Qed.

Section Sent.
Context (cfg : JarConfig) (Hcfg : config_ok cfg).
Context {S : Type} `{CookieStoreLaws S}.

Lemma get_run loadClock clock input access (j j' : CookieJar S) text :
  jar_ok cfg j -> getCookieHeader cfg loadClock clock input access j = (j', Ok text) ->
  exists url context now, parseURL cfg input = Ok url /\ readContext access = Ok context /\ clock = Some now /\
    cookies_ok (j_nextCreationIndex (open_jar cfg loadClock j).1) (opened_cookies cfg loadClock j) /\
    text = js_join (u "; ") (cookie_text <$> js_sort compareForHeader (set_k_lastAccessTime now <$>
      filter (fun k => selects cfg url (to_lower (url_hostname url)) context k = true)
        (removeExpired (opened_cookies cfg loadClock j) now).1)).
Proof.
  intros Hj Hrun. unfold opened_cookies. pose proof (open_jar_ok cfg Hcfg loadClock j Hj) as Ho.
  unfold getCookieHeader, eff_bind at 1 in Hrun. destruct (open_jar cfg loadClock j) as [j1 [x|e]]; [|done].
  destruct x, Ho as [Hj1 Hopen]. destruct (Hopen eq_refl) as [Hl Hc]. destruct (Hj1 Hl Hc) as (Hok & _). cbn [fst].
  unfold eff_bind at 1, eff_lift at 1 in Hrun. destruct (parseURL cfg input) as [url|e]; [|done].
  unfold eff_bind at 1 in Hrun. unfold read_clock in Hrun. destruct clock as [now|]; [|done]. cbn [eff_ret] in Hrun.
  unfold eff_bind at 1, eff_get at 1 in Hrun. rewrite clone_map in Hrun.
  destruct (removeExpired (j_cookies j1) now) as [next expired] eqn:Hrem. unfold eff_bind at 1, eff_lift at 1 in Hrun.
  destruct (readContext access) as [context|e]; [|done]. cbv zeta in Hrun. exists url, context, now. split_and!; [done..|].
  unfold eff_bind in Hrun. destruct (eff_when _ _ _) as [j2 [x|e]]; [|done]. injection Hrun as _ <-. by rewrite Hrem.
Qed.

Lemma sent_cookies loadClock clock input access (j j' : CookieJar S) text :
  jar_ok cfg j -> getCookieHeader cfg loadClock clock input access j = (j', Ok text) ->
  exists url context now sent, parseURL cfg input = Ok url /\ readContext access = Ok context /\ clock = Some now /\
    text = js_join (u "; ") (cookie_text <$> sent) /\ StronglySorted header_before sent /\
    forall k, k ∈ sent <-> exists k0, k0 ∈ opened_cookies cfg loadClock j /\ may_send cfg url context now k0 /\ k = set_k_lastAccessTime now k0.
Proof.
  intros Hj Hrun. apply get_run in Hrun as (url & context & now & Hu & Hx & Hn & Hok & ->); [|done].
  set (l := opened_cookies cfg loadClock j) in *. exists url, context, now. eexists. split_and!; [done..| |].
  - apply strictly_sorted; [|apply StronglySorted_merge_sort; apply _]. rewrite js_sort_perm. destruct Hok as (_ & Hi & _).
    rewrite <- list_fmap_compose. change (k_creationIndex ∘ set_k_lastAccessTime now) with k_creationIndex.
    eapply sublist_NoDup; [exact Hi|]. apply fmap_sublist. etransitivity; [apply sublist_filter|apply removeExpired_sublist].
  - intros k. rewrite js_sort_perm. rewrite list_elem_of_fmap. split.
    + intros (k0 & -> & Hin). apply list_elem_of_filter in Hin as [Hs Hin]. apply list_elem_of_filter in Hin as [Hl Hin].
      exists k0. split_and!; [done| |done]. by apply selects_spec.
    + intros (k0 & Hin & Hm & ->). apply selects_spec in Hm as [Hl Hs]. exists k0. split; [done|].
      apply list_elem_of_filter. split; [done|]. by apply list_elem_of_filter.
Qed.

End Sent.

(** C13: In every run, the [Cookie] header for a request holds the name and value of
    exactly the cookies of the jar that RFC 6265bis sends: not expired, of the host
    or a domain above it that is no public suffix, with a path above that of the
    request, secure ones to a secure URL only, HttpOnly ones to no script, and
    others than [SameSite=None] to another site only in safe navigations; longer
    paths first, then older cookies. *)
Theorem cookies_sent (options : CookieJarOptions) (cfg : JarConfig) (S : Type) (store_calls : CookieStore S)
    (laws : CookieStoreLaws S) (calls : list jar_call) (store : S)
    (loadClock clock : option Z) (input : jsstr + URLRecord) (access : CookieAccessContext) (j' : CookieJar S) (text : jsstr) :
  jar_config options = Ok cfg ->
  getCookieHeader cfg loadClock clock input access (run_jar cfg calls store) = (j', Ok text) ->
  exists url context now sent, parseURL cfg input = Ok url /\ readContext access = Ok context /\ clock = Some now /\
    text = js_join (u "; ") (cookie_text <$> sent) /\ StronglySorted header_before sent /\
    forall k, k ∈ sent <-> exists k0, k0 ∈ opened_cookies cfg loadClock (run_jar cfg calls store) /\
      may_send cfg url context now k0 /\ k = set_k_lastAccessTime now k0.
Proof.
  intros Hcfg Hrun. apply jar_config_ok in Hcfg. eapply sent_cookies; [done..| |exact Hrun]. by apply jar_run_ok.
Qed.

(** A run with two cookies for a request: one is secure, the other for scripts too. *)
Lemma cookies_sent_witness : exists cfg j' text, jar_config sent_options = Ok cfg /\
  getCookieHeader cfg (Some 5000) (Some 5000) (inl (u "https://www.a.test/x/y")) plain_access
    (run_jar cfg sent_calls ([] : MemoryCookieJarStore)) = (j', Ok text) /\
  text = u "b=2; a=1" /\
  exists url context now sent, parseURL cfg (inl (u "https://www.a.test/x/y")) = Ok url /\
    text = js_join (u "; ") (cookie_text <$> sent) /\
    forall k, k ∈ sent <-> exists k0, k0 ∈ opened_cookies cfg (Some 5000) (run_jar cfg sent_calls ([] : MemoryCookieJarStore)) /\
      may_send cfg url context now k0 /\ k = set_k_lastAccessTime now k0.
Proof.
  destruct (jar_config sent_options) as [cfg|e] eqn:Hcfg; [|by vm_compute in Hcfg]. exists cfg.
  destruct (getCookieHeader cfg (Some 5000) (Some 5000) (inl (u "https://www.a.test/x/y")) plain_access
    (run_jar cfg sent_calls ([] : MemoryCookieJarStore))) as [j' [text|e]] eqn:Hget.
  - exists j', text. split; [done|]. split; [done|]. split.
    + vm_compute in Hcfg. injection Hcfg as <-. vm_compute in Hget. by injection Hget as _ <-.
    + destruct (cookies_sent sent_options cfg MemoryCookieJarStore _ _ sent_calls [] (Some 5000) (Some 5000)
        (inl (u "https://www.a.test/x/y")) plain_access j' text Hcfg Hget) as (url & context & now & sent & H1 & _ & _ & H2 & _ & H3).
      by exists url, context, now, sent.
  - vm_compute in Hcfg. injection Hcfg as <-. by vm_compute in Hget.
Defined.

(** ** What may be set *)

Lemma replace_members cfg p context l now idx next idx' : replace_cookie cfg p context l now idx = Save next idx' ->
  forall k, k ∈ next -> k ∈ l \/ exists t i, k = set_k_creationIndex i (set_k_creationTime t p).
Proof.
  intros H k Hk. unfold replace_cookie in H. cbv zeta in H.
  assert (Hf : forall q l', l' ⊆ l -> (exists t i, q = set_k_creationIndex i (set_k_creationTime t p)) ->
    forall n, match k_expiryTime q with
      | Some e => if e <=? now then Save l' n else Save (evict cfg (l' ++ [q])) n | None => Save (evict cfg (l' ++ [q])) n end = Save next idx' ->
    k ∈ l \/ exists t i, k = set_k_creationIndex i (set_k_creationTime t p)).
  { intros q l' Hl' Hq n Hs. assert (Hnext : k ∈ l' ++ [q] -> k ∈ l \/ exists t i, k = set_k_creationIndex i (set_k_creationTime t p)).
    { intros [Hin| ->%list_elem_of_singleton]%elem_of_app; [left; by apply Hl'|by right]. }
    assert (Hev : k ∈ evict cfg (l' ++ [q]) -> k ∈ l' ++ [q]) by (intros Hin; eapply elem_of_sublist; [exact Hin|apply evict_sublist]).
    destruct (k_expiryTime q) as [e|]; [destruct (e <=? now)|]; injection Hs as <- _; [left; by apply Hl'|by apply Hnext, Hev..]. }
  destruct (list_find _ l) as [[i existing]|] eqn:Hfind.
  - destruct (_ && k_httpOnly existing); [done|]. eapply Hf; [| |exact H].
    + apply sublist_subseteq, sublist_delete.
    + by eexists _, _.
  - eapply Hf; [done| |exact H]. exists (k_creationTime p), (k_creationIndex p). by destruct p.
Qed.

(** A cookie that replaces one is set by a request that may see it. *)
Lemma replace_httpOnly cfg p context l now idx next idx' h : NoDup (cookie_key <$> l) ->
  replace_cookie cfg p context l now idx = Save next idx' -> x_type context = NonHttpAccess ->
  h ∈ l -> k_httpOnly h = true -> cookie_key p <> cookie_key h.
Proof.
  intros Hnd H Hx Hh Hho Heq. unfold replace_cookie in H. cbv zeta in H.
  destruct (list_find _ l) as [[i existing]|] eqn:Hfind.
  - apply list_find_Some in Hfind as (Hi & Hsame & _). apply sameCookieKey_spec in Hsame.
    apply list_elem_of_lookup in Hh as [j Hj].
    assert (Hij : i = j).
    { eapply NoDup_lookup; [exact Hnd| |]; rewrite list_lookup_fmap, ?Hi, ?Hj; cbn; [done|]. by rewrite Hsame, Heq. }
    subst j. assert (existing = h) as -> by congruence. rewrite Hx, Hho in H. by rewrite bool_decide_true in H.
  - apply list_find_None in Hfind. rewrite Forall_forall in Hfind. apply (Hfind h Hh), sameCookieKey_spec. done.
Qed.

(** A new cookie from an insecure URL overlays no live secure one. *)
Lemma overlays_spec now name domain path l : existsb (overlays name domain path) (removeExpired l now).1 = false ->
  forall k, k ∈ l -> ~ overlaid now name domain path k.
Proof.
  intros He k Hk (Hs & Hl & Hn & Hd & Hp). apply not_true_iff_false in He. apply He, existsb_exists. exists k. split.
  - apply list_elem_of_In, list_elem_of_filter. done.
  - unfold overlays. rewrite !andb_true_iff, orb_true_iff, !domainMatches_spec, pathMatches_spec. unfold str_eqb. rewrite bool_decide_eq_true. tauto.
Qed.

Section SetRun.
Context (cfg : JarConfig) (Hcfg : config_ok cfg).
Context {S : Type} `{CookieStoreLaws S}.

(** A save leaves the new cookies, or the old ones. *)
Lemma save_cookies next n (j : CookieJar S) : let '(j', r) := save next (set_j_nextCreationIndex n j) in
  j_cookies j' = (match r with Ok _ => next | Err _ => j_cookies j end).
Proof.
  unfold save, eff_bind. destruct (save_persistent_run next (set_j_nextCreationIndex n j)) as (store & r & -> & _).
  by destruct r as [[]|e].
Qed.

(** What a call of [setCookie] decides on an open jar. *)
Lemma set_run loadClock clock header input access (j j' : CookieJar S) r :
  jar_ok cfg j -> setCookie cfg loadClock clock header input access j = (j', r) ->
  let l := opened_cookies cfg loadClock j in
  (j_cookies j' = l /\ r <> Ok true) \/
  exists url context now idx idx' prototype next, parseURL cfg input = Ok url /\ readContext access = Ok context /\ clock = Some now /\
    cookies_ok idx l /\ cookie_ok prototype /\ set_by cfg url header context prototype /\
    (k_secure prototype = true \/ secureURL cfg url = true \/
     existsb (overlays (k_name prototype) (k_domain prototype) (k_path prototype)) (removeExpired l now).1 = false) /\
    replace_cookie cfg prototype context (removeExpired l now).1 now idx = Save next idx' /\
    j_cookies j' = next /\ r = Ok true.
Proof.
  intros Hj Hrun. unfold opened_cookies. pose proof (open_jar_ok cfg Hcfg loadClock j Hj) as Ho.
  unfold setCookie, eff_bind at 1 in Hrun. destruct (open_jar cfg loadClock j) as [j1 [x|e]]; [|injection Hrun as <- <-; by left].
  destruct x, Ho as [Hj1 Hopen]. destruct (Hopen eq_refl) as [Hl Hc]. destruct (Hj1 Hl Hc) as (Hok & _). cbn [fst].
  unfold eff_bind at 1, eff_lift at 1 in Hrun. destruct (parseURL cfg input) as [url|e] eqn:Hurl; [|injection Hrun as <- <-; by left].
  unfold eff_bind at 1, read_clock in Hrun. destruct clock as [now|]; [|injection Hrun as <- <-; by left]. cbn [eff_ret] in Hrun.
  unfold eff_bind at 1, eff_get at 1 in Hrun. unfold eff_bind at 1, eff_get at 1 in Hrun. unfold eff_bind at 1, eff_lift at 1 in Hrun.
  destruct (decide_cookie _ _ _ _ _ _ _) as [[|next idx']|e] eqn:Hd; [injection Hrun as <- <-; by left| |injection Hrun as <- <-; by left].
  pose proof (parse_host cfg _ _ Hurl) as Hhost.
  apply decide_prototype in Hd as (prototype & context & Hp & Hpi & Hx & Hby & Hover & Hrep); [|done].
  unfold eff_bind at 1, eff_set in Hrun. unfold eff_bind at 1 in Hrun. pose proof (save_cookies next idx' j1) as Hs.
  destruct (save next (set_j_nextCreationIndex idx' j1)) as [j2 [x|e]]; injection Hrun as <- <-; [right|left; by split].
  exists url, context, now, (j_nextCreationIndex j1), idx', prototype, next. by split_and!.
Qed.

End SetRun.

(** C14: In every run, a call of [setCookie] changes the cookies of the jar only to
    drop some and to add one that the request may set: its domain is the host or a
    domain above it, its path that of the field or the default, the flags Secure
    and HttpOnly come over a secure URL and not from a script.  A cookie from an
    insecure URL overlays no live secure cookie, and a script replaces no live
    HttpOnly cookie.  A call that refuses or throws changes nothing. *)
Theorem set_cookie_integrity (options : CookieJarOptions) (cfg : JarConfig) (S : Type) (store_calls : CookieStore S)
    (laws : CookieStoreLaws S) (calls : list jar_call) (store : S)
    (loadClock clock : option Z) (header : jsstr) (input : jsstr + URLRecord) (access : CookieAccessContext)
    (j' : CookieJar S) (r : result bool) :
  jar_config options = Ok cfg ->
  setCookie cfg loadClock clock header input access (run_jar cfg calls store) = (j', r) ->
  let old := opened_cookies cfg loadClock (run_jar cfg calls store) in
  (r <> Ok true -> j_cookies j' = old) /\
  forall k, k ∈ j_cookies j' -> k ∈ old \/
    exists url context now, parseURL cfg input = Ok url /\ readContext access = Ok context /\ clock = Some now /\
      cookie_ok k /\ set_by cfg url header context k /\
      (secureURL cfg url = false -> forall s, s ∈ old -> ~ overlaid now (k_name k) (k_domain k) (k_path k) s) /\
      (x_type context = NonHttpAccess -> forall h, h ∈ old -> k_httpOnly h = true -> live now h = true -> cookie_key k <> cookie_key h).
Proof.
  intros Hconf Hrun. apply jar_config_ok in Hconf as Hcfg.
  assert (Hj : jar_ok cfg (run_jar cfg calls store)) by by apply (jar_run_ok cfg Hcfg).
  destruct (set_run cfg Hcfg loadClock clock header input access _ j' r Hj Hrun)
    as [[-> Hr]|(url & context & now & idx & idx' & p & next & Hu & Hx & Hn & Hok & Hp & Hby & Hover & Hrep & -> & ->)].
  { split; [done|]. by left. }
  split; [done|]. intros k Hk. set (old := opened_cookies _ _ _) in *.
  assert (Hsub : (removeExpired old now).1 `sublist_of` old) by apply removeExpired_sublist.
  destruct (replace_members _ _ _ _ _ _ _ _ Hrep k Hk) as [Hin|(t & i & ->)]; [left; by eapply elem_of_sublist|right].
  exists url, context, now. split_and!; [done..|by destruct Hp|by destruct Hby| |].
  - intros Hsec. apply overlays_spec. destruct Hover as [Hs|[Hs|Hs]]; [|congruence|exact Hs].
    destruct Hby as [_ _ Hb _ _]. specialize (Hb Hs). congruence.
  - intros Hscript h Hh Hho Hlive. change (cookie_key p <> cookie_key h). eapply replace_httpOnly; [|exact Hrep|done| |done].
    + destruct Hok as (Hk' & _). eapply sublist_NoDup; [exact Hk'|]. by apply fmap_sublist.
    + by apply list_elem_of_filter.
Qed.

(** An insecure URL tries to overlay the secure cookie of its domain. *)
Lemma set_cookie_integrity_witness : exists cfg j' r, jar_config sent_options = Ok cfg /\
  setCookie cfg (Some 5000) (Some 5000) (u "a=evil; Domain=a.test; Path=/x") (inl (u "http://www.a.test/")) plain_access
    (run_jar cfg sent_calls ([] : MemoryCookieJarStore)) = (j', r) /\
  r = Ok false /\ j_cookies j' = opened_cookies cfg (Some 5000) (run_jar cfg sent_calls ([] : MemoryCookieJarStore)).
Proof.
  destruct (jar_config sent_options) as [cfg|e] eqn:Hcfg; [|by vm_compute in Hcfg]. exists cfg.
  destruct (setCookie cfg (Some 5000) (Some 5000) (u "a=evil; Domain=a.test; Path=/x") (inl (u "http://www.a.test/")) plain_access
    (run_jar cfg sent_calls ([] : MemoryCookieJarStore))) as [j' r] eqn:Hset. exists j', r. split; [done|]. split; [done|].
  assert (Hr : r = Ok false).
  { pose proof Hcfg as Hc. vm_compute in Hc. injection Hc as <-. vm_compute in Hset. by injection Hset as _ <-. }
  split; [done|]. apply (set_cookie_integrity sent_options cfg MemoryCookieJarStore _ _ sent_calls [] (Some 5000) (Some 5000)
    (u "a=evil; Domain=a.test; Path=/x") (inl (u "http://www.a.test/")) plain_access j' r Hcfg Hset). by rewrite Hr.
Defined.
