(* ===== verification/JarRestart.v ===== *)
(** * The cookie jar: reading back what it has stored

    A jar opened on the store of another loads the persistent cookies of that
    one, provided that the request URLs had hosts in canonical form and no
    semicolon in the directory of their path. *)

From stdpp Require Import sorting.
From S2P Require Import Prelude Ascii Effects FetchHeaders Cookies CookiesTheory CookieJar JarEviction CookieJarTheory JarPolicy.
Local Open Scope Z_scope.

(** ** Specification *)

(** A default path that [ensureLoaded] accepts. *)
Definition path_reloads (path : jsstr) : Prop :=
  hasForbiddenCookieControl path = false /\ 59 ∉ path /\ hasNonOctet path = false.

(** A request URL whose host is in canonical form. *)
Definition url_reloads (cfg : JarConfig) (url : URLRecord) : Prop :=
  canonicalDomain cfg (to_lower (url_hostname url)) = Some (to_lower (url_hostname url)) /\
  path_reloads (defaultPath (url_pathname url)).

Definition call_reloads (cfg : JarConfig) (call : jar_call) : Prop :=
  match call with
  | CallSet _ _ _ input _ => forall url, parseURL cfg input = Ok url -> url_reloads cfg url
  | _ => True
  end.

(** A host that the URL parser gives is its own canonical form. *)
Class CanonicalHosts (cfg : JarConfig) : Prop := {
  canonical_host a d : canonicalDomain cfg a = Some d -> canonicalDomain cfg d = Some d;
}.

(** Every cookie of a jar passes the checks of [ensureLoaded]. *)
Definition jar_reloads (cfg : JarConfig) {S} (j : CookieJar S) : Prop :=
  Forall (fun k => refused_when_loaded cfg k = false) (j_cookies j).

(** A URL parser that knows one host, for the examples. *)
Definition one_host (text : jsstr) : result URLRecord :=
  if str_eqb text (u "http://a.test/") then Ok (mk_url (u "http:") (u "a.test") [] (u "/") [] [] [] [])
  else if str_eqb text (u "https://a.test/x/y") then Ok (mk_url (u "https:") (u "a.test") [] (u "/x/y") [] [] [] [])
  else if str_eqb text (u "https://a.test/x;1/y") then Ok (mk_url (u "https:") (u "a.test") [] (u "/x;1/y") [] [] [] [])
  else Err (TypeError "Invalid URL").

Definition restart_config : JarConfig := mk_config one_host None isSecureURL 50 3000 maximumPersistentAgeSeconds.
Definition restart_options : CookieJarOptions := mk_jar_options one_host None None None None None.
Definition restart_calls (url : string) : list jar_call :=
  [CallSet (Some 1000) (Some 1000) (u "a=1; Max-Age=60") (inl (u url)) plain_access;
   CallSet (Some 1000) (Some 2000) (u "b=2; Path=/") (inl (u url)) plain_access].

(** ** Cookies *)

Lemma cookie_reloads cfg k : cookie_ok k -> canonicalDomain cfg (k_domain k) = Some (k_domain k) -> path_reloads (k_path k) ->
  refused_when_loaded cfg k = false.
Proof.
  intros [H1 H2 [H3 H4] [H5 H6] _ _ _ H7 H8 H9 H10] Hd (Hp1 & Hp2 & Hp3). unfold refused_when_loaded. rewrite !orb_false_iff.
  split_and!; try done.
  - by apply Z.ltb_ge.
  - destruct (k_name k) as [|c n]; [|done]. destruct (k_value k) as [|c v]; [|done]. exfalso. by apply H2.
  - by apply bool_decide_eq_false.
  - apply negb_false_iff. by apply bool_decide_eq_true.
  - destruct (bool_decide (k_sameSite k = SiteOf NoneSite)) eqn:E; [|done]. apply bool_decide_eq_true in E. by rewrite H7.
  - destruct (has_prefix (u "__secure-") (to_lower (k_name k))) eqn:E; [|done]. by rewrite H8.
  - destruct (has_prefix (u "__host-") (to_lower (k_name k))) eqn:E; [|done]. destruct (H9 eq_refl) as (-> & -> & ->). done.
  - destruct (k_name k) as [|c n]; [|done]. destruct (H10 eq_refl) as [-> ->]. done.
Qed.

(** The checks do not read what changes in a stored cookie. *)
Lemma refused_touch cfg t k : refused_when_loaded cfg (set_k_lastAccessTime t k) = refused_when_loaded cfg k.
Proof. done. Qed.

Lemma refused_clamp cfg limit k : refused_when_loaded cfg (clamp_expiry limit k) = refused_when_loaded cfg k.
Proof. unfold clamp_expiry. by destruct (expires_late limit k). Qed.

Section Reload.
Context (cfg : JarConfig) (Hcfg : config_ok cfg) `{!CanonicalHosts cfg}.
Context {S : Type} `{CookieStoreLaws S}.

Lemma set_by_reloads url header context k : url_reloads cfg url -> cookie_ok k -> set_by cfg url header context k ->
  refused_when_loaded cfg k = false.
Proof.
  intros [Hhost Hpath] Hk [Hd Hp _ _ _]. apply cookie_reloads; [done| |].
  - destruct (k_hostOnly k); [by rewrite Hd|]. destruct Hd as [_ [a Ha]]. by eapply canonical_host.
  - destruct Hp as [->|(_ & H1 & H2 & H3)]; [done|by split_and!].
Qed.

Lemma Forall_part {A} (P : A -> Prop) (l k : list A) : k ⊆ l -> Forall P l -> Forall P k.
Proof. rewrite !Forall_forall. intros Hs Hl x Hx. by apply Hl, Hs. Qed.

(** The cookies that [ensureLoaded] takes over have passed its checks. *)
Lemma ensureLoaded_reloads clock (j : CookieJar S) : jar_reloads cfg j -> jar_reloads cfg (ensureLoaded cfg clock j).1.
Proof.
  intros Hj. unfold ensureLoaded, eff_bind at 1, eff_get at 1. destruct (j_loaded j) eqn:Hl; [done|].
  unfold eff_bind at 1, eff_get at 1. unfold eff_bind at 1, eff_lift at 1.
  destruct (loadAll (j_store j)) as [loaded|e] eqn:Hload; [|done].
  unfold eff_bind at 1, eff_lift at 1. destruct (foldM (load_step cfg) ([], 0) loaded) as [[cookies next]|e] eqn:Hfold; [|done].
  apply load_fold in Hfold as (Hc & Hok & _). cbn [fst snd app] in *. subst cookies.
  unfold eff_bind at 1, eff_lift at 1. destruct (check_duplicates loaded) as [x|e] eqn:Hdup; [|done].
  unfold eff_bind at 1, read_clock. destruct clock as [now|]; [|done]. cbn [eff_ret].
  set (limit := now + maxAgeSeconds cfg * 1000).
  pose proof (removeExpired_sublist (clamp_expiry limit <$> loaded) now) as Hsub.
  destruct (removeExpired _ now) as [kept expired]. cbn [fst] in Hsub.
  assert (Hkept : Forall (fun k => refused_when_loaded cfg k = false) (evict cfg kept)).
  { eapply Forall_part; [apply sublist_subseteq, evict_sublist|]. eapply Forall_part; [apply sublist_subseteq, Hsub|].
    apply Forall_fmap. eapply Forall_impl; [exact Hok|]. intros k (_ & _ & Hr). cbn. by rewrite refused_clamp. }
  unfold eff_bind, eff_set. destruct (_ || _); cbn [eff_when].
  - destruct (save_persistent_run (evict cfg kept) j) as (store & r & -> & _). by destruct r as [[]|e].
  - done.
Qed.

Lemma open_reloads clock (j : CookieJar S) : jar_reloads cfg j -> jar_reloads cfg (open_jar cfg clock j).1.
Proof.
  intros Hj. unfold open_jar, eff_bind at 1, eff_get. destruct (j_closed j); [done|]. by apply ensureLoaded_reloads.
Qed.

(** A save, or none, of cookies that pass the checks. *)
Lemma save_reloads next (j : CookieJar S) : jar_reloads cfg j -> Forall (fun k => refused_when_loaded cfg k = false) next ->
  jar_reloads cfg (save next j).1.
Proof.
  intros Hj Hn. unfold save, eff_bind. destruct (save_persistent_run next j) as (store & r & -> & _). by destruct r as [[]|e].
Qed.

Lemma set_reloads loadClock clock header input access (j : CookieJar S) : call_reloads cfg (CallSet loadClock clock header input access) ->
  jar_ok cfg j -> jar_reloads cfg j -> jar_reloads cfg (setCookie cfg loadClock clock header input access j).1.
Proof.
  intros Hurls Hj Hr. pose proof (open_reloads loadClock j Hr) as Ho. fold (opened_cookies cfg loadClock j) in Ho.
  destruct (setCookie cfg loadClock clock header input access j) as [j' r] eqn:Hrun. cbn [fst].
  apply (set_run cfg Hcfg) in Hrun as [[Hc _]|(url & context & now & idx & idx' & p & next & Hu & Hx & Hn & Hok & Hp & Hby & _ & Hrep & Hc & _)];
    [| |done]; unfold jar_reloads; rewrite Hc; [exact Ho|].
  rewrite Forall_forall. intros k Hk. destruct (replace_members _ _ _ _ _ _ _ _ Hrep k Hk) as [Hin|(t & i & ->)].
  - unfold jar_reloads in Ho. rewrite Forall_forall in Ho. apply Ho. eapply elem_of_sublist; [exact Hin|apply removeExpired_sublist].
  - change (refused_when_loaded cfg p = false). by eapply set_by_reloads; [apply Hurls|..].
Qed.

(** The other operations keep, touch or drop cookies. *)
Lemma when_save_reloads (b : bool) next (j : CookieJar S) : jar_reloads cfg j ->
  Forall (fun k => refused_when_loaded cfg k = false) next -> jar_reloads cfg (eff_when b (save next) j).1.
Proof. intros Hj Hn. destruct b; [by apply save_reloads|done]. Qed.

Lemma then_ret_fst {A B} (m : Eff (CookieJar S) A) (b : B) j : (eff_bind m (fun _ => eff_ret b) j).1 = (m j).1.
Proof. unfold eff_bind. by destruct (m j) as [j' [x|e]]. Qed.

Lemma opened_reloads {A} clock (k : Eff (CookieJar S) A) (j : CookieJar S) : jar_reloads cfg j ->
  (forall j', jar_reloads cfg j' -> jar_reloads cfg (k j').1) ->
  jar_reloads cfg (eff_bind (open_jar cfg clock) (fun _ => k) j).1.
Proof.
  intros Hj Hk. pose proof (open_reloads clock j Hj) as Ho. unfold eff_bind.
  destruct (open_jar cfg clock j) as [j' [x|e]]; [by apply Hk|done].
Qed.

Lemma kept_reloads now l : Forall (fun k => refused_when_loaded cfg k = false) l ->
  Forall (fun k => refused_when_loaded cfg k = false) (removeExpired l now).1.
Proof. apply Forall_part, sublist_subseteq, removeExpired_sublist. Qed.

Lemma get_reloads loadClock clock input access (j : CookieJar S) : jar_reloads cfg j ->
  jar_reloads cfg (getCookieHeader cfg loadClock clock input access j).1.
Proof.
  intros Hj. apply opened_reloads; [done|]. clear j Hj. intros j Hj. unfold eff_bind at 1, eff_lift at 1.
  destruct (parseURL cfg input) as [url|e]; [|done]. unfold eff_bind at 1, read_clock. destruct clock as [now|]; [|done]. cbn [eff_ret].
  unfold eff_bind at 1, eff_get at 1. rewrite clone_map. pose proof (kept_reloads now _ Hj) as Hk.
  destruct (removeExpired (j_cookies j) now) as [next expired]. unfold eff_bind at 1, eff_lift at 1.
  destruct (readContext access) as [context|e]; [|done]. cbv zeta. rewrite then_ret_fst. apply when_save_reloads; [done|].
  apply Forall_fmap. eapply Forall_impl; [exact Hk|]. intros k Hr. cbn. by case_match.
Qed.

Lemma snapshot_reloads loadClock clock (j : CookieJar S) : jar_reloads cfg j -> jar_reloads cfg (snapshot cfg loadClock clock j).1.
Proof.
  intros Hj. apply opened_reloads; [done|]. clear j Hj. intros j Hj. unfold eff_bind at 1, read_clock. destruct clock as [now|]; [|done]. cbn [eff_ret].
  unfold eff_bind at 1, eff_get at 1. rewrite clone_map. pose proof (kept_reloads now _ Hj) as Hk.
  destruct (removeExpired (j_cookies j) now) as [next expired]. rewrite then_ret_fst. by apply when_save_reloads.
Qed.

Lemma close_reloads loadClock (j : CookieJar S) : jar_reloads cfg j -> jar_reloads cfg (close cfg loadClock j).1.
Proof.
  intros Hj. unfold close, eff_bind at 1, eff_get at 1. destruct (j_closed j); [done|].
  pose proof (ensureLoaded_reloads loadClock j Hj) as He. unfold eff_bind at 1. destruct (ensureLoaded cfg loadClock j) as [j' [x|e]]; [|done].
  unfold eff_bind at 1, eff_get at 1. unfold eff_bind at 1.
  destruct (save_persistent_run (j_cookies j') j') as (store & r & -> & _). destruct r as [[]|e]; [|done].
  unfold eff_bind, eff_set, close_store. destruct (closeStore _) as [store' r']. constructor.
Qed.

Lemma call_step_reloads call (j : CookieJar S) : call_reloads cfg call -> jar_ok cfg j -> jar_reloads cfg j ->
  jar_reloads cfg (call_jar cfg call j).
Proof.
  intros Hc Hj Hr. destruct call; cbn [call_jar]; [by apply set_reloads|by apply get_reloads|by apply snapshot_reloads| |by apply close_reloads].
  apply opened_reloads; [done|]. intros j' Hj'. apply save_reloads; [done|constructor].
Qed.

Lemma run_reloads calls : Forall (call_reloads cfg) calls -> forall j : CookieJar S, jar_ok cfg j -> jar_reloads cfg j ->
  jar_reloads cfg (foldl (fun jar call => call_jar cfg call jar) j calls).
Proof.
  induction calls as [|call calls IH]; intros Hc j Hj Hr; [done|]. apply Forall_cons in Hc as [Hcall Hc]. cbn [foldl].
  apply IH; [done|by apply jar_call_ok|by apply call_step_reloads].
Qed.

(** A new jar on the store takes over persistent cookies that are live and not late. *)
Lemma fresh_load store now next (l : list StoredCookie) : cookies_ok next l -> within_limits cfg l -> next <= MAX_SAFE_INTEGER ->
  Forall (fun k => refused_when_loaded cfg k = false) l -> loadAll store = Ok (persistentCookies l) ->
  Forall (fun k => live now k = true /\ expires_late (now + maxAgeSeconds cfg * 1000) k = false) (persistentCookies l) ->
  exists j, snapshot cfg (Some now) (Some now) (new_jar store) = (j, Ok (persistentCookies l)).
Proof.
  intros Hok Hlim Hmax Hr Hload Hlive. set (p := persistentCookies l) in *.
  assert (Hsub : p `sublist_of` l) by (unfold p, persistentCookies; rewrite clone_map; apply sublist_filter).
  assert (Hp : Forall (loaded_ok cfg) p).
  { rewrite Forall_forall in *. intros k Hk. assert (Hin : k ∈ l) by by eapply elem_of_sublist.
    destruct Hok as (_ & _ & Hi & Hc). rewrite Forall_forall in Hi, Hc. specialize (Hi k Hin). specialize (Hc k Hin).
    assert (Hper : k_persistent k = true) by (unfold p, persistentCookies in Hk; rewrite clone_map in Hk; by apply list_elem_of_filter in Hk as [? _]).
    split_and!; [|done|by apply Hr]. destruct Hc. unfold validStoredCookieShape. rewrite !andb_true_iff, Z.ltb_lt, Z.leb_le, Z.ltb_lt.
    split_and!; [|done| |lia|lia|by apply eqb_true_iff].
    - destruct (k_domain k) as [|c d]; [done|]. rewrite len_cons. pose proof (len_nonneg d). lia.
    - unfold isSafeInteger. apply Z.leb_le. cbv beta in Hi. lia. }
  pose proof (cookies_ok_sublist _ _ _ Hsub Hok) as (Hk & Hi & _). pose proof (within_limits_sublist cfg _ _ Hsub Hlim) as Hlp.
  destruct (load_fold_ok cfg p Hp [] 0) as [n Hn]. cbn [app] in Hn.
  assert (Hlate : existsb (expires_late (now + maxAgeSeconds cfg * 1000)) p = false).
  { apply not_true_is_false. intros (k & Hin & Hl)%existsb_exists. rewrite Forall_forall in Hlive.
    destruct (Hlive k) as [_ He]; [by apply list_elem_of_In|]. congruence. }
  assert (Hrem : removeExpired p now = (p, false)).
  { unfold removeExpired. rewrite filter_kept; [by rewrite Z.eqb_refl|]. rewrite Forall_forall in Hlive. intros k Hin. by apply Hlive. }
  eexists. unfold snapshot, open_jar, ensureLoaded, eff_bind, eff_get, eff_lift, read_clock, eff_ret. cbn [j_closed j_loaded j_store new_jar].
  rewrite Hload, Hn, duplicates_checked by done. cbv zeta. rewrite Hlate, clamp_none by done. rewrite Hrem.
  destruct Hcfg as (? & ? & _). rewrite evict_within by (done || lia). rewrite Z.eqb_refl.
  cbn [negb orb eff_when eff_ret eff_set j_cookies]. rewrite clone_map.
  change (j_cookies (set_j_loaded true (set_j_nextCreationIndex n (set_j_cookies p (new_jar store))))) with p.
  rewrite Hrem. cbn [eff_when eff_ret]. by rewrite clone_map.
Qed.

End Reload.

(** C16: A jar that is opened on the store of another loads exactly the persistent
    cookies of that one: after any run over URLs with canonical hosts and without
    semicolons in their directories, when no cookie has expired and the clock has
    not gone back. *)
Theorem jar_restart (options : CookieJarOptions) (cfg : JarConfig) (S : Type) (store_calls : CookieStore S)
    (laws : CookieStoreLaws S) (hosts : CanonicalHosts cfg) (calls : list jar_call) (store : S) (now : Z) :
  jar_config options = Ok cfg -> Forall (call_reloads cfg) calls ->
  let jar := run_jar cfg calls store in
  j_loaded jar = true -> j_closed jar = false -> j_nextCreationIndex jar <= MAX_SAFE_INTEGER ->
  Forall (fun k => live now k = true /\ expires_late (now + maxAgeSeconds cfg * 1000) k = false) (persistentCookies (j_cookies jar)) ->
  exists j, snapshot cfg (Some now) (Some now) (new_jar (j_store jar)) = (j, Ok (persistentCookies (j_cookies jar))).
Proof.
  intros Hconf Hcalls jar Hl Hc Hmax Hlive. apply jar_config_ok in Hconf as Hcfg.
  assert (Hj : jar_ok cfg jar) by by apply (jar_run_ok cfg Hcfg). destruct (Hj Hl Hc) as (H1 & H2 & _ & H4).
  assert (Hr : jar_reloads cfg jar) by (apply (run_reloads cfg Hcfg calls Hcalls); [done|constructor]).
  by eapply fresh_load.
Qed.

#[export] Instance one_host_canonical : CanonicalHosts restart_config.
Proof.
  split. intros a d. unfold canonicalDomain at 1. destruct (Z.eqb_spec (len a) 0); [by intros [= <-]|].
  destruct (existsb _ a); [done|]. cbn [urls_parse restart_config]. unfold one_host.
  repeat match goal with |- context [if str_eqb ?x ?y then _ else _] =>
    destruct (str_eqb x y); [intros Hd; vm_compute in Hd; first [done|injection Hd as <-; by vm_compute]|] end. done.
Qed.

Lemma jar_restart_witness : exists j, snapshot restart_config (Some 5000) (Some 5000)
    (new_jar (j_store (run_jar restart_config (restart_calls "https://a.test/x/y") ([] : MemoryCookieJarStore)))) =
  (j, Ok [mk_stored (u "a") (u "1") (Some 61000) (u "a.test") (u "/x") 1000 1000 0 true true false false DefaultSite]).
Proof.
  assert (Hu : forall url, parseURL restart_config (inl (u "https://a.test/x/y")) = Ok url -> url_reloads restart_config url).
  { intros url Hurl. vm_compute in Hurl. injection Hurl as <-. split; [by vm_compute|]. split_and!; by_computing. }
  destruct (jar_restart restart_options restart_config MemoryCookieJarStore _ _ _ (restart_calls "https://a.test/x/y") [] 5000)
    as [j Hj]; [by vm_compute| |by vm_compute|by vm_compute|by_computing|by_computing|].
  - apply Forall_cons_2; [exact Hu|apply Forall_cons_2; [exact Hu|apply Forall_nil_2]].
  - exists j. rewrite Hj. by vm_compute.
Defined.

(** A default path may hold a semicolon.  [setCookie] stores it, and the next jar
    on the store refuses the whole snapshot. *)
Example stored_default_path_refused : (snapshot restart_config (Some 5000) (Some 5000)
    (new_jar (j_store (run_jar restart_config (restart_calls "https://a.test/x;1/y") ([] : MemoryCookieJarStore))))).2 =
  Err (TypeError "Cookie store returned an invalid persistent cookie").
Proof. by vm_compute. Qed.
