(* ===== verification/JarLock.v ===== *)
(** * The cookie jar: concurrent calls

    Every operation of the jar waits for its lock, and its body runs between turns
    of the program.  The file models the lock and the calls that wait for it as
    steps of a system, in which a body works on the jar as it was when it started,
    and shows that the calls have the effect of running one after the other in the
    order in which they were made. *)

From stdpp Require Import relations.
From S2P Require Import Prelude Effects FetchHeaders Cookies CookieJar.
Local Open Scope Z_scope.

(** A configuration for the witness. *)
Definition lock_config : JarConfig := mk_config (fun _ => Err (TypeError "Invalid URL")) None isSecureURL 50 3000 maximumPersistentAgeSeconds.

Section Lock.
Context (cfg : JarConfig) {S : Type} `{CookieStore S}.

(** A call that holds the lock: its promise has been resolved, or its body has
    started on the jar as it was. *)
Inductive phase := Ready | Running (start : CookieJar S).

(** The jar with its lock, the calls made so far, and those that passed
    [acquire] and have not finished.  A call is its place among the calls. *)
Record jar_system := mk_system {
  sys_jar : CookieJar S;
  sys_locked : bool;
  sys_waiters : list nat;
  sys_calls : list jar_call;
  sys_active : list (nat * phase);
  sys_finished : list nat;
}.

Definition first_system (store : S) : jar_system := mk_system (new_jar store) false [] [] [] [].

(** [acquire]: take the lock, or wait. *)
Definition acquire (id : nat) (s : jar_system) : jar_system :=
  if sys_locked s then
    mk_system (sys_jar s) true (sys_waiters s ++ [id]) (sys_calls s) (sys_active s) (sys_finished s)
  else mk_system (sys_jar s) true (sys_waiters s) (sys_calls s) (sys_active s ++ [(id, Ready)]) (sys_finished s).

(** [release]: hand the lock to the first waiter, or free it. *)
Definition release (s : jar_system) : jar_system :=
  match sys_waiters s with
  | [] => mk_system (sys_jar s) false [] (sys_calls s) (sys_active s) (sys_finished s)
  | waiter :: waiters =>
      mk_system (sys_jar s) (sys_locked s) waiters (sys_calls s) (sys_active s ++ [(waiter, Ready)]) (sys_finished s)
  end.

(** The steps: a call is made, the body of a call starts, the body of a call ends
    and its [finally] releases the lock. *)
Inductive system_step : jar_system -> jar_system -> Prop :=
| step_call s call :
    system_step s (acquire (length (sys_calls s))
      (mk_system (sys_jar s) (sys_locked s) (sys_waiters s) (sys_calls s ++ [call]) (sys_active s) (sys_finished s)))
| step_start s id before after : sys_active s = before ++ (id, Ready) :: after ->
    system_step s (mk_system (sys_jar s) (sys_locked s) (sys_waiters s) (sys_calls s)
      (before ++ (id, Running (sys_jar s)) :: after) (sys_finished s))
| step_end s id call start before after : sys_active s = before ++ (id, Running start) :: after ->
    sys_calls s !! id = Some call ->
    system_step s (release (mk_system (call_jar cfg call start) (sys_locked s) (sys_waiters s) (sys_calls s)
      (before ++ after) (sys_finished s ++ [id]))).

(** ** Specification *)

(** The jar after the first [k] calls, one after the other. *)
Definition sequential (store : S) (calls : list jar_call) (k : nat) : CookieJar S := run_jar cfg (take k calls) store.

(** The first [k] calls have finished; the next one holds the lock, if there is
    one; the others wait in their order. *)
Definition serialized (store : S) (s : jar_system) : Prop :=
  let k := length (sys_finished s) in
  sys_finished s = seq 0 k /\ sys_jar s = sequential store (sys_calls s) k /\
  ((sys_locked s = false /\ k = length (sys_calls s) /\ sys_waiters s = [] /\ sys_active s = []) \/
   (sys_locked s = true /\ (k < length (sys_calls s))%nat /\ sys_waiters s = seq (k + 1) (length (sys_calls s) - (k + 1)) /\
    exists p, sys_active s = [(k, p)] /\ (forall start, p = Running start -> start = sys_jar s))).

Lemma sequential_app store calls call k : (k <= length calls)%nat -> sequential store (calls ++ [call]) k = sequential store calls k.
Proof. intros Hk. unfold sequential. by rewrite take_app_le. Qed.

Lemma sequential_next store calls call k : calls !! k = Some call ->
  sequential store calls (k + 1) = call_jar cfg call (sequential store calls k).
Proof.
  intros Hk. unfold sequential, run_jar. rewrite Nat.add_1_r, (take_S_r _ _ call) by done. by rewrite foldl_app.
Qed.

Lemma one_active {A} (x y : A) before after : [x] = before ++ y :: after -> before = [] /\ after = [] /\ x = y.
Proof. destruct before as [|z before]; [by intros [= -> <-]|]. intros [= _ He]. by destruct before. Qed.

Lemma seq_snoc k n : (k <= n)%nat -> seq k (n - k) ++ [n] = seq k (n + 1 - k).
Proof. intros Hk. replace (n + 1 - k)%nat with (Datatypes.S (n - k)) by lia. rewrite seq_S. do 2 f_equal. lia. Qed.

Lemma acquire_serialized store s call : serialized store s ->
  serialized store (acquire (length (sys_calls s))
    (mk_system (sys_jar s) (sys_locked s) (sys_waiters s) (sys_calls s ++ [call]) (sys_active s) (sys_finished s))).
Proof.
  intros (Hf & Hj & Hc). unfold acquire, serialized. cbn [sys_locked sys_finished sys_jar sys_calls sys_waiters sys_active].
  destruct Hc as [(Hl & Hk & Hw & Ha)|(Hl & Hk & Hw & p & Ha & Hp)]; rewrite Hl; cbn [sys_locked sys_finished sys_jar sys_calls sys_waiters sys_active].
  - split_and!; [done|rewrite sequential_app by lia; done|right]. rewrite length_app. cbn [length].
    split_and!; [done|lia| |]. { rewrite Hw. replace (_ - _)%nat with 0%nat by lia. done. }
    exists Ready. rewrite Ha, Hk. by split.
  - split_and!; [done|rewrite sequential_app by lia; done|right]. rewrite length_app. cbn [length].
    split_and!; [done|lia| |by exists p]. rewrite Hw. apply seq_snoc. lia.
Qed.

Lemma step_serialized store s s' : serialized store s -> system_step s s' -> serialized store s'.
Proof.
  intros Hs Hstep. destruct Hstep as [s call|s id before after Hact|s id call start before after Hact Hcall]; [by apply acquire_serialized|..];
    destruct Hs as (Hf & Hj & [(_ & _ & _ & Ha)|(Hl & Hk & Hw & p & Ha & Hp)]); rewrite Ha in Hact;
    try (by destruct before); apply one_active in Hact as (-> & -> & [= <- ->]).
  - unfold serialized. cbn [sys_locked sys_finished sys_jar sys_calls sys_waiters sys_active app]. split_and!; [done..|right].
    split_and!; [done..|]. eexists. split; [done|]. by intros start [= <-].
  - specialize (Hp start eq_refl). subst start. set (k := length (sys_finished s)) in *.
    assert (Hjar : call_jar cfg call (sys_jar s) = sequential store (sys_calls s) (k + 1)) by (by rewrite (sequential_next _ _ call), Hj).
    assert (Hfin : sys_finished s ++ [k] = seq 0 (k + 1)) by (rewrite Hf; rewrite <- (Nat.sub_0_r k) at 1; rewrite seq_snoc by lia; f_equal; lia).
    unfold release. cbn [sys_waiters]. destruct (sys_waiters s) as [|w ws] eqn:Hws; unfold serialized;
      cbn [sys_locked sys_finished sys_jar sys_calls sys_waiters sys_active app]; rewrite !length_app; fold k; cbn [length]; (split; [done|]); (split; [done|]).
    + left. split_and!; [done| |done|done]. destruct (length (sys_calls s) - (k + 1))%nat eqn:E; [lia|done].
    + right. destruct (length (sys_calls s) - (k + 1))%nat as [|n] eqn:E; [done|]. cbn [seq] in Hw. injection Hw as -> ->.
      split_and!; [done|lia| |by exists Ready]. f_equal; lia.
Qed.

(** The call that holds the lock can run to its end. *)
Lemma holder_finishes store s : serialized store s -> (length (sys_finished s) < length (sys_calls s))%nat ->
  exists s', rtc system_step s s' /\ serialized store s' /\ sys_calls s' = sys_calls s /\
    length (sys_finished s') = Datatypes.S (length (sys_finished s)).
Proof.
  intros Hs Hlt. pose proof Hs as (_ & _ & [(_ & Hk & _)|(_ & _ & _ & p & Ha & _)]); [lia|].
  destruct (lookup_lt_is_Some_2 _ _ Hlt) as [call Hcall].
  assert (Hend : forall s1 start, serialized store s1 -> sys_active s1 = [(length (sys_finished s), Running start)] ->
    sys_calls s1 = sys_calls s -> sys_finished s1 = sys_finished s ->
    exists s', system_step s1 s' /\ serialized store s' /\ sys_calls s' = sys_calls s /\
      length (sys_finished s') = Datatypes.S (length (sys_finished s))).
  { intros s1 start Hs1 Ha1 Hc1 Hf1. rewrite <- Hc1 in Hcall.
    pose proof (step_end s1 _ call start [] [] Ha1 Hcall) as Hstep. eexists. split; [exact Hstep|].
    split; [by eapply step_serialized|]. unfold release. cbn [sys_waiters].
    destruct (sys_waiters s1); cbn [sys_calls sys_finished]; rewrite length_app, Hf1; cbn [length]; split; try done; lia. }
  destruct p as [|start].
  - pose proof (step_start s _ [] [] Ha) as Hstep. pose proof (step_serialized _ _ _ Hs Hstep) as Hs1.
    destruct (Hend _ (sys_jar s) Hs1 eq_refl eq_refl eq_refl) as (s' & Hstep' & Hrest).
    exists s'. split; [by eapply rtc_l, rtc_once|done].
  - destruct (Hend s start Hs Ha eq_refl eq_refl) as (s' & Hstep' & Hrest). exists s'. split; [by apply rtc_once|done].
Qed.

Lemma all_finish store n s : serialized store s -> (length (sys_calls s) - length (sys_finished s) = n)%nat ->
  exists s', rtc system_step s s' /\ serialized store s' /\ sys_calls s' = sys_calls s /\
    length (sys_finished s') = length (sys_calls s).
Proof.
  revert s. induction n as [|n IH]; intros s Hs Hn.
  - exists s. split_and!; [done..|]. destruct Hs as (_ & _ & [(_ & Hk & _)|(_ & Hk & _)]); lia.
  - destruct (holder_finishes store s Hs ltac:(lia)) as (s1 & Hrun & Hs1 & Hc1 & Hf1).
    destruct (IH s1 Hs1 ltac:(rewrite Hc1, Hf1; lia)) as (s' & Hrun' & Hs' & Hc' & Hf').
    exists s'. split_and!; [by etrans|done|congruence|congruence].
Qed.

End Lock.

(** C31: Calls on a jar that are made while others run have the effect of running
    one after the other in the order in which they were made: at any time the
    first calls have finished, the jar is that of running them one by one, and one
    call at most is past the lock.  The lock never strands a call: from any state,
    without further calls, all calls made so far can finish, the lock is then
    free, and the jar is that of running them all. *)
Theorem jar_calls_serialize (cfg : JarConfig) (S : Type) (store_calls : CookieStore S) (store : S) (s : jar_system) :
  rtc (system_step cfg) (first_system store) s ->
  let k := length (sys_finished s) in
  sys_finished s = seq 0 k /\ sys_jar s = run_jar cfg (take k (sys_calls s)) store /\
  (length (sys_active s) <= 1)%nat /\ (sys_locked s = false -> k = length (sys_calls s)) /\
  exists s', rtc (system_step cfg) s s' /\ sys_calls s' = sys_calls s /\ sys_locked s' = false /\
    sys_jar s' = run_jar cfg (sys_calls s) store.
Proof.
  intros Hrun. assert (Hs : serialized cfg store s).
  { eapply rtc_ind_r; [|intros y z _ Hstep Hy; by eapply step_serialized|exact Hrun]. split_and!; [done..|by left]. }
  destruct (all_finish cfg store _ s Hs eq_refl) as (s' & Hrun' & (_ & Hj' & Hc') & Hcalls & Hlen).
  assert (Hlast : sys_locked s' = false /\ sys_jar s' = run_jar cfg (sys_calls s) store).
  { destruct Hc' as [(Hl & _)|(_ & Hk & _)]; [|rewrite Hcalls in Hk; lia]. split; [done|].
    rewrite Hj', Hlen, Hcalls. unfold sequential. by rewrite take_ge. }
  destruct Hs as (Hf & Hj & [(Hl & Hk & Hw & Ha)|(Hl & Hk & Hw & p & Ha & Hp)]); rewrite Ha;
    (split_and!; [done|done|cbn; lia|by rewrite Hl|exists s'; by destruct Hlast]).
Qed.

Lemma jar_calls_serialize_witness : exists s', sys_locked s' = false /\
  sys_jar s' = run_jar lock_config [CallClear (Some 1000); CallSnapshot (Some 1000) (Some 2000)] ([] : MemoryCookieJarStore).
Proof.
  destruct (jar_calls_serialize lock_config MemoryCookieJarStore memory_store []
    (mk_system (new_jar []) true [1%nat] [CallClear (Some 1000); CallSnapshot (Some 1000) (Some 2000)]
      [(0%nat, Running (new_jar []))] [])) as (_ & _ & _ & _ & s' & _ & _ & Hl & Hj).
  - eapply rtc_l; [apply (step_call lock_config _ (CallClear (Some 1000)))|].
    eapply rtc_l; [apply (step_start lock_config) with (id := 0%nat) (before := []) (after := []); reflexivity|].
    eapply rtc_l; [apply (step_call lock_config _ (CallSnapshot (Some 1000) (Some 2000)))|]. apply rtc_refl.
  - by exists s'.
Defined.
