(* ===== verification/CacheControl.v ===== *)
(** * The [Cache-Control] field ([cache/cache-control.ts])

    The parser and its directives.  An index into the field is modelled as the rest
    of the field from it, which the scanning functions move forward. *)

From S2P Require Import Prelude Ascii Effects FetchHeaders.
Local Open Scope Z_scope.

Definition MAX_DELTA_SECONDS : Z := 2147483648.

(** [QualifiedCacheDirective]: [true] or the names of fields. *)
Inductive QualifiedCacheDirective := Bare | FieldNames (names : list jsstr).

(** [number | true] of [maxStale]. *)
Inductive StaleLimit := AnyStale | StaleBy (seconds : Z).

Record CacheExtensionDirective := mk_extension { x_name : jsstr; x_value : option jsstr }.

(** [CacheControlDirectives]; a flag that is absent is false, the parser sets it to
    [true] only. *)
Record CacheControlDirectives := mk_directives {
  maxAge : option Z;
  maxStale : option StaleLimit;
  minFresh : option Z;
  noCache : option QualifiedCacheDirective;
  noStore : bool;
  noTransform : bool;
  onlyIfCached : bool;
  mustRevalidate : bool;
  mustUnderstand : bool;
  private : option QualifiedCacheDirective;
  proxyRevalidate : bool;
  public : bool;
  sMaxage : option Z;
  immutable : bool;
  staleIfError : option Z;
  staleWhileRevalidate : option Z;
  extensions : list CacheExtensionDirective;
}.

Ltac update_directives p v r :=
  exact_update (fun r : CacheControlDirectives => mk_directives (maxAge r) (maxStale r) (minFresh r) (noCache r) (noStore r)
    (noTransform r) (onlyIfCached r) (mustRevalidate r) (mustUnderstand r) (private r) (proxyRevalidate r) (public r)
    (sMaxage r) (immutable r) (staleIfError r) (staleWhileRevalidate r) (extensions r)) p v r.

Definition set_maxAge (v : option Z) (r : CacheControlDirectives) : CacheControlDirectives := ltac:(update_directives maxAge v r).
Definition set_maxStale (v : option StaleLimit) (r : CacheControlDirectives) : CacheControlDirectives := ltac:(update_directives maxStale v r).
Definition set_minFresh (v : option Z) (r : CacheControlDirectives) : CacheControlDirectives := ltac:(update_directives minFresh v r).
Definition set_noCache (v : option QualifiedCacheDirective) (r : CacheControlDirectives) : CacheControlDirectives := ltac:(update_directives noCache v r).
Definition set_noStore (v : bool) (r : CacheControlDirectives) : CacheControlDirectives := ltac:(update_directives noStore v r).
Definition set_noTransform (v : bool) (r : CacheControlDirectives) : CacheControlDirectives := ltac:(update_directives noTransform v r).
Definition set_onlyIfCached (v : bool) (r : CacheControlDirectives) : CacheControlDirectives := ltac:(update_directives onlyIfCached v r).
Definition set_mustRevalidate (v : bool) (r : CacheControlDirectives) : CacheControlDirectives := ltac:(update_directives mustRevalidate v r).
Definition set_mustUnderstand (v : bool) (r : CacheControlDirectives) : CacheControlDirectives := ltac:(update_directives mustUnderstand v r).
Definition set_private (v : option QualifiedCacheDirective) (r : CacheControlDirectives) : CacheControlDirectives := ltac:(update_directives private v r).
Definition set_proxyRevalidate (v : bool) (r : CacheControlDirectives) : CacheControlDirectives := ltac:(update_directives proxyRevalidate v r).
Definition set_public (v : bool) (r : CacheControlDirectives) : CacheControlDirectives := ltac:(update_directives public v r).
Definition set_sMaxage (v : option Z) (r : CacheControlDirectives) : CacheControlDirectives := ltac:(update_directives sMaxage v r).
Definition set_immutable (v : bool) (r : CacheControlDirectives) : CacheControlDirectives := ltac:(update_directives immutable v r).
Definition set_staleIfError (v : option Z) (r : CacheControlDirectives) : CacheControlDirectives := ltac:(update_directives staleIfError v r).
Definition set_staleWhileRevalidate (v : option Z) (r : CacheControlDirectives) : CacheControlDirectives := ltac:(update_directives staleWhileRevalidate v r).
Definition set_extensions (v : list CacheExtensionDirective) (r : CacheControlDirectives) : CacheControlDirectives := ltac:(update_directives extensions v r).

(** The state of the parser: the directives, the names of the freshness directives
    seen, and the two flags.  Without the names it is [ParsedCacheControl]. *)
Record cache_parser := mk_parser {
  p_directives : CacheControlDirectives;
  p_freshnessNames : list jsstr;
  p_malformed : bool;
  p_duplicate : bool;
}.

Record ParsedCacheControl := mk_parsed_control {
  directives : CacheControlDirectives;
  malformed : bool;
  duplicateFreshnessDirective : bool;
}.

Definition no_directives : CacheControlDirectives :=
  mk_directives None None None None false false false false false None false false None false None None [].
Definition new_parser : cache_parser := mk_parser no_directives [] false false.

Definition put_directives (f : CacheControlDirectives -> CacheControlDirectives) (p : cache_parser) : cache_parser :=
  mk_parser (f (p_directives p)) (p_freshnessNames p) (p_malformed p) (p_duplicate p).
Definition put_malformed (p : cache_parser) : cache_parser :=
  mk_parser (p_directives p) (p_freshnessNames p) true (p_duplicate p).
Definition put_malformed_if (b : bool) (p : cache_parser) : cache_parser := if b then put_malformed p else p.

(** ** Scanning *)

Definition skipOWS (value : jsstr) : jsstr := trim_start isHTTPTabOrSpace value.

(** The token at the start of a text, and what follows it. *)
Fixpoint tokenEnd (value : jsstr) : jsstr * jsstr :=
  match value with
  | [] => ([], [])
  | code :: rest => if is_token_unit code then let '(token, rest) := tokenEnd rest in (code :: token, rest) else ([], value)
  end.

(** The loop of [skipToComma], by its flags. *)
Fixpoint skip_loop (quoted escaped : bool) (value : jsstr) : jsstr :=
  match value with
  | [] => []
  | code :: rest =>
      if escaped then skip_loop quoted false rest
      else if quoted && (code =? 92) then skip_loop quoted true rest
      else if code =? 34 then skip_loop (negb quoted) escaped rest
      else if negb quoted && (code =? 44) then rest
      else skip_loop quoted escaped rest
  end.
Definition skipToComma (value : jsstr) : jsstr := skip_loop false false value.

(** What a quoted string may hold. *)
Definition bad_quoted_unit (code : Z) : bool := (255 <? code) || (negb (code =? 9) && ((code <? 32) || (code =? 127))).

(** [ParsedValue]: the text of the string, the rest, and whether it is valid.  The
    loop of [parseQuotedString]; a string that is not valid ends the field. *)
Record ParsedValue := mk_value { v_value : jsstr; v_next : jsstr; v_valid : bool }.

Fixpoint quoted_loop (value result : jsstr) : ParsedValue :=
  match value with
  | [] => mk_value result [] false
  | code :: rest =>
      if code =? 34 then mk_value result rest true
      else if code =? 92 then
        match rest with
        | [] => mk_value result [] false
        | escaped :: rest => if bad_quoted_unit escaped then mk_value result [] false else quoted_loop rest (result ++ [escaped])
        end
      else if bad_quoted_unit code then mk_value result [] false
      else quoted_loop rest (result ++ [code])
  end.

(** [parseQuotedString], at the opening quote. *)
Definition parseQuotedString (value : jsstr) : ParsedValue := quoted_loop (tail value) [].

(** The loop of [parseDeltaSeconds]. *)
Fixpoint delta_loop (value : jsstr) (result : Z) : option Z :=
  match value with
  | [] => Some result
  | code :: rest =>
      if (code <? 48) || (57 <? code) then None
      else if MAX_DELTA_SECONDS <=? result * 10 + code - 48 then Some MAX_DELTA_SECONDS
      else delta_loop rest (result * 10 + code - 48)
  end.
Definition parseDeltaSeconds (value : jsstr) : option Z :=
  match value with [] => None | _ => delta_loop value 0 end.

(** A list of tokens: the parts between the commas. *)
Fixpoint field_names (parts : list jsstr) : option (list jsstr) :=
  match parts with
  | [] => Some []
  | part :: parts =>
      let field := to_lower (trimHTTPTabOrSpace part) in
      if isToken field then names ← field_names parts; Some (field :: names) else None
  end.
Definition parseFieldNames (value : jsstr) : option (list jsstr) := field_names (js_split 44 value).

(** [if (!result.includes(field)) result.push(field)] *)
Definition push_new (result : list jsstr) (field : jsstr) : list jsstr :=
  if bool_decide (field ∈ result) then result else result ++ [field].

Definition addQualified (previous : option QualifiedCacheDirective) (value : option jsstr) : QualifiedCacheDirective :=
  match previous, value with
  | Some Bare, _ | _, None => Bare
  | _, Some value =>
      match parseFieldNames value with
      | None => Bare
      | Some fields =>
          match previous with
          | Some (FieldNames names) => FieldNames (foldl push_new names fields)
          | _ => FieldNames fields
          end
      end
  end.

(** ** Directives *)

(** [sawName], with what it does when it returns true. *)
Definition saw_freshness (name : jsstr) (p : cache_parser) : cache_parser :=
  if bool_decide (name ∈ p_freshnessNames p) then mk_parser (p_directives p) (p_freshnessNames p) (p_malformed p) true
  else mk_parser (p_directives p) (p_freshnessNames p ++ [name]) (p_malformed p) (p_duplicate p).

(** [Math.min(previous ?? delta, delta)] and [Math.max(previous ?? delta, delta)] *)
Definition min_of (previous : option Z) (delta : Z) : option Z := Some (Z.min (default delta previous) delta).
Definition max_of (previous : option Z) (delta : Z) : option Z := Some (Z.max (default delta previous) delta).

(** The directives with a number of seconds. *)
Definition set_seconds (name : jsstr) (delta : Z) (d : CacheControlDirectives) : CacheControlDirectives :=
  if str_eqb name (u "max-age") then set_maxAge (min_of (maxAge d) delta) d
  else if str_eqb name (u "s-maxage") then set_sMaxage (min_of (sMaxage d) delta) d
  else if str_eqb name (u "min-fresh") then set_minFresh (max_of (minFresh d) delta) d
  else if str_eqb name (u "stale-if-error") then set_staleIfError (min_of (staleIfError d) delta) d
  else set_staleWhileRevalidate (min_of (staleWhileRevalidate d) delta) d.

Definition seconds_names : list jsstr :=
  [u "max-age"; u "s-maxage"; u "min-fresh"; u "stale-if-error"; u "stale-while-revalidate"].

(** The case of [max-stale]. *)
Definition set_max_stale (argument : option jsstr) (delta : option Z) (p : cache_parser) : cache_parser :=
  match argument, delta with
  | None, _ => put_directives (set_maxStale (Some AnyStale)) p
  | Some _, None => put_malformed p
  | Some _, Some delta =>
      match maxStale (p_directives p) with
      | Some AnyStale => p
      | Some (StaleBy seconds) => put_directives (set_maxStale (Some (StaleBy (Z.min seconds delta)))) p
      | None => put_directives (set_maxStale (Some (StaleBy delta))) p
      end
  end.

(** The flags that an argument does not annul, and those that it does. *)
Definition restriction_of (name : jsstr) : option (bool -> CacheControlDirectives -> CacheControlDirectives) :=
  if str_eqb name (u "no-store") then Some set_noStore
  else if str_eqb name (u "no-transform") then Some set_noTransform
  else if str_eqb name (u "only-if-cached") then Some set_onlyIfCached
  else if str_eqb name (u "must-revalidate") then Some set_mustRevalidate
  else if str_eqb name (u "proxy-revalidate") then Some set_proxyRevalidate
  else None.
Definition permission_of (name : jsstr) : option (bool -> CacheControlDirectives -> CacheControlDirectives) :=
  if str_eqb name (u "must-understand") then Some set_mustUnderstand
  else if str_eqb name (u "public") then Some set_public
  else if str_eqb name (u "immutable") then Some set_immutable
  else None.

(** The [switch] over the names. *)
Definition apply_directive (name : jsstr) (argument : option jsstr) (p : cache_parser) : cache_parser :=
  let delta := argument ≫= parseDeltaSeconds in
  if bool_decide (name ∈ seconds_names) then
    let p := saw_freshness name p in
    match delta with
    | None => put_malformed p
    | Some delta => put_directives (set_seconds name delta) p
    end
  else if str_eqb name (u "max-stale") then set_max_stale argument delta (saw_freshness name p)
  else if str_eqb name (u "no-cache") then
    put_directives (fun d => set_noCache (Some (addQualified (noCache d) argument)) d) p
  else if str_eqb name (u "private") then
    put_directives (fun d => set_private (Some (addQualified (private d) argument)) d) p
  else
    match restriction_of name, permission_of name with
    | Some set, _ => put_malformed_if (bool_decide (argument <> None)) (put_directives (set true) p)
    | None, Some set => if bool_decide (argument = None) then put_directives (set true) p else put_malformed p
    | None, None => put_directives (fun d => set_extensions (extensions d ++ [mk_extension name argument]) d) p
    end.

(** ** The loop *)

(** [skipOWS] and the commas before a member. *)
Fixpoint skip_commas (value : jsstr) : jsstr :=
  match value with
  | [] => []
  | code :: rest => if isHTTPTabOrSpace code || (code =? 44) then skip_commas rest else value
  end.

(** The argument of a directive: the text after its name, then its value, the rest,
    and whether it is malformed. *)
Definition parse_argument (value : jsstr) : option jsstr * jsstr * bool :=
  let value := skipOWS value in
  if starts_with 61 value then
    let value := skipOWS (tail value) in
    if starts_with 34 value then
      let parsed := parseQuotedString value in
      if v_valid parsed then (Some (v_value parsed), v_next parsed, false)
      else (Some (v_value parsed), skipToComma (v_next parsed), true)
    else
      let '(argument, rest) := tokenEnd value in
      if len argument =? 0 then (None, skipToComma value, true) else (Some argument, rest, false)
  else (None, value, false).

(** One round of the loop at a member: the parser after it and the rest. *)
Definition parse_member (value : jsstr) (p : cache_parser) : cache_parser * jsstr :=
  let '(token, rest) := tokenEnd value in
  if len token =? 0 then (put_malformed p, skipToComma value)
  else
    let '(argument, rest, bad) := parse_argument rest in
    let p := put_malformed_if bad p in
    let rest := skipOWS rest in
    match rest with
    | [] => (apply_directive (to_lower token) argument p, [])
    | code :: after =>
        if code =? 44 then (apply_directive (to_lower token) argument p, after)
        else (put_malformed p, skipToComma rest)
    end.

Fixpoint parse_loop (fuel : nat) (value : jsstr) (p : cache_parser) : result cache_parser :=
  match fuel with
  | O => Err OutOfFuel
  | S fuel =>
      match skip_commas value with
      | [] => Ok p
      | member => let '(p, rest) := parse_member member p in parse_loop fuel rest p
      end
  end.

Definition parsed_control (p : cache_parser) : ParsedCacheControl :=
  mk_parsed_control (p_directives p) (p_malformed p) (p_duplicate p).

(** Every round consumes a character. *)
Definition parseCacheControl (value : jsstr) : result ParsedCacheControl :=
  parsed_control <$> parse_loop (S (length value)) value new_parser.
