(* ===== verification/CacheControlTheory.v ===== *)
(** * The [Cache-Control] field: what its parser accepts and keeps

    The grammar of the field as a relation between a text and its members, the
    parser as the fold of the directives over the members, and the order of
    strictness in which no later text undoes what a well-formed text has asked. *)

From S2P Require Import Prelude Ascii FetchHeaders CacheControl.
Local Open Scope Z_scope.

(** ** Specification *)

Definition ows (b : jsstr) : Prop := Forall (fun c => isHTTPTabOrSpace c = true) b.
Definition separator_unit (c : Z) : bool := isHTTPTabOrSpace c || (c =? 44).
Definition separators (s : jsstr) : Prop := Forall (fun c => separator_unit c = true) s.
Definition token_text (t : jsstr) : Prop := t <> [] /\ Forall (fun c => is_token_unit c = true) t.

(** A text between quotes, and the string that it stands for. *)
Inductive quoted_text : jsstr -> jsstr -> Prop :=
| quoted_end : quoted_text [] []
| quoted_char c q v : c <> 34 -> c <> 92 -> bad_quoted_unit c = false -> quoted_text q v -> quoted_text (c :: q) (c :: v)
| quoted_pair c q v : bad_quoted_unit c = false -> quoted_text q v -> quoted_text (92 :: c :: q) (c :: v).

(** The text after the name of a directive, and its argument. *)
Inductive argument_text : jsstr -> option jsstr -> Prop :=
| argument_none : argument_text [] None
| argument_token b b' t : ows b -> ows b' -> token_text t -> argument_text (b ++ 61 :: b' ++ t) (Some t)
| argument_quoted b b' q v : ows b -> ows b' -> quoted_text q v -> argument_text (b ++ 61 :: b' ++ 34 :: q ++ [34]) (Some v).

(** [#cache-directive], with the names in lower case. *)
Inductive cache_list : jsstr -> list (jsstr * option jsstr) -> Prop :=
| cache_list_end s : separators s -> cache_list s []
| cache_list_last s name text argument b : separators s -> token_text name -> argument_text text argument -> ows b ->
    cache_list (s ++ name ++ text ++ b) [(to_lower name, argument)]
| cache_list_more s name text argument b rest members : separators s -> token_text name -> argument_text text argument -> ows b ->
    cache_list rest members -> cache_list (s ++ name ++ text ++ b ++ 44 :: rest) ((to_lower name, argument) :: members).

Definition apply_member (p : cache_parser) (member : jsstr * option jsstr) : cache_parser := apply_directive member.1 member.2 p.
Definition directives_of (members : list (jsstr * option jsstr)) : ParsedCacheControl := parsed_control (foldl apply_member new_parser members).

(** A qualified directive at least as strict as another one. *)
Definition covers (q q' : option QualifiedCacheDirective) : Prop :=
  match q, q' with
  | _, None | Some Bare, _ => True
  | Some (FieldNames l), Some (FieldNames l') => l' ⊆ l
  | _, _ => False
  end.
Definition at_most (a b : option Z) : Prop := forall n, b = Some n -> exists m, a = Some m /\ m <= n.
Definition at_least (a b : option Z) : Prop := forall n, b = Some n -> exists m, a = Some m /\ n <= m.

(** Directives [d] forbid all that [d'] forbid. *)
Record stricter (d d' : CacheControlDirectives) : Prop := mk_stricter {
  str_noStore : noStore d' = true -> noStore d = true;
  str_noCache : covers (noCache d) (noCache d');
  str_private : covers (private d) (private d');
  str_mustRevalidate : mustRevalidate d' = true -> mustRevalidate d = true;
  str_proxyRevalidate : proxyRevalidate d' = true -> proxyRevalidate d = true;
  str_mustUnderstand : mustUnderstand d' = true -> mustUnderstand d = true;
  str_onlyIfCached : onlyIfCached d' = true -> onlyIfCached d = true;
  str_noTransform : noTransform d' = true -> noTransform d = true;
  str_maxAge : at_most (maxAge d) (maxAge d');
  str_sMaxage : at_most (sMaxage d) (sMaxage d');
  str_minFresh : at_least (minFresh d) (minFresh d');
  str_staleIfError : at_most (staleIfError d) (staleIfError d');
  str_staleWhileRevalidate : at_most (staleWhileRevalidate d) (staleWhileRevalidate d');
}.

(** A directive of a response that forbids to store it. *)
Definition forbids_storing (shared : bool) (member : jsstr * option jsstr) : Prop :=
  member.1 = u "no-store" \/ (shared = true /\ member = (u "private", None)).

(** [value] is a list of directives, which anything may follow. *)
Definition lists (value : jsstr) (members : list (jsstr * option jsstr)) : Prop :=
  exists a, cache_list a members /\ (value = a \/ exists b, value = a ++ 44 :: b).

(** The loop without its fuel. *)
Definition parse_all (value : jsstr) (p : cache_parser) : result cache_parser := parse_loop (S (length value)) value p.

(** Examples of the text of a field, with [''] for the quotes. *)
Definition sample_control (s : string) : jsstr := (fun c => if c =? 39 then 34 else c) <$> u s.

(** ** Scanning *)

Lemma separator_token c : separator_unit c = true -> is_token_unit c = false.
Proof.
  unfold separator_unit, isHTTPTabOrSpace. intros H.
  assert (Hc : c = 9 \/ c = 32 \/ c = 44) by lia. by destruct Hc as [->|[->| ->]].
Qed.

Lemma token_separator c : is_token_unit c = true -> separator_unit c = false.
Proof. intros H. destruct (separator_unit c) eqn:E; [|done]. apply separator_token in E. congruence. Qed.

Lemma skip_commas_app s v : separators s -> skip_commas (s ++ v) = skip_commas v.
Proof. induction 1 as [|c s Hc _ IH]; [done|]. cbn [app skip_commas]. unfold separator_unit in Hc. by rewrite Hc. Qed.

Lemma skip_commas_token c v : is_token_unit c = true -> skip_commas (c :: v) = c :: v.
Proof. intros H%token_separator. cbn [skip_commas]. unfold separator_unit in H. by rewrite H. Qed.

Lemma skip_commas_split v : exists s, v = s ++ skip_commas v /\ separators s.
Proof.
  induction v as [|c v (s & Hv & Hs)]; [by exists []; split; [|constructor]|]. cbn [skip_commas].
  destruct (isHTTPTabOrSpace c || (c =? 44)) eqn:E; [|by exists []; split; [|constructor]].
  exists (c :: s). cbn. rewrite <- Hv. split; [done|]. by constructor.
Qed.

Lemma skipOWS_app b v : ows b -> skipOWS (b ++ v) = skipOWS v.
Proof. unfold skipOWS. induction 1 as [|c b Hc _ IH]; [done|]. cbn [app trim_start]. by rewrite Hc. Qed.

Lemma skipOWS_ows b : ows b -> skipOWS b = [].
Proof. intros Hb. rewrite <- (app_nil_r b), skipOWS_app by done. done. Qed.

Lemma skipOWS_cons c v : isHTTPTabOrSpace c = false -> skipOWS (c :: v) = c :: v.
Proof. intros H. unfold skipOWS. cbn [trim_start]. by rewrite H. Qed.

Lemma skipOWS_split v : exists b, v = b ++ skipOWS v /\ ows b.
Proof. destruct (trim_start_split isHTTPTabOrSpace v) as (b & Hv & Hb & _). by exists b. Qed.

Lemma skipOWS_head v c r : skipOWS v = c :: r -> isHTTPTabOrSpace c = false.
Proof. destruct (trim_start_split isHTTPTabOrSpace v) as (b & Hv & Hb & Hh). unfold skipOWS. intros H. apply Hh. by rewrite H. Qed.

Lemma tokenEnd_app t v : Forall (fun c => is_token_unit c = true) t -> (forall c, head v = Some c -> is_token_unit c = false) ->
  tokenEnd (t ++ v) = (t, v).
Proof.
  intros Ht Hv. induction Ht as [|c t Hc _ IH]; [|cbn [app tokenEnd]; by rewrite Hc, IH].
  destruct v as [|c v]; [done|]. cbn. by rewrite (Hv c).
Qed.

Lemma tokenEnd_split v t r : tokenEnd v = (t, r) ->
  v = t ++ r /\ Forall (fun c => is_token_unit c = true) t /\ forall c, head r = Some c -> is_token_unit c = false.
Proof.
  revert t r. induction v as [|c v IH]; intros t r; cbn [tokenEnd]; [by intros [= <- <-]|].
  destruct (is_token_unit c) eqn:E.
  - destruct (tokenEnd v) as [t' r'] eqn:Hv. intros [= <- <-]. destruct (IH _ _ eq_refl) as (-> & Ht & Hr).
    split_and!; [done|by constructor|done].
  - intros [= <- <-]. split_and!; [done|constructor|]. by intros d [= <-].
Qed.

Lemma quoted_loop_app q v r : quoted_text q v -> forall result, quoted_loop (q ++ 34 :: r) result = mk_value (result ++ v) r true.
Proof.
  induction 1 as [|c q v H34 H92 Hbad _ IH|c q v Hbad _ IH]; intros result.
  - cbn. by rewrite app_nil_r.
  - cbn [app quoted_loop]. destruct (Z.eqb_spec c 34); [done|]. destruct (Z.eqb_spec c 92); [done|].
    rewrite Hbad, IH, <- app_assoc. done.
  - cbn [app quoted_loop]. change (92 =? 34) with false. change (92 =? 92) with true. cbv iota.
    rewrite Hbad, IH, <- app_assoc. done.
Qed.

Lemma quoted_loop_split n : forall x result p, (length x <= n)%nat -> quoted_loop x result = p -> v_valid p = true ->
  exists q v, x = q ++ 34 :: v_next p /\ quoted_text q v /\ v_value p = result ++ v.
Proof.
  induction n as [|n IH]; intros [|c x] result p Hn <-; try done; [cbn in Hn; lia|]. cbn [length] in Hn.
  cbn [quoted_loop]. destruct (Z.eqb_spec c 34) as [->|H34].
  { intros _. exists [], []. cbn. rewrite app_nil_r. split_and!; [done|constructor|done]. }
  destruct (Z.eqb_spec c 92) as [->|H92].
  - destruct x as [|e x]; [done|]. cbn [length] in Hn. destruct (bad_quoted_unit e) eqn:E; [done|]. intros Hv.
    destruct (IH x _ _ ltac:(lia) eq_refl Hv) as (q & v & Hx & Hq & Hp).
    exists (92 :: e :: q), (e :: v). cbn [app]. rewrite <- Hx, Hp, <- app_assoc. split_and!; [done|by constructor|done].
  - destruct (bad_quoted_unit c) eqn:E; [done|]. intros Hv.
    destruct (IH x _ _ ltac:(lia) eq_refl Hv) as (q & v & Hx & Hq & Hp).
    exists (c :: q), (c :: v). cbn [app]. rewrite <- Hx, Hp, <- app_assoc. split_and!; [done|by constructor|done].
Qed.

(** ** Members *)

Definition member_end (rest : jsstr) : Prop := forall c, head rest = Some c -> c = 44.

Lemma member_end_ows b rest : ows b -> member_end rest -> skipOWS (b ++ rest) = rest.
Proof.
  intros Hb Hr. rewrite skipOWS_app by done. destruct rest as [|c r]; [done|]. rewrite (Hr c eq_refl). by apply skipOWS_cons.
Qed.

Lemma member_end_token b rest c : ows b -> member_end rest -> head (b ++ rest) = Some c -> is_token_unit c = false.
Proof.
  intros Hb Hr Hc. apply separator_token. unfold separator_unit. destruct b as [|d b].
  - by rewrite (Hr c Hc).
  - inversion Hb; subst. injection Hc as <-. apply orb_true_iff. by left.
Qed.

Lemma argument_head text argument b rest c : argument_text text argument -> ows b -> member_end rest ->
  head (text ++ b ++ rest) = Some c -> is_token_unit c = false.
Proof.
  intros Ht Hb Hr. destruct Ht as [|b0 b' t H0|b0 b' q v H0]; [by apply (member_end_token b rest)|..];
    (destruct H0 as [|d b0 Hd]; cbn [app head]; intros [= <-]; [reflexivity|apply separator_token; unfold separator_unit; by rewrite Hd]).
Qed.

Lemma parse_argument_text text argument b rest : argument_text text argument -> ows b -> member_end rest ->
  exists r, parse_argument (text ++ b ++ rest) = (argument, r, false) /\ skipOWS r = rest.
Proof.
  intros Ht Hb Hr. pose proof (member_end_ows b rest Hb Hr) as Hskip. destruct Ht as [|b0 b' t H0 H' Ht|b0 b' q v H0 H' Hq]; unfold parse_argument.
  - cbn [app]. rewrite Hskip. exists rest. split; [|destruct rest as [|c r]; [done|]; by rewrite (Hr c eq_refl)].
    destruct rest as [|c r]; [done|]. by rewrite (Hr c eq_refl).
  - rewrite <- app_assoc. rewrite skipOWS_app by done. cbn [app]. rewrite skipOWS_cons by done. cbn [starts_with head tail].
    change (starts_with 61 (61 :: ?l)) with true. cbv iota. rewrite <- app_assoc, skipOWS_app by done.
    destruct Ht as [Hne Ht]. destruct t as [|c t]; [done|]. inversion Ht as [|? ? Hc Ht']; subst.
    assert (Hsep : isHTTPTabOrSpace c = false) by (apply token_separator in Hc; unfold separator_unit in Hc; by apply orb_false_iff in Hc as [? _]).
    cbn [app]. rewrite skipOWS_cons by done.
    assert (H34 : starts_with 34 (c :: t ++ b ++ rest) = false) by (apply bool_decide_eq_false; intros [= ->]; done).
    rewrite H34. change (c :: t ++ b ++ rest) with ((c :: t) ++ b ++ rest). rewrite tokenEnd_app; [|done|intros d; by apply member_end_token].
    change (len (c :: t) =? 0) with (len (c :: t) =? 0). rewrite len_cons. pose proof (len_nonneg t).
    destruct (Z.eqb_spec (len t + 1) 0); [lia|]. by exists (b ++ rest).
  - rewrite <- app_assoc. rewrite skipOWS_app by done. cbn [app]. rewrite skipOWS_cons by done.
    change (starts_with 61 (61 :: ?l)) with true. cbv iota. cbn [tail]. rewrite <- app_assoc, skipOWS_app by done. cbn [app].
    rewrite skipOWS_cons by done. change (starts_with 34 (34 :: ?l)) with true. cbv iota.
    unfold parseQuotedString. cbn [tail]. rewrite <- app_assoc. cbn [app].
    rewrite (quoted_loop_app q v) by done. cbn. by exists (b ++ rest).
Qed.

Lemma parse_argument_split value argument r : parse_argument value = (argument, r, false) ->
  exists text b, value = text ++ b ++ skipOWS r /\ argument_text text argument /\ ows b.
Proof.
  unfold parse_argument. destruct (skipOWS_split value) as (b0 & Hv & Hb0). destruct (skipOWS value) as [|c v] eqn:Hs.
  { intros [= <- <-]. exists [], b0. split_and!; [by rewrite Hv at 1|constructor|done]. }
  assert (Hc : isHTTPTabOrSpace c = false) by (by eapply skipOWS_head).
  destruct (decide (c = 61)) as [->|Hc61].
  2: { assert (H61 : starts_with 61 (c :: v) = false) by (apply bool_decide_eq_false; by intros [= ?]). rewrite H61. intros [= <- <-].
       exists [], b0. rewrite skipOWS_cons by done. by split_and!; [|constructor|]. }
  change (starts_with 61 (61 :: ?l)) with true. cbv iota. cbn [tail].
  destruct (skipOWS_split v) as (b1 & Hv1 & Hb1). destruct (starts_with 34 (skipOWS v)) eqn:H34.
  - apply bool_decide_eq_true in H34. destruct (skipOWS v) as [|d w] eqn:Hw; [done|]. injection H34 as ->.
    unfold parseQuotedString. cbn [tail]. destruct (quoted_loop w []) as [x n []] eqn:Hq; [|done]. intros [= <- <-].
    destruct (quoted_loop_split (length w) w [] _ ltac:(lia) Hq eq_refl) as (q & y & Hx & Hqt & Hp). cbn [v_next v_value app] in *.
    subst x. destruct (skipOWS_split n) as (b2 & Hr & Hb2).
    exists (b0 ++ 61 :: b1 ++ 34 :: q ++ [34]), b2. split_and!; [|by constructor|done].
    rewrite Hv, Hv1, Hx. rewrite Hr at 1. by repeat (rewrite <- app_assoc; cbn [app]).
  - destruct (tokenEnd (skipOWS v)) as [t w] eqn:Ht. destruct (Z.eqb_spec (len t) 0) as [H0|H0]; [done|]. intros [= <- <-].
    apply tokenEnd_split in Ht as (Hw & Htok & _). destruct (skipOWS_split w) as (b2 & Hr & Hb2).
    exists (b0 ++ 61 :: b1 ++ t), b2. split_and!; [|constructor; [done|done|split; [by intros ->|done]]|done].
    rewrite Hv, Hv1, Hw. rewrite Hr at 1. by repeat (rewrite <- app_assoc; cbn [app]).
Qed.

Lemma parse_member_text p name text argument b rest : token_text name -> argument_text text argument -> ows b -> member_end rest ->
  parse_member (name ++ text ++ b ++ rest) p = (apply_directive (to_lower name) argument p, tail rest).
Proof.
  intros [Hne Hname] Ht Hb Hr. unfold parse_member.
  rewrite tokenEnd_app; [|done|intros c; by eapply argument_head].
  destruct (Z.eqb_spec (len name) 0) as [H0|H0]; [destruct name; [done|]; unfold len in H0; cbn in H0; lia|].
  destruct (parse_argument_text text argument b rest Ht Hb Hr) as (r & -> & ->).
  destruct rest as [|c rest]; [done|]. by rewrite (Hr c eq_refl).
Qed.

Lemma put_malformed_if_true b p : p_malformed (put_malformed_if b p) = b || p_malformed p.
Proof. by destruct b. Qed.

Lemma apply_malformed name argument p : p_malformed p = true -> p_malformed (apply_directive name argument p) = true.
Proof.
  intros Hp. unfold apply_directive, set_max_stale, saw_freshness.
  repeat (match goal with |- context [if ?b then _ else _] => destruct b | |- context [match ?x with _ => _ end] => destruct x end;
    cbn [p_malformed put_directives put_malformed p_directives]; try done); rewrite ?put_malformed_if_true; cbn; rewrite Hp; by rewrite ?orb_true_r.
Qed.

Lemma parse_member_malformed p value : p_malformed p = true -> p_malformed (parse_member value p).1 = true.
Proof.
  intros Hp. unfold parse_member. destruct (tokenEnd value) as [t r]. destruct (len t =? 0); [done|].
  destruct (parse_argument r) as [[argument r'] bad].
  assert (Hb : p_malformed (put_malformed_if bad p) = true) by (rewrite put_malformed_if_true, Hp; apply orb_true_r).
  destruct (skipOWS r') as [|c after]; [by apply apply_malformed|]. destruct (c =? 44); [by apply apply_malformed|done].
Qed.

(** A member that is read without a fault is one of the grammar. *)
Lemma parse_member_split p p' c value r : parse_member (c :: value) p = (p', r) -> p_malformed p' = false ->
  exists name text argument b rest, c :: value = name ++ text ++ b ++ rest /\ token_text name /\ argument_text text argument /\
    ows b /\ member_end rest /\ r = tail rest /\ p' = apply_directive (to_lower name) argument p.
Proof.
  unfold parse_member. destruct (tokenEnd (c :: value)) as [t w] eqn:Ht. destruct (Z.eqb_spec (len t) 0) as [H0|H0]; [by intros [= <- _]|].
  destruct (parse_argument w) as [[argument x] bad] eqn:Ha. destruct bad.
  { intros Hm Hp. exfalso. change (put_malformed_if true p) with (put_malformed p) in Hm.
    destruct (skipOWS x) as [|d after]; [|destruct (d =? 44)]; injection Hm as <- <-;
      (rewrite apply_malformed in Hp || cbn in Hp); done. }
  apply tokenEnd_split in Ht as (Hv & Htok & _). apply parse_argument_split in Ha as (text & b & Hw & Htext & Hb).
  intros Hm Hp. exists t, text, argument, b, (skipOWS x). rewrite Hv, Hw. split; [done|].
  split; [split; [by intros ->|done]|]. split; [done|]. split; [done|]. cbn [put_malformed_if] in Hm.
  destruct (skipOWS x) as [|d after]; [injection Hm as <- <-; by split_and!; [intros ?|..]|].
  destruct (Z.eqb_spec d 44) as [->|]; injection Hm as <- <-; [|done]. by split_and!; [intros ? [= <-]|..].
Qed.

(** ** The loop *)

Lemma skip_loop_le v : forall quoted escaped, (length (skip_loop quoted escaped v) <= length v)%nat.
Proof.
  induction v as [|c v IH]; intros quoted escaped; [done|]. cbn [skip_loop length].
  repeat match goal with |- context [if ?b then _ else _] => destruct b end;
    match goal with |- (length (skip_loop ?q ?e v) <= _)%nat => specialize (IH q e); lia | _ => lia end.
Qed.

Lemma skipToComma_lt c v : (length (skipToComma (c :: v)) <= length v)%nat.
Proof.
  unfold skipToComma. cbn [skip_loop]. change (false && (c =? 92)) with false. cbv iota.
  destruct (c =? 34); [apply skip_loop_le|]. destruct (negb false && (c =? 44)); [done|apply skip_loop_le].
Qed.

Lemma quoted_loop_le n : forall v result, (length v <= n)%nat -> (length (v_next (quoted_loop v result)) <= n)%nat.
Proof.
  induction n as [|n IH]; intros [|c v] result Hn; cbn [length] in Hn; try (cbn; lia). cbn [quoted_loop].
  destruct (c =? 34); [cbn; lia|]. destruct (c =? 92).
  - destruct v as [|e v]; [cbn; lia|]. destruct (bad_quoted_unit e); [cbn; lia|]. cbn [length] in Hn. specialize (IH v (result ++ [e])). lia.
  - destruct (bad_quoted_unit c); [cbn; lia|]. specialize (IH v (result ++ [c])). lia.
Qed.

Lemma skipOWS_le v : (length (skipOWS v) <= length v)%nat.
Proof. destruct (skipOWS_split v) as (b & Hv & _). rewrite Hv at 2. rewrite length_app. lia. Qed.

Lemma parse_argument_le v argument r bad : parse_argument v = (argument, r, bad) -> (length r <= length v)%nat.
Proof.
  unfold parse_argument. pose proof (skipOWS_le v) as Hv. destruct (starts_with 61 (skipOWS v)); [|by intros [= _ <- _]].
  assert (Ht : (length (tail (skipOWS v)) <= length (skipOWS v))%nat) by (destruct (skipOWS v); cbn; lia).
  pose proof (skipOWS_le (tail (skipOWS v))) as Hw. set (w := skipOWS (tail (skipOWS v))) in *.
  destruct (starts_with 34 w).
  - assert (Hq : (length (v_next (parseQuotedString w)) <= length w)%nat).
    { unfold parseQuotedString. etrans; [apply (quoted_loop_le (length (tail w))); lia|]. destruct w; cbn; lia. }
    pose proof (skip_loop_le (v_next (parseQuotedString w)) false false) as Hs. unfold skipToComma.
    destruct (v_valid _); intros [= _ <- _]; lia.
  - destruct (tokenEnd w) as [t x] eqn:E. apply tokenEnd_split in E as (Hx & _). pose proof (skip_loop_le w false false) as Hs.
    unfold skipToComma. assert (length w = (length t + length x)%nat) by (by rewrite Hx, length_app).
    destruct (len t =? 0); intros [= _ <- _]; lia.
Qed.

Lemma parse_member_lt c v p p' r : parse_member (c :: v) p = (p', r) -> (length r <= length v)%nat.
Proof.
  unfold parse_member. destruct (tokenEnd (c :: v)) as [t w] eqn:Ht. destruct (Z.eqb_spec (len t) 0) as [H0|H0].
  { intros [= _ <-]. apply skipToComma_lt. }
  apply tokenEnd_split in Ht as (Hv & _). destruct (parse_argument w) as [[argument x] bad] eqn:Ha. apply parse_argument_le in Ha.
  assert (Hw : (length w <= length v)%nat).
  { destruct t as [|d t]; [done|]. injection Hv as -> Hv. rewrite Hv, length_app. lia. }
  pose proof (skipOWS_le x) as Hx. destruct (skipOWS x) as [|d after]; [intros [= _ <-]; cbn; lia|]. cbn [length] in Hx.
  pose proof (skipToComma_lt d after). destruct (d =? 44); intros [= _ <-]; lia.
Qed.

Lemma skip_commas_le v : (length (skip_commas v) <= length v)%nat.
Proof. destruct (skip_commas_split v) as (s & Hv & _). rewrite Hv at 2. rewrite length_app. lia. Qed.

(** Enough fuel gives a result, and more gives the same. *)
Lemma parse_loop_enough n : forall v p, (length v < n)%nat -> exists p', forall m, (length v < m)%nat -> parse_loop m v p = Ok p'.
Proof.
  induction n as [|n IH]; intros v p Hn; [lia|]. pose proof (skip_commas_le v) as Hle. destruct (skip_commas v) as [|c w] eqn:Hs.
  - exists p. intros [|m] Hm; [lia|]. cbn [parse_loop]. by rewrite Hs.
  - destruct (parse_member (c :: w) p) as [p1 r] eqn:Hm. pose proof (parse_member_lt _ _ _ _ _ Hm) as Hr. cbn [length] in Hle.
    destruct (IH r p1 ltac:(lia)) as [p' Hp']. exists p'. intros [|m] Hlt; [lia|]. cbn [parse_loop]. rewrite Hs, Hm. apply Hp'. lia.
Qed.

Lemma parse_all_ok v p : exists p', parse_all v p = Ok p'.
Proof. destruct (parse_loop_enough (S (length v)) v p ltac:(lia)) as [p' Hp]. exists p'. apply Hp. lia. Qed.

Lemma parse_loop_all m v p : (length v < m)%nat -> parse_loop m v p = parse_all v p.
Proof. intros Hm. destruct (parse_loop_enough m v p Hm) as [p' Hp]. unfold parse_all. rewrite !Hp by lia. done. Qed.

Lemma parse_all_step v p : parse_all v p =
  match skip_commas v with [] => Ok p | member => let '(p, rest) := parse_member member p in parse_all rest p end.
Proof.
  unfold parse_all at 1. cbn [parse_loop]. pose proof (skip_commas_le v) as Hle. destruct (skip_commas v) as [|c w]; [done|].
  destruct (parse_member (c :: w) p) as [p1 r] eqn:Hm. apply parse_member_lt in Hm. cbn [length] in Hle. apply parse_loop_all. lia.
Qed.

Lemma parse_all_member s name text argument b rest p : separators s -> token_text name -> argument_text text argument -> ows b ->
  member_end rest -> parse_all (s ++ name ++ text ++ b ++ rest) p = parse_all (tail rest) (apply_directive (to_lower name) argument p).
Proof.
  intros Hs Hname Ht Hb Hr. rewrite parse_all_step, skip_commas_app by done. pose proof Hname as [Hne Hn].
  destruct name as [|c name]; [done|]. inversion Hn; subst. cbn [app]. rewrite skip_commas_token by done.
  change (c :: name ++ text ++ b ++ rest) with ((c :: name) ++ text ++ b ++ rest). by rewrite (parse_member_text _ _ _ argument).
Qed.

Lemma parse_all_separators s p : separators s -> parse_all s p = Ok p.
Proof. intros Hs. rewrite parse_all_step. rewrite <- (app_nil_r s), skip_commas_app by done. done. Qed.

(** A text of the grammar, alone or before a comma. *)
Lemma parse_all_list a members : cache_list a members -> forall p,
  parse_all a p = Ok (foldl apply_member p members) /\
  forall b, parse_all (a ++ 44 :: b) p = parse_all b (foldl apply_member p members).
Proof.
  induction 1 as [s Hs|s name text argument b Hs Hname Ht Hb|s name text argument b rest members Hs Hname Ht Hb _ IH]; intros p.
  - split; [by apply parse_all_separators|]. intros b. rewrite parse_all_step. rewrite skip_commas_app by done. cbn [skip_commas].
    change (isHTTPTabOrSpace 44 || (44 =? 44)) with true. cbv iota. by rewrite <- parse_all_step.
  - split.
    + rewrite <- (app_nil_r b) at 1. rewrite (parse_all_member _ _ _ argument) by (try done; by intros ? [=]). exact (parse_all_separators [] _ (Forall_nil_2 _)).
    + intros x. rewrite <- !app_assoc. by rewrite (parse_all_member _ _ _ argument) by (try done; by intros ? [= <-]).
  - specialize (IH (apply_directive (to_lower name) argument p)) as [IH1 IH2]. split.
    + rewrite (parse_all_member _ _ _ argument) by (try done; by intros ? [= <-]). exact IH1.
    + intros x. replace ((s ++ name ++ text ++ b ++ 44 :: rest) ++ 44 :: x) with (s ++ name ++ text ++ b ++ 44 :: (rest ++ 44 :: x))
        by (by repeat (rewrite <- app_assoc; cbn [app])).
      rewrite (parse_all_member _ _ _ argument) by (try done; by intros ? [= <-]). exact (IH2 x).
Qed.

Lemma parse_loop_malformed n : forall v p p', p_malformed p = true -> parse_loop n v p = Ok p' -> p_malformed p' = true.
Proof.
  induction n as [|n IH]; intros v p p' Hp; [done|]. cbn [parse_loop]. destruct (skip_commas v) as [|c w]; [by intros [= <-]|].
  pose proof (parse_member_malformed p (c :: w) Hp) as Hm. destruct (parse_member (c :: w) p) as [p1 r]. by apply IH.
Qed.

(** What is read without a fault is a text of the grammar. *)
Lemma parse_loop_list n : forall v p p', parse_loop n v p = Ok p' -> p_malformed p' = false ->
  exists members, cache_list v members /\ p' = foldl apply_member p members.
Proof.
  induction n as [|n IH]; intros v p p'; [done|]. cbn [parse_loop]. destruct (skip_commas_split v) as (s & Hv & Hs).
  destruct (skip_commas v) as [|c w] eqn:Hw.
  { intros [= <-] _. exists []. rewrite app_nil_r in Hv. rewrite Hv. by split; [constructor|]. }
  destruct (parse_member (c :: w) p) as [p1 r] eqn:Hm. intros Hrun Hp.
  assert (Hp1 : p_malformed p1 = false) by (destruct (p_malformed p1) eqn:E; [|done]; by rewrite (parse_loop_malformed n _ _ _ E Hrun) in Hp).
  destruct (parse_member_split _ _ _ _ _ Hm Hp1) as (name & text & argument & b & rest & Hcw & Hname & Ht & Hb & Hend & -> & ->).
  destruct (IH _ _ _ Hrun Hp) as (members & Hl & Hfold). exists ((to_lower name, argument) :: members). split; [|done].
  rewrite Hv, Hcw. destruct rest as [|d rest]; cbn [tail] in Hl, Hrun.
  - assert (members = []) as ->.
    { assert (Hx : forall x l, cache_list x l -> x = [] -> l = []).
      { destruct 1 as [| s0 n0 t0 a0 b0 _ [Hne _]| s0 n0 t0 a0 b0 r0 m0 _ [Hne _]]; [done|..]; intros Hx; exfalso; apply app_eq_nil in Hx as [_ Hx];
          apply app_eq_nil in Hx as [Hx _]; done. }
      by eapply Hx. }
    rewrite app_nil_r. by constructor.
  - rewrite (Hend d eq_refl). by constructor.
Qed.

(** ** Strictness *)

Lemma covers_refl q : covers q q.
Proof. destruct q as [[|l]|]; cbn; [done|set_solver|done]. Qed.
Lemma at_most_refl a : at_most a a.
Proof. intros n ->. by exists n. Qed.
Lemma at_least_refl a : at_least a a.
Proof. intros n ->. by exists n. Qed.
Lemma at_most_min a n : at_most (min_of a n) a.
Proof. intros m ->. eexists. split; [done|]. cbn. lia. Qed.
Lemma at_least_max a n : at_least (max_of a n) a.
Proof. intros m ->. eexists. split; [done|]. cbn. lia. Qed.

Lemma push_new_in names name x : x ∈ push_new names name <-> x ∈ names \/ x = name.
Proof. unfold push_new. case_bool_decide; [|rewrite elem_of_app, list_elem_of_singleton]; naive_solver. Qed.

Lemma push_new_subset fields : forall names, names ⊆ foldl push_new names fields /\ fields ⊆ foldl push_new names fields.
Proof.
  induction fields as [|f fields IH]; intros names; cbn [foldl]; [split; set_solver|].
  assert (Hf : names ⊆ push_new names f /\ f ∈ push_new names f) by (unfold push_new; case_bool_decide; split; set_solver).
  destruct (IH (push_new names f)) as [H1 H2]. split; set_solver.
Qed.

Lemma covers_add q a : covers (Some (addQualified q a)) q.
Proof.
  unfold addQualified. destruct q as [[|names]|], a as [value|]; try done; destruct (parseFieldNames value) as [fields|]; try done.
  apply push_new_subset.
Qed.

Create HintDb strict.
#[export] Hint Resolve covers_refl at_most_refl at_least_refl at_most_min at_least_max covers_add : strict.

Lemma covers_trans a b c : covers a b -> covers b c -> covers a c.
Proof. destruct a as [[|]|], b as [[|]|], c as [[|]|]; cbn; try done. set_solver. Qed.
Lemma at_most_trans a b c : at_most a b -> at_most b c -> at_most a c.
Proof. intros H1 H2 n Hn. destruct (H2 n Hn) as (m & Hm & ?). destruct (H1 m Hm) as (k & ? & ?). exists k. split; [done|lia]. Qed.
Lemma at_least_trans a b c : at_least a b -> at_least b c -> at_least a c.
Proof. intros H1 H2 n Hn. destruct (H2 n Hn) as (m & Hm & ?). destruct (H1 m Hm) as (k & ? & ?). exists k. split; [done|lia]. Qed.

#[export] Instance stricter_preorder : PreOrder stricter.
Proof.
  split; [by intros d; split; auto with strict|]. intros d1 d2 d3 [] []. split; try tauto;
    eauto using covers_trans, at_most_trans, at_least_trans.
Qed.

#[local] Arguments covers : simpl never.
#[local] Arguments at_most : simpl never.
#[local] Arguments at_least : simpl never.

Lemma saw_freshness_directives name p : p_directives (saw_freshness name p) = p_directives p.
Proof. unfold saw_freshness. by case_bool_decide. Qed.

Lemma set_seconds_stricter name n d : stricter (set_seconds name n d) d.
Proof. unfold set_seconds. repeat case_match; split; cbn; auto with strict. Qed.

Lemma put_malformed_if_directives b p : p_directives (put_malformed_if b p) = p_directives p.
Proof. by destruct b. Qed.

Lemma set_max_stale_stricter argument delta p : stricter (p_directives (set_max_stale argument delta p)) (p_directives p).
Proof. unfold set_max_stale. repeat case_match; try reflexivity; split; cbn; auto with strict. Qed.

Lemma apply_directive_stricter name argument p : stricter (p_directives (apply_directive name argument p)) (p_directives p).
Proof.
  unfold apply_directive. case_bool_decide; [|destruct (str_eqb name (u "max-stale")); [|destruct (str_eqb name (u "no-cache")); [|destruct (str_eqb name (u "private"))]]].
  - destruct (argument ≫= parseDeltaSeconds); cbn; rewrite saw_freshness_directives; [apply set_seconds_stricter|reflexivity].
  - rewrite <- (saw_freshness_directives name p). apply set_max_stale_stricter.
  - split; cbn; auto with strict.
  - split; cbn; auto with strict.
  - destruct (restriction_of name) as [set|] eqn:Hr; [|destruct (permission_of name) as [set|] eqn:Hp].
    + rewrite put_malformed_if_directives. unfold restriction_of in Hr. repeat case_match; simplify_eq; split; cbn; auto with strict.
    + case_bool_decide; [|reflexivity]. unfold permission_of in Hp. repeat case_match; simplify_eq; split; cbn; auto with strict.
    + split; cbn; auto with strict.
Qed.

Lemma parse_member_stricter value p : stricter (p_directives (parse_member value p).1) (p_directives p).
Proof.
  unfold parse_member. destruct (tokenEnd value) as [t r]. destruct (len t =? 0); [done|].
  destruct (parse_argument r) as [[argument r'] bad]. rewrite <- (put_malformed_if_directives bad p) at 1.
  destruct (skipOWS r') as [|c after]; [apply apply_directive_stricter|]. destruct (c =? 44); [apply apply_directive_stricter|done].
Qed.

Lemma parse_loop_stricter n : forall v p p', parse_loop n v p = Ok p' -> stricter (p_directives p') (p_directives p).
Proof.
  induction n as [|n IH]; intros v p p'; [done|]. cbn [parse_loop]. destruct (skip_commas v) as [|c w]; [by intros [= <-]|].
  pose proof (parse_member_stricter (c :: w) p) as Hm. destruct (parse_member (c :: w) p) as [p1 r]. intros H%IH. by etrans.
Qed.

Lemma foldl_stricter members : forall p, stricter (p_directives (foldl apply_member p members)) (p_directives p).
Proof.
  induction members as [|m members IH]; intros p; cbn [foldl]; [done|]. etrans; [apply IH|apply apply_directive_stricter].
Qed.

Lemma apply_no_store argument p : noStore (p_directives (apply_directive (u "no-store") argument p)) = true.
Proof. unfold apply_directive. rewrite bool_decide_false by by_computing. by destruct argument. Qed.

Lemma apply_private p : private (p_directives (apply_directive (u "private") None p)) = Some Bare.
Proof.
  unfold apply_directive. rewrite bool_decide_false by by_computing.
  change (Some (addQualified (private (p_directives p)) None) = Some Bare). by destruct (private (p_directives p)) as [[]|].
Qed.

(** What a list of directives forbids stays forbidden. *)
Lemma lists_forbids value members m shared : lists value members -> m ∈ members -> forbids_storing shared m ->
  exists p, parseCacheControl value = Ok p /\ (noStore (directives p) = true \/ (shared = true /\ private (directives p) = Some Bare)).
Proof.
  intros (a & Hl & Hv) Hm Hf.
  assert (H1 : exists p1, parse_all value new_parser = Ok p1 /\ stricter (p_directives p1) (p_directives (foldl apply_member new_parser members))).
  { destruct (parse_all_list _ _ Hl new_parser) as [Ha Hb]. destruct Hv as [->|[b ->]]; [by eexists|]. rewrite Hb.
    destruct (parse_all_ok b (foldl apply_member new_parser members)) as [p1 Hp1]. exists p1. split; [done|by eapply parse_loop_stricter]. }
  destruct H1 as (p1 & Hp1 & Hs). exists (parsed_control p1). split; [unfold parseCacheControl; unfold parse_all in Hp1; by rewrite Hp1|]. cbn.
  apply list_elem_of_split in Hm as (l1 & l2 & ->). rewrite foldl_app in Hs. cbn [foldl] in Hs.
  assert (Hs' : stricter (p_directives p1) (p_directives (apply_member (foldl apply_member new_parser l1) m))) by (etrans; [exact Hs|apply foldl_stricter]).
  destruct m as [name argument]. unfold apply_member in Hs' at 1. cbn [fst snd] in Hs'. destruct Hf as [Hn|[-> [= -> ->]]].
  - cbn in Hn. subst name. left. apply (str_noStore _ _ Hs'), apply_no_store.
  - right. split; [done|]. pose proof (str_private _ _ Hs') as Hc. rewrite apply_private in Hc. by destruct (private (p_directives p1)) as [[]|].
Qed.

Lemma parseCacheControl_all value : parseCacheControl value = parsed_control <$> parse_all value new_parser.
Proof. done. Qed.

(** ** Seconds *)

Lemma delta_loop_digits v : forall n, Forall (fun c => 48 <= c <= 57) v -> 0 <= n < MAX_DELTA_SECONDS ->
  delta_loop v n = Some (Z.min MAX_DELTA_SECONDS (foldl (fun v c => 10 * v + (c - 48)) n v)).
Proof.
  induction v as [|c v IH]; intros n Hv Hn; [cbn; f_equal; lia|]. inversion Hv as [|? ? Hc Hv']; subst. cbn [delta_loop foldl].
  destruct ((c <? 48) || (57 <? c)) eqn:E; [lia|]. destruct (Z.leb_spec MAX_DELTA_SECONDS (n * 10 + c - 48)) as [Hb|Hb].
  - assert (Hmono : forall w k, Forall (fun c => 48 <= c <= 57) w -> MAX_DELTA_SECONDS <= k -> MAX_DELTA_SECONDS <= foldl (fun v c => 10 * v + (c - 48)) k w).
    { induction w as [|d w IHw]; intros k Hw Hk; [done|]. inversion Hw; subst. cbn [foldl]. apply IHw; [done|]. unfold MAX_DELTA_SECONDS in *. lia. }
    f_equal. specialize (Hmono v (10 * n + (c - 48)) Hv' ltac:(lia)). lia.
  - rewrite IH by (try done; lia). do 3 f_equal. lia.
Qed.

Lemma parseDeltaSeconds_digits v : v <> [] -> Forall (fun c => 48 <= c <= 57) v ->
  parseDeltaSeconds v = Some (Z.min MAX_DELTA_SECONDS (decimal v)).
Proof. intros Hne Hv. destruct v as [|c v]; [done|]. by apply delta_loop_digits. Qed.

Lemma delta_loop_range v : forall n m, 0 <= n < MAX_DELTA_SECONDS -> delta_loop v n = Some m -> 0 <= m <= MAX_DELTA_SECONDS.
Proof.
  induction v as [|c v IH]; intros n m Hn; cbn [delta_loop]; [intros [= <-]; lia|].
  destruct ((c <? 48) || (57 <? c)) eqn:E; [done|]. destruct (Z.leb_spec MAX_DELTA_SECONDS (n * 10 + c - 48)); [intros [= <-]; by split|].
  apply IH. lia.
Qed.

Lemma parseDeltaSeconds_range v m : parseDeltaSeconds v = Some m -> 0 <= m <= MAX_DELTA_SECONDS.
Proof. destruct v as [|c v]; [done|]. by apply delta_loop_range. Qed.

(** ** Properties *)

(** C36: The parser accepts every text.  On a text of the grammar of RFC 9111 it
    applies the directives one after the other, and a result without the mark
    [malformed] comes from a text of the grammar only. *)
Theorem cache_control_grammar (value : jsstr) :
  (exists p, parseCacheControl value = Ok p) /\
  (forall members, cache_list value members -> parseCacheControl value = Ok (directives_of members)) /\
  (forall p, parseCacheControl value = Ok p -> malformed p = false ->
    exists members, cache_list value members /\ p = directives_of members).
Proof.
  rewrite parseCacheControl_all. split_and!.
  - destruct (parse_all_ok value new_parser) as [p ->]. by eexists.
  - intros members Hl. by rewrite (proj1 (parse_all_list _ _ Hl new_parser)).
  - intros p Hp Hm. destruct (parse_all value new_parser) as [p'|] eqn:Hrun; [|done]. injection Hp as <-.
    destruct (parse_loop_list _ _ _ _ Hrun Hm) as (members & Hl & ->). by exists members.
Qed.

Lemma cache_control_grammar_witness :
  parseCacheControl (sample_control "Max-Age=60 ,, private='a, B'") =
  Ok (directives_of [(u "max-age", Some (u "60")); (u "private", Some (u "a, B"))]).
Proof.
  destruct (cache_control_grammar (sample_control "Max-Age=60 ,, private='a, B'")) as (_ & H & _). apply H.
  apply (cache_list_more [] (u "Max-Age") (u "=60") (Some (u "60")) (u " ") (sample_control ", private='a, B'"));
    [constructor|split; [done|by_computing]|apply (argument_token [] [] (u "60")); [constructor|constructor|split; [done|by_computing]]|by_computing|].
  apply (cache_list_last (u ", ") (u "private") (sample_control "='a, B'") (Some (u "a, B")) []);
    [by_computing|split; [done|by_computing]| |constructor].
  apply (argument_quoted [] [] (u "a, B") (u "a, B")); [constructor|constructor|]. repeat (constructor; try done).
Defined.



(** The order matters: a faulty member takes the next one with it, and an open
    quotation turns [private] into a qualified directive. *)
Example faulty_argument_drops_no_store : (noStore ∘ directives <$> parseCacheControl (u "max-age=, no-store")) = Ok false.
Proof. by vm_compute. Qed.
Example open_quotation_qualifies : (private ∘ directives <$> parseCacheControl (sample_control "private='a")) = Ok (Some (FieldNames [u "a"])).
Proof. by vm_compute. Qed.
