(* ===== verification/HttpDate.v ===== *)
(** * Dates of HTTP ([cache/freshness.ts])

    The three formats of RFC 9110, read by position, and what the parser accepts.
    A time is a whole number of milliseconds; [now] is the time value of the
    current [Date], [None] when it is NaN. *)

From S2P Require Import Prelude Ascii Numbers CookieDate.
Local Open Scope Z_scope.

Definition months : list jsstr :=
  u <$> ["jan"; "feb"; "mar"; "apr"; "may"; "jun"; "jul"; "aug"; "sep"; "oct"; "nov"; "dec"]%string.
Definition shortWeekdays : list jsstr := u <$> ["sun"; "mon"; "tue"; "wed"; "thu"; "fri"; "sat"]%string.
Definition longWeekdays : list jsstr :=
  u <$> ["sunday"; "monday"; "tuesday"; "wednesday"; "thursday"; "friday"; "saturday"]%string.

(** [value.slice(start, start + length)] *)
Definition slice (value : jsstr) (start length : nat) : jsstr := take length (drop start value).

(** [value.charCodeAt(i) === code] *)
Definition unit_is (value : jsstr) (i : nat) (code : Z) : bool := bool_decide (value !! i = Some code).

(** The loop of [decimal]; the callers have checked the length of the value. *)
Fixpoint decimal_loop (digits : jsstr) (result : Z) : Z :=
  match digits with
  | [] => result
  | code :: digits => if (code <? 48) || (57 <? code) then -1 else decimal_loop digits (result * 10 + code - 48)
  end.
Definition decimal_at (value : jsstr) (start length : nat) : Z := decimal_loop (slice value start length) 0.

Definition monthIndex (value : jsstr) : Z := index_of_text (to_lower value) months 0.
Definition validShortWeekday (value : jsstr) : bool := bool_decide (to_lower value ∈ shortWeekdays).
Definition validLongWeekday (value : jsstr) : bool := bool_decide (to_lower value ∈ longWeekdays).

Definition makeTime (year month day hour minute second : Z) : option Z :=
  if (year <? 1601) || (month <? 0) || (11 <? month) || (day <? 1) || (31 <? day) || (hour <? 0) || (23 <? hour) ||
     (minute <? 0) || (59 <? minute) || (second <? 0) || (60 <? second)
  then None
  else
    let ordinarySecond := if second =? 60 then 59 else second in
    match date_UTC year month day hour minute ordinarySecond with
    | None => None
    | Some base =>
        if negb (getUTCFullYear base =? year) || negb (getUTCMonth base =? month) || negb (getUTCDate base =? day) ||
           negb (getUTCHours base =? hour) || negb (getUTCMinutes base =? minute) || negb (getUTCSeconds base =? ordinarySecond)
        then None
        else Some (if second =? 60 then base + 1000 else base)
    end.

Definition parseIMFFixdate (value : jsstr) : option Z :=
  if negb (length value =? 29)%nat || negb (validShortWeekday (slice value 0 3)) || negb (str_eqb (slice value 3 2) (u ", ")) ||
     negb (unit_is value 7 32) || negb (unit_is value 11 32) || negb (unit_is value 16 32) || negb (unit_is value 19 58) ||
     negb (unit_is value 22 58) || negb (unit_is value 25 32) || negb (str_eqb (to_lower (drop 26 value)) (u "gmt"))
  then None
  else makeTime (decimal_at value 12 4) (monthIndex (slice value 8 3)) (decimal_at value 5 2) (decimal_at value 17 2)
         (decimal_at value 20 2) (decimal_at value 23 2).

(** The year of two digits, at most fifty years ahead. *)
Definition near_year (currentYear shortYear : Z) : Z :=
  let year := currentYear / 100 * 100 + shortYear in
  if currentYear + 50 <? year then year - 100 else year.

(** [rest] is the value from its first comma, so that [value.charCodeAt(comma + i)]
    is [rest.charCodeAt(i)].  [makeTime] of a year that is NaN is null. *)
Definition parseRFC850Date (value : jsstr) (now : option Z) : option Z :=
  let comma := js_indexOf value 44 0 in
  let rest := drop (Z.to_nat comma) value in
  if (comma <? 6) || negb (validLongWeekday (take (Z.to_nat comma) value)) || negb (str_eqb (slice rest 0 2) (u ", ")) ||
     negb (length rest =? 24)%nat || negb (unit_is rest 4 45) || negb (unit_is rest 8 45) ||
     negb (unit_is rest 11 32) || negb (unit_is rest 14 58) || negb (unit_is rest 17 58) ||
     negb (unit_is rest 20 32) || negb (str_eqb (to_lower (drop 21 rest)) (u "gmt"))
  then None
  else
    let shortYear := decimal_at rest 9 2 in
    if shortYear <? 0 then None
    else
      match now with
      | None => None
      | Some now =>
          makeTime (near_year (getUTCFullYear now) shortYear) (monthIndex (slice rest 5 3))
            (decimal_at rest 2 2) (decimal_at rest 12 2) (decimal_at rest 15 2) (decimal_at rest 18 2)
      end.

Definition parseASCTime (value : jsstr) : option Z :=
  if negb (length value =? 24)%nat || negb (validShortWeekday (slice value 0 3)) || negb (unit_is value 3 32) ||
     negb (unit_is value 7 32) || negb (unit_is value 10 32) || negb (unit_is value 13 58) || negb (unit_is value 16 58) ||
     negb (unit_is value 19 32)
  then None
  else
    let day := if unit_is value 8 32 then decimal_at value 9 1 else decimal_at value 8 2 in
    makeTime (decimal_at value 20 4) (monthIndex (slice value 4 3)) day (decimal_at value 11 2) (decimal_at value 14 2)
      (decimal_at value 17 2).

(** [parseHTTPDate] for a finite [now]. *)
Definition parseHTTPDate (value : jsstr) (now : option Z) : option Z :=
  match parseIMFFixdate value with
  | Some time => Some time
  | None => match parseRFC850Date value now with Some time => Some time | None => parseASCTime value end
  end.

(** ** Specification *)

(** Two and four decimal digits. *)
Definition two (v : Z) : jsstr := [48 + v / 10; 48 + v mod 10].
Definition four (v : Z) : jsstr := two (v / 100) ++ two (v mod 100).
Definition clock (h mi s : Z) : jsstr := two h ++ u ":" ++ two mi ++ u ":" ++ two s.

(** A name of a table in any case. *)
Definition month_name (name : jsstr) (month : Z) : Prop := 0 <= month /\ at_ months month = Some (to_lower name).

(** The formats of a date: [IMF-fixdate], [rfc850-date] and [asctime-date]. *)
Inductive date_text (now : option Z) : jsstr -> Z -> Z -> Z -> Z -> Z -> Z -> Prop :=
| imf_text w name g y mo d h mi s : to_lower w ∈ shortWeekdays -> month_name name mo -> to_lower g = u "gmt" -> 0 <= y < 10000 ->
    date_text now (w ++ u ", " ++ two d ++ u " " ++ name ++ u " " ++ four y ++ u " " ++ clock h mi s ++ u " " ++ g) y mo d h mi s
| rfc850_text w name g time yy mo d h mi s : to_lower w ∈ longWeekdays -> month_name name mo -> to_lower g = u "gmt" -> 0 <= yy < 100 ->
    now = Some time ->
    date_text now (w ++ u ", " ++ two d ++ u "-" ++ name ++ u "-" ++ two yy ++ u " " ++ clock h mi s ++ u " " ++ g)
      (near_year (getUTCFullYear time) yy) mo d h mi s
| asctime_text w name day y mo d h mi s : to_lower w ∈ shortWeekdays -> month_name name mo -> 0 <= y < 10000 ->
    day = two d \/ day = [32; 48 + d] /\ 0 <= d < 10 ->
    date_text now (w ++ u " " ++ name ++ u " " ++ day ++ u " " ++ clock h mi s ++ u " " ++ four y) y mo d h mi s.

(** The time of a date and a time of day; a leap second is the one after. *)
Definition http_time (y mo d h mi s t : Z) : Prop :=
  1601 <= y /\ is_calendar_date y mo d /\ 0 <= h <= 23 /\ 0 <= mi <= 59 /\ 0 <= s <= 60 /\
  Z.abs (instant y mo d h mi (Z.min s 59)) <= 8640000000000000 /\
  t = instant y mo d h mi (Z.min s 59) + (if s =? 60 then 1000 else 0).

(** ** Times *)

Lemma date_UTC_clip y m d h mi s : 100 <= y -> 0 <= m <= 11 -> date_UTC y m d h mi s = time_clip (instant y m d h mi s).
Proof.
  intros Hy Hm. unfold date_UTC. destruct (in_range 0 99 y) eqn:Hr; [unfold in_range in Hr; rewrite andb_true_iff, !Z.leb_le in Hr; lia|].
  by rewrite (Z.div_small m 12), (Z.mod_small m 12), Z.add_0_r by lia.
Qed.

Lemma makeTime_spec y mo d h mi s t : makeTime y mo d h mi s = Some t <-> http_time y mo d h mi s t.
Proof.
  unfold makeTime, http_time. destruct (_ || _) eqn:Hg.
  { rewrite !orb_true_iff, !Z.ltb_lt in Hg. split; [done|]. intros (? & [? Hd] & ? & ? & ? & _). pose proof (days_in_month_max y mo). lia. }
  rewrite !orb_false_iff, !Z.ltb_ge in Hg. rewrite date_UTC_clip by lia.
  assert (Hs : (if s =? 60 then 59 else s) = Z.min s 59) by (destruct (Z.eqb_spec s 60); lia). rewrite Hs.
  unfold time_clip. destruct (Z.leb_spec (Z.abs (instant y mo d h mi (Z.min s 59))) 8640000000000000) as [Hb|Hb]; [|split; [done|lia]].
  destruct (_ || _) eqn:Hc.
  - rewrite !orb_true_iff, !negb_true_iff, !Z.eqb_neq in Hc. split; [done|]. intros (? & Hd & ? & ? & ? & ? & ->). exfalso.
    pose proof (instant_year y mo d h mi (Z.min s 59) 0 Hd). pose proof (instant_month y mo d h mi (Z.min s 59) 0 Hd).
    pose proof (instant_date y mo d h mi (Z.min s 59) 0 Hd). pose proof (instant_time y mo d h mi (Z.min s 59) 0).
    rewrite Z.add_0_r in *. lia.
  - rewrite !orb_false_iff, !negb_false_iff, !Z.eqb_eq in Hc. destruct Hc as [[[[[H1 H2] H3] _] _] _].
    pose proof (instant_of_fields (instant y mo d h mi (Z.min s 59))) as [Hd _]. rewrite H1, H2, H3 in Hd.
    destruct (Z.eqb_spec s 60) as [->|]; (split; [intros [= <-]; split_and!; try lia; apply Hd|intros (_ & _ & _ & _ & _ & _ & ->); f_equal; lia]).
Qed.

(** ** Digits *)

Lemma decimal_step code digits n : 48 <= code <= 57 -> decimal_loop (code :: digits) n = decimal_loop digits (n * 10 + code - 48).
Proof. intros Hc. cbn [decimal_loop]. destruct ((code <? 48) || (57 <? code)) eqn:E; [lia|done]. Qed.

Lemma decimal_step_inv code digits n : 0 <= decimal_loop (code :: digits) n ->
  48 <= code <= 57 /\ decimal_loop (code :: digits) n = decimal_loop digits (n * 10 + code - 48).
Proof. cbn [decimal_loop]. destruct ((code <? 48) || (57 <? code)) eqn:E; [lia|]. intros _. split; [lia|done]. Qed.

Lemma decimal_two v : 0 <= v < 100 -> decimal_loop (two v) 0 = v.
Proof. intros Hv. unfold two. rewrite !decimal_step by div_lia. cbn [decimal_loop]. div_lia. Qed.

Lemma decimal_four v : 0 <= v < 10000 -> decimal_loop (four v) 0 = v.
Proof.
  intros Hv. unfold four, two. cbn [app].
  assert (Hh : 0 <= v / 100 < 100) by div_lia. assert (Hl : 0 <= v mod 100 < 100) by div_lia.
  rewrite !decimal_step by div_lia. cbn [decimal_loop]. pose proof (Z.div_mod v 100). pose proof (Z.div_mod (v / 100) 10).
  pose proof (Z.div_mod (v mod 100) 10). lia.
Qed.

Lemma decimal_one v : 0 <= v < 10 -> decimal_loop [48 + v] 0 = v.
Proof. intros Hv. rewrite decimal_step by lia. cbn [decimal_loop]. lia. Qed.

Lemma two_of a b : 0 <= decimal_loop [a; b] 0 -> [a; b] = two (decimal_loop [a; b] 0) /\ 0 <= decimal_loop [a; b] 0 < 100.
Proof.
  intros H. destruct (decimal_step_inv _ _ _ H) as [Ha Ea]. rewrite Ea in H. destruct (decimal_step_inv _ _ _ H) as [Hb Eb].
  rewrite Ea, Eb. cbn [decimal_loop]. unfold two. split; [f_equal; [div_lia|f_equal; div_lia]|lia].
Qed.

Lemma four_of a b c d : 0 <= decimal_loop [a; b; c; d] 0 ->
  [a; b; c; d] = four (decimal_loop [a; b; c; d] 0) /\ 0 <= decimal_loop [a; b; c; d] 0 < 10000.
Proof.
  intros H. destruct (decimal_step_inv _ _ _ H) as [Ha Ea]. rewrite Ea in H. destruct (decimal_step_inv _ _ _ H) as [Hb Eb].
  rewrite Eb in H. destruct (decimal_step_inv _ _ _ H) as [Hc Ec]. rewrite Ec in H. destruct (decimal_step_inv _ _ _ H) as [Hd Ed].
  rewrite Ea, Eb, Ec, Ed. cbn [decimal_loop]. match goal with |- context [four ?x] => set (v := x) end. assert (Hv : v = 100 * (10 * (a - 48) + (b - 48)) + (10 * (c - 48) + (d - 48))) by (unfold v; lia).
  assert (Hq : v / 100 = 10 * (a - 48) + (b - 48)) by div_lia. assert (Hr : v mod 100 = 10 * (c - 48) + (d - 48)) by div_lia.
  unfold four. rewrite Hq, Hr. unfold two. cbn [app]. split; [f_equal; [div_lia|f_equal; [div_lia|f_equal; [div_lia|f_equal; div_lia]]]|lia].
Qed.

Lemma one_of a : 0 <= decimal_loop [a] 0 -> [a] = [48 + decimal_loop [a] 0] /\ 0 <= decimal_loop [a] 0 < 10.
Proof. intros H. destruct (decimal_step_inv _ _ _ H) as [Ha Ea]. rewrite Ea. cbn [decimal_loop]. split; [f_equal; lia|lia]. Qed.

(** ** Names *)

Lemma to_lower_length l : length (to_lower l) = length l.
Proof. apply length_fmap. Qed.

Lemma index_of_text_spec x l : forall i k, 0 <= i -> 0 <= k -> index_of_text x l i = i + k -> at_ l k = Some x.
Proof.
  induction l as [|y l IH]; intros i k Hi Hk; cbn [index_of_text]; [lia|]. destruct (str_eqb y x) eqn:E.
  - intros H. replace k with 0 by lia. apply str_eqb_true in E as ->. done.
  - intros H. destruct (decide (k = 0)) as [->|]; [exfalso; pose proof (index_of_text_bound x l (i + 1)) as Hb|].
    + assert (Hge : forall l j, 0 <= j -> index_of_text x l j = -1 \/ j <= index_of_text x l j).
      { clear. induction l as [|z l IH]; intros j Hj; cbn; [by left|]. destruct (str_eqb z x); [right; lia|]. destruct (IH (j + 1)); lia. }
      destruct (Hge l (i + 1)); lia.
    + specialize (IH (i + 1) (k - 1) ltac:(lia) ltac:(lia) ltac:(lia)). unfold at_ in *.
      destruct (Z.ltb_spec (k - 1) 0); [done|]. destruct (Z.ltb_spec k 0); [lia|].
      replace (Z.to_nat k) with (S (Z.to_nat (k - 1))) by lia. done.
Qed.

Lemma monthIndex_name name : 0 <= monthIndex name -> month_name name (monthIndex name).
Proof. intros H. split; [done|]. by apply (index_of_text_spec _ _ 0). Qed.

Lemma month_name_index name mo : month_name name mo -> monthIndex name = mo /\ length name = 3%nat.
Proof.
  intros [H0 Hat]. rewrite <- to_lower_length. unfold monthIndex. revert Hat. generalize (to_lower name). clear name. intros x Hat.
  pose proof (at_Some _ _ _ Hat) as [_ Hlen]. change (len months) with 12 in Hlen.
  assert (Hmo : mo = 0 \/ mo = 1 \/ mo = 2 \/ mo = 3 \/ mo = 4 \/ mo = 5 \/ mo = 6 \/ mo = 7 \/ mo = 8 \/ mo = 9 \/ mo = 10 \/ mo = 11) by lia.
  repeat (destruct Hmo as [->|Hmo]; [vm_compute in Hat; injection Hat as <-; by vm_compute|]). subst mo.
  vm_compute in Hat; injection Hat as <-; by vm_compute.
Qed.

Lemma short_length w : to_lower w ∈ shortWeekdays -> length w = 3%nat.
Proof.
  intros H. rewrite <- to_lower_length. revert H. generalize (to_lower w). intros x H.
  assert (Hall : Forall (fun d => length d = 3%nat) shortWeekdays) by by_computing. by eapply Forall_forall in Hall.
Qed.

Lemma gmt_length g : to_lower g = u "gmt" -> length g = 3%nat.
Proof. intros H. by rewrite <- to_lower_length, H. Qed.

(** A long name of a weekday holds no comma. *)
Lemma long_comma w : to_lower w ∈ longWeekdays -> (6 <= length w)%nat /\ 44 ∉ w.
Proof.
  intros H. rewrite <- to_lower_length. assert (Hall : Forall (fun d => (6 <= length d)%nat /\ 44 ∉ d) longWeekdays) by by_computing.
  eapply Forall_forall in Hall as [H6 H44]; [|done]. split; [done|]. intros Hin. apply H44.
  change 44 with (lower_latin 44). by apply list_elem_of_fmap_2.
Qed.

(** ** The formats *)

(** A list of a known length, element by element. *)
Ltac explode l :=
  lazymatch goal with
  | H : length l = 0%nat |- _ => destruct l; [clear H|discriminate H]
  | H : length l = S _ |- _ =>
      let c := fresh "c" in let r := fresh "r" in
      destruct l as [|c r]; [discriminate H|]; injection H as H; explode r
  end.

(** The checks of single characters. *)
Ltac format_chars :=
  repeat match goal with
  | H : unit_is _ _ _ = true |- _ => apply bool_decide_eq_true in H; cbn [lookup list_lookup] in H; injection H as ->
  end.

(** The texts of the numbers at the places of a format. *)
Ltac format_numbers Hh Hmi Hs Hmo Hname Eh Emi Es :=
  pose proof (monthIndex_name _ (proj1 Hmo)) as Hname;
  destruct (two_of _ _ (proj1 Hh)) as [Eh _]; destruct (two_of _ _ (proj1 Hmi)) as [Emi _]; destruct (two_of _ _ (proj1 Hs)) as [Es _].

Lemma parseIMF_text now value t : parseIMFFixdate value = Some t ->
  exists y mo d h mi s, date_text now value y mo d h mi s /\ http_time y mo d h mi s t.
Proof.
  unfold parseIMFFixdate. destruct (_ || _) eqn:Hg; [done|]. intros Ht%makeTime_spec.
  rewrite !orb_false_iff, !negb_false_iff in Hg. destruct Hg as [[[[[[[[[Hlen Hw] Hc] H7] H11] H16] H19] H22] H25] Hgmt].
  apply Nat.eqb_eq in Hlen. explode value. apply bool_decide_eq_true in Hw. apply str_eqb_true in Hc, Hgmt.
  format_chars. injection Hc as -> ->. unfold decimal_at, slice in *. cbn [take drop] in *.
  do 6 eexists. split; [|exact Ht]. destruct Ht as (Hy & [Hmo Hd] & Hh & Hmi & Hs & _).
  format_numbers Hh Hmi Hs Hmo Hname Eh Emi Es. destruct (two_of _ _ ltac:(etrans; [|exact (proj1 Hd)]; lia)) as [Ed _].
  destruct (four_of _ _ _ _ ltac:(etrans; [|exact Hy]; lia)) as [Ey Ry].
  lazymatch goal with |- date_text _ _ ?y ?mo ?d ?h ?mi ?s => pose proof (imf_text now _ _ _ y mo d h mi s Hw Hname Hgmt Ry) as Htext end. unfold clock in Htext.
  rewrite <- Ey, <- Ed, <- Eh, <- Emi, <- Es in Htext. exact Htext.
Qed.

Lemma parseASCTime_text now value t : parseASCTime value = Some t ->
  exists y mo d h mi s, date_text now value y mo d h mi s /\ http_time y mo d h mi s t.
Proof.
  unfold parseASCTime. destruct (_ || _) eqn:Hg; [done|]. intros Ht%makeTime_spec.
  rewrite !orb_false_iff, !negb_false_iff in Hg. destruct Hg as [[[[[[[Hlen Hw] H3] H7] H10] H13] H16] H19].
  apply Nat.eqb_eq in Hlen. explode value. apply bool_decide_eq_true in Hw.
  format_chars. unfold decimal_at, slice in *. cbn [take drop] in *.
  do 6 eexists. split; [|exact Ht]. destruct Ht as (Hy & [Hmo Hd] & Hh & Hmi & Hs & _).
  format_numbers Hh Hmi Hs Hmo Hname Eh Emi Es. destruct (four_of _ _ _ _ ltac:(etrans; [|exact Hy]; lia)) as [Ey Ry].
  destruct (unit_is _ 8 32) eqn:H8; format_chars;
    [destruct (one_of _ ltac:(etrans; [|exact (proj1 Hd)]; lia)) as [Ed Rd]|destruct (two_of _ _ ltac:(etrans; [|exact (proj1 Hd)]; lia)) as [Ed _]];
    lazymatch goal with |- date_text _ _ ?y ?mo ?d ?h ?mi ?s => pose proof (fun day => asctime_text now _ _ day y mo d h mi s Hw Hname Ry) as Htext end;
    unfold clock in Htext; setoid_rewrite <- Ey in Htext; setoid_rewrite <- Eh in Htext; setoid_rewrite <- Emi in Htext; setoid_rewrite <- Es in Htext.
  - refine (Htext [32; _] _). right. split; [by rewrite Ed at 1|done].
  - refine (Htext [_; _] _). by left.
Qed.

Lemma parseRFC850_text now value t : parseRFC850Date value now = Some t ->
  exists y mo d h mi s, date_text now value y mo d h mi s /\ http_time y mo d h mi s t.
Proof.
  unfold parseRFC850Date. set (comma := js_indexOf value 44 0). destruct (_ || _) eqn:Hg; [done|].
  rewrite !orb_false_iff, !negb_false_iff in Hg. destruct Hg as [[[[[[[[[[H6 Hw] Hc] Hlen] H4] H8] H11] H14] H17] H20] Hgmt].
  cbv zeta. pose proof (take_drop (Z.to_nat comma) value) as Hv. set (w := take _ value) in *. set (rest := drop _ value) in *.
  rewrite <- Hv. clearbody w rest. clear Hv.
  destruct (Z.ltb_spec (decimal_at rest 9 2) 0) as [|Hyy]; [done|]. destruct now as [time|]; [|done]. intros Ht%makeTime_spec.
  apply Nat.eqb_eq in Hlen. explode rest. apply bool_decide_eq_true in Hw. apply str_eqb_true in Hc, Hgmt.
  format_chars. injection Hc as -> ->. unfold decimal_at, slice in *. cbn [take drop] in *.
  do 6 eexists. split; [|exact Ht]. destruct Ht as (Hy & [Hmo Hd] & Hh & Hmi & Hs & _).
  format_numbers Hh Hmi Hs Hmo Hname Eh Emi Es. destruct (two_of _ _ ltac:(etrans; [|exact (proj1 Hd)]; lia)) as [Ed _].
  destruct (two_of _ _ Hyy) as [Ey Ry].
  lazymatch goal with |- date_text _ _ _ ?mo ?d ?h ?mi ?s =>
    pose proof (rfc850_text (Some time) _ _ _ time _ mo d h mi s Hw Hname Hgmt Ry eq_refl) as Htext end. unfold clock in Htext.
  rewrite <- Ey, <- Ed, <- Eh, <- Emi, <- Es in Htext. exact Htext.
Qed.

(** The formats differ in their lengths. *)
Lemma parseIMF_length v t : parseIMFFixdate v = Some t -> length v = 29%nat.
Proof. unfold parseIMFFixdate. destruct (Nat.eqb_spec (length v) 29); [done|]. by cbn. Qed.

Lemma parseASCTime_length v t : parseASCTime v = Some t -> length v = 24%nat.
Proof. unfold parseASCTime. destruct (Nat.eqb_spec (length v) 24); [done|]. by cbn. Qed.

Lemma parseRFC850_length v now t : parseRFC850Date v now = Some t -> (30 <= length v)%nat.
Proof.
  unfold parseRFC850Date. destruct (_ || _) eqn:Hg; [done|]. intros _. rewrite !orb_false_iff, !negb_false_iff in Hg.
  destruct Hg as [[[[[[[[[[H6 _] _] Hlen] _] _] _] _] _] _] _]. apply Nat.eqb_eq in Hlen. rewrite length_drop in Hlen. lia.
Qed.

Lemma none_if {A} (o : option A) (P : Prop) : (forall a, o = Some a -> P) -> ~ P -> o = None.
Proof. destruct o as [a|]; [|done]. intros H HP. destruct (HP (H a eq_refl)). Qed.

(** The guard of a format on a text of it. *)
Ltac guard_passes :=
  match goal with |- (if ?g then _ else _) = _ => let Hg := fresh in assert (Hg : g = false); [|rewrite Hg; clear Hg] end;
  [rewrite !orb_false_iff, !negb_false_iff; split_and!; try reflexivity; try (by apply bool_decide_eq_true_2)|].

Lemma imf_fields w name g y mo d h mi s : to_lower w ∈ shortWeekdays -> month_name name mo -> to_lower g = u "gmt" -> 0 <= y < 10000 ->
  0 <= d < 100 -> 0 <= h < 100 -> 0 <= mi < 100 -> 0 <= s < 100 ->
  parseIMFFixdate (w ++ u ", " ++ two d ++ u " " ++ name ++ u " " ++ four y ++ u " " ++ clock h mi s ++ u " " ++ g) = makeTime y mo d h mi s.
Proof.
  intros Hw Hname Hgmt Hy Hd Hh Hmi Hs. destruct (month_name_index _ _ Hname) as [<- Hl].
  pose proof (short_length _ Hw) as Hlw. pose proof (gmt_length _ Hgmt) as Hlg. explode w. explode name. explode g.
  unfold parseIMFFixdate. guard_passes.
  transitivity (makeTime (decimal_loop (four y) 0) (monthIndex [c2; c3; c4]) (decimal_loop (two d) 0) (decimal_loop (two h) 0)
    (decimal_loop (two mi) 0) (decimal_loop (two s) 0)); [reflexivity|by rewrite decimal_four, !decimal_two by done].
Qed.

Lemma asctime_fields w name day y mo d h mi s : to_lower w ∈ shortWeekdays -> month_name name mo -> 0 <= y < 10000 ->
  day = two d \/ day = [32; 48 + d] /\ 0 <= d < 10 -> 0 <= d < 100 -> 0 <= h < 100 -> 0 <= mi < 100 -> 0 <= s < 100 ->
  parseASCTime (w ++ u " " ++ name ++ u " " ++ day ++ u " " ++ clock h mi s ++ u " " ++ four y) = makeTime y mo d h mi s.
Proof.
  intros Hw Hname Hy Hday Hd Hh Hmi Hs. destruct (month_name_index _ _ Hname) as [<- Hl].
  pose proof (short_length _ Hw) as Hlw. explode w. explode name. destruct Hday as [->|[-> Hd9]]; unfold parseASCTime; guard_passes; cbv zeta.
  - transitivity (makeTime (decimal_loop (four y) 0) (monthIndex [c2; c3; c4])
      (if bool_decide (Some (48 + d / 10) = Some 32) then decimal_loop [48 + d mod 10] 0 else decimal_loop (two d) 0)
      (decimal_loop (two h) 0) (decimal_loop (two mi) 0) (decimal_loop (two s) 0)); [reflexivity|].
    rewrite bool_decide_eq_false_2 by (intros [= ?]; div_lia). by rewrite decimal_four, !decimal_two by done.
  - transitivity (makeTime (decimal_loop (four y) 0) (monthIndex [c2; c3; c4]) (decimal_loop [48 + d] 0)
      (decimal_loop (two h) 0) (decimal_loop (two mi) 0) (decimal_loop (two s) 0)); [reflexivity|].
    by rewrite decimal_four, !decimal_two, decimal_one by done.
Qed.

Lemma rfc850_fields w name g time yy mo d h mi s : to_lower w ∈ longWeekdays -> month_name name mo -> to_lower g = u "gmt" -> 0 <= yy < 100 ->
  0 <= d < 100 -> 0 <= h < 100 -> 0 <= mi < 100 -> 0 <= s < 100 ->
  parseRFC850Date (w ++ u ", " ++ two d ++ u "-" ++ name ++ u "-" ++ two yy ++ u " " ++ clock h mi s ++ u " " ++ g) (Some time) =
  makeTime (near_year (getUTCFullYear time) yy) mo d h mi s.
Proof.
  intros Hw Hname Hgmt Hy Hd Hh Hmi Hs. destruct (month_name_index _ _ Hname) as [<- Hl]. destruct (long_comma _ Hw) as [Hw6 Hw44].
  unfold parseRFC850Date. set (rest := u ", " ++ _).
  assert (Hc : js_indexOf (w ++ rest) 44 0 = len w).
  { unfold js_indexOf, rest. change (drop (Z.to_nat 0) ?l) with l. change (u ", ") with [44; 32]. cbn [app]. rewrite index_of_from_app by done. lia. }
  cbv zeta. rewrite Hc. unfold len. rewrite Nat2Z.id, take_app_length, drop_app_length. subst rest. clear Hc.
  pose proof (gmt_length _ Hgmt) as Hlg. explode name. explode g. guard_passes.
  { apply Z.ltb_ge. lia. }
  transitivity (if decimal_loop (two yy) 0 <? 0 then None else
    makeTime (near_year (getUTCFullYear time) (decimal_loop (two yy) 0)) (monthIndex [c; c0; c1]) (decimal_loop (two d) 0)
      (decimal_loop (two h) 0) (decimal_loop (two mi) 0) (decimal_loop (two s) 0)); [reflexivity|].
  rewrite !decimal_two by done. destruct (Z.ltb_spec yy 0); [lia|done].
Qed.

(** A text of one of the formats is read by its fields. *)
Lemma date_text_fields now value y mo d h mi s : date_text now value y mo d h mi s ->
  0 <= d < 100 -> 0 <= h < 100 -> 0 <= mi < 100 -> 0 <= s < 100 -> parseHTTPDate value now = makeTime y mo d h mi s.
Proof.
  intros Htext Hd Hh Hmi Hs. unfold parseHTTPDate.
  destruct Htext as [w name g y mo d h mi s Hw Hname Hgmt Hy|w name g time yy mo d h mi s Hw Hname Hgmt Hyy ->|w name day y mo d h mi s Hw Hname Hy Hday];
    pose proof (proj2 (month_name_index _ _ Hname)) as Hn.
  - rewrite (imf_fields w name g y mo) by done. destruct (makeTime _ _ _ _ _ _); [done|].
    rewrite (none_if _ _ (parseRFC850_length _ _)), (none_if _ _ (parseASCTime_length _));
      [done|rewrite !length_app; rewrite (short_length _ Hw), (gmt_length _ Hgmt), Hn; cbn; lia..].
  - rewrite (none_if _ _ (parseIMF_length _)); [|pose proof (long_comma _ Hw); rewrite !length_app, (gmt_length _ Hgmt), Hn; cbn; lia].
    rewrite (rfc850_fields w name g time yy mo) by done. destruct (makeTime _ _ _ _ _ _); [done|].
    apply (none_if _ _ (parseASCTime_length _)). pose proof (long_comma _ Hw). rewrite !length_app, (gmt_length _ Hgmt), Hn. cbn. lia.
  - assert (Hld : length day = 2%nat) by (by destruct Hday as [->|[-> _]]).
    rewrite (none_if _ _ (parseIMF_length _)), (none_if _ _ (parseRFC850_length _ _)), (asctime_fields w name day y mo d);
      [done..|rewrite !length_app, (short_length _ Hw), Hn, Hld; cbn; lia|rewrite !length_app, (short_length _ Hw), Hn, Hld; cbn; lia].
Qed.

(** ** Properties *)

(** The parser of HTTP dates accepts exactly the three formats of RFC 9110, with
    names in any case, of a date of the calendar from 1601 on and a time of day;
    two digits of a year mean the one at most fifty years ahead, and a leap second
    is the second after. *)
Theorem http_date_grammar (value : jsstr) (now : option Z) (t : Z) :
  parseHTTPDate value now = Some t <->
  exists y mo d h mi s, date_text now value y mo d h mi s /\ http_time y mo d h mi s t.
Proof.
  split.
  - unfold parseHTTPDate. destruct (parseIMFFixdate value) as [t1|] eqn:H1; [intros [= <-]; by apply parseIMF_text|].
    destruct (parseRFC850Date value now) as [t2|] eqn:H2; [intros [= <-]; by apply parseRFC850_text|apply parseASCTime_text].
  - intros (y & mo & d & h & mi & s & Htext & Ht). pose proof Ht as (_ & [Hmo Hd] & Hh & Hmi & Hs & _).
    pose proof (days_in_month_max y mo Hmo). rewrite (date_text_fields _ _ _ _ _ _ _ _ Htext) by lia. by apply makeTime_spec.
Qed.

Lemma http_date_grammar_witness :
  parseHTTPDate (u "Sunday, 06-NOV-94 08:49:37 GMT") (Some 1700000000000) = Some 784111777000 /\
  parseHTTPDate (u "Sun Nov  6 08:49:60 1994") None = Some 784111800000.
Proof.
  split; apply http_date_grammar.
  - exists 1994, 10, 6, 8, 49, 37. split; [|by_computing].
    apply (rfc850_text (Some 1700000000000) (u "Sunday") (u "NOV") (u "GMT") 1700000000000 94 10 6 8 49 37); [by_computing|split; by_computing|done..].
  - exists 1994, 10, 6, 8, 49, 60. split; [|by_computing].
    apply (asctime_text None (u "Sun") (u "Nov") (u " 6") 1994 10 6 8 49 60); [by_computing|split; by_computing|done|right; by split].
Defined.
