(* ===== verification/Doubles.v ===== *)
(** * Double-precision numbers

    The number type of ECMA-262 as the HTTP cache computes with it: the arithmetic
    of IEEE 754 from the specification of floats of the standard library, the
    comparisons, and the functions of [Math] and [Date] that the code uses. *)

From Stdlib Require Import SpecFloat.
From S2P Require Import Prelude Numbers CookieDate.
Local Open Scope Z_scope.

Definition double : Type := spec_float.

(** An integer of magnitude below [2^53] is exact. *)
Definition d_of (n : Z) : double := binary_normalize 53 1024 n 0 false.
Definition d_zero : double := S754_zero false.

Definition d_add (a b : double) : double := SFadd 53 1024 a b.
Definition d_sub (a b : double) : double := SFsub 53 1024 a b.
Definition d_mul (a b : double) : double := SFmul 53 1024 a b.
Definition d_div (a b : double) : double := SFdiv 53 1024 a b.

(** [a < b], [a <= b] and [a === b]; all are false with NaN. *)
Definition d_lt (a b : double) : bool := SFltb a b.
Definition d_le (a b : double) : bool := SFleb a b.
Definition d_eq (a b : double) : bool := SFeqb a b.

Definition is_nan (a : double) : bool := match a with S754_nan => true | _ => false end.
Definition is_negative_zero (a : double) : bool := match a with S754_zero s => s | _ => false end.
Definition isFinite (a : double) : bool := match a with S754_zero _ | S754_finite _ _ _ => true | _ => false end.

(** [Math.max] and [Math.min] of two numbers. *)
Definition d_max (a b : double) : double :=
  if is_nan a || is_nan b then S754_nan else if d_lt a b || (d_eq a b && is_negative_zero a) then b else a.
Definition d_min (a b : double) : double :=
  if is_nan a || is_nan b then S754_nan else if d_lt b a || (d_eq a b && is_negative_zero b) then b else a.

(** The greatest integer below a finite number, and the one towards zero. *)
Definition floor_to (a : double) : option Z :=
  match a with
  | S754_zero _ => Some 0
  | S754_finite s m e =>
      let m := if s then Z.neg m else Z.pos m in
      Some (if 0 <=? e then m * 2 ^ e else m / 2 ^ (- e))
  | _ => None
  end.
Definition trunc_to (a : double) : option Z :=
  match a with
  | S754_zero _ => Some 0
  | S754_finite s m e =>
      let q := if 0 <=? e then Z.pos m * 2 ^ e else Z.pos m / 2 ^ (- e) in
      Some (if s then - q else q)
  | _ => None
  end.

(** [Math.floor] *)
Definition d_floor (a : double) : double :=
  match a with
  | S754_finite _ _ _ => match floor_to a with Some n => d_of n | None => a end
  | _ => a
  end.

(** The text of a whole number. *)
Definition d_text (a : double) : jsstr :=
  match trunc_to a with
  | Some n => js_string_of n
  | None => match a with S754_infinity s => if s then u "-Infinity" else u "Infinity" | _ => u "NaN" end
  end.

(** The time value of [new Date(a)]. *)
Definition time_value (a : double) : option Z := n ← trunc_to a; time_clip n.

(** ** Order *)

Lemma d_lt_le a b : d_lt a b = true -> d_le a b = true.
Proof. unfold d_lt, d_le, SFltb, SFleb. by destruct (SFcompare a b) as [[]|]. Qed.

Lemma isFinite_nan a : isFinite a = true -> is_nan a = false.
Proof. by destruct a. Qed.

Lemma d_min_one a b : is_nan a = false -> is_nan b = false -> d_min a b = a \/ d_min a b = b.
Proof. intros Ha Hb. unfold d_min. rewrite Ha, Hb. cbn. destruct (_ || _); [by right|by left]. Qed.
