(* ===== verification/Freshness.v ===== *)
(** * Freshness of a stored response ([cache/freshness.ts])

    The age and the lifetime of a response, and whether it may be used again.
    Numbers of seconds are doubles, as the code computes with them. *)

From stdpp Require Import option.
From S2P Require Import Prelude Ascii Cookies CacheControl HttpDate Doubles.
Local Open Scope Z_scope.

(** The first member of an [Age] field. *)
Definition parseAge (value : jsstr) : option Z := parseDeltaSeconds (trimHTTPTabOrSpace (cut_at 44 value).1).

(** [parseHTTPDate] as the cache calls it, with the current time. *)
Definition parseHTTPDateAt (value : jsstr) (now : double) : option Z :=
  if isFinite now then parseHTTPDate value (time_value now) else None.

Record StoredResponseTiming := mk_timing {
  tm_requestTime : double;
  tm_responseTime : double;
  tm_dateValue : double;
  tm_ageValue : double;
}.

(** A number of milliseconds in seconds. *)
Definition seconds_of (a : double) : double := d_div a (d_of 1000).

Definition currentAgeSeconds (timing : StoredResponseTiming) (now : double) : double :=
  let responseDelay := d_max d_zero (seconds_of (d_sub (tm_responseTime timing) (tm_requestTime timing))) in
  let apparentAge := d_max d_zero (seconds_of (d_sub (tm_responseTime timing) (tm_dateValue timing))) in
  let correctedAgeValue := d_add (d_max d_zero (tm_ageValue timing)) responseDelay in
  let correctedInitialAge := d_max apparentAge correctedAgeValue in
  let residentTime := d_max d_zero (seconds_of (d_sub now (tm_responseTime timing))) in
  d_add correctedInitialAge residentTime.

(** [undefined], [null] or a time. *)
Inductive field_time := Absent | Invalid | At (time : double).

Record FreshnessLifetimeInput := mk_lifetime_input {
  li_shared : bool;
  li_parsed : ParsedCacheControl;
  li_responseTime : double;
  li_dateValue : double;
  li_expiresValue : field_time;
  li_lastModifiedValue : field_time;
  li_heuristicAllowed : bool;
  li_heuristicFraction : option double;
}.

Inductive FreshnessSource := FromSMaxage | FromMaxAge | FromExpires | FromHeuristic | FromNone.
Record FreshnessLifetime := mk_lifetime { lifetime_seconds : double; lifetime_source : FreshnessSource }.

(** [input.heuristicFraction ?? 0.1]; the literal is the double nearest to a tenth. *)
Definition tenth : double := d_div (d_of 1) (d_of 10).

Definition freshnessLifetime (input : FreshnessLifetimeInput) : result FreshnessLifetime :=
  let d := directives (li_parsed input) in
  if duplicateFreshnessDirective (li_parsed input) then Ok (mk_lifetime d_zero FromNone)
  else
    match (if li_shared input then sMaxage d else None), maxAge d, li_expiresValue input with
    | Some seconds, _, _ => Ok (mk_lifetime (d_of seconds) FromSMaxage)
    | None, Some seconds, _ => Ok (mk_lifetime (d_of seconds) FromMaxAge)
    | None, None, Invalid => Ok (mk_lifetime d_zero FromExpires)
    | None, None, At expires => Ok (mk_lifetime (d_max d_zero (seconds_of (d_sub expires (li_dateValue input)))) FromExpires)
    | None, None, Absent =>
        match li_heuristicAllowed input, li_lastModifiedValue input with
        | true, At modified =>
            let fraction := default tenth (li_heuristicFraction input) in
            throw_if (negb (isFinite fraction) || d_lt fraction d_zero || d_lt (d_of 1) fraction)
              (RangeError "Invalid heuristic freshness fraction") ;;
            Ok (mk_lifetime (d_max d_zero (d_mul (seconds_of (d_sub (li_dateValue input) modified)) fraction)) FromHeuristic)
        | _, _ => Ok (mk_lifetime d_zero FromNone)
        end
    end.

Inductive CacheReuseDecision := Fresh | StaleAllowed | Revalidate.
#[export] Instance CacheReuseDecision_eq_dec : EqDecision CacheReuseDecision.
Proof. solve_decision. Defined.

Record CacheReuseInput := mk_reuse {
  ri_currentAge : double;
  ri_freshnessLifetime : double;
  ri_request : CacheControlDirectives;
  ri_response : CacheControlDirectives;
  ri_shared : bool;
}.

(** [!== undefined] *)
Definition present {A} (o : option A) : bool := bool_decide (is_Some o).

(** [=== true] of a qualified directive. *)
Definition bare (q : option QualifiedCacheDirective) : bool := match q with Some Bare => true | _ => false end.

(** The lifetime that the request accepts. *)
Definition accepted_lifetime (input : CacheReuseInput) : double :=
  match maxAge (ri_request input) with
  | Some seconds => d_min (ri_freshnessLifetime input) (d_of seconds)
  | None => ri_freshnessLifetime input
  end.

(** The directives that forbid to use a stale response. *)
Definition must_revalidate (shared : bool) (response : CacheControlDirectives) : bool :=
  mustRevalidate response || (shared && (proxyRevalidate response || present (sMaxage response))).

Definition cacheReuseDecision (input : CacheReuseInput) : CacheReuseDecision :=
  if present (noCache (ri_request input)) || bare (noCache (ri_response input)) then Revalidate
  else
    let lifetime := accepted_lifetime input in
    let ageWithRequiredFreshness := d_add (ri_currentAge input) (d_of (default 0 (minFresh (ri_request input)))) in
    if d_lt ageWithRequiredFreshness lifetime then Fresh
    else if must_revalidate (ri_shared input) (ri_response input) then Revalidate
    else
      match maxStale (ri_request input) with
      | Some AnyStale => StaleAllowed
      | Some (StaleBy seconds) =>
          if d_le (d_sub (ri_currentAge input) lifetime) (d_of seconds) then StaleAllowed else Revalidate
      | None => Revalidate
      end.
