(* ===== verification/CacheStore.v ===== *)
(** * The store of the HTTP cache ([cache/store.ts])

    The metadata of a stored response, the transactional writer and the bounded
    store in memory, with what its eviction promises.  An entry is an object: its
    identity is a number that the store gives it. *)

From stdpp Require Import relations.
From S2P Require Import Prelude Effects FetchHeaders Doubles.
Local Open Scope Z_scope.

Record HttpCacheVaryField := mk_vary { vary_name : jsstr; vary_value : option jsstr }.
#[export] Instance HttpCacheVaryField_eq_dec : EqDecision HttpCacheVaryField.
Proof. solve_decision. Defined.

Inductive cache_method := GetMethod | HeadMethod.
#[export] Instance cache_method_eq_dec : EqDecision cache_method.
Proof. solve_decision. Defined.
Definition method_text (m : cache_method) : jsstr := match m with GetMethod => u "GET" | HeadMethod => u "HEAD" end.

Record HttpCacheEntryMetadata := mk_metadata {
  m_url : jsstr;
  m_method : cache_method;
  m_requestHeaders : list HeaderEntry;
  m_status : Z;
  m_statusText : jsstr;
  m_responseHeaders : list HeaderEntry;
  m_vary : list HttpCacheVaryField;
  m_requestTime : double;
  m_responseTime : double;
}.

(** [HttpCacheBody]: its length and the chunks that [open] streams. *)
Record HttpCacheBody := mk_body { body_length : Z; body_chunks : list (list Z) }.

Record HttpCacheEntry := mk_entry { e_id : nat; e_metadata : HttpCacheEntryMetadata; e_body : option HttpCacheBody }.

Definition e_url (e : HttpCacheEntry) : jsstr := m_url (e_metadata e).
Definition e_size (e : HttpCacheEntry) : Z := match e_body e with Some b => body_length b | None => 0 end.

(** ** The store in memory *)

Record MemoryEntry := mk_memory_entry { me_entry : HttpCacheEntry; me_sequence : Z }.

Record MemoryHttpCacheStoreOptions := mk_store_options {
  o_maxEntries : option Z; o_maxTotalBytes : option Z; o_maxEntryBytes : option Z }.

(** [MemoryHttpCacheStore], with the identity of the next entry. *)
Record MemoryHttpCacheStore := mk_store {
  s_maxEntryBytes : Z;
  s_maxEntries : Z;
  s_maxTotalBytes : Z;
  s_entries : list MemoryEntry;
  s_totalBytes : Z;
  s_sequence : Z;
  s_nextId : nat;
}.

Definition validateLimit (value : option Z) (fallback : Z) (name : string) : result Z :=
  let result := default fallback value in
  throw_if (negb (isSafeInteger result) || (result <? 0)) (RangeError ("Invalid memory cache " +:+ name)) ;;
  Ok result.

Definition new_store (options : MemoryHttpCacheStoreOptions) : result MemoryHttpCacheStore :=
  maxEntries ← validateLimit (o_maxEntries options) 1024 "entry count";
  maxTotalBytes ← validateLimit (o_maxTotalBytes options) (100 * 1024 * 1024) "total bytes";
  maxEntryBytes ← validateLimit (o_maxEntryBytes options) (5 * 1024 * 1024) "entry bytes";
  Ok (mk_store maxEntryBytes maxEntries maxTotalBytes [] 0 0 0).

(** The loop of [equalVary] after its check of the lengths. *)
Fixpoint equal_fields (l r : list HttpCacheVaryField) : bool :=
  match l, r with
  | a :: l, b :: r => str_eqb (vary_name a) (vary_name b) && bool_decide (vary_value a = vary_value b) && equal_fields l r
  | [], [] => true
  | _, _ => false
  end.
Definition equalVary (l r : list HttpCacheVaryField) : bool := (length l =? length r)%nat && equal_fields l r.

Definition find (url : jsstr) (s : MemoryHttpCacheStore) : list HttpCacheEntry :=
  me_entry <$> filter (fun e => str_eqb (e_url (me_entry e)) url = true) (s_entries s).

Definition with_entries (entries : list MemoryEntry) (totalBytes sequence : Z) (nextId : nat) (s : MemoryHttpCacheStore) : MemoryHttpCacheStore :=
  mk_store (s_maxEntryBytes s) (s_maxEntries s) (s_maxTotalBytes s) entries totalBytes sequence nextId.

(** The first entry that is the given object, with what precedes and follows it. *)
Fixpoint split_entry (id : nat) (entries : list MemoryEntry) : option (list MemoryEntry * MemoryEntry * list MemoryEntry) :=
  match entries with
  | [] => None
  | e :: rest =>
      if (e_id (me_entry e) =? id)%nat then Some ([], e, rest)
      else '(before, found, after) ← split_entry id rest; Some (e :: before, found, after)
  end.

Definition touch (entry : HttpCacheEntry) (s : MemoryHttpCacheStore) : MemoryHttpCacheStore :=
  match split_entry (e_id entry) (s_entries s) with
  | None => s
  | Some (before, candidate, after) =>
      with_entries (before ++ mk_memory_entry (me_entry candidate) (s_sequence s + 1) :: after) (s_totalBytes s) (s_sequence s + 1) (s_nextId s) s
  end.

Definition replaceMetadata (entry : HttpCacheEntry) (metadata : HttpCacheEntryMetadata) (s : MemoryHttpCacheStore) :
    MemoryHttpCacheStore * option HttpCacheEntry :=
  match split_entry (e_id entry) (s_entries s) with
  | None => (s, None)
  | Some (before, candidate, after) =>
      let replacement := mk_entry (s_nextId s) metadata (e_body (me_entry candidate)) in
      (with_entries (before ++ mk_memory_entry replacement (s_sequence s + 1) :: after) (s_totalBytes s) (s_sequence s + 1) (S (s_nextId s)) s,
       Some replacement)
  end.

Definition sum_sizes (entries : list MemoryEntry) : Z := foldr (fun e total => e_size (me_entry e) + total) 0 entries.

(** Keep the entries without the property, and count what is dropped. *)
Definition drop_entries (dropped : MemoryEntry -> bool) (s : MemoryHttpCacheStore) : MemoryHttpCacheStore :=
  with_entries (filter (fun e => dropped e = false) (s_entries s))
    (s_totalBytes s - sum_sizes (filter (fun e => dropped e = true) (s_entries s))) (s_sequence s) (s_nextId s) s.

Definition delete (url : jsstr) (s : MemoryHttpCacheStore) : MemoryHttpCacheStore :=
  drop_entries (fun e => str_eqb (e_url (me_entry e)) url) s.

(** The loop of [evict] that finds the oldest entry; [i] is the index of the rest. *)
Fixpoint oldest_loop (rest : list MemoryEntry) (i : nat) (oldest : nat) (sequence : Z) : nat :=
  match rest with
  | [] => oldest
  | candidate :: rest =>
      if me_sequence candidate <? sequence then oldest_loop rest (S i) i (me_sequence candidate)
      else oldest_loop rest (S i) oldest sequence
  end.
Definition oldest_index (entries : list MemoryEntry) : nat :=
  match entries with [] => O | first :: rest => oldest_loop rest 1 0 (me_sequence first) end.

Definition over_limit (s : MemoryHttpCacheStore) : bool :=
  (s_maxEntries s <? len (s_entries s)) || (s_maxTotalBytes s <? s_totalBytes s).

(** One round of the loop of [evict]. *)
Definition evict_oldest (s : MemoryHttpCacheStore) : MemoryHttpCacheStore :=
  let oldest := oldest_index (s_entries s) in
  let removed := match s_entries s !! oldest with Some e => e_size (me_entry e) | None => 0 end in
  with_entries (base.delete oldest (s_entries s)) (s_totalBytes s - removed) (s_sequence s) (s_nextId s) s.

Fixpoint evict_loop (fuel : nat) (s : MemoryHttpCacheStore) : result MemoryHttpCacheStore :=
  if over_limit s then match fuel with O => Err OutOfFuel | S fuel => evict_loop fuel (evict_oldest s) end
  else Ok s.
Definition evict (s : MemoryHttpCacheStore) : result MemoryHttpCacheStore := evict_loop (length (s_entries s)) s.

(** An entry that a new one replaces. *)
Definition same_variant (metadata : HttpCacheEntryMetadata) (e : MemoryEntry) : bool :=
  let m := e_metadata (me_entry e) in
  str_eqb (m_url m) (m_url metadata) && bool_decide (m_method m = m_method metadata) && equalVary (m_vary m) (m_vary metadata).

Definition commit (metadata : HttpCacheEntryMetadata) (body : HttpCacheBody) (s : MemoryHttpCacheStore) : result MemoryHttpCacheStore :=
  let s := drop_entries (same_variant metadata) s in
  evict (with_entries (s_entries s ++ [mk_memory_entry (mk_entry (s_nextId s) metadata (Some body)) (s_sequence s + 1)])
    (s_totalBytes s + body_length body) (s_sequence s + 1) (S (s_nextId s)) s).

(** ** The writer *)

Record MemoryHttpCacheWriter := mk_writer {
  w_metadata : HttpCacheEntryMetadata; w_chunks : list (list Z); w_length : Z; w_finished : bool }.

Definition createWrite (metadata : HttpCacheEntryMetadata) (s : MemoryHttpCacheStore) : option MemoryHttpCacheWriter :=
  if (s_maxEntries s =? 0) || (s_maxTotalBytes s =? 0) || (s_maxEntryBytes s =? 0) then None
  else Some (mk_writer metadata [] 0 false).

Definition writer_write (s : MemoryHttpCacheStore) (chunk : list Z) : Eff MemoryHttpCacheWriter unit := fun w =>
  if w_finished w then (w, Err (TypeError "Cache write is already finished"))
  else if s_maxEntryBytes s <? w_length w + len chunk then (w, Err (LimitError "HTTP cache entry exceeded configured byte limit"))
  else (mk_writer (w_metadata w) (w_chunks w ++ [chunk]) (w_length w + len chunk) false, Ok tt).

(** [commit]: the writer and the store after it. *)
Definition writer_commit (w : MemoryHttpCacheWriter) (s : MemoryHttpCacheStore) : MemoryHttpCacheWriter * result MemoryHttpCacheStore :=
  if w_finished w then (w, Err (TypeError "Cache write is already finished"))
  else (mk_writer (w_metadata w) (w_chunks w) (w_length w) true, commit (w_metadata w) (mk_body (w_length w) (w_chunks w)) s).

Definition writer_abort (w : MemoryHttpCacheWriter) : MemoryHttpCacheWriter :=
  if w_finished w then w else mk_writer (w_metadata w) [] (w_length w) true.

(** ** Specification *)

(** The store counts what it holds, within its limits; its entries are distinct
    objects with distinct sequence numbers. *)
Record store_ok (s : MemoryHttpCacheStore) : Prop := mk_store_ok {
  so_limits : 0 <= s_maxEntries s /\ 0 <= s_maxTotalBytes s /\ 0 <= s_maxEntryBytes s;
  so_total : s_totalBytes s = sum_sizes (s_entries s);
  so_within : over_limit s = false;
  so_sizes : Forall (fun e => 0 <= e_size (me_entry e)) (s_entries s);
  so_sequences : NoDup (me_sequence <$> s_entries s) /\ Forall (fun e => me_sequence e <= s_sequence s) (s_entries s);
  so_ids : NoDup ((e_id ∘ me_entry) <$> s_entries s) /\ Forall (fun e => (e_id (me_entry e) < s_nextId s)%nat) (s_entries s);
}.

(** A step of the program on the store, and on the entries it has been given. *)
Inductive store_step : MemoryHttpCacheStore -> MemoryHttpCacheStore -> Prop :=
| store_touch entry s : store_step s (touch entry s)
| store_replace entry metadata s : store_step s (replaceMetadata entry metadata s).1
| store_delete url s : store_step s (delete url s)
| store_commit metadata body s s' : 0 <= body_length body -> commit metadata body s = Ok s' -> store_step s s'.

(** What fits into the store, and the entries used since a time. *)
Definition fits (s : MemoryHttpCacheStore) (entries : list MemoryEntry) : bool :=
  (len entries <=? s_maxEntries s) && (sum_sizes entries <=? s_maxTotalBytes s).
Definition newer (q : Z) (entries : list MemoryEntry) : list MemoryEntry := filter (fun e => q <= me_sequence e) entries.

(** The most recently used entries that fit together. *)
Definition recent (s : MemoryHttpCacheStore) (entries : list MemoryEntry) : list MemoryEntry :=
  filter (fun e => fits s (newer (me_sequence e) entries) = true) entries.

(** The entries when a response is published: those that it does not replace, and
    its own. *)
Definition published (metadata : HttpCacheEntryMetadata) (body : HttpCacheBody) (s : MemoryHttpCacheStore) : list MemoryEntry :=
  filter (fun e => same_variant metadata e = false) (s_entries s) ++
  [mk_memory_entry (mk_entry (s_nextId s) metadata (Some body)) (s_sequence s + 1)].

(** [store_ok] without the limits. *)
Record counted (s : MemoryHttpCacheStore) : Prop := mk_counted {
  co_limits : 0 <= s_maxEntries s /\ 0 <= s_maxTotalBytes s /\ 0 <= s_maxEntryBytes s;
  co_total : s_totalBytes s = sum_sizes (s_entries s);
  co_sizes : Forall (fun e => 0 <= e_size (me_entry e)) (s_entries s);
  co_sequences : NoDup (me_sequence <$> s_entries s) /\ Forall (fun e => me_sequence e <= s_sequence s) (s_entries s);
  co_ids : NoDup ((e_id ∘ me_entry) <$> s_entries s) /\ Forall (fun e => (e_id (me_entry e) < s_nextId s)%nat) (s_entries s);
}.

Lemma store_ok_counted s : store_ok s <-> counted s /\ over_limit s = false.
Proof. split; [intros []; by split|intros [[] ?]; by split]. Qed.

(** A store for the examples: two entries of four bytes, with room for two. *)
Definition sample_metadata (url : jsstr) : HttpCacheEntryMetadata := mk_metadata url GetMethod [] 200 (u "OK") [] [] d_zero d_zero.
Definition sample_store : MemoryHttpCacheStore :=
  mk_store 5242880 2 10
    [mk_memory_entry (mk_entry 0 (sample_metadata (u "/a")) (Some (mk_body 4 [[1; 2; 3; 4]]))) 1;
     mk_memory_entry (mk_entry 1 (sample_metadata (u "/b")) (Some (mk_body 4 [[1; 2; 3; 4]]))) 2] 8 2 2.

Definition same_limits (s s' : MemoryHttpCacheStore) : Prop :=
  s_maxEntries s' = s_maxEntries s /\ s_maxTotalBytes s' = s_maxTotalBytes s /\ s_maxEntryBytes s' = s_maxEntryBytes s /\
  s_sequence s' = s_sequence s /\ s_nextId s' = s_nextId s.

(** ** Lists of entries *)

Lemma sum_sizes_app l k : sum_sizes (l ++ k) = sum_sizes l + sum_sizes k.
Proof. induction l as [|e l IH]; [done|]. cbn [app sum_sizes foldr] in *. fold (sum_sizes (l ++ k)) (sum_sizes l) in *. lia. Qed.

Lemma sum_sizes_filter (P : MemoryEntry -> bool) l :
  sum_sizes l = sum_sizes (filter (fun e => P e = true) l) + sum_sizes (filter (fun e => P e = false) l).
Proof.
  induction l as [|e l IH]; [done|]. rewrite !filter_cons. destruct (P e) eqn:E; repeat case_decide; try done; cbn [sum_sizes foldr] in *;
    fold (sum_sizes l) (sum_sizes (filter (fun e => P e = true) l)) (sum_sizes (filter (fun e => P e = false) l)) in *; lia.
Qed.

Lemma sum_sizes_sublist l k : l `sublist_of` k -> Forall (fun e => 0 <= e_size (me_entry e)) k -> 0 <= sum_sizes l <= sum_sizes k.
Proof.
  induction 1 as [|e l k _ IH|e l k _ IH]; intros Hk; [done|inversion Hk; subst; specialize (IH ltac:(done))..];
    cbn [sum_sizes foldr] in *; fold (sum_sizes l) (sum_sizes k) in *; lia.
Qed.

Lemma filter_filter_in {A} (P Q R : A -> Prop) `{!forall x, Decision (P x), !forall x, Decision (Q x), !forall x, Decision (R x)} (l : list A) :
  (forall x, x ∈ l -> (R x <-> P x /\ Q x)) -> filter P (filter Q l) = filter R l.
Proof.
  induction l as [|x l IH]; intros Hall; [done|]. assert (Hl : forall y, y ∈ l -> (R y <-> P y /\ Q y)) by (intros y Hy; apply Hall; by right).
  assert (Hx : R x <-> P x /\ Q x) by (apply Hall; left). clear Hall. rewrite (filter_cons Q), (filter_cons R).
  destruct (decide (Q x)); [rewrite filter_cons|]; repeat case_decide; rewrite ?IH by done; try done; tauto.
Qed.

Lemma filter_everything {A} (P : A -> Prop) `{!forall x, Decision (P x)} (l : list A) : (forall x, x ∈ l -> P x) -> filter P l = l.
Proof.
  induction l as [|x l IH]; intros Hall; [done|]. rewrite filter_cons_True by (apply Hall; left). f_equal. apply IH. intros y Hy. apply Hall. by right.
Qed.

Lemma Forall_sublist {A} (P : A -> Prop) (l k : list A) : l `sublist_of` k -> Forall P k -> Forall P l.
Proof. intros Hs Hk. apply Forall_forall. intros x Hx. eapply Forall_forall; [exact Hk|]. by eapply elem_of_sublist. Qed.

Lemma fits_sublist s l k : l `sublist_of` k -> Forall (fun e => 0 <= e_size (me_entry e)) k -> fits s k = true -> fits s l = true.
Proof.
  intros Hs Hk. pose proof (sum_sizes_sublist _ _ Hs Hk). pose proof (sublist_length _ _ Hs). unfold fits, len. lia.
Qed.

Lemma over_limit_fits s : counted s -> over_limit s = negb (fits s (s_entries s)).
Proof. intros []. unfold over_limit, fits. lia. Qed.

(** ** The oldest entry *)

Lemma oldest_loop_spec rest : forall pre oldest sequence e, pre !! oldest = Some e -> me_sequence e = sequence ->
  (forall x, x ∈ pre -> sequence <= me_sequence x) ->
  exists o, (pre ++ rest) !! oldest_loop rest (length pre) oldest sequence = Some o /\
    forall x, x ∈ pre ++ rest -> me_sequence o <= me_sequence x.
Proof.
  induction rest as [|c rest IH]; intros pre oldest sequence e He Hs Hmin; cbn [oldest_loop].
  { exists e. rewrite app_nil_r. split; [done|]. intros x Hx. specialize (Hmin x Hx). lia. }
  replace (pre ++ c :: rest) with ((pre ++ [c]) ++ rest) by (by rewrite <- app_assoc).
  replace (S (length pre)) with (length (pre ++ [c])) by (rewrite length_app; cbn; lia).
  destruct (Z.ltb_spec (me_sequence c) sequence) as [Hlt|Hge].
  - apply (IH _ _ _ c); [by apply list_lookup_middle|done|]. intros x [Hx| ->%list_elem_of_singleton]%elem_of_app; [specialize (Hmin x Hx)|]; lia.
  - apply (IH _ _ _ e); [by apply lookup_app_l_Some|done|]. intros x [Hx| ->%list_elem_of_singleton]%elem_of_app; [by apply Hmin|lia].
Qed.

Lemma oldest_index_spec entries : entries <> [] -> exists o, entries !! oldest_index entries = Some o /\
  forall x, x ∈ entries -> me_sequence o <= me_sequence x.
Proof.
  destruct entries as [|e rest]; [done|]. intros _. unfold oldest_index.
  apply (oldest_loop_spec rest [e] 0 (me_sequence e) e); [done|done|]. intros x ->%list_elem_of_singleton. lia.
Qed.

(** To delete it leaves the entries with later sequence numbers. *)
Lemma delete_oldest entries i o : NoDup (me_sequence <$> entries) -> entries !! i = Some o -> (forall x, x ∈ entries -> me_sequence o <= me_sequence x) ->
  base.delete i entries = filter (fun e => me_sequence o < me_sequence e) entries /\ sum_sizes entries = e_size (me_entry o) + sum_sizes (base.delete i entries).
Proof.
  intros Hnd Hi Hmin. apply list_elem_of_split_length in Hi as (l1 & l2 & -> & ->). rewrite delete_middle.
  assert (Hother : forall x, x ∈ l1 ++ l2 -> me_sequence o < me_sequence x).
  { intros x Hx. specialize (Hmin x ltac:(set_solver)). rewrite fmap_app, fmap_cons in Hnd.
    assert (me_sequence x <> me_sequence o); [|lia]. intros E. apply NoDup_app in Hnd as (_ & H1 & H2). apply NoDup_cons in H2 as [H2 _].
    apply elem_of_app in Hx as [Hx|Hx].
    - apply (H1 (me_sequence x)); [by apply list_elem_of_fmap_2|rewrite E; set_solver].
    - apply H2. rewrite <- E. by apply list_elem_of_fmap_2. }
  split.
  - rewrite filter_app. rewrite filter_cons_False by lia. rewrite !filter_everything; [done|intros x Hx; apply Hother; set_solver..].
  - rewrite !sum_sizes_app. cbn [sum_sizes foldr]. fold (sum_sizes l2). lia.
Qed.

(** ** Eviction *)

Lemma counted_sublist s entries total : counted s -> entries `sublist_of` s_entries s -> total = sum_sizes entries ->
  counted (with_entries entries total (s_sequence s) (s_nextId s) s).
Proof.
  intros [Hl Ht Hz [Hq1 Hq2] [Hi1 Hi2]] Hs ->. split; cbn [with_entries s_maxEntries s_maxTotalBytes s_maxEntryBytes s_totalBytes s_entries s_sequence s_nextId].
  - done.
  - done.
  - by eapply Forall_sublist.
  - split; [eapply sublist_NoDup; [exact Hq1|]; by apply fmap_sublist|by eapply Forall_sublist].
  - split; [eapply sublist_NoDup; [exact Hi1|]; by apply fmap_sublist|by eapply Forall_sublist].
Qed.

Lemma evict_oldest_spec s : counted s -> over_limit s = true ->
  counted (evict_oldest s) /\ (length (s_entries (evict_oldest s)) < length (s_entries s))%nat /\
  exists o, o ∈ s_entries s /\ (forall x, x ∈ s_entries s -> me_sequence o <= me_sequence x) /\
    s_entries (evict_oldest s) = filter (fun e => me_sequence o < me_sequence e) (s_entries s).
Proof.
  intros Hc Ho. pose proof Hc as [[Hl1 [Hl2 _]] Ht _ [Hq _] _].
  assert (Hne : s_entries s <> []).
  { intros E. unfold over_limit in Ho. rewrite Ht, E in Ho. change (sum_sizes []) with 0 in Ho. rewrite len_nil in Ho. lia. }
  destruct (oldest_index_spec _ Hne) as (o & Hi & Hmin). destruct (delete_oldest _ _ _ Hq Hi Hmin) as [Hd Hsum].
  unfold evict_oldest. cbv zeta. rewrite Hi. split_and!.
  - apply counted_sublist; [done|apply sublist_delete|]. rewrite Ht. lia.
  - cbn [with_entries s_entries]. rewrite length_delete by done. apply lookup_lt_Some in Hi. lia.
  - exists o. split; [by eapply list_elem_of_lookup_2|]. by split.
Qed.

Lemma newer_lt q entries o : (forall x, x ∈ entries -> me_sequence o <= me_sequence x) -> me_sequence o < q ->
  newer q (filter (fun e => me_sequence o < me_sequence e) entries) = newer q entries.
Proof. intros Hmin Hq. apply filter_filter_in. intros x Hx. lia. Qed.

Lemma recent_over s o : (forall x, x ∈ s_entries s -> me_sequence o <= me_sequence x) -> fits s (s_entries s) = false ->
  recent s (filter (fun e => me_sequence o < me_sequence e) (s_entries s)) = recent s (s_entries s).
Proof.
  intros Hmin Hf. apply filter_filter_in. intros x Hx. destruct (decide (me_sequence o < me_sequence x)) as [Hlt|Hge].
  - rewrite newer_lt by done. tauto.
  - assert (Hall : newer (me_sequence x) (s_entries s) = s_entries s).
    { apply filter_everything. intros y Hy. specialize (Hmin y Hy). lia. }
    rewrite Hall, Hf. split; [done|]. by intros [_ ?].
Qed.

Lemma recent_same s s' entries : same_limits s s' -> recent s' entries = recent s entries.
Proof. intros (H1 & H2 & _). unfold recent, fits. by rewrite H1, H2. Qed.

(** The loop ends with the most recently used entries that fit. *)
Lemma evict_loop_spec fuel : forall s, counted s -> (length (s_entries s) <= fuel)%nat ->
  exists s', evict_loop fuel s = Ok s' /\ counted s' /\ over_limit s' = false /\ same_limits s s' /\ s_entries s' = recent s (s_entries s).
Proof.
  induction fuel as [|fuel IH]; intros s Hc Hf; cbn [evict_loop]; destruct (over_limit s) eqn:Ho.
  1: { destruct (evict_oldest_spec s Hc Ho) as (_ & ? & _). lia. }
  2: { destruct (evict_oldest_spec s Hc Ho) as (Hc1 & Hlt & o & Hin & Hmin & He).
       destruct (IH (evict_oldest s) Hc1 ltac:(lia)) as (s' & Hrun & Hc' & Ho' & Hsame & Hent).
       exists s'. split_and!; [done..|]. rewrite Hent, He. rewrite (recent_same s) by (by unfold evict_oldest).
       apply recent_over; [done|]. rewrite over_limit_fits in Ho by done. by apply negb_true_iff. }
  all: exists s; split_and!; try done; rewrite over_limit_fits in Ho by done; apply negb_false_iff in Ho.
  all: symmetry; apply filter_everything; intros x Hx; eapply fits_sublist; [apply sublist_filter|apply Hc|done].
Qed.

(** ** Operations *)

Lemma split_entry_spec id entries before found after : split_entry id entries = Some (before, found, after) ->
  entries = before ++ found :: after /\ e_id (me_entry found) = id.
Proof.
  revert before found after. induction entries as [|e entries IH]; intros before found after; [done|]. cbn [split_entry].
  destruct (Nat.eqb_spec (e_id (me_entry e)) id) as [<-|]; [by intros [= <- <- <-]|].
  destruct (split_entry id entries) as [[[b f] a]|]; [|done]. intros [= <- <- <-]. by destruct (IH _ _ _ eq_refl) as [-> ?].
Qed.

(** An entry in place of another one, with a new sequence number. *)
Lemma counted_replace s before found after entry next : counted s -> s_entries s = before ++ found :: after ->
  e_size entry = e_size (me_entry found) -> (s_nextId s <= next)%nat ->
  (e_id entry = e_id (me_entry found) \/ e_id entry = s_nextId s /\ next = S (s_nextId s)) ->
  over_limit s = false ->
  store_ok (with_entries (before ++ mk_memory_entry entry (s_sequence s + 1) :: after) (s_totalBytes s) (s_sequence s + 1) next s).
Proof.
  intros [Hl Ht Hz [Hq1 Hq2] [Hi1 Hi2]] He Hsize Hnext Hid Ho. rewrite He in *.
  apply Forall_app in Hz as [Hz1 Hz2]. apply Forall_cons in Hz2 as [Hzf Hz2].
  apply Forall_app in Hq2 as [Hqb Hqa]. apply Forall_cons in Hqa as [_ Hqa].
  apply Forall_app in Hi2 as [Hib Hia]. apply Forall_cons in Hia as [Hif Hia].
  rewrite fmap_app, fmap_cons in Hq1. rewrite fmap_app, fmap_cons in Hi1.
  split; cbn [with_entries s_maxEntries s_maxTotalBytes s_maxEntryBytes s_totalBytes s_entries s_sequence s_nextId].
  - done.
  - rewrite Ht, !sum_sizes_app. cbn [sum_sizes foldr me_entry]. rewrite Hsize. done.
  - revert Ho. unfold over_limit. cbn. rewrite He. unfold len. by rewrite !length_app.
  - apply Forall_app; split; [done|]. constructor; [|done]. cbn. by rewrite Hsize.
  - rewrite fmap_app, fmap_cons. cbn [me_sequence]. split.
    + apply NoDup_app in Hq1 as (N1 & N2 & N3). apply NoDup_cons in N3 as [N3 N4].
      assert (Hnew : forall l, Forall (fun e => me_sequence e <= s_sequence s) l -> s_sequence s + 1 ∉ me_sequence <$> l).
      { intros l Hl' (x & E & Hx)%list_elem_of_fmap. eapply Forall_forall in Hl'; [|exact Hx]. cbn in Hl'. lia. }
      apply NoDup_app. split_and!; [done| |].
      * intros x Hx [->|Hx']%elem_of_cons; [exact (Hnew _ Hqb Hx)|]. apply (N2 x Hx). by right.
      * apply NoDup_cons. split; [by apply Hnew|done].
    + apply Forall_app; split; [eapply Forall_impl; [exact Hqb|cbn; lia]|]. constructor; [cbn; lia|]. eapply Forall_impl; [exact Hqa|cbn; lia].
  - rewrite fmap_app, fmap_cons. cbn [me_entry compose]. split.
    + destruct Hid as [->|[-> ->]]; [done|]. apply NoDup_app in Hi1 as (N1 & N2 & N3). apply NoDup_cons in N3 as [N3 N4].
      assert (Hnew : forall l, Forall (fun e => (e_id (me_entry e) < s_nextId s)%nat) l -> s_nextId s ∉ (fun x => e_id (me_entry x)) <$> l).
      { intros l Hl' (x & E & Hx)%list_elem_of_fmap. eapply Forall_forall in Hl'; [|exact Hx]. cbn in Hl'. lia. }
      apply NoDup_app. split_and!; [done| |].
      * intros x Hx [->|Hx']%elem_of_cons; [exact (Hnew _ Hib Hx)|]. apply (N2 x Hx). by right.
      * apply NoDup_cons. split; [by apply Hnew|done].
    + apply Forall_app; split; [eapply Forall_impl; [exact Hib|cbn; lia]|]. constructor; [cbn; lia|]. eapply Forall_impl; [exact Hia|cbn; lia].
Qed.

Lemma store_touch_ok entry s : store_ok s -> store_ok (touch entry s).
Proof.
  intros Hs. unfold touch. destruct (split_entry (e_id entry) (s_entries s)) as [[[before found] after]|] eqn:E; [|done].
  apply split_entry_spec in E as [He _]. apply store_ok_counted in Hs as [Hc Ho].
  apply (counted_replace s before found after); [done|done|done|done|by left|done].
Qed.

Lemma replaceMetadata_ok entry metadata s : store_ok s -> store_ok (replaceMetadata entry metadata s).1.
Proof.
  intros Hs. unfold replaceMetadata. destruct (split_entry (e_id entry) (s_entries s)) as [[[before found] after]|] eqn:E; [|done].
  apply split_entry_spec in E as [He _]. apply store_ok_counted in Hs as [Hc Ho].
  apply (counted_replace s before found after); [done|done|done|lia|by right|done].
Qed.

Lemma drop_entries_counted P s : counted s -> counted (drop_entries P s).
Proof.
  intros Hc. apply counted_sublist; [done|apply sublist_filter|]. pose proof (co_total s Hc) as ->.
  rewrite (sum_sizes_filter P (s_entries s)). lia.
Qed.

Lemma delete_ok url s : store_ok s -> store_ok (delete url s).
Proof.
  intros [Hc Ho]%store_ok_counted. apply store_ok_counted. split; [by apply drop_entries_counted|].
  rewrite over_limit_fits in * by (try done; by apply drop_entries_counted). apply negb_false_iff in Ho. apply negb_false_iff.
  by apply (fits_sublist _ _ _ (sublist_filter _ _) (co_sizes s Hc)).
Qed.

Lemma pushed_counted metadata body s : counted s -> 0 <= body_length body ->
  counted (with_entries (s_entries s ++ [mk_memory_entry (mk_entry (s_nextId s) metadata (Some body)) (s_sequence s + 1)])
    (s_totalBytes s + body_length body) (s_sequence s + 1) (S (s_nextId s)) s).
Proof.
  intros [Hl Ht Hz [Hq1 Hq2] [Hi1 Hi2]] Hb.
  split; cbn [with_entries s_maxEntries s_maxTotalBytes s_maxEntryBytes s_totalBytes s_entries s_sequence s_nextId].
  - done.
  - rewrite sum_sizes_app, Ht. cbn. lia.
  - apply Forall_app; split; [done|]. by repeat constructor.
  - rewrite fmap_app. split.
    + apply NoDup_app. split_and!; [done| |apply NoDup_singleton]. intros x (y & -> & Hy)%list_elem_of_fmap Hin.
      apply list_elem_of_singleton in Hin. eapply Forall_forall in Hq2; [|exact Hy]. cbn in Hin, Hq2. lia.
    + apply Forall_app; split; [eapply Forall_impl; [exact Hq2|cbn; lia]|]. repeat constructor. cbn. lia.
  - rewrite fmap_app. split.
    + apply NoDup_app. split_and!; [done| |apply NoDup_singleton]. intros x (y & -> & Hy)%list_elem_of_fmap Hin.
      apply list_elem_of_singleton in Hin. eapply Forall_forall in Hi2; [|exact Hy]. cbn in Hin, Hi2. lia.
    + apply Forall_app; split; [eapply Forall_impl; [exact Hi2|cbn; lia]|]. repeat constructor.
Qed.

Lemma commit_spec metadata body s : store_ok s -> 0 <= body_length body ->
  exists s', commit metadata body s = Ok s' /\ store_ok s' /\ s_entries s' = recent s (published metadata body s) /\
    s_maxEntries s' = s_maxEntries s /\ s_maxTotalBytes s' = s_maxTotalBytes s.
Proof.
  intros [Hc _]%store_ok_counted Hb. pose proof (drop_entries_counted (same_variant metadata) s Hc) as Hd.
  pose proof (pushed_counted metadata body _ Hd Hb) as Hp. unfold commit, evict.
  destruct (evict_loop_spec _ _ Hp (Nat.le_refl _)) as (s' & Hrun & Hc' & Ho' & (H1 & H2 & _) & He).
  exists s'. split_and!; [exact Hrun|by apply store_ok_counted|exact He|done|done].
Qed.

Lemma equalVary_refl l : equalVary l l = true.
Proof.
  unfold equalVary. rewrite Nat.eqb_refl. cbn. induction l as [|a l IH]; [done|]. cbn [equal_fields]. rewrite IH.
  unfold str_eqb. by rewrite !bool_decide_eq_true_2.
Qed.

Lemma equal_fields_eq l : forall r, equal_fields l r = true -> l = r.
Proof.
  induction l as [|[n v] l IH]; intros [|[n' v'] r]; try done. cbn [equal_fields vary_name vary_value].
  rewrite !andb_true_iff. intros [[->%str_eqb_true ->%bool_decide_eq_true] ->%IH]. done.
Qed.

Lemma recent_app s l a b : l = a ++ b ->
  recent s l = filter (fun e => fits s (newer (me_sequence e) l) = true) a ++ filter (fun e => fits s (newer (me_sequence e) l) = true) b.
Proof. intros ->. apply filter_app. Qed.

(** The response that was just published is the only one of its variant. *)
Lemma published_variant metadata body s : store_ok s -> 0 <= body_length body ->
  1 <= s_maxEntries s -> body_length body <= s_maxTotalBytes s ->
  filter (fun e => same_variant metadata e = true) (recent s (published metadata body s)) =
  [mk_memory_entry (mk_entry (s_nextId s) metadata (Some body)) (s_sequence s + 1)].
Proof.
  intros Hs Hb H1 H2. set (new := mk_memory_entry _ _). destruct Hs as [_ _ _ _ [_ Hq] _].
  assert (Hnew : newer (s_sequence s + 1) (published metadata body s) = [new]).
  { unfold newer, published. rewrite filter_app. fold new. rewrite filter_cons_True by (cbn; lia). rewrite filter_none; [done|].
    intros x [_ Hx]%list_elem_of_filter. eapply Forall_forall in Hq; [|exact Hx]. cbn in Hq. lia. }
  assert (Hfit : fits s [new] = true) by (unfold fits; change (sum_sizes [new]) with (body_length body + 0); change (len [new]) with 1; lia).
  rewrite (recent_app s (published metadata body s) _ _ eq_refl). fold new. rewrite filter_app, (filter_none _ (filter _ (filter _ (s_entries s)))).
  - rewrite filter_cons_True by (cbn [me_sequence new]; by rewrite Hnew). rewrite filter_nil, filter_cons_True; [done|].
    unfold same_variant. cbn. unfold str_eqb. rewrite equalVary_refl. by rewrite !bool_decide_eq_true_2.
  - intros x [_ [Hx _]%list_elem_of_filter]%list_elem_of_filter. congruence.
Qed.

Lemma store_step_ok s s' : store_ok s -> store_step s s' -> store_ok s'.
Proof.
  intros Hs Hstep. destruct Hstep as [entry s|entry metadata s|url s|metadata body s s' Hb Hc].
  - by apply store_touch_ok.
  - by apply replaceMetadata_ok.
  - by apply delete_ok.
  - destruct (commit_spec metadata body s Hs Hb) as (s1 & Hc1 & Hs1 & _). congruence.
Qed.

Lemma new_store_ok options s : new_store options = Ok s -> store_ok s.
Proof.
  unfold new_store, validateLimit. intros H. repeat ok_inv H.
  repeat match goal with Hx : (throw_if _ _ ≫= _) = Ok _ |- _ => ok_inv Hx end. simplify_eq. split; cbn; try done.
  - lia.
  - unfold over_limit. cbn [s_maxEntries s_entries s_maxTotalBytes s_totalBytes]. rewrite len_nil. lia.
  - by split; constructor.
  - by split; constructor.
Qed.

(** ** Property *)


