(* ===== verification/HttpCachePolicy.v ===== *)
(** * The policy of the HTTP cache ([cache/http-cache.ts])

    The pure functions of the cache: header lists, the key of [Vary], what may be
    stored, which headers are, which stored response is selected and when a stale
    one may be served. *)

From stdpp Require Import sorting.
From S2P Require Import Prelude Ascii Numbers FetchHeaders Doubles CacheControl Freshness CacheStore.
Local Open Scope Z_scope.

(** The parts of a [URLRecord] that the cache reads. *)
Record CacheURL := mk_cache_url { url_href : jsstr; url_origin : jsstr }.

(** [TransportRequest]: the body, its length, its replay and the signal are passed
    on as one. *)
Record TransportRequest := mk_request {
  q_url : CacheURL;
  q_method : jsstr;
  q_headers : list HeaderEntry;
  q_payload : nat;
}.

Definition keyURL (url : CacheURL) : jsstr :=
  let hash := js_indexOf (url_href url) 35 0 in
  if hash <? 0 then url_href url else subarray (url_href url) 0 hash.

(** ** Header lists *)

Definition headerValues (headers : list HeaderEntry) (name : jsstr) : list jsstr :=
  snd <$> filter (fun e => to_lower e.1 = name) headers.

Definition headerValue (headers : list HeaderEntry) (name : jsstr) : option jsstr :=
  match headerValues headers name with [] => None | values => Some (js_join (u ", ") values) end.

Definition firstHeaderValue (headers : list HeaderEntry) (name : jsstr) : option jsstr := head (headerValues headers name).

Definition parseHeaderCacheControl (headers : list HeaderEntry) : result ParsedCacheControl :=
  parseCacheControl (default [] (headerValue headers (u "cache-control"))).

(** One unit of the loop of [normalizeVaryValue]: the result and [pendingSpace]. *)
Definition normalize_unit (s : jsstr * bool) (code : Z) : jsstr * bool :=
  let '(result, pendingSpace) := s in
  if (code =? 9) || (code =? 32) then (result, 0 <? len result)
  else ((if pendingSpace : bool then result ++ [32] else result) ++ [code], false).
Definition normalizeVaryValue (value : jsstr) : jsstr := (foldl normalize_unit ([], false) value).1.

Definition requestHeaderValue (headers : list HeaderEntry) (name : jsstr) : option jsstr :=
  normalizeVaryValue <$> headerValue headers name.

(** ** The key of [Vary] *)

(** The loop over the members; [None] is the early [return null]. *)
Fixpoint vary_names (members : list jsstr) (names : list jsstr) : option (list jsstr) :=
  match members with
  | [] => Some names
  | member :: members =>
      let name := to_lower (trimHTTPTabOrSpace member) in
      if len name =? 0 then vary_names members names
      else if str_eqb name (u "*") then None
      else if negb (isToken name) then None
      else vary_names members (push_new names name)
  end.

(** [names.sort()] *)
Definition text_order (a b : jsstr) : Prop := str_ltb b a = false.
#[export] Instance text_order_dec : RelDecision text_order.
Proof. intros a b. unfold text_order. apply _. Defined.

Definition createVaryKey (responseHeaders requestHeaders : list HeaderEntry) : option (list HttpCacheVaryField) :=
  match headerValue responseHeaders (u "vary") with
  | None => Some []
  | Some value =>
      if len (trimHTTPTabOrSpace value) =? 0 then Some []
      else
        names ← vary_names (js_split 44 value) [];
        Some ((fun name => mk_vary name (requestHeaderValue requestHeaders name)) <$> merge_sort text_order names)
  end.

Definition varyMatches (vary : list HttpCacheVaryField) (requestHeaders : list HeaderEntry) : bool :=
  forallb (fun field => bool_decide (requestHeaderValue requestHeaders (vary_name field) = vary_value field)) vary.

(** ** What may be stored *)

Definition isHeuristicallyCacheableStatus (status : Z) : bool :=
  bool_decide (status ∈ [200; 203; 204; 300; 301; 308; 404; 405; 410; 414; 501]).

Definition statusIsUnderstood (status : Z) : bool :=
  ((200 <=? status) && (status <=? 599) && negb (status =? 206)) || (status =? 304).

Definition hasExplicitFreshness (d : CacheControlDirectives) (headers : list HeaderEntry) (shared : bool) : bool :=
  public d || present (private d) || present (maxAge d) || (shared && present (sMaxage d)) ||
  present (firstHeaderValue headers (u "expires")).

Definition is_cacheable_method (method : jsstr) : bool := str_eqb method (u "GET") || str_eqb method (u "HEAD").

(** The response by its status and headers. *)
Definition isResponseStorable (request : TransportRequest) (status : Z) (headers : list HeaderEntry) (shared : bool) : result bool :=
  if negb (is_cacheable_method (q_method request)) then Ok false
  else if (status =? 206) || (status =? 304) then Ok false
  else
    requestControl ← directives <$> parseHeaderCacheControl (q_headers request);
    responseControl ← directives <$> parseHeaderCacheControl headers;
    if noStore requestControl || noStore responseControl then Ok false
    else if mustUnderstand responseControl && negb (statusIsUnderstood status) then Ok false
    else if shared && bare (private responseControl) then Ok false
    else if shared && present (headerValue (q_headers request) (u "authorization")) && negb (public responseControl) &&
            negb (mustRevalidate responseControl) && negb (present (sMaxage responseControl))
    then Ok false
    else
      match createVaryKey headers (q_headers request) with
      | None => Ok false
      | Some _ => Ok (hasExplicitFreshness responseControl headers shared || isHeuristicallyCacheableStatus status)
      end.

(** ** Which headers are stored *)

Definition hop_by_hop : list jsstr :=
  [u "connection"; u "keep-alive"; u "proxy-authenticate"; u "proxy-authentication-info"; u "proxy-authorization";
   u "te"; u "trailer"; u "transfer-encoding"; u "upgrade"].

(** A member of [Connection] among the names. *)
Definition push_connection (result : list jsstr) (member : jsstr) : list jsstr :=
  let name := to_lower (trimHTTPTabOrSpace member) in
  if isToken name then push_new result name else result.

Definition connectionFieldNames (headers : list HeaderEntry) : list jsstr :=
  match headerValue headers (u "connection") with
  | None => hop_by_hop
  | Some connection => foldl push_connection hop_by_hop (js_split 44 connection)
  end.

(** The names of a qualified directive. *)
Definition field_list (q : option QualifiedCacheDirective) : list jsstr := match q with Some (FieldNames names) => names | _ => [] end.

Definition excluded_names (headers : list HeaderEntry) (d : CacheControlDirectives) (shared : bool) : list jsstr :=
  let excluded := foldl push_new (connectionFieldNames headers) (field_list (noCache d)) in
  let excluded := if shared then foldl push_new excluded (field_list (private d)) else excluded in
  if shared then push_new excluded (u "set-cookie") else excluded.

(** The entries with other names than those excluded, in lower case. *)
Definition without_names (excluded : list jsstr) (headers : list HeaderEntry) : list HeaderEntry :=
  (fun e => (to_lower e.1, e.2)) <$> filter (fun e => to_lower e.1 ∉ excluded) headers.

Definition storedResponseHeaders (headers : list HeaderEntry) (d : CacheControlDirectives) (shared : bool) : list HeaderEntry :=
  without_names (excluded_names headers d shared) headers.

Definition setHeader (headers : list HeaderEntry) (name value : jsstr) : list HeaderEntry :=
  filter (fun e => to_lower e.1 <> name) headers ++ [(name, value)].

Definition copyRequest (request : TransportRequest) (headers : list HeaderEntry) : TransportRequest :=
  mk_request (q_url request) (q_method request) headers (q_payload request).

Definition conditional_names : list jsstr :=
  [u "if-modified-since"; u "if-none-match"; u "if-unmodified-since"; u "if-match"; u "if-range"].
Definition requestHasConditional (headers : list HeaderEntry) : bool :=
  existsb (fun name => present (headerValue headers name)) conditional_names.

Definition hasPragmaNoCache (headers : list HeaderEntry) : bool :=
  existsb (fun value => existsb (fun member => str_eqb (to_lower (trimHTTPTabOrSpace member)) (u "no-cache")) (js_split 44 value))
    (headerValues headers (u "pragma")).

(** [${text.length}:${text}] *)
Definition counted_text (text : jsstr) : jsstr := js_string_of (len text) ++ [58] ++ text.
Definition revalidationKey (m : HttpCacheEntryMetadata) : jsstr :=
  counted_text (method_text (m_method m)) ++ counted_text (m_url m) ++
  concat ((fun field => counted_text (vary_name field) ++
    match vary_value field with None => [45] | Some value => counted_text value end) <$> m_vary m).

(** ** Selection *)

Definition responseDate (m : HttpCacheEntryMetadata) (now : double) : double :=
  match firstHeaderValue (m_responseHeaders m) (u "date") with
  | None => m_responseTime m
  | Some value => match parseHTTPDateAt value now with Some t => d_of t | None => m_responseTime m end
  end.

(** Whether [candidate] is more recent than [current]. *)
Definition more_recent (candidate current : HttpCacheEntryMetadata) (now : double) : bool :=
  let leftDate := responseDate current now in
  let rightDate := responseDate candidate now in
  d_lt leftDate rightDate || (d_eq rightDate leftDate && d_lt (m_responseTime current) (m_responseTime candidate)).

Definition selectMoreRecent (current : option HttpCacheEntry) (candidate : HttpCacheEntry) (now : double) : HttpCacheEntry :=
  match current with
  | None => candidate
  | Some current => if more_recent (e_metadata candidate) (e_metadata current) now then candidate else current
  end.

(** The entries that [select] passes over or compares. *)
Definition entry_matches (request : TransportRequest) (e : HttpCacheEntry) : bool :=
  (str_eqb (method_text (m_method (e_metadata e))) (q_method request) ||
   (str_eqb (q_method request) (u "HEAD") && bool_decide (m_method (e_metadata e) = GetMethod))) &&
  varyMatches (m_vary (e_metadata e)) (q_headers request).

Definition select_entry (request : TransportRequest) (entries : list HttpCacheEntry) (now : double) : option HttpCacheEntry :=
  foldl (fun matched e => if entry_matches request e then Some (selectMoreRecent matched e now) else matched) None entries.

Record SelectedEntry := mk_selected {
  sel_entry : HttpCacheEntry;
  sel_age : double;
  sel_lifetime : double;
  sel_requestDirectives : CacheControlDirectives;
  sel_responseDirectives : CacheControlDirectives;
}.

(** A date field of a response: absent, invalid or a time. *)
Definition date_field (value : option jsstr) (now : double) : field_time :=
  match value with
  | None => Absent
  | Some value => match parseHTTPDateAt value now with Some t => At (d_of t) | None => Invalid end
  end.

(** [Expires] counts when it occurs once. *)
Definition expires_field (headers : list HeaderEntry) (now : double) : field_time :=
  match headerValues headers (u "expires") with
  | [] => Absent
  | [value] => date_field (Some value) now
  | _ => Invalid
  end.

(** What [select] computes of the entry that it has found. *)
Definition describe (request : TransportRequest) (e : HttpCacheEntry) (shared : bool) (heuristicFraction : option double) (now : double) :
    result SelectedEntry :=
  let m := e_metadata e in
  responseControl ← parseHeaderCacheControl (m_responseHeaders m);
  requestControl ← directives <$> parseHeaderCacheControl (q_headers request);
  let requestControl :=
    if negb (present (headerValue (q_headers request) (u "cache-control"))) && hasPragmaNoCache (q_headers request)
    then set_noCache (Some Bare) requestControl else requestControl in
  let dateValue := responseDate m now in
  let ageValue := match firstHeaderValue (m_responseHeaders m) (u "age") with None => 0 | Some value => default 0 (parseAge value) end in
  lifetime ← freshnessLifetime (mk_lifetime_input shared responseControl (m_responseTime m) dateValue
    (expires_field (m_responseHeaders m) now) (date_field (firstHeaderValue (m_responseHeaders m) (u "last-modified")) now)
    (isHeuristicallyCacheableStatus (m_status m)) heuristicFraction);
  Ok (mk_selected e (currentAgeSeconds (mk_timing (m_requestTime m) (m_responseTime m) dateValue (d_of ageValue)) now)
    (lifetime_seconds lifetime) requestControl (directives responseControl)).

(** ** Stale responses *)

Definition staleBySeconds (s : SelectedEntry) : double := d_max d_zero (d_sub (sel_age s) (sel_lifetime s)).

Definition within_allowance (s : SelectedEntry) (allowance : option Z) : bool :=
  match allowance with Some seconds => d_le (staleBySeconds s) (d_of seconds) | None => false end.

Definition forbids_stale (s : SelectedEntry) (shared : bool) : bool :=
  present (noCache (sel_responseDirectives s)) || must_revalidate shared (sel_responseDirectives s).

Definition canServeStaleIfError (s : SelectedEntry) (shared : bool) : bool :=
  if forbids_stale s shared then false
  else
    let requestAllowance := staleIfError (sel_requestDirectives s) in
    let responseAllowance := staleIfError (sel_responseDirectives s) in
    within_allowance s
      match requestAllowance, responseAllowance with
      | None, _ => responseAllowance
      | _, None => requestAllowance
      | Some a, Some b => Some (Z.min a b)
      end.

Definition canServeStaleWhileRevalidate (s : SelectedEntry) (shared : bool) : bool :=
  within_allowance s (staleWhileRevalidate (sel_responseDirectives s)) && negb (forbids_stale s shared).

(** The headers after a validation: those received replace those stored. *)
Definition merge304Headers (stored received : list HeaderEntry) : list HeaderEntry :=
  let excluded := connectionFieldNames received ++ [u "content-length"] in
  let replacements := foldl (fun names e => if bool_decide (to_lower e.1 ∈ excluded) then names else push_new names (to_lower e.1)) [] received in
  filter (fun e => to_lower e.1 ∉ replacements) stored ++ without_names excluded received.
