(* ===== verification/HttpCache.v ===== *)
(** * The HTTP cache ([cache/http-cache.ts])

    [HttpCache.dispatch] and the methods it calls, as programs: trees of the calls
    that the code awaits (of the store, the transport, the clock and the bodies),
    each followed by what the code does with any answer.  Nothing is assumed about
    what other requests do between two calls. *)

From S2P Require Import Prelude FetchHeaders Doubles CacheControl Freshness CacheStore HttpCachePolicy.
Local Open Scope Z_scope.

(** ** Calls *)

(** A stream: one that the store or the transport has opened, or one whose chunks
    are written through to the store ([writeThrough]). *)
Inductive Stream := Opened (source : nat) | WrittenThrough (source : Stream) (writer : nat).

Record TransportResponse := mk_response {
  p_status : Z;
  p_statusText : jsstr;
  p_headers : list HeaderEntry;
  p_body : option Stream;
}.

(** The calls that suspend the code, and the accesses to what its programs share: the
    field [background] of the cache, and the variables and the controller of a stream
    of [writeThrough].  [TakeWriter] reads the variable [writer] and clears it; its
    argument only names the callback that does so. *)
Inductive cache_call :=
| Clock
| Find (url : jsstr)
| CreateWrite (metadata : HttpCacheEntryMetadata)
| CommitWrite (writer : nat)
| AbortWrite (writer : nat)
| ReplaceMetadata (entry : HttpCacheEntry) (metadata : HttpCacheEntryMetadata)
| Touch (entry : HttpCacheEntry)
| Delete (url : jsstr)
| OpenBody (body : HttpCacheBody)
| Send (request : TransportRequest)
| Cancel (body : Stream)
| ReadToEnd (body : Stream)
| Background
| Spawn (request : TransportRequest) (selected : SelectedEntry)
| Remember (key : jsstr)
| Forget (key : jsstr)
| ReadSource (source : Stream)
| TakeWriter (canceling : bool)
| PeekWriter
| WriteChunk (writer : nat) (chunk : list Z)
| Enqueue (chunk : list Z)
| ReleaseSource
| CloseStream
| ErrorStream.

Definition answer (c : cache_call) : Type :=
  match c with
  | Clock => double
  | Find _ => list HttpCacheEntry
  | CreateWrite _ => option nat
  | ReplaceMetadata _ _ => option HttpCacheEntry
  | OpenBody _ => Stream
  | Send _ => TransportResponse
  | Background => list jsstr
  | ReadSource _ => option (list Z)
  | TakeWriter _ | PeekWriter => option nat
  | _ => unit
  end.

(** ** Programs *)

Inductive prog (A : Type) : Type :=
| Return (a : A)
| Throw (e : js_error)
| Call (c : cache_call) (k : result (answer c) -> prog A).
Arguments Return {A} a.
Arguments Throw {A} e.
Arguments Call {A} c k.

Definition done_with {A} (r : result A) : prog A := match r with Ok a => Return a | Err e => Throw e end.
Definition await (c : cache_call) : prog (answer c) := Call c done_with.

(** [m] and then [k] of its outcome, also when it has thrown. *)
Fixpoint outcome {A B} (m : prog A) (k : result A -> prog B) : prog B :=
  match m with
  | Return a => k (Ok a)
  | Throw e => k (Err e)
  | Call c h => Call c (fun r => outcome (h r) k)
  end.
Definition and_then {A B} (m : prog A) (k : A -> prog B) : prog B :=
  outcome m (fun r => match r with Ok a => k a | Err e => Throw e end).

(** [try { m } catch (e) { h }] and [try { m } finally { f }] *)
Definition try_catch {A} (m : prog A) (h : js_error -> prog A) : prog A :=
  outcome m (fun r => match r with Ok a => Return a | Err e => h e end).
Definition try_finally {A} (m : prog A) (f : prog unit) : prog A :=
  outcome m (fun r => and_then f (fun _ => done_with r)).

Declare Scope prog_scope.
Delimit Scope prog_scope with prog.
Notation "x ← m ; k" := (and_then m (fun x => k)) : prog_scope.
Notation "m ;; k" := (and_then m (fun _ => k)) : prog_scope.
Local Open Scope prog_scope.

(** ** The cache *)

Inductive RequestCache := DefaultMode | NoStoreMode | ReloadMode | NoCacheMode | ForceCacheMode | OnlyIfCachedMode.
#[export] Instance RequestCache_eq_dec : EqDecision RequestCache.
Proof. solve_decision. Defined.

Inductive HttpCacheState := FromNetwork | FromLocal | FromStale | FromValidation.
#[export] Instance HttpCacheState_eq_dec : EqDecision HttpCacheState.
Proof. solve_decision. Defined.

Record HttpCacheDispatchResult := mk_dispatched {
  r_response : TransportResponse;
  r_receivedHeaders : option (list HeaderEntry);
  r_cacheState : HttpCacheState;
}.

(** The options of the cache that its policy depends on: [options.type === "shared"],
    the URL parser with a base, and the heuristic fraction. *)
Record HttpCacheOptions := mk_cache_options {
  shared : bool;
  urls_parse : jsstr -> jsstr -> result CacheURL;
  heuristicFraction : option double;
}.

Section Cache.
Context (cfg : HttpCacheOptions).

Definition now : prog double :=
  value ← await Clock;
  if isFinite value then Return value else Throw (TypeError "HTTP cache clock returned a non-finite value").

(** An attempt whose error goes to [reportStoreError], which never throws. *)
Definition reported (m : prog unit) : prog unit := try_catch m (fun _ => Return tt).

(** ** Serving *)

(** The body of a stored response for a request. *)
Definition open_body (e : HttpCacheEntry) (requestMethod : jsstr) : prog (option Stream) :=
  match e_body e with
  | None => Return None
  | Some body => if str_eqb requestMethod (u "HEAD") then Return None else (stream ← await (OpenBody body); Return (Some stream))
  end.

(** [Math.min(MAX_DELTA_SECONDS, Math.max(0, Math.floor(age)))] *)
Definition age_seconds (age : double) : double := d_min (d_of MAX_DELTA_SECONDS) (d_max d_zero (d_floor age)).

Definition serve (e : HttpCacheEntry) (requestMethod : jsstr) (age : double) (state : HttpCacheState) : prog HttpCacheDispatchResult :=
  await (Touch e) ;;
  body ← open_body e requestMethod;
  let m := e_metadata e in
  Return (mk_dispatched
    (mk_response (m_status m) (m_statusText m) (setHeader (m_responseHeaders m) (u "age") (d_text (age_seconds age))) body)
    None state).

Definition serveEphemeral (e : HttpCacheEntry) (headers : list HeaderEntry) (requestMethod : jsstr) (receivedHeaders : list HeaderEntry) :
    prog HttpCacheDispatchResult :=
  body ← open_body e requestMethod;
  let m := e_metadata e in
  Return (mk_dispatched (mk_response (m_status m) (m_statusText m) (setHeader headers (u "age") (u "0")) body)
    (Some receivedHeaders) FromValidation).

(** ** Storing *)

(** A commit, and an abort when it fails. *)
Definition commit_or_abort (writer : nat) : prog unit :=
  try_catch (await (CommitWrite writer)) (fun _ => reported (await (AbortWrite writer))).

Definition storeNetworkResponse (request : TransportRequest) (response : TransportResponse) (requestTime responseTime : double) :
    prog TransportResponse :=
  storable ← done_with (isResponseStorable request (p_status response) (p_headers response) (shared cfg));
  if negb storable then Return response
  else
    control ← done_with (parseHeaderCacheControl (p_headers response));
    let storedHeaders := storedResponseHeaders (p_headers response) (directives control) (shared cfg) in
    match createVaryKey storedHeaders (q_headers request) with
    | None => Return response
    | Some vary =>
        let metadata := mk_metadata (keyURL (q_url request)) (if str_eqb (q_method request) (u "HEAD") then HeadMethod else GetMethod)
          (q_headers request) (p_status response) (p_statusText response) storedHeaders vary requestTime responseTime in
        writer ← try_catch (await (CreateWrite metadata)) (fun _ => Return None);
        match writer, p_body response with
        | None, _ => Return response
        | Some writer, None => commit_or_abort writer ;; Return response
        | Some writer, Some source =>
            Return (mk_response (p_status response) (p_statusText response) (p_headers response) (Some (WrittenThrough source writer)))
        end
    end.

(** ** Selecting *)

Definition select (request : TransportRequest) : prog (option SelectedEntry) :=
  now ← now;
  entries ← await (Find (keyURL (q_url request)));
  match select_entry request entries now with
  | None => Return None
  | Some e => selected ← done_with (describe request e (shared cfg) (heuristicFraction cfg) now); Return (Some selected)
  end.

(** ** Validating *)

(** A conditional header from the stored response, when the request has none. *)
Definition add_conditional (headers : list HeaderEntry) (name : jsstr) (validator : option jsstr) : option (list HeaderEntry) :=
  match validator with
  | Some value => if present (headerValue headers name) then None else Some (setHeader headers name value)
  | None => None
  end.

Definition is_server_error (status : Z) : bool := bool_decide (status ∈ [500; 502; 503; 504]).

Definition cancel_body (response : TransportResponse) : prog unit :=
  match p_body response with Some body => try_catch (await (Cancel body)) (fun _ => Return tt) | None => Return tt end.

(** [revalidate] from a response with status 304 on. *)
Definition validated (request : TransportRequest) (selected : SelectedEntry) (response : TransportResponse) (requestTime responseTime : double) :
    prog HttpCacheDispatchResult :=
  let e := sel_entry selected in
  let m := e_metadata e in
  cancel_body response ;;
  if (match firstHeaderValue (p_headers response) (u "etag"), firstHeaderValue (m_responseHeaders m) (u "etag") with
      | Some received, Some stored => negb (str_eqb received stored)
      | _, _ => false
      end)
  then Throw (TypeError "Cache validation returned a mismatched ETag")
  else
    let mergedHeaders := merge304Headers (m_responseHeaders m) (p_headers response) in
    match createVaryKey mergedHeaders (q_headers request) with
    | None =>
        await (Delete (m_url m)) ;;
        serveEphemeral e mergedHeaders (q_method request) (p_headers response)
    | Some vary =>
        replacement ← await (ReplaceMetadata e (mk_metadata (m_url m) (m_method m) (m_requestHeaders m) (m_status m) (m_statusText m)
          mergedHeaders vary requestTime responseTime));
        match replacement with
        | None => serveEphemeral e mergedHeaders (q_method request) (p_headers response)
        | Some replacement =>
            served ← serve replacement (q_method request) d_zero FromValidation;
            Return (mk_dispatched (r_response served) (Some (p_headers response)) (r_cacheState served))
        end
    end.

(** The headers of the validation, [None] when there is nothing to add. *)
Definition validation_headers (request : TransportRequest) (m : HttpCacheEntryMetadata) : option (list HeaderEntry) :=
  let with_etag := add_conditional (q_headers request) (u "if-none-match") (firstHeaderValue (m_responseHeaders m) (u "etag")) in
  let headers := default (q_headers request) with_etag in
  match add_conditional headers (u "if-modified-since") (firstHeaderValue (m_responseHeaders m) (u "last-modified")) with
  | Some headers => Some headers
  | None => with_etag
  end.

Definition revalidate (request : TransportRequest) (selected : SelectedEntry) (requestTime : double) : prog (option HttpCacheDispatchResult) :=
  match validation_headers request (e_metadata (sel_entry selected)) with
  | None => Return None
  | Some headers =>
      let stale := (served ← serve (sel_entry selected) (q_method request) (sel_age selected) FromStale; Return (Some served)) in
      outcome (await (Send (copyRequest request headers))) (fun r =>
        match r with
        | Err error => if canServeStaleIfError selected (shared cfg) then stale else Throw error
        | Ok response =>
            responseTime ← now;
            if is_server_error (p_status response) && canServeStaleIfError selected (shared cfg) then cancel_body response ;; stale
            else if negb (p_status response =? 304) then
              stored ← storeNetworkResponse request response requestTime responseTime;
              Return (Some (mk_dispatched stored (Some (p_headers response)) FromNetwork))
            else served ← validated request selected response requestTime responseTime; Return (Some served)
        end)
  end.

Definition startBackgroundRevalidation (request : TransportRequest) (selected : SelectedEntry) : prog unit :=
  let key := revalidationKey (e_metadata (sel_entry selected)) in
  active ← await Background;
  if bool_decide (key ∈ active) then Return tt else await (Spawn request selected) ;; await (Remember key).

(** The program that [Spawn] runs beside the others. *)
Definition runBackgroundRevalidation (request : TransportRequest) (selected : SelectedEntry) : prog unit :=
  let key := revalidationKey (e_metadata (sel_entry selected)) in
  try_finally
    (reported
      (time ← now;
       revalidated ← revalidate request selected time;
       match revalidated with
       | None => Return tt
       | Some served =>
           match p_body (r_response served) with
           | None => Return tt
           | Some body => if bool_decide (r_cacheState served = FromNetwork) then await (ReadToEnd body) else await (Cancel body)
           end
       end))
    (await (Forget key)).

(** ** Invalidating *)

Definition isUnsafe (method : jsstr) : bool :=
  negb (str_eqb method (u "GET")) && negb (str_eqb method (u "HEAD")) && negb (str_eqb method (u "OPTIONS")).

(** The URLs that an unsafe request invalidates. *)
Definition invalidated_url (target : CacheURL) (headers : list HeaderEntry) (urls : list jsstr) (name : jsstr) : list jsstr :=
  match headerValues headers name with
  | [value] =>
      match urls_parse cfg value (url_href target) with
      | Ok candidate => if str_eqb (url_origin candidate) (url_origin target) then push_new urls (keyURL candidate) else urls
      | Err _ => urls
      end
  | _ => urls
  end.
Definition invalidated_urls (target : CacheURL) (headers : list HeaderEntry) : list jsstr :=
  foldl (invalidated_url target headers) [keyURL target] [u "location"; u "content-location"].

Fixpoint delete_all (urls : list jsstr) : prog unit :=
  match urls with
  | [] => Return tt
  | url :: urls => reported (await (Delete url)) ;; delete_all urls
  end.
Definition invalidate (target : CacheURL) (responseHeaders : list HeaderEntry) : prog unit :=
  delete_all (invalidated_urls target responseHeaders).

(** ** Dispatching *)

(** The mode in effect, and the request that is sent. *)
Definition effective_mode (request : TransportRequest) (cacheMode : RequestCache) : RequestCache :=
  if bool_decide (cacheMode = DefaultMode) && requestHasConditional (q_headers request) then NoStoreMode else cacheMode.

Definition with_default (headers : list HeaderEntry) (name value : jsstr) : list HeaderEntry :=
  if present (headerValue headers name) then headers else setHeader headers name value.

Definition outbound_request (request : TransportRequest) (mode : RequestCache) : TransportRequest :=
  match mode with
  | NoCacheMode => copyRequest request (with_default (q_headers request) (u "cache-control") (u "max-age=0"))
  | NoStoreMode | ReloadMode =>
      copyRequest request (with_default (with_default (q_headers request) (u "pragma") (u "no-cache")) (u "cache-control") (u "no-cache"))
  | _ => request
  end.

(** A request that the cache passes on: other methods than GET and HEAD. *)
Definition dispatch_other (outbound : TransportRequest) : prog HttpCacheDispatchResult :=
  response ← await (Send outbound);
  (if isUnsafe (q_method outbound) && (200 <=? p_status response) && (p_status response <=? 399)
   then invalidate (q_url outbound) (p_headers response) else Return tt) ;;
  Return (mk_dispatched response (Some (p_headers response)) FromNetwork).

(** The network, when no stored response is used. *)
Definition dispatch_network (mode : RequestCache) (noStoreRequest : bool) (outbound : TransportRequest) (requestTime : double) :
    prog HttpCacheDispatchResult :=
  if bool_decide (mode = OnlyIfCachedMode) then Throw (TypeError "only-if-cached request had no matching stored response")
  else
    response ← await (Send outbound);
    responseTime ← now;
    stored ← (if bool_decide (mode = NoStoreMode) || noStoreRequest then Return response
              else storeNetworkResponse outbound response requestTime responseTime);
    Return (mk_dispatched stored (Some (p_headers response)) FromNetwork).

(** What [dispatch] does with a selected response; [None] is to go on. *)
Definition dispatch_selected (mode : RequestCache) (outbound : TransportRequest) (selected : SelectedEntry) (requestTime : double) :
    prog (option HttpCacheDispatchResult) :=
  let serve_as state := (served ← serve (sel_entry selected) (q_method outbound) (sel_age selected) state; Return (Some served)) in
  if bool_decide (mode = ForceCacheMode) || bool_decide (mode = OnlyIfCachedMode) then serve_as FromLocal
  else
    let decision := cacheReuseDecision (mk_reuse (sel_age selected) (sel_lifetime selected) (sel_requestDirectives selected)
      (sel_responseDirectives selected) (shared cfg)) in
    if bool_decide (mode = DefaultMode) && bool_decide (decision = Fresh) then serve_as FromLocal
    else if bool_decide (mode = DefaultMode) && canServeStaleWhileRevalidate selected (shared cfg) then
      startBackgroundRevalidation outbound selected ;; serve_as FromStale
    else if bool_decide (mode = DefaultMode) && bool_decide (decision = StaleAllowed) then serve_as FromStale
    else revalidate outbound selected requestTime.

Definition dispatch (request : TransportRequest) (cacheMode : RequestCache) : prog HttpCacheDispatchResult :=
  requestTime ← now;
  control ← done_with (parseHeaderCacheControl (q_headers request));
  let noStoreRequest := noStore (directives control) in
  let mode := effective_mode request cacheMode in
  let outbound := outbound_request request mode in
  if negb (is_cacheable_method (q_method outbound)) then dispatch_other outbound
  else if bool_decide (mode = NoStoreMode) || bool_decide (mode = ReloadMode) || noStoreRequest
  then dispatch_network mode noStoreRequest outbound requestTime
  else
    selected ← select outbound;
    match selected with
    | None => dispatch_network mode noStoreRequest outbound requestTime
    | Some selected =>
        served ← dispatch_selected mode outbound selected requestTime;
        match served with
        | Some served => Return served
        | None => dispatch_network mode noStoreRequest outbound requestTime
        end
    end.

End Cache.
