(* ===== verification/HttpCacheTheory.v ===== *)
(** * The HTTP cache: what concurrent requests may see

    Programs of the cache run beside each other over one history of calls and
    answers.  [runs] says that a program keeps its promises in every history that
    the others can make; [pool_step] composes requests and background validations;
    the invariant of the pool is that each program runs so. *)

From stdpp Require Import relations.
From S2P Require Import Prelude Ascii FetchHeaders Doubles CacheControl CacheControlTheory Freshness CacheStore HttpCachePolicy HttpCache.
Local Open Scope Z_scope.

(** ** Histories *)

Record event := Event { ev_call : cache_call; ev_answer : result (answer ev_call) }.

(** What the environment may answer, and what a program may call, in a history; an
    answer may depend on the events of others since the last call of the program. *)
Definition contract : Type := list event -> forall c : cache_call, result (answer c) -> Prop.
Definition rely : Type := list event -> list event -> forall c : cache_call, result (answer c) -> Prop.
Definition guarantee : Type := list event -> cache_call -> Prop.

(** Whatever happens before each of its calls, the program makes only the calls
    that it may, and ends with the postcondition. *)
Fixpoint runs (R : rely) (G : guarantee) {A} (m : prog A) (h : list event) (Q : list event -> result A -> Prop) : Prop :=
  match m with
  | Return a => Q h (Ok a)
  | Throw e => Q h (Err e)
  | Call c k => G h c /\ forall others r, R h others c r -> runs R G (k r) ((h ++ others) ++ [Event c r]) Q
  end.

(** A guarantee and a postcondition that hold in a history hold in later ones. *)
Definition stable (P : list event -> Prop) : Prop := forall h others, P h -> P (h ++ others).

(** ** Specification *)

Definition sent (q : TransportRequest) (p : TransportResponse) (h : list event) : Prop := Event (Send q) (Ok p) ∈ h.

(** The metadata that the store has been given: those it held before, and those of
    writes and replacements. *)
Definition write_of (ev : event) : list HttpCacheEntryMetadata :=
  match ev_call ev with CreateWrite m | ReplaceMetadata _ m => [m] | _ => [] end.
Definition written (initial : list HttpCacheEntryMetadata) (h : list event) : list HttpCacheEntryMetadata :=
  initial ++ (h ≫= write_of).

(** The contract of [HttpCacheStore]: [find] returns entries of the URL that were
    written, [replaceMetadata] an entry with the new metadata and the same body. *)
Definition store_contract (initial : list HttpCacheEntryMetadata) : contract := fun h c =>
  match c return result (answer c) -> Prop with
  | Find url => fun r => forall entries e, r = Ok entries -> e ∈ entries -> e_url e = url /\ e_metadata e ∈ written initial h
  | ReplaceMetadata e m => fun r => forall e', r = Ok (Some e') -> e_metadata e' = m /\ e_body e' = e_body e
  | _ => fun _ => True
  end.

(** What every stored response satisfies: it is complete, its headers have names in
    lower case and none of one connection, and its [Vary] can be matched. *)
Record sound (m : HttpCacheEntryMetadata) : Prop := mk_sound {
  snd_status : m_status m <> 206 /\ m_status m <> 304;
  snd_headers : Forall (fun e => to_lower e.1 = e.1 /\ e.1 ∉ hop_by_hop) (m_responseHeaders m);
  snd_vary : exists headers, createVaryKey (m_responseHeaders m) headers = Some (m_vary m);
}.

(** A store that keeps its contract, and has been given sound metadata only. *)
Definition environment (initial : list HttpCacheEntryMetadata) : rely := fun h others c r =>
  store_contract initial (h ++ others) c r /\ Forall sound (written initial (h ++ others)).

(** The request asks for no-store. *)
Definition asks_no_store (request : TransportRequest) : bool :=
  match parseHeaderCacheControl (q_headers request) with Ok p => noStore (directives p) | Err _ => false end.

(** A stored response for the method of the request, or for GET when it is HEAD, and
    for the values of its [Vary]. *)
Definition answers_request (out : TransportRequest) (e : HttpCacheEntry) : Prop :=
  (method_text (m_method (e_metadata e)) = q_method out \/ (q_method out = u "HEAD" /\ m_method (e_metadata e) = GetMethod)) /\
  varyMatches (m_vary (e_metadata e)) (q_headers out) = true.

(** A stored response that matches the request was offered by the store. *)
Definition offered (out : TransportRequest) (e : HttpCacheEntry) (h : list event) : Prop :=
  exists entries, Event (Find (keyURL (q_url out))) (Ok entries) ∈ h /\ e ∈ entries /\ answers_request out e.

Definition selected_ok (cfg : HttpCacheOptions) (out : TransportRequest) (s : SelectedEntry) (h : list event) : Prop :=
  offered out (sel_entry s) h /\ exists now : double, Event Clock (Ok now) ∈ h /\ isFinite now = true /\ describe out (sel_entry s) (shared cfg) (heuristicFraction cfg) now = Ok s.

Definition decision (cfg : HttpCacheOptions) (s : SelectedEntry) : CacheReuseDecision :=
  cacheReuseDecision (mk_reuse (sel_age s) (sel_lifetime s) (sel_requestDirectives s) (sel_responseDirectives s) (shared cfg)).

(** What is known of a selected response. *)
Definition usable (cfg : HttpCacheOptions) (out : TransportRequest) (s : SelectedEntry) (h : list event) : Prop :=
  selected_ok cfg out s h /\ e_url (sel_entry s) = keyURL (q_url out) /\ sound (e_metadata (sel_entry s)).

(** The same request, but for its headers. *)
Definition same_target (q out : TransportRequest) : Prop :=
  q_url q = q_url out /\ q_method q = q_method out /\ q_payload q = q_payload out.

(** The transport has failed, or answered with a server error. *)
Definition network_failed (out : TransportRequest) (h : list event) : Prop :=
  exists q r, Event (Send q) r ∈ h /\ same_target q out /\ forall p : TransportResponse, r = Ok p -> is_server_error (p_status p) = true.

(** The metadata of a response that came from the network. *)
Definition network_write (cfg : HttpCacheOptions) (out : TransportRequest) (m : HttpCacheEntryMetadata) (h : list event) : Prop :=
  exists q p control, sent q p h /\ same_target q out /\ isResponseStorable out (p_status p) (p_headers p) (shared cfg) = Ok true /\
    parseHeaderCacheControl (p_headers p) = Ok control /\
    m_responseHeaders m = storedResponseHeaders (p_headers p) (directives control) (shared cfg) /\
    createVaryKey (m_responseHeaders m) (q_headers out) = Some (m_vary m) /\ m_requestHeaders m = q_headers out /\ m_status m = p_status p.

(** The metadata of a stored response after a validation. *)
Definition validated_write (out : TransportRequest) (e : HttpCacheEntry) (m : HttpCacheEntryMetadata) (h : list event) : Prop :=
  exists q p, offered out e h /\ sent q p h /\ same_target q out /\ p_status p = 304 /\
    m_responseHeaders m = merge304Headers (m_responseHeaders (e_metadata e)) (p_headers p) /\ m_status m = m_status (e_metadata e).

(** Why a URL is deleted. *)
Definition deletion (cfg : HttpCacheOptions) (out : TransportRequest) (url : jsstr) (h : list event) : Prop :=
  (exists q p, sent q p h /\ same_target q out /\ isUnsafe (q_method out) = true /\ 200 <= p_status p <= 399 /\
    url ∈ invalidated_urls cfg (q_url out) (p_headers p)) \/
  (exists q p, sent q p h /\ same_target q out /\ p_status p = 304 /\ url = keyURL (q_url out)).

(** What the program of a request may call; [mode] is the mode in effect. *)
Definition promises (cfg : HttpCacheOptions) (out : TransportRequest) (mode : RequestCache) (no_store : bool) : guarantee := fun h c =>
  match c with
  | Send q => same_target q out /\ (mode <> OnlyIfCachedMode \/ is_cacheable_method (q_method out) = false)
  | Find url => url = keyURL (q_url out) /\ mode <> NoStoreMode /\ mode <> ReloadMode /\ no_store = false
  | CreateWrite m => sound m /\ m_url m = keyURL (q_url out) /\ network_write cfg out m h /\ mode <> NoStoreMode /\ no_store = false
  | ReplaceMetadata e m => sound m /\ m_url m = keyURL (q_url out) /\ validated_write out e m h
  | Delete url => deletion cfg out url h
  | Spawn q s => q = out /\ usable cfg out s h /\ mode = DefaultMode /\ no_store = false
  | _ => True
  end.

(** A stored response as it is served. *)
Definition serves (e : HttpCacheEntry) (age : double) (res : HttpCacheDispatchResult) : Prop :=
  p_status (r_response res) = m_status (e_metadata e) /\
  p_headers (r_response res) = setHeader (m_responseHeaders (e_metadata e)) (u "age") (d_text (age_seconds age)).

(** The response that a request may get, by the state that the cache reports. *)
Definition served_ok (cfg : HttpCacheOptions) (out : TransportRequest) (mode : RequestCache) (h : list event) (res : HttpCacheDispatchResult) : Prop :=
  match r_cacheState res with
  | FromNetwork => exists q p, sent q p h /\ same_target q out /\ p_status (r_response res) = p_status p /\
      p_headers (r_response res) = p_headers p /\ r_receivedHeaders res = Some (p_headers p)
  | FromLocal => exists s, selected_ok cfg out s h /\ serves (sel_entry s) (sel_age s) res /\
      (mode = ForceCacheMode \/ mode = OnlyIfCachedMode \/ (mode = DefaultMode /\ decision cfg s = Fresh))
  | FromStale => exists s, selected_ok cfg out s h /\ serves (sel_entry s) (sel_age s) res /\
      ((mode = DefaultMode /\ (decision cfg s = StaleAllowed \/ canServeStaleWhileRevalidate s (shared cfg) = true)) \/
       (canServeStaleIfError s (shared cfg) = true /\ network_failed out h))
  | FromValidation => exists s q p, selected_ok cfg out s h /\ sent q p h /\ same_target q out /\ p_status p = 304 /\
      validation_headers out (e_metadata (sel_entry s)) = Some (q_headers q) /\
      p_status (r_response res) = m_status (e_metadata (sel_entry s)) /\ r_receivedHeaders res = Some (p_headers p)
  end.

(** A postcondition of what is returned. *)
Definition returns {A} (P : list event -> A -> Prop) : list event -> result A -> Prop :=
  fun h r => match r with Ok a => P h a | Err _ => True end.

Section Rules.
Context (R : rely) (G : guarantee).

Lemma runs_mono {A} (m : prog A) : forall h (Q Q' : list event -> result A -> Prop),
  (forall h' r, h `prefix_of` h' -> Q h' r -> Q' h' r) -> runs R G m h Q -> runs R G m h Q'.
Proof.
  induction m as [a|e|c k IH]; intros h Q Q' HQ; cbn [runs]; [by apply HQ..|]. intros [Hg Hk]. split; [done|].
  intros others r Hr. apply (IH r _ Q); [|by apply Hk]. intros h' r' [l ->]. apply HQ. rewrite <- !app_assoc. by eexists.
Qed.

Lemma runs_outcome {A B} (m : prog A) (k : result A -> prog B) : forall h Q,
  runs R G m h (fun h' r => runs R G (k r) h' Q) -> runs R G (outcome m k) h Q.
Proof.
  induction m as [a|e|c f IH]; intros h Q; cbn [runs outcome]; [done..|]. intros [Hg Hk]. split; [done|]. intros others r Hr. by apply IH, Hk.
Qed.

Lemma runs_and_then {A B} (m : prog A) (k : A -> prog B) h Q :
  runs R G m h (fun h' r => match r with Ok a => runs R G (k a) h' Q | Err e => Q h' (Err e) end) -> runs R G (and_then m k) h Q.
Proof. intros Hm. apply runs_outcome. eapply runs_mono; [|exact Hm]. by intros h' [a|e]. Qed.

Lemma runs_try {A} (m : prog A) (f : js_error -> prog A) h Q :
  runs R G m h (fun h' r => match r with Ok a => Q h' (Ok a) | Err e => runs R G (f e) h' Q end) -> runs R G (try_catch m f) h Q.
Proof. intros Hm. apply runs_outcome. eapply runs_mono; [|exact Hm]. by intros h' [a|e]. Qed.

Lemma runs_done {A} (r : result A) h (Q : list event -> result A -> Prop) : Q h r -> runs R G (done_with r) h Q.
Proof. by destruct r. Qed.

Lemma runs_await c h (Q : list event -> result (answer c) -> Prop) : G h c ->
  (forall others r, R h others c r -> Q ((h ++ others) ++ [Event c r]) r) -> runs R G (await c) h Q.
Proof. intros Hg HQ. split; [done|]. intros others r Hr. by apply runs_done, HQ. Qed.

End Rules.

(** ** Rules for programs that may throw *)

Section Returns.
Context (R : rely) (G : guarantee).

Lemma runs_bind {A B} (m : prog A) (k : A -> prog B) h (P : list event -> A -> Prop) (Q : list event -> B -> Prop) :
  runs R G m h (returns P) -> (forall h' a, h `prefix_of` h' -> P h' a -> runs R G (k a) h' (returns Q)) ->
  runs R G (and_then m k) h (returns Q).
Proof. intros Hm Hk. apply runs_and_then. eapply runs_mono; [|exact Hm]. intros h' [a|e] Hh HP; [by apply Hk|done]. Qed.

Lemma runs_return {A} (a : A) h (P : list event -> A -> Prop) : P h a -> runs R G (Return a) h (returns P).
Proof. done. Qed.

Lemma runs_throw {A} e h (P : list event -> A -> Prop) : runs R G (Throw e) h (returns P).
Proof. done. Qed.

Lemma runs_done_with {A} (r : result A) h (P : list event -> A -> Prop) : (forall a, r = Ok a -> P h a) -> runs R G (done_with r) h (returns P).
Proof. destruct r as [a|e]; [intros HP; by apply HP|done]. Qed.

(** A call whose answer says nothing. *)
Lemma runs_call c h (P : list event -> answer c -> Prop) : G h c ->
  (forall others a, R h others c (Ok a) -> P ((h ++ others) ++ [Event c (Ok a)]) a) -> runs R G (await c) h (returns P).
Proof. intros Hg HP. apply runs_await; [done|]. intros others [a|e] Hr; [by apply HP|done]. Qed.

Lemma runs_any {A} c h (k : prog A) Q : G h c ->
  (forall h', h `prefix_of` h' -> runs R G k h' (returns Q)) -> runs R G (and_then (await c) (fun _ => k)) h (returns Q).
Proof.
  intros Hg Hk. apply (runs_bind _ _ _ (fun _ _ => True)); [by apply runs_call|]. intros h' _ Hh _. by apply Hk.
Qed.

Lemma runs_try_call {A} (m : prog A) (f : js_error -> prog A) h P :
  runs R G m h (returns P) -> (forall h' e, h `prefix_of` h' -> runs R G (f e) h' (returns P)) ->
  runs R G (try_catch m f) h (returns P).
Proof. intros Hm Hf. apply runs_try. eapply runs_mono; [|exact Hm]. intros h' [a|e] Hh HP; [done|]. eapply runs_mono; [|by apply Hf]. done. Qed.

Lemma runs_reported (m : prog unit) h : runs R G m h (returns (fun _ _ => True)) -> runs R G (reported m) h (returns (fun _ _ => True)).
Proof. intros Hm. by apply runs_try_call. Qed.

End Returns.

Lemma now_runs R G h : (forall h, G h Clock) ->
  runs R G now h (returns (fun h' t => Event Clock (Ok t) ∈ h' /\ isFinite t = true)).
Proof.
  intros Hg. apply (runs_bind _ _ _ _ _ (fun h' t => Event Clock (Ok t) ∈ h')).
  { apply runs_call; [done|]. intros others t _. apply elem_of_app. right. by left. }
  intros h' a _ Ha. by destruct (isFinite a) eqn:Hf.
Qed.

(** ** Growing histories *)

Lemma entry_matches_spec out e : entry_matches out e = true -> answers_request out e.
Proof.
  unfold entry_matches, answers_request. intros [[H|[Hq Hm]%andb_true_iff]%orb_true_iff Hv]%andb_true_iff; (split; [|exact Hv]).
  - left. by apply str_eqb_true.
  - right. split; [by apply str_eqb_true|]. by apply bool_decide_eq_true in Hm.
Qed.

Lemma elem_of_prefix {A} (x : A) l l' : l `prefix_of` l' -> x ∈ l -> x ∈ l'.
Proof. intros [k ->] Hx. apply elem_of_app. by left. Qed.

Lemma written_prefix initial h h' m : h `prefix_of` h' -> m ∈ written initial h -> m ∈ written initial h'.
Proof. intros [k ->]. unfold written. rewrite bind_app, !elem_of_app. tauto. Qed.

Section Growing.
Context (cfg : HttpCacheOptions) (out : TransportRequest) (h h' : list event) (Hh : h `prefix_of` h').

Lemma sent_prefix q p : sent q p h -> sent q p h'.
Proof. by apply elem_of_prefix. Qed.
Lemma offered_prefix e : offered out e h -> offered out e h'.
Proof. intros (entries & He & Hr). exists entries. split; [by eapply elem_of_prefix|done]. Qed.
Lemma selected_prefix s : selected_ok cfg out s h -> selected_ok cfg out s h'.
Proof. intros [Ho (now & Hn & Hd)]. split; [by apply offered_prefix|]. exists now. split; [by eapply elem_of_prefix|done]. Qed.
Lemma usable_prefix s : usable cfg out s h -> usable cfg out s h'.
Proof. intros (Hs & Hr). split; [by apply selected_prefix|done]. Qed.
Lemma failed_prefix : network_failed out h -> network_failed out h'.
Proof. intros (q & r & He & Hr). exists q, r. split; [by eapply elem_of_prefix|done]. Qed.
End Growing.

Lemma event_last {A} (h : list A) ev : ev ∈ h ++ [ev].
Proof. apply elem_of_app. right. by left. Qed.

Lemma prefix_call {A} (h others : list A) ev : h `prefix_of` (h ++ others) ++ [ev].
Proof. rewrite <- app_assoc. by eexists. Qed.

Create HintDb growing.
#[export] Hint Resolve sent_prefix offered_prefix selected_prefix usable_prefix failed_prefix event_last prefix_call elem_of_prefix : growing.

(** ** Headers *)

Lemma to_lower_twice l : to_lower (to_lower l) = to_lower l.
Proof.
  unfold to_lower. rewrite <- list_fmap_compose. apply list_fmap_ext. intros _ c _. unfold compose, lower_latin, in_range.
  repeat case_match; lia.
Qed.

Lemma push_all_in fields : forall names x, x ∈ foldl push_new names fields <-> x ∈ names \/ x ∈ fields.
Proof.
  induction fields as [|f fields IH]; intros names x; cbn [foldl]; [set_solver|]. rewrite IH, push_new_in, elem_of_cons. tauto.
Qed.

Lemma push_connection_in members : forall names x, x ∈ names -> x ∈ foldl push_connection names members.
Proof.
  induction members as [|m members IH]; intros names x Hx; cbn [foldl]; [done|]. apply IH. unfold push_connection.
  destruct (isToken _); [apply push_new_in; by left|done].
Qed.

Lemma connection_hop headers x : x ∈ hop_by_hop -> x ∈ connectionFieldNames headers.
Proof. intros Hx. unfold connectionFieldNames. destruct (headerValue headers _); [by apply push_connection_in|done]. Qed.

Lemma excluded_in headers d sh x : x ∈ excluded_names headers d sh <->
  x ∈ connectionFieldNames headers \/ x ∈ field_list (noCache d) \/ (sh = true /\ (x ∈ field_list (private d) \/ x = u "set-cookie")).
Proof. unfold excluded_names. destruct sh; rewrite ?push_new_in, !push_all_in; naive_solver. Qed.

Lemma without_names_in excluded headers e : e ∈ without_names excluded headers <->
  exists e0, e0 ∈ headers /\ to_lower e0.1 ∉ excluded /\ e = (to_lower e0.1, e0.2).
Proof.
  unfold without_names. rewrite list_elem_of_fmap. split.
  - intros (e0 & -> & [Hn He]%list_elem_of_filter). by exists e0.
  - intros (e0 & He & Hn & ->). exists e0. split; [done|]. by apply list_elem_of_filter.
Qed.

Lemma without_names_sound excluded headers : (forall x, x ∈ hop_by_hop -> x ∈ excluded) ->
  Forall (fun e => to_lower e.1 = e.1 /\ e.1 ∉ hop_by_hop) (without_names excluded headers).
Proof.
  intros Hx. apply Forall_forall. intros e (e0 & _ & Hn & ->)%without_names_in. cbn. split; [apply to_lower_twice|]. intros H. by apply Hn, Hx.
Qed.

Lemma stored_headers_sound headers d sh :
  Forall (fun e => to_lower e.1 = e.1 /\ e.1 ∉ hop_by_hop) (storedResponseHeaders headers d sh).
Proof. apply without_names_sound. intros x Hx. apply excluded_in. left. by apply connection_hop. Qed.

Lemma merged_headers_sound stored received : Forall (fun e => to_lower e.1 = e.1 /\ e.1 ∉ hop_by_hop) stored ->
  Forall (fun e => to_lower e.1 = e.1 /\ e.1 ∉ hop_by_hop) (merge304Headers stored received).
Proof.
  intros Hs. unfold merge304Headers. cbv zeta. apply Forall_app. split.
  { apply Forall_forall. intros e [_ He]%list_elem_of_filter. by eapply Forall_forall in Hs. }
  apply without_names_sound. intros x Hx. apply elem_of_app. left. by apply connection_hop.
Qed.

Lemma storable_status request status headers sh : isResponseStorable request status headers sh = Ok true -> status <> 206 /\ status <> 304.
Proof.
  unfold isResponseStorable. destruct (negb _); [done|]. destruct ((status =? 206) || (status =? 304)) eqn:E; [done|]. intros _. lia.
Qed.

(** ** The programs *)

Section Programs.
Context (cfg : HttpCacheOptions) (initial : list HttpCacheEntryMetadata) (out : TransportRequest) (mode : RequestCache) (no_store : bool).
Notation G := (promises cfg out mode no_store).
Notation R := (environment initial).
Notation usable := (usable cfg out).

Lemma open_body_runs e method h : runs R G (open_body e method) h (returns (fun _ _ => True)).
Proof.
  unfold open_body. destruct (e_body e) as [b|]; [|done]. destruct (str_eqb _ _); [done|].
  apply (runs_bind _ _ _ _ _ (fun _ _ => True)); [by apply runs_call|done].
Qed.

Lemma serve_runs e method age state h :
  runs R G (serve e method age state) h (returns (fun _ res => serves e age res /\ r_cacheState res = state)).
Proof.
  unfold serve. apply runs_any; [done|]. intros h1 _. apply (runs_bind _ _ _ _ _ (fun _ _ => True)); [apply open_body_runs|].
  intros h2 body _ _. by apply runs_return.
Qed.

Lemma serveEphemeral_runs e headers method received h :
  runs R G (serveEphemeral e headers method received) h
    (returns (fun _ res => p_status (r_response res) = m_status (e_metadata e) /\ r_receivedHeaders res = Some received /\ r_cacheState res = FromValidation)).
Proof.
  unfold serveEphemeral. apply (runs_bind _ _ _ _ _ (fun _ _ => True)); [apply open_body_runs|]. intros h2 body _ _. by apply runs_return.
Qed.

Lemma commit_or_abort_runs w h : runs R G (commit_or_abort w) h (returns (fun _ _ => True)).
Proof.
  unfold commit_or_abort. apply runs_try_call; [by apply runs_call|]. intros h1 e _. apply runs_reported. by apply runs_call.
Qed.

Lemma network_sound p control m : isResponseStorable out (p_status p) (p_headers p) (shared cfg) = Ok true ->
  m_status m = p_status p -> m_responseHeaders m = storedResponseHeaders (p_headers p) (directives control) (shared cfg) ->
  createVaryKey (m_responseHeaders m) (q_headers out) = Some (m_vary m) -> sound m.
Proof.
  intros Hst Hs Hh Hv. split; [rewrite Hs; by eapply storable_status|rewrite Hh; apply stored_headers_sound|by eexists].
Qed.

Lemma storeNetworkResponse_runs q p t1 t2 h : sent q p h -> same_target q out -> mode <> NoStoreMode -> no_store = false ->
  runs R G (storeNetworkResponse cfg out p t1 t2) h
    (returns (fun _ stored => p_status stored = p_status p /\ p_headers stored = p_headers p)).
Proof.
  intros Hsent Ht Hmode Hns. unfold storeNetworkResponse.
  apply (runs_bind _ _ _ _ _ (fun _ b => isResponseStorable out (p_status p) (p_headers p) (shared cfg) = Ok b)); [by apply runs_done_with|].
  intros h1 storable H1 Hst. destruct storable; [|done]. cbn [negb].
  apply (runs_bind _ _ _ _ _ (fun _ c => parseHeaderCacheControl (p_headers p) = Ok c)); [by apply runs_done_with|].
  intros h2 control H2 Hc. destruct (createVaryKey _ _) as [vary|] eqn:Hv; [|done].
  assert (Hs2 : sent q p h2) by eauto with growing.
  apply (runs_bind _ _ _ _ _ (fun _ _ => True)).
  { apply runs_try_call; [|done]. apply runs_call; [|done]. cbn. split_and!; try done; [by eapply network_sound|].
    exists q, p, control. by split_and!. }
  intros h3 [w|] _ _; [|done]. destruct (p_body p) as [source|]; [done|].
  apply (runs_bind _ _ _ _ _ (fun _ _ => True)); [apply commit_or_abort_runs|done].
Qed.

Lemma select_runs h : mode <> NoStoreMode -> mode <> ReloadMode -> no_store = false ->
  runs R G (select cfg out) h (returns (fun h' o => forall s, o = Some s -> selected_ok cfg out s h' /\
    e_url (sel_entry s) = keyURL (q_url out) /\ sound (e_metadata (sel_entry s)))).
Proof.
  intros H1 H2 H3. unfold select. eapply runs_bind; [by apply now_runs|]. intros h1 t _ [Ht Hft].
  apply (runs_bind _ _ _ _ _ (fun h' entries => Event (Find (keyURL (q_url out))) (Ok entries) ∈ h' /\
    forall e, e ∈ entries -> e_url e = keyURL (q_url out) /\ sound (e_metadata e))).
  { apply runs_call; [done|]. intros others entries Hr. split; [apply event_last|]. intros e He. destruct Hr as [Hr Hsnd]. destruct (Hr entries e eq_refl He) as [? Hw].
    split; [done|]. by eapply Forall_forall in Hsnd. }
  intros h2 entries Hp2 [Hev Hent]. destruct (select_entry out entries t) as [e|] eqn:Hsel; [|done].
  assert (He : e ∈ entries /\ entry_matches out e = true).
  { assert (Hgen : forall l (o : option HttpCacheEntry), (forall x, o = Some x -> x ∈ entries /\ entry_matches out x = true) -> (forall x, x ∈ l -> x ∈ entries) ->
      foldl (fun matched x => if entry_matches out x then Some (selectMoreRecent matched x t) else matched) o l = Some e ->
      e ∈ entries /\ entry_matches out e = true).
    { induction l as [|x l IH]; intros o Ho Hl; cbn [foldl]; [apply Ho|]. apply IH; [|intros y Hy; apply Hl; by right].
      intros y. destruct (entry_matches out x) eqn:Em; [|apply Ho]. intros [= <-].
      unfold selectMoreRecent. destruct o as [z|]; [|split; [apply Hl; by left|done]]. destruct (more_recent _ _ _); [split; [apply Hl; by left|done]|by apply Ho]. }
    by apply (Hgen entries None). }
  destruct He as [He Hm%entry_matches_spec]. apply (runs_bind _ _ _ _ _ (fun _ s => describe out e (shared cfg) (heuristicFraction cfg) t = Ok s)); [by apply runs_done_with|].
  intros h3 s Hp Hd. apply runs_return. intros s' [= <-]. assert (Hse : sel_entry s = e).
  { unfold describe in Hd. do 3 (ok_inv Hd). by injection Hd as <-. }
  rewrite Hse. destruct (Hent e He) as [Hu Hw]. split_and!; [|done|done].
  split; [rewrite Hse; exists entries; split_and!; eauto with growing|]. exists t. rewrite Hse. split_and!; [|done..].
  by do 2 (eapply elem_of_prefix; [eassumption|]).
Qed.

Lemma cancel_body_runs p h : runs R G (cancel_body p) h (returns (fun _ _ => True)).
Proof. unfold cancel_body. destruct (p_body p); [|done]. apply runs_try_call; [by apply runs_call|done]. Qed.

Lemma serve_stale_runs s h : usable s h -> canServeStaleIfError s (shared cfg) = true -> network_failed out h ->
  runs R G (served ← serve (sel_entry s) (q_method out) (sel_age s) FromStale; Return (Some served))%prog h
    (returns (fun h' o => forall res, o = Some res -> served_ok cfg out mode h' res)).
Proof.
  intros [Hs _] Hc Hf. apply (runs_bind _ _ _ _ _ (fun _ res => serves (sel_entry s) (sel_age s) res /\ r_cacheState res = FromStale)); [apply serve_runs|].
  intros h' res Hh [Hres Hst]. apply runs_return. intros res' [= <-]. unfold served_ok. rewrite Hst. exists s.
  split_and!; [by eapply selected_prefix|done|]. right. split; [done|by eapply failed_prefix].
Qed.

Lemma validated_runs q p s t1 t2 h : usable s h -> sent q p h -> same_target q out -> p_status p = 304 ->
  runs R G (validated out s p t1 t2) h
    (returns (fun h' res => p_status (r_response res) = m_status (e_metadata (sel_entry s)) /\ r_receivedHeaders res = Some (p_headers p) /\
      r_cacheState res = FromValidation)).
Proof.
  intros (Hs & Hu & Hsnd) Hsent Ht H304. unfold validated. cbv zeta.
  apply (runs_bind _ _ _ _ _ (fun _ _ => True)); [apply cancel_body_runs|]. intros h1 _ H1 _.
  match goal with |- context [if ?b then Throw _ else _] => destruct b; [done|] end.
  assert (Hs1 : sent q p h1) by eauto with growing. assert (Ho1 : offered out (sel_entry s) h1) by (destruct Hs; eauto with growing).
  destruct (createVaryKey _ _) as [vary|] eqn:Hv.
  - apply (runs_bind _ _ _ _ _ (fun _ o => forall e', o = Some e' -> m_status (e_metadata e') = m_status (e_metadata (sel_entry s)))).
    { apply runs_call.
      - cbn. split_and!; [|exact Hu|exists q, p; by split_and!]. destruct Hsnd as [Hst Hhd _]. split; cbn; [done|by apply merged_headers_sound|by eexists].
      - intros others o [Hr _] e' ->. by destruct (Hr e' eq_refl) as [-> _]. }
    intros h2 [e'|] _ He; [|apply serveEphemeral_runs].
    apply (runs_bind _ _ _ _ _ (fun _ res => serves e' d_zero res /\ r_cacheState res = FromValidation)); [apply serve_runs|].
    intros h3 res _ [[Hst _] Hval]. apply runs_return. cbn. rewrite Hst, Hval. by rewrite (He e' eq_refl).
  - apply runs_any; [|intros h2 _; apply serveEphemeral_runs]. cbn. right. exists q, p. by split_and!.
Qed.

Lemma revalidate_runs s t h : usable s h -> mode <> OnlyIfCachedMode -> mode <> NoStoreMode -> no_store = false ->
  runs R G (revalidate cfg out s t) h (returns (fun h' o => forall res, o = Some res -> served_ok cfg out mode h' res)).
Proof.
  intros Hs H1 H2 H3. unfold revalidate. destruct (validation_headers _ _) as [headers|] eqn:Hval; [|done].
  set (q := copyRequest out headers). assert (Ht : same_target q out) by done. cbv zeta. apply runs_outcome, runs_await; [split; [done|by left]|].
  intros others r _. set (h1 := (h ++ others) ++ _). assert (Hp : h `prefix_of` h1) by apply prefix_call.
  assert (Hs1 : usable s h1) by (by eapply usable_prefix).
  assert (Hev : Event (Send q) r ∈ h1) by apply event_last. destruct r as [p|e].
  2: { destruct (canServeStaleIfError s (shared cfg)) eqn:Hc; [|done]. apply serve_stale_runs; [done..|]. exists q, (Err e). by split_and!. }
  eapply runs_bind; [by apply now_runs|]. intros h2 t2 Hp2 _.
  assert (Hs2 : usable s h2) by (by eapply usable_prefix).
  assert (Hsent : sent q p h2) by (eapply elem_of_prefix; [exact Hp2|exact Hev]).
  destruct (is_server_error (p_status p) && canServeStaleIfError s (shared cfg)) eqn:Herr.
  { apply andb_true_iff in Herr as [Herr Hc]. apply (runs_bind _ _ _ _ _ (fun _ _ => True)); [apply cancel_body_runs|]. intros h3 _ Hp3 _.
    apply serve_stale_runs; [by eapply usable_prefix|done|].
    eapply failed_prefix; [exact Hp3|]. exists q, (Ok p). split_and!; [done|done|]. by intros p' [= <-]. }
  destruct (Z.eqb_spec (p_status p) 304) as [H304|H304]; cbn [negb].
  - apply (runs_bind _ _ _ _ _ (fun h' res => p_status (r_response res) = m_status (e_metadata (sel_entry s)) /\ r_receivedHeaders res = Some (p_headers p) /\
      r_cacheState res = FromValidation)); [by eapply validated_runs|]. intros h3 res Hp3 (Hst & Hrec & Hstate). apply runs_return. intros res' [= <-].
    unfold served_ok. rewrite Hstate. exists s, q, p. destruct Hs2 as (Hsel & _ & _).
    refine (conj _ (conj _ _)); [by eapply selected_prefix|by eapply sent_prefix|by split_and!].
  - apply (runs_bind _ _ _ _ _ (fun _ stored => p_status stored = p_status p /\ p_headers stored = p_headers p)); [by apply (storeNetworkResponse_runs q)|].
    intros h3 stored Hp3 [Hst Hhd]. apply runs_return. intros res' [= <-]. unfold served_ok. cbn. exists q, p.
    repeat apply conj; [by eapply sent_prefix|done..].
Qed.

Lemma delete_all_runs urls h : (forall url h', h `prefix_of` h' -> url ∈ urls -> deletion cfg out url h') ->
  runs R G (delete_all urls) h (returns (fun _ _ => True)).
Proof.
  revert h. induction urls as [|url urls IH]; intros h Hd; cbn [delete_all]; [done|].
  apply (runs_bind _ _ _ _ _ (fun _ _ => True)); [apply runs_reported, runs_call; [apply Hd; [done|by left]|done]|].
  intros h1 _ H1 _. apply IH. intros url' h' Hh Hu. apply Hd; [by etrans|by right].
Qed.

Lemma dispatch_other_runs h : is_cacheable_method (q_method out) = false ->
  runs R G (dispatch_other cfg out) h (returns (served_ok cfg out mode)).
Proof.
  intros Hm. unfold dispatch_other. apply (runs_bind _ _ _ _ _ (fun h' p => sent out p h')).
  { apply runs_call; [split; [done|by right]|]. intros others p _. apply event_last. }
  intros h1 p H1 Hp. apply (runs_bind _ _ _ _ _ (fun _ _ => True)).
  - destruct (isUnsafe (q_method out)) eqn:Hu; [|done].
    destruct (Z.leb_spec 200 (p_status p)), (Z.leb_spec (p_status p) 399); try done. cbn [andb]. apply delete_all_runs. intros url h' Hh Hurl. left.
    exists out, p. split_and!; [by eapply sent_prefix|done..].
  - intros h2 _ H2 _. apply runs_return. unfold served_ok. cbn. exists out, p. repeat apply conj; [by eapply sent_prefix|done..].
Qed.

Lemma dispatch_network_runs t h :
  runs R G (dispatch_network cfg mode no_store out t) h (returns (served_ok cfg out mode)).
Proof.
  unfold dispatch_network. case_bool_decide as Hmode; [done|]. apply (runs_bind _ _ _ _ _ (fun h' p => sent out p h')).
  { apply runs_call; [split; [done|by left]|]. intros others p _. apply event_last. }
  intros h1 p H1 Hp. eapply runs_bind; [by apply now_runs|]. intros h2 t2 H2 _.
  assert (Hp2 : sent out p h2) by eauto with growing.
  apply (runs_bind _ _ _ _ _ (fun _ stored => p_status stored = p_status p /\ p_headers stored = p_headers p)).
  - case_bool_decide as Hns; [done|]. destruct no_store eqn:Hs; [done|]. cbn [orb]. rewrite <- Hs. by apply (storeNetworkResponse_runs out).
  - intros h3 stored H3 [Hst Hhd]. apply runs_return. unfold served_ok. cbn. exists out, p. repeat apply conj; [by eapply sent_prefix|done..].
Qed.

Lemma serve_as_runs s state h : (forall h' res, h `prefix_of` h' -> serves (sel_entry s) (sel_age s) res -> r_cacheState res = state ->
    served_ok cfg out mode h' res) ->
  runs R G (served ← serve (sel_entry s) (q_method out) (sel_age s) state; Return (Some served))%prog h
    (returns (fun h' o => forall res, o = Some res -> served_ok cfg out mode h' res)).
Proof.
  intros Hok. apply (runs_bind _ _ _ _ _ (fun _ res => serves (sel_entry s) (sel_age s) res /\ r_cacheState res = state)); [apply serve_runs|].
  intros h' res Hh [Hres Hst]. apply runs_return. intros res' [= <-]. by apply Hok.
Qed.

Lemma local_ok s h h' res : usable s h -> h `prefix_of` h' -> serves (sel_entry s) (sel_age s) res -> r_cacheState res = FromLocal ->
  mode = ForceCacheMode \/ mode = OnlyIfCachedMode \/ (mode = DefaultMode /\ decision cfg s = Fresh) -> served_ok cfg out mode h' res.
Proof. intros [Hs _] Hh Hres Hst Hm. unfold served_ok. rewrite Hst. exists s. split_and!; [by eapply selected_prefix|done..]. Qed.

Lemma stale_ok s h h' res : usable s h -> h `prefix_of` h' -> serves (sel_entry s) (sel_age s) res -> r_cacheState res = FromStale ->
  mode = DefaultMode -> decision cfg s = StaleAllowed \/ canServeStaleWhileRevalidate s (shared cfg) = true -> served_ok cfg out mode h' res.
Proof.
  intros [Hs _] Hh Hres Hst Hm Hd. unfold served_ok. rewrite Hst. exists s. split_and!; [by eapply selected_prefix|done|by left].
Qed.

Lemma background_runs s h : usable s h -> mode = DefaultMode -> no_store = false ->
  runs R G (startBackgroundRevalidation out s) h (returns (fun _ _ => True)).
Proof.
  intros Hs Hm Hn. unfold startBackgroundRevalidation. cbv zeta. apply (runs_bind _ _ _ _ _ (fun _ _ => True)); [by apply runs_call|].
  intros h1 active H1 _. case_bool_decide; [done|]. apply runs_any; [|intros h2 _; by apply runs_call].
  split_and!; [done|by eapply usable_prefix|done..].
Qed.

Lemma dispatch_selected_runs s t h : usable s h -> mode <> NoStoreMode -> no_store = false ->
  runs R G (dispatch_selected cfg mode out s t) h (returns (fun h' o => forall res, o = Some res -> served_ok cfg out mode h' res)).
Proof.
  intros Hs Hm Hn. unfold dispatch_selected. fold (decision cfg s). cbv zeta.
  case_bool_decide as Hf; [cbn [orb]; apply serve_as_runs; intros; eapply local_ok; eauto|].
  case_bool_decide as Ho; cbn [orb]; [apply serve_as_runs; intros; eapply local_ok; eauto|].
  case_bool_decide as Hd; cbn [andb]; [|by apply revalidate_runs].
  case_bool_decide as Hfresh; [apply serve_as_runs; intros; eapply local_ok; eauto 10|].
  destruct (canServeStaleWhileRevalidate s (shared cfg)) eqn:Hc.
  { apply (runs_bind _ _ _ _ _ (fun _ _ => True)); [by apply background_runs|]. intros h1 _ H1 _.
    apply serve_as_runs. intros h2 res H2 Hres Hst. eapply stale_ok; [exact Hs|by etrans|eauto..]. }
  case_bool_decide as Hst; [apply serve_as_runs; intros; eapply stale_ok; eauto|by apply revalidate_runs].
Qed.

End Programs.

(** [dispatch] keeps its promises, whatever the other requests do meanwhile. *)
Lemma dispatch_runs cfg initial request cacheMode h :
  let mode := effective_mode request cacheMode in
  let out := outbound_request request mode in
  runs (environment initial) (promises cfg out mode (asks_no_store request)) (dispatch cfg request cacheMode) h
    (returns (served_ok cfg out mode)).
Proof.
  intros mode out. unfold dispatch. fold mode out. eapply runs_bind; [by apply now_runs|].
  intros h1 t _ _. apply (runs_bind _ _ _ _ _ (fun _ c => parseHeaderCacheControl (q_headers request) = Ok c)); [by apply runs_done_with|].
  intros h2 control _ Hc. cbv zeta. fold mode out.
  assert (Hno : asks_no_store request = noStore (directives control)) by (unfold asks_no_store; by rewrite Hc). rewrite Hno.
  destruct (is_cacheable_method (q_method out)) eqn:Hm; cbn [negb]; [|by apply dispatch_other_runs].
  destruct (_ || _ || _) eqn:Hoff; [apply dispatch_network_runs|].
  apply orb_false_iff in Hoff as [[H1%bool_decide_eq_false H2%bool_decide_eq_false]%orb_false_iff H3].
  apply (runs_bind _ _ _ _ _ (fun h' o => forall s, o = Some s -> usable cfg out s h')); [by apply select_runs|].
  intros h3 [s|] _ Hs; [|apply dispatch_network_runs].
  apply (runs_bind _ _ _ _ _ (fun h' o => forall res, o = Some res -> served_ok cfg out mode h' res)).
  { apply dispatch_selected_runs; [by apply Hs|done..]. }
  intros h4 [res|] _ Hok; [by apply runs_return, Hok|apply dispatch_network_runs].
Qed.
