(* ===== verification/HttpCachePool.v ===== *)
(** * Requests beside each other

    [pool_step] composes the programs of requests and of background validations:
    any of them makes its next call, in any order, and the store, the transport and
    the clock answer anything that their contracts allow.  [interleaved_requests]
    is the safety of the cache under every such interleaving. *)

From stdpp Require Import relations.
From S2P Require Import Prelude Ascii FetchHeaders Doubles CacheControl CacheControlTheory Freshness CacheStore HttpCachePolicy HttpCache HttpCacheTheory.
Local Open Scope Z_scope.

(** ** Tasks *)

Inductive task :=
| Request (request : TransportRequest) (cacheMode : RequestCache) (m : prog HttpCacheDispatchResult)
| Validation (request : TransportRequest) (selected : SelectedEntry) (m : prog unit).

(** The next call of a task, with an answer to it. *)
Inductive task_step : task -> event -> task -> Prop :=
| request_step request cacheMode c k r : task_step (Request request cacheMode (Call c k)) (Event c r) (Request request cacheMode (k r))
| validation_step request selected c k r : task_step (Validation request selected (Call c k)) (Event c r) (Validation request selected (k r)).

(** A store with one response, fresh for a minute, and a request for it. *)
Definition sample_url : CacheURL := mk_cache_url (u "https://example.org/a#top") (u "https://example.org").
Definition sample_request : TransportRequest := mk_request sample_url (u "GET") [(u "accept", u "*/*")] 0.
Definition stored_sample : HttpCacheEntryMetadata :=
  mk_metadata (u "https://example.org/a") GetMethod [] 200 (u "OK") [(u "cache-control", u "max-age=60"); (u "vary", u "accept")]
    [mk_vary (u "accept") (Some (u "*/*"))] d_zero d_zero.
Definition sample_oracle (c : cache_call) : result (answer c) :=
  match c return result (answer c) with
  | Clock => Ok (d_of 1000)
  | Find url => Ok (if str_eqb url (m_url stored_sample) then [mk_entry 0 stored_sample (Some (mk_body 1 [[65]]))] else [])
  | CreateWrite _ => Ok None
  | ReplaceMetadata _ _ => Ok None
  | OpenBody _ => Ok (Opened 0)
  | Send _ => Err (TypeError "offline")
  | Background => Ok []
  | ReadSource _ => Ok None
  | TakeWriter _ | PeekWriter => Ok None
  | _ => Ok tt
  end.
Definition sample_options : HttpCacheOptions := mk_cache_options true (fun _ _ => Err (TypeError "no URL")) None.

(** The same with an empty store and a server that answers. *)
Definition empty_oracle (c : cache_call) : result (answer c) :=
  match c return result (answer c) with
  | Find _ => Ok []
  | Send _ => Ok (mk_response 200 (u "OK") [(u "cache-control", u "max-age=60")] None)
  | c => sample_oracle c
  end.

(** [Cache-Control] in the headers contains a directive that forbids to store. *)
Definition forbidden (shared : bool) (headers : list HeaderEntry) : Prop :=
  exists value members m, headerValue headers (u "cache-control") = Some value /\ lists value members /\ m ∈ members /\ forbids_storing shared m.

(** The call that a task makes next. *)
Definition next_call (t : task) : option cache_call :=
  match t with Request _ _ (Call c _) | Validation _ _ (Call c _) => Some c | _ => None end.

Section Pool.
Context (cfg : HttpCacheOptions) (initial : list HttpCacheEntryMetadata).

Definition spawned (ev : event) : list task :=
  match ev_call ev with Spawn request selected => [Validation request selected (runBackgroundRevalidation cfg request selected)] | _ => [] end.

Definition pool : Type := list event * list task.

Inductive pool_step : pool -> pool -> Prop :=
| arrive h ts request cacheMode : pool_step (h, ts) (h, ts ++ [Request request cacheMode (dispatch cfg request cacheMode)])
| proceed h before t after ev t' : task_step t ev t' -> store_contract initial h (ev_call ev) (ev_answer ev) ->
    pool_step (h, before ++ t :: after) (h ++ [ev], (before ++ t' :: after) ++ spawned ev).

(** ** Specification *)

Definition mode_of (request : TransportRequest) (cacheMode : RequestCache) : RequestCache := effective_mode request cacheMode.
Definition out_of (request : TransportRequest) (cacheMode : RequestCache) : TransportRequest :=
  outbound_request request (mode_of request cacheMode).

(** What a task may call. *)
Definition may_call (t : task) : guarantee :=
  match t with
  | Request request cacheMode _ => promises cfg (out_of request cacheMode) (mode_of request cacheMode) (asks_no_store request)
  | Validation request _ _ => promises cfg request DefaultMode false
  end.

(** The next call of the task keeps its promises, its result is one it may have. *)
Definition task_ok (h : list event) (t : task) : Prop :=
  match t with
  | Request request cacheMode (Return res) => served_ok cfg (out_of request cacheMode) (mode_of request cacheMode) h res
  | Request _ _ (Call c _) | Validation _ _ (Call c _) => may_call t h c
  | _ => True
  end.

(** The invariant of a task: it runs as specified from its last call on. *)
Definition task_runs (h : list event) (t : task) : Prop :=
  exists h0, h0 `prefix_of` h /\
    match t with
    | Request request cacheMode m => runs (environment initial) (may_call t) m h0
        (returns (served_ok cfg (out_of request cacheMode) (mode_of request cacheMode)))
    | Validation _ _ m => runs (environment initial) (may_call t) m h0 (returns (fun _ _ => True))
    end.

Definition pool_ok (p : pool) : Prop := Forall sound (written initial p.1) /\ Forall (task_runs p.1) p.2.

(** The first steps of a program, with one answer to every call. *)
Fixpoint play (oracle : forall c, result (answer c)) {A} (steps : nat) (m : prog A) (h : list event) : list event * prog A :=
  match steps, m with
  | S steps, Call c k => play oracle steps (k (oracle c)) (h ++ [Event c (oracle c)])
  | _, _ => (h, m)
  end.

(** ** Later histories *)

Lemma promises_prefix out mode no_store h h' c : h `prefix_of` h' -> promises cfg out mode no_store h c -> promises cfg out mode no_store h' c.
Proof.
  intros Hh. destruct c; cbn; try done.
  - intros (Hm & Hu & (q & p & control & Hs & Hr) & Hrest). refine (conj Hm (conj Hu (conj _ Hrest))). exists q, p, control. split; [by eapply sent_prefix|done].
  - intros (Hm & Hu & (q & p & Ho & Hs & Hr)). refine (conj Hm (conj Hu _)). exists q, p. refine (conj _ (conj _ Hr)); [by eapply offered_prefix|by eapply sent_prefix].
  - intros [(q & p & Hs & Hr)|(q & p & Hs & Hr)]; [left|right]; exists q, p; (split; [by eapply sent_prefix|done]).
  - intros (Hq & Hu & Hr). refine (conj Hq (conj _ Hr)). by eapply usable_prefix.
Qed.

Lemma served_prefix out mode h h' res : h `prefix_of` h' -> served_ok cfg out mode h res -> served_ok cfg out mode h' res.
Proof.
  intros Hh. unfold served_ok. destruct (r_cacheState res).
  - intros (q & p & Hs & Hr). exists q, p. split; [by eapply sent_prefix|done].
  - intros (s & Hs & Hr). exists s. split; [by eapply selected_prefix|done].
  - intros (s & Hs & Hv & Hr). exists s. split_and!; [by eapply selected_prefix|done|]. destruct Hr as [|[? ?]]; [by left|right]. split; [done|by eapply failed_prefix].
  - intros (s & q & p & Hs & Hp & Hr). exists s, q, p. refine (conj _ (conj _ Hr)); [by eapply selected_prefix|by eapply sent_prefix].
Qed.

Lemma task_runs_prefix h h' t : h `prefix_of` h' -> task_runs h t -> task_runs h' t.
Proof. intros Hh (h0 & Hp & Hr). exists h0. split; [by etrans|done]. Qed.

Lemma task_runs_ok h t : task_runs h t -> task_ok h t.
Proof.
  intros (h0 & Hp & Hr). destruct t as [request cm m|request s m]; destruct m as [a|e|c k]; cbn in *; try done.
  - by eapply served_prefix.
  - eapply promises_prefix; [done|apply Hr].
  - eapply promises_prefix; [done|apply Hr].
Qed.

(** A background validation keeps its promises. *)
Lemma validation_runs request s h : usable cfg request s h ->
  runs (environment initial) (promises cfg request DefaultMode false) (runBackgroundRevalidation cfg request s) h (returns (fun _ _ => True)).
Proof.
  intros Hs. unfold runBackgroundRevalidation, try_finally. cbv zeta. apply runs_outcome. eapply runs_mono; [|apply runs_reported].
  { intros h' r _ _. eapply runs_any; [done|]. intros. by apply runs_done_with. }
  eapply runs_bind; [by apply now_runs|]. intros h1 t H1 _.
  eapply runs_bind; [by apply (revalidate_runs cfg initial request DefaultMode false); [eapply usable_prefix|..]|]. intros h2 [res|] _ _; [|done].
  destruct (p_body _) as [b|]; [|done]. case_bool_decide; by apply runs_call.
Qed.

(** A step of a task that runs as specified. *)
Lemma task_runs_step h t ev t' : Forall sound (written initial h) -> task_runs h t -> task_step t ev t' ->
  store_contract initial h (ev_call ev) (ev_answer ev) ->
  may_call t h (ev_call ev) /\ task_runs (h ++ [ev]) t'.
Proof.
  intros Hsnd Ht Hstep Hc. pose proof (task_runs_ok _ _ Ht) as Hok. destruct Ht as (h0 & [others ->] & Hr).
  inversion Hstep as [request cm c k r|request s c k r]; subst; cbn in *;
    (split; [done|]); exists ((h0 ++ others) ++ [Event c r]); (split; [done|]); by apply Hr.
Qed.

Lemma written_step h ev : written initial (h ++ [ev]) = written initial h ++ write_of ev.
Proof. unfold written. by rewrite bind_app, app_assoc, bind_singleton. Qed.

Lemma may_write t h ev : may_call t h (ev_call ev) -> Forall sound (write_of ev).
Proof.
  unfold write_of. destruct ev as [c r], t; cbn; destruct c; cbn; try done; intros [? _]; by apply Forall_singleton.
Qed.

Lemma pool_step_ok p p' : pool_step p p' -> pool_ok p -> pool_ok p'.
Proof.
  intros Hstep [Hs Ht]. destruct Hstep as [h ts request cm|h before t after ev t' Hstep Hc]; cbn in *.
  - split; [done|]. cbn. apply Forall_app. split; [done|]. apply Forall_singleton. exists h. split; [done|]. apply dispatch_runs.
  - apply Forall_app in Ht as [Hb [Ht Ha]%Forall_cons]. destruct (task_runs_step _ _ _ _ Hs Ht Hstep Hc) as [Hm Ht'].
    assert (Hp : h `prefix_of` h ++ [ev]) by by eexists.
    assert (Hgrow : forall ts, Forall (task_runs h) ts -> Forall (task_runs (h ++ [ev])) ts).
    { intros ts Hts. eapply Forall_impl; [exact Hts|]. intros x. by apply task_runs_prefix. }
    split; cbn.
    + rewrite written_step. apply Forall_app. split; [done|by eapply may_write].
    + rewrite !Forall_app, Forall_cons. split_and!; [by apply Hgrow|done|by apply Hgrow|].
      unfold spawned. destruct ev as [c r]; destruct c; cbn in *; try by constructor. apply Forall_singleton.
      exists (h ++ [Event (Spawn request selected) r]). split; [done|]. cbn. apply validation_runs. eapply usable_prefix; [exact Hp|].
      destruct t; cbn in Hm; destruct Hm as (-> & Hu & _); exact Hu.
Qed.

(** The first steps of a request, beside others that wait, are steps of the pool. *)
Lemma play_steps oracle request cacheMode before steps : (forall h c, store_contract initial h c (oracle c)) ->
  forall (m : prog HttpCacheDispatchResult) h after h' m', play oracle steps m h = (h', m') ->
  exists after', rtc pool_step (h, before ++ Request request cacheMode m :: after) (h', before ++ Request request cacheMode m' :: after').
Proof.
  intros Hc. induction steps as [|n IH]; intros m h after h' m' Hp; [injection Hp as <- <-; by eexists|].
  destruct m as [a|e|c k]; cbn in Hp; [injection Hp as <- <-; by eexists..|].
  destruct (IH _ _ (after ++ spawned (Event c (oracle c))) _ _ Hp) as [after' Hs]. exists after'.
  eapply rtc_l; [|exact Hs].
  replace (before ++ Request request cacheMode (k (oracle c)) :: after ++ spawned (Event c (oracle c)))
    with ((before ++ Request request cacheMode (k (oracle c)) :: after) ++ spawned (Event c (oracle c))) by by rewrite <- app_assoc.
  apply (proceed _ _ _ _ (Event c (oracle c))); [constructor|apply Hc].
Qed.

End Pool.

(** A request alone in the pool, after its first steps. *)
Lemma play_alone cfg initial oracle request cacheMode steps h m : (forall h c, store_contract initial h c (oracle c)) ->
  play oracle steps (dispatch cfg request cacheMode) [] = (h, m) ->
  exists after, rtc (pool_step cfg initial) ([], []) (h, Request request cacheMode m :: after).
Proof.
  intros Hc Hp. destruct (play_steps cfg initial oracle request cacheMode [] steps Hc _ _ [] _ _ Hp) as [after Hr]. exists after.
  eapply rtc_l; [apply (arrive cfg initial [] [] request cacheMode)|exact Hr].
Qed.

Lemma reachable_ok cfg initial p : Forall sound initial -> rtc (pool_step cfg initial) ([], []) p -> pool_ok cfg initial p.
Proof.
  intros Hi Hr. assert (H0 : pool_ok cfg initial ([], [])) by (split; [unfold written; by rewrite app_nil_r|done]). revert H0.
  induction Hr as [x|x y z Hxy _ IH]; [done|]. intros Hx. by eapply IH, pool_step_ok.
Qed.

Lemma sample_contract h c : store_contract [stored_sample] h c (sample_oracle c).
Proof.
  destruct c; cbn; try done. intros entries e [= <-]. destruct (str_eqb _ _) eqn:E; [apply str_eqb_true in E as ->|set_solver].
  intros ->%list_elem_of_singleton. split; [done|]. unfold written. set_solver.
Qed.

Lemma stored_sample_sound : sound stored_sample.
Proof. split; [by split|by_computing|exists [(u "accept", u "*/*")]; by vm_compute]. Qed.

Lemma empty_contract h c : store_contract [] h c (empty_oracle c).
Proof. destruct c; cbn; try done. by intros entries e [= <-] ?%elem_of_nil. Qed.

Lemma forbidden_parse shared headers : forbidden shared headers ->
  exists c, parseHeaderCacheControl headers = Ok c /\ (noStore (directives c) = true \/ (shared = true /\ private (directives c) = Some Bare)).
Proof.
  intros (value & members & m & Hv & Hl & Hm & Hf). unfold parseHeaderCacheControl. rewrite Hv. by eapply lists_forbids.
Qed.

Lemma fmap_result_Ok {A B} (f : A -> B) (r : result A) b : f <$> r = Ok b -> exists a, r = Ok a /\ b = f a.
Proof. destruct r as [a|e]; [|done]. intros [= <-]. by exists a. Qed.

(** What may be stored is not forbidden. *)
Lemma storable_allowed request status headers sh : isResponseStorable request status headers sh = Ok true ->
  ~ forbidden sh headers /\ ~ forbidden false (q_headers request).
Proof.
  unfold isResponseStorable. destruct (negb _); [done|]. destruct (_ || _); [done|].
  intros H. ok_inv H. ok_inv H. apply fmap_result_Ok in Hx as (cq & Hq & ->). apply fmap_result_Ok in Hx0 as (cr & Hr & ->).
  destruct (noStore (directives cq)) eqn:Hnq; [done|]. destruct (noStore (directives cr)) eqn:Hnr; [done|]. cbn [orb] in H.
  destruct (_ && _); [done|]. destruct (sh && bare (private (directives cr))) eqn:Hp; [done|]. clear H. split.
  - intros (c & Hc & Hf)%forbidden_parse. rewrite Hr in Hc. injection Hc as <-. destruct Hf as [Hf|[-> Hf]]; [congruence|]. by rewrite Hf in Hp.
  - intros (c & Hc & Hf)%forbidden_parse. rewrite Hq in Hc. injection Hc as <-. destruct Hf as [Hf|[? Hf]]; congruence.
Qed.

(** C4: Requests and background validations run beside each other in any order, over
    any store that keeps its contract.  The store is given sound metadata only; no
    task makes a call that it may not make; and each response that is returned is one
    from the network, a stored one that the request may reuse, or one validated. *)
Theorem interleaved_requests cfg initial p : Forall sound initial -> rtc (pool_step cfg initial) ([], []) p ->
  Forall sound (written initial p.1) /\ Forall (task_ok cfg p.1) p.2.
Proof.
  intros Hi Hr. destruct (reachable_ok _ _ _ Hi Hr) as [Hs Ht]. split; [done|]. eapply Forall_impl; [exact Ht|]. intros t. apply task_runs_ok.
Qed.

Lemma interleaved_requests_witness : exists p res,
  rtc (pool_step sample_options [stored_sample]) ([], []) p /\ Request sample_request DefaultMode (Return res) ∈ p.2 /\
  r_cacheState res = FromLocal /\
  Forall sound (written [stored_sample] p.1) /\ Forall (task_ok sample_options p.1) p.2.
Proof.
  destruct (play sample_oracle 9 (dispatch sample_options sample_request DefaultMode) []) as [h m] eqn:Hp.
  assert (Hm : match m with Return res => r_cacheState res = FromLocal | _ => False end)
    by (replace m with (h, m).2 by done; rewrite <- Hp; by vm_compute).
  destruct m as [res| |]; [|done..]. destruct (play_alone _ _ _ _ _ _ _ _ sample_contract Hp) as [after Hr].
  exists (h, Request sample_request DefaultMode (Return res) :: after), res. split; [exact Hr|]. split; [by left|]. split; [exact Hm|].
  apply (interleaved_requests sample_options [stored_sample]); [|exact Hr]. by apply Forall_singleton, stored_sample_sound.
Defined.


