(* ===== verification/VaryTheory.v ===== *)
(** * The key of [Vary]

    A response is stored with the values of the request headers that its [Vary]
    names.  [vary_key_spec] says when there is such a key, what it holds and that it
    matches exactly the requests with the same key. *)

From stdpp Require Import sorting.
From S2P Require Import Prelude Ascii FetchHeaders CacheControl CacheControlTheory CacheStore HttpCachePolicy.
Local Open Scope Z_scope.

(** ** Specification *)

(** The words of a text between white space. *)
Fixpoint pieces (value : jsstr) : list jsstr :=
  match value with
  | [] => [[]]
  | c :: value =>
      if (c =? 9) || (c =? 32) then [] :: pieces value
      else match pieces value with p :: ps => (c :: p) :: ps | [] => [[c]] end
  end.
Definition nonempty (l : list jsstr) : list jsstr := filter (fun p => p <> []) l.
Definition no_space (w : jsstr) : Prop := Forall (fun c => (c =? 9) || (c =? 32) = false) w.
Definition words (value : jsstr) : list jsstr := nonempty (pieces value).

Definition member_name (member : jsstr) : jsstr := to_lower (trimHTTPTabOrSpace member).

(** The names of a list of members, and those of a longer one. *)
Definition named (members : list jsstr) (n : jsstr) : Prop := n <> [] /\ exists m, m ∈ members /\ n = member_name m.

(** The names in a value of [Vary], and those that cannot be in a key. *)
Definition listed_in (value name : jsstr) : Prop := named (js_split 44 value) name.
Definition unusable (name : jsstr) : Prop := name = u "*" \/ isToken name = false.

(** The words of a request header; header lines are joined. *)
Definition header_words (headers : list HeaderEntry) (name : jsstr) : option (list jsstr) := words <$> headerValue headers name.

(** The words that follow others. *)
Definition continued (ws : list jsstr) : jsstr := match ws with [] => [] | _ => 32 :: js_join [32] ws end.

(** ** Normalized values *)

Lemma pieces_cons v : exists p ps, pieces v = p :: ps.
Proof. destruct v as [|c v]; cbn; [by do 2 eexists|]. destruct (_ || _); [by do 2 eexists|]. by destruct (pieces v) as [|p ps]; do 2 eexists. Qed.

Lemma join_words p ws : js_join [32] (p :: ws) = p ++ continued ws.
Proof. destruct ws; cbn; by rewrite ?app_nil_r. Qed.

Lemma len_positive (r : jsstr) : r <> [] -> (0 <? len r) = true.
Proof. destruct r as [|c r]; [congruence|]. intros _. apply Z.ltb_lt. unfold len. cbn [length]. lia. Qed.

Lemma nonempty_nil ps : nonempty ([] :: ps) = nonempty ps.
Proof. done. Qed.

Lemma nonempty_cons c p ps : nonempty ((c :: p) :: ps) = (c :: p) :: nonempty ps.
Proof. done. Qed.

(** The loop in a word, after one, and before the first one. *)
Lemma normalize_words v : forall r,
  (r <> [] -> forall p ps, pieces v = p :: ps -> (foldl normalize_unit (r, false) v).1 = r ++ p ++ continued (nonempty ps)) /\
  (r <> [] -> (foldl normalize_unit (r, true) v).1 = r ++ continued (words v)) /\
  (foldl normalize_unit ([], false) v).1 = js_join [32] (words v).
Proof.
  induction v as [|c v IH]; intros r.
  { split_and!; [intros _ p ps [= <- <-]|intros _|done]; cbn; by rewrite ?app_nil_r. }
  unfold words. cbn [foldl pieces]. destruct (pieces_cons v) as (p & ps & Hp).
  destruct ((c =? 9) || (c =? 32)) eqn:Hc.
  - unfold normalize_unit at 2 4 6. rewrite Hc. split_and!; [intros Hr p' ps' [= <- <-]|intros Hr|]; cbn [app len]; rewrite ?nonempty_nil.
    + rewrite (len_positive r Hr). by apply IH.
    + rewrite (len_positive r Hr). by apply IH.
    + by apply IH.
  - unfold normalize_unit at 2 4 6. rewrite Hc, Hp, nonempty_cons. split_and!; [intros Hr p' ps' [= <- <-]|intros Hr|].
    + rewrite (proj1 (IH _)) with (p := p) (ps := ps); [by rewrite <- app_assoc|by destruct r|done].
    + rewrite (proj1 (IH _)) with (p := p) (ps := ps); [|by destruct r|done]. cbn [continued]. rewrite join_words. by rewrite <- !app_assoc.
    + rewrite (proj1 (IH _)) with (p := p) (ps := ps); [|done|done]. by rewrite join_words.
Qed.

Lemma normalizeVaryValue_words value : normalizeVaryValue value = js_join [32] (words value).
Proof. apply (normalize_words value []). Qed.

Lemma pieces_app w v p ps : no_space w -> pieces v = p :: ps -> pieces (w ++ v) = (w ++ p) :: ps.
Proof.
  intros Hw Hv. induction Hw as [|c w Hc _ IH]; [done|]. cbn [app pieces]. by rewrite Hc, IH.
Qed.

Lemma pieces_no_space v : Forall no_space (pieces v).
Proof.
  induction v as [|c v IH]; cbn [pieces]; [repeat constructor|]. destruct (_ || _) eqn:Hc; [by constructor; [constructor|]|].
  destruct IH as [|p ps Hp Hps]; repeat constructor; done.
Qed.

Lemma words_join ws : Forall (fun w => w <> [] /\ no_space w) ws -> words (js_join [32] ws) = ws.
Proof.
  induction 1 as [|w ws [Hne Hw] _ IH]; [done|]. rewrite join_words. unfold words. destruct w as [|c w]; [done|].
  destruct ws as [|w' ws]; cbn [continued].
  - rewrite (pieces_app _ [] [] []) by done. rewrite app_nil_r. by rewrite nonempty_cons.
  - rewrite (pieces_app _ _ [] (pieces (js_join [32] (w' :: ws)))) by done. rewrite app_nil_r, nonempty_cons. f_equal. exact IH.
Qed.

Lemma words_ok v : Forall (fun w => w <> [] /\ no_space w) (words v).
Proof.
  apply Forall_forall. intros w [Hne Hw]%list_elem_of_filter. split; [done|]. by eapply Forall_forall in Hw; [|apply pieces_no_space].
Qed.

(** Two values have the same normal form when they have the same words. *)
Lemma normalize_same a b : normalizeVaryValue a = normalizeVaryValue b <-> words a = words b.
Proof.
  rewrite !normalizeVaryValue_words. split; [|by intros ->]. intros H%(f_equal words). by rewrite !words_join in H by apply words_ok.
Qed.

Lemma requestHeaderValue_same h h' name : requestHeaderValue h name = requestHeaderValue h' name <-> header_words h name = header_words h' name.
Proof.
  unfold requestHeaderValue, header_words. destruct (headerValue h name) as [a|], (headerValue h' name) as [b|]; cbn; try by split.
  split; intros [= H]; f_equal; by apply normalize_same.
Qed.

(** ** Names *)

Lemma push_new_NoDup names n : NoDup names -> NoDup (push_new names n).
Proof. intros Hn. unfold push_new. case_bool_decide; [done|]. apply NoDup_app. split_and!; [done|set_solver|apply NoDup_singleton]. Qed.

Lemma named_cons m members n : named (m :: members) n <-> (n <> [] /\ n = member_name m) \/ named members n.
Proof. unfold named. set_solver. Qed.

Lemma usable_name name : (str_eqb name (u "*") = true \/ isToken name = false) <-> unusable name.
Proof. unfold unusable, str_eqb. by rewrite bool_decide_eq_true. Qed.

Lemma vary_names_step m members names : vary_names (m :: members) names =
  if bool_decide (member_name m = []) then vary_names members names
  else if str_eqb (member_name m) (u "*") || negb (isToken (member_name m)) then None
  else vary_names members (push_new names (member_name m)).
Proof.
  cbn [vary_names]. fold (member_name m). replace (len (member_name m) =? 0) with (bool_decide (member_name m = [])) by by destruct (member_name m).
  case_bool_decide; [done|]. destruct (str_eqb _ _); [done|]. by destruct (isToken _).
Qed.

Lemma vary_names_none members : forall names, vary_names members names = None <-> exists n, named members n /\ unusable n.
Proof.
  induction members as [|m members IH]; intros names; [split; [done|]; by intros (n & (_ & x & Hx%elem_of_nil & _) & _)|].
  rewrite vary_names_step. setoid_rewrite named_cons. case_bool_decide as Hn.
  - rewrite IH. naive_solver.
  - destruct (_ || _) eqn:Hu.
    + split; [|done]. intros _. exists (member_name m). split; [by left|]. apply usable_name. apply orb_true_iff in Hu as [Hu|Hu%negb_true_iff]; auto.
    + rewrite IH. apply orb_false_iff in Hu as [Hu1 Hu2%negb_false_iff].
      assert (~ unusable (member_name m)) by (rewrite <- usable_name; intros [?|?]; congruence). naive_solver.
Qed.

Lemma vary_names_some members : forall names result, vary_names members names = Some result ->
  (forall n, n ∈ result <-> n ∈ names \/ named members n) /\ (NoDup names -> NoDup result).
Proof.
  induction members as [|m members IH]; intros names result.
  { intros [= <-]. split; [|done]. intros n. unfold named. set_solver. }
  rewrite vary_names_step. setoid_rewrite named_cons. case_bool_decide as Hn; [intros [H1 H2]%IH|destruct (_ || _); [done|intros [H1 H2]%IH]].
  - split; [|done]. intros n. rewrite H1. naive_solver.
  - split; [intros n; rewrite H1, push_new_in; naive_solver|auto using push_new_NoDup].
Qed.

(** ** The key *)

Lemma vary_key_matches names headers headers' :
  varyMatches ((fun name => mk_vary name (requestHeaderValue headers name)) <$> names) headers' = true <->
  (forall n, n ∈ names -> header_words headers' n = header_words headers n).
Proof.
  unfold varyMatches. rewrite forallb_forall. setoid_rewrite <- list_elem_of_In. setoid_rewrite list_elem_of_fmap. split.
  - intros H n Hn. apply requestHeaderValue_same. by specialize (H _ (ex_intro _ n (conj eq_refl Hn))) as ?%bool_decide_eq_true.
  - intros H x (n & -> & Hn). apply bool_decide_eq_true. by apply requestHeaderValue_same, H.
Qed.

#[export] Instance text_order_total : Total text_order.
Proof. intros a b. unfold text_order. destruct (str_ltb b a) eqn:E; [|by left]. right. by apply str_ltb_asym. Qed.

(** A blank [Vary] names nothing. *)
Lemma blank_names value n : len (trimHTTPTabOrSpace value) = 0 -> ~ listed_in value n.
Proof.
  intros Ht [Hne (m & Hm & ->)]. unfold len in Ht. assert (Hnil : trimHTTPTabOrSpace value = []) by (apply nil_length_inv; lia).
  assert (Hb : 44 ∉ value).
  { destruct (trim_is_trimmed isHTTPTabOrSpace value) as (b & a & Hv & Hb & Ha & _). fold (trimHTTPTabOrSpace value) in Hv. rewrite Hnil in Hv.
    rewrite Forall_forall in Hb, Ha. rewrite Hv. intros [H|H]%elem_of_app; [discriminate (Hb 44 H)|discriminate (Ha 44 H)]. }
  rewrite (js_split_one _ _ Hb) in Hm. apply list_elem_of_singleton in Hm as ->. apply Hne. unfold member_name. by rewrite Hnil.
Qed.

Lemma key_names (names : list jsstr) headers : vary_name <$> ((fun name => mk_vary name (requestHeaderValue headers name)) <$> names) = names.
Proof. rewrite <- list_fmap_compose. by apply list_fmap_id. Qed.

(** C29: A response has a key unless its [Vary] has an asterisk or a member that is no
    token.  The key has the names of [Vary], each once and in order; it matches a
    request exactly when each of the headers named has the same words as in the
    request that it was made for. *)
Theorem vary_key_spec (responseHeaders headers : list HeaderEntry) (value : jsstr) :
  headerValue responseHeaders (u "vary") = Some value ->
  (createVaryKey responseHeaders headers = None <-> exists n, listed_in value n /\ unusable n) /\
  (forall key, createVaryKey responseHeaders headers = Some key ->
    Sorted text_order (vary_name <$> key) /\ NoDup (vary_name <$> key) /\
    (forall n, n ∈ vary_name <$> key <-> listed_in value n) /\
    forall headers', varyMatches key headers' = true <-> (forall n, listed_in value n -> header_words headers' n = header_words headers n)).
Proof.
  intros Hv. unfold createVaryKey. rewrite Hv. destruct (Z.eqb_spec (len (trimHTTPTabOrSpace value)) 0) as [H0|H0].
  { pose proof (fun n => blank_names value n H0) as Hno. split; [naive_solver|]. intros key [= <-].
    split_and!; [constructor|constructor|set_solver|]. intros headers'. split; [naive_solver|done]. }
  destruct (vary_names (js_split 44 value) []) as [names|] eqn:Hn; cbn.
  - split; [split; [done|]; intros Hu%(vary_names_none _ []); congruence|]. intros key [= <-]. apply vary_names_some in Hn as [Hin Hnd].
    assert (Hin' : forall n, n ∈ merge_sort text_order names <-> listed_in value n) by (intros n; rewrite merge_sort_Permutation, Hin; set_solver).
    rewrite key_names. split_and!; [apply Sorted_merge_sort, _|rewrite merge_sort_Permutation; apply Hnd; constructor|done|].
    intros headers'. rewrite vary_key_matches. by setoid_rewrite Hin'.
  - split; [|done]. split; [|done]. intros _. by apply (vary_names_none _ []).
Qed.

Lemma vary_key_spec_witness : exists key, createVaryKey [(u "Vary", u "Accept-Language, accept ,,")] [(u "accept", u " a  b")] = Some key /\
  forall headers', varyMatches key headers' = true <->
    (forall n, listed_in (u "Accept-Language, accept ,,") n -> header_words headers' n = header_words [(u "accept", u " a  b")] n).
Proof.
  eexists. split; [by vm_compute|].
  exact (proj2 (proj2 (proj2 (proj2 (vary_key_spec [(u "Vary", u "Accept-Language, accept ,,")] [(u "accept", u " a  b")] (u "Accept-Language, accept ,,")
    eq_refl) _ eq_refl)))).
Defined.
