(* ===== verification/WriteThrough.v ===== *)
(** * Bodies that are written through to the store ([HttpCache.writeThrough])

    The stream that a request gets when its response is stored: [pull] hands the
    chunks of the network on and writes them to the store, [cancel] may run at any
    moment of it.  [write_through_whole]: whatever fails and whenever the reader
    cancels, only a whole body is committed, and the reader misses no chunk. *)

From stdpp Require Import relations.
From S2P Require Import Prelude HttpCache HttpCacheTheory.
Local Open Scope Z_scope.
Local Open Scope prog_scope.

(** ** The stream *)

(** [abandon] *)
Definition abandon (canceling : bool) : prog unit :=
  active ← await (TakeWriter canceling);
  match active with
  | None => Return tt
  | Some writer => reported (await (AbortWrite writer))
  end.

(** The end of the source in [pull]: the commit, and what follows it. *)
Definition pull_end : prog unit :=
  active ← await (TakeWriter false);
  match active with Some writer => commit_or_abort writer | None => Return tt end ;;
  await ReleaseSource ;;
  await CloseStream.

(** A chunk of the source in [pull]. *)
Definition pull_chunk (chunk : list Z) : prog unit :=
  active ← await PeekWriter;
  match active with
  | Some writer => try_catch (await (WriteChunk writer chunk)) (fun _ => abandon false)
  | None => Return tt
  end ;;
  await (Enqueue chunk).

Definition pull (source : Stream) : prog unit :=
  try_catch
    (result ← await (ReadSource source);
     match result with None => pull_end | Some chunk => pull_chunk chunk end)
    (fun _ => abandon false ;; await ReleaseSource ;; await ErrorStream).

Definition cancel (source : Stream) : prog unit :=
  abandon true ;; try_finally (await (Cancel source)) (await ReleaseSource).

(** The stream pulls again when the reader asks for more, never twice at once. *)
Fixpoint pulls (source : Stream) (n : nat) : prog unit :=
  match n with O => Return tt | S n => pull source ;; pulls source n end.

(** ** Runs of a stream *)

Section Stream.
Context (source : Stream) (w : nat).

Definition is_take (ev : event) : bool := match ev_call ev with TakeWriter _ => true | _ => false end.
Definition taken (h : list event) : bool := existsb is_take h.

(** The variable [writer]: the writer until it is taken. *)
Definition cell (h : list event) : option nat := if taken h then None else Some w.

(** Reading the variable gives what it holds; all else may happen. *)
Definition cell_contract : contract := fun h c =>
  match c return result (answer c) -> Prop with TakeWriter _ | PeekWriter => fun r => r = Ok (cell h) | _ => fun _ => True end.

(** The next call of a program. *)
Inductive call_step : prog unit -> event -> prog unit -> Prop :=
| call_next c k r : call_step (Call c k) (Event c r) (k r).

Definition stream_state : Type := list event * prog unit * prog unit.

(** A step of the pulls, and one of [cancel], whose first may come at any moment. *)
Inductive stream_step : stream_state -> stream_state -> Prop :=
| step_pull h p ev p' c : call_step p ev p' -> cell_contract h (ev_call ev) (ev_answer ev) -> stream_step (h, p, c) (h ++ [ev], p', c)
| step_cancel h p c ev c' : call_step c ev c' -> cell_contract h (ev_call ev) (ev_answer ev) -> stream_step (h, p, c) (h ++ [ev], p, c').

(** ** Specification *)

(** The chunks that were read, those that were written and those handed on. *)
Definition read_of (ev : event) : list (list Z) :=
  match ev with
  | Event c r => match c return result (answer c) -> list (list Z) with ReadSource _ => fun r => match r with Ok (Some chunk) => [chunk] | _ => [] end | _ => fun _ => [] end r
  end.
Definition stored_of (ev : event) : list (list Z) :=
  match ev with
  | Event c r => match c return result (answer c) -> list (list Z) with WriteChunk _ chunk => fun r => match r with Ok _ => [chunk] | _ => [] end | _ => fun _ => [] end r
  end.
Definition handed_of (ev : event) : list (list Z) := match ev_call ev with Enqueue chunk => [chunk] | _ => [] end.
Definition reads (h : list event) : list (list Z) := h ≫= read_of.
Definition stored (h : list event) : list (list Z) := h ≫= stored_of.
Definition handed (h : list event) : list (list Z) := h ≫= handed_of.

(** The writer is finished: committed, or aborted. *)
Definition final (ev : event) : bool :=
  match ev with
  | Event c r => match c return result (answer c) -> bool with AbortWrite _ => fun _ => true | CommitWrite _ => fun r => match r with Ok _ => true | _ => false end | _ => fun _ => false end r
  end.
Definition unfinished (h : list event) : Prop := Forall (fun ev => final ev = false) h.

(** [pull] or [cancel] has taken the writer. *)
Definition owns (canceling : bool) (h : list event) : Prop := Event (TakeWriter canceling) (Ok (Some w)) ∈ h.

Definition ended (h : list event) : Prop := Event (ReadSource source) (Ok None) ∈ h.

(** What [pull] and [cancel] may call. *)
Definition stream_promises (canceling : bool) : guarantee := fun h c =>
  match c with
  | CommitWrite w' => canceling = false /\ w' = w /\ owns canceling h /\ unfinished h /\ ended h /\ stored h = reads h
  | AbortWrite w' => w' = w /\ owns canceling h /\ unfinished h
  | WriteChunk w' chunk => canceling = false /\ w' = w
  | Enqueue chunk => canceling = false /\ handed h ++ [chunk] = reads h
  | ReadSource _ => canceling = false
  | TakeWriter b => b = canceling
  | _ => True
  end.

(** What the other one may do meanwhile. *)
Definition foreign (canceling : bool) (h others : list event) : Prop :=
  (unfinished others \/ owns (negb canceling) (h ++ others)) /\
  (canceling = false -> reads others = [] /\ stored others = [] /\ handed others = []).

(** One of the two takes the writer at most, and only then it is finished. *)
Definition stream_ok (h : list event) : Prop := ~ (owns false h /\ owns true h) /\ (taken h = false -> unfinished h).

Definition stream_rely (canceling : bool) : rely := fun h others c r =>
  foreign canceling h others /\ stream_ok (h ++ others) /\ cell_contract (h ++ others) c r.

(** The invariant between two pulls. *)
Definition in_step (h : list event) : Prop := handed h = reads h /\ (taken h = false -> stored h = reads h).

(** Later events have left the chunks as they are. *)
Definition calm (h h' : list event) : Prop :=
  reads h' = reads h /\ stored h' = stored h /\ handed h' = handed h /\ (taken h = true -> taken h' = true).

(** An event that neither reads, writes nor hands on. *)
Definition quiet (ev : event) : Prop := read_of ev = [] /\ stored_of ev = [] /\ handed_of ev = [].

(** Programs that leave the chunks as they are, whatever they return. *)
Definition calms {A} (m : prog A) : Prop :=
  forall h, runs (stream_rely false) (stream_promises false) m h (fun h' _ => calm h h').

(** [pull] holds a chunk that was read, and before it is handed on. *)
Definition holds (chunk : list Z) (h : list event) : Prop :=
  handed h ++ [chunk] = reads h /\ (taken h = false -> stored h ++ [chunk] = reads h).
Definition to_hand (chunk : list Z) (h : list event) : Prop := handed h ++ [chunk] = reads h /\ (taken h = false -> stored h = reads h).

(** A program that keeps its promises since its last call. *)
Definition stream_runs (canceling : bool) (h : list event) (m : prog unit) : Prop :=
  exists h0 others, h = h0 ++ others /\ foreign canceling h0 others /\
    runs (stream_rely canceling) (stream_promises canceling) m h0 (fun h _ => canceling = false -> in_step h).

(** The next call of a program. *)
Definition calls_next (m : prog unit) : option cache_call := match m with Call c _ => Some c | _ => None end.

(** The first steps of the pulls, for a source with one chunk. *)
Definition sample_answer (h : list event) (c : cache_call) : result (answer c) :=
  match c return result (answer c) with
  | ReadSource _ => Ok (match reads h with [] => Some [65] | _ => None end)
  | TakeWriter _ | PeekWriter => Ok (cell h)
  | CreateWrite _ | ReplaceMetadata _ _ => Ok None
  | Clock => Err (TypeError "no clock")
  | Find _ | Background => Ok []
  | OpenBody _ => Err (TypeError "no body")
  | Send _ => Err (TypeError "offline")
  | _ => Ok tt
  end.
Fixpoint play_pulls (steps : nat) (h : list event) (m : prog unit) : list event * prog unit :=
  match steps, m with
  | S steps, Call c k => play_pulls steps (h ++ [Event c (sample_answer h c)]) (k (sample_answer h c))
  | _, _ => (h, m)
  end.

(** [pull] and [cancel] run as promised over one history. *)
Definition stream_invariant (st : stream_state) : Prop :=
  stream_ok st.1.1 /\ stream_runs false st.1.1 st.1.2 /\ stream_runs true st.1.1 st.2.

(** ** Histories *)

Lemma reads_app h h' : reads (h ++ h') = reads h ++ reads h'.
Proof. apply bind_app. Qed.
Lemma stored_app h h' : stored (h ++ h') = stored h ++ stored h'.
Proof. apply bind_app. Qed.
Lemma handed_app h h' : handed (h ++ h') = handed h ++ handed h'.
Proof. apply bind_app. Qed.
Lemma taken_app h h' : taken (h ++ h') = taken h || taken h'.
Proof. apply existsb_app. Qed.

Lemma in_step_calm h h' : calm h h' -> in_step h -> in_step h'.
Proof.
  intros (Hr & Hs & Hh & Ht) [H1 H2]. split; [congruence|]. intros Hf. rewrite Hs, Hr. apply H2. destruct (taken h); [|done]. by rewrite Ht in Hf.
Qed.

#[export] Instance calm_preorder : PreOrder calm.
Proof. split; [by repeat split|]. intros a b c (? & ? & ? & ?) (? & ? & ? & ?). repeat split; congruence || auto. Qed.

Lemma foreign_calm h others : foreign false h others -> calm h (h ++ others).
Proof.
  intros [_ H]. destruct (H eq_refl) as (Hr & Hs & Hh). unfold calm. rewrite reads_app, stored_app, handed_app, taken_app, Hr, Hs, Hh, !app_nil_r.
  split_and!; try done. by intros ->.
Qed.

Lemma quiet_calm h ev : quiet ev -> calm h (h ++ [ev]).
Proof.
  intros (Hr & Hs & Hh). unfold calm. rewrite reads_app, stored_app, handed_app, taken_app. unfold reads at 2, stored at 2, handed at 2.
  rewrite !bind_singleton, Hr, Hs, Hh, !app_nil_r. split_and!; try done. by intros ->.
Qed.

Lemma unfinished_others c h others : owns c h -> unfinished h -> foreign c h others -> stream_ok (h ++ others) -> unfinished (h ++ others).
Proof.
  intros Ho Hu [Hf _] [Hex _]. apply Forall_app. split; [done|]. destruct Hf as [Hf|Hf]; [done|]. destruct Hex.
  assert (Ho' : owns c (h ++ others)) by (apply elem_of_app; by left). by destruct c.
Qed.

(** ** The programs *)

Notation R := stream_rely.
Notation G := stream_promises.

(** A call that leaves the chunks as they are. *)
Lemma runs_quiet {A} c k h (Q : list event -> result A -> Prop) : G false h c -> (forall r, quiet (Event c r)) ->
  (forall h' r, calm h h' -> runs (R false) (G false) (k r) h' Q) -> runs (R false) (G false) (Call c k) h Q.
Proof.
  intros Hg Hq Hk. split; [done|]. intros others r (Hf & _ & _). apply Hk. etrans; [by apply foreign_calm|by apply quiet_calm].
Qed.

Lemma take_quiet b r : quiet (Event (TakeWriter b) r).
Proof. by destruct r. Qed.

(** After [TakeWriter] the caller owns a writer that is not finished, or it was taken. *)
Lemma took b h others r : R b h others (TakeWriter b) r ->
  let h' := (h ++ others) ++ [Event (TakeWriter b) r] in
  taken h' = true /\ match r with Ok (Some w') => w' = w /\ owns b h' /\ unfinished h' /\ taken (h ++ others) = false | Ok None => True | Err _ => False end.
Proof.
  intros (_ & [_ Hu] & Hr). cbn in Hr. subst r. cbv zeta. split; [rewrite taken_app; cbn; by rewrite orb_true_r|].
  unfold cell. destruct (taken (h ++ others)) eqn:Ht; [done|]. split_and!; [done|apply event_last| |done].
  apply Forall_app. split; [by apply Hu|by apply Forall_singleton].
Qed.

Lemma abort_runs b h : owns b h -> unfinished h -> taken h = true ->
  runs (R b) (G b) (reported (await (AbortWrite w))) h (fun h' r => r = Ok tt /\ taken h' = true /\ (b = false -> calm h h')).
Proof.
  intros Ho Hu Ht. split; [done|]. intros others r (Hf & _ & _).
  assert (Hc : b = false -> calm h ((h ++ others) ++ [Event (AbortWrite w) r])).
  { intros ->. etrans; [by apply foreign_calm|apply quiet_calm; by destruct r]. }
  assert (Ht' : taken ((h ++ others) ++ [Event (AbortWrite w) r]) = true) by by rewrite !taken_app, Ht.
  by destruct r as [[]|e].
Qed.

Lemma abandon_runs b h : runs (R b) (G b) (abandon b) h (fun h' r => r = Ok tt /\ taken h' = true /\ (b = false -> calm h h')).
Proof.
  unfold abandon. split; [done|]. intros others r Hr. destruct (took _ _ _ _ Hr) as [Ht Hw].
  assert (Hc : b = false -> calm h ((h ++ others) ++ [Event (TakeWriter b) r])) by (intros ->; etrans; [apply foreign_calm, Hr|apply quiet_calm, take_quiet]).
  destruct r as [[w'|]|e]; [|by split_and!|done]. destruct Hw as (-> & Ho & Hu & _). eapply runs_mono; [|by apply abort_runs].
  intros h' r Hh (Hr' & Ht' & Hc'). split_and!; [done..|]. intros Hb. etrans; [by apply Hc|by apply Hc'].
Qed.

Lemma commit_runs h : owns false h -> unfinished h -> taken h = true -> ended h -> stored h = reads h ->
  runs (R false) (G false) (commit_or_abort w) h (fun h' _ => calm h h').
Proof.
  intros Ho Hu Ht He Hs. split; [done|]. intros others r (Hf & Hok & _).
  assert (Hc : calm h ((h ++ others) ++ [Event (CommitWrite w) r])) by (etrans; [by apply foreign_calm|apply quiet_calm; by destruct r]).
  destruct r as [[]|e]; [done|]. eapply runs_mono; [|apply abort_runs].
  - intros h' r _ (_ & _ & Hc'). etrans; [exact Hc|by apply Hc'].
  - unfold owns. rewrite <- app_assoc. apply elem_of_app. by left.
  - apply Forall_app. split; [by eapply unfinished_others|by apply Forall_singleton].
  - by rewrite !taken_app, Ht.
Qed.

Lemma calms_then {A B} (m : prog A) (k : A -> prog B) : calms m -> (forall a, calms (k a)) -> calms (and_then m k).
Proof.
  intros Hm Hk h. apply runs_and_then. eapply runs_mono; [|apply Hm]. intros h' [a|e] _ Hc; [|done].
  eapply runs_mono; [|apply Hk]. intros h'' r _ Hc'. by etrans.
Qed.

Lemma calms_call c : (forall h, G false h c) -> (forall r, quiet (Event c r)) -> calms (await c).
Proof. intros Hg Hq h. apply runs_quiet; [done|done|]. intros h' r Hc. by apply runs_done. Qed.

Lemma calms_abandon : calms (abandon false).
Proof. intros h. eapply runs_mono; [|apply abandon_runs]. intros h' r _ (_ & _ & Hc). by apply Hc. Qed.

Lemma pull_end_runs h : in_step h -> ended h -> runs (R false) (G false) pull_end h (fun h' _ => calm h h').
Proof.
  intros Hi He. unfold pull_end.
  assert (Hrest : calms (await ReleaseSource ;; await CloseStream)) by (apply calms_then; [|intros _]; apply calms_call; done).
  split; [done|]. intros others r Hr. destruct (took _ _ _ _ Hr) as [Ht Hw].
  assert (Hc : calm h ((h ++ others) ++ [Event (TakeWriter false) r])) by (etrans; [apply foreign_calm, Hr|apply quiet_calm, take_quiet]).
  destruct r as [[w'|]|e]; [|eapply runs_mono; [|apply Hrest]; intros h' r _ Hc'; by etrans|done].
  destruct Hw as (-> & Ho & Hu & Hun). apply runs_and_then. eapply runs_mono; [|apply commit_runs].
  - intros h' [[]|e] _ Hc'; [|by etrans]. eapply runs_mono; [|apply Hrest]. intros h'' r _ Hc''. by do 2 (etrans; [done|]).
  - done.
  - done.
  - done.
  - unfold ended. rewrite <- app_assoc. apply elem_of_app. by left.
  - destruct Hr as [Hf _]. destruct (in_step_calm _ _ (foreign_calm _ _ Hf) Hi) as [_ Hs]. specialize (Hs Hun).
    destruct (quiet_calm (h ++ others) (Event (TakeWriter false) (Ok (Some w))) (take_quiet _ _)) as (Hq1 & Hq2 & _).
    exact (eq_trans Hq2 (eq_trans Hs (eq_sym Hq1))).
Qed.

Lemma holds_calm chunk h h' : calm h h' -> holds chunk h -> holds chunk h'.
Proof.
  intros (Hr & Hs & Hh & Ht) [H1 H2]. split; [congruence|]. intros Hf. rewrite Hs, Hr. apply H2. destruct (taken h); [|done]. by rewrite Ht in Hf.
Qed.
Lemma to_hand_calm chunk h h' : calm h h' -> to_hand chunk h -> to_hand chunk h'.
Proof.
  intros (Hr & Hs & Hh & Ht) [H1 H2]. split; [congruence|]. intros Hf. rewrite Hs, Hr. apply H2. destruct (taken h); [|done]. by rewrite Ht in Hf.
Qed.

Lemma enqueue_runs chunk h : to_hand chunk h -> runs (R false) (G false) (await (Enqueue chunk)) h (fun h' _ => in_step h').
Proof.
  intros Hh. split; [split; [done|apply Hh]|]. intros others r (Hf & _ & _). apply runs_done.
  destruct (to_hand_calm _ _ _ (foreign_calm _ _ Hf) Hh) as [H1 H2]. unfold in_step. rewrite reads_app, stored_app, handed_app, taken_app.
  cbn. rewrite !app_nil_r, orb_false_r. by split.
Qed.

Lemma write_runs chunk h : holds chunk h ->
  runs (R false) (G false) (try_catch (await (WriteChunk w chunk)) (fun _ => abandon false)) h (fun h' r => r = Ok tt /\ to_hand chunk h').
Proof.
  intros Hh. split; [done|]. intros others r (Hf & _ & _). pose proof (holds_calm _ _ _ (foreign_calm _ _ Hf) Hh) as Hh1.
  destruct r as [[]|e]; cbn [outcome done_with].
  - split; [done|]. destruct Hh1 as [H1 H2]. unfold to_hand. rewrite reads_app, stored_app, handed_app, taken_app. cbn. rewrite !app_nil_r, orb_false_r. by split.
  - eapply runs_mono; [|apply abandon_runs]. intros h' r _ (-> & Ht & Hc). split; [done|]. split; [|congruence].
    assert (Hq : holds chunk h'); [|apply Hq]. eapply holds_calm; [by apply Hc|]. eapply holds_calm; [by apply quiet_calm|done].
Qed.

Lemma pull_chunk_runs chunk h : holds chunk h -> runs (R false) (G false) (pull_chunk chunk) h (fun h' _ => in_step h').
Proof.
  intros Hh. unfold pull_chunk. split; [done|]. intros others r (Hf & _ & Hr). cbn in Hr. subst r.
  assert (Hc : calm h ((h ++ others) ++ [Event PeekWriter (Ok (cell (h ++ others)))])) by (etrans; [by apply foreign_calm|by apply quiet_calm]).
  set (h1 := (h ++ others) ++ _) in *. pose proof (holds_calm _ _ _ Hc Hh) as Hh1. unfold cell. destruct (taken (h ++ others)) eqn:Ht; cbn [done_with outcome].
  - apply enqueue_runs. split; [apply Hh1|]. unfold h1. rewrite taken_app, Ht. done.
  - apply runs_and_then. eapply runs_mono; [|by apply write_runs]. intros h' r _ [-> Hto]. by apply enqueue_runs.
Qed.

Lemma pull_runs h : in_step h -> runs (R false) (G false) (pull source) h (fun h' _ => in_step h').
Proof.
  intros Hi. unfold pull. apply runs_try.
  assert (Hcatch : calms (abandon false ;; await ReleaseSource ;; await ErrorStream)).
  { apply calms_then; [apply calms_abandon|intros _]. apply calms_then; [|intros _]; by apply calms_call. }
  eapply runs_mono with (Q := fun h' _ => in_step h').
  { intros h' [[]|e] _ Hi'; [done|]. eapply runs_mono; [|apply Hcatch]. intros h'' r _ Hc. exact (in_step_calm _ _ Hc Hi'). }
  split; [done|]. intros others r (Hf & _ & _). pose proof (in_step_calm _ _ (foreign_calm _ _ Hf) Hi) as Hi1.
  destruct r as [[chunk|]|e]; cbn [outcome done_with].
  - apply pull_chunk_runs. destruct Hi1 as [H1 H2]. unfold holds. rewrite reads_app, stored_app, handed_app, taken_app. cbn.
    rewrite !app_nil_r, orb_false_r, H1. split; [done|]. intros Ht. by rewrite (H2 Ht).
  - set (h1 := _ ++ [_]). assert (Hi2 : in_step h1) by (eapply in_step_calm; [by apply quiet_calm|done]).
    eapply runs_mono; [|apply pull_end_runs; [exact Hi2|apply event_last]]. intros h' r _ Hc. exact (in_step_calm _ _ Hc Hi2).
  - eapply in_step_calm; [by apply quiet_calm|done].
Qed.

Lemma pulls_runs n : forall h, in_step h -> runs (R false) (G false) (pulls source n) h (fun h' _ => in_step h').
Proof.
  induction n as [|n IH]; intros h Hi; [done|]. cbn [pulls]. apply runs_and_then. eapply runs_mono; [|by apply pull_runs].
  intros h' [[]|e] _ Hi'; [by apply IH|done].
Qed.

Lemma cancel_runs h : runs (R true) (G true) (cancel source) h (fun _ _ => True).
Proof.
  unfold cancel. apply runs_and_then. eapply runs_mono; [|apply abandon_runs]. intros h' r _ (-> & _ & _).
  split; [done|]. intros others r _. apply runs_outcome, runs_done. cbn. split; [done|]. intros others' r' _. by destruct r', r.
Qed.

(** ** The stream *)

Lemma owns_app b h h' : owns b h -> owns b (h ++ h').
Proof. intros Ho. apply elem_of_app. by left. Qed.

Lemma owns_taken b h : owns b h -> taken h = true.
Proof. intros Ho. apply existsb_exists. eexists. split; [by apply list_elem_of_In|done]. Qed.

Lemma promises_stable b h others c : stream_promises b h c -> foreign b h others -> stream_ok (h ++ others) -> stream_promises b (h ++ others) c.
Proof.
  intros Hp Hf Hok. destruct c; try done.
  - destruct Hp as (-> & Hw & Ho & Hu & He & Hs). destruct (proj2 Hf eq_refl) as (Hr & Hst & _).
    cbn. rewrite reads_app, stored_app, Hr, Hst, !app_nil_r. split_and!; [done|done|by apply owns_app|by eapply unfinished_others| |done].
    apply elem_of_app. by left.
  - destruct Hp as (Hw & Ho & Hu). split_and!; [done|by apply owns_app|by eapply unfinished_others].
  - destruct Hp as (-> & Hh). destruct (proj2 Hf eq_refl) as (Hr & _ & Hhd). cbn. by rewrite reads_app, handed_app, Hr, Hhd, !app_nil_r.
Qed.

Lemma stream_runs_next b h m c : stream_runs b h m -> stream_ok h -> calls_next m = Some c -> stream_promises b h c.
Proof.
  intros (h0 & others & -> & Hf & Hr) Hok Hc. destruct m as [| |c' k]; try done. injection Hc as <-. eapply promises_stable; [apply Hr|done|done].
Qed.

(** Only the owner of the writer finishes it. *)
Lemma final_owner b h ev : stream_promises b h (ev_call ev) -> final ev = true -> owns b h.
Proof. destruct ev as [c r]. destruct c; cbn; try done; [intros (_ & _ & Ho & _)|intros (_ & Ho & _)]; done. Qed.

Lemma step_ok b h ev : stream_ok h -> stream_promises b h (ev_call ev) -> cell_contract h (ev_call ev) (ev_answer ev) -> stream_ok (h ++ [ev]).
Proof.
  intros [Hex Hun] Hp Hc. split.
  - assert (Hnew : forall b', owns b' (h ++ [ev]) -> ~ owns b' h -> ev = Event (TakeWriter b') (Ok (Some w)) /\ taken h = false).
    { intros b' [Ho| <-%list_elem_of_singleton]%elem_of_app Hno; [done|]. split; [done|]. cbn in Hc. unfold cell in Hc. by destruct (taken h). }
    intros [H1 H2]. destruct (taken h) eqn:Ht.
    + assert (Hold : forall b', owns b' (h ++ [ev]) -> owns b' h).
      { intros b' [Ho| <-%list_elem_of_singleton]%elem_of_app; [done|]. cbn in Hc. unfold cell in Hc. by rewrite Ht in Hc. }
      apply Hex. by split; apply Hold.
    + destruct (Hnew false H1) as [-> _]; [by intros ?%owns_taken; congruence|].
      destruct (Hnew true H2) as [[=] _]. by intros ?%owns_taken; congruence.
  - rewrite taken_app. intros [Ht _]%orb_false_iff. apply Forall_app. split; [by apply Hun|]. apply Forall_singleton.
    destruct (final ev) eqn:Hf; [|done]. apply (final_owner _ _ _ Hp) in Hf as ?%owns_taken. congruence.
Qed.

(** A step of one is an event among others for the other. *)
Lemma step_foreign b h0 others ev : foreign (negb b) h0 others -> stream_promises b (h0 ++ others) (ev_call ev) -> foreign (negb b) h0 (others ++ [ev]).
Proof.
  intros [Hf Hq] Hp. split.
  - rewrite negb_involutive in *. rewrite app_assoc. destruct Hf as [Hf|Hf]; [|right; by apply owns_app].
    destruct (final ev) eqn:He; [right; apply owns_app; by eapply final_owner|left]. apply Forall_app. split; [done|by apply Forall_singleton].
  - intros Hb. destruct (Hq Hb) as (Hr & Hs & Hh). rewrite reads_app, stored_app, handed_app, Hr, Hs, Hh. destruct b; [|done].
    destruct ev as [c r]. destruct c; cbn in Hp; try done; by destruct Hp.
Qed.

Lemma runs_step b h m ev m' : stream_runs b h m -> stream_ok h -> call_step m ev m' -> cell_contract h (ev_call ev) (ev_answer ev) ->
  stream_promises b h (ev_call ev) /\ stream_runs b (h ++ [ev]) m'.
Proof.
  intros Hr Hok Hs Hc. destruct Hs as [c k r]. split; [by eapply stream_runs_next|]. destruct Hr as (h0 & others & -> & Hf & [_ Hr]).
  exists ((h0 ++ others) ++ [Event c r]), []. rewrite app_nil_r. split_and!; [done| |by apply Hr].
  split; [left; constructor|done].
Qed.

Lemma foreign_step b h m ev : stream_runs (negb b) h m -> stream_promises b h (ev_call ev) -> stream_runs (negb b) (h ++ [ev]) m.
Proof.
  intros (h0 & others & -> & Hf & Hr) Hp. exists h0, (others ++ [ev]). split_and!; [by rewrite app_assoc|by apply step_foreign|done].
Qed.

Lemma stream_step_invariant st st' : stream_step st st' -> stream_invariant st -> stream_invariant st'.
Proof.
  intros [h p ev p' c Hs Hc|h p c ev c' Hs Hc] (Hok & Hp & Hcn); cbn in *.
  - destruct (runs_step _ _ _ _ _ Hp Hok Hs Hc) as [Hpr Hp']. split_and!; [by eapply step_ok|done|by apply (foreign_step false)].
  - destruct (runs_step _ _ _ _ _ Hcn Hok Hs Hc) as [Hpr Hc']. split_and!; [by eapply step_ok|by apply (foreign_step true)|done].
Qed.

Lemma stream_begins n : stream_invariant ([], pulls source n, cancel source).
Proof.
  split_and!; cbn.
  - split; [by intros [?%elem_of_nil _]|constructor].
  - exists [], []. split_and!; [done|split; [left; constructor|done]|]. eapply runs_mono; [|by apply pulls_runs]. by intros.
  - exists [], []. split_and!; [done|split; [left; constructor|done]|]. eapply runs_mono; [|by apply cancel_runs]. by intros.
Qed.

Lemma play_pulls_steps steps : forall h m c, rtc stream_step (h, m, c) (play_pulls steps h m, c).
Proof.
  induction steps as [|n IH]; intros h m c; [done|]. destruct m as [| |call k]; [done..|]. cbn [play_pulls].
  eapply rtc_l; [|apply IH]. apply step_pull; [constructor|by destruct call].
Qed.

End Stream.

(** C9: Whatever fails in the store, the network or the controller, and whenever the
    reader cancels: a body is committed only when the source has ended and every
    chunk read was written, by one commit after which there is no abort; a writer is
    aborted once at most and never after a commit; each chunk is handed on in the
    order read, also when the store has failed. *)
Theorem write_through_whole source w n h p c : rtc (stream_step w) ([], pulls source n, cancel source) (h, p, c) ->
  (forall call, calls_next p = Some call -> stream_promises source w false h call) /\
  (forall call, calls_next c = Some call -> stream_promises source w true h call) /\
  (calls_next p = None -> handed h = reads h).
Proof.
  intros Hr. assert (Hi : stream_invariant source w (h, p, c)).
  { pose proof (stream_begins source w n) as H0. revert H0. induction Hr as [x|x y z Hxy _ IH]; [done|].
    intros Hx. eapply IH, stream_step_invariant; [exact Hxy|exact Hx]. }
  destruct Hi as (Hok & Hp & Hc). split_and!; [intros call; by eapply stream_runs_next|intros call; by eapply stream_runs_next|].
  intros Hn. destruct Hp as (h0 & others & Hh & Hf & Hr'). cbn in Hh, Hr'. subst h. apply (in_step_calm _ _ (foreign_calm _ _ _ Hf)).
  by destruct p; [apply Hr'|apply Hr'|].
Qed.

Lemma write_through_whole_witness : exists h p, rtc (stream_step 7) ([], pulls (Opened 0) 2, cancel (Opened 0)) (h, p, cancel (Opened 0)) /\
  calls_next p = Some (CommitWrite 7) /\ stored h = [[65]] /\
  (forall call, calls_next p = Some call -> stream_promises (Opened 0) 7 false h call).
Proof.
  destruct (play_pulls 7 6 [] (pulls (Opened 0) 2)) as [h p] eqn:Hp. exists h, p.
  assert (Hr : rtc (stream_step 7) ([], pulls (Opened 0) 2, cancel (Opened 0)) (h, p, cancel (Opened 0))) by (rewrite <- Hp; apply play_pulls_steps).
  split; [exact Hr|]. split; [replace p with (h, p).2 by done; rewrite <- Hp; by vm_compute|].
  split; [replace h with (h, p).1 by done; rewrite <- Hp; by vm_compute|].
  exact (proj1 (write_through_whole (Opened 0) 7 2 h p (cancel (Opened 0)) Hr)).
Defined.
