(* ===== verification/CacheStoreContract.v ===== *)
(** * The store in memory keeps the contract of the cache

    [HttpCache] is proved over any store with [store_contract]; here the store of
    [cache/store.ts], with its writers, answers the calls of a history, and
    [memory_store_contract] shows that its answers are those of the contract. *)

From S2P Require Import Prelude FetchHeaders CacheStore HttpCachePolicy HttpCache HttpCacheTheory.
Local Open Scope Z_scope.

(** The store and the writers that it has created, by their numbers. *)
Definition memory : Type := MemoryHttpCacheStore * list MemoryHttpCacheWriter.

(** The answer of the store to a call of the cache; [None] for a call of others. *)
Definition memory_call (c : cache_call) (m : memory) : option (memory * result (answer c)) :=
  let '(s, writers) := m in
  match c return option (memory * result (answer c)) with
  | Find url => Some (m, Ok (find url s))
  | CreateWrite metadata =>
      match createWrite metadata s with
      | None => Some (m, Ok None)
      | Some writer => Some ((s, writers ++ [writer]), Ok (Some (length writers)))
      end
  | WriteChunk i chunk =>
      writer ← writers !! i;
      let '(writer, r) := writer_write s chunk writer in
      Some ((s, <[i := writer]> writers), r)
  | CommitWrite i =>
      writer ← writers !! i;
      let '(writer, r) := writer_commit writer s in
      match r with Ok s => Some ((s, <[i := writer]> writers), Ok tt) | Err e => Some ((s, <[i := writer]> writers), Err e) end
  | AbortWrite i => writer ← writers !! i; Some ((s, <[i := writer_abort writer]> writers), Ok tt)
  | ReplaceMetadata e metadata => let '(s, r) := replaceMetadata e metadata s in Some ((s, writers), Ok r)
  | Touch e => Some ((touch e s, writers), Ok tt)
  | Delete url => Some ((delete url s, writers), Ok tt)
  | _ => None
  end.

(** An entry that has the identity of a stored one is that object. *)
Definition same_object (m : memory) (c : cache_call) : Prop :=
  match c with ReplaceMetadata e _ => forall x, x ∈ s_entries m.1 -> e_id (me_entry x) = e_id e -> me_entry x = e | _ => True end.

(** A history whose calls of the store this one has answered. *)
Inductive memory_run (options : MemoryHttpCacheStoreOptions) : list event -> memory -> Prop :=
| memory_new s : new_store options = Ok s -> memory_run options [] (s, [])
| memory_answers h m c m' r : memory_run options h m -> same_object m c -> memory_call c m = Some (m', r) ->
    memory_run options (h ++ [Event c r]) m'
| memory_other h m c r : memory_run options h m -> memory_call c m = None -> memory_run options (h ++ [Event c r]) m.

(** Calls that the store answers in turn. *)
Fixpoint memory_calls (cs : list cache_call) (h : list event) (m : memory) : option (list event * memory) :=
  match cs with
  | [] => Some (h, m)
  | c :: cs => '(m', r) ← memory_call c m; memory_calls cs (h ++ [Event c r]) m'
  end.

(** All that the store holds, and all that its writers may add, was given to it. *)
Definition memory_ok (h : list event) (m : memory) : Prop :=
  Forall (fun e => e_metadata (me_entry e) ∈ written [] h) (s_entries m.1) /\ Forall (fun writer => w_metadata writer ∈ written [] h) m.2.

(** ** The invariant *)

Lemma written_more initial h ev m : m ∈ written initial h -> m ∈ written initial (h ++ [ev]).
Proof. apply written_prefix. by eexists. Qed.

Lemma memory_ok_more h ev m : memory_ok h m -> memory_ok (h ++ [ev]) m.
Proof. intros [He Hw]. split; (eapply Forall_impl; [eassumption|]); intros x; apply written_more. Qed.

Lemma evict_loop_subset n : forall s s', evict_loop n s = Ok s' -> s_entries s' ⊆ s_entries s.
Proof.
  induction n as [|n IH]; intros s s'; cbn [evict_loop]; (destruct (over_limit s); [|by intros [= <-]]); [done|].
  intros Hs%IH. etrans; [exact Hs|]. cbn. intros x Hx. exact (elem_of_sublist _ _ _ Hx (sublist_delete _ _)).
Qed.

Lemma commit_entries metadata body s s' : commit metadata body s = Ok s' ->
  forall e, e ∈ s_entries s' -> e ∈ s_entries s \/ e_metadata (me_entry e) = metadata.
Proof.
  intros Hc e He. apply (evict_loop_subset _ _ _ Hc) in He. cbn in He. apply elem_of_app in He as [He| ->%list_elem_of_singleton]; [left|by right].
  by apply list_elem_of_filter in He as [_ He].
Qed.

Lemma writer_known h (ws : list MemoryHttpCacheWriter) i w :
  Forall (fun writer => w_metadata writer ∈ written [] h) ws -> ws !! i = Some w -> w_metadata w ∈ written [] h.
Proof. intros Hw Hl. by eapply Forall_lookup_1 in Hw. Qed.

(** Every answer keeps the invariant, and is one of the contract. *)
Lemma memory_call_ok h m c m' r : memory_ok h m -> same_object m c -> memory_call c m = Some (m', r) ->
  store_contract [] h c r /\ memory_ok (h ++ [Event c r]) m'.
Proof.
  destruct m as [s ws]. intros [He Hw] Hobj Hc. assert (Hok : memory_ok (h ++ [Event c r]) (s, ws)) by by apply memory_ok_more.
  destruct Hok as [He' Hw']; cbn in He', Hw'. destruct c; cbn in Hc; try done.
  - injection Hc as <- <-. split; [|by split]. intros entries e [= <-] Hin. unfold find in Hin.
    apply list_elem_of_fmap in Hin as (x & -> & [Hu%str_eqb_true Hx]%list_elem_of_filter). split; [done|]. by eapply Forall_forall in He.
  - unfold createWrite in Hc. destruct (_ || _); injection Hc as <- <-; (split; [done|]); [by split|]. split; [done|]. cbn.
    apply Forall_app. split; [done|]. apply Forall_singleton. cbn. unfold written. rewrite bind_app. set_solver.
  - destruct (ws !! writer) as [w|] eqn:Hl; [|done]. cbn in Hc. pose proof (writer_known _ _ _ _ Hw' Hl) as Hm.
    unfold writer_commit in Hc. destruct (w_finished w); [injection Hc as <- <-; split; [done|split; [done|by apply Forall_insert]]|].
    destruct (commit _ _ _) as [s'|e] eqn:Hcm; injection Hc as <- <-; (split; [done|split; [|by apply Forall_insert]]); [|done].
    apply Forall_forall. intros x Hx. destruct (commit_entries _ _ _ _ Hcm _ Hx) as [Hx'| ->]; [by eapply Forall_forall in He'|done].
  - destruct (ws !! writer) as [w|] eqn:Hl; [|done]. injection Hc as <- <-. split; [done|]. split; [done|]. apply Forall_insert; [done|].
    pose proof (writer_known _ _ _ _ Hw' Hl). unfold writer_abort. by destruct (w_finished w).
  - unfold replaceMetadata in Hc. destruct (split_entry _ _) as [[[b f] a]|] eqn:Hs; injection Hc as <- <-; [|by split].
    apply split_entry_spec in Hs as [Hs Hid]. split; [|split; [|done]].
    + intros e' [= <-]. split; [done|]. cbn. cbn in Hobj. rewrite (Hobj f); [done| |done]. rewrite Hs. set_solver.
    + rewrite Hs in He'. apply Forall_app in He' as [H1 [_ H2]%Forall_cons]. cbn. rewrite Forall_app, Forall_cons. split_and!; [done| |done].
      cbn. unfold written. rewrite bind_app. set_solver.
  - injection Hc as <- <-. split; [done|]. split; [|done]. unfold touch. destruct (split_entry _ _) as [[[b f] a]|] eqn:Hs; [|done].
    apply split_entry_spec in Hs as [Hs _]. rewrite Hs in He'. apply Forall_app in He' as [H1 [H3 H2]%Forall_cons]. cbn. by rewrite Forall_app, Forall_cons.
  - injection Hc as <- <-. split; [done|]. split; [|done]. apply Forall_forall. intros x [_ Hx]%list_elem_of_filter. by eapply Forall_forall in He'.
  - destruct (ws !! writer) as [w|] eqn:Hl; [|done]. cbn in Hc. pose proof (writer_known _ _ _ _ Hw' Hl) as Hm.
    unfold writer_write in Hc. split; [done|]. destruct (w_finished w); [|destruct (_ <? _)]; injection Hc as <- <-; (split; [done|by apply Forall_insert]).
Qed.

Lemma memory_run_ok options h m : memory_run options h m -> memory_ok h m.
Proof.
  induction 1 as [s Hn|h m c m' r _ IH Hobj Hc|h m c r _ IH _].
  - unfold new_store in Hn. do 3 (ok_inv Hn). injection Hn as <-. split; constructor.
  - by apply (memory_call_ok _ _ _ _ _ IH Hobj Hc).
  - by apply memory_ok_more.
Qed.

(** C28: A store in memory, created empty, answers every call of the cache as
    [store_contract] says, whatever the history: [find] gives entries of the URL whose
    metadata it was given, [replaceMetadata] an entry with the new metadata and the
    body of the old one. *)
Theorem memory_store_contract options h m c m' r : memory_run options h m -> same_object m c -> memory_call c m = Some (m', r) ->
  store_contract [] h c r.
Proof. intros Hm Hobj Hc. by apply (memory_call_ok h m c m' r); [eapply memory_run_ok|..]. Qed.

Lemma memory_calls_run options cs : Forall (fun c => match c with ReplaceMetadata _ _ => False | _ => True end) cs ->
  forall h m h' m', memory_run options h m -> memory_calls cs h m = Some (h', m') -> memory_run options h' m'.
Proof.
  induction 1 as [|c cs Hc _ IH]; intros h m h' m' Hm; cbn [memory_calls]; [by intros [= <- <-]|].
  destruct (memory_call c m) as [[m1 r]|] eqn:Hcall; [|done]. apply IH. eapply memory_answers; [exact Hm|by destruct c|exact Hcall].
Qed.

Lemma memory_store_contract_witness :
  let url := u "/a" in
  exists h m e, memory_run (mk_store_options None None None) h m /\ memory_call (Find url) m = Some (m, Ok [e]) /\
    e_body e = Some (mk_body 2 [[1; 2]]) /\ store_contract [] h (Find url) (Ok [e]).
Proof.
  intros url.
  destruct (memory_calls [CreateWrite (sample_metadata url); WriteChunk 0 [1; 2]; CommitWrite 0] [] (mk_store 5242880 1024 104857600 [] 0 0 0, []))
    as [[h m]|] eqn:Hcalls; [|exfalso; revert Hcalls; by vm_compute].
  assert (Hrun : memory_run (mk_store_options None None None) h m).
  { eapply memory_calls_run; [|apply memory_new|exact Hcalls]; [by repeat constructor|by vm_compute]. }
  assert (Hfind : exists e, memory_call (Find url) m = Some (m, Ok [e]) /\ e_body e = Some (mk_body 2 [[1; 2]])).
  { revert Hcalls. vm_compute. intros [= <- <-]. by eexists. }
  destruct Hfind as (e & Hf & He). exists h, m, e. split_and!; [exact Hrun|exact Hf|exact He|].
  exact (memory_store_contract _ h m (Find url) m (Ok [e]) Hrun I Hf).
Defined.
