(* ===== verification/Der.v ===== *)
(** * DER elements ([crypto/der.ts])

    The reader of DER elements, a cursor in an array with an end: here the bytes
    from the cursor to the end. *)

From S2P Require Import Prelude.
Local Open Scope Z_scope.

Definition invalidDer : js_error := DOMException "The key is not a valid DER encoding" "DataError".

(** ** [DerReader] *)

Abbreviation DerReader := (list Z) (only parsing).

Definition done_ (reader : DerReader) : bool := bool_decide (reader = []).
Definition complete (reader : DerReader) : result unit := throw_if (negb (done_ reader)) invalidDer.
Definition peek (reader : DerReader) : result Z := match reader with [] => Err invalidDer | byte :: _ => Ok byte end.

(** [for (let index = 0; index < count; index++)]; the check before it leaves
    enough bytes. *)
Fixpoint length_loop (count : nat) (bytes : list Z) (length : Z) : Z * list Z :=
  match count, bytes with
  | S count, byte :: bytes => length_loop count bytes (length * 256 + byte)
  | _, _ => (length, bytes)
  end.

(** The length and what follows it. *)
Definition read_length (reader : DerReader) : result (Z * DerReader) :=
  match reader with
  | [] => Err invalidDer
  | first :: rest =>
      if 0x80 <=? first then
        let count := first .& 0x7f in
        throw_if ((count =? 0) || (6 <? count) || (len rest <? count) || bool_decide (head rest = Some 0)) invalidDer ;;
        let '(length, rest) := length_loop (Z.to_nat count) rest 0 in
        throw_if (length <? 0x80) invalidDer ;;
        Ok (length, rest)
      else Ok (first, rest)
  end.

(** The reader of the content, and the reader behind it. *)
Definition readContent (reader : DerReader) : result (DerReader * DerReader) :=
  '(length, rest) ← read_length reader;
  throw_if (len rest <? length) invalidDer ;;
  Ok (subarray rest 0 length, drop (Z.to_nat length) rest).

Definition read (tag : Z) (reader : DerReader) : result (DerReader * DerReader) :=
  match reader with
  | [] => Err invalidDer
  | byte :: rest => throw_if (negb (byte =? tag)) invalidDer ;; readContent rest
  end.

Definition integer (allowZero : bool) (reader : DerReader) : result (list Z * DerReader) :=
  '(value, rest) ← read 0x02 reader;
  match value with
  | [] => Err invalidDer
  | first :: more =>
      throw_if (negb (first .& 0x80 =? 0)) invalidDer ;;
      throw_if ((1 <? len value) && (first =? 0) && (at_or 0 more 0 .& 0x80 =? 0)) invalidDer ;;
      throw_if (negb allowZero && (len value =? 1) && (first =? 0)) invalidDer ;;
      Ok (if (1 <? len value) && (first =? 0) then more else value, rest)
  end.

(** ** Specification *)

(** The digits of a number in base 256, the first of them not zero. *)
Fixpoint digits256 (count : nat) (n : Z) : list Z :=
  match count with
  | O => []
  | S count => if n =? 0 then [] else digits256 count (n / 256) ++ [n mod 256]
  end.

(** The length of X.690: one byte, or the number of its digits and these. *)
Definition der_length (n : Z) : list Z := if n <? 0x80 then [n] else let digits := digits256 6 n in 0x80 + len digits :: digits.
Definition tlv (tag : Z) (content : list Z) : list Z := tag :: der_length (len content) ++ content.

(** The digits of a natural number, and the content of the INTEGER. *)
Definition natural_ok (allowZero : bool) (v : list Z) : Prop :=
  (v = [0] /\ allowZero = true) \/ exists first more, v = first :: more /\ 0 < first.
Definition integer_content (v : list Z) : list Z := match v with first :: _ => if first <? 0x80 then v else 0 :: v | [] => [] end.
Definition der_integer (v : list Z) : list Z := tlv 0x02 (integer_content v).

Definition value256 (digits : list Z) : Z := foldl (fun n b => n * 256 + b) 0 digits.

(** ** Lengths *)

Lemma value256_snoc digits b : value256 (digits ++ [b]) = value256 digits * 256 + b.
Proof. unfold value256. by rewrite foldl_app. Qed.

Lemma value256_nonneg digits : is_bytes digits -> 0 <= value256 digits.
Proof.
  induction digits as [|b digits IH] using rev_ind; intros Hb; [done|]. apply Forall_app in Hb as [Hd Hb]. apply Forall_cons in Hb as [Hb _].
  rewrite value256_snoc. unfold is_byte in Hb. specialize (IH Hd). lia.
Qed.

Lemma value256_pos first digits : is_bytes (first :: digits) -> 0 < first -> 0 < value256 (first :: digits).
Proof.
  intros Hb Hf. induction digits as [|b digits IH] using rev_ind; [unfold value256; cbn; lia|]. rewrite app_comm_cons in *.
  apply Forall_app in Hb as [Hd Hb]. apply Forall_cons in Hb as [Hb _]. rewrite value256_snoc. unfold is_byte in Hb. specialize (IH Hd). lia.
Qed.

(** Digits without a leading zero are determined by their number. *)
Lemma digits256_value digits : forall count, is_bytes digits -> head digits <> Some 0 -> (length digits <= count)%nat ->
  digits256 count (value256 digits) = digits.
Proof.
  induction digits as [|b digits IH] using rev_ind; intros count Hb Hh Hc; [by destruct count|].
  assert (Hpos : 0 < value256 (digits ++ [b])).
  { destruct (digits ++ [b]) as [|first more] eqn:E; [by destruct digits|]. apply value256_pos; [done|]. apply Forall_cons in Hb as [[Hf _] _].
    destruct (decide (first = 0)) as [->|]; [done|lia]. }
  rewrite length_app in Hc. cbn [length] in Hc. destruct count as [|count]; [lia|]. cbn [digits256]. destruct (Z.eqb_spec (value256 (digits ++ [b])) 0); [lia|].
  apply Forall_app in Hb as [Hd Hb]. apply Forall_cons in Hb as [Hb _]. unfold is_byte in Hb. rewrite value256_snoc, Z.div_add_l, Z.div_small, Z.add_0_r by lia.
  rewrite IH; [|done| |lia]. 2: { intros Hz. apply Hh. by destruct digits. }
  f_equal. f_equal. rewrite Z.add_comm, Z_mod_plus_full. by apply Z.mod_small.
Qed.

Lemma digits256_spec count : forall n, 0 <= n < 256 ^ Z.of_nat count ->
  value256 (digits256 count n) = n /\ is_bytes (digits256 count n) /\ head (digits256 count n) <> Some 0 /\ (length (digits256 count n) <= count)%nat.
Proof.
  induction count as [|count IH]; intros n Hn; [cbn in *; split_and!; [unfold value256; cbn; lia|constructor|done|lia]|]. cbn [digits256].
  destruct (Z.eqb_spec n 0) as [->|Hne]; [by split_and!; [|constructor| |cbn; lia]|].
  destruct (IH (n / 256)) as (Hv & Hb & Hh & Hl).
  { rewrite Nat2Z.inj_succ, Z.pow_succ_r in Hn by lia. split; [apply Z.div_pos; lia|apply Z.div_lt_upper_bound; lia]. }
  split_and!.
  - rewrite value256_snoc, Hv. pose proof (Z.div_mod n 256). lia.
  - apply Forall_app. split; [done|]. constructor; [|constructor]. unfold is_byte. pose proof (Z.mod_pos_bound n 256). lia.
  - destruct (digits256 count (n / 256)) as [|d ds] eqn:E; [|done]. cbn. intros [= H0]. unfold value256 in Hv. cbn in Hv.
    pose proof (Z.div_mod n 256). lia.
  - rewrite length_app. cbn. lia.
Qed.

Lemma value256_bound digits : is_bytes digits -> value256 digits < 256 ^ len digits.
Proof.
  induction digits as [|b digits IH] using rev_ind; intros Hb; [done|]. apply Forall_app in Hb as [Hd Hb]. apply Forall_cons in Hb as [Hb _].
  rewrite value256_snoc, len_app. change (len [b]) with 1. rewrite Z.pow_add_r, Z.pow_1_r by (pose proof (len_nonneg digits); lia).
  unfold is_byte in Hb. specialize (IH Hd). lia.
Qed.

(** What a view of an array can hold, well within the lengths that are read. *)
Definition input (bytes : list Z) : Prop := is_bytes bytes /\ len bytes < 256 ^ 6.

#[export] Instance input_dec bytes : Decision (input bytes).
Proof. unfold input, is_byte. apply _. Defined.

Lemma input_app a b : input (a ++ b) -> input a /\ input b.
Proof. intros [[Ha Hb]%Forall_app Hl]. rewrite len_app in Hl. pose proof (len_nonneg a). pose proof (len_nonneg b). unfold input. split; split; done || lia. Qed.

Lemma input_cons c r : input (c :: r) -> is_byte c /\ input r.
Proof. intros [[Hc Hr]%Forall_cons Hl]. rewrite len_cons in Hl. pose proof (len_nonneg r). split; [done|]. split; [done|lia]. Qed.

Lemma input_tlv tag c r : input (tlv tag c ++ r) -> input c /\ input r.
Proof.
  change (tlv tag c ++ r) with (tag :: (der_length (len c) ++ c) ++ r). intros [_ H]%input_cons. rewrite <- app_assoc in H. apply input_app in H as [_ H]. by apply input_app.
Qed.

Lemma length_loop_spec digits : forall rest n, length_loop (length digits) (digits ++ rest) n = (foldl (fun n b => n * 256 + b) n digits, rest).
Proof. induction digits as [|b digits IH]; intros rest n; [by destruct rest|]. cbn [length app length_loop foldl]. apply IH. Qed.

(** The low bits of the first byte of a long length. *)
Lemma low_bits b : is_byte b -> (b .& 0x80 = 0 <-> b < 0x80) /\ (0x80 <= b -> b .& 0x7f = b - 0x80).
Proof.
  intros Hb. pose proof (byte_check (fun b => Bool.eqb (b .& 0x80 =? 0) (b <? 0x80) && ((b <? 0x80) || (b .& 0x7f =? b - 0x80))) ltac:(by vm_compute) b Hb) as H.
  cbv beta in H. rewrite andb_true_iff, eqb_true_iff, orb_true_iff in H. lia.
Qed.

Lemma read_length_spec r n r' : is_bytes r -> read_length r = Ok (n, r') <-> r = der_length n ++ r' /\ 0 <= n < 256 ^ 6.
Proof.
  intros Hr. split.
  - destruct r as [|first rest]; [done|]. apply Forall_cons in Hr as [Hf Hr]. pose proof Hf as Hb. unfold is_byte in Hb. cbn [read_length].
    destruct (Z.leb_spec 0x80 first) as [Hlong|Hshort].
    + destruct (low_bits first Hf) as [_ Hcount]. rewrite (Hcount Hlong). set (count := first - 0x80).
      destruct (_ || _ || _ || _) eqn:Hg; [done|]. rewrite !orb_false_iff in Hg. destruct Hg as [[[H0 H6] Hlen] Hhead%bool_decide_eq_false].
      cbn [throw_if mbind result_bind]. rewrite <- (take_drop (Z.to_nat count) rest) at 1. set (digits := take (Z.to_nat count) rest).
      assert (Hl : length digits = Z.to_nat count) by (unfold digits; rewrite length_take; unfold len in Hlen; lia).
      rewrite <- Hl at 1. rewrite length_loop_spec. fold (value256 digits). destruct (Z.ltb_spec (value256 digits) 0x80) as [|Hv]; [done|].
      cbn [throw_if mbind result_bind]. intros [= <- <-]. assert (Hd : is_bytes digits) by by apply Forall_take.
      assert (Hh : head digits <> Some 0).
      { unfold digits. intros E. apply Hhead. destruct rest; [by rewrite take_nil in E|]. destruct (Z.to_nat count); [done|exact E]. }
      pose proof (value256_bound digits Hd) as Hbound. split.
      * unfold der_length. destruct (Z.ltb_spec (value256 digits) 0x80); [lia|]. rewrite digits256_value by (done || lia).
        replace (0x80 + len digits) with first by (unfold len; lia). cbn [app]. f_equal. unfold digits. by rewrite take_drop.
      * pose proof (value256_nonneg digits Hd). split; [lia|]. eapply Z.lt_le_trans; [exact Hbound|]. apply Z.pow_le_mono_r; unfold len; lia.
    + intros [= <- <-]. unfold der_length. destruct (Z.ltb_spec first 0x80); [|lia]. split; [done|lia].
  - intros [-> Hn]. unfold der_length. destruct (Z.ltb_spec n 0x80) as [Hs|Hlong].
    + cbn [app read_length]. by destruct (Z.leb_spec 0x80 n); [lia|].
    + destruct (digits256_spec 6 n Hn) as (Hv & Hb & Hh & Hl). set (digits := digits256 6 n) in *. cbn [app read_length].
      assert (Hpos : 1 <= len digits) by (destruct digits; [unfold value256 in Hv; cbn in Hv; lia|unfold len; cbn [length]; lia]).
      destruct (Z.leb_spec 0x80 (0x80 + len digits)); [|lia]. assert (Hfirst : is_byte (0x80 + len digits)) by (unfold is_byte, len in *; lia).
      rewrite (proj2 (low_bits _ Hfirst)) by lia. replace (0x80 + len digits - 0x80) with (len digits) by lia.
      destruct (Z.eqb_spec (len digits) 0), (Z.ltb_spec 6 (len digits)); try (unfold len in *; lia). rewrite len_app. pose proof (len_nonneg r').
      destruct (Z.ltb_spec (len digits + len r') (len digits)); [lia|]. rewrite bool_decide_eq_false_2 by (by destruct digits). cbn [orb throw_if mbind result_bind].
      unfold len at 1. rewrite Nat2Z.id, length_loop_spec. fold (value256 digits). rewrite Hv. by destruct (Z.ltb_spec n 0x80); [lia|].
Qed.

(** ** Elements *)

Lemma readContent_spec r c r' : input r -> readContent r = Ok (c, r') <-> r = der_length (len c) ++ c ++ r'.
Proof.
  intros [Hr Hin]. unfold readContent. split.
  - destruct (read_length r) as [[n rest]|e] eqn:E; [|done]. apply read_length_spec in E as [-> Hn]; [|done]. cbn [mbind result_bind].
    destruct (Z.ltb_spec (len rest) n) as [|Hle]; [done|]. cbn [throw_if mbind result_bind]. intros [= <- <-].
    assert (Hc : len (subarray rest 0 n) = n).
    { unfold subarray, len in *. rewrite Z.sub_0_r. change (Z.to_nat 0) with 0%nat. rewrite drop_0, length_take. lia. }
    rewrite Hc. f_equal. unfold subarray. rewrite Z.sub_0_r. change (Z.to_nat 0) with 0%nat. by rewrite drop_0, take_drop.
  - intros ->. assert (Hn : 0 <= len c < 256 ^ 6).
    { rewrite !len_app in Hin. pose proof (len_nonneg c). pose proof (len_nonneg r'). pose proof (len_nonneg (der_length (len c))). lia. }
    rewrite (proj2 (read_length_spec _ (len c) (c ++ r') Hr)) by done. cbn [mbind result_bind]. rewrite len_app. pose proof (len_nonneg r').
    destruct (Z.ltb_spec (len c + len r') (len c)); [lia|]. cbn [throw_if mbind result_bind]. unfold subarray, len. rewrite Z.sub_0_r, Nat2Z.id.
    change (Z.to_nat 0) with 0%nat. by rewrite drop_0, take_app_length, drop_app_length.
Qed.

Lemma read_spec tag r c r' : input r -> read tag r = Ok (c, r') <-> r = tlv tag c ++ r'.
Proof.
  intros Hr. destruct r as [|b r]; [by split|]. apply input_cons in Hr as [_ Hr]. cbn [read]. unfold tlv. cbn [app]. rewrite <- app_assoc.
  destruct (Z.eqb_spec b tag) as [->|Hne]; cbn [negb throw_if mbind result_bind].
  - rewrite readContent_spec by done. split; [by intros ->|by intros [= ->]].
  - split; [done|]. by intros [= ->].
Qed.

Lemma integer_spec allowZero r v r' : input r -> integer allowZero r = Ok (v, r') <-> r = der_integer v ++ r' /\ natural_ok allowZero v.
Proof.
  intros Hr. unfold integer, der_integer. split.
  - destruct (read 2 r) as [[value rest]|e] eqn:E; [|done]. apply read_spec in E as ->; [|done]. apply input_tlv in Hr as [[Hv _] _]. cbn [mbind result_bind].
    destruct value as [|first more]; [done|]. apply Forall_cons in Hv as [Hf Hm]. destruct (low_bits first Hf) as [Hsign _]. unfold is_byte in Hf.
    destruct (Z.eqb_spec (first .& 0x80) 0) as [H0|]; [|done]. apply Hsign in H0. cbn [negb throw_if mbind result_bind].
    rewrite len_cons. pose proof (len_nonneg more). destruct more as [|second more].
    + change (len []) with 0 in *. cbn [Z.add Z.ltb Z.compare Pos.compare Pos.compare_cont andb]. change (0 + 1 =? 1) with true. cbn [throw_if mbind result_bind].
      destruct (Z.eqb_spec first 0) as [->|]; destruct allowZero; cbn [negb andb throw_if mbind result_bind]; try done; intros [= <- <-];
        (split; [unfold integer_content; case_match; [done|lia]|]); [by left|right; exists first, []; split; [done|lia]..].
    + rewrite len_cons in *. pose proof (len_nonneg more). destruct (Z.ltb_spec 1 (len more + 1 + 1)); [|lia]. destruct (Z.eqb_spec (len more + 1 + 1) 1); [lia|].
      change (at_or 0 (second :: more) 0) with second. apply Forall_cons in Hm as [Hs _]. destruct (low_bits second Hs) as [Hsign2 _].
      rewrite andb_false_r. destruct (Z.eqb_spec first 0) as [->|Hne]; cbn [andb].
      * destruct (Z.eqb_spec (second .& 0x80) 0) as [|Hs2]; [done|]. assert (0x80 <= second) by lia. cbn [throw_if mbind result_bind]. intros [= <- <-].
        split; [unfold integer_content; by destruct (Z.ltb_spec second 0x80); [lia|]|]. right. exists second, more. split; [done|lia].
      * cbn [throw_if mbind result_bind]. intros [= <- <-]. split; [unfold integer_content; by destruct (Z.ltb_spec first 0x80); [|lia]|].
        right. exists first, (second :: more). split; [done|lia].
  - intros [-> Hok]. rewrite (proj2 (read_spec 2 _ (integer_content v) r' Hr) eq_refl). cbn [mbind result_bind]. apply input_tlv in Hr as [[Hb _] _].
    destruct Hok as [[-> ->]|(first & more & -> & Hf)]; [done|]. unfold integer_content in *. destruct (Z.ltb_spec first 0x80) as [Hs|Hl].
    + apply Forall_cons in Hb as [Hfb _]. rewrite (proj2 (proj1 (low_bits first Hfb))) by lia. change (0 =? 0) with true. cbn [negb throw_if mbind result_bind].
      destruct (Z.eqb_spec first 0); [lia|]. by rewrite !andb_false_r.
    + apply Forall_cons in Hb as [_ [Hfb _]%Forall_cons]. change (0 .& 0x80 =? 0) with true. cbn [negb throw_if mbind result_bind].
      change (at_or 0 (first :: more) 0) with first. destruct (low_bits first Hfb) as [Hsign _]. destruct (Z.eqb_spec (first .& 0x80) 0); [lia|].
      rewrite !len_cons. pose proof (len_nonneg more). destruct (Z.ltb_spec 1 (len more + 1 + 1)); [|lia]. destruct (Z.eqb_spec (len more + 1 + 1) 1); [lia|].
      by rewrite !andb_false_r.
Qed.
