(* ===== verification/DerValues.v ===== *)
(** * Values of open types ([crypto/der.ts])

    The attributes of a private key: values of any type, which the code checks with
    a stack of frames.  [attributeValue_spec] says that the stack accepts exactly the
    values of the recursive grammar. *)

From S2P Require Import Prelude Der.
Local Open Scope Z_scope.

(** ** Object identifiers and orders *)

(** The loop over the octets; [first] says that an arc starts. *)
Fixpoint oid_loop (octets : list Z) (first : bool) : result bool :=
  match octets with
  | [] => Ok first
  | octet :: octets => throw_if (first && (octet =? 0x80)) invalidDer ;; oid_loop octets (octet .& 0x80 =? 0)
  end.
Definition check_oid (octets : list Z) : result unit :=
  throw_if (done_ octets) invalidDer ;;
  first ← oid_loop octets true;
  throw_if (negb first) invalidDer.

Definition readOid (reader : DerReader) : result DerReader :=
  '(oid, reader) ← read 0x06 reader;
  check_oid oid ;;
  Ok reader.

Fixpoint compareEncoding (left_ right_ : list Z) : Z :=
  match left_, right_ with
  | l :: left_, r :: right_ => if negb (l - r =? 0) then l - r else compareEncoding left_ right_
  | _, _ => len left_ - len right_
  end.

(** A value is not before the one that precedes it, when there is one. *)
Definition out_of_order (previous : option (list Z)) (encoding : list Z) : bool :=
  match previous with Some previous => 0 <? compareEncoding previous encoding | None => false end.

(** ** One value *)

Record DerValueFrame := mk_frame { f_reader : list Z; f_ordered : bool; f_previous : option (list Z) }.

(** The loop over a tag number. *)
Fixpoint tag_loop (reader : DerReader) (number : Z) : result (Z * DerReader) :=
  match reader with
  | [] => Err invalidDer
  | octet :: reader =>
      let number := if number <? 31 then number * 128 + (octet .& 0x7f) else number in
      if octet .& 0x80 =? 0 then Ok (number, reader) else tag_loop reader number
  end.

(** The checks of a primitive value of the universal class. *)
Definition check_primitive (tag : Z) (value : list Z) : result unit :=
  let length := len value in
  let first := at_or 0 value 0 in
  throw_if ((tag =? 0x10) || (tag =? 0x11)) invalidDer ;;
  throw_if ((tag =? 0x01) && (negb (length =? 1) || (negb (first =? 0) && negb (first =? 0xff)))) invalidDer ;;
  throw_if (((tag =? 0x02) || (tag =? 0x0a)) && ((length =? 0) ||
    ((1 <? length) && (((first =? 0) && (at_or 0 value 1 .& 0x80 =? 0)) || ((first =? 0xff) && negb (at_or 0 value 1 .& 0x80 =? 0)))))) invalidDer ;;
  throw_if ((tag =? 0x03) && ((length =? 0) || (7 <? first) || ((length =? 1) && negb (first =? 0)) ||
    ((1 <? length) && negb (at_or 0 value (length - 1) .& ((1 .<< first) - 1) =? 0)))) invalidDer ;;
  throw_if ((tag =? 0x05) && negb (length =? 0)) invalidDer ;;
  if tag =? 0x06 then check_oid value else Ok tt.

(** The frame of a constructed value, and the reader behind the value. *)
Definition readAttributeValue (reader : DerReader) : result (option DerValueFrame * DerReader) :=
  tag ← peek reader;
  let rest := tail reader in
  if tag .& 0x1f =? 0x1f then
    throw_if (match rest with [] => true | octet :: _ => octet =? 0x80 end) invalidDer ;;
    '(number, rest) ← tag_loop rest 0;
    throw_if (number <? 31) invalidDer ;;
    '(value, rest) ← readContent rest;
    Ok (if negb (tag .& 0x20 =? 0) then Some (mk_frame value false None) else None, rest)
  else
    throw_if (tag =? 0) invalidDer ;;
    '(value, rest) ← read tag reader;
    if negb (tag .& 0x20 =? 0) then
      throw_if ((tag .& 0xc0 =? 0) && negb (tag =? 0x30) && negb (tag =? 0x31)) invalidDer ;;
      Ok (Some (mk_frame value (tag =? 0x31) None), rest)
    else
      (if negb (tag .& 0xc0 =? 0) then Ok tt else check_primitive tag value) ;;
      Ok (None, rest).

(** The bytes between two positions. *)
Definition consumed (reader rest : DerReader) : list Z := take (length reader - length rest) reader.

(** [while (stack.length !== 0)], with the top of the stack first. *)
Fixpoint values_loop (fuel : nat) (stack : list DerValueFrame) : result unit :=
  match stack with
  | [] => Ok tt
  | frame :: stack =>
      match fuel with
      | O => Err OutOfFuel
      | S fuel =>
          if done_ (f_reader frame) then values_loop fuel stack
          else
            '(nested, rest) ← readAttributeValue (f_reader frame);
            let encoding := consumed (f_reader frame) rest in
            throw_if (f_ordered frame && out_of_order (f_previous frame) encoding) invalidDer ;;
            let stack := mk_frame rest (f_ordered frame) (Some encoding) :: stack in
            values_loop fuel (match nested with Some nested => nested :: stack | None => stack end)
      end
  end.

Definition attributeValue (reader : DerReader) : result DerReader :=
  '(first, reader) ← readAttributeValue reader;
  match first with
  | None => Ok reader
  | Some first => values_loop (S (length (f_reader first))) [first] ;; Ok reader
  end.

(** ** Specification *)

(** Octets that continue a number, and the one that ends it. *)
Definition base128 (octets : list Z) : Prop :=
  exists more last, octets = more ++ [last] /\ Forall (fun b => 0x80 <= b) more /\ last < 0x80 /\ head octets <> Some 0x80.
Definition value128 (octets : list Z) : Z := foldl (fun n b => n * 128 + b mod 128) 0 octets.

(** The identifier octets of X.690: one, or a tag number that needs more. *)
Inductive identifier (tag : Z) : list Z -> Prop :=
| identifier_short : tag mod 32 <> 31 -> tag <> 0 -> identifier tag [tag]
| identifier_long octets : tag mod 32 = 31 -> base128 octets -> 31 <= value128 octets -> identifier tag (tag :: octets).

Definition element (id c : list Z) : list Z := id ++ der_length (len c) ++ c.

(** The content of an OBJECT IDENTIFIER: arcs. *)
Definition oid_content (c : list Z) : Prop := exists arcs, arcs <> [] /\ c = concat arcs /\ Forall base128 arcs.

(** The content of a primitive value of the universal class. *)
Definition primitive_content (tag : Z) (c : list Z) : Prop :=
  tag <> 0x10 /\ tag <> 0x11 /\
  (tag = 0x01 -> c = [0] \/ c = [0xff]) /\
  (tag = 0x02 \/ tag = 0x0a -> c <> [] /\ forall first second more, c = first :: second :: more -> ~ (first = 0 /\ second < 0x80) /\ ~ (first = 0xff /\ 0x80 <= second)) /\
  (tag = 0x03 -> exists unused data, c = unused :: data /\ unused <= 7 /\ (data = [] -> unused = 0) /\ forall b, last data = Some b -> b mod 2 ^ unused = 0) /\
  (tag = 0x05 -> c = []) /\
  (tag = 0x06 -> oid_content c).

Definition is_constructed (tag : Z) : Prop := tag / 32 mod 2 = 1.
Definition is_universal (tag : Z) : Prop := tag < 64.

Definition primitive_element (e : list Z) : Prop :=
  exists tag id c, e = element id c /\ identifier tag id /\ ~ is_constructed tag /\ (id = [tag] -> is_universal tag -> primitive_content tag c).
Definition constructed_element (ordered : bool) (c e : list Z) : Prop :=
  exists tag id, e = element id c /\ identifier tag id /\ is_constructed tag /\ (id = [tag] -> is_universal tag -> tag = 0x30 \/ tag = 0x31) /\
    ordered = bool_decide (id = [0x31]).

(** Values, and values in a row; the elements of a SET OF are in order. *)
Inductive der_value : list Z -> Prop :=
| value_primitive e : primitive_element e -> der_value e
| value_constructed ordered c e : constructed_element ordered c e -> der_values ordered None c -> der_value e
with der_values : bool -> option (list Z) -> list Z -> Prop :=
| values_nil ordered previous : der_values ordered previous []
| values_cons ordered previous e r : der_value e -> (ordered = true -> out_of_order previous e = false) -> der_values ordered (Some e) r ->
    der_values ordered previous (e ++ r).

(** ** Bits *)

Lemma tag_bits tag : is_byte tag ->
  (tag .& 0x1f = tag mod 32) /\ (tag .& 0x20 = 0 <-> ~ is_constructed tag) /\ (tag .& 0xc0 = 0 <-> is_universal tag).
Proof.
  intros Ht. pose proof (byte_check (fun tag => (tag .& 0x1f =? tag mod 32) && Bool.eqb (tag .& 0x20 =? 0) (negb (tag / 32 mod 2 =? 1)) && Bool.eqb (tag .& 0xc0 =? 0) (tag <? 64))
    ltac:(by vm_compute) tag Ht) as H. cbv beta in H. rewrite !andb_true_iff, !eqb_true_iff in H. unfold is_constructed, is_universal. lia.
Qed.

Lemma octet_bits b : is_byte b -> (b .& 0x80 =? 0) = (b <? 0x80) /\ b .& 0x7f = b mod 128.
Proof.
  intros Hb. pose proof (byte_check (fun b => Bool.eqb (b .& 0x80 =? 0) (b <? 0x80) && (b .& 0x7f =? b mod 128)) ltac:(by vm_compute) b Hb) as H.
  cbv beta in H. rewrite andb_true_iff, eqb_true_iff in H. split; [apply H|lia].
Qed.

Lemma unused_bits b k : is_byte b -> 0 <= k <= 7 -> (b .& ((1 .<< k) - 1) =? 0) = (b mod 2 ^ k =? 0).
Proof.
  intros Hb Hk. pose proof (byte_check (fun b => forallb (fun k => Bool.eqb (b .& ((1 .<< k) - 1) =? 0) (b mod 2 ^ k =? 0)) (seqZ 0 8)) ltac:(by vm_compute) b Hb) as H.
  cbv beta in H. rewrite forallb_forall in H. apply eqb_true_iff, H, list_elem_of_In, elem_of_seqZ. lia.
Qed.

Lemma throw_ok {A} c (k : result A) a : (throw_if c invalidDer ;; k) = Ok a <-> c = false /\ k = Ok a.
Proof. destruct c; cbn; (split; [by auto|by intros [? ?]]). Qed.

(** ** Object identifiers *)

Definition arcs_ok (c : list Z) : Prop := exists arcs, c = concat arcs /\ Forall base128 arcs.
Definition rest_ok (c : list Z) : Prop := exists more last rest, c = more ++ last :: rest /\ Forall (fun b => 0x80 <= b) more /\ last < 0x80 /\ arcs_ok rest.

Lemma rest_ok_cons b c : rest_ok (b :: c) <-> (b < 0x80 /\ arcs_ok c) \/ (0x80 <= b /\ rest_ok c).
Proof.
  split.
  - intros (more & last & rest & E & Hm & Hl & Hr). destruct more as [|x more]; injection E as -> ->; [by left|].
    apply Forall_cons in Hm as [Hx Hm]. right. split; [done|]. by exists more, last, rest.
  - intros [[Hb Hc]|[Hb (more & last & rest & -> & Hm & Hl & Hr)]]; [by exists [], b, c|]. exists (b :: more), last, rest. split_and!; [done|by constructor|done|done].
Qed.

Lemma arcs_ok_cons b c : arcs_ok (b :: c) <-> b <> 0x80 /\ ((b < 0x80 /\ arcs_ok c) \/ (0x80 <= b /\ rest_ok c)).
Proof.
  split.
  - intros (arcs & E & Ha). destruct Ha as [|arc arcs (more & last & -> & Hm & Hl & Hh) Ha]; [done|]. cbn [concat] in E. destruct more as [|x more]; injection E as -> ->.
    + split; [lia|]. left. split; [done|]. by exists arcs.
    + cbn in Hh. apply Forall_cons in Hm as [Hx Hm]. split; [congruence|]. right. split; [done|]. exists more, last, (concat arcs).
      split_and!; [by rewrite <- app_assoc|done|done|by exists arcs].
  - intros [Hne [[Hb (arcs & -> & Ha)]|[Hb (more & last & rest & -> & Hm & Hl & (arcs & -> & Ha))]]].
    + exists ([b] :: arcs). split; [done|]. constructor; [|done]. exists [], b. split_and!; [done|constructor|done|]. by intros [= ->].
    + exists ((b :: more ++ [last]) :: arcs). split; [cbn [concat app]; by rewrite <- app_assoc|]. constructor; [|done]. exists (b :: more), last.
      split_and!; [done|by constructor|done|]. by intros [= ->].
Qed.

Lemma oid_loop_spec c : is_bytes c -> (oid_loop c true = Ok true <-> arcs_ok c) /\ (oid_loop c false = Ok true <-> rest_ok c).
Proof.
  induction 1 as [|b c Hb _ [IH1 IH2]].
  - split; split; try done; [by exists []|]. intros (more & last & rest & E & _). by destruct more.
  - rewrite arcs_ok_cons, rest_ok_cons. cbn [oid_loop]. destruct (octet_bits b Hb) as [-> _]. cbn [andb]. rewrite !throw_ok.
    destruct (Z.ltb_spec b 0x80), (Z.eqb_spec b 0x80); rewrite ?IH1, ?IH2; intuition (lia || congruence).
Qed.

Lemma check_oid_spec c : is_bytes c -> check_oid c = Ok tt <-> oid_content c.
Proof.
  intros Hc. unfold check_oid. rewrite throw_ok. assert (Hl : (first ← oid_loop c true; throw_if (negb first) invalidDer) = Ok tt <-> arcs_ok c).
  { rewrite <- (proj1 (oid_loop_spec c Hc)). destruct (oid_loop c true) as [[]|e]; done. }
  rewrite Hl. unfold done_. rewrite bool_decide_eq_false. split.
  - intros [Hne (arcs & -> & Ha)]. exists arcs. split; [by intros ->|done].
  - intros (arcs & Hne & -> & Ha). split; [|by exists arcs]. destruct Ha as [|arc arcs (more & last & -> & _) _]; [done|]. by destruct more.
Qed.

(** ** Tags *)

Definition saturate (n b : Z) : Z := if n <? 31 then n * 128 + (b .& 0x7f) else n.

Lemma tag_loop_spec r : forall n m r', is_bytes r ->
  tag_loop r n = Ok (m, r') <-> exists more last, r = more ++ last :: r' /\ Forall (fun b => 0x80 <= b) more /\ last < 0x80 /\ m = foldl saturate n (more ++ [last]).
Proof.
  induction r as [|b r IH]; intros n m r' Hr; cbn [tag_loop]; [split; [done|]; intros (more & ? & E & _); by destruct more|].
  apply Forall_cons in Hr as [Hb Hr]. destruct (octet_bits b Hb) as [-> _]. change (if n <? 31 then n * 128 + (b .& 0x7f) else n) with (saturate n b).
  destruct (Z.ltb_spec b 0x80) as [Hlt|Hge].
  - split; [intros [= <- <-]; by exists [], b|]. intros (more & last & E & Hm & Hl & ->). destruct more as [|x more]; injection E as -> ->; [done|].
    apply Forall_cons in Hm as [? _]. lia.
  - rewrite IH by done. split.
    + intros (more & last & -> & Hm & Hl & ->). exists (b :: more), last. split_and!; [done|by constructor|done|done].
    + intros (more & last & E & Hm & Hl & ->). destruct more as [|x more]; injection E as -> ->; [lia|]. apply Forall_cons in Hm as [_ Hm]. by exists more, last.
Qed.

(** Saturation does not change whether a number is below 31. *)
Lemma saturate_spec octets : is_bytes octets -> foldl saturate 0 octets < 31 <-> value128 octets < 31.
Proof.
  intros Ho. assert (H : forall s v, 0 <= v -> s = v \/ (31 <= s /\ 31 <= v) ->
    foldl saturate s octets = foldl (fun n b => n * 128 + b mod 128) v octets \/
    (31 <= foldl saturate s octets /\ 31 <= foldl (fun n b => n * 128 + b mod 128) v octets)).
  { induction Ho as [|b octets Hb _ IH]; intros s v Hv Hs; [done|]. cbn [foldl]. destruct (octet_bits b Hb) as [_ Hlow]. pose proof (Z.mod_pos_bound b 128).
    apply IH; [lia|]. unfold saturate. rewrite Hlow. destruct (Z.ltb_spec s 31); [|right; lia]. left. lia. }
  unfold value128. destruct (H 0 0) as [->|]; lia.
Qed.

(** ** Primitive values *)

Lemma last_at (c : list Z) x : last c = Some x -> at_or 0 c (len c - 1) = x.
Proof.
  destruct c as [|b c _] using rev_ind; [done|]. rewrite last_snoc. intros [= ->]. rewrite len_app. change (len [x]) with 1.
  replace (len c + 1 - 1) with (len c) by lia. unfold at_or. by rewrite at_app_mid.
Qed.

Lemma bit_string_checked c : is_bytes c ->
  ((len c =? 0) || (7 <? at_or 0 c 0) || ((len c =? 1) && negb (at_or 0 c 0 =? 0)) || ((1 <? len c) && negb (at_or 0 c (len c - 1) .& ((1 .<< at_or 0 c 0) - 1) =? 0))) = false <->
  exists unused data, c = unused :: data /\ unused <= 7 /\ (data = [] -> unused = 0) /\ forall b, last data = Some b -> b mod 2 ^ unused = 0.
Proof.
  destruct c as [|unused data]; [intros _; split; [done|]; by intros (? & ? & [=] & _)|]. intros Hc. pose proof Hc as [Hu Hd]%Forall_cons. unfold is_byte in Hu.
  rewrite !orb_false_iff. change (at_or 0 (unused :: data) 0) with unused. rewrite !len_cons. pose proof (len_nonneg data).
  destruct (last data) as [b|] eqn:Hl.
  - assert (Hlast : at_or 0 (unused :: data) (len data + 1 - 1) = b) by (rewrite <- (last_at (unused :: data) b); [by rewrite len_cons|by destruct data]).
    assert (Hne : data <> []) by (by intros ->). assert (1 <= len data) by (destruct data; [done|]; rewrite len_cons; pose proof (len_nonneg data); lia).
    assert (Hb : is_byte b) by (eapply Forall_forall; [exact Hd|]; by apply last_Some_elem_of). rewrite Hlast. split.
    + intros [[[_ H7] _] Hbits]. exists unused, data. split_and!; [done|lia|done|]. intros b' Hb'. rewrite Hl in Hb'. injection Hb' as <-. rewrite unused_bits in Hbits by (done || lia). lia.
    + intros (u' & d' & [= <- <-] & H7 & _ & Hm). rewrite unused_bits by (done || lia). rewrite (Hm b Hl). lia.
  - apply last_None in Hl as ->. change (len []) with 0. cbn [Z.add Z.ltb Z.compare Pos.compare Pos.compare_cont andb]. split.
    + intros [[[_ H7] H1] _]. exists unused, []. split_and!; [done|lia|intros _; lia|done].
    + intros (u' & d' & [= <- <-] & H7 & H0 & _). specialize (H0 eq_refl). subst unused. done.
Qed.

Lemma boolean_checked tag c :
  ((tag =? 0x01) && (negb (len c =? 1) || (negb (at_or 0 c 0 =? 0) && negb (at_or 0 c 0 =? 0xff)))) = false <-> (tag = 0x01 -> c = [0] \/ c = [0xff]).
Proof.
  destruct (Z.eqb_spec tag 0x01) as [->|]; cbn [andb]; [|by split]. destruct c as [|a [|b c]].
  - split; [done|]. by intros [[=]|[=]].
  - change (len [a] =? 1) with true. change (at_or 0 [a] 0) with a. cbn [negb orb]. split.
    + intros H _. destruct (Z.eqb_spec a 0) as [E0|]; [left; by rewrite E0|]. destruct (Z.eqb_spec a 0xff) as [E1|]; [right; by rewrite E1|done].
    + by intros [[= ->]|[= ->]].
  - rewrite !len_cons. pose proof (len_nonneg c). destruct (Z.eqb_spec (len c + 1 + 1) 1); [lia|]. split; [done|]. by intros [[=]|[=]].
Qed.

Lemma integer_checked tag c : is_bytes c ->
  (((tag =? 0x02) || (tag =? 0x0a)) && ((len c =? 0) ||
    ((1 <? len c) && (((at_or 0 c 0 =? 0) && (at_or 0 c 1 .& 0x80 =? 0)) || ((at_or 0 c 0 =? 0xff) && negb (at_or 0 c 1 .& 0x80 =? 0)))))) = false <->
  (tag = 0x02 \/ tag = 0x0a -> c <> [] /\ forall first second more, c = first :: second :: more -> ~ (first = 0 /\ second < 0x80) /\ ~ (first = 0xff /\ 0x80 <= second)).
Proof.
  intros Hc. destruct (_ || _) eqn:Ht; cbn [andb]; [|split; [intros _ H; lia|done]]. assert (Htag : tag = 0x02 \/ tag = 0x0a) by lia. clear Ht.
  destruct c as [|a [|b c]]; [split; [done|]; by intros [? _]|split; [|done]; intros _ _; by split|].
  rewrite !len_cons. pose proof (len_nonneg c). destruct (Z.eqb_spec (len c + 1 + 1) 0), (Z.ltb_spec 1 (len c + 1 + 1)); try lia. cbn [orb andb].
  change (at_or 0 (a :: b :: c) 0) with a. change (at_or 0 (a :: b :: c) 1) with b. apply Forall_cons in Hc as [_ [Hb _]%Forall_cons].
  destruct (octet_bits b Hb) as [-> _]. split.
  - intros Hno _. split; [done|]. intros ? ? ? [= <- <- <-]. lia.
  - intros Hyes. destruct (Hyes Htag) as [_ Hmin]. specialize (Hmin a b c eq_refl). lia.
Qed.

Lemma check_primitive_spec tag c : is_bytes c -> check_primitive tag c = Ok tt <-> primitive_content tag c.
Proof.
  intros Hc. unfold check_primitive, primitive_content. cbv zeta. rewrite !throw_ok, boolean_checked, integer_checked by done.
  assert (Hbits : forall b P, (b = false <-> P) -> ((tag =? 0x03) && b) = false <-> (tag = 0x03 -> P)) by (intros b P HP; destruct (Z.eqb_spec tag 0x03); cbn [andb]; tauto).
  rewrite (Hbits _ _ (bit_string_checked c Hc)).
  assert (Hnull : ((tag =? 0x05) && negb (len c =? 0)) = false <-> (tag = 0x05 -> c = [])).
  { destruct (Z.eqb_spec tag 0x05); cbn [andb]; [|by split]. destruct c; [by split|]. rewrite len_cons. pose proof (len_nonneg c).
    destruct (Z.eqb_spec (len c + 1) 0); [lia|]. split; [done|]. intros H1. by specialize (H1 e). }
  rewrite Hnull. assert (Hoid : (if tag =? 0x06 then check_oid c else Ok tt) = Ok tt <-> (tag = 0x06 -> oid_content c)).
  { destruct (Z.eqb_spec tag 0x06); [rewrite check_oid_spec by done; tauto|by split]. }
  rewrite Hoid, orb_false_iff, !Z.eqb_neq. tauto.
Qed.

(** ** One value *)

Lemma element_tlv tag c : element [tag] c = tlv tag c.
Proof. done. Qed.

(** What is read is a primitive element or a frame for a constructed one. *)
Definition read_as (o : option DerValueFrame) (e : list Z) : Prop :=
  match o with None => primitive_element e | Some f => f_previous f = None /\ constructed_element (f_ordered f) (f_reader f) e end.

Lemma readAttributeValue_sound r o r' : input r -> readAttributeValue r = Ok (o, r') -> exists e, r = e ++ r' /\ read_as o e.
Proof.
  intros Hr. unfold readAttributeValue. destruct r as [|tag rest]; [done|]. cbn [peek mbind result_bind tail]. cbv zeta.
  pose proof Hr as [Ht Hrest]%input_cons. destruct (tag_bits tag Ht) as (Hlow & Hcons & Huniv). rewrite Hlow. destruct (Z.eqb_spec (tag mod 32) 0x1f) as [Hlong|Hshort].
  - destruct (match rest with [] => true | octet :: _ => octet =? 0x80 end) eqn:Hhead; [done|]. cbn [throw_if mbind result_bind].
    destruct (tag_loop rest 0) as [[number rest1]|e] eqn:Hl; [|done]. apply tag_loop_spec in Hl as (more & last & -> & Hm & Hlast & ->); [|by destruct Hrest].
    cbn [mbind result_bind]. destruct (Z.ltb_spec (foldl saturate 0 (more ++ [last])) 31) as [|H31]; [done|]. cbn [throw_if mbind result_bind].
    assert (Hrest1 : input rest1) by (apply (input_app (more ++ [last])); by rewrite <- app_assoc).
    destruct (readContent rest1) as [[c rest2]|e] eqn:Hc; [|done]. apply readContent_spec in Hc as ->; [|done]. cbn [mbind result_bind]. intros [= <- <-].
    exists (element (tag :: more ++ [last]) c). split; [unfold element; cbn [app]; by rewrite <- !app_assoc|].
    assert (Hid : identifier tag (tag :: more ++ [last])).
    { apply identifier_long; [done| |]; [exists more, last; split_and!; try done|].
      - intros E. destruct more as [|x more]; cbn in Hhead, E; injection E as ->; done.
      - assert (Hob : is_bytes (more ++ [last])) by (destruct Hrest as [Hrb _]; rewrite Forall_app, Forall_cons in Hrb; apply Forall_app; split; [apply Hrb|]; constructor; [apply Hrb|constructor]).
        pose proof (saturate_spec _ Hob). lia. }
    assert (Hne : tag :: more ++ [last] <> [tag]) by (by destruct more). destruct (Z.eqb_spec (tag .& 0x20) 0) as [H0|H0]; cbn [negb read_as].
    + exists tag, (tag :: more ++ [last]), c. split_and!; [done|done|by apply Hcons|by intros].
    + split; [done|]. exists tag, (tag :: more ++ [last]). cbn [f_reader f_ordered]. split_and!; [done|done| |by intros|].
      * unfold is_constructed in *. pose proof (Z.mod_pos_bound (tag / 32) 2). lia.
      * rewrite bool_decide_eq_false_2; [done|]. by destruct more.
  - destruct (Z.eqb_spec tag 0) as [|Hne]; [done|]. cbn [throw_if mbind result_bind]. destruct (read tag (tag :: rest)) as [[c rest1]|e] eqn:Hc; [|done].
    apply read_spec in Hc as E; [|done]. cbn [mbind result_bind]. assert (Hid : identifier tag [tag]) by by apply identifier_short. rewrite E in Hr. apply input_tlv in Hr as [[Hcb _] _].
    destruct (Z.eqb_spec (tag .& 0x20) 0) as [H0|H0]; cbn [negb].
    + destruct (if negb (tag .& 0xc0 =? 0) then Ok tt else check_primitive tag c) as [[]|e] eqn:Hp; [|done]. cbn [mbind result_bind]. intros [= <- <-].
      exists (tlv tag c). split; [done|]. exists tag, [tag], c. split_and!; [done|done|by apply Hcons|]. intros _ Hu. apply check_primitive_spec; [done|].
      by rewrite (proj2 Huniv Hu) in Hp.
    + destruct ((tag .& 0xc0 =? 0) && negb (tag =? 0x30) && negb (tag =? 0x31)) eqn:Hcheck; [done|]. cbn [throw_if mbind result_bind]. intros [= <- <-].
      exists (tlv tag c). split; [done|]. split; [done|]. exists tag, [tag]. cbn [f_reader f_ordered]. split_and!; [done|done| | |].
      * unfold is_constructed in *. pose proof (Z.mod_pos_bound (tag / 32) 2). lia.
      * intros _ Hu. rewrite (proj2 Huniv Hu) in Hcheck. change (0 =? 0) with true in Hcheck. lia.
      * destruct (Z.eqb_spec tag 0x31) as [->|]; [done|]. rewrite bool_decide_eq_false_2; [done|]. by intros [= ->].
Qed.

Lemma readAttributeValue_complete e r' : input (e ++ r') ->
  (primitive_element e -> readAttributeValue (e ++ r') = Ok (None, r')) /\
  (forall ordered c, constructed_element ordered c e -> readAttributeValue (e ++ r') = Ok (Some (mk_frame c ordered None), r')).
Proof.
  intros Hr.
  assert (Hlong : forall tag octets c, e = element (tag :: octets) c -> tag mod 32 = 31 -> base128 octets -> 31 <= value128 octets ->
    readAttributeValue (e ++ r') = Ok (if negb (tag .& 0x20 =? 0) then Some (mk_frame c false None) else None, r')).
  { intros tag octets c -> Htag (more & last & -> & Hm & Hlast & Hhead) Hv. unfold element in *. rewrite <- !app_assoc in *. cbn [app] in *. rewrite <- app_assoc in *. cbn [app] in *.
    pose proof Hr as [Ht Hrest]%input_cons. destruct (tag_bits tag Ht) as (Hlow & _ & _). unfold readAttributeValue. cbn [peek mbind result_bind tail]. cbv zeta. rewrite Hlow, Htag.
    change (31 =? 31) with true. cbv iota. replace (match more ++ _ with [] => true | octet :: _ => octet =? 0x80 end) with false.
    2: { symmetry. destruct more as [|x more]; cbn in Hhead |- *; apply Z.eqb_neq; congruence. }
    assert (Hin : input (der_length (len c) ++ c ++ r')) by (apply (input_app (more ++ [last])); by rewrite <- app_assoc).
    cbn [throw_if mbind result_bind]. destruct Hrest as [Hrb Hrl].
    rewrite (proj2 (tag_loop_spec _ 0 (foldl saturate 0 (more ++ [last])) (der_length (len c) ++ c ++ r') Hrb)) by by exists more, last. cbn [mbind result_bind].
    assert (Hob : is_bytes (more ++ [last])) by (rewrite Forall_app, Forall_cons in Hrb; apply Forall_app; split; [apply Hrb|]; constructor; [apply Hrb|constructor]).
    pose proof (saturate_spec _ Hob). destruct (Z.ltb_spec (foldl saturate 0 (more ++ [last])) 31); [lia|]. cbn [throw_if mbind result_bind].
    by rewrite (proj2 (readContent_spec _ c r' Hin)). }
  assert (Hshort : forall tag c, e = element [tag] c -> tag mod 32 <> 31 -> tag <> 0 -> input (tag :: der_length (len c) ++ c ++ r') /\
    readAttributeValue (e ++ r') =
      (if negb (tag .& 0x20 =? 0) then
        throw_if ((tag .& 0xc0 =? 0) && negb (tag =? 0x30) && negb (tag =? 0x31)) invalidDer ;; Ok (Some (mk_frame c (tag =? 0x31) None), r')
      else (if negb (tag .& 0xc0 =? 0) then Ok tt else check_primitive tag c) ;; Ok (None, r'))).
  { intros tag c -> Htag Hne. rewrite element_tlv in *. assert (E : tlv tag c ++ r' = tag :: der_length (len c) ++ c ++ r') by (unfold tlv; cbn [app]; by rewrite <- app_assoc).
    split; [by rewrite <- E|]. pose proof (proj2 (read_spec tag _ c r' Hr) eq_refl) as Hread. rewrite E in *. pose proof Hr as [Ht _]%input_cons. destruct (tag_bits tag Ht) as (Hlow & _ & _).
    unfold readAttributeValue. cbn [peek mbind result_bind tail]. cbv zeta. rewrite Hlow. destruct (Z.eqb_spec (tag mod 32) 31); [done|].
    destruct (Z.eqb_spec tag 0); [done|]. cbn [throw_if mbind result_bind]. rewrite Hread. done. }
  assert (Hbits : forall tag id c, e = element id c -> identifier tag id -> is_byte tag /\ is_bytes c).
  { intros tag id c -> Hid. destruct Hr as [Hrb _]. unfold element in Hrb. rewrite !Forall_app in Hrb. destruct Hrb as [[Hidb [_ Hcb]] _]. split; [|done].
    destruct Hid; by inversion Hidb. }
  split.
  - intros (tag & id & c & E & Hid & Hnc & Hp). destruct (Hbits tag id c E Hid) as [Ht Hcb]. destruct (tag_bits tag Ht) as (_ & Hcons & Huniv). apply Hcons in Hnc.
    destruct Hid as [Htag Hne|octets Htag Ho Hv].
    + destruct (Hshort tag c E Htag Hne) as [_ ->]. rewrite Hnc. cbn [Z.eqb negb]. destruct (Z.eqb_spec (tag .& 0xc0) 0) as [Hu|]; cbn [negb]; [|done].
      by rewrite (proj2 (check_primitive_spec tag c Hcb) (Hp eq_refl (proj1 Huniv Hu))).
    + rewrite (Hlong tag octets c E Htag Ho Hv), Hnc. done.
  - intros ordered c (tag & id & E & Hid & Hic & Hset & ->). destruct (Hbits tag id c E Hid) as [Ht Hcb]. destruct (tag_bits tag Ht) as (_ & Hcons & Huniv).
    assert (Hn : (tag .& 0x20 =? 0) = false) by (apply Z.eqb_neq; tauto). destruct Hid as [Htag Hne|octets Htag Ho Hv].
    + destruct (Hshort tag c E Htag Hne) as [_ ->]. rewrite Hn. cbn [negb]. replace ((tag .& 0xc0 =? 0) && negb (tag =? 0x30) && negb (tag =? 0x31)) with false.
      * cbn [throw_if mbind result_bind]. f_equal. f_equal. f_equal. f_equal. destruct (Z.eqb_spec tag 0x31) as [->|]; [done|]. rewrite bool_decide_eq_false_2; [done|]. by intros [= ->].
      * symmetry. destruct (Z.eqb_spec (tag .& 0xc0) 0) as [Hu|]; cbn [andb]; [|done]. destruct (Hset eq_refl (proj1 Huniv Hu)) as [->| ->]; done.
    + rewrite (Hlong tag octets c E Htag Ho Hv), Hn. cbn [negb]. rewrite bool_decide_eq_false_2; [done|]. destruct Ho as (more & last & -> & _). by destruct more.
Qed.

(** ** Errors *)

(** A result whose only error is that of an invalid encoding. *)
Definition strict {A} (m : result A) : Prop := match m with Ok _ => True | Err e => e = invalidDer end.

Lemma strict_bind {A B} (m : result A) (k : A -> result B) : strict m -> (forall a, m = Ok a -> strict (k a)) -> strict (m ≫= k).
Proof. destruct m as [a|e]; cbn; auto. Qed.

Lemma strict_throw {A} c (k : result A) : strict k -> strict (throw_if c invalidDer ;; k).
Proof. by destruct c. Qed.

Lemma strict_throw_if c : strict (throw_if c invalidDer).
Proof. by destruct c. Qed.

Lemma strict_ok {A} (a : A) : strict (Ok a).
Proof. exact I. Qed.

Create HintDb strict.
#[export] Hint Resolve strict_bind strict_throw strict_throw_if strict_ok : strict.

Lemma read_length_strict r : strict (read_length r).
Proof.
  destruct r as [|b r]; [done|]. cbn [read_length]. destruct (0x80 <=? b); [|done]. apply strict_throw. destruct (length_loop _ _ _). by apply strict_throw.
Qed.

Lemma readContent_strict r : strict (readContent r).
Proof. unfold readContent. apply strict_bind; [apply read_length_strict|]. intros [n rest] _. by apply strict_throw. Qed.

Lemma read_strict tag r : strict (read tag r).
Proof. destruct r as [|b r]; [done|]. cbn [read]. apply strict_throw, readContent_strict. Qed.

Lemma oid_loop_strict c : forall first, strict (oid_loop c first).
Proof. induction c as [|b c IH]; intros first; cbn [oid_loop]; [done|]. apply strict_throw, IH. Qed.

Lemma check_oid_strict c : strict (check_oid c).
Proof. apply strict_throw, strict_bind; [apply oid_loop_strict|]. intros first _. apply strict_throw_if. Qed.

Lemma readOid_strict r : strict (readOid r).
Proof. apply strict_bind; [apply read_strict|]. intros [oid rest] _. apply strict_bind; [apply check_oid_strict|done]. Qed.

Lemma tag_loop_strict r : forall n, strict (tag_loop r n).
Proof. induction r as [|b r IH]; intros n; cbn [tag_loop]; [done|]. destruct (_ =? 0); [done|apply IH]. Qed.

Lemma check_primitive_strict tag c : strict (check_primitive tag c).
Proof. unfold check_primitive. cbv zeta. do 5 apply strict_throw. destruct (tag =? 6); [apply check_oid_strict|done]. Qed.

#[export] Hint Resolve readContent_strict read_strict check_oid_strict readOid_strict tag_loop_strict check_primitive_strict : strict.

Lemma readAttributeValue_strict r : strict (readAttributeValue r).
Proof.
  unfold readAttributeValue. destruct r as [|tag rest]; [done|]. cbn [peek mbind result_bind tail]. cbv zeta. destruct (_ =? 31).
  - apply strict_throw, strict_bind; [apply tag_loop_strict|]. intros [n rest1] _. apply strict_throw, strict_bind; [apply readContent_strict|]. by intros [c rest2] _.
  - apply strict_throw, strict_bind; [apply read_strict|]. intros [c rest1] _. destruct (negb _); [by apply strict_throw|].
    apply strict_bind; [|done]. destruct (negb _); [done|apply check_primitive_strict].
Qed.

(** ** The stack *)

Definition frame_ok (f : DerValueFrame) : Prop := der_values (f_ordered f) (f_previous f) (f_reader f).
Definition measure (stack : list DerValueFrame) : nat := sum_list ((fun f => S (length (f_reader f))) <$> stack).

Lemma consumed_app e r : consumed (e ++ r) r = e.
Proof. unfold consumed. rewrite length_app, Nat.add_sub. apply take_app_length. Qed.

Lemma element_length id c : id <> [] -> (2 + length c <= length (element id c))%nat.
Proof.
  intros Hid. unfold element. rewrite !length_app. assert (1 <= length (der_length (len c)))%nat by (unfold der_length; destruct (_ <? _); cbn; lia).
  destruct id; [done|]. cbn [length]. lia.
Qed.

Lemma identifier_nonempty tag id : identifier tag id -> id <> [].
Proof. by destruct 1. Qed.

Lemma read_as_length o e : read_as o e -> (2 + match o with Some f => length (f_reader f) | None => 0 end <= length e)%nat.
Proof.
  destruct o as [f|]; cbn [read_as].
  - intros [_ (tag & id & -> & Hid%identifier_nonempty & _)]. by apply element_length.
  - intros (tag & id & c & -> & Hid%identifier_nonempty & _). pose proof (element_length id c Hid). lia.
Qed.

Lemma measure_cons f stack : measure (f :: stack) = (S (length (f_reader f)) + measure stack)%nat.
Proof. done. Qed.

(** What was read decides whether it is a value. *)
Definition nested_ok (o : option DerValueFrame) : Prop := match o with Some f => frame_ok f | None => True end.

Lemma value_read e r : input (e ++ r) -> der_value e -> exists o, readAttributeValue (e ++ r) = Ok (o, r) /\ nested_ok o.
Proof.
  intros Hr He. destruct (readAttributeValue_complete e r Hr) as [Hp Hc]. destruct He as [e He|ordered c e He Hv].
  - exists None. by split; [apply Hp|].
  - eexists. by split; [apply Hc|].
Qed.

Lemma read_value o e : read_as o e -> nested_ok o -> der_value e.
Proof.
  destruct o as [f|]; cbn [read_as nested_ok]; [|intros He _; by apply value_primitive]. intros [Hp He] Hf. eapply value_constructed; [exact He|].
  unfold frame_ok in Hf. by rewrite Hp in Hf.
Qed.

Lemma der_values_inv ordered previous r : der_values ordered previous r <-> r = [] \/
  exists e r', r = e ++ r' /\ der_value e /\ (ordered = true -> out_of_order previous e = false) /\ der_values ordered (Some e) r'.
Proof.
  split; [destruct 1; [by left|]; right; eauto 10|]. intros [->|(e & r' & -> & Hv & Ho & Hr)]; by constructor.
Qed.

(** One step on a reader that is not at its end. *)
Lemma step_values ordered previous reader o rest : input reader -> readAttributeValue reader = Ok (o, rest) -> exists e, reader = e ++ rest /\ read_as o e /\
  (der_values ordered previous reader <-> nested_ok o /\ (ordered = true -> out_of_order previous e = false) /\ der_values ordered (Some e) rest).
Proof.
  intros Hr Hread. destruct (readAttributeValue_sound _ _ _ Hr Hread) as (e & -> & He). exists e. split_and!; [done|done|]. rewrite der_values_inv.
  pose proof (read_as_length o e He) as Hlen. split.
  - intros [Hnil|(e' & r' & E & Hv & Ho & Hr')]; [destruct e; [cbn in Hlen; lia|done]|]. rewrite E in Hr, Hread. destruct (value_read e' r' Hr Hv) as (o' & Hread' & Hnest).
    rewrite Hread in Hread'. injection Hread' as -> ->. apply app_inv_tail in E as ->. done.
  - intros (Hnest & Ho & Hrest). right. exists e, rest. split_and!; [done|by eapply read_value|done|done].
Qed.

Lemma values_loop_spec fuel : forall stack, (measure stack <= fuel)%nat -> Forall (fun f => input (f_reader f)) stack ->
  strict (values_loop fuel stack) /\ (values_loop fuel stack = Ok tt <-> Forall frame_ok stack).
Proof.
  induction fuel as [|fuel IH]; intros stack Hf Hin; (destruct stack as [|frame stack]; [by split; [|split]|]); rewrite measure_cons in Hf; [lia|].
  apply Forall_cons in Hin as [Hfr Hin]. cbn [values_loop]. destruct (done_ (f_reader frame)) eqn:Hdone; [apply bool_decide_eq_true in Hdone|apply bool_decide_eq_false in Hdone].
  { destruct (IH stack) as [Hs Hok]; [lia|done|]. split; [done|]. rewrite Hok, Forall_cons. assert (frame_ok frame) by (unfold frame_ok; rewrite Hdone; constructor). tauto. }
  pose proof (readAttributeValue_strict (f_reader frame)) as Hst. rewrite Forall_cons. destruct (readAttributeValue (f_reader frame)) as [[o rest]|err] eqn:Hread.
  2: { split; [done|]. split; [done|]. intros [Hok _]. apply der_values_inv in Hok as [|(e & r' & E & Hv & _)]; [done|]. rewrite E in Hfr, Hread.
       destruct (value_read e r' Hfr Hv) as (o & Hread' & _). congruence. }
  destruct (step_values (f_ordered frame) (f_previous frame) _ _ _ Hfr Hread) as (e & E & He & Hstep). cbn [mbind result_bind]. cbv zeta. unfold frame_ok at 1. rewrite Hstep.
  rewrite E, consumed_app. pose proof (read_as_length o e He) as Hlen. rewrite E in Hf, Hfr. rewrite length_app in Hf. apply input_app in Hfr as [Hine Hinr].
  destruct (f_ordered frame && out_of_order (f_previous frame) e) eqn:Horder; cbn [throw_if mbind result_bind].
  { split; [done|]. split; [done|]. apply andb_true_iff in Horder as [Ho1 Ho2]. intros [(_ & Ho & _) _]. rewrite (Ho Ho1) in Ho2. done. }
  assert (Ho : f_ordered frame = true -> out_of_order (f_previous frame) e = false) by (intros Ht; by rewrite Ht in Horder).
  destruct o as [f|]; cbn [nested_ok] in *.
  - assert (Hinf : input (f_reader f)).
    { destruct He as [_ (tag & id & -> & _)]. unfold element in Hine. by apply input_app in Hine as [_ [_ ?]%input_app]. }
    destruct (IH (f :: mk_frame rest (f_ordered frame) (Some e) :: stack)) as [Hs Hok]; [rewrite !measure_cons; cbn [f_reader]; lia|by rewrite !Forall_cons|].
    split; [done|]. rewrite Hok, !Forall_cons. change (frame_ok (mk_frame rest (f_ordered frame) (Some e))) with (der_values (f_ordered frame) (Some e) rest). tauto.
  - destruct (IH (mk_frame rest (f_ordered frame) (Some e) :: stack)) as [Hs Hok]; [rewrite !measure_cons; cbn [f_reader]; lia|by rewrite Forall_cons|].
    split; [done|]. rewrite Hok, Forall_cons. change (frame_ok (mk_frame rest (f_ordered frame) (Some e))) with (der_values (f_ordered frame) (Some e) rest). tauto.
Qed.

Lemma values_nested f e r' : input (e ++ r') -> read_as (Some f) e ->
  strict (values_loop (S (length (f_reader f))) [f]) /\ (values_loop (S (length (f_reader f))) [f] = Ok tt <-> der_values (f_ordered f) None (f_reader f)).
Proof.
  intros Hr [Hp (tag & id & -> & _)]. destruct (values_loop_spec (S (length (f_reader f))) [f]) as [Hs Hok].
  - rewrite measure_cons. cbn. lia.
  - apply Forall_singleton. unfold element in Hr. rewrite <- !app_assoc in Hr. by apply input_app in Hr as [_ [_ [? _]%input_app]%input_app].
  - split; [done|]. rewrite Hok, Forall_singleton. unfold frame_ok. by rewrite Hp.
Qed.

(** Reading a value consumes one of the grammar. *)
Lemma attributeValue_spec r r' : input r -> attributeValue r = Ok r' <-> exists e, r = e ++ r' /\ der_value e.
Proof.
  intros Hr. unfold attributeValue. split.
  - destruct (readAttributeValue r) as [[o rest]|e] eqn:Hread; [|done]. destruct (readAttributeValue_sound _ _ _ Hr Hread) as (e & -> & He). cbn [mbind result_bind].
    destruct o as [f|]; [|intros [= ->]; exists e; split; [done|by apply value_primitive]]. destruct (values_nested f e rest Hr He) as [_ Hok].
    destruct (values_loop _ [f]) as [[]|err] eqn:Hv; [|done]. intros [= ->]. exists e. split; [done|]. eapply value_constructed; [apply He|]. by apply Hok.
  - intros (e & -> & He). destruct (readAttributeValue_complete e r' Hr) as [Hp Hc]. destruct He as [e He|ordered c e He Hv]; [by rewrite Hp|].
    rewrite (Hc _ _ He). cbn [mbind result_bind]. destruct (values_nested (mk_frame c ordered None) e r' Hr (conj eq_refl He)) as [_ Hok]. by rewrite (proj2 Hok Hv).
Qed.

Lemma attributeValue_strict r : input r -> strict (attributeValue r).
Proof.
  intros Hr. unfold attributeValue. apply strict_bind; [apply readAttributeValue_strict|]. intros [o rest] Hread. destruct o as [f|]; [|done].
  apply readAttributeValue_sound in Hread as (e & -> & He); [|done]. apply strict_bind; [|done]. by apply (values_nested f e rest).
Qed.

Lemma der_value_length e : der_value e -> (2 <= length e)%nat.
Proof. intros [e' (tag & id & c & -> & Hid%identifier_nonempty & _)|o c e' (tag & id & -> & Hid%identifier_nonempty & _) _]; pose proof (element_length id c Hid); lia. Qed.
