(* ===== verification/DerAttributes.v ===== *)
(** * The attributes of a private key ([attributes], [crypto/der.ts])

    A SET OF attributes, each an object identifier with a set of values, in the
    order of DER. *)

From S2P Require Import Prelude Der DerValues.
Local Open Scope Z_scope.

(** [while (!entries.done())] *)
Fixpoint entries_loop (fuel : nat) (entries : DerReader) (previous : option (list Z)) : result unit :=
  if done_ entries then Ok tt
  else
    match fuel with
    | O => Err OutOfFuel
    | S fuel =>
        rest ← attributeValue entries;
        let encoding := consumed entries rest in
        throw_if (out_of_order previous encoding) invalidDer ;;
        entries_loop fuel rest (Some encoding)
    end.

Definition readAttribute (values : DerReader) : result DerReader :=
  '(attribute, values) ← read 0x30 values;
  attribute ← readOid attribute;
  '(entries, attribute) ← read 0x31 attribute;
  throw_if (done_ entries) invalidDer ;;
  entries_loop (length entries) entries None ;;
  complete attribute ;;
  Ok values.

(** [while (!values.done())] *)
Fixpoint attributes_loop (fuel : nat) (values : DerReader) (previous : option (list Z)) : result unit :=
  if done_ values then Ok tt
  else
    match fuel with
    | O => Err OutOfFuel
    | S fuel =>
        rest ← readAttribute values;
        let encoding := consumed values rest in
        throw_if (out_of_order previous encoding) invalidDer ;;
        attributes_loop fuel rest (Some encoding)
    end.

Definition attributes (reader : DerReader) : result DerReader :=
  '(values, reader) ← read 0xa0 reader;
  attributes_loop (length values) values None ;;
  Ok reader.

(** ** Specification *)

Definition attribute (e : list Z) : Prop :=
  exists oid entries, e = tlv 0x30 (tlv 0x06 oid ++ tlv 0x31 entries) /\ oid_content oid /\ entries <> [] /\ der_values true None entries.

(** Items in a row, each not before the one in front of it. *)
Inductive run (item : list Z -> Prop) : option (list Z) -> list Z -> Prop :=
| run_nil previous : run item previous []
| run_cons previous e r : item e -> out_of_order previous e = false -> run item (Some e) r -> run item previous (e ++ r).

Definition attribute_list (l : list Z) : Prop := run attribute None l.

(** ** Runs *)

(** A loop that reads items until nothing is left accepts the runs of the items. *)
Section runs.
Context (item : list Z -> Prop) (read_item : DerReader -> result DerReader).
Context (item_spec : forall r r', input r -> read_item r = Ok r' <-> exists e, r = e ++ r' /\ item e).
Context (item_strict : forall r, input r -> strict (read_item r)).
Context (item_length : forall e, item e -> e <> []).

Context (loop : nat -> DerReader -> option (list Z) -> result unit).
Context (loop_step : forall fuel r previous, loop fuel r previous =
  if done_ r then Ok tt
  else match fuel with
       | O => Err OutOfFuel
       | S fuel => rest ← read_item r; throw_if (out_of_order previous (consumed r rest)) invalidDer ;; loop fuel rest (Some (consumed r rest))
       end).

Lemma run_inv previous r : run item previous r <-> r = [] \/ exists e r', r = e ++ r' /\ item e /\ out_of_order previous e = false /\ run item (Some e) r'.
Proof. split; [destruct 1; [by left|]; right; eauto 10|]. intros [->|(e & r' & -> & Hv & Ho & Hr)]; by constructor. Qed.

Lemma loop_spec fuel : forall r previous, (length r <= fuel)%nat -> input r -> strict (loop fuel r previous) /\ (loop fuel r previous = Ok tt <-> run item previous r).
Proof.
  induction fuel as [|fuel IH]; intros r previous Hf Hr; rewrite loop_step; (destruct (done_ r) eqn:Hd; [apply bool_decide_eq_true in Hd|apply bool_decide_eq_false in Hd]).
  1, 3: subst r; split; [done|split; [constructor|done]].
  { destruct r; [done|cbn in Hf; lia]. }
  rewrite run_inv. pose proof (item_strict r Hr) as Hs. destruct (read_item r) as [rest|err] eqn:Hread.
  2: { split; [done|]. split; [done|]. intros [|(e & r' & E & He & _)]; [done|]. assert (read_item r = Ok r') by (apply item_spec; eauto). congruence. }
  apply item_spec in Hread as Hex; [|done]. destruct Hex as (e & -> & He). cbn [mbind result_bind]. rewrite consumed_app. destruct (out_of_order previous e) eqn:Ho; cbn [throw_if mbind result_bind].
  { split; [done|]. split; [done|]. intros [|(e' & r' & E & He' & Ho' & _)]; [done|]. assert (read_item (e ++ rest) = Ok r') by (apply item_spec; eauto).
    rewrite Hread in H. injection H as ->. apply app_inv_tail in E as ->. congruence. }
  pose proof Hr as [_ Hrest]%input_app. pose proof (item_length e He). rewrite length_app in Hf. destruct (IH rest (Some e)) as [Hs' Hok]; [destruct e; [done|cbn in Hf; lia]|done|].
  split; [done|]. rewrite Hok. split; [intros Hrun; right; by exists e, rest|]. intros [|(e' & r' & E & He' & _ & Hrun)]; [done|].
  assert (read_item (e ++ rest) = Ok r') as Hr' by (apply item_spec; eauto). rewrite Hread in Hr'. injection Hr' as ->. by apply app_inv_tail in E as ->.
Qed.
End runs.

(** ** Attributes *)

Lemma run_values previous r : run der_value previous r <-> der_values true previous r.
Proof.
  split; [induction 1; by constructor|]. remember true as o eqn:Eo. intros H. revert Eo. induction H; intros; subst; constructor; auto.
Qed.

Lemma entries_loop_spec fuel r previous : (length r <= fuel)%nat -> input r ->
  strict (entries_loop fuel r previous) /\ (entries_loop fuel r previous = Ok tt <-> der_values true previous r).
Proof.
  intros Hf Hr. rewrite <- run_values. apply loop_spec with (read_item := attributeValue); [apply attributeValue_spec|apply attributeValue_strict| |by intros []|done|done].
  intros e He%der_value_length ->. cbn in He. lia.
Qed.

Lemma readOid_spec r r' : input r -> readOid r = Ok r' <-> exists oid, r = tlv 0x06 oid ++ r' /\ oid_content oid.
Proof.
  intros Hr. unfold readOid. split.
  - destruct (read 6 r) as [[oid rest]|e] eqn:E; [|done]. apply read_spec in E as ->; [|done]. apply input_tlv in Hr as [[Hb _] _]. cbn [mbind result_bind].
    destruct (check_oid oid) as [[]|e] eqn:Ho; [|done]. intros [= ->]. exists oid. split; [done|]. by apply check_oid_spec.
  - intros (oid & -> & Ho). rewrite (proj2 (read_spec 6 _ oid r' Hr) eq_refl). apply input_tlv in Hr as [[Hb _] _]. cbn [mbind result_bind]. by rewrite (proj2 (check_oid_spec oid Hb)).
Qed.

Lemma complete_spec r : complete r = Ok tt <-> r = [].
Proof. by destruct r. Qed.

Lemma complete_strict r : strict (complete r).
Proof. by destruct r. Qed.

Lemma readAttribute_spec r r' : input r -> readAttribute r = Ok r' <-> exists e, r = e ++ r' /\ attribute e.
Proof.
  intros Hr. unfold readAttribute. split.
  - destruct (read 48 r) as [[a rest]|e] eqn:E; [|done]. apply read_spec in E as ->; [|done]. apply input_tlv in Hr as [Ha _]. cbn [mbind result_bind].
    destruct (readOid a) as [a1|e] eqn:E1; [|done]. apply readOid_spec in E1 as (oid & -> & Ho); [|done]. apply input_tlv in Ha as [_ Ha]. cbn [mbind result_bind].
    destruct (read 49 a1) as [[entries a2]|e] eqn:E2; [|done]. apply read_spec in E2 as ->; [|done]. apply input_tlv in Ha as [He _]. cbn [mbind result_bind].
    destruct (done_ entries) eqn:Hd; [done|]. apply bool_decide_eq_false in Hd. cbn [throw_if mbind result_bind].
    destruct (entries_loop (length entries) entries None) as [[]|e] eqn:E3; [|done]. apply entries_loop_spec in E3; [|done|done]. cbn [mbind result_bind].
    destruct (complete a2) as [[]|e] eqn:E4; [|done]. apply complete_spec in E4 as ->. intros [= ->]. rewrite app_nil_r. eexists. split; [done|]. by exists oid, entries.
  - intros (e & -> & (oid & entries & -> & Ho & Hne & Hv)). rewrite (proj2 (read_spec _ _ _ r' Hr) eq_refl). apply input_tlv in Hr as [Ha _]. cbn [mbind result_bind].
    rewrite (proj2 (readOid_spec _ (tlv 49 entries) Ha)) by eauto. apply input_tlv in Ha as [_ Ha]. rewrite <- (app_nil_r (tlv 49 entries)) in Ha |- *.
    cbn [mbind result_bind]. rewrite (proj2 (read_spec _ _ entries [] Ha) eq_refl). apply input_tlv in Ha as [He _]. cbn [mbind result_bind].
    unfold done_ at 1. rewrite bool_decide_eq_false_2 by done. cbn [throw_if mbind result_bind]. by rewrite (proj2 (proj2 (entries_loop_spec (length entries) entries None (le_n _) He)) Hv).
Qed.

Lemma readAttribute_strict r : input r -> strict (readAttribute r).
Proof.
  intros Hr. unfold readAttribute. apply strict_bind; [apply read_strict|]. intros [a rest] E. apply read_spec in E as ->; [|done]. apply input_tlv in Hr as [Ha _].
  apply strict_bind; [apply readOid_strict|]. intros a1 E1. apply readOid_spec in E1 as (oid & -> & _); [|done]. apply input_tlv in Ha as [_ Ha].
  apply strict_bind; [apply read_strict|]. intros [entries a2] E2. apply read_spec in E2 as ->; [|done]. apply input_tlv in Ha as [He _].
  apply strict_throw, strict_bind; [by apply entries_loop_spec|]. intros _ _. apply strict_bind; [apply complete_strict|done].
Qed.

Lemma attributes_loop_spec fuel r previous : (length r <= fuel)%nat -> input r ->
  strict (attributes_loop fuel r previous) /\ (attributes_loop fuel r previous = Ok tt <-> run attribute previous r).
Proof.
  intros Hf Hr. apply loop_spec with (read_item := readAttribute); [apply readAttribute_spec|apply readAttribute_strict| |by intros []|done|done].
  by intros e (oid & entries & -> & _).
Qed.

Lemma attributes_spec r r' : input r -> attributes r = Ok r' <-> exists l, r = tlv 0xa0 l ++ r' /\ attribute_list l.
Proof.
  intros Hr. unfold attributes. split.
  - destruct (read 160 r) as [[l rest]|e] eqn:E; [|done]. apply read_spec in E as ->; [|done]. apply input_tlv in Hr as [Hl _]. cbn [mbind result_bind].
    destruct (attributes_loop _ l None) as [[]|e] eqn:E1; [|done]. apply attributes_loop_spec in E1; [|done|done]. intros [= ->]. by exists l.
  - intros (l & -> & Hv). rewrite (proj2 (read_spec _ _ l r' Hr) eq_refl). apply input_tlv in Hr as [Hl _]. cbn [mbind result_bind].
    by rewrite (proj2 (proj2 (attributes_loop_spec (length l) l None (le_n _) Hl)) Hv).
Qed.

Lemma attributes_strict r : input r -> strict (attributes r).
Proof.
  intros Hr. unfold attributes. apply strict_bind; [apply read_strict|]. intros [l rest] E. apply read_spec in E as ->; [|done]. apply input_tlv in Hr as [Hl _].
  apply strict_bind; [|done]. by apply attributes_loop_spec.
Qed.

(** C21: The loops over a stack and over sets accept exactly the attributes of the
    recursive grammar, and fail with the error of an invalid encoding only. *)
Theorem attributes_checked r : input r ->
  (forall r', attributes r = Ok r' <-> exists l, r = tlv 0xa0 l ++ r' /\ attribute_list l) /\ (forall e, attributes r = Err e -> e = invalidDer).
Proof.
  intros Hr. split; [intros r'; by apply attributes_spec|]. intros e He. pose proof (attributes_strict r Hr) as Hs. by rewrite He in Hs.
Qed.

(** A value that is a set of a sequence and a set; with its elements in the other order it is refused. *)
Lemma attributes_checked_witness :
  let attribute value := tlv 0x30 (tlv 0x06 [0x2a; 0x03] ++ tlv 0x31 value) in
  let good := attribute (tlv 0x31 (tlv 0x30 (tlv 0x05 []) ++ tlv 0x31 (tlv 0x01 [0xff] ++ tlv 0x02 [5]))) in
  let bad := attribute (tlv 0x31 (tlv 0x31 (tlv 0x01 [0xff] ++ tlv 0x02 [5]) ++ tlv 0x30 (tlv 0x05 []))) in
  attributes (tlv 0xa0 good ++ [7]) = Ok [7] /\ (exists l, tlv 0xa0 good ++ [7] = tlv 0xa0 l ++ [7] /\ attribute_list l) /\ attributes (tlv 0xa0 bad ++ [7]) = Err invalidDer.
Proof.
  intros attribute good bad. assert (Hb : input (tlv 0xa0 good ++ [7])) by (apply (bool_decide_unpack (input _)); by vm_compute).
  assert (Hok : attributes (tlv 0xa0 good ++ [7]) = Ok [7]) by by vm_compute. split; [exact Hok|]. split; [|by vm_compute].
  by apply (attributes_checked _ Hb).
Defined.
