(* ===== verification/DerEnvelope.v ===== *)
(** * Envelopes of keys ([crypto/der.ts])

    What the parsers of the four families of keys share: the checks on versions, on
    bit strings, on object identifiers and on the end of a private key's envelope,
    and a calculus of parsers: [parses m P] says that [m] returns exactly the values
    of [P], and fails with the error of an invalid encoding otherwise. *)

From S2P Require Import Prelude Der DerValues DerAttributes.
Local Open Scope Z_scope.

Inductive der_format := Spki | Pkcs8.

(** [cryptoViewByteLength(version) !== 1 || version[0] !== n] *)
Definition check_version (version : list Z) (n : Z) : result unit :=
  throw_if (negb (len version =? 1) || negb (at_or 0 version 0 =? n)) invalidDer.

(** [value.done() || value.bytes[value.position++] !== 0]: no unused bits. *)
Definition whole_octets (value : DerReader) : result DerReader :=
  match value with
  | [] => Err invalidDer
  | unused :: rest => throw_if (negb (unused =? 0)) invalidDer ;; Ok rest
  end.

(** [if (!envelope.done()) attributes(envelope); envelope.complete();] *)
Definition finish_private (envelope : DerReader) : result unit :=
  envelope ← (if negb (done_ envelope) then attributes envelope else Ok envelope);
  complete envelope.

(** [for (let index = 0; index < expected.length; index++)] *)
Fixpoint same_octets (bytes expected : list Z) : bool :=
  match bytes, expected with
  | _, [] => true
  | [], _ :: _ => false
  | byte :: bytes, octet :: expected => (byte =? octet) && same_octets bytes expected
  end.
Definition oidEquals (bytes expected : list Z) : bool := (len bytes =? len expected) && same_octets bytes expected.

(** ** Specification *)

(** The attributes of a private key, which may be absent. *)
Definition attributes_encoding (attrs : option (list Z)) : list Z := match attrs with Some l => tlv 0xa0 l | None => [] end.
Definition attributes_ok (attrs : option (list Z)) : Prop := match attrs with Some l => attribute_list l | None => True end.

(** SubjectPublicKeyInfo, and PrivateKeyInfo. *)
Definition spki_encoding (algorithm key : list Z) : list Z := tlv 0x30 (algorithm ++ tlv 0x03 (0 :: key)).
Definition pkcs8_encoding (algorithm key : list Z) (attrs : option (list Z)) : list Z :=
  tlv 0x30 (tlv 0x02 [0] ++ algorithm ++ tlv 0x04 key ++ attributes_encoding attrs).

(** ** Parsers *)

Record parses {A} (m : result A) (P : A -> Prop) : Prop := mk_parses {
  parses_strict : strict m;
  parses_result : forall a, m = Ok a <-> P a }.

Lemma parses_equiv {A} (m : result A) P Q : parses m P -> (forall a, P a <-> Q a) -> parses m Q.
Proof. intros [Hs Hm] E. split; [done|]. intros a. by rewrite Hm. Qed.

Lemma ok_parses {A} (a : A) : parses (Ok a) (fun b => b = a).
Proof. split; [done|]. intros b. split; congruence. Qed.

Lemma bind_parses {A B} (m : result A) (k : A -> result B) P Q :
  parses m P -> (forall a, P a -> parses (k a) (Q a)) -> parses (m ≫= k) (fun b => exists a, P a /\ Q a b).
Proof.
  intros [Hs Hm] Hk. split; [apply strict_bind; [done|]; intros a Ha; apply Hk; by apply Hm|]. intros b. split.
  - destruct m as [a|e]; [|done]. cbn. intros Hb. exists a. pose proof (proj1 (Hm a) eq_refl) as Ha. split; [done|]. by apply (Hk a Ha).
  - intros (a & Ha & Hb). rewrite (proj2 (Hm a) Ha). cbn. by apply (Hk a Ha).
Qed.

Lemma guard_parses {A} c (k : result A) (P : Prop) Q : (c = false <-> P) -> (P -> parses k Q) -> parses (throw_if c invalidDer ;; k) (fun a => P /\ Q a).
Proof.
  intros Hc Hk. destruct c; cbn.
  - split; [done|]. intros a. split; [done|]. intros [HP _]. by apply Hc in HP.
  - assert P as HP by by apply Hc. destruct (Hk HP) as [Hs Ha]. split; [done|]. intros a. rewrite Ha. tauto.
Qed.

Lemma pair_parses {A B C} (m : result (A * B)) (k : A * B -> result C) (P : A -> B -> Prop) Q :
  parses m (fun x => P x.1 x.2) -> (forall a b, P a b -> parses (k (a, b)) (Q a b)) -> parses (m ≫= k) (fun c => exists a b, P a b /\ Q a b c).
Proof.
  intros Hm Hk. eapply parses_equiv; [apply (bind_parses _ _ _ (fun x => Q x.1 x.2) Hm)|].
  - intros [a b] H. by apply Hk.
  - intros c. split; [intros ([a b] & H & Hc); by exists a, b|]. intros (a & b & H & Hc). by exists (a, b).
Qed.

(** An element, and the rest of a parser. *)
Lemma read_parses {A} tag r (k : DerReader * DerReader -> result A) Q : input r ->
  (forall c r', r = tlv tag c ++ r' -> input c -> input r' -> parses (k (c, r')) (Q c r')) ->
  parses (read tag r ≫= k) (fun a => exists c r', r = tlv tag c ++ r' /\ Q c r' a).
Proof.
  intros Hr Hk. apply pair_parses.
  - split; [apply read_strict|]. intros [c r']. by apply read_spec.
  - intros c r' E. pose proof Hr as Hin. rewrite E in Hin. apply input_tlv in Hin as [Hc Hr']. by apply Hk.
Qed.

Lemma integer_strict allowZero r : strict (integer allowZero r).
Proof. unfold integer. apply strict_bind; [apply read_strict|]. intros [[|first more] rest] _; [done|]. by do 3 apply strict_throw. Qed.

Lemma integer_parses {A} allowZero r (k : list Z * DerReader -> result A) Q : input r -> (forall v r', natural_ok allowZero v -> input r' -> parses (k (v, r')) (Q v r')) ->
  parses (integer allowZero r ≫= k) (fun a => exists v r', r = der_integer v ++ r' /\ natural_ok allowZero v /\ Q v r' a).
Proof.
  intros Hr Hk. eapply parses_equiv.
  - apply (pair_parses _ _ (fun v r' => r = der_integer v ++ r' /\ natural_ok allowZero v)).
    + split; [apply integer_strict|]. intros [v r']. by apply integer_spec.
    + intros v r' [-> Hv]. apply input_tlv in Hr as [_ Hr]. by apply Hk.
  - intros a. split; intros (v & r' & H); exists v, r'; tauto.
Qed.

Lemma complete_parses {A} r (k : result A) Q : parses k Q -> parses (complete r ;; k) (fun a => r = [] /\ Q a).
Proof. intros Hk. apply guard_parses; [|done]. by destruct r. Qed.

Lemma version_parses {A} version n (k : result A) Q : parses k Q -> parses (check_version version n ;; k) (fun a => version = [n] /\ Q a).
Proof.
  intros Hk. apply guard_parses; [|done]. rewrite orb_false_iff, !negb_false_iff, !Z.eqb_eq. split.
  - intros [Hl Hv]. destruct version as [|v [|w version]]; [done| |rewrite !len_cons in Hl; pose proof (len_nonneg version); lia]. change (at_or 0 [v] 0) with v in Hv. by subst v.
  - by intros ->.
Qed.

Lemma octets_parses {A} r (k : DerReader -> result A) Q : input r -> (forall r', input r' -> parses (k r') (Q r')) ->
  parses (whole_octets r ≫= k) (fun a => exists r', r = 0 :: r' /\ Q r' a).
Proof.
  intros Hr Hk. apply bind_parses.
  - destruct r as [|unused r]; [by split|]. eapply parses_equiv; [apply (guard_parses _ _ (unused = 0)); [lia|intros _; apply ok_parses]|].
    intros r'. split; [by intros [-> ->]|by intros [= -> ->]].
  - intros r' ->. apply Hk. by apply input_cons in Hr as [_ Hr].
Qed.

Lemma finish_parses {A} r (k : result A) Q : input r -> parses k Q ->
  parses (finish_private r ;; k) (fun a => (exists attrs, r = attributes_encoding attrs /\ attributes_ok attrs) /\ Q a).
Proof.
  intros Hr Hk. eapply parses_equiv; [apply (bind_parses _ _ (fun _ => exists attrs, r = attributes_encoding attrs /\ attributes_ok attrs) (fun _ => Q))|].
  - unfold finish_private. destruct (done_ r) eqn:Hd; [apply bool_decide_eq_true in Hd as ->|apply bool_decide_eq_false in Hd]; cbn [negb].
    + split; [done|]. intros []. split; [by exists None|done].
    + eapply parses_equiv; [apply bind_parses; [split; [by apply attributes_strict|]; intros r'; by apply attributes_spec|]; intros r' _; apply (mk_parses _ _ (fun _ => r' = []));
          [apply complete_strict|intros []; apply complete_spec]|].
      intros []. split.
      * intros (r' & (l & -> & Hl) & ->). exists (Some l). cbn [attributes_encoding]. by rewrite app_nil_r.
      * intros ([l|] & -> & Hl); [|done]. exists []. split; [|done]. exists l. cbn [attributes_encoding]. by rewrite app_nil_r.
  - by intros _ _.
  - intros a. split; [by intros ([] & H1 & H2)|]. intros [H1 H2]. by exists tt.
Qed.

(** ** Identifiers *)

Lemma same_octets_spec bytes : forall expected, length bytes = length expected -> same_octets bytes expected = true <-> bytes = expected.
Proof.
  induction bytes as [|b bytes IH]; intros [|o expected] Hl; try done. cbn [same_octets]. rewrite andb_true_iff, IH by (cbn in Hl; lia). rewrite Z.eqb_eq.
  split; [by intros [-> ->]|by intros [= -> ->]].
Qed.

Lemma oidEquals_spec bytes expected : oidEquals bytes expected = true <-> bytes = expected.
Proof.
  unfold oidEquals. rewrite andb_true_iff, Z.eqb_eq. split.
  - intros [Hl Hs]. apply same_octets_spec in Hs; [done|]. unfold len in Hl. lia.
  - intros ->. split; [done|]. by apply same_octets_spec.
Qed.

Lemma same_oid oid expected : len oid = len expected -> negb (same_octets oid expected) = false <-> oid = expected.
Proof. intros Hl. rewrite negb_false_iff. apply same_octets_spec. unfold len in Hl. lia. Qed.

(** One step of a parser, with the readers it leaves. *)
Ltac parse_step :=
  first [ apply read_parses; [assumption|intros ? ? ? ? ?] | apply integer_parses; [assumption|intros ? ? ? ?] | apply complete_parses | apply version_parses
        | apply octets_parses; [assumption|intros ? ?] | apply finish_parses; [assumption|] | apply ok_parses ]; cbv beta iota.

(** Exactly the values of [P] are returned, and anything else is a DataError. *)
Lemma parses_exact {A} (m : result A) P : parses m P -> (forall a, m = Ok a <-> P a) /\ ((forall a, ~ P a) -> m = Err invalidDer).
Proof.
  intros [Hs Hm]. split; [exact Hm|]. intros Hno. destruct m as [a|e]; [|by rewrite Hs]. destruct (Hno a). by apply Hm.
Qed.
