(* ===== verification/DerRsa.v ===== *)
(** * RSA keys ([parseRsaDer], [crypto/der.ts])

    SubjectPublicKeyInfo and PrivateKeyInfo with the key structures of PKCS #1.
    [rsa_der_canonical] says that the parser accepts exactly the DER encodings of
    the components that it returns. *)

From S2P Require Import Prelude Der DerValues DerAttributes DerEnvelope.
Local Open Scope Z_scope.

Record CryptoRsaOtherPrime := mk_prime { o_r : list Z; o_d : list Z; o_t : list Z }.
Record CryptoRsaComponents := mk_rsa {
  rsa_n : list Z; rsa_e : list Z;
  rsa_d : option (list Z); rsa_p : option (list Z); rsa_q : option (list Z);
  rsa_dp : option (list Z); rsa_dq : option (list Z); rsa_qi : option (list Z);
  rsa_oth : option (list CryptoRsaOtherPrime) }.

Definition rsaEncryptionOid : list Z := [0x2a; 0x86; 0x48; 0x86; 0xf7; 0x0d; 0x01; 0x01; 0x01].

Definition rsaAlgorithm (requireNullParameters : bool) (reader : DerReader) : result DerReader :=
  '(algorithm, reader) ← read 0x30 reader;
  '(oid, algorithm) ← read 0x06 algorithm;
  throw_if (negb (len oid =? len rsaEncryptionOid)) invalidDer ;;
  throw_if (negb (same_octets oid rsaEncryptionOid)) invalidDer ;;
  algorithm ← (if requireNullParameters || negb (done_ algorithm) then
                 '(null, algorithm) ← read 0x05 algorithm; complete null ;; Ok algorithm
               else Ok algorithm);
  complete algorithm ;;
  Ok reader.

Definition publicComponents (reader : DerReader) : result CryptoRsaComponents :=
  '(key, reader) ← read 0x30 reader;
  complete reader ;;
  '(n, key) ← integer false key;
  '(e, key) ← integer false key;
  complete key ;;
  Ok (mk_rsa n e None None None None None None None).

(** [while (!others.done())] *)
Fixpoint others_loop (fuel : nat) (others : DerReader) : result (list CryptoRsaOtherPrime) :=
  if done_ others then Ok []
  else
    match fuel with
    | O => Err OutOfFuel
    | S fuel =>
        '(prime, others) ← read 0x30 others;
        '(r, prime) ← integer false prime;
        '(factorExponent, prime) ← integer false prime;
        '(t, prime) ← integer false prime;
        complete prime ;;
        oth ← others_loop fuel others;
        Ok (mk_prime r factorExponent t :: oth)
    end.

Definition privateComponents (reader : DerReader) : result CryptoRsaComponents :=
  '(key, reader) ← read 0x30 reader;
  complete reader ;;
  '(version, key) ← integer true key;
  throw_if (negb (len version =? 1) || (negb (at_or 0 version 0 =? 0) && negb (at_or 0 version 0 =? 1))) invalidDer ;;
  '(n, key) ← integer false key;
  '(e, key) ← integer false key;
  '(d, key) ← integer false key;
  '(p, key) ← integer false key;
  '(q, key) ← integer false key;
  '(dp, key) ← integer false key;
  '(dq, key) ← integer false key;
  '(qi, key) ← integer false key;
  if at_or 0 version 0 =? 0 then
    complete key ;;
    Ok (mk_rsa n e (Some d) (Some p) (Some q) (Some dp) (Some dq) (Some qi) None)
  else
    '(others, key) ← read 0x30 key;
    throw_if (done_ others) invalidDer ;;
    oth ← others_loop (length others) others;
    complete key ;;
    Ok (mk_rsa n e (Some d) (Some p) (Some q) (Some dp) (Some dq) (Some qi) (Some oth)).

Definition parseRsaDer (format : der_format) (bytes : list Z) (requireNullParameters : bool) : result CryptoRsaComponents :=
  '(envelope, source) ← read 0x30 bytes;
  complete source ;;
  match format with
  | Spki =>
      envelope ← rsaAlgorithm requireNullParameters envelope;
      '(publicKey, envelope) ← read 0x03 envelope;
      publicKey ← whole_octets publicKey;
      complete envelope ;;
      publicComponents publicKey
  | Pkcs8 =>
      '(version, envelope) ← integer true envelope;
      check_version version 0 ;;
      envelope ← rsaAlgorithm requireNullParameters envelope;
      '(privateKey, envelope) ← read 0x04 envelope;
      finish_private envelope ;;
      privateComponents privateKey
  end.

(** ** Specification *)

Definition rsa_algorithm (null : bool) : list Z := tlv 0x30 (tlv 0x06 rsaEncryptionOid ++ if null then tlv 0x05 [] else []).

Definition integers (vs : list (list Z)) : list Z := concat (map der_integer vs).
Definition naturals (vs : list (list Z)) : Prop := Forall (natural_ok false) vs.

Definition prime_integers (o : CryptoRsaOtherPrime) : list (list Z) := [o_r o; o_d o; o_t o].
Definition prime_encoding (o : CryptoRsaOtherPrime) : list Z := tlv 0x30 (integers (prime_integers o)).

Inductive rsa_public_key : CryptoRsaComponents -> list Z -> Prop :=
| rsa_public n e : naturals [n; e] -> rsa_public_key (mk_rsa n e None None None None None None None) (tlv 0x30 (integers [n; e])).

Inductive rsa_private_key : CryptoRsaComponents -> list Z -> Prop :=
| rsa_two_primes n e d p q dp dq qi : naturals [n; e; d; p; q; dp; dq; qi] ->
    rsa_private_key (mk_rsa n e (Some d) (Some p) (Some q) (Some dp) (Some dq) (Some qi) None)
      (tlv 0x30 (der_integer [0] ++ integers [n; e; d; p; q; dp; dq; qi]))
| rsa_more_primes n e d p q dp dq qi oth : naturals [n; e; d; p; q; dp; dq; qi] -> oth <> [] -> Forall (fun o => naturals (prime_integers o)) oth ->
    rsa_private_key (mk_rsa n e (Some d) (Some p) (Some q) (Some dp) (Some dq) (Some qi) (Some oth))
      (tlv 0x30 (der_integer [1] ++ integers [n; e; d; p; q; dp; dq; qi] ++ tlv 0x30 (concat (map prime_encoding oth)))).

Inductive rsa_der (requireNull : bool) : der_format -> CryptoRsaComponents -> list Z -> Prop :=
| rsa_der_spki null k key : (requireNull = true -> null = true) -> rsa_public_key k key ->
    rsa_der requireNull Spki k (spki_encoding (rsa_algorithm null) key)
| rsa_der_pkcs8 null k key attrs : (requireNull = true -> null = true) -> rsa_private_key k key -> attributes_ok attrs ->
    rsa_der requireNull Pkcs8 k (pkcs8_encoding (rsa_algorithm null) key attrs).

(** ** Algorithm identifiers *)

Lemma null_parses {A} required r (k : DerReader -> result A) Q : input r -> (forall r', input r' -> parses (k r') (Q r')) ->
  parses ((if required || negb (done_ r) then '(null, r) ← read 0x05 r; complete null ;; Ok r else Ok r) ≫= k)
    (fun a => exists r', ((required = false /\ r = [] /\ r' = []) \/ r = tlv 0x05 [] ++ r') /\ Q r' a).
Proof.
  intros Hr Hk. apply bind_parses.
  - destruct (done_ r) eqn:Hd; [apply bool_decide_eq_true in Hd as ->|apply bool_decide_eq_false in Hd].
    + destruct required; cbn [orb negb]; [split; [done|]; intros r'; split; [done|]; by intros [[? _]|?]|].
      eapply parses_equiv; [apply ok_parses|]. intros r'. split; [auto|]. by intros [(_ & _ & ->)|?].
    + rewrite orb_true_r. eapply parses_equiv; [repeat parse_step|]. intros r'. split.
      * intros (c & r0 & -> & -> & ->). by right.
      * intros [(_ & ? & _)| ->]; [done|]. by exists [], r'.
  - intros r' [(_ & -> & ->)| ->]; apply Hk; [done|]. by apply input_tlv in Hr as [_ ?].
Qed.

Lemma rsaAlgorithm_parses requireNull r : input r ->
  parses (rsaAlgorithm requireNull r) (fun r' => exists null, r = rsa_algorithm null ++ r' /\ (requireNull = true -> null = true)).
Proof.
  intros Hr. unfold rsaAlgorithm. eapply parses_equiv.
  - do 2 parse_step. apply guard_parses with (P := len c0 = len rsaEncryptionOid); [lia|]. intros Hl. apply guard_parses; [by apply same_oid|]. intros _.
    apply null_parses; [done|]. intros ? ?. do 2 parse_step.
  - intros r'. split.
    + intros (c & r0 & -> & oid & a & -> & _ & -> & a' & Hnull & -> & ->). destruct Hnull as [(-> & -> & _)| ->]; [by exists false|by exists true].
    + intros (null & -> & Hnull). unfold rsa_algorithm. do 2 eexists. split; [done|]. do 2 eexists. do 3 (split; [done|]). exists []. split; [|done].
      destruct null; [by right|]. left. destruct requireNull; [by specialize (Hnull eq_refl)|done].
Qed.

(** ** Keys *)

Lemma integers_app vs r : integers vs ++ r = foldr (fun v r => der_integer v ++ r) r vs.
Proof. unfold integers. induction vs as [|v vs IH]; [done|]. cbn [map concat foldr]. by rewrite <- app_assoc, IH. Qed.

Lemma publicComponents_parses r : input r -> parses (publicComponents r) (fun k => rsa_public_key k r).
Proof.
  intros Hr. unfold publicComponents. eapply parses_equiv; [repeat parse_step|]. intros k. split.
  - intros (c & r0 & -> & -> & n & r1 & -> & Hn & e & r2 & -> & He & -> & ->). rewrite app_nil_r. constructor. unfold naturals. by rewrite !Forall_cons, Forall_nil.
  - intros [n e [Hn [He _]%Forall_cons]%Forall_cons]. do 2 eexists. split; [by rewrite app_nil_r|]. split; [done|]. do 2 eexists. do 2 (split; [done|]). by do 2 eexists.
Qed.

Lemma others_loop_parses fuel : forall r, (length r <= fuel)%nat -> input r ->
  parses (others_loop fuel r) (fun oth => r = concat (map prime_encoding oth) /\ Forall (fun o => naturals (prime_integers o)) oth).
Proof.
  induction fuel as [|fuel IH]; intros r Hf Hr; cbn [others_loop]; (destruct (done_ r) eqn:Hd; [apply bool_decide_eq_true in Hd as ->|apply bool_decide_eq_false in Hd]).
  1, 3: eapply parses_equiv; [apply ok_parses|]; intros oth; split; [by intros ->|]; by intros [? _]; destruct oth as [|o oth].
  { destruct r; [done|cbn in Hf; lia]. }
  eapply parses_equiv.
  - do 5 parse_step. apply bind_parses; [apply IH; [|done]|intros oth _; apply ok_parses]. subst r. unfold tlv in Hf. rewrite length_app in Hf. cbn in Hf. lia.
  - intros oth. split.
    + intros (c & rest & -> & v1 & r1 & -> & H1 & v2 & r2 & -> & H2 & v3 & r3 & -> & H3 & -> & more & [-> Hmore] & ->). cbn [map concat]. split; [done|]. constructor; [|done]. unfold naturals, prime_integers. by rewrite !Forall_cons, Forall_nil.
    + intros [-> Hoth]. destruct Hoth as [|[v1 v2 v3] oth Ho Hoth]; [done|]. unfold naturals, prime_integers in Ho. rewrite !Forall_cons in Ho. destruct Ho as (H1 & H2 & H3 & _).
      cbn [map concat]. do 2 eexists. split; [done|]. do 3 (do 2 eexists; split; [done|]; split; [done|]). split; [done|]. by eexists.
Qed.

(** The version, and the primes that only the second version has. *)
Definition more_primes (version : list Z) (oth : option (list CryptoRsaOtherPrime)) (key : list Z) : Prop :=
  match oth with
  | None => version = [0] /\ key = []
  | Some oth => version = [1] /\ key = tlv 0x30 (concat (map prime_encoding oth)) /\ oth <> [] /\ Forall (fun o => naturals (prime_integers o)) oth
  end.

Lemma version_checked version : negb (len version =? 1) || (negb (at_or 0 version 0 =? 0) && negb (at_or 0 version 0 =? 1)) = false <-> version = [0] \/ version = [1].
Proof.
  destruct version as [|v [|w version]].
  - split; [done|]. by intros [|].
  - change (at_or 0 [v] 0) with v. change (len [v] =? 1) with true. cbn [negb orb]. rewrite andb_false_iff, !negb_false_iff, !Z.eqb_eq. split.
    + by intros [->| ->]; [left|right].
    + by intros [[= ->]|[= ->]]; [left|right].
  - rewrite !len_cons. pose proof (len_nonneg version). destruct (Z.eqb_spec (len version + 1 + 1) 1); [lia|]. split; [done|]. by intros [|].
Qed.

Lemma more_primes_parses version key (f : option (list CryptoRsaOtherPrime) -> CryptoRsaComponents) : input key -> version = [0] \/ version = [1] ->
  parses (if at_or 0 version 0 =? 0 then complete key ;; Ok (f None)
    else '(others, key) ← read 0x30 key; throw_if (done_ others) invalidDer ;; oth ← others_loop (length others) others; complete key ;; Ok (f (Some oth)))
    (fun k => exists oth, k = f oth /\ more_primes version oth key).
Proof.
  intros Hk [->| ->].
  - change (at_or 0 [0] 0 =? 0) with true. eapply parses_equiv; [repeat parse_step|]. intros k. split; [intros [-> ->]; by exists None|].
    by intros ([oth|] & -> & H & ?).
  - change (at_or 0 [1] 0 =? 0) with false. eapply parses_equiv.
    + parse_step. apply guard_parses with (P := c <> []); [apply bool_decide_eq_false|]. intros _. apply bind_parses; [by apply others_loop_parses|].
      intros oth _. repeat parse_step.
    + intros k. split.
      * intros (others & r' & -> & Hne & oth & [-> Hoth] & -> & ->). exists (Some oth). rewrite app_nil_r. split_and!; [done|]. by destruct oth.
      * intros ([oth|] & -> & Hp); [|by destruct Hp]. destruct Hp as (_ & -> & Hne & Hoth). do 2 eexists. split; [by rewrite app_nil_r|].
        split; [by destruct oth|]. by exists oth.
Qed.

Lemma privateComponents_parses r : input r -> parses (privateComponents r) (fun k => rsa_private_key k r).
Proof.
  intros Hr. unfold privateComponents. eapply parses_equiv.
  - do 3 parse_step. apply guard_parses; [apply version_checked|]. intros Hv. do 8 parse_step.
    apply (more_primes_parses v r'8 (mk_rsa v0 v1 (Some v2) (Some v3) (Some v4) (Some v5) (Some v6) (Some v7))); assumption.
  - intros k. split.
    + intros (c & r0 & -> & -> & version & r1 & -> & _ & Hv & n & r2 & -> & H1 & e & r3 & -> & H2 & d & r4 & -> & H3 & p & r5 & -> & H4 & q & r6 & -> & H5 &
        dp & r7 & -> & H6 & dq & r8 & -> & H7 & qi & r9 & -> & H8 & oth & -> & Hoth).
      assert (Hn : naturals [n; e; d; p; q; dp; dq; qi]) by (unfold naturals; by rewrite !Forall_cons, Forall_nil).
      rewrite app_nil_r. destruct oth as [oth|]; [destruct Hoth as (-> & -> & Hne & Ho)|destruct Hoth as (-> & ->)].
      * pose proof (rsa_more_primes n e d p q dp dq qi oth Hn Hne Ho) as Hk. rewrite integers_app in Hk. exact Hk.
      * exact (rsa_two_primes n e d p q dp dq qi Hn).
    + intros Hk. destruct Hk as [n e d p q dp dq qi Hn|n e d p q dp dq qi oth Hn Hne Ho]; unfold naturals in Hn; rewrite !Forall_cons in Hn;
        destruct Hn as (H1 & H2 & H3 & H4 & H5 & H6 & H7 & H8 & _); (do 2 eexists; split; [by rewrite app_nil_r|]; split; [done|]).
      * exists [0]; eexists. split; [done|]. split; [by left|]. split; [by left|]. do 8 (do 2 eexists; split; [done|]; split; [done|]). by exists None.
      * rewrite integers_app. exists [1]; eexists. split; [done|]. split; [right; exists 1, []; split; [done|lia]|]. split; [by right|]. do 8 (do 2 eexists; split; [done|]; split; [done|]). by exists (Some oth).
Qed.

Lemma algorithm_parses {A} requireNull r (k : DerReader -> result A) Q : input r -> (forall r', input r' -> parses (k r') (Q r')) ->
  parses (rsaAlgorithm requireNull r ≫= k) (fun a => exists r', (exists null, r = rsa_algorithm null ++ r' /\ (requireNull = true -> null = true)) /\ Q r' a).
Proof.
  intros Hr Hk. apply bind_parses; [by apply rsaAlgorithm_parses|]. intros r' (null & -> & _). apply Hk. by apply input_tlv in Hr as [_ ?].
Qed.

Lemma parseRsaDer_parses format bytes requireNull : input bytes -> parses (parseRsaDer format bytes requireNull) (fun k => rsa_der requireNull format k bytes).
Proof.
  intros Hb. unfold parseRsaDer. destruct format.
  - eapply parses_equiv; [do 2 parse_step; apply algorithm_parses; [done|intros ? ?]; do 3 parse_step; by apply publicComponents_parses|]. intros k. split.
    + intros (c & r0 & -> & -> & r1 & (null & -> & Hnull) & bits & r2 & -> & key & -> & -> & Hk). rewrite !app_nil_r. by constructor.
    + intros Hk. inversion Hk as [null ? key Hnull Hkey E1 E2 E3|]; subst. do 2 eexists. split; [by rewrite app_nil_r|]. split; [done|]. eexists. split; [by exists null|].
      do 2 eexists. split; [by rewrite app_nil_r|]. by eexists.
  - eapply parses_equiv; [do 4 parse_step; apply algorithm_parses; [done|intros ? ?]; do 2 parse_step; by apply privateComponents_parses|]. intros k. split.
    + intros (c & r0 & -> & -> & v & r1 & -> & _ & -> & r2 & (null & -> & Hnull) & key & r3 & -> & (attrs & -> & Ha) & Hk). rewrite app_nil_r. by apply (rsa_der_pkcs8 _ null k key attrs).
    + intros Hk. inversion Hk as [|null ? key attrs Hnull Hkey Ha E1 E2 E3]; subst. do 2 eexists. split; [by rewrite app_nil_r|]. split; [done|].
      exists [0]. eexists. split; [done|]. split; [by left|]. split; [done|]. eexists. split; [by exists null|]. do 2 eexists. split; [done|]. split; [by exists attrs|done].
Qed.

(** C19: Exactly the DER encodings of the components that are returned are accepted,
    and any other input is a DataError. *)
Theorem rsa_der_canonical format bytes requireNull : input bytes ->
  (forall k, parseRsaDer format bytes requireNull = Ok k <-> rsa_der requireNull format k bytes) /\
  ((forall k, ~ rsa_der requireNull format k bytes) -> parseRsaDer format bytes requireNull = Err invalidDer).
Proof. intros Hb. by apply parses_exact, parseRsaDer_parses. Qed.

(** A public key of one octet, with and without the parameters, and a private key with a third prime. *)
Lemma rsa_der_canonical_witness :
  let key := tlv 0x30 (der_integer [1] ++ integers [[33]; [3]; [7]; [3]; [11]; [1]; [7]; [2]] ++ tlv 0x30 (concat (map prime_encoding [mk_prime [200] [1] [1]]))) in
  let bytes := pkcs8_encoding (rsa_algorithm false) key None in
  let k := mk_rsa [33] [3] (Some [7]) (Some [3]) (Some [11]) (Some [1]) (Some [7]) (Some [2]) (Some [mk_prime [200] [1] [1]]) in
  parseRsaDer Pkcs8 bytes false = Ok k /\ rsa_der false Pkcs8 k bytes /\ parseRsaDer Pkcs8 bytes true = Err invalidDer.
Proof.
  intros key bytes k. assert (Hb : input bytes) by (apply (bool_decide_unpack (input bytes)); by vm_compute).
  assert (Hok : parseRsaDer Pkcs8 bytes false = Ok k) by by vm_compute. split; [exact Hok|]. split; [|by vm_compute].
  by apply (rsa_der_canonical Pkcs8 bytes false).
Defined.
