(* ===== verification/DerEc.v ===== *)
(** * Elliptic curve keys ([parseEcDer], [parseEcPoint], [crypto/der.ts], [crypto/ec-curve.ts])

    [ec_der_canonical] says that the parser accepts exactly the DER encodings of the
    curve, the point and the scalar that it returns. *)

From S2P Require Import Prelude Der DerValues DerAttributes DerEnvelope.
Local Open Scope Z_scope.

Inductive CryptoNamedCurve := P256 | P384 | P521.

#[export] Instance curve_dec : EqDecision CryptoNamedCurve.
Proof. solve_decision. Defined.

Definition ecCurveByteLength (namedCurve : CryptoNamedCurve) : Z := match namedCurve with P256 => 32 | P384 => 48 | P521 => 66 end.

Definition ecPublicKeyOid : list Z := [0x2a; 0x86; 0x48; 0xce; 0x3d; 0x02; 0x01].
Definition p256Oid : list Z := [0x2a; 0x86; 0x48; 0xce; 0x3d; 0x03; 0x01; 0x07].
Definition p384Oid : list Z := [0x2b; 0x81; 0x04; 0x00; 0x22].
Definition p521Oid : list Z := [0x2b; 0x81; 0x04; 0x00; 0x23].

Definition ecNamedCurve (reader : DerReader) : result (CryptoNamedCurve * DerReader) :=
  '(oid, reader) ← read 0x06 reader;
  if oidEquals oid p256Oid then Ok (P256, reader)
  else if oidEquals oid p384Oid then Ok (P384, reader)
  else if oidEquals oid p521Oid then Ok (P521, reader)
  else Err invalidDer.

Definition ecAlgorithm (reader : DerReader) : result (CryptoNamedCurve * DerReader) :=
  '(algorithm, reader) ← read 0x30 reader;
  '(oid, algorithm) ← read 0x06 algorithm;
  throw_if (negb (oidEquals oid ecPublicKeyOid)) invalidDer ;;
  '(namedCurve, algorithm) ← ecNamedCurve algorithm;
  complete algorithm ;;
  Ok (namedCurve, reader).

Record CryptoEcComponents := mk_point { ec_x : list Z; ec_y : list Z }.

Definition parseEcPoint (bytes : list Z) (namedCurve : CryptoNamedCurve) : result CryptoEcComponents :=
  let width := ecCurveByteLength namedCurve in
  throw_if (negb (len bytes =? 1 + 2 * width) || negb (at_or 0 bytes 0 =? 0x04)) invalidDer ;;
  Ok (mk_point (subarray bytes 1 (1 + width)) (subarray bytes (1 + width) (1 + 2 * width))).

Definition ecBitString (reader : DerReader) (namedCurve : CryptoNamedCurve) : result (CryptoEcComponents * DerReader) :=
  '(value, reader) ← read 0x03 reader;
  value ← whole_octets value;
  point ← parseEcPoint value namedCurve;
  Ok (point, reader).

Record EcDerKey := mk_ec { eck_curve : CryptoNamedCurve; eck_x : option (list Z); eck_y : option (list Z); eck_d : option (list Z) }.

(** [!privateKey.done() && privateKey.peek() === tag] *)
Definition next_is (reader : DerReader) (tag : Z) : bool := bool_decide (head reader = Some tag).

Definition parseEcDer (format : der_format) (bytes : list Z) (requirePrivateFields : bool) : result EcDerKey :=
  '(envelope, source) ← read 0x30 bytes;
  complete source ;;
  match format with
  | Spki =>
      '(namedCurve, envelope) ← ecAlgorithm envelope;
      '(point, envelope) ← ecBitString envelope namedCurve;
      complete envelope ;;
      Ok (mk_ec namedCurve (Some (ec_x point)) (Some (ec_y point)) None)
  | Pkcs8 =>
      '(version, envelope) ← integer true envelope;
      check_version version 0 ;;
      '(namedCurve, envelope) ← ecAlgorithm envelope;
      '(privateOctets, envelope) ← read 0x04 envelope;
      finish_private envelope ;;
      '(privateKey, privateOctets) ← read 0x30 privateOctets;
      complete privateOctets ;;
      '(privateVersion, privateKey) ← integer false privateKey;
      check_version privateVersion 1 ;;
      '(d, privateKey) ← read 0x04 privateKey;
      throw_if (negb (len d =? ecCurveByteLength namedCurve)) invalidDer ;;
      privateKey ← (if next_is privateKey 0xa0 then
                      '(parameters, privateKey) ← read 0xa0 privateKey;
                      '(curve, parameters) ← ecNamedCurve parameters;
                      throw_if (negb (bool_decide (curve = namedCurve))) invalidDer ;;
                      complete parameters ;;
                      Ok privateKey
                    else throw_if requirePrivateFields invalidDer ;; Ok privateKey);
      '(point, privateKey) ← (if next_is privateKey 0xa1 then
                                '(publicKey, privateKey) ← read 0xa1 privateKey;
                                '(point, publicKey) ← ecBitString publicKey namedCurve;
                                complete publicKey ;;
                                Ok (Some point, privateKey)
                              else throw_if requirePrivateFields invalidDer ;; Ok (None, privateKey));
      complete privateKey ;;
      Ok (mk_ec namedCurve (ec_x <$> point) (ec_y <$> point) (Some d))
  end.

(** ** Specification *)

Definition curve_oid (curve : CryptoNamedCurve) : list Z := match curve with P256 => p256Oid | P384 => p384Oid | P521 => p521Oid end.
Definition ec_algorithm (curve : CryptoNamedCurve) : list Z := tlv 0x30 (tlv 0x06 ecPublicKeyOid ++ tlv 0x06 (curve_oid curve)).

(** An uncompressed point of the curve's width. *)
Definition point_ok (curve : CryptoNamedCurve) (p : CryptoEcComponents) : Prop := len (ec_x p) = ecCurveByteLength curve /\ len (ec_y p) = ecCurveByteLength curve.
Definition point_encoding (p : CryptoEcComponents) : list Z := 0x04 :: ec_x p ++ ec_y p.
Definition point_bits (p : CryptoEcComponents) : list Z := tlv 0x03 (0 :: point_encoding p).

Definition ec_private_key (curve : CryptoNamedCurve) (d : list Z) (parameters : bool) (point : option CryptoEcComponents) : list Z :=
  tlv 0x30 (der_integer [1] ++ tlv 0x04 d ++ (if parameters then tlv 0xa0 (tlv 0x06 (curve_oid curve)) else []) ++
            match point with Some p => tlv 0xa1 (point_bits p) | None => [] end).

Inductive ec_der (requireFields : bool) : der_format -> EcDerKey -> list Z -> Prop :=
| ec_der_spki curve p : point_ok curve p ->
    ec_der requireFields Spki (mk_ec curve (Some (ec_x p)) (Some (ec_y p)) None) (spki_encoding (ec_algorithm curve) (point_encoding p))
| ec_der_pkcs8 curve d parameters point attrs : len d = ecCurveByteLength curve -> (forall p, point = Some p -> point_ok curve p) -> attributes_ok attrs ->
    (requireFields = true -> parameters = true /\ is_Some point) ->
    ec_der requireFields Pkcs8 (mk_ec curve (ec_x <$> point) (ec_y <$> point) (Some d))
      (pkcs8_encoding (ec_algorithm curve) (ec_private_key curve d parameters point) attrs).

(** ** Points *)

Lemma subarray_app (a b c : list Z) : subarray (a ++ b ++ c) (len a) (len a + len b) = b.
Proof. unfold subarray, len. rewrite Nat2Z.id, drop_app_length. replace (Z.of_nat (length a) + Z.of_nat (length b) - Z.of_nat (length a)) with (Z.of_nat (length b)) by lia. by rewrite Nat2Z.id, take_app_length. Qed.

Lemma parseEcPoint_parses bytes curve : parses (parseEcPoint bytes curve) (fun p => bytes = point_encoding p /\ point_ok curve p).
Proof.
  unfold parseEcPoint. cbv zeta. assert (Hw : 0 < ecCurveByteLength curve) by by destruct curve. set (w := ecCurveByteLength curve) in *.
  eapply parses_equiv; [apply guard_parses with (P := len bytes = 1 + 2 * w /\ at_or 0 bytes 0 = 4); [lia|]; intros _; apply ok_parses|]. intros p. split.
  - intros [[Hl H4] ->]. destruct bytes as [|first bytes]; [change (len []) with 0 in Hl; lia|]. change (at_or 0 (first :: bytes) 0) with first in H4. subst first. rewrite len_cons in Hl.
    set (x := take (Z.to_nat w) bytes). set (y := drop (Z.to_nat w) bytes). assert (E : bytes = x ++ y) by (symmetry; apply take_drop).
    assert (Hx : len x = w) by (unfold x, len in *; rewrite length_take; lia). assert (Hy : len y = w) by (unfold y, len in *; rewrite length_drop; lia).
    replace (subarray (4 :: bytes) 1 (1 + w)) with x. 2: { symmetry. rewrite E, <- Hx. exact (subarray_app [4] x y). }
    replace (subarray (4 :: bytes) (1 + w) (1 + 2 * w)) with y.
    2: { symmetry. rewrite E. pose proof (subarray_app (4 :: x) y []) as H. rewrite app_nil_r, len_cons, Hx, Hy in H. replace (1 + w) with (w + 1) by lia.
         replace (1 + 2 * w) with (w + 1 + w) by lia. exact H. }
    split; [unfold point_encoding; cbn [ec_x ec_y]; by rewrite E|done].
  - intros [-> [Hx Hy]]. destruct p as [x y]. unfold point_encoding. cbn [ec_x ec_y] in *. fold w in Hx, Hy. split; [rewrite len_cons, len_app; split; [lia|done]|]. f_equal.
    + symmetry. rewrite <- Hx. exact (subarray_app [4] x y).
    + symmetry. pose proof (subarray_app (4 :: x) y []) as H. rewrite app_nil_r, len_cons, Hx, Hy in H. replace (1 + w) with (w + 1) by lia.
      replace (1 + 2 * w) with (w + 1 + w) by lia. exact H.
Qed.

Lemma point_parses {A} r curve (k : CryptoEcComponents * DerReader -> result A) Q : input r -> (forall p r', input r' -> parses (k (p, r')) (Q p r')) ->
  parses (ecBitString r curve ≫= k) (fun a => exists p r', (r = point_bits p ++ r' /\ point_ok curve p) /\ Q p r' a).
Proof.
  intros Hr Hk. apply pair_parses; [|intros p r' [-> _]; apply Hk; by apply input_tlv in Hr as [_ ?]]. unfold ecBitString.
  eapply parses_equiv; [do 2 parse_step; apply bind_parses; [apply parseEcPoint_parses|]; intros p _; apply ok_parses|]. intros [p r']. cbn [fst snd]. split.
  - by intros (c & r0 & -> & bytes & -> & p0 & [-> Hp] & [= -> ->]).
  - intros [-> Hp]. do 2 eexists. split; [done|]. eexists. split; [done|]. by exists p.
Qed.

(** ** Curves *)

Lemma curve_parses {A} r (k : CryptoNamedCurve * DerReader -> result A) Q : input r -> (forall curve r', input r' -> parses (k (curve, r')) (Q curve r')) ->
  parses (ecNamedCurve r ≫= k) (fun a => exists curve r', r = tlv 0x06 (curve_oid curve) ++ r' /\ Q curve r' a).
Proof.
  intros Hr Hk. apply pair_parses; [|intros p r' ->; apply Hk; by apply input_tlv in Hr as [_ ?]]. unfold ecNamedCurve. eapply parses_equiv.
  - apply read_parses; [done|]. intros oid r' _ _ _. apply (mk_parses _ _ (fun x => x.2 = r' /\ oid = curve_oid x.1)).
    + by repeat case_match.
    + intros [curve r2]. cbn [fst snd]. pose proof (oidEquals_spec oid p256Oid) as H1. pose proof (oidEquals_spec oid p384Oid) as H2. pose proof (oidEquals_spec oid p521Oid) as H3.
      split.
      * repeat case_match; try done; intros [= <- <-]; (split; [done|]); tauto.
      * intros [-> ->]. by destruct curve.
  - intros [curve r']. cbn [fst snd]. split; [by intros (oid & r2 & -> & -> & ->)|]. intros ->. by do 2 eexists.
Qed.

Lemma ec_algorithm_parses {A} r (k : CryptoNamedCurve * DerReader -> result A) Q : input r -> (forall curve r', input r' -> parses (k (curve, r')) (Q curve r')) ->
  parses (ecAlgorithm r ≫= k) (fun a => exists curve r', r = ec_algorithm curve ++ r' /\ Q curve r' a).
Proof.
  intros Hr Hk. apply pair_parses; [|intros p r' ->; apply Hk; by apply input_tlv in Hr as [_ ?]]. unfold ecAlgorithm. eapply parses_equiv.
  - do 2 parse_step. apply guard_parses; [rewrite negb_false_iff; apply oidEquals_spec|]. intros _. apply curve_parses; [done|]. intros ? ? ?. repeat parse_step.
  - intros [curve r']. cbn [fst snd]. split.
    + intros (c & r0 & -> & oid & r1 & -> & -> & curve0 & r2 & -> & -> & [= -> ->]). by rewrite app_nil_r.
    + intros ->. do 2 eexists. split; [done|]. do 2 eexists. split; [done|]. split; [done|]. do 2 eexists. split; [by rewrite app_nil_r|]. done.
Qed.

(** ** Optional fields *)

Lemma next_is_spec r tag : next_is r tag = true <-> head r = Some tag.
Proof. apply bool_decide_eq_true. Qed.

Lemma parameters_parses {A} required curve r (k : DerReader -> result A) Q : input r -> (forall r', input r' -> parses (k r') (Q r')) ->
  parses ((if next_is r 0xa0 then
             '(parameters, r) ← read 0xa0 r; '(curve', parameters) ← ecNamedCurve parameters;
             throw_if (negb (bool_decide (curve' = curve))) invalidDer ;; complete parameters ;; Ok r
           else throw_if required invalidDer ;; Ok r) ≫= k)
    (fun a => exists r', (r = tlv 0xa0 (tlv 0x06 (curve_oid curve)) ++ r' \/ (r' = r /\ head r <> Some 0xa0 /\ required = false)) /\ Q r' a).
Proof.
  intros Hr Hk. apply bind_parses; [|intros r' [->|[-> _]]; apply Hk; [by apply input_tlv in Hr as [_ ?]|done]]. destruct (next_is r 0xa0) eqn:Hn.
  - apply next_is_spec in Hn. eapply parses_equiv.
    + parse_step. apply curve_parses; [done|]. intros curve' ? ?. apply guard_parses; [rewrite negb_false_iff; apply bool_decide_eq_true|]. intros _. repeat parse_step.
    + intros r'. split.
      * intros (c & r0 & -> & curve' & r1 & -> & -> & -> & ->). left. by rewrite app_nil_r.
      * intros [->|(_ & ? & _)]; [|done]. do 2 eexists. split; [done|]. do 2 eexists. split; [by rewrite app_nil_r|]. done.
  - assert (head r <> Some 0xa0) by (rewrite <- next_is_spec; congruence). eapply parses_equiv; [apply guard_parses with (P := required = false); [done|intros _; apply ok_parses]|].
    intros r'. split; [intros [-> ->]; by right|]. intros [->|(-> & _ & ->)]; [|done]. done.
Qed.

Definition read_point (required : bool) (curve : CryptoNamedCurve) (r : DerReader) (o : option CryptoEcComponents) (r' : DerReader) : Prop :=
  match o with
  | Some p => r = tlv 0xa1 (point_bits p) ++ r' /\ point_ok curve p
  | None => r' = r /\ head r <> Some 0xa1 /\ required = false
  end.

Lemma public_parses {A} required curve r (k : option CryptoEcComponents * DerReader -> result A) Q : input r -> (forall o r', input r' -> parses (k (o, r')) (Q o r')) ->
  parses ((if next_is r 0xa1 then
             '(publicKey, r) ← read 0xa1 r; '(point, publicKey) ← ecBitString publicKey curve; complete publicKey ;; Ok (Some point, r)
           else throw_if required invalidDer ;; Ok (None, r)) ≫= k)
    (fun a => exists o r', read_point required curve r o r' /\ Q o r' a).
Proof.
  intros Hr Hk. apply pair_parses.
  2: { intros [p|] r'; [intros [-> _]|intros [-> _]]; apply Hk; [by apply input_tlv in Hr as [_ ?]|done]. }
  destruct (next_is r 0xa1) eqn:Hn.
  - apply next_is_spec in Hn. eapply parses_equiv; [parse_step; apply point_parses; [done|]; intros p ? ?; repeat parse_step|]. intros [o r']. cbn [fst snd]. split.
    + intros (c & r0 & -> & p & r1 & [-> Hp] & -> & [= -> ->]). split; [by rewrite app_nil_r|done].
    + destruct o as [p|]; [|by intros (_ & ? & _)]. intros [-> Hp]. do 2 eexists. split; [done|]. exists p, []. rewrite app_nil_r. done.
  - assert (head r <> Some 0xa1) by (rewrite <- next_is_spec; congruence). eapply parses_equiv; [apply guard_parses with (P := required = false); [done|intros _; apply ok_parses]|].
    intros [o r']. cbn [fst snd]. split; [by intros [-> [= -> ->]]|]. destruct o as [p|]; [intros [-> _]; done|]. by intros (-> & _ & ->).
Qed.

(** ** Keys *)

Lemma parseEcDer_parses format bytes required : input bytes -> parses (parseEcDer format bytes required) (fun k => ec_der required format k bytes).
Proof.
  intros Hb. unfold parseEcDer. destruct format.
  - eapply parses_equiv; [do 2 parse_step; apply ec_algorithm_parses; [done|intros ? ? ?]; apply point_parses; [done|intros ? ? ?]; repeat parse_step|]. intros k. split.
    + intros (c & r0 & -> & -> & curve & r1 & -> & p & r2 & [-> Hp] & -> & ->). rewrite !app_nil_r. by apply ec_der_spki.
    + intros Hk. inversion Hk as [curve p Hp|]; subst. do 2 eexists. split; [by rewrite app_nil_r|]. split; [done|]. do 2 eexists. split; [done|].
      exists p, []. rewrite app_nil_r. done.
  - eapply parses_equiv.
    + do 4 parse_step. apply ec_algorithm_parses; [done|intros ? ? ?]. do 7 parse_step. apply guard_parses with (P := len c2 = ecCurveByteLength curve); [lia|]. intros _.
      apply parameters_parses; [done|intros ? ?]. apply public_parses; [done|intros ? ? ?]. repeat parse_step.
    + intros k. split.
      * intros (c & r0 & -> & -> & v & r1 & -> & _ & -> & curve & r2 & -> & octets & r3 & -> & (attrs & -> & Ha) & key & r4 & -> & -> & v1 & r5 & -> & _ & -> & d & r6 & -> & Hd &
          r7 & Hparameters & point & r8 & Hpoint & -> & ->).
        rewrite app_nil_r. assert (Hkey : exists parameters, tlv 0x30 (der_integer [1] ++ tlv 0x04 d ++ r6) = ec_private_key curve d parameters point /\
          (forall p, point = Some p -> point_ok curve p) /\ (required = true -> parameters = true /\ is_Some point)).
        { unfold ec_private_key. destruct Hparameters as [->|(-> & _ & Hp)]; [exists true|exists false]; (destruct point as [p|]; [destruct Hpoint as [-> Hok]|destruct Hpoint as (<- & _ & Hq)]);
            rewrite ?app_nil_r; (split; [done|]); (split; [by intros ? [= <-]|]); intros; split; try done; congruence. }
        destruct Hkey as (parameters & -> & Hpt & Hreq). rewrite app_nil_r. by apply (ec_der_pkcs8 required curve d parameters point attrs).
      * intros Hk. inversion Hk as [|curve d parameters point attrs Hd Hpt Ha Hreq]; subst. do 2 eexists. split; [by rewrite app_nil_r|]. split; [done|].
        exists [0]. eexists. split; [done|]. split; [by left|]. split; [done|]. do 2 eexists. split; [done|]. do 2 eexists. split; [done|]. split; [by exists attrs|].
        do 2 eexists. split; [by rewrite app_nil_r|]. split; [done|]. exists [1]. eexists. split; [done|]. split; [right; exists 1, []; split; [done|lia]|]. split; [done|].
        do 2 eexists. split; [done|]. split; [done|]. exists (match point with Some p => tlv 0xa1 (point_bits p) | None => [] end). split.
        -- destruct parameters; [by left|]. right. split; [done|]. split; [by destruct point|]. destruct required; [|done]. by destruct (Hreq eq_refl).
        -- exists point, []. split; [|done]. destruct point as [p|]; cbn [read_point]; [rewrite app_nil_r; auto|]. split_and!; [done|done|].
           destruct required; [|done]. destruct (Hreq eq_refl) as [_ [? ?]]. done.
Qed.

(** C20: Exactly the DER encodings of a curve with its point and scalar are accepted,
    and any other input is a DataError. *)
Theorem ec_der_canonical format bytes required : input bytes ->
  (forall k, parseEcDer format bytes required = Ok k <-> ec_der required format k bytes) /\
  ((forall k, ~ ec_der required format k bytes) -> parseEcDer format bytes required = Err invalidDer).
Proof. intros Hb. by apply parses_exact, parseEcDer_parses. Qed.

(** A private key with an attribute, without the fields that imports may omit. *)
Lemma ec_der_canonical_witness :
  let d := replicate 32 1 in
  let bytes := pkcs8_encoding (ec_algorithm P256) (ec_private_key P256 d false None) (Some (tlv 0x30 (tlv 0x06 [0x2a; 0x03] ++ tlv 0x31 (tlv 0x05 [])))) in
  parseEcDer Pkcs8 bytes false = Ok (mk_ec P256 None None (Some d)) /\ ec_der false Pkcs8 (mk_ec P256 None None (Some d)) bytes /\
  parseEcDer Pkcs8 bytes true = Err invalidDer.
Proof.
  intros d bytes. assert (Hb : input bytes) by (apply (bool_decide_unpack (input bytes)); by vm_compute).
  assert (Hok : parseEcDer Pkcs8 bytes false = Ok (mk_ec P256 None None (Some d))) by by vm_compute. split; [exact Hok|]. split; [|by vm_compute].
  by apply (ec_der_canonical Pkcs8 bytes false).
Defined.
