(* ===== verification/DerOkp.v ===== *)
(** * Octet keys: curves of RFC 8410, ML-DSA and ML-KEM ([parseOkpDer], [parseMlDer],
    [crypto/der.ts], [crypto/okp-curve.ts], [crypto/ml-parameters.ts])

    The keys are octet strings whose length the algorithm determines.
    [okp_der_canonical] and [ml_der_canonical] say that the parsers accept exactly
    the DER encodings of the keys that they return. *)

From S2P Require Import Prelude Der DerValues DerAttributes DerEnvelope.
Local Open Scope Z_scope.

Inductive CryptoOkpCurve := Ed25519 | X25519 | Ed448 | X448.

Definition okpCurveByteLength (namedCurve : CryptoOkpCurve) : Z := match namedCurve with Ed25519 | X25519 => 32 | Ed448 => 57 | X448 => 56 end.

Record OkpDerKey := mk_okp { okp_curve : CryptoOkpCurve; okp_x : option (list Z); okp_d : option (list Z) }.

Definition okpAlgorithm (reader : DerReader) : result (CryptoOkpCurve * DerReader) :=
  '(algorithm, reader) ← read 0x30 reader;
  '(oid, algorithm) ← read 0x06 algorithm;
  complete algorithm ;;
  throw_if (negb (len oid =? 3) || negb (at_or 0 oid 0 =? 0x2b) || negb (at_or 0 oid 1 =? 0x65)) invalidDer ;;
  if at_or 0 oid 2 =? 0x70 then Ok (Ed25519, reader)
  else if at_or 0 oid 2 =? 0x6e then Ok (X25519, reader)
  else if at_or 0 oid 2 =? 0x71 then Ok (Ed448, reader)
  else if at_or 0 oid 2 =? 0x6f then Ok (X448, reader)
  else Err invalidDer.

Definition parseOkpDer (format : der_format) (bytes : list Z) : result OkpDerKey :=
  '(envelope, source) ← read 0x30 bytes;
  complete source ;;
  match format with
  | Spki =>
      '(namedCurve, envelope) ← okpAlgorithm envelope;
      '(publicKey, envelope) ← read 0x03 envelope;
      x ← whole_octets publicKey;
      throw_if (negb (len x =? okpCurveByteLength namedCurve)) invalidDer ;;
      complete envelope ;;
      Ok (mk_okp namedCurve (Some x) None)
  | Pkcs8 =>
      '(version, envelope) ← integer true envelope;
      check_version version 0 ;;
      '(namedCurve, envelope) ← okpAlgorithm envelope;
      '(privateOctets, envelope) ← read 0x04 envelope;
      finish_private envelope ;;
      '(d, privateOctets) ← read 0x04 privateOctets;
      complete privateOctets ;;
      throw_if (negb (len d =? okpCurveByteLength namedCurve)) invalidDer ;;
      Ok (mk_okp namedCurve None (Some d))
  end.

Inductive CryptoMlAlgorithmName := ML_DSA_44 | ML_DSA_65 | ML_DSA_87 | ML_KEM_512 | ML_KEM_768 | ML_KEM_1024.

Definition isMlKemAlgorithm (name : CryptoMlAlgorithmName) : bool := match name with ML_KEM_512 | ML_KEM_768 | ML_KEM_1024 => true | _ => false end.
Definition mlPublicKeyLength (name : CryptoMlAlgorithmName) : Z :=
  match name with ML_KEM_512 => 800 | ML_KEM_768 => 1184 | ML_KEM_1024 => 1568 | ML_DSA_44 => 1312 | ML_DSA_65 => 1952 | ML_DSA_87 => 2592 end.
Definition mlSeedLength (name : CryptoMlAlgorithmName) : Z := if isMlKemAlgorithm name then 64 else 32.
Definition mlExpandedKeyLength (name : CryptoMlAlgorithmName) : Z :=
  match name with ML_KEM_512 => 1632 | ML_KEM_768 => 2400 | ML_KEM_1024 => 3168 | ML_DSA_44 => 2560 | ML_DSA_65 => 4032 | ML_DSA_87 => 4896 end.

Record MlDerKey := mk_ml { ml_name : CryptoMlAlgorithmName; ml_pub : option (list Z); ml_seed : option (list Z); ml_expanded : option (list Z) }.

Definition ml_prefix : list Z := [0x60; 0x86; 0x48; 0x01; 0x65; 0x03; 0x04].

Definition mlAlgorithm (reader : DerReader) : result (CryptoMlAlgorithmName * DerReader) :=
  '(algorithm, reader) ← read 0x30 reader;
  '(oid, algorithm) ← read 0x06 algorithm;
  complete algorithm ;;
  throw_if (negb (len oid =? len ml_prefix + 2)) invalidDer ;;
  throw_if (negb (same_octets oid ml_prefix)) invalidDer ;;
  let kind := at_or 0 oid 7 in
  let parameter := at_or 0 oid 8 in
  if kind =? 0x03 then
    if parameter =? 17 then Ok (ML_DSA_44, reader)
    else if parameter =? 18 then Ok (ML_DSA_65, reader)
    else if parameter =? 19 then Ok (ML_DSA_87, reader)
    else Err invalidDer
  else if kind =? 0x04 then
    if parameter =? 1 then Ok (ML_KEM_512, reader)
    else if parameter =? 2 then Ok (ML_KEM_768, reader)
    else if parameter =? 3 then Ok (ML_KEM_1024, reader)
    else Err invalidDer
  else Err invalidDer.

Definition parseMlDer (format : der_format) (bytes : list Z) : result MlDerKey :=
  '(envelope, source) ← read 0x30 bytes;
  complete source ;;
  match format with
  | Spki =>
      '(name, envelope) ← mlAlgorithm envelope;
      '(publicKey, envelope) ← read 0x03 envelope;
      pub ← whole_octets publicKey;
      throw_if (negb (len pub =? mlPublicKeyLength name)) invalidDer ;;
      complete envelope ;;
      Ok (mk_ml name (Some pub) None None)
  | Pkcs8 =>
      '(version, envelope) ← integer true envelope;
      check_version version 0 ;;
      '(name, envelope) ← mlAlgorithm envelope;
      '(privateOctets, envelope) ← read 0x04 envelope;
      finish_private envelope ;;
      tag ← peek privateOctets;
      '(seed, expanded, privateOctets) ←
        (if tag =? 0x80 then '(seed, privateOctets) ← read 0x80 privateOctets; Ok (Some seed, None, privateOctets)
         else if tag =? 0x04 then '(expanded, privateOctets) ← read 0x04 privateOctets; Ok (None, Some expanded, privateOctets)
         else
           '(both, privateOctets) ← read 0x30 privateOctets;
           '(seed, both) ← read 0x04 both;
           '(expanded, both) ← read 0x04 both;
           complete both ;;
           Ok (Some seed, Some expanded, privateOctets));
      complete privateOctets ;;
      throw_if (match seed with Some seed => negb (len seed =? mlSeedLength name) | None => false end) invalidDer ;;
      throw_if (match expanded with Some expanded => negb (len expanded =? mlExpandedKeyLength name) | None => false end) invalidDer ;;
      Ok (mk_ml name None seed expanded)
  end.

(** ** Specification *)

Definition okp_oid (curve : CryptoOkpCurve) : list Z := [0x2b; 0x65; match curve with Ed25519 => 0x70 | X25519 => 0x6e | Ed448 => 0x71 | X448 => 0x6f end].
Definition ml_oid (name : CryptoMlAlgorithmName) : list Z :=
  ml_prefix ++ match name with ML_DSA_44 => [3; 17] | ML_DSA_65 => [3; 18] | ML_DSA_87 => [3; 19] | ML_KEM_512 => [4; 1] | ML_KEM_768 => [4; 2] | ML_KEM_1024 => [4; 3] end.
(** An algorithm without parameters. *)
Definition plain_algorithm (oid : list Z) : list Z := tlv 0x30 (tlv 0x06 oid).

Inductive okp_der : der_format -> OkpDerKey -> list Z -> Prop :=
| okp_der_spki curve x : len x = okpCurveByteLength curve -> okp_der Spki (mk_okp curve (Some x) None) (spki_encoding (plain_algorithm (okp_oid curve)) x)
| okp_der_pkcs8 curve d attrs : len d = okpCurveByteLength curve -> attributes_ok attrs ->
    okp_der Pkcs8 (mk_okp curve None (Some d)) (pkcs8_encoding (plain_algorithm (okp_oid curve)) (tlv 0x04 d) attrs).

(** The seed, the expanded key, or both. *)
Inductive ml_private_key : option (list Z) -> option (list Z) -> list Z -> Prop :=
| ml_seed_only seed : ml_private_key (Some seed) None (tlv 0x80 seed)
| ml_expanded_only expanded : ml_private_key None (Some expanded) (tlv 0x04 expanded)
| ml_both seed expanded : ml_private_key (Some seed) (Some expanded) (tlv 0x30 (tlv 0x04 seed ++ tlv 0x04 expanded)).

Inductive ml_der : der_format -> MlDerKey -> list Z -> Prop :=
| ml_der_spki name pub : len pub = mlPublicKeyLength name -> ml_der Spki (mk_ml name (Some pub) None None) (spki_encoding (plain_algorithm (ml_oid name)) pub)
| ml_der_pkcs8 name seed expanded key attrs : ml_private_key seed expanded key -> (forall s, seed = Some s -> len s = mlSeedLength name) ->
    (forall e, expanded = Some e -> len e = mlExpandedKeyLength name) -> attributes_ok attrs ->
    ml_der Pkcs8 (mk_ml name None seed expanded) (pkcs8_encoding (plain_algorithm (ml_oid name)) key attrs).

(** ** Algorithm identifiers *)

(** A last check that decides between the values of a type. *)
Lemma choice_parses {A} (m : result (A * DerReader)) r (P : A -> Prop) :
  strict m -> (forall a r', m = Ok (a, r') <-> r' = r /\ P a) -> parses m (fun x => x.2 = r /\ P x.1).
Proof. intros Hs Hm. split; [done|]. intros [a r']. apply Hm. Qed.

Lemma okp_oid_checked oid : negb (len oid =? 3) || negb (at_or 0 oid 0 =? 0x2b) || negb (at_or 0 oid 1 =? 0x65) = false <-> exists last, oid = [0x2b; 0x65; last].
Proof.
  rewrite !orb_false_iff, !negb_false_iff, !Z.eqb_eq. split.
  - intros [[Hl H0] H1]. destruct oid as [|a [|b [|c [|d oid]]]]; try (unfold len in Hl; cbn in Hl; lia).
    change (at_or 0 [a; b; c] 0) with a in H0. change (at_or 0 [a; b; c] 1) with b in H1. subst a b. by exists c.
  - by intros [last ->].
Qed.

Lemma okp_algorithm_parses {A} r (k : CryptoOkpCurve * DerReader -> result A) Q : input r -> (forall curve r', input r' -> parses (k (curve, r')) (Q curve r')) ->
  parses (okpAlgorithm r ≫= k) (fun a => exists curve r', r = plain_algorithm (okp_oid curve) ++ r' /\ Q curve r' a).
Proof.
  intros Hr Hk. apply pair_parses; [|intros p r' ->; apply Hk; by apply input_tlv in Hr as [_ ?]]. unfold okpAlgorithm. eapply parses_equiv.
  - do 3 parse_step. apply guard_parses; [apply okp_oid_checked|]. intros [last Hl]. apply choice_parses with (P := fun curve => c0 = okp_oid curve).
    + by repeat case_match.
    + intros curve r2. subst c0. change (at_or 0 [43; 101; last] 2) with last. split.
      * repeat case_match; try done; intros [= <- <-]; (split; [done|]); unfold okp_oid; f_equal; f_equal; f_equal; lia.
      * intros [-> [= ->]]. by destruct curve.
  - intros [curve r']. cbn [fst snd]. split.
    + intros (c & r0 & -> & oid & r1 & -> & -> & _ & -> & ->). by rewrite app_nil_r.
    + intros ->. do 2 eexists. split; [done|]. do 2 eexists. split; [by rewrite app_nil_r|]. split; [done|]. split; [by eexists|done].
Qed.

Lemma ml_oid_checked oid : len oid = len ml_prefix + 2 -> negb (same_octets oid ml_prefix) = false <-> exists kind parameter, oid = ml_prefix ++ [kind; parameter].
Proof.
  intros Hl. rewrite negb_false_iff. do 9 (destruct oid as [|? oid]; [unfold len in Hl; cbn in Hl; lia|]). destruct oid as [|? oid]; [|unfold len in Hl; cbn in Hl; lia].
  cbn [same_octets ml_prefix]. rewrite !andb_true_iff, !Z.eqb_eq. split.
  - intros (-> & -> & -> & -> & -> & -> & -> & _). by do 2 eexists.
  - by intros (kind & parameter & [= -> -> -> -> -> -> -> -> ->]).
Qed.

Lemma ml_algorithm_parses {A} r (k : CryptoMlAlgorithmName * DerReader -> result A) Q : input r -> (forall name r', input r' -> parses (k (name, r')) (Q name r')) ->
  parses (mlAlgorithm r ≫= k) (fun a => exists name r', r = plain_algorithm (ml_oid name) ++ r' /\ Q name r' a).
Proof.
  intros Hr Hk. apply pair_parses; [|intros p r' ->; apply Hk; by apply input_tlv in Hr as [_ ?]]. unfold mlAlgorithm. eapply parses_equiv.
  - do 3 parse_step. apply guard_parses with (P := len c0 = len ml_prefix + 2); [lia|]. intros Hl. apply guard_parses; [by apply ml_oid_checked|].
    intros (kind & parameter & Hoid). apply choice_parses with (P := fun name => c0 = ml_oid name).
    + by repeat case_match.
    + intros name r2. subst c0. change (at_or 0 (ml_prefix ++ [kind; parameter]) 7) with kind. change (at_or 0 (ml_prefix ++ [kind; parameter]) 8) with parameter. cbv zeta. split.
      * repeat case_match; try done; intros [= <- <-]; (split; [done|]); unfold ml_oid; repeat f_equal; lia.
      * intros [-> E%app_inv_head]. by destruct name; injection E as -> ->.
  - intros [name r']. cbn [fst snd]. split.
    + intros (c & r0 & -> & oid & r1 & -> & -> & _ & _ & -> & ->). by rewrite app_nil_r.
    + intros ->. do 2 eexists. split; [done|]. do 2 eexists. split; [by rewrite app_nil_r|]. split; [done|]. split; [by destruct name|]. split; [by destruct name; do 2 eexists|done].
Qed.

(** ** Keys *)

Lemma parseOkpDer_parses format bytes : input bytes -> parses (parseOkpDer format bytes) (fun k => okp_der format k bytes).
Proof.
  intros Hb. unfold parseOkpDer. destruct format.
  - eapply parses_equiv.
    + do 2 parse_step. apply okp_algorithm_parses; [done|intros ? ? ?]. do 2 parse_step. apply guard_parses with (P := len r'2 = okpCurveByteLength curve); [lia|]. intros _. repeat parse_step.
    + intros k. split.
      * intros (c & r0 & -> & -> & curve & r1 & -> & bits & r2 & -> & x & -> & Hx & -> & ->). rewrite !app_nil_r. by constructor.
      * intros Hk. inversion Hk as [curve x Hx|]; subst. do 2 eexists. split; [by rewrite app_nil_r|]. split; [done|]. do 2 eexists. split; [done|].
        do 2 eexists. split; [by rewrite app_nil_r|]. by eexists.
  - eapply parses_equiv.
    + do 4 parse_step. apply okp_algorithm_parses; [done|intros ? ? ?]. do 4 parse_step. apply guard_parses with (P := len c1 = okpCurveByteLength curve); [lia|]. intros _. repeat parse_step.
    + intros k. split.
      * intros (c & r0 & -> & -> & v & r1 & -> & _ & -> & curve & r2 & -> & octets & r3 & -> & (attrs & -> & Ha) & d & r4 & -> & -> & Hd & ->). rewrite !app_nil_r.
        by apply (okp_der_pkcs8 curve d attrs).
      * intros Hk. inversion Hk as [|curve d attrs Hd Ha]; subst. do 2 eexists. split; [by rewrite app_nil_r|]. split; [done|]. exists [0]. eexists. split; [done|]. split; [by left|].
        split; [done|]. do 2 eexists. split; [done|]. do 2 eexists. split; [done|]. split; [by exists attrs|]. do 2 eexists. split; [by rewrite app_nil_r|]. done.
Qed.

(** The three forms of a private key. *)
Lemma ml_private_parses {A} r (k : option (list Z) * option (list Z) * DerReader -> result A) Q : input r ->
  (forall seed expanded r', input r' -> parses (k (seed, expanded, r')) (Q seed expanded r')) ->
  parses (tag ← peek r;
      (if tag =? 0x80 then '(seed, r) ← read 0x80 r; Ok (Some seed, None, r)
       else if tag =? 0x04 then '(expanded, r) ← read 0x04 r; Ok (None, Some expanded, r)
       else '(both, r) ← read 0x30 r; '(seed, both) ← read 0x04 both; '(expanded, both) ← read 0x04 both; complete both ;; Ok (Some seed, Some expanded, r)) ≫= k)
    (fun a => exists seed expanded r', (exists key, r = key ++ r' /\ ml_private_key seed expanded key) /\ Q seed expanded r' a).
Proof.
  intros Hr Hk. destruct r as [|tag r]; cbn [peek mbind result_bind].
  { split; [done|]. intros a. split; [done|]. intros (seed & expanded & r' & (key & E & Hkey) & _). by destruct Hkey. }
  set (m := if tag =? 0x80 then _ else _). eapply parses_equiv; [apply (pair_parses m k (fun se r' => exists key, tag :: r = key ++ r' /\ ml_private_key se.1 se.2 key) (fun se r' => Q se.1 se.2 r'))|].
  - unfold m. destruct (Z.eqb_spec tag 0x80) as [->|H80]; [|destruct (Z.eqb_spec tag 0x04) as [->|H4]].
    + eapply parses_equiv; [repeat parse_step|]. intros [[seed expanded] r']. cbn [fst snd]. split.
      * intros (c & r0 & -> & [= -> -> ->]). exists (tlv 0x80 c). split; [done|constructor].
      * intros (key & E & Hkey). destruct Hkey; try done. by do 2 eexists.
    + eapply parses_equiv; [repeat parse_step|]. intros [[seed expanded] r']. cbn [fst snd]. split.
      * intros (c & r0 & -> & [= -> -> ->]). exists (tlv 0x04 c). split; [done|constructor].
      * intros (key & E & Hkey). destruct Hkey; try done. by do 2 eexists.
    + eapply parses_equiv; [repeat parse_step|]. intros [[seed expanded] r']. cbn [fst snd]. split.
      * intros (c & r0 & -> & s & r1 & -> & e & r2 & -> & -> & [= -> -> ->]). rewrite app_nil_r. eexists. split; [done|constructor].
      * intros (key & E & Hkey). destruct Hkey; [by injection E|by injection E|]. do 2 eexists. split; [done|]. do 2 eexists. split; [done|]. do 2 eexists. split; [by rewrite app_nil_r|]. done.
  - intros [seed expanded] r' (key & E & _). apply Hk. rewrite E in Hr. by apply input_app in Hr as [_ ?].
  - intros a. split; [intros ([seed expanded] & r' & H & HQ); by exists seed, expanded, r'|]. intros (seed & expanded & r' & H & HQ). by exists (seed, expanded), r'.
Qed.

Lemma option_checked (o : option (list Z)) n : match o with Some v => negb (len v =? n) | None => false end = false <-> forall v, o = Some v -> len v = n.
Proof. destruct o as [v|]; [|by split]. rewrite negb_false_iff, Z.eqb_eq. split; [by intros ? ? [= <-]|auto]. Qed.

Lemma parseMlDer_parses format bytes : input bytes -> parses (parseMlDer format bytes) (fun k => ml_der format k bytes).
Proof.
  intros Hb. unfold parseMlDer. destruct format.
  - eapply parses_equiv.
    + do 2 parse_step. apply ml_algorithm_parses; [done|intros ? ? ?]. do 2 parse_step. apply guard_parses with (P := len r'2 = mlPublicKeyLength name); [lia|]. intros _. repeat parse_step.
    + intros k. split.
      * intros (c & r0 & -> & -> & name & r1 & -> & bits & r2 & -> & x & -> & Hx & -> & ->). rewrite !app_nil_r. by constructor.
      * intros Hk. inversion Hk as [name x Hx|]; subst. do 2 eexists. split; [by rewrite app_nil_r|]. split; [done|]. do 2 eexists. split; [done|].
        do 2 eexists. split; [by rewrite app_nil_r|]. by eexists.
  - eapply parses_equiv.
    + do 4 parse_step. apply ml_algorithm_parses; [done|intros ? ? ?]. do 2 parse_step. apply ml_private_parses; [done|intros ? ? ? ?]. parse_step.
      do 2 (apply guard_parses; [apply option_checked|]; intros _). repeat parse_step.
    + intros k. split.
      * intros (c & r0 & -> & -> & v & r1 & -> & _ & -> & name & r2 & -> & octets & r3 & -> & (attrs & -> & Ha) & seed & expanded & r4 & (key & -> & Hkey) & -> & Hs & He & ->).
        rewrite !app_nil_r. by apply (ml_der_pkcs8 name seed expanded key attrs).
      * intros Hk. inversion Hk as [|name seed expanded key attrs Hkey Hs He Ha]; subst. do 2 eexists. split; [by rewrite app_nil_r|]. split; [done|]. exists [0]. eexists. split; [done|].
        split; [by left|]. split; [done|]. do 2 eexists. split; [done|]. do 2 eexists. split; [done|]. split; [by exists attrs|]. exists seed, expanded, [].
        split; [by exists key; rewrite app_nil_r|]. done.
Qed.

(** Exactly the DER encodings of the octets of a curve's keys are accepted. *)
Theorem okp_der_canonical format bytes : input bytes ->
  (forall k, parseOkpDer format bytes = Ok k <-> okp_der format k bytes) /\
  ((forall k, ~ okp_der format k bytes) -> parseOkpDer format bytes = Err invalidDer).
Proof. intros Hb. by apply parses_exact, parseOkpDer_parses. Qed.

(** An Ed25519 key; parameters are refused. *)
Lemma okp_der_canonical_witness :
  let bytes := spki_encoding (plain_algorithm (okp_oid Ed25519)) (replicate 32 7) in
  parseOkpDer Spki bytes = Ok (mk_okp Ed25519 (Some (replicate 32 7)) None) /\ okp_der Spki (mk_okp Ed25519 (Some (replicate 32 7)) None) bytes /\
  parseOkpDer Spki (spki_encoding (tlv 0x30 (tlv 0x06 (okp_oid Ed25519) ++ tlv 0x05 [])) (replicate 32 7)) = Err invalidDer.
Proof.
  intros bytes. assert (Hb : input bytes) by (apply (bool_decide_unpack (input bytes)); by vm_compute).
  assert (Hok : parseOkpDer Spki bytes = Ok (mk_okp Ed25519 (Some (replicate 32 7)) None)) by by vm_compute. split; [exact Hok|]. split; [|by vm_compute].
  by apply (okp_der_canonical Spki bytes).
Defined.

(** Exactly the DER encodings of the seeds and expanded keys of ML-DSA and ML-KEM are accepted. *)
Theorem ml_der_canonical format bytes : input bytes ->
  (forall k, parseMlDer format bytes = Ok k <-> ml_der format k bytes) /\
  ((forall k, ~ ml_der format k bytes) -> parseMlDer format bytes = Err invalidDer).
Proof. intros Hb. by apply parses_exact, parseMlDer_parses. Qed.

(** A seed of ML-KEM, and the same octets as a seed of ML-DSA. *)
Lemma ml_der_canonical_witness :
  let bytes := pkcs8_encoding (plain_algorithm (ml_oid ML_KEM_768)) (tlv 0x80 (replicate 64 9)) None in
  let k := mk_ml ML_KEM_768 None (Some (replicate 64 9)) None in
  parseMlDer Pkcs8 bytes = Ok k /\ ml_der Pkcs8 k bytes /\
  parseMlDer Pkcs8 (pkcs8_encoding (plain_algorithm (ml_oid ML_DSA_44)) (tlv 0x80 (replicate 64 9)) None) = Err invalidDer.
Proof.
  intros bytes k. assert (Hb : input bytes) by (apply (bool_decide_unpack (input bytes)); by vm_compute).
  assert (Hok : parseMlDer Pkcs8 bytes = Ok k) by by vm_compute. split; [exact Hok|]. split; [|by vm_compute].
  by apply (ml_der_canonical Pkcs8 bytes).
Defined.
